(* ===== verification/_CoqProject ===== *)
-Q . S2P
Prelude.v
CoreIds.v
TupleHeader.v
Snapshot.v
Visibility.v
Savepoint.v
Lock.v
LockRace.v
Deadlock.v
Ssi.v
TxnManager.v
TxnSystem.v
TxnRace.v
TxnIsolation.v
TwoPhase.v
TwoPhaseRace.v
WalRecord.v
WalLog.v
WalBuffer.v
WalSegment.v
WalPayload.v
WalPayloadIndex.v
WalSections.v
WalPayloadHeap.v
WalSink.v
WalRecovery.v
WalWriter.v
WalDurability.v
WalTruncate.v
WalReader.v
Bytes.v
Page.v
PageSpec.v
BtNode.v
BtNodeSpec.v
BTree.v
BTreeInv.v
BTreeLeaf.v
BTreeInner.v
BTreeOps.v
BTreeReads.v
BTreeScan.v
BTreeSpec.v
BTreeRefine.v
BufPool.v
BufPoolSpec.v
BufPoolOps.v
BufPoolRefine.v
PoolRace.v
PoolIndex.v
WalPayloadSequence.v
Sequence.v
SequenceRedo.v
HeapMaps.v
UndoLog.v
UndoLogSpec.v
UndoRead.v
WalBufferSink.v
Heap.v
HeapRedo.v
HeapPage.v
HeapReplay.v
HeapTrace.v
HeapLogic.v
HeapInsert.v
HeapChange.v
HeapUpdate.v
HeapTable.v
HeapRecover.v
HeapServer.v
HeapScan.v
HeapScanRefine.v
HeapInPlace.v
HeapRollback.v
HeapVacuum.v
HeapVacuumSpec.v
AutoVacuum.v
HeapExamples.v
