(* ===== verification/Prelude.v ===== *)
(** * UltraSQL: a verification development of the storage and transaction core

    UltraSQL is a SQL database server. This library models the part of it that
    decides what survives and what is seen: transactions and their isolation
    (crates ultrasql-mvcc and ultrasql-txn), the write-ahead log (ultrasql-wal)
    and the pages and indexes below them (ultrasql-storage), over the
    identifiers and codecs of ultrasql-core. Every definition that models code
    is a translation of the source; the specifications it is measured against
    are separate definitions, named as such.

    ** The parts and how they interact

    A statement reads tuples through a [Snapshot] that the transaction manager
    built; the visibility predicate consults the manager as its status oracle
    (class [XidStatusOracle]). Savepoints give a transaction a family of
    subtransaction identifiers whose outcome the manager settles at commit or
    abort. Writers take locks from the lock manager; the deadlock detector reads
    its wait queues. Serializable transactions are also tracked in the conflict
    graph of ssi.rs, whose garbage collection uses the manager's horizon.
    Changes are logged: records are appended to a buffer, the writer thread
    drains it into segment files and publishes the durable position, recovery
    replays the segments, truncation recycles them, a standby reads ranges.
    Tuples and index nodes live on slotted pages held by the buffer pool; the
    heap and the B-tree change their pages, append the record through the
    [WalSink] interface and stamp the page; a refused record poisons the pool.
    The pool writes a page back only below the durable end of the log. After a
    crash the records are dispatched to a recovery target, which redoes them on
    the pages.

    ** Files and what they model

    Foundations.
    - Prelude: machine integers with their wrap-around, results, the
      little-endian codec (ultrasql-core endian.rs), list and map lemmas, the
      hint database [ultra] and the development's tactics.
    - CoreIds: identifiers (id.rs, constants.rs).
    - Bytes: byte arrays addressed by offset, with the frame laws of writes.

    Transactions.
    - TupleHeader: the forty-byte header and its codec (tuple_header.rs).
    - Snapshot, Visibility: snapshot.rs, status.rs, visibility.rs, and the
      declarative specification of visibility.
    - Savepoint: savepoint.rs against nested undo of sets of writes.
    - Lock, LockRace, Deadlock: lock.rs and row_lock.rs. A blocking acquisition
      is a sequence of critical sections; LockRace splits the acquisition at the
      point where the source holds no lock.
    - Ssi: ssi.rs.
    - TxnManager: the operations of manager.rs; TxnSystem: a transition system
      whose steps are those operations in any order, with its invariant;
      TxnIsolation: what holds in its reachable states and after a restart; TxnRace:
      the phases of [begin] as separate steps.
    - TwoPhase: two_phase.rs (the state file and its parser, the directory, the
      coordinator); TwoPhaseRace: sessions that prepare and resolve
      transactions, step by step over the manager's system (session/txn.rs of
      the server), crashes and restarts.

    Write-ahead log.
    - WalRecord, WalPayload, WalPayloadIndex, WalPayloadSequence,
      WalPayloadHeap: record.rs, payload/mod.rs, txn.rs, btree.rs, hash.rs,
      sequence.rs, heap_insert.rs, heap_update.rs, heap_delete.rs (WalSections:
      the shared lemmas on their length-prefixed sections). The interface
      [PayloadCodec] says what producers and consumers rely on; the payloads are
      its instances.
    - WalLog: the abstract log, the specification of the files that follow.
    - WalBuffer (buffer.rs), WalSegment (segment.rs, manifest.rs), WalWriter
      (writer.rs), WalRecovery (recovery.rs), WalTruncate (truncate.rs),
      WalReader (reader.rs).
    - WalDurability: buffer, writer, crash and recovery together.
    - WalSink, WalBufferSink: the interface the access methods log through
      (storage wal_sink.rs) and the server's implementation of it over the
      buffer (server wal_sink.rs).

    Storage.
    - Page: page.rs and checksum.rs at the level of the 8192 bytes; PageSpec:
      the abstract page (its list of slots) and the refinement.
    - BtNode, BTree: the directory btree/ (nodes, insertion with splits and root
      growth, deletion, lookups, scans, vacuum); BtNodeSpec: what the bytes of a
      node say; BTreeInv: the B-link invariant and descents;
      BTreeLeaf, BTreeInner: structural changes; BTreeOps, BTreeReads, BTreeScan:
      every operation; BTreeSpec, BTreeRefine: runs of operations against a
      sorted multimap and against a finite map.
    - BufPool: buffer_pool.rs as whole calls (fetch, CLOCK eviction, guards,
      flushes, relief); BufPoolSpec, BufPoolOps, BufPoolRefine:
      its invariant and its refinement of a map of pages, over any store that
      meets the interface [PageStore]; PoolRace: the fetch path as interleaved
      steps; PoolIndex: an index operation and a flush together.
    - Sequence, SequenceRedo: sequence.rs, the sequence part of
      recovery_target.rs, and concurrent callers.
    - HeapMaps: the free-space and visibility maps (fsm.rs, vm.rs).
    - Heap: the row operations of the directory heap/ (insertion with its search
      for room, fetch, deletion, update on the same or another page, full-page
      images, records, poisoning); HeapRedo: wal_applier.rs, applier.rs and the
      recovery target of the server, for the records those operations write.
      HeapPage, HeapReplay: the action of a record on one page and the
      replay of a log page by page; HeapTrace: logged changes of the pages and
      the interface [LogSink] the heap asks of its sink; HeapLogic: a program
      logic for the heap monad; HeapInsert, HeapChange, HeapUpdate:
      what each operation does; HeapTable: the table of rows the heap
      implements; HeapRecover: runs, crashes and recovery, and the server's sink
      as an instance of [LogSink]; HeapServer: where the server's recovery and
      the search for room fall short.
    - UndoLog: the undo log of in-place updates (heap/mod.rs); UndoLogSpec: the
      timeline of records it stands for; UndoRead: what a snapshot reads
      through it.
    - HeapScan: the walker and the visitor (scan.rs, walker.rs); HeapScanRefine:
      the rows a snapshot is entitled to, and that the scans return them.
    - HeapInPlace: the point update in place, its rollback and the rollback of
      delete stamps (update_inplace.rs, delete.rs); HeapRollback: what the
      rollback does to the rows and the logs.
    - HeapVacuum: vacuum.rs; HeapVacuumSpec: its passes below a horizon;
      AutoVacuum: the cycle the server runs (server_wal_recovery.rs, config.rs)
      over the heap and the transaction manager.
    - HeapExamples: witnesses on small tables and the divergences found there.

    ** What the theorems show

    - Isolation: a snapshot answers the same question the same way forever; the
      outcome of a transaction never changes; a family commits or aborts as one;
      the vacuum horizon never passes a transaction a live reader may need; the
      commit log survives a checkpoint; the visibility predicate is the
      declarative one; savepoints are nested undo.
    - Two-phase commit: every interleaving of sessions logs at most one decision
      per prepared transaction and the commit log agrees with it; a crash at any
      point leaves every transaction in doubt recoverable; the state file is
      parsed exactly.
    - Locks: no two conflicting grants in any reachable table, exact releases;
      the deadlock search terminates, and a victim is named iff there is a cycle.
    - Serializability: the commit test is exactly the pivot condition; the
      two-transaction write skew is refused when both reads were recorded.
    - Log: for every pattern of I/O failures and every crash, what was reported
      durable is replayed; recovery of a log replays exactly its records, stops
      at its targets and agrees with tail repair; the buffer implements the
      abstract log; truncation never removes a record above the floor; encoders
      and decoders are inverse on exactly the well-formed inputs.
    - Pages and indexes: page operations implement operations on slots, redo is
      independent of the order of slots, and a page is accepted iff well formed;
      every run of B-tree operations completes and answers like the sorted list
      of entries, under every pattern of failed fetches and refused records;
      under unique insertion the index is a map.
    - Buffer pool: guards read and write the page they were given for, the pool
      is a map of pages, nothing reaches the store above the durable end of the
      log, a fetch is exhausted exactly when every frame is pinned or dirty, and
      relief frees a frame.
    - Sequences: values stay in their bounds and follow a closed form; redo
      restores the state; concurrent callers never receive a value twice.
    - Heap: an operation performs the step of the abstract table or leaves it
      alone; every operation returns; after any run and a crash that leaves each
      page at any state of the run, redo makes every page byte for byte what the
      run left; with full-page images also from pages whose content was lost.
      The server's sink meets the interface those theorems assume, and knows the
      last and the oldest record of every transaction.
    - Undo and scans: the indexed undo log is a list of records; reading through
      it undoes exactly the writes the snapshot does not see; both scans return
      exactly the snapshot's rows, in order; the rollback of in-place updates
      restores every row its transaction wrote and drops exactly its records.
    - Vacuum: in every reachable state of the transaction manager a cycle at the
      vacuum horizon returns and changes nothing any open transaction scans; the
      heap pass frees exactly the dead slots.
    - Divergences: the theorems named [..._breaks_...], [..._missed],
      [..._vs_documentation], [..._loses_...], [stale_hit_panics],
      [sequence_reissued_after_redo], [index_leaf_flushed_before_logged],
      [non_unique_duplicate_pair], [backward_scan_misses_min],
      [..._ignores_...], [in_place_update_revives_deleted_row], [empty_gid_lost_at_restart],
      [torn_prepare_blocks_restart] and those of
      HeapServer exhibit runs in which the code departs from its comments.

    ** Modelling choices, bounds and fuel

    - [u16], [u32], [u64] are [Z] with explicit wrapping, saturating or checked
      operations; theorems about allocation carry the guard under which the
      counter does not wrap (the next transaction identifier below 2^64 - 1; the
      next block number plus the pages of the index below 2^32).
    - A panic is [None]. A loop that is not structural has fuel, and the theorems
      prove that the fuel suffices: the deadlock search one more than the number
      of transactions; scans of bytes one more than the length; the writer's
      write loop twice the length plus two; walks of a B-tree one more than the
      pages of the relation, since no walk visits a page twice, and 33 times
      that for an iterator step (at most 32 entries and a link per leaf); the
      growth loop of the heap one round per block number, 2^32; a step of the
      walker 4097 iterations per block, since a page has fewer than 4096 slots.
    - One definition is one critical section of the source. Where the source
      releases a lock in the middle of an operation, the halves are separate
      steps (LockRace, TxnRace, TwoPhaseRace, PoolRace, [MustWait] in WalBuffer); B-tree
      operations hold the relation latch throughout and are single steps; a row
      operation of the heap is a single step, which its pins make it for the
      flushes, not for other writers of the page.
    - File-system calls and page fetches draw their outcomes from a list in the
      state, so that theorems quantify over all patterns of failure. A crash
      keeps of each file at least the length that was synced; of a prepared-state
      file it keeps what was synced, the current state or a part of unsynced
      data.
    - The hash functions crc32c and xxh3 come from other crates and are
      parameters.

    ** Not modelled, and the plan

    The scheduler of threads and the condition variables themselves, logging and
    metrics, and the rendering of error texts. Of the
    heap: the batched operations and the scan forms of the in-place update and
    delete, which make the same page writes in bulk and in parallel workers. The
    commit-log and segment files, TOAST, WAL forks and the receiver are file
    plumbing over parts that are
    modelled. The value types of ultrasql-core and the upper layers (parser,
    planner, optimizer, executor, the rest of the server, protocol and the format
    crates) are outside the development. *)

From stdpp Require Export prelude gmap sorting strings list.

#[global] Open Scope Z_scope.

(** ** Machine integers

    Unsigned [w]-bit integers are [Z] values in [[0, 2^w)]; the wrap-around,
    saturating and checked operations of the Rust standard library are
    written out. *)

Definition U16 : Z := 2 ^ 16.
Definition U32 : Z := 2 ^ 32.
Definition U64 : Z := 2 ^ 64.

Definition wrap (m x : Z) : Z := x mod m.
Definition wrapping_add (m x y : Z) : Z := wrap m (x + y).
Definition saturating_add (m x y : Z) : Z := Z.min (x + y) (m - 1).
Definition checked_add (m x y : Z) : option Z :=
  if x + y <? m then Some (x + y) else None.
Definition checked_sub (x y : Z) : option Z :=
  if y <=? x then Some (x - y) else None.
Definition saturating_sub (x y : Z) : Z := Z.max (x - y) 0.

Definition in_width (m x : Z) : Prop := 0 <= x < m.

#[global] Instance in_width_dec m x : Decision (in_width m x).
Proof. unfold in_width. apply _. Defined.

(** ** Results

    [Result<T, E>] with the [?] operator. *)

Inductive result (A E : Type) : Type :=
| Ok (a : A)
| Err (e : E).
Arguments Ok {A E} _.
Arguments Err {A E} _.

Declare Scope rust_scope.
Delimit Scope rust_scope with rust.
#[global] Open Scope rust_scope.

Notation "'let?' x := c 'in' k" :=
  (match c with Ok x => k | Err e => Err e end)
  (at level 10, x name, c at level 100, k at level 200) : rust_scope.
Notation "'let?' ' p := c 'in' k" :=
  (match c with Ok p => k | Err e => Err e end)
  (at level 10, p pattern, c at level 100, k at level 200) : rust_scope.

Definition ok_or {A E} (o : option A) (e : E) : result A E :=
  match o with Some a => Ok a | None => Err e end.

Lemma Ok_inj {A E} (a b : A) : @Ok A E a = Ok b -> a = b.
Proof. by intros [= ->]. Qed.

Definition is_ok {A E} (r : result A E) : bool :=
  match r with Ok _ => true | Err _ => false end.

(** ** Automation *)

Create HintDb ultra.

(** Split every [if]/[match] of the goal or context on its scrutinee, keeping
    the equation, and close what the equations refute. *)
Ltac cases :=
  repeat (case_match; simplify_eq/=; try done).

(** Turn the boolean comparisons of the source into propositions. *)
Ltac bool_to_prop :=
  repeat match goal with
  | H : _ && _ = true |- _ => apply andb_prop in H; destruct H
  | H : _ || _ = false |- _ => apply orb_false_elim in H; destruct H
  | H : negb _ = true |- _ => apply negb_true_iff in H
  | H : negb _ = false |- _ => apply negb_false_iff in H
  | H : bool_decide _ = true |- _ => apply bool_decide_eq_true in H
  | H : bool_decide _ = false |- _ => apply bool_decide_eq_false in H
  end.

(** ** Little-endian codecs (ultrasql-core, endian.rs)

    A byte is a [Z] in [[0, 256)]. *)

Definition is_byte (b : Z) : Prop := 0 <= b < 256.

Fixpoint le_encode (n : nat) (v : Z) : list Z :=
  match n with
  | O => []
  | S n' => v mod 256 :: le_encode n' (v / 256)
  end.

Fixpoint le_decode (l : list Z) : Z :=
  match l with
  | [] => 0
  | b :: l' => b + 256 * le_decode l'
  end.

(** [read_uN_le]: the integer held by the first [n] bytes, an error when the
    buffer is shorter than the integer. *)
Definition read_le (n : nat) (buf : list Z) : option Z :=
  if (length buf <? n)%nat then None else Some (le_decode (take n buf)).

(** [write_uN_le] at an offset of a buffer; [None] is the panic of the bounds
    check. *)
Definition write_le (n off : nat) (v : Z) (buf : list Z) : option (list Z) :=
  if (length buf <? off + n)%nat then None
  else Some (take off buf ++ le_encode n v ++ drop (off + n) buf).

(** [&bytes[a..b]] on a range known to be in bounds. *)
Definition slice (a b : nat) (l : list Z) : list Z := take (b - a) (drop a l).

Lemma length_le_encode n v : length (le_encode n v) = n.
Proof. revert v; induction n; intros; simpl; auto. Qed.

Lemma le_encode_bytes n v : Forall is_byte (le_encode n v).
Proof.
  revert v; induction n as [|n IH]; intros v; simpl; constructor; auto.
  apply Z.mod_pos_bound; lia.
Qed.

Lemma pow256_S n : 256 ^ Z.of_nat (S n) = 256 * 256 ^ Z.of_nat n.
Proof. rewrite Nat2Z.inj_succ, Z.pow_succ_r; lia. Qed.

Lemma le_decode_encode n v :
  0 <= v < 256 ^ Z.of_nat n -> le_decode (le_encode n v) = v.
Proof.
  revert v; induction n as [|n IH]; intros v Hv; cbn [le_encode le_decode].
  - change (256 ^ Z.of_nat 0) with 1 in Hv. lia.
  - rewrite pow256_S in Hv. rewrite IH.
    + pose proof (Z.div_mod v 256). lia.
    + split; [apply Z.div_pos; lia|]. apply Z.div_lt_upper_bound; lia.
Qed.

Lemma le_decode_bound l :
  Forall is_byte l -> 0 <= le_decode l < 256 ^ Z.of_nat (length l).
Proof.
  induction 1 as [|b l Hb Hl IH]; cbn [le_decode length].
  - change (256 ^ Z.of_nat 0) with 1. lia.
  - rewrite pow256_S. unfold is_byte in Hb. lia.
Qed.

Lemma le_encode_decode l :
  Forall is_byte l -> le_encode (length l) (le_decode l) = l.
Proof.
  induction 1 as [|b l Hb Hl IH]; cbn [le_decode length le_encode]; [done|].
  unfold is_byte in Hb.
  replace (b + 256 * le_decode l) with (b + le_decode l * 256) by lia.
  rewrite Z.mod_add, Z.div_add by lia.
  rewrite Z.mod_small, Z.div_small by lia. by rewrite Z.add_0_l, IH.
Qed.

Lemma le_decode_inj l1 l2 :
  Forall is_byte l1 -> Forall is_byte l2 -> length l1 = length l2 ->
  le_decode l1 = le_decode l2 -> l1 = l2.
Proof.
  intros H1 H2 Hlen Heq.
  rewrite <- (le_encode_decode l1), <- (le_encode_decode l2) by done. congruence.
Qed.

Lemma read_le_app n v rest :
  0 <= v < 256 ^ Z.of_nat n -> read_le n (le_encode n v ++ rest) = Some v.
Proof.
  intros Hv. unfold read_le.
  replace (length (le_encode n v ++ rest) <? n)%nat with false
    by (symmetry; apply Nat.ltb_ge; rewrite length_app, length_le_encode; lia).
  rewrite take_app_le by (rewrite length_le_encode; lia).
  rewrite take_ge by (rewrite length_le_encode; lia).
  by rewrite le_decode_encode.
Qed.

(** ** Vectors: the standard-library routines the source calls *)

(** [slice::sort_unstable] on integers. *)
Definition sort_unstable (l : list Z) : list Z := merge_sort Z.le l.

(** [Vec::dedup]: drops an element equal to the one before it. *)
Fixpoint dedup (l : list Z) : list Z :=
  match l with
  | x :: (y :: _) as t => if x =? y then dedup t else x :: dedup t
  | _ => l
  end.

(** [slice::binary_search(..).is_ok()], the halving loop of the standard
    library: [base] is the candidate, [size] the width of the window. *)
Fixpoint bs_loop (fuel : nat) (l : list Z) (x : Z) (base size : nat) : nat :=
  match fuel with
  | O => base
  | S fuel' =>
      if (size <=? 1)%nat then base
      else
        let half := (size / 2)%nat in
        let mid := (base + half)%nat in
        let base' :=
          match l !! mid with
          | Some y => if x <? y then base else mid
          | None => base
          end in
        bs_loop fuel' l x base' (size - half)
  end.

Definition binary_search_ok (l : list Z) (x : Z) : bool :=
  match l with
  | [] => false
  | _ => match l !! bs_loop (length l) l x 0 (length l) with
         | Some y => y =? x
         | None => false
         end
  end.

(** [Iterator::position] and [Iterator::rposition]. *)
Fixpoint position {A} (p : A -> bool) (l : list A) : option nat :=
  match l with
  | [] => None
  | a :: t => if p a then Some O else S <$> position p t
  end.

Fixpoint rposition {A} (p : A -> bool) (l : list A) : option nat :=
  match l with
  | [] => None
  | a :: t => match rposition p t with
              | Some i => Some (S i)
              | None => if p a then Some O else None
              end
  end.

(** [Vec::remove(i)]. *)
Definition vec_remove {A} (i : nat) (l : list A) : list A :=
  take i l ++ drop (S i) l.

#[global] Instance Zle_total' : Total Z.le.
Proof. intros x y. lia. Qed.

Lemma elem_of_sort x l : x ∈ sort_unstable l <-> x ∈ l.
Proof. unfold sort_unstable. by rewrite merge_sort_Permutation. Qed.

Lemma sort_sorted l : StronglySorted Z.le (sort_unstable l).
Proof. apply (StronglySorted_merge_sort _). Qed.

Lemma elem_of_dedup x l : x ∈ dedup l <-> x ∈ l.
Proof.
  induction l as [|a [|b t] IH]; simpl; [done|done|].
  destruct (Z.eqb_spec a b) as [->|].
  - rewrite IH. set_solver.
  - rewrite elem_of_cons, IH. set_solver.
Qed.

Lemma dedup_sorted l :
  StronglySorted Z.le l -> StronglySorted Z.lt (dedup l).
Proof.
  induction l as [|a [|b t] IH]; intros Hs; [constructor|repeat constructor|].
  apply StronglySorted_inv in Hs as [Hs Ha]. cbn [dedup].
  destruct (Z.eqb_spec a b) as [->|]; [auto|].
  constructor; [auto|]. apply Forall_forall. intros z Hz.
  apply (elem_of_dedup z (b :: t)) in Hz.
  apply StronglySorted_inv in Hs as [_ Hb]. rewrite Forall_forall in Ha, Hb.
  apply elem_of_cons in Hz as [->|Hz].
  - specialize (Ha b ltac:(set_solver)). lia.
  - specialize (Ha b ltac:(set_solver)). specialize (Hb z Hz). lia.
Qed.

Lemma sorted_lookup_le l i j x y :
  StronglySorted Z.le l -> (i <= j)%nat -> l !! i = Some x -> l !! j = Some y -> x <= y.
Proof.
  intros Hs. revert i j. induction Hs as [|a l Hs IH Ha]; intros i j Hij Hx Hy; [done|].
  destruct i as [|i], j as [|j]; simplify_eq/=; [lia| |lia|eapply (IH i j); eauto; lia].
  rewrite Forall_forall in Ha. apply Ha. by eapply list_elem_of_lookup_2.
Qed.

Lemma bs_loop_spec fuel l x base size :
  StronglySorted Z.le l -> (size <= fuel)%nat -> (0 < size)%nat ->
  (base + size <= length l)%nat ->
  (exists i, (base <= i < base + size)%nat /\ l !! i = Some x) ->
  l !! bs_loop fuel l x base size = Some x.
Proof.
  intros Hs. revert base size.
  induction fuel as [|fuel IH]; intros base size Hf Hpos Hlen (i & Hi & Hx);
    [lia|]. cbn [bs_loop].
  destruct (Nat.leb_spec size 1).
  - by replace base with i by lia.
  - assert (Hh : (0 < size / 2 /\ 2 * (size / 2) <= size)%nat).
    { pose proof (Nat.div_mod_eq size 2).
      pose proof (Nat.mod_upper_bound size 2 ltac:(lia)). lia. }
    set (half := (size / 2)%nat) in *.
    destruct (lookup_lt_is_Some_2 l (base + half)) as [y Hy]; [lia|]. rewrite Hy.
    destruct (Z.ltb_spec x y).
    + apply IH; try lia. exists i. split; [|done].
      destruct (decide (i < base + half)%nat); [lia|].
      pose proof (sorted_lookup_le l (base + half) i y x Hs ltac:(lia) Hy Hx). lia.
    + apply IH; try lia.
      destruct (decide (base + half <= i)%nat); [exists i; split; [lia|done]|].
      exists (base + half)%nat. split; [lia|].
      pose proof (sorted_lookup_le l i (base + half) x y Hs ltac:(lia) Hx Hy).
      rewrite Hy. f_equal. lia.
Qed.

(** On a sorted slice, the halving search finds exactly the members. *)
Lemma binary_search_elem l x :
  StronglySorted Z.le l -> binary_search_ok l x = true <-> x ∈ l.
Proof.
  intros Hs. destruct l as [|a l]; [set_solver|].
  unfold binary_search_ok. split.
  - case_match; [|done]. intros ?%Z.eqb_eq. subst. by eapply list_elem_of_lookup_2.
  - intros [i Hi]%list_elem_of_lookup_1.
    rewrite (bs_loop_spec _ (a :: l) x); simpl; try lia; auto using Z.eqb_refl.
    exists i. split; [|done]. apply lookup_lt_Some in Hi. simpl in Hi. lia.
Qed.

Lemma binary_search_bool_decide l x :
  StronglySorted Z.le l -> binary_search_ok l x = bool_decide (x ∈ l).
Proof.
  intros Hs. apply eq_bool_prop_intro. rewrite bool_decide_spec.
  rewrite <- (binary_search_elem l x Hs). by destruct (binary_search_ok l x).
Qed.

Lemma position_Some {A} (p : A -> bool) l i :
  position p l = Some i ->
  (exists a, l !! i = Some a /\ p a = true) /\
  (forall j b, (j < i)%nat -> l !! j = Some b -> p b = false).
Proof.
  revert i. induction l as [|a l IH]; intros i; simpl; [done|].
  destruct (p a) eqn:Hp.
  - intros [= <-]. split; [by exists a|]. lia.
  - intros (i' & Hi' & ->)%fmap_Some. destruct (IH i' Hi') as [(b & Hb & Hpb) Hlt].
    split; [by exists b|]. intros [|j] c Hj; simpl; [congruence|].
    apply Hlt. lia.
Qed.

Lemma position_None {A} (p : A -> bool) l :
  position p l = None <-> Forall (fun a => p a = false) l.
Proof.
  induction l as [|a l IH]; simpl; [by split|].
  rewrite Forall_cons, <- IH. destruct (p a); [naive_solver|].
  destruct (position p l); naive_solver.
Qed.

Lemma rposition_Some {A} (p : A -> bool) l i :
  rposition p l = Some i ->
  (exists a, l !! i = Some a /\ p a = true) /\
  (forall j b, (i < j)%nat -> l !! j = Some b -> p b = false).
Proof.
  revert i. induction l as [|a l IH]; intros i; simpl; [done|].
  destruct (rposition p l) as [k|] eqn:Hr.
  - intros [= <-]. destruct (IH k eq_refl) as [(b & Hb & Hpb) Hlt].
    split; [by exists b|]. intros [|j] c Hj; simpl; [lia|]. apply Hlt. lia.
  - destruct (p a) eqn:Hp; intros [= <-]. split; [by exists a|].
    intros [|j] c Hj; simpl; [lia|]. intros Hc.
    clear -Hr Hc. revert j Hc. induction l as [|d l IH]; intros j Hc; [done|].
    simpl in Hr. destruct (rposition p l); [done|]. destruct (p d) eqn:?; [done|].
    destruct j; simplify_eq/=; eauto.
Qed.

Lemma rposition_None {A} (p : A -> bool) l :
  rposition p l = None <-> Forall (fun a => p a = false) l.
Proof.
  induction l as [|a l IH]; simpl; [split; auto|].
  rewrite Forall_cons, <- IH. destruct (rposition p l); [naive_solver|].
  destruct (p a); naive_solver.
Qed.

(** ** Field-by-field codecs

    A record is written as consecutive fixed-width fields; these lemmas read
    a field back from the concatenation whatever follows it. *)

Lemma pow256_U16 : 256 ^ Z.of_nat 2 = U16. Proof. reflexivity. Qed.
Lemma pow256_U32 : 256 ^ Z.of_nat 4 = U32. Proof. reflexivity. Qed.
Lemma pow256_U64 : 256 ^ Z.of_nat 8 = U64. Proof. reflexivity. Qed.

Lemma read_le_encode n v :
  0 <= v < 256 ^ Z.of_nat n -> read_le n (le_encode n v) = Some v.
Proof. intros Hv. pose proof (read_le_app n v [] Hv) as H. by rewrite app_nil_r in H. Qed.

Lemma slice_hit_enc n v r : slice 0 n (le_encode n v ++ r) = le_encode n v.
Proof.
  unfold slice. rewrite drop_0, Nat.sub_0_r.
  rewrite take_app_le by (rewrite length_le_encode; lia).
  by rewrite take_ge by (rewrite length_le_encode; lia).
Qed.

Lemma slice_skip_enc n v a b r :
  (n <= a)%nat -> slice a b (le_encode n v ++ r) = slice (a - n) (b - n) r.
Proof.
  intros Ha. unfold slice. rewrite drop_app_ge by (rewrite length_le_encode; lia).
  rewrite length_le_encode. destruct (decide (b <= a)%nat); f_equal; lia.
Qed.

Lemma slice_hit_app a r : slice 0 (length a) (a ++ r) = a.
Proof. unfold slice. by rewrite drop_0, Nat.sub_0_r, take_app_length. Qed.

Lemma length_slice a b l : (b <= length l)%nat -> length (slice a b l) = (b - a)%nat.
Proof. intros. unfold slice. rewrite length_take, length_drop. lia. Qed.

Lemma write_le_step n v pre rest :
  (n <= length rest)%nat ->
  write_le n (length pre) v (pre ++ rest) = Some ((pre ++ le_encode n v) ++ drop n rest).
Proof.
  intros Hn. unfold write_le.
  replace (length (pre ++ rest) <? length pre + n)%nat with false
    by (symmetry; apply Nat.ltb_ge; rewrite length_app; lia).
  rewrite take_app_length, drop_app_ge by lia.
  replace (length pre + n - length pre)%nat with n by lia. by rewrite app_assoc.
Qed.

Lemma write_le_at n off v pre rest :
  length pre = off -> (n <= length rest)%nat ->
  write_le n off v (pre ++ rest) = Some ((pre ++ le_encode n v) ++ drop n rest).
Proof. intros <-. apply write_le_step. Qed.

Lemma write_le_None n off v buf :
  (length buf < off + n)%nat -> write_le n off v buf = None.
Proof. intros H. unfold write_le. by apply Nat.ltb_lt in H as ->. Qed.

Lemma read_le_Some n buf v :
  read_le n buf = Some v -> (n <= length buf)%nat /\ v = le_decode (take n buf).
Proof. unfold read_le. destruct (Nat.ltb_spec (length buf) n); naive_solver lia. Qed.

(** Peel the leading fields of a concatenation under a [slice]. *)
Ltac codec_slices :=
  repeat first
    [ rewrite slice_hit_enc
    | rewrite slice_skip_enc by lia; cbn [Nat.sub] ].

(** Read back a field whose value fits its width. *)
Ltac codec_reads :=
  repeat (rewrite read_le_encode by (rewrite ?pow256_U16, ?pow256_U32, ?pow256_U64; lia);
          cbn [mbind option_bind]).

#[export] Hint Resolve length_le_encode le_encode_bytes : ultra.

Lemma Forall2_impl_in {A B} (P Q : A -> B -> Prop) l k :
  Forall2 P l k -> (forall x y, x ∈ l -> y ∈ k -> P x y -> Q x y) -> Forall2 Q l k.
Proof.
  induction 1 as [|x y l k Hxy HF IH]; intros HPQ; constructor.
  - apply HPQ; [apply list_elem_of_here|apply list_elem_of_here|done].
  - apply IH. intros x' y' Hx Hy. apply HPQ; by apply list_elem_of_further.
Qed.

Lemma NoDup_fst_filter {A B} (p : A * B -> bool) (l : list (A * B)) :
  NoDup l.*1 -> NoDup (List.filter p l).*1.
Proof.
  induction l as [|[a b] l IH]; [done|]. cbn [fmap list_fmap fst]. intros [Hn Hd]%NoDup_cons.
  cbn [List.filter]. destruct (p (a, b)); [|by apply IH]. cbn [fmap list_fmap fst].
  apply NoDup_cons. split; [|by apply IH]. rewrite list_elem_of_fmap. intros ([a' b'] & -> & Hin).
  apply Hn, list_elem_of_fmap. exists (a', b'). split; [done|].
  rewrite list_elem_of_In, List.filter_In in Hin. apply list_elem_of_In, Hin.
Qed.

(** ** Texts

    The characters of a literal, and a prefix taken off. *)

Definition str_bytes (s : string) : list Z :=
  map (fun c => Z.of_nat (Ascii.nat_of_ascii c)) (String.list_ascii_of_string s).

Fixpoint strip_prefix (p l : list Z) : option (list Z) :=
  match p, l with
  | [], _ => Some l
  | x :: p', y :: l' => if x =? y then strip_prefix p' l' else None
  | _ :: _, [] => None
  end.

Lemma strip_prefix_app p l : strip_prefix p (p ++ l) = Some l.
Proof. induction p as [|x p IH]; cbn; [by destruct l|]. by rewrite Z.eqb_refl. Qed.

Lemma strip_prefix_Some p l r : strip_prefix p l = Some r -> l = p ++ r.
Proof.
  revert l. induction p as [|x p IH]; intros l; cbn; [by destruct l; intros [= ->]|].
  destruct l as [|y l]; [done|]. destruct (Z.eqb_spec x y) as [->|]; [|done].
  by intros ->%IH.
Qed.
