(* ===== verification/CoreIds.v ===== *)
(** * Identifiers (ultrasql-core, id.rs and constants.rs)

    The newtypes [Xid], [Lsn], [CommandId], [BlockNumber] and [RelationId] are
    their raw integers; [PageId] and [TupleId] are records. *)

From S2P Require Import Prelude.

(** Transaction identifiers: [u64], with three reserved values. *)
Abbreviation Xid := Z (only parsing).
Definition Xid_INVALID : Xid := 0.
Definition Xid_BOOTSTRAP : Xid := 1.
Definition Xid_FROZEN : Xid := 2.
Definition Xid_FIRST_USER : Xid := 3.
Definition Xid_is_invalid (x : Xid) : bool := x =? 0.
Definition Xid_is_normal (x : Xid) : bool := Xid_FIRST_USER <=? x.
Definition Xid_next (x : Xid) : Xid := wrapping_add U64 x 1.

(** Log sequence numbers: [u64]. *)
Abbreviation Lsn := Z (only parsing).
Definition Lsn_ZERO : Lsn := 0.
Definition Lsn_advance (l : Lsn) (bytes : Z) : Lsn := saturating_add U64 l bytes.
Definition Lsn_checked_advance (l : Lsn) (bytes : Z) : option Lsn := checked_add U64 l bytes.

(** Command identifiers: [u32], saturating successor. *)
Abbreviation CommandId := Z (only parsing).
Definition CommandId_FIRST : CommandId := 0.
Definition CommandId_next (c : CommandId) : CommandId := saturating_add U32 c 1.

Definition PAGE_SIZE : Z := 8192.
Definition PAGE_SIZE_LOG2 : Z := 13.

(** Byte offset of a block in its segment. *)
Definition BlockNumber_byte_offset (b : Z) : Z := Z.shiftl b PAGE_SIZE_LOG2.

Record PageId := mk_PageId { pg_relation : Z; pg_block : Z }.
Record TupleId := mk_TupleId { tid_page : PageId; tid_slot : Z }.

#[global] Instance PageId_eq_dec : EqDecision PageId.
Proof. solve_decision. Defined.
#[global] Instance TupleId_eq_dec : EqDecision TupleId.
Proof. solve_decision. Defined.

#[global] Instance PageId_countable : Countable PageId.
Proof.
  apply (inj_countable' (fun p => (pg_relation p, pg_block p))
           (fun q => mk_PageId q.1 q.2)). by intros [].
Defined.
#[global] Instance TupleId_countable : Countable TupleId.
Proof.
  apply (inj_countable' (fun t => (tid_page t, tid_slot t))
           (fun q => mk_TupleId q.1 q.2)). by intros [].
Defined.

(** A block's bytes start where the previous block's end, and the offset of
    a [u32] block never leaves [u64]. *)
Lemma BlockNumber_byte_offset_mul b :
  in_width U32 b ->
  BlockNumber_byte_offset b = b * PAGE_SIZE /\ in_width U64 (BlockNumber_byte_offset b).
Proof.
  unfold in_width, BlockNumber_byte_offset, PAGE_SIZE, PAGE_SIZE_LOG2, U32, U64.
  intros Hb. rewrite Z.shiftl_mul_pow2 by lia. lia.
Qed.
