(* ===== verification/TupleHeader.v ===== *)
(** * The MVCC tuple header (ultrasql-mvcc, tuple_header.rs)

    The information mask, the forty-byte header, its disk codec and the
    transition a delete performs on it. *)

From S2P Require Import Prelude CoreIds.

Definition TUPLE_HEADER_SIZE : nat := 40.

(** ** Information mask: a [u16] of flags *)

Definition HAS_NULL : Z := Z.shiftl 1 0.
Definition HAS_VARWIDTH : Z := Z.shiftl 1 1.
Definition XMIN_COMMITTED : Z := Z.shiftl 1 2.
Definition XMIN_INVALID : Z := Z.shiftl 1 3.
Definition XMAX_COMMITTED : Z := Z.shiftl 1 4.
Definition XMAX_INVALID : Z := Z.shiftl 1 5.
Definition UPDATED : Z := Z.shiftl 1 6.
Definition HOT_UPDATED : Z := Z.shiftl 1 7.
Definition FROZEN : Z := Z.shiftl 1 8.
Definition SUBXACT : Z := Z.shiftl 1 9.
Definition UPDATED_IN_PLACE : Z := Z.shiftl 1 10.
Definition INPLACE_HISTORY : Z := Z.shiftl 1 11.

Definition KNOWN_BITS : Z :=
  Z.lor HAS_NULL (Z.lor HAS_VARWIDTH (Z.lor XMIN_COMMITTED (Z.lor XMIN_INVALID
  (Z.lor XMAX_COMMITTED (Z.lor XMAX_INVALID (Z.lor UPDATED (Z.lor HOT_UPDATED
  (Z.lor FROZEN (Z.lor SUBXACT (Z.lor UPDATED_IN_PLACE INPLACE_HISTORY)))))))))).

(** [!x] on a [u16]. *)
Definition not_u16 (x : Z) : Z := Z.lxor x (U16 - 1).

Definition mask_contains (m flag : Z) : bool := Z.land m flag =? flag.
Definition mask_set (m flag : Z) : Z := Z.lor m flag.
Definition mask_clear (m flag : Z) : Z := Z.land m (not_u16 flag).
Definition mask_is_frozen (m : Z) : bool := mask_contains m FROZEN.
Definition mask_is_subxact (m : Z) : bool := mask_contains m SUBXACT.

(** ** The header *)

Record TupleHeader := mk_TupleHeader {
  xmin : Xid;
  xmax : Xid;
  cmin : CommandId;
  cmax : CommandId;
  infomask : Z;
  n_atts : Z;
  data_offset : Z;
  ctid : TupleId;
}.

#[global] Instance TupleHeader_eq_dec : EqDecision TupleHeader.
Proof. solve_decision. Defined.

Definition minimal_for_visible_cache_hit (xmin0 : Xid) (bits : Z) : TupleHeader :=
  mk_TupleHeader xmin0 Xid_INVALID CommandId_FIRST CommandId_FIRST bits 0 0
    (mk_TupleId (mk_PageId 0 0) 0).

Definition fresh (xmin0 : Xid) (cmin0 : CommandId) (tid : TupleId) (n : Z) : TupleHeader :=
  mk_TupleHeader xmin0 Xid_INVALID cmin0 CommandId_FIRST 0 n 0 tid.

Definition decode (bytes : list Z) : option (TupleHeader * nat) :=
  if (length bytes <? TUPLE_HEADER_SIZE)%nat then None else
  xmin0 ← read_le 8 (slice 0 8 bytes);
  xmax0 ← read_le 8 (slice 8 16 bytes);
  cmin0 ← read_le 4 (slice 16 20 bytes);
  cmax0 ← read_le 4 (slice 20 24 bytes);
  infomask_bits ← read_le 2 (slice 24 26 bytes);
  if negb (Z.land infomask_bits (not_u16 KNOWN_BITS) =? 0) then None else
  n_atts0 ← read_le 2 (slice 26 28 bytes);
  data_offset0 ← read_le 2 (slice 28 30 bytes);
  reserved ← read_le 2 (slice 30 32 bytes);
  if negb (reserved =? 0) then None else
  rel ← read_le 4 (slice 32 36 bytes);
  block_and_slot ← read_le 4 (slice 36 40 bytes);
  let block := Z.land block_and_slot 0x00FFFFFF in
  let slot := Z.shiftr block_and_slot 24 in
  if U16 <=? slot then None else
  Some (mk_TupleHeader xmin0 xmax0 cmin0 cmax0 infomask_bits n_atts0 data_offset0
          (mk_TupleId (mk_PageId rel block) slot),
        TUPLE_HEADER_SIZE).

(** The packed [ctid] word: [block | slot << 24] in a [u32]. *)
Definition ctid_word (t : TupleId) : Z :=
  Z.lor (Z.land (pg_block (tid_page t)) 0x00FFFFFF)
        (wrap U32 (Z.shiftl (tid_slot t) 24)).

(** Writes the header into the first forty bytes; [None] is the panic on a
    buffer that is too short. *)
Definition encode (h : TupleHeader) (bytes : list Z) : option (list Z) :=
  b ← write_le 8 0 (xmin h) bytes;
  b ← write_le 8 8 (xmax h) b;
  b ← write_le 4 16 (cmin h) b;
  b ← write_le 4 20 (cmax h) b;
  b ← write_le 2 24 (infomask h) b;
  b ← write_le 2 26 (n_atts h) b;
  b ← write_le 2 28 (data_offset h) b;
  b ← write_le 2 30 0 b;
  b ← write_le 4 32 (pg_relation (tid_page (ctid h))) b;
  write_le 4 36 (ctid_word (ctid h)) b.

Definition is_alive (h : TupleHeader) : bool := Xid_is_invalid (xmax h).
Definition is_subxact (h : TupleHeader) : bool := mask_is_subxact (infomask h).

Definition mark_deleted (h : TupleHeader) (xmax0 : Xid) (cmax0 : CommandId) : TupleHeader :=
  let mask :=
    if mask_contains (infomask h) UPDATED_IN_PLACE
    then Z.lor (Z.land (infomask h) (not_u16 UPDATED_IN_PLACE)) INPLACE_HISTORY
    else infomask h in
  mk_TupleHeader (xmin h) xmax0 (cmin h) cmax0 mask (n_atts h) (data_offset h) (ctid h).

(** ** Well-formedness: every field at its width, no reserved mask bit *)

Definition ctid_fits (t : TupleId) : Prop :=
  in_width (2 ^ 24) (pg_block (tid_page t)) /\ in_width 256 (tid_slot t).

Definition header_wf (h : TupleHeader) : Prop :=
  in_width U64 (xmin h) /\ in_width U64 (xmax h) /\
  in_width U32 (cmin h) /\ in_width U32 (cmax h) /\
  in_width U16 (infomask h) /\ Z.land (infomask h) (not_u16 KNOWN_BITS) = 0 /\
  in_width U16 (n_atts h) /\ in_width U16 (data_offset h) /\
  in_width U32 (pg_relation (tid_page (ctid h))) /\
  in_width U32 (pg_block (tid_page (ctid h))) /\ in_width U16 (tid_slot (ctid h)).

(** What the packed word keeps of a [ctid]. *)
Definition ctid_truncated (t : TupleId) : TupleId :=
  mk_TupleId (mk_PageId (pg_relation (tid_page t)) (pg_block (tid_page t) mod 2 ^ 24))
             (tid_slot t mod 256).

Definition with_ctid (h : TupleHeader) (t : TupleId) : TupleHeader :=
  mk_TupleHeader (xmin h) (xmax h) (cmin h) (cmax h) (infomask h) (n_atts h)
    (data_offset h) t.

(** ** Codec *)

(** The bytes [encode] writes. *)
Definition header_bytes (h : TupleHeader) : list Z :=
  le_encode 8 (xmin h) ++ le_encode 8 (xmax h) ++ le_encode 4 (cmin h) ++
  le_encode 4 (cmax h) ++ le_encode 2 (infomask h) ++ le_encode 2 (n_atts h) ++
  le_encode 2 (data_offset h) ++ le_encode 2 0 ++
  le_encode 4 (pg_relation (tid_page (ctid h))) ++ le_encode 4 (ctid_word (ctid h)).

Lemma length_header_bytes h : length (header_bytes h) = 40%nat.
Proof. unfold header_bytes. rewrite !length_app, !length_le_encode. reflexivity. Qed.

Lemma encode_bytes h bytes :
  (TUPLE_HEADER_SIZE <= length bytes)%nat ->
  encode h bytes = Some (header_bytes h ++ drop TUPLE_HEADER_SIZE bytes).
Proof.
  unfold TUPLE_HEADER_SIZE. intros Hlen. unfold encode.
  change bytes with ([] ++ bytes) at 1.
  repeat (rewrite write_le_at;
    [| rewrite ?length_app, ?length_le_encode; reflexivity
     | rewrite ?length_drop; lia]; cbn [mbind option_bind]).
  unfold header_bytes. rewrite !drop_drop, <- !app_assoc. done.
Qed.

Lemma encode_short h bytes :
  (length bytes < TUPLE_HEADER_SIZE)%nat -> encode h bytes = None.
Proof.
  unfold TUPLE_HEADER_SIZE, encode. intros Hlen.
  assert (Hl : forall n o v (b b' : list Z), write_le n o v b = Some b' -> length b' = length b).
  { intros n o v b b'. unfold write_le. destruct (Nat.ltb_spec (length b) (o + n)); [done|].
    intros [= <-]. rewrite !length_app, length_take, length_le_encode, length_drop. lia. }
  repeat match goal with
  | |- (write_le ?n ?o ?v ?b ≫= _) = None =>
      let b' := fresh "b" in
      destruct (write_le n o v b) as [b'|] eqn:?; cbn [mbind option_bind]; [|done]
  end.
  apply write_le_None.
  repeat match goal with H : write_le _ _ _ _ = Some _ |- _ => apply Hl in H end. lia.
Qed.

Lemma ctid_word_split t :
  in_width U32 (pg_block (tid_page t)) -> in_width U16 (tid_slot t) ->
  ctid_word t = pg_block (tid_page t) mod 2 ^ 24 + 2 ^ 24 * (tid_slot t mod 256).
Proof.
  intros Hb Hs. unfold ctid_word, wrap.
  change 0x00FFFFFF with (Z.ones 24). rewrite Z.land_ones by lia.
  rewrite Z.shiftl_mul_pow2 by lia. unfold U32.
  change (2 ^ 32) with (256 * 2 ^ 24). rewrite Zmult_mod_distr_r.
  rewrite <- Z.shiftl_mul_pow2 by lia.
  set (lo := _ mod 2 ^ 24). set (hi := Z.shiftl _ 24).
  assert (Hdisj : Z.land lo hi = 0).
  { apply Z.bits_inj'. intros n Hn. rewrite Z.land_spec, Z.bits_0. unfold lo, hi.
    destruct (decide (n < 24)).
    - rewrite Z.shiftl_spec_low by lia. apply andb_false_r.
    - by rewrite Z.mod_pow2_bits_high by lia. }
  pose proof (Z.add_lor_land lo hi) as Hadd. rewrite Hdisj in Hadd.
  unfold hi in *. rewrite Z.shiftl_mul_pow2 in * by lia. lia.
Qed.

Lemma ctid_word_unpack t :
  in_width U32 (pg_block (tid_page t)) -> in_width U16 (tid_slot t) ->
  in_width U32 (ctid_word t) /\
  Z.land (ctid_word t) 0x00FFFFFF = pg_block (tid_page t) mod 2 ^ 24 /\
  Z.shiftr (ctid_word t) 24 = tid_slot t mod 256.
Proof.
  intros Hb Hs. rewrite (ctid_word_split t Hb Hs).
  pose proof (Z.mod_pos_bound (pg_block (tid_page t)) (2 ^ 24) ltac:(lia)).
  pose proof (Z.mod_pos_bound (tid_slot t) 256 ltac:(lia)).
  split; [unfold in_width, U32; lia|]. split.
  - change 0x00FFFFFF with (Z.ones 24). rewrite Z.land_ones by lia.
    rewrite Z.mul_comm, Z.mod_add by lia. apply Z.mod_small; lia.
  - rewrite Z.shiftr_div_pow2 by lia. rewrite Z.mul_comm, Z.div_add by lia.
    rewrite Z.div_small; lia.
Qed.

Lemma decode_header_bytes h rest :
  header_wf h ->
  decode (header_bytes h ++ rest) =
    Some (with_ctid h (ctid_truncated (ctid h)), TUPLE_HEADER_SIZE).
Proof.
  intros (H1&H2&H3&H4&H5&Hk&H6&H7&H8&H9&H10).
  destruct (ctid_word_unpack (ctid h) H9 H10) as (Hw & Hbl & Hsl).
  unfold decode, in_width in *.
  destruct (Nat.ltb_spec (length (header_bytes h ++ rest)) TUPLE_HEADER_SIZE) as [Hl|_].
  { rewrite length_app, length_header_bytes in Hl. unfold TUPLE_HEADER_SIZE in Hl. lia. }
  unfold header_bytes. rewrite <- !app_assoc. codec_slices. codec_reads.
  rewrite Hk. cbn [negb Z.eqb]. codec_reads. cbn [negb Z.eqb]. codec_reads.
  rewrite Hbl, Hsl. unfold U16 in *.
  pose proof (Z.mod_pos_bound (tid_slot (ctid h)) 256 ltac:(lia)).
  destruct (Z.leb_spec (2 ^ 16) (tid_slot (ctid h) mod 256)); [lia|]. done.
Qed.

Lemma ctid_truncated_id t : ctid_fits t -> ctid_truncated t = t.
Proof.
  destruct t as [[r b] s]. unfold ctid_fits, in_width, ctid_truncated; simpl.
  intros [? ?]. by rewrite !Z.mod_small.
Qed.

(** ** Decoding is canonical *)

Lemma read_slice_encode n a b l v :
  Forall is_byte l -> (b - a = n)%nat -> (b <= length l)%nat ->
  read_le n (slice a b l) = Some v ->
  le_encode n v = slice a b l /\ 0 <= v < 256 ^ Z.of_nat n.
Proof.
  intros Hl Hn Hb [Hlen ->]%read_le_Some.
  assert (Hln : length (slice a b l) = n) by (rewrite length_slice; lia).
  rewrite take_ge by lia.
  assert (Hby : Forall is_byte (slice a b l)) by (unfold slice; auto using Forall_take, Forall_drop).
  split.
  - rewrite <- Hln. by apply le_encode_decode.
  - rewrite <- Hln. by apply le_decode_bound.
Qed.

Lemma slice_app_drop a b l : (a <= b)%nat -> slice a b l ++ drop b l = drop a l.
Proof.
  intros Hab. unfold slice. replace b with (a + (b - a))%nat at 2 by lia.
  rewrite <- drop_drop. apply take_drop.
Qed.

Lemma ctid_word_repack w rel :
  in_width U32 w ->
  ctid_word (mk_TupleId (mk_PageId rel (Z.land w 0x00FFFFFF)) (Z.shiftr w 24)) = w /\
  in_width (2 ^ 24) (Z.land w 0x00FFFFFF) /\ in_width 256 (Z.shiftr w 24).
Proof.
  unfold in_width, U32. intros Hw.
  assert (Hl : Z.land w 0x00FFFFFF = w mod 2 ^ 24)
    by (change 0x00FFFFFF with (Z.ones 24); by rewrite Z.land_ones by lia).
  assert (Hs : Z.shiftr w 24 = w / 2 ^ 24) by (by rewrite Z.shiftr_div_pow2 by lia).
  pose proof (Z.mod_pos_bound w (2 ^ 24) ltac:(lia)).
  pose proof (Z.div_mod w (2 ^ 24) ltac:(lia)).
  assert (0 <= w / 2 ^ 24 < 256)
    by (split; [apply Z.div_pos | apply Z.div_lt_upper_bound]; lia).
  rewrite Hl, Hs. split; [|lia].
  rewrite ctid_word_split; cbn [tid_page pg_block tid_slot]; unfold in_width, U32, U16; try lia.
  rewrite (Z.mod_small (w mod 2 ^ 24)), (Z.mod_small (w / 2 ^ 24)); lia.
Qed.

Lemma decode_canonical bytes h n :
  Forall is_byte bytes -> decode bytes = Some (h, n) ->
  header_bytes h ++ drop TUPLE_HEADER_SIZE bytes = bytes /\
  header_wf h /\ ctid_fits (ctid h) /\ n = TUPLE_HEADER_SIZE /\
  (TUPLE_HEADER_SIZE <= length bytes)%nat.
Proof.
  intros Hby. unfold decode.
  destruct (Nat.ltb_spec (length bytes) TUPLE_HEADER_SIZE) as [|Hlen]; [done|].
  unfold TUPLE_HEADER_SIZE in *.
  repeat match goal with
  | |- (read_le ?n (slice ?a ?b _) ≫= _) = _ -> _ =>
      destruct (read_le n (slice a b bytes)) as [?|] eqn:?; cbn [mbind option_bind]; [|done]
  | |- (if negb ?c then None else _) = _ -> _ => destruct c eqn:?; cbn [negb]; [|done]
  end.
  repeat match goal with
  | H : read_le _ (slice _ _ bytes) = Some _ |- _ =>
      apply read_slice_encode in H; [destruct H as [? ?]|done|lia|lia]
  end.
  rewrite ?pow256_U16, ?pow256_U32, ?pow256_U64 in *.
  destruct (ctid_word_repack z8 z7) as (Hw & Hb & Hs); [unfold in_width; lia|].
  destruct (Z.leb_spec U16 (Z.shiftr z8 24)); [done|]. intros [= <- <-].
  assert (z6 = 0) as -> by lia.
  split; [|split; [|split; [|done]]].
  - unfold header_bytes; cbn [xmin xmax cmin cmax infomask n_atts data_offset ctid tid_page pg_relation].
    rewrite Hw, <- !app_assoc.
    repeat match goal with H : le_encode _ _ = slice _ _ _ |- _ => rewrite H; clear H end.
    by rewrite !slice_app_drop, drop_0 by lia.
  - unfold header_wf, in_width, U32, U16 in *;
      cbn [xmin xmax cmin cmax infomask n_atts data_offset ctid tid_page pg_relation pg_block tid_slot].
    repeat split; lia.
  - split; done.
Qed.

Lemma mask_bit_land m k i :
  0 <= k -> 0 <= i -> 0 <= m < U16 ->
  Z.testbit (Z.land m (not_u16 (Z.shiftl 1 k))) i = Z.testbit m i && negb (i =? k).
Proof.
  intros Hk Hi Hm. unfold not_u16. change (U16 - 1) with (Z.ones 16).
  rewrite Z.land_spec, Z.lxor_spec, Z.shiftl_1_l, Z.pow2_bits_eqb by lia.
  destruct (decide (i < 16)) as [Hlt|].
  - rewrite Z.ones_spec_low by lia. rewrite xorb_true_r.
    by rewrite (Z.eqb_sym k i).
  - assert (Hz : Z.testbit m i = false); [|by rewrite Hz].
    destruct (decide (m = 0)) as [->|]; [apply Z.bits_0|].
    apply Z.bits_above_log2; [lia|]. apply Z.log2_lt_pow2; [lia|].
    apply Z.lt_le_trans with (2 ^ 16); [unfold U16 in *; lia|]. apply Z.pow_le_mono_r; lia.
Qed.

Lemma mask_contains_bit m k :
  0 <= k -> mask_contains m (Z.shiftl 1 k) = Z.testbit m k.
Proof.
  intros Hk. unfold mask_contains. rewrite Z.shiftl_1_l.
  destruct (Z.testbit m k) eqn:E.
  - apply Z.eqb_eq, Z.bits_inj'. intros i Hi. rewrite Z.land_spec, Z.pow2_bits_eqb by lia.
    destruct (Z.eqb_spec k i) as [->|]; [by rewrite E|apply andb_false_r].
  - apply Z.eqb_neq. intros H. apply (f_equal (fun z => Z.testbit z k)) in H.
    rewrite Z.land_spec, Z.pow2_bits_true, E in H by lia. done.
Qed.

(** ** Properties *)

(** A header written by [encode] into a long enough buffer is read back
    by [decode] unchanged, provided its [ctid] fits the packed word (block
    below 2^24, slot below 256); the rest of the buffer is untouched. *)
Theorem header_roundtrip h bytes :
  header_wf h -> ctid_fits (ctid h) -> (TUPLE_HEADER_SIZE <= length bytes)%nat ->
  exists out, encode h bytes = Some out /\
    decode out = Some (h, TUPLE_HEADER_SIZE) /\
    length out = length bytes /\
    drop TUPLE_HEADER_SIZE out = drop TUPLE_HEADER_SIZE bytes.
Proof.
  intros Hwf Hfit Hlen. eexists. rewrite (encode_bytes h bytes Hlen).
  split; [done|]. split; [|split].
  - rewrite decode_header_bytes, ctid_truncated_id by done. by destruct h.
  - rewrite length_app, length_drop, length_header_bytes. unfold TUPLE_HEADER_SIZE in *. lia.
  - by rewrite drop_app_ge, length_header_bytes by (rewrite length_header_bytes; done).
Qed.

Definition sample_header : TupleHeader :=
  mk_TupleHeader 42 0 3 0 (Z.lor HAS_NULL UPDATED) 5 0 (mk_TupleId (mk_PageId 7 13) 5).

Lemma header_roundtrip_witness :
  exists out, encode sample_header (replicate 48 0) = Some out /\
    decode out = Some (sample_header, TUPLE_HEADER_SIZE) /\
    length out = length (replicate 48 0) /\
    drop TUPLE_HEADER_SIZE out = drop TUPLE_HEADER_SIZE (replicate 48 0).
Proof.
  apply (header_roundtrip sample_header (replicate 48 0));
    unfold header_wf, ctid_fits, in_width, TUPLE_HEADER_SIZE; simpl; repeat split;
    try (vm_compute; congruence); try lia.
Defined.

(** Decoding is canonical: a buffer [decode] accepts is the buffer
    [encode] would write for the decoded header, whose fields are all at
    their width and whose mask has no reserved bit. *)
Theorem header_decode_canonical bytes h n :
  Forall is_byte bytes -> decode bytes = Some (h, n) ->
  encode h bytes = Some bytes /\ header_wf h /\ n = TUPLE_HEADER_SIZE.
Proof.
  intros Hby Hd. destruct (decode_canonical bytes h n Hby Hd) as (Heq & Hwf & _ & Hn & Hlen).
  split; [|done]. rewrite encode_bytes, Heq by done. done.
Qed.

Lemma header_decode_canonical_witness :
  encode (with_ctid (fresh 9 1 (mk_TupleId (mk_PageId 0 0) 0) 0) (mk_TupleId (mk_PageId 0 0) 0))
         (le_encode 8 9 ++ le_encode 8 0 ++ le_encode 4 1 ++ replicate 20 0) =
    Some (le_encode 8 9 ++ le_encode 8 0 ++ le_encode 4 1 ++ replicate 20 0).
Proof.
  apply (header_decode_canonical _ _ TUPLE_HEADER_SIZE); [|reflexivity].
  repeat constructor; vm_compute; congruence.
Defined.

(** The tuple-header codec is exact. A header whose fields fit their
    widths encodes into any buffer that is long enough, decodes back to itself
    and leaves the bytes after it alone; and a buffer [decode] accepts is the
    buffer [encode] would write for the decoded header, whose fields are all at
    their width and whose mask has no reserved bit. *)
Theorem header_codec_exact :
  (forall h bytes, header_wf h -> ctid_fits (ctid h) -> (TUPLE_HEADER_SIZE <= length bytes)%nat ->
     exists out, encode h bytes = Some out /\
       decode out = Some (h, TUPLE_HEADER_SIZE) /\
       length out = length bytes /\
       drop TUPLE_HEADER_SIZE out = drop TUPLE_HEADER_SIZE bytes) /\
  (forall bytes h n, Forall is_byte bytes -> decode bytes = Some (h, n) ->
     encode h bytes = Some bytes /\ header_wf h /\ n = TUPLE_HEADER_SIZE).
Proof. split; [exact header_roundtrip | exact header_decode_canonical]. Qed.

(** Without the bound on the [ctid], the block number is read back
    modulo 2^24 and the slot modulo 256, silently. *)
Theorem header_ctid_wraps h bytes out :
  header_wf h -> encode h bytes = Some out ->
  decode out = Some (with_ctid h (ctid_truncated (ctid h)), TUPLE_HEADER_SIZE).
Proof.
  intros Hwf He. destruct (decide (TUPLE_HEADER_SIZE <= length bytes)%nat).
  - rewrite encode_bytes in He by done. simplify_eq. by apply decode_header_bytes.
  - by rewrite encode_short in He by lia.
Qed.

(** Block 16777216 of a relation is read back as block 0. *)
Lemma header_ctid_wraps_witness :
  exists out,
  encode (fresh 3 0 (mk_TupleId (mk_PageId 7 (2 ^ 24)) 1) 1) (replicate 40 0) = Some out /\
  decode out = Some (fresh 3 0 (mk_TupleId (mk_PageId 7 0) 1) 1, TUPLE_HEADER_SIZE).
Proof.
  destruct (encode (fresh 3 0 (mk_TupleId (mk_PageId 7 (2 ^ 24)) 1) 1) (replicate 40 0)) as [out|] eqn:He;
    [|vm_compute in He; discriminate He].
  exists out. split; [reflexivity|].
  apply (header_ctid_wraps (fresh 3 0 (mk_TupleId (mk_PageId 7 (2 ^ 24)) 1) 1) (replicate 40 0) out);
    [|exact He].
  unfold header_wf, in_width; simpl; repeat split; vm_compute; congruence.
Defined.

(** [mark_deleted] records the deleter; it never leaves the in-place
    bit set, it sets the history bit exactly when the in-place bit was set
    (or the history bit already was), and it keeps every other mask bit. *)
Theorem mark_deleted_mask h x c i :
  in_width U16 (infomask h) -> 0 <= i ->
  xmax (mark_deleted h x c) = x /\ cmax (mark_deleted h x c) = c /\
  Z.testbit (infomask (mark_deleted h x c)) i =
    if i =? 10 then false
    else if i =? 11
         then Z.testbit (infomask h) 11 || Z.testbit (infomask h) 10
         else Z.testbit (infomask h) i.
Proof.
  intros Hm Hi. split; [done|]. split; [done|]. unfold mark_deleted; cbn [infomask].
  unfold UPDATED_IN_PLACE, INPLACE_HISTORY. rewrite mask_contains_bit by lia.
  destruct (Z.testbit (infomask h) 10) eqn:E.
  - rewrite Z.lor_spec, mask_bit_land by (unfold in_width in Hm; lia).
    rewrite Z.shiftl_1_l, Z.pow2_bits_eqb by lia.
    destruct (Z.eqb_spec i 10) as [->|]; [by rewrite andb_false_r|].
    destruct (Z.eqb_spec i 11) as [->|].
    + by rewrite orb_true_r, orb_true_r.
    + destruct (Z.eqb_spec 11 i); [lia|]. by rewrite orb_false_r, andb_true_r.
  - destruct (Z.eqb_spec i 10) as [->|]; [done|].
    destruct (Z.eqb_spec i 11) as [->|]; [by rewrite orb_false_r|done].
Qed.

Lemma mark_deleted_mask_witness :
  Z.testbit (infomask (mark_deleted
    (mk_TupleHeader 5 6 0 0 (Z.lor HAS_NULL UPDATED_IN_PLACE) 1 0
       (mk_TupleId (mk_PageId 1 0) 0)) 9 2)) 11 = true.
Proof.
  edestruct (mark_deleted_mask
    (mk_TupleHeader 5 6 0 0 (Z.lor HAS_NULL UPDATED_IN_PLACE) 1 0
       (mk_TupleId (mk_PageId 1 0) 0)) 9 2 11) as (_ & _ & H);
    [unfold in_width; vm_compute; split; congruence | lia |].
  rewrite H. reflexivity.
Defined.
