(* ===== verification/Snapshot.v ===== *)
(** * Snapshots (ultrasql-mvcc, snapshot.rs)

    The frozen view of the running transactions a statement or a transaction
    reads through, with the sets of its own subtransactions. *)

From S2P Require Import Prelude CoreIds.

Record Snapshot := mk_Snapshot {
  snap_xmin : Xid;
  snap_xmax : Xid;
  current_xid : Xid;
  current_command : CommandId;
  xip : list Xid;
  own_live_subxids : list Xid;
  own_rolled_back_subxids : list Xid;
  own_subxid_lo : Xid;
}.

(** [Snapshot::new]: sorts the in-progress list; no own subtransactions, so
    the lower bound is the [u64::MAX] sentinel. *)
Definition Snapshot_new (xmin0 xmax0 cur : Xid) (cmd : CommandId) (xip0 : list Xid) : Snapshot :=
  mk_Snapshot xmin0 xmax0 cur cmd (sort_unstable xip0) [] [] (U64 - 1).

Definition set_own_subxids (s : Snapshot) (live rolled_back : list Xid) : Snapshot :=
  let live := sort_unstable live in
  let rolled_back := sort_unstable rolled_back in
  let lo :=
    match live, rolled_back with
    | a :: _, b :: _ => Z.min a b
    | a :: _, [] => a
    | [], b :: _ => b
    | [], [] => U64 - 1
    end in
  mk_Snapshot (snap_xmin s) (snap_xmax s) (current_xid s) (current_command s) (xip s)
    live rolled_back lo.

Definition xid_in_progress (s : Snapshot) (xid : Xid) : bool :=
  if xid <? snap_xmin s then false
  else if snap_xmax s <=? xid then true
  else binary_search_ok (xip s) xid.

Definition is_nil {A} (l : list A) : bool :=
  match l with [] => true | _ => false end.

Definition is_current_xid (s : Snapshot) (xid : Xid) : bool :=
  (xid =? current_xid s)
  || (negb (is_nil (own_live_subxids s))
      && (own_subxid_lo s <=? xid)
      && binary_search_ok (own_live_subxids s) xid).

Definition own_subxid_rolled_back (s : Snapshot) (xid : Xid) : bool :=
  negb (is_nil (own_rolled_back_subxids s))
  && (own_subxid_lo s <=? xid)
  && binary_search_ok (own_rolled_back_subxids s) xid.

(** Assignment to the public field [current_command]. *)
Definition set_current_command (s : Snapshot) (c : CommandId) : Snapshot :=
  mk_Snapshot (snap_xmin s) (snap_xmax s) (current_xid s) c (xip s)
    (own_live_subxids s) (own_rolled_back_subxids s) (own_subxid_lo s).

(** ** Invariant: the private lists are sorted and the bound is a bound *)

Definition snapshot_wf (s : Snapshot) : Prop :=
  StronglySorted Z.le (xip s) /\
  StronglySorted Z.le (own_live_subxids s) /\
  StronglySorted Z.le (own_rolled_back_subxids s) /\
  (forall x, x ∈ own_live_subxids s \/ x ∈ own_rolled_back_subxids s -> own_subxid_lo s <= x).

Lemma sorted_head_le a l x : StronglySorted Z.le (a :: l) -> x ∈ a :: l -> a <= x.
Proof.
  intros [_ Ha]%StronglySorted_inv. rewrite Forall_forall in Ha.
  intros [->|]%elem_of_cons; [lia|auto].
Qed.

Lemma Snapshot_new_wf xmin0 xmax0 cur cmd l : snapshot_wf (Snapshot_new xmin0 xmax0 cur cmd l).
Proof.
  unfold snapshot_wf, Snapshot_new; simpl. split_and!; [apply sort_sorted| | |set_solver];
    constructor.
Qed.

Lemma set_own_subxids_wf s live rb : snapshot_wf s -> snapshot_wf (set_own_subxids s live rb).
Proof.
  intros (Hx & _). unfold snapshot_wf, set_own_subxids; simpl.
  split_and!; [done|apply sort_sorted|apply sort_sorted|].
  pose proof (sort_sorted live) as Hl. pose proof (sort_sorted rb) as Hr.
  intros x Hxin. destruct (sort_unstable live) as [|a l], (sort_unstable rb) as [|b r];
    destruct Hxin as [Hin|Hin]; try (by apply not_elem_of_nil in Hin);
    pose proof (fun H => sorted_head_le _ _ x H Hin); naive_solver lia.
Qed.

Lemma set_current_command_wf s c : snapshot_wf s -> snapshot_wf (set_current_command s c).
Proof. done. Qed.

#[export] Hint Resolve Snapshot_new_wf set_own_subxids_wf set_current_command_wf : ultra.

(** On a well-formed snapshot the three predicates are what their names say;
    the searches and the lower bound are only shortcuts. *)

Lemma xid_in_progress_spec s x :
  snapshot_wf s ->
  xid_in_progress s x = true <->
    snap_xmin s <= x /\ (snap_xmax s <= x \/ x ∈ xip s).
Proof.
  intros (Hx & _). unfold xid_in_progress.
  destruct (Z.ltb_spec x (snap_xmin s)); [split; [done|lia]|].
  destruct (Z.leb_spec (snap_xmax s) x); [naive_solver lia|].
  rewrite binary_search_elem by done. naive_solver lia.
Qed.

Lemma is_nil_false {A} (l : list A) x : x ∈ l -> is_nil l = false.
Proof. by destruct l; [intros ?%not_elem_of_nil|]. Qed.

Lemma is_current_xid_spec s x :
  snapshot_wf s ->
  is_current_xid s x = true <-> x = current_xid s \/ x ∈ own_live_subxids s.
Proof.
  intros (_ & Hl & _ & Hlo). unfold is_current_xid.
  rewrite orb_true_iff, Z.eqb_eq, !andb_true_iff, negb_true_iff, binary_search_elem by done.
  split; [tauto|]. intros [|Hin]; [by left|]. right.
  rewrite (is_nil_false _ x Hin). specialize (Hlo x (or_introl Hin)). split_and!; [done|lia|done].
Qed.

Lemma own_subxid_rolled_back_spec s x :
  snapshot_wf s ->
  own_subxid_rolled_back s x = true <-> x ∈ own_rolled_back_subxids s.
Proof.
  intros (_ & _ & Hr & Hlo). unfold own_subxid_rolled_back.
  rewrite !andb_true_iff, negb_true_iff, binary_search_elem by done.
  split; [tauto|]. intros Hin.
  rewrite (is_nil_false _ x Hin). specialize (Hlo x (or_intror Hin)). split_and!; [done|lia|done].
Qed.

(** A snapshot built by [new] and patched by [set_own_subxids] answers
    its three membership questions exactly: in progress is "at or above
    [xmax], or listed and not below [xmin]"; current is the requester or one
    of the live subtransactions; rolled back is one of the rolled-back
    ones. The patch leaves the first answer unchanged. *)
Theorem snapshot_membership xmin0 xmax0 cur cmd xs live rb x :
  let s := Snapshot_new xmin0 xmax0 cur cmd xs in
  let s' := set_own_subxids s live rb in
  (xid_in_progress s x = true <-> xmin0 <= x /\ (xmax0 <= x \/ x ∈ xs)) /\
  xid_in_progress s' x = xid_in_progress s x /\
  (is_current_xid s' x = true <-> x = cur \/ x ∈ live) /\
  (own_subxid_rolled_back s' x = true <-> x ∈ rb).
Proof.
  intros s s'. assert (Hs : snapshot_wf s) by apply Snapshot_new_wf.
  assert (Hs' : snapshot_wf s') by (by apply set_own_subxids_wf).
  rewrite xid_in_progress_spec, is_current_xid_spec, own_subxid_rolled_back_spec by done.
  simpl. rewrite !elem_of_sort. done.
Qed.
