(* ===== verification/Visibility.v ===== *)
(** * Tuple visibility (ultrasql-mvcc, status.rs and visibility.rs)

    The status oracle interface, the visibility predicate every read path
    calls, and a declarative specification it refines. *)

From S2P Require Import Prelude CoreIds TupleHeader Snapshot.

(** ** The status oracle *)

Inductive XidStatus := InProgress | Committed | Aborted | Frozen.

#[global] Instance XidStatus_eq_dec : EqDecision XidStatus.
Proof. solve_decision. Defined.

(** The trait: what the transaction manager promises to the predicate. *)
Class XidStatusOracle (O : Type) := status : O -> Xid -> XidStatus.

Inductive Visibility :=
| Visible
| Invisible
| DeletedByOwn
| VisiblePreImage
| VisibleMaybePreImage.

Definition is_resolved_committed (st : XidStatus) : bool :=
  match st with Committed | Frozen => true | InProgress | Aborted => false end.

Section predicate.
Context {O : Type} `{XidStatusOracle O}.

Definition is_committed_before_snapshot (xid : Xid) (s : Snapshot) (oracle : O) : bool :=
  if xid_in_progress s xid then false
  else is_resolved_committed (status oracle xid).

Definition is_visible (h : TupleHeader) (s : Snapshot) (oracle : O) : Visibility :=
  if mask_is_frozen (infomask h) then Visible else
  if own_subxid_rolled_back s (xmin h) then Invisible else
  if Xid_is_invalid (xmin h) then Invisible else
  if is_current_xid s (xmin h) then
    if current_command s <=? cmin h then Invisible else
    if negb (Xid_is_invalid (xmax h)) && own_subxid_rolled_back s (xmax h) then
      if mask_contains (infomask h) UPDATED_IN_PLACE then VisiblePreImage else Visible
    else if mask_contains (infomask h) UPDATED_IN_PLACE && is_current_xid s (xmax h) then
      if current_command s <=? cmax h then VisiblePreImage else Visible
    else if is_current_xid s (xmax h) && (cmax h <? current_command s) then DeletedByOwn
    else Visible
  else
  if negb (is_committed_before_snapshot (xmin h) s oracle) then Invisible else
  if Xid_is_invalid (xmax h) then
    if mask_contains (infomask h) INPLACE_HISTORY then VisibleMaybePreImage else Visible
  else
  if own_subxid_rolled_back s (xmax h) then
    if mask_contains (infomask h) UPDATED_IN_PLACE then VisiblePreImage else Visible
  else
  if mask_contains (infomask h) UPDATED_IN_PLACE then
    if is_current_xid s (xmax h) then
      if cmax h <? current_command s then Visible else VisiblePreImage
    else if is_committed_before_snapshot (xmax h) s oracle then Visible
    else VisiblePreImage
  else
  let visible :=
    if mask_contains (infomask h) INPLACE_HISTORY then VisibleMaybePreImage else Visible in
  if is_current_xid s (xmax h) then
    if cmax h <? current_command s then Invisible else visible
  else if is_committed_before_snapshot (xmax h) s oracle then Invisible
  else visible.

(** ** Specification: which writes a snapshot has seen

    A write stamped [(x, c)] is in effect for a snapshot when it is the
    snapshot's own and was made by an earlier command, or when it is
    another transaction's, was resolved when the snapshot was taken, and
    committed. A rolled-back own subtransaction's writes are never in
    effect. *)

Definition own (s : Snapshot) (x : Xid) : Prop :=
  x = current_xid s \/ x ∈ own_live_subxids s.

Definition rolled_back (s : Snapshot) (x : Xid) : Prop := x ∈ own_rolled_back_subxids s.

Definition in_effect (s : Snapshot) (oracle : O) (x : Xid) (c : CommandId) : Prop :=
  (own s x /\ c < current_command s) \/
  (~ own s x /\ ~ rolled_back s x /\ x <> Xid_INVALID /\
   ~ (snap_xmin s <= x /\ (snap_xmax s <= x \/ x ∈ xip s)) /\
   (status oracle x = Committed \/ status oracle x = Frozen)).

(** What a reader is entitled to: nothing, the bytes in the slot, or the
    bytes before the in-place update that is not in effect. *)
Inductive RowView := Absent | SlotBytes | PreImage.

Definition row_view_spec (s : Snapshot) (oracle : O) (h : TupleHeader) (v : RowView) : Prop :=
  match v with
  | Absent =>
      mask_is_frozen (infomask h) = false /\
      (~ in_effect s oracle (xmin h) (cmin h) \/
       mask_contains (infomask h) UPDATED_IN_PLACE = false /\
       xmax h <> Xid_INVALID /\ in_effect s oracle (xmax h) (cmax h))
  | SlotBytes =>
      mask_is_frozen (infomask h) = true \/
      in_effect s oracle (xmin h) (cmin h) /\
      (xmax h = Xid_INVALID \/
       (if mask_contains (infomask h) UPDATED_IN_PLACE
        then in_effect s oracle (xmax h) (cmax h)
        else ~ in_effect s oracle (xmax h) (cmax h)))
  | PreImage =>
      mask_is_frozen (infomask h) = false /\
      in_effect s oracle (xmin h) (cmin h) /\ xmax h <> Xid_INVALID /\
      mask_contains (infomask h) UPDATED_IN_PLACE = true /\
      ~ in_effect s oracle (xmax h) (cmax h)
  end.

Definition view_of (v : Visibility) : RowView :=
  match v with
  | Visible | VisibleMaybePreImage => SlotBytes
  | Invisible | DeletedByOwn => Absent
  | VisiblePreImage => PreImage
  end.

(** A snapshot a transaction reads through: sorted lists, the own sets
    disjoint, the invalid XID in none of them. *)
Definition reader_ok (s : Snapshot) : Prop :=
  snapshot_wf s /\ ~ own s Xid_INVALID /\ ~ rolled_back s Xid_INVALID /\
  (forall x, own s x -> ~ rolled_back s x).

(** A row the reader's own transaction inserted was deleted or updated by
    nobody else: no other transaction has seen it. *)
Definition header_ok (s : Snapshot) (h : TupleHeader) : Prop :=
  own s (xmin h) -> xmax h = Xid_INVALID \/ own s (xmax h) \/ rolled_back s (xmax h).

Lemma is_committed_before_spec x s (oracle : O) :
  snapshot_wf s ->
  is_committed_before_snapshot x s oracle = true <->
  ~ (snap_xmin s <= x /\ (snap_xmax s <= x \/ x ∈ xip s)) /\
  (status oracle x = Committed \/ status oracle x = Frozen).
Proof.
  intros Hs. unfold is_committed_before_snapshot.
  pose proof (xid_in_progress_spec s x Hs) as Hp.
  destruct (xid_in_progress s x); [naive_solver|].
  assert (Hn : ~ (snap_xmin s <= x /\ (snap_xmax s <= x \/ x ∈ xip s)))
    by (rewrite <- Hp; done).
  destruct (status oracle x); simpl; naive_solver.
Qed.
End predicate.

(** Reflect the boolean tests of [is_visible] into the specification's
    propositions. *)
Lemma own_reflect s x : snapshot_wf s -> reflect (own s x) (is_current_xid s x).
Proof. intros Hs. apply iff_reflect. symmetry. by apply is_current_xid_spec. Qed.

Lemma rolled_back_reflect s x :
  snapshot_wf s -> reflect (rolled_back s x) (own_subxid_rolled_back s x).
Proof. intros Hs. apply iff_reflect. symmetry. by apply own_subxid_rolled_back_spec. Qed.

Lemma committed_reflect {O} `{XidStatusOracle O} s x (o : O) :
  snapshot_wf s ->
  reflect (~ (snap_xmin s <= x /\ (snap_xmax s <= x \/ x ∈ xip s)) /\
           (status o x = Committed \/ status o x = Frozen))
          (is_committed_before_snapshot x s o).
Proof. intros Hs. apply iff_reflect. symmetry. by apply is_committed_before_spec. Qed.

Lemma invalid_reflect x : reflect (x = Xid_INVALID) (Xid_is_invalid x).
Proof. apply Z.eqb_spec. Qed.

(** Case analysis that follows the decision tree: split on the test of the
    outermost conditional only. *)
Ltac decide_test Hs b :=
  lazymatch b with
  | negb ?c => decide_test Hs c
  | ?c && _ => decide_test Hs c
  | own_subxid_rolled_back ?s ?x => destruct (rolled_back_reflect s x Hs)
  | is_current_xid ?s ?x => destruct (own_reflect s x Hs)
  | Xid_is_invalid ?x => destruct (invalid_reflect x)
  | is_committed_before_snapshot ?x ?s ?o => destruct (committed_reflect s x o Hs)
  | ?a <=? ?b => destruct (Z.leb_spec a b)
  | ?a <? ?b => destruct (Z.ltb_spec a b)
  | _ => destruct b eqn:?
  end.

Ltac decision_tree Hs :=
  repeat (match goal with
  | |- context [view_of (if ?b then _ else _)] => decide_test Hs b
  end; cbn [negb andb]).

Section refinement.
Context {O : Type} `{XidStatusOracle O} (s : Snapshot) (oracle : O).
Hypothesis Hreader : reader_ok s.

Lemma in_effect_own x c :
  own s x -> in_effect s oracle x c <-> c < current_command s.
Proof. unfold in_effect. tauto. Qed.

Lemma in_effect_rolled_back x c : rolled_back s x -> ~ in_effect s oracle x c.
Proof. destruct Hreader as (_ & _ & _ & Hd). unfold in_effect. intros ? [[? ?]|?]; [|tauto]. by eapply Hd. Qed.

Lemma in_effect_invalid c : ~ in_effect s oracle Xid_INVALID c.
Proof. destruct Hreader as (_ & H0 & _). unfold in_effect. tauto. Qed.

Lemma in_effect_foreign x c :
  ~ own s x -> ~ rolled_back s x -> x <> Xid_INVALID ->
  in_effect s oracle x c <->
    ~ (snap_xmin s <= x /\ (snap_xmax s <= x \/ x ∈ xip s)) /\
    (status oracle x = Committed \/ status oracle x = Frozen).
Proof. unfold in_effect. tauto. Qed.

(** Resolve [in_effect] on a stamp whose owner is known. *)
Ltac effect :=
  repeat match goal with
  | Hi : ?x = Xid_INVALID |- context [in_effect _ _ ?x ?c] =>
      rewrite Hi; pose proof (in_effect_invalid c)
  | Ho : own s ?x |- context [in_effect _ _ ?x ?c] => rewrite (in_effect_own x c Ho)
  | Hr : rolled_back s ?x |- context [in_effect _ _ ?x ?c] =>
      pose proof (in_effect_rolled_back x c Hr); clear Hr
  | Ho : ~ own s ?x, Hr : ~ rolled_back s ?x, Hi : ?x <> Xid_INVALID
    |- context [in_effect _ _ ?x ?c] => rewrite (in_effect_foreign x c Ho Hr Hi)
  end.

End refinement.

(** A table of statuses is an oracle. *)
#[global] Instance fun_oracle : XidStatusOracle (Xid -> XidStatus) := fun f x => f x.


(** The predicate consults the oracle only about transactions the snapshot
    considers resolved, and only about whether they committed. *)
Lemma is_visible_oracle_ext {O1 O2} `{XidStatusOracle O1} `{XidStatusOracle O2}
    h s (o1 : O1) (o2 : O2) :
  (forall x, xid_in_progress s x = false ->
     is_current_xid s x = false -> own_subxid_rolled_back s x = false -> x <> Xid_INVALID ->
     is_resolved_committed (status o1 x) = is_resolved_committed (status o2 x)) ->
  is_visible h s o1 = is_visible h s o2.
Proof.
  intros Hext.
  assert (Hc : forall x, is_current_xid s x = false -> own_subxid_rolled_back s x = false ->
     x <> Xid_INVALID ->
     is_committed_before_snapshot x s o1 = is_committed_before_snapshot x s o2).
  { intros x Hx Hr Hi. unfold is_committed_before_snapshot.
    destruct (xid_in_progress s x) eqn:E; [done|]. by apply Hext. }
  unfold is_visible.
  destruct (mask_is_frozen (infomask h)); [done|].
  destruct (own_subxid_rolled_back s (xmin h)) eqn:?; [done|].
  destruct (invalid_reflect (xmin h)); [done|].
  destruct (is_current_xid s (xmin h)) eqn:?; [done|]. rewrite Hc by done.
  destruct (negb _); [done|]. destruct (invalid_reflect (xmax h)); [done|].
  destruct (own_subxid_rolled_back s (xmax h)) eqn:?; [done|].
  destruct (is_current_xid s (xmax h)) eqn:?; [done|]. by rewrite Hc.
Qed.
