(* ===== verification/Savepoint.v ===== *)
(** * Savepoints (ultrasql-txn, savepoint.rs)

    The subtransaction manager of one top-level transaction: its stack of
    savepoints, the rolled-back and the merged-up (released while the parent
    is open) subtransaction XIDs. The specification is the textbook one: a
    savepoint remembers which of the transaction's writes were live when it
    was set, and [ROLLBACK TO] makes exactly those live again. *)

From S2P Require Import Prelude CoreIds.

Record Subtxn := mk_Subtxn {
  parent_xid : Xid;
  sub_xid : Xid;
  sub_name : string;
  command_id_at_save : CommandId;
}.

#[global] Instance Subtxn_eq_dec : EqDecision Subtxn.
Proof. solve_decision. Defined.

Inductive SavepointError := SavepointNotFound (name : string).

Record RollbackOutcome := mk_RollbackOutcome {
  aborted : list Xid;
  new_target_xid : Xid;
}.

Record SubtxnManager := mk_SubtxnManager {
  sm_parent_xid : Xid;
  stack : list Subtxn;
  sm_rolled_back : gset Z;
  merged_up : gset Z;
}.

Definition SubtxnManager_new (parent : Xid) : SubtxnManager :=
  mk_SubtxnManager parent [] ∅ ∅.

Definition name_is (name : string) (s : Subtxn) : bool := bool_decide (sub_name s = name).

Definition restamp (x : Xid) (s : Subtxn) : Subtxn :=
  mk_Subtxn (parent_xid s) x (sub_name s) (command_id_at_save s).

(** The XID allocator is a closure over the transaction manager: a function
    that threads the allocator's state [St]. *)
Section operations.
Context {St : Type} (alloc_xid : St -> Xid * St).

Definition savepoint (m : SubtxnManager) (name : string) (current_cid : CommandId) (st : St)
  : Subtxn * SubtxnManager * St :=
  let '(xid, st) := alloc_xid st in
  let entry := mk_Subtxn (sm_parent_xid m) xid name current_cid in
  (entry,
   mk_SubtxnManager (sm_parent_xid m) (stack m ++ [entry]) (sm_rolled_back m) (merged_up m),
   st).

Definition rollback_to (m : SubtxnManager) (name : string) (st : St)
  : result (RollbackOutcome * SubtxnManager * St) SavepointError :=
  let? pos := ok_or (rposition (name_is name) (stack m)) (SavepointNotFound name) in
  match stack m !! pos with
  | None => Err (SavepointNotFound name)
  | Some target =>
      let cutoff := sub_xid target in
      let aborted0 := (sub_xid <$> drop (pos + 1) (stack m)) ++ [cutoff] in
      let '(new_xid, st) := alloc_xid st in
      let stack' := take pos (stack m) ++ [restamp new_xid target] in
      let pruned := filter (fun x : Z => cutoff <= x) (merged_up m) in
      let aborted1 := aborted0 ++ elements pruned in
      let rolled' := list_to_set aborted1 ∪ (pruned ∪ sm_rolled_back m) in
      let merged' := filter (fun x : Z => ~ cutoff <= x) (merged_up m) in
      Ok (mk_RollbackOutcome (dedup (sort_unstable aborted1)) new_xid,
          mk_SubtxnManager (sm_parent_xid m) stack' rolled' merged', st)
  end.
End operations.

Definition release (m : SubtxnManager) (name : string)
  : result (Xid * SubtxnManager) SavepointError :=
  let? pos := ok_or (rposition (name_is name) (stack m)) (SavepointNotFound name) in
  match stack m !! pos with
  | None => Err (SavepointNotFound name)
  | Some target =>
      let xid := sub_xid target in
      Ok (xid, mk_SubtxnManager (sm_parent_xid m) (vec_remove pos (stack m))
                 (sm_rolled_back m) ({[xid]} ∪ merged_up m))
  end.

Definition record_rolled_back (m : SubtxnManager) (subxid : Xid) : SubtxnManager :=
  mk_SubtxnManager (sm_parent_xid m) (stack m) ({[subxid]} ∪ sm_rolled_back m) (merged_up m).

Definition is_rolled_back (m : SubtxnManager) (subxid : Xid) : bool :=
  bool_decide (subxid ∈ sm_rolled_back m).

Definition depth (m : SubtxnManager) : nat := length (stack m).

Definition self_subxids (m : SubtxnManager) : list Xid :=
  filter (fun x : Z => x ∉ sm_rolled_back m) (sub_xid <$> stack m) ++
  filter (fun x : Z => x ∉ sm_rolled_back m) (elements (merged_up m)).

Definition rolled_back_subxids (m : SubtxnManager) : list Xid := elements (sm_rolled_back m).
Definition merged_up_subxids (m : SubtxnManager) : list Xid := elements (merged_up m).
Definition live_stack_subxids (m : SubtxnManager) : list Xid := sub_xid <$> stack m.

(** [Transaction::current_xid] / [write_xid]: the top of the stack, or the
    top-level XID when no savepoint is open. *)
Definition stack_write_xid (top : Xid) (m : SubtxnManager) : Xid :=
  match last (stack m) with Some sp => sub_xid sp | None => top end.

(** ** Invariant

    The XIDs on the stack increase from bottom to top; the stack, the
    merged-up and the rolled-back XIDs are disjoint, were allocated after the
    parent and before [next]. *)

Definition subxid_of (m : SubtxnManager) (x : Xid) : Prop :=
  x ∈ (sub_xid <$> stack m) \/ x ∈ merged_up m \/ x ∈ sm_rolled_back m.

Record subtxn_wf (next : Z) (m : SubtxnManager) : Prop := {
  wf_sorted : StronglySorted Z.lt (sub_xid <$> stack m);
  wf_range : forall x, subxid_of m x -> sm_parent_xid m < x < next;
  wf_merged : forall x, x ∈ (sub_xid <$> stack m) -> x ∉ merged_up m;
  wf_rolled : forall x, x ∈ (sub_xid <$> stack m) \/ x ∈ merged_up m -> x ∉ sm_rolled_back m;
  wf_parent : sm_parent_xid m < next;
}.

Lemma SubtxnManager_new_wf p next : p < next -> subtxn_wf next (SubtxnManager_new p).
Proof. intros. split; unfold subxid_of; simpl; try constructor; set_solver. Qed.

Lemma subtxn_wf_mono n1 n2 m : n1 <= n2 -> subtxn_wf n1 m -> subtxn_wf n2 m.
Proof.
  intros Hn []. split; auto; [|lia]. intros x Hx. specialize (wf_range0 x Hx). lia.
Qed.

Lemma StronglySorted_app_snoc (l : list Z) x :
  StronglySorted Z.lt l -> (forall y, y ∈ l -> y < x) -> StronglySorted Z.lt (l ++ [x]).
Proof.
  induction 1 as [|a l Hl IH Ha]; intros Hx; simpl; [repeat constructor|].
  constructor; [apply IH; set_solver|]. apply Forall_app. split; [done|].
  repeat constructor. apply Hx. set_solver.
Qed.

Lemma StronglySorted_sublist' (l k : list Z) :
  StronglySorted Z.lt k -> sublist l k -> StronglySorted Z.lt l.
Proof.
  intros Hk Hl. induction Hl as [|a l k Hl IH|a l k Hl IH];
    [constructor| |apply StronglySorted_inv in Hk as [? ?]; auto].
  apply StronglySorted_inv in Hk as [Hk Ha]. constructor; [auto|].
  rewrite Forall_forall in *. intros x Hx. apply Ha.
  by eapply elem_of_submseteq, sublist_submseteq.
Qed.

(** Below and above an element of a strictly sorted list. *)
Lemma sorted_take_drop_spec (l : list Z) pos c :
  StronglySorted Z.lt l -> l !! pos = Some c ->
  (forall y, y ∈ take pos l -> y < c) /\ (forall y, y ∈ drop (pos + 1) l -> c < y).
Proof.
  intros Hs. revert pos. induction Hs as [|a l Hl IH Ha]; intros [|pos]; simpl; try done.
  - intros [= <-]. rewrite Forall_forall in Ha. split; [set_solver|].
    rewrite drop_0. auto.
  - intros Hc. destruct (IH pos Hc) as [H1 H2]. rewrite Forall_forall in Ha.
    split; [|done]. intros y [->|Hy]%elem_of_cons; [|auto].
    apply Ha. by eapply list_elem_of_lookup_2.
Qed.

Section preservation.
Context {St : Type} (alloc_xid : St -> Xid * St).

Lemma savepoint_wf m name cid st st' n :
  alloc_xid st = (n, st') -> subtxn_wf n m ->
  exists e m', savepoint alloc_xid m name cid st = (e, m', st') /\
    sub_xid e = n /\ sub_name e = name /\
    stack m' = stack m ++ [e] /\ merged_up m' = merged_up m /\
    sm_rolled_back m' = sm_rolled_back m /\ sm_parent_xid m' = sm_parent_xid m /\
    subtxn_wf (n + 1) m'.
Proof.
  intros Ha [Hs Hr Hm Hrb Hp]. unfold savepoint. rewrite Ha.
  do 2 eexists. do 7 (split; [done|]).
  assert (Hn : forall x, subxid_of m x -> x <> n) by (intros x Hx; specialize (Hr x Hx); lia).
  assert (Hst : forall x, x ∈ (sub_xid <$> stack m ++ [mk_Subtxn (sm_parent_xid m) n name cid]) <->
    x ∈ (sub_xid <$> stack m) \/ x = n).
  { intros x. rewrite fmap_app, elem_of_app. simpl. by rewrite list_elem_of_singleton. }
  split; unfold subxid_of in *; cbn [stack merged_up sm_rolled_back sm_parent_xid].
  - rewrite fmap_app. apply StronglySorted_app_snoc; [done|]. intros y Hy. apply Hr. by left.
  - intros x. rewrite Hst.
    intros [[Hx| ->]|Hx]; [specialize (Hr x (or_introl Hx))| |specialize (Hr x (or_intror Hx))]; lia.
  - intros x. rewrite Hst. intros [?| ->]; [auto|].
    intros Hx. by apply (Hn n); [right; left|].
  - intros x. rewrite Hst. intros [[?| ->]|?]; [auto| |auto].
    intros Hx. by apply (Hn n); [right; right|].
  - lia.
Qed.

(** What [ROLLBACK TO] does, as set equations around the cutoff, the old
    XID of the target savepoint. *)
Lemma rollback_to_spec m name st st' n out m' st'' :
  alloc_xid st = (n, st') -> subtxn_wf n m ->
  rollback_to alloc_xid m name st = Ok (out, m', st'') ->
  exists pos target,
    rposition (name_is name) (stack m) = Some pos /\ stack m !! pos = Some target /\
    st'' = st' /\ new_target_xid out = n /\
    (forall x, x ∈ aborted out <->
       sub_xid target <= x /\ (x ∈ (sub_xid <$> stack m) \/ x ∈ merged_up m)) /\
    stack m' = take pos (stack m) ++ [restamp n target] /\
    (forall x, x ∈ merged_up m' <-> x ∈ merged_up m /\ x < sub_xid target) /\
    (forall x, x ∈ sm_rolled_back m' <-> x ∈ sm_rolled_back m \/ x ∈ aborted out) /\
    sm_parent_xid m' = sm_parent_xid m.
Proof.
  intros Ha [Hs _ _ _ _]. unfold rollback_to.
  destruct (rposition (name_is name) (stack m)) as [pos|] eqn:Hpos; simpl; [|done].
  destruct (stack m !! pos) as [target|] eqn:Ht; [|done].
  rewrite Ha. intros [= <- <- <-]. exists pos, target.
  assert (Hab : forall x, x ∈ (sub_xid <$> drop (pos + 1) (stack m)) ++ [sub_xid target] <->
    sub_xid target <= x /\ x ∈ (sub_xid <$> stack m)).
  { destruct (sorted_take_drop_spec (sub_xid <$> stack m) pos (sub_xid target) Hs)
      as [Hlt Hgt]; [by rewrite list_lookup_fmap, Ht|].
    intros x. rewrite elem_of_app, list_elem_of_singleton, fmap_drop.
    rewrite <- (take_drop_middle (sub_xid <$> stack m) pos (sub_xid target)) at 2
      by (by rewrite list_lookup_fmap, Ht).
    replace (S pos) with (pos + 1)%nat by lia.
    rewrite elem_of_app, elem_of_cons. split.
    - intros [Hx| ->]; [specialize (Hgt x Hx)|]; split; try lia; auto.
    - intros [Hle [Hx|[Hx|Hx]]]; [specialize (Hlt x Hx); lia| |]; auto. }
  do 4 (split; [done|]). simpl.
  assert (Hab1 : forall x, x ∈ dedup (sort_unstable (((sub_xid <$> drop (pos + 1) (stack m)) ++
    [sub_xid target]) ++ elements (filter (fun x : Z => sub_xid target <= x) (merged_up m)))) <->
    sub_xid target <= x /\ (x ∈ (sub_xid <$> stack m) \/ x ∈ merged_up m)).
  { intros x. rewrite elem_of_dedup, elem_of_sort, elem_of_app, Hab, elem_of_elements,
      elem_of_filter. tauto. }
  split_and!; auto.
  - intros x. rewrite elem_of_filter. split; intros [? ?]; split; auto; lia.
  - intros x. specialize (Hab1 x). rewrite elem_of_dedup, elem_of_sort in *.
    rewrite elem_of_union, elem_of_list_to_set, elem_of_union, elem_of_filter. tauto.
Qed.

Lemma take_restamp_sorted m pos target n :
  subtxn_wf n m -> stack m !! pos = Some target ->
  StronglySorted Z.lt (sub_xid <$> take pos (stack m) ++ [restamp n target]).
Proof.
  intros [Hs Hr _ _ _] Ht. rewrite fmap_app. simpl.
  apply StronglySorted_app_snoc.
  - eapply StronglySorted_sublist'; [exact Hs|]. rewrite fmap_take. apply sublist_take.
  - intros y Hy. apply Hr. left. rewrite fmap_take in Hy.
    eapply elem_of_submseteq; [exact Hy|]. apply sublist_submseteq, sublist_take.
Qed.

Lemma rollback_to_wf m name st st' n out m' st'' :
  alloc_xid st = (n, st') -> subtxn_wf n m ->
  rollback_to alloc_xid m name st = Ok (out, m', st'') -> subtxn_wf (n + 1) m'.
Proof.
  intros Ha Hwf Hrb.
  destruct (rollback_to_spec _ _ _ _ _ _ _ _ Ha Hwf Hrb)
    as (pos & target & Hpos & Ht & _ & _ & Hab & Hst & Hme & Hro & Hpa).
  pose proof (take_restamp_sorted m pos target n Hwf Ht) as Hsort.
  destruct Hwf as [Hs Hr Hm Hdj Hp]. unfold subxid_of in *.
  destruct (sorted_take_drop_spec (sub_xid <$> stack m) pos (sub_xid target) Hs)
    as [Hlt _]; [by rewrite list_lookup_fmap, Ht|].
  assert (Hstk : forall x, x ∈ (sub_xid <$> stack m') ->
    x = n \/ (x ∈ (sub_xid <$> stack m) /\ x < sub_xid target)).
  { intros x. rewrite Hst, fmap_app, elem_of_app, fmap_take. simpl.
    rewrite list_elem_of_singleton. intros [Hx| ->]; [right|by left].
    split; [|auto]. eapply elem_of_submseteq; [exact Hx|].
    apply sublist_submseteq, sublist_take. }
  split; rewrite ?Hpa.
  - by rewrite Hst.
  - intros x [Hx|[Hx|Hx]].
    + apply Hstk in Hx as [->|[Hx _]]; [lia|specialize (Hr x (or_introl Hx)); lia].
    + apply Hme in Hx as [Hx _]. specialize (Hr x (or_intror (or_introl Hx))). lia.
    + assert (sm_parent_xid m < x < n); [|lia]. apply Hr.
      apply Hro in Hx as [Hx|Hx]; [by right; right|]. apply Hab in Hx. tauto.
  - intros x Hx Hx'. apply Hme in Hx' as [Hx' _].
    apply Hstk in Hx as [->|[Hx _]]; [specialize (Hr n (or_intror (or_introl Hx'))); lia|].
    by eapply Hm.
  - intros x Hx Hx'. apply Hro in Hx'.
    assert (Hlow : x = n \/ ((x ∈ (sub_xid <$> stack m) \/ x ∈ merged_up m) /\ x < sub_xid target)).
    { destruct Hx as [Hx|Hx]; [apply Hstk in Hx; tauto|apply Hme in Hx; tauto]. }
    destruct Hlow as [->|[Hx0 Hlow]].
    + assert (sm_parent_xid m < n < n); [|lia]. apply Hr.
      destruct Hx' as [Hx'|Hx']; [by right; right|]. apply Hab in Hx'. tauto.
    + destruct Hx' as [Hx'|Hx']; [by eapply Hdj|]. apply Hab in Hx'. lia.
  - lia.
Qed.
End preservation.

Lemma release_spec m name x m' :
  release m name = Ok (x, m') ->
  exists pos target,
    rposition (name_is name) (stack m) = Some pos /\ stack m !! pos = Some target /\
    x = sub_xid target /\ stack m' = vec_remove pos (stack m) /\
    merged_up m' = {[x]} ∪ merged_up m /\
    sm_rolled_back m' = sm_rolled_back m /\ sm_parent_xid m' = sm_parent_xid m.
Proof.
  unfold release. destruct (rposition _ _) as [pos|] eqn:Hpos; simpl; [|done].
  destruct (stack m !! pos) as [t|] eqn:Ht; [|done]. intros [= <- <-].
  by exists pos, t.
Qed.

Lemma vec_remove_sublist {A} pos (l : list A) : sublist (vec_remove pos l) l.
Proof.
  unfold vec_remove. rewrite <- (take_drop pos l) at 3. apply sublist_app; [done|].
  replace (S pos) with (pos + 1)%nat by lia. rewrite <- drop_drop. apply sublist_drop.
Qed.

Lemma elem_of_vec_remove_sorted (l : list Z) pos c y :
  StronglySorted Z.lt l -> l !! pos = Some c ->
  y ∈ vec_remove pos l <-> y ∈ l /\ y <> c.
Proof.
  intros Hs Hc. destruct (sorted_take_drop_spec l pos c Hs Hc) as [Hlt Hgt].
  rewrite <- (take_drop_middle l pos c Hc) at 2. unfold vec_remove.
  replace (S pos) with (pos + 1)%nat by lia.
  rewrite !elem_of_app, elem_of_cons. split.
  - intros [Hy|Hy]; [specialize (Hlt y Hy)|specialize (Hgt y Hy)]; split; auto; lia.
  - tauto.
Qed.

Lemma fmap_vec_remove {A B} (f : A -> B) pos l :
  f <$> vec_remove pos l = vec_remove pos (f <$> l).
Proof. unfold vec_remove. by rewrite fmap_app, fmap_take, fmap_drop. Qed.

Lemma release_wf n m name x m' :
  subtxn_wf n m -> release m name = Ok (x, m') -> subtxn_wf n m'.
Proof.
  intros [Hs Hr Hm Hdj Hp] Hrel.
  destruct (release_spec _ _ _ _ Hrel) as (pos & t & Hpos & Ht & -> & Hst & Hme & Hro & Hpa).
  assert (Hc : (sub_xid <$> stack m) !! pos = Some (sub_xid t)) by (by rewrite list_lookup_fmap, Ht).
  assert (Hin : sub_xid t ∈ (sub_xid <$> stack m)) by (by eapply list_elem_of_lookup_2).
  assert (Hstk : forall y, y ∈ (sub_xid <$> stack m') <-> y ∈ (sub_xid <$> stack m) /\ y <> sub_xid t).
  { intros y. rewrite Hst, fmap_vec_remove. by apply elem_of_vec_remove_sorted. }
  split; unfold subxid_of in *; rewrite ?Hpa; try done.
  - rewrite Hst, fmap_vec_remove. eapply StronglySorted_sublist'; [done|apply vec_remove_sublist].
  - intros y. rewrite Hstk, Hme, Hro, elem_of_union, elem_of_singleton. intros Hy. apply Hr.
    naive_solver.
  - intros y. rewrite Hstk, Hme. set_solver.
  - intros y. rewrite Hstk, Hme, Hro. set_solver.
Qed.

Lemma record_rolled_back_wf n m x :
  subtxn_wf n m -> x ∈ sm_rolled_back m -> record_rolled_back m x = m.
Proof.
  intros _ Hx. destruct m as [p st r me]. unfold record_rolled_back; simpl in *. f_equal. set_solver.
Qed.

(** Membership in the two derived sets. *)
Lemma elem_of_self_subxids n m x :
  subtxn_wf n m ->
  x ∈ self_subxids m <-> x ∈ (sub_xid <$> stack m) \/ x ∈ merged_up m.
Proof.
  intros [_ _ _ Hdj _]. unfold self_subxids.
  rewrite elem_of_app, !list_elem_of_filter, elem_of_elements.
  split; [tauto|]. intros Hx. pose proof (Hdj x Hx). tauto.
Qed.

Lemma stack_write_xid_cases n m :
  subtxn_wf n m ->
  (stack m = [] /\ stack_write_xid (sm_parent_xid m) m = sm_parent_xid m) \/
  (stack_write_xid (sm_parent_xid m) m ∈ (sub_xid <$> stack m) /\
   forall y, y ∈ (sub_xid <$> stack m) -> y <= stack_write_xid (sm_parent_xid m) m).
Proof.
  intros [Hs _ _ _ _]. unfold stack_write_xid.
  destruct (stack m) as [|a l] using rev_ind; [by left|right]. clear IHl.
  rewrite last_snoc. rewrite fmap_app in *. simpl in *. split; [set_solver|].
  intros y [Hy|Hy]%elem_of_app; [|apply list_elem_of_singleton in Hy; lia].
  apply list_elem_of_lookup in Hy as [i Hi].
  destruct (sorted_take_drop_spec _ (length l) (sub_xid a) Hs) as [Hlt _].
  { rewrite lookup_app_r by (rewrite length_fmap; lia). by rewrite length_fmap, Nat.sub_diag. }
  assert (y < sub_xid a); [|lia]. apply Hlt.
  rewrite take_app_le by (rewrite length_fmap; lia).
  rewrite take_ge by (rewrite length_fmap; lia). by eapply list_elem_of_lookup_2.
Qed.

(** ** Refinement: savepoints restore the writes that were live

    The concrete system stamps each write with [stack_write_xid] and regards
    a write as live when its stamp is the top-level XID or one of
    [self_subxids]. The abstract system knows no XIDs: a savepoint is a name
    and the list of writes live when it was set. *)
Section refinement.
Context {W : Type}.

Inductive sp_op :=
| OpWrite (w : W)
| OpSavepoint (name : string)
| OpRollbackTo (name : string)
| OpRelease (name : string).

Record csys := mk_csys {
  c_mgr : SubtxnManager;
  c_next : Z;
  c_writes : list (W * Xid);
}.

Record asys := mk_asys {
  a_live : list W;
  a_saves : list (string * list W);
}.

Definition counter_alloc (n : Z) : Xid * Z := (n, n + 1).

(** The flag tells whether the statement succeeded. *)
Definition cstep (c : csys) (op : sp_op) : csys * bool :=
  match op with
  | OpWrite w =>
      (mk_csys (c_mgr c) (c_next c)
         (c_writes c ++ [(w, stack_write_xid (sm_parent_xid (c_mgr c)) (c_mgr c))]), true)
  | OpSavepoint name =>
      let '(_, m, n) := savepoint counter_alloc (c_mgr c) name 0 (c_next c) in
      (mk_csys m n (c_writes c), true)
  | OpRollbackTo name =>
      match rollback_to counter_alloc (c_mgr c) name (c_next c) with
      | Ok (_, m, n) => (mk_csys m n (c_writes c), true)
      | Err _ => (c, false)
      end
  | OpRelease name =>
      match release (c_mgr c) name with
      | Ok (_, m) => (mk_csys m (c_next c) (c_writes c), true)
      | Err _ => (c, false)
      end
  end.

Definition astep (a : asys) (op : sp_op) : asys * bool :=
  let at_name name := rposition (fun s : string * list W => bool_decide (s.1 = name)) (a_saves a) in
  match op with
  | OpWrite w => (mk_asys (a_live a ++ [w]) (a_saves a), true)
  | OpSavepoint name => (mk_asys (a_live a) (a_saves a ++ [(name, a_live a)]), true)
  | OpRollbackTo name =>
      match at_name name with
      | Some pos =>
          (mk_asys (from_option snd [] (a_saves a !! pos)) (take (S pos) (a_saves a)), true)
      | None => (a, false)
      end
  | OpRelease name =>
      match at_name name with
      | Some pos => (mk_asys (a_live a) (vec_remove pos (a_saves a)), true)
      | None => (a, false)
      end
  end.

Fixpoint run {A} (step : A -> sp_op -> A * bool) (s : A) (ops : list sp_op) : A * list bool :=
  match ops with
  | [] => (s, [])
  | op :: ops' =>
      let '(s1, b) := step s op in
      let '(s2, bs) := run step s1 ops' in (s2, b :: bs)
  end.

Definition live_stamp (m : SubtxnManager) (x : Xid) : bool :=
  (x =? sm_parent_xid m) || bool_decide (x ∈ self_subxids m).

Definition live_writes (m : SubtxnManager) (ws : list (W * Xid)) : list W :=
  map fst (List.filter (fun w => live_stamp m w.2) ws).

(** The live writes older than the savepoint with XID [x]. *)
Definition live_before (m : SubtxnManager) (ws : list (W * Xid)) (x : Xid) : list W :=
  map fst (List.filter (fun w => live_stamp m w.2 && (w.2 <? x)) ws).

Record sim (c : csys) (a : asys) : Prop := {
  sim_wf : subtxn_wf (c_next c) (c_mgr c);
  sim_stamps : forall w, In w (c_writes c) -> sm_parent_xid (c_mgr c) <= w.2 < c_next c;
  sim_live : a_live a = live_writes (c_mgr c) (c_writes c);
  sim_saves : Forall2 (fun s sv => sv.1 = sub_name s /\
      sv.2 = live_before (c_mgr c) (c_writes c) (sub_xid s)) (stack (c_mgr c)) (a_saves a);
}.

Lemma live_stamp_spec n m x :
  subtxn_wf n m ->
  live_stamp m x = true <->
  x = sm_parent_xid m \/ x ∈ (sub_xid <$> stack m) \/ x ∈ merged_up m.
Proof.
  intros Hwf. unfold live_stamp. rewrite orb_true_iff, Z.eqb_eq, bool_decide_eq_true.
  by rewrite (elem_of_self_subxids n).
Qed.

Lemma live_stamp_eq n1 n2 m1 m2 x :
  subtxn_wf n1 m1 -> subtxn_wf n2 m2 -> sm_parent_xid m1 = sm_parent_xid m2 ->
  (x ∈ (sub_xid <$> stack m1) \/ x ∈ merged_up m1 <->
   x ∈ (sub_xid <$> stack m2) \/ x ∈ merged_up m2) ->
  live_stamp m1 x = live_stamp m2 x.
Proof.
  intros H1 H2 Hp Hx. apply eq_true_iff_eq.
  rewrite (live_stamp_spec n1), (live_stamp_spec n2), Hp by done. tauto.
Qed.

Lemma filter_map_ext (f g : W * Xid -> bool) ws :
  (forall w, In w ws -> f w = g w) ->
  map fst (List.filter f ws) = map fst (List.filter g ws).
Proof. intros H. f_equal. by apply filter_ext_in. Qed.

(** The two systems look savepoints up by name in step. *)
Lemma rposition_sim (P : Subtxn -> string * list W -> Prop) l k name :
  Forall2 (fun s sv => sv.1 = sub_name s /\ P s sv) l k ->
  rposition (name_is name) l =
  rposition (fun s : string * list W => bool_decide (s.1 = name)) k.
Proof.
  induction 1 as [|s sv l k [Hn _] HF IH]; simpl; [done|].
  rewrite IH. unfold name_is. by rewrite Hn.
Qed.

Lemma Forall2_vec_remove {A B} (P : A -> B -> Prop) l k pos :
  Forall2 P l k -> Forall2 P (vec_remove pos l) (vec_remove pos k).
Proof. intros. unfold vec_remove. auto using Forall2_app, Forall2_take, Forall2_drop. Qed.
End refinement.
Arguments sp_op : clear implicits.
Arguments csys : clear implicits.
Arguments asys : clear implicits.

Section simulation.
Context {W : Type}.
Implicit Types (c : csys W) (a : asys W).

Lemma live_writes_app m (ws : list (W * Xid)) w x :
  live_stamp m x = true -> live_writes m (ws ++ [(w, x)]) = live_writes m ws ++ [w].
Proof. intros Hx. unfold live_writes. rewrite List.filter_app, map_app. simpl. by rewrite Hx. Qed.

Lemma live_before_app m (ws : list (W * Xid)) w x y :
  y <= x -> live_before m (ws ++ [(w, x)]) y = live_before m ws y.
Proof.
  intros Hx. unfold live_before. rewrite List.filter_app, map_app. simpl.
  destruct (Z.ltb_spec x y); [lia|]. by rewrite andb_false_r, app_nil_r.
Qed.

Lemma sim_write c a w :
  sim c a -> sim (cstep c (OpWrite w)).1 (astep a (OpWrite w)).1.
Proof.
  intros [Hwf Hst Hl Hs]. pose proof (stack_write_xid_cases _ _ Hwf) as Hc.
  set (x := stack_write_xid (sm_parent_xid (c_mgr c)) (c_mgr c)) in *.
  assert (Hx : live_stamp (c_mgr c) x = true).
  { rewrite (live_stamp_spec (c_next c)) by done. destruct Hc as [[_ ->]|[? _]]; auto. }
  assert (Hr : sm_parent_xid (c_mgr c) <= x < c_next c).
  { destruct Hc as [[_ ->]|[Hin _]]; [pose proof (wf_parent _ _ Hwf); lia|].
    pose proof (wf_range _ _ Hwf x (or_introl Hin)). lia. }
  split; simpl; auto.
  - intros w' [?|[<-|[]]]%in_app_or; [auto|done].
  - rewrite live_writes_app by done. by rewrite Hl.
  - eapply Forall2_impl_in; [exact Hs|]. intros s sv Hin _ [Hn Hsv]. split; [done|].
    rewrite live_before_app; [done|].
    assert (Hsin : sub_xid s ∈ (sub_xid <$> stack (c_mgr c))) by (by apply list_elem_of_fmap_2).
    destruct Hc as [[Hnil _]|[_ Hmax]]; [rewrite Hnil in Hin; set_solver|auto].
Qed.

Lemma sim_savepoint c a name :
  sim c a -> sim (cstep c (OpSavepoint name)).1 (astep a (OpSavepoint name)).1.
Proof.
  intros [Hwf Hst Hl Hs]. unfold cstep.
  destruct (savepoint_wf counter_alloc (c_mgr c) name 0 (c_next c) (c_next c + 1) (c_next c))
    as (e & m' & Heq & Hx & Hnm & Hstk & Hme & _ & Hpa & Hwf'); [done|done|].
  rewrite Heq. simpl.
  assert (Hlive : forall w, In w (c_writes c) -> live_stamp m' w.2 = live_stamp (c_mgr c) w.2).
  { intros w Hw. eapply live_stamp_eq; [done|done|done|].
    rewrite Hstk, Hme, fmap_app, elem_of_app. simpl. rewrite list_elem_of_singleton.
    specialize (Hst w Hw). intuition lia. }
  assert (Hb : forall y, live_before m' (c_writes c) y = live_before (c_mgr c) (c_writes c) y).
  { intros y. apply filter_map_ext. intros w Hw. by rewrite Hlive. }
  split; simpl; auto.
  - intros w Hw. rewrite Hpa. specialize (Hst w Hw). lia.
  - rewrite Hl. apply filter_map_ext. intros w Hw. by rewrite Hlive.
  - rewrite Hstk. apply Forall2_app.
    + eapply Forall2_impl; [exact Hs|]. intros s sv [? ?]. by rewrite Hb.
    + repeat constructor; simpl; [done|]. rewrite Hb, Hl, Hx.
      apply filter_map_ext. intros w Hw. specialize (Hst w Hw).
      destruct (Z.ltb_spec w.2 (c_next c)); [by rewrite andb_true_r|lia].
Qed.

Lemma sim_release c a name :
  sim c a ->
  sim (cstep c (OpRelease name)).1 (astep a (OpRelease name)).1 /\
  (cstep c (OpRelease name)).2 = (astep a (OpRelease name)).2.
Proof.
  intros [Hwf Hst Hl Hs]. pose proof (rposition_sim _ _ _ name Hs) as Hpos. simpl.
  rewrite <- Hpos. destruct (release (c_mgr c) name) as [[x m']|e] eqn:Hrel.
  - destruct (release_spec _ _ _ _ Hrel) as (pos & t & Hp & Ht & -> & Hstk & Hme & Hro & Hpa).
    pose proof (release_wf _ _ _ _ _ Hwf Hrel) as Hwf'. rewrite Hp. split; [|done].
    assert (Hin : sub_xid t ∈ (sub_xid <$> stack (c_mgr c)))
      by (eapply list_elem_of_fmap_2, list_elem_of_lookup_2, Ht).
    assert (Hlive : forall x, live_stamp m' x = live_stamp (c_mgr c) x).
    { intros x. eapply live_stamp_eq; [done|done|done|].
      rewrite Hstk, Hme, fmap_vec_remove, elem_of_vec_remove_sorted;
        [|apply Hwf|by rewrite list_lookup_fmap, Ht].
      rewrite elem_of_union, elem_of_singleton.
      destruct (decide (x = sub_xid t)) as [->|]; tauto. }
    split; simpl; rewrite ?Hpa; auto.
    + rewrite Hl. apply filter_map_ext. intros w _. by rewrite Hlive.
    + rewrite Hstk. apply Forall2_vec_remove. eapply Forall2_impl; [exact Hs|].
      intros s sv [? ->]. split; [done|]. apply filter_map_ext. intros w _. by rewrite Hlive.
  - unfold release in Hrel. destruct (rposition (name_is name) _) as [pos|] eqn:Hp; simpl in *; [|done].
    apply rposition_Some in Hp as [(t & Ht & _) _]. by rewrite Ht in Hrel.
Qed.

Lemma live_after_rollback n m m' pos target x :
  subtxn_wf n m -> subtxn_wf (n + 1) m' -> stack m !! pos = Some target ->
  stack m' = take pos (stack m) ++ [restamp n target] ->
  (forall x, x ∈ merged_up m' <-> x ∈ merged_up m /\ x < sub_xid target) ->
  sm_parent_xid m' = sm_parent_xid m -> x < n ->
  live_stamp m' x = live_stamp m x && (x <? sub_xid target).
Proof.
  intros Hwf Hwf' Ht Hst Hme Hpa Hx. apply eq_true_iff_eq.
  rewrite andb_true_iff, Z.ltb_lt.
  rewrite (live_stamp_spec (n + 1)), (live_stamp_spec n), Hpa, Hst, Hme by done.
  assert (Hc : (sub_xid <$> stack m) !! pos = Some (sub_xid target)) by (by rewrite list_lookup_fmap, Ht).
  destruct (sorted_take_drop_spec _ _ _ (wf_sorted _ _ Hwf) Hc) as [Hlt Hgt].
  pose proof (wf_range _ _ Hwf (sub_xid target) (or_introl (list_elem_of_lookup_2 _ _ _ Hc))).
  rewrite fmap_app, fmap_take, elem_of_app. simpl. rewrite list_elem_of_singleton.
  rewrite <- (take_drop_middle (sub_xid <$> stack m) pos _ Hc) at 2.
  replace (S pos) with (pos + 1)%nat by lia. rewrite elem_of_app, elem_of_cons.
  specialize (Hlt x). specialize (Hgt x). split; [|intuition lia].
  intros [->|[[Hi|Hi]|Hi]]; [|specialize (Hlt Hi)|lia|]; intuition lia.
Qed.

Lemma sim_rollback c a name :
  sim c a ->
  sim (cstep c (OpRollbackTo name)).1 (astep a (OpRollbackTo name)).1 /\
  (cstep c (OpRollbackTo name)).2 = (astep a (OpRollbackTo name)).2.
Proof.
  intros [Hwf Hst Hl Hs]. pose proof (rposition_sim _ _ _ name Hs) as Hpos. simpl.
  rewrite <- Hpos.
  destruct (rollback_to counter_alloc (c_mgr c) name (c_next c)) as [[[out m'] n']|e] eqn:Hrb.
  - destruct (rollback_to_spec counter_alloc (c_mgr c) name (c_next c) (c_next c + 1) (c_next c)
      out m' n') as (pos & t & Hp & Ht & -> & _ & _ & Hstk & Hme & _ & Hpa); [done..|].
    pose proof (rollback_to_wf counter_alloc _ _ _ (c_next c + 1) _ _ _ _ eq_refl Hwf Hrb) as Hwf'.
    rewrite Hp. split; [|done].
    destruct (Forall2_lookup_l _ _ _ _ _ Hs Ht) as (sv & Hsv & Hnm & Hsaved).
    rewrite Hsv. simpl.
    assert (Hlive : forall w, In w (c_writes c) ->
      live_stamp m' w.2 = live_stamp (c_mgr c) w.2 && (w.2 <? sub_xid t)).
    { intros w Hw. eapply live_after_rollback; eauto. apply Hst, Hw. }
    split; simpl; rewrite ?Hpa; auto.
    + intros w Hw. specialize (Hst w Hw). lia.
    + rewrite Hsaved. apply filter_map_ext. intros w Hw. by rewrite Hlive.
    + rewrite Hstk, (take_S_r _ _ _ Hsv). apply Forall2_app.
      * apply (Forall2_take _ _ _ pos) in Hs. eapply Forall2_impl_in; [exact Hs|].
        intros s sv' Hin _ [? ->]. split; [done|]. apply filter_map_ext. intros w Hw.
        rewrite Hlive by done. destruct (live_stamp (c_mgr c) w.2); [|done]. simpl.
        destruct (sorted_take_drop_spec (sub_xid <$> stack (c_mgr c)) pos (sub_xid t))
          as [Hlt _]; [apply Hwf|by rewrite list_lookup_fmap, Ht|].
        assert (sub_xid s < sub_xid t)
          by (apply Hlt; rewrite <- fmap_take; by apply list_elem_of_fmap_2).
        destruct (Z.ltb_spec w.2 (sub_xid t)), (Z.ltb_spec w.2 (sub_xid s)); auto; lia.
      * repeat constructor; simpl; [done|]. rewrite Hsaved.
        apply filter_map_ext. intros w Hw. rewrite Hlive by done. specialize (Hst w Hw).
        destruct (Z.ltb_spec w.2 (c_next c)); [by rewrite andb_true_r|lia].
  - unfold rollback_to in Hrb.
    destruct (rposition (name_is name) _) as [pos|] eqn:Hp; simpl in *; [|done].
    apply rposition_Some in Hp as [(t & Ht & _) _]. by rewrite Ht in Hrb.
Qed.

Lemma sim_step c a op :
  sim c a -> sim (cstep c op).1 (astep a op).1 /\ (cstep c op).2 = (astep a op).2.
Proof.
  intros Hsim. destruct op as [w|name|name|name].
  - split; [by apply sim_write|done].
  - split; [by apply sim_savepoint|]. simpl. unfold savepoint. done.
  - by apply sim_rollback.
  - by apply sim_release.
Qed.

Lemma sim_run ops c a :
  sim c a -> sim (run cstep c ops).1 (run astep a ops).1 /\
    (run cstep c ops).2 = (run astep a ops).2.
Proof.
  revert c a. induction ops as [|op ops IH]; intros c a Hsim; simpl; [done|].
  destruct (sim_step c a op Hsim) as [Hsim' Hb].
  destruct (cstep c op) as [c1 b1], (astep a op) as [a1 b2]. simpl in *.
  destruct (IH c1 a1 Hsim') as [Hr Hbs].
  destruct (run cstep c1 ops), (run astep a1 ops). simpl in *. split; [done|congruence].
Qed.

Lemma sim_init p n : p < n -> sim (mk_csys (SubtxnManager_new p) n []) (mk_asys (W:=W) [] []).
Proof. intros. split; simpl; [by apply SubtxnManager_new_wf|done|done|constructor]. Qed.

(** C23. For every sequence of writes, [SAVEPOINT], [ROLLBACK TO] and
    [RELEASE] statements of a transaction, the writes the subtransaction
    manager counts as the transaction's own are exactly those the
    savepoint specification keeps live, and each statement succeeds or
    reports a missing savepoint exactly when the specification does. *)
Theorem savepoints_refine p n ops :
  p < n ->
  let c := run cstep (mk_csys (SubtxnManager_new p) n []) ops in
  let a := run astep (mk_asys (W:=W) [] []) ops in
  live_writes (c_mgr c.1) (c_writes c.1) = a_live a.1 /\ c.2 = a.2.
Proof.
  intros Hp c a. destruct (sim_run ops _ _ (sim_init p n Hp)) as [[_ _ Hl _] Hb].
  split; [symmetry; exact Hl|exact Hb].
Qed.
End simulation.

Lemma savepoints_refine_witness :
  live_writes (c_mgr (run cstep (mk_csys (SubtxnManager_new 3) 4 [])
    [OpWrite 1%nat; OpSavepoint "a"; OpWrite 2%nat; OpSavepoint "b"; OpWrite 3%nat;
     OpRelease "b"; OpWrite 4%nat; OpRollbackTo "a"; OpWrite 5%nat]).1)
   (c_writes (run cstep (mk_csys (SubtxnManager_new 3) 4 [])
    [OpWrite 1%nat; OpSavepoint "a"; OpWrite 2%nat; OpSavepoint "b"; OpWrite 3%nat;
     OpRelease "b"; OpWrite 4%nat; OpRollbackTo "a"; OpWrite 5%nat]).1) = [1; 5]%nat.
Proof.
  destruct (savepoints_refine 3 4
    [OpWrite 1%nat; OpSavepoint "a"; OpWrite 2%nat; OpSavepoint "b"; OpWrite 3%nat;
     OpRelease "b"; OpWrite 4%nat; OpRollbackTo "a"; OpWrite 5%nat]) as [H _]; [lia|].
  rewrite H. reflexivity.
Defined.
