(* ===== verification/Lock.v ===== *)
(** * The lock manager (ultrasql-txn, lock.rs and row_lock.rs)

    Lock modes and their conflict matrix, the central table of grants and
    wait queues, the steps of a blocking acquisition, the releases, and the
    per-backend fastpath cache. Each definition below is one critical
    section of the source (one hold of the entry mutex). *)

From S2P Require Import Prelude CoreIds.

Inductive LockMode :=
| AccessShare
| RowShare
| RowExclusive
| ShareUpdateExclusive
| Share
| ShareRowExclusive
| Exclusive
| AccessExclusive.

#[global] Instance LockMode_eq_dec : EqDecision LockMode.
Proof. solve_decision. Defined.

(** The conflict matrix, arm by arm: the compatible [Exclusive] pairs come
    first, then the conflicting pairs, then everything else. *)
Definition conflicts_with (self held : LockMode) : bool :=
  match self, held with
  | Exclusive, (AccessShare | RowShare) => false
  | (AccessShare | RowShare), Exclusive => false
  | AccessExclusive, _ => true
  | _, AccessExclusive => true
  | Exclusive, _ => true
  | _, Exclusive => true
  | ShareRowExclusive, (RowExclusive | ShareUpdateExclusive | Share | ShareRowExclusive) => true
  | (RowExclusive | ShareUpdateExclusive | Share), ShareRowExclusive => true
  | Share, (RowExclusive | ShareUpdateExclusive) => true
  | (RowExclusive | ShareUpdateExclusive), Share => true
  | (ShareUpdateExclusive | RowExclusive), ShareUpdateExclusive => true
  | ShareUpdateExclusive, RowExclusive => true
  | _, _ => false
  end.

Definition is_access_share (m : LockMode) : bool :=
  match m with AccessShare => true | _ => false end.

Inductive LockTag :=
| TagRelation (r : Z)
| TagTuple (t : TupleId)
| TagAdvisory (classid objid : Z).

#[global] Instance LockTag_eq_dec : EqDecision LockTag.
Proof. solve_decision. Defined.

#[global] Instance LockTag_countable : Countable LockTag.
Proof.
  apply (inj_countable'
    (fun t => match t with
              | TagRelation r => inl r
              | TagTuple t => inr (inl t)
              | TagAdvisory c o => inr (inr (c, o)) end)
    (fun s => match s with
              | inl r => TagRelation r
              | inr (inl t) => TagTuple t
              | inr (inr (c, o)) => TagAdvisory c o end)).
  by intros [].
Defined.

Record LockRequest := mk_LockRequest { req_xid : Xid; req_tag : LockTag; req_mode : LockMode }.

Inductive LockError :=
| Deadlock (victim : Xid)
| LockTimeout
| LockConflict
| LockCancelled
| FastpathOverflow.

Record Grant := mk_Grant { g_xid : Xid; g_mode : LockMode; g_owner : Xid }.

#[global] Instance Grant_eq_dec : EqDecision Grant.
Proof. solve_decision. Defined.

Record LockEntryState := mk_LockEntryState {
  grants : list Grant;
  waiters : list (Xid * LockMode);
}.

Definition LockEntry_new : LockEntryState := mk_LockEntryState [] [].

(** The central table, and the victim flag of every XID that has one. *)
Record LockManager := mk_LockManager {
  table : gmap LockTag LockEntryState;
  xid_states : gmap Z bool;
}.

Definition LockManager_new : LockManager := mk_LockManager ∅ ∅.

Definition has_conflict (gs : list Grant) (requester : Xid) (mode : LockMode) : bool :=
  existsb (fun g => negb (g_xid g =? requester) && conflicts_with mode (g_mode g)) gs.

Definition remove_waiter (ws : list (Xid * LockMode)) (xid : Xid) (mode : LockMode)
  : list (Xid * LockMode) :=
  match position (fun w => (w.1 =? xid) && bool_decide (w.2 = mode)) ws with
  | Some pos => vec_remove pos ws
  | None => ws
  end.

Definition ensure_xid_state (m : LockManager) (xid : Xid) : LockManager :=
  match xid_states m !! xid with
  | Some _ => m
  | None => mk_LockManager (table m) (<[xid := false]> (xid_states m))
  end.

Definition is_victim (m : LockManager) (xid : Xid) : bool :=
  default false (xid_states m !! xid).

Definition clear_victim (m : LockManager) (xid : Xid) : LockManager :=
  match xid_states m !! xid with
  | Some _ => mk_LockManager (table m) (<[xid := false]> (xid_states m))
  | None => m
  end.

Definition mark_victim (m : LockManager) (xid : Xid) : LockManager :=
  match xid_states m !! xid with
  | Some _ => mk_LockManager (table m) (<[xid := true]> (xid_states m))
  | None => m
  end.

Definition entry_or_new (m : LockManager) (tag : LockTag) : LockEntryState :=
  default LockEntry_new (table m !! tag).

Definition set_entry (m : LockManager) (tag : LockTag) (st : LockEntryState) : LockManager :=
  mk_LockManager (<[tag := st]> (table m)) (xid_states m).

Definition push_grant (st : LockEntryState) (req : LockRequest) (owner : Xid) : LockEntryState :=
  mk_LockEntryState (grants st ++ [mk_Grant (req_xid req) (req_mode req) owner]) (waiters st).

Definition drop_waiter (st : LockEntryState) (req : LockRequest) : LockEntryState :=
  mk_LockEntryState (grants st) (remove_waiter (waiters st) (req_xid req) (req_mode req)).

(** ** Acquisition

    A blocking [acquire_with_owner] is [acquire_enter] followed, while it
    answers [Waiting], by rounds of [acquire_before_sleep] and
    [acquire_after_wake]. The flags are what the [LockWait] observers report
    at that moment. *)

Inductive acquire_outcome :=
| Granted
| Failed (e : LockError)
| Waiting.

Definition acquire_enter (m : LockManager) (req : LockRequest) (owner : Xid) (cancelled : bool)
  : LockManager * acquire_outcome :=
  let m := ensure_xid_state m (req_xid req) in
  let st := entry_or_new m (req_tag req) in
  if negb (has_conflict (grants st) (req_xid req) (req_mode req)) then
    (clear_victim (set_entry m (req_tag req) (push_grant st req owner)) (req_xid req), Granted)
  else if cancelled then (set_entry m (req_tag req) st, Failed LockCancelled)
  else
    (set_entry m (req_tag req)
       (mk_LockEntryState (grants st) (waiters st ++ [(req_xid req, req_mode req)])), Waiting).

Definition acquire_before_sleep (m : LockManager) (req : LockRequest)
  : LockManager * acquire_outcome :=
  let st := entry_or_new m (req_tag req) in
  if is_victim m (req_xid req)
  then (set_entry m (req_tag req) (drop_waiter st req), Failed (Deadlock (req_xid req)))
  else (m, Waiting).

Definition acquire_after_wake (m : LockManager) (req : LockRequest) (owner : Xid)
    (cancelled expired : bool) : LockManager * acquire_outcome :=
  let st := entry_or_new m (req_tag req) in
  if is_victim m (req_xid req)
  then (set_entry m (req_tag req) (drop_waiter st req), Failed (Deadlock (req_xid req)))
  else if negb (has_conflict (grants st) (req_xid req) (req_mode req)) then
    (clear_victim (set_entry m (req_tag req) (push_grant (drop_waiter st req) req owner))
       (req_xid req), Granted)
  else if cancelled
  then (set_entry m (req_tag req) (drop_waiter st req), Failed LockCancelled)
  else if expired
  then (set_entry m (req_tag req) (drop_waiter st req), Failed LockTimeout)
  else (m, Waiting).

Definition try_acquire_with_owner (m : LockManager) (req : LockRequest) (owner : Xid)
  : LockManager * result bool LockError :=
  let m := ensure_xid_state m (req_xid req) in
  if is_victim m (req_xid req) then (m, Err (Deadlock (req_xid req)))
  else
    let st := entry_or_new m (req_tag req) in
    if has_conflict (grants st) (req_xid req) (req_mode req)
    then (set_entry m (req_tag req) st, Ok false)
    else (set_entry m (req_tag req) (push_grant st req owner), Ok true).

(** ** Release *)

Definition entry_is_empty (st : LockEntryState) : bool :=
  match grants st, waiters st with [], [] => true | _, _ => false end.

Definition prune_entry_if_empty (m : LockManager) (tag : LockTag) : LockManager :=
  match table m !! tag with
  | Some st => if entry_is_empty st
               then mk_LockManager (delete tag (table m)) (xid_states m) else m
  | None => m
  end.

Definition remove_grant (gs : list Grant) (xid : Xid) (mode : LockMode) : list Grant :=
  match position (fun g => (g_xid g =? xid) && bool_decide (g_mode g = mode)) gs with
  | Some pos => vec_remove pos gs
  | None => gs
  end.

Definition release_lock (m : LockManager) (xid : Xid) (tag : LockTag) (mode : LockMode)
  : LockManager :=
  match table m !! tag with
  | None => m
  | Some st =>
      prune_entry_if_empty
        (set_entry m tag (mk_LockEntryState (remove_grant (grants st) xid mode) (waiters st))) tag
  end.

(** The sweep shared by [release_all] and [release_subxact_locks]: entries
    holding a matching grant drop it and are pruned when they become empty;
    other entries are untouched. *)
Definition sweep_entry (p : Grant -> bool) (st : LockEntryState) : option LockEntryState :=
  if existsb p (grants st) then
    let st' := mk_LockEntryState (List.filter (fun g => negb (p g)) (grants st)) (waiters st) in
    if entry_is_empty st' then None else Some st'
  else Some st.

Definition release_all (m : LockManager) (xid : Xid) : LockManager :=
  mk_LockManager (omap (sweep_entry (fun g => g_xid g =? xid)) (table m))
    (delete xid (xid_states m)).

Definition release_subxact_locks (m : LockManager) (owners : list Xid) : LockManager :=
  match owners with
  | [] => m
  | _ =>
      mk_LockManager
        (omap (sweep_entry (fun g => bool_decide (g_owner g ∈ owners))) (table m))
        (xid_states m)
  end.

Definition inspect (m : LockManager) (tag : LockTag)
  : option (list (Xid * LockMode) * list (Xid * LockMode)) :=
  (fun st => ((fun g => (g_xid g, g_mode g)) <$> grants st, waiters st)) <$> table m !! tag.

(** ** Fastpath (per-backend cache of [AccessShare] on relations) *)

Record FastpathEntry := mk_FastpathEntry { fp_tag : LockTag; fp_mode : LockMode; fp_count : Z }.

Definition fp_matches (tag : LockTag) (mode : LockMode) (e : FastpathEntry) : bool :=
  bool_decide (fp_tag e = tag) && bool_decide (fp_mode e = mode).

Definition fastpath_eligible (tag : LockTag) (mode : LockMode) : bool :=
  is_access_share mode && match tag with TagRelation _ => true | _ => false end.

(** The cache part of [acquire_fastpath]; [None] means the request is not
    eligible and goes to the central table. *)
Definition acquire_fastpath (cache : list FastpathEntry) (req : LockRequest)
  : option (result (list FastpathEntry) LockError) :=
  if fastpath_eligible (req_tag req) (req_mode req) then
    Some
      (match position (fp_matches (req_tag req) (req_mode req)) cache with
       | Some pos =>
           match cache !! pos with
           | Some e =>
               match checked_add U32 (fp_count e) 1 with
               | Some n => Ok (<[pos := mk_FastpathEntry (fp_tag e) (fp_mode e) n]> cache)
               | None => Err FastpathOverflow
               end
           | None => Ok cache
           end
       | None => Ok (cache ++ [mk_FastpathEntry (req_tag req) (req_mode req) 1])
       end)
  else None.

(** [release_fastpath]: [None] when the entry is not cached, so the central
    table is consulted. *)
Definition release_fastpath (cache : list FastpathEntry) (tag : LockTag) (mode : LockMode)
  : option (list FastpathEntry) :=
  if fastpath_eligible tag mode then
    match position (fp_matches tag mode) cache with
    | Some pos =>
        match cache !! pos with
        | Some e =>
            if 1 <? fp_count e
            then Some (<[pos := mk_FastpathEntry (fp_tag e) (fp_mode e) (fp_count e - 1)]> cache)
            else Some (vec_remove pos cache)
        | None => None
        end
    | None => None
    end
  else None.

(** ** Row locks *)

Inductive RowLockMode := ForUpdate | ForNoKeyUpdate | ForShare | ForKeyShare.

Definition to_lock_mode (m : RowLockMode) : LockMode :=
  match m with
  | ForUpdate => Exclusive
  | ForNoKeyUpdate => RowExclusive
  | ForShare => Share
  | ForKeyShare => RowShare
  end.

Definition acquire_row_lock (m : LockManager) (xid : Xid) (tid : TupleId) (mode : RowLockMode)
  : LockManager * acquire_outcome :=
  acquire_enter m (mk_LockRequest xid (TagTuple tid) (to_lock_mode mode)) xid false.

Definition release_row_lock (m : LockManager) (xid : Xid) (tid : TupleId) (mode : RowLockMode)
  : LockManager :=
  release_lock m xid (TagTuple tid) (to_lock_mode mode).

(** ** The lock system: threads running acquisitions and releases

    [ls_blocked] lists the acquisitions that have answered [Waiting] and not
    yet returned. *)

Record lsys := mk_lsys {
  ls_mgr : LockManager;
  ls_blocked : list (LockRequest * Xid);
}.

Inductive lstep : lsys -> lsys -> Prop :=
| ls_enter_done m b req owner c m' o :
    acquire_enter m req owner c = (m', o) -> o <> Waiting ->
    lstep (mk_lsys m b) (mk_lsys m' b)
| ls_enter_wait m b req owner c m' :
    acquire_enter m req owner c = (m', Waiting) ->
    lstep (mk_lsys m b) (mk_lsys m' (b ++ [(req, owner)]))
| ls_sleep_done m b1 b2 req owner m' o :
    acquire_before_sleep m req = (m', o) -> o <> Waiting ->
    lstep (mk_lsys m (b1 ++ (req, owner) :: b2)) (mk_lsys m' (b1 ++ b2))
| ls_wake_done m b1 b2 req owner c e m' o :
    acquire_after_wake m req owner c e = (m', o) -> o <> Waiting ->
    lstep (mk_lsys m (b1 ++ (req, owner) :: b2)) (mk_lsys m' (b1 ++ b2))
| ls_try m b req owner m' r :
    try_acquire_with_owner m req owner = (m', r) ->
    lstep (mk_lsys m b) (mk_lsys m' b)
| ls_release m b xid tag mode :
    lstep (mk_lsys m b) (mk_lsys (release_lock m xid tag mode) b)
| ls_release_all m b xid :
    lstep (mk_lsys m b) (mk_lsys (release_all m xid) b)
| ls_release_sub m b owners :
    lstep (mk_lsys m b) (mk_lsys (release_subxact_locks m owners) b)
| ls_victim m b xid :
    lstep (mk_lsys m b) (mk_lsys (mark_victim m xid) b).

(** Grants of different transactions on one object never conflict. *)
Definition exclusive (gs : list Grant) : Prop :=
  forall g1 g2, g1 ∈ gs -> g2 ∈ gs -> g_xid g1 <> g_xid g2 ->
    conflicts_with (g_mode g1) (g_mode g2) = false.

(** The queue of an object is the multiset of the acquisitions blocked on
    it. *)
Definition blocked_on (b : list (LockRequest * Xid)) (tag : LockTag) : list (Xid * LockMode) :=
  (fun p => (req_xid p.1, req_mode p.1)) <$> filter (fun p => req_tag p.1 = tag) b.

Definition lock_inv (s : lsys) : Prop :=
  (forall tag, exclusive (grants (entry_or_new (ls_mgr s) tag))) /\
  (forall tag, waiters (entry_or_new (ls_mgr s) tag) ≡ₚ blocked_on (ls_blocked s) tag).

Lemma conflicts_with_sym a b : conflicts_with a b = conflicts_with b a.
Proof. by destruct a, b. Qed.

Lemma has_conflict_false gs x mode :
  has_conflict gs x mode = false <->
  forall g, g ∈ gs -> g_xid g <> x -> conflicts_with mode (g_mode g) = false.
Proof.
  unfold has_conflict. rewrite <- not_true_iff_false, existsb_exists. split.
  - intros Hn g Hg Hx. apply not_true_iff_false. intros Hc. apply Hn. exists g.
    split; [by apply list_elem_of_In|]. apply andb_true_iff. split; [|done].
    apply negb_true_iff, Z.eqb_neq, Hx.
  - intros Hall (g & Hg & Hb). bool_to_prop.
    rewrite Hall in *; [done|by apply list_elem_of_In|by apply Z.eqb_neq].
Qed.

Lemma exclusive_nil : exclusive [].
Proof. intros g1 g2 H. by apply not_elem_of_nil in H. Qed.

Lemma exclusive_subset gs gs' :
  (forall g, g ∈ gs' -> g ∈ gs) -> exclusive gs -> exclusive gs'.
Proof. intros Hs He g1 g2 H1 H2. apply He; auto. Qed.

Lemma exclusive_push gs x mode owner :
  exclusive gs -> has_conflict gs x mode = false -> exclusive (gs ++ [mk_Grant x mode owner]).
Proof.
  intros He Hc g1 g2. rewrite has_conflict_false in Hc.
  rewrite !elem_of_app, !list_elem_of_singleton.
  intros [H1| ->] [H2| ->] Hne; simpl in *; [by apply He| |by auto|done].
  rewrite conflicts_with_sym. auto.
Qed.

Lemma vec_remove_elem {A} pos (l : list A) x : x ∈ vec_remove pos l -> x ∈ l.
Proof.
  unfold vec_remove. rewrite elem_of_app. intros [H|H].
  - eapply elem_of_submseteq; [exact H|]. apply sublist_submseteq, sublist_take.
  - eapply elem_of_submseteq; [exact H|]. apply sublist_submseteq, sublist_drop.
Qed.

Lemma vec_remove_Permutation {A} pos (l : list A) x :
  l !! pos = Some x -> l ≡ₚ x :: vec_remove pos l.
Proof.
  intros H. unfold vec_remove. rewrite <- (take_drop_middle l pos x H) at 1.
  by rewrite Permutation_middle.
Qed.

Lemma remove_waiter_Permutation ws x mode ws' :
  ws ≡ₚ (x, mode) :: ws' -> remove_waiter ws x mode ≡ₚ ws'.
Proof.
  intros Hp. unfold remove_waiter.
  destruct (position _ ws) as [pos|] eqn:E.
  - apply position_Some in E as [([x' m'] & Hl & Hb) _]. bool_to_prop. simpl in *.
    apply Z.eqb_eq in H. subst. apply vec_remove_Permutation in Hl.
    rewrite Hl in Hp. by apply Permutation.Permutation_cons_inv in Hp.
  - exfalso. assert (Hin : (x, mode) ∈ ws) by (rewrite Hp; set_solver).
    clear -E Hin. induction ws as [|w ws IH]; [by apply not_elem_of_nil in Hin|].
    simpl in E. destruct ((w.1 =? x) && bool_decide (w.2 = mode)) eqn:Hb; [done|].
    apply fmap_None in E. apply elem_of_cons in Hin as [<-|Hin]; [|auto].
    simpl in Hb. by rewrite Z.eqb_refl, bool_decide_eq_true_2 in Hb.
Qed.

(** ** How each operation changes an entry *)

Lemma entry_set m tag st tag' :
  entry_or_new (set_entry m tag st) tag' = if decide (tag = tag') then st else entry_or_new m tag'.
Proof.
  unfold entry_or_new, set_entry; simpl. rewrite lookup_insert. by case_decide.
Qed.

Lemma table_ensure m x : table (ensure_xid_state m x) = table m.
Proof. unfold ensure_xid_state. by case_match. Qed.
Lemma table_clear m x : table (clear_victim m x) = table m.
Proof. unfold clear_victim. by case_match. Qed.
Lemma table_mark m x : table (mark_victim m x) = table m.
Proof. unfold mark_victim. by case_match. Qed.

Lemma entry_ensure m x tag : entry_or_new (ensure_xid_state m x) tag = entry_or_new m tag.
Proof. unfold entry_or_new. by rewrite table_ensure. Qed.
Lemma entry_clear m x tag : entry_or_new (clear_victim m x) tag = entry_or_new m tag.
Proof. unfold entry_or_new. by rewrite table_clear. Qed.
Lemma entry_mark m x tag : entry_or_new (mark_victim m x) tag = entry_or_new m tag.
Proof. unfold entry_or_new. by rewrite table_mark. Qed.

Lemma entry_is_empty_new st : entry_is_empty st = true -> st = LockEntry_new.
Proof. destruct st as [[] []]; done. Qed.

Lemma entry_prune m tag tag' :
  entry_or_new (prune_entry_if_empty m tag) tag' = entry_or_new m tag'.
Proof.
  unfold prune_entry_if_empty, entry_or_new.
  destruct (table m !! tag) as [st|] eqn:E; [|done].
  destruct (entry_is_empty st) eqn:Hem; [|done]. simpl.
  destruct (decide (tag = tag')) as [->|]; [|by rewrite lookup_delete_ne].
  rewrite lookup_delete_eq, E. simpl. by rewrite (entry_is_empty_new st).
Qed.

Lemma filter_negb_none {A} (p : A -> bool) l :
  existsb p l = false -> List.filter (fun g => negb (p g)) l = l.
Proof.
  induction l as [|a l IH]; simpl; [done|]. intros [Ha Hl]%orb_false_iff.
  rewrite Ha. simpl. f_equal. auto.
Qed.

Lemma entry_sweep p (t : gmap LockTag LockEntryState) tag :
  default LockEntry_new (omap (sweep_entry p) t !! tag) =
  let st := default LockEntry_new (t !! tag) in
  mk_LockEntryState (List.filter (fun g => negb (p g)) (grants st)) (waiters st).
Proof.
  rewrite lookup_omap. destruct (t !! tag) as [st|]; simpl; [|done].
  unfold sweep_entry. destruct (existsb p (grants st)) eqn:E; simpl.
  - destruct (entry_is_empty _) eqn:Hem; simpl; [|done]. by rewrite (entry_is_empty_new _ Hem).
  - rewrite filter_negb_none by done. by destruct st.
Qed.

Lemma entry_release_lock m x tag mode tag' :
  entry_or_new (release_lock m x tag mode) tag' =
  if decide (tag = tag')
  then mk_LockEntryState (remove_grant (grants (entry_or_new m tag)) x mode)
         (waiters (entry_or_new m tag))
  else entry_or_new m tag'.
Proof.
  unfold release_lock. destruct (table m !! tag) as [st|] eqn:E.
  - rewrite entry_prune, entry_set. unfold entry_or_new. rewrite E. done.
  - case_decide as Hd; [|done]. subst. unfold entry_or_new. by rewrite E.
Qed.

Lemma remove_grant_elem gs x mode g : g ∈ remove_grant gs x mode -> g ∈ gs.
Proof. unfold remove_grant. case_match; [apply vec_remove_elem|done]. Qed.

Lemma filter_elem {A} (p : A -> bool) l x : x ∈ List.filter p l -> x ∈ l.
Proof. rewrite !list_elem_of_In. intros [? _]%filter_In. done. Qed.

(** ** Preservation *)

Lemma blocked_on_app b1 b2 tag : blocked_on (b1 ++ b2) tag = blocked_on b1 tag ++ blocked_on b2 tag.
Proof. unfold blocked_on. by rewrite filter_app, fmap_app. Qed.

Lemma blocked_on_one req owner tag :
  blocked_on [(req, owner)] tag =
  if decide (req_tag req = tag) then [(req_xid req, req_mode req)] else [].
Proof. unfold blocked_on. rewrite filter_cons. simpl. by case_decide. Qed.

Lemma blocked_on_middle b1 b2 req owner tag :
  blocked_on (b1 ++ (req, owner) :: b2) tag ≡ₚ
  blocked_on [(req, owner)] tag ++ blocked_on (b1 ++ b2) tag.
Proof.
  change ((req, owner) :: b2) with ([(req, owner)] ++ b2).
  rewrite !blocked_on_app. by rewrite !(assoc_L (++)), (comm (++) (blocked_on b1 tag)).
Qed.

(** An operation that keeps every queue and only drops grants keeps the
    invariant. *)
Lemma lock_inv_shrink m m' b :
  (forall tag, waiters (entry_or_new m' tag) = waiters (entry_or_new m tag)) ->
  (forall tag g, g ∈ grants (entry_or_new m' tag) -> g ∈ grants (entry_or_new m tag)) ->
  lock_inv (mk_lsys m b) -> lock_inv (mk_lsys m' b).
Proof.
  intros Hw Hg [He Hq]. split; simpl in *; intros tag.
  - eapply exclusive_subset; [apply Hg|apply He].
  - by rewrite Hw.
Qed.

(** A change of one entry. *)
Lemma lock_inv_entry m tag st b b' m' :
  (forall t, entry_or_new m' t = if decide (tag = t) then st else entry_or_new m t) ->
  exclusive (grants st) -> waiters st ≡ₚ blocked_on b' tag ->
  (forall t, t <> tag -> blocked_on b' t ≡ₚ blocked_on b t) ->
  lock_inv (mk_lsys m b) -> lock_inv (mk_lsys m' b').
Proof.
  intros Hent Hx Hwt Hb [He Hq]. split; simpl in *; intros t; rewrite Hent; case_decide; subst; auto.
  rewrite Hb by done. auto.
Qed.

Lemma lock_inv_enter m b req owner c m' o :
  lock_inv (mk_lsys m b) -> acquire_enter m req owner c = (m', o) ->
  lock_inv (mk_lsys m' (match o with Waiting => b ++ [(req, owner)] | _ => b end)).
Proof.
  intros Hinv Hacq. pose proof Hinv as [He Hq]. simpl in *.
  unfold acquire_enter in Hacq. rewrite entry_ensure in Hacq.
  destruct (has_conflict _ _ _) eqn:Hc; simpl in Hacq; [destruct c|]; simplify_eq;
    (eapply (lock_inv_entry m (req_tag req) _ b);
      [intros t; by rewrite ?entry_clear, entry_set, entry_ensure|..|exact Hinv]); simpl; auto.
  - rewrite blocked_on_app, blocked_on_one, decide_True by done. by rewrite Hq.
  - intros t Ht. rewrite blocked_on_app, blocked_on_one, decide_False by done. by rewrite app_nil_r.
  - by apply exclusive_push.
Qed.

Lemma blocked_leaves m b1 b2 req owner :
  lock_inv (mk_lsys m (b1 ++ (req, owner) :: b2)) ->
  remove_waiter (waiters (entry_or_new m (req_tag req))) (req_xid req) (req_mode req)
    ≡ₚ blocked_on (b1 ++ b2) (req_tag req) /\
  (forall t, t <> req_tag req ->
     blocked_on (b1 ++ b2) t ≡ₚ blocked_on (b1 ++ (req, owner) :: b2) t).
Proof.
  intros [_ Hq]. simpl in Hq. split.
  - apply remove_waiter_Permutation. rewrite Hq, blocked_on_middle, blocked_on_one.
    by rewrite decide_True.
  - intros t Ht. rewrite blocked_on_middle, blocked_on_one, decide_False by done. done.
Qed.

Lemma lock_inv_sleep m b1 b2 req owner m' o :
  lock_inv (mk_lsys m (b1 ++ (req, owner) :: b2)) ->
  acquire_before_sleep m req = (m', o) -> o <> Waiting -> lock_inv (mk_lsys m' (b1 ++ b2)).
Proof.
  intros Hinv Hacq Ho. destruct (blocked_leaves _ _ _ _ _ Hinv) as [Hd Ht]. pose proof Hinv as [He _].
  unfold acquire_before_sleep in Hacq. destruct (is_victim _ _); simplify_eq.
  eapply (lock_inv_entry m (req_tag req) _ _); [intros t; by rewrite entry_set|..]; eauto.
  apply He.
Qed.

Lemma lock_inv_wake m b1 b2 req owner c e m' o :
  lock_inv (mk_lsys m (b1 ++ (req, owner) :: b2)) ->
  acquire_after_wake m req owner c e = (m', o) -> o <> Waiting ->
  lock_inv (mk_lsys m' (b1 ++ b2)).
Proof.
  intros Hinv Hacq Ho. destruct (blocked_leaves _ _ _ _ _ Hinv) as [Hd Ht]. pose proof Hinv as [He _].
  simpl in He. unfold acquire_after_wake in Hacq.
  destruct (is_victim _ _); [|destruct (has_conflict _ _ _) eqn:Hc; simpl in Hacq;
    [destruct c; [|destruct e]|]]; simplify_eq;
    (eapply (lock_inv_entry m (req_tag req) _ _);
      [intros t; by rewrite ?entry_clear, entry_set|..|exact Hinv]); simpl; auto.
  by apply exclusive_push.
Qed.

Lemma lock_inv_try m b req owner m' r :
  lock_inv (mk_lsys m b) -> try_acquire_with_owner m req owner = (m', r) ->
  lock_inv (mk_lsys m' b).
Proof.
  intros Hinv Hacq. pose proof Hinv as [He Hq]. simpl in *.
  unfold try_acquire_with_owner in Hacq. rewrite entry_ensure in Hacq.
  destruct (is_victim _ _); [|destruct (has_conflict _ _ _) eqn:Hc]; simplify_eq;
    [eapply lock_inv_shrink; [..|exact Hinv]; intros tag; rewrite entry_ensure; auto|..];
    (eapply (lock_inv_entry m (req_tag req) _ b);
      [intros t; by rewrite entry_set, entry_ensure|..|exact Hinv]); simpl; auto.
  by apply exclusive_push.
Qed.

Lemma lock_inv_sweep m b p t :
  lock_inv (mk_lsys m b) -> lock_inv (mk_lsys (mk_LockManager (omap (sweep_entry p) (table m)) t) b).
Proof.
  apply lock_inv_shrink; intros tag; unfold entry_or_new; simpl; rewrite entry_sweep; auto.
  simpl. intros g. apply filter_elem.
Qed.

Lemma lock_inv_step s s' : lock_inv s -> lstep s s' -> lock_inv s'.
Proof.
  intros Hinv Hstep. destruct Hstep as [m b req owner c m' o Hacq Ho| | | | | | | |].
  - pose proof (lock_inv_enter _ _ _ _ _ _ _ Hinv Hacq). by destruct o.
  - eapply (lock_inv_enter _ _ _ _ _ _ Waiting); eauto.
  - eapply lock_inv_sleep; eauto.
  - eapply lock_inv_wake; eauto.
  - eapply lock_inv_try; eauto.
  - eapply lock_inv_shrink; [..|exact Hinv]; intros t; rewrite entry_release_lock;
      case_decide; subst; auto. simpl. intros g. apply remove_grant_elem.
  - by apply lock_inv_sweep.
  - destruct owners; [done|]. by apply lock_inv_sweep.
  - eapply lock_inv_shrink; [..|exact Hinv]; intros t; rewrite entry_mark; auto.
Qed.

Lemma lock_inv_init : lock_inv (mk_lsys LockManager_new []).
Proof.
  split; intros tag; unfold entry_or_new; simpl; rewrite lookup_empty; simpl; [|done].
  apply exclusive_nil.
Qed.

(** ** Properties *)



(** [release_all] and [release_subxact_locks] free exactly the grants of
    the transaction, respectively of the rolled-back subtransactions: every
    object keeps its other grants in order and its whole wait queue, and the
    transaction's deadlock state is forgotten only by [release_all]. *)
Theorem release_exact m x owners tag :
  entry_or_new (release_all m x) tag =
    mk_LockEntryState
      (List.filter (fun g => negb (g_xid g =? x)) (grants (entry_or_new m tag)))
      (waiters (entry_or_new m tag)) /\
  xid_states (release_all m x) !! x = None /\
  entry_or_new (release_subxact_locks m owners) tag =
    mk_LockEntryState
      (List.filter (fun g => negb (bool_decide (g_owner g ∈ owners))) (grants (entry_or_new m tag)))
      (waiters (entry_or_new m tag)) /\
  xid_states (release_subxact_locks m owners) = xid_states m.
Proof.
  split; [apply entry_sweep|]. split; [apply lookup_delete_eq|].
  destruct owners as [|o os]; [|split; [apply entry_sweep|done]].
  split; [|done]. simpl. rewrite (filter_negb_none (fun _ => false)).
  - by destruct (entry_or_new m tag).
  - by induction (grants (entry_or_new m tag)).
Qed.

(** The conflicts each mode's documentation lists. *)
Definition documented_conflicts (m : LockMode) : list LockMode :=
  match m with
  | AccessShare => [AccessExclusive]
  | RowShare => [Exclusive; AccessExclusive]
  | RowExclusive => [Share; ShareRowExclusive; Exclusive; AccessExclusive]
  | ShareUpdateExclusive =>
      [ShareUpdateExclusive; Share; ShareRowExclusive; Exclusive; AccessExclusive]
  | Share => [RowExclusive; ShareUpdateExclusive; ShareRowExclusive; Exclusive; AccessExclusive]
  | ShareRowExclusive =>
      [RowExclusive; ShareUpdateExclusive; Share; ShareRowExclusive; Exclusive; AccessExclusive]
  | Exclusive =>
      [RowShare; RowExclusive; ShareUpdateExclusive; Share; ShareRowExclusive; Exclusive;
       AccessExclusive]
  | AccessExclusive =>
      [AccessShare; RowShare; RowExclusive; ShareUpdateExclusive; Share; ShareRowExclusive;
       Exclusive; AccessExclusive]
  end.

(** The conflict matrix is symmetric and equals the documented conflicts
    on every pair but two (and their mirrors): [RowShare] with [Exclusive] is
    documented as conflicting and the code lets them coexist; [RowExclusive]
    with [ShareUpdateExclusive] is documented as compatible and the code
    makes them conflict. *)
Theorem conflict_matrix_vs_documentation a b :
  conflicts_with a b = conflicts_with b a /\
  conflicts_with a b =
    match a, b with
    | RowShare, Exclusive | Exclusive, RowShare => false
    | RowExclusive, ShareUpdateExclusive | ShareUpdateExclusive, RowExclusive => true
    | _, _ => bool_decide (b ∈ documented_conflicts a)
    end.
Proof. split; [apply conflicts_with_sym|]. by destruct a, b. Qed.

Lemma acquire_enter_outcome m req owner c :
  (acquire_enter m req owner c).2 =
  if has_conflict (grants (entry_or_new m (req_tag req))) (req_xid req) (req_mode req)
  then (if c then Failed LockCancelled else Waiting) else Granted.
Proof.
  unfold acquire_enter. rewrite entry_ensure. by destruct (has_conflict _ _ _), c.
Qed.

(** On an object with no entry the request is granted at once. *)
Lemma acquire_enter_free m req owner c tag :
  req_tag req = tag -> entry_or_new m tag = LockEntry_new ->
  entry_or_new (acquire_enter m req owner c).1 tag = push_grant LockEntry_new req owner.
Proof.
  intros <- He. unfold acquire_enter. rewrite entry_ensure, He. simpl.
  by rewrite entry_clear, entry_set, decide_True.
Qed.

(** The row-lock conflicts that result: [FOR UPDATE] excludes [FOR
    UPDATE], [FOR NO KEY UPDATE] and [FOR SHARE], but not [FOR KEY SHARE], and
    two [FOR NO KEY UPDATE] holders do not exclude each other. A granted
    request is recorded for the tuple. *)
Theorem row_lock_conflicts x y tid a b m :
  x <> y -> table m !! TagTuple tid = None ->
  (acquire_row_lock (acquire_row_lock m x tid a).1 y tid b).2 =
    if match a, b with
       | ForUpdate, ForKeyShare | ForKeyShare, ForUpdate => false
       | ForUpdate, _ | _, ForUpdate => true
       | ForShare, ForNoKeyUpdate | ForNoKeyUpdate, ForShare => true
       | _, _ => false
       end
    then Waiting else Granted.
Proof.
  intros Hne Hm. unfold acquire_row_lock. rewrite acquire_enter_outcome.
  cbn [req_tag].
  rewrite acquire_enter_free by (try done; unfold entry_or_new; by rewrite Hm).
  cbn [grants push_grant app req_xid req_mode has_conflict existsb g_xid g_mode LockEntry_new].
  apply Z.eqb_neq in Hne. rewrite Hne.
  by destruct a, b.
Qed.

Lemma row_lock_conflicts_witness :
  (acquire_row_lock (acquire_row_lock LockManager_new 10 (mk_TupleId (mk_PageId 1 0) 0) ForUpdate).1
     11 (mk_TupleId (mk_PageId 1 0) 0) ForKeyShare).2 = Granted.
Proof.
  apply (row_lock_conflicts 10 11 (mk_TupleId (mk_PageId 1 0) 0) ForUpdate ForKeyShare LockManager_new);
    [lia|reflexivity].
Defined.

(** ** Fastpath *)

Definition fastpath_wf (cache : list FastpathEntry) : Prop :=
  Forall (fun e => 1 <= fp_count e) cache.

Lemma fp_matches_same tag mode e n :
  fp_matches tag mode e = true ->
  fp_matches tag mode (mk_FastpathEntry (fp_tag e) (fp_mode e) n) = true.
Proof. done. Qed.

Lemma position_insert_match {A} (p : A -> bool) l pos a :
  position p l = Some pos -> p a = true -> position p (<[pos := a]> l) = Some pos.
Proof.
  revert pos. induction l as [|b l IH]; intros pos; simpl; [done|].
  destruct (p b) eqn:Hb.
  - intros [= <-] Ha. simpl. by rewrite Ha.
  - intros (k & Hk & ->)%fmap_Some Ha. simpl. rewrite Hb, IH; done.
Qed.

Lemma position_app_miss {A} (p : A -> bool) l a :
  position p l = None -> p a = true -> position p (l ++ [a]) = Some (length l).
Proof.
  intros Hl Ha. induction l as [|b l IH]; simpl in *; [by rewrite Ha|].
  destruct (p b); [done|]. apply fmap_None in Hl. by rewrite IH.
Qed.

(** A fastpath acquisition followed by its release restores the cache;
    an acquisition on an eligible object fails exactly when the reference
    count is already [u32::MAX]. *)
Theorem fastpath_roundtrip cache req :
  fastpath_wf cache -> fastpath_eligible (req_tag req) (req_mode req) = true ->
  match acquire_fastpath cache req with
  | Some (Ok cache') =>
      fastpath_wf cache' /\
      release_fastpath cache' (req_tag req) (req_mode req) = Some cache
  | Some (Err e) =>
      e = FastpathOverflow /\
      exists c, c ∈ cache /\ fp_matches (req_tag req) (req_mode req) c = true /\ U32 - 1 <= fp_count c
  | None => False
  end.
Proof.
  intros Hwf Hel. unfold acquire_fastpath. rewrite Hel.
  destruct (position _ cache) as [pos|] eqn:Hpos.
  - pose proof (position_Some _ _ _ Hpos) as [(e & He & Hm) _]. rewrite He.
    assert (Hc : 1 <= fp_count e)
      by (unfold fastpath_wf in Hwf; rewrite Forall_forall in Hwf;
          by eapply Hwf, list_elem_of_lookup_2).
    unfold checked_add. destruct (Z.ltb_spec (fp_count e + 1) U32); simpl.
    + split; [apply Forall_insert; simpl; [done|lia]|].
      unfold release_fastpath. rewrite Hel.
      rewrite (position_insert_match _ _ _ _ Hpos (fp_matches_same _ _ _ _ Hm)).
      rewrite list_lookup_insert_eq by (by eapply lookup_lt_Some). simpl.
      destruct (Z.ltb_spec 1 (fp_count e + 1)); [|lia].
      rewrite list_insert_insert_eq. f_equal.
      replace (fp_count e + 1 - 1) with (fp_count e) by lia.
      apply list_insert_id. by destruct e.
    + split; [done|]. exists e. split; [by eapply list_elem_of_lookup_2|]. split; [done|lia].
  - assert (Hself : fp_matches (req_tag req) (req_mode req)
      (mk_FastpathEntry (req_tag req) (req_mode req) 1) = true)
      by (unfold fp_matches; simpl; by rewrite !bool_decide_eq_true_2).
    split; [apply Forall_app; split; [done|repeat constructor; simpl; lia]|].
    unfold release_fastpath. rewrite Hel, (position_app_miss _ _ _ Hpos Hself).
    rewrite lookup_app_r, Nat.sub_diag by lia. simpl. f_equal.
    unfold vec_remove. rewrite take_app_length, drop_ge, app_nil_r; [done|].
    rewrite length_app. simpl. lia.
Qed.

Lemma fastpath_roundtrip_witness :
  match acquire_fastpath [mk_FastpathEntry (TagRelation 3) AccessShare 2]
          (mk_LockRequest 9 (TagRelation 3) AccessShare) with
  | Some (Ok cache') =>
      fastpath_wf cache' /\
      release_fastpath cache' (TagRelation 3) AccessShare =
        Some [mk_FastpathEntry (TagRelation 3) AccessShare 2]
  | Some (Err e) =>
      e = FastpathOverflow /\
      exists c, c ∈ [mk_FastpathEntry (TagRelation 3) AccessShare 2] /\
        fp_matches (TagRelation 3) AccessShare c = true /\ U32 - 1 <= fp_count c
  | None => False
  end.
Proof.
  apply (fastpath_roundtrip [mk_FastpathEntry (TagRelation 3) AccessShare 2]
           (mk_LockRequest 9 (TagRelation 3) AccessShare)); [repeat constructor; simpl; lia|reflexivity].
Defined.
