(* ===== verification/LockRace.v ===== *)
(** * Pruning against a concurrent acquisition (ultrasql-txn, lock.rs)

    [acquire_with_owner] finds the entry of an object in the table and clones
    its [Arc]; the table's shard lock is released at the end of that
    statement, and only afterwards is the entry's own mutex taken. [release]
    prunes an empty entry from the table under the shard lock. Here the table
    maps an object to a reference into a heap of entries, and the two halves
    of an acquisition are separate steps, as they are in the source. *)

From S2P Require Import Prelude CoreIds Lock.

Record rstate := mk_rstate {
  r_table : gmap LockTag nat;
  r_heap : list LockEntryState;
  r_inflight : list (LockRequest * nat);
  r_held : list (Xid * LockTag * LockMode);
}.

Definition rstate_init : rstate := mk_rstate ∅ [] [] [].

Inductive rop :=
| RLookup (req : LockRequest)
| RGrant (pos : nat)
| RRelease (xid : Xid) (tag : LockTag) (mode : LockMode)
| RPrune (tag : LockTag).

(** [table.entry(tag).or_insert_with(LockEntry::new).clone()] *)
Definition r_lookup (s : rstate) (req : LockRequest) : rstate :=
  match r_table s !! req_tag req with
  | Some id => mk_rstate (r_table s) (r_heap s) (r_inflight s ++ [(req, id)]) (r_held s)
  | None =>
      let id := length (r_heap s) in
      mk_rstate (<[req_tag req := id]> (r_table s)) (r_heap s ++ [LockEntry_new])
        (r_inflight s ++ [(req, id)]) (r_held s)
  end.

(** The critical section on the entry's mutex that grants the request. *)
Definition r_grant (s : rstate) (pos : nat) : option rstate :=
  match r_inflight s !! pos with
  | None => None
  | Some (req, id) =>
      match r_heap s !! id with
      | None => None
      | Some st =>
          if has_conflict (grants st) (req_xid req) (req_mode req) then None
          else Some (mk_rstate (r_table s) (<[id := push_grant st req (req_xid req)]> (r_heap s))
                       (vec_remove pos (r_inflight s))
                       ((req_xid req, req_tag req, req_mode req) :: r_held s))
      end
  end.

(** The first half of [release]: remove the grant under the entry's mutex. *)
Definition r_release (s : rstate) (xid : Xid) (tag : LockTag) (mode : LockMode) : option rstate :=
  match r_table s !! tag with
  | None => Some s
  | Some id =>
      match r_heap s !! id with
      | None => None
      | Some st =>
          Some (mk_rstate (r_table s)
                  (<[id := mk_LockEntryState (remove_grant (grants st) xid mode) (waiters st)]>
                     (r_heap s))
                  (r_inflight s)
                  (filter (fun h => h <> (xid, tag, mode)) (r_held s)))
      end
  end.

(** [prune_entry_if_empty]: [remove_if] under the shard lock. *)
Definition r_prune (s : rstate) (tag : LockTag) : rstate :=
  match r_table s !! tag with
  | Some id =>
      match r_heap s !! id with
      | Some st =>
          if entry_is_empty st
          then mk_rstate (delete tag (r_table s)) (r_heap s) (r_inflight s) (r_held s)
          else s
      | None => s
      end
  | None => s
  end.

Definition rstep (s : rstate) (op : rop) : option rstate :=
  match op with
  | RLookup req => Some (r_lookup s req)
  | RGrant pos => r_grant s pos
  | RRelease x t m => r_release s x t m
  | RPrune t => Some (r_prune s t)
  end.

Fixpoint rrun (s : rstate) (ops : list rop) : option rstate :=
  match ops with
  | [] => Some s
  | op :: ops' => match rstep s op with Some s' => rrun s' ops' | None => None end
  end.

(** Transaction 1 holds the object; transaction 2 has cloned the entry;
    transaction 1 releases and prunes; transaction 2 is granted on the entry
    that is no longer in the table; transaction 3 gets a fresh entry. *)
Definition prune_race : list rop :=
  [RLookup (mk_LockRequest 1 (TagRelation 7) Exclusive); RGrant 0;
   RLookup (mk_LockRequest 2 (TagRelation 7) Exclusive);
   RRelease 1 (TagRelation 7) Exclusive; RPrune (TagRelation 7);
   RGrant 0;
   RLookup (mk_LockRequest 3 (TagRelation 7) Exclusive); RGrant 0].

(** With the table lookup and the entry's mutex taken in two steps,
    mutual exclusion fails: an interleaving of three transactions ends with
    two of them holding [Exclusive] on one relation, because an entry pruned
    between the two steps is granted on after it left the table. *)
Theorem prune_race_breaks_exclusion :
  exists ops s x y tag,
    rrun rstate_init ops = Some s /\ x <> y /\
    (x, tag, Exclusive) ∈ r_held s /\ (y, tag, Exclusive) ∈ r_held s /\
    conflicts_with Exclusive Exclusive = true.
Proof.
  exists prune_race. destruct (rrun rstate_init prune_race) as [s|] eqn:E;
    [|vm_compute in E; discriminate].
  exists s, 2, 3, (TagRelation 7). vm_compute in E. injection E as <-.
  split; [done|]. split; [done|]. split; [|split; [|done]]; simpl; set_solver.
Qed.
