(* ===== verification/Deadlock.v ===== *)
(** * The deadlock detector (ultrasql-txn, lock.rs)

    The wait-for graph of the lock table, the recursive depth-first search
    for cycles, and the choice of the youngest transaction of each cycle as
    its victim. The search is proved total, sound (a victim lies on a cycle
    and is its youngest member) and complete (a graph with a cycle yields a
    victim). *)

From S2P Require Import Prelude CoreIds Lock.

Abbreviation wait_for_graph := (gmap Z (list Z)).
Abbreviation dfs_state := (gmap Z bool * list Z)%type.

(** [cycle.iter().copied().max_by_key(|x| x.raw())] *)
Definition youngest (cycle : list Xid) : option Xid :=
  match cycle with
  | [] => None
  | x :: l => Some (foldl Z.max x l)
  end.

Section search.
Context (graph : wait_for_graph).

Definition neighbors (u : Xid) : list Xid := default [] (graph !! u).

(** One neighbour of the node on top of [on_stack]: skip a processed one,
    report the cycle a grey one closes, recurse into a new one. *)
Definition visit_neighbor (recurse : Xid -> list Xid -> dfs_state -> option dfs_state)
    (on_stack : list Xid) (neighbor : Xid) (st : dfs_state) : option dfs_state :=
  let '(visited, victims) := st in
  match visited !! neighbor with
  | Some true => Some st
  | Some false =>
      match position (fun x => x =? neighbor) on_stack with
      | None => Some st
      | Some cycle_start =>
          match youngest (drop cycle_start on_stack) with
          | None => Some st
          | Some victim => Some (visited, victims ++ [victim])
          end
      end
  | None => recurse neighbor on_stack (<[neighbor := false]> visited, victims)
  end.

Fixpoint visit_all (recurse : Xid -> list Xid -> dfs_state -> option dfs_state)
    (on_stack : list Xid) (ns : list Xid) (st : dfs_state) : option dfs_state :=
  match ns with
  | [] => Some st
  | n :: ns' =>
      match visit_neighbor recurse on_stack n st with
      | Some st' => visit_all recurse on_stack ns' st'
      | None => None
      end
  end.

(** [fuel] bounds the recursion depth; [None] is exhaustion. *)
Fixpoint dfs_find_cycle (fuel : nat) (node : Xid) (on_stack : list Xid) (st : dfs_state)
  : option dfs_state :=
  match fuel with
  | O => None
  | S fuel' =>
      match visit_all (dfs_find_cycle fuel') (on_stack ++ [node]) (neighbors node) st with
      | Some (visited, victims) => Some (<[node := true]> visited, victims)
      | None => None
      end
  end.

Fixpoint search_all (fuel : nat) (nodes : list Xid) (st : dfs_state) : option dfs_state :=
  match nodes with
  | [] => Some st
  | start :: nodes' =>
      match st.1 !! start with
      | Some _ => search_all fuel nodes' st
      | None =>
          match dfs_find_cycle fuel start [] st with
          | Some st' => search_all fuel nodes' st'
          | None => None
          end
      end
  end.

(** ** Graph vocabulary *)

Definition edge (u v : Xid) : Prop := v ∈ neighbors u.

(** One edge per consecutive pair of the list. *)
Definition walk (l : list Xid) : Prop :=
  forall i u v, l !! i = Some u -> l !! S i = Some v -> edge u v.

Definition closed_walk (c : list Xid) : Prop :=
  walk c /\ exists u v, c !! 0%nat = Some u /\ last c = Some v /\ edge v u.

(** [v] is the youngest member of a cycle. *)
Definition cycle_victim (v : Xid) : Prop :=
  exists c, closed_walk c /\ v ∈ c /\ forall u, u ∈ c -> u <= v.

(** Every node that can be met. *)
Definition universe : gset Z :=
  dom graph ∪ list_to_set (map_to_list graph ≫= snd).

Lemma edge_universe u v : edge u v -> v ∈ universe.
Proof.
  unfold edge, neighbors, universe.
  destruct (graph !! u) as [ns|] eqn:E; simpl; [|by intros ?%not_elem_of_nil].
  intros Hv. apply elem_of_union_r, elem_of_list_to_set, list_elem_of_bind.
  exists (u, ns). split; [done|]. by apply elem_of_map_to_list.
Qed.

Lemma walk_drop k l : walk l -> walk (drop k l).
Proof.
  intros H i u v. rewrite !lookup_drop. intros Hu Hv. apply (H (k + i)%nat); [done|].
  by replace (S (k + i)) with (k + S i)%nat by lia.
Qed.

Lemma walk_snoc l u v : walk (l ++ [u]) -> edge u v -> walk ((l ++ [u]) ++ [v]).
Proof.
  intros H He i a b Ha Hb.
  destruct (decide (S i < length (l ++ [u]))%nat) as [Hlt|Hge].
  - rewrite lookup_app_l in Hb by done. rewrite lookup_app_l in Ha by lia. by apply (H i).
  - pose proof (lookup_lt_Some _ _ _ Hb) as Hb2. rewrite !length_app in Hb2. rewrite length_app in Hge.
    cbn [length] in Hb2, Hge.
    assert (i = length l) as -> by lia.
    rewrite lookup_app_l, list_lookup_middle in Ha by (rewrite ?length_app; simpl; lia).
    rewrite list_lookup_middle in Hb by (rewrite length_app; simpl; lia).
    by simplify_eq.
Qed.

Lemma walk_single u : walk [u].
Proof. intros i a b _ Hb. by destruct i. Qed.

Lemma walk_reaches l i j u v :
  walk l -> (i <= j)%nat -> l !! i = Some u -> l !! j = Some v -> rtc edge u v.
Proof.
  intros H Hij Hu. revert v. induction Hij as [|j Hij IH]; intros v Hv; [by simplify_eq|].
  destruct (l !! j) as [w|] eqn:Hw.
  - eapply rtc_r; [by apply IH|]. by apply (H j).
  - apply lookup_ge_None in Hw. apply lookup_lt_Some in Hv. lia.
Qed.

(** Two members of a closed walk reach each other. *)
Lemma closed_walk_reaches c u v : closed_walk c -> u ∈ c -> v ∈ c -> rtc edge u v.
Proof.
  intros (Hw & a & z & Ha & Hz & He) [i Hu]%list_elem_of_lookup [j Hv]%list_elem_of_lookup.
  rewrite last_lookup in Hz.
  pose proof (lookup_lt_Some _ _ _ Hu). 
  trans z; [apply (walk_reaches c i (pred (length c))); [done|lia|done|done]|].
  eapply rtc_l; [done|]. apply (walk_reaches c 0%nat j); [done|lia|done|done].
Qed.

Lemma youngest_Some c u : u ∈ c -> exists v, youngest c = Some v.
Proof. destruct c as [|x l]; [by intros ?%not_elem_of_nil|]. by eexists. Qed.

Lemma foldl_max_spec l x :
  (foldl Z.max x l = x \/ foldl Z.max x l ∈ l) /\ x <= foldl Z.max x l /\
  forall u, u ∈ l -> u <= foldl Z.max x l.
Proof.
  revert x. induction l as [|y l IH]; intros x; cbn [foldl].
  - split; [by left|]. split; [lia|]. by intros u ?%not_elem_of_nil.
  - destruct (IH (Z.max x y)) as (Hin & Hle & Hall). split_and!.
    + destruct Hin as [->|Hin]; [|by right; right].
      destruct (Z.max_spec x y) as [[_ ->]|[_ ->]]; [right; left|by left].
    + lia.
    + intros u [->|Hu]%elem_of_cons; [lia|by apply Hall].
Qed.

Lemma youngest_spec c v : youngest c = Some v -> v ∈ c /\ forall u, u ∈ c -> u <= v.
Proof.
  destruct c as [|x l]; [done|]. cbn [youngest]. intros [= <-].
  destruct (foldl_max_spec l x) as (Hin & Hle & Hall). split.
  - destruct Hin as [->|Hin]; [left|by right].
  - intros u [->|Hu]%elem_of_cons; [done|by apply Hall].
Qed.

(** The suffix of the path that a back edge closes is a closed walk through
    both ends of the back edge. *)
Lemma back_edge_cycle stk node n k :
  walk (stk ++ [node]) -> edge node n ->
  position (fun x => x =? n) (stk ++ [node]) = Some k ->
  closed_walk (drop k (stk ++ [node])) /\
  n ∈ drop k (stk ++ [node]) /\ node ∈ drop k (stk ++ [node]).
Proof.
  intros Hw He [(a & Ha & ->%Z.eqb_eq) _]%position_Some.
  pose proof (lookup_lt_Some _ _ _ Ha) as Hk.
  assert (last (drop k (stk ++ [node])) = Some node) as Hlast.
  { rewrite drop_app_le by (rewrite length_app in Hk; cbn [length] in Hk; lia). apply last_snoc. }
  split_and!.
  - split; [by apply walk_drop|]. exists n, node.
    split; [by rewrite lookup_drop, Nat.add_0_r|done].
  - apply list_elem_of_lookup. exists 0%nat. by rewrite lookup_drop, Nat.add_0_r.
  - apply last_Some in Hlast as [l' ->]. set_solver.
Qed.

(** ** Termination

    A recursive call is made on a node that has just entered [visited], so
    the depth is bounded by the nodes that are not in it yet. *)

Definition unvisited (visited : gmap Z bool) : nat := size (universe ∖ dom visited).

Lemma unvisited_mono vis vis' : dom vis ⊆ dom vis' -> (unvisited vis' <= unvisited vis)%nat.
Proof. intros H. unfold unvisited. apply subseteq_size. set_solver. Qed.

Lemma unvisited_insert vis n :
  n ∈ universe -> vis !! n = None -> (S (unvisited (<[n := false]> vis)) <= unvisited vis)%nat.
Proof.
  intros Hn Hv%not_elem_of_dom. unfold unvisited. rewrite dom_insert_L.
  replace (universe ∖ dom vis) with ({[n]} ∪ universe ∖ ({[n]} ∪ dom vis)).
  - rewrite (size_union (C:=gset Z) {[n]} (universe ∖ ({[n]} ∪ dom vis))) by set_solver. by rewrite (size_singleton (C:=gset Z)).
  - apply set_eq. intros x. destruct (decide (x = n)); set_solver.
Qed.

Definition total_from (fuel : nat) : Prop :=
  forall node stk st, (unvisited st.1 < fuel)%nat ->
    exists st', dfs_find_cycle fuel node stk st = Some st' /\ dom st.1 ⊆ dom st'.1.

Lemma visit_all_total fuel ns stk st :
  total_from fuel -> (forall n, n ∈ ns -> n ∈ universe) -> (unvisited st.1 <= fuel)%nat ->
  exists st', visit_all (dfs_find_cycle fuel) stk ns st = Some st' /\ dom st.1 ⊆ dom st'.1.
Proof.
  intros Htot. revert st. induction ns as [|n ns IH]; intros [vis vics] Hin Hfuel; cbn [visit_all].
  { by eexists. }
  assert (exists st', visit_neighbor (dfs_find_cycle fuel) stk n (vis, vics) = Some st' /\
    dom vis ⊆ dom st'.1) as (st1 & -> & Hdom).
  { cbn. destruct (vis !! n) as [[]|] eqn:Hv; [by eexists| |].
    - destruct (position _ _); [|by eexists]. by destruct (youngest _); eexists.
    - destruct (Htot n stk (<[n := false]> vis, vics)) as (st' & -> & Hsub).
      { pose proof (unvisited_insert vis n (Hin n ltac:(left)) Hv). cbn in *. lia. }
      exists st'. cbn in Hsub. split; [done|]. set_solver. }
  destruct (IH st1) as (st' & -> & Hsub).
  { intros m Hm. apply Hin. by right. }
  { pose proof (unvisited_mono _ _ Hdom). cbn in *. lia. }
  exists st'. split; [done|]. cbn in *. set_solver.
Qed.

Lemma dfs_total fuel : total_from fuel.
Proof.
  induction fuel as [|fuel IH]; intros node stk [vis vics] Hlt; cbn in *; [lia|].
  destruct (visit_all_total fuel (neighbors node) (stk ++ [node]) (vis, vics))
    as ([vis' vics'] & -> & Hsub); [done|intros n; apply edge_universe|cbn; lia|].
  eexists. split; [done|]. cbn in *. set_solver.
Qed.

Lemma search_all_total fuel nodes st :
  (size universe < fuel)%nat -> exists st', search_all fuel nodes st = Some st'.
Proof.
  intros Hfuel. revert st. induction nodes as [|n nodes IH]; intros st; cbn [search_all]; [by eexists|].
  destruct (st.1 !! n); [apply IH|].
  destruct (dfs_total fuel n [] st) as (st' & -> & _); [|apply IH].
  unfold unvisited. eapply Nat.le_lt_trans; [|done]. apply subseteq_size. set_solver.
Qed.

(** ** Soundness: a reported victim is the youngest member of a cycle *)

Definition reports_cycles (st : dfs_state) : Prop := forall v, v ∈ st.2 -> cycle_victim v.

Lemma visit_all_ind (I : dfs_state -> Prop) recurse stk ns st st' :
  (forall n s s', n ∈ ns -> I s -> visit_neighbor recurse stk n s = Some s' -> I s') ->
  I st -> visit_all recurse stk ns st = Some st' -> I st'.
Proof.
  revert st. induction ns as [|n ns IH]; intros st Hstep HI; cbn [visit_all]; [by intros [= <-]|].
  destruct (visit_neighbor _ _ _ _) as [st1|] eqn:E; [|done].
  apply IH; [|by eapply Hstep; [left|..]].
  intros m s s' Hm. apply Hstep. by right.
Qed.

Lemma dfs_sound fuel node stk st st' :
  walk (stk ++ [node]) -> reports_cycles st ->
  dfs_find_cycle fuel node stk st = Some st' -> reports_cycles st'.
Proof.
  revert node stk st st'. induction fuel as [|fuel IH]; intros node stk st st' Hw Hst; [done|].
  cbn [dfs_find_cycle]. destruct (visit_all _ _ _ _) as [[vis1 vics1]|] eqn:E; [|done].
  intros [= <-]. change (reports_cycles (vis1, vics1)).
  revert Hst E. apply visit_all_ind. clear st vis1 vics1. intros n [vis vics] s' Hn Hs. cbn.
  destruct (vis !! n) as [[]|]; [by intros [= <-]| |].
  - destruct (position _ _) as [k|] eqn:Hk; [|by intros [= <-]].
    destruct (youngest _) as [v|] eqn:Hv; [|by intros [= <-]]. intros [= <-].
    destruct (back_edge_cycle _ _ _ _ Hw Hn Hk) as (Hc & _ & _).
    intros u [Hu|Hu]%elem_of_app; [by apply Hs|apply list_elem_of_singleton in Hu as ->].
    exists (drop k (stk ++ [node])). by split; [|apply youngest_spec].
  - apply IH; [by apply walk_snoc|done].
Qed.

Lemma search_all_sound fuel nodes st st' :
  reports_cycles st -> search_all fuel nodes st = Some st' -> reports_cycles st'.
Proof.
  revert st. induction nodes as [|n nodes IH]; intros st Hst; cbn [search_all]; [by intros [= <-]|].
  destruct (st.1 !! n); [by apply IH|].
  destruct (dfs_find_cycle _ _ _ _) as [st1|] eqn:E; [|done].
  apply IH. by eapply (dfs_sound fuel n []); [apply walk_single|..].
Qed.

(** ** Completeness: the component of every cycle gets a victim

    [r] is a node of a cycle; its component is the set of nodes that reach
    it and are reached from it. While no victim of the component has been
    reported, processed nodes have no infinite path inside it. *)

Lemma visit_all_victims recurse stk ns st st' v :
  (forall n s s', recurse n stk s = Some s' -> v ∈ s.2 -> v ∈ s'.2) ->
  v ∈ st.2 -> visit_all recurse stk ns st = Some st' -> v ∈ st'.2.
Proof.
  intros Hrec. apply (visit_all_ind (fun s => v ∈ s.2)). intros n [vis vics] s' _ Hv. cbn in *.
  destruct (vis !! n) as [[]|]; [by intros [= <-]| |].
  - destruct (position _ _); [|by intros [= <-]].
    destruct (youngest _); intros [= <-]; [|done]. cbn. set_solver.
  - intros E. by apply (Hrec _ _ _ E).
Qed.

Lemma dfs_victims fuel node stk st st' v :
  dfs_find_cycle fuel node stk st = Some st' -> v ∈ st.2 -> v ∈ st'.2.
Proof.
  revert node stk st st'. induction fuel as [|fuel IH]; intros node stk st st'; [done|].
  cbn [dfs_find_cycle]. destruct (visit_all _ _ _ _) as [[vis1 vics1]|] eqn:E; [|done].
  intros [= <-] Hv. eapply (visit_all_victims _ _ _ _ (vis1, vics1)); [|done|done].
  intros n s s'. apply IH.
Qed.

Lemma search_all_victims fuel nodes st st' v :
  v ∈ st.2 -> search_all fuel nodes st = Some st' -> v ∈ st'.2.
Proof.
  revert st. induction nodes as [|n nodes IH]; intros st Hv; cbn [search_all]; [by intros [= <-]|].
  destruct (st.1 !! n); [by apply IH|].
  destruct (dfs_find_cycle _ _ _ _) as [st1|] eqn:E; [|done].
  apply IH. by eapply dfs_victims.
Qed.

Section component.
Context (r : Xid).

Definition component (u : Xid) : Prop := rtc edge r u /\ rtc edge u r.

Definition inner (v u : Xid) : Prop := edge u v /\ component u /\ component v.

Definition clean (st : dfs_state) : Prop := forall v, v ∈ st.2 -> ~ component v.

Definition search_inv (stk : list Xid) (st : dfs_state) : Prop :=
  (forall n, st.1 !! n = Some false -> n ∈ stk) /\
  (forall n, st.1 !! n = Some true -> Acc inner n).

Definition complete_from (fuel : nat) : Prop :=
  forall node stk st st', walk (stk ++ [node]) -> dfs_find_cycle fuel node stk st = Some st' ->
    clean st' -> search_inv (stk ++ [node]) st -> Acc inner node /\ search_inv stk st'.

Lemma visit_neighbor_complete fuel stk node n st st' :
  complete_from fuel -> walk (stk ++ [node]) -> edge node n ->
  visit_neighbor (dfs_find_cycle fuel) (stk ++ [node]) n st = Some st' -> clean st' ->
  search_inv (stk ++ [node]) st ->
  (inner n node -> Acc inner n) /\ search_inv (stk ++ [node]) st'.
Proof.
  intros Hrec Hw He. destruct st as [vis vics]. cbn.
  destruct (vis !! n) as [[]|] eqn:Hn; intros E Hclean [Hgrey Hblack].
  - simplify_eq. split; [intros _; by apply Hblack|done].
  - destruct (position _ _) as [k|] eqn:Hk.
    + destruct (back_edge_cycle _ _ _ _ Hw He Hk) as (Hc & Hnc & Hnode).
      destruct (youngest_Some _ _ Hnc) as [v Hv]. rewrite Hv in E. simplify_eq.
      split; [|done]. intros (_ & [Hr1 Hr2] & _). exfalso.
      apply youngest_spec in Hv as [Hv _].
      apply (Hclean v); [cbn; set_solver|].
      split; trans node; try done; by eapply closed_walk_reaches.
    + exfalso. rewrite position_None, Forall_forall in Hk.
      specialize (Hk n (Hgrey n Hn)). cbn in Hk. lia.
  - destruct (Hrec n (stk ++ [node]) (<[n := false]> vis, vics) st') as [Hacc Hinv];
      [by apply walk_snoc|exact E|exact Hclean| |by split].
    split; cbn in *; intros m; rewrite lookup_insert; case_decide; subst; intros Hm; simplify_eq;
      [set_solver| |by apply Hblack]. apply Hgrey in Hm. set_solver.
Qed.

Lemma visit_all_complete fuel stk node ns st st' :
  complete_from fuel -> walk (stk ++ [node]) -> (forall n, n ∈ ns -> edge node n) ->
  visit_all (dfs_find_cycle fuel) (stk ++ [node]) ns st = Some st' -> clean st' ->
  search_inv (stk ++ [node]) st ->
  (forall n, n ∈ ns -> inner n node -> Acc inner n) /\ search_inv (stk ++ [node]) st'.
Proof.
  intros Hrec Hw. revert st. induction ns as [|n ns IH]; intros st He; cbn [visit_all].
  { intros [= <-] _ Hinv. split; [by intros n ?%not_elem_of_nil|done]. }
  destruct (visit_neighbor _ _ _ _) as [st1|] eqn:E; [|done]. intros E' Hclean Hinv.
  assert (clean st1) as Hclean1.
  { intros v Hv. apply Hclean. eapply visit_all_victims; [|done|done].
    intros m s s'. apply dfs_victims. }
  destruct (visit_neighbor_complete fuel stk node n st st1 Hrec Hw (He n ltac:(left)) E Hclean1 Hinv)
    as [Hn Hinv1].
  destruct (IH st1 (fun m Hm => He m (list_elem_of_further _ _ _ Hm)) E' Hclean Hinv1) as [Hns Hinv'].
  split; [|done]. intros m [->|Hm]%elem_of_cons; [done|by apply Hns].
Qed.

Lemma dfs_complete fuel : complete_from fuel.
Proof.
  induction fuel as [|fuel IH]; intros node stk st st' Hw; [done|].
  cbn [dfs_find_cycle]. destruct (visit_all _ _ _ _) as [[vis1 vics1]|] eqn:E; [|done].
  intros [= <-] Hclean Hinv.
  destruct (visit_all_complete fuel stk node _ _ _ IH Hw (fun n Hn => Hn) E Hclean Hinv)
    as [Hns [Hgrey Hblack]].
  assert (Acc inner node) as Hacc.
  { constructor. intros n Hin. apply Hns; [apply Hin|done]. }
  split; [done|]. split; cbn; intros n; rewrite lookup_insert; case_decide; subst; intros Hn;
    simplify_eq; [|done|by apply Hblack].
  apply Hgrey in Hn. set_solver.
Qed.

Lemma search_all_complete fuel nodes st st' :
  search_all fuel nodes st = Some st' -> clean st' -> search_inv [] st ->
  forall n, n ∈ nodes -> Acc inner n.
Proof.
  revert st. induction nodes as [|n nodes IH]; intros st; cbn [search_all].
  { by intros _ _ _ n ?%not_elem_of_nil. }
  destruct (st.1 !! n) as [b|] eqn:Hn.
  - intros E Hclean [Hgrey Hblack] m [->|Hm]%elem_of_cons; [|by eapply IH].
    destruct b; [by apply Hblack|]. by apply Hgrey, not_elem_of_nil in Hn.
  - destruct (dfs_find_cycle _ _ _ _) as [st1|] eqn:E1; [|done]. intros E Hclean [Hgrey Hblack].
    assert (clean st1) as Hclean1.
    { intros v Hv. apply Hclean. by eapply search_all_victims. }
    assert (search_inv ([] ++ [n]) st) as Hinv0.
    { split; [|exact Hblack]. intros m Hm. by apply Hgrey, not_elem_of_nil in Hm. }
    destruct (dfs_complete fuel n [] st st1 (walk_single n) E1 Hclean1 Hinv0) as [Hacc Hinv].
    intros m [->|Hm]%elem_of_cons; [done|by eapply IH].
Qed.
End component.

Lemma Acc_no_cycle r u : Acc (inner r) u -> component r u -> tc edge u u -> False.
Proof.
  induction 1 as [u _ IH]. intros Hu Hcyc.
  assert (exists w, edge u w /\ rtc edge w u) as (w & He & Hw).
  { inversion Hcyc; subst; [by exists u|]. eexists. split; [done|]. by apply tc_rtc. }
  assert (component r w) as Hcw.
  { split; [by eapply rtc_r; [apply Hu|]|]. trans u; [done|apply Hu]. }
  apply (IH w); [done|done|]. by eapply tc_rtc_l, tc_once.
Qed.

(** The search over any enumeration of the keys. *)
Lemma search_spec nodes :
  (forall u, is_Some (graph !! u) -> u ∈ nodes) ->
  exists vis victims, search_all (S (size universe)) nodes (∅, []) = Some (vis, victims) /\
    (forall v, v ∈ victims -> cycle_victim v) /\
    (forall r, tc edge r r -> ~ (forall v, v ∈ victims -> ~ component r v)).
Proof.
  intros Hnodes.
  destruct (search_all_total (S (size universe)) nodes (∅, [])) as [[vis victims] E]; [lia|].
  exists vis, victims. split; [done|]. split.
  - intros v Hv. eapply search_all_sound; [|done|done]. by intros u ?%not_elem_of_nil.
  - intros r Hr Hno. apply (Acc_no_cycle r r); [|by split|done].
    apply (search_all_complete r _ _ _ _ E); [exact Hno|by split|].
    apply Hnodes. assert (exists w, edge r w) as [w Hw] by (inversion Hr; by eexists).
    unfold edge, neighbors in Hw. destruct (graph !! r); [by eexists|by apply not_elem_of_nil in Hw].
Qed.
End search.

(** ** Building the graph *)

(** The edges one entry contributes: each waiter waits for the holders whose
    grant its mode conflicts with. *)
Definition entry_edges (st : LockEntryState) : list (Xid * Xid) :=
  w ← waiters st;
  g ← grants st;
  if conflicts_with w.2 (g_mode g) && negb (w.1 =? g_xid g) then [(w.1, g_xid g)] else [].

Definition add_edge (g : wait_for_graph) (e : Xid * Xid) : wait_for_graph :=
  <[e.1 := default [] (g !! e.1) ++ [e.2]]> g.

Definition build_wait_for (entries : list (LockTag * LockEntryState)) : wait_for_graph :=
  foldl add_edge ∅ (entries ≫= (fun e => entry_edges e.2)).

(** Marks the victim of every cycle the search reports. [entries] and
    [all_nodes] are the orders in which the two hash maps happen to iterate. *)
Definition detect_and_resolve (entries : list (LockTag * LockEntryState))
    (all_nodes : wait_for_graph -> list Xid) (m : LockManager) : option (LockManager * list Xid) :=
  let g := build_wait_for entries in
  if decide (g = ∅) then Some (m, []) else
  match search_all g (S (size (universe g))) (all_nodes g) (∅, []) with
  | Some (_, victims) => Some (foldl mark_victim m victims, victims)
  | None => None
  end.

(** [u] waits for [v]: [u] is queued, in a mode that conflicts with one [v]
    holds on the same object. *)
Definition waits_for (m : LockManager) (u v : Xid) : Prop :=
  exists tag st mode g, table m !! tag = Some st /\ (u, mode) ∈ waiters st /\ g ∈ grants st /\
    conflicts_with mode (g_mode g) = true /\ g_xid g = v /\ u <> v.

Lemma elem_of_entry_edges st u v :
  (u, v) ∈ entry_edges st <->
  exists mode g, (u, mode) ∈ waiters st /\ g ∈ grants st /\
    conflicts_with mode (g_mode g) = true /\ g_xid g = v /\ u <> v.
Proof.
  unfold entry_edges. rewrite list_elem_of_bind. split.
  - intros ([w mode] & Hg & Hw). cbn in Hg. apply list_elem_of_bind in Hg as (g & Hin & Hg).
    cbn in Hin. case_match eqn:E; [|by apply not_elem_of_nil in Hin].
    apply list_elem_of_singleton in Hin. bool_to_prop. simplify_eq. exists mode, g. naive_solver lia.
  - intros (mode & g & Hw & Hg & Hc & <- & Hne). exists (u, mode). split; [|done].
    apply list_elem_of_bind. exists g. split; [|done]. cbn. rewrite Hc.
    rewrite (proj2 (Z.eqb_neq _ _) Hne). by left.
Qed.

Lemma edge_add_edge g es u v :
  edge (foldl add_edge g es) u v <-> edge g u v \/ (u, v) ∈ es.
Proof.
  revert g. induction es as [|[a b] es IH]; intros g; cbn [foldl].
  { split; [by left|intros [H|H%not_elem_of_nil]; done]. }
  rewrite IH, elem_of_cons. unfold edge, neighbors, add_edge. cbn. rewrite lookup_insert.
  case_decide as Ha; [subst a|].
  - cbn [default from_option id]. rewrite elem_of_app, list_elem_of_singleton.
    intuition (simplify_eq; auto).
  - intuition (simplify_eq; auto).
Qed.

Lemma build_wait_for_edges m entries u v :
  entries ≡ₚ map_to_list (table m) -> edge (build_wait_for entries) u v <-> waits_for m u v.
Proof.
  intros Hperm. unfold build_wait_for. rewrite edge_add_edge, list_elem_of_bind. split.
  - intros [H|([tag st] & He & Hin)]; [by apply not_elem_of_nil in H|].
    rewrite Hperm, elem_of_map_to_list in Hin. apply elem_of_entry_edges in He as (mode & g & He).
    by exists tag, st, mode, g.
  - intros (tag & st & mode & g & Ht & He). right. exists (tag, st). cbn.
    rewrite Hperm, elem_of_map_to_list, elem_of_entry_edges. split; [|done]. by exists mode, g.
Qed.

Lemma foldl_mark_victim m vs :
  table (foldl mark_victim m vs) = table m /\
  forall x, xid_states (foldl mark_victim m vs) !! x =
    (fun b => b || bool_decide (x ∈ vs)) <$> xid_states m !! x.
Proof.
  revert m. induction vs as [|v vs IH]; intros m; cbn [foldl].
  { split; [done|]. intros x. rewrite bool_decide_eq_false_2 by apply not_elem_of_nil.
    by destruct (xid_states m !! x) as [[]|]. }
  destruct (IH (mark_victim m v)) as [-> Hst]. unfold mark_victim in *.
  split; [by destruct (xid_states m !! v)|]. intros x. rewrite Hst. clear.
  destruct (decide (x = v)) as [->|Hne].
  - rewrite (bool_decide_eq_true_2 (v ∈ v :: vs)) by left.
    destruct (xid_states m !! v) as [[]|] eqn:E; cbn; rewrite ?lookup_insert, ?E, ?decide_True by done; done.
  - rewrite (bool_decide_ext (x ∈ v :: vs) (x ∈ vs)) by (rewrite elem_of_cons; naive_solver).
    destruct (xid_states m !! v) eqn:E; cbn; by rewrite ?lookup_insert_ne.
Qed.

(** A cycle of waiting transactions. *)
Definition waits_cycle (m : LockManager) (c : list Xid) : Prop :=
  (forall i u v, c !! i = Some u -> c !! S i = Some v -> waits_for m u v) /\
  exists u v, c !! 0%nat = Some u /\ last c = Some v /\ waits_for m v u.

(** [r] and [v] wait for each other, directly or not. *)
Definition deadlocked_with (m : LockManager) (r v : Xid) : Prop :=
  rtc (waits_for m) r v /\ rtc (waits_for m) v r.

Section detector.
Context (m : LockManager) (entries : list (LockTag * LockEntryState))
  (Hperm : entries ≡ₚ map_to_list (table m)).

Let g := build_wait_for entries.

Lemma closed_walk_waits c : closed_walk g c -> waits_cycle m c.
Proof.
  intros (Hw & u & v & Hu & Hv & He). split.
  - intros i a b Ha Hb. apply (build_wait_for_edges _ _ _ _ Hperm). by apply (Hw i).
  - exists u, v. by rewrite <- (build_wait_for_edges _ _ _ _ Hperm).
Qed.

Lemma rtc_waits u v : rtc (waits_for m) u v -> rtc (edge g) u v.
Proof.
  induction 1 as [|a b c Hab _ IH]; [done|].
  eapply rtc_l; [by apply (build_wait_for_edges _ _ _ _ Hperm)|done].
Qed.

Lemma rtc_edges u v : rtc (edge g) u v -> rtc (waits_for m) u v.
Proof.
  induction 1 as [|a b c Hab _ IH]; [done|].
  eapply rtc_l; [by apply (build_wait_for_edges _ _ _ _ Hperm)|done].
Qed.

Lemma tc_waits u v : tc (waits_for m) u v -> tc (edge g) u v.
Proof.
  induction 1 as [a b Hab|a b c Hab _ IH].
  - by apply tc_once, (build_wait_for_edges _ _ _ _ Hperm).
  - eapply tc_l; [by apply (build_wait_for_edges _ _ _ _ Hperm)|done].
Qed.

Lemma no_edges_no_waits u v : g = ∅ -> ~ waits_for m u v.
Proof.
  intros Hg Hw%(build_wait_for_edges _ _ _ _ Hperm). fold g in Hw. rewrite Hg in Hw.
  by apply not_elem_of_nil in Hw.
Qed.
End detector.

(** C29. One pass of the deadlock detector, whatever order the hash maps are
    iterated in: it terminates; every transaction it names is the youngest of
    a cycle of waiting transactions; every transaction on such a cycle is in
    a deadlock with one it names (no deadlock survives unnoticed); the lock
    table is untouched and exactly the named transactions that have a state
    are flagged. *)
Theorem deadlock_detected m entries all_nodes :
  entries ≡ₚ map_to_list (table m) ->
  (forall g, all_nodes g ≡ₚ (map_to_list g).*1) ->
  exists m' victims, detect_and_resolve entries all_nodes m = Some (m', victims) /\
    (forall v, v ∈ victims -> exists c, waits_cycle m c /\ v ∈ c /\ forall u, u ∈ c -> u <= v) /\
    (forall r, tc (waits_for m) r r -> ~ (forall v, v ∈ victims -> ~ deadlocked_with m r v)) /\
    table m' = table m /\
    forall x, xid_states m' !! x = (fun b => b || bool_decide (x ∈ victims)) <$> xid_states m !! x.
Proof.
  intros Hperm Hnodes. unfold detect_and_resolve. case_decide as Hg.
  { exists m, []. split_and!; [done|by intros v ?%not_elem_of_nil| |done|apply (foldl_mark_victim m [])].
    intros r Hr _. inversion Hr; subst; by eapply no_edges_no_waits. }
  destruct (search_spec (build_wait_for entries) (all_nodes (build_wait_for entries)))
    as (vis & victims & -> & Hsound & Hcomp).
  { intros u [ns Hu]. rewrite Hnodes. apply list_elem_of_fmap. exists (u, ns).
    by rewrite elem_of_map_to_list. }
  destruct (foldl_mark_victim m victims) as [Ht Hx].
  exists (foldl mark_victim m victims), victims. split_and!; [done| | |done|done].
  - intros v (c & Hc & Hv)%Hsound. exists c. split; [by apply (closed_walk_waits m entries)|done].
  - intros r Hr Hno. apply (Hcomp r); [by apply (tc_waits m)|].
    intros v Hv [H1 H2]. apply (Hno v Hv). split; by eapply rtc_edges.
Qed.

(** Transactions 7 and 9 each hold a relation the other waits for, and 9, the
    younger, is the victim. *)
Definition deadlock_example : LockManager :=
  mk_LockManager
    (<[TagRelation 1 := mk_LockEntryState [mk_Grant 7 Exclusive 7] [(9, Exclusive)]]>
      (<[TagRelation 2 := mk_LockEntryState [mk_Grant 9 Exclusive 9] [(7, Exclusive)]]> ∅))
    (<[7 := false]> (<[9 := false]> ∅)).

Lemma deadlock_detected_witness :
  snd <$> detect_and_resolve (map_to_list (table deadlock_example)) (fun g => (map_to_list g).*1)
    deadlock_example = Some [9] /\
  exists m' victims, detect_and_resolve (map_to_list (table deadlock_example))
      (fun g => (map_to_list g).*1) deadlock_example = Some (m', victims) /\
    table m' = table deadlock_example.
Proof.
  split; [vm_compute; reflexivity|].
  destruct (deadlock_detected deadlock_example (map_to_list (table deadlock_example))
    (fun g => (map_to_list g).*1)) as (m' & victims & E & _ & _ & Ht & _); [reflexivity|reflexivity|].
  exists m', victims. split; [exact E|exact Ht].
Defined.
