(* ===== verification/Ssi.v ===== *)
(** * Serializable snapshot isolation (ultrasql-txn, ssi.rs)

    The rw-anti-dependency graph, the predicate locks that feed it and the
    pivot test at commit. [DashMap] and [HashSet] are [gmap] and [gset]; each
    method is one atomic step, which is how the callers (holding no lock
    across calls) observe it. *)

From S2P Require Import Prelude CoreIds.

Inductive PredicateLockTag :=
| PTuple (t : TupleId)
| PPage (p : PageId)
| PColumnRange (relation column : Z) (low high : option Z)
| PRelation (r : Z).

Record SsiState := mk_SsiState {
  in_conflict_in : gset Z;
  in_conflict_out : gset Z;
  predicate_locks : list PredicateLockTag;
  committed : bool;
  commit_horizon : option Xid;
}.

Definition SsiState_new : SsiState := mk_SsiState ∅ ∅ [] false None.

(** The detail string of the error is kept as the data it prints. *)
Record SsiDetail := mk_SsiDetail {
  d_t1 : Xid; d_t3 : Xid;
  d_t1_committed : bool; d_pivot_committed : bool; d_t3_committed : bool;
}.

Inductive SsiError :=
| Serialization (victim : Xid) (detail : SsiDetail).

Abbreviation SsiManager := (gmap Z SsiState).

Definition SsiManager_new : SsiManager := ∅.

(** ** Predicate-lock coverage *)

Definition range_is_empty (low high : option Z) : bool :=
  match low, high with
  | Some low, Some high => high <? low
  | _, _ => false
  end.

(** [matches!((a, b), (Some(a), Some(b)) if a < b)] *)
Definition both_lt (a b : option Z) : bool :=
  match a, b with
  | Some a, Some b => a <? b
  | _, _ => false
  end.

Definition ranges_overlap (left_low left_high right_low right_high : option Z) : bool :=
  if range_is_empty left_low left_high || range_is_empty right_low right_high then false
  else if both_lt left_high right_low then false
  else if both_lt right_high left_low then false
  else true.

Definition predicate_lock_covers (held requested : PredicateLockTag) : bool :=
  match held, requested with
  | PRelation hr, PRelation rr => hr =? rr
  | PRelation hr, PPage rp => hr =? pg_relation rp
  | PRelation hr, PTuple rt => hr =? pg_relation (tid_page rt)
  | PRelation hr, PColumnRange relation _ low high => (hr =? relation) && negb (range_is_empty low high)
  | PPage hp, PPage rp => bool_decide (hp = rp)
  | PPage hp, PRelation rr => pg_relation hp =? rr
  | PPage hp, PTuple rt => bool_decide (hp = tid_page rt)
  | PTuple ht, PRelation rr => pg_relation (tid_page ht) =? rr
  | PTuple ht, PPage rp => bool_decide (tid_page ht = rp)
  | PTuple ht, PTuple rt => bool_decide (ht = rt)
  | PColumnRange relation _ low high, PRelation rr => (relation =? rr) && negb (range_is_empty low high)
  | PColumnRange hrel hcol hlow hhigh, PColumnRange rrel rcol rlow rhigh =>
      (hrel =? rrel) && (hcol =? rcol) && ranges_overlap hlow hhigh rlow rhigh
  | _, _ => false
  end.

(** ** Operations *)

Definition register_xid (m : SsiManager) (xid : Xid) : SsiManager :=
  match m !! xid with
  | Some _ => m
  | None => <[xid := SsiState_new]> m
  end.

Definition add_predicate_lock (m : SsiManager) (xid : Xid) (tag : PredicateLockTag) : SsiManager :=
  alter (fun s => mk_SsiState (in_conflict_in s) (in_conflict_out s)
                    (predicate_locks s ++ [tag]) (committed s) (commit_horizon s)) xid m.

Definition insert_out (writer : Xid) (s : SsiState) : SsiState :=
  mk_SsiState (in_conflict_in s) ({[writer]} ∪ in_conflict_out s)
    (predicate_locks s) (committed s) (commit_horizon s).

Definition insert_in (reader : Xid) (s : SsiState) : SsiState :=
  mk_SsiState ({[reader]} ∪ in_conflict_in s) (in_conflict_out s)
    (predicate_locks s) (committed s) (commit_horizon s).

Definition record_rw_conflict (m : SsiManager) (reader writer : Xid) : SsiManager :=
  alter (insert_in reader) writer (alter (insert_out writer) reader m).

Definition find_predicate_lock_holders (m : SsiManager) (tag : PredicateLockTag) : list Xid :=
  (List.filter (fun e => existsb (fun pl => predicate_lock_covers pl tag) (predicate_locks e.2))
     (map_to_list m)).*1.

Definition record_write_conflicts (m : SsiManager) (writer : Xid) (tag : PredicateLockTag)
  : SsiManager * list Xid :=
  match m !! writer with
  | None => (m, [])
  | Some _ =>
      let readers := dedup (sort_unstable
        (List.filter (fun r => negb (r =? writer)) (find_predicate_lock_holders m tag))) in
      (foldl (fun m reader => record_rw_conflict m reader writer) m readers, readers)
  end.

(** One pair of the double loop: [None] is [continue]. *)
Definition dangerous_pair (m : SsiManager) (xid : Xid) (pivot_committed : bool) (t1 t3 : Xid)
  : option SsiDetail :=
  if (t1 =? xid) || (t3 =? xid) then None else
  match m !! t1, m !! t3 with
  | Some e1, Some e3 =>
      if committed e1 || pivot_committed || committed e3
      then Some (mk_SsiDetail t1 t3 (committed e1) pivot_committed (committed e3))
      else None
  | _, _ => None
  end.

Definition check_for_dangerous_structure (m : SsiManager) (xid : Xid) : result unit SsiError :=
  match m !! xid with
  | None => Ok tt
  | Some pivot =>
      let in_set := elements (in_conflict_in pivot) in
      let out_set := elements (in_conflict_out pivot) in
      if bool_decide (in_set = []) || bool_decide (out_set = []) then Ok tt else
      match head (omap (fun p => dangerous_pair m xid (committed pivot) p.1 p.2)
                   (t1 ← in_set; t3 ← out_set; [(t1, t3)])) with
      | Some d => Err (Serialization xid d)
      | None => Ok tt
      end
  end.

Definition mark_committed (horizon : Xid) (s : SsiState) : SsiState :=
  mk_SsiState (in_conflict_in s) (in_conflict_out s) (predicate_locks s) true (Some horizon).

Definition ssi_commit (m : SsiManager) (xid horizon : Xid) : SsiManager * result unit SsiError :=
  let m' := alter (mark_committed horizon) xid m in
  (m', check_for_dangerous_structure m' xid).

Definition retire (horizon : Xid) (s : SsiState) : bool :=
  committed s && match commit_horizon s with Some h => h <=? horizon | None => false end.

Definition collect_garbage (m : SsiManager) (horizon : Xid) : SsiManager * nat :=
  let m' := filter (fun e => retire horizon e.2 = false) m in
  (m', (size m - size m')%nat).

Definition ssi_abort (m : SsiManager) (xid : Xid) : SsiManager := delete xid m.

Definition tracked_len (m : SsiManager) : nat := size m.

Definition ssi_predicate_locks (m : SsiManager) (xid : Xid) : list PredicateLockTag :=
  match m !! xid with Some e => predicate_locks e | None => [] end.

(** ** What a tag covers *)

Definition in_range (low high : option Z) (x : Z) : Prop :=
  match low with Some l => l <= x | None => True end /\
  match high with Some h => x <= h | None => True end.

Definition is_i64 (x : Z) : Prop := - 2 ^ 63 <= x < 2 ^ 63.

Definition opt_i64 (o : option Z) : Prop := match o with Some x => is_i64 x | None => True end.

(** A row version: where it is stored, and the scalar value of each column. *)
Record Row := mk_Row { row_tid : TupleId; row_column : Z -> Z }.

Definition row_relation (r : Row) : Z := pg_relation (tid_page (row_tid r)).

Definition tag_matches (tag : PredicateLockTag) (r : Row) : Prop :=
  match tag with
  | PTuple t => row_tid r = t
  | PPage p => tid_page (row_tid r) = p
  | PColumnRange relation column low high =>
      row_relation r = relation /\ is_i64 (row_column r column) /\
      in_range low high (row_column r column)
  | PRelation rel => row_relation r = rel
  end.

Definition tag_ok (tag : PredicateLockTag) : Prop :=
  match tag with
  | PColumnRange _ _ low high => opt_i64 low /\ opt_i64 high
  | _ => True
  end.

(** A location is not compared with a column range, and ranges are compared
    column by column. *)
Definition comparable (a b : PredicateLockTag) : Prop :=
  match a, b with
  | PTuple _, PColumnRange _ _ _ _ | PPage _, PColumnRange _ _ _ _
  | PColumnRange _ _ _ _, PTuple _ | PColumnRange _ _ _ _, PPage _ => False
  | PColumnRange _ c _ _, PColumnRange _ c' _ _ => c = c'
  | _, _ => True
  end.

Lemma range_nonempty_spec low high :
  opt_i64 low -> opt_i64 high ->
  range_is_empty low high = false <-> exists x, is_i64 x /\ in_range low high x.
Proof.
  unfold range_is_empty, in_range, opt_i64, is_i64. intros Hl Hh.
  destruct low as [l|], high as [h|]; split; bool_to_prop; intros H; try done.
  - exists l. lia.
  - destruct H as (x & ? & ?). lia.
  - by exists l.
  - by exists h.
  - by exists 0.
Qed.

Lemma ranges_overlap_sym a b c d : ranges_overlap a b c d = ranges_overlap c d a b.
Proof.
  unfold ranges_overlap. rewrite orb_comm. destruct (_ || _); [done|].
  by destruct (both_lt b c), (both_lt d a).
Qed.

Lemma ranges_overlap_spec ll lh rl rh :
  opt_i64 ll -> opt_i64 lh -> opt_i64 rl -> opt_i64 rh ->
  ranges_overlap ll lh rl rh = true <->
  exists x, is_i64 x /\ in_range ll lh x /\ in_range rl rh x.
Proof.
  unfold ranges_overlap, range_is_empty, both_lt, in_range, opt_i64, is_i64. intros Ha Hb Hc Hd.
  split.
  - intros H.
    exists (Z.max (default (Z.min (default 0 lh) (default 0 rh)) ll)
                  (default (Z.min (default 0 lh) (default 0 rh)) rl)).
    destruct ll as [a|], lh as [b|], rl as [c|], rh as [d|]; cbn in *;
      repeat case_match; bool_to_prop; try done; lia.
  - intros (x & Hx & H1 & H2).
    destruct ll as [a|], lh as [b|], rl as [c|], rh as [d|]; cbn in *;
      repeat case_match; bool_to_prop; try done; lia.
Qed.

Lemma predicate_lock_covers_sym a b : predicate_lock_covers a b = predicate_lock_covers b a.
Proof.
  assert (forall (A : Type) `{EqDecision A} (x y : A), bool_decide (x = y) = bool_decide (y = x)) as Hbd.
  { intros A ? x y. by apply bool_decide_ext. }
  destruct a, b; cbn; try done;
    rewrite ?(Z.eqb_sym relation), ?(Z.eqb_sym column), ?(ranges_overlap_sym low); auto using Z.eqb_sym.
Qed.

(** A location in a relation where a row can be found, and a row with one
    value in every column. *)
Definition some_row (t : TupleId) (x : Z) : Row := mk_Row t (fun _ => x).

(** A tag that names a location is matched by a row there. *)
Lemma row_at_tuple t : exists row, row_tid row = t.
Proof. by exists (some_row t 0). Qed.

Lemma row_at_page p : exists row, tid_page (row_tid row) = p.
Proof. by exists (some_row (mk_TupleId p 0) 0). Qed.

Lemma row_at_relation r : exists row, row_relation row = r.
Proof. by exists (some_row (mk_TupleId (mk_PageId r 0) 0) 0). Qed.

Lemma covers_overlap_range rel col low high r :
  opt_i64 low -> opt_i64 high ->
  (rel =? r) && negb (range_is_empty low high) = true <->
  exists row, row_relation row = r /\ tag_matches (PColumnRange rel col low high) row.
Proof.
  intros Hl Hh. rewrite andb_true_iff, negb_true_iff, Z.eqb_eq, range_nonempty_spec by done. split.
  - intros (<- & x & Hx & Hr). by exists (some_row (mk_TupleId (mk_PageId rel 0) 0) x).
  - intros (row & <- & -> & Hx & Hr). split; [done|]. by eexists.
Qed.

(** Predicate-lock coverage: the test is symmetric, and on tags it
    compares it holds exactly when some row version falls under both tags, so
    a write conflicts with exactly the reads it can affect (bounds are i64). *)
Theorem predicate_lock_covers_exact a b :
  predicate_lock_covers a b = predicate_lock_covers b a /\
  (comparable a b -> tag_ok a -> tag_ok b ->
   predicate_lock_covers a b = true <-> exists row, tag_matches a row /\ tag_matches b row).
Proof.
  split; [apply predicate_lock_covers_sym|].
  destruct a as [t|p|rel col low high|r], b as [t'|p'|rel' col' low' high'|r']; cbn [comparable];
    try done; intros Hc Ha Hb; cbn [predicate_lock_covers];
    rewrite ?bool_decide_eq_true, ?Z.eqb_eq.
  all: try (split; [first [intros <- | intros ->]|intros (row & H1 & H2); cbn in *; unfold row_relation in *; congruence];
    cbn; unfold row_relation; solve
      [ destruct (row_at_tuple t) as [row <-]; by exists row
      | destruct (row_at_tuple t') as [row <-]; by exists row
      | destruct (row_at_page p) as [row <-]; by exists row
      | destruct (row_at_page p') as [row <-]; by exists row
      | destruct (row_at_relation r) as [row <-]; by exists row ]).
  - destruct Ha as [Ha1 Ha2], Hb as [Hb1 Hb2]. subst col'. rewrite !andb_true_iff, !Z.eqb_eq, ranges_overlap_spec by done. split.
    + intros ((-> & _) & x & Hx & H1 & H2).
      by exists (some_row (mk_TupleId (mk_PageId rel' 0) 0) x).
    + intros (row & (<- & Hx & H1) & (<- & _ & H2)). split; [done|]. by eexists.
  - destruct Ha. rewrite (covers_overlap_range rel col) by done. naive_solver.
  - destruct Hb. rewrite (Z.eqb_sym r), (covers_overlap_range rel' col') by done. naive_solver.
Qed.

Lemma predicate_lock_covers_exact_witness :
  (exists row, tag_matches (PColumnRange 5 0 (Some 1) (Some 10)) row /\
               tag_matches (PColumnRange 5 0 (Some 10) None) row) /\
  predicate_lock_covers (PColumnRange 5 0 (Some 1) (Some 10)) (PColumnRange 5 0 (Some 11) None) = false.
Proof.
  split; [|reflexivity].
  apply (predicate_lock_covers_exact (PColumnRange 5 0 (Some 1) (Some 10))
           (PColumnRange 5 0 (Some 10) None)); cbn; unfold is_i64; try done; lia.
Defined.

(** ** The conflict graph *)

Definition holds_covering (m : SsiManager) (tag : PredicateLockTag) (x : Xid) : Prop :=
  exists s pl, m !! x = Some s /\ pl ∈ predicate_locks s /\ predicate_lock_covers pl tag = true.

Lemma elem_of_holders m tag x :
  x ∈ find_predicate_lock_holders m tag <-> holds_covering m tag x.
Proof.
  unfold find_predicate_lock_holders, holds_covering.
  rewrite list_elem_of_fmap. split.
  - intros ([k s] & -> & Hin). rewrite list_elem_of_In, List.filter_In in Hin. destruct Hin as [Hin Hex].
    apply list_elem_of_In, elem_of_map_to_list in Hin.
    apply existsb_exists in Hex as (pl & Hpl & Hc). exists s, pl. by rewrite list_elem_of_In.
  - intros (s & pl & Hs & Hpl & Hc). exists (x, s). split; [done|].
    apply list_elem_of_In, List.filter_In. split.
    + by apply list_elem_of_In, elem_of_map_to_list.
    + apply existsb_exists. exists pl. by rewrite <- list_elem_of_In.
Qed.

Lemma lookup_record_rw_conflict m reader writer x :
  record_rw_conflict m reader writer !! x =
  (fun s => (if decide (x = writer) then insert_in reader else id)
              ((if decide (x = reader) then insert_out writer else id) s)) <$> m !! x.
Proof.
  unfold record_rw_conflict.
  rewrite !lookup_alter. repeat case_decide; subst; try done; by destruct (m !! _).
Qed.

(** The state of [x] once every reader of the list has an edge to [writer]. *)
Definition with_edges (readers : list Xid) (writer x : Xid) (s : SsiState) : SsiState :=
  mk_SsiState
    (if decide (x = writer) then list_to_set readers ∪ in_conflict_in s else in_conflict_in s)
    (if decide (x ∈ readers) then {[writer]} ∪ in_conflict_out s else in_conflict_out s)
    (predicate_locks s) (committed s) (commit_horizon s).

Lemma lookup_record_all m readers writer x :
  writer ∉ readers ->
  foldl (fun m reader => record_rw_conflict m reader writer) m readers !! x =
  with_edges readers writer x <$> m !! x.
Proof.
  revert m. induction readers as [|r rs IH]; intros m Hw; cbn [foldl].
  { destruct (m !! x) as [[i o l c h]|]; [|done]. cbn. f_equal. unfold with_edges. cbn.
    rewrite (decide_False (P := x ∈ [])) by apply not_elem_of_nil.
    case_decide; [|done]. f_equal. set_solver. }
  apply not_elem_of_cons in Hw as [Hwr Hw]. rewrite IH by done.
  rewrite lookup_record_rw_conflict. destruct (m !! x) as [[]|]; [|done]. cbn. f_equal.
  unfold with_edges. destruct (decide (x = writer)) as [->|Hx].
  - rewrite (decide_False (P := writer = r)) by done. cbn.
    rewrite !decide_False by set_solver. f_equal. set_solver.
  - destruct (decide (x = r)) as [->|Hxr]; cbn.
    + rewrite (decide_True (P := r ∈ r :: rs)) by left. f_equal. case_decide; set_solver.
    + f_equal. by destruct (decide (x ∈ rs)), (decide (x ∈ r :: rs)); try set_solver.
Qed.

Lemma lookup_record_write_conflicts m writer tag :
  is_Some (m !! writer) ->
  let '(m', readers) := record_write_conflicts m writer tag in
  StronglySorted Z.lt readers /\
  (forall x, x ∈ readers <-> x <> writer /\ holds_covering m tag x) /\
  (forall x, m' !! x = with_edges readers writer x <$> m !! x).
Proof.
  intros [sw Hw]. unfold record_write_conflicts. rewrite Hw.
  assert (forall x, x ∈ dedup (sort_unstable (List.filter (fun r => negb (r =? writer))
      (find_predicate_lock_holders m tag))) <-> x <> writer /\ holds_covering m tag x) as Hel.
  { intros x. rewrite elem_of_dedup, elem_of_sort, <- elem_of_holders, !list_elem_of_In,
      List.filter_In, negb_true_iff, Z.eqb_neq. naive_solver. }
  split_and!; [apply dedup_sorted, sort_sorted|done|].
  intros x. apply lookup_record_all. rewrite Hel. naive_solver.
Qed.

(** A write by a registered transaction: it reports, in ascending order
    and once each, exactly the other transactions holding a predicate lock
    that covers what is written, and adds exactly those rw edges to the graph
    (into the writer, and out of each reader); locks, commit marks and every
    other transaction are untouched. *)
Theorem record_write_conflicts_exact m writer tag m' readers :
  is_Some (m !! writer) ->
  record_write_conflicts m writer tag = (m', readers) ->
  StronglySorted Z.lt readers /\
  (forall x, x ∈ readers <-> x <> writer /\ holds_covering m tag x) /\
  (forall x, m' !! x = with_edges readers writer x <$> m !! x).
Proof.
  intros Hw E. pose proof (lookup_record_write_conflicts m writer tag Hw) as H. by rewrite E in H.
Qed.

(** ** The pivot test *)

Definition is_pivot (m : SsiManager) (x t1 t3 : Xid) : Prop :=
  exists s, m !! x = Some s /\ t1 ∈ in_conflict_in s /\ t3 ∈ in_conflict_out s /\
    t1 <> x /\ t3 <> x /\ is_Some (m !! t1) /\ is_Some (m !! t3).

Definition has_committed (m : SsiManager) (x : Xid) : Prop :=
  exists s, m !! x = Some s /\ committed s = true.

Lemma dangerous_pair_Some m x pc t1 t3 d :
  dangerous_pair m x pc t1 t3 = Some d <->
  t1 <> x /\ t3 <> x /\ exists e1 e3, m !! t1 = Some e1 /\ m !! t3 = Some e3 /\
    (committed e1 = true \/ pc = true \/ committed e3 = true) /\
    d = mk_SsiDetail t1 t3 (committed e1) pc (committed e3).
Proof.
  unfold dangerous_pair. split.
  - intros H. repeat case_match; simplify_eq. bool_to_prop.
    split; [lia|]. split; [lia|]. do 2 eexists. split_and!; try done.
    match goal with H : _ || _ || _ = true |- _ => rewrite !orb_true_iff in H; tauto end.
  - intros (H1 & H3 & e1 & e3 & -> & -> & Hc & ->).
    rewrite (proj2 (Z.eqb_neq t1 x) H1), (proj2 (Z.eqb_neq t3 x) H3). cbn.
    by replace (committed e1 || pc || committed e3) with true
      by (symmetry; rewrite !orb_true_iff; tauto).
Qed.

(** The body of the check once the entry of the pivot has been read. *)
Lemma check_pairs m x s :
  m !! x = Some s ->
  (exists t1 t3 d, t1 ∈ in_conflict_in s /\ t3 ∈ in_conflict_out s /\
     dangerous_pair m x (committed s) t1 t3 = Some d /\
     check_for_dangerous_structure m x = Err (Serialization x d)) \/
  (check_for_dangerous_structure m x = Ok tt /\
   forall t1 t3, t1 ∈ in_conflict_in s -> t3 ∈ in_conflict_out s ->
     dangerous_pair m x (committed s) t1 t3 = None).
Proof.
  intros Hx. unfold check_for_dangerous_structure. rewrite Hx.
  case_match eqn:Hempty.
  { right. split; [done|]. intros t1 t3 H1%elem_of_elements H3%elem_of_elements.
    rewrite orb_true_iff, !bool_decide_eq_true in Hempty.
    destruct Hempty as [Hempty|Hempty]; rewrite Hempty in *; set_solver. }
  destruct (head _) as [d|] eqn:Hd.
  - left. apply head_Some_elem_of, list_elem_of_omap in Hd as ([t1 t3] & Hin & Hp).
    apply list_elem_of_bind in Hin as (a & Ha & Hin).
    apply list_elem_of_bind in Ha as (b & Hb & Hout).
    apply list_elem_of_singleton in Hb. simplify_eq. exists a, b, d.
    by rewrite <- !(elem_of_elements (C:=gset Z)).
  - right. split; [done|]. intros t1 t3 H1 H3. apply head_None in Hd.
    destruct (dangerous_pair _ _ _ _ _) as [d|] eqn:Hp; [|done]. exfalso.
    apply (not_elem_of_nil d). rewrite <- Hd. apply list_elem_of_omap. exists (t1, t3).
    split; [|done]. apply list_elem_of_bind. exists t1. split; [|by apply elem_of_elements].
    apply list_elem_of_bind. exists t3. split; [by left|by apply elem_of_elements].
Qed.

(** The pivot test is exact: it fails for a transaction precisely when
    that transaction has an incoming and an outgoing rw edge with two other
    transactions still tracked (possibly the same one) and one of the three
    has committed; the error names the transaction itself and such a pair. *)
Lemma check_spec m x :
  match check_for_dangerous_structure m x with
  | Ok _ => forall t1 t3, is_pivot m x t1 t3 ->
      ~ has_committed m t1 /\ ~ has_committed m x /\ ~ has_committed m t3
  | Err (Serialization v d) => v = x /\ is_pivot m x (d_t1 d) (d_t3 d) /\
      (has_committed m (d_t1 d) \/ has_committed m x \/ has_committed m (d_t3 d))
  end.
Proof.
  destruct (m !! x) as [s|] eqn:Hx.
  2: { unfold check_for_dangerous_structure. rewrite Hx. intros t1 t3 (s & Hs & _). congruence. }
  destruct (check_pairs m x s Hx) as [(t1 & t3 & d & Hin & Hout & Hp & ->)|[-> Hnone]].
  - apply dangerous_pair_Some in Hp as (H1 & H3 & e1 & e3 & He1 & He3 & Hc & ->). cbn.
    split_and!; [done| |unfold has_committed; rewrite He1, Hx, He3; naive_solver].
    exists s. split_and!; try done; by eexists.
  - intros t1 t3 (s' & Hs & Hin & Hout & H1 & H3 & [e1 He1] & [e3 He3]). simplify_eq.
    specialize (Hnone t1 t3 Hin Hout). unfold dangerous_pair, has_committed in *.
    rewrite (proj2 (Z.eqb_neq t1 x) H1), (proj2 (Z.eqb_neq t3 x) H3), He1, He3 in Hnone. cbn in Hnone.
    case_match eqn:Hor; [done|]. bool_to_prop.
    split_and!; intros (e & He & Hc); simplify_eq; congruence.
Qed.

(** Committing only changes the commit mark. *)
Lemma lookup_mark_committed (m : SsiManager) x h y :
  alter (mark_committed h) x m !! y =
  (fun s => if decide (y = x) then mark_committed h s else s) <$> m !! y.
Proof. rewrite lookup_alter. repeat case_decide; subst; try done; by destruct (m !! y). Qed.

Lemma is_pivot_mark_committed (m : SsiManager) x h y t1 t3 :
  is_pivot (alter (mark_committed h) x m) y t1 t3 <-> is_pivot m y t1 t3.
Proof.
  split.
  - intros (s & Hs & Hi & Ho & H1 & H3 & He1 & He3).
    rewrite lookup_mark_committed in Hs, He1, He3. rewrite fmap_is_Some in He1, He3.
    apply fmap_Some in Hs as (s0 & Hs0 & ->). exists s0. by destruct (decide (y = x)).
  - intros (s & Hs & Hi & Ho & H1 & H3 & He1 & He3).
    exists (if decide (y = x) then mark_committed h s else s).
    rewrite !lookup_mark_committed, !fmap_is_Some, Hs. split_and!; try done; by destruct (decide (y = x)).
Qed.

Lemma ssi_commit_ok m x h :
  is_ok (ssi_commit m x h).2 = true <-> forall t1 t3, ~ is_pivot m x t1 t3.
Proof.
  unfold ssi_commit. cbn. pose proof (check_spec (alter (mark_committed h) x m) x) as Hc.
  destruct (check_for_dangerous_structure _ x) as [[]|[v d]]; cbn.
  - split; [|done]. intros _ t1 t3 Hp. destruct (Hc t1 t3) as (_ & Hx & _); [by apply is_pivot_mark_committed|].
    apply Hx. destruct Hp as (s & Hs & _). unfold has_committed. rewrite lookup_mark_committed, Hs. cbn.
    eexists. split; [done|]. by rewrite decide_True.
  - split; [done|]. destruct Hc as (-> & Hp%is_pivot_mark_committed & _). intros H. by apply H in Hp.
Qed.

(** C39. Commit of a serializable transaction: its entry is marked committed
    with the horizon, nothing else changes, and the commit is refused exactly
    when the transaction is a pivot at that moment. *)
Theorem ssi_commit_exact m x h m' r :
  ssi_commit m x h = (m', r) ->
  (forall y, m' !! y = (fun s => if decide (y = x) then mark_committed h s else s) <$> m !! y) /\
  (is_ok r = true <-> forall t1 t3, ~ is_pivot m x t1 t3) /\
  (forall e, r = Err e -> exists d, e = Serialization x d /\ is_pivot m x (d_t1 d) (d_t3 d)).
Proof.
  intros E. pose proof (ssi_commit_ok m x h) as Hok. rewrite E in Hok.
  unfold ssi_commit in E. injection E as <- <-.
  split; [apply lookup_mark_committed|]. split; [exact Hok|].
  pose proof (check_spec (alter (mark_committed h) x m) x) as Hc.
  intros e He. rewrite He in Hc. destruct e as [v d].
  destruct Hc as (-> & Hp%is_pivot_mark_committed & _). by exists d.
Qed.

(** ** Write skew

    Two transactions that each read what the other writes. *)

Lemma with_edges_is_Some readers w x (o : option SsiState) :
  is_Some (with_edges readers w x <$> o) <-> is_Some o.
Proof. apply fmap_is_Some. Qed.

Lemma holds_covering_write m w t m' readers tag x :
  is_Some (m !! w) -> record_write_conflicts m w t = (m', readers) ->
  holds_covering m tag x -> holds_covering m' tag x.
Proof.
  intros Hw E (s & pl & Hs & Hpl & Hc).
  pose proof (lookup_record_write_conflicts m w t Hw) as H. rewrite E in H.
  destruct H as (_ & _ & Hl). exists (with_edges readers w x s), pl.
  by rewrite Hl, Hs.
Qed.

(** Write skew is refused when both reads come before both writes: if
    [a] and [b] are tracked, [a] holds a lock covering what [b] writes and
    [b] one covering what [a] writes, then whichever of them commits first
    after the two writes fails with a serialization error. *)
Theorem write_skew_refused m a b wa wb m1 ra m2 rb x h :
  a <> b -> is_Some (m !! a) -> is_Some (m !! b) ->
  holds_covering m wb a -> holds_covering m wa b ->
  record_write_conflicts m a wa = (m1, ra) ->
  record_write_conflicts m1 b wb = (m2, rb) ->
  x = a \/ x = b ->
  is_ok (ssi_commit m2 x h).2 = false.
Proof.
  intros Hne Ha Hb Hwb Hwa E1 E2 Hx.
  pose proof (holds_covering_write m a wa m1 ra wb a Ha E1 Hwb) as Hwb1.
  pose proof (lookup_record_write_conflicts m a wa Ha) as H1. rewrite E1 in H1.
  destruct H1 as (_ & Hra & Hl1).
  assert (is_Some (m1 !! b)) as Hb1 by (rewrite Hl1; by apply with_edges_is_Some).
  pose proof (lookup_record_write_conflicts m1 b wb Hb1) as H2. rewrite E2 in H2.
  destruct H2 as (_ & Hrb & Hl2).
  assert (b ∈ ra) as Hbra by (apply Hra; by split).
  assert (a ∈ rb) as Harb by (apply Hrb; by split).
  assert (a ∉ ra) as Haa by (rewrite Hra; naive_solver).
  assert (b ∉ rb) as Hbb by (rewrite Hrb; naive_solver).
  destruct Ha as [sa Ha], Hb as [sb Hb].
  assert (is_pivot m2 a b b /\ is_pivot m2 b a a) as [Hpa Hpb].
  { unfold is_pivot. rewrite !Hl2, !Hl1, Ha, Hb. cbn. split; eexists; (split; [done|]); cbn;
      rewrite ?(decide_True (P := a = a)), ?(decide_True (P := b = b)), ?(decide_False (P := a = b)),
        ?(decide_False (P := b = a)), ?(decide_True (P := b ∈ ra)), ?(decide_True (P := a ∈ rb)),
        ?(decide_False (P := a ∈ ra)), ?(decide_False (P := b ∈ rb)) by done;
      split_and!; try done; set_solver. }
  assert (exists t, is_pivot m2 x t t) as [t Hp] by (destruct Hx as [->| ->]; by eexists).
  apply not_true_iff_false. rewrite ssi_commit_ok. intros H. by apply (H t t).
Qed.

(** Two account rows, as the ranges a point read or write of them uses. *)
Definition row_A : PredicateLockTag := PColumnRange 1 0 (Some 1) (Some 1).
Definition row_B : PredicateLockTag := PColumnRange 1 0 (Some 2) (Some 2).

Definition two_registered : SsiManager := register_xid (register_xid SsiManager_new 10) 11.

(** Transaction 10 has read B and transaction 11 has read A. *)
Definition two_readers : SsiManager :=
  add_predicate_lock (add_predicate_lock two_registered 10 row_B) 11 row_A.

Lemma record_write_conflicts_exact_witness :
  snd (record_write_conflicts two_readers 10 row_A) = [11] /\
  StronglySorted Z.lt (snd (record_write_conflicts two_readers 10 row_A)).
Proof.
  split; [reflexivity|].
  apply (record_write_conflicts_exact two_readers 10 row_A
    (fst (record_write_conflicts two_readers 10 row_A)));
    [eexists; vm_compute; reflexivity|reflexivity].
Defined.

Lemma ssi_commit_exact_witness :
  is_ok (snd (ssi_commit two_readers 10 12)) = true /\
  forall t1 t3, ~ is_pivot two_readers 10 t1 t3.
Proof.
  split; [vm_compute; reflexivity|].
  apply (ssi_commit_exact two_readers 10 12 (fst (ssi_commit two_readers 10 12))
    (snd (ssi_commit two_readers 10 12)) eq_refl).
  vm_compute. reflexivity.
Defined.

Lemma write_skew_refused_witness :
  is_ok (snd (ssi_commit (fst (record_write_conflicts
    (fst (record_write_conflicts two_readers 10 row_A)) 11 row_B)) 11 12)) = false.
Proof.
  assert (holds_covering two_readers row_B 10) as H1.
  { eexists _, _. split; [vm_compute; reflexivity|]. split; [left|reflexivity]. }
  assert (holds_covering two_readers row_A 11) as H2.
  { eexists _, _. split; [vm_compute; reflexivity|]. split; [left|reflexivity]. }
  apply (write_skew_refused two_readers 10 11 row_A row_B
    (fst (record_write_conflicts two_readers 10 row_A))
    (snd (record_write_conflicts two_readers 10 row_A))
    (fst (record_write_conflicts (fst (record_write_conflicts two_readers 10 row_A)) 11 row_B))
    (snd (record_write_conflicts (fst (record_write_conflicts two_readers 10 row_A)) 11 row_B)));
    [lia|eexists; vm_compute; reflexivity|eexists; vm_compute; reflexivity
    |exact H1|exact H2|reflexivity|reflexivity|right; reflexivity].
Defined.

(** The same two transactions, the second reading A after the first has
    written it (a read of the old version, since the writer is concurrent):
    r10(B) w10(A) r11(A) w11(B). *)
Definition read_after_write : SsiManager :=
  fst (record_write_conflicts
    (add_predicate_lock
      (fst (record_write_conflicts (add_predicate_lock two_registered 10 row_B) 10 row_A))
      11 row_A)
    11 row_B).

(** Write skew goes undetected when a read comes after the conflicting
    write: an rw edge is only looked for when the writer writes, so in
    r10(B) w10(A) r11(A) w11(B) the edge from 11 to 10 is never recorded and
    both transactions commit, although each read what the other overwrote
    (11 holds a lock covering A, written by 10, and 10 one covering B,
    written by 11). *)
Theorem write_skew_missed :
  holds_covering read_after_write row_A 11 /\ holds_covering read_after_write row_B 10 /\
  let '(m1, r1) := ssi_commit read_after_write 10 12 in
  let '(_, r2) := ssi_commit m1 11 12 in
  r1 = Ok tt /\ r2 = Ok tt.
Proof.
  split; [|split].
  - eexists _, _. split; [vm_compute; reflexivity|]. split; [left|reflexivity].
  - eexists _, _. split; [vm_compute; reflexivity|]. split; [left|reflexivity].
  - vm_compute. done.
Qed.

(** ** Garbage collection *)

(** Garbage collection removes exactly the committed entries whose
    horizon the oldest running transaction has reached, reports their number,
    and never makes a commit fail that would have succeeded without it. *)
Theorem collect_garbage_exact m horizon m' n :
  collect_garbage m horizon = (m', n) ->
  (forall x s, m' !! x = Some s <-> m !! x = Some s /\
     ~ (committed s = true /\ exists h, commit_horizon s = Some h /\ h <= horizon)) /\
  (tracked_len m = tracked_len m' + n)%nat /\
  (forall x h, is_ok (ssi_commit m x h).2 = true -> is_ok (ssi_commit m' x h).2 = true).
Proof.
  unfold collect_garbage. intros [= <- <-].
  assert (forall s, retire horizon s = false <->
    ~ (committed s = true /\ exists h, commit_horizon s = Some h /\ h <= horizon)) as Hret.
  { intros s. unfold retire. destruct (committed s), (commit_horizon s) as [h|]; cbn;
      rewrite ?Z.leb_gt; (split; [intros ? (? & ? & ? & ?)|intros H]); simplify_eq; try done; try lia.
    destruct (Z.le_gt_cases h horizon); [|lia]. destruct H. by split; [|exists h]. }
  split_and!.
  - intros x s. rewrite map_lookup_filter_Some. cbn. by rewrite Hret.
  - unfold tracked_len. pose proof (map_size_filter (fun e : Z * SsiState => retire horizon e.2 = false) m).
    lia.
  - intros x h. rewrite !ssi_commit_ok. intros Hm t1 t3 (s & Hs & Hi & Ho & H1 & H3 & [e1 He1] & [e3 He3]).
    apply (Hm t1 t3). apply map_lookup_filter_Some in Hs as [Hs _], He1 as [He1 _], He3 as [He3 _].
    exists s. by split_and!; try done; eexists.
Qed.

Lemma collect_garbage_exact_witness :
  let m := fst (ssi_commit two_readers 10 12) in
  (tracked_len m = tracked_len (fst (collect_garbage m 12)) + snd (collect_garbage m 12))%nat /\
  snd (collect_garbage m 12) = 1%nat /\ snd (collect_garbage m 11) = 0%nat.
Proof.
  split; [|split; vm_compute; reflexivity].
  apply (collect_garbage_exact (fst (ssi_commit two_readers 10 12)) 12
    (fst (collect_garbage (fst (ssi_commit two_readers 10 12)) 12))
    (snd (collect_garbage (fst (ssi_commit two_readers 10 12)) 12)) eq_refl).
Defined.
