(* ===== verification/TxnManager.v ===== *)
(** * The transaction manager (ultrasql-txn, manager.rs)

    The XID allocator, the in-memory commit log and its mirror of running
    transactions, snapshot construction, savepoints, commit and abort of a
    transaction family, two-phase completion, recovery and the checkpoint of
    the commit log. The manager is the status oracle of the visibility
    predicate. Each operation is one atomic step: the source runs its
    active-set transitions under the [in_progress] mutex. [TxnRace] examines
    the operations that are not covered by that mutex. *)

From S2P Require Import Prelude CoreIds TupleHeader Snapshot Visibility Savepoint Lock Ssi.

Record OwnSubxids := mk_OwnSubxids { own_live : list Xid; own_rolled_back : list Xid }.

Definition OwnSubxids_empty : OwnSubxids := mk_OwnSubxids [] [].

Definition OwnSubxids_from_subtxn (m : SubtxnManager) : OwnSubxids :=
  mk_OwnSubxids (self_subxids m) (rolled_back_subxids m).

Definition OwnSubxids_is_empty (o : OwnSubxids) : bool :=
  is_nil (own_live o) && is_nil (own_rolled_back o).

Inductive IsolationLevel := ReadCommitted | RepeatableRead | Serializable.

#[global] Instance IsolationLevel_eq_dec : EqDecision IsolationLevel.
Proof. solve_decision. Defined.

Inductive TxnError :=
| AlreadyTerminated (xid : Xid) (st : XidStatus)
| Unknown (xid : Xid)
| SerializationFailure (victim : Xid) (detail : SsiDetail).

Record Transaction := mk_Transaction {
  txn_xid : Xid;
  txn_snapshot : Snapshot;
  txn_isolation : IsolationLevel;
  txn_read_only : bool;
  txn_start_lsn : Lsn;
  txn_current_command : CommandId;
  txn_subtxn_stack : SubtxnManager;
}.

Definition txn_write_xid (t : Transaction) : Xid := stack_write_xid (txn_xid t) (txn_subtxn_stack t).

Definition abort_write_xid_family (t : Transaction) : list Xid :=
  dedup (sort_unstable
    ([txn_xid t] ++ live_stack_subxids (txn_subtxn_stack t)
       ++ merged_up_subxids (txn_subtxn_stack t) ++ rolled_back_subxids (txn_subtxn_stack t))).

Definition committed_subxid_family (t : Transaction) : list Xid :=
  dedup (sort_unstable
    (merged_up_subxids (txn_subtxn_stack t) ++ live_stack_subxids (txn_subtxn_stack t))).

Record TransactionManager := mk_TM {
  tm_next_xid : Xid;
  tm_clog : gmap Z XidStatus;
  tm_in_progress : gset Z;
  tm_snapshot_xmins : gmap Z Z;
  tm_subxid_parent : gmap Z Z;
  tm_ssi : option SsiManager;
  tm_lock_manager : LockManager;
  tm_xact_commit : Z;
  tm_xact_rollback : Z;
}.

Definition TransactionManager_new : TransactionManager :=
  mk_TM Xid_FIRST_USER ∅ ∅ ∅ ∅ None LockManager_new 0 0.

Definition TransactionManager_new_with_ssi (ssi : SsiManager) : TransactionManager :=
  mk_TM Xid_FIRST_USER ∅ ∅ ∅ ∅ (Some ssi) LockManager_new 0 0.

(** Assignments to one part of the state. *)
Definition with_ssi (m : TransactionManager) (s : option SsiManager) : TransactionManager :=
  mk_TM (tm_next_xid m) (tm_clog m) (tm_in_progress m) (tm_snapshot_xmins m)
    (tm_subxid_parent m) s (tm_lock_manager m) (tm_xact_commit m) (tm_xact_rollback m).

Definition with_locks (m : TransactionManager) (l : LockManager) : TransactionManager :=
  mk_TM (tm_next_xid m) (tm_clog m) (tm_in_progress m) (tm_snapshot_xmins m)
    (tm_subxid_parent m) (tm_ssi m) l (tm_xact_commit m) (tm_xact_rollback m).

Definition with_clog (m : TransactionManager) (c : gmap Z XidStatus) (a : gset Z) : TransactionManager :=
  mk_TM (tm_next_xid m) c a (tm_snapshot_xmins m)
    (tm_subxid_parent m) (tm_ssi m) (tm_lock_manager m) (tm_xact_commit m) (tm_xact_rollback m).

Definition with_xmins (m : TransactionManager) (f : gmap Z Z) : TransactionManager :=
  mk_TM (tm_next_xid m) (tm_clog m) (tm_in_progress m) f
    (tm_subxid_parent m) (tm_ssi m) (tm_lock_manager m) (tm_xact_commit m) (tm_xact_rollback m).

Definition with_parents (m : TransactionManager) (p : gmap Z Z) : TransactionManager :=
  mk_TM (tm_next_xid m) (tm_clog m) (tm_in_progress m) (tm_snapshot_xmins m)
    p (tm_ssi m) (tm_lock_manager m) (tm_xact_commit m) (tm_xact_rollback m).

Definition with_next_xid (m : TransactionManager) (n : Xid) : TransactionManager :=
  mk_TM n (tm_clog m) (tm_in_progress m) (tm_snapshot_xmins m)
    (tm_subxid_parent m) (tm_ssi m) (tm_lock_manager m) (tm_xact_commit m) (tm_xact_rollback m).

(** Allocate an XID ([fetch_add] wraps) and publish it as running. *)
Definition alloc_in_progress (m : TransactionManager) : Xid * TransactionManager :=
  let xid := tm_next_xid m in
  (xid, mk_TM (wrapping_add U64 xid 1) (<[xid := InProgress]> (tm_clog m))
          ({[xid]} ∪ tm_in_progress m) (tm_snapshot_xmins m) (tm_subxid_parent m) (tm_ssi m)
          (tm_lock_manager m) (tm_xact_commit m) (tm_xact_rollback m)).

(** ** Snapshots *)

Definition snapshot_xip (m : TransactionManager) (cur : Xid) (own : OwnSubxids) : list Xid :=
  List.filter (fun xid => negb (xid =? cur) && negb (bool_decide (xid ∈ own_live own))
                          && (xid <? tm_next_xid m))
    (sort_unstable (elements (tm_in_progress m))).

Definition min_xid (l : list Xid) : option Xid :=
  foldl (fun o xid => Some (match o with
                            | None => xid
                            | Some c => if c <=? xid then c else xid
                            end)) None l.

Definition build_snapshot (m : TransactionManager) (cur : Xid) (cmd : CommandId) (own : OwnSubxids)
  : Snapshot :=
  let xmax := tm_next_xid m in
  let xip := snapshot_xip m cur own in
  let s := Snapshot_new (default xmax (min_xid xip)) xmax cur cmd xip in
  if OwnSubxids_is_empty own then s else set_own_subxids s (own_live own) (own_rolled_back own).

Definition statement_snapshot (m : TransactionManager) (cur : Xid) (cmd : CommandId) : Snapshot :=
  build_snapshot m cur cmd OwnSubxids_empty.

Definition set_txn_snapshot (t : Transaction) (s : Snapshot) : Transaction :=
  mk_Transaction (txn_xid t) s (txn_isolation t) (txn_read_only t) (txn_start_lsn t)
    (txn_current_command t) (txn_subtxn_stack t).

Definition set_txn_stack (t : Transaction) (m : SubtxnManager) : Transaction :=
  mk_Transaction (txn_xid t) (txn_snapshot t) (txn_isolation t) (txn_read_only t)
    (txn_start_lsn t) (txn_current_command t) m.

Definition set_txn_command (t : Transaction) (c : CommandId) : Transaction :=
  mk_Transaction (txn_xid t) (txn_snapshot t) (txn_isolation t) (txn_read_only t)
    (txn_start_lsn t) c (txn_subtxn_stack t).

Definition apply_own_subxids (t : Transaction) : Transaction :=
  let own := OwnSubxids_from_subtxn (txn_subtxn_stack t) in
  set_txn_snapshot t (set_own_subxids (txn_snapshot t) (own_live own) (own_rolled_back own)).

Definition register_serializable (m : TransactionManager) (xid : Xid) : TransactionManager :=
  with_ssi m ((fun s => register_xid s xid) <$> tm_ssi m).

Definition begin (m : TransactionManager) (isolation : IsolationLevel)
  : Transaction * TransactionManager :=
  let '(xid, m) := alloc_in_progress m in
  let snapshot := build_snapshot m xid CommandId_FIRST OwnSubxids_empty in
  let m := with_xmins m (<[xid := snap_xmin snapshot]> (tm_snapshot_xmins m)) in
  let m := if bool_decide (isolation = Serializable) then register_serializable m xid else m in
  (mk_Transaction xid snapshot isolation false Lsn_ZERO CommandId_FIRST (SubtxnManager_new xid), m).

Definition refresh_snapshot (m : TransactionManager) (t : Transaction)
  : Transaction * TransactionManager :=
  let t := set_txn_command t (CommandId_next (txn_current_command t)) in
  match txn_isolation t with
  | ReadCommitted =>
      let own := OwnSubxids_from_subtxn (txn_subtxn_stack t) in
      let s := build_snapshot m (txn_xid t) (txn_current_command t) own in
      (set_txn_snapshot t s,
       with_xmins m (<[txn_xid t := snap_xmin s]> (tm_snapshot_xmins m)))
  | RepeatableRead | Serializable =>
      (apply_own_subxids
         (set_txn_snapshot t (set_current_command (txn_snapshot t) (txn_current_command t))), m)
  end.

(** ** Termination of a transaction family *)

(** One subtransaction of the folded family. *)
Definition fold_subxid (parent : Xid) (new_status : XidStatus) (force_family : bool)
    (st : gmap Z XidStatus * gset Z) (sub : Xid) : gmap Z XidStatus * gset Z :=
  let '(c, a) := st in
  if sub =? parent then (c, a) else
  let c :=
    match c !! sub with
    | Some s => if force_family || bool_decide (s = InProgress) then <[sub := new_status]> c else c
    | None => if force_family then <[sub := new_status]> c else c
    end in
  (c, a ∖ {[sub]}).

Definition terminate_with_subxids (m : TransactionManager) (parent : Xid) (folded : list Xid)
    (new_status : XidStatus) (force_family : bool) : result TransactionManager TxnError :=
  match tm_clog m !! parent with
  | None => Err (Unknown parent)
  | Some InProgress =>
      let '(c, a) := foldl (fold_subxid parent new_status force_family)
        (<[parent := new_status]> (tm_clog m), tm_in_progress m ∖ {[parent]}) folded in
      Ok (mk_TM (tm_next_xid m) c a (delete parent (tm_snapshot_xmins m)) (tm_subxid_parent m)
            (tm_ssi m) (tm_lock_manager m)
            (match new_status with Committed => wrapping_add U64 (tm_xact_commit m) 1
                                 | _ => tm_xact_commit m end)
            (match new_status with Aborted => wrapping_add U64 (tm_xact_rollback m) 1
                                 | _ => tm_xact_rollback m end))
  | Some other => Err (AlreadyTerminated parent other)
  end.

Definition forget_subxid_parents (m : TransactionManager) (folded : list Xid) : TransactionManager :=
  with_parents m (foldl (fun p sub => delete sub p) (tm_subxid_parent m) folded).

Definition commit_check_serializable (m : TransactionManager) (t : Transaction)
  : TransactionManager * result (list Xid) TxnError :=
  let folded := committed_subxid_family t in
  if bool_decide (txn_isolation t = Serializable) then
    match tm_ssi m with
    | Some ssi =>
        match ssi_commit ssi (txn_xid t) (tm_next_xid m) with
        | (ssi, Err (Serialization victim detail)) =>
            (with_ssi m (Some (ssi_abort ssi (txn_xid t))), Err (SerializationFailure victim detail))
        | (ssi, Ok _) => (with_ssi m (Some ssi), Ok folded)
        end
    | None => (m, Ok folded)
    end
  else (m, Ok folded).

Definition commit_finalize_visible (m : TransactionManager) (t : Transaction) (folded : list Xid)
  : TransactionManager * result unit TxnError :=
  match terminate_with_subxids m (txn_xid t) folded Committed false with
  | Err e => (m, Err e)
  | Ok m =>
      (forget_subxid_parents (with_locks m (release_all (tm_lock_manager m) (txn_xid t))) folded, Ok tt)
  end.

Definition abort (m : TransactionManager) (t : Transaction) : TransactionManager * result unit TxnError :=
  let folded := committed_subxid_family t in
  match terminate_with_subxids m (txn_xid t) folded Aborted false with
  | Err e => (m, Err e)
  | Ok m =>
      let m := forget_subxid_parents
                 (with_locks m (release_all (tm_lock_manager m) (txn_xid t))) folded in
      (if bool_decide (txn_isolation t = Serializable)
       then with_ssi m ((fun s => ssi_abort s (txn_xid t)) <$> tm_ssi m) else m, Ok tt)
  end.

Definition commit (m : TransactionManager) (t : Transaction)
  : TransactionManager * result (list Xid) TxnError :=
  match commit_check_serializable m t with
  | (m, Ok folded) =>
      match commit_finalize_visible m t folded with
      | (m, Ok _) => (m, Ok folded)
      | (m, Err e) => (m, Err e)
      end
  | (m, Err e) => (fst (abort m t), Err e)
  end.

Definition abort_in_progress_by_xid (m : TransactionManager) (xid : Xid) : TransactionManager * bool :=
  match terminate_with_subxids m xid [xid] Aborted false with
  | Err _ => (m, false)
  | Ok m =>
      let m := with_locks m (release_all (tm_lock_manager m) xid) in
      (with_ssi m ((fun s => ssi_abort s xid) <$> tm_ssi m), true)
  end.

(** ** Horizons *)

Definition oldest_in_progress (m : TransactionManager) : Xid :=
  default (tm_next_xid m)
    (min_xid (List.filter (fun x => bool_decide (tm_clog m !! x = Some InProgress))
                (map_to_list (tm_clog m)).*1)).

Definition vacuum_horizon (m : TransactionManager) : Xid :=
  let oldest := oldest_in_progress m in
  match min_xid (map_to_list (tm_snapshot_xmins m)).*2 with
  | Some x => if x <? oldest then x else oldest
  | None => oldest
  end.

Definition collect_ssi_garbage (m : TransactionManager) (horizon : Xid) : TransactionManager * nat :=
  match tm_ssi m with
  | None => (m, 0%nat)
  | Some s => let '(s', n) := collect_garbage s horizon in (with_ssi m (Some s'), n)
  end.

(** ** Savepoints *)

Definition begin_savepoint (m : TransactionManager) (t : Transaction) (name : string)
  : Subtxn * Transaction * TransactionManager :=
  let '(sp, stk, m) :=
    savepoint alloc_in_progress (txn_subtxn_stack t) name (txn_current_command t) m in
  let m := with_parents m (<[sub_xid sp := txn_xid t]> (tm_subxid_parent m)) in
  (sp, apply_own_subxids (set_txn_stack t stk), m).

(** [InProgress] becomes [Aborted]; anything else is left alone. *)
Definition abort_subxid (m : TransactionManager) (sub : Xid) : TransactionManager :=
  match tm_clog m !! sub with
  | Some InProgress => with_clog m (<[sub := Aborted]> (tm_clog m)) (tm_in_progress m ∖ {[sub]})
  | _ => m
  end.

Definition rollback_to_savepoint (m : TransactionManager) (t : Transaction) (name : string)
  : result (list Xid * Transaction * TransactionManager) SavepointError :=
  let? res := rollback_to alloc_in_progress (txn_subtxn_stack t) name m in
  let '(outcome, stk, m) := res in
  let m := with_parents m (<[new_target_xid outcome := txn_xid t]> (tm_subxid_parent m)) in
  let m := foldl abort_subxid m (aborted outcome) in
  let stk := foldl record_rolled_back stk (aborted outcome) in
  let m := foldl abort_subxid m (rolled_back_subxids stk) in
  let m := with_locks m (release_subxact_locks (tm_lock_manager m) (rolled_back_subxids stk)) in
  Ok (aborted outcome, apply_own_subxids (set_txn_stack t stk), m).

Definition release_savepoint (t : Transaction) (name : string) : result (Xid * Transaction) SavepointError :=
  let? res := release (txn_subtxn_stack t) name in
  let '(sub, stk) := res in
  Ok (sub, apply_own_subxids (set_txn_stack t stk)).

(** ** Two-phase completion and recovery *)

Definition finalise_prepared (m : TransactionManager) (xid : Xid) (family : list Xid)
    (final_status : XidStatus) : TransactionManager * result unit TxnError :=
  match terminate_with_subxids m xid family final_status true with
  | Err e => (m, Err e)
  | Ok m =>
      (forget_subxid_parents (with_locks m (release_all (tm_lock_manager m) xid)) family, Ok tt)
  end.

Definition validate_prepared (m : TransactionManager) (xid : Xid) : result unit TxnError :=
  match tm_clog m !! xid with
  | None => Err (Unknown xid)
  | Some InProgress => Ok tt
  | Some st => Err (AlreadyTerminated xid st)
  end.

Definition is_sentinel (xid : Xid) : bool :=
  (xid =? Xid_INVALID) || (xid =? Xid_FROZEN) || (xid =? Xid_BOOTSTRAP).

(** [fetch_update(|current| (current < next).then_some(next))] *)
Definition raise_next_xid (m : TransactionManager) (next : Xid) : TransactionManager :=
  if tm_next_xid m <? next then with_next_xid m next else m.

Definition recover_observed_xid (m : TransactionManager) (xid : Xid) : TransactionManager :=
  if is_sentinel xid then m else raise_next_xid m (saturating_add U64 xid 1).

Definition recover_terminal (st : XidStatus) (m : TransactionManager) (xid : Xid) : TransactionManager :=
  if is_sentinel xid then m else
  recover_observed_xid
    (with_clog m (<[xid := st]> (tm_clog m)) (tm_in_progress m ∖ {[xid]})) xid.

Definition recover_committed : TransactionManager -> Xid -> TransactionManager := recover_terminal Committed.
Definition recover_aborted : TransactionManager -> Xid -> TransactionManager := recover_terminal Aborted.

Definition recover_uncommitted_as_aborted (m : TransactionManager) (xid : Xid) : TransactionManager :=
  if is_sentinel xid then m else
  let m := match tm_clog m !! xid with
           | None => with_clog m (<[xid := Aborted]> (tm_clog m)) (tm_in_progress m ∖ {[xid]})
           | Some _ => m
           end in
  recover_observed_xid m xid.

Definition recover_prepared (m : TransactionManager) (xid : Xid) : result TransactionManager TxnError :=
  if is_sentinel xid then Ok m else
  let? m := match tm_clog m !! xid with
            | Some InProgress => Ok m
            | Some st => Err (AlreadyTerminated xid st)
            | None => Ok (with_clog m (<[xid := InProgress]> (tm_clog m)) (tm_in_progress m))
            end in
  Ok (recover_observed_xid (with_clog m (tm_clog m) ({[xid]} ∪ tm_in_progress m)) xid).

Definition is_terminal (st : XidStatus) : bool :=
  match st with Committed | Aborted | Frozen => true | InProgress => false end.

Definition export_clog (m : TransactionManager) : Xid * list (Xid * XidStatus) :=
  (tm_next_xid m, List.filter (fun e => is_terminal e.2) (map_to_list (tm_clog m))).

Definition import_entry (m : TransactionManager) (e : Xid * XidStatus) : TransactionManager :=
  let '(xid, st) := e in
  if is_sentinel xid then m else
  let m := if is_terminal st && bool_decide (tm_clog m !! xid = None)
           then with_clog m (<[xid := st]> (tm_clog m)) (tm_in_progress m ∖ {[xid]}) else m in
  recover_observed_xid m xid.

Definition import_clog (m : TransactionManager) (next : Xid) (entries : list (Xid * XidStatus))
  : TransactionManager :=
  raise_next_xid (foldl import_entry m entries) next.

(** ** The status oracle *)

Definition clog_status (m : TransactionManager) (xid : Xid) : XidStatus :=
  default InProgress (tm_clog m !! xid).

#[global] Instance TransactionManager_oracle : XidStatusOracle TransactionManager := fun m xid =>
  if xid =? Xid_FROZEN then Frozen
  else if xid =? Xid_BOOTSTRAP then Committed
  else
    match clog_status m xid with
    | InProgress =>
        match tm_subxid_parent m !! xid with
        | Some parent => if parent =? xid then InProgress else clog_status m parent
        | None => InProgress
        end
    | own => own
    end.

Definition is_in_progress (m : TransactionManager) (xid : Xid) : bool :=
  bool_decide (status m xid = InProgress).

(** ** SSI pass-through *)

Definition tm_record_predicate_lock (m : TransactionManager) (xid : Xid) (tag : PredicateLockTag)
  : TransactionManager :=
  with_ssi m ((fun s => add_predicate_lock s xid tag) <$> tm_ssi m).

Definition tm_record_rw_conflict (m : TransactionManager) (reader writer : Xid) : TransactionManager :=
  with_ssi m ((fun s => record_rw_conflict s reader writer) <$> tm_ssi m).

Definition tm_record_write_conflicts (m : TransactionManager) (writer : Xid) (tag : PredicateLockTag)
  : TransactionManager * list Xid :=
  match tm_ssi m with
  | None => (m, [])
  | Some s => let '(s', readers) := record_write_conflicts s writer tag in (with_ssi m (Some s'), readers)
  end.
