(* ===== verification/TxnSystem.v ===== *)
(** * Transactions as a system (ultrasql-txn, manager.rs)

    The manager together with the open transaction handles and the prepared
    transactions, stepping through its operations in any order. The
    invariants of the reachable states give the isolation theorems: snapshots
    are stable, a family commits atomically, a terminated transaction never
    changes its outcome, and vacuum's horizon is safe. *)

From S2P Require Import Prelude CoreIds TupleHeader Snapshot Visibility Savepoint Lock Ssi TxnManager.

Arguments build_snapshot : simpl never.

(** ** The system *)

Record sys := mk_sys {
  mgr : TransactionManager;
  handles : gmap Z Transaction;
  prepared : gmap Z (list Xid);
}.

Definition sys_init (ssi : option SsiManager) : sys :=
  mk_sys (with_ssi TransactionManager_new ssi) ∅ ∅.

Inductive sys_op :=
| OBegin (iso : IsolationLevel)
| ORefresh (x : Xid)
| OSavepoint (x : Xid) (name : string)
| ORollbackTo (x : Xid) (name : string)
| ORelease (x : Xid) (name : string)
| OCheckSerializable (x : Xid)
| OFinalizeVisible (x : Xid)
| OCommit (x : Xid)
| OAbort (x : Xid)
| OPrepare (x : Xid)
| OResolvePrepared (x : Xid) (commit_it : bool)
| ORegisterSerializable (x : Xid)
| OPredicateLock (x : Xid) (tag : PredicateLockTag)
| OWriteConflicts (x : Xid) (tag : PredicateLockTag)
| OCollectSsi
| OLocks (l : LockManager).

Definition on_handle (σ : sys) (x : Xid) (f : Transaction -> sys) : sys :=
  match handles σ !! x with Some t => f t | None => σ end.

(** One operation. A handle that does not exist, and an operation that
    returns an error, leave the open handles alone; [commit] and [abort]
    consume the handle whatever they return. The lock table may change in any
    way between two operations. *)
Definition sys_step (σ : sys) (op : sys_op) : sys :=
  match op with
  | OBegin iso =>
      let '(t, m) := begin (mgr σ) iso in
      mk_sys m (<[txn_xid t := t]> (handles σ)) (prepared σ)
  | ORefresh x => on_handle σ x (fun t =>
      let '(t, m) := refresh_snapshot (mgr σ) t in
      mk_sys m (<[x := t]> (handles σ)) (prepared σ))
  | OSavepoint x name => on_handle σ x (fun t =>
      let '(_, t, m) := begin_savepoint (mgr σ) t name in
      mk_sys m (<[x := t]> (handles σ)) (prepared σ))
  | ORollbackTo x name => on_handle σ x (fun t =>
      match rollback_to_savepoint (mgr σ) t name with
      | Ok (_, t, m) => mk_sys m (<[x := t]> (handles σ)) (prepared σ)
      | Err _ => σ
      end)
  | ORelease x name => on_handle σ x (fun t =>
      match release_savepoint t name with
      | Ok (_, t) => mk_sys (mgr σ) (<[x := t]> (handles σ)) (prepared σ)
      | Err _ => σ
      end)
  | OCheckSerializable x => on_handle σ x (fun t =>
      mk_sys (fst (commit_check_serializable (mgr σ) t)) (handles σ) (prepared σ))
  | OFinalizeVisible x => on_handle σ x (fun t =>
      match commit_finalize_visible (mgr σ) t (committed_subxid_family t) with
      | (m, Ok _) => mk_sys m (delete x (handles σ)) (prepared σ)
      | (_, Err _) => σ
      end)
  | OCommit x => on_handle σ x (fun t =>
      mk_sys (fst (commit (mgr σ) t)) (delete x (handles σ)) (prepared σ))
  | OAbort x => on_handle σ x (fun t =>
      mk_sys (fst (abort (mgr σ) t)) (delete x (handles σ)) (prepared σ))
  | OPrepare x => on_handle σ x (fun t =>
      mk_sys (mgr σ) (delete x (handles σ)) (<[x := committed_subxid_family t]> (prepared σ)))
  | OResolvePrepared x commit_it =>
      match prepared σ !! x with
      | Some family =>
          mk_sys (fst (finalise_prepared (mgr σ) x family (if commit_it then Committed else Aborted)))
            (handles σ) (delete x (prepared σ))
      | None => σ
      end
  | ORegisterSerializable x => mk_sys (register_serializable (mgr σ) x) (handles σ) (prepared σ)
  | OPredicateLock x tag => mk_sys (tm_record_predicate_lock (mgr σ) x tag) (handles σ) (prepared σ)
  | OWriteConflicts x tag =>
      mk_sys (fst (tm_record_write_conflicts (mgr σ) x tag)) (handles σ) (prepared σ)
  | OCollectSsi =>
      mk_sys (fst (collect_ssi_garbage (mgr σ) (oldest_in_progress (mgr σ)))) (handles σ) (prepared σ)
  | OLocks l => mk_sys (with_locks (mgr σ) l) (handles σ) (prepared σ)
  end.

(** The XID space is not exhausted: an allocation does not wrap. *)
Inductive sstep (σ : sys) : sys -> Prop :=
| do_step op : tm_next_xid (mgr σ) < U64 - 1 -> sstep σ (sys_step σ op).

(** Run a list of operations, as long as the XID space lasts. *)
Fixpoint run_ops (σ : sys) (ops : list sys_op) : option sys :=
  match ops with
  | [] => Some σ
  | op :: ops' => if tm_next_xid (mgr σ) <? U64 - 1 then run_ops (sys_step σ op) ops' else None
  end.

Lemma run_ops_reach σ ops σ' : run_ops σ ops = Some σ' -> rtc sstep σ σ'.
Proof.
  revert σ. induction ops as [|op ops IH]; intros σ; cbn [run_ops]; [by intros [= ->]|].
  destruct (Z.ltb_spec (tm_next_xid (mgr σ)) (U64 - 1)); [|done].
  intros Hr. eapply rtc_l; [by constructor|]. by apply IH.
Qed.

Definition reachable (ssi : option SsiManager) (σ : sys) : Prop := rtc sstep (sys_init ssi) σ.

(** ** The commit-log core

    What the isolation arguments need of the manager, and the four moves the
    operations make on it. *)

Record core := mk_core {
  k_next : Z;
  k_clog : gmap Z XidStatus;
  k_active : gset Z;
  k_parent : gmap Z Z;
}.

Definition core_of (m : TransactionManager) : core :=
  mk_core (tm_next_xid m) (tm_clog m) (tm_in_progress m) (tm_subxid_parent m).

Definition move_begin (c : core) : core :=
  mk_core (k_next c + 1) (<[k_next c := InProgress]> (k_clog c)) ({[k_next c]} ∪ k_active c) (k_parent c).

Definition move_savepoint (x : Xid) (c : core) : core :=
  mk_core (k_next c + 1) (<[k_next c := InProgress]> (k_clog c)) ({[k_next c]} ∪ k_active c)
    (<[k_next c := x]> (k_parent c)).

Definition move_abort (K : gset Z) (c : core) : core :=
  mk_core (k_next c) (gset_to_gmap Aborted K ∪ k_clog c) (k_active c ∖ K) (k_parent c).

Definition move_end (x : Xid) (F : gset Z) (st : XidStatus) (c : core) : core :=
  mk_core (k_next c) (gset_to_gmap st ({[x]} ∪ F) ∪ k_clog c) (k_active c ∖ ({[x]} ∪ F))
    (filter (fun kv => kv.1 ∉ F) (k_parent c)).

(** [fams] gives the live subtransactions of each running top-level
    transaction. *)
Record core_inv (c : core) (fams : gmap Z (gset Z)) : Prop := {
  ci_next : Xid_FIRST_USER <= k_next c;
  ci_dom : forall x, is_Some (k_clog c !! x) -> Xid_FIRST_USER <= x < k_next c;
  ci_active : forall x, x ∈ k_active c <-> k_clog c !! x = Some InProgress;
  ci_pdom : forall y p, k_parent c !! y = Some p -> is_Some (k_clog c !! y);
  ci_top : forall x F, fams !! x = Some F -> k_clog c !! x = Some InProgress /\ k_parent c !! x = None;
  ci_sub : forall x F y, fams !! x = Some F -> y ∈ F ->
    k_clog c !! y = Some InProgress /\ k_parent c !! y = Some x;
  ci_children : forall y p, k_parent c !! y = Some p -> k_clog c !! y = Some InProgress ->
    exists F, fams !! p = Some F /\ y ∈ F;
}.

(** The future of a core: XIDs below the old high-water mark are never
    started again, and an outcome is final. *)
Record core_ext (c c' : core) : Prop := {
  ce_next : k_next c <= k_next c';
  ce_final : forall y st, is_terminal st = true -> k_clog c !! y = Some st -> k_clog c' !! y = Some st;
  ce_started : forall y, y < k_next c -> k_clog c' !! y = Some InProgress -> k_clog c !! y = Some InProgress;
  ce_unknown : forall y, y < k_next c -> k_clog c !! y = None -> k_clog c' !! y = None;
  ce_parent : forall y, y < k_next c -> k_clog c' !! y = Some InProgress -> k_parent c' !! y = k_parent c !! y;
}.

#[global] Instance core_ext_preorder : PreOrder core_ext.
Proof.
  split.
  - intros c. by split.
  - intros c1 c2 c3 [] []. split; intros; try lia; eauto.
    + apply ce_started0; [done|]. apply ce_started1; [lia|done].
    + apply ce_unknown1; [lia|]. by apply ce_unknown0.
    + rewrite ce_parent1 by (done || lia). apply ce_parent0; [done|]. apply ce_started1; [lia|done].
Qed.

Lemma lookup_kill (c : gmap Z XidStatus) K st y :
  (gset_to_gmap st K ∪ c) !! y = if decide (y ∈ K) then Some st else c !! y.
Proof.
  rewrite lookup_union, lookup_gset_to_gmap. case_decide.
  - rewrite option_guard_True by done. by destruct (c !! y).
  - rewrite option_guard_False by done. by destruct (c !! y).
Qed.

Lemma lookup_forget (p : gmap Z Z) (F : gset Z) y :
  filter (fun kv : Z * Z => kv.1 ∉ F) p !! y = if decide (y ∈ F) then None else p !! y.
Proof.
  case_decide.
  - apply map_lookup_filter_None. right. intros ? _. cbn. tauto.
  - apply option_eq. intros q. rewrite map_lookup_filter_Some. naive_solver.
Qed.

Section moves.
Context (c : core) (fams : gmap Z (gset Z)) (Hc : core_inv c fams).

(** The next XID has never been seen. *)
Lemma next_fresh : k_clog c !! k_next c = None.
Proof.
  destruct (k_clog c !! k_next c) eqn:E; [|done].
  pose proof (ci_dom _ _ Hc (k_next c) (mk_is_Some _ _ E)). lia.
Qed.

Lemma next_no_parent : k_parent c !! k_next c = None.
Proof.
  destruct (k_parent c !! k_next c) eqn:E; [|done].
  destruct (ci_pdom _ _ Hc _ _ E) as [? Hs]. by rewrite next_fresh in Hs.
Qed.

Lemma next_no_fam : fams !! k_next c = None.
Proof.
  destruct (fams !! k_next c) as [F|] eqn:E; [|done].
  destruct (ci_top _ _ Hc _ _ E) as [Hs _]. by rewrite next_fresh in Hs.
Qed.

Lemma running_below x : k_clog c !! x = Some InProgress -> x <> k_next c.
Proof. intros H ->. by rewrite next_fresh in H. Qed.

Lemma begin_ext : core_ext c (move_begin c).
Proof.
  split; cbn; intros; [lia|..]; rewrite ?lookup_insert_ne in * by lia; try done.
  rewrite lookup_insert_ne; [done|]. intros <-. by rewrite next_fresh in *.
Qed.

Lemma savepoint_ext x : core_ext c (move_savepoint x c).
Proof.
  split; cbn; intros; [lia|..]; rewrite ?lookup_insert_ne in * by lia; try done.
  rewrite lookup_insert_ne; [done|]. intros <-. by rewrite next_fresh in *.
Qed.

Lemma abort_ext K :
  (forall y, y ∈ K -> k_clog c !! y = Some InProgress) -> core_ext c (move_abort K c).
Proof.
  intros HK. split; cbn; intros *; rewrite ?lookup_kill; try done; case_decide; try done; intros.
  - rewrite HK in * by done. by simplify_eq.
  - by rewrite HK in * by done.
Qed.

Lemma end_ext x F st :
  is_terminal st = true -> (forall y, y ∈ {[x]} ∪ F -> k_clog c !! y = Some InProgress) ->
  core_ext c (move_end x F st c).
Proof.
  intros Hst HK. split; cbn; intros *; rewrite ?lookup_kill; try done; case_decide; try done; intros.
  - rewrite HK in * by done. by simplify_eq.
  - by simplify_eq.
  - by rewrite HK in * by done.
  - by simplify_eq.
  - rewrite lookup_forget, decide_False by set_solver. done.
Qed.

Lemma begin_inv : core_inv (move_begin c) (<[k_next c := ∅]> fams).
Proof.
  destruct Hc. split; cbn.
  - lia.
  - intros x. rewrite lookup_insert. case_decide; [lia|]. intros Hx%ci_dom0. lia.
  - intros x. rewrite elem_of_union, elem_of_singleton, lookup_insert. case_decide; naive_solver.
  - intros y p Hy. rewrite lookup_insert. case_decide; [by eexists|by eapply ci_pdom0].
  - intros x F. rewrite !lookup_insert. case_decide as Hx; [subst; intros; split; [done|apply next_no_parent]|].
    apply ci_top0.
  - intros x F y. rewrite !lookup_insert. case_decide as Hx; [intros [= <-]; set_solver|].
    intros HF Hy. destruct (ci_sub0 _ _ _ HF Hy) as [H1 H2]. split; [|done].
    rewrite decide_False; [done|]. intros <-. by rewrite next_fresh in H1.
  - intros y p Hy. rewrite lookup_insert. case_decide; [subst; by rewrite next_no_parent in Hy|].
    intros Hi. destruct (ci_children0 _ _ Hy Hi) as (F & HF & Hin). exists F.
    rewrite lookup_insert_ne; [done|]. intros <-. by rewrite next_no_fam in HF.
Qed.

Lemma savepoint_inv x F :
  fams !! x = Some F -> core_inv (move_savepoint x c) (<[x := {[k_next c]} ∪ F]> fams).
Proof.
  intros HF. pose proof next_fresh as Hfr. pose proof next_no_parent as Hnp.
  pose proof next_no_fam as Hnf. destruct Hc. split; cbn.
  - lia.
  - intros y. rewrite lookup_insert. case_decide; [lia|]. intros Hy%ci_dom0. lia.
  - intros y. rewrite elem_of_union, elem_of_singleton, lookup_insert. case_decide; naive_solver.
  - intros y p. rewrite !lookup_insert. case_decide; [by eexists|by eapply ci_pdom0].
  - intros z G. rewrite !lookup_insert. intros HG.
    assert (exists G', fams !! z = Some G') as [G' HG'] by (case_decide; naive_solver).
    rewrite !decide_False by (intros <-; congruence). by eapply ci_top0.
  - intros z G y. rewrite !lookup_insert. intros HG Hy.
    destruct (decide (k_next c = y)) as [<-|Hne].
    + split; [done|]. case_decide as Hxz; [by subst|].
      exfalso. destruct (ci_sub0 _ _ _ HG Hy). congruence.
    + apply ci_sub0 with (F := if decide (x = z) then F else G); case_decide; simplify_eq; try done.
      set_solver.
  - intros y p. rewrite !lookup_insert. case_decide as Hy; intros Hp Hi.
    + simplify_eq. exists ({[k_next c]} ∪ F). rewrite decide_True by done. set_solver.
    + destruct (ci_children0 _ _ Hp Hi) as (G & HG & Hin). case_decide as Hxp; simplify_eq.
      * eexists. split; [done|set_solver].
      * by exists G.
Qed.

Lemma abort_inv x F K :
  fams !! x = Some F -> K ⊆ F -> core_inv (move_abort K c) (<[x := F ∖ K]> fams).
Proof.
  intros HF HK. destruct Hc.
  assert (forall y, y ∈ K -> k_clog c !! y = Some InProgress /\ k_parent c !! y = Some x) as HKr
    by (intros y Hy; apply (ci_sub0 x F); set_solver).
  assert (forall z G, fams !! z = Some G -> z ∉ K) as Htop.
  { intros z G HG Hz. destruct (HKr z Hz), (ci_top0 z G HG). congruence. }
  split; cbn.
  - done.
  - intros y. rewrite lookup_kill. case_decide; [|apply ci_dom0]. intros _. apply ci_dom0.
    eexists. by apply HKr.
  - intros y. rewrite lookup_kill, elem_of_difference, ci_active0. case_decide; naive_solver.
  - intros y p Hp. rewrite lookup_kill. case_decide; [by eexists|by eapply ci_pdom0].
  - intros z G. rewrite lookup_insert, lookup_kill. intros HG.
    assert (exists G', fams !! z = Some G') as [G' HG'] by (case_decide; naive_solver).
    rewrite decide_False by (by eapply Htop). by eapply ci_top0.
  - intros z G y. rewrite lookup_insert, lookup_kill. intros HG Hy.
    assert (exists G', fams !! z = Some G' /\ y ∈ G' /\ y ∉ K) as (G' & HG' & Hy' & HyK).
    { case_decide; simplify_eq; [exists F; set_solver|]. exists G. split_and!; try done.
      intros HyK. destruct (HKr y HyK), (ci_sub0 _ _ _ HG Hy). congruence. }
    rewrite decide_False by done. by eapply ci_sub0.
  - intros y p Hp. rewrite lookup_kill. case_decide as HyK; [done|]. intros Hi.
    destruct (ci_children0 _ _ Hp Hi) as (G & HG & Hin).
    rewrite lookup_insert. case_decide; simplify_eq; [|by exists G].
    eexists. split; [done|set_solver].
Qed.

Lemma end_inv x F st :
  is_terminal st = true -> fams !! x = Some F -> core_inv (move_end x F st c) (delete x fams).
Proof.
  intros Hst HF. destruct Hc.
  assert (forall y, y ∈ {[x]} ∪ F -> k_clog c !! y = Some InProgress) as HKr.
  { intros y [->%elem_of_singleton|Hy]%elem_of_union; [by eapply ci_top0|by eapply ci_sub0]. }
  assert (forall z G y, fams !! z = Some G -> x <> z -> y = z \/ y ∈ G -> y ∉ {[x]} ∪ F) as Hdisj.
  { intros z G y HG Hne Hy Hin. destruct (ci_top0 _ _ HF) as [_ Hpx], (ci_top0 _ _ HG) as [_ Hpz].
    assert (y = z \/ k_parent c !! y = Some z) as Hy' by (destruct Hy; [by left|right; by eapply ci_sub0]).
    assert (y = x \/ k_parent c !! y = Some x) as Hx'.
    { apply elem_of_union in Hin as [Hin|Hin]; [left; set_solver|right; by eapply ci_sub0]. }
    destruct Hy' as [->|Hy'], Hx' as [Hx'|Hx']; congruence. }
  split; cbn.
  - done.
  - intros y. rewrite lookup_kill. case_decide; [|apply ci_dom0]. intros _. apply ci_dom0.
    eexists. by apply HKr.
  - intros y. rewrite lookup_kill, elem_of_difference, ci_active0.
    case_decide; [|naive_solver]. split; [naive_solver|]. intros ?. by simplify_eq.
  - intros y p. rewrite lookup_forget, lookup_kill. repeat case_decide; try done. by eapply ci_pdom0.
  - intros z G [Hne HG]%lookup_delete_Some. rewrite lookup_kill, lookup_forget.
    assert (z ∉ {[x]} ∪ F) by (eapply Hdisj; naive_solver).
    rewrite !decide_False by set_solver. by eapply ci_top0.
  - intros z G y [Hne HG]%lookup_delete_Some Hy. rewrite lookup_kill, lookup_forget.
    assert (y ∉ {[x]} ∪ F) by (eapply Hdisj; naive_solver).
    rewrite !decide_False by set_solver. by eapply ci_sub0.
  - intros y p. rewrite lookup_forget, lookup_kill. case_decide; [done|]. intros Hp.
    case_decide; [intros ?; by simplify_eq|]. intros Hi.
    destruct (ci_children0 _ _ Hp Hi) as (G & HG & Hin). exists G. split; [|done].
    apply lookup_delete_Some. split; [|done]. intros <-. set_solver.
Qed.
End moves.

(** ** The operations as moves *)

Lemma alloc_core m :
  0 <= tm_next_xid m < U64 - 1 -> core_of (alloc_in_progress m).2 = move_begin (core_of m).
Proof.
  intros Hn. unfold core_of, move_begin, alloc_in_progress, wrapping_add, wrap, U64 in *. cbn.
  by rewrite Z.mod_small by lia.
Qed.

Lemma begin_core m iso :
  0 <= tm_next_xid m < U64 - 1 -> core_of (begin m iso).2 = move_begin (core_of m).
Proof. intros Hn. rewrite <- alloc_core by done. unfold begin. cbn. by case_bool_decide. Qed.

Lemma begin_savepoint_core m t name :
  0 <= tm_next_xid m < U64 - 1 ->
  core_of (begin_savepoint m t name).2 = move_savepoint (txn_xid t) (core_of m).
Proof.
  intros Hn. pose proof (alloc_core m Hn) as H. unfold begin_savepoint, savepoint.
  unfold core_of, move_begin, move_savepoint, alloc_in_progress in *. cbn in *. injection H as ->. done.
Qed.

Lemma abort_subxids_core m l :
  core_of (foldl abort_subxid m l) =
  mk_core (tm_next_xid m)
    (gset_to_gmap Aborted (filter (fun y => tm_clog m !! y = Some InProgress) (list_to_set l))
       ∪ tm_clog m)
    (tm_in_progress m ∖ filter (fun y => tm_clog m !! y = Some InProgress) (list_to_set l))
    (tm_subxid_parent m).
Proof.
  revert m. induction l as [|s l IH]; intros m; cbn [foldl list_to_set].
  { rewrite filter_empty_L by apply _. by rewrite gset_to_gmap_empty, map_empty_union, difference_empty_L. }
  rewrite IH. unfold abort_subxid.
  destruct (decide (tm_clog m !! s = Some InProgress)) as [Hs|Hs].
  2: { assert (filter (fun y => tm_clog m !! y = Some InProgress) ({[s]} ∪ list_to_set l) =
         filter (fun y => tm_clog m !! y = Some InProgress) (list_to_set l : gset Z)) as ->.
       { apply set_eq. intros y. rewrite !elem_of_filter, elem_of_union, elem_of_singleton. naive_solver. }
       by destruct (tm_clog m !! s) as [[]|]. }
  rewrite Hs.
  cbn. f_equal.
  - apply map_eq. intros y. rewrite !lookup_kill, lookup_insert.
    destruct (decide (s = y)) as [<-|Hne].
    + rewrite (decide_True (P := s ∈ filter _ ({[s]} ∪ _))) by (apply elem_of_filter; set_solver).
      by case_decide.
    + erewrite decide_ext; [done|]. rewrite !elem_of_filter, lookup_insert_ne by done. set_solver.
  - apply set_eq. intros y. rewrite !elem_of_difference, !elem_of_filter, elem_of_union,
      elem_of_singleton, lookup_insert. case_decide; naive_solver.
Qed.

Lemma abort_subxids_floors m l :
  tm_snapshot_xmins (foldl abort_subxid m l) = tm_snapshot_xmins m.
Proof.
  revert m. induction l as [|s l IH]; intros m; cbn [foldl]; [done|]. rewrite IH.
  unfold abort_subxid. by destruct (tm_clog m !! s) as [[]|].
Qed.

(** Folding a family of running transactions. *)
Lemma fold_subxids_running x st force l :
  is_terminal st = true -> x ∉ l ->
  forall c a, (forall y, y ∈ l -> c !! y = Some InProgress \/ c !! y = Some st) ->
  foldl (fold_subxid x st force) (c, a) l =
  (gset_to_gmap st (list_to_set l : gset Z) ∪ c, a ∖ list_to_set l).
Proof.
  intros Hst. induction l as [|s l IH]; intros Hx c a Hrun; cbn [foldl list_to_set].
  { by rewrite gset_to_gmap_empty, map_empty_union, difference_empty_L. }
  apply not_elem_of_cons in Hx as [Hxs Hx].
  assert (exists c', fold_subxid x st force (c, a) s = (c', a ∖ {[s]}) /\ c' = <[s := st]> c)
    as (c' & -> & ->).
  { unfold fold_subxid. rewrite (proj2 (Z.eqb_neq s x)) by done. eexists. split; [done|].
    destruct (Hrun s) as [-> | Hs]; [left| |].
    - by rewrite bool_decide_eq_true_2, orb_true_r by done.
    - rewrite Hs. destruct (force || _); [done|]. by rewrite insert_id. }
  rewrite IH; [|done|].
  - f_equal; [|set_solver]. apply map_eq. intros y. rewrite !lookup_kill, lookup_insert.
    repeat case_decide; set_solver.
  - intros y Hy. rewrite lookup_insert. case_decide; [by right|]. apply Hrun. by right.
Qed.

Lemma forget_parents_filter (p : gmap Z Z) l :
  foldl (fun p sub => delete sub p) p l = filter (fun kv => kv.1 ∉ (list_to_set l : gset Z)) p.
Proof.
  revert p. induction l as [|s l IH]; intros p; cbn [foldl list_to_set].
  { symmetry. apply map_filter_id. set_solver. }
  rewrite IH. apply map_eq. intros y. rewrite !lookup_forget, lookup_delete.
  repeat case_decide; set_solver.
Qed.

Lemma terminate_running m x l st force :
  is_terminal st = true -> tm_clog m !! x = Some InProgress -> x ∉ l ->
  (forall y, y ∈ l -> tm_clog m !! y = Some InProgress) ->
  exists m', terminate_with_subxids m x l st force = Ok m' /\
    core_of (forget_subxid_parents m' l) = move_end x (list_to_set l) st (core_of m) /\
    tm_snapshot_xmins m' = delete x (tm_snapshot_xmins m) /\ tm_ssi m' = tm_ssi m.
Proof.
  intros Hst Hx Hxl Hl. unfold terminate_with_subxids. rewrite Hx.
  rewrite fold_subxids_running; [|done|done|].
  2: { intros y Hy. left. rewrite lookup_insert_ne by set_solver. by apply Hl. }
  eexists. split; [done|]. split; [|done].
  unfold core_of, forget_subxid_parents, move_end. cbn. rewrite forget_parents_filter. f_equal.
  - apply map_eq. intros y. rewrite !lookup_kill, lookup_insert. repeat case_decide; set_solver.
  - set_solver.
Qed.

(** ** Ends of transactions as moves *)

Section ends.
Context (m : TransactionManager) (t : Transaction) (l : list Xid).
Hypothesis Hrun : tm_clog m !! txn_xid t = Some InProgress.
Hypothesis Hl : forall y, y ∈ l -> tm_clog m !! y = Some InProgress.
Hypothesis Hnot : txn_xid t ∉ l.

Definition ended (st : XidStatus) (m' : TransactionManager) : Prop :=
  core_of m' = move_end (txn_xid t) (list_to_set l) st (core_of m) /\
  tm_snapshot_xmins m' = delete (txn_xid t) (tm_snapshot_xmins m).

Lemma finalize_ended :
  exists m', commit_finalize_visible m t l = (m', Ok tt) /\ ended Committed m'.
Proof.
  unfold commit_finalize_visible.
  destruct (terminate_running m (txn_xid t) l Committed false) as (m' & -> & Hc & Hf & _); try done.
  eexists. split; [done|]. by split.
Qed.

Lemma finalise_prepared_ended st :
  is_terminal st = true ->
  exists m', finalise_prepared m (txn_xid t) l st = (m', Ok tt) /\ ended st m'.
Proof.
  intros Hst. unfold finalise_prepared.
  destruct (terminate_running m (txn_xid t) l st true) as (m' & -> & Hc & Hf & _); try done.
  eexists. split; [done|]. by split.
Qed.
End ends.

Lemma abort_ended m t :
  tm_clog m !! txn_xid t = Some InProgress ->
  (forall y, y ∈ committed_subxid_family t -> tm_clog m !! y = Some InProgress) ->
  txn_xid t ∉ committed_subxid_family t ->
  exists m', abort m t = (m', Ok tt) /\ ended m t (committed_subxid_family t) Aborted m'.
Proof.
  intros Hrun Hl Hnot. unfold abort.
  destruct (terminate_running m (txn_xid t) (committed_subxid_family t) Aborted false)
    as (m' & -> & Hc & Hf & _); try done.
  eexists. split; [done|]. by case_bool_decide.
Qed.

Lemma check_serializable_core m t :
  core_of (commit_check_serializable m t).1 = core_of m /\
  tm_snapshot_xmins (commit_check_serializable m t).1 = tm_snapshot_xmins m /\
  forall l, (commit_check_serializable m t).2 = Ok l -> l = committed_subxid_family t.
Proof.
  unfold commit_check_serializable. case_bool_decide; [|naive_solver].
  destruct (tm_ssi m) as [s|]; [|naive_solver].
  destruct (ssi_commit s _ _) as [s' [[]|[v d]]]; naive_solver.
Qed.

Lemma commit_ended m t :
  tm_clog m !! txn_xid t = Some InProgress ->
  (forall y, y ∈ committed_subxid_family t -> tm_clog m !! y = Some InProgress) ->
  txn_xid t ∉ committed_subxid_family t ->
  exists st, is_terminal st = true /\ ended m t (committed_subxid_family t) st (commit m t).1 /\
    (forall l, (commit m t).2 = Ok l -> st = Committed /\ l = committed_subxid_family t) /\
    (is_ok (commit m t).2 = false -> st = Aborted).
Proof.
  intros Hrun Hl Hnot. unfold commit.
  destruct (check_serializable_core m t) as (Hc & Hf & Hfam).
  destruct (commit_check_serializable m t) as [m1 [l|e]]; cbn in Hc, Hf, Hfam.
  - rewrite (Hfam l eq_refl) in *. unfold core_of in Hc. injection Hc as Hn Hclog Ha Hp.
    destruct (finalize_ended m1 t (committed_subxid_family t)) as (m' & -> & He); [by rewrite Hclog..|done|].
    exists Committed. unfold ended, core_of in *. rewrite Hn, Hclog, Ha, Hp, Hf in He. cbn.
    split_and!; naive_solver.
  - unfold core_of in Hc. injection Hc as Hn Hclog Ha Hp.
    destruct (abort_ended m1 t) as (m' & -> & He); [by rewrite Hclog..|done|].
    exists Aborted. unfold ended, core_of in *. rewrite Hn, Hclog, Ha, Hp, Hf in He. cbn.
    split_and!; naive_solver.
Qed.

(** ** Handles and their snapshots *)

Definition stk_fam (m : SubtxnManager) : gset Z := list_to_set (sub_xid <$> stack m) ∪ merged_up m.

(** A snapshot taken by transaction [x] whose live and rolled-back
    subtransactions are [F] and [R]: every transaction that runs now and that
    the snapshot takes for resolved is its own. *)
Record snap_inv (c : core) (x : Xid) (F R : gset Z) (s : Snapshot) : Prop := {
  sn_wf : snapshot_wf s;
  sn_cur : current_xid s = x;
  sn_xmax : snap_xmin s <= snap_xmax s <= k_next c;
  sn_xip : forall y, y ∈ xip s -> snap_xmin s <= y;
  sn_resolved : forall y, y < snap_xmax s -> y ∉ xip s -> k_clog c !! y = Some InProgress ->
    y = x \/ k_parent c !! y = Some x;
  sn_live : forall y, y ∈ own_live_subxids s <-> y ∈ F;
  sn_rolled : forall y, y ∈ own_rolled_back_subxids s <-> y ∈ R;
}.

Record handle_inv (c : core) (floors : gmap Z Z) (x : Xid) (t : Transaction) : Prop := {
  hi_xid : txn_xid t = x;
  hi_parent : sm_parent_xid (txn_subtxn_stack t) = x;
  hi_wf : subtxn_wf (k_next c) (txn_subtxn_stack t);
  hi_rolled : forall y, y ∈ sm_rolled_back (txn_subtxn_stack t) -> k_clog c !! y = Some Aborted;
  hi_snap : snap_inv c x (stk_fam (txn_subtxn_stack t)) (sm_rolled_back (txn_subtxn_stack t))
              (txn_snapshot t);
  hi_floor : floors !! x = Some (snap_xmin (txn_snapshot t));
}.

Definition sys_fams (σ : sys) : gmap Z (gset Z) :=
  ((fun t => stk_fam (txn_subtxn_stack t)) <$> handles σ) ∪ (list_to_set <$> prepared σ).

Record sys_inv (σ : sys) : Prop := {
  si_core : core_inv (core_of (mgr σ)) (sys_fams σ);
  si_disj : dom (handles σ) ## dom (prepared σ);
  si_handle : forall x t, handles σ !! x = Some t ->
    handle_inv (core_of (mgr σ)) (tm_snapshot_xmins (mgr σ)) x t;
}.

Lemma snap_inv_ext c c' x F R s : core_ext c c' -> snap_inv c x F R s -> snap_inv c' x F R s.
Proof.
  intros He []. pose proof (ce_next _ _ He). split; try done; [lia|].
  intros y Hy Hxip Hrun. rewrite (ce_parent _ _ He) by (done || lia).
  apply sn_resolved0; [done|done|]. apply (ce_started _ _ He); [lia|done].
Qed.

Lemma handle_inv_ext c c' fl fl' x t :
  core_ext c c' -> fl' !! x = fl !! x -> handle_inv c fl x t -> handle_inv c' fl' x t.
Proof.
  intros He Hfl []. split; try done.
  - eapply subtxn_wf_mono; [apply (ce_next _ _ He)|done].
  - intros y Hy. by apply (ce_final _ _ He), hi_rolled0.
  - by eapply snap_inv_ext.
  - by rewrite Hfl.
Qed.

Lemma elem_of_snapshot_xip m cur own y :
  y ∈ snapshot_xip m cur own <->
  y ∈ tm_in_progress m /\ y <> cur /\ (y ∉ own_live own) /\ y < tm_next_xid m.
Proof.
  unfold snapshot_xip. rewrite list_elem_of_In, List.filter_In, <- list_elem_of_In, elem_of_sort, elem_of_elements.
  rewrite !andb_true_iff, !negb_true_iff, Z.eqb_neq, bool_decide_eq_false, Z.ltb_lt. tauto.
Qed.

Lemma min_xid_spec l :
  match min_xid l with
  | Some x => x ∈ l /\ forall y, y ∈ l -> x <= y
  | None => l = []
  end.
Proof.
  assert (forall l o, match foldl (fun o xid => Some (match o with
      | None => xid | Some c => if c <=? xid then c else xid end)) o l with
    | Some x => (x ∈ l \/ o = Some x) /\ (forall y, y ∈ l -> x <= y) /\ (forall z, o = Some z -> x <= z)
    | None => l = [] /\ o = None
    end) as H.
  { clear l. induction l as [|a l IH]; intros o; cbn [foldl].
    { destruct o as [b|]; [|done]. split_and!; [by right|by intros y ?%not_elem_of_nil|]. intros z [= ->]. lia. }
    match goal with |- context [foldl ?f (Some ?b) l] => specialize (IH (Some b)); set (v := b) in * end.
    destruct (foldl _ (Some v) l) as [x|]; [|naive_solver]. destruct IH as (Hin & Hle & Ho).
    specialize (Ho v eq_refl).
    assert (v <= a /\ (forall z, o = Some z -> v <= z) /\ (v = a \/ o = Some v)) as (Hva & Hvz & Hv).
    { subst v. destruct o as [b|]; [|naive_solver lia]. destruct (Z.leb_spec b a); naive_solver lia. }
    split_and!.
    - destruct Hin as [Hin|[= <-]]; [left; by right|]. destruct Hv as [->|]; [left; left|by right].
    - intros y [->|Hy]%elem_of_cons; [lia|by apply Hle].
    - intros z Hz. specialize (Hvz z Hz). lia. }
  unfold min_xid. specialize (H l None). destruct (foldl _ None l); naive_solver.
Qed.

Lemma build_snapshot_inv m fams x cmd own (F R : gset Z) :
  core_inv (core_of m) fams ->
  (forall y, y ∈ own_live own <-> y ∈ F) -> (forall y, y ∈ own_rolled_back own <-> y ∈ R) ->
  (forall y, y ∈ F -> tm_subxid_parent m !! y = Some x) ->
  snap_inv (core_of m) x F R (build_snapshot m x cmd own) /\
  snap_xmax (build_snapshot m x cmd own) = tm_next_xid m /\
  xip (build_snapshot m x cmd own) = sort_unstable (snapshot_xip m x own).
Proof.
  intros Hc HF HR Hpar.
  set (s0 := Snapshot_new (default (tm_next_xid m) (min_xid (snapshot_xip m x own)))
    (tm_next_xid m) x cmd (snapshot_xip m x own)).
  pose proof (min_xid_spec (snapshot_xip m x own)) as Hmin.
  assert (snap_xmin s0 <= snap_xmax s0 <= tm_next_xid m) as Hxmax.
  { subst s0. cbn. destruct (min_xid _) as [z|]; cbn; [|lia].
    destruct Hmin as [Hz _]. apply elem_of_snapshot_xip in Hz. lia. }
  assert (forall y, y ∈ xip s0 -> snap_xmin s0 <= y) as Hxip.
  { subst s0. cbn. intros y. rewrite elem_of_sort. intros Hy. destruct (min_xid _) as [z|]; cbn.
    - by apply Hmin.
    - rewrite Hmin in Hy. by apply not_elem_of_nil in Hy. }
  assert (forall y, y < snap_xmax s0 -> y ∉ xip s0 -> tm_clog m !! y = Some InProgress ->
    y = x \/ tm_subxid_parent m !! y = Some x) as Hres.
  { subst s0. cbn. intros y Hy. rewrite elem_of_sort, elem_of_snapshot_xip. intros Hno Hrun.
    destruct (decide (y = x)) as [|Hyx]; [by left|right]. apply Hpar, HF.
    destruct (decide (y ∈ own_live own)) as [|Hnl]; [done|]. destruct Hno. split_and!; try done.
    by apply (ci_active _ _ Hc). }
  assert (snapshot_wf s0) as Hwf by apply Snapshot_new_wf.
  assert (build_snapshot m x cmd own = if OwnSubxids_is_empty own then s0
    else set_own_subxids s0 (own_live own) (own_rolled_back own)) as -> by done.
  destruct (OwnSubxids_is_empty own) eqn:He.
  - split; [|done]. split; try done; intros y; rewrite <- ?HF, <- ?HR; unfold OwnSubxids_is_empty in He;
      destruct (own_live own), (own_rolled_back own); done.
  - split; [|done]. split; try done.
    + by apply set_own_subxids_wf.
    + intros y. cbn. by rewrite elem_of_sort, HF.
    + intros y. cbn. by rewrite elem_of_sort, HR.
Qed.

(** ** Families under the savepoint operations *)

Lemma elem_of_stk_fam m y : y ∈ stk_fam m <-> y ∈ (sub_xid <$> stack m) \/ y ∈ merged_up m.
Proof. unfold stk_fam. by rewrite elem_of_union, elem_of_list_to_set. Qed.

Lemma committed_family_set t :
  list_to_set (committed_subxid_family t) = stk_fam (txn_subtxn_stack t).
Proof.
  apply set_eq. intros y. unfold committed_subxid_family, live_stack_subxids, merged_up_subxids.
  rewrite elem_of_list_to_set, elem_of_dedup, elem_of_sort, elem_of_app, elem_of_elements, elem_of_stk_fam.
  tauto.
Qed.

Lemma elem_of_committed_family t y :
  y ∈ committed_subxid_family t <-> y ∈ stk_fam (txn_subtxn_stack t).
Proof. by rewrite <- committed_family_set, elem_of_list_to_set. Qed.

Lemma rollback_fam {St} (alloc : St -> Xid * St) m name st st' n out m' st'' :
  alloc st = (n, st') -> subtxn_wf n m -> rollback_to alloc m name st = Ok (out, m', st'') ->
  list_to_set (aborted out) ⊆ stk_fam m /\
  stk_fam m' = {[n]} ∪ stk_fam m ∖ list_to_set (aborted out).
Proof.
  intros Ha Hwf Hrb.
  destruct (rollback_to_spec _ _ _ _ _ _ _ _ _ Ha Hwf Hrb)
    as (pos & target & Hpos & Ht & _ & _ & Hab & Hst & Hme & Hro & Hpa).
  split.
  { intros y. rewrite elem_of_list_to_set, Hab, elem_of_stk_fam. tauto. }
  destruct (sorted_take_drop_spec (sub_xid <$> stack m) pos (sub_xid target) (wf_sorted _ _ Hwf))
    as [Hlt Hgt]; [by rewrite list_lookup_fmap, Ht|].
  assert (forall y, y ∈ (sub_xid <$> take pos (stack m)) <->
    y ∈ (sub_xid <$> stack m) /\ y < sub_xid target) as Htake.
  { intros y. rewrite fmap_take.
    rewrite <- (take_drop_middle (sub_xid <$> stack m) pos (sub_xid target)) at 2
      by (by rewrite list_lookup_fmap, Ht).
    rewrite elem_of_app, elem_of_cons. split.
    - intros Hy. split; [by left|by apply Hlt].
    - intros [[Hy|[->|Hy]] Hl]; [done|lia|]. specialize (Hgt y). rewrite Nat.add_1_r in Hgt.
      specialize (Hgt Hy). lia. }
  apply set_eq. intros y. rewrite elem_of_stk_fam, Hst, fmap_app, elem_of_app, Htake. cbn.
  rewrite list_elem_of_singleton, Hme, elem_of_union, elem_of_singleton, elem_of_difference,
    elem_of_list_to_set, Hab, elem_of_stk_fam.
  destruct (Z.lt_ge_cases y (sub_xid target)); intuition lia.
Qed.

Lemma release_fam m name x m' n :
  subtxn_wf n m -> release m name = Ok (x, m') ->
  stk_fam m' = stk_fam m /\ sm_rolled_back m' = sm_rolled_back m /\ sm_parent_xid m' = sm_parent_xid m.
Proof.
  intros Hwf Hrel.
  destruct (release_spec _ _ _ _ Hrel) as (pos & t & Hpos & Ht & -> & Hst & Hme & Hro & Hpa).
  split; [|done]. apply set_eq. intros y. rewrite !elem_of_stk_fam, Hst, Hme, fmap_vec_remove.
  assert ((sub_xid <$> stack m) !! pos = Some (sub_xid t)) as Hc by (by rewrite list_lookup_fmap, Ht).
  rewrite (elem_of_vec_remove_sorted _ pos (sub_xid t)) by (apply (wf_sorted _ _ Hwf) || done).
  rewrite elem_of_union, elem_of_singleton. apply list_elem_of_lookup_2 in Hc.
  destruct (decide (y = sub_xid t)) as [->|]; tauto.
Qed.

Lemma snap_inv_apply_own c x F R s stk n :
  snap_inv c x F R s -> subtxn_wf n stk ->
  snap_inv c x (stk_fam stk) (sm_rolled_back stk)
    (set_own_subxids s (self_subxids stk) (rolled_back_subxids stk)).
Proof.
  intros [] Hwf. split; try done.
  - by apply set_own_subxids_wf.
  - intros y. cbn. by rewrite elem_of_sort, (elem_of_self_subxids n), elem_of_stk_fam.
  - intros y. cbn. unfold rolled_back_subxids. by rewrite elem_of_sort, elem_of_elements.
Qed.

(** ** Preservation *)

Section update.
Context (σ : sys) (Hσ : sys_inv σ) (m' : TransactionManager).
Hypothesis Hext : core_ext (core_of (mgr σ)) (core_of m').

Lemma sys_inv_put x t :
  x ∉ dom (prepared σ) ->
  core_inv (core_of m') (<[x := stk_fam (txn_subtxn_stack t)]> (sys_fams σ)) ->
  (forall z, z <> x -> tm_snapshot_xmins m' !! z = tm_snapshot_xmins (mgr σ) !! z) ->
  handle_inv (core_of m') (tm_snapshot_xmins m') x t ->
  sys_inv (mk_sys m' (<[x := t]> (handles σ)) (prepared σ)).
Proof.
  intros Hp Hc Hfl Ht. split; cbn.
  - unfold sys_fams in *. cbn. by rewrite fmap_insert, <- insert_union_l.
  - rewrite dom_insert_L. pose proof (si_disj _ Hσ). set_solver.
  - intros z u. rewrite lookup_insert. case_decide as Hz; [subst; intros [= <-]; done|].
    intros Hu. eapply handle_inv_ext; [done| |by apply (si_handle _ Hσ)]. by apply Hfl.
Qed.

Lemma sys_inv_remove x :
  x ∉ dom (prepared σ) -> core_inv (core_of m') (delete x (sys_fams σ)) ->
  (forall z, z <> x -> tm_snapshot_xmins m' !! z = tm_snapshot_xmins (mgr σ) !! z) ->
  sys_inv (mk_sys m' (delete x (handles σ)) (prepared σ)).
Proof.
  intros Hp Hc Hfl. split; cbn.
  - unfold sys_fams in *. cbn. rewrite fmap_delete. rewrite delete_union in Hc.
    rewrite (delete_id (list_to_set <$> prepared σ)) in Hc; [done|].
    rewrite lookup_fmap. apply not_elem_of_dom in Hp. by rewrite Hp.
  - rewrite dom_delete_L. pose proof (si_disj _ Hσ). set_solver.
  - intros z u [Hz Hu]%lookup_delete_Some.
    eapply handle_inv_ext; [done| |by apply (si_handle _ Hσ)]. apply Hfl. done.
Qed.

Lemma sys_inv_resolve x :
  x ∉ dom (handles σ) -> core_inv (core_of m') (delete x (sys_fams σ)) ->
  (forall z, z <> x -> tm_snapshot_xmins m' !! z = tm_snapshot_xmins (mgr σ) !! z) ->
  sys_inv (mk_sys m' (handles σ) (delete x (prepared σ))).
Proof.
  intros Hp Hc Hfl. split; cbn.
  - unfold sys_fams in *. cbn. rewrite fmap_delete. rewrite delete_union in Hc.
    rewrite (delete_id ((fun t => stk_fam (txn_subtxn_stack t)) <$> handles σ)) in Hc; [done|].
    rewrite lookup_fmap. apply not_elem_of_dom in Hp. by rewrite Hp.
  - rewrite dom_delete_L. pose proof (si_disj _ Hσ). set_solver.
  - intros z u Hu. eapply handle_inv_ext; [done| |by apply (si_handle _ Hσ)]. apply Hfl.
    intros ->. apply Hp. apply elem_of_dom. by eexists.
Qed.

(** Operations that do not touch the commit log. *)
Lemma sys_inv_same :
  core_of m' = core_of (mgr σ) -> tm_snapshot_xmins m' = tm_snapshot_xmins (mgr σ) ->
  sys_inv (mk_sys m' (handles σ) (prepared σ)).
Proof. intros Hc Hf. destruct Hσ. split; cbn; [rewrite Hc|done|intros x t Ht; rewrite Hc, Hf; auto]. done. Qed.
End update.

Section steps.
Context (σ : sys) (Hσ : sys_inv σ) (Hspace : tm_next_xid (mgr σ) < U64 - 1).

Lemma next_in_space : 0 <= tm_next_xid (mgr σ) < U64 - 1.
Proof. pose proof (ci_next _ _ (si_core _ Hσ)) as H. unfold Xid_FIRST_USER in H. cbn in H. lia. Qed.

Lemma next_no_wrap : wrapping_add U64 (tm_next_xid (mgr σ)) 1 = tm_next_xid (mgr σ) + 1.
Proof.
  pose proof next_in_space. unfold wrapping_add, wrap, U64 in *. by rewrite Z.mod_small by lia.
Qed.

Lemma handle_not_prepared x t : handles σ !! x = Some t -> x ∉ dom (prepared σ).
Proof. intros Hx. pose proof (si_disj _ Hσ) as H. apply elem_of_dom_2 in Hx. set_solver. Qed.

Lemma handle_fam x t :
  handles σ !! x = Some t -> sys_fams σ !! x = Some (stk_fam (txn_subtxn_stack t)).
Proof.
  intros Hx. unfold sys_fams. apply lookup_union_Some_l. by rewrite lookup_fmap, Hx.
Qed.

Lemma prepared_fam x F : prepared σ !! x = Some F -> sys_fams σ !! x = Some (list_to_set F).
Proof.
  intros Hx. unfold sys_fams. rewrite lookup_union_r; [by rewrite lookup_fmap, Hx|].
  rewrite lookup_fmap. destruct (handles σ !! x) as [t|] eqn:Ht; [|done].
  apply handle_not_prepared in Ht. apply elem_of_dom_2 in Hx. done.
Qed.

Lemma begin_preserves iso :
  sys_inv (sys_step σ (OBegin iso)) /\ core_ext (core_of (mgr σ)) (core_of (mgr (sys_step σ (OBegin iso)))).
Proof.
  cbn [sys_step]. pose proof (begin_core _ iso next_in_space) as Hcore.
  destruct (begin (mgr σ) iso) as [t m] eqn:E. cbn in Hcore |- *.
  pose proof (begin_ext _ _ (si_core _ Hσ)) as Hext. rewrite <- Hcore in Hext.
  pose proof (begin_inv _ _ (si_core _ Hσ)) as Hinv. rewrite <- Hcore in Hinv. cbn in Hinv.
  split; [|done].
  set (m1 := (alloc_in_progress (mgr σ)).2).
  assert (t = mk_Transaction (tm_next_xid (mgr σ))
    (build_snapshot m1 (tm_next_xid (mgr σ)) CommandId_FIRST OwnSubxids_empty) iso false Lsn_ZERO
    CommandId_FIRST (SubtxnManager_new (tm_next_xid (mgr σ)))) as -> by (unfold begin in E; by simplify_eq E).
  assert (tm_snapshot_xmins m = <[tm_next_xid (mgr σ) := snap_xmin
    (build_snapshot m1 (tm_next_xid (mgr σ)) CommandId_FIRST OwnSubxids_empty)]>
      (tm_snapshot_xmins (mgr σ))) as Hfl.
  { unfold begin in E. simplify_eq E. intros <-. by case_bool_decide. }
  assert (core_of m1 = core_of m) as Hm1.
  { rewrite Hcore. symmetry. symmetry. apply alloc_core, next_in_space. }
  clearbody m1. clear E.
  apply sys_inv_put; [exact Hσ|exact Hext| | | |].
  - intros [F HF%prepared_fam]%elem_of_dom. pose proof (next_no_fam _ _ (si_core _ Hσ)) as Hn.
    cbn in HF, Hn. congruence.
  - cbn. unfold stk_fam. cbn. by rewrite union_empty_r_L.
  - intros z Hz. by rewrite Hfl, lookup_insert_ne.
  - split; cbn; try done.
    + apply SubtxnManager_new_wf. change (tm_next_xid m) with (k_next (core_of m)).
      rewrite Hcore. cbn. lia.
    + rewrite <- Hm1. eapply proj1, (build_snapshot_inv m1 (<[tm_next_xid (mgr σ) := ∅]> (sys_fams σ)));
        [by rewrite Hm1|..]; unfold stk_fam; cbn; set_solver.
    + rewrite Hfl. by rewrite lookup_insert_eq.
Qed.

(** Operations that only change one handle. *)
Lemma put_same x t t' m' :
  handles σ !! x = Some t -> core_of m' = core_of (mgr σ) ->
  stk_fam (txn_subtxn_stack t') = stk_fam (txn_subtxn_stack t) ->
  (forall z, z <> x -> tm_snapshot_xmins m' !! z = tm_snapshot_xmins (mgr σ) !! z) ->
  handle_inv (core_of (mgr σ)) (tm_snapshot_xmins m') x t' ->
  sys_inv (mk_sys m' (<[x := t']> (handles σ)) (prepared σ)).
Proof.
  intros Hx Hc Hst Hfl Ht. apply sys_inv_put; [exact Hσ|by rewrite Hc| | |done|by rewrite Hc].
  - by eapply handle_not_prepared.
  - rewrite Hc, Hst, insert_id by (by apply handle_fam). apply (si_core _ Hσ).
Qed.

Lemma refresh_preserves x :
  sys_inv (sys_step σ (ORefresh x)) /\ core_ext (core_of (mgr σ)) (core_of (mgr (sys_step σ (ORefresh x)))).
Proof.
  cbn [sys_step]. unfold on_handle. destruct (handles σ !! x) as [t|] eqn:Hx; [|done].
  pose proof (handle_fam x t Hx) as HF. pose proof (put_same x t) as Hput.
  destruct (si_handle _ Hσ x t Hx) as [Hxid Hpar Hwf Hro Hsn Hfl].
  unfold refresh_snapshot. cbn [set_txn_command txn_isolation].
  destruct (txn_isolation t); (split; [|reflexivity]).
  - apply Hput; [done|done|done|intros z Hz; cbn; by rewrite Hxid, lookup_insert_ne|].
    split; cbn; try done; [|by rewrite Hxid, lookup_insert_eq].
    rewrite Hxid. eapply proj1, (build_snapshot_inv _ (sys_fams σ) x _ _ _ _ (si_core _ Hσ)).
    + intros y. cbn. by rewrite (elem_of_self_subxids _ _ _ Hwf), elem_of_stk_fam.
    + intros y. cbn. unfold rolled_back_subxids. by rewrite elem_of_elements.
    + intros y Hy. by eapply (ci_sub _ _ (si_core _ Hσ)).
  - apply Hput; try done. split; cbn; try done.
    eapply snap_inv_apply_own; [|done]. by destruct Hsn; split.
  - apply Hput; try done. split; cbn; try done.
    eapply snap_inv_apply_own; [|done]. by destruct Hsn; split.
Qed.

Lemma release_preserves x name :
  sys_inv (sys_step σ (ORelease x name)) /\
  core_ext (core_of (mgr σ)) (core_of (mgr (sys_step σ (ORelease x name)))).
Proof.
  cbn [sys_step]. unfold on_handle. destruct (handles σ !! x) as [t|] eqn:Hx; [|done].
  unfold release_savepoint. destruct (release _ name) as [[sub stk]|e] eqn:Hrel; cbn; [|done].
  split; [|reflexivity]. destruct (si_handle _ Hσ x t Hx) as [Hxid Hpar Hwf Hro Hsn Hfl].
  destruct (release_fam _ _ _ _ _ Hwf Hrel) as (Hfam & Hrb & Hp).
  pose proof (release_wf _ _ _ _ _ Hwf Hrel) as Hwf'.
  apply (put_same x t); try done. split; cbn; try done; [by rewrite Hp| |].
  - by rewrite Hrb.
  - by eapply snap_inv_apply_own.
Qed.

Lemma savepoint_preserves x name :
  sys_inv (sys_step σ (OSavepoint x name)) /\
  core_ext (core_of (mgr σ)) (core_of (mgr (sys_step σ (OSavepoint x name)))).
Proof.
  cbn [sys_step]. unfold on_handle. destruct (handles σ !! x) as [t|] eqn:Hx; [|done].
  destruct (si_handle _ Hσ x t Hx) as [Hxid Hpar Hwf Hro Hsn Hfl].
  pose proof (begin_savepoint_core _ t name next_in_space) as Hcore.
  destruct (savepoint_wf alloc_in_progress (txn_subtxn_stack t) name (txn_current_command t) (mgr σ)
    (alloc_in_progress (mgr σ)).2 (tm_next_xid (mgr σ)) eq_refl Hwf)
    as (e & stk & Hsp & He & _ & Hst & Hme & Hrb & Hp & Hwf').
  unfold begin_savepoint in *. rewrite Hsp in *. cbn in Hcore |- *. rewrite Hxid in Hcore.
  pose proof (savepoint_ext _ _ (si_core _ Hσ) x) as Hext.
  assert (stk_fam stk = {[tm_next_xid (mgr σ)]} ∪ stk_fam (txn_subtxn_stack t)) as Hfam.
  { unfold stk_fam. rewrite Hst, Hme, fmap_app, list_to_set_app_L. cbn. rewrite He. set_solver. }
  rewrite Hxid. rewrite <- Hcore in Hext. split; [|done].
  apply sys_inv_put; [exact Hσ|exact Hext|by eapply handle_not_prepared| |done|].
  - rewrite Hcore. cbn. rewrite Hfam. apply savepoint_inv; [apply (si_core _ Hσ)|by apply handle_fam].
  - split; cbn; try done.
    + by rewrite Hp.
    + by rewrite next_no_wrap.
    + rewrite Hrb. intros y Hy. apply (ce_final _ _ Hext); [done|by apply Hro].
    + eapply snap_inv_apply_own; [|done]. by eapply snap_inv_ext.
Qed.

(** What [ROLLBACK TO] does to the stack and to the core. *)
Lemma rollback_effect x t name ab t' m' :
  handles σ !! x = Some t -> rollback_to_savepoint (mgr σ) t name = Ok (ab, t', m') ->
  exists stk, t' = apply_own_subxids (set_txn_stack t stk) /\
    subtxn_wf (tm_next_xid (mgr σ) + 1) stk /\ sm_parent_xid stk = x /\
    stk_fam stk = {[tm_next_xid (mgr σ)]} ∪ stk_fam (txn_subtxn_stack t) ∖ list_to_set ab /\
    list_to_set ab ⊆ stk_fam (txn_subtxn_stack t) /\
    (forall y, y ∈ sm_rolled_back stk <-> y ∈ sm_rolled_back (txn_subtxn_stack t) \/ y ∈ ab) /\
    core_of m' = move_abort (list_to_set ab) (move_savepoint x (core_of (mgr σ))) /\
    tm_snapshot_xmins m' = tm_snapshot_xmins (mgr σ).
Proof.
  intros Hx. destruct (si_handle _ Hσ x t Hx) as [Hxid Hpar Hwf Hro Hsn Hfl].
  unfold rollback_to_savepoint.
  destruct (rollback_to alloc_in_progress (txn_subtxn_stack t) name (mgr σ)) as [[[out stk] m1]|] eqn:Hrb;
    cbn [ok_or]; [|done]. intros [= <- <- <-].
  destruct (rollback_to_spec _ _ _ _ _ _ _ _ _ eq_refl Hwf Hrb)
    as (pos & target & _ & _ & -> & Hnew & Hab & _ & _ & Hrolled & Hp).
  pose proof (rollback_to_wf _ _ _ _ _ _ _ _ _ eq_refl Hwf Hrb) as Hwf'.
  destruct (rollback_fam _ _ _ _ _ _ _ _ _ eq_refl Hwf Hrb) as [Hsub Hfam].
  assert (foldl record_rolled_back stk (aborted out) = stk) as ->.
  { assert (forall y, y ∈ aborted out -> y ∈ sm_rolled_back stk) as Hin by (intros; apply Hrolled; by right).
    revert Hin. generalize (aborted out). induction l as [|y l IH]; intros Hin; cbn [foldl]; [done|].
    rewrite (record_rolled_back_wf _ _ _ Hwf') by (apply Hin; left). apply IH. intros z Hz.
    apply Hin. by right. }
  rewrite <- foldl_app, Hnew, Hxid.
  exists stk. split_and!; try done; [by rewrite Hp| |cbn [with_locks tm_snapshot_xmins]; by rewrite abort_subxids_floors].
  set (m1 := with_parents _ _).
  assert (core_of m1 = move_savepoint x (core_of (mgr σ))) as Hm1.
  { unfold m1, core_of, move_savepoint. cbn. by rewrite next_no_wrap. }
  change (core_of (foldl abort_subxid m1 (aborted out ++ rolled_back_subxids stk)) =
    move_abort (list_to_set (aborted out)) (move_savepoint x (core_of (mgr σ)))).
  rewrite abort_subxids_core.
  assert (filter (fun y => tm_clog m1 !! y = Some InProgress)
    (list_to_set (aborted out ++ rolled_back_subxids stk)) = (list_to_set (aborted out) : gset Z)) as ->.
  { apply set_eq. intros y. rewrite elem_of_filter, !elem_of_list_to_set, elem_of_app.
    unfold rolled_back_subxids. rewrite elem_of_elements, Hrolled.
    assert (y ∈ aborted out -> tm_clog (mgr σ) !! y = Some InProgress) as Hrun.
    { intros Hy. eapply (ci_sub _ _ (si_core _ Hσ)); [by eapply handle_fam|].
      apply Hsub. by apply elem_of_list_to_set. }
    assert (y ∈ sm_rolled_back (txn_subtxn_stack t) -> tm_clog (mgr σ) !! y = Some Aborted) as Hdead
      by apply Hro.
    assert (y ∈ aborted out \/ y ∈ sm_rolled_back (txn_subtxn_stack t) ->
      tm_clog m1 !! y = tm_clog (mgr σ) !! y) as Hold.
    { intros Hy. unfold m1. cbn. rewrite lookup_insert_ne; [done|]. intros <-.
      pose proof (next_fresh _ _ (si_core _ Hσ)) as Hfr. cbn in Hfr.
      destruct Hy as [Hy|Hy]; [rewrite Hrun in Hfr by done|rewrite Hdead in Hfr by done]; done. }
    split; [|intros Hy; split; [rewrite Hold by (by left); by apply Hrun|by left]]. intros [Hr Hy].
    assert (y ∈ aborted out \/ y ∈ sm_rolled_back (txn_subtxn_stack t)) as Hy' by tauto.
    rewrite Hold in Hr by done. destruct Hy'; [done|]. rewrite Hdead in Hr by done. done. }
  change (move_abort (list_to_set (aborted out)) (core_of m1) =
    move_abort (list_to_set (aborted out)) (move_savepoint x (core_of (mgr σ)))).
  by rewrite Hm1.
Qed.

Lemma rollback_preserves x name :
  sys_inv (sys_step σ (ORollbackTo x name)) /\
  core_ext (core_of (mgr σ)) (core_of (mgr (sys_step σ (ORollbackTo x name)))).
Proof.
  cbn [sys_step]. unfold on_handle. destruct (handles σ !! x) as [t|] eqn:Hx; [|done].
  destruct (rollback_to_savepoint (mgr σ) t name) as [[[ab t'] m']|] eqn:Hrb; [|done].
  destruct (rollback_effect _ _ _ _ _ _ Hx Hrb) as (stk & -> & Hwf' & Hp & Hfam & Hsub & Hrolled & Hcore & Hfl').
  destruct (si_handle _ Hσ x t Hx) as [Hxid Hpar Hwf Hro Hsn Hfl].
  pose proof (handle_fam _ _ Hx) as HF. pose proof (si_core _ Hσ) as Hc.
  pose proof (savepoint_ext _ _ Hc x) as Hext1. pose proof (savepoint_inv _ _ Hc x _ HF) as Hinv1.
  set (n := k_next (core_of (mgr σ))) in *.
  assert (n ∉ (list_to_set ab : gset Z)) as Hn.
  { intros Hin%Hsub. destruct (ci_sub _ _ Hc _ _ _ HF Hin) as [Hr _].
    by apply (running_below _ _ Hc) in Hr. }
  assert (core_ext (move_savepoint x (core_of (mgr σ))) (core_of m')) as Hext2.
  { rewrite Hcore. apply abort_ext. intros y Hy. eapply (ci_sub _ _ Hinv1).
    - by rewrite lookup_insert_eq.
    - set_solver. }
  assert (core_ext (core_of (mgr σ)) (core_of m')) as Hext by (by etrans).
  split; [|done].
  apply sys_inv_put; [exact Hσ|exact Hext|by eapply handle_not_prepared| |by rewrite Hfl'|].
  - rewrite Hcore. cbn [apply_own_subxids set_txn_snapshot set_txn_stack txn_subtxn_stack]. rewrite Hfam.
    pose proof (abort_inv _ _ Hinv1 x ({[n]} ∪ stk_fam (txn_subtxn_stack t)) (list_to_set ab)) as Hinv2.
    rewrite lookup_insert_eq, insert_insert_eq in Hinv2.
    replace ({[tm_next_xid (mgr σ)]} ∪ stk_fam (txn_subtxn_stack t) ∖ list_to_set ab)
      with (({[n]} ∪ stk_fam (txn_subtxn_stack t)) ∖ list_to_set ab) by (subst n; cbn in *; set_solver).
    apply Hinv2; [done|set_solver].
  - split; cbn; try done.
    + change (tm_next_xid m') with (k_next (core_of m')). by rewrite Hcore.
    + intros y [Hy|Hy]%Hrolled; [by apply (ce_final _ _ Hext), Hro|].
      change (tm_clog m') with (k_clog (core_of m')). rewrite Hcore. cbn. rewrite lookup_kill.
      by rewrite decide_True by (by apply elem_of_list_to_set).
    + eapply snap_inv_apply_own; [|done]. by eapply snap_inv_ext.
    + by rewrite Hfl'.
Qed.

(** A family is made of running transactions. *)
Lemma family_running x F l :
  sys_fams σ !! x = Some F -> list_to_set l = F ->
  tm_clog (mgr σ) !! x = Some InProgress /\
  (forall y, y ∈ l -> tm_clog (mgr σ) !! y = Some InProgress) /\ x ∉ l.
Proof.
  intros HF Hl. destruct (ci_top _ _ (si_core _ Hσ) _ _ HF) as [Hx Hp].
  assert (forall y, y ∈ l -> y ∈ F) as Hin by (intros y Hy; rewrite <- Hl; by apply elem_of_list_to_set).
  split_and!; [done|intros y Hy; by eapply (ci_sub _ _ (si_core _ Hσ)), Hin|].
  intros Hx'. destruct (ci_sub _ _ (si_core _ Hσ) _ _ _ HF (Hin _ Hx')). congruence.
Qed.

Lemma end_core_ext x F st m' :
  is_terminal st = true -> sys_fams σ !! x = Some F ->
  core_of m' = move_end x F st (core_of (mgr σ)) -> core_ext (core_of (mgr σ)) (core_of m').
Proof.
  intros Hst HF ->. apply (end_ext _ _ (si_core _ Hσ)); [done|].
  intros y [->%elem_of_singleton|Hy]%elem_of_union.
  - by eapply (ci_top _ _ (si_core _ Hσ)).
  - by eapply (ci_sub _ _ (si_core _ Hσ)).
Qed.

Lemma handle_end x t m' st :
  handles σ !! x = Some t -> is_terminal st = true ->
  ended (mgr σ) t (committed_subxid_family t) st m' ->
  sys_inv (mk_sys m' (delete x (handles σ)) (prepared σ)) /\ core_ext (core_of (mgr σ)) (core_of m').
Proof.
  intros Hx Hst [Hc Hf]. pose proof (handle_fam _ _ Hx) as HF.
  rewrite committed_family_set, (hi_xid _ _ _ _ (si_handle _ Hσ x t Hx)) in Hc.
  rewrite (hi_xid _ _ _ _ (si_handle _ Hσ x t Hx)) in Hf.
  pose proof (end_core_ext _ _ _ _ Hst HF Hc) as Hext. split; [|done].
  apply sys_inv_remove; [exact Hσ|exact Hext|by eapply handle_not_prepared| |].
  - rewrite Hc. apply end_inv; [apply (si_core _ Hσ)|done|done].
  - intros z Hz. by rewrite Hf, lookup_delete_ne.
Qed.

Lemma handle_family_running x t :
  handles σ !! x = Some t ->
  tm_clog (mgr σ) !! txn_xid t = Some InProgress /\
  (forall y, y ∈ committed_subxid_family t -> tm_clog (mgr σ) !! y = Some InProgress) /\
  txn_xid t ∉ committed_subxid_family t.
Proof.
  intros Hx. rewrite (hi_xid _ _ _ _ (si_handle _ Hσ x t Hx)).
  eapply family_running; [by apply handle_fam|apply committed_family_set].
Qed.

Lemma commit_preserves x :
  sys_inv (sys_step σ (OCommit x)) /\ core_ext (core_of (mgr σ)) (core_of (mgr (sys_step σ (OCommit x)))).
Proof.
  cbn [sys_step]. unfold on_handle. destruct (handles σ !! x) as [t|] eqn:Hx; [|done].
  destruct (handle_family_running _ _ Hx) as (H1 & H2 & H3).
  destruct (commit_ended _ _ H1 H2 H3) as (st & Hst & He & _). by apply (handle_end x t _ st).
Qed.

Lemma abort_preserves x :
  sys_inv (sys_step σ (OAbort x)) /\ core_ext (core_of (mgr σ)) (core_of (mgr (sys_step σ (OAbort x)))).
Proof.
  cbn [sys_step]. unfold on_handle. destruct (handles σ !! x) as [t|] eqn:Hx; [|done].
  destruct (handle_family_running _ _ Hx) as (H1 & H2 & H3).
  destruct (abort_ended _ _ H1 H2 H3) as (m' & -> & He). by apply (handle_end x t _ Aborted).
Qed.

Lemma finalize_preserves x :
  sys_inv (sys_step σ (OFinalizeVisible x)) /\
  core_ext (core_of (mgr σ)) (core_of (mgr (sys_step σ (OFinalizeVisible x)))).
Proof.
  cbn [sys_step]. unfold on_handle. destruct (handles σ !! x) as [t|] eqn:Hx; [|done].
  destruct (handle_family_running _ _ Hx) as (H1 & H2 & H3).
  destruct (finalize_ended _ _ _ H1 H2 H3) as (m' & -> & He). by apply (handle_end x t _ Committed).
Qed.

Lemma resolve_preserves x b :
  sys_inv (sys_step σ (OResolvePrepared x b)) /\
  core_ext (core_of (mgr σ)) (core_of (mgr (sys_step σ (OResolvePrepared x b)))).
Proof.
  cbn [sys_step]. destruct (prepared σ !! x) as [l|] eqn:Hx; [|done].
  pose proof (prepared_fam _ _ Hx) as HF.
  destruct (family_running x _ l HF eq_refl) as (H1 & H2 & H3).
  set (st := if b then Committed else Aborted). assert (is_terminal st = true) as Hst by (by destruct b).
  unfold finalise_prepared.
  destruct (terminate_running (mgr σ) x l st true Hst H1 H3 H2) as (m' & -> & Hc & Hf & _).
  cbn [fst mgr].
  pose proof (end_core_ext x _ st
    (forget_subxid_parents (with_locks m' (release_all (tm_lock_manager m') x)) l) Hst HF Hc) as Hext.
  split; [|exact Hext].
  apply sys_inv_resolve; [exact Hσ|exact Hext| | |].
  - apply elem_of_dom_2 in Hx. pose proof (si_disj _ Hσ). set_solver.
  - replace (core_of _) with (move_end x (list_to_set l) st (core_of (mgr σ))).
    apply end_inv; [apply (si_core _ Hσ)|done|done].
  - intros z Hz. cbn. by rewrite Hf, lookup_delete_ne.
Qed.

Lemma prepare_preserves x :
  sys_inv (sys_step σ (OPrepare x)) /\ core_ext (core_of (mgr σ)) (core_of (mgr (sys_step σ (OPrepare x)))).
Proof.
  cbn [sys_step]. unfold on_handle. destruct (handles σ !! x) as [t|] eqn:Hx; [|done].
  split; [|reflexivity]. destruct Hσ as [Hc Hd Hh]. split; cbn.
  - replace (sys_fams _) with (sys_fams σ); [done|]. apply map_eq. intros z. unfold sys_fams. cbn.
    rewrite fmap_delete, fmap_insert, !lookup_union, lookup_delete, lookup_insert, !lookup_fmap.
    case_decide as Hz; [|done]. subst z. rewrite Hx, committed_family_set. cbn.
    assert (prepared σ !! x = None) as -> by (apply not_elem_of_dom; by eapply handle_not_prepared).
    done.
  - rewrite dom_delete_L, dom_insert_L. set_solver.
  - intros z u [Hz Hu]%lookup_delete_Some. by apply Hh.
Qed.
End steps.

(** Operations on the SSI graph and the lock table leave the commit log
    alone. *)
Lemma side_preserves σ m' :
  sys_inv σ -> core_of m' = core_of (mgr σ) -> tm_snapshot_xmins m' = tm_snapshot_xmins (mgr σ) ->
  sys_inv (mk_sys m' (handles σ) (prepared σ)) /\ core_ext (core_of (mgr σ)) (core_of m').
Proof. intros Hσ Hc Hf. split; [by apply sys_inv_same; try done; rewrite Hc|by rewrite Hc]. Qed.

Lemma step_preserves σ σ' :
  sys_inv σ -> sstep σ σ' -> sys_inv σ' /\ core_ext (core_of (mgr σ)) (core_of (mgr σ')).
Proof.
  intros Hσ [op Hspace]. destruct op; eauto using begin_preserves, refresh_preserves, savepoint_preserves,
    rollback_preserves, release_preserves, finalize_preserves, commit_preserves, abort_preserves,
    prepare_preserves, resolve_preserves; cbn [sys_step mgr].
  - unfold on_handle. destruct (handles σ !! x) as [t|]; [|done].
    destruct (check_serializable_core (mgr σ) t) as (Hc & Hf & _). by apply side_preserves.
  - by apply side_preserves.
  - by apply side_preserves.
  - apply side_preserves; [done|..]; unfold tm_record_write_conflicts; destruct (tm_ssi (mgr σ)) as [s|];
      try done; by destruct (record_write_conflicts s x tag).
  - apply side_preserves; [done|..]; unfold collect_ssi_garbage; destruct (tm_ssi (mgr σ)) as [s|];
      try done; by destruct (collect_garbage s _).
  - by apply side_preserves.
Qed.

Lemma init_inv ssi : sys_inv (sys_init ssi).
Proof.
  split; cbn; [|set_solver|by intros x t Hx; rewrite lookup_empty in Hx].
  split; cbn; try done. intros x [st Hx]. by rewrite lookup_empty in Hx.
Qed.

Lemma reach_inv σ σ' :
  sys_inv σ -> rtc sstep σ σ' -> sys_inv σ' /\ core_ext (core_of (mgr σ)) (core_of (mgr σ')).
Proof.
  intros Hσ Hr. induction Hr as [|σ σ1 σ2 Hstep _ IH]; [done|].
  destruct (step_preserves _ _ Hσ Hstep) as [Hσ1 He]. destruct (IH Hσ1) as [Hσ2 He'].
  split; [done|]. by etrans.
Qed.

Lemma reachable_inv ssi σ : reachable ssi σ -> sys_inv σ.
Proof. intros Hr. by apply (reach_inv _ _ (init_inv ssi) Hr). Qed.
