(* ===== verification/TxnRace.v ===== *)
(** * Interleavings of [begin] (ultrasql-txn, manager.rs)

    [TransactionManager::begin] is not one critical section: it takes the XID
    from an atomic counter, then inserts it in the commit log and in the
    active set, then builds its snapshot, then records the snapshot's floor
    for vacuum. Here the phases are separate steps, in the order of the code,
    so that another thread's operation can fall between two of them. *)

From S2P Require Import Prelude CoreIds TupleHeader Snapshot Visibility Savepoint Lock Ssi TxnManager.

(** [self.next_xid.fetch_add(1)] *)
Definition begin_fetch_xid (m : TransactionManager) : Xid * TransactionManager :=
  (tm_next_xid m, with_next_xid m (wrapping_add U64 (tm_next_xid m) 1)).

(** [self.clog.insert(..)] and [self.in_progress.lock().insert(..)] *)
Definition begin_publish (m : TransactionManager) (xid : Xid) : TransactionManager :=
  with_clog m (<[xid := InProgress]> (tm_clog m)) ({[xid]} ∪ tm_in_progress m).

(** [self.build_snapshot(..)] *)
Definition begin_snapshot (m : TransactionManager) (xid : Xid) : Snapshot :=
  build_snapshot m xid CommandId_FIRST OwnSubxids_empty.

(** [self.snapshot_xmins.lock().insert(..)] *)
Definition begin_record_floor (m : TransactionManager) (xid : Xid) (s : Snapshot) : TransactionManager :=
  with_xmins m (<[xid := snap_xmin s]> (tm_snapshot_xmins m)).

(** The handle, and the SSI registration of a serializable transaction. *)
Definition begin_finish (m : TransactionManager) (xid : Xid) (s : Snapshot) (isolation : IsolationLevel)
  : Transaction * TransactionManager :=
  (mk_Transaction xid s isolation false Lsn_ZERO CommandId_FIRST (SubtxnManager_new xid),
   if bool_decide (isolation = Serializable) then register_serializable m xid else m).

(** With nothing in between, the phases are [begin]. *)
Lemma begin_phases m isolation :
  begin m isolation =
  let '(xid, m) := begin_fetch_xid m in
  let m := begin_publish m xid in
  let s := begin_snapshot m xid in
  begin_finish (begin_record_floor m xid s) xid s isolation.
Proof. reflexivity. Qed.

(** ** A snapshot between the counter and the active set *)

(** The writer has taken XID 3 from the counter, and is not in the active
    set yet. *)
Definition writer_half_begun : TransactionManager := snd (begin_fetch_xid TransactionManager_new).

(** The reader begins there, as a whole. *)
Definition reader_begun : Transaction * TransactionManager := begin writer_half_begun RepeatableRead.
Definition reader_snapshot : Snapshot := txn_snapshot (fst reader_begun).

(** The writer carries on, and inserts a row. *)
Definition writer_begun : Transaction * TransactionManager :=
  let m := begin_publish (snd reader_begun) 3 in
  let s := begin_snapshot m 3 in
  begin_finish (begin_record_floor m 3 s) 3 s ReadCommitted.
Definition written_row : TupleHeader :=
  fresh (txn_write_xid (fst writer_begun)) 0 (mk_TupleId (mk_PageId 1 0) 0) 1.

(** A snapshot taken while another [begin] is between its [fetch_add] and
    its insertion in the active set is not stable: the newcomer is below the
    snapshot's [xmax] and in no in-progress list, so its row, invisible while
    it runs, becomes visible to the repeatable-read snapshot once it commits. *)
Theorem begin_race_breaks_snapshot :
  is_visible written_row reader_snapshot (snd writer_begun) = Invisible /\
  is_ok (snd (commit (snd writer_begun) (fst writer_begun))) = true /\
  is_visible written_row reader_snapshot (fst (commit (snd writer_begun) (fst writer_begun))) = Visible.
Proof. vm_compute. done. Qed.

(** ** Vacuum between the snapshot and its floor *)

(** The deleter, XID 3, runs and has deleted a bootstrap row. *)
Definition deleter : Transaction * TransactionManager := begin TransactionManager_new ReadCommitted.
Definition deleted_row : TupleHeader :=
  mark_deleted (fresh Xid_BOOTSTRAP 0 (mk_TupleId (mk_PageId 1 0) 0) 1) (txn_write_xid (fst deleter)) 0.

(** The reader, XID 4, has built its snapshot and not recorded its floor. *)
Definition reader_published : TransactionManager :=
  begin_publish (snd (begin_fetch_xid (snd deleter))) 4.
Definition unfloored_snapshot : Snapshot := begin_snapshot reader_published 4.

(** The deleter commits, and vacuum computes its horizon. *)
Definition deleter_committed : TransactionManager := fst (commit reader_published (fst deleter)).

(** A vacuum that runs while a [begin] is between building its snapshot
    and recording the snapshot's floor uses a horizon above a deleter that
    the snapshot still sees as running: the dead row is below the horizon,
    yet the new transaction is entitled to see it. *)
Theorem begin_race_breaks_vacuum_horizon :
  xmax deleted_row < vacuum_horizon deleter_committed /\
  status deleter_committed (xmax deleted_row) = Committed /\
  is_visible deleted_row unfloored_snapshot deleter_committed = Visible.
Proof. vm_compute. done. Qed.
