(* ===== verification/TxnIsolation.v ===== *)
(** * Isolation theorems of the transaction manager

    What the reachable states of [TxnSystem] guarantee to readers: stable
    snapshots, atomic family commit, final outcomes, safe horizons, and a
    commit log that survives a checkpoint. *)

From S2P Require Import Prelude CoreIds TupleHeader Snapshot Visibility Savepoint Lock Ssi TxnManager TxnSystem.

(** ** The oracle *)

Section oracle.
Context (m : TransactionManager) (fams : gmap Z (gset Z)) (Hm : core_inv (core_of m) fams).

Lemma clog_key_normal y st : tm_clog m !! y = Some st -> 3 <= y < tm_next_xid m.
Proof. intros Hy. apply (ci_dom _ _ Hm y). by eexists. Qed.

Lemma status_terminal y st :
  is_terminal st = true -> tm_clog m !! y = Some st -> status m y = st.
Proof.
  intros Hst Hy. pose proof (clog_key_normal y st Hy). unfold status, TransactionManager_oracle.
  unfold Xid_FROZEN, Xid_BOOTSTRAP, clog_status. rewrite Hy.
  rewrite (proj2 (Z.eqb_neq y 2)), (proj2 (Z.eqb_neq y 1)) by lia. by destruct st.
Qed.

Lemma status_unknown y :
  tm_clog m !! y = None ->
  status m y = if y =? Xid_FROZEN then Frozen else if y =? Xid_BOOTSTRAP then Committed else InProgress.
Proof.
  intros Hy. unfold status, TransactionManager_oracle. destruct (y =? Xid_FROZEN); [done|].
  destruct (y =? Xid_BOOTSTRAP); [done|]. unfold clog_status. rewrite Hy. cbn.
  destruct (tm_subxid_parent m !! y) as [p|] eqn:Hp; [|done].
  destruct (ci_pdom _ _ Hm _ _ Hp) as [st Hs]. cbn in Hs. congruence.
Qed.

(** A running transaction reads as running, a subtransaction through its
    parent. *)
Lemma status_running y : tm_clog m !! y = Some InProgress -> status m y = InProgress.
Proof.
  intros Hy. pose proof (clog_key_normal y _ Hy). unfold status, TransactionManager_oracle.
  unfold Xid_FROZEN, Xid_BOOTSTRAP, clog_status. rewrite Hy.
  rewrite (proj2 (Z.eqb_neq y 2)), (proj2 (Z.eqb_neq y 1)) by lia. cbn.
  destruct (tm_subxid_parent m !! y) as [p|] eqn:Hp; [|done].
  destruct (ci_children _ _ Hm _ _ Hp Hy) as (F & HF & Hin).
  destruct (ci_top _ _ Hm _ _ HF) as [Hpr _]. cbn in Hpr. rewrite Hpr. by destruct (p =? y).
Qed.
End oracle.

Lemma status_ext σ σ' y :
  sys_inv σ -> sys_inv σ' -> core_ext (core_of (mgr σ)) (core_of (mgr σ')) ->
  y < tm_next_xid (mgr σ) -> tm_clog (mgr σ) !! y <> Some InProgress ->
  status (mgr σ) y = status (mgr σ') y.
Proof.
  intros Hσ Hσ' He Hy Hnr. destruct (tm_clog (mgr σ) !! y) as [st|] eqn:Hc.
  - assert (is_terminal st = true) as Hst by (by destruct st).
    rewrite (status_terminal _ _ (si_core _ Hσ) y st), (status_terminal _ _ (si_core _ Hσ') y st); try done.
    by apply (ce_final _ _ He).
  - rewrite (status_unknown _ _ (si_core _ Hσ)), (status_unknown _ _ (si_core _ Hσ')); try done.
    by apply (ce_unknown _ _ He).
Qed.

(** ** What a handle's snapshot takes for resolved *)

Section reader.
Context (σ : sys) (Hσ : sys_inv σ) (x : Xid) (t : Transaction) (Hx : handles σ !! x = Some t).

Lemma resolved_bounds y :
  xid_in_progress (txn_snapshot t) y = false ->
  y < snap_xmax (txn_snapshot t) /\ y ∉ xip (txn_snapshot t).
Proof.
  intros Hr. destruct (hi_snap _ _ _ _ (si_handle _ Hσ x t Hx)) as [Hwf _ Hxmax Hxip _ _ _].
  pose proof (xid_in_progress_spec _ y Hwf) as Hs. rewrite Hr in Hs.
  destruct (Z.lt_ge_cases y (snap_xmin (txn_snapshot t))).
  - split; [lia|]. intros Hin%Hxip. lia.
  - split; [|intros Hin]; destruct Hs as [_ Hs].
    + destruct (Z.lt_ge_cases y (snap_xmax (txn_snapshot t))); [done|].
      by discriminate Hs; split; [|left].
    + by discriminate Hs; split; [|right].
Qed.

(** A running transaction that the snapshot takes for resolved belongs to
    the reader. *)
Lemma resolved_running_own y :
  xid_in_progress (txn_snapshot t) y = false -> tm_clog (mgr σ) !! y = Some InProgress ->
  y = x \/ y ∈ stk_fam (txn_subtxn_stack t).
Proof.
  intros [Hlt Hno]%resolved_bounds Hrun.
  destruct (sn_resolved _ _ _ _ _ (hi_snap _ _ _ _ (si_handle _ Hσ x t Hx)) y Hlt Hno Hrun) as [|Hp];
    [by left|right].
  destruct (ci_children _ _ (si_core _ Hσ) _ _ Hp Hrun) as (F & HF & Hin).
  rewrite (handle_fam _ _ _ Hx) in HF. by simplify_eq.
Qed.

Lemma own_is_current y :
  y = x \/ y ∈ stk_fam (txn_subtxn_stack t) -> is_current_xid (txn_snapshot t) y = true.
Proof.
  destruct (hi_snap _ _ _ _ (si_handle _ Hσ x t Hx)) as [Hwf Hcur _ _ _ Hlive _].
  rewrite (is_current_xid_spec _ _ Hwf), Hcur, Hlive. done.
Qed.

Lemma resolved_not_running y :
  xid_in_progress (txn_snapshot t) y = false -> is_current_xid (txn_snapshot t) y = false ->
  y < tm_next_xid (mgr σ) /\ tm_clog (mgr σ) !! y <> Some InProgress.
Proof.
  intros Hr Hc. split.
  - destruct (resolved_bounds y Hr) as [Hlt _].
    pose proof (sn_xmax _ _ _ _ _ (hi_snap _ _ _ _ (si_handle _ Hσ x t Hx))). cbn in *. lia.
  - intros Hrun. rewrite (own_is_current y) in Hc; [done|]. by apply resolved_running_own.
Qed.
End reader.


(** Transaction 3 reads; transaction 4 writes under a savepoint (5), releases
    it and commits. *)
Definition example_open : sys :=
  foldl sys_step (sys_init None)
    [OBegin RepeatableRead; OBegin ReadCommitted; OSavepoint 4 "s"; ORelease 4 "s"].

Definition example_committed : sys := sys_step example_open (OCommit 4).

Lemma example_open_reachable : reachable None example_open.
Proof.
  apply (run_ops_reach _ [OBegin RepeatableRead; OBegin ReadCommitted; OSavepoint 4 "s"; ORelease 4 "s"]).
  vm_compute. reflexivity.
Defined.

Lemma example_commit_step : rtc sstep example_open example_committed.
Proof. apply (run_ops_reach _ [OCommit 4]). vm_compute. reflexivity. Defined.

Definition example_header : TupleHeader := fresh 5 0 (mk_TupleId (mk_PageId 1 0) 0) 1.


(** ** Atomic commit *)

Lemma fresh_snapshot_sees m fams y cur cmd own :
  core_inv (core_of m) fams -> tm_clog m !! y = Some Committed ->
  is_committed_before_snapshot y (build_snapshot m cur cmd own) m = true.
Proof.
  intros Hm Hy. unfold is_committed_before_snapshot.
  rewrite (status_terminal m fams Hm y Committed eq_refl Hy). cbn.
  assert (snapshot_wf (build_snapshot m cur cmd own)) as Hwf.
  { unfold build_snapshot. case_match; auto with ultra. }
  assert (snap_xmax (build_snapshot m cur cmd own) = tm_next_xid m /\
    (y ∈ xip (build_snapshot m cur cmd own) -> y ∈ tm_in_progress m)) as [Hmax Hxip].
  { unfold build_snapshot. case_match; cbn; rewrite elem_of_sort, elem_of_snapshot_xip; tauto. }
  destruct (xid_in_progress _ y) eqn:E; [|done]. exfalso.
  apply (xid_in_progress_spec _ _ Hwf) in E as [_ [Hle|Hin]].
  - pose proof (clog_key_normal m fams Hm y _ Hy). lia.
  - apply Hxip, (ci_active _ _ Hm) in Hin. cbn in Hin. congruence.
Qed.



(** ** Outcomes *)

(** Outcomes are final and XIDs are not reused: once the commit log holds
    a terminal status for an XID, every later state reports that status, and
    a transaction that begins later gets an XID the log has never held. *)
Theorem outcome_final ssi σ σ' y st iso :
  reachable ssi σ -> rtc sstep σ σ' -> tm_clog (mgr σ) !! y = Some st -> is_terminal st = true ->
  status (mgr σ') y = st /\ txn_xid (begin (mgr σ') iso).1 <> y /\
  tm_clog (mgr σ') !! txn_xid (begin (mgr σ') iso).1 = None.
Proof.
  intros Hr Hs Hy Hst. destruct (reach_inv _ _ (reachable_inv _ _ Hr) Hs) as [Hσ' He].
  assert (tm_clog (mgr σ') !! y = Some st) as Hy' by (by apply (ce_final _ _ He)).
  pose proof (next_fresh _ _ (si_core _ Hσ')) as Hfr. cbn in Hfr |- *.
  split; [by eapply status_terminal; [apply (si_core _ Hσ')|..]|]. split; [|done].
  intros Heq. congruence.
Qed.

Lemma outcome_final_witness : status (mgr example_committed) 5 = Committed.
Proof.
  apply (outcome_final None example_committed example_committed 5 Committed ReadCommitted);
    [|apply rtc_refl|vm_compute; reflexivity|reflexivity].
  unfold reachable. etransitivity; [exact example_open_reachable|exact example_commit_step].
Defined.

(** No dirty reads through savepoints: while a transaction is open or
    prepared, the oracle answers "in progress" for it and for every
    subtransaction it has set and not rolled back, released or not, so no
    snapshot of anybody else sees their writes. *)
Theorem open_family_hidden ssi σ x F y s :
  reachable ssi σ -> sys_fams σ !! x = Some F -> y = x \/ y ∈ F ->
  status (mgr σ) y = InProgress /\ is_committed_before_snapshot y s (mgr σ) = false.
Proof.
  intros Hr HF Hy. pose proof (reachable_inv _ _ Hr) as Hσ.
  assert (status (mgr σ) y = InProgress) as Hst.
  { apply (status_running _ _ (si_core _ Hσ)). destruct Hy as [->|Hy].
    - by eapply (ci_top _ _ (si_core _ Hσ)).
    - by eapply (ci_sub _ _ (si_core _ Hσ)). }
  split; [done|]. unfold is_committed_before_snapshot. rewrite Hst. by destruct (xid_in_progress s y).
Qed.

Lemma open_family_hidden_witness : status (mgr example_open) 5 = InProgress.
Proof.
  apply (open_family_hidden None example_open 4 {[5]} 5 (Snapshot_new 0 0 0 0 []) example_open_reachable);
    [vm_compute; reflexivity|right; by apply elem_of_singleton].
Defined.

(** ** Horizons *)

Lemma oldest_in_progress_le m x : tm_clog m !! x = Some InProgress -> oldest_in_progress m <= x.
Proof.
  intros Hx. unfold oldest_in_progress.
  assert (x ∈ List.filter (fun x => bool_decide (tm_clog m !! x = Some InProgress))
    (map_to_list (tm_clog m)).*1) as Hin.
  { apply list_elem_of_In, List.filter_In. split; [|by apply bool_decide_eq_true].
    apply list_elem_of_In, list_elem_of_fmap. exists (x, InProgress). by rewrite elem_of_map_to_list. }
  pose proof (min_xid_spec (List.filter (fun x => bool_decide (tm_clog m !! x = Some InProgress))
    (map_to_list (tm_clog m)).*1)) as Hmin.
  destruct (min_xid _); cbn; [by apply Hmin|]. rewrite Hmin in Hin. by apply not_elem_of_nil in Hin.
Qed.

Lemma vacuum_horizon_floor m x f : tm_snapshot_xmins m !! x = Some f -> vacuum_horizon m <= f.
Proof.
  intros Hx. unfold vacuum_horizon.
  pose proof (min_xid_spec (map_to_list (tm_snapshot_xmins m)).*2) as Hmin.
  assert (f ∈ (map_to_list (tm_snapshot_xmins m)).*2) as Hin.
  { apply list_elem_of_fmap. exists (x, f). by rewrite elem_of_map_to_list. }
  destruct (min_xid _) as [z|]; [|rewrite Hmin in Hin; by apply not_elem_of_nil in Hin].
  destruct Hmin as [_ Hmin]. specialize (Hmin f Hin). destruct (Z.ltb_spec z (oldest_in_progress m)); lia.
Qed.

(** The vacuum horizon is safe: a row version whose deleter committed
    and lies below the horizon is invisible to every open transaction and to
    every snapshot built later, so its slot can be reclaimed. (The deleter
    did not update in place, and a row the reader inserted itself was deleted
    by nobody else.) *)
Theorem vacuum_horizon_safe ssi σ h :
  reachable ssi σ -> tm_clog (mgr σ) !! xmax h = Some Committed -> xmax h < vacuum_horizon (mgr σ) ->
  mask_is_frozen (infomask h) = false -> mask_contains (infomask h) UPDATED_IN_PLACE = false ->
  (forall x t, handles σ !! x = Some t -> header_ok (txn_snapshot t) h ->
     is_visible h (txn_snapshot t) (mgr σ) = Invisible) /\
  (forall σ' cur cmd own, rtc sstep σ σ' ->
     is_committed_before_snapshot (xmax h) (build_snapshot (mgr σ') cur cmd own) (mgr σ') = true).
Proof.
  intros Hr Hd Hlt Hfz Hip. pose proof (reachable_inv _ _ Hr) as Hσ. split.
  - intros x t Hx Hok. destruct (si_handle _ Hσ x t Hx) as [Hxid Hpar Hwf Hro Hsn Hfl].
    pose proof (vacuum_horizon_floor _ _ _ Hfl) as Hhor. destruct Hsn as [Hswf Hcur _ _ _ Hlive Hrb].
    pose proof (clog_key_normal _ _ (si_core _ Hσ) _ _ Hd) as Hnormal.
    assert (~ own (txn_snapshot t) (xmax h)) as Hown.
    { intros [Heq|Hin%Hlive].
      - rewrite Hcur in Heq. destruct (ci_top _ _ (si_core _ Hσ) _ _ (handle_fam _ _ _ Hx)) as [Hrun _].
        cbn in Hrun. congruence.
      - destruct (ci_sub _ _ (si_core _ Hσ) _ _ _ (handle_fam _ _ _ Hx) Hin) as [Hrun _].
        cbn in Hrun. congruence. }
    assert (~ rolled_back (txn_snapshot t) (xmax h)) as Hrolled.
    { intros Hin%Hrb%Hro. cbn in Hin. congruence. }
    assert (xmax h <> Xid_INVALID) as Hinv by (unfold Xid_INVALID; lia).
    assert (is_committed_before_snapshot (xmax h) (txn_snapshot t) (mgr σ) = true) as Hcomm.
    { apply is_committed_before_spec; [done|]. rewrite (status_terminal _ _ (si_core _ Hσ) _ Committed eq_refl Hd).
      split; [lia|by left]. }
    unfold is_visible. rewrite Hfz, Hip.
    destruct (own_subxid_rolled_back _ (xmin h)); [done|]. destruct (Xid_is_invalid (xmin h)); [done|].
    destruct (own_reflect (txn_snapshot t) (xmin h) Hswf) as [Hmin|Hmin].
    { apply Hok in Hmin as [?|[?|?]]; done. }
    destruct (negb _); [done|]. destruct (invalid_reflect (xmax h)); [done|].
    destruct (rolled_back_reflect (txn_snapshot t) (xmax h) Hswf); [done|].
    destruct (own_reflect (txn_snapshot t) (xmax h) Hswf); [done|]. by rewrite Hcomm.
  - intros σ' cur cmd own Hs. destruct (reach_inv _ _ Hσ Hs) as [Hσ' He].
    apply (fresh_snapshot_sees _ _ _ cur cmd own (si_core _ Hσ')). by apply (ce_final _ _ He).
Qed.

Definition example_vacuum : sys :=
  foldl sys_step (sys_init None) [OBegin ReadCommitted; OCommit 3; OBegin RepeatableRead].

Definition example_dead : TupleHeader :=
  mark_deleted (fresh 1 0 (mk_TupleId (mk_PageId 1 0) 0) 1) 3 0.

Lemma vacuum_horizon_safe_witness :
  exists t, handles example_vacuum !! 4 = Some t /\
    is_visible example_dead (txn_snapshot t) (mgr example_vacuum) = Invisible.
Proof.
  destruct (handles example_vacuum !! 4) as [t|] eqn:E; [|vm_compute in E; discriminate E].
  exists t. split; [reflexivity|].
  refine (proj1 (vacuum_horizon_safe None example_vacuum example_dead _ _ _ _ _) 4 t E _).
  - apply (run_ops_reach _ [OBegin ReadCommitted; OCommit 3; OBegin RepeatableRead]).
    vm_compute. reflexivity.
  - vm_compute. reflexivity.
  - vm_compute. reflexivity.
  - vm_compute. reflexivity.
  - vm_compute. reflexivity.
  - vm_compute in E. injection E as <-. intros [H|H]; [vm_compute in H; discriminate H|].
    vm_compute in H. inversion H.
Defined.

(** SSI garbage collection is safe: an entry it retires belongs to a
    transaction that committed before every open or prepared transaction
    began, so none of them is concurrent with it. *)
Theorem ssi_gc_safe ssi σ s y e :
  reachable ssi σ -> tm_ssi (mgr σ) = Some s -> s !! y = Some e ->
  (collect_garbage s (oldest_in_progress (mgr σ))).1 !! y = None ->
  exists h, commit_horizon e = Some h /\ forall z F, sys_fams σ !! z = Some F -> h <= z.
Proof.
  intros Hr Hs He Hg. pose proof (reachable_inv _ _ Hr) as Hσ. cbn in Hg.
  apply map_lookup_filter_None in Hg as [Hg|Hg]; [congruence|]. specialize (Hg e He). cbn in Hg.
  apply not_false_is_true in Hg. unfold retire in Hg.
  apply andb_true_iff in Hg as [_ Hg]. destruct (commit_horizon e) as [h|]; [|done].
  exists h. split; [done|]. intros z F HF.
  destruct (ci_top _ _ (si_core _ Hσ) _ _ HF) as [Hrun _].
  pose proof (oldest_in_progress_le _ _ Hrun). lia.
Qed.

(** A serializable transaction commits, then another begins. *)
Definition example_ssi : sys :=
  foldl sys_step (sys_init (Some ∅)) [OBegin Serializable; OCommit 3; OBegin Serializable].

Lemma ssi_gc_safe_witness :
  exists s e h, tm_ssi (mgr example_ssi) = Some s /\ s !! 3 = Some e /\ commit_horizon e = Some h /\
    forall z F, sys_fams example_ssi !! z = Some F -> h <= z.
Proof.
  destruct (tm_ssi (mgr example_ssi)) as [s|] eqn:E; [|vm_compute in E; discriminate E].
  destruct (s !! 3) as [e|] eqn:E3.
  2: { vm_compute in E. injection E as <-. vm_compute in E3. discriminate E3. }
  destruct (ssi_gc_safe (Some ∅) example_ssi s 3 e) as (h & Hh & Hz); [|exact E|exact E3| |].
  - apply (run_ops_reach _ [OBegin Serializable; OCommit 3; OBegin Serializable]).
    vm_compute. reflexivity.
  - vm_compute in E. injection E as <-. vm_compute. reflexivity.
  - exists s, e, h. split; [reflexivity|]. split; [exact E3|]. split; [exact Hh|exact Hz].
Defined.

(** * Checkpoint and recovery of the commit log (ultrasql-txn, manager.rs) *)

Lemma recover_observed_fields m x :
  tm_clog (recover_observed_xid m x) = tm_clog m /\
  tm_in_progress (recover_observed_xid m x) = tm_in_progress m /\
  tm_subxid_parent (recover_observed_xid m x) = tm_subxid_parent m.
Proof. unfold recover_observed_xid, raise_next_xid. by repeat case_match. Qed.

Lemma recover_observed_next m x :
  tm_next_xid (recover_observed_xid m x) =
  if is_sentinel x then tm_next_xid m else Z.max (tm_next_xid m) (saturating_add U64 x 1).
Proof.
  unfold recover_observed_xid, raise_next_xid. destruct (is_sentinel x); [done|].
  destruct (Z.ltb_spec (tm_next_xid m) (saturating_add U64 x 1)); cbn; lia.
Qed.

Lemma import_entry_fields m x st :
  (forall y, tm_clog (import_entry m (x, st)) !! y =
     match tm_clog m !! y with
     | Some s => Some s
     | None => if decide (y = x) then if is_terminal st && negb (is_sentinel x) then Some st else None
               else None
     end) /\
  tm_in_progress (import_entry m (x, st)) ⊆ tm_in_progress m /\
  tm_subxid_parent (import_entry m (x, st)) = tm_subxid_parent m /\
  tm_next_xid (import_entry m (x, st)) =
    if is_sentinel x then tm_next_xid m else Z.max (tm_next_xid m) (saturating_add U64 x 1).
Proof.
  unfold import_entry. destruct (is_sentinel x) eqn:Hs.
  { split_and!; try done. intros y. rewrite andb_false_r. destruct (tm_clog m !! y); [done|].
    by case_decide. }
  set (m1 := if _ && _ then _ else _).
  destruct (recover_observed_fields m1 x) as (-> & -> & ->). rewrite recover_observed_next, Hs.
  subst m1. destruct (is_terminal st) eqn:Ht; cbn.
  2: { split_and!; try done. intros y. destruct (tm_clog m !! y); [done|]. by case_decide. }
  case_bool_decide as Hx; cbn.
  - split_and!; try done; [|set_solver]. intros y. rewrite lookup_insert.
    destruct (decide (y = x)) as [->|Hne]; [by rewrite decide_True, Hx|].
    rewrite decide_False by done. by destruct (tm_clog m !! y).
  - split_and!; try done. intros y. destruct (tm_clog m !! y) eqn:Hy; [done|].
    case_decide; [congruence|done].
Qed.

Lemma import_entries_fields es m n :
  tm_next_xid m <= n -> (forall x st, (x, st) ∈ es -> x < n) ->
  let m' := foldl import_entry m es in
  (forall y, tm_clog m' !! y =
     match tm_clog m !! y with
     | Some s => Some s
     | None => if is_sentinel y then None
               else (list_to_map (List.filter (fun e => is_terminal e.2) es) : gmap Z XidStatus) !! y
     end) /\
  tm_in_progress m' ⊆ tm_in_progress m /\ tm_subxid_parent m' = tm_subxid_parent m /\
  tm_next_xid m <= tm_next_xid m' <= n.
Proof.
  revert m. induction es as [|[x st] es IH]; intros m Hn Hes; cbn [foldl].
  { split_and!; try done. intros y. cbn. rewrite lookup_empty.
    destruct (tm_clog m !! y); [done|]. by destruct (is_sentinel y). }
  destruct (import_entry_fields m x st) as (Hc & Ha & Hp & Hx).
  assert (x < n) as Hxn by (apply (Hes x st); left).
  assert (tm_next_xid m <= tm_next_xid (import_entry m (x, st)) <= n) as Hb.
  { rewrite Hx. destruct (is_sentinel x); [lia|]. unfold saturating_add. lia. }
  destruct (IH (import_entry m (x, st))) as (Hc' & Ha' & Hp' & Hn'); [lia|by intros z s Hz; eapply Hes; right|].
  split_and!; [|set_solver|congruence|lia|lia].
  intros y. rewrite Hc', Hc. destruct (tm_clog m !! y); [done|]. cbn [List.filter snd].
  destruct (decide (y = x)) as [->|Hne].
  - destruct (is_terminal st), (is_sentinel x); cbn; rewrite ?lookup_insert_eq; done.
  - destruct (is_sentinel y); [done|]. destruct (is_terminal st); [|done].
    cbn. by rewrite lookup_insert_ne.
Qed.

(** C37. A checkpoint of the commit log loses nothing a reader can ask: for
    every reachable manager, importing what [export_clog] returns into a
    fresh manager gives one that hands out the same next XID, has no running
    transaction, and answers every status query as the original did. *)
Theorem clog_checkpoint_roundtrip ssi σ :
  reachable ssi σ ->
  let m' := import_clog TransactionManager_new (export_clog (mgr σ)).1 (export_clog (mgr σ)).2 in
  tm_next_xid m' = tm_next_xid (mgr σ) /\ tm_in_progress m' = ∅ /\
  forall x, status m' x = status (mgr σ) x.
Proof.
  intros Hr. pose proof (reachable_inv _ _ Hr) as Hσ. pose proof (si_core _ Hσ) as Hc. cbn [export_clog fst snd].
  set (es := List.filter _ _). set (n := tm_next_xid (mgr σ)).
  assert (forall x st, (x, st) ∈ es <-> tm_clog (mgr σ) !! x = Some st /\ is_terminal st = true) as Hes.
  { intros x st. unfold es. rewrite list_elem_of_In, List.filter_In, <- list_elem_of_In, elem_of_map_to_list.
    done. }
  assert (NoDup es.*1) as Hnd by (apply NoDup_fst_filter, NoDup_fst_map_to_list).
  destruct (import_entries_fields es TransactionManager_new n) as (Hclog & Hact & Hpar & Hnext).
  { apply (ci_next _ _ Hc). }
  { intros x st [Hx _]%Hes. eapply clog_key_normal; [exact Hc|exact Hx]. }
  unfold import_clog, raise_next_xid. fold n.
  set (m1 := foldl import_entry TransactionManager_new es) in *.
  assert (forall y, tm_clog m1 !! y = match tm_clog (mgr σ) !! y with
    | Some st => if is_terminal st then Some st else None | None => None end) as Hm1.
  { intros y. rewrite Hclog. cbn. rewrite lookup_empty.
    assert (List.filter (fun e => is_terminal e.2) es = es) as ->
      by (apply List.forallb_filter_id, List.forallb_filter).
    destruct (is_sentinel y) eqn:Hsy.
    - destruct (tm_clog (mgr σ) !! y) as [st|] eqn:Hy; [|done]. exfalso.
      pose proof (clog_key_normal _ _ Hc y _ Hy). unfold is_sentinel, Xid_INVALID, Xid_FROZEN, Xid_BOOTSTRAP in Hsy.
      rewrite !orb_true_iff, !Z.eqb_eq in Hsy. lia.
    - apply option_eq. intros st. rewrite <- elem_of_list_to_map, Hes by done.
      destruct (tm_clog (mgr σ) !! y) as [st'|]; [|by split; [intros [? _]|]].
      destruct (is_terminal st') eqn:Ht; split.
      + by intros [? _].
      + intros ?. simplify_eq. done.
      + intros [? ?]. simplify_eq. congruence.
      + done. }
  split_and!.
  - destruct (Z.ltb_spec (tm_next_xid m1) n); cbn; lia.
  - destruct (tm_next_xid m1 <? n); cbn; set_solver.
  - intros x. assert (forall b : bool, status (if b then with_next_xid m1 n else m1) x = status m1 x) as -> by (by intros []).
    destruct (tm_clog (mgr σ) !! x) as [st|] eqn:Hx.
    + pose proof (clog_key_normal _ _ Hc x _ Hx) as Hrange. destruct (is_terminal st) eqn:Ht.
      * rewrite (status_terminal _ _ Hc x st Ht Hx).
        unfold status, TransactionManager_oracle, clog_status. rewrite Hm1, Hx, Ht.
        unfold Xid_FROZEN, Xid_BOOTSTRAP.
        rewrite (proj2 (Z.eqb_neq x 2)), (proj2 (Z.eqb_neq x 1)) by lia. by destruct st.
      * assert (st = InProgress) as -> by (by destruct st).
        rewrite (status_running _ _ Hc x Hx).
        unfold status, TransactionManager_oracle, clog_status. rewrite Hm1, Hx, Hpar. cbn.
        unfold Xid_FROZEN, Xid_BOOTSTRAP.
        rewrite (proj2 (Z.eqb_neq x 2)), (proj2 (Z.eqb_neq x 1)), lookup_empty by lia. done.
    + rewrite (status_unknown _ _ Hc x Hx).
      unfold status, TransactionManager_oracle, clog_status. rewrite Hm1, Hx, Hpar. cbn.
      by rewrite lookup_empty.
Qed.

Lemma clog_checkpoint_roundtrip_witness :
  status (import_clog TransactionManager_new (export_clog (mgr example_committed)).1
    (export_clog (mgr example_committed)).2) 5 = Committed.
Proof.
  rewrite (proj2 (proj2 (clog_checkpoint_roundtrip None example_committed
    ltac:(unfold reachable; etransitivity; [exact example_open_reachable|exact example_commit_step])))).
  vm_compute. reflexivity.
Defined.
