(* ===== verification/TwoPhase.v ===== *)
(** * Two-phase commit: the coordinator (ultrasql-txn, two_phase.rs)

    A prepared transaction is one entry of the coordinator's map and one state
    file, a line of canonical JSON that recovery reads back. The file is
    written and removed with explicit syncs of its data and of the directory;
    the outcomes of the file-system calls are drawn from a list. A text is the
    list of its characters' code points. *)

From S2P Require Import Prelude CoreIds Snapshot.

Abbreviation Text := (list Z).

Definition DEFAULT_STATE_FILE_LIMIT_BYTES : Z := 1024 * 1024.

(** ** Characters *)

(** [char::is_whitespace]: the Unicode property White_Space. *)
Definition is_whitespace (c : Z) : bool :=
  (9 <=? c) && (c <=? 13) || (c =? 32) || (c =? 133) || (c =? 160) || (c =? 5760) || (8192 <=? c) && (c <=? 8202)
  || (c =? 8232) || (c =? 8233) || (c =? 8239) || (c =? 8287) || (c =? 12288).

Fixpoint trim_start (l : Text) : Text :=
  match l with c :: l' => if is_whitespace c then trim_start l' else l | [] => [] end.
Definition trim (l : Text) : Text := reverse (trim_start (reverse (trim_start l))).

Definition is_ascii_digit (c : Z) : bool := (48 <=? c) && (c <=? 57).

(** The rest of the text after the first occurrence of the needle. *)
Fixpoint after_first (needle json : Text) : option Text :=
  match strip_prefix needle json with
  | Some rest => Some rest
  | None => match json with [] => None | _ :: json' => after_first needle json' end
  end.

(** [to_string] of a [u64], which has at most twenty digits. *)
Fixpoint decimal_loop (fuel : nat) (n : Z) : Text :=
  match fuel with
  | O => []
  | S fuel' => if n <? 10 then [48 + n] else decimal_loop fuel' (n / 10) ++ [48 + n mod 10]
  end.
Definition decimal (n : Z) : Text := decimal_loop 20 n.

(** [parse::<u64>] of a text of digits. *)
Fixpoint parse_u64_loop (acc : Z) (l : Text) : option Z :=
  match l with
  | [] => Some acc
  | c :: l' => if acc * 10 + (c - 48) <? U64 then parse_u64_loop (acc * 10 + (c - 48)) l' else None
  end.
Definition parse_u64 (l : Text) : option Z := if is_nil l then None else parse_u64_loop 0 l.

(** The bytes of a text in UTF-8. *)
Definition utf8_len (l : Text) : Z :=
  foldr (fun c n => (if c <? 128 then 1 else if c <? 2048 then 2 else if c <? 65536 then 3 else 4) + n) 0 l.

(** ** The state file *)

Definition QUOTE : Z := 34.
Definition COMMA : Z := 44.
Definition COLON : Z := 58.
Definition BACKSLASH : Z := 92.

Definition escape_char (c : Z) : Text :=
  if c =? QUOTE then [BACKSLASH; QUOTE] else if c =? BACKSLASH then [BACKSLASH; BACKSLASH] else [c].
Definition escape_json_string (s : Text) : Text := s ≫= escape_char.

Fixpoint encode_subxids (first : bool) (subxids : list Xid) : Text :=
  match subxids with
  | [] => []
  | sub :: rest => (if first then [] else [COMMA]) ++ decimal sub ++ encode_subxids false rest
  end.
Definition encode_subxid_array (subxids : list Xid) : Text := str_bytes "[" ++ encode_subxids true subxids ++ str_bytes "]".

Definition json_key (key : string) : Text := QUOTE :: str_bytes key ++ [QUOTE; COLON].

Definition canonical_state_file_content (gid : Text) (xid : Xid) (committed_subxids : list Xid) (prepared_at_secs : Z) : Text :=
  str_bytes "{" ++ json_key "gid" ++ [QUOTE] ++ escape_json_string gid ++ [QUOTE; COMMA]
  ++ json_key "xid" ++ decimal xid ++ [COMMA] ++ json_key "prepared_at_secs" ++ decimal prepared_at_secs
  ++ (if is_nil committed_subxids then []
      else [COMMA] ++ json_key "committed_subxids" ++ encode_subxid_array committed_subxids)
  ++ str_bytes "}".

Fixpoint unescape (rest result : Text) : option Text :=
  match rest with
  | [] => None
  | c :: rest' =>
      if c =? QUOTE then Some result
      else if c =? BACKSLASH then
        match rest' with
        | [] => None
        | d :: rest'' =>
            if (d =? QUOTE) || (d =? BACKSLASH) then unescape rest'' (result ++ [d])
            else unescape rest'' (result ++ [BACKSLASH; d])
        end
      else unescape rest' (result ++ [c])
  end.

Definition extract_json_string (json : Text) (key : string) : option Text :=
  rest ← after_first (json_key key ++ [QUOTE]) json; unescape rest [].

Fixpoint leading_digits (l : Text) : Text :=
  match l with c :: l' => if is_ascii_digit c then c :: leading_digits l' else [] | [] => [] end.

Definition extract_json_number (json : Text) (key : string) : option Z :=
  rest ← after_first (json_key key) json; parse_u64 (leading_digits (trim_start rest)).

(** The text before the first [stop], if there is one. *)
Fixpoint before_first (stop : Z) (l : Text) : option Text :=
  match l with
  | [] => None
  | c :: l' => if c =? stop then Some [] else (cons c) <$> before_first stop l'
  end.

(** [split(',')] *)
Fixpoint split_commas (part l : Text) : list Text :=
  match l with
  | [] => [part]
  | c :: l' => if c =? COMMA then part :: split_commas [] l' else split_commas (part ++ [c]) l'
  end.

Definition parse_part (part : Text) : option Z :=
  if is_nil part || negb (forallb is_ascii_digit part) then None else parse_u64 part.

Definition extract_json_u64_array (json : Text) (key : string) : option (list Z) :=
  match after_first (json_key key ++ str_bytes "[") json with
  | None => Some []
  | Some rest =>
      body ← before_first 93 rest;
      if is_nil body then Some [] else mapM parse_part (split_commas [] body)
  end.

(** The time in seconds: [UNIX_EPOCH.checked_add] keeps an [i64]. *)
Record ParsedRecord := mk_ParsedRecord {
  pr_gid : Text;
  pr_xid : Xid;
  pr_committed_subxids : list Xid;
  pr_prepared_at : Z;
}.

Definition parse_state_file (content : Text) : result ParsedRecord string :=
  let content := trim content in
  let? gid := ok_or (extract_json_string content "gid") "missing or invalid gid field" in
  let? xid_raw := ok_or (extract_json_number content "xid") "missing or invalid xid field" in
  let? secs := ok_or (extract_json_number content "prepared_at_secs") "missing or invalid prepared_at_secs field" in
  let? committed_subxids := ok_or (extract_json_u64_array content "committed_subxids") "invalid committed_subxids field" in
  if 2 ^ 63 <=? secs then Err "prepared_at_secs overflows SystemTime" else
  if bool_decide (content = canonical_state_file_content gid xid_raw committed_subxids secs)
  then Ok (mk_ParsedRecord gid xid_raw committed_subxids secs)
  else Err "state file does not match canonical 2PC format".

(** ** The state directory

    [sd_files] is the directory as the process sees it, [sd_synced] the files
    whose data was synced since it was written, [sd_disk] what a crash cannot
    take away. *)

Inductive io := IoOk | IoInvalid | IoErr (written : nat).

Record StateDir := mk_StateDir {
  sd_files : gmap Text Text;
  sd_synced : gset Text;
  sd_disk : gmap Text Text;
}.

Definition StateDir_new : StateDir := mk_StateDir ∅ ∅ ∅.

Definition io_ok (o : io) : bool := match o with IoOk => true | _ => false end.

(** [create_new(true)] with [open] *)
Definition fs_create_new (o : io) (path : Text) (d : StateDir) : bool * StateDir :=
  if io_ok o && bool_decide (sd_files d !! path = None)
  then (true, mk_StateDir (<[path := []]> (sd_files d)) (sd_synced d ∖ {[path]}) (sd_disk d))
  else (false, d).

(** A failed write may leave a part of the data. *)
Definition fs_write_all (o : io) (path content : Text) (d : StateDir) : bool * StateDir :=
  let data := match o with IoOk => content | IoInvalid => [] | IoErr n => take n content end in
  (io_ok o, mk_StateDir (<[path := data]> (sd_files d)) (sd_synced d ∖ {[path]}) (sd_disk d)).

Definition fs_durability_sync (o : io) (path : Text) (d : StateDir) : bool * StateDir :=
  if io_ok o then (true, mk_StateDir (sd_files d) ({[path]} ∪ sd_synced d) (sd_disk d)) else (false, d).

(** [sync_all] of the directory: entries and removals become durable, the
    data of a file if it was synced. *)
Definition fs_flush_dir (d : StateDir) : StateDir :=
  mk_StateDir (sd_files d) (sd_synced d)
    (filter (fun kv => kv.1 ∈ sd_synced d) (sd_files d)
     ∪ filter (fun kv => kv.1 ∈ dom (sd_files d) /\ kv.1 ∉ sd_synced d) (sd_disk d)).

(** A file system that cannot sync directories answers InvalidInput, which
    counts as success. *)
Definition sync_state_directory (opened synced : io) (d : StateDir) : bool * StateDir :=
  if negb (io_ok opened) then (false, d) else
  match synced with IoOk => (true, fs_flush_dir d) | IoInvalid => (true, d) | IoErr _ => (false, d) end.

Inductive removed := Removed | RemovedNotFound | RemovedErr.
Definition fs_remove_file (o : io) (path : Text) (d : StateDir) : removed * StateDir :=
  if negb (io_ok o) then (RemovedErr, d) else
  match sd_files d !! path with
  | Some _ => (Removed, mk_StateDir (base.delete path (sd_files d)) (sd_synced d ∖ {[path]}) (sd_disk d))
  | None => (RemovedNotFound, d)
  end.

(** What a crash leaves of a file. *)
Definition crash_file (d : StateDir) (path : Text) (o : option Text) : Prop :=
  o = sd_disk d !! path \/ o = sd_files d !! path \/
  (path ∉ sd_synced d) /\ exists data n, sd_files d !! path = Some data /\ o = Some (take n data).
Definition crash (d d' : StateDir) : Prop :=
  (forall path, crash_file d path (sd_files d' !! path)) /\
  sd_synced d' = dom (sd_files d') /\ sd_disk d' = sd_files d'.

(** ** The coordinator *)

Inductive TwoPhaseError :=
| DuplicateGid (gid : Text)
| NotFound (gid : Text)
| TpIo (gid : Text)
| ResolutionInProgress (gid : Text)
| TpCorrupt (gid : Text).

Record PreparedTxn := mk_PreparedTxn {
  pt_gid : Text;
  pt_xid : Xid;
  pt_committed_subxids : list Xid;
  pt_prepared_at : Z;
  pt_state_file : Text;
}.

(** [tp_io] holds the outcomes of the coming file-system calls; when it is
    empty they succeed. *)
Record TwoPhaseCoordinator := mk_TwoPhaseCoordinator {
  tp_prepared : gmap Text PreparedTxn;
  tp_resolving : gset Text;
  tp_dir : StateDir;
  tp_io : list io;
}.

Definition TwoPhaseCoordinator_new (d : StateDir) (outcomes : list io) : TwoPhaseCoordinator :=
  mk_TwoPhaseCoordinator ∅ ∅ d outcomes.

Definition with_prepared (c : TwoPhaseCoordinator) p := mk_TwoPhaseCoordinator p (tp_resolving c) (tp_dir c) (tp_io c).
Definition with_resolving (c : TwoPhaseCoordinator) r := mk_TwoPhaseCoordinator (tp_prepared c) r (tp_dir c) (tp_io c).
Definition with_dir (c : TwoPhaseCoordinator) d := mk_TwoPhaseCoordinator (tp_prepared c) (tp_resolving c) d (tp_io c).

Definition TP (A : Type) : Type := TwoPhaseCoordinator -> result A TwoPhaseError * TwoPhaseCoordinator.
#[global] Instance TP_ret : MRet TP := fun A a c => (Ok a, c).
#[global] Instance TP_bind : MBind TP := fun A B k m c =>
  match m c with (Ok a, c') => k a c' | (Err e, c') => (Err e, c') end.

Definition tp_throw {A} (e : TwoPhaseError) : TP A := fun c => (Err e, c).
Definition tp_get {A} (f : TwoPhaseCoordinator -> A) : TP A := fun c => (Ok (f c), c).
Definition tp_set (f : TwoPhaseCoordinator -> TwoPhaseCoordinator) : TP unit := fun c => (Ok tt, f c).
(** The outcome of the next call. *)
Definition tp_draw : TP io := fun c =>
  match tp_io c with
  | [] => (Ok IoOk, c)
  | o :: rest => (Ok o, mk_TwoPhaseCoordinator (tp_prepared c) (tp_resolving c) (tp_dir c) rest)
  end.
(** A call on the directory. *)
Definition tp_call {A} (f : StateDir -> A * StateDir) : TP A := fun c =>
  let '(a, d) := f (tp_dir c) in (Ok a, with_dir c d).
Definition io_or (gid : Text) (ok : bool) : TP unit := if ok then mret tt else tp_throw (TpIo gid).

Definition sync_state_file_parent (gid : Text) : TP unit :=
  opened ← tp_draw; synced ← (if io_ok opened then tp_draw else mret IoOk);
  ok ← tp_call (sync_state_directory opened synced); io_or gid ok.

Definition write_state_file (path gid : Text) (xid : Xid) (committed_subxids : list Xid) (prepared_at : Z) : TP unit :=
  let content := canonical_state_file_content gid xid committed_subxids (Z.max 0 prepared_at) in
  o ← tp_draw; ok ← tp_call (fs_create_new o path); io_or gid ok;;
  o ← tp_draw; ok ← tp_call (fs_write_all o path content); io_or gid ok;;
  o ← tp_draw; ok ← tp_call (fs_durability_sync o path); io_or gid ok;;
  sync_state_file_parent gid.

Definition remove_state_file (txn : PreparedTxn) : TP unit :=
  o ← tp_draw; r ← tp_call (fs_remove_file o (pt_state_file txn));
  match r with
  | Removed => sync_state_file_parent (pt_gid txn)
  | RemovedNotFound => mret tt
  | RemovedErr => tp_throw (TpIo (pt_gid txn))
  end.

(** [rsplitn(2, '.')] of a file name: a name whose only dot is its first
    character has no extension. *)
Definition split_extension (name : Text) : Text * option Text :=
  match before_first 46 (reverse name) with
  | None => (name, None)
  | Some ext =>
      let stem := reverse (drop (S (length ext)) (reverse name)) in
      if is_nil stem then (name, None) else (stem, Some (reverse ext))
  end.

Section coordinator.
Context (is_alphanumeric : Z -> bool) (limit : Z).

Definition sanitize_gid (gid : Text) : Text :=
  map (fun c => if is_alphanumeric c || (c =? 45) || (c =? 95) || (c =? 46) then c else 95) gid.
Definition state_file_path (gid : Text) : Text := sanitize_gid gid ++ str_bytes ".txn".

(** Seconds of the clock; the fraction is not kept. *)
Definition prepare (gid : Text) (xid : Xid) (committed_subxids : list Xid) (now : Z) : TP unit :=
  present ← tp_get (fun c => bool_decide (is_Some (tp_prepared c !! gid)));
  if (present : bool) then tp_throw (DuplicateGid gid) else
  let state_file := state_file_path gid in
  write_state_file state_file gid xid committed_subxids now;;
  entry ← tp_get (fun c => tp_prepared c !! gid);
  match entry with
  | None =>
      tp_set (fun c => with_prepared c (<[gid := mk_PreparedTxn gid xid committed_subxids now state_file]> (tp_prepared c)))
  | Some other =>
      if pt_xid other =? xid then mret tt else
      o ← tp_draw; tp_call (fs_remove_file o state_file);; tp_throw (DuplicateGid gid)
  end.

Definition begin_resolution (gid : Text) : TP PreparedTxn :=
  busy ← tp_get (fun c => bool_decide (gid ∈ tp_resolving c));
  if (busy : bool) then tp_throw (ResolutionInProgress gid) else
  tp_set (fun c => with_resolving c ({[gid]} ∪ tp_resolving c));;
  entry ← tp_get (fun c => tp_prepared c !! gid);
  match entry with
  | Some txn => mret txn
  | None => tp_set (fun c => with_resolving c (tp_resolving c ∖ {[gid]}));; tp_throw (NotFound gid)
  end.

Definition abort_resolution (txn : PreparedTxn) : TP unit :=
  tp_set (fun c => with_resolving c (tp_resolving c ∖ {[pt_gid txn]})).

(** The result of a call as a value. *)
Definition tp_try {A} (m : TP A) : TP (result A TwoPhaseError) := fun c => let '(r, c') := m c in (Ok r, c').
Definition tp_lift {A} (r : result A TwoPhaseError) : TP A := fun c => (r, c).

Definition finish_resolution (txn : PreparedTxn) : TP Xid :=
  r ← tp_try (remove_state_file txn);
  tp_set (fun c => with_resolving c (tp_resolving c ∖ {[pt_gid txn]}));;
  tp_lift r;;
  entry ← tp_get (fun c => tp_prepared c !! pt_gid txn);
  match entry with
  | Some gone => tp_set (fun c => with_prepared c (base.delete (pt_gid txn) (tp_prepared c)));; mret (pt_xid gone)
  | None => tp_throw (NotFound (pt_gid txn))
  end.

Definition resolve (gid : Text) : TP Xid :=
  txn ← begin_resolution gid;
  resolved ← tp_try (finish_resolution txn);
  match resolved with Err _ => abort_resolution txn | Ok _ => mret tt end;;
  tp_lift resolved.
Definition commit_prepared (gid : Text) : TP Xid := resolve gid.
Definition rollback_prepared (gid : Text) : TP Xid := resolve gid.

Definition list_prepared (c : TwoPhaseCoordinator) : list PreparedTxn := (map_to_list (tp_prepared c)).*2.

(** [open], [metadata] and the read under the limit. *)
Definition read_error (gid : Text) (o : io) : TwoPhaseError :=
  match o with IoInvalid => TpCorrupt gid | _ => TpIo gid end.
Fixpoint checked_calls (n : nat) (fail : io -> TwoPhaseError) : TP unit :=
  match n with
  | O => mret tt
  | S n' => o ← tp_draw; if io_ok o then checked_calls n' fail else tp_throw (fail o)
  end.
Definition read_state_file_text (filename_gid content : Text) : TP Text :=
  checked_calls 2 (read_error filename_gid);;
  if limit <? utf8_len content then tp_throw (TpCorrupt filename_gid) else
  checked_calls 1 (read_error filename_gid);;
  mret content.

Definition recover_file (path content : Text) (count : Z) : TP Z :=
  checked_calls 1 (fun _ => TpIo (str_bytes "<state_dir>"));;
  checked_calls 1 (fun _ => TpIo path);;
  let '(filename_gid, extension) := split_extension path in
  if negb (bool_decide (extension = Some (str_bytes "txn"))) then mret count else
  content ← read_state_file_text filename_gid content;
  match parse_state_file content with
  | Err _ => tp_throw (TpCorrupt filename_gid)
  | Ok record =>
      tp_set (fun c =>
        match tp_prepared c !! pr_gid record with
        | Some _ => c
        | None => with_prepared c (<[pr_gid record := mk_PreparedTxn (pr_gid record) (pr_xid record)
                    (pr_committed_subxids record) (pr_prepared_at record) path]> (tp_prepared c))
        end);;
      mret (count + 1)
  end.

Fixpoint recover_files (files : list (Text * Text)) (count : Z) : TP Z :=
  match files with
  | [] => mret count
  | (path, content) :: files' => count ← recover_file path content count; recover_files files' count
  end.

(** The entries in the order of [read_dir], which is not specified. *)
Definition recover_from_disk : TP Z :=
  checked_calls 1 (fun _ => TpIo (str_bytes "<state_dir>"));;
  files ← tp_get (fun c => map_to_list (sd_files (tp_dir c)));
  recover_files files 0.
End coordinator.

(** ** Decimal numbers *)

Lemma decimal_loop_digits fuel n : 0 <= n -> Forall (fun c => 48 <= c <= 57) (decimal_loop fuel n).
Proof.
  revert n. induction fuel as [|fuel IH]; intros n Hn; cbn; [constructor|]. destruct (Z.ltb_spec n 10).
  - repeat constructor; lia.
  - apply Forall_app. split; [apply IH; apply Z.div_pos; lia|]. repeat constructor; pose proof (Z.mod_pos_bound n 10); lia.
Qed.

Lemma parse_u64_loop_app acc l c : parse_u64_loop acc (l ++ [c]) = (a ← parse_u64_loop acc l; parse_u64_loop a [c]).
Proof. revert acc. induction l as [|d l IH]; intros acc; cbn [app parse_u64_loop]; [done|]. case_match; [apply IH|done]. Qed.

Lemma decimal_loop_parse fuel n : 0 <= n < 10 ^ Z.of_nat fuel -> n < U64 -> parse_u64_loop 0 (decimal_loop fuel n) = Some n.
Proof.
  revert n. induction fuel as [|fuel IH]; intros n Hn Hu; [cbn in *; f_equal; lia|]. cbn [decimal_loop].
  rewrite Nat2Z.inj_succ, Z.pow_succ_r in Hn by lia. pose proof (Z.div_mod n 10 ltac:(lia)) as Hd. pose proof (Z.mod_pos_bound n 10 ltac:(lia)) as Hm.
  destruct (Z.ltb_spec n 10).
  - cbn [parse_u64_loop]. replace (0 * 10 + (48 + n - 48)) with n by lia. destruct (Z.ltb_spec n U64); [done|lia].
  - rewrite parse_u64_loop_app, IH; [|lia|lia]. cbn [mbind option_bind parse_u64_loop].
    replace (n / 10 * 10 + (48 + n mod 10 - 48)) with n by lia. destruct (Z.ltb_spec n U64); [done|lia].
Qed.

Lemma decimal_digits n : 0 <= n -> Forall (fun c => 48 <= c <= 57) (decimal n).
Proof. apply decimal_loop_digits. Qed.

Lemma decimal_nonempty n : decimal n <> [].
Proof. unfold decimal. cbn [decimal_loop]. case_match; [done|]. by intros [_ ?]%app_nil. Qed.

Lemma decimal_parse n : in_width U64 n -> parse_u64 (decimal n) = Some n.
Proof.
  intros Hn. unfold parse_u64. destruct (is_nil (decimal n)) eqn:E.
  - destruct (decimal n) eqn:E'; [by apply decimal_nonempty in E'|done].
  - unfold decimal. apply decimal_loop_parse; [|apply Hn]. unfold in_width, U64 in Hn. split; [lia|]. etrans; [apply Hn|]. by vm_compute.
Qed.

Lemma parse_u64_width l n : Forall (fun c => 48 <= c <= 57) l -> parse_u64 l = Some n -> in_width U64 n.
Proof.
  intros Hl. unfold parse_u64. case_match; [done|]. assert (in_width U64 0) as H0 by (unfold in_width, U64; lia).
  revert H0. generalize 0. clear H. induction Hl as [|c l Hc _ IH]; intros acc Hacc; cbn; [by intros [= <-]|].
  destruct (Z.ltb_spec (acc * 10 + (c - 48)) U64); [|done]. apply IH. unfold in_width in *. lia.
Qed.

Lemma leading_digits_all l : Forall (fun c => 48 <= c <= 57) (leading_digits l).
Proof.
  induction l as [|c l IH]; cbn; [constructor|]. destruct (is_ascii_digit c) eqn:E; [|constructor]. constructor; [|done].
  unfold is_ascii_digit in E. lia.
Qed.

Lemma leading_digits_app l c rest : Forall (fun c => 48 <= c <= 57) l -> is_ascii_digit c = false -> leading_digits (l ++ c :: rest) = l.
Proof.
  intros Hl Hc. induction Hl as [|d l Hd _ IH]; cbn; [by rewrite Hc|]. assert (is_ascii_digit d = true) as ->; [|by rewrite IH].
  unfold is_ascii_digit. lia.
Qed.

Lemma trim_start_digits l rest : Forall (fun c => 48 <= c <= 57) l -> l <> [] -> trim_start (l ++ rest) = l ++ rest.
Proof.
  intros Hl Hne. destruct Hl as [|c l Hc _]; [done|]. cbn [app trim_start]. assert (is_whitespace c = false) as ->; [|done].
  unfold is_whitespace. lia.
Qed.

(** ** Finding a key *)

Lemma after_skip needle c t : c <> QUOTE -> after_first (QUOTE :: needle) (c :: t) = after_first (QUOTE :: needle) t.
Proof. intros Hc. cbn [after_first strip_prefix]. destruct (Z.eqb_spec QUOTE c); [congruence|done]. Qed.

Lemma after_skips needle l t : Forall (fun c => c <> QUOTE) l -> after_first (QUOTE :: needle) (l ++ t) = after_first (QUOTE :: needle) t.
Proof. induction 1 as [|c l Hc _ IH]; [done|]. cbn [app]. by rewrite after_skip. Qed.

Lemma after_quote needle t : strip_prefix needle t = None -> after_first (QUOTE :: needle) (QUOTE :: t) = after_first (QUOTE :: needle) t.
Proof. intros Hn. cbn [after_first strip_prefix]. by rewrite Z.eqb_refl, Hn. Qed.

Lemma after_hit needle t : after_first needle (needle ++ t) = Some t.
Proof. destruct (needle ++ t) eqn:E; cbn [after_first]; rewrite <- E, strip_prefix_app; done. Qed.

(** A key does not begin inside an escaped text that a comma follows. *)
Lemma key_not_escaped k gid tail : Forall (fun c => c <> QUOTE /\ c <> BACKSLASH) k ->
  strip_prefix (k ++ [QUOTE; COLON]) (escape_json_string gid ++ QUOTE :: COMMA :: tail) = None.
Proof.
  intros Hk. revert gid. induction Hk as [|a k [Ha Hb] _ IH]; intros gid; destruct gid as [|c gid]; cbn [escape_json_string mbind list_bind app strip_prefix].
  - done.
  - unfold escape_char. destruct (Z.eqb_spec c QUOTE); [done|]. destruct (Z.eqb_spec c BACKSLASH); [done|].
    cbn [app strip_prefix]. destruct (Z.eqb_spec QUOTE c); [congruence|done].
  - destruct (Z.eqb_spec a QUOTE); [congruence|done].
  - unfold escape_char at 1. destruct (Z.eqb_spec c QUOTE); [|destruct (Z.eqb_spec c BACKSLASH)]; cbn [app strip_prefix].
    + destruct (Z.eqb_spec a BACKSLASH); [congruence|done].
    + destruct (Z.eqb_spec a BACKSLASH); [congruence|done].
    + case_match; [|done]. apply IH.
Qed.

Lemma key_longer k gid tail more : Forall (fun c => c <> QUOTE /\ c <> BACKSLASH) k ->
  strip_prefix (k ++ [QUOTE; COLON] ++ more) (escape_json_string gid ++ QUOTE :: COMMA :: tail) = None.
Proof.
  intros Hk. pose proof (key_not_escaped k gid tail Hk) as Hn. destruct (strip_prefix (k ++ [QUOTE; COLON] ++ more) _) as [r|] eqn:E; [|done].
  apply strip_prefix_Some in E. rewrite E in Hn. rewrite <- app_assoc in Hn. cbn [app] in Hn.
  change (k ++ QUOTE :: COLON :: more ++ r) with (k ++ [QUOTE; COLON] ++ (more ++ r)) in Hn. rewrite app_assoc, strip_prefix_app in Hn. done.
Qed.

Lemma after_escaped k gid tail more : Forall (fun c => c <> QUOTE /\ c <> BACKSLASH) k ->
  strip_prefix (k ++ [QUOTE; COLON] ++ more) (COMMA :: tail) = None ->
  after_first (QUOTE :: k ++ [QUOTE; COLON] ++ more) (escape_json_string gid ++ QUOTE :: COMMA :: tail) =
  after_first (QUOTE :: k ++ [QUOTE; COLON] ++ more) tail.
Proof.
  intros Hk Hc. induction gid as [|c gid IH].
  - cbn [escape_json_string mbind list_bind app]. rewrite after_quote by done. by rewrite after_skip.
  - change (escape_json_string (c :: gid)) with (escape_char c ++ escape_json_string gid). rewrite <- app_assoc.
    unfold escape_char. destruct (Z.eqb_spec c QUOTE); [|destruct (Z.eqb_spec c BACKSLASH)]; cbn [app].
    + rewrite after_skip by done. rewrite after_quote; [apply IH|]. by apply key_longer.
    + rewrite !after_skip by done. apply IH.
    + rewrite after_skip by done. apply IH.
Qed.

Definition plain (k : Text) : Prop := Forall (fun c => c <> QUOTE /\ c <> BACKSLASH) k.

Lemma strip_head a k c t : a <> c -> strip_prefix (a :: k) (c :: t) = None.
Proof. intros Hne. cbn. by destruct (Z.eqb_spec a c). Qed.

(** Past the identifier. *)
Lemma after_gid a k more gid tail : plain (a :: k) -> a <> 103 -> a <> COLON -> a <> COMMA ->
  after_first (QUOTE :: (a :: k) ++ [QUOTE; COLON] ++ more)
    (str_bytes "{" ++ json_key "gid" ++ [QUOTE] ++ escape_json_string gid ++ [QUOTE; COMMA] ++ tail) =
  after_first (QUOTE :: (a :: k) ++ [QUOTE; COLON] ++ more) tail.
Proof.
  intros Hk Hg Hcol Hcom. set (needle := QUOTE :: (a :: k) ++ [QUOTE; COLON] ++ more).
  change (str_bytes "{" ++ json_key "gid" ++ [QUOTE] ++ escape_json_string gid ++ [QUOTE; COMMA] ++ tail)
    with (123 :: QUOTE :: [103; 105; 100] ++ QUOTE :: COLON :: QUOTE :: (escape_json_string gid ++ QUOTE :: COMMA :: tail)).
  unfold needle. rewrite after_skip by done. rewrite after_quote by (by apply strip_head).
  rewrite after_skips by (repeat constructor; done). rewrite after_quote by (by apply strip_head). rewrite after_skip by done.
  rewrite after_quote by (by apply key_longer). apply after_escaped; [done|]. by apply strip_head.
Qed.

(** Past a number. *)
Lemma after_number a k more b f n tail : plain (a :: k) -> plain (b :: f) -> a <> b -> a <> COLON -> 0 <= n ->
  after_first (QUOTE :: (a :: k) ++ [QUOTE; COLON] ++ more) ((QUOTE :: (b :: f) ++ [QUOTE; COLON]) ++ decimal n ++ tail) =
  after_first (QUOTE :: (a :: k) ++ [QUOTE; COLON] ++ more) tail.
Proof.
  intros Hk Hf Hab Hcol Hn.
  replace ((QUOTE :: (b :: f) ++ [QUOTE; COLON]) ++ decimal n ++ tail) with (QUOTE :: b :: f ++ QUOTE :: COLON :: decimal n ++ tail)
    by (cbn [app]; by rewrite <- app_assoc).
  rewrite after_quote by (by apply strip_head). inversion Hf as [|? ? [Hb _] Hf']; subst. rewrite after_skip by done.
  rewrite after_skips by (eapply Forall_impl; [exact Hf'|]; intros c [? _]; done).
  rewrite after_quote by (by apply strip_head). rewrite after_skip by done. apply after_skips.
  eapply Forall_impl; [by apply decimal_digits|]. cbn. unfold QUOTE. lia.
Qed.

Lemma unescape_escape gid tail acc : unescape (escape_json_string gid ++ QUOTE :: tail) acc = Some (acc ++ gid).
Proof.
  revert acc. induction gid as [|c gid IH]; intros acc; [cbn; by rewrite app_nil_r|].
  change (escape_json_string (c :: gid)) with (escape_char c ++ escape_json_string gid). rewrite <- app_assoc.
  unfold escape_char. destruct (Z.eqb_spec c QUOTE) as [->|Hq]; [|destruct (Z.eqb_spec c BACKSLASH) as [->|Hb]]; cbn -[QUOTE BACKSLASH].
  - rewrite IH. by rewrite <- app_assoc.
  - rewrite IH. by rewrite <- app_assoc.
  - destruct (Z.eqb_spec c QUOTE); [done|]. destruct (Z.eqb_spec c BACKSLASH); [done|]. rewrite IH. by rewrite <- app_assoc.
Qed.

(** ** The array *)

Lemma before_first_app stop l rest : Forall (fun c => c <> stop) l -> before_first stop (l ++ stop :: rest) = Some l.
Proof.
  induction 1 as [|c l Hc _ IH]; cbn; [by rewrite Z.eqb_refl|]. destruct (Z.eqb_spec c stop); [done|]. by rewrite IH.
Qed.

Lemma split_commas_plain part l : Forall (fun c => c <> COMMA) l -> split_commas part l = [part ++ l].
Proof.
  intros Hl. revert part. induction Hl as [|c l Hc _ IH]; intros part; cbn [split_commas]; [by rewrite app_nil_r|].
  destruct (Z.eqb_spec c COMMA); [done|]. rewrite IH. by rewrite <- app_assoc.
Qed.

Lemma split_commas_app part l rest : Forall (fun c => c <> COMMA) l ->
  split_commas part (l ++ COMMA :: rest) = (part ++ l) :: split_commas [] rest.
Proof.
  intros Hl. revert part. induction Hl as [|c l Hc _ IH]; intros part; cbn [app split_commas]; [by rewrite Z.eqb_refl, app_nil_r|].
  destruct (Z.eqb_spec c COMMA); [done|]. rewrite IH. by rewrite <- app_assoc.
Qed.

Lemma decimal_no_comma n : 0 <= n -> Forall (fun c => c <> COMMA) (decimal n).
Proof. intros Hn. eapply Forall_impl; [by apply decimal_digits|]. cbn. unfold COMMA. lia. Qed.

Lemma parse_part_decimal n : in_width U64 n -> parse_part (decimal n) = Some n.
Proof.
  intros Hn. unfold parse_part. destruct (is_nil (decimal n)) eqn:E.
  { destruct (decimal n) eqn:E'; [by apply decimal_nonempty in E'|done]. }
  assert (forallb is_ascii_digit (decimal n) = true) as ->; [|by apply decimal_parse].
  apply forallb_forall. intros c Hc. pose proof (decimal_digits n ltac:(apply Hn)) as Hd. rewrite Forall_forall in Hd.
  apply list_elem_of_In, Hd in Hc. unfold is_ascii_digit. lia.
Qed.

Lemma split_encoded sub subs : Forall (in_width U64) (sub :: subs) ->
  mapM parse_part (split_commas [] (encode_subxids true (sub :: subs))) = Some (sub :: subs).
Proof.
  revert sub. induction subs as [|sub' subs IH]; intros sub Hw; apply Forall_cons in Hw as [Hs Hw]; cbn [encode_subxids app].
  - rewrite app_nil_r, split_commas_plain by (apply decimal_no_comma, Hs). rewrite app_nil_l.
    cbn -[parse_part decimal]. by rewrite parse_part_decimal.
  - rewrite split_commas_app by (apply decimal_no_comma, Hs). rewrite app_nil_l.
    specialize (IH sub' Hw). cbn [encode_subxids app] in IH. cbn -[parse_part split_commas decimal]. rewrite parse_part_decimal by done.
    cbn -[parse_part split_commas decimal]. rewrite IH. done.
Qed.

Lemma encoded_chars subs first : Forall (in_width U64) subs -> Forall (fun c => c <> 93 /\ c <> QUOTE) (encode_subxids first subs).
Proof.
  intros Hw. revert first. induction Hw as [|s subs Hs _ IH]; intros first; cbn [encode_subxids]; [constructor|].
  apply Forall_app. split; [destruct first; repeat constructor; done|]. apply Forall_app. split; [|apply IH].
  eapply Forall_impl; [apply decimal_digits, Hs|]. cbn. unfold QUOTE. lia.
Qed.

(** ** The round trip *)

Lemma trim_start_suffix l : exists pre, l = pre ++ trim_start l.
Proof.
  induction l as [|c l [pre IH]]; [by exists []|]. cbn. destruct (is_whitespace c); [|by exists []]. exists (c :: pre). cbn. by rewrite <- IH.
Qed.

(** A text that begins with a visible character loses a suffix only. *)
Lemma trim_prefix c l : is_whitespace c = false -> exists w, c :: l = trim (c :: l) ++ w.
Proof.
  intros Hc. unfold trim. cbn [trim_start]. rewrite Hc. destruct (trim_start_suffix (reverse (c :: l))) as [pre E].
  exists (reverse pre). apply (inj reverse). rewrite reverse_app, !reverse_involutive. done.
Qed.

Lemma trim_block a m z : is_whitespace a = false -> is_whitespace z = false -> trim (a :: m ++ [z]) = a :: m ++ [z].
Proof.
  intros Ha Hz. unfold trim. cbn [trim_start]. rewrite Ha.
  assert (trim_start (reverse (a :: m ++ [z])) = reverse (a :: m ++ [z])) as ->; [|apply reverse_involutive].
  rewrite app_comm_cons, reverse_snoc. cbn [trim_start]. by rewrite Hz.
Qed.

Section canonical.
Context (gid : Text) (xid : Xid) (subs : list Xid) (secs : Z).
Hypotheses (Hxid : in_width U64 xid) (Hsubs : Forall (in_width U64) subs) (Hsecs : in_width U64 secs).

Definition subs_part : Text :=
  (if is_nil subs then [] else [COMMA] ++ json_key "committed_subxids" ++ encode_subxid_array subs) ++ str_bytes "}".

Lemma canonical_eq : canonical_state_file_content gid xid subs secs =
  str_bytes "{" ++ json_key "gid" ++ [QUOTE] ++ escape_json_string gid ++ [QUOTE; COMMA] ++
    (json_key "xid" ++ decimal xid ++ COMMA :: json_key "prepared_at_secs" ++ decimal secs ++ subs_part).
Proof. reflexivity. Qed.

Lemma canonical_trim : trim (canonical_state_file_content gid xid subs secs) = canonical_state_file_content gid xid subs secs.
Proof.
  set (m := json_key "gid" ++ [QUOTE] ++ escape_json_string gid ++ [QUOTE; COMMA]
    ++ json_key "xid" ++ decimal xid ++ [COMMA] ++ json_key "prepared_at_secs" ++ decimal secs
    ++ (if is_nil subs then [] else [COMMA] ++ json_key "committed_subxids" ++ encode_subxid_array subs)).
  assert (canonical_state_file_content gid xid subs secs = 123 :: m ++ [125]) as ->.
  { unfold canonical_state_file_content, m. rewrite <- !app_assoc. reflexivity. }
  by apply trim_block.
Qed.

Lemma canonical_gid_app rest : extract_json_string (canonical_state_file_content gid xid subs secs ++ rest) "gid" = Some gid.
Proof.
  unfold extract_json_string. rewrite canonical_eq. change (json_key "gid" ++ [QUOTE]) with (QUOTE :: [103; 105; 100; QUOTE; COLON; QUOTE]).
  generalize (json_key "xid" ++ decimal xid ++ COMMA :: json_key "prepared_at_secs" ++ decimal secs ++ subs_part). intros tail.
  replace ((str_bytes "{" ++ json_key "gid" ++ [QUOTE] ++ escape_json_string gid ++ [QUOTE; COMMA] ++ tail) ++ rest) with
    (123 :: (QUOTE :: [103; 105; 100; QUOTE; COLON; QUOTE]) ++ (escape_json_string gid ++ QUOTE :: COMMA :: tail ++ rest))
    by (unfold json_key; cbn [str_bytes app]; cbn; by rewrite <- app_assoc).
  rewrite after_skip by done. rewrite after_hit. cbn [mbind option_bind]. apply (unescape_escape gid _ []).
Qed.

Lemma canonical_gid : extract_json_string (canonical_state_file_content gid xid subs secs) "gid" = Some gid.
Proof. rewrite <- (app_nil_r (canonical_state_file_content gid xid subs secs)). apply canonical_gid_app. Qed.

Lemma json_key_more k : json_key k = QUOTE :: str_bytes k ++ [QUOTE; COLON] ++ [].
Proof. reflexivity. Qed.

Lemma number_here key n c rest : in_width U64 n -> is_ascii_digit c = false ->
  extract_json_number (json_key key ++ decimal n ++ c :: rest) key = Some n.
Proof.
  intros Hn Hc. unfold extract_json_number. rewrite after_hit. cbn [mbind option_bind].
  rewrite trim_start_digits; [|apply decimal_digits, Hn|apply decimal_nonempty].
  rewrite leading_digits_app; [by apply decimal_parse|apply decimal_digits, Hn|done].
Qed.

Lemma number_later key t t' : after_first (json_key key) t = after_first (json_key key) t' -> extract_json_number t key = extract_json_number t' key.
Proof. unfold extract_json_number. by intros ->. Qed.

Lemma canonical_xid : extract_json_number (canonical_state_file_content gid xid subs secs) "xid" = Some xid.
Proof.
  rewrite canonical_eq, <- (number_here "xid" xid COMMA (json_key "prepared_at_secs" ++ decimal secs ++ subs_part)) by done.
  apply number_later. rewrite (json_key_more "xid") at 1 3. apply (after_gid 120 [105; 100] []); try done. repeat constructor; done.
Qed.

Lemma subs_part_head : exists c rest, subs_part = c :: rest /\ is_ascii_digit c = false.
Proof. unfold subs_part. destruct (is_nil subs); cbn; eauto. Qed.

Lemma canonical_secs : extract_json_number (canonical_state_file_content gid xid subs secs) "prepared_at_secs" = Some secs.
Proof.
  destruct subs_part_head as (c & rest & E & Hc). rewrite canonical_eq, E.
  rewrite <- (number_here "prepared_at_secs" secs c rest) by done. apply number_later.
  rewrite (json_key_more "prepared_at_secs") at 1 3.
  etrans; [apply (after_gid 112 (drop 1 (str_bytes "prepared_at_secs")) []); try done; repeat constructor; done|].
  etrans; [apply (after_number 112 (drop 1 (str_bytes "prepared_at_secs")) [] 120 [105; 100]); try done; [repeat constructor; done|repeat constructor; done|apply Hxid]|].
  by apply after_skip.
Qed.

Lemma canonical_subs : extract_json_u64_array (canonical_state_file_content gid xid subs secs) "committed_subxids" = Some subs.
Proof.
  unfold extract_json_u64_array.
  assert (after_first (json_key "committed_subxids" ++ str_bytes "[") (canonical_state_file_content gid xid subs secs) =
          after_first (json_key "committed_subxids" ++ str_bytes "[") subs_part) as ->.
  { rewrite canonical_eq. change (json_key "committed_subxids" ++ str_bytes "[") with
      (QUOTE :: (99 :: drop 1 (str_bytes "committed_subxids")) ++ [QUOTE; COLON] ++ [91]).
    etrans; [apply after_gid; try done; repeat constructor; done|].
    etrans; [apply (after_number 99 _ [91] 120 [105; 100]); try done; [repeat constructor; done|repeat constructor; done|apply Hxid]|].
    etrans; [by apply after_skip|].
    apply (after_number 99 _ [91] 112 (drop 1 (str_bytes "prepared_at_secs"))); try done; [repeat constructor; done|repeat constructor; done|apply Hsecs]. }
  unfold subs_part. destruct subs as [|s rest] eqn:Es; [done|]. cbn [is_nil].
  change ((([COMMA] ++ json_key "committed_subxids" ++ encode_subxid_array (s :: rest)) ++ str_bytes "}"))
    with (COMMA :: ((json_key "committed_subxids" ++ str_bytes "[") ++ encode_subxids true (s :: rest) ++ [93]) ++ [125]).
  change (json_key "committed_subxids" ++ str_bytes "[") with (QUOTE :: drop 1 (json_key "committed_subxids" ++ str_bytes "[")).
  rewrite after_skip by done. rewrite <- app_assoc, after_hit, <- app_assoc. cbn [app].
  rewrite before_first_app by (eapply Forall_impl; [by apply encoded_chars|]; intros c [? _]; done).
  cbn [mbind option_bind]. destruct (is_nil (encode_subxids true (s :: rest))) eqn:E.
  { cbn [encode_subxids app] in E. destruct (decimal s ++ encode_subxids false rest) eqn:E'; [|done].
    apply app_nil in E' as [E' _]. by apply decimal_nonempty in E'. }
  by apply split_encoded.
Qed.

Lemma canonical_parse : secs < 2 ^ 63 ->
  parse_state_file (canonical_state_file_content gid xid subs secs) = Ok (mk_ParsedRecord gid xid subs secs).
Proof.
  intros Hlt. unfold parse_state_file. rewrite canonical_trim, canonical_gid. cbn [ok_or].
  rewrite canonical_xid. cbn [ok_or]. rewrite canonical_secs. cbn [ok_or]. rewrite canonical_subs. cbn [ok_or].
  destruct (Z.leb_spec (2 ^ 63) secs); [lia|]. by rewrite bool_decide_true.
Qed.
End canonical.

Lemma parse_part_width part n : parse_part part = Some n -> in_width U64 n.
Proof.
  unfold parse_part. destruct (is_nil part); [done|]. destruct (forallb is_ascii_digit part) eqn:E; [|done]. cbn [orb negb].
  intros Hp. eapply parse_u64_width; [|done]. apply Forall_forall. intros c Hc%list_elem_of_In. rewrite forallb_forall in E.
  specialize (E c Hc). unfold is_ascii_digit in E. lia.
Qed.

Lemma number_width json key n : extract_json_number json key = Some n -> in_width U64 n.
Proof.
  unfold extract_json_number. destruct (after_first _ json); [|done]. cbn [mbind option_bind].
  apply parse_u64_width, leading_digits_all.
Qed.

Lemma array_width json key ns : extract_json_u64_array json key = Some ns -> Forall (in_width U64) ns.
Proof.
  unfold extract_json_u64_array. destruct (after_first _ json) as [rest|]; [|intros [= <-]; constructor].
  destruct (before_first 93 rest) as [body|]; [|done]. cbn [mbind option_bind]. destruct (is_nil body); [intros [= <-]; constructor|].
  generalize (split_commas [] body). intros parts Hm. apply mapM_Some_1 in Hm. clear -Hm.
  induction Hm as [|p n parts ns Hp _ IH]; constructor; [by eapply parse_part_width|done].
Qed.

(** C38. The state file of a prepared transaction is read back exactly. The
    parser accepts a text iff, without surrounding white space, it is the
    canonical line of a record whose numbers fit their types, and then
    returns that record; in particular every identifier survives, whatever
    quotes, backslashes or field names it contains, and a line without the
    family of savepoints reads as the empty family. *)
Theorem state_file_exact content r :
  parse_state_file content = Ok r <->
  trim content = canonical_state_file_content (pr_gid r) (pr_xid r) (pr_committed_subxids r) (pr_prepared_at r) /\
  in_width U64 (pr_xid r) /\ Forall (in_width U64) (pr_committed_subxids r) /\ 0 <= pr_prepared_at r < 2 ^ 63.
Proof.
  split.
  - unfold parse_state_file. destruct (extract_json_string _ _) as [gid|]; [|done]. cbn [ok_or].
    destruct (extract_json_number (trim content) "xid") as [x|] eqn:Ex; [|done]. cbn [ok_or].
    destruct (extract_json_number (trim content) "prepared_at_secs") as [t|] eqn:Et; [|done]. cbn [ok_or].
    destruct (extract_json_u64_array _ _) as [subs|] eqn:Es; [|done]. cbn [ok_or].
    destruct (Z.leb_spec (2 ^ 63) t); [done|]. case_bool_decide as Hc; [|done]. intros [= <-]. cbn.
    split; [done|]. split; [by eapply number_width|]. split; [by eapply array_width|]. apply number_width in Et. unfold in_width in Et. lia.
  - destruct r as [gid x subs t]. cbn. intros (Hc & Hx & Hs & Ht).
    rewrite <- (canonical_parse gid x subs t) by (done || unfold in_width, U64; lia). unfold parse_state_file.
    rewrite Hc, canonical_trim. done.
Qed.

Example state_file_example :
  parse_state_file (32 :: canonical_state_file_content [QUOTE; COLON; BACKSLASH] 7 [8; 9] 5 ++ [10]) =
  Ok (mk_ParsedRecord [QUOTE; COLON; BACKSLASH] 7 [8; 9] 5).
Proof. vm_compute. reflexivity. Qed.
