(* ===== verification/TwoPhaseRace.v ===== *)
(** * Two-phase commit: interleaved sessions and crashes
    (ultrasql-txn, two_phase.rs; ultrasql-server, session/txn.rs)

    Sessions that prepare and resolve transactions run concurrently: every
    access to one of the coordinator's maps, every file-system call, every
    record appended and every change of the commit log is a step of its own,
    between steps of other sessions and of the transaction manager. A failed
    append leaves no record; a failure after the append ends the process,
    which is a crash. *)

From S2P Require Import Prelude CoreIds Snapshot Visibility Savepoint TxnManager TxnSystem TwoPhase.

Section race.
Context (is_alphanumeric : Z -> bool).

Abbreviation path := (state_file_path is_alphanumeric).

(** ** Sessions *)

(** What a session prepares: identifier, transaction, family and time. *)
Record request := mk_request { rq_gid : Text; rq_xid : Xid; rq_family : list Xid; rq_now : Z }.

(** The next step of a session: of [execute_prepare_transaction], or of
    [execute_commit_prepared] ([true]) and [execute_rollback_prepared]. *)
Inductive pc :=
| PCreate (r : request)
| PWrite (r : request)
| PSync (r : request)
| PDirSync (r : request)
| PEntry (r : request)
| PClean (r : request)
| PFail (x : Xid)
| RGet (gid : Text) (dec : bool)
| RNone (gid : Text)
| RValidate (txn : PreparedTxn) (dec : bool)
| RAppend (txn : PreparedTxn) (dec : bool)
| RFinalise (txn : PreparedTxn) (dec : bool)
| RRemove (txn : PreparedTxn)
| RDirSync (txn : PreparedTxn)
| RRelease (txn : PreparedTxn) (ok : bool)
| RErase (txn : PreparedTxn)
| RAbort (txn : PreparedTxn)
| RFatal (txn : PreparedTxn).

Record tsys := mk_tsys {
  ts_sys : sys;
  ts_prepared : gmap Text PreparedTxn;
  ts_resolving : gset Text;
  ts_dir : StateDir;
  ts_threads : gmap nat pc;
  (** the Commit ([true]) and Abort records of the second phase *)
  ts_wal : list (Xid * bool);
}.

Definition tsys_init (ssi : option Ssi.SsiManager) : tsys := mk_tsys (sys_init ssi) ∅ ∅ StateDir_new ∅ [].

Definition set_sys (σ : tsys) s := mk_tsys s (ts_prepared σ) (ts_resolving σ) (ts_dir σ) (ts_threads σ) (ts_wal σ).
Definition set_prepared (σ : tsys) p := mk_tsys (ts_sys σ) p (ts_resolving σ) (ts_dir σ) (ts_threads σ) (ts_wal σ).
Definition set_resolving (σ : tsys) r := mk_tsys (ts_sys σ) (ts_prepared σ) r (ts_dir σ) (ts_threads σ) (ts_wal σ).
Definition set_dir (σ : tsys) d := mk_tsys (ts_sys σ) (ts_prepared σ) (ts_resolving σ) d (ts_threads σ) (ts_wal σ).
Definition set_wal (σ : tsys) w := mk_tsys (ts_sys σ) (ts_prepared σ) (ts_resolving σ) (ts_dir σ) (ts_threads σ) w.
Definition goto (σ : tsys) (i : nat) (p : pc) : tsys :=
  mk_tsys (ts_sys σ) (ts_prepared σ) (ts_resolving σ) (ts_dir σ) (<[i := p]> (ts_threads σ)) (ts_wal σ).
Definition leave (σ : tsys) (i : nat) : tsys :=
  mk_tsys (ts_sys σ) (ts_prepared σ) (ts_resolving σ) (ts_dir σ) (base.delete i (ts_threads σ)) (ts_wal σ).

Definition content (r : request) : Text :=
  canonical_state_file_content (rq_gid r) (rq_xid r) (rq_family r) (Z.max 0 (rq_now r)).
Definition entry (r : request) : PreparedTxn :=
  mk_PreparedTxn (rq_gid r) (rq_xid r) (rq_family r) (rq_now r) (path (rq_gid r)).

(** [TransactionManager::prepare_transaction] as one call. *)
Definition prepare_transaction (gid : Text) (t : Transaction) (now : Z) : TP unit :=
  prepare is_alphanumeric gid (txn_xid t) (committed_subxid_family t) now.

(** PREPARE TRANSACTION in a session that owns the open transaction [x]: the
    check of the map. *)
Definition start_prepare (σ : tsys) (i : nat) (gid : Text) (x : Xid) (now : Z) : option tsys :=
  match ts_threads σ !! i, handles (ts_sys σ) !! x with
  | None, Some t =>
      Some (goto σ i (if bool_decide (is_Some (ts_prepared σ !! gid)) then PFail x
                      else PCreate (mk_request gid x (committed_subxid_family t) now)))
  | _, _ => None
  end.

(** COMMIT or ROLLBACK PREPARED: the reservation. *)
Definition start_resolve (σ : tsys) (i : nat) (gid : Text) (dec : bool) : option tsys :=
  match ts_threads σ !! i with
  | None =>
      if bool_decide (gid ∈ ts_resolving σ) then Some σ
      else Some (goto (set_resolving σ ({[gid]} ∪ ts_resolving σ)) i (RGet gid dec))
  | Some _ => None
  end.

Definition release (σ : tsys) (txn : PreparedTxn) : tsys := set_resolving σ (ts_resolving σ ∖ {[pt_gid txn]}).

(** One step of PREPARE TRANSACTION in session [i]; [o] is the outcome of its
    call, if it makes one. An error makes the session abort its transaction. *)
Definition prepare_step (σ : tsys) (i : nat) (o : io) (p : pc) : option tsys :=
  let dir := ts_dir σ in
  match p with
  | PCreate r =>
      let '(ok, d) := fs_create_new o (path (rq_gid r)) dir in
      Some (goto (set_dir σ d) i (if ok then PWrite r else PFail (rq_xid r)))
  | PWrite r =>
      let '(ok, d) := fs_write_all o (path (rq_gid r)) (content r) dir in
      Some (goto (set_dir σ d) i (if ok then PSync r else PFail (rq_xid r)))
  | PSync r =>
      let '(ok, d) := fs_durability_sync o (path (rq_gid r)) dir in
      Some (goto (set_dir σ d) i (if ok then PDirSync r else PFail (rq_xid r)))
  | PDirSync r =>
      let '(ok, d) := sync_state_directory IoOk o dir in
      Some (goto (set_dir σ d) i (if ok then PEntry r else PFail (rq_xid r)))
  | PEntry r =>
      match ts_prepared σ !! rq_gid r with
      | None =>
          Some (leave (set_sys (set_prepared σ (<[rq_gid r := entry r]> (ts_prepared σ)))
                 (sys_step (ts_sys σ) (OPrepare (rq_xid r)))) i)
      | Some other =>
          if pt_xid other =? rq_xid r then Some (leave (set_sys σ (sys_step (ts_sys σ) (OPrepare (rq_xid r)))) i)
          else Some (goto σ i (PClean r))
      end
  | PClean r =>
      let '(_, d) := fs_remove_file o (path (rq_gid r)) dir in Some (goto (set_dir σ d) i (PFail (rq_xid r)))
  | PFail x => Some (leave (set_sys σ (sys_step (ts_sys σ) (OAbort x))) i)
  | _ => None
  end.

(** One step of COMMIT PREPARED or ROLLBACK PREPARED up to the change of the
    commit log. *)
Definition decide_step (σ : tsys) (i : nat) (o : io) (p : pc) : option tsys :=
  match p with
  | RGet gid dec =>
      Some (goto σ i (match ts_prepared σ !! gid with Some txn => RValidate txn dec | None => RNone gid end))
  | RNone gid => Some (leave (set_resolving σ (ts_resolving σ ∖ {[gid]})) i)
  | RValidate txn dec =>
      Some (goto σ i (match validate_prepared (mgr (ts_sys σ)) (pt_xid txn) with Ok _ => RAppend txn dec | Err _ => RAbort txn end))
  | RAppend txn dec =>
      if io_ok o then Some (goto (set_wal σ (ts_wal σ ++ [(pt_xid txn, dec)])) i (RFinalise txn dec))
      else Some (goto σ i (RAbort txn))
  | RFinalise txn dec =>
      match finalise_prepared (mgr (ts_sys σ)) (pt_xid txn) (pt_committed_subxids txn) (if dec then Committed else Aborted) with
      | (m, Ok _) =>
          Some (goto (set_sys σ (mk_sys m (handles (ts_sys σ)) (base.delete (pt_xid txn) (prepared (ts_sys σ))))) i (RRemove txn))
      | (_, Err _) => Some (goto σ i (if dec then RAbort txn else RFatal txn))
      end
  | _ => None
  end.

(** One step of [finish_resolution] or [abort_resolution]. *)
Definition finish_step (σ : tsys) (i : nat) (o : io) (p : pc) : option tsys :=
  let dir := ts_dir σ in
  match p with
  | RRemove txn =>
      let '(r, d) := fs_remove_file o (pt_state_file txn) dir in
      Some (goto (set_dir σ d) i (match r with Removed => RDirSync txn | RemovedNotFound => RRelease txn true | RemovedErr => RRelease txn false end))
  | RDirSync txn =>
      let '(ok, d) := sync_state_directory IoOk o dir in Some (goto (set_dir σ d) i (RRelease txn ok))
  | RRelease txn ok =>
      if ok then Some (goto (release σ txn) i (RErase txn)) else Some (leave (release σ txn) i)
  | RErase txn => Some (leave (set_prepared σ (base.delete (pt_gid txn) (ts_prepared σ))) i)
  | RAbort txn => Some (leave (release σ txn) i)
  | _ => None
  end.

Definition advance (σ : tsys) (i : nat) (o : io) : option tsys :=
  match ts_threads σ !! i with
  | None => None
  | Some p =>
      match p with
      | PCreate _ | PWrite _ | PSync _ | PDirSync _ | PEntry _ | PClean _ | PFail _ => prepare_step σ i o p
      | RGet _ _ | RNone _ | RValidate _ _ | RAppend _ _ | RFinalise _ _ => decide_step σ i o p
      | RRemove _ | RDirSync _ | RRelease _ _ | RErase _ | RAbort _ => finish_step σ i o p
      | RFatal _ => None
      end
  end.

(** The transaction a session is preparing. *)
Definition prepares (p : pc) : option Xid :=
  match p with
  | PCreate r | PWrite r | PSync r | PDirSync r | PEntry r | PClean r => Some (rq_xid r)
  | PFail x => Some x
  | _ => None
  end.

(** The handle an operation of the manager works on. *)
Definition op_target (op : sys_op) : option Xid :=
  match op with
  | ORefresh x | OSavepoint x _ | ORollbackTo x _ | ORelease x _ | OCheckSerializable x | OFinalizeVisible x
  | OCommit x | OAbort x | OPrepare x | OResolvePrepared x _ => Some x
  | _ => None
  end.
Definition is_two_phase (op : sys_op) : bool := match op with OPrepare _ | OResolvePrepared _ _ => true | _ => false end.

(** The steps of the system, on a file system that can sync directories: a
    session that prepares a transaction owns its handle. *)
Inductive tstep (σ : tsys) : tsys -> Prop :=
| t_prepare i gid x now σ' :
    (forall j p, ts_threads σ !! j = Some p -> prepares p <> Some x) -> start_prepare σ i gid x now = Some σ' -> tstep σ σ'
| t_resolve i gid dec σ' : start_resolve σ i gid dec = Some σ' -> tstep σ σ'
| t_advance i o σ' : o <> IoInvalid -> tm_next_xid (mgr (ts_sys σ)) < U64 - 1 -> advance σ i o = Some σ' -> tstep σ σ'
| t_manager op :
    is_two_phase op = false -> tm_next_xid (mgr (ts_sys σ)) < U64 - 1 ->
    (forall j p x, ts_threads σ !! j = Some p -> prepares p = Some x -> op_target op <> Some x) ->
    tstep σ (set_sys σ (sys_step (ts_sys σ) op)).

Definition treachable (ssi : option Ssi.SsiManager) (σ : tsys) : Prop := rtc tstep (tsys_init ssi) σ.

(** ** The directory under the calls *)

Definition saved (d : StateDir) (a c : Text) : Prop :=
  sd_files d !! a = Some c /\ a ∈ sd_synced d /\ sd_disk d !! a = Some c.

(** A call on another file. *)
Record kept (d d' : StateDir) (a : Text) : Prop := {
  kp_file : sd_files d' !! a = sd_files d !! a;
  kp_synced : a ∈ sd_synced d -> a ∈ sd_synced d';
  kp_saved c : saved d a c -> saved d' a c;
}.

Lemma kept_refl d a : kept d d a.
Proof. by split. Qed.

Lemma disk_flush d a : sd_disk (fs_flush_dir d) !! a =
  if decide (a ∈ sd_synced d) then sd_files d !! a else if decide (a ∈ dom (sd_files d)) then sd_disk d !! a else None.
Proof.
  cbn. rewrite lookup_union. destruct (decide (a ∈ sd_synced d)) as [Hs|Hs].
  - rewrite (map_lookup_filter_None_2 _ (sd_disk d)); [|right; intros x _ [_ ?]; done].
    destruct (sd_files d !! a) as [t|] eqn:E.
    + rewrite (map_lookup_filter_Some_2 _ (sd_files d) a t E); [done|done].
    + rewrite (map_lookup_filter_None_2 _ (sd_files d)); [done|by left].
  - rewrite (map_lookup_filter_None_2 _ (sd_files d)); [|right; intros x _ ?; done]. rewrite (left_id None _).
    destruct (decide (a ∈ dom (sd_files d))) as [Hd|Hd].
    + destruct (sd_disk d !! a) as [t|] eqn:E.
      * by apply map_lookup_filter_Some_2.
      * apply map_lookup_filter_None_2. by left.
    + apply map_lookup_filter_None_2. right. intros x _ [? _]. done.
Qed.

Lemma create_kept o p d a : a <> p -> kept d (fs_create_new o p d).2 a.
Proof.
  intros Hne. unfold fs_create_new. case_match; [|by apply kept_refl]. cbn. split; cbn.
  - by rewrite lookup_insert_ne.
  - set_solver.
  - intros c (H1 & H2 & H3). split; cbn; [by rewrite lookup_insert_ne|]. split; [set_solver|done].
Qed.

Lemma write_kept o p t d a : a <> p -> kept d (fs_write_all o p t d).2 a.
Proof.
  intros Hne. unfold fs_write_all. cbn. split; cbn.
  - by rewrite lookup_insert_ne.
  - set_solver.
  - intros c (H1 & H2 & H3). split; cbn; [by rewrite lookup_insert_ne|]. split; [set_solver|done].
Qed.

Lemma sync_kept o p d a : kept d (fs_durability_sync o p d).2 a.
Proof.
  unfold fs_durability_sync. case_match; [|by apply kept_refl]. split; cbn; [done|set_solver|].
  intros c (H1 & H2 & H3). split; [done|]. split; [cbn; set_solver|done].
Qed.

Lemma dirsync_kept o d a : kept d (sync_state_directory IoOk o d).2 a.
Proof.
  unfold sync_state_directory. cbn. destruct o; [|by apply kept_refl|by apply kept_refl]. split; [done|done|].
  intros c (H1 & H2 & H3). split; [done|]. split; [done|]. cbn [snd]. by rewrite disk_flush, decide_True.
Qed.

Lemma remove_kept o p d a : a <> p -> kept d (fs_remove_file o p d).2 a.
Proof.
  intros Hne. unfold fs_remove_file. repeat case_match; [by apply kept_refl| |by apply kept_refl]. cbn. split; cbn.
  - by rewrite lookup_delete_ne.
  - set_solver.
  - intros c (Hc1 & Hc2 & Hc3). split; cbn; [by rewrite lookup_delete_ne|]. split; [set_solver|done].
Qed.

(** Every file holds a part of the line of a request of its name. *)
Definition names_ok (d : StateDir) : Prop :=
  forall n t, sd_files d !! n = Some t \/ sd_disk d !! n = Some t ->
    exists r m, path (rq_gid r) = n /\ t = take m (content r).

Lemma names_create o r d : names_ok d -> names_ok (fs_create_new o (path (rq_gid r)) d).2.
Proof.
  intros Hn. unfold fs_create_new. case_match; [|done]. intros n t [Hf|Hd]; cbn in *; [|by apply Hn; right].
  rewrite lookup_insert in Hf. case_decide; [|by apply Hn; left]. simplify_eq. by exists r, 0%nat.
Qed.

Lemma names_write o r d : names_ok d -> names_ok (fs_write_all o (path (rq_gid r)) (content r) d).2.
Proof.
  intros Hn n t [Hf|Hd]; cbn in *; [|by apply Hn; right].
  rewrite lookup_insert in Hf. case_decide; [|by apply Hn; left]. simplify_eq. exists r.
  destruct o; [exists (length (content r))|exists 0%nat|exists written]; (split; [done|]); [by rewrite take_ge|done|done].
Qed.

Lemma names_sync o p d : names_ok d -> names_ok (fs_durability_sync o p d).2.
Proof. intros Hn. unfold fs_durability_sync. by case_match. Qed.

Lemma names_dirsync o d : names_ok d -> names_ok (sync_state_directory IoOk o d).2.
Proof.
  intros Hn. unfold sync_state_directory. cbn. destruct o; try done. cbn [snd]. intros n t [Hf|Hd]; [by apply Hn; left|].
  rewrite disk_flush in Hd. repeat case_decide; [by apply Hn; left|by apply Hn; right|done].
Qed.

Lemma names_remove o p d : names_ok d -> names_ok (fs_remove_file o p d).2.
Proof.
  intros Hn. unfold fs_remove_file. repeat case_match; try done. cbn. intros n t' [Hf|Hd]; cbn in *; [|by apply Hn; right].
  apply lookup_delete_Some in Hf as [_ Hf]. apply Hn. by left.
Qed.

(** ** The manager under its operations *)

Lemma op_prepared s op : is_two_phase op = false -> prepared (sys_step s op) = prepared s.
Proof.
  intros Hop. destruct op; cbn [sys_step]; unfold on_handle; try done; repeat case_match; done.
Qed.

Lemma op_handles s op x t : sys_inv s ->
  handles s !! x = Some t -> op_target op <> Some x -> handles (sys_step s op) !! x = Some t.
Proof.
  intros Hs Hx Ht. destruct op; cbn [sys_step op_target] in *; unfold on_handle; try done;
    try (repeat case_match; cbn [handles]; rewrite ?lookup_insert_ne, ?lookup_delete_ne by congruence; done).
  assert (txn_xid (begin (mgr s) iso).1 = tm_next_xid (mgr s)) as Hn by reflexivity.
  destruct (begin (mgr s) iso) as [t' m]. cbn [handles fst] in *.
  rewrite lookup_insert_ne; [done|]. rewrite Hn. intros <-.
  pose proof (handle_fam s _ _ Hx) as Hf. pose proof (next_no_fam _ _ (si_core _ Hs)) as Hno. cbn in Hno. congruence.
Qed.

(** ** The invariant *)

(** The identifier a session has reserved, the transaction it may decide, the
    file it alone may touch. *)
Definition holds (p : pc) : option Text :=
  match p with
  | RGet gid _ | RNone gid => Some gid
  | RValidate txn _ | RAppend txn _ | RFinalise txn _ | RRemove txn | RDirSync txn | RRelease txn _ | RAbort txn => Some (pt_gid txn)
  | _ => None
  end.
Definition decides (p : pc) : option Xid :=
  match p with
  | RAppend txn _ | RFinalise txn _ | RRemove txn | RDirSync txn | RRelease txn _ | RErase txn => Some (pt_xid txn)
  | _ => None
  end.
Definition owns (p : pc) : option Text :=
  match p with
  | PWrite r | PSync r | PDirSync r | PEntry r | PClean r => Some (path (rq_gid r))
  | RRemove txn => Some (pt_state_file txn)
  | _ => None
  end.

Definition disj {A} (a b : option A) : Prop := forall x, a = Some x -> b = Some x -> False.
Record apart (p q : pc) : Prop := {
  ap_prepares : disj (prepares p) (prepares q);
  ap_holds : disj (holds p) (holds q);
  ap_decides : disj (decides p) (decides q);
  ap_owns : disj (owns p) (owns q);
}.

Definition clog (s : sys) : gmap Xid XidStatus := tm_clog (mgr s).
Definition decided (s : sys) (x : Xid) : Prop := exists st, is_terminal st = true /\ clog s !! x = Some st.
Definition live (s : sys) (txn : PreparedTxn) : Prop := prepared s !! pt_xid txn = Some (pt_committed_subxids txn).
Definition file_of (txn : PreparedTxn) : Text :=
  canonical_state_file_content (pt_gid txn) (pt_xid txn) (pt_committed_subxids txn) (Z.max 0 (pt_prepared_at txn)).
Definition open_handle (s : sys) (r : request) : Prop :=
  exists t, handles s !! rq_xid r = Some t /\ committed_subxid_family t = rq_family r.

(** What a session relies on at each point. *)
Definition pc_ok (s : sys) (co : gmap Text PreparedTxn) (res : gset Text) (d : StateDir) (p : pc) : Prop :=
  (forall g, holds p = Some g -> g ∈ res) /\
  (forall a, owns p = Some a -> is_Some (sd_files d !! a)) /\
  match p with
  | PCreate r | PWrite r | PClean r => open_handle s r
  | PSync r => open_handle s r /\ sd_files d !! path (rq_gid r) = Some (content r)
  | PDirSync r => open_handle s r /\ sd_files d !! path (rq_gid r) = Some (content r) /\ path (rq_gid r) ∈ sd_synced d
  | PEntry r => open_handle s r /\ saved d (path (rq_gid r)) (content r)
  | RValidate txn _ => co !! pt_gid txn = Some txn \/ decided s (pt_xid txn)
  | RAppend txn _ | RFinalise txn _ => co !! pt_gid txn = Some txn /\ live s txn
  | RRemove txn | RDirSync txn | RRelease txn _ | RErase txn => co !! pt_gid txn = Some txn /\ decided s (pt_xid txn)
  | _ => True
  end.

Record entries_ok (s : sys) (co : gmap Text PreparedTxn) (d : StateDir) : Prop := {
  eo_entry (g : Text) (txn : PreparedTxn) : co !! g = Some txn ->
    pt_gid txn = g /\ pt_state_file txn = path g /\ (live s txn \/ decided s (pt_xid txn));
  eo_xids (g g' : Text) (t t' : PreparedTxn) : co !! g = Some t -> co !! g' = Some t' -> pt_xid t = pt_xid t' -> g = g';
  eo_saved (g : Text) (txn : PreparedTxn) : co !! g = Some txn -> live s txn -> saved d (path g) (file_of txn);
  eo_paths (g g' : Text) (t t' : PreparedTxn) : co !! g = Some t -> co !! g' = Some t' -> live s t -> live s t' -> path g = path g' -> g = g';
}.

Record wal_ok (s : sys) (th : gmap nat pc) (wal : list (Xid * bool)) : Prop := {
  wo_once : NoDup wal.*1;
  wo_status (x : Xid) (dec : bool) : (x, dec) ∈ wal -> clog s !! x = Some (if dec then Committed else Aborted) \/
    exists i txn, th !! i = Some (RFinalise txn dec) /\ pt_xid txn = x;
}.

Record tinv (σ : tsys) : Prop := {
  ti_sys : sys_inv (ts_sys σ);
  ti_entries : entries_ok (ts_sys σ) (ts_prepared σ) (ts_dir σ);
  ti_free i p g txn : ts_threads σ !! i = Some p -> ts_prepared σ !! g = Some txn -> live (ts_sys σ) txn -> owns p <> Some (path g);
  ti_pc i p : ts_threads σ !! i = Some p -> pc_ok (ts_sys σ) (ts_prepared σ) (ts_resolving σ) (ts_dir σ) p;
  ti_apart i j p q : i <> j -> ts_threads σ !! i = Some p -> ts_threads σ !! j = Some q -> apart p q;
  ti_wal : wal_ok (ts_sys σ) (ts_threads σ) (ts_wal σ);
  ti_names : names_ok (ts_dir σ);
}.

(** ** Facts of the manager's invariant *)

Lemma live_running s txn : sys_inv s -> live s txn -> clog s !! pt_xid txn = Some InProgress.
Proof.
  intros Hs Hl. apply (ci_top _ _ (si_core _ Hs) _ (list_to_set (pt_committed_subxids txn))). unfold sys_fams.
  rewrite lookup_union_r; [by rewrite lookup_fmap, Hl|]. rewrite lookup_fmap. destruct (handles s !! pt_xid txn) as [t|] eqn:E; [|done].
  pose proof (si_disj _ Hs) as Hd. apply elem_of_dom_2 in E. apply elem_of_dom_2 in Hl. set_solver.
Qed.

Lemma live_undecided s txn : sys_inv s -> live s txn -> ~ decided s (pt_xid txn).
Proof. intros Hs Hl (st & Hst & Hc). rewrite (live_running s txn Hs Hl) in Hc. by simplify_eq. Qed.

Lemma handle_running s x t : sys_inv s -> handles s !! x = Some t -> clog s !! x = Some InProgress.
Proof. intros Hs Hx. apply (ci_top _ _ (si_core _ Hs) _ _ (handle_fam s _ _ Hx)). Qed.

Lemma decided_ext s s' x : core_ext (core_of (mgr s)) (core_of (mgr s')) -> decided s x -> decided s' x.
Proof. intros He (st & Hst & Hc). exists st. split; [done|]. by apply (ce_final _ _ He). Qed.

(** A step that keeps what a session relies on. *)
Record harmless (s s' : sys) (co co' : gmap Text PreparedTxn) (res res' : gset Text) (d d' : StateDir) (q : pc) : Prop := {
  hl_handle x t : prepares q = Some x -> handles s !! x = Some t -> handles s' !! x = Some t;
  hl_res g : holds q = Some g -> g ∈ res -> g ∈ res';
  hl_dir a : owns q = Some a -> kept d d' a;
  hl_co txn : (exists dec, q = RValidate txn dec) \/ decides q = Some (pt_xid txn) -> co !! pt_gid txn = Some txn ->
    co' !! pt_gid txn = Some txn \/ (exists dec, q = RValidate txn dec) /\ decided s' (pt_xid txn);
  hl_live txn : decides q = Some (pt_xid txn) -> live s txn -> live s' txn;
  hl_ext : core_ext (core_of (mgr s)) (core_of (mgr s'));
}.

Lemma pc_ok_harmless s s' co co' res res' d d' q :
  harmless s s' co co' res res' d d' q -> pc_ok s co res d q -> pc_ok s' co' res' d' q.
Proof.
  intros H (Hh & Ho & Hp). split; [intros g Hg; apply (hl_res _ _ _ _ _ _ _ _ _ H g Hg), Hh, Hg|].
  split; [intros a Ha; rewrite (kp_file _ _ _ (hl_dir _ _ _ _ _ _ _ _ _ H a Ha)); by apply Ho|].
  assert (Hoh : forall r, prepares q = Some (rq_xid r) -> open_handle s r -> open_handle s' r).
  { intros r Hr (t & Ht & Hf). exists t. split; [|done]. by apply (hl_handle _ _ _ _ _ _ _ _ _ H). }
  assert (Hde : forall x, decided s x -> decided s' x) by (intros x; apply decided_ext, H).
  assert (Hco : forall txn, decides q = Some (pt_xid txn) -> co !! pt_gid txn = Some txn -> co' !! pt_gid txn = Some txn).
  { intros txn Hd Hc. destruct (hl_co _ _ _ _ _ _ _ _ _ H txn (or_intror Hd) Hc) as [?|[(dec & ->) _]]; [done|]. done. }
  destruct q; cbn in *; try done; try (by apply Hoh).
  - destruct Hp as [Hr Hf]. split; [by apply Hoh|]. by rewrite (kp_file _ _ _ (hl_dir _ _ _ _ _ _ _ _ _ H _ eq_refl)).
  - destruct Hp as (Hr & Hf & Hsy). split; [by apply Hoh|]. pose proof (hl_dir _ _ _ _ _ _ _ _ _ H _ eq_refl) as Hk.
    split; [by rewrite (kp_file _ _ _ Hk)|]. by apply (kp_synced _ _ _ Hk).
  - destruct Hp as [Hr Hf]. split; [by apply Hoh|]. by apply (kp_saved _ _ _ (hl_dir _ _ _ _ _ _ _ _ _ H _ eq_refl)).
  - destruct Hp as [Hc|Hd]; [|by right; apply Hde]. destruct (hl_co _ _ _ _ _ _ _ _ _ H txn) as [?|[_ ?]]; eauto.
  - destruct Hp. split; [by apply Hco|]. by apply (hl_live _ _ _ _ _ _ _ _ _ H).
  - destruct Hp. split; [by apply Hco|]. by apply (hl_live _ _ _ _ _ _ _ _ _ H).
  - destruct Hp. split; [by apply Hco|by apply Hde].
  - destruct Hp. split; [by apply Hco|by apply Hde].
  - destruct Hp. split; [by apply Hco|by apply Hde].
  - destruct Hp. split; [by apply Hco|by apply Hde].
Qed.

(** ** Preservation *)

Definition sub {A} (a b : option A) : Prop := forall x, a = Some x -> b = Some x.
Record within (p' p : pc) : Prop := {
  wi_prepares : sub (prepares p') (prepares p);
  wi_holds : sub (holds p') (holds p);
  wi_decides : sub (decides p') (decides p);
  wi_owns : sub (owns p') (owns p);
}.

Lemma apart_within p' p q : within p' p -> apart p q -> apart p' q.
Proof. intros [H1 H2 H3 H4] [G1 G2 G3 G4]. split; intros x Hx; [by eapply G1, H1|by eapply G2, H2|by eapply G3, H3|by eapply G4, H4]. Qed.
Lemma apart_sym p q : apart p q -> apart q p.
Proof. intros [H1 H2 H3 H4]. split; intros x Hx Hy; [by eapply H1|by eapply H2|by eapply H3|by eapply H4]. Qed.

Definition move (th : gmap nat pc) (i : nat) (p : option pc) : gmap nat pc :=
  match p with Some p' => <[i := p']> th | None => base.delete i th end.

Lemma move_lookup th i p j : move th i p !! j = if decide (i = j) then p else th !! j.
Proof. destruct p; cbn; [by rewrite lookup_insert|by rewrite lookup_delete]. Qed.

Lemma tinv_step σ σ' i (p' : option pc) :
  tinv σ -> ts_threads σ' = move (ts_threads σ) i p' ->
  sys_inv (ts_sys σ') -> entries_ok (ts_sys σ') (ts_prepared σ') (ts_dir σ') -> names_ok (ts_dir σ') ->
  (forall j q, j <> i -> ts_threads σ !! j = Some q ->
    harmless (ts_sys σ) (ts_sys σ') (ts_prepared σ) (ts_prepared σ') (ts_resolving σ) (ts_resolving σ') (ts_dir σ) (ts_dir σ') q) ->
  (forall p, p' = Some p -> pc_ok (ts_sys σ') (ts_prepared σ') (ts_resolving σ') (ts_dir σ') p /\
    forall j q, j <> i -> ts_threads σ !! j = Some q -> apart p q) ->
  (forall j q g txn, ts_threads σ' !! j = Some q -> ts_prepared σ' !! g = Some txn -> live (ts_sys σ') txn -> owns q <> Some (path g)) ->
  wal_ok (ts_sys σ') (ts_threads σ') (ts_wal σ') -> tinv σ'.
Proof.
  intros Hi Hth Hs He Hn Hh Hp Hf Hw. split; try done.
  - intros j q. rewrite Hth, move_lookup. case_decide as Hj; [intros ->; by apply Hp|]. intros Hq.
    eapply pc_ok_harmless; [|by eapply (ti_pc _ Hi)]. apply (Hh j q); [congruence|done].
  - intros j k q r Hjk. rewrite Hth, !move_lookup. case_decide as H1; case_decide as H2; try congruence.
    + intros Hq Hr. apply (Hp q Hq) with k; [congruence|done].
    + intros Hq Hr. apply apart_sym. apply (Hp r Hr) with j; [congruence|done].
    + intros Hq Hr. by apply (ti_apart _ Hi j k).
Qed.

(** Nothing that other sessions rely on changes. *)
Lemma harmless_res σ res' d' q : (forall g, holds q = Some g -> g ∈ ts_resolving σ -> g ∈ res') -> (forall a, owns q = Some a -> kept (ts_dir σ) d' a) ->
  harmless (ts_sys σ) (ts_sys σ) (ts_prepared σ) (ts_prepared σ) (ts_resolving σ) res' (ts_dir σ) d' q.
Proof. intros Hr Hd. split; auto. reflexivity. Qed.

Lemma wal_move s s' th i p p' wal :
  wal_ok s th wal -> core_ext (core_of (mgr s)) (core_of (mgr s')) -> th !! i = p ->
  (forall txn dec, p = Some (RFinalise txn dec) -> (pt_xid txn, dec) ∈ wal -> clog s' !! pt_xid txn = Some (if dec then Committed else Aborted)) ->
  wal_ok s' (move th i p') wal.
Proof.
  intros [Ho Hst] He Hp Hd. split; [done|]. intros x dec Hin. destruct (Hst x dec Hin) as [Hc|(j & txn & Hj & Hx)].
  - left. apply (ce_final _ _ He); [by destruct dec|done].
  - destruct (decide (i = j)) as [->|Hne]; [left; subst; by apply Hd|]. right. exists j, txn. rewrite move_lookup, decide_False by done. done.
Qed.

(** A step of one session that leaves the manager and the map alone. *)
Lemma quiet_step σ i p p' res' d' :
  tinv σ -> ts_threads σ !! i = Some p -> (forall txn dec, p <> RFinalise txn dec) ->
  (forall q, p' = Some q -> within q p) ->
  (forall g, holds p <> Some g -> g ∈ ts_resolving σ -> g ∈ res') ->
  (forall a, owns p <> Some a -> is_Some (sd_files (ts_dir σ) !! a) -> kept (ts_dir σ) d' a) -> names_ok d' ->
  (forall q, p' = Some q -> pc_ok (ts_sys σ) (ts_prepared σ) res' d' q) ->
  tinv (mk_tsys (ts_sys σ) (ts_prepared σ) res' d' (move (ts_threads σ) i p') (ts_wal σ)).
Proof.
  intros Hi Hp Hnf Hwi Hres Hdir Hnm Hpc. pose proof (ti_entries _ Hi) as He.
  assert (Hlive : forall g txn, ts_prepared σ !! g = Some txn -> live (ts_sys σ) txn -> kept (ts_dir σ) d' (path g)).
  { intros g txn Hg Hl. apply Hdir; [by eapply (ti_free _ Hi)|]. destruct (eo_saved _ _ _ He g txn Hg Hl) as [Hf _]. by eexists. }
  apply (tinv_step σ _ i p' Hi); cbn; try done.
  - apply Hi.
  - split; try apply He. intros g txn Hg Hl. apply (kp_saved _ _ _ (Hlive g txn Hg Hl)). by apply He.
  - intros j q Hj Hq. pose proof (ti_apart _ Hi j i q p Hj Hq Hp) as Hap. apply harmless_res.
    + intros g Hg. apply Hres. intros Hg'. by eapply (ap_holds _ _ Hap).
    + intros a Ha. apply Hdir; [intros Ha'; by eapply (ap_owns _ _ Hap)|]. by apply (ti_pc _ Hi j q Hq).
  - intros q ->. split; [by apply Hpc|]. intros j r Hj Hr. eapply apart_within; [by apply Hwi|]. by apply (ti_apart _ Hi i j).
  - intros j q g txn. rewrite move_lookup. case_decide as Hj; [|by apply (ti_free _ Hi)]. intros -> Hg Hl Ho.
    apply (wi_owns _ _ (Hwi q eq_refl)) in Ho. by eapply (ti_free _ Hi).
  - eapply wal_move; [apply Hi|reflexivity|done|]. intros txn dec [= ->]. by destruct (Hnf txn dec).
Qed.

Ltac within_solver := split; intros ? ?; cbn in *; simplify_eq; done.

(** The steps that change the reservation or the caller's own file only. *)
Lemma quiet_preserves σ i p o σ' : tinv σ -> ts_threads σ !! i = Some p -> o <> IoInvalid -> advance σ i o = Some σ' ->
  match p with
  | PCreate _ | PEntry _ | PFail _ | RValidate _ _ | RAppend _ _ | RFinalise _ _ | RErase _ => True
  | _ => tinv σ'
  end.
Proof.
  intros Hi Hp Ho. unfold advance, prepare_step, decide_step, finish_step. rewrite Hp. pose proof (ti_pc _ Hi i p Hp) as (Hh & Hw & Hok). pose proof (ti_names _ Hi) as Hnm.
  destruct p; try done; cbn in Hok.
  - destruct (fs_write_all o (path (rq_gid r)) (content r) (ts_dir σ)) as [ok d'] eqn:E. intros [= <-].
    pose proof (f_equal snd E) as E2. cbn [snd] in E2.
    apply (quiet_step σ i (PWrite r) (Some (if ok then PSync r else PFail (rq_xid r))) (ts_resolving σ) d'); try done.
    + intros q [= <-]. destruct ok; within_solver.
    + intros a Ha _. rewrite <- E2. apply write_kept. intros ->. by apply Ha.
    + rewrite <- E2. by apply names_write.
    + intros q [= <-]. unfold fs_write_all in E. destruct o; cbn in E; simplify_eq; cbn.
      * split; [done|]. split; [intros a [= <-]; cbn; rewrite lookup_insert_eq; by eexists|]. split; [done|]. cbn. by rewrite lookup_insert_eq.
      * by split.
  - destruct (fs_durability_sync o (path (rq_gid r)) (ts_dir σ)) as [ok d'] eqn:E. intros [= <-].
    pose proof (f_equal snd E) as E2. cbn [snd] in E2. destruct Hok as [Hr Hf].
    apply (quiet_step σ i (PSync r) (Some (if ok then PDirSync r else PFail (rq_xid r))) (ts_resolving σ) d'); try done.
    + intros q [= <-]. destruct ok; within_solver.
    + intros a Ha _. rewrite <- E2. apply sync_kept.
    + rewrite <- E2. by apply names_sync.
    + intros q [= <-]. unfold fs_durability_sync in E. destruct o; cbn in E; simplify_eq; cbn.
      * split; [done|]. split; [intros a [= <-]; cbn; by eexists|]. split; [done|]. cbn. split; [done|]. by apply elem_of_union_l, elem_of_singleton_2.
      * by split.
  - destruct (sync_state_directory IoOk o (ts_dir σ)) as [ok d'] eqn:E. intros [= <-].
    pose proof (f_equal snd E) as E2. cbn [snd] in E2. destruct Hok as (Hr & Hf & Hs).
    apply (quiet_step σ i (PDirSync r) (Some (if ok then PEntry r else PFail (rq_xid r))) (ts_resolving σ) d'); try done.
    + intros q [= <-]. destruct ok; within_solver.
    + intros a Ha _. rewrite <- E2. apply dirsync_kept.
    + rewrite <- E2. by apply names_dirsync.
    + intros q [= <-]. destruct o; cbn in E; simplify_eq; cbn.
      * split; [done|]. split; [intros a [= <-]; cbn; by eexists|]. split; [done|]. split; [done|]. split; [done|].
        rewrite disk_flush, decide_True by done. done.
      * by split.
  - destruct (fs_remove_file o (path (rq_gid r)) (ts_dir σ)) as [rm d'] eqn:E. intros [= <-].
    pose proof (f_equal snd E) as E2. cbn [snd] in E2.
    apply (quiet_step σ i (PClean r) (Some (PFail (rq_xid r))) (ts_resolving σ) d'); try done.
    + intros q [= <-]. within_solver.
    + intros a Ha _. rewrite <- E2. apply remove_kept. intros ->. by apply Ha.
    + rewrite <- E2. by apply names_remove.
    + intros q [= <-]. by split.
  - intros [= <-].
    apply (quiet_step σ i (RGet gid dec) (Some (match ts_prepared σ !! gid with Some txn => RValidate txn dec | None => RNone gid end))
      (ts_resolving σ) (ts_dir σ)); try done; try (intros; apply kept_refl).
    + intros q [= <-]. destruct (ts_prepared σ !! gid) as [txn|] eqn:Eg; [|within_solver].
      destruct (eo_entry _ _ _ (ti_entries _ Hi) _ _ Eg) as [<- _]. within_solver.
    + intros q [= <-]. destruct (ts_prepared σ !! gid) as [txn|] eqn:Eg; [|by split].
      destruct (eo_entry _ _ _ (ti_entries _ Hi) _ _ Eg) as [Hg _]. split; [intros g; cbn; rewrite Hg; apply Hh|]. split; [done|].
      left. by rewrite Hg.
  - intros [= <-].
    apply (quiet_step σ i (RNone gid) None (ts_resolving σ ∖ {[gid]}) (ts_dir σ)); try done; try (intros; apply kept_refl).
    intros g Hg Hin. apply elem_of_difference. split; [done|]. intros ->%elem_of_singleton. by apply Hg.
  - destruct (fs_remove_file o (pt_state_file txn) (ts_dir σ)) as [rm d'] eqn:E. intros [= <-].
    pose proof (f_equal snd E) as E2. cbn [snd] in E2.
    apply (quiet_step σ i (RRemove txn) (Some (match rm with Removed => RDirSync txn | RemovedNotFound => RRelease txn true | RemovedErr => RRelease txn false end))
      (ts_resolving σ) d'); try done.
    + intros q [= <-]. destruct rm; within_solver.
    + intros a Ha _. rewrite <- E2. apply remove_kept. intros ->. by apply Ha.
    + rewrite <- E2. by apply names_remove.
    + intros q [= <-]. destruct rm; (split; [done|]); by split.
  - destruct (sync_state_directory IoOk o (ts_dir σ)) as [ok d'] eqn:E. intros [= <-].
    pose proof (f_equal snd E) as E2. cbn [snd] in E2.
    apply (quiet_step σ i (RDirSync txn) (Some (RRelease txn ok)) (ts_resolving σ) d'); try done.
    + intros q [= <-]. within_solver.
    + intros a Ha _. rewrite <- E2. apply dirsync_kept.
    + rewrite <- E2. by apply names_dirsync.
    + intros q [= <-]. split; [done|]. by split.
  - destruct ok; intros [= <-].
    + apply (quiet_step σ i (RRelease txn true) (Some (RErase txn)) (ts_resolving σ ∖ {[pt_gid txn]}) (ts_dir σ)); try done; try (intros; apply kept_refl).
      * intros q [= <-]. within_solver.
      * intros g Hg Hin. apply elem_of_difference. split; [done|]. intros ->%elem_of_singleton. by apply Hg.
      * intros q [= <-]. by split.
    + apply (quiet_step σ i (RRelease txn false) None (ts_resolving σ ∖ {[pt_gid txn]}) (ts_dir σ)); try done; try (intros; apply kept_refl).
      intros g Hg Hin. apply elem_of_difference. split; [done|]. intros ->%elem_of_singleton. by apply Hg.
  - intros [= <-].
    apply (quiet_step σ i (RAbort txn) None (ts_resolving σ ∖ {[pt_gid txn]}) (ts_dir σ)); try done; try (intros; apply kept_refl).
    intros g Hg Hin. apply elem_of_difference. split; [done|]. intros ->%elem_of_singleton. by apply Hg.
Qed.

(** An operation of the manager, and the end of session [i] if it was about
    to abort. *)
Lemma manager_preserves σ i op :
  tinv σ -> is_two_phase op = false -> tm_next_xid (mgr (ts_sys σ)) < U64 - 1 ->
  (forall p, ts_threads σ !! i = Some p -> exists x, p = PFail x) ->
  (forall j q x, j <> i -> ts_threads σ !! j = Some q -> prepares q = Some x -> op_target op <> Some x) ->
  tinv (leave (set_sys σ (sys_step (ts_sys σ) op)) i).
Proof.
  intros Hi Hop Hsp Hend Hown. destruct (step_preserves _ _ (ti_sys _ Hi) (do_step _ op Hsp)) as [Hs' Hext].
  pose proof (op_prepared (ts_sys σ) op Hop) as Hpr. pose proof (ti_entries _ Hi) as He.
  assert (Hlive : forall txn, live (sys_step (ts_sys σ) op) txn <-> live (ts_sys σ) txn) by (intros txn; unfold live; by rewrite Hpr).
  apply (tinv_step σ _ i None Hi); try done.
  - split.
    + intros g txn Hg. destruct (eo_entry _ _ _ He g txn Hg) as (H1 & H2 & [H3|H3]); (split; [done|]); (split; [done|]).
      * left. by apply Hlive.
      * right. by eapply decided_ext.
    + apply He.
    + intros g txn Hg Hl%Hlive. by apply He.
    + intros g g' t t' Hg Hg' Hl%Hlive Hl'%Hlive. by apply (eo_paths _ _ _ He g g' t t').
  - apply Hi.
  - intros j q Hj Hq. split; try done; try (intros; apply kept_refl).
    + intros x t Hx Ht. apply op_handles; [apply Hi|done|by apply (Hown j q)].
    + intros txn _ Hc. by left.
    + intros txn _ Hl. by apply Hlive.
  - intros j q g txn. cbn. rewrite lookup_delete_Some. intros [_ Hj] Hg Hl%Hlive. by apply (ti_free _ Hi j q g txn).
  - apply (wal_move (ts_sys σ) _ (ts_threads σ) i (ts_threads σ !! i) None); [apply Hi|done|done|].
    intros txn dec Hp. destruct (Hend _ Hp) as [x ?]. done.
Qed.

Lemma create_preserves σ i r o σ' : tinv σ -> ts_threads σ !! i = Some (PCreate r) -> advance σ i o = Some σ' -> tinv σ'.
Proof.
  intros Hi Hp. unfold advance, prepare_step, decide_step, finish_step. rewrite Hp. pose proof (ti_pc _ Hi i _ Hp) as (Hh & Hw & Hok). cbn in Hok.
  pose proof (ti_names _ Hi) as Hnm. pose proof (ti_entries _ Hi) as He.
  destruct (fs_create_new o (path (rq_gid r)) (ts_dir σ)) as [ok d'] eqn:E. intros [= <-].
  pose proof (f_equal snd E) as E2. cbn [snd] in E2. destruct ok.
  2:{ assert (d' = ts_dir σ) as -> by (unfold fs_create_new in E; case_match; by simplify_eq).
      apply (quiet_step σ i (PCreate r) (Some (PFail (rq_xid r))) (ts_resolving σ) (ts_dir σ)); try done; try (intros; apply kept_refl).
      - intros q [= <-]. within_solver.
      - intros q [= <-]. by split. }
  assert (sd_files (ts_dir σ) !! path (rq_gid r) = None /\ sd_files d' !! path (rq_gid r) = Some []) as [Habs Hnew].
  { unfold fs_create_new in E. case_match eqn:Ec; simplify_eq. apply andb_true_iff in Ec as [_ Ec%bool_decide_eq_true].
    split; [done|]. rewrite <- E. apply lookup_insert_eq. }
  assert (Hk : forall a, is_Some (sd_files (ts_dir σ) !! a) -> kept (ts_dir σ) d' a).
  { intros a [t Ha]. rewrite <- E2. apply create_kept. intros ->. congruence. }
  assert (Hlv : forall g txn, ts_prepared σ !! g = Some txn -> live (ts_sys σ) txn -> is_Some (sd_files (ts_dir σ) !! path g)).
  { intros g txn Hg Hl. destruct (eo_saved _ _ _ He g txn Hg Hl) as [Hf _]. by eexists. }
  apply (tinv_step σ _ i (Some (PWrite r)) Hi); cbn; try done.
  - apply Hi.
  - split; try apply He. intros g txn Hg Hl. apply (kp_saved _ _ _ (Hk _ (Hlv g txn Hg Hl))). by apply He.
  - rewrite <- E2. by apply names_create.
  - intros j q Hj Hq. apply harmless_res; [done|]. intros a Ha. apply Hk. by apply (ti_pc _ Hi j q Hq).
  - intros p [= <-]. split.
    + split; [done|]. split; [|done]. intros a [= <-]. by eexists.
    + intros j q Hj Hq. destruct (ti_apart _ Hi i j _ _ (not_eq_sym Hj) Hp Hq) as [H1 H2 H3 H4]. split; try done.
      intros a [= <-] Ha. destruct (proj1 (proj2 (ti_pc _ Hi j q Hq)) _ Ha). congruence.
  - intros j q g txn. rewrite lookup_insert. case_decide as Hj; [|by apply (ti_free _ Hi)]. intros [= <-] Hg Hl [= Ha].
    destruct (Hlv g txn Hg Hl) as [t Ht]. congruence.
  - apply (wal_move (ts_sys σ) _ (ts_threads σ) i (Some (PCreate r)) (Some (PWrite r))); [apply Hi|reflexivity|exact Hp|]. done.
Qed.

Lemma validate_preserves σ i txn dec o σ' : tinv σ -> ts_threads σ !! i = Some (RValidate txn dec) -> advance σ i o = Some σ' -> tinv σ'.
Proof.
  intros Hi Hp. unfold advance, prepare_step, decide_step, finish_step. rewrite Hp. pose proof (ti_pc _ Hi i _ Hp) as (Hh & Hw & Hok). cbn in Hok.
  pose proof (ti_entries _ Hi) as He. destruct (validate_prepared (mgr (ts_sys σ)) (pt_xid txn)) as [u|e] eqn:Ev; intros [= <-].
  2:{ apply (quiet_step σ i (RValidate txn dec) (Some (RAbort txn)) (ts_resolving σ) (ts_dir σ)); try done; try (intros; apply kept_refl); try apply Hi.
      - intros q [= <-]. within_solver.
      - intros q [= <-]. by split. }
  assert (Hrun : clog (ts_sys σ) !! pt_xid txn = Some InProgress).
  { unfold validate_prepared in Ev. unfold clog. by destruct (tm_clog _ !! pt_xid txn) as [[]|]. }
  assert (Hund : ~ decided (ts_sys σ) (pt_xid txn)) by (intros (st & Hst & Hc); rewrite Hrun in Hc; by simplify_eq).
  assert (Hco : ts_prepared σ !! pt_gid txn = Some txn) by (by destruct Hok).
  assert (Hlv : live (ts_sys σ) txn) by (by destruct (eo_entry _ _ _ He _ _ Hco) as (_ & _ & [?|?])).
  apply (tinv_step σ _ i (Some (RAppend txn dec)) Hi); cbn; try done; try apply Hi.
  - intros j q Hj Hq. apply harmless_res; [done|]. intros; apply kept_refl.
  - intros p [= <-]. split; [by split|]. intros j q Hj Hq. destruct (ti_apart _ Hi i j _ _ (not_eq_sym Hj) Hp Hq) as [H1 H2 H3 H4].
    split; try done. intros x [= <-] Hx. pose proof (ti_pc _ Hi j q Hq) as (_ & _ & Hq2).
    assert (Hsame : forall t, ts_prepared σ !! pt_gid t = Some t -> pt_xid t = pt_xid txn -> t = txn).
    { intros t Ht Hxt. pose proof (eo_xids _ _ _ He _ _ _ _ Ht Hco Hxt) as Hg. rewrite Hg in Ht. congruence. }
    destruct q; cbn in Hx, Hq2; try done; injection Hx as Hx; destruct Hq2 as [Hc Hd]; pose proof (Hsame _ Hc Hx) as ->;
      first [exact (Hund Hd)|eapply (H2 (pt_gid txn)); reflexivity].
  - intros j q g t. rewrite lookup_insert. case_decide as Hj; [|by apply (ti_free _ Hi)]. by intros [= <-].
  - apply (wal_move (ts_sys σ) _ (ts_threads σ) i (Some (RValidate txn dec)) (Some (RAppend txn dec))); [apply Hi|reflexivity|exact Hp|]. done.
Qed.

Lemma append_preserves σ i txn dec o σ' : tinv σ -> ts_threads σ !! i = Some (RAppend txn dec) -> advance σ i o = Some σ' -> tinv σ'.
Proof.
  intros Hi Hp. unfold advance, prepare_step, decide_step, finish_step. rewrite Hp. pose proof (ti_pc _ Hi i _ Hp) as (Hh & Hw & Hok). cbn in Hok.
  destruct (io_ok o); intros [= <-].
  2:{ apply (quiet_step σ i (RAppend txn dec) (Some (RAbort txn)) (ts_resolving σ) (ts_dir σ)); try done; try (intros; apply kept_refl); try apply Hi.
      - intros q [= <-]. within_solver.
      - intros q [= <-]. by split. }
  destruct Hok as [Hco Hlv]. pose proof (ti_wal _ Hi) as [Ho Hst].
  apply (tinv_step σ _ i (Some (RFinalise txn dec)) Hi); cbn; try done; try apply Hi.
  - intros j q Hj Hq. apply harmless_res; [done|]. intros; apply kept_refl.
  - intros p [= <-]. split; [by split|]. intros j q Hj Hq. eapply apart_within; [|by apply (ti_apart _ Hi i j)]. within_solver.
  - intros j q g t. rewrite lookup_insert. case_decide as Hj; [|by apply (ti_free _ Hi)]. by intros [= <-].
  - split.
    + rewrite fmap_app. apply NoDup_app. split; [done|]. split; [|apply NoDup_singleton].
      intros x Hx%list_elem_of_fmap [= ->]%list_elem_of_singleton. destruct Hx as ([y d] & Hy & Hin). cbn in Hy. subst y.
      destruct (Hst _ _ Hin) as [Hc|(j & t & Hj & Hx)].
      * rewrite (live_running _ _ (ti_sys _ Hi) Hlv) in Hc. by destruct d.
      * destruct (decide (j = i)) as [->|Hne]; [rewrite Hp in Hj; done|].
        eapply (ap_decides _ _ (ti_apart _ Hi j i _ _ Hne Hj Hp)); cbn; [by rewrite Hx|done].
    + intros x d [Hin|[= -> ->]%list_elem_of_singleton]%elem_of_app.
      * destruct (Hst x d Hin) as [Hc|(j & t & Hj & Hx)]; [by left|]. right. exists j, t. split; [|done].
        rewrite lookup_insert_ne; [done|]. intros ->. rewrite Hp in Hj. done.
      * right. exists i, txn. by rewrite lookup_insert_eq.
Qed.

Lemma finalise_live s txn (dec : bool) : sys_inv s -> live s txn ->
  exists m, finalise_prepared (mgr s) (pt_xid txn) (pt_committed_subxids txn) (if dec then Committed else Aborted) = (m, Ok tt) /\
    tm_clog m !! pt_xid txn = Some (if dec then Committed else Aborted).
Proof.
  intros Hs Hl. assert (HF : sys_fams s !! pt_xid txn = Some (list_to_set (pt_committed_subxids txn))).
  { unfold sys_fams. rewrite lookup_union_r; [by rewrite lookup_fmap, Hl|]. rewrite lookup_fmap.
    destruct (handles s !! pt_xid txn) as [t|] eqn:E; [|done].
    pose proof (si_disj _ Hs) as Hd. apply elem_of_dom_2 in E. apply elem_of_dom_2 in Hl. set_solver. }
  destruct (family_running s Hs _ _ _ HF eq_refl) as (H1 & H2 & H3). set (st := if dec then Committed else Aborted).
  assert (is_terminal st = true) as Hst by (by destruct dec). unfold finalise_prepared.
  destruct (terminate_running (mgr s) (pt_xid txn) (pt_committed_subxids txn) st true Hst H1 H3 H2) as (m' & -> & Hc & _).
  eexists. split; [done|]. apply (f_equal k_clog) in Hc. cbn in Hc |- *. rewrite Hc, lookup_kill, decide_True by set_solver. done.
Qed.

Lemma finalise_preserves σ i txn dec o σ' : tinv σ -> tm_next_xid (mgr (ts_sys σ)) < U64 - 1 ->
  ts_threads σ !! i = Some (RFinalise txn dec) -> advance σ i o = Some σ' -> tinv σ'.
Proof.
  intros Hi Hsp Hp. unfold advance, prepare_step, decide_step, finish_step. rewrite Hp. pose proof (ti_pc _ Hi i _ Hp) as (Hh & Hw & Hok). cbn in Hok. destruct Hok as [Hco Hlv].
  pose proof (ti_entries _ Hi) as He. destruct (finalise_live _ txn dec (ti_sys _ Hi) Hlv) as (m & Hfin & Hclog). rewrite Hfin. intros [= <-].
  set (s' := mk_sys m (handles (ts_sys σ)) (base.delete (pt_xid txn) (prepared (ts_sys σ)))).
  assert (s' = sys_step (ts_sys σ) (OResolvePrepared (pt_xid txn) dec)) as Hs'.
  { cbn [sys_step]. unfold live in Hlv. rewrite Hlv, Hfin. done. }
  destruct (step_preserves _ _ (ti_sys _ Hi) (do_step _ (OResolvePrepared (pt_xid txn) dec) Hsp)) as [Hinv Hext]. rewrite <- Hs' in Hinv, Hext.
  assert (Hdec : decided s' (pt_xid txn)) by (eexists; split; [|exact Hclog]; by destruct dec).
  assert (Hlive : forall t, live s' t -> live (ts_sys σ) t /\ pt_xid t <> pt_xid txn).
  { intros t Ht. unfold live, s' in Ht. cbn [prepared] in Ht. apply lookup_delete_Some in Ht as [Hne Ht]. split; [done|congruence]. }
  destruct (eo_entry _ _ _ He _ _ Hco) as (_ & Hsf & _). apply (tinv_step σ _ i (Some (RRemove txn)) Hi); cbn; try done; try apply Hi.
  - fold s'. split.
    + intros g t Hg. destruct (eo_entry _ _ _ He g t Hg) as (H1 & H2 & H3). split; [done|]. split; [done|].
      destruct (decide (pt_xid t = pt_xid txn)) as [Hx|Hx]; [right; by rewrite Hx|]. destruct H3 as [H3|H3]; [left|right; by eapply decided_ext].
      unfold live, s'. cbn [prepared]. by rewrite lookup_delete_ne.
    + apply He.
    + intros g t Hg [Hl _]%Hlive. by apply He.
    + intros g g' t t' Hg Hg' [Hl _]%Hlive [Hl' _]%Hlive. by apply (eo_paths _ _ _ He g g' t t').
  - intros j q Hj Hq. pose proof (ti_apart _ Hi j i _ _ Hj Hq Hp) as Hap. split; try done; try (intros; apply kept_refl).
    + intros t _ Hc. by left.
    + intros t Hd Hl. unfold live, s'. cbn [prepared]. rewrite lookup_delete_ne; [done|]. intros Hx.
      eapply (ap_decides _ _ Hap); [exact Hd|]. cbn. by rewrite Hx.
  - intros p [= <-]. split.
    + split; [done|]. split; [|done]. intros a [= <-]. rewrite Hsf. destruct (eo_saved _ _ _ He _ _ Hco Hlv) as [Hf _]. by eexists.
    + intros j q Hj Hq. destruct (ti_apart _ Hi i j _ _ (not_eq_sym Hj) Hp Hq) as [H1 H2 H3 H4]. split; try done.
      intros a [= <-] Ha. rewrite Hsf in Ha. by eapply (ti_free _ Hi j q).
  - intros j q g t. rewrite lookup_insert. case_decide as Hj.
    + intros [= <-] Hg [Hl Hx]%Hlive [= Ha]. apply Hx. rewrite Hsf in Ha.
      pose proof (eo_paths _ _ _ He _ _ _ _ Hco Hg Hlv Hl Ha) as <-. congruence.
    + intros Hq Hg [Hl _]%Hlive. by apply (ti_free _ Hi j q g t).
  - apply (wal_move (ts_sys σ) s' (ts_threads σ) i (Some (RFinalise txn dec)) (Some (RRemove txn))); [apply Hi|done|exact Hp|].
    intros t d [= <- <-] _. exact Hclog.
Qed.

Lemma erase_preserves σ i txn o σ' : tinv σ -> ts_threads σ !! i = Some (RErase txn) -> advance σ i o = Some σ' -> tinv σ'.
Proof.
  intros Hi Hp. unfold advance, prepare_step, decide_step, finish_step. rewrite Hp. pose proof (ti_pc _ Hi i _ Hp) as (Hh & Hw & Hok). cbn in Hok. destruct Hok as [Hco Hd].
  pose proof (ti_entries _ Hi) as He. intros [= <-].
  assert (Hsub : forall g t, base.delete (pt_gid txn) (ts_prepared σ) !! g = Some t -> ts_prepared σ !! g = Some t)
    by (intros g t [_ ?]%lookup_delete_Some; done).
  apply (tinv_step σ _ i None Hi); cbn; try done; try apply Hi.
  - split.
    + intros g t Hg%Hsub. by apply He.
    + intros g g' t t' Hg%Hsub Hg'%Hsub. by apply (eo_xids _ _ _ He g g' t t').
    + intros g t Hg%Hsub. by apply He.
    + intros g g' t t' Hg%Hsub Hg'%Hsub. by apply (eo_paths _ _ _ He g g' t t').
  - intros j q Hj Hq. pose proof (ti_apart _ Hi j i _ _ Hj Hq Hp) as Hap. split; try done; try (intros; apply kept_refl).
    intros t Hor Hc. destruct (decide (pt_gid txn = pt_gid t)) as [Hg|Hg]; [|left; by rewrite lookup_delete_ne].
    right. rewrite <- Hg, Hco in Hc. injection Hc as <-. split; [|done]. destruct Hor as [?|Hdq]; [done|].
    exfalso. by eapply (ap_decides _ _ Hap).
  - intros j q g t [_ Hq]%lookup_delete_Some Hg%Hsub. by apply (ti_free _ Hi j q g t).
  - apply (wal_move (ts_sys σ) _ (ts_threads σ) i (Some (RErase txn)) None); [apply Hi|reflexivity|exact Hp|]. done.
Qed.

(** A transaction with an open handle is in no entry. *)
Lemma open_not_entry σ x t g txn : tinv σ -> handles (ts_sys σ) !! x = Some t -> ts_prepared σ !! g = Some txn -> pt_xid txn <> x.
Proof.
  intros Hi Hx Hg <-. destruct (eo_entry _ _ _ (ti_entries _ Hi) g txn Hg) as (_ & _ & [Hl|(st & Hst & Hc)]).
  - unfold live in Hl. apply elem_of_dom_2 in Hl, Hx. by apply (proj1 (elem_of_disjoint _ _) (si_disj _ (ti_sys _ Hi)) _ Hx).
  - rewrite (handle_running _ _ _ (ti_sys _ Hi) Hx) in Hc. by simplify_eq.
Qed.

Lemma entry_preserves σ i r o σ' : tinv σ -> tm_next_xid (mgr (ts_sys σ)) < U64 - 1 ->
  ts_threads σ !! i = Some (PEntry r) -> advance σ i o = Some σ' -> tinv σ'.
Proof.
  intros Hi Hsp Hp. unfold advance, prepare_step, decide_step, finish_step. rewrite Hp. pose proof (ti_pc _ Hi i _ Hp) as (Hh & Hw & Hok). cbn in Hok.
  destruct Hok as [(t & Ht & Hfam) Hsaved]. pose proof (ti_entries _ Hi) as He.
  destruct (ts_prepared σ !! rq_gid r) as [other|] eqn:Eg.
  { destruct (Z.eqb_spec (pt_xid other) (rq_xid r)) as [Hx|_]; [by destruct (open_not_entry σ _ _ _ _ Hi Ht Eg)|]. intros [= <-].
    apply (quiet_step σ i (PEntry r) (Some (PClean r)) (ts_resolving σ) (ts_dir σ)); try done; try (intros; apply kept_refl); try apply Hi.
    - intros q [= <-]. within_solver.
    - intros q [= <-]. split; [done|]. split; [done|]. by exists t. }
  intros [= <-]. set (s' := sys_step (ts_sys σ) (OPrepare (rq_xid r))).
  destruct (step_preserves _ _ (ti_sys _ Hi) (do_step _ (OPrepare (rq_xid r)) Hsp)) as [Hinv Hext]. fold s' in Hinv, Hext.
  assert (s' = mk_sys (mgr (ts_sys σ)) (base.delete (rq_xid r) (handles (ts_sys σ))) (<[rq_xid r := rq_family r]> (prepared (ts_sys σ)))) as Es.
  { unfold s'. cbn [sys_step]. unfold on_handle. by rewrite Ht, Hfam. }
  change (tinv (leave (set_sys (set_prepared σ (<[rq_gid r := entry r]> (ts_prepared σ))) s') i)). clearbody s'.
  assert (Hnp : prepared (ts_sys σ) !! rq_xid r = None).
  { apply not_elem_of_dom. intros Hin. by apply (proj1 (elem_of_disjoint _ _) (si_disj _ (ti_sys _ Hi)) _ (elem_of_dom_2 _ _ _ Ht)). }
  assert (Hold : forall g txn, ts_prepared σ !! g = Some txn -> live s' txn <-> live (ts_sys σ) txn).
  { intros g txn Hg. unfold live. rewrite Es. cbn [prepared]. rewrite lookup_insert_ne; [done|]. intros Hx. by eapply (open_not_entry σ _ _ _ _ Hi Ht Hg). }
  apply (tinv_step σ _ i None Hi); cbn; try done; try apply Hi.
  - split.
    + intros g txn. rewrite lookup_insert. case_decide as Hg.
      * intros [= <-]. subst g. split; [done|]. split; [done|]. left. unfold live. rewrite Es. cbn. by rewrite lookup_insert_eq.
      * intros Hin. destruct (eo_entry _ _ _ He g txn Hin) as (H1 & H2 & [H3|H3]); (split; [done|]); (split; [done|]).
        -- left. by apply (Hold g).
        -- right. by eapply decided_ext.
    + intros g g' u u'. rewrite !lookup_insert. case_decide as Hg; case_decide as Hg'; try congruence.
      * intros [= <-] Hin Hx. by destruct (open_not_entry σ _ _ _ _ Hi Ht Hin).
      * intros Hin [= <-] Hx. by destruct (open_not_entry σ _ _ _ _ Hi Ht Hin).
      * apply (eo_xids _ _ _ He).
    + intros g txn. rewrite lookup_insert. case_decide as Hg; [intros [= <-] _; by subst g|].
      intros Hin Hl%(Hold g); [|done]. by apply He.
    + intros g g' u u'. rewrite !lookup_insert. case_decide as Hg; case_decide as Hg'; try congruence.
      * intros [= <-] Hin _ Hl%(Hold g'); [|done]. subst g. intros Hpath. exfalso. apply (ti_free _ Hi i _ g' u' Hp Hin Hl). cbn. by rewrite Hpath.
      * intros Hin [= <-] Hl%(Hold g) _; [|done]. subst g'. intros Hpath. exfalso. apply (ti_free _ Hi i _ g u Hp Hin Hl). cbn. by rewrite Hpath.
      * intros Hin Hin' Hl%(Hold g) Hl'%(Hold g'); [|done|done]. by apply (eo_paths _ _ _ He g g' u u').
  - intros j q Hj Hq. pose proof (ti_apart _ Hi j i _ _ Hj Hq Hp) as Hap. split; try done; try (intros; apply kept_refl).
    + intros x u Hx Hu. rewrite Es. cbn [handles]. rewrite lookup_delete_ne; [done|]. intros <-. by eapply (ap_prepares _ _ Hap).
    + intros txn _ Hc. left. rewrite lookup_insert_ne; [done|]. intros Hg. rewrite Hg in Eg. congruence.
    + intros txn _ Hl. unfold live. rewrite Es. cbn [prepared]. rewrite lookup_insert_ne; [done|]. intros Hx. unfold live in Hl. rewrite <- Hx in Hl. congruence.
  - intros j q g txn [Hj Hq]%lookup_delete_Some. rewrite lookup_insert. case_decide as Hg.
    + intros _ _ Ho. subst g. eapply (ap_owns _ _ (ti_apart _ Hi j i _ _ (not_eq_sym Hj) Hq Hp)); [exact Ho|done].
    + intros Hin Hl%(Hold g); [|done]. by apply (ti_free _ Hi j q g txn).
  - apply (wal_move (ts_sys σ) s' (ts_threads σ) i (Some (PEntry r)) None); [apply Hi|done|exact Hp|]. done.
Qed.

Lemma prepare_starts σ i gid x now σ' : tinv σ -> (forall j p, ts_threads σ !! j = Some p -> prepares p <> Some x) ->
  start_prepare σ i gid x now = Some σ' -> tinv σ'.
Proof.
  intros Hi Hno. unfold start_prepare. destruct (ts_threads σ !! i) eqn:Ei; [done|]. destruct (handles (ts_sys σ) !! x) as [t|] eqn:Ht; [|done].
  set (p' := if bool_decide (is_Some (ts_prepared σ !! gid)) then PFail x else PCreate (mk_request gid x (committed_subxid_family t) now)).
  intros [= <-]. assert (Hpr : prepares p' = Some x) by (unfold p'; by case_match).
  assert (Hnone : holds p' = None /\ decides p' = None /\ owns p' = None) by (unfold p'; by case_match). destruct Hnone as (N1 & N2 & N3).
  apply (tinv_step σ _ i (Some p') Hi); cbn; try done; try apply Hi.
  - intros j q Hj Hq. apply harmless_res; [done|]. intros; apply kept_refl.
  - intros p [= <-]. split.
    + split; [by rewrite N1|]. split; [by rewrite N3|]. unfold p'. destruct (bool_decide _); [done|]. by exists t.
    + intros j q Hj Hq. split; rewrite ?N1, ?N2, ?N3; try done. rewrite Hpr. intros y [= <-] Hy. by eapply (Hno j q).
  - intros j q g txn. rewrite lookup_insert. case_decide; [intros [= <-]; by rewrite N3|]. by apply (ti_free _ Hi).
  - apply (wal_move (ts_sys σ) _ (ts_threads σ) i None (Some p')); [apply Hi|reflexivity|done|done].
Qed.

Lemma resolve_starts σ i gid dec σ' : tinv σ -> start_resolve σ i gid dec = Some σ' -> tinv σ'.
Proof.
  intros Hi. unfold start_resolve. destruct (ts_threads σ !! i) eqn:Ei; [done|]. case_bool_decide as Hg; intros [= <-]; [done|].
  apply (tinv_step σ _ i (Some (RGet gid dec)) Hi); cbn; try done; try apply Hi.
  - intros j q Hj Hq. apply harmless_res; [intros g _ Hin; by apply elem_of_union_r|]. intros; apply kept_refl.
  - intros p [= <-]. split.
    + split; [intros g [= <-]; by apply elem_of_union_l, elem_of_singleton_2|]. done.
    + intros j q Hj Hq. split; try done. intros g [= <-] Hq2. apply Hg. by apply (ti_pc _ Hi j q Hq).
  - intros j q g txn. rewrite lookup_insert. case_decide; [by intros [= <-]|]. by apply (ti_free _ Hi).
  - apply (wal_move (ts_sys σ) _ (ts_threads σ) i None (Some (RGet gid dec))); [apply Hi|reflexivity|done|done].
Qed.

Lemma tstep_preserves σ σ' : tinv σ -> tstep σ σ' -> tinv σ'.
Proof.
  intros Hi Hst. destruct Hst as [i gid x now σ' Hno Hs|i gid dec σ' Hs|i o σ' Ho Hsp Ha|op Hop Hsp Hown].
  - by eapply prepare_starts.
  - by eapply resolve_starts.
  - destruct (ts_threads σ !! i) as [p|] eqn:Hp; [|by unfold advance in Ha; rewrite Hp in Ha].
    pose proof (quiet_preserves σ i p o σ' Hi Hp Ho Ha) as Hq.
    destruct p; try exact Hq; eauto using create_preserves, entry_preserves, validate_preserves, append_preserves, finalise_preserves, erase_preserves.
    unfold advance, prepare_step in Ha. rewrite Hp in Ha. injection Ha as <-. apply (manager_preserves σ i (OAbort x)); try done.
    + intros p Hp'. rewrite Hp in Hp'. injection Hp' as <-. by eexists.
    + intros j q y Hj Hq' Hy [= <-]. by eapply (ap_prepares _ _ (ti_apart _ Hi j i _ _ Hj Hq' Hp)).
  - set (i := fresh (dom (ts_threads σ))). assert (ts_threads σ !! i = None) as Hfr by (apply not_elem_of_dom, is_fresh).
    pose proof (manager_preserves σ i op Hi Hop Hsp) as Hm. unfold leave in Hm. cbn in Hm. rewrite delete_id in Hm by done. apply Hm.
    + intros p Hp. congruence.
    + intros j q x _. apply Hown.
Qed.

Lemma tinv_init ssi : tinv (tsys_init ssi).
Proof.
  split; cbn; try (intros *; by rewrite lookup_empty).
  - apply init_inv.
  - split; intros *; by rewrite lookup_empty.
  - split; [constructor|]. intros x dec Hin. by apply not_elem_of_nil in Hin.
  - intros n t. cbn. rewrite lookup_empty. by intros [?|?].
Qed.

Lemma treachable_inv ssi σ : treachable ssi σ -> tinv σ.
Proof.
  unfold treachable. generalize (tinv_init ssi). generalize (tsys_init ssi). intros σ0 Hi Hr.
  induction Hr as [|σ0 σ1 σ2 Hst _ IH]; [done|]. apply IH. by eapply tstep_preserves.
Qed.

(** C20. One decision per prepared transaction. However sessions that
    prepare, commit and roll back prepared transactions interleave with each
    other and with the transaction manager, and whatever file-system calls
    and appends fail, the log of the second phase holds at most one record
    for a transaction, and the commit log never contradicts it: the status
    is the one recorded, or the transaction is still in progress while the
    one session that appended the record is about to set it. *)
Theorem one_decision ssi σ :
  treachable ssi σ ->
  NoDup (ts_wal σ).*1 /\
  forall (x : Xid) (dec : bool), (x, dec) ∈ ts_wal σ ->
    clog (ts_sys σ) !! x = Some (if dec then Committed else Aborted) \/
    clog (ts_sys σ) !! x = Some InProgress /\
      exists i txn, ts_threads σ !! i = Some (RFinalise txn dec) /\ pt_xid txn = x /\
        forall j q, ts_threads σ !! j = Some q -> decides q = Some x -> j = i.
Proof.
  intros Hi%treachable_inv. destruct (ti_wal _ Hi) as [Ho Hst]. split; [done|]. intros x dec Hin.
  destruct (Hst x dec Hin) as [Hc|(i & txn & Hth & <-)]; [by left|]. right.
  destruct (ti_pc _ Hi _ _ Hth) as (_ & _ & _ & Hl). split; [by apply live_running; [apply Hi|]|].
  exists i, txn. split; [done|]. split; [done|]. intros j q Hq Hd. destruct (decide (j = i)) as [|Hne]; [done|].
  exfalso. by eapply (ap_decides _ _ (ti_apart _ Hi j i _ _ Hne Hq Hth)).
Qed.

(** ** Restart *)

Section restart.
Context (limit : Z).

Definition is_state_file (name : Text) : bool := bool_decide ((split_extension name).2 = Some (str_bytes "txn")).

(** A file that recovery can read. *)
Definition readable (name t : Text) : Prop :=
  is_state_file name = true -> utf8_len t <= limit /\ exists r, parse_state_file t = Ok r.

Definition recovered (name : Text) (r : ParsedRecord) : PreparedTxn :=
  mk_PreparedTxn (pr_gid r) (pr_xid r) (pr_committed_subxids r) (pr_prepared_at r) name.

(** What one file adds. *)
Definition add_file (m : gmap Text PreparedTxn) (f : Text * Text) : gmap Text PreparedTxn :=
  if is_state_file f.1 then
    match parse_state_file f.2 with
    | Ok r => match m !! pr_gid r with Some _ => m | None => <[pr_gid r := recovered f.1 r]> m end
    | Err _ => m
    end
  else m.

Lemma tp_run {A B} (m : TP A) (k : A -> TP B) c a c' : m c = (Ok a, c') -> (m ≫= k) c = k a c'.
Proof. unfold mbind, TP_bind. by intros ->. Qed.

Lemma calls_run n fail c : tp_io c = [] -> checked_calls n fail c = (Ok tt, c).
Proof. intros Hio. induction n as [|n IH]; [done|]. cbn [checked_calls]. rewrite (tp_run _ _ c IoOk c); [done|]. unfold tp_draw. by rewrite Hio. Qed.

Lemma recover_file_run name t count c : tp_io c = [] -> readable name t ->
  exists k, recover_file limit name t count c = (Ok k, with_prepared c (add_file (tp_prepared c) (name, t))).
Proof.
  intros Hio Hr. unfold recover_file. rewrite (tp_run _ _ c tt c) by (by apply calls_run). rewrite (tp_run _ _ c tt c) by (by apply calls_run).
  unfold readable, add_file, is_state_file in *. cbn [fst snd]. destruct (split_extension name) as [stem ext]. cbn [snd] in *.
  case_bool_decide as He; cbn [negb]; [|eexists; unfold mret, TP_ret; f_equal; by destruct c].
  destruct (Hr eq_refl) as (Hl & r & Hpr). rewrite (tp_run _ _ c t c).
  - rewrite Hpr. eexists. unfold mbind, TP_bind, tp_set, mret, TP_ret. f_equal. destruct (tp_prepared c !! pr_gid r); [by destruct c|done].
  - unfold read_state_file_text. rewrite (tp_run _ _ c tt c) by (by apply calls_run). destruct (Z.ltb_spec limit (utf8_len t)); [lia|].
    by rewrite (tp_run _ _ c tt c) by (by apply calls_run).
Qed.

Lemma recover_files_run files count c :
  tp_io c = [] -> Forall (fun f => readable f.1 f.2) files ->
  exists n, recover_files limit files count c = (Ok n, with_prepared c (foldl add_file (tp_prepared c) files)).
Proof.
  intros Hio Hf. revert count c Hio. induction Hf as [|[name t] files Hr _ IH]; intros count c Hio.
  { exists count. by destruct c. }
  destruct (recover_file_run name t count c Hio Hr) as [k Hk]. cbn [recover_files]. rewrite (tp_run _ _ c _ _ Hk).
  destruct (IH k (with_prepared c (add_file (tp_prepared c) (name, t))) Hio) as [n Hn]. exists n. rewrite Hn. by destruct c.
Qed.

(** The identifier of a file that parses is one its name was built from. *)
Lemma prefix_gid r m rec : parse_state_file (take m (content r)) = Ok rec -> pr_gid rec = rq_gid r.
Proof.
  intros Hp. apply state_file_exact in Hp as [Ht _].
  assert (exists t, content r = 123 :: t) as [t Et] by (by eexists).
  assert (Hw : exists w, take m (content r) = trim (take m (content r)) ++ w).
  { rewrite Et. destruct m as [|m]; [by exists []|]. cbn [take]. by apply trim_prefix. }
  destruct Hw as [w Hw]. rewrite Ht in Hw. assert (extract_json_string (content r) "gid" = Some (pr_gid rec)) as Hg.
  { rewrite <- (take_drop m (content r)), Hw, <- app_assoc. apply canonical_gid_app. }
  unfold content in Hg. rewrite canonical_gid in Hg. by injection Hg.
Qed.
Lemma add_keeps files m g x : m !! g = Some x -> foldl add_file m files !! g = Some x.
Proof.
  revert m. induction files as [|f files IH]; intros m Hm; [done|]. cbn [foldl]. apply IH. unfold add_file.
  repeat case_match; try done. rewrite lookup_insert_ne; [done|]. congruence.
Qed.

Lemma add_found files m n t r : m !! pr_gid r = None -> (n, t) ∈ files -> is_state_file n = true -> parse_state_file t = Ok r ->
  (forall f r', f ∈ files -> is_state_file f.1 = true -> parse_state_file f.2 = Ok r' -> pr_gid r' = pr_gid r -> f = (n, t)) ->
  foldl add_file m files !! pr_gid r = Some (recovered n r).
Proof.
  intros Hm Hin Hs Hp. revert m Hm Hin. induction files as [|f files IH]; intros m Hm Hin Hu; [by apply not_elem_of_nil in Hin|]. cbn [foldl].
  destruct (decide (f = (n, t))) as [->|Hne].
  - apply add_keeps. unfold add_file. cbn [fst snd]. rewrite Hs, Hp, Hm. by rewrite lookup_insert_eq.
  - apply elem_of_cons in Hin as [Hin|Hin]; [congruence|]. apply IH; [|done|intros f' r' Hf'; apply Hu; by right].
    unfold add_file. destruct (is_state_file f.1) eqn:Ef; [|done]. destruct (parse_state_file f.2) as [r'|] eqn:Ep; [|done].
    destruct (m !! pr_gid r'); [done|]. rewrite lookup_insert_ne; [done|]. intros Hg. apply Hne. by eapply Hu; [left|..].
Qed.

Lemma crash_names d d' : names_ok d -> crash d d' -> names_ok d'.
Proof.
  intros Hn (Hf & _ & Hd) n t Ht. assert (sd_files d' !! n = Some t) as H by (rewrite Hd in Ht; by destruct Ht). clear Ht.
  destruct (Hf n) as [E|[E|(_ & data & k & E & E')]]; rewrite H in *.
  - apply Hn. right. by rewrite <- E.
  - apply Hn. left. by rewrite <- E.
  - destruct (Hn n data (or_introl E)) as (r & m & Hr & ->). exists r, (k `min` m)%nat. split; [done|]. injection E' as ->. by rewrite take_take.
Qed.

Lemma crash_saved d d' a c : saved d a c -> crash d d' -> sd_files d' !! a = Some c.
Proof.
  intros (H1 & H2 & H3) [Hf _]. destruct (Hf a) as [E|[E|(Hns & _)]]; [by rewrite E|by rewrite E|done].
Qed.

Lemma state_file_name gid : gid <> [] -> is_state_file (path gid) = true.
Proof.
  intros Hne. unfold is_state_file, state_file_path, split_extension. rewrite reverse_app.
  change (reverse (str_bytes ".txn")) with ([110; 120; 116] ++ [46]). rewrite <- app_assoc.
  change ([46] ++ reverse (sanitize_gid is_alphanumeric gid)) with (46 :: reverse (sanitize_gid is_alphanumeric gid)).
  rewrite (before_first_app 46 [110; 120; 116] (reverse (sanitize_gid is_alphanumeric gid))) by (repeat constructor; done).
  change (drop (S (length [110; 120; 116])) ([110; 120; 116] ++ 46 :: reverse (sanitize_gid is_alphanumeric gid))) with (reverse (sanitize_gid is_alphanumeric gid)).
  rewrite reverse_involutive. destruct (sanitize_gid is_alphanumeric gid) eqn:E; [|done]. by destruct gid.
Qed.

(** The numbers of a transaction fit their types. *)
Definition txn_wf (txn : PreparedTxn) : Prop :=
  in_width U64 (pt_xid txn) /\ Forall (in_width U64) (pt_committed_subxids txn) /\ pt_prepared_at txn < 2 ^ 63.

End restart.
End race.

(** ** Runs *)

Section runs.
Context (is_alphanumeric : Z -> bool).

Inductive label :=
| LPrepare (i : nat) (gid : Text) (x : Xid) (now : Z)
| LResolve (i : nat) (gid : Text) (dec : bool)
| LAdvance (i : nat) (o : io)
| LManager (op : sys_op).

Definition preparing (σ : tsys) (x : Xid) : bool :=
  existsb (fun ip : nat * pc => bool_decide (prepares ip.2 = Some x)) (map_to_list (ts_threads σ)).

Definition tdo (σ : tsys) (l : label) : option tsys :=
  let room := tm_next_xid (mgr (ts_sys σ)) <? U64 - 1 in
  match l with
  | LPrepare i gid x now => if preparing σ x then None else start_prepare σ i gid x now
  | LResolve i gid dec => start_resolve σ i gid dec
  | LAdvance i o => if room && (match o with IoInvalid => false | _ => true end) then advance is_alphanumeric σ i o else None
  | LManager op =>
      if room && negb (is_two_phase op) && (match op_target op with Some x => negb (preparing σ x) | None => true end)
      then Some (set_sys σ (sys_step (ts_sys σ) op)) else None
  end.

Fixpoint trun (σ : tsys) (ls : list label) : option tsys :=
  match ls with [] => Some σ | l :: ls' => σ' ← tdo σ l; trun σ' ls' end.

Lemma preparing_spec σ x j p : preparing σ x = false -> ts_threads σ !! j = Some p -> prepares p <> Some x.
Proof.
  unfold preparing. intros Hf Hj Hx. apply not_true_iff_false in Hf. apply Hf, existsb_exists. exists (j, p).
  split; [by apply list_elem_of_In, elem_of_map_to_list|]. by apply bool_decide_eq_true.
Qed.

Lemma tdo_step σ l σ' : tdo σ l = Some σ' -> tstep is_alphanumeric σ σ'.
Proof.
  destruct l; cbn [tdo].
  - destruct (preparing σ x) eqn:E; [done|]. intros Hs. eapply t_prepare; [|exact Hs]. intros j p. by apply preparing_spec.
  - intros Hs. by eapply t_resolve.
  - destruct (Z.ltb_spec (tm_next_xid (mgr (ts_sys σ))) (U64 - 1)); [|done]. destruct o; try done; intros Ha; (eapply t_advance; [|done|exact Ha]; done).
  - destruct (Z.ltb_spec (tm_next_xid (mgr (ts_sys σ))) (U64 - 1)); [|done]. destruct (is_two_phase op) eqn:Eo; [done|]. cbn [andb negb].
    destruct (match op_target op with Some x => negb (preparing σ x) | None => true end) eqn:Em; [|done]. intros [= <-].
    apply t_manager; [done|done|]. intros j p x Hj Hp Ht. rewrite Ht in Em. apply negb_true_iff in Em. by eapply preparing_spec.
Qed.

Lemma trun_reach σ ls σ' : trun σ ls = Some σ' -> rtc (tstep is_alphanumeric) σ σ'.
Proof.
  revert σ. induction ls as [|l ls IH]; intros σ; cbn [trun]; [by intros [= ->]|]. destruct (tdo σ l) as [σ1|] eqn:E; [|done].
  intros Hr. eapply rtc_l; [by eapply tdo_step|]. by apply IH.
Qed.
End runs.

Definition ascii_alphanumeric (c : Z) : bool := (48 <=? c) && (c <=? 57) || (65 <=? c) && (c <=? 90) || (97 <=? c) && (c <=? 122).

(** Transaction 3 is prepared under the identifier [g1]. *)
Definition prepare_g1 : list label :=
  [LManager (OBegin ReadCommitted); LPrepare 0 (str_bytes "g1") 3 50] ++ replicate 5 (LAdvance 0 IoOk).
(** A session commits it up to the release of its reservation; another one
    takes the reservation and the entry for a rollback. *)
Definition commit_g1 : list label := LResolve 1 (str_bytes "g1") true :: replicate 7 (LAdvance 1 IoOk).
Definition rollback_g1 : list label := LResolve 2 (str_bytes "g1") false :: replicate 2 (LAdvance 2 IoOk).

Definition run_from_start (ls : list label) : tsys := default (tsys_init None) (trun ascii_alphanumeric (tsys_init None) ls).

Lemma run_reachable ls : is_Some (trun ascii_alphanumeric (tsys_init None) ls) -> treachable ascii_alphanumeric None (run_from_start ls).
Proof. intros [σ E]. unfold run_from_start. rewrite E. by eapply trun_reach. Qed.

Definition race_g1 : tsys := run_from_start (prepare_g1 ++ commit_g1 ++ rollback_g1).

Lemma race_reachable : treachable ascii_alphanumeric None race_g1.
Proof. apply run_reachable. vm_compute. eexists. reflexivity. Qed.

Lemma prepared_reachable : treachable ascii_alphanumeric None (run_from_start prepare_g1).
Proof. apply run_reachable. vm_compute. eexists. reflexivity. Qed.

Lemma race_wal : ts_wal race_g1 = [(3, true)].
Proof. vm_compute. reflexivity. Qed.

Lemma one_decision_witness : ts_wal race_g1 = [(3, true)] /\ clog (ts_sys race_g1) !! 3 = Some Committed.
Proof.
  split; [exact race_wal|]. pose proof (one_decision ascii_alphanumeric None race_g1 race_reachable) as [_ Hst].
  specialize (Hst 3 true). rewrite race_wal in Hst. destruct (Hst (list_elem_of_here _ _)) as [H|[H _]]; [exact H|].
  exfalso. vm_compute in H. discriminate H.
Defined.


(** ** What a restart loses or refuses *)

Definition restart (d : StateDir) : result Z TwoPhaseError * TwoPhaseCoordinator :=
  recover_from_disk DEFAULT_STATE_FILE_LIMIT_BYTES (TwoPhaseCoordinator_new d []).

Definition empty_gid : tsys :=
  run_from_start ([LManager (OBegin ReadCommitted); LPrepare 0 [] 3 50] ++ replicate 5 (LAdvance 0 IoOk)).

(** A transaction prepared under the empty identifier is lost at a
    restart. The preparation completes, its file is written and synced, and
    the transaction is in progress; the file is named [.txn], which has no
    extension, so recovery passes over it and reports success without the
    transaction. *)
Theorem empty_gid_lost_at_restart :
  treachable ascii_alphanumeric None empty_gid /\
  ts_threads empty_gid = ∅ /\ is_Some (ts_prepared empty_gid !! []) /\ clog (ts_sys empty_gid) !! 3 = Some InProgress /\
  sd_disk (ts_dir empty_gid) = sd_files (ts_dir empty_gid) /\
  restart (ts_dir empty_gid) = (Ok 0, TwoPhaseCoordinator_new (ts_dir empty_gid) []).
Proof.
  split; [apply run_reachable; vm_compute; eexists; reflexivity|]. split; [vm_compute; reflexivity|].
  split; [vm_compute; eexists; reflexivity|]. split; [vm_compute; reflexivity|]. split; vm_compute; reflexivity.
Qed.

Definition torn_prepare : tsys :=
  run_from_start ([LManager (OBegin ReadCommitted); LPrepare 0 (str_bytes "g1") 3 50; LAdvance 0 IoOk]).
Definition torn_dir : StateDir := mk_StateDir {[ str_bytes "g1.txn" := [] ]} {[ str_bytes "g1.txn" ]} {[ str_bytes "g1.txn" := [] ]}.

(** A crash during PREPARE TRANSACTION keeps the server from starting.
    The state file exists before its content is written; when the process
    stops in between, before anything was acknowledged, the restart finds an
    empty file and fails as corrupt, although no transaction is in doubt. *)
Theorem torn_prepare_blocks_restart :
  treachable ascii_alphanumeric None torn_prepare /\ ts_prepared torn_prepare = ∅ /\ crash (ts_dir torn_prepare) torn_dir /\
  (restart torn_dir).1 = Err (TpCorrupt (str_bytes "g1")).
Proof.
  split; [apply run_reachable; vm_compute; eexists; reflexivity|]. split; [vm_compute; reflexivity|]. split.
  - assert (sd_files (ts_dir torn_prepare) = sd_files torn_dir) as E by (vm_compute; reflexivity).
    split; [|split; vm_compute; reflexivity]. intros name. right. left. by rewrite E.
  - vm_compute. reflexivity.
Qed.
