(* ===== verification/WalRecord.v ===== *)
(** * WAL records (ultrasql-wal, record.rs)

    The record header, its CRC and the codec. The CRC comes from the crate
    [crc32c], outside the repository: its [crc32c_append] is a parameter of
    the functions that use it, and the only fact used about it is that it
    returns a [u32]. *)

From S2P Require Import Prelude CoreIds.

Definition RECORD_HEADER_SIZE : nat := 28.
Definition MAX_RECORD_BYTES : Z := 64 * 1024 * 1024.

Inductive WalRecordError :=
| Truncated (needed have : Z)
| Malformed (what : string)
| TooLarge (payload_len max_payload_len : Z)
| CrcMismatch (expected actual : Z)
| UnknownType (v : Z).

Inductive RecordType :=
| HeapInsert | HeapUpdate | HeapDelete | FullPageWrite | Commit | Abort | Checkpoint | BTreeOp
| HeapUpdateInPlace | HeapDeleteInPlace | SequenceOp | HashOp | HnswOp | IvfFlatOp
| HeapUpdateInPlaceBatch | HeapDeleteInPlaceBatch | HeapInsertBatch
| HeapUpdateInt32PairDeltaBatch | HeapDeleteInPlaceRangeBatch
| HeapUpdateInt32PairDeltaRangeBatch | Nop.

#[global] Instance RecordType_eq_dec : EqDecision RecordType.
Proof. solve_decision. Defined.

Definition RecordType_ALL : list RecordType :=
  [HeapInsert; HeapUpdate; HeapDelete; FullPageWrite; Commit; Abort; Checkpoint; BTreeOp;
   HeapUpdateInPlace; HeapDeleteInPlace; SequenceOp; HashOp; HnswOp; IvfFlatOp;
   HeapUpdateInPlaceBatch; HeapDeleteInPlaceBatch; HeapInsertBatch;
   HeapUpdateInt32PairDeltaBatch; HeapDeleteInPlaceRangeBatch;
   HeapUpdateInt32PairDeltaRangeBatch; Nop].

Definition RecordType_from_u8 (v : Z) : result RecordType WalRecordError :=
  match v with
  | 1 => Ok HeapInsert | 2 => Ok HeapUpdate | 3 => Ok HeapDelete | 4 => Ok FullPageWrite
  | 5 => Ok Commit | 6 => Ok Abort | 7 => Ok Checkpoint | 8 => Ok BTreeOp
  | 9 => Ok HeapUpdateInPlace | 10 => Ok HeapDeleteInPlace | 11 => Ok SequenceOp
  | 12 => Ok HashOp | 13 => Ok HnswOp | 14 => Ok IvfFlatOp
  | 15 => Ok HeapUpdateInPlaceBatch | 16 => Ok HeapDeleteInPlaceBatch
  | 17 => Ok HeapInsertBatch | 18 => Ok HeapUpdateInt32PairDeltaBatch
  | 19 => Ok HeapDeleteInPlaceRangeBatch | 20 => Ok HeapUpdateInt32PairDeltaRangeBatch
  | 255 => Ok Nop
  | other => Err (UnknownType other)
  end.

Definition RecordType_to_u8 (t : RecordType) : Z :=
  match t with
  | HeapInsert => 1 | HeapUpdate => 2 | HeapDelete => 3 | FullPageWrite => 4
  | Commit => 5 | Abort => 6 | Checkpoint => 7 | BTreeOp => 8
  | HeapUpdateInPlace => 9 | HeapDeleteInPlace => 10 | SequenceOp => 11
  | HashOp => 12 | HnswOp => 13 | IvfFlatOp => 14
  | HeapUpdateInPlaceBatch => 15 | HeapDeleteInPlaceBatch => 16
  | HeapInsertBatch => 17 | HeapUpdateInt32PairDeltaBatch => 18
  | HeapDeleteInPlaceRangeBatch => 19 | HeapUpdateInt32PairDeltaRangeBatch => 20
  | Nop => 255
  end.

Record WalRecordHeader := mk_WalRecordHeader {
  total_length : Z;
  rec_crc : Z;
  prev_lsn : Lsn;
  rec_xid : Xid;
  record_type : RecordType;
  rec_flags : Z;
}.

Record WalRecord := mk_WalRecord { rec_header : WalRecordHeader; rec_payload : list Z }.

(** The header's 28 bytes: the last two are the reserved ones. *)
Definition encode_header (h : WalRecordHeader) : list Z :=
  le_encode 4 (total_length h) ++ le_encode 4 (rec_crc h) ++ le_encode 8 (prev_lsn h)
  ++ le_encode 8 (rec_xid h) ++ [RecordType_to_u8 (record_type h)] ++ [rec_flags h] ++ [0; 0].

(** [append_encoded_parts_to] *)
Definition append_encoded_parts_to (h : WalRecordHeader) (payload out : list Z) : list Z :=
  out ++ encode_header h ++ payload.

(** [WalRecord::encode]; [None] is the panic of [copy_from_slice] when the
    header's length does not match the payload. *)
Definition record_encode (r : WalRecord) : option (list Z) :=
  if total_length (rec_header r) =? Z.of_nat (RECORD_HEADER_SIZE + length (rec_payload r))
  then Some (encode_header (rec_header r) ++ rec_payload r) else None.

Definition decode_header_from (bytes : list Z) : result WalRecordHeader WalRecordError :=
  if (length bytes <? RECORD_HEADER_SIZE)%nat
  then Err (Truncated (Z.of_nat RECORD_HEADER_SIZE) (Z.of_nat (length bytes))) else
  let? total := ok_or (read_le 4 (slice 0 4 bytes)) (Malformed "len") in
  let? crc := ok_or (read_le 4 (slice 4 8 bytes)) (Malformed "crc") in
  let? prev := ok_or (read_le 8 (slice 8 16 bytes)) (Malformed "prev_lsn") in
  let? xid := ok_or (read_le 8 (slice 16 24 bytes)) (Malformed "xid") in
  let? rtype := RecordType_from_u8 (nth 24 bytes 0) in
  let flags := nth 25 bytes 0 in
  if negb (flags =? 0) then Err (Malformed "record flags reserved bits") else
  if existsb (fun b => negb (b =? 0)) (slice 26 28 bytes)
  then Err (Malformed "header reserved bytes must be zero") else
  Ok (mk_WalRecordHeader total crc prev xid rtype flags).

Section codec.
Context (crc32c_append : Z -> list Z -> Z).

Definition with_crc (h : WalRecordHeader) (crc : Z) : WalRecordHeader :=
  mk_WalRecordHeader (total_length h) crc (prev_lsn h) (rec_xid h) (record_type h) (rec_flags h).

Definition compute_record_crc (h : WalRecordHeader) (payload : list Z) : Z :=
  crc32c_append (crc32c_append 0 (encode_header (with_crc h 0))) payload.

Definition build_header (rtype : RecordType) (xid : Xid) (prev : Lsn) (flags : Z) (payload : list Z)
  : result WalRecordHeader WalRecordError :=
  let payload_len := Z.of_nat (length payload) in
  let? total_len := ok_or (checked_add U64 (Z.of_nat RECORD_HEADER_SIZE) payload_len)
                      (Malformed "total_length overflow") in
  if MAX_RECORD_BYTES <? total_len
  then Err (TooLarge payload_len (MAX_RECORD_BYTES - Z.of_nat RECORD_HEADER_SIZE)) else
  if negb (flags =? 0) then Err (Malformed "record flags reserved bits") else
  if U32 <=? total_len then Err (Malformed "total_length overflow") else
  let h := mk_WalRecordHeader total_len 0 prev xid rtype flags in
  Ok (with_crc h (compute_record_crc h payload)).

Definition WalRecord_new (rtype : RecordType) (xid : Xid) (prev : Lsn) (flags : Z) (payload : list Z)
  : result WalRecord WalRecordError :=
  let? h := build_header rtype xid prev flags payload in
  Ok (mk_WalRecord h payload).

Definition record_decode (bytes : list Z) : result (WalRecord * nat) WalRecordError :=
  let? h := decode_header_from bytes in
  let total := total_length h in
  if total <? Z.of_nat RECORD_HEADER_SIZE then Err (Malformed "total_length too small") else
  if MAX_RECORD_BYTES <? total then Err (Malformed "total_length above ceiling") else
  if Z.of_nat (length bytes) <? total then Err (Truncated total (Z.of_nat (length bytes))) else
  let n := Z.to_nat total in
  let payload := slice RECORD_HEADER_SIZE n bytes in
  let actual := compute_record_crc h payload in
  if negb (actual =? rec_crc h) then Err (CrcMismatch (rec_crc h) actual) else
  Ok (mk_WalRecord h payload, n).
End codec.

(** ** Codec lemmas *)

Lemma nth_skip_enc n v i r : (n <= i)%nat -> nth i (le_encode n v ++ r) 0 = nth (i - n) r 0.
Proof. intros Hi. rewrite app_nth2; rewrite length_le_encode; [done|lia]. Qed.

Lemma slice_cons_skip a b x r : (1 <= a)%nat -> slice a b (x :: r) = slice (a - 1) (b - 1) r.
Proof. intros Ha. destruct a as [|a]; [lia|]. unfold slice. cbn. rewrite Nat.sub_0_r. f_equal. lia. Qed.

Lemma RecordType_roundtrip t : RecordType_from_u8 (RecordType_to_u8 t) = Ok t.
Proof. by destruct t. Qed.

Lemma RecordType_from_u8_Ok v t : RecordType_from_u8 v = Ok t -> v = RecordType_to_u8 t.
Proof.
  unfold RecordType_from_u8. intros H. repeat case_match; simplify_eq; reflexivity.
Qed.

Record header_fits (h : WalRecordHeader) : Prop := {
  hf_total : in_width U32 (total_length h);
  hf_crc : in_width U32 (rec_crc h);
  hf_prev : in_width U64 (prev_lsn h);
  hf_xid : in_width U64 (rec_xid h);
  hf_flags : rec_flags h = 0;
}.

Lemma length_encode_header h : length (encode_header h) = RECORD_HEADER_SIZE.
Proof. unfold encode_header. rewrite !length_app, !length_le_encode. reflexivity. Qed.

Lemma decode_header_encode h rest :
  header_fits h -> decode_header_from (encode_header h ++ rest) = Ok h.
Proof.
  intros [Ht Hc Hp Hx Hf]. unfold in_width in *. unfold decode_header_from.
  replace (length (encode_header h ++ rest) <? RECORD_HEADER_SIZE)%nat with false
    by (symmetry; apply Nat.ltb_ge; rewrite length_app, length_encode_header; lia).
  unfold encode_header. rewrite <- !app_assoc. codec_slices.
  rewrite !read_le_encode by (rewrite ?pow256_U32, ?pow256_U64; lia). cbn [ok_or].
  rewrite !nth_skip_enc by lia. cbn [Nat.sub nth app]. rewrite RecordType_roundtrip.
  cbn [Nat.sub]. rewrite Hf. cbn [Z.eqb negb]. rewrite !slice_cons_skip by lia. cbn.
  by destruct h; cbn in *; subst.
Qed.

(** The bytes from [a] to [b] and then to [c] are the bytes from [a] to [c]. *)
Lemma slice_split a b c l : (a <= b <= c)%nat -> slice a c l = slice a b l ++ slice b c l.
Proof.
  intros H. unfold slice.
  replace (drop b l) with (drop (b - a) (drop a l)) by (rewrite drop_drop; f_equal; lia).
  replace (c - a)%nat with ((b - a) + (c - b))%nat by lia. symmetry. apply take_take_drop.
Qed.

Lemma read_le_slice n a b bytes v :
  Forall is_byte bytes -> (b <= length bytes)%nat -> (b = a + n)%nat ->
  read_le n (slice a b bytes) = Some v -> le_encode n v = slice a b bytes /\ 0 <= v < 256 ^ Z.of_nat n.
Proof.
  intros Hb Hl -> [_ ->]%read_le_Some.
  assert (length (slice a (a + n) bytes) = n) as Hn by (rewrite length_slice; lia).
  rewrite take_ge by lia.
  assert (Forall is_byte (slice a (a + n) bytes)) as Hs by (by apply Forall_take, Forall_drop).
  split.
  - rewrite <- Hn at 1. by apply le_encode_decode.
  - rewrite <- Hn at 3. by apply le_decode_bound.
Qed.

Lemma slice_one a l : (a < length l)%nat -> slice a (S a) l = [nth a l 0].
Proof.
  intros H. unfold slice. replace (S a - a)%nat with 1%nat by lia.
  destruct (nth_lookup_or_length l a 0) as [Hn|]; [|lia].
  by rewrite (drop_S _ _ _ Hn).
Qed.

Lemma zero_bytes l : existsb (fun b => negb (b =? 0)) l = false -> l = replicate (length l) 0.
Proof.
  induction l as [|b l IH]; [done|]. cbn. intros [Hb Hl]%orb_false_iff.
  apply negb_false_iff, Z.eqb_eq in Hb as ->. by rewrite <- IH.
Qed.

Lemma decode_header_canonical bytes h :
  Forall is_byte bytes -> decode_header_from bytes = Ok h ->
  encode_header h = take RECORD_HEADER_SIZE bytes /\ header_fits h.
Proof.
  intros Hb. unfold decode_header_from.
  destruct (Nat.ltb_spec (length bytes) RECORD_HEADER_SIZE) as [|Hlen]; [done|].
  unfold RECORD_HEADER_SIZE in *.
  destruct (read_le 4 (slice 0 4 bytes)) as [tl|] eqn:E1; [|done]. cbn [ok_or].
  destruct (read_le 4 (slice 4 8 bytes)) as [crc|] eqn:E2; [|done]. cbn [ok_or].
  destruct (read_le 8 (slice 8 16 bytes)) as [pl|] eqn:E3; [|done]. cbn [ok_or].
  destruct (read_le 8 (slice 16 24 bytes)) as [xd|] eqn:E4; [|done]. cbn [ok_or].
  destruct (RecordType_from_u8 (nth 24 bytes 0)) as [rt|] eqn:E5; [|done].
  destruct (nth 25 bytes 0 =? 0) eqn:E6; [|done]. cbn [negb].
  destruct (existsb _ _) eqn:E7; [done|]. intros [= <-].
  apply read_le_slice in E1 as [E1 B1], E2 as [E2 B2], E3 as [E3 B3], E4 as [E4 B4]; try done; try lia.
  apply RecordType_from_u8_Ok in E5. apply Z.eqb_eq in E6. apply zero_bytes in E7.
  rewrite length_slice in E7 by lia.
  split; [|split; cbn; unfold in_width; rewrite <- ?pow256_U32, <- ?pow256_U64; done].
  unfold encode_header. cbn [total_length rec_crc prev_lsn rec_xid record_type rec_flags].
  rewrite E1, E2, E3, E4, <- E5.
  change (take 28 bytes) with (slice 0 28 bytes).
  rewrite (slice_split 0 4 28), (slice_split 4 8 28), (slice_split 8 16 28), (slice_split 16 24 28),
    (slice_split 24 25 28), (slice_split 25 26 28) by lia.
  rewrite (slice_one 24), (slice_one 25), E7 by lia. done.
Qed.

(** ** Records *)

Section records.
Context (crc32c_append : Z -> list Z -> Z).
Context (crc_u32 : forall c l, in_width U32 (crc32c_append c l)).

(** What [WalRecord::new] establishes: the length is the real one and below
    the ceiling, the fields fit their slots and the CRC is the record's. *)
Record record_ok (r : WalRecord) : Prop := {
  ro_fits : header_fits (rec_header r);
  ro_len : total_length (rec_header r) = Z.of_nat (RECORD_HEADER_SIZE + length (rec_payload r));
  ro_max : total_length (rec_header r) <= MAX_RECORD_BYTES;
  ro_crc : rec_crc (rec_header r) = compute_record_crc crc32c_append (rec_header r) (rec_payload r);
}.

Definition record_bytes (r : WalRecord) : list Z := encode_header (rec_header r) ++ rec_payload r.

Lemma compute_crc_with_crc h c p :
  compute_record_crc crc32c_append (with_crc h c) p = compute_record_crc crc32c_append h p.
Proof. reflexivity. Qed.

Lemma MAX_below_U32 : MAX_RECORD_BYTES < U32.
Proof. reflexivity. Qed.

(** [build_header] succeeds exactly on a payload within the ceiling with no
    flag set. *)
Lemma build_header_spec t x p f payload :
  build_header crc32c_append t x p f payload =
    (if MAX_RECORD_BYTES <? Z.of_nat (RECORD_HEADER_SIZE + length payload)
     then if U64 <=? Z.of_nat (RECORD_HEADER_SIZE + length payload)
          then Err (Malformed "total_length overflow")
          else Err (TooLarge (Z.of_nat (length payload)) (MAX_RECORD_BYTES - 28))
     else if negb (f =? 0) then Err (Malformed "record flags reserved bits")
     else let h := mk_WalRecordHeader (Z.of_nat (RECORD_HEADER_SIZE + length payload)) 0 p x t f in
          Ok (with_crc h (compute_record_crc crc32c_append h payload))).
Proof.
  unfold build_header, checked_add. rewrite <- Nat2Z.inj_add.
  set (n := Z.of_nat (RECORD_HEADER_SIZE + length payload)).
  pose proof MAX_below_U32. assert (U32 < U64) by done.
  destruct (Z.ltb_spec n U64), (Z.ltb_spec MAX_RECORD_BYTES n), (Z.leb_spec U64 n);
    cbn [ok_or]; try lia; try done.
  - by rewrite (proj2 (Z.ltb_lt _ _)) by lia.
  - rewrite (proj2 (Z.ltb_ge MAX_RECORD_BYTES n)) by lia.
    by rewrite (proj2 (Z.leb_gt U32 n)) by lia.
Qed.

Lemma WalRecord_new_ok t x p f payload r :
  in_width U64 x -> in_width U64 p ->
  WalRecord_new crc32c_append t x p f payload = Ok r ->
  record_ok r /\ rec_payload r = payload /\ record_type (rec_header r) = t /\
  rec_xid (rec_header r) = x /\ prev_lsn (rec_header r) = p.
Proof.
  intros Hx Hp. unfold WalRecord_new. rewrite build_header_spec.
  destruct (Z.ltb_spec MAX_RECORD_BYTES (Z.of_nat (RECORD_HEADER_SIZE + length payload))) as [|Hmax];
    [by destruct (U64 <=? _)|].
  destruct (Z.eqb_spec f 0) as [->|]; [|done]. cbn [negb]. intros [= <-].
  pose proof MAX_below_U32. split; [|done]. split; cbn [rec_header rec_payload]; try done.
  split; cbn [with_crc total_length rec_crc prev_lsn rec_xid rec_flags]; try done; [|apply crc_u32].
  change (0 <= Z.of_nat (RECORD_HEADER_SIZE + length payload) < U32). lia.
Qed.

Lemma record_encode_ok r : record_ok r -> record_encode r = Some (record_bytes r).
Proof. intros H. unfold record_encode. by rewrite (ro_len _ H), Z.eqb_refl. Qed.

Lemma length_record_bytes r : length (record_bytes r) = (RECORD_HEADER_SIZE + length (rec_payload r))%nat.
Proof. unfold record_bytes. by rewrite length_app, length_encode_header. Qed.

Lemma record_bytes_length_Z r : record_ok r -> Z.of_nat (length (record_bytes r)) = total_length (rec_header r).
Proof. intros H. by rewrite length_record_bytes, (ro_len _ H). Qed.

(** The outcome of decoding a buffer that starts with a well-formed header. *)
Lemma record_decode_ok r rest :
  record_ok r ->
  record_decode crc32c_append (record_bytes r ++ rest) = Ok (r, length (record_bytes r)).
Proof.
  intros H. pose proof (ro_len _ H) as Hl. pose proof (ro_max _ H) as Hm.
  assert (record_bytes r ++ rest = encode_header (rec_header r) ++ rec_payload r ++ rest) as ->
    by (unfold record_bytes; by rewrite app_assoc).
  unfold record_decode. rewrite decode_header_encode by apply H. cbn beta iota.
  rewrite (proj2 (Z.ltb_ge _ _)) by (rewrite Hl; lia).
  rewrite (proj2 (Z.ltb_ge _ _)) by lia.
  rewrite (proj2 (Z.ltb_ge _ _)) by (rewrite Hl, !length_app, length_encode_header; lia).
  replace (slice _ _ _) with (rec_payload r).
  { rewrite <- (ro_crc _ H), Z.eqb_refl, Hl, Nat2Z.id, length_record_bytes. by destruct r. }
  symmetry. unfold slice. rewrite Hl, Nat2Z.id.
  rewrite drop_app_ge by (rewrite length_encode_header; lia).
  rewrite length_encode_header, Nat.sub_diag, drop_0.
  replace (_ + _ - _)%nat with (length (rec_payload r)) by lia. apply take_app_length.
Qed.

(** A record cut anywhere is reported as truncated. *)
Lemma record_decode_torn r k :
  record_ok r -> (k < length (record_bytes r))%nat ->
  exists needed, record_decode crc32c_append (take k (record_bytes r)) =
    Err (Truncated needed (Z.of_nat k)) /\ Z.of_nat k < needed <= total_length (rec_header r).
Proof.
  intros H Hk. pose proof (ro_len _ H) as Hl. pose proof (ro_max _ H) as Hm.
  pose proof (record_bytes_length_Z r H) as Hb.
  assert (length (take k (record_bytes r)) = k) as Hlen by (rewrite length_take; lia).
  unfold record_decode. destruct (decide (k < RECORD_HEADER_SIZE)%nat) as [Hs|Hs].
  - exists (Z.of_nat RECORD_HEADER_SIZE). unfold decode_header_from. rewrite Hlen.
    rewrite (proj2 (Nat.ltb_lt _ _) Hs). split; [done|lia].
  - exists (total_length (rec_header r)). rewrite Hlen. unfold record_bytes.
    rewrite take_app_ge by (rewrite length_encode_header; lia).
    rewrite decode_header_encode by apply H. cbn beta iota.
    rewrite (proj2 (Z.ltb_ge _ _)) by (rewrite Hl; lia).
    rewrite (proj2 (Z.ltb_ge _ _)) by lia.
    rewrite (proj2 (Z.ltb_lt _ _)) by lia. split; [done|lia].
Qed.

Lemma record_decode_Ok bytes r n :
  Forall is_byte bytes -> record_decode crc32c_append bytes = Ok (r, n) ->
  record_ok r /\ record_bytes r = take n bytes /\ n = length (record_bytes r) /\ (n <= length bytes)%nat.
Proof.
  intros Hb. unfold record_decode.
  destruct (decode_header_from bytes) as [h|] eqn:Hh; [|done].
  apply decode_header_canonical in Hh as [He Hf]; [|done].
  destruct (Z.ltb_spec (total_length h) (Z.of_nat RECORD_HEADER_SIZE)) as [|H1]; [done|].
  destruct (Z.ltb_spec MAX_RECORD_BYTES (total_length h)) as [|H2]; [done|].
  destruct (Z.ltb_spec (Z.of_nat (length bytes)) (total_length h)) as [|H3]; [done|].
  destruct (Z.eqb_spec (compute_record_crc crc32c_append h
    (slice RECORD_HEADER_SIZE (Z.to_nat (total_length h)) bytes)) (rec_crc h)) as [Hc|]; [|done].
  intros [= <- <-]. cbn [negb].
  assert (record_bytes (mk_WalRecord h (slice RECORD_HEADER_SIZE (Z.to_nat (total_length h)) bytes))
          = take (Z.to_nat (total_length h)) bytes) as Hbytes.
  { unfold record_bytes. cbn [rec_header rec_payload]. rewrite He.
    set (n := Z.to_nat (total_length h)) in *.
    change (slice 0 RECORD_HEADER_SIZE bytes ++ slice RECORD_HEADER_SIZE n bytes = take n bytes).
    rewrite <- slice_split by (unfold n; lia). unfold slice. by rewrite drop_0, Nat.sub_0_r. }
  split.
  { split; cbn [rec_header rec_payload]; [done| |done|done]. rewrite length_slice by lia. lia. }
  rewrite Hbytes, length_take. split; [done|lia].
Qed.
End records.

(** ** Properties *)

(** A record built by [WalRecord::new] is encoded without panicking,
    decodes from the front of any stream to itself with exactly its own length
    consumed, and cut at any byte (a torn write) decodes to [Truncated], never
    to a record or to another error. *)
Theorem record_roundtrip crc32c_append t x p f payload r :
  (forall c l, in_width U32 (crc32c_append c l)) ->
  in_width U64 x -> in_width U64 p ->
  WalRecord_new crc32c_append t x p f payload = Ok r ->
  exists bytes, record_encode r = Some bytes /\
    (forall out, append_encoded_parts_to (rec_header r) (rec_payload r) out = out ++ bytes) /\
    Z.of_nat (length bytes) = total_length (rec_header r) /\
    (forall rest, record_decode crc32c_append (bytes ++ rest) = Ok (r, length bytes)) /\
    (forall k, (k < length bytes)%nat -> exists needed,
       record_decode crc32c_append (take k bytes) = Err (Truncated needed (Z.of_nat k)) /\
       Z.of_nat k < needed).
Proof.
  intros Hc Hx Hp (Hr & _)%WalRecord_new_ok; [|done..].
  exists (record_bytes r). split; [by apply (record_encode_ok crc32c_append)|]. split; [done|].
  split; [by apply (record_bytes_length_Z crc32c_append)|].
  split; [intros; by apply record_decode_ok|]. intros k Hk.
  destruct (record_decode_torn crc32c_append r k Hr Hk) as (needed & -> & Hn).
  exists needed. split; [done|lia].
Qed.

(** A checksum to run the codec with. *)
Definition sum_crc (c : Z) (l : list Z) : Z := wrap U32 (foldl Z.add c l).

Lemma sum_crc_u32 c l : in_width U32 (sum_crc c l).
Proof. unfold sum_crc, wrap, in_width. apply Z.mod_pos_bound. reflexivity. Qed.

Definition sample_record : WalRecord :=
  mk_WalRecord (mk_WalRecordHeader 31 54 0 7 HeapInsert 0) [5; 6; 4].

Lemma record_roundtrip_witness :
  exists bytes, record_encode sample_record = Some bytes /\
    (forall out, append_encoded_parts_to (rec_header sample_record) (rec_payload sample_record) out
       = out ++ bytes) /\
    Z.of_nat (length bytes) = 31 /\
    (forall rest, record_decode sum_crc (bytes ++ rest) = Ok (sample_record, length bytes)) /\
    (forall k, (k < length bytes)%nat -> exists needed,
       record_decode sum_crc (take k bytes) = Err (Truncated needed (Z.of_nat k)) /\
       Z.of_nat k < needed).
Proof.
  apply (record_roundtrip sum_crc HeapInsert 7 0 0 [5; 6; 4] sample_record sum_crc_u32);
    [by split|by split|]. vm_compute. reflexivity.
Defined.

(** Decoding is strict: whatever the decoder accepts is byte for byte
    what the encoder writes for the record it returns (reserved bits and bytes
    included), its length lies between the header size and the ceiling and
    within the buffer, and its stored CRC is the one recomputed from it. *)
Theorem record_decode_canonical crc32c_append bytes r n :
  Forall is_byte bytes -> record_decode crc32c_append bytes = Ok (r, n) ->
  record_encode r = Some (take n bytes) /\
  Z.of_nat n = total_length (rec_header r) /\
  (RECORD_HEADER_SIZE <= n <= length bytes)%nat /\ Z.of_nat n <= MAX_RECORD_BYTES /\
  rec_crc (rec_header r) = compute_record_crc crc32c_append (rec_header r) (rec_payload r) /\
  forall rest, record_decode crc32c_append (take n bytes ++ rest) = Ok (r, n).
Proof.
  intros Hb (Hr & He & Hn & Hlen)%record_decode_Ok; [|done].
  rewrite (record_encode_ok crc32c_append) by done. rewrite <- He.
  pose proof (record_bytes_length_Z _ r Hr) as Hz. pose proof (ro_max _ r Hr).
  rewrite length_record_bytes in Hn. rewrite length_record_bytes in Hz.
  repeat split; try lia; [apply Hr|]. intros rest.
  rewrite record_decode_ok by done. by rewrite length_record_bytes, <- Hn.
Qed.

Lemma record_decode_canonical_witness :
  let bytes := record_bytes sample_record ++ [9; 9] in
  record_encode sample_record = Some (take 31 bytes) /\
  31 = total_length (rec_header sample_record) /\
  (RECORD_HEADER_SIZE <= 31 <= length bytes)%nat /\ 31 <= MAX_RECORD_BYTES /\
  rec_crc (rec_header sample_record) =
    compute_record_crc sum_crc (rec_header sample_record) (rec_payload sample_record) /\
  forall rest, record_decode sum_crc (take 31 bytes ++ rest) = Ok (sample_record, 31%nat).
Proof.
  apply (record_decode_canonical sum_crc (record_bytes sample_record ++ [9; 9]) sample_record 31).
  - repeat constructor; vm_compute; congruence.
  - vm_compute. reflexivity.
Defined.

(** The record codec is exact, for any 32-bit checksum. A record that
    was built encodes to its announced length, decodes from its encoding
    whatever follows it, and every proper prefix of it is reported as
    truncated. Whatever decodes is byte for byte the encoding of the record
    returned, lies within the buffer and below the record ceiling, and carries
    the checksum recomputed from it. *)
Theorem record_codec_exact crc32c_append :
  (forall c l, in_width U32 (crc32c_append c l)) ->
  (forall t x p f payload r, in_width U64 x -> in_width U64 p ->
     WalRecord_new crc32c_append t x p f payload = Ok r ->
     exists bytes, record_encode r = Some bytes /\
       (forall out, append_encoded_parts_to (rec_header r) (rec_payload r) out = out ++ bytes) /\
       Z.of_nat (length bytes) = total_length (rec_header r) /\
       (forall rest, record_decode crc32c_append (bytes ++ rest) = Ok (r, length bytes)) /\
       (forall k, (k < length bytes)%nat -> exists needed,
          record_decode crc32c_append (take k bytes) = Err (Truncated needed (Z.of_nat k)) /\
          Z.of_nat k < needed)) /\
  (forall bytes r n, Forall is_byte bytes -> record_decode crc32c_append bytes = Ok (r, n) ->
     record_encode r = Some (take n bytes) /\
     Z.of_nat n = total_length (rec_header r) /\
     (RECORD_HEADER_SIZE <= n <= length bytes)%nat /\ Z.of_nat n <= MAX_RECORD_BYTES /\
     rec_crc (rec_header r) = compute_record_crc crc32c_append (rec_header r) (rec_payload r) /\
     forall rest, record_decode crc32c_append (take n bytes ++ rest) = Ok (r, n)).
Proof.
  intros Hc. split.
  - intros t x p f payload r Hx Hp. by apply record_roundtrip.
  - apply record_decode_canonical.
Qed.

(** A 31-byte record decodes from its encoding followed by other bytes. *)
Lemma record_codec_exact_witness :
  exists bytes, record_encode sample_record = Some bytes /\
    record_decode sum_crc (bytes ++ [1; 2; 3]) = Ok (sample_record, length bytes).
Proof.
  destruct (proj1 (record_codec_exact sum_crc sum_crc_u32) HeapInsert 7 0 0 [5; 6; 4] sample_record)
    as (bytes & He & _ & _ & Hd & _); [by split|by split|vm_compute; reflexivity|].
  exists bytes. split; [exact He|apply Hd].
Defined.
