(* ===== verification/WalLog.v ===== *)
(** * The abstract log

    What the WAL promises, as a specification: a sequence of records laid end
    to end, the LSN of a record being the byte position at which it starts.
    The buffer, the writer, recovery and the stream reader are each shown to
    implement this view. *)

From S2P Require Import Prelude CoreIds WalRecord.

(** The byte stream of a sequence of records. *)
Definition log_bytes (rs : list WalRecord) : list Z := concat (map record_bytes rs).

Definition log_len (rs : list WalRecord) : Z := Z.of_nat (length (log_bytes rs)).

#[global] Arguments record_bytes : simpl never.
#[global] Arguments log_bytes : simpl never.
#[global] Arguments log_len : simpl never.

(** The records with the LSN each one starts at. *)
Fixpoint log_at (base : Lsn) (rs : list WalRecord) : list (Lsn * WalRecord) :=
  match rs with
  | [] => []
  | r :: rs' => (base, r) :: log_at (base + Z.of_nat (length (record_bytes r))) rs'
  end.

Lemma log_bytes_app rs rs' : log_bytes (rs ++ rs') = log_bytes rs ++ log_bytes rs'.
Proof. unfold log_bytes. by rewrite map_app, concat_app. Qed.

Lemma log_bytes_cons r rs : log_bytes (r :: rs) = record_bytes r ++ log_bytes rs.
Proof. reflexivity. Qed.

Lemma log_bytes_nil : log_bytes [] = [].
Proof. reflexivity. Qed.

Lemma log_bytes_single r : log_bytes [r] = record_bytes r.
Proof. unfold log_bytes. cbn [map concat]. apply app_nil_r. Qed.

Lemma log_len_app rs rs' : log_len (rs ++ rs') = log_len rs + log_len rs'.
Proof. unfold log_len. rewrite log_bytes_app, length_app. lia. Qed.

Lemma log_len_nil : log_len [] = 0.
Proof. reflexivity. Qed.

Lemma log_len_cons r rs : log_len (r :: rs) = Z.of_nat (length (record_bytes r)) + log_len rs.
Proof. unfold log_len. rewrite log_bytes_cons, length_app. lia. Qed.

Lemma log_len_single r : log_len [r] = Z.of_nat (length (record_bytes r)).
Proof. rewrite log_len_cons, log_len_nil. lia. Qed.

Lemma log_len_nonneg rs : 0 <= log_len rs.
Proof. unfold log_len. lia. Qed.

Lemma log_bytes_concat (g : list (list WalRecord)) : log_bytes (concat g) = concat (map log_bytes g).
Proof. induction g as [|x g IH]; [done|]. cbn [concat map]. by rewrite log_bytes_app, IH. Qed.

Lemma log_at_app base rs rs' : log_at base (rs ++ rs') = log_at base rs ++ log_at (base + log_len rs) rs'.
Proof.
  revert base. induction rs as [|r rs IH]; intros base; cbn [log_at app].
  - by rewrite log_len_nil, Z.add_0_r.
  - rewrite IH, log_len_cons. by rewrite Z.add_assoc.
Qed.

Lemma log_at_snd base rs : map snd (log_at base rs) = rs.
Proof. revert base; induction rs as [|r rs IH]; intros base; cbn; [done|]. by rewrite IH. Qed.

Lemma length_log_at base rs : length (log_at base rs) = length rs.
Proof. rewrite <- (log_at_snd base rs) at 2. by rewrite length_map. Qed.

(** A record has at least a header, so LSNs strictly increase. *)
Lemma record_bytes_nonempty r : (RECORD_HEADER_SIZE <= length (record_bytes r))%nat.
Proof. rewrite length_record_bytes. lia. Qed.

Lemma log_len_pos r rs : 0 < log_len (r :: rs).
Proof. rewrite log_len_cons. pose proof (record_bytes_nonempty r). pose proof (log_len_nonneg rs).
  unfold RECORD_HEADER_SIZE in *. lia. Qed.

Lemma log_at_lookup base rs i lsn r :
  log_at base rs !! i = Some (lsn, r) <-> rs !! i = Some r /\ lsn = base + log_len (take i rs).
Proof.
  revert base i. induction rs as [|r0 rs IH]; intros base [|i]; cbn [log_at lookup list_lookup take].
  - naive_solver.
  - naive_solver.
  - rewrite log_len_nil, Z.add_0_r. naive_solver.
  - rewrite IH, log_len_cons. rewrite Z.add_assoc. done.
Qed.

Lemma log_bytes_nil_inv rs : log_bytes rs = [] -> rs = [].
Proof.
  destruct rs as [|r rs]; [done|]. intros H. pose proof (log_len_pos r rs) as Hp.
  unfold log_len in Hp. rewrite H in Hp. cbn in Hp. lia.
Qed.

Create Rewrite HintDb walog.
#[export] Hint Rewrite log_bytes_app log_len_app log_len_nil log_len_single : walog.
