(* ===== verification/WalBuffer.v ===== *)
(** * The WAL append buffer (ultrasql-wal, buffer.rs)

    [WalBuffer] stages encoded records for the writer thread. Every operation
    below is one critical section of the buffer's mutex, so it is one step of
    the state; an append that has to wait for capacity releases the mutex
    while it is parked, which is the outcome [MustWait] of one pass of the
    loop in [reserve]: the appender comes back with the same call later. *)

From S2P Require Import Prelude CoreIds WalRecord WalLog.

Inductive WalBufferError :=
| BufRecord (e : WalRecordError)
| Full (used capacity : Z)
| Closed
| LsnOverflow (current bytes : Z)
| BufferedBytesOverflow (bytes : Z)
| LsnUnderflow (lsn_end bytes : Z).

Record WalBuffer := mk_WalBuffer {
  wb_bytes : list Z;
  wb_next_lsn : Lsn;
  wb_drainer : bool;
  wb_closed : bool;
  wb_durable : Lsn;
  wb_capacity : Z;
}.

Definition WalBuffer_new (capacity : Z) (initial_lsn : Lsn) : WalBuffer :=
  mk_WalBuffer [] initial_lsn false false initial_lsn capacity.

Definition set_drainer (b : WalBuffer) : WalBuffer :=
  mk_WalBuffer (wb_bytes b) (wb_next_lsn b) true (wb_closed b) (wb_durable b) (wb_capacity b).

Definition close_appends (b : WalBuffer) : WalBuffer :=
  mk_WalBuffer (wb_bytes b) (wb_next_lsn b) (wb_drainer b) true (wb_durable b) (wb_capacity b).

Definition wb_with_inner (b : WalBuffer) (bytes : list Z) (next : Lsn) : WalBuffer :=
  mk_WalBuffer bytes next (wb_drainer b) (wb_closed b) (wb_durable b) (wb_capacity b).

Definition wb_with_durable (b : WalBuffer) (lsn : Lsn) : WalBuffer :=
  mk_WalBuffer (wb_bytes b) (wb_next_lsn b) (wb_drainer b) (wb_closed b) lsn (wb_capacity b).

(** One pass of the loop of [reserve]. *)
Inductive reserve_outcome :=
| Granted
| Refused (e : WalBufferError)
| Parked.

Definition reserve (b : WalBuffer) (record_len : Z) : reserve_outcome :=
  if wb_closed b then Refused Closed else
  let used := Z.of_nat (length (wb_bytes b)) in
  if match checked_add U64 used record_len with
     | Some needed => needed <=? wb_capacity b
     | None => false
     end then Granted else
  if negb (wb_drainer b) then Refused (Full used (wb_capacity b)) else
  if used =? 0 then Granted else Parked.

Definition advance_to_lsn (b : WalBuffer) (raw : Lsn) : WalBuffer :=
  let b1 := if wb_next_lsn b <? raw then wb_with_inner b (wb_bytes b) raw else b in
  if wb_durable b1 <? raw then wb_with_durable b1 raw else b1.

Inductive append_outcome :=
| Appended (lsn : Lsn)
| Failed (e : WalBufferError)
| MustWait.

(** The critical section of an append once capacity is granted: assign the
    LSN, advance the position, encode. *)
Definition assign_and_encode (b : WalBuffer) (h : WalRecordHeader) (payload : list Z)
  : append_outcome * WalBuffer :=
  let lsn := wb_next_lsn b in
  let byte_len := total_length h in
  match checked_add U64 lsn byte_len with
  | None => (Failed (LsnOverflow lsn byte_len), b)
  | Some next => (Appended lsn, wb_with_inner b (append_encoded_parts_to h payload (wb_bytes b)) next)
  end.

Definition buffer_append (b : WalBuffer) (r : WalRecord) : append_outcome * WalBuffer :=
  match reserve b (total_length (rec_header r)) with
  | Refused e => (Failed e, b)
  | Parked => (MustWait, b)
  | Granted => assign_and_encode b (rec_header r) (rec_payload r)
  end.

Record DrainedRange := mk_DrainedRange { dr_start : Lsn; dr_end : Lsn }.

(** [drain_into]: the drained bytes, the LSN range and the emptied buffer. The
    buffer is emptied before the range is computed, also when that fails. *)
Definition drain_into (b : WalBuffer) : result DrainedRange WalBufferError * list Z * WalBuffer :=
  let bytes := wb_bytes b in
  let end_lsn := wb_next_lsn b in
  let b' := wb_with_inner b [] end_lsn in
  let byte_len := Z.of_nat (length bytes) in
  (match checked_sub end_lsn byte_len with
   | None => Err (LsnUnderflow end_lsn byte_len)
   | Some start_lsn => Ok (mk_DrainedRange start_lsn end_lsn)
   end, bytes, b').

Record DrainedBatch := mk_DrainedBatch { db_bytes : list Z; db_start : Lsn; db_end : Lsn }.

Definition drain (b : WalBuffer) : result DrainedBatch WalBufferError * WalBuffer :=
  let '(r, bytes, b') := drain_into b in
  (let? range := r in Ok (mk_DrainedBatch bytes (dr_start range) (dr_end range)), b').

(** [publish_durable_lsn]; the debug assertion of monotonicity is [None]. *)
Definition publish_durable_lsn (b : WalBuffer) (lsn : Lsn) : option WalBuffer :=
  if wb_durable b <=? lsn then Some (wb_with_durable b lsn) else None.

Section borrowed.
Context (crc32c_append : Z -> list Z -> Z).

Definition append_borrowed (b : WalBuffer) (t : RecordType) (x : Xid) (prev : Lsn) (flags : Z)
    (payload : list Z) : append_outcome * WalBuffer :=
  match build_header crc32c_append t x prev flags payload with
  | Err e => (Failed (BufRecord e), b)
  | Ok h =>
      match reserve b (total_length h) with
      | Refused e => (Failed e, b)
      | Parked => (MustWait, b)
      | Granted => assign_and_encode b h payload
      end
  end.

(** [append_borrowed_linked]: [link] is the shared atomic holding the LSN of
    the transaction's previous record; the new value comes third. *)
Definition append_borrowed_linked (b : WalBuffer) (t : RecordType) (x : Xid) (flags : Z)
    (payload : list Z) (link : Lsn) : append_outcome * WalBuffer * Lsn :=
  match build_header crc32c_append t x Lsn_ZERO flags payload with
  | Err e => (Failed (BufRecord e), b, link)
  | Ok probe =>
      match reserve b (total_length probe) with
      | Refused e => (Failed e, b, link)
      | Parked => (MustWait, b, link)
      | Granted =>
          match build_header crc32c_append t x link flags payload with
          | Err e => (Failed (BufRecord e), b, link)
          | Ok h =>
              match assign_and_encode b h payload with
              | (Appended lsn, b') => (Appended lsn, b', lsn)
              | (o, b') => (o, b', link)
              end
          end
      end
  end.

(** ** The buffer in use

    Any interleaving of the calls of appenders and of the writer. Links are
    named: the chain of a transaction is the atomic its appenders share. *)

Inductive buf_op :=
| OpAppend (r : WalRecord)
| OpAppendBorrowed (t : RecordType) (x : Xid) (prev : Lsn) (flags : Z) (payload : list Z)
| OpAppendLinked (t : RecordType) (x : Xid) (flags : Z) (payload : list Z) (link : nat)
| OpDrain
| OpPublish (lsn : Lsn)
| OpSetDrainer
| OpClose.

Record buf_sys := mk_buf_sys { bs_buf : WalBuffer; bs_links : gmap nat Lsn }.

Inductive buf_event :=
| EvAppend (lsn : Lsn) (r : WalRecord) (link : option nat)
| EvRefused (e : WalBufferError)
| EvWait
| EvDrain (batch : DrainedBatch)
| EvDrainFailed (e : WalBufferError)
| EvPanic
| EvNone.

Definition link_value (s : buf_sys) (l : nat) : Lsn := default 0 (bs_links s !! l).

Definition event_of (o : append_outcome) (r : result WalRecord WalRecordError) (link : option nat)
  : buf_event :=
  match o, r with
  | Appended lsn, Ok r => EvAppend lsn r link
  | Failed e, _ => EvRefused e
  | _, _ => EvWait
  end.

Definition buf_step (op : buf_op) (s : buf_sys) : buf_event * buf_sys :=
  let b := bs_buf s in
  match op with
  | OpAppend r =>
      let '(o, b') := buffer_append b r in (event_of o (Ok r) None, mk_buf_sys b' (bs_links s))
  | OpAppendBorrowed t x prev flags payload =>
      let '(o, b') := append_borrowed b t x prev flags payload in
      (event_of o (WalRecord_new crc32c_append t x prev flags payload) None,
       mk_buf_sys b' (bs_links s))
  | OpAppendLinked t x flags payload l =>
      let '(o, b', v) := append_borrowed_linked b t x flags payload (link_value s l) in
      (event_of o (WalRecord_new crc32c_append t x (link_value s l) flags payload) (Some l),
       mk_buf_sys b' (<[l:=v]> (bs_links s)))
  | OpDrain =>
      let '(r, b') := drain b in
      (match r with Ok batch => EvDrain batch | Err e => EvDrainFailed e end,
       mk_buf_sys b' (bs_links s))
  | OpPublish lsn =>
      match publish_durable_lsn b lsn with
      | Some b' => (EvNone, mk_buf_sys b' (bs_links s))
      | None => (EvPanic, s)
      end
  | OpSetDrainer => (EvNone, mk_buf_sys (set_drainer b) (bs_links s))
  | OpClose => (EvNone, mk_buf_sys (close_appends b) (bs_links s))
  end.

Definition buf_exec (st : list buf_event * buf_sys) (op : buf_op) : list buf_event * buf_sys :=
  let '(e, s') := buf_step op st.2 in (st.1 ++ [e], s').

Definition buf_run (ops : list buf_op) (s : buf_sys) : list buf_event * buf_sys :=
  foldl buf_exec ([], s) ops.
End borrowed.

(** ** The borrowed paths are the owned one

    What the comment on [append_borrowed] states: the same outcome and the
    same bytes as building the record and appending it. *)

Section buffer.
Context (crc32c_append : Z -> list Z -> Z).
Context (crc_u32 : forall c l, in_width U32 (crc32c_append c l)).

Lemma append_borrowed_new b t x p f payload :
  append_borrowed crc32c_append b t x p f payload =
    match WalRecord_new crc32c_append t x p f payload with
    | Err e => (Failed (BufRecord e), b)
    | Ok r => buffer_append b r
    end.
Proof. unfold append_borrowed, WalRecord_new. by destruct (build_header _ _ _ _ _ _). Qed.

(** The header's length does not depend on the link. *)
Lemma build_header_probe t x p p' f payload :
  match build_header crc32c_append t x p f payload, build_header crc32c_append t x p' f payload with
  | Ok h, Ok h' => total_length h = total_length h'
  | Err e, Err e' => e = e'
  | _, _ => False
  end.
Proof.
  rewrite !build_header_spec.
  destruct (MAX_RECORD_BYTES <? _); [by destruct (U64 <=? _)|]. by destruct (negb _).
Qed.

Lemma append_linked_new b t x f payload link :
  append_borrowed_linked crc32c_append b t x f payload link =
    match WalRecord_new crc32c_append t x link f payload with
    | Err e => (Failed (BufRecord e), b, link)
    | Ok r => match buffer_append b r with
              | (Appended lsn, b') => (Appended lsn, b', lsn)
              | (o, b') => (o, b', link)
              end
    end.
Proof.
  pose proof (build_header_probe t x Lsn_ZERO link f payload) as Hp.
  unfold append_borrowed_linked, WalRecord_new, buffer_append.
  destruct (build_header _ t x Lsn_ZERO f payload) as [h|e],
    (build_header _ t x link f payload) as [h'|e'] eqn:E; try done; [|by subst].
  cbn [rec_header rec_payload]. rewrite Hp. by destruct (reserve b _).
Qed.

(** ** The refinement invariant *)

Definition op_ok (op : buf_op) : Prop :=
  match op with
  | OpAppend r => record_ok crc32c_append r
  | OpAppendBorrowed _ x prev _ _ => in_width U64 x /\ in_width U64 prev
  | OpAppendLinked _ x _ _ _ => in_width U64 x
  | _ => True
  end.

(** The records the events report as appended, with their LSNs. *)
Definition appended (evs : list buf_event) : list (Lsn * WalRecord) :=
  omap (fun e => match e with EvAppend lsn r _ => Some (lsn, r) | _ => None end) evs.

(** Those that went through a given link. *)
Definition through (l : nat) (evs : list buf_event) : list (Lsn * WalRecord) :=
  omap (fun e => match e with
                 | EvAppend lsn r (Some l') => if decide (l = l') then Some (lsn, r) else None
                 | _ => None end) evs.

Definition drained (evs : list buf_event) : list DrainedBatch :=
  omap (fun e => match e with EvDrain d => Some d | _ => None end) evs.

(** The batches that groups of records laid end to end from [base] make. *)
Fixpoint batches (base : Lsn) (groups : list (list WalRecord)) : list DrainedBatch :=
  match groups with
  | [] => []
  | g :: gs => mk_DrainedBatch (log_bytes g) base (base + log_len g) :: batches (base + log_len g) gs
  end.

(** Each record of a chain points to the one before it. *)
Fixpoint chained (prev : Lsn) (rs : list (Lsn * WalRecord)) : Prop :=
  match rs with
  | [] => True
  | (lsn, r) :: rs' => prev_lsn (rec_header r) = prev /\ chained lsn rs'
  end.

Fixpoint chain_head (prev : Lsn) (rs : list (Lsn * WalRecord)) : Lsn :=
  match rs with [] => prev | (lsn, _) :: rs' => chain_head lsn rs' end.

Lemma chained_snoc prev rs lsn r :
  chained prev (rs ++ [(lsn, r)]) <-> chained prev rs /\ prev_lsn (rec_header r) = chain_head prev rs.
Proof.
  revert prev. induction rs as [|[l0 r0] rs IH]; intros prev; cbn; [tauto|]. rewrite IH. tauto.
Qed.

Lemma chain_head_snoc prev rs lsn r : chain_head prev (rs ++ [(lsn, r)]) = lsn.
Proof. revert prev. induction rs as [|[l0 r0] rs IH]; intros prev; cbn; auto. Qed.

Lemma batches_snoc base gs g :
  batches base (gs ++ [g]) =
    batches base gs ++ [mk_DrainedBatch (log_bytes g) (base + log_len (concat gs))
                          (base + log_len (concat gs) + log_len g)].
Proof.
  revert base. induction gs as [|g0 gs IH]; intros base; cbn [batches app concat].
  - by rewrite log_len_nil, Z.add_0_r.
  - rewrite IH, log_len_app. cbn [app]. by rewrite !Z.add_assoc.
Qed.

Record buf_inv (base cap : Z) (evs : list buf_event) (s : buf_sys)
    (groups : list (list WalRecord)) (pending : list WalRecord) : Prop := {
  bi_appended : appended evs = log_at base (concat groups ++ pending);
  bi_ok : Forall (record_ok crc32c_append) (concat groups ++ pending);
  bi_drained : drained evs = batches base groups;
  bi_no_fail : Forall (fun e => match e with EvDrainFailed _ => False | _ => True end) evs;
  bi_bytes : wb_bytes (bs_buf s) = log_bytes pending;
  bi_next : wb_next_lsn (bs_buf s) = base + log_len (concat groups ++ pending);
  bi_width : in_width U64 base /\ wb_next_lsn (bs_buf s) < U64;
  bi_cap : wb_capacity (bs_buf s) = cap;
  bi_bound : log_len pending <= cap \/ (exists r, pending = [r]) \/ pending = [];
  bi_chain : forall l, chained 0 (through l evs) /\ link_value s l = chain_head 0 (through l evs);
  bi_links : forall l, in_width U64 (link_value s l);
}.

Lemma bi_start base cap evs s groups pending :
  buf_inv base cap evs s groups pending -> 0 <= base < U64.
Proof. intros H. apply (bi_width _ _ _ _ _ _ H). Qed.

(** An event that neither appends nor drains and leaves the inner state. *)
Lemma buf_inv_quiet base cap evs s s' e groups pending :
  buf_inv base cap evs s groups pending ->
  match e with EvAppend _ _ _ | EvDrain _ | EvDrainFailed _ => False | _ => True end ->
  wb_bytes (bs_buf s') = wb_bytes (bs_buf s) -> wb_next_lsn (bs_buf s') = wb_next_lsn (bs_buf s) ->
  wb_capacity (bs_buf s') = wb_capacity (bs_buf s) ->
  (forall l, link_value s' l = link_value s l) ->
  buf_inv base cap (evs ++ [e]) s' groups pending.
Proof.
  intros [Ha Hok Hd Hnf Hb Hn Hw Hc Hbd Hch Hl] He Eb En Ec El.
  assert (appended (evs ++ [e]) = appended evs) as Ea.
  { unfold appended. rewrite omap_app. destruct e; try done; apply app_nil_r. }
  assert (drained (evs ++ [e]) = drained evs) as Ed.
  { unfold drained. rewrite omap_app. destruct e; try done; apply app_nil_r. }
  assert (forall l, through l (evs ++ [e]) = through l evs) as Et.
  { intros l. unfold through. rewrite omap_app. destruct e; try done; apply app_nil_r. }
  split; rewrite ?Ea, ?Ed, ?Eb, ?En, ?Ec; try done.
  - apply Forall_app. split; [done|]. by constructor; destruct e.
  - intros l. rewrite Et, El. apply Hch.
  - intros l. rewrite El. apply Hl.
Qed.

(** What an append does: it takes the next LSN and extends the bytes, within
    the capacity or into an empty buffer, or it changes nothing. *)
Definition append_effect (b : WalBuffer) (r : WalRecord) (o : append_outcome) (b' : WalBuffer) : Prop :=
  (o = Appended (wb_next_lsn b) /\
   wb_next_lsn b + Z.of_nat (length (record_bytes r)) < U64 /\
   b' = wb_with_inner b (wb_bytes b ++ record_bytes r)
          (wb_next_lsn b + Z.of_nat (length (record_bytes r))) /\
   (Z.of_nat (length (wb_bytes b ++ record_bytes r)) <= wb_capacity b \/ wb_bytes b = [])) \/
  ((exists e, o = Failed e) \/ o = MustWait) /\ b' = b.

Lemma buffer_append_cases b r o b' :
  record_ok crc32c_append r -> buffer_append b r = (o, b') ->
  append_effect b r o b'.
Proof.
  intros Hr. unfold buffer_append, reserve, checked_add.
  pose proof (record_bytes_length_Z _ r Hr) as Hlen.
  assert (Hasg : assign_and_encode b (rec_header r) (rec_payload r) = (o, b') ->
    (Z.of_nat (length (wb_bytes b ++ record_bytes r)) <= wb_capacity b \/ wb_bytes b = []) ->
    append_effect b r o b').
  { unfold assign_and_encode, checked_add, append_encoded_parts_to. rewrite <- Hlen.
    case_match eqn:E; case_match eqn:E'; simplify_eq; intros [= <- <-] Hb; [left|right; by eauto].
    apply Z.ltb_lt in E'. by repeat split. }
  destruct (wb_closed b); [intros [= <- <-]; right; by eauto|].
  set (used := Z.of_nat (length (wb_bytes b))) in *.
  assert (Hu : Z.of_nat (length (wb_bytes b ++ record_bytes r)) = used + total_length (rec_header r))
    by (unfold used; rewrite length_app; lia).
  destruct (Z.ltb_spec (used + total_length (rec_header r)) U64) as [H1|H1];
    [destruct (Z.leb_spec (used + total_length (rec_header r)) (wb_capacity b)) as [H2|H2]|].
  - intros H. apply Hasg in H; [done|]. left. lia.
  - destruct (wb_drainer b); cbn [negb]; [|intros [= <- <-]; right; by eauto].
    destruct (Z.eqb_spec used 0) as [H3|H3]; [|intros [= <- <-]; right; by eauto].
    intros H. apply Hasg in H; [done|]. right. apply nil_length_inv. lia.
  - destruct (wb_drainer b); cbn [negb]; [|intros [= <- <-]; right; by eauto].
    destruct (Z.eqb_spec used 0) as [H3|H3]; [|intros [= <- <-]; right; by eauto].
    intros H. apply Hasg in H; [done|]. right. apply nil_length_inv. lia.
Qed.

Lemma appended_snoc evs lsn r k : appended (evs ++ [EvAppend lsn r k]) = appended evs ++ [(lsn, r)].
Proof. unfold appended. by rewrite omap_app. Qed.

Lemma drained_snoc evs d : drained (evs ++ [EvDrain d]) = drained evs ++ [d].
Proof. unfold drained. by rewrite omap_app. Qed.

(** A successful append, directly or through a link. *)
Lemma buf_inv_append base cap evs s s' groups pending r k :
  buf_inv base cap evs s groups pending ->
  record_ok crc32c_append r ->
  let b := bs_buf s in
  let n := Z.of_nat (length (record_bytes r)) in
  wb_next_lsn b + n < U64 ->
  (Z.of_nat (length (wb_bytes b ++ record_bytes r)) <= wb_capacity b \/ wb_bytes b = []) ->
  bs_buf s' = wb_with_inner b (wb_bytes b ++ record_bytes r) (wb_next_lsn b + n) ->
  (match k with
   | None => forall l, link_value s' l = link_value s l
   | Some l => prev_lsn (rec_header r) = link_value s l /\
       forall l', link_value s' l' = if decide (l' = l) then wb_next_lsn b else link_value s l'
   end) ->
  buf_inv base cap (evs ++ [EvAppend (wb_next_lsn b) r k]) s' groups (pending ++ [r]).
Proof.
  intros H Hr b n Hlt Hfit Hb' Hlinks. pose proof (bi_start _ _ _ _ _ _ H) as Hbase.
  destruct H as [Ha Hok Hd Hnf Hb Hn Hw Hc Hbd Hch Hl].
  fold b in Hb, Hn, Hw, Hc. rewrite Hb in Hfit.
  assert (Hpos : in_width U64 (wb_next_lsn b)).
  { split; [|apply Hw]. rewrite Hn. pose proof (log_len_nonneg (concat groups ++ pending)). lia. }
  assert (Ht : forall l, through l (evs ++ [EvAppend (wb_next_lsn b) r k]) =
                through l evs ++ if decide (k = Some l) then [(wb_next_lsn b, r)] else []).
  { intros l. unfold through. rewrite omap_app. f_equal. destruct k as [l'|]; cbn; [|done].
    destruct (decide (l = l')), (decide (Some l' = Some l)); try done; congruence. }
  split; rewrite ?Hb'; cbn [wb_with_inner wb_bytes wb_next_lsn wb_capacity];
    rewrite ?(app_assoc (concat groups)); try done.
  - rewrite appended_snoc, Ha, (log_at_app _ _ [r]), Hn. done.
  - apply Forall_app. by split; [|constructor].
  - unfold drained. rewrite omap_app. cbn. by rewrite app_nil_r.
  - apply Forall_app. by split; [|constructor].
  - rewrite Hb, log_bytes_app, log_bytes_single. done.
  - rewrite (log_len_app _ [r]), log_len_single, Hn. unfold n. lia.
  - rewrite length_app in Hfit. rewrite log_len_app, log_len_single. unfold log_len.
    destruct Hfit as [Hfit|Hnil]; [left; lia|].
    right. left. apply log_bytes_nil_inv in Hnil as ->. by exists r.
  - intros l. rewrite Ht. destruct (Hch l) as [Hcl Hvl]. destruct k as [l'|].
    + destruct Hlinks as [Hprev Hlk]. rewrite Hlk.
      destruct (decide (l = l')) as [->|Hne].
      * rewrite decide_True by done. rewrite chained_snoc, chain_head_snoc. split; [|done].
        split; [done|]. congruence.
      * rewrite decide_False by congruence. by rewrite app_nil_r.
    + rewrite decide_False by done. rewrite app_nil_r, Hlinks. done.
  - intros l. destruct k as [l'|]; [|rewrite Hlinks; done].
    destruct Hlinks as [_ Hlk]. rewrite Hlk. by destruct (decide (l = l')).
Qed.

Lemma buf_inv_drain base cap evs s groups pending :
  buf_inv base cap evs s groups pending ->
  exists d b', drain (bs_buf s) = (Ok d, b') /\
    buf_inv base cap (evs ++ [EvDrain d]) (mk_buf_sys b' (bs_links s)) (groups ++ [pending]) [].
Proof.
  intros H. pose proof (bi_start _ _ _ _ _ _ H) as Hbase.
  destruct H as [Ha Hok Hd Hnf Hb Hn Hw Hc Hbd Hch Hl].
  pose proof (log_len_nonneg (concat groups)) as Hg.
  rewrite log_len_app in Hn. unfold drain, drain_into, checked_sub.
  rewrite Hb. fold (log_len pending).
  rewrite (proj2 (Z.leb_le _ _)) by lia.
  eexists _, _. split; [reflexivity|]. cbn [dr_start dr_end].
  assert (concat (groups ++ [pending]) ++ [] = concat groups ++ pending) as Ec.
  { rewrite concat_app. cbn. by rewrite !app_nil_r. }
  split; cbn [bs_buf wb_with_inner wb_bytes wb_next_lsn wb_capacity]; rewrite ?Ec; try done.
  - unfold appended in *. rewrite omap_app. cbn. by rewrite app_nil_r.
  - rewrite drained_snoc, Hd, batches_snoc. do 3 f_equal; lia.
  - apply Forall_app. by split; [|constructor].
  - rewrite log_len_app. done.
  - by right; right.
  - intros l. unfold through. rewrite omap_app. cbn. rewrite app_nil_r. apply Hch.
Qed.

Lemma buf_inv_new base cap :
  in_width U64 base -> buf_inv base cap [] (mk_buf_sys (WalBuffer_new cap base) ∅) [] [].
Proof.
  intros Hb. split; cbn; try done; auto.
  - rewrite log_len_nil. lia.
  - split; [done|]. apply Hb.
Qed.

Lemma buf_inv_refused base cap evs s groups pending e :
  buf_inv base cap evs s groups pending ->
  match e with EvAppend _ _ _ | EvDrain _ | EvDrainFailed _ => False | _ => True end ->
  buf_inv base cap (evs ++ [e]) (mk_buf_sys (bs_buf s) (bs_links s)) groups pending.
Proof. intros H He. by apply (buf_inv_quiet _ _ _ s). Qed.

Lemma buf_step_inv base cap evs s groups pending op :
  buf_inv base cap evs s groups pending -> op_ok op ->
  exists groups' pending',
    buf_inv base cap (buf_exec crc32c_append (evs, s) op).1 (buf_exec crc32c_append (evs, s) op).2
      groups' pending'.
Proof.
  intros H Hop. unfold buf_exec. cbn [fst snd].
  destruct op as [r|t x p f payload|t x f payload l| |lsn| |]; cbn [buf_step op_ok] in *.
  - destruct (buffer_append _ _) as [o b'] eqn:E.
    apply buffer_append_cases in E as [(-> & Hlt & -> & Hfit)|[Ho ->]]; [| |done].
    + exists groups, (pending ++ [r]). by eapply buf_inv_append.
    + exists groups, pending. apply buf_inv_refused; [done|]. by destruct Ho as [[e ->]| ->].
  - rewrite append_borrowed_new. destruct (WalRecord_new _ _ _ _ _ _) as [r|e] eqn:En.
    + apply WalRecord_new_ok in En as [Hr _]; [|done|apply Hop..].
      destruct (buffer_append _ _) as [o b'] eqn:E.
      apply buffer_append_cases in E as [(-> & Hlt & -> & Hfit)|[Ho ->]]; [| |done].
      * exists groups, (pending ++ [r]). by eapply buf_inv_append.
      * exists groups, pending. apply buf_inv_refused; [done|]. by destruct Ho as [[e ->]| ->].
    + exists groups, pending. by apply buf_inv_refused.
  - rewrite append_linked_new. destruct (WalRecord_new _ _ _ _ _ _) as [r|e] eqn:En.
    + apply WalRecord_new_ok in En as (Hr & _ & _ & _ & Hp); [|done|done|apply (bi_links _ _ _ _ _ _ H)].
      destruct (buffer_append _ _) as [o b'] eqn:E.
      apply buffer_append_cases in E as [(-> & Hlt & -> & Hfit)|[Ho ->]]; [| |done].
      * exists groups, (pending ++ [r]). eapply buf_inv_append; try done. split; [done|].
        intros l'. unfold link_value. cbn. rewrite lookup_insert.
        by destruct (decide (l = l')), (decide (l' = l)).
      * exists groups, pending. destruct Ho as [[e ->]| ->];
          (eapply buf_inv_quiet; [done..|]; intros l'; unfold link_value; cbn;
           rewrite lookup_insert; by destruct (decide (l = l')) as [->|]).
    + exists groups, pending. eapply buf_inv_quiet; [done..|]. intros l'. unfold link_value. cbn.
      rewrite lookup_insert. by destruct (decide (l = l')) as [->|].
  - destruct (buf_inv_drain _ _ _ _ _ _ H) as (d & b' & -> & H'). eauto.
  - unfold publish_durable_lsn. exists groups, pending.
    destruct (_ <=? _); by eapply buf_inv_quiet.
  - exists groups, pending. by eapply buf_inv_quiet.
  - exists groups, pending. by eapply buf_inv_quiet.
Qed.

Lemma buf_run_inv base cap ops :
  in_width U64 base -> Forall op_ok ops ->
  exists groups pending,
    let '(evs, s) := buf_run crc32c_append ops (mk_buf_sys (WalBuffer_new cap base) ∅) in
    buf_inv base cap evs s groups pending.
Proof.
  intros Hb Hops. unfold buf_run.
  induction ops as [|op ops IH] using rev_ind; [exists [], []; by apply buf_inv_new|].
  apply Forall_app in Hops as [Hops [Hop _]%Forall_cons].
  rewrite foldl_app. cbn [foldl]. destruct (IH Hops) as (groups & pending & H).
  destruct (foldl _ _ ops) as [evs s].
  destruct (buf_step_inv _ _ _ _ _ _ op H Hop) as (g' & p' & H').
  exists g', p'. by destruct (buf_exec _ _ _).
Qed.
End buffer.

(** ** Properties *)

(** C35. The append buffer implements the abstract log. Whatever calls
    appenders and the writer interleave (owned, borrowed or linked appends,
    drains, durability publications, registration and closing), the records
    accepted are laid end to end from the initial LSN, each append returning
    the byte position of its record; every drain succeeds and hands out whole
    records, with the exact LSN range of its bytes, the successive drains
    being contiguous and nothing lost, duplicated or reordered; the buffer
    never holds more than its capacity, except for one oversized record
    alone; and records appended through a shared link form a chain, each
    pointing to the LSN of the one before it. *)
Theorem buffer_refines_log crc32c_append base cap ops :
  (forall c l, in_width U32 (crc32c_append c l)) ->
  in_width U64 base -> Forall (op_ok crc32c_append) ops ->
  let '(evs, s) := buf_run crc32c_append ops (mk_buf_sys (WalBuffer_new cap base) ∅) in
  exists groups pending,
    appended evs = log_at base (concat groups ++ pending) /\
    drained evs = batches base groups /\
    Forall (fun e => match e with EvDrainFailed _ => False | _ => True end) evs /\
    wb_bytes (bs_buf s) = log_bytes pending /\
    wb_next_lsn (bs_buf s) = base + log_len (concat groups ++ pending) /\
    wb_next_lsn (bs_buf s) < U64 /\
    (log_len pending <= cap \/ (exists r, pending = [r]) \/ pending = []) /\
    forall l, chained 0 (through l evs).
Proof.
  intros Hc Hb Hops. destruct (buf_run_inv crc32c_append Hc base cap ops Hb Hops) as (g & p & H).
  destruct (buf_run _ _ _) as [evs s]. destruct H. exists g, p.
  repeat (split; [try done; by destruct bi_width0|]). intros l. apply bi_chain0.
Qed.

Definition sample_ops : list buf_op :=
  [OpAppendLinked HeapInsert 7 0 [1; 2] 0; OpAppend sample_record;
   OpAppendLinked HeapDelete 7 0 [3] 0; OpDrain; OpSetDrainer;
   OpAppendBorrowed Commit 7 0 0 (replicate 40 1); OpAppendLinked Nop 8 0 [] 1; OpDrain].

Lemma buffer_refines_log_witness :
  (let evs := (buf_run sum_crc sample_ops (mk_buf_sys (WalBuffer_new 100 1000) ∅)).1 in
   map fst (appended evs) = [1000; 1030; 1061; 1090; 1158] /\
   through 0 evs !! 1%nat =
     Some (1061, mk_WalRecord (mk_WalRecordHeader 29 277 1000 7 HeapDelete 0) [3])) /\
  let '(evs, s) := buf_run sum_crc sample_ops (mk_buf_sys (WalBuffer_new 100 1000) ∅) in
  exists groups pending,
    appended evs = log_at 1000 (concat groups ++ pending) /\
    drained evs = batches 1000 groups /\
    Forall (fun e => match e with EvDrainFailed _ => False | _ => True end) evs /\
    wb_bytes (bs_buf s) = log_bytes pending /\
    wb_next_lsn (bs_buf s) = 1000 + log_len (concat groups ++ pending) /\
    wb_next_lsn (bs_buf s) < U64 /\
    (log_len pending <= 100 \/ (exists r, pending = [r]) \/ pending = []) /\
    forall l, chained 0 (through l evs).
Proof.
  split; [split; vm_compute; reflexivity|].
  refine (buffer_refines_log sum_crc 1000 100 sample_ops sum_crc_u32 _ _); [by split|].
  repeat constructor; vm_compute; congruence.
Defined.
