(* ===== verification/WalSegment.v ===== *)
(** * WAL segment files and the recovery floor
    (ultrasql-wal, segment.rs and manifest.rs)

    Segment names, the enumeration of a WAL directory and the floor manifest.
    A WAL directory is the segment files by index plus the bytes of the
    manifest file: a name that [segment_path] builds determines its index and
    the other way round, which the first property shows. *)

From S2P Require Import Prelude CoreIds WalRecord.

(** ** segment.rs *)

Definition SEGMENT_PREFIX : list Z := str_bytes "segment_".
Definition SEGMENT_INDEX_WIDTH : nat := 10.

(** The [w] decimal digits of [i], most significant first. *)
Fixpoint digits (w : nat) (i : Z) : list Z :=
  match w with
  | O => []
  | S w' => (48 + i / 10 ^ Z.of_nat w') :: digits w' (i mod 10 ^ Z.of_nat w')
  end.

(** The file name of a segment: [format!("{SEGMENT_PREFIX}{index:010}")]. *)
Definition segment_name (index : Z) : list Z := SEGMENT_PREFIX ++ digits SEGMENT_INDEX_WIDTH index.

(** [str::parse::<u32>]: an optional plus sign, then decimal digits, with
    overflow checked. *)
Fixpoint parse_digits (acc : Z) (l : list Z) : option Z :=
  match l with
  | [] => Some acc
  | c :: t =>
      if (48 <=? c) && (c <=? 57)
      then if acc * 10 + (c - 48) <? U32 then parse_digits (acc * 10 + (c - 48)) t else None
      else None
  end.

Definition parse_u32 (l : list Z) : option Z :=
  match l with
  | [] => None
  | [43] | [45] => None
  | 43 :: t => parse_digits 0 t
  | _ => parse_digits 0 l
  end.

Definition parse_segment_index (name : list Z) : option Z :=
  match strip_prefix SEGMENT_PREFIX name with
  | None => None
  | Some rest =>
      if negb (length rest =? SEGMENT_INDEX_WIDTH)%nat then None else parse_u32 rest
  end.

(** ** The directory *)

Record WalDir := mk_WalDir { wd_manifest : option (list Z); wd_files : gmap Z (list Z) }.

Definition seg_le (x y : Z * list Z) : Prop := x.1 <= y.1.

#[global] Instance seg_le_dec x y : Decision (seg_le x y).
Proof. unfold seg_le. apply _. Defined.

(** [list_segments]: the segment files in ascending index order. *)
Definition list_segments (d : WalDir) : list (Z * list Z) :=
  merge_sort seg_le (map_to_list (wd_files d)).

(** ** manifest.rs *)

Record WalFloor := mk_WalFloor { segment_index : Z; floor_lsn : Lsn }.

Definition WalFloor_ORIGIN : WalFloor := mk_WalFloor 0 Lsn_ZERO.

Inductive RecoveryError :=
| RecRecord (e : WalRecordError)
| RecApplier (what : string)
| TargetBeforeFloor (target floor : Lsn)
| TargetXidNotFound (x : Xid)
| SegmentOverLimit (bytes limit : Z).

Definition MANIFEST_MAGIC : list Z := str_bytes "USQLWFL1".
Definition MANIFEST_VERSION : Z := 1.
Definition MANIFEST_BODY_LEN : nat := 24.
Definition MANIFEST_FILE_LEN : nat := 28.

Definition malformed (msg : string) : RecoveryError := RecRecord (Malformed msg).

Section manifest.
Context (crc32c : list Z -> Z).

Definition read_floor (d : WalDir) : result WalFloor RecoveryError :=
  match wd_manifest d with
  | None => Ok WalFloor_ORIGIN
  | Some bytes =>
      if negb (length bytes =? MANIFEST_FILE_LEN)%nat then Err (malformed "wal manifest wrong length") else
      let body := take MANIFEST_BODY_LEN bytes in
      let crc_bytes := drop MANIFEST_BODY_LEN bytes in
      if negb (crc32c body =? le_decode crc_bytes)
      then Err (malformed "wal manifest checksum mismatch") else
      if negb (bool_decide (slice 0 8 body = MANIFEST_MAGIC))
      then Err (malformed "wal manifest magic mismatch") else
      if negb (le_decode (slice 8 12 body) =? MANIFEST_VERSION)
      then Err (malformed "wal manifest version unsupported") else
      Ok (mk_WalFloor (le_decode (slice 12 16 body)) (le_decode (slice 16 24 body)))
  end.

(** The bytes [write_floor] renames over the manifest. *)
Definition floor_bytes (f : WalFloor) : list Z :=
  let body := MANIFEST_MAGIC ++ le_encode 4 MANIFEST_VERSION ++ le_encode 4 (segment_index f)
              ++ le_encode 8 (floor_lsn f) in
  body ++ le_encode 4 (crc32c body).

Definition write_floor (d : WalDir) (f : WalFloor) : WalDir :=
  mk_WalDir (Some (floor_bytes f)) (wd_files d).
End manifest.

(** ** Names *)

Definition is_digit (c : Z) : Prop := 48 <= c <= 57.

Lemma pow10_S w : 10 ^ Z.of_nat (S w) = 10 * 10 ^ Z.of_nat w.
Proof. rewrite Nat2Z.inj_succ, Z.pow_succ_r; lia. Qed.

Lemma pow10_pos w : 0 < 10 ^ Z.of_nat w.
Proof. apply Z.pow_pos_nonneg; lia. Qed.

Lemma length_digits w i : length (digits w i) = w.
Proof. revert i; induction w; intros i; cbn; auto. Qed.

Lemma top_digit w i : 0 <= i < 10 ^ Z.of_nat (S w) -> 0 <= i / 10 ^ Z.of_nat w < 10.
Proof.
  rewrite pow10_S. pose proof (pow10_pos w). intros Hi. split; [apply Z.div_pos; lia|].
  apply Z.div_lt_upper_bound; lia.
Qed.

(** Reading digits back: every partial value is below the final one, so no
    overflow check fires when the final value fits. *)
Lemma parse_digits_digits w i acc :
  0 <= i < 10 ^ Z.of_nat w -> 0 <= acc -> acc * 10 ^ Z.of_nat w + i < U32 ->
  parse_digits acc (digits w i) = Some (acc * 10 ^ Z.of_nat w + i).
Proof.
  revert i acc. induction w as [|w IH]; intros i acc Hi Ha Hlt; cbn [digits parse_digits].
  - change (10 ^ Z.of_nat 0) with 1 in *. f_equal. lia.
  - pose proof (top_digit w i Hi) as Ht. pose proof (pow10_pos w) as Hp.
    pose proof (Z.mod_pos_bound i (10 ^ Z.of_nat w) Hp) as Hm.
    pose proof (Z.div_mod i (10 ^ Z.of_nat w) ltac:(lia)) as Hdm.
    rewrite pow10_S in *.
    rewrite (proj2 (Z.leb_le _ _)), (proj2 (Z.leb_le _ _)) by lia. cbn [andb].
    set (q := i / 10 ^ Z.of_nat w) in *. set (m := i mod 10 ^ Z.of_nat w) in *.
    set (P := 10 ^ Z.of_nat w) in *.
    replace (acc * 10 + (48 + q - 48)) with (acc * 10 + q) by lia.
    rewrite (proj2 (Z.ltb_lt _ _)) by nia.
    rewrite IH by nia. f_equal. nia.
Qed.

Lemma parse_digits_Some l acc v :
  0 <= acc -> parse_digits acc l = Some v ->
  Forall is_digit l /\ exists i, 0 <= i < 10 ^ Z.of_nat (length l) /\
    v = acc * 10 ^ Z.of_nat (length l) + i /\ l = digits (length l) i.
Proof.
  revert acc. induction l as [|c l IH]; intros acc Ha; cbn [parse_digits length].
  - intros [= <-]. split; [done|]. exists 0. change (10 ^ Z.of_nat 0) with 1. cbn. repeat split; lia.
  - destruct ((48 <=? c) && (c <=? 57)) eqn:E; [|done]. apply andb_prop in E as [E1%Z.leb_le E2%Z.leb_le].
    destruct (Z.ltb_spec (acc * 10 + (c - 48)) U32); [|done].
    intros (Hd & i & Hi & Hv & Hl)%IH; [|lia].
    split; [by constructor|]. pose proof (pow10_pos (length l)) as Hp.
    exists ((c - 48) * 10 ^ Z.of_nat (length l) + i). rewrite pow10_S.
    set (P := 10 ^ Z.of_nat (length l)) in *. split; [nia|]. split; [nia|].
    cbn [digits]. fold P.
    rewrite Z.div_add_l, Z.div_small by lia.
    replace (((c - 48) * P + i) mod P) with i
      by (rewrite Z.add_comm, Z_mod_plus_full, Z.mod_small; lia).
    rewrite <- Hl. f_equal. lia.
Qed.

Lemma digits_inj w i j :
  0 <= i < 10 ^ Z.of_nat w -> 0 <= j < 10 ^ Z.of_nat w -> digits w i = digits w j -> i = j.
Proof.
  revert i j. induction w as [|w IH]; intros i j Hi Hj.
  - change (10 ^ Z.of_nat 0) with 1 in *. lia.
  - pose proof (pow10_pos w) as Hp. cbn [digits]. intros [= Hq Hr].
    apply IH in Hr; try (by apply Z.mod_pos_bound).
    rewrite (Z.div_mod i (10 ^ Z.of_nat w)), (Z.div_mod j (10 ^ Z.of_nat w)) by lia. lia.
Qed.

(** Lexicographic order of byte strings of one length. *)
Fixpoint lex_lt (a b : list Z) : bool :=
  match a, b with
  | x :: a', y :: b' => (x <? y) || (x =? y) && lex_lt a' b'
  | _, _ => false
  end.

Lemma lex_lt_app p a b : lex_lt (p ++ a) (p ++ b) = lex_lt a b.
Proof. induction p as [|x p IH]; cbn; [done|]. by rewrite Z.ltb_irrefl, Z.eqb_refl, IH. Qed.

Lemma lex_lt_digits w i j :
  0 <= i < 10 ^ Z.of_nat w -> 0 <= j < 10 ^ Z.of_nat w -> lex_lt (digits w i) (digits w j) = (i <? j).
Proof.
  revert i j. induction w as [|w IH]; intros i j Hi Hj.
  - change (10 ^ Z.of_nat 0) with 1 in *. cbn. symmetry. apply Z.ltb_ge. lia.
  - pose proof (pow10_pos w) as Hp. cbn [digits lex_lt].
    pose proof (Z.div_mod i (10 ^ Z.of_nat w) ltac:(lia)).
    pose proof (Z.div_mod j (10 ^ Z.of_nat w) ltac:(lia)).
    pose proof (Z.mod_pos_bound i (10 ^ Z.of_nat w) Hp) as Hmi.
    pose proof (Z.mod_pos_bound j (10 ^ Z.of_nat w) Hp) as Hmj.
    rewrite IH by lia.
    set (qi := i / 10 ^ Z.of_nat w) in *. set (qj := j / 10 ^ Z.of_nat w) in *.
    set (mi := i mod 10 ^ Z.of_nat w) in *. set (mj := j mod 10 ^ Z.of_nat w) in *.
    set (P := 10 ^ Z.of_nat w) in *.
    destruct (Z.ltb_spec (48 + qi) (48 + qj)), (Z.eqb_spec (48 + qi) (48 + qj)),
      (Z.ltb_spec mi mj), (Z.ltb_spec i j); cbn; try done; nia.
Qed.

Lemma U32_ten_digits i : in_width U32 i -> 0 <= i < 10 ^ Z.of_nat 10.
Proof. unfold in_width, U32. change (10 ^ Z.of_nat 10) with 10000000000. lia. Qed.

Lemma parse_u32_unsigned c t : is_digit c -> parse_u32 (c :: t) = parse_digits 0 (c :: t).
Proof.
  intros H. unfold is_digit in H. unfold parse_u32.
  destruct c as [|p|p]; try lia.
  do 6 (destruct p as [p|p|]; try lia; try done).
Qed.

Lemma parse_segment_name i : in_width U32 i -> parse_segment_index (segment_name i) = Some i.
Proof.
  intros Hi. unfold parse_segment_index, segment_name. rewrite strip_prefix_app, length_digits.
  change (negb (SEGMENT_INDEX_WIDTH =? SEGMENT_INDEX_WIDTH)%nat) with false. cbn iota.
  pose proof (U32_ten_digits i Hi) as Hd. unfold SEGMENT_INDEX_WIDTH. 
  pose proof (top_digit 9 i Hd) as Ht.
  pose proof (parse_digits_digits 10 i 0 Hd) as Hp. rewrite Z.mul_0_l, Z.add_0_l in Hp.
  rewrite <- Hp by (unfold in_width in Hi; lia).
  change (digits 10 i) with ((48 + i / 10 ^ Z.of_nat 9) :: digits 9 (i mod 10 ^ Z.of_nat 9)).
  apply parse_u32_unsigned. unfold is_digit. lia.
Qed.

Lemma parse_u32_Some l i :
  parse_u32 l = Some i -> parse_digits 0 l = Some i \/ exists t, l = 43 :: t /\ parse_digits 0 t = Some i.
Proof.
  destruct l as [|c t]; [done|]. destruct (decide (c = 43)) as [->|Hc].
  - destruct t as [|c t]; [done|]. intros H. right. by exists (c :: t).
  - intros H. left. revert H. unfold parse_u32. destruct c as [|p|p]; try done.
    do 6 (destruct p as [p|p|]; try done; try (by destruct t)).
Qed.

Lemma parse_segment_index_Some name i :
  parse_segment_index name = Some i ->
  in_width U32 i /\
  (name = segment_name i \/ (i < 10 ^ 9 /\ name = SEGMENT_PREFIX ++ 43 :: digits 9 i)).
Proof.
  unfold parse_segment_index. destruct (strip_prefix SEGMENT_PREFIX name) as [rest|] eqn:E; [|done].
  apply strip_prefix_Some in E as ->.
  destruct (Nat.eqb_spec (length rest) SEGMENT_INDEX_WIDTH) as [Hl|]; [|done]. cbn [negb].
  assert (Hw : forall l acc v, 0 <= acc < U32 -> parse_digits acc l = Some v -> in_width U32 v).
  { induction l as [|c l IH]; intros acc v Ha; cbn [parse_digits]; [by intros [= <-]|].
    destruct (48 <=? c) eqn:E1, (c <=? 57) eqn:E2; try done. cbn [andb].
    destruct (Z.ltb_spec (acc * 10 + (c - 48)) U32); [|done]. apply IH.
    apply Z.leb_le in E1. lia. }
  assert (H0 : 0 <= 0 < U32) by done.
  intros [H|(t & -> & H)]%parse_u32_Some; (split; [by eapply Hw|]);
    apply parse_digits_Some in H as (_ & j & Hj & Hv & Hd); try lia;
    rewrite Z.mul_0_l, Z.add_0_l in Hv; subst j.
  - left. unfold segment_name. rewrite Hd, Hl. done.
  - right. cbn in Hl. unfold SEGMENT_INDEX_WIDTH in Hl. injection Hl as Hl. rewrite Hl in Hd, Hj.
    split; [apply Hj|]. by rewrite Hd.
Qed.

(** ** The manifest *)

Section manifest_lemmas.
Context (crc32c : list Z -> Z).
Context (crc_u32 : forall l, in_width U32 (crc32c l)).

Definition floor_body (f : WalFloor) : list Z :=
  MANIFEST_MAGIC ++ le_encode 4 MANIFEST_VERSION ++ le_encode 4 (segment_index f)
  ++ le_encode 8 (floor_lsn f).

Lemma length_floor_body f : length (floor_body f) = MANIFEST_BODY_LEN.
Proof. unfold floor_body. rewrite !length_app, !length_le_encode. reflexivity. Qed.

Lemma read_floor_write d f :
  in_width U32 (segment_index f) -> in_width U64 (floor_lsn f) ->
  read_floor crc32c (write_floor crc32c d f) = Ok f.
Proof.
  intros Hs Hl. unfold read_floor, write_floor, floor_bytes. cbn [wd_manifest].
  fold (floor_body f). pose proof (length_floor_body f) as Hb.
  rewrite length_app, Hb, length_le_encode. change (negb _) with false at 1. cbn iota.
  rewrite take_app_le, take_ge by lia. rewrite drop_app_ge, Hb by lia.
  rewrite Nat.sub_diag, drop_0. rewrite le_decode_encode by apply crc_u32. rewrite Z.eqb_refl.
  cbn [negb]. unfold floor_body.
  assert (HM : slice 0 8 (MANIFEST_MAGIC ++ le_encode 4 MANIFEST_VERSION ++
    le_encode 4 (segment_index f) ++ le_encode 8 (floor_lsn f)) = MANIFEST_MAGIC) by reflexivity.
  assert (HV : slice 8 12 (MANIFEST_MAGIC ++ le_encode 4 MANIFEST_VERSION ++
    le_encode 4 (segment_index f) ++ le_encode 8 (floor_lsn f)) = le_encode 4 MANIFEST_VERSION)
    by reflexivity.
  assert (HS : slice 12 16 (MANIFEST_MAGIC ++ le_encode 4 MANIFEST_VERSION ++
    le_encode 4 (segment_index f) ++ le_encode 8 (floor_lsn f)) = le_encode 4 (segment_index f))
    by reflexivity.
  assert (HL : slice 16 24 (MANIFEST_MAGIC ++ le_encode 4 MANIFEST_VERSION ++
    le_encode 4 (segment_index f) ++ le_encode 8 (floor_lsn f)) = le_encode 8 (floor_lsn f))
    by reflexivity.
  rewrite HM, HV, HS, HL. rewrite bool_decide_true by done. cbn [negb].
  rewrite !le_decode_encode by (rewrite ?pow256_U32, ?pow256_U64; done).
  cbn. by destruct f.
Qed.

Lemma read_floor_canonical d bytes f :
  wd_manifest d = Some bytes -> Forall is_byte bytes -> read_floor crc32c d = Ok f ->
  bytes = floor_bytes crc32c f /\ in_width U32 (segment_index f) /\ in_width U64 (floor_lsn f).
Proof.
  intros Hm Hb. unfold read_floor. rewrite Hm.
  destruct (Nat.eqb_spec (length bytes) MANIFEST_FILE_LEN) as [Hl|]; [|done]. cbn [negb].
  unfold MANIFEST_FILE_LEN, MANIFEST_BODY_LEN in *.
  set (body := take 24 bytes).
  assert (Hbl : length body = 24%nat) by (unfold body; rewrite length_take; lia).
  assert (Hbb : Forall is_byte body) by (by apply Forall_take).
  assert (Hdl : length (drop 24 bytes) = 4%nat) by (rewrite length_drop; lia).
  destruct (Z.eqb_spec (crc32c body) (le_decode (drop 24 bytes))) as [Hc|]; [|done]. cbn [negb].
  destruct (bool_decide_reflect (slice 0 8 body = MANIFEST_MAGIC)) as [HM|]; [|done]. cbn [negb].
  destruct (Z.eqb_spec (le_decode (slice 8 12 body)) MANIFEST_VERSION) as [HV|]; [|done]. cbn [negb].
  intros [= <-]. unfold floor_bytes. cbn [segment_index floor_lsn].
  assert (Henc : forall a b n, (b <= 24)%nat -> (b - a = n)%nat ->
    le_encode n (le_decode (slice a b body)) = slice a b body /\
    0 <= le_decode (slice a b body) < 256 ^ Z.of_nat n).
  { intros a b n Hle <-. assert (length (slice a b body) = (b - a)%nat) as Hsl by (rewrite length_slice; lia).
    assert (Forall is_byte (slice a b body)) by (by apply Forall_take, Forall_drop).
    rewrite <- Hsl. split; [by apply le_encode_decode|by apply le_decode_bound]. }
  destruct (Henc 8%nat 12%nat 4%nat) as [E1 _]; [lia..|].
  destruct (Henc 12%nat 16%nat 4%nat) as [E2 B2]; [lia..|].
  destruct (Henc 16%nat 24%nat 8%nat) as [E3 B3]; [lia..|].
  split; [|by split]. rewrite <- HM, <- HV, E1, E2, E3.
  rewrite <- !slice_split by lia.
  assert (slice 0 24 body = body) as -> by (unfold slice; rewrite drop_0; apply take_ge; lia).
  rewrite Hc, <- Hdl at 1. rewrite le_encode_decode by (by apply Forall_drop).
  unfold body. by rewrite take_drop.
Qed.
End manifest_lemmas.

(** ** Enumeration *)

Definition seg_sorted (l : list (Z * list Z)) : Prop := StronglySorted Z.lt l.*1.

#[global] Instance seg_le_total : Total seg_le.
Proof. intros x y. unfold seg_le. lia. Qed.

#[global] Instance seg_le_trans : Transitive seg_le.
Proof. intros x y z. unfold seg_le. lia. Qed.

Lemma seg_sorted_NoDup l : seg_sorted l -> NoDup l.*1.
Proof.
  unfold seg_sorted. induction l.*1 as [|x k IH]; intros Hs; [constructor|].
  apply StronglySorted_inv in Hs as [Hs Hx]. constructor; [|by apply IH].
  intros Hin. rewrite Forall_forall in Hx. specialize (Hx x Hin). lia.
Qed.

Lemma seg_sorted_le l : seg_sorted l -> StronglySorted seg_le l.
Proof.
  unfold seg_sorted. induction l as [|x l IH]; [constructor|]. cbn. intros [Hs Hx]%StronglySorted_inv.
  constructor; [by apply IH|]. rewrite Forall_fmap in Hx.
  eapply Forall_impl; [exact Hx|]. unfold compose, seg_le. lia.
Qed.

Lemma seg_sorted_unique l1 l2 :
  NoDup l1.*1 -> StronglySorted seg_le l1 -> seg_sorted l2 -> l1 ≡ₚ l2 -> l1 = l2.
Proof.
  revert l2. induction l1 as [|x l1 IH]; intros l2 Hn H1 H2 Hp.
  { by apply Permutation_nil_l in Hp. }
  destruct l2 as [|y l2]; [by apply Permutation_nil_r in Hp|].
  assert (Hxy : x = y).
  { apply StronglySorted_inv in H1 as [_ Hx]. unfold seg_sorted in H2; cbn in H2. apply StronglySorted_inv in H2 as [_ Hy].
    rewrite Forall_fmap in Hy. rewrite Forall_forall in Hx, Hy.
    assert (Hxin : x ∈ y :: l2) by (rewrite <- Hp; set_solver).
    assert (Hyin : y ∈ x :: l1) by (rewrite Hp; set_solver).
    apply elem_of_cons in Hxin as [->|Hxin]; [done|].
    apply elem_of_cons in Hyin as [->|Hyin]; [done|].
    specialize (Hx y Hyin). specialize (Hy x Hxin). unfold seg_le, compose in *. lia. }
  subst y. f_equal. apply Permutation_cons_inv in Hp. cbn in Hn. apply NoDup_cons in Hn as [_ Hn].
  apply StronglySorted_inv in H1 as [H1 _]. unfold seg_sorted in H2; cbn in H2. apply StronglySorted_inv in H2 as [H2 _].
  by apply IH.
Qed.

(** A directory holding exactly the files of a sorted list lists that list. *)
Lemma list_segments_sorted m l :
  seg_sorted l -> list_segments (mk_WalDir m (list_to_map l)) = l.
Proof.
  intros Hs. pose proof (seg_sorted_NoDup l Hs) as Hn.
  assert (Hp : list_segments (mk_WalDir m (list_to_map l)) ≡ₚ l).
  { unfold list_segments. rewrite merge_sort_Permutation. cbn [wd_files]. by apply map_to_list_to_map. }
  apply seg_sorted_unique; [|by apply StronglySorted_merge_sort; apply _|done|done].
  by rewrite Hp.
Qed.

Lemma list_segments_map d : list_to_map (list_segments d) = wd_files d.
Proof.
  unfold list_segments. rewrite <- (list_to_map_to_list (wd_files d)) at 2.
  apply list_to_map_proper; [|apply merge_sort_Permutation].
  rewrite merge_sort_Permutation. apply NoDup_fst_map_to_list.
Qed.

Lemma list_segments_listed d : seg_sorted (list_segments d).
Proof.
  unfold seg_sorted, list_segments.
  assert (Hn : NoDup (merge_sort seg_le (map_to_list (wd_files d))).*1).
  { rewrite merge_sort_Permutation. apply NoDup_fst_map_to_list. }
  pose proof (StronglySorted_merge_sort seg_le (map_to_list (wd_files d))) as Hs.
  induction (merge_sort seg_le (map_to_list (wd_files d))) as [|x l IH]; [constructor|].
  cbn in *. apply NoDup_cons in Hn as [Hx Hn]. apply StronglySorted_inv in Hs as [Hs Hf].
  constructor; [by apply IH|]. apply Forall_fmap. rewrite Forall_forall in Hf.
  apply Forall_forall. intros y Hy. specialize (Hf y Hy). unfold seg_le, compose in *.
  assert (x.1 <> y.1); [|lia]. intros E. apply Hx. rewrite E. by apply list_elem_of_fmap_2.
Qed.

(** ** Properties *)

(** Segment names and indices correspond. Every [u32] index survives the
    round trip through its file name, the byte order of names is the numeric
    order of indices (what the module comment promises), and a name that
    parses is the name of its index or one with a plus sign before nine
    digits: [u32::from_str] accepts the sign, so the parser accepts names
    [segment_path] never builds. *)
Theorem segment_names_exact i j :
  in_width U32 i -> in_width U32 j ->
  parse_segment_index (segment_name i) = Some i /\
  lex_lt (segment_name i) (segment_name j) = (i <? j) /\
  (segment_name i = segment_name j -> i = j) /\
  (forall name k, parse_segment_index name = Some k ->
     in_width U32 k /\
     (name = segment_name k \/ (k < 10 ^ 9 /\ name = SEGMENT_PREFIX ++ 43 :: digits 9 k))) /\
  parse_segment_index (str_bytes "segment_+000000007") = Some 7 /\
  parse_segment_index (str_bytes "segment_0000000007") = Some 7.
Proof.
  intros Hi Hj. pose proof (U32_ten_digits i Hi). pose proof (U32_ten_digits j Hj).
  split; [by apply parse_segment_name|].
  split; [unfold segment_name; rewrite lex_lt_app; by apply lex_lt_digits|].
  split. { unfold segment_name. intros E%app_inv_head. by apply digits_inj in E. }
  split; [apply parse_segment_index_Some|]. split; reflexivity.
Qed.

Lemma segment_names_exact_witness :
  segment_name 42 = str_bytes "segment_0000000042" /\
  parse_segment_index (segment_name 42) = Some 42 /\
  lex_lt (segment_name 42) (segment_name 1000) = (42 <? 1000).
Proof.
  split; [reflexivity|].
  destruct (segment_names_exact 42 1000) as (H1 & H2 & _); [by split|by split|]. by split.
Defined.

(** The floor manifest round trips, an absent manifest is the origin, and
    a manifest that is accepted is byte for byte the one [write_floor] writes
    for the floor it returns, so nothing but a checksum collision on a body of
    the right magic and version is read as another floor. *)
Theorem manifest_floor_exact crc32c d f :
  (forall l, in_width U32 (crc32c l)) ->
  in_width U32 (segment_index f) -> in_width U64 (floor_lsn f) ->
  read_floor crc32c (write_floor crc32c d f) = Ok f /\
  wd_files (write_floor crc32c d f) = wd_files d /\
  read_floor crc32c (mk_WalDir None (wd_files d)) = Ok WalFloor_ORIGIN /\
  (forall bytes g, Forall is_byte bytes ->
     read_floor crc32c (mk_WalDir (Some bytes) (wd_files d)) = Ok g ->
     bytes = floor_bytes crc32c g /\ in_width U32 (segment_index g) /\ in_width U64 (floor_lsn g)).
Proof.
  intros Hc Hs Hl. split; [by apply read_floor_write|]. split; [done|]. split; [done|].
  intros bytes g Hb Hr. by apply (read_floor_canonical crc32c (mk_WalDir (Some bytes) (wd_files d))).
Qed.

Lemma manifest_floor_exact_witness :
  let crc := fun l => wrap U32 (foldl Z.add 0 l) in
  read_floor crc (write_floor crc (mk_WalDir None ∅) (mk_WalFloor 3 4096)) = Ok (mk_WalFloor 3 4096) /\
  read_floor crc (mk_WalDir (Some [1; 2]) ∅) = Err (malformed "wal manifest wrong length").
Proof.
  split; [|reflexivity].
  destruct (manifest_floor_exact (fun l => wrap U32 (foldl Z.add 0 l)) (mk_WalDir None ∅)
    (mk_WalFloor 3 4096)) as [H _]; [|by split|by split|exact H].
  intros l. apply Z.mod_pos_bound. reflexivity.
Defined.
