(* ===== verification/WalPayload.v ===== *)
(** * Transaction-control payloads of WAL records
    (ultrasql-wal, payload/mod.rs and payload/txn.rs)

    The typed payloads a record carries: each has an encoder and a decoder,
    and both may fail. The interface [PayloadCodec] states what the producers
    and consumers of the log rely on; its instances discharge it for each
    payload. *)

From S2P Require Import Prelude CoreIds WalRecord.

Inductive PayloadError :=
| PTruncated (needed have : Z)
| PMalformed (what : string)
| PTrailing (expected have : Z)
| PFlagsReserved (flags : Z).

Definition MAX_VARIABLE_PAYLOAD_BYTES : Z := MAX_RECORD_BYTES - Z.of_nat RECORD_HEADER_SIZE - 64.

Definition blen (bytes : list Z) : Z := Z.of_nat (length bytes).

Definition require_exact_len (bytes : list Z) (expected : Z) : result unit PayloadError :=
  match blen bytes ?= expected with
  | Lt => Err (PTruncated expected (blen bytes))
  | Eq => Ok tt
  | Gt => Err (PTrailing expected (blen bytes))
  end.

Definition checked_offset (start len : Z) (context : string) : result Z PayloadError :=
  ok_or (checked_add U64 start len) (PMalformed context).

Definition checked_mul (x y : Z) (context : string) : result Z PayloadError :=
  if x * y <? U64 then Ok (x * y) else Err (PMalformed context).

(** Read the field of [n] bytes at [off]. *)
Definition field (n off : nat) (bytes : list Z) (what : string) : result Z PayloadError :=
  ok_or (read_le n (slice off (off + n) bytes)) (PMalformed what).

(** ** Tuple and page identifiers *)

Definition TID_SIZE : nat := 12.

Definition encode_tid (tid : TupleId) : result (list Z) PayloadError :=
  let block := pg_block (tid_page tid) in
  if 16777215 <? block then Err (PMalformed "tid block number exceeds 24-bit wire field") else
  Ok (le_encode 4 (pg_relation (tid_page tid)) ++ le_encode 4 block ++ le_encode 2 (tid_slot tid)
      ++ le_encode 2 0).

Definition decode_tid (bytes : list Z) : result TupleId PayloadError :=
  if (length bytes <? TID_SIZE)%nat then Err (PTruncated (Z.of_nat TID_SIZE) (blen bytes)) else
  let? rel := field 4 0 bytes "tid relation" in
  let? block_word := field 4 4 bytes "tid block" in
  if negb (Z.land block_word 4278190080 =? 0) then Err (PMalformed "tid block reserved bits set") else
  let? reserved := field 2 10 bytes "tid reserved bytes" in
  if negb (reserved =? 0) then Err (PMalformed "tid reserved bytes must be zero") else
  let block_raw := Z.land block_word 16777215 in
  let? slot := field 2 8 bytes "tid slot" in
  Ok (mk_TupleId (mk_PageId rel block_raw) slot).

Definition PAGE_ID_SIZE : nat := 8.

Definition encode_page_id (p : PageId) : list Z := le_encode 4 (pg_relation p) ++ le_encode 4 (pg_block p).

Definition decode_page_id (bytes : list Z) : result PageId PayloadError :=
  if (length bytes <? PAGE_ID_SIZE)%nat then Err (PTruncated (Z.of_nat PAGE_ID_SIZE) (blen bytes)) else
  let? rel := field 4 0 bytes "page relation" in
  let? block := field 4 4 bytes "page block" in
  Ok (mk_PageId rel block).

(** ** CommitPayload *)

Record CommitPayload := mk_CommitPayload {
  commit_lsn : Lsn;
  commit_timestamp_micros : Z;
  committed_subxids : list Xid;
}.

Definition COMMIT_FIXED : nat := 20.
Definition SUBXID_SIZE : nat := 8.

Definition CommitPayload_encode (p : CommitPayload) : result (list Z) PayloadError :=
  let n := Z.of_nat (length (committed_subxids p)) in
  if U32 <=? n then Err (PMalformed "commit subxid count overflow") else
  let? body := checked_mul n (Z.of_nat SUBXID_SIZE) "commit subxid bytes overflow" in
  let? total := checked_offset (Z.of_nat COMMIT_FIXED) body "commit length overflow" in
  Ok (le_encode 8 (commit_lsn p) ++ le_encode 8 (commit_timestamp_micros p) ++ le_encode 4 n
      ++ concat (map (le_encode SUBXID_SIZE) (committed_subxids p))).

(** The loop that reads [count] subxids from [offset] on. *)
Fixpoint read_subxids (count offset : nat) (bytes : list Z) : result (list Xid) PayloadError :=
  match count with
  | O => Ok []
  | S count' =>
      let? raw := field SUBXID_SIZE offset bytes "commit subxid" in
      let? rest := read_subxids count' (offset + SUBXID_SIZE) bytes in
      Ok (raw :: rest)
  end.

Definition CommitPayload_decode (bytes : list Z) : result CommitPayload PayloadError :=
  if blen bytes <? 16 then Err (PTruncated 16 (blen bytes)) else
  let? lsn := field 8 0 bytes "commit lsn" in
  let? ts := field 8 8 bytes "commit timestamp" in
  if blen bytes =? 16 then Ok (mk_CommitPayload lsn ts []) else
  if blen bytes <? Z.of_nat COMMIT_FIXED then Err (PTruncated (Z.of_nat COMMIT_FIXED) (blen bytes)) else
  let? count := field 4 16 bytes "commit subxid count" in
  let? body := checked_mul count (Z.of_nat SUBXID_SIZE) "commit subxid bytes overflow" in
  let? needed := checked_offset (Z.of_nat COMMIT_FIXED) body "commit length overflow" in
  if blen bytes <? needed then Err (PTruncated needed (blen bytes)) else
  let? subs := read_subxids (Z.to_nat count) COMMIT_FIXED bytes in
  let? _u := require_exact_len bytes needed in
  Ok (mk_CommitPayload lsn ts subs).

(** ** AbortPayload *)

Record AbortPayload := mk_AbortPayload { abort_lsn : Lsn }.

Definition AbortPayload_encode (p : AbortPayload) : list Z := le_encode 8 (abort_lsn p).

Definition AbortPayload_decode (bytes : list Z) : result AbortPayload PayloadError :=
  if blen bytes <? 8 then Err (PTruncated 8 (blen bytes)) else
  let? lsn := field 8 0 bytes "abort lsn" in
  let? _u := require_exact_len bytes 8 in
  Ok (mk_AbortPayload lsn).

(** ** CheckpointPayload *)

Record CheckpointPayload := mk_CheckpointPayload {
  redo_from : Lsn;
  ckpt_oldest_in_progress : Xid;
  ckpt_next_xid : Xid;
}.

Definition CheckpointPayload_encode (p : CheckpointPayload) : list Z :=
  le_encode 8 (redo_from p) ++ le_encode 8 (ckpt_oldest_in_progress p) ++ le_encode 8 (ckpt_next_xid p).

Definition CheckpointPayload_decode (bytes : list Z) : result CheckpointPayload PayloadError :=
  if blen bytes <? 24 then Err (PTruncated 24 (blen bytes)) else
  let? redo := field 8 0 bytes "ckpt redo_from" in
  let? oldest := field 8 8 bytes "ckpt oldest_in_progress" in
  let? next := field 8 16 bytes "ckpt next_xid" in
  let? _u := require_exact_len bytes 24 in
  Ok (mk_CheckpointPayload redo oldest next).

(** ** FullPageWritePayload *)

Record FullPageWritePayload := mk_FullPageWritePayload { fpw_page : PageId; fpw_page_bytes : list Z }.

Definition FPW_FIXED : nat := 12.

Definition FullPageWritePayload_encode (p : FullPageWritePayload) : result (list Z) PayloadError :=
  if negb (blen (fpw_page_bytes p) =? PAGE_SIZE) then Err (PMalformed "fpw page_bytes length") else
  Ok (encode_page_id (fpw_page p) ++ le_encode 4 PAGE_SIZE ++ fpw_page_bytes p).

Definition FullPageWritePayload_decode (bytes : list Z) : result FullPageWritePayload PayloadError :=
  if (length bytes <? FPW_FIXED)%nat then Err (PTruncated (Z.of_nat FPW_FIXED) (blen bytes)) else
  let? page := decode_page_id bytes in
  let? n := field 4 8 bytes "fpw page_bytes_len" in
  if negb (n =? PAGE_SIZE) then Err (PMalformed "fpw page_bytes_len must equal PAGE_SIZE") else
  let? needed := checked_offset (Z.of_nat FPW_FIXED) n "fpw length overflow" in
  if blen bytes <? needed then Err (PTruncated needed (blen bytes)) else
  let? _u := require_exact_len bytes needed in
  Ok (mk_FullPageWritePayload page (slice FPW_FIXED (Z.to_nat needed) bytes)).

(** ** The interface of a payload codec

    [pc_fits] are the values the source's field types admit. Encoding such a
    value either fails with an error or decodes back to it; what decodes is
    the encoding of the value, up to the byte strings [pc_legacy] of an older
    format. *)
Class PayloadCodec (A : Type) := {
  pc_encode : A -> result (list Z) PayloadError;
  pc_decode : list Z -> result A PayloadError;
  pc_fits : A -> Prop;
  pc_legacy : list Z -> Prop;
  pc_roundtrip : forall a bytes,
    pc_fits a -> pc_encode a = Ok bytes -> pc_decode bytes = Ok a;
  pc_canonical : forall a bytes,
    Forall is_byte bytes -> pc_decode bytes = Ok a ->
    pc_fits a /\ (pc_encode a = Ok bytes \/ pc_legacy bytes);
}.

(** ** Field lemmas *)

Lemma field_hit n v r what : 0 <= v < 256 ^ Z.of_nat n -> field n 0 (le_encode n v ++ r) what = Ok v.
Proof. intros Hv. unfold field. rewrite Nat.add_0_l, slice_hit_enc, read_le_encode; done. Qed.

Lemma field_skip n m v off r what :
  (m <= off)%nat -> field n off (le_encode m v ++ r) what = field n (off - m) r what.
Proof.
  intros Hm. unfold field. rewrite slice_skip_enc by done.
  by replace (off + n - m)%nat with (off - m + n)%nat by lia.
Qed.

Lemma field_skip_app n pre off r what :
  (length pre <= off)%nat -> field n off (pre ++ r) what = field n (off - length pre) r what.
Proof.
  intros Hm. unfold field, slice. rewrite drop_app_ge by done. do 2 f_equal. f_equal. lia.
Qed.

Lemma field_Ok n off bytes what v :
  Forall is_byte bytes -> (0 < n)%nat -> field n off bytes what = Ok v ->
  (off + n <= length bytes)%nat /\ le_encode n v = slice off (off + n) bytes /\
  0 <= v < 256 ^ Z.of_nat n.
Proof.
  intros Hb Hn. unfold field. destruct (read_le _ _) as [w|] eqn:E; [|done]. intros [= ->].
  pose proof (read_le_Some _ _ _ E) as [Hl _]. unfold slice in Hl.
  rewrite length_take, length_drop in Hl.
  assert (off + n <= length bytes)%nat as Hle by lia.
  split; [done|]. by apply (read_le_slice n off (off + n) bytes v).
Qed.

Lemma require_exact_len_Ok bytes n u : require_exact_len bytes n = Ok u -> blen bytes = n.
Proof. unfold require_exact_len. destruct (Z.compare_spec (blen bytes) n); done. Qed.

Lemma require_exact_len_refl bytes : require_exact_len bytes (blen bytes) = Ok tt.
Proof. unfold require_exact_len. by rewrite Z.compare_refl. Qed.

Lemma checked_offset_Ok a b what n : checked_offset a b what = Ok n -> n = a + b /\ n < U64.
Proof. unfold checked_offset, checked_add. destruct (Z.ltb_spec (a + b) U64); cbn; naive_solver. Qed.

Lemma checked_mul_Ok a b what n : checked_mul a b what = Ok n -> n = a * b /\ n < U64.
Proof. unfold checked_mul. destruct (Z.ltb_spec (a * b) U64); cbn; naive_solver. Qed.

Lemma blen_app a b : blen (a ++ b) = blen a + blen b.
Proof. unfold blen. rewrite length_app. lia. Qed.

Lemma blen_enc n v : blen (le_encode n v) = Z.of_nat n.
Proof. unfold blen. by rewrite length_le_encode. Qed.

Lemma slice_all l n : n = length l -> slice 0 n l = l.
Proof. intros ->. unfold slice. rewrite drop_0, Nat.sub_0_r. by apply take_ge. Qed.

(** Read back the leading fields of a concatenation. *)
Ltac fields :=
  repeat first
    [ rewrite field_hit by (rewrite ?pow256_U16, ?pow256_U32, ?pow256_U64; done); cbn beta iota
    | rewrite field_skip by lia; cbn [Nat.sub] ].

(** Destruct the field reads of a decoder that succeeded. *)
Ltac read_fields Hb :=
  repeat match goal with
  | |- (match field ?n ?o ?b ?w with Ok _ => _ | Err _ => _ end) = _ -> _ =>
      let v := fresh "v" in let E := fresh "E" in let L := fresh "L" in let B := fresh "B" in
      destruct (field n o b w) as [v|] eqn:E; [|done];
      apply field_Ok in E as (L & E & B); [|exact Hb|lia]; cbn [Nat.add] in E, L
  end.

Section tid.
Definition tid_fits (t : TupleId) : Prop :=
  in_width U32 (pg_relation (tid_page t)) /\ 0 <= pg_block (tid_page t) /\ in_width U16 (tid_slot t).

Lemma land_low24 b : 0 <= b < 2 ^ 24 -> Z.land b 4278190080 = 0 /\ Z.land b 16777215 = b.
Proof.
  intros Hb. change 16777215 with (Z.ones 24). rewrite Z.land_ones, Z.mod_small by lia. split; [|done].
  change 4278190080 with (Z.shiftl 255 24). apply Z.bits_inj'. intros n Hn.
  rewrite Z.land_spec, Z.shiftl_spec, Z.bits_0 by done. apply andb_false_iff.
  destruct (decide (n < 24)); [right; apply Z.testbit_neg_r; lia|]. left.
  destruct (decide (b = 0)) as [->|]; [apply Z.bits_0|].
  apply Z.bits_above_log2; [lia|]. apply Z.log2_lt_pow2; [lia|].
  eapply Z.lt_le_trans; [apply Hb|]. apply Z.pow_le_mono_r; lia.
Qed.

Lemma low24_bound b : 0 <= b < U32 -> Z.land b 4278190080 = 0 -> b < 2 ^ 24.
Proof.
  intros Hb Hl. destruct (decide (b < 2 ^ 24)) as [|Hn]; [done|]. exfalso.
  assert (H24 : b / 2 ^ 24 = 0); [|apply Z.div_small_iff in H24; lia].
  change 4278190080 with (Z.shiftl 255 24) in Hl.
  assert (Z.land (Z.shiftr b 24) 255 = 0) as H1.
  { apply (f_equal (fun z => Z.shiftr z 24)) in Hl. rewrite Z.shiftr_land in Hl.
    rewrite Z.shiftr_shiftl_l, Z.sub_diag in Hl by lia. done. }
  change 255 with (Z.ones 8) in H1. rewrite Z.land_ones, Z.shiftr_div_pow2 in H1 by lia.
  rewrite Z.mod_small in H1; [done|]. unfold U32 in Hb.
  split; [apply Z.div_pos; lia|]. apply Z.div_lt_upper_bound; lia.
Qed.

Lemma decode_tid_encode t bytes rest :
  tid_fits t -> encode_tid t = Ok bytes -> decode_tid (bytes ++ rest) = Ok t /\ length bytes = TID_SIZE.
Proof.
  intros (Hr & Hb & Hs). unfold encode_tid.
  destruct (Z.ltb_spec 16777215 (pg_block (tid_page t))) as [|Hlt]; [done|]. intros <-%Ok_inj.
  split; [|by rewrite !length_app, !length_le_encode].
  unfold decode_tid. rewrite !length_app, !length_le_encode.
  change (_ <? TID_SIZE)%nat with false. cbn iota. rewrite <- !app_assoc.
  assert (0 <= pg_block (tid_page t) < U32) by (unfold U32; lia).
  fields. destruct (land_low24 (pg_block (tid_page t))) as [-> ->]; [lia|]. cbn [Z.eqb negb].
  fields. cbn [Z.eqb negb]. fields. by destruct t as [[r b] s].
Qed.

Lemma decode_tid_canonical bytes t :
  Forall is_byte bytes -> decode_tid bytes = Ok t ->
  tid_fits t /\ encode_tid t = Ok (take TID_SIZE bytes) /\ (TID_SIZE <= length bytes)%nat.
Proof.
  intros Hb. unfold decode_tid, TID_SIZE. destruct (Nat.ltb_spec (length bytes) 12) as [|Hl]; [done|].
  read_fields Hb. destruct (Z.eqb_spec (Z.land v0 4278190080) 0) as [Hz|]; [|done]. cbn [negb].
  read_fields Hb. destruct (Z.eqb_spec v1 0) as [->|]; [|done]. cbn [negb].
  read_fields Hb. intros <-%Ok_inj. apply low24_bound in Hz; [|done].
  destruct (land_low24 v0) as [_ ->]; [lia|].
  unfold tid_fits, encode_tid. cbn [tid_page tid_slot pg_relation pg_block].
  rewrite (proj2 (Z.ltb_ge _ _)) by lia. split; [split; [done|]; split; [lia|done]|]. split; [|done].
  f_equal. rewrite E, E0, E1, E2. rewrite <- !slice_split by lia. unfold slice. by rewrite drop_0.
Qed.
End tid.

Section page_id.
Definition page_fits (p : PageId) : Prop := in_width U32 (pg_relation p) /\ in_width U32 (pg_block p).

Lemma decode_page_id_encode p rest : page_fits p -> decode_page_id (encode_page_id p ++ rest) = Ok p.
Proof.
  intros [Hr Hb]. unfold decode_page_id, encode_page_id. rewrite !length_app, !length_le_encode.
  change (_ <? PAGE_ID_SIZE)%nat with false. cbn iota. rewrite <- !app_assoc. fields. by destruct p.
Qed.

Lemma decode_page_id_canonical bytes p :
  Forall is_byte bytes -> decode_page_id bytes = Ok p ->
  page_fits p /\ encode_page_id p = take PAGE_ID_SIZE bytes /\ (PAGE_ID_SIZE <= length bytes)%nat.
Proof.
  intros Hb. unfold decode_page_id, PAGE_ID_SIZE.
  destruct (Nat.ltb_spec (length bytes) 8) as [|Hl]; [done|].
  read_fields Hb. intros <-%Ok_inj. split; [by split|]. split; [|done].
  unfold encode_page_id. cbn [pg_relation pg_block]. rewrite E, E0, <- slice_split by lia. unfold slice. by rewrite drop_0.
Qed.
End page_id.

(** ** The instances *)

#[global, program] Instance AbortPayload_codec : PayloadCodec AbortPayload := {|
  pc_encode p := Ok (AbortPayload_encode p);
  pc_decode := AbortPayload_decode;
  pc_fits p := in_width U64 (abort_lsn p);
  pc_legacy _ := False;
|}.
Next Obligation.
  intros a bytes Hf <-%Ok_inj. unfold AbortPayload_decode, AbortPayload_encode.
  rewrite blen_enc. cbn [Z.of_nat]. change (_ <? 8) with false. cbn iota.
  rewrite <- (app_nil_r (le_encode 8 _)). fields. rewrite app_nil_r.
  change 8 with (blen (le_encode 8 (abort_lsn a))). rewrite require_exact_len_refl. by destruct a.
Qed.
Next Obligation.
  intros a bytes Hb. unfold AbortPayload_decode. destruct (blen bytes <? 8); [done|]. read_fields Hb.
  destruct (require_exact_len bytes 8) eqn:E'; [|done]. apply require_exact_len_Ok in E'.
  intros <-%Ok_inj. split; [done|]. left. unfold AbortPayload_encode. cbn [abort_lsn]. rewrite E.
  f_equal. apply slice_all. unfold blen in *. lia.
Qed.

#[global, program] Instance CheckpointPayload_codec : PayloadCodec CheckpointPayload := {|
  pc_encode p := Ok (CheckpointPayload_encode p);
  pc_decode := CheckpointPayload_decode;
  pc_fits p := in_width U64 (redo_from p) /\ in_width U64 (ckpt_oldest_in_progress p) /\
               in_width U64 (ckpt_next_xid p);
  pc_legacy _ := False;
|}.
Next Obligation.
  intros a bytes (H1 & H2 & H3) <-%Ok_inj. unfold CheckpointPayload_decode.
  assert (blen (CheckpointPayload_encode a) = 24) as Hl
    by (unfold CheckpointPayload_encode; by rewrite !blen_app, !blen_enc).
  rewrite Hl. change (_ <? 24) with false. cbn iota.
  assert (require_exact_len (CheckpointPayload_encode a) 24 = Ok tt) as ->
    by (rewrite <- Hl; apply require_exact_len_refl).
  unfold CheckpointPayload_encode. fields. rewrite <- (app_nil_r (le_encode 8 (ckpt_next_xid a))).
  fields. by destruct a.
Qed.
Next Obligation.
  intros a bytes Hb. unfold CheckpointPayload_decode. destruct (blen bytes <? 24); [done|].
  read_fields Hb. destruct (require_exact_len bytes 24) eqn:E'; [|done].
  apply require_exact_len_Ok in E'. intros <-%Ok_inj. split; [done|]. left.
  unfold CheckpointPayload_encode. cbn [redo_from ckpt_oldest_in_progress ckpt_next_xid]. rewrite E, E0, E1. rewrite <- !slice_split by lia.
  f_equal. apply slice_all. unfold blen in *. lia.
Qed.

Definition enc_subxids (subs : list Xid) : list Z := concat (map (le_encode SUBXID_SIZE) subs).

Lemma length_enc_subxids subs : length (enc_subxids subs) = (SUBXID_SIZE * length subs)%nat.
Proof.
  unfold enc_subxids. induction subs as [|x subs IH]; [done|].
  cbn [map concat]. rewrite length_app, length_le_encode, IH. cbn [length]. lia.
Qed.

Lemma read_subxids_enc subs pre :
  Forall (in_width U64) subs ->
  read_subxids (length subs) (length pre) (pre ++ enc_subxids subs) = Ok subs.
Proof.
  intros Hs. revert pre. induction Hs as [|x subs Hx Hs IH]; intros pre; [done|].
  cbn [length read_subxids]. unfold enc_subxids. cbn [map concat]. fold (enc_subxids subs).
  rewrite field_skip_app, Nat.sub_diag by lia. unfold SUBXID_SIZE at 1 2. fields.
  rewrite app_assoc.
  replace (length pre + SUBXID_SIZE)%nat with (length (pre ++ le_encode SUBXID_SIZE x))
    by (rewrite length_app, length_le_encode; done).
  by rewrite IH.
Qed.

Lemma read_subxids_Ok n off bytes subs :
  Forall is_byte bytes -> read_subxids n off bytes = Ok subs ->
  length subs = n /\ Forall (in_width U64) subs /\
  enc_subxids subs = slice off (off + SUBXID_SIZE * n) bytes.
Proof.
  intros Hb. revert off subs. induction n as [|n IH]; intros off subs; cbn [read_subxids].
  - intros <-%Ok_inj. split; [done|]. split; [constructor|]. unfold slice.
    replace (off + SUBXID_SIZE * 0 - off)%nat with 0%nat by lia. done.
  - destruct (field SUBXID_SIZE off bytes _) as [x|] eqn:E; [|done].
    apply field_Ok in E as (L & E & B); [|exact Hb|unfold SUBXID_SIZE; lia].
    destruct (read_subxids n _ bytes) as [rest|] eqn:Er; [|done]. intros <-%Ok_inj.
    apply IH in Er as (Hl & Hf & He). split; [cbn; lia|].
    split; [constructor; [exact B|done]|]. unfold enc_subxids in *. cbn [map concat]. rewrite E, He.
    rewrite <- slice_split by lia. f_equal. lia.
Qed.

#[global, program] Instance CommitPayload_codec : PayloadCodec CommitPayload := {|
  pc_encode := CommitPayload_encode;
  pc_decode := CommitPayload_decode;
  pc_fits p := in_width U64 (commit_lsn p) /\ in_width U64 (commit_timestamp_micros p) /\
               Forall (in_width U64) (committed_subxids p);
  pc_legacy bytes := length bytes = 16%nat;
|}.
Next Obligation.
  intros [lsn ts subs] bytes (H1 & H2 & H3). cbn [commit_lsn commit_timestamp_micros committed_subxids] in *.
  unfold CommitPayload_encode. cbn [commit_lsn commit_timestamp_micros committed_subxids].
  set (n := Z.of_nat (length subs)) in *.
  destruct (Z.leb_spec U32 n) as [|Hn]; [done|].
  destruct (checked_mul _ _ _) as [body|] eqn:Em; [|done].
  destruct (checked_offset _ _ _) as [total|] eqn:Eo; [|done]. intros <-%Ok_inj.
  fold (enc_subxids subs).
  apply checked_mul_Ok in Em as Em'. apply checked_offset_Ok in Eo as Eo'.
  set (bytes := le_encode 8 lsn ++ le_encode 8 ts ++ le_encode 4 n ++ enc_subxids subs).
  assert (Hl : blen bytes = 20 + 8 * n).
  { unfold bytes. rewrite !blen_app, !blen_enc. unfold blen at 1. rewrite length_enc_subxids.
    unfold SUBXID_SIZE. lia. }
  assert (Hn0 : 0 <= n) by (unfold n; lia).
  unfold CommitPayload_decode. rewrite Hl.
  rewrite (proj2 (Z.ltb_ge _ 16)) by lia. unfold bytes at 1 2. fields.
  rewrite (proj2 (Z.eqb_neq _ 16)) by lia. rewrite (proj2 (Z.ltb_ge _ (Z.of_nat COMMIT_FIXED))) by (unfold COMMIT_FIXED; lia).
  assert (in_width U32 n) as Hn32 by done.
  unfold bytes at 1. fields. rewrite Em, Eo.
  assert (total = blen bytes) as -> by (unfold COMMIT_FIXED, SUBXID_SIZE in *; lia).
  rewrite <- Hl, Z.ltb_irrefl, require_exact_len_refl. unfold n. rewrite Nat2Z.id.
  unfold bytes. rewrite !app_assoc.
  change COMMIT_FIXED with (length (((le_encode 8 lsn) ++ le_encode 8 ts) ++ le_encode 4 n)).
  by rewrite read_subxids_enc.
Qed.
Next Obligation.
  intros a bytes Hb. unfold CommitPayload_decode. destruct (Z.ltb_spec (blen bytes) 16) as [|H16]; [done|].
  read_fields Hb. destruct (Z.eqb_spec (blen bytes) 16) as [Hleg|].
  { intros <-%Ok_inj. split; [done|]. right. unfold blen in Hleg. lia. }
  destruct (blen bytes <? Z.of_nat COMMIT_FIXED); [done|]. read_fields Hb.
  destruct (checked_mul _ _ _) as [body|] eqn:Em; [|done].
  destruct (checked_offset _ _ _) as [needed|] eqn:Eo; [|done].
  destruct (blen bytes <? needed); [done|].
  destruct (read_subxids _ _ _) as [subs|] eqn:Es; [|done].
  destruct (require_exact_len bytes needed) eqn:E'; [|done]. apply require_exact_len_Ok in E'.
  intros <-%Ok_inj. apply read_subxids_Ok in Es as (Hl & Hf & He); [|done].
  cbn [commit_lsn commit_timestamp_micros committed_subxids]. split; [done|]. left.
  unfold CommitPayload_encode. cbn [commit_lsn commit_timestamp_micros committed_subxids].
  assert (Z.of_nat (length subs) = v1) as -> by (rewrite Hl; apply Z2Nat.id; lia).
  rewrite (proj2 (Z.leb_gt U32 v1)) by apply B1. rewrite Em, Eo. f_equal.
  apply checked_mul_Ok in Em. apply checked_offset_Ok in Eo.
  fold (enc_subxids subs). rewrite E, E0, E1, He. unfold COMMIT_FIXED, SUBXID_SIZE, blen in *.
  rewrite <- !slice_split by lia. apply slice_all. lia.
Qed.

#[global, program] Instance FullPageWritePayload_codec : PayloadCodec FullPageWritePayload := {|
  pc_encode := FullPageWritePayload_encode;
  pc_decode := FullPageWritePayload_decode;
  pc_fits p := page_fits (fpw_page p);
  pc_legacy _ := False;
|}.
Next Obligation.
  intros [page pb] bytes Hf. cbn [fpw_page] in Hf. unfold FullPageWritePayload_encode.
  cbn [fpw_page fpw_page_bytes]. destruct (Z.eqb_spec (blen pb) PAGE_SIZE) as [Hpb|]; [|done].
  cbn [negb]. intros <-%Ok_inj. unfold FullPageWritePayload_decode.
  assert (length (encode_page_id page) = 8%nat) as H8
    by (unfold encode_page_id; by rewrite length_app, !length_le_encode).
  replace (length _ <? FPW_FIXED)%nat with false
    by (symmetry; apply Nat.ltb_ge; rewrite !length_app, H8, length_le_encode; unfold FPW_FIXED; lia).
  rewrite decode_page_id_encode by done.
  rewrite field_skip_app, H8 by lia. cbn [Nat.sub]. fields. cbn [Z.eqb negb].
  assert (blen (encode_page_id page ++ le_encode 4 PAGE_SIZE ++ pb) = Z.of_nat FPW_FIXED + PAGE_SIZE) as Hl
    by (rewrite !blen_app, blen_enc, Hpb; unfold blen; rewrite H8; done).
  change (checked_offset (Z.of_nat FPW_FIXED) PAGE_SIZE "fpw length overflow")
    with (@Ok Z PayloadError (Z.of_nat FPW_FIXED + PAGE_SIZE)).
  rewrite <- Hl, Z.ltb_irrefl, require_exact_len_refl. change (PAGE_SIZE =? PAGE_SIZE) with true. cbn [negb].
  f_equal. f_equal. unfold slice, blen. rewrite Nat2Z.id, app_assoc.
  rewrite drop_app_ge by (rewrite length_app, H8, length_le_encode; unfold FPW_FIXED; lia).
  rewrite !length_app, H8, length_le_encode.
  replace (FPW_FIXED - (8 + 4))%nat with 0%nat by done. rewrite drop_0.
  apply take_ge. unfold FPW_FIXED. lia.
Qed.
Next Obligation.
  intros a bytes Hb. unfold FullPageWritePayload_decode.
  destruct (Nat.ltb_spec (length bytes) FPW_FIXED) as [|Hl]; [done|].
  destruct (decode_page_id bytes) as [page|] eqn:Ep; [|done].
  apply decode_page_id_canonical in Ep as (Hf & Ep & Hl8); [|done].
  read_fields Hb. destruct (Z.eqb_spec v PAGE_SIZE) as [->|]; [|done]. cbn [negb].
  destruct (checked_offset _ _ _) as [needed|] eqn:Eo; [|done].
  destruct (blen bytes <? needed); [done|].
  destruct (require_exact_len bytes needed) eqn:E'; [|done]. apply require_exact_len_Ok in E'.
  apply checked_offset_Ok in Eo as [Eo _].
  intros <-%Ok_inj. cbn [fpw_page]. split; [done|]. left. unfold FullPageWritePayload_encode.
  cbn [fpw_page fpw_page_bytes].
  assert (Z.to_nat needed = length bytes) as Hn by (unfold blen in *; lia). rewrite Hn.
  assert (blen (slice FPW_FIXED (length bytes) bytes) = PAGE_SIZE) as ->
    by (unfold blen in *; rewrite length_slice; unfold FPW_FIXED in *; lia).
  rewrite Z.eqb_refl. cbn [negb]. f_equal. rewrite Ep, E.
  change (take PAGE_ID_SIZE bytes) with (slice 0 8 bytes). unfold FPW_FIXED in *.
  rewrite <- !slice_split by lia. by apply slice_all.
Qed.

(** ** Properties *)

Lemma commit_encode_total p :
  Z.of_nat (length (committed_subxids p)) < U32 -> exists bytes, CommitPayload_encode p = Ok bytes.
Proof.
  intros Hn. unfold CommitPayload_encode, checked_mul, checked_offset, checked_add, COMMIT_FIXED, SUBXID_SIZE.
  rewrite (proj2 (Z.leb_gt _ _) Hn). rewrite (proj2 (Z.ltb_lt _ _)) by (unfold U32, U64 in *; lia).
  rewrite (proj2 (Z.ltb_lt _ _)) by (unfold U32, U64 in *; lia). cbn [ok_or]. eauto.
Qed.

Lemma commit_legacy bytes p :
  length bytes = 16%nat -> CommitPayload_decode bytes = Ok p -> committed_subxids p = [].
Proof.
  intros Hl. unfold CommitPayload_decode. unfold blen. rewrite Hl. cbn [Z.of_nat Z.ltb Z.eqb].
  destruct (field 8 0 bytes _); [|done]. destruct (field 8 8 bytes _); [|done]. by intros <-%Ok_inj.
Qed.

(** The transaction-control payloads round trip and are strict. A commit
    payload with fewer than 2^32 subtransactions encodes and decodes to
    itself; a payload that decodes is the encoding of what it decodes to, or
    has the 16 bytes of the older format and then carries no subtransaction.
    Abort and checkpoint payloads always encode, a page image exactly when it
    is one page long, and each of them decodes only from its own encoding. *)
Theorem txn_payloads_exact :
  (forall p : CommitPayload, pc_fits p -> Z.of_nat (length (committed_subxids p)) < U32 ->
     exists bytes, CommitPayload_encode p = Ok bytes /\ CommitPayload_decode bytes = Ok p) /\
  (forall bytes p, Forall is_byte bytes -> CommitPayload_decode bytes = Ok p ->
     CommitPayload_encode p = Ok bytes \/ (length bytes = 16%nat /\ committed_subxids p = [])) /\
  (forall p : AbortPayload, pc_fits p -> AbortPayload_decode (AbortPayload_encode p) = Ok p) /\
  (forall bytes p, Forall is_byte bytes -> AbortPayload_decode bytes = Ok p -> AbortPayload_encode p = bytes) /\
  (forall p : CheckpointPayload, pc_fits p -> CheckpointPayload_decode (CheckpointPayload_encode p) = Ok p) /\
  (forall bytes p, Forall is_byte bytes -> CheckpointPayload_decode bytes = Ok p ->
     CheckpointPayload_encode p = bytes) /\
  (forall p : FullPageWritePayload, pc_fits p -> blen (fpw_page_bytes p) = PAGE_SIZE ->
     exists bytes, FullPageWritePayload_encode p = Ok bytes /\ FullPageWritePayload_decode bytes = Ok p) /\
  (forall bytes p, Forall is_byte bytes -> FullPageWritePayload_decode bytes = Ok p ->
     FullPageWritePayload_encode p = Ok bytes /\ blen (fpw_page_bytes p) = PAGE_SIZE).
Proof.
  split; [|split; [|split; [|split; [|split; [|split; [|split]]]]]].
  - intros p Hf Hn. destruct (commit_encode_total p Hn) as [bytes He]. exists bytes. split; [done|].
    by apply (pc_roundtrip (PayloadCodec := CommitPayload_codec)).
  - intros bytes p Hb Hd. destruct (pc_canonical (PayloadCodec := CommitPayload_codec) p bytes Hb Hd) as [_ [?|Hl]];
      [by left|right]. split; [done|]. exact (commit_legacy bytes p Hl Hd).
  - intros p Hf. exact (pc_roundtrip (PayloadCodec := AbortPayload_codec) p _ Hf eq_refl).
  - intros bytes p Hb Hd. by destruct (pc_canonical (PayloadCodec := AbortPayload_codec) p bytes Hb Hd) as [_ [?%Ok_inj|[]]].
  - intros p Hf. exact (pc_roundtrip (PayloadCodec := CheckpointPayload_codec) p _ Hf eq_refl).
  - intros bytes p Hb Hd.
    by destruct (pc_canonical (PayloadCodec := CheckpointPayload_codec) p bytes Hb Hd) as [_ [?%Ok_inj|[]]].
  - intros p Hf Hl.
    assert (exists bytes, FullPageWritePayload_encode p = Ok bytes) as [bytes He].
    { unfold FullPageWritePayload_encode. rewrite Hl, Z.eqb_refl. cbn [negb]. eauto. }
    exists bytes. split; [done|]. by apply (pc_roundtrip (PayloadCodec := FullPageWritePayload_codec)).
  - intros bytes p Hb Hd.
    destruct (pc_canonical (PayloadCodec := FullPageWritePayload_codec) p bytes Hb Hd) as [_ [He|[]]].
    split; [done|]. revert He. cbn [pc_encode FullPageWritePayload_codec]. unfold FullPageWritePayload_encode.
    destruct (Z.eqb_spec (blen (fpw_page_bytes p)) PAGE_SIZE); [done|]. cbn [negb]. done.
Qed.
