(* ===== verification/WalPayloadIndex.v ===== *)
(** * Index payloads of the write-ahead log (ultrasql-wal, payload/btree.rs and payload/hash.rs)

    The redo payloads of the B-tree and hash indexes: a fixed section, the key
    bytes and the value bytes, each of the two preceded by its length. *)

From S2P Require Import Prelude CoreIds WalRecord WalPayload.

(** ** BTreeOpPayload *)

Inductive BTreeOpKind := BInsert | BSplit | BDelete.

Definition BTreeOpKind_from_u8 (v : Z) : result BTreeOpKind PayloadError :=
  match v with
  | 1 => Ok BInsert
  | 2 => Ok BSplit
  | 3 => Ok BDelete
  | _ => Err (PMalformed "btree_op kind unknown")
  end.

Definition BTreeOpKind_to_u8 (k : BTreeOpKind) : Z :=
  match k with BInsert => 1 | BSplit => 2 | BDelete => 3 end.

Record BTreeOpPayload := mk_BTreeOpPayload {
  bt_op : BTreeOpKind;
  bt_index_rel : Z;
  bt_page : PageId;
  bt_key_bytes : list Z;
  bt_child_or_value : list Z;
}.

Definition BT_FIXED : Z := 20.

Definition BTreeOpPayload_encode (p : BTreeOpPayload) : result (list Z) PayloadError :=
  let key := bt_key_bytes p in
  let cv := bt_child_or_value p in
  if U32 <=? blen key then Err (PMalformed "btree_op key_len overflow") else
  if U32 <=? blen cv then Err (PMalformed "btree_op cv_len overflow") else
  if MAX_VARIABLE_PAYLOAD_BYTES <? blen key then Err (PMalformed "btree_op key_len exceeds ceiling") else
  if MAX_VARIABLE_PAYLOAD_BYTES <? blen cv then Err (PMalformed "btree_op cv_len exceeds ceiling") else
  let? key_end := checked_offset BT_FIXED (blen key) "btree_op length overflow" in
  let? cv_len_end := checked_offset key_end 4 "btree_op length overflow" in
  let? total := checked_offset cv_len_end (blen cv) "btree_op length overflow" in
  Ok (le_encode 1 (BTreeOpKind_to_u8 (bt_op p)) ++ le_encode 3 0 ++ le_encode 4 (bt_index_rel p)
      ++ encode_page_id (bt_page p) ++ le_encode 4 (blen key) ++ key ++ le_encode 4 (blen cv) ++ cv).

Definition BTreeOpPayload_decode (bytes : list Z) : result BTreeOpPayload PayloadError :=
  if blen bytes <? BT_FIXED then Err (PTruncated BT_FIXED (blen bytes)) else
  let? op_byte := field 1 0 bytes "btree_op kind" in
  let? op := BTreeOpKind_from_u8 op_byte in
  let? reserved := field 3 1 bytes "btree_op reserved" in
  if negb (reserved =? 0) then Err (PMalformed "btree_op reserved bytes must be zero") else
  let? index_rel := field 4 4 bytes "btree_op index_rel" in
  let? page := decode_page_id (slice 8 16 bytes) in
  let? key_len := field 4 16 bytes "btree_op key_len" in
  if MAX_VARIABLE_PAYLOAD_BYTES <? key_len then Err (PMalformed "btree_op key_len exceeds ceiling") else
  let? key_end := checked_offset BT_FIXED key_len "btree_op length overflow" in
  let? cv_len_end := checked_offset key_end 4 "btree_op length overflow" in
  if blen bytes <? cv_len_end then Err (PTruncated cv_len_end (blen bytes)) else
  let key := slice 20 (Z.to_nat key_end) bytes in
  let? cv_len := field 4 (Z.to_nat key_end) bytes "btree_op cv_len" in
  if MAX_VARIABLE_PAYLOAD_BYTES <? cv_len then Err (PMalformed "btree_op cv_len exceeds ceiling") else
  let? cv_end := checked_offset cv_len_end cv_len "btree_op length overflow" in
  if blen bytes <? cv_end then Err (PTruncated cv_end (blen bytes)) else
  let? _u := require_exact_len bytes cv_end in
  Ok (mk_BTreeOpPayload op index_rel page key (slice (Z.to_nat cv_len_end) (Z.to_nat cv_end) bytes)).

(** ** HashOpPayload *)

Inductive HashOpKind := HInsert | HDelete | HOverflowLink.

Definition HashOpKind_from_u8 (v : Z) : result HashOpKind PayloadError :=
  match v with
  | 1 => Ok HInsert
  | 2 => Ok HDelete
  | 3 => Ok HOverflowLink
  | _ => Err (PMalformed "hash_op kind unknown")
  end.

Definition HashOpKind_to_u8 (k : HashOpKind) : Z :=
  match k with HInsert => 1 | HDelete => 2 | HOverflowLink => 3 end.

Record HashOpPayload := mk_HashOpPayload {
  ha_op : HashOpKind;
  ha_index_rel : Z;
  ha_bucket : Z;
  ha_page : PageId;
  ha_key_hash : Z;
  ha_key_bytes : list Z;
  ha_value_bytes : list Z;
}.

Definition HA_FIXED : Z := 32.

Definition HashOpPayload_encode (p : HashOpPayload) : result (list Z) PayloadError :=
  let key := ha_key_bytes p in
  let value := ha_value_bytes p in
  if U32 <=? blen key then Err (PMalformed "hash_op key_len overflow") else
  if U32 <=? blen value then Err (PMalformed "hash_op value_len overflow") else
  if MAX_VARIABLE_PAYLOAD_BYTES <? blen key then Err (PMalformed "hash_op key_len exceeds ceiling") else
  if MAX_VARIABLE_PAYLOAD_BYTES <? blen value then Err (PMalformed "hash_op value_len exceeds ceiling") else
  let? key_end := checked_offset HA_FIXED (blen key) "hash_op length overflow" in
  let? value_len_end := checked_offset key_end 4 "hash_op length overflow" in
  let? total := checked_offset value_len_end (blen value) "hash_op length overflow" in
  Ok (le_encode 1 (HashOpKind_to_u8 (ha_op p)) ++ le_encode 3 0 ++ le_encode 4 (ha_index_rel p)
      ++ le_encode 4 (ha_bucket p) ++ encode_page_id (ha_page p) ++ le_encode 8 (ha_key_hash p)
      ++ le_encode 4 (blen key) ++ key ++ le_encode 4 (blen value) ++ value).

Definition HashOpPayload_decode (bytes : list Z) : result HashOpPayload PayloadError :=
  if blen bytes <? HA_FIXED then Err (PTruncated HA_FIXED (blen bytes)) else
  let? op_byte := field 1 0 bytes "hash_op kind" in
  let? op := HashOpKind_from_u8 op_byte in
  let? reserved := field 3 1 bytes "hash_op reserved" in
  if negb (reserved =? 0) then Err (PMalformed "hash_op reserved bytes must be zero") else
  let? index_rel := field 4 4 bytes "hash_op index_rel" in
  let? bucket := field 4 8 bytes "hash_op bucket" in
  let? page := decode_page_id (slice 12 20 bytes) in
  let? key_hash := field 8 20 bytes "hash_op key_hash" in
  let? key_len := field 4 28 bytes "hash_op key_len" in
  if MAX_VARIABLE_PAYLOAD_BYTES <? key_len then Err (PMalformed "hash_op key_len exceeds ceiling") else
  let? key_end := checked_offset HA_FIXED key_len "hash_op length overflow" in
  let? value_len_end := checked_offset key_end 4 "hash_op length overflow" in
  if blen bytes <? value_len_end then Err (PTruncated value_len_end (blen bytes)) else
  let key := slice 32 (Z.to_nat key_end) bytes in
  let? value_len := field 4 (Z.to_nat key_end) bytes "hash_op value_len" in
  if MAX_VARIABLE_PAYLOAD_BYTES <? value_len then Err (PMalformed "hash_op value_len exceeds ceiling") else
  let? value_end := checked_offset value_len_end value_len "hash_op length overflow" in
  if blen bytes <? value_end then Err (PTruncated value_end (blen bytes)) else
  let? _u := require_exact_len bytes value_end in
  Ok (mk_HashOpPayload op index_rel bucket page key_hash key
        (slice (Z.to_nat value_len_end) (Z.to_nat value_end) bytes)).

(** ** Lemmas *)

Lemma BTreeOpKind_roundtrip k : BTreeOpKind_from_u8 (BTreeOpKind_to_u8 k) = Ok k.
Proof. by destruct k. Qed.

Lemma BTreeOpKind_canonical v k : BTreeOpKind_from_u8 v = Ok k -> BTreeOpKind_to_u8 k = v.
Proof. intros H. unfold BTreeOpKind_from_u8 in H. repeat case_match; simplify_eq; done. Qed.

Lemma HashOpKind_roundtrip k : HashOpKind_from_u8 (HashOpKind_to_u8 k) = Ok k.
Proof. by destruct k. Qed.

Lemma HashOpKind_canonical v k : HashOpKind_from_u8 v = Ok k -> HashOpKind_to_u8 k = v.
Proof. intros H. unfold HashOpKind_from_u8 in H. repeat case_match; simplify_eq; done. Qed.

Lemma length_page_id p : length (encode_page_id p) = 8%nat.
Proof. unfold encode_page_id. by rewrite length_app, !length_le_encode. Qed.

Lemma slice_mid pre x post a b :
  a = length pre -> b = (length pre + length x)%nat -> slice a b (pre ++ x ++ post) = x.
Proof.
  intros -> ->. unfold slice. rewrite drop_app_length.
  replace (length pre + length x - length pre)%nat with (length x) by lia. apply take_app_length.
Qed.

Lemma field_mid n v pre post a what :
  a = length pre -> 0 <= v < 256 ^ Z.of_nat n -> field n a (pre ++ le_encode n v ++ post) what = Ok v.
Proof.
  intros -> Hv. unfold field. rewrite slice_mid by (rewrite ?length_le_encode; done).
  by rewrite read_le_encode.
Qed.

(** The page identifier at [off] in a payload. *)
Lemma decode_page_at off bytes p :
  Forall is_byte bytes -> decode_page_id (slice off (off + 8) bytes) = Ok p ->
  page_fits p /\ encode_page_id p = slice off (off + 8) bytes /\ (off + 8 <= length bytes)%nat.
Proof.
  intros Hb Hd. apply decode_page_id_canonical in Hd as (Hf & He & Hl); [|unfold slice; auto using Forall_take, Forall_drop].
  split; [done|]. unfold slice, PAGE_ID_SIZE in *. rewrite length_take, length_drop in Hl.
  split; [|lia]. rewrite He, take_take. f_equal. lia.
Qed.

(** The two variable sections after a prefix that ends in the first length. *)
Lemma var_sections pre key cv :
  blen key < U32 -> blen cv < U32 ->
  let bytes := pre ++ key ++ le_encode 4 (blen cv) ++ cv in
  let key_end := blen pre + blen key in
  slice (length pre) (Z.to_nat key_end) bytes = key /\
  (forall what, field 4 (Z.to_nat key_end) bytes what = Ok (blen cv)) /\
  slice (Z.to_nat (key_end + 4)) (Z.to_nat (key_end + 4 + blen cv)) bytes = cv /\
  blen bytes = key_end + 4 + blen cv.
Proof.
  intros Hk Hc bytes key_end. unfold key_end, bytes, blen in *. repeat split.
  - apply slice_mid; lia.
  - intros what. rewrite app_assoc. apply field_mid; [rewrite length_app; lia|]. unfold U32 in *.
    change (256 ^ Z.of_nat 4) with (2 ^ 32). lia.
  - replace (pre ++ _) with ((pre ++ key ++ le_encode 4 (Z.of_nat (length cv))) ++ cv ++ [])
      by (rewrite app_nil_r, <- !app_assoc; done).
    apply slice_mid; rewrite !length_app, length_le_encode; lia.
  - rewrite !length_app, length_le_encode. lia.
Qed.

Lemma checked_offset_eq a b what : a + b < U64 -> checked_offset a b what = Ok (a + b).
Proof. intros H. unfold checked_offset, checked_add. by rewrite (proj2 (Z.ltb_lt _ _)). Qed.

Lemma ceiling_U32 : MAX_VARIABLE_PAYLOAD_BYTES < U32.
Proof. done. Qed.

(** Destruct the checks of an encoder or decoder that succeeded. *)
Ltac checks :=
  repeat match goal with
  | |- (if ?a <=? ?b then Err _ else _) = _ -> _ => destruct (Z.leb_spec a b); [done|]
  | |- (if ?a <? ?b then Err _ else _) = _ -> _ => destruct (Z.ltb_spec a b); [done|]
  | |- (if negb (?a =? 0) then Err _ else _) = _ -> _ => destruct (Z.eqb_spec a 0) as [->|]; [cbn [negb]|done]
  | |- (match checked_offset ?a ?b ?w with Ok _ => _ | Err _ => _ end) = _ -> _ =>
      let E := fresh "Eo" in destruct (checked_offset a b w) eqn:E; [|done];
      apply checked_offset_Ok in E as [-> E]
  | |- (match require_exact_len ?b ?n with Ok _ => _ | Err _ => _ end) = _ -> _ =>
      let E := fresh "El" in destruct (require_exact_len b n) eqn:E; [|done]; apply require_exact_len_Ok in E
  end.

#[global, program] Instance BTreeOpPayload_codec : PayloadCodec BTreeOpPayload := {|
  pc_encode := BTreeOpPayload_encode;
  pc_decode := BTreeOpPayload_decode;
  pc_fits p := in_width U32 (bt_index_rel p) /\ page_fits (bt_page p);
  pc_legacy _ := False;
|}.
Next Obligation.
  intros [op rel page key cv] bytes [Hr Hpf]. cbn [bt_index_rel bt_page] in *. unfold BTreeOpPayload_encode.
  cbn [bt_op bt_index_rel bt_page bt_key_bytes bt_child_or_value]. checks. intros <-%Ok_inj.
  set (pre := le_encode 1 (BTreeOpKind_to_u8 op) ++ le_encode 3 0 ++ le_encode 4 rel ++ encode_page_id page
              ++ le_encode 4 (blen key)).
  assert (Hpre : length pre = 20%nat) by (unfold pre; by rewrite !length_app, !length_le_encode, length_page_id).
  destruct (var_sections pre key cv) as (Hkey & Hcl & Hcv & Hlen); [done|done|].
  replace (le_encode 1 _ ++ _) with (pre ++ key ++ le_encode 4 (blen cv) ++ cv) by (unfold pre; by rewrite <- !app_assoc).
  assert (blen pre = BT_FIXED) as Hb by (unfold blen; by rewrite Hpre). rewrite Hb in *.
  unfold BTreeOpPayload_decode. rewrite Hlen.
  assert (0 <= blen key /\ 0 <= blen cv) as [Hk0 Hc0] by (unfold blen; lia).
  assert (0 <= blen key < U32) as Hk32 by lia. pose proof (ceiling_U32).
  rewrite (proj2 (Z.ltb_ge _ _)) by (unfold BT_FIXED; lia).
  assert (Hop : 0 <= BTreeOpKind_to_u8 op < 256 ^ Z.of_nat 1) by (destruct op; done).
  assert (Hz : 0 <= 0 < 256 ^ Z.of_nat 3) by done.
  unfold pre at 1. rewrite <- !app_assoc. rewrite field_hit by done. rewrite BTreeOpKind_roundtrip.
  unfold pre at 1. rewrite <- !app_assoc, field_skip by lia. cbn [Nat.sub]. rewrite field_hit by done. cbn [Z.eqb negb].
  unfold pre at 1. rewrite <- !app_assoc. fields.
  replace (slice 8 16 (pre ++ _)) with (encode_page_id page).
  2: { symmetry. unfold pre. rewrite <- !app_assoc. codec_slices. cbn [Nat.sub].
       rewrite <- (length_page_id page) at 1. apply slice_hit_app. }
  pose proof (decode_page_id_encode page [] Hpf) as Hdp. rewrite app_nil_r in Hdp. rewrite Hdp.
  unfold pre at 1. rewrite <- !app_assoc. fields. rewrite field_skip_app by (rewrite length_page_id; lia).
  rewrite length_page_id. cbn [Nat.sub]. fields.
  rewrite (proj2 (Z.ltb_ge _ _)) by done. rewrite !checked_offset_eq by (unfold U64, U32, BT_FIXED in *; lia).
  rewrite (proj2 (Z.ltb_ge _ _)) by lia. rewrite Hcl, (proj2 (Z.ltb_ge _ _)) by done.
  rewrite checked_offset_eq by (unfold U64, U32, BT_FIXED in *; lia).
  rewrite Z.ltb_irrefl. rewrite <- Hlen at 1. rewrite require_exact_len_refl.
  rewrite <- Hpre at 1. rewrite Hkey, Hcv. done.
Qed.
Next Obligation.
  intros a bytes Hb. unfold BTreeOpPayload_decode. checks. read_fields Hb.
  destruct (BTreeOpKind_from_u8 v) as [op|] eqn:Eop; [|done]. apply BTreeOpKind_canonical in Eop. read_fields Hb.
  destruct (Z.eqb_spec v0 0) as [->|]; [cbn [negb]|done]. read_fields Hb.
  destruct (decode_page_id _) as [page|] eqn:Ep; [|done]. apply (decode_page_at 8) in Ep as (Hpf & Ep & Lp); [|done].
  read_fields Hb. checks. read_fields Hb. checks. intros <-%Ok_inj. split; [done|]. left.
  unfold BTreeOpPayload_encode. cbn [bt_op bt_index_rel bt_page bt_key_bytes bt_child_or_value].
  pose proof ceiling_U32. unfold BT_FIXED in *.
  assert (Hk : blen (slice 20 (Z.to_nat (20 + v1)) bytes) = v1)
    by (unfold blen; rewrite length_slice by (unfold blen in *; lia); lia).
  assert (Hc : blen (slice (Z.to_nat (20 + v1 + 4)) (Z.to_nat (20 + v1 + 4 + v2)) bytes) = v2)
    by (unfold blen; rewrite length_slice by (unfold blen in *; lia); lia).
  rewrite Hk, Hc. rewrite !(proj2 (Z.leb_gt _ _)) by lia. rewrite !(proj2 (Z.ltb_ge _ _)) by lia.
  rewrite !checked_offset_eq by lia. f_equal. rewrite Eop, E, E0, E1, E2, E3, Ep. cbn [Nat.add].
  replace (Z.to_nat (20 + v1 + 4)) with (Z.to_nat (20 + v1) + 4)%nat by lia.
  rewrite <- !slice_split by lia. apply slice_all. unfold blen in *. lia.
Qed.

#[global, program] Instance HashOpPayload_codec : PayloadCodec HashOpPayload := {|
  pc_encode := HashOpPayload_encode;
  pc_decode := HashOpPayload_decode;
  pc_fits p := in_width U32 (ha_index_rel p) /\ in_width U32 (ha_bucket p) /\ page_fits (ha_page p) /\
               in_width U64 (ha_key_hash p);
  pc_legacy _ := False;
|}.
Next Obligation.
  intros [op rel bucket page hash key value] bytes (Hr & Hbk & Hpf & Hh).
  cbn [ha_index_rel ha_bucket ha_page ha_key_hash] in *. unfold HashOpPayload_encode.
  cbn [ha_op ha_index_rel ha_bucket ha_page ha_key_hash ha_key_bytes ha_value_bytes]. checks. intros <-%Ok_inj.
  set (pre := le_encode 1 (HashOpKind_to_u8 op) ++ le_encode 3 0 ++ le_encode 4 rel ++ le_encode 4 bucket
              ++ encode_page_id page ++ le_encode 8 hash ++ le_encode 4 (blen key)).
  assert (Hpre : length pre = 32%nat) by (unfold pre; by rewrite !length_app, !length_le_encode, length_page_id).
  destruct (var_sections pre key value) as (Hkey & Hcl & Hcv & Hlen); [done|done|].
  replace (le_encode 1 _ ++ _) with (pre ++ key ++ le_encode 4 (blen value) ++ value)
    by (unfold pre; by rewrite <- !app_assoc).
  assert (blen pre = HA_FIXED) as Hb by (unfold blen; by rewrite Hpre). rewrite Hb in *.
  unfold HashOpPayload_decode. rewrite Hlen.
  assert (0 <= blen key /\ 0 <= blen value) as [Hk0 Hc0] by (unfold blen; lia).
  assert (0 <= blen key < U32) as Hk32 by lia. pose proof (ceiling_U32).
  rewrite (proj2 (Z.ltb_ge _ _)) by (unfold HA_FIXED; lia).
  assert (Hop : 0 <= HashOpKind_to_u8 op < 256 ^ Z.of_nat 1) by (destruct op; done).
  assert (Hz : 0 <= 0 < 256 ^ Z.of_nat 3) by done.
  unfold pre at 1. rewrite <- !app_assoc. rewrite field_hit by done. rewrite HashOpKind_roundtrip.
  unfold pre at 1. rewrite <- !app_assoc, field_skip by lia. cbn [Nat.sub]. rewrite field_hit by done. cbn [Z.eqb negb].
  unfold pre at 1. rewrite <- !app_assoc. fields.
  unfold pre at 1. rewrite <- !app_assoc. fields.
  replace (slice 12 20 (pre ++ _)) with (encode_page_id page).
  2: { symmetry. unfold pre. rewrite <- !app_assoc. codec_slices. cbn [Nat.sub].
       rewrite <- (length_page_id page) at 1. apply slice_hit_app. }
  pose proof (decode_page_id_encode page [] Hpf) as Hdp. rewrite app_nil_r in Hdp. rewrite Hdp.
  unfold pre at 1. rewrite <- !app_assoc. fields. rewrite field_skip_app by (rewrite length_page_id; lia).
  rewrite length_page_id. cbn [Nat.sub]. fields.
  unfold pre at 1. rewrite <- !app_assoc. fields. rewrite field_skip_app by (rewrite length_page_id; lia).
  rewrite length_page_id. cbn [Nat.sub]. fields.
  rewrite (proj2 (Z.ltb_ge _ _)) by done. rewrite !checked_offset_eq by (unfold U64, U32, HA_FIXED in *; lia).
  rewrite (proj2 (Z.ltb_ge _ _)) by lia. rewrite Hcl, (proj2 (Z.ltb_ge _ _)) by done.
  rewrite checked_offset_eq by (unfold U64, U32, HA_FIXED in *; lia).
  rewrite Z.ltb_irrefl. rewrite <- Hlen at 1. rewrite require_exact_len_refl.
  rewrite <- Hpre at 1. rewrite Hkey, Hcv. done.
Qed.
Next Obligation.
  intros a bytes Hb. unfold HashOpPayload_decode. checks. read_fields Hb.
  destruct (HashOpKind_from_u8 v) as [op|] eqn:Eop; [|done]. apply HashOpKind_canonical in Eop. read_fields Hb.
  destruct (Z.eqb_spec v0 0) as [->|]; [cbn [negb]|done]. read_fields Hb.
  destruct (decode_page_id _) as [page|] eqn:Ep; [|done]. apply (decode_page_at 12) in Ep as (Hpf & Ep & Lp); [|done].
  read_fields Hb. checks. read_fields Hb. checks. intros <-%Ok_inj. split; [done|]. left.
  unfold HashOpPayload_encode. cbn [ha_op ha_index_rel ha_bucket ha_page ha_key_hash ha_key_bytes ha_value_bytes].
  pose proof ceiling_U32. unfold HA_FIXED in *.
  assert (Hk : blen (slice 32 (Z.to_nat (32 + v3)) bytes) = v3)
    by (unfold blen; rewrite length_slice by (unfold blen in *; lia); lia).
  assert (Hc : blen (slice (Z.to_nat (32 + v3 + 4)) (Z.to_nat (32 + v3 + 4 + v4)) bytes) = v4)
    by (unfold blen; rewrite length_slice by (unfold blen in *; lia); lia).
  rewrite Hk, Hc. rewrite !(proj2 (Z.leb_gt _ _)) by lia. rewrite !(proj2 (Z.ltb_ge _ _)) by lia.
  rewrite !checked_offset_eq by lia. f_equal. rewrite Eop, E, E0, E1, E2, E3, E4, E5, Ep. cbn [Nat.add].
  replace (Z.to_nat (32 + v3 + 4)) with (Z.to_nat (32 + v3) + 4)%nat by lia.
  rewrite <- !slice_split by lia. apply slice_all. unfold blen in *. lia.
Qed.

(** ** Properties *)

(** The encoders fail exactly on sections above the ceiling. *)
Lemma btree_encode_total p :
  blen (bt_key_bytes p) <= MAX_VARIABLE_PAYLOAD_BYTES -> blen (bt_child_or_value p) <= MAX_VARIABLE_PAYLOAD_BYTES ->
  exists bytes, BTreeOpPayload_encode p = Ok bytes.
Proof.
  intros Hk Hc. pose proof ceiling_U32. unfold BTreeOpPayload_encode.
  rewrite !(proj2 (Z.leb_gt _ _)) by lia. rewrite !(proj2 (Z.ltb_ge _ _)) by lia.
  rewrite !checked_offset_eq by (unfold U64, U32, BT_FIXED in *; lia). eauto.
Qed.

Lemma hash_encode_total p :
  blen (ha_key_bytes p) <= MAX_VARIABLE_PAYLOAD_BYTES -> blen (ha_value_bytes p) <= MAX_VARIABLE_PAYLOAD_BYTES ->
  exists bytes, HashOpPayload_encode p = Ok bytes.
Proof.
  intros Hk Hc. pose proof ceiling_U32. unfold HashOpPayload_encode.
  rewrite !(proj2 (Z.leb_gt _ _)) by lia. rewrite !(proj2 (Z.ltb_ge _ _)) by lia.
  rewrite !checked_offset_eq by (unfold U64, U32, HA_FIXED in *; lia). eauto.
Qed.

(** The payloads of index records are exact: below the section ceiling
    every B-tree and hash payload encodes and decodes back to itself, and
    whatever either decoder accepts is byte for byte the encoding of the
    payload it returns, so reserved bytes and trailing bytes are refused. *)
Theorem index_payloads_exact :
  (forall p : BTreeOpPayload, pc_fits p -> blen (bt_key_bytes p) <= MAX_VARIABLE_PAYLOAD_BYTES ->
     blen (bt_child_or_value p) <= MAX_VARIABLE_PAYLOAD_BYTES ->
     exists bytes, BTreeOpPayload_encode p = Ok bytes /\ BTreeOpPayload_decode bytes = Ok p) /\
  (forall bytes p, Forall is_byte bytes -> BTreeOpPayload_decode bytes = Ok p ->
     BTreeOpPayload_encode p = Ok bytes) /\
  (forall p : HashOpPayload, pc_fits p -> blen (ha_key_bytes p) <= MAX_VARIABLE_PAYLOAD_BYTES ->
     blen (ha_value_bytes p) <= MAX_VARIABLE_PAYLOAD_BYTES ->
     exists bytes, HashOpPayload_encode p = Ok bytes /\ HashOpPayload_decode bytes = Ok p) /\
  (forall bytes p, Forall is_byte bytes -> HashOpPayload_decode bytes = Ok p ->
     HashOpPayload_encode p = Ok bytes).
Proof.
  split; [|split; [|split]].
  - intros p Hf Hk Hc. destruct (btree_encode_total p Hk Hc) as [bytes He]. exists bytes. split; [done|].
    by apply (pc_roundtrip (PayloadCodec := BTreeOpPayload_codec)).
  - intros bytes p Hb Hd. by destruct (pc_canonical (PayloadCodec := BTreeOpPayload_codec) p bytes Hb Hd) as [_ [?|[]]].
  - intros p Hf Hk Hc. destruct (hash_encode_total p Hk Hc) as [bytes He]. exists bytes. split; [done|].
    by apply (pc_roundtrip (PayloadCodec := HashOpPayload_codec)).
  - intros bytes p Hb Hd. by destruct (pc_canonical (PayloadCodec := HashOpPayload_codec) p bytes Hb Hd) as [_ [?|[]]].
Qed.
