(* ===== verification/WalSections.v ===== *)
(** * Payloads as concatenations of sections

    A payload is read back section by section: each lemma finds a field, a
    byte or a byte string at the length of the sections before it. The payload
    codecs after the index ones are proved with these. *)

From S2P Require Import Prelude CoreIds WalRecord WalPayload WalPayloadIndex.

(** [bytes[i]] on an index known to be in bounds. *)
Definition byte_at (bytes : list Z) (i : Z) : Z := default 0 (bytes !! Z.to_nat i).

(** A byte of the payload, read and written. *)
Lemma byte_at_mid pre v post i :
  is_byte v -> i = blen pre -> byte_at (pre ++ le_encode 1 v ++ post) i = v.
Proof.
  intros Hv ->. unfold byte_at, blen. rewrite Nat2Z.id, lookup_app_r, Nat.sub_diag by done.
  cbn. apply Z.mod_small. done.
Qed.

Lemma byte_at_slice bytes i :
  Forall is_byte bytes -> 0 <= i < blen bytes ->
  is_byte (byte_at bytes i) /\
  slice (Z.to_nat i) (Z.to_nat i + 1) bytes = le_encode 1 (byte_at bytes i).
Proof.
  intros Hb Hi. unfold byte_at, blen in *.
  destruct (lookup_lt_is_Some_2 bytes (Z.to_nat i)) as [b E]; [lia|]. rewrite E. cbn [default].
  assert (is_byte b) as Hbb by (by eapply Forall_lookup_1). split; [done|].
  unfold slice. rewrite (drop_S bytes b _ E). replace (Z.to_nat i + 1 - Z.to_nat i)%nat with 1%nat by lia.
  cbn. rewrite Z.mod_small by done. done.
Qed.

(** A payload as the concatenation of its sections: a section is found at the
    length of the ones before it. *)
Section sections.
Context (secs : list (list Z)).

Definition sec_off (k : nat) : Z := blen (concat (take k secs)).

Lemma concat_split k x : secs !! k = Some x -> concat secs = concat (take k secs) ++ x ++ concat (drop (Datatypes.S k) secs).
Proof. intros H. rewrite <- (take_drop_middle secs k x H) at 1. by rewrite concat_app. Qed.

Lemma field_sec n v k off what :
  secs !! k = Some (le_encode n v) -> Z.of_nat off = sec_off k -> 0 <= v < 256 ^ Z.of_nat n ->
  field n off (concat secs) what = Ok v.
Proof. intros H Ho Hv. rewrite (concat_split k _ H). apply field_mid; [|done]. unfold sec_off, blen in Ho. lia. Qed.

Lemma slice_sec x k a b :
  secs !! k = Some x -> Z.of_nat a = sec_off k -> Z.of_nat b = sec_off k + blen x -> slice a b (concat secs) = x.
Proof.
  intros H Ha Hb. rewrite (concat_split k _ H). unfold sec_off, blen in *. apply slice_mid; lia.
Qed.

Lemma byte_at_sec v k i :
  secs !! k = Some (le_encode 1 v) -> i = sec_off k -> is_byte v -> byte_at (concat secs) i = v.
Proof. intros H Hi Hv. rewrite (concat_split k _ H). by apply byte_at_mid. Qed.

End sections.

Create HintDb sections.

(** The side conditions of reading a section. *)
Ltac sec_side secs :=
  lazymatch goal with
  | |- _ !! _ = Some _ => reflexivity
  | |- _ = sec_off _ _ => unfold sec_off, secs; autounfold with sections; cbn [take concat];
      rewrite ?app_nil_r, ?blen_app, ?blen_enc; change (blen []) with 0; lia
  | |- _ = sec_off _ _ + _ => unfold sec_off, secs; autounfold with sections; cbn [take concat];
      rewrite ?app_nil_r, ?blen_app, ?blen_enc; change (blen []) with 0; lia
  | |- _ < U64 => unfold U64; lia
  | |- 0 <= _ < 256 ^ _ => change (256 ^ Z.of_nat 4) with (2 ^ 32); assumption || lia
  | _ => assumption || done
  end.
