(* ===== verification/WalPayloadHeap.v ===== *)
(** * Heap payloads of the write-ahead log (ultrasql-wal, payload/heap_insert.rs,
      heap_update.rs and heap_delete.rs)

    The payloads of the classical row operations (insertion, update and
    deletion) and of the point update in place. Encoding refuses a block number above the 24-bit wire field. *)

From S2P Require Import Prelude CoreIds WalRecord WalPayload WalPayloadIndex WalSections.

Definition checked_len_sum (parts : list Z) (context : string) : result Z PayloadError :=
  fold_left (fun acc part => let? total := acc in checked_offset total part context) parts (Ok 0).

(** ** HeapInsertPayload *)

Record HeapInsertPayload := mk_HeapInsertPayload { hi_tid : TupleId; hi_tuple_bytes : list Z }.

Definition HeapInsertPayload_encode (p : HeapInsertPayload) : result (list Z) PayloadError :=
  let tuple := hi_tuple_bytes p in
  if U32 <=? blen tuple then Err (PMalformed "heap_insert tuple_len overflow") else
  let? total := checked_len_sum [Z.of_nat TID_SIZE; 4; blen tuple] "heap_insert length overflow" in
  let? tid := encode_tid (hi_tid p) in
  Ok (tid ++ le_encode 4 (blen tuple) ++ tuple).

Definition HeapInsertPayload_decode (bytes : list Z) : result HeapInsertPayload PayloadError :=
  let FIXED := 16 in
  if blen bytes <? FIXED then Err (PTruncated FIXED (blen bytes)) else
  let? tid := decode_tid bytes in
  let? tuple_len := field 4 12 bytes "heap_insert tuple_len" in
  if MAX_VARIABLE_PAYLOAD_BYTES <? tuple_len then Err (PMalformed "heap_insert tuple_len exceeds ceiling") else
  let? needed := checked_len_sum [FIXED; tuple_len] "heap_insert length overflow" in
  if blen bytes <? needed then Err (PTruncated needed (blen bytes)) else
  let? _u := require_exact_len bytes needed in
  Ok (mk_HeapInsertPayload tid (slice 16 (Z.to_nat needed) bytes)).

(** ** HeapUpdatePayload *)

Record HeapUpdatePayload := mk_HeapUpdatePayload {
  hu_old_tid : TupleId;
  hu_new_tid : TupleId;
  hu_flags : Z;
  hu_new_tuple_bytes : list Z;
}.

Definition HEAP_UPDATE_HOT : Z := 1.
Definition HEAP_UPDATE_FLAGS_RESERVED : Z := 254.

Definition HeapUpdatePayload_encode (p : HeapUpdatePayload) : result (list Z) PayloadError :=
  let tuple := hu_new_tuple_bytes p in
  if U32 <=? blen tuple then Err (PMalformed "heap_update new_len overflow") else
  let? total := checked_len_sum [32; blen tuple] "heap_update length overflow" in
  let? old := encode_tid (hu_old_tid p) in
  let? new := encode_tid (hu_new_tid p) in
  Ok (old ++ new ++ le_encode 1 (hu_flags p) ++ le_encode 3 0 ++ le_encode 4 (blen tuple) ++ tuple).

Definition HeapUpdatePayload_decode (bytes : list Z) : result HeapUpdatePayload PayloadError :=
  let FIXED := 32 in
  if blen bytes <? FIXED then Err (PTruncated FIXED (blen bytes)) else
  let? old := decode_tid bytes in
  let? new := decode_tid (drop TID_SIZE bytes) in
  let? flags := field 1 24 bytes "heap_update flags" in
  if negb (Z.land flags HEAP_UPDATE_FLAGS_RESERVED =? 0) then Err (PFlagsReserved flags) else
  let? reserved := field 3 25 bytes "heap_update reserved" in
  if negb (reserved =? 0) then Err (PMalformed "heap_update reserved bytes must be zero") else
  let? new_len := field 4 28 bytes "heap_update new_len" in
  if MAX_VARIABLE_PAYLOAD_BYTES <? new_len then Err (PMalformed "heap_update new_len exceeds ceiling") else
  let? needed := checked_len_sum [FIXED; new_len] "heap_update length overflow" in
  if blen bytes <? needed then Err (PTruncated needed (blen bytes)) else
  let? _u := require_exact_len bytes needed in
  Ok (mk_HeapUpdatePayload old new flags (slice 32 (Z.to_nat needed) bytes)).

(** ** HeapDeletePayload *)

Record HeapDeletePayload := mk_HeapDeletePayload { hd_tid : TupleId; hd_xmax : Xid; hd_cmax : CommandId }.

Definition HeapDeletePayload_encode (p : HeapDeletePayload) : result (list Z) PayloadError :=
  let? tid := encode_tid (hd_tid p) in
  Ok (tid ++ le_encode 8 (hd_xmax p) ++ le_encode 4 (hd_cmax p) ++ le_encode 4 0).

Definition HeapDeletePayload_decode (bytes : list Z) : result HeapDeletePayload PayloadError :=
  let SIZE := 28 in
  if blen bytes <? SIZE then Err (PTruncated SIZE (blen bytes)) else
  let? tid := decode_tid bytes in
  let? xmax := field 8 12 bytes "heap_delete xmax" in
  let? cmax := field 4 20 bytes "heap_delete cmax" in
  let? reserved := field 4 24 bytes "heap_delete reserved" in
  if negb (reserved =? 0) then Err (PMalformed "heap_delete reserved bytes must be zero") else
  let? _u := require_exact_len bytes SIZE in
  Ok (mk_HeapDeletePayload tid xmax cmax).

(** ** Lemmas *)

Lemma checked_len_sum2 a b what : 0 <= a -> 0 <= b -> a + b < U64 -> checked_len_sum [a; b] what = Ok (a + b).
Proof.
  intros Ha Hb H. unfold checked_len_sum. cbn [fold_left]. rewrite !checked_offset_eq by lia. f_equal.
Qed.

Lemma checked_len_sum_Ok2 a b what n : checked_len_sum [a; b] what = Ok n -> n = a + b /\ n < U64.
Proof.
  unfold checked_len_sum. cbn [fold_left]. destruct (checked_offset 0 a what) eqn:E; [|done].
  apply checked_offset_Ok in E as [-> _]. intros [-> H]%checked_offset_Ok. split; [lia|done].
Qed.

Lemma checked_len_sum3 a b c what :
  0 <= a -> 0 <= b -> 0 <= c -> a + b + c < U64 -> checked_len_sum [a; b; c] what = Ok (a + b + c).
Proof.
  intros Ha Hb Hc H. unfold checked_len_sum. cbn [fold_left]. rewrite !checked_offset_eq by lia. f_equal.
Qed.

Lemma encode_tid_len t bytes : encode_tid t = Ok bytes -> length bytes = 12%nat.
Proof.
  unfold encode_tid. destruct (_ <? _); [done|]. intros <-%Ok_inj. by rewrite !length_app, !length_le_encode.
Qed.

(** A tuple identifier at the start of what is left of a payload. *)
Lemma decode_tid_drop bytes n t :
  Forall is_byte bytes -> decode_tid (drop n bytes) = Ok t ->
  tid_fits t /\ encode_tid t = Ok (slice n (n + 12) bytes) /\ (n + 12 <= length bytes)%nat.
Proof.
  intros Hb H. apply decode_tid_canonical in H as (Hf & He & Hl); [|by apply Forall_drop].
  split; [done|]. unfold TID_SIZE in *. rewrite length_drop in Hl. split; [|lia].
  rewrite He. unfold slice. by replace (n + 12 - n)%nat with 12%nat by lia.
Qed.

Lemma flags_bit flags : is_byte flags -> Z.land flags HEAP_UPDATE_FLAGS_RESERVED = 0 -> flags = 0 \/ flags = 1.
Proof.
  unfold HEAP_UPDATE_FLAGS_RESERVED. intros Hb Hz.
  assert (flags / 2 = 0) as Hd.
  { change 254 with (Z.shiftl 127 1) in Hz.
    replace (flags / 2) with (Z.shiftr flags 1) by (by rewrite Z.shiftr_div_pow2).
    apply Z.bits_inj_0. intros i. destruct (decide (0 <= i)); [|apply Z.testbit_neg_r; lia].
    rewrite Z.shiftr_spec by done. destruct (decide (i < 7)).
    - assert (Z.testbit (Z.land flags (Z.shiftl 127 1)) (i + 1) = false) as H by (by rewrite Hz, Z.testbit_0_l).
      rewrite Z.land_spec, Z.shiftl_spec in H by lia. replace (i + 1 - 1) with i in H by lia.
      replace (Z.testbit 127 i) with true in H; [by rewrite andb_true_r in H|].
      symmetry. change 127 with (Z.ones 7). apply Z.ones_spec_low. lia.
    - apply Z.bits_above_log2; [unfold is_byte in Hb; lia|].
      unfold is_byte in Hb. assert (Z.log2 flags < 8); [|lia].
      destruct (decide (flags = 0)) as [->|]; [done|]. apply Z.log2_lt_pow2; lia. }
  unfold is_byte in Hb. pose proof (Z.div_mod flags 2). pose proof (Z.mod_pos_bound flags 2). lia.
Qed.

(** ** The codecs *)

#[global, program] Instance HeapInsertPayload_codec : PayloadCodec HeapInsertPayload := {|
  pc_encode := HeapInsertPayload_encode;
  pc_decode := HeapInsertPayload_decode;
  pc_fits p := tid_fits (hi_tid p) /\ blen (hi_tuple_bytes p) <= MAX_VARIABLE_PAYLOAD_BYTES;
  pc_legacy _ := False;
|}.
Next Obligation.
  intros [tid tuple] bytes [Ht Hl]. cbn [hi_tid hi_tuple_bytes] in *. unfold HeapInsertPayload_encode.
  cbn [hi_tid hi_tuple_bytes]. checks. pose proof ceiling_U32 as Hc. unfold U32 in Hc.
  assert (0 <= blen tuple) as H0 by (unfold blen; lia).
  rewrite checked_len_sum3 by (unfold U64, TID_SIZE; lia).
  destruct (encode_tid tid) as [tb|] eqn:Et; [|done]. intros <-%Ok_inj.
  pose proof (encode_tid_len _ _ Et) as Htl. set (secs := [tb; le_encode 4 (blen tuple); tuple]).
  replace (tb ++ _) with (concat secs) by (unfold secs; cbn [concat]; by rewrite app_nil_r).
  assert (blen tb = 12) as Htb by (unfold blen; lia).
  assert (Hlen : blen (concat secs) = 16 + blen tuple).
  { unfold secs. cbn [concat]. rewrite !blen_app, blen_enc, Htb. change (blen []) with 0. lia. }
  unfold HeapInsertPayload_decode. rewrite Hlen, (proj2 (Z.ltb_ge _ _)) by lia.
  destruct (decode_tid_encode tid tb (concat [le_encode 4 (blen tuple); tuple]) Ht Et) as [Hd _].
  replace (decode_tid (concat secs)) with (@Ok _ PayloadError tid) by (symmetry; exact Hd).
  rewrite (field_sec secs 4 (blen tuple) 1) by sec_side secs.
  rewrite (proj2 (Z.ltb_ge _ _)) by lia. rewrite checked_len_sum2 by (unfold U64; lia).
  rewrite Z.ltb_irrefl. rewrite <- Hlen at 1. rewrite require_exact_len_refl.
  rewrite (slice_sec secs tuple 2) by sec_side secs. done.
Qed.
Next Obligation.
  intros a bytes Hb. unfold HeapInsertPayload_decode. checks.
  destruct (decode_tid bytes) as [tid|] eqn:Et; [|done]. apply (decode_tid_drop bytes 0) in Et as (Ht & Et & Lt); [|done].
  read_fields Hb. checks. destruct (checked_len_sum _ _) as [n|] eqn:En; [|done].
  apply checked_len_sum_Ok2 in En as [-> Hn]. checks. intros <-%Ok_inj. cbn [hi_tid hi_tuple_bytes].
  assert (Hk : blen (slice 16 (Z.to_nat (16 + v)) bytes) = v)
    by (unfold blen in *; rewrite length_slice by lia; lia).
  split; [by rewrite Hk|]. left. unfold HeapInsertPayload_encode. cbn [hi_tid hi_tuple_bytes]. rewrite Hk.
  pose proof ceiling_U32. rewrite (proj2 (Z.leb_gt _ _)) by lia.
  rewrite checked_len_sum3 by (unfold U64, TID_SIZE, U32 in *; lia). rewrite Et. f_equal. cbn [Nat.add].
  rewrite E. rewrite <- !slice_split by lia. apply slice_all. unfold blen in *. lia.
Qed.

#[global, program] Instance HeapDeletePayload_codec : PayloadCodec HeapDeletePayload := {|
  pc_encode := HeapDeletePayload_encode;
  pc_decode := HeapDeletePayload_decode;
  pc_fits p := tid_fits (hd_tid p) /\ in_width U64 (hd_xmax p) /\ in_width U32 (hd_cmax p);
  pc_legacy _ := False;
|}.
Next Obligation.
  intros [tid x c] bytes (Ht & Hx & Hc). cbn [hd_tid hd_xmax hd_cmax] in *. unfold HeapDeletePayload_encode.
  cbn [hd_tid hd_xmax hd_cmax]. destruct (encode_tid tid) as [tb|] eqn:Et; [|done]. intros <-%Ok_inj.
  pose proof (encode_tid_len _ _ Et) as Htl. set (secs := [tb; le_encode 8 x; le_encode 4 c; le_encode 4 0]).
  replace (tb ++ _) with (concat secs) by (unfold secs; cbn [concat]; by rewrite app_nil_r).
  assert (blen tb = 12) as Htb by (unfold blen; lia).
  assert (Hlen : blen (concat secs) = 28).
  { unfold secs. cbn [concat]. rewrite !blen_app, !blen_enc, Htb. change (blen []) with 0. lia. }
  unfold HeapDeletePayload_decode. rewrite Hlen. cbn [Z.ltb Z.compare].
  destruct (decode_tid_encode tid tb (concat [le_encode 8 x; le_encode 4 c; le_encode 4 0]) Ht Et) as [Hd _].
  replace (decode_tid (concat secs)) with (@Ok _ PayloadError tid) by (symmetry; exact Hd).
  rewrite (field_sec secs 8 x 1) by sec_side secs. rewrite (field_sec secs 4 c 2) by sec_side secs.
  rewrite (field_sec secs 4 0 3) by sec_side secs. cbn [Z.eqb negb].
  assert (require_exact_len (concat secs) 28 = Ok tt) as -> by (rewrite <- Hlen; apply require_exact_len_refl). done.
Qed.
Next Obligation.
  intros a bytes Hb. unfold HeapDeletePayload_decode. checks.
  destruct (decode_tid bytes) as [tid|] eqn:Et; [|done]. apply (decode_tid_drop bytes 0) in Et as (Ht & Et & Lt); [|done].
  read_fields Hb. checks. intros <-%Ok_inj. cbn [hd_tid hd_xmax hd_cmax]. split; [done|]. left.
  unfold HeapDeletePayload_encode. cbn [hd_tid hd_xmax hd_cmax]. rewrite Et. f_equal. rewrite E, E0, E1. cbn [Nat.add].
  rewrite <- !slice_split by lia. apply slice_all. unfold blen in *. lia.
Qed.

#[global, program] Instance HeapUpdatePayload_codec : PayloadCodec HeapUpdatePayload := {|
  pc_encode := HeapUpdatePayload_encode;
  pc_decode := HeapUpdatePayload_decode;
  pc_fits p := tid_fits (hu_old_tid p) /\ tid_fits (hu_new_tid p) /\ (hu_flags p = 0 \/ hu_flags p = 1) /\
               blen (hu_new_tuple_bytes p) <= MAX_VARIABLE_PAYLOAD_BYTES;
  pc_legacy _ := False;
|}.
Next Obligation.
  intros [old new flags tuple] bytes (Ho & Hn & Hf & Hl). cbn [hu_old_tid hu_new_tid hu_flags hu_new_tuple_bytes] in *.
  unfold HeapUpdatePayload_encode. cbn [hu_old_tid hu_new_tid hu_flags hu_new_tuple_bytes]. checks.
  pose proof ceiling_U32 as Hc. unfold U32 in Hc. assert (0 <= blen tuple) as H0 by (unfold blen; lia).
  rewrite checked_len_sum2 by (unfold U64; lia).
  destruct (encode_tid old) as [ob|] eqn:Eo; [|done]. destruct (encode_tid new) as [nb|] eqn:En; [|done].
  intros <-%Ok_inj. pose proof (encode_tid_len _ _ Eo) as Hol. pose proof (encode_tid_len _ _ En) as Hnl.
  set (secs := [ob; nb; le_encode 1 flags; le_encode 3 0; le_encode 4 (blen tuple); tuple]).
  replace (ob ++ _) with (concat secs) by (unfold secs; cbn [concat]; by rewrite app_nil_r).
  assert (blen ob = 12) as Hob by (unfold blen; lia). assert (blen nb = 12) as Hnb by (unfold blen; lia).
  assert (Hlen : blen (concat secs) = 32 + blen tuple).
  { unfold secs. cbn [concat]. rewrite !blen_app, !blen_enc, Hob, Hnb. change (blen []) with 0. lia. }
  unfold HeapUpdatePayload_decode. rewrite Hlen, (proj2 (Z.ltb_ge _ _)) by lia.
  destruct (decode_tid_encode old ob (concat (drop 1 secs)) Ho Eo) as [Hdo _].
  replace (decode_tid (concat secs)) with (@Ok _ PayloadError old) by (symmetry; exact Hdo).
  destruct (decode_tid_encode new nb (concat (drop 2 secs)) Hn En) as [Hdn _].
  replace (drop TID_SIZE (concat secs)) with (nb ++ concat (drop 2 secs)).
  2: { unfold secs. cbn [concat drop]. rewrite drop_app_length'; [done|by rewrite Hol]. }
  rewrite Hdn. rewrite (field_sec secs 1 flags 2) by (sec_side secs || (destruct Hf as [-> | ->]; done)).
  replace (Z.land flags HEAP_UPDATE_FLAGS_RESERVED) with 0 by (by destruct Hf as [-> | ->]). cbn [Z.eqb negb].
  rewrite (field_sec secs 3 0 3) by (sec_side secs || done). cbn [Z.eqb negb].
  rewrite (field_sec secs 4 (blen tuple) 4) by sec_side secs.
  rewrite (proj2 (Z.ltb_ge _ _)) by lia. rewrite checked_len_sum2 by (unfold U64; lia).
  rewrite Z.ltb_irrefl. rewrite <- Hlen at 1. rewrite require_exact_len_refl.
  rewrite (slice_sec secs tuple 5) by sec_side secs. done.
Qed.
Next Obligation.
  intros a bytes Hb. unfold HeapUpdatePayload_decode. checks.
  destruct (decode_tid bytes) as [old|] eqn:Eo; [|done]. apply (decode_tid_drop bytes 0) in Eo as (Ho & Eo & Lo); [|done].
  destruct (decode_tid (drop TID_SIZE bytes)) as [new|] eqn:En; [|done].
  apply (decode_tid_drop bytes 12) in En as (Hn & En & Ln); [|done].
  read_fields Hb. destruct (Z.eqb_spec (Z.land v HEAP_UPDATE_FLAGS_RESERVED) 0) as [Hf|]; [cbn [negb]|done].
  apply flags_bit in Hf; [|done]. read_fields Hb. checks. read_fields Hb. checks.
  destruct (checked_len_sum _ _) as [n|] eqn:Es; [|done]. apply checked_len_sum_Ok2 in Es as [-> Hs]. checks.
  intros <-%Ok_inj. cbn [hu_old_tid hu_new_tid hu_flags hu_new_tuple_bytes].
  assert (Hk : blen (slice 32 (Z.to_nat (32 + v0)) bytes) = v0)
    by (unfold blen in *; rewrite length_slice by lia; lia).
  split; [by rewrite Hk|]. left. unfold HeapUpdatePayload_encode. cbn [hu_old_tid hu_new_tid hu_flags hu_new_tuple_bytes].
  rewrite Hk. pose proof ceiling_U32. rewrite (proj2 (Z.leb_gt _ _)) by lia.
  rewrite checked_len_sum2 by (unfold U64, U32 in *; lia). rewrite Eo, En. f_equal. rewrite E, E0, E1. cbn [Nat.add].
  rewrite <- !slice_split by lia. apply slice_all. unfold blen in *. lia.
Qed.

(** * The payload of an in-place update (ultrasql-wal, payload/heap_update.rs)

    The record of a point update in place carries the slot, the writer and
    both images of the payload, each with its length. *)

Record HeapUpdateInPlacePayload := mk_HeapUpdateInPlacePayload {
  ip_tid : TupleId;
  ip_writer_xid : Xid;
  ip_command_id : CommandId;
  ip_pre_image : list Z;
  ip_post_image : list Z;
}.

Definition HeapUpdateInPlacePayload_encode (p : HeapUpdateInPlacePayload) : result (list Z) PayloadError :=
  let pre := ip_pre_image p in
  let post := ip_post_image p in
  if U32 <=? blen pre then Err (PMalformed "heap_update_in_place pre_len overflow") else
  if U32 <=? blen post then Err (PMalformed "heap_update_in_place post_len overflow") else
  let? total := checked_len_sum [32; blen pre; blen post] "heap_update_in_place length overflow" in
  let? tid := encode_tid (ip_tid p) in
  let? post_off := checked_len_sum [32; blen pre] "heap_update_in_place length overflow" in
  Ok (tid ++ le_encode 8 (ip_writer_xid p) ++ le_encode 4 (ip_command_id p) ++ le_encode 4 (blen pre)
        ++ le_encode 4 (blen post) ++ pre ++ post).

Definition HeapUpdateInPlacePayload_decode (bytes : list Z) : result HeapUpdateInPlacePayload PayloadError :=
  let FIXED := 32 in
  if blen bytes <? FIXED then Err (PTruncated FIXED (blen bytes)) else
  let? tid := decode_tid bytes in
  let? writer_xid := field 8 12 bytes "heap_update_in_place writer_xid" in
  let? command_id := field 4 20 bytes "heap_update_in_place command_id" in
  let? pre_len := field 4 24 bytes "heap_update_in_place pre_len" in
  let? post_len := field 4 28 bytes "heap_update_in_place post_len" in
  if (MAX_VARIABLE_PAYLOAD_BYTES <? pre_len) || (MAX_VARIABLE_PAYLOAD_BYTES <? post_len)
  then Err (PMalformed "heap_update_in_place image length exceeds ceiling") else
  let? needed := checked_len_sum [FIXED; pre_len; post_len] "heap_update_in_place length overflow" in
  if blen bytes <? needed then Err (PTruncated needed (blen bytes)) else
  let? _u := require_exact_len bytes needed in
  let? post_off := checked_len_sum [FIXED; pre_len] "heap_update_in_place length overflow" in
  Ok (mk_HeapUpdateInPlacePayload tid writer_xid command_id
        (slice 32 (Z.to_nat post_off) bytes) (slice (Z.to_nat post_off) (Z.to_nat needed) bytes)).

Lemma checked_len_sum_Ok3 a b c what n :
  checked_len_sum [a; b; c] what = Ok n -> n = a + b + c /\ n < U64.
Proof.
  unfold checked_len_sum. cbn [fold_left]. destruct (checked_offset 0 a what) eqn:E1; [|done].
  destruct (checked_offset a0 b what) eqn:E2; [|done].
  apply checked_offset_Ok in E1 as [-> _], E2 as [-> _]. intros [-> H]%checked_offset_Ok. split; [lia|done].
Qed.

#[global, program] Instance HeapUpdateInPlacePayload_codec : PayloadCodec HeapUpdateInPlacePayload := {|
  pc_encode := HeapUpdateInPlacePayload_encode;
  pc_decode := HeapUpdateInPlacePayload_decode;
  pc_fits p := tid_fits (ip_tid p) /\ in_width U64 (ip_writer_xid p) /\ in_width U32 (ip_command_id p) /\
               blen (ip_pre_image p) <= MAX_VARIABLE_PAYLOAD_BYTES /\ blen (ip_post_image p) <= MAX_VARIABLE_PAYLOAD_BYTES;
  pc_legacy _ := False;
|}.
Next Obligation.
  intros [tid x c pre post] bytes (Ht & Hx & Hc & H1 & H2).
  cbn [ip_tid ip_writer_xid ip_command_id ip_pre_image ip_post_image] in *. unfold HeapUpdateInPlacePayload_encode.
  cbn [ip_tid ip_writer_xid ip_command_id ip_pre_image ip_post_image]. checks.
  pose proof ceiling_U32 as Hcl. unfold U32 in Hcl. assert (0 <= blen pre) as P1 by (unfold blen; lia).
  assert (0 <= blen post) as P2 by (unfold blen; lia). rewrite checked_len_sum3 by (unfold U64; lia).
  destruct (encode_tid tid) as [tb|] eqn:Et; [|done]. rewrite checked_len_sum2 by (unfold U64; lia). intros <-%Ok_inj.
  pose proof (encode_tid_len _ _ Et) as Htl.
  set (secs := [tb; le_encode 8 x; le_encode 4 c; le_encode 4 (blen pre); le_encode 4 (blen post); pre; post]).
  replace (tb ++ _) with (concat secs) by (unfold secs; cbn [concat]; by rewrite app_nil_r).
  assert (blen tb = 12) as Htb by (unfold blen; lia).
  assert (Hlen : blen (concat secs) = 32 + blen pre + blen post).
  { unfold secs. cbn [concat]. rewrite !blen_app, !blen_enc, Htb. change (blen []) with 0. lia. }
  unfold HeapUpdateInPlacePayload_decode. rewrite Hlen, (proj2 (Z.ltb_ge _ _)) by lia.
  destruct (decode_tid_encode tid tb (concat (drop 1 secs)) Ht Et) as [Hd _].
  replace (decode_tid (concat secs)) with (@Ok _ PayloadError tid) by (symmetry; exact Hd).
  rewrite (field_sec secs 8 x 1) by sec_side secs. rewrite (field_sec secs 4 c 2) by sec_side secs.
  rewrite (field_sec secs 4 (blen pre) 3) by sec_side secs. rewrite (field_sec secs 4 (blen post) 4) by sec_side secs.
  rewrite (proj2 (Z.ltb_ge _ _)), (proj2 (Z.ltb_ge _ _)) by lia. cbn [orb].
  rewrite checked_len_sum3 by (unfold U64; lia). rewrite Z.ltb_irrefl. rewrite <- Hlen at 1. rewrite require_exact_len_refl.
  rewrite checked_len_sum2 by (unfold U64; lia).
  rewrite (slice_sec secs pre 5) by sec_side secs. rewrite (slice_sec secs post 6) by sec_side secs. done.
Qed.
Next Obligation.
  intros a bytes Hb. unfold HeapUpdateInPlacePayload_decode. checks.
  destruct (decode_tid bytes) as [tid|] eqn:Et; [|done]. apply (decode_tid_drop bytes 0) in Et as (Ht & Et & Lt); [|done].
  read_fields Hb. destruct (_ || _) eqn:Eo; [done|]. apply orb_false_elim in Eo as [Eo1 Eo2].
  apply Z.ltb_ge in Eo1, Eo2.
  destruct (checked_len_sum [_; _; _] _) as [n|] eqn:En; [|done]. apply checked_len_sum_Ok3 in En as [-> Hn]. checks.
  destruct (checked_len_sum [_; _] _) as [m|] eqn:Em; [|done]. apply checked_len_sum_Ok2 in Em as [-> Hm].
  intros <-%Ok_inj. cbn [ip_tid ip_writer_xid ip_command_id ip_pre_image ip_post_image].
  assert (Hk1 : blen (slice 32 (Z.to_nat (32 + v1)) bytes) = v1)
    by (unfold blen in *; rewrite length_slice by lia; lia).
  assert (Hk2 : blen (slice (Z.to_nat (32 + v1)) (Z.to_nat (32 + v1 + v2)) bytes) = v2)
    by (unfold blen in *; rewrite length_slice by lia; lia).
  split; [by rewrite Hk1, Hk2|]. left. unfold HeapUpdateInPlacePayload_encode.
  cbn [ip_tid ip_writer_xid ip_command_id ip_pre_image ip_post_image]. rewrite Hk1, Hk2.
  pose proof ceiling_U32. rewrite (proj2 (Z.leb_gt _ _)), (proj2 (Z.leb_gt _ _)) by lia.
  rewrite checked_len_sum3 by (unfold U64, U32 in *; lia). rewrite Et, checked_len_sum2 by (unfold U64, U32 in *; lia).
  f_equal. rewrite E, E0, E1, E2. cbn [Nat.add].
  rewrite <- !slice_split by lia. apply slice_all. unfold blen in *. lia.
Qed.
