(* ===== verification/WalSink.v ===== *)
(** * The WAL sink of the storage layer (ultrasql-storage, wal_sink.rs)

    [trait WalSink] as the access methods use it: a state of its own, the last
    LSN of a transaction and the append of a record. *)

From S2P Require Import Prelude CoreIds WalRecord.

(** [trait WalSink], as far as the access methods use it. *)
Record WalSink (S : Type) := mk_WalSink {
  last_lsn_for : S -> Xid -> Lsn;
  sink_append : S -> WalRecord -> result Lsn unit * S;
}.
Arguments last_lsn_for {S} _ _ _.
Arguments sink_append {S} _ _ _.
