(* ===== verification/WalRecovery.v ===== *)
(** * Crash recovery of the WAL (ultrasql-wal, recovery.rs)

    The replay of a WAL directory: the scan of its segments, the torn tail of
    the final one, the point-in-time targets and the repair that trims the
    torn tail. The applier is the caller's: a state and a function that
    returns the new state and a result. The two renderings of errors into
    text ([Display]) are parameters. File-system errors are not modelled; the
    size limit on a segment is. *)

From S2P Require Import Prelude CoreIds WalRecord WalLog WalSegment WalPayload.

Record RecoveryTarget := mk_RecoveryTarget {
  target_lsn : option Lsn;
  target_xid : option Xid;
  target_time_micros : option Z;
}.

Definition RecoveryTarget_none : RecoveryTarget := mk_RecoveryTarget None None None.
Definition up_to_lsn (l : Lsn) : RecoveryTarget := mk_RecoveryTarget (Some l) None None.
Definition up_to_xid (x : Xid) : RecoveryTarget := mk_RecoveryTarget None (Some x) None.
Definition up_to_time_micros (t : Z) : RecoveryTarget := mk_RecoveryTarget None None (Some t).

Inductive ReplayDecision := Continue | StopBeforeRecord | StopAfterRecord.

#[global] Instance ReplayDecision_eq_dec : EqDecision ReplayDecision.
Proof. solve_decision. Defined.

Definition finish_recovery_at (target : RecoveryTarget) (lsn : Lsn) : result Lsn RecoveryError :=
  match target_xid target with
  | Some x => Err (TargetXidNotFound x)
  | None => Ok lsn
  end.

Definition checked_record_end (stream_pos used : Z) : result Z RecoveryError :=
  ok_or (checked_add U64 stream_pos used) (RecRecord (Malformed "recovery lsn overflow")).

Definition checked_record_count (n : Z) : result Z RecoveryError :=
  ok_or (checked_add U64 n 1) (RecRecord (Malformed "recovery record count overflow")).

Definition checked_segment_offset (offset used : nat) : result nat RecoveryError :=
  if Z.of_nat (offset + used) <? U64 then Ok (offset + used)%nat
  else Err (RecRecord (Malformed "recovery segment offset overflow")).

Definition crc_mismatch_is_at_segment_tail (buf : list Z) (offset : nat) : result bool RecoveryError :=
  if (length buf <? offset)%nat
  then Err (RecRecord (Malformed "recovery segment offset out of bounds")) else
  let remaining := drop offset buf in
  if (length remaining <? RECORD_HEADER_SIZE)%nat then Ok true else
  let total := le_decode (take 4 remaining) in
  if total <? Z.of_nat RECORD_HEADER_SIZE then Err (RecRecord (Malformed "total_length too small")) else
  let? record_end := checked_segment_offset offset (Z.to_nat total) in
  Ok (record_end =? length buf)%nat.

Definition read_segment_bytes (limit : Z) (bytes : list Z) : result (list Z) RecoveryError :=
  if limit <? Z.of_nat (length bytes)
  then Err (SegmentOverLimit (Z.of_nat (length bytes)) limit) else Ok bytes.

Section recovery.
Context (crc32c_append : Z -> list Z -> Z) (crc32c : list Z -> Z) (limit : Z).
Context (display_recovery : RecoveryError -> string) (display_payload : PayloadError -> string).

Definition replay_decision (r : WalRecord) (target : RecoveryTarget) : result ReplayDecision RecoveryError :=
  if negb (bool_decide (record_type (rec_header r) = Commit)) then Ok Continue else
  let? stop :=
    match target_time_micros target with
    | None => Ok false
    | Some t =>
        match CommitPayload_decode (rec_payload r) with
        | Err e => Err (RecApplier (String.append "commit payload decode: " (display_payload e)))
        | Ok p => Ok (t <? commit_timestamp_micros p)
        end
    end in
  if stop : bool then Ok StopBeforeRecord else
  if bool_decide (target_xid target = Some (rec_xid (rec_header r))) then Ok StopAfterRecord
  else Ok Continue.

(** ** The scan *)

Section applier.
Context {S : Type} (apply : S -> WalRecord -> S * result unit RecoveryError).

(** The loop variables of [recover_with_target], and the applier's state. *)
Record scan := mk_scan {
  sc_applied : S;
  sc_stream_pos : Z;
  sc_last_good : Z;
  sc_count : Z;
}.

Inductive scan_result :=
| ScanDone (st : scan)                             (* the segment is exhausted *)
| ScanReturn (s : S) (r : result Lsn RecoveryError) (* the function returns *)
| ScanFuel.                                         (* not reached, see [scan_segment_total] *)

Definition applier_error (e : RecoveryError) : RecoveryError :=
  match e with RecApplier s => RecApplier s | other => RecApplier (display_recovery other) end.

(** One record that decoded: the next offset and loop state, or the return. *)
Definition scan_record (target : RecoveryTarget) (offset : nat) (st : scan) (record : WalRecord) (used : nat)
  : result (nat * scan) (S * result Lsn RecoveryError) :=
  let s := sc_applied st in
  match checked_record_end (sc_stream_pos st) (Z.of_nat used) with
  | Err e => Err (s, Err e)
  | Ok record_end =>
      if match target_lsn target with Some t => t <? record_end | None => false end
      then Err (s, finish_recovery_at target (sc_last_good st)) else
      match replay_decision record target with
      | Err e => Err (s, Err e)
      | Ok StopBeforeRecord => Err (s, finish_recovery_at target (sc_last_good st))
      | Ok decision =>
          match apply s record with
          | (s', Err e) => Err (s', Err (applier_error e))
          | (s', Ok _) =>
              match checked_segment_offset offset used with
              | Err e => Err (s', Err e)
              | Ok offset' =>
                  match checked_record_count (sc_count st) with
                  | Err e => Err (s', Err e)
                  | Ok count' =>
                      if bool_decide (decision = StopAfterRecord) then Err (s', Ok record_end)
                      else Ok (offset', mk_scan s' record_end record_end count')
                  end
              end
          end
      end
  end.

Fixpoint scan_segment (fuel : nat) (target : RecoveryTarget) (is_final : bool) (buf : list Z)
    (offset : nat) (st : scan) : scan_result :=
  match fuel with
  | O => ScanFuel
  | Datatypes.S fuel' =>
      if negb (offset <? length buf)%nat then ScanDone st else
      let s := sc_applied st in
      match record_decode crc32c_append (drop offset buf) with
      | Ok (record, used) =>
          match scan_record target offset st record used with
          | Err (s', r) => ScanReturn s' r
          | Ok (offset', st') => scan_segment fuel' target is_final buf offset' st'
          end
      | Err (Truncated needed have) =>
          if negb is_final then ScanReturn s (Err (RecRecord (Truncated needed have)))
          else ScanReturn s (finish_recovery_at target (sc_last_good st))
      | Err (CrcMismatch expected actual) =>
          if negb is_final then ScanReturn s (Err (RecRecord (CrcMismatch expected actual))) else
          match crc_mismatch_is_at_segment_tail buf offset with
          | Err e => ScanReturn s (Err e)
          | Ok false => ScanReturn s (Err (RecRecord (CrcMismatch expected actual)))
          | Ok true => ScanReturn s (finish_recovery_at target (sc_last_good st))
          end
      | Err other => ScanReturn s (Err (RecRecord other))
      end
  end.

Fixpoint scan_segments (target : RecoveryTarget) (segments : list (Z * list Z)) (st : scan)
  : option (S * result Lsn RecoveryError) :=
  match segments with
  | [] => Some (sc_applied st, finish_recovery_at target (sc_last_good st))
  | (_, bytes) :: rest =>
      match read_segment_bytes limit bytes with
      | Err e => Some (sc_applied st, Err e)
      | Ok buf =>
          match scan_segment (Datatypes.S (length buf)) target
                  (match rest with [] => true | _ => false end) buf 0 st with
          | ScanDone st' => scan_segments target rest st'
          | ScanReturn s r => Some (s, r)
          | ScanFuel => None
          end
      end
  end.

(** [None] would be a scan that does not end. *)
Definition recover_with_target (d : WalDir) (target : RecoveryTarget) (s : S)
  : option (S * result Lsn RecoveryError) :=
  match read_floor crc32c d with
  | Err e => Some (s, Err e)
  | Ok floor =>
      if match target_lsn target with Some t => t <? floor_lsn floor | None => false end
      then Some (s, Err (TargetBeforeFloor (default 0 (target_lsn target)) (floor_lsn floor))) else
      let segments := List.filter (fun seg => segment_index floor <=? seg.1) (list_segments d) in
      match segments with
      | [] => Some (s, finish_recovery_at target (floor_lsn floor))
      | _ => scan_segments target segments (mk_scan s (floor_lsn floor) (floor_lsn floor) 0)
      end
  end.
End applier.

Definition recover {S} (apply : S -> WalRecord -> S * result unit RecoveryError) (d : WalDir) (s : S)
  : option (S * result Lsn RecoveryError) :=
  recover_with_target apply d RecoveryTarget_none s.

(** ** The repair *)

Fixpoint good_prefix_loop (fuel : nat) (buf : list Z) (offset : nat) : option (result nat RecoveryError) :=
  match fuel with
  | O => None
  | S fuel' =>
      if negb (offset <? length buf)%nat then Some (Ok offset) else
      match record_decode crc32c_append (drop offset buf) with
      | Ok (_, used) =>
          match checked_segment_offset offset used with
          | Err e => Some (Err e)
          | Ok offset' => good_prefix_loop fuel' buf offset'
          end
      | Err (Truncated _ _) => Some (Ok offset)
      | Err (CrcMismatch expected actual) =>
          match crc_mismatch_is_at_segment_tail buf offset with
          | Err e => Some (Err e)
          | Ok true => Some (Ok offset)
          | Ok false => Some (Err (RecRecord (CrcMismatch expected actual)))
          end
      | Err other => Some (Err (RecRecord other))
      end
  end.

Definition good_prefix_len (buf : list Z) : option (result nat RecoveryError) :=
  good_prefix_loop (S (length buf)) buf 0.

(** [repair_final_segment_tail]: the bytes trimmed, and the directory. *)
Definition repair_final_segment_tail (d : WalDir) : option (result (option Z) RecoveryError * WalDir) :=
  match read_floor crc32c d with
  | Err e => Some (Err e, d)
  | Ok floor =>
      let segments := List.filter (fun seg => segment_index floor <=? seg.1) (list_segments d) in
      match last segments with
      | None => Some (Ok None, d)
      | Some (index, bytes) =>
          match read_segment_bytes limit bytes with
          | Err e => Some (Err e, d)
          | Ok buf =>
              match good_prefix_len buf with
              | None => None
              | Some (Err e) => Some (Err e, d)
              | Some (Ok good) =>
                  let file_len := Z.of_nat (length buf) in
                  let good_len := Z.of_nat good in
                  if file_len <=? good_len then Some (Ok None, d) else
                  Some (Ok (Some (file_len - good_len)),
                        mk_WalDir (wd_manifest d) (<[index := take good bytes]> (wd_files d)))
              end
          end
      end
  end.
End recovery.

(** ** The abstract replay

    What recovery means at the level of the abstract log: the records in
    order, each handed to the applier, until a target, an error or the end. *)

Section replay.
Context (display_recovery : RecoveryError -> string) (display_payload : PayloadError -> string).
Context {S : Type} (apply : S -> WalRecord -> S * result unit RecoveryError).

Inductive walk_result :=
| Stopped (s : S) (r : result Lsn RecoveryError)
| Through (s : S) (pos : Z).

Fixpoint log_walk (target : RecoveryTarget) (pos : Z) (rs : list WalRecord) (s : S) : walk_result :=
  match rs with
  | [] => Through s pos
  | r :: rs' =>
      let record_end := pos + Z.of_nat (length (record_bytes r)) in
      if match target_lsn target with Some t => t <? record_end | None => false end
      then Stopped s (finish_recovery_at target pos) else
      match replay_decision display_payload r target with
      | Err e => Stopped s (Err e)
      | Ok StopBeforeRecord => Stopped s (finish_recovery_at target pos)
      | Ok decision =>
          match apply s r with
          | (s', Err e) => Stopped s' (Err (applier_error display_recovery e))
          | (s', Ok _) =>
              if bool_decide (decision = StopAfterRecord) then Stopped s' (Ok record_end)
              else log_walk target record_end rs' s'
          end
      end
  end.

Definition log_replay (target : RecoveryTarget) (pos : Z) (rs : list WalRecord) (s : S)
  : S * result Lsn RecoveryError :=
  match log_walk target pos rs s with
  | Stopped s r => (s, r)
  | Through s pos => (s, finish_recovery_at target pos)
  end.

Lemma log_walk_app target pos rs rs' s :
  log_walk target pos (rs ++ rs') s =
    match log_walk target pos rs s with
    | Stopped s r => Stopped s r
    | Through s pos' => log_walk target pos' rs' s
    end.
Proof.
  revert pos s. induction rs as [|r rs IH]; intros pos s; [done|]. cbn [log_walk app].
  destruct (match target_lsn target with Some t => _ | None => _ end); [done|].
  destruct (replay_decision _ _ _) as [[]|]; try done;
    (destruct (apply s r) as [s' []]; [|done]; case_match; [done|]; apply IH).
Qed.

Lemma log_walk_through target pos rs s s' pos' :
  log_walk target pos rs s = Through s' pos' -> pos' = pos + log_len rs.
Proof.
  revert pos s. induction rs as [|r rs IH]; intros pos s; cbn [log_walk].
  { intros [= -> ->]. rewrite log_len_nil. lia. }
  destruct (match target_lsn target with Some t => _ | None => _ end); [done|].
  destruct (replay_decision _ _ _) as [[]|]; try done;
    (destruct (apply s r) as [s1 []]; [|done]; case_match; [done|]; intros ->%IH;
     rewrite log_len_cons; lia).
Qed.
End replay.

Section scan_lemmas.
Context (crc32c_append : Z -> list Z -> Z).
Context (display_recovery : RecoveryError -> string) (display_payload : PayloadError -> string).
Context {S : Type} (apply : S -> WalRecord -> S * result unit RecoveryError).

(** What a crash may leave after the last whole record of the final segment:
    nothing, a record that needs more bytes than there are, or a record of
    the right length whose bytes do not match its CRC. *)
Definition torn_tail (tail : list Z) : Prop :=
  tail = [] \/
  exists e, record_decode crc32c_append tail = Err e /\
    match e with
    | Truncated _ _ => True
    | CrcMismatch _ _ => crc_mismatch_is_at_segment_tail tail 0 = Ok true
    | _ => False
    end.

(** A record cut short is such a tail. *)
Lemma torn_prefix r k :
  record_ok crc32c_append r -> (k < length (record_bytes r))%nat -> torn_tail (take k (record_bytes r)).
Proof.
  intros Hr Hk. right. destruct (record_decode_torn _ r k Hr Hk) as (n & E & _).
  by exists (Truncated n (Z.of_nat k)).
Qed.

Lemma crc_tail_shift pre tail :
  Z.of_nat (length (pre ++ tail)) < U64 -> crc_mismatch_is_at_segment_tail tail 0 = Ok true ->
  crc_mismatch_is_at_segment_tail (pre ++ tail) (length pre) = Ok true.
Proof.
  unfold crc_mismatch_is_at_segment_tail. rewrite length_app. intros Hlen.
  rewrite drop_app_length, drop_0.
  replace (length pre + length tail <? length pre)%nat with false by (symmetry; apply Nat.ltb_ge; lia).
  change (length tail <? 0)%nat with false. cbn iota.
  destruct (length tail <? RECORD_HEADER_SIZE)%nat; [done|].
  destruct (le_decode (take 4 tail) <? _); [done|].
  unfold checked_segment_offset. rewrite Nat.add_0_l.
  destruct (Z.ltb_spec (Z.of_nat (Z.to_nat (le_decode (take 4 tail)))) U64); [|done].
  intros H'%Ok_inj. apply Nat.eqb_eq in H'. rewrite H'.
  rewrite (proj2 (Z.ltb_lt _ _)) by lia. by rewrite Nat.eqb_refl.
Qed.

(** The steps of the scan on a good record, and at the end of the log. *)
Lemma scan_record_log target offset st r :
  sc_last_good st = sc_stream_pos st ->
  0 <= sc_count st <= sc_stream_pos st ->
  let e := sc_stream_pos st + Z.of_nat (length (record_bytes r)) in
  e < U64 -> Z.of_nat (offset + length (record_bytes r)) < U64 ->
  scan_record display_recovery display_payload apply target offset st r (length (record_bytes r)) =
    match log_walk display_recovery display_payload apply target (sc_stream_pos st) [r] (sc_applied st) with
    | Stopped s res => Err (s, res)
    | Through s pos =>
        Ok ((offset + length (record_bytes r))%nat, mk_scan s pos pos (sc_count st + 1))
    end.
Proof.
  intros Hg Hc e He Ho. unfold scan_record, checked_record_end, checked_add. cbn [log_walk]. fold e.
  pose proof (record_bytes_nonempty r) as Hne. unfold RECORD_HEADER_SIZE in Hne.
  rewrite (proj2 (Z.ltb_lt _ _) He). cbn [ok_or]. rewrite Hg.
  destruct (match target_lsn target with Some t => _ | None => _ end); [done|].
  unfold checked_segment_offset, checked_record_count, checked_add.
  rewrite (proj2 (Z.ltb_lt _ _) Ho), (proj2 (Z.ltb_lt (sc_count st + 1) _)) by (unfold e in *; lia).
  cbn [ok_or].
  destruct (replay_decision _ _ _) as [[]|]; try done;
    (destruct (apply _ r) as [s' []]; [|done]; case_match; done).
Qed.

Lemma scan_segment_log fuel target fin pre rs tail st :
  Forall (record_ok crc32c_append) rs -> torn_tail tail -> (fin = false -> tail = []) ->
  (length rs < fuel)%nat ->
  Z.of_nat (length (pre ++ log_bytes rs ++ tail)) < U64 ->
  sc_last_good st = sc_stream_pos st -> 0 <= sc_count st <= sc_stream_pos st ->
  sc_stream_pos st + log_len rs < U64 ->
  scan_segment crc32c_append display_recovery display_payload apply fuel target fin
      (pre ++ log_bytes rs ++ tail) (length pre) st =
    match log_walk display_recovery display_payload apply target (sc_stream_pos st) rs (sc_applied st) with
    | Stopped s r => ScanReturn s r
    | Through s pos =>
        if decide (tail = []) then ScanDone (mk_scan s pos pos (sc_count st + Z.of_nat (length rs)))
        else ScanReturn s (finish_recovery_at target pos)
    end.
Proof.
  intros Hok Htail Hfin. revert fuel pre st.
  induction Hok as [|r rs Hr Hok IH]; intros fuel pre st Hfuel Hlen Hg Hc Hpos;
    (destruct fuel as [|fuel]; [cbn in Hfuel; lia|]); cbn [scan_segment].
  - unfold log_bytes. cbn [map concat app log_walk]. rewrite length_app.
    destruct (decide (tail = [])) as [->|Hne].
    + cbn [length]. rewrite Nat.add_0_r, Nat.ltb_irrefl. cbn [negb]. rewrite Z.add_0_r.
      destruct st; cbn in *; by subst.
    + assert (0 < length tail)%nat by (destruct tail; [done|cbn; lia]).
      rewrite (proj2 (Nat.ltb_lt _ _)) by lia. cbn [negb]. rewrite drop_app_length.
      destruct Htail as [?|(e & -> & He)]; [done|].
      destruct fin; [|by specialize (Hfin eq_refl)].
      destruct e; try done; cbn [negb]; [by rewrite Hg|].
      rewrite crc_tail_shift; [by rewrite Hg|done|done].
  - rewrite log_bytes_cons, <- app_assoc in *.
    rewrite !length_app in Hlen. rewrite log_len_cons in Hpos.
    pose proof (record_bytes_nonempty r) as Hne. unfold RECORD_HEADER_SIZE in Hne.
    pose proof (log_len_nonneg rs).
    rewrite (proj2 (Nat.ltb_lt _ _)) by (rewrite !length_app; lia). cbn [negb].
    rewrite drop_app_length, record_decode_ok by done.
    rewrite scan_record_log by lia.
    change (r :: rs) with ([r] ++ rs). rewrite log_walk_app.
    destruct (log_walk _ _ _ _ _ [r] _) as [s res|s pos] eqn:Ew; [done|].
    pose proof (log_walk_through _ _ _ _ _ _ _ _ _ Ew) as Hp. rewrite log_len_single in Hp.
    rewrite app_assoc, <- length_app.
    rewrite IH; cbn [sc_stream_pos sc_last_good sc_applied sc_count length] in *;
      try done; try lia; [|rewrite !length_app; lia].
    destruct (log_walk _ _ _ _ pos rs s); [done|]. case_decide; [|done]. do 2 f_equal. cbn [app length]. lia.
Qed.

(** Segment files holding groups of whole records, the last one followed by
    [tail]. *)
Fixpoint laid_out (segs : list (Z * list Z)) (groups : list (list WalRecord)) (tail : list Z) : Prop :=
  match segs, groups with
  | [], [] => tail = []
  | (_, b) :: segs', g :: groups' =>
      match segs', groups' with
      | [], [] => b = log_bytes g ++ tail
      | _, _ => b = log_bytes g /\ laid_out segs' groups' tail
      end
  | _, _ => False
  end.

Lemma scan_segments_log limit target segs groups tail st :
  laid_out segs groups tail -> segs <> [] ->
  Forall (Forall (record_ok crc32c_append)) groups -> torn_tail tail ->
  Forall (fun seg => Z.of_nat (length seg.2) <= limit) segs -> limit < U64 ->
  sc_last_good st = sc_stream_pos st -> 0 <= sc_count st <= sc_stream_pos st ->
  sc_stream_pos st + log_len (concat groups) < U64 ->
  scan_segments crc32c_append limit display_recovery display_payload apply target segs st =
    Some (log_replay display_recovery display_payload apply target (sc_stream_pos st)
            (concat groups) (sc_applied st)).
Proof.
  intros Hl Hne Hok Htail Hsz Hlim. revert groups st Hl Hok.
  induction Hsz as [|[i b] segs Hb Hsz IH]; intros [|g groups] st Hl Hok Hg Hc Hpos; try done.
  apply Forall_cons in Hok as [Hgok Hok]. cbn [concat] in Hpos. rewrite log_len_app in Hpos.
  pose proof (log_len_nonneg (concat groups)) as Hn.
  cbn [scan_segments snd] in *. unfold read_segment_bytes.
  rewrite (proj2 (Z.ltb_ge _ _) Hb).
  assert (Hcount : (length g <= length (log_bytes g))%nat).
  { clear. induction g as [|r g IHg]; [done|]. rewrite log_bytes_cons, length_app. cbn [length].
    pose proof (record_bytes_nonempty r). unfold RECORD_HEADER_SIZE in *. lia. }
  destruct segs as [|seg segs].
  - destruct groups; [|by destruct Hl as [_ []]]. cbn [laid_out] in Hl. subst b.
    pose proof (scan_segment_log (Datatypes.S (length (log_bytes g ++ tail))) target true [] g tail st) as Hs.
    cbn [app length] in Hs. cbn [length]. rewrite Hs by (try done; rewrite ?length_app in *; lia). clear Hs.
    cbn [concat]. rewrite app_nil_r. unfold log_replay.
    destruct (log_walk _ _ _ _ _ g _); [done|]. by case_decide.
  - destruct Hl as [-> Hl].
    pose proof (scan_segment_log (Datatypes.S (length (log_bytes g))) target false [] g [] st) as Hs.
    cbn [app length] in Hs. rewrite app_nil_r in Hs.
    rewrite Hs by (try done; try lia; by left). clear Hs.
    cbn [concat]. unfold log_replay. rewrite log_walk_app.
    destruct (log_walk _ _ _ _ _ g _) as [|s pos] eqn:Ew; [done|].
    apply log_walk_through in Ew. rewrite decide_True by done.
    rewrite (IH ltac:(done) groups); cbn [sc_stream_pos sc_last_good sc_applied sc_count];
      try done; unfold log_len in *; lia.
Qed.

(** ** Recovery implements the abstract replay *)

Lemma recover_refines crc32c limit d floor target segs groups tail s :
  read_floor crc32c d = Ok floor ->
  List.filter (fun seg => segment_index floor <=? seg.1) (list_segments d) = segs ->
  laid_out segs groups tail ->
  Forall (Forall (record_ok crc32c_append)) groups -> torn_tail tail ->
  Forall (fun seg => Z.of_nat (length seg.2) <= limit) segs -> limit < U64 ->
  0 <= floor_lsn floor -> floor_lsn floor + log_len (concat groups) < U64 ->
  (forall t, target_lsn target = Some t -> floor_lsn floor <= t) ->
  recover_with_target crc32c_append crc32c limit display_recovery display_payload apply d target s =
    Some (log_replay display_recovery display_payload apply target (floor_lsn floor) (concat groups) s).
Proof.
  intros Hf Hs Hl Hok Ht Hsz Hlim H0 Hpos Htgt. unfold recover_with_target. rewrite Hf.
  replace (match target_lsn target with Some t => t <? floor_lsn floor | None => false end) with false.
  2: { destruct (target_lsn target) as [t|]; [|done]. symmetry. apply Z.ltb_ge, Htgt. done. }
  rewrite Hs. destruct segs as [|seg segs].
  - destruct groups; [|done]. done.
  - rewrite (scan_segments_log limit target (seg :: segs) groups tail); cbn; try done; lia.
Qed.

(** With no target and an applier that does not fail, everything is applied. *)
Lemma log_replay_all (f : S -> WalRecord -> S) pos rs s :
  (forall s r, apply s r = (f s r, Ok tt)) ->
  log_replay display_recovery display_payload apply RecoveryTarget_none pos rs s =
    (foldl f s rs, Ok (pos + log_len rs)).
Proof.
  intros Hf. unfold log_replay.
  assert (H : log_walk display_recovery display_payload apply RecoveryTarget_none pos rs s =
    Through (foldl f s rs) (pos + log_len rs)) by
  (revert pos s; induction rs as [|r rs IH]; intros pos s; cbn [log_walk foldl];
   [by rewrite log_len_nil, Z.add_0_r|];
   unfold replay_decision; cbn [target_lsn target_xid target_time_micros RecoveryTarget_none];
   rewrite Hf, log_len_cons; destruct (negb _); [|rewrite bool_decide_false by done]; cbn;
   rewrite IH; f_equal; lia).
  by rewrite H.
Qed.
End scan_lemmas.

(** ** The repair agrees with recovery *)

Section repair.
Context (crc32c_append : Z -> list Z -> Z).
Context (display_recovery : RecoveryError -> string) (display_payload : PayloadError -> string).

(** The good prefix is a run of whole records and what follows is torn. *)
Lemma good_prefix_Ok fuel buf offset n :
  Forall is_byte buf -> (offset <= length buf)%nat -> Z.of_nat (length buf) < U64 ->
  good_prefix_loop crc32c_append fuel buf offset = Some (Ok n) ->
  exists rs, Forall (record_ok crc32c_append) rs /\ drop offset buf = log_bytes rs ++ drop n buf /\
    (n = offset + length (log_bytes rs))%nat /\ (n <= length buf)%nat /\
    torn_tail crc32c_append (drop n buf).
Proof.
  intros Hb. revert offset. induction fuel as [|fuel IH]; intros offset Ho Hlen; [done|].
  cbn [good_prefix_loop]. destruct (Nat.ltb_spec offset (length buf)) as [Hlt|Hge]; cbn [negb].
  2: { intros [= <-]. exists []. rewrite log_bytes_nil. cbn. rewrite drop_ge by lia. repeat split; try lia; [constructor|by left]. }
  assert (Hstop : forall e, record_decode crc32c_append (drop offset buf) = Err e ->
    match e with Truncated _ _ => True
    | CrcMismatch _ _ => crc_mismatch_is_at_segment_tail buf offset = Ok true | _ => False end ->
    exists rs, Forall (record_ok crc32c_append) rs /\ drop offset buf = log_bytes rs ++ drop offset buf /\
      (offset = offset + length (log_bytes rs))%nat /\ (offset <= length buf)%nat /\
      torn_tail crc32c_append (drop offset buf)).
  { intros e He Hm. exists []. rewrite log_bytes_nil. cbn. repeat split; try lia; [constructor|]. right. exists e.
    split; [done|]. destruct e; try done. revert Hm. unfold crc_mismatch_is_at_segment_tail.
    replace (length buf <? offset)%nat with false by (symmetry; apply Nat.ltb_ge; lia).
    change (length (drop offset buf) <? 0)%nat with false. cbn iota. rewrite drop_0.
    destruct (length (drop offset buf) <? RECORD_HEADER_SIZE)%nat; [done|].
    destruct (le_decode _ <? _); [done|]. unfold checked_segment_offset. rewrite Nat.add_0_l.
    destruct (Z.ltb_spec (Z.of_nat (offset + Z.to_nat (le_decode (take 4 (drop offset buf))))) U64); [|done].
    rewrite (proj2 (Z.ltb_lt _ _)) by lia. intros H'%Ok_inj. apply Nat.eqb_eq in H'.
    f_equal. apply Nat.eqb_eq. rewrite length_drop. lia. }
  destruct (record_decode _ _) as [[r used]|e] eqn:Hd.
  - apply record_decode_Ok in Hd as (Hr & Hbytes & Hused & Hle); [|by apply Forall_drop].
    rewrite length_drop in Hle. unfold checked_segment_offset.
    rewrite (proj2 (Z.ltb_lt _ _)) by lia.
    intros (rs & Hok & Hdr & Hn & Hnl & Ht)%IH; [|lia|done].
    exists (r :: rs). rewrite log_bytes_cons, length_app. split; [by constructor|].
    split; [|split; [lia|done]]. rewrite Hbytes, <- app_assoc, <- Hdr, <- drop_drop. by rewrite take_drop.
  - destruct e; try done.
    + intros [= <-]. by eapply Hstop.
    + destruct (crc_mismatch_is_at_segment_tail buf offset) as [[]|] eqn:Hm; try done.
      intros [= <-]. by eapply Hstop.
Qed.

Lemma good_prefix_total fuel buf offset :
  Forall is_byte buf -> (length buf - offset < fuel)%nat ->
  exists r, good_prefix_loop crc32c_append fuel buf offset = Some r.
Proof.
  intros Hb. revert offset. induction fuel as [|fuel IH]; intros offset Hf; [lia|]. cbn [good_prefix_loop].
  destruct (Nat.ltb_spec offset (length buf)) as [Hlt|]; cbn [negb]; [|by eauto].
  destruct (record_decode _ _) as [[r used]|e] eqn:Hd.
  - apply record_decode_Ok in Hd as (Hr & _ & Hused & Hle); [|by apply Forall_drop].
    pose proof (record_bytes_nonempty r) as Hne. unfold RECORD_HEADER_SIZE in Hne.
    unfold checked_segment_offset. destruct (_ <? _); [|by eauto]. apply IH. lia.
  - destruct e; try (by eauto).
    destruct (crc_mismatch_is_at_segment_tail buf offset) as [[]|]; by eauto.
Qed.

(** The error of the repair is the one recovery stops with. *)
Lemma good_prefix_Err {S} (apply : S -> WalRecord -> S * result unit RecoveryError) f fuel buf offset e st :
  (forall s r, apply s r = (f s r, Ok tt)) ->
  Forall is_byte buf -> (offset <= length buf)%nat -> Z.of_nat (length buf) < U64 ->
  sc_last_good st = sc_stream_pos st -> 0 <= sc_count st <= sc_stream_pos st ->
  sc_stream_pos st + Z.of_nat (length buf - offset) < U64 ->
  good_prefix_loop crc32c_append fuel buf offset = Some (Err e) ->
  exists s', scan_segment crc32c_append display_recovery display_payload apply fuel RecoveryTarget_none
               true buf offset st = ScanReturn s' (Err e).
Proof.
  intros Hf Hb. revert offset st. induction fuel as [|fuel IH]; intros offset st Ho Hlen Hg Hc Hpos; [done|].
  cbn [good_prefix_loop scan_segment].
  destruct (Nat.ltb_spec offset (length buf)) as [Hlt|Hge]; cbn [negb]; [|done].
  destruct (record_decode _ _) as [[r used]|e0] eqn:Hd.
  - apply record_decode_Ok in Hd as (Hr & Hbytes & -> & Hle); [|by apply Forall_drop].
    rewrite length_drop in Hle. unfold checked_segment_offset at 1.
    rewrite (proj2 (Z.ltb_lt _ _)) by lia.
    rewrite scan_record_log by lia.
    pose proof (log_replay_all display_recovery display_payload apply f (sc_stream_pos st) [r] (sc_applied st) Hf) as Hw.
    unfold log_replay in Hw.
    pose proof (record_bytes_nonempty r) as Hne. unfold RECORD_HEADER_SIZE in Hne.
    destruct (log_walk _ _ _ _ _ [r] _) as [s res|s pos] eqn:Ew.
    + exfalso. revert Ew. cbn [log_walk]. unfold replay_decision.
      cbn [target_lsn target_xid target_time_micros RecoveryTarget_none]. rewrite Hf.
      destruct (negb _); [|rewrite bool_decide_false by done]; done.
    + apply log_walk_through in Ew. rewrite log_len_single in Ew.
      intros He. apply IH; cbn [sc_last_good sc_stream_pos sc_count]; try done; try lia.
  - destruct e0; try (intros [= <-]; by eauto); try done.
    destruct (crc_mismatch_is_at_segment_tail buf offset) as [[]|]; try done; intros [= <-]; by eauto.
Qed.

Lemma laid_out_snoc segs groups i g tail :
  laid_out segs groups [] -> laid_out (segs ++ [(i, log_bytes g ++ tail)]) (groups ++ [g]) tail.
Proof.
  revert groups. induction segs as [|[j b] segs IH]; intros [|g0 groups]; cbn [laid_out app]; try done.
  intros Hl. destruct segs as [|seg segs], groups as [|g1 groups].
  - cbn in *. subst b. by rewrite app_nil_r.
  - by destruct Hl as [_ []].
  - destruct Hl as [_ Hl]. by destruct seg.
  - destruct Hl as [-> Hl]. cbn [app]. split; [done|]. by apply (IH (g1 :: groups)).
Qed.

(** The segments at or above the floor, and a change of the last of them. *)
Definition live_segments (floor : WalFloor) (d : WalDir) : list (Z * list Z) :=
  List.filter (fun seg => segment_index floor <=? seg.1) (list_segments d).

Lemma filter_sorted (p : Z * list Z -> bool) l : seg_sorted l -> seg_sorted (List.filter p l).
Proof.
  unfold seg_sorted. induction l as [|x l IH]; [done|]. cbn. intros [Hs Hx]%StronglySorted_inv.
  destruct (p x); [|by apply IH]. cbn. constructor; [by apply IH|].
  rewrite Forall_fmap in Hx |- *. rewrite Forall_forall in Hx. apply Forall_forall. intros y Hy.
  apply Hx. apply list_elem_of_In. apply list_elem_of_In, List.filter_In in Hy. apply Hy.
Qed.

(** Replacing a listed file's bytes changes that entry of the listing only. *)
Lemma list_segments_replace d a i b b' z :
  list_segments d = a ++ (i, b) :: z ->
  list_segments (mk_WalDir (wd_manifest d) (<[i := b']> (wd_files d))) = a ++ (i, b') :: z.
Proof.
  intros Hl. pose proof (list_segments_listed d) as Hs. rewrite Hl in Hs.
  assert (Hs' : seg_sorted (a ++ (i, b') :: z)).
  { unfold seg_sorted in *. by rewrite fmap_app in *. }
  rewrite <- (list_segments_sorted (wd_manifest d) _ Hs'). f_equal. f_equal.
  rewrite <- (list_segments_map d), Hl. apply seg_sorted_NoDup in Hs, Hs'.
  rewrite fmap_app in Hs. cbn in Hs. apply NoDup_app in Hs as (_ & Hna & Hnz).
  assert (Hia : i ∉ a.*1) by (intros Hin; apply (Hna i Hin); set_solver).
  assert (Hperm : forall x, a ++ (i, x) :: z ≡ₚ (i, x) :: (a ++ z)) by (intros; by rewrite Permutation_middle).
  assert (Hn : forall x, NoDup ((i, x) :: (a ++ z)).*1).
  { intros x. rewrite <- Hperm, fmap_app. cbn. apply NoDup_app. split; [|done].
    rewrite fmap_app in Hs'. by apply NoDup_app in Hs' as [? _]. }
  assert (Hn' : forall x, NoDup (a ++ (i, x) :: z).*1) by (intros x; rewrite Hperm; apply Hn).
  rewrite (list_to_map_proper (M:=gmap Z) (a ++ (i, b) :: z) ((i, b) :: (a ++ z))) by done.
  rewrite (list_to_map_proper (M:=gmap Z) (a ++ (i, b') :: z) ((i, b') :: (a ++ z))) by done.
  cbn. by rewrite insert_insert_eq.
Qed.

Lemma filter_snoc_inv {A} (p : A -> bool) l x k :
  List.filter p l = k ++ [x] ->
  exists l1 l2, l = l1 ++ x :: l2 /\ List.filter p l1 = k /\ List.filter p l2 = [] /\ p x = true.
Proof.
  revert k. induction l as [|y l IH]; intros k; cbn; [by destruct k|].
  destruct (p y) eqn:Hp.
  - destruct k as [|z k]; cbn; intros [= -> Hr].
    + exists [], l. by repeat split.
    + destruct (IH k Hr) as (l1 & l2 & -> & <- & H2 & H3). exists (z :: l1), l2. cbn. by rewrite Hp.
  - intros Hr. destruct (IH k Hr) as (l1 & l2 & -> & <- & H2 & H3). exists (y :: l1), l2. cbn. by rewrite Hp.
Qed.

Lemma live_segments_replace floor d init i b b' :
  live_segments floor d = init ++ [(i, b)] ->
  live_segments floor (mk_WalDir (wd_manifest d) (<[i := b']> (wd_files d))) = init ++ [(i, b')].
Proof.
  unfold live_segments. intros (l1 & l2 & Hl & <- & H2 & Hp)%filter_snoc_inv.
  rewrite (list_segments_replace d l1 i b b' l2 Hl). rewrite List.filter_app. cbn in *. by rewrite Hp, H2.
Qed.
End repair.

(** ** Images of the log on disk *)

(** A directory that holds the groups of records [groups] above its floor, one
    segment per group, followed by torn residue, within the size limit of the
    recovery reader and the LSN space. *)
Record wal_image (crc32c_append : Z -> list Z -> Z) (crc32c : list Z -> Z) (limit : Z) (d : WalDir)
    (floor : WalFloor) (groups : list (list WalRecord)) (tail : list Z) : Prop := {
  wi_floor : read_floor crc32c d = Ok floor;
  wi_laid : laid_out (live_segments floor d) groups tail;
  wi_ok : Forall (Forall (record_ok crc32c_append)) groups;
  wi_torn : torn_tail crc32c_append tail;
  wi_size : Forall (fun seg => Z.of_nat (length seg.2) <= limit) (live_segments floor d);
  wi_limit : limit < U64;
  wi_start : 0 <= floor_lsn floor;
  wi_end : floor_lsn floor + log_len (concat groups) < U64;
}.

Section targets.
Context (display_recovery : RecoveryError -> string) (display_payload : PayloadError -> string).
Context {S : Type} (apply : S -> WalRecord -> S * result unit RecoveryError) (f : S -> WalRecord -> S).
Context (Hf : forall s r, apply s r = (f s r, Ok tt)).

Definition is_commit (r : WalRecord) : bool := bool_decide (record_type (rec_header r) = Commit).

Definition commit_of (x : Xid) (r : WalRecord) : bool := is_commit r && (rec_xid (rec_header r) =? x).

Definition commit_after (t : Z) (r : WalRecord) : bool :=
  is_commit r && match CommitPayload_decode (rec_payload r) with
                 | Ok p => t <? commit_timestamp_micros p
                 | Err _ => false
                 end.

Definition ends_after (t : Lsn) (lr : Lsn * WalRecord) : bool :=
  t <? lr.1 + Z.of_nat (length (record_bytes lr.2)).

Lemma recover_image crc32c_append crc32c limit d floor groups tail target s :
  wal_image crc32c_append crc32c limit d floor groups tail ->
  (forall t, target_lsn target = Some t -> floor_lsn floor <= t) ->
  recover_with_target crc32c_append crc32c limit display_recovery display_payload apply d target s =
    Some (log_replay display_recovery display_payload apply target (floor_lsn floor) (concat groups) s).
Proof. intros [] Ht. by eapply recover_refines. Qed.

Lemma replay_lsn_target t pos rs s :
  let k := default (length rs) (position (ends_after t) (log_at pos rs)) in
  log_replay display_recovery display_payload apply (up_to_lsn t) pos rs s =
    (foldl f s (take k rs), Ok (pos + log_len (take k rs))).
Proof.
  unfold log_replay. revert pos s. induction rs as [|r rs IH]; intros pos s.
  { cbn. rewrite log_len_nil. do 2 f_equal. lia. }
  cbn [log_at position log_walk length target_lsn up_to_lsn].
  assert (ends_after t (pos, r) = (t <? pos + Z.of_nat (length (record_bytes r)))) as -> by done.
  destruct (t <? _) eqn:E; cbn [default take].
  { cbn. rewrite log_len_nil. do 2 f_equal. lia. }
  assert (replay_decision display_payload r (up_to_lsn t) = Ok Continue) as ->.
  { unfold replay_decision. cbn. by destruct (negb _). }
  rewrite Hf, bool_decide_false by done. cbn beta iota zeta.
  specialize (IH (pos + Z.of_nat (length (record_bytes r))) (f s r)).
  destruct (position _ _) as [k|]; cbn in *;
    rewrite IH, log_len_cons; do 2 f_equal; lia.
Qed.

Lemma replay_xid_target x pos rs s :
  log_replay display_recovery display_payload apply (up_to_xid x) pos rs s =
    match position (commit_of x) rs with
    | Some k => (foldl f s (take (Datatypes.S k) rs), Ok (pos + log_len (take (Datatypes.S k) rs)))
    | None => (foldl f s rs, Err (TargetXidNotFound x))
    end.
Proof.
  unfold log_replay. revert pos s. induction rs as [|r rs IH]; intros pos s; [done|].
  cbn [position log_walk target_lsn up_to_xid].
  assert (replay_decision display_payload r (up_to_xid x) =
    Ok (if commit_of x r then StopAfterRecord else Continue)) as ->.
  { unfold replay_decision, commit_of, is_commit. cbn.
    destruct (bool_decide (record_type _ = Commit)); cbn; [|done].
    destruct (Z.eqb_spec (rec_xid (rec_header r)) x) as [->|];
      [by rewrite bool_decide_true|by rewrite bool_decide_false by congruence]. }
  destruct (commit_of x r); cbn beta iota; rewrite Hf; cbn beta iota.
  - rewrite bool_decide_true by done. cbn [take foldl]. by rewrite log_len_single.
  - rewrite bool_decide_false by done. rewrite IH.
    destruct (position _ rs) as [k|]; cbn; [|done].
    rewrite log_len_cons. do 2 f_equal. lia.
Qed.

Lemma replay_time_target t pos rs s :
  Forall (fun r => is_commit r = true -> is_ok (CommitPayload_decode (rec_payload r)) = true) rs ->
  let k := default (length rs) (position (commit_after t) rs) in
  log_replay display_recovery display_payload apply (up_to_time_micros t) pos rs s =
    (foldl f s (take k rs), Ok (pos + log_len (take k rs))).
Proof.
  unfold log_replay. intros Hd. revert pos s. induction Hd as [|r rs Hr Hd IH]; intros pos s.
  { cbn. rewrite log_len_nil. do 2 f_equal. lia. }
  cbn [position log_walk target_lsn up_to_time_micros length].
  assert (replay_decision display_payload r (up_to_time_micros t) =
    Ok (if commit_after t r then StopBeforeRecord else Continue)) as ->.
  { unfold replay_decision, commit_after, is_commit in *.
    cbn [target_time_micros target_xid up_to_time_micros].
    destruct (bool_decide (record_type _ = Commit)); cbn [negb andb]; [|done].
    specialize (Hr eq_refl). destruct (CommitPayload_decode _) as [p|]; [|done].
    destruct (t <? _); [done|]. by rewrite bool_decide_false. }
  destruct (commit_after t r); cbn [default take].
  { cbn. rewrite log_len_nil. do 2 f_equal. lia. }
  cbn beta iota. rewrite Hf, bool_decide_false by done. cbn beta iota zeta.
  specialize (IH (pos + Z.of_nat (length (record_bytes r))) (f s r)).
  destruct (position _ _) as [k|]; cbn in *;
    rewrite IH, log_len_cons; do 2 f_equal; lia.
Qed.
End targets.

Lemma image_snoc crc32c_append crc32c limit d floor init i g groups tail :
  read_floor crc32c d = Ok floor ->
  live_segments floor d = init ++ [(i, log_bytes g ++ tail)] ->
  laid_out init groups [] -> Forall (Forall (record_ok crc32c_append)) groups ->
  Forall (record_ok crc32c_append) g -> torn_tail crc32c_append tail ->
  Forall (fun seg => Z.of_nat (length seg.2) <= limit) (live_segments floor d) -> limit < U64 ->
  0 <= floor_lsn floor -> floor_lsn floor + log_len (concat groups ++ g) < U64 ->
  wal_image crc32c_append crc32c limit d floor (groups ++ [g]) tail.
Proof.
  intros Hf Hl Hg Hok Hgok Ht Hs Hlim H0 Hend. split; try done.
  - rewrite Hl. by apply laid_out_snoc.
  - apply Forall_app. by split; [|constructor].
  - rewrite concat_app. cbn. by rewrite app_nil_r.
Qed.

Lemma scan_segments_through crc32c_append limit dr dp {S} (apply : S -> WalRecord -> S * result unit RecoveryError)
    f init seg groups pos s c :
  (forall s r, apply s r = (f s r, Ok tt)) ->
  laid_out init groups [] -> Forall (Forall (record_ok crc32c_append)) groups ->
  Forall (fun seg => Z.of_nat (length seg.2) <= limit) init -> limit < U64 ->
  0 <= c <= pos -> pos + log_len (concat groups) < U64 ->
  exists c', 0 <= c' <= pos + log_len (concat groups) /\
  scan_segments crc32c_append limit dr dp apply RecoveryTarget_none (init ++ [seg]) (mk_scan s pos pos c) =
  scan_segments crc32c_append limit dr dp apply RecoveryTarget_none [seg]
    (mk_scan (foldl f s (concat groups)) (pos + log_len (concat groups)) (pos + log_len (concat groups)) c').
Proof.
  intros Hf Hl Hok Hsz Hlim. revert groups pos s c Hl Hok.
  induction Hsz as [|[j b] init Hb Hsz IH]; intros [|g groups] pos s c Hl Hok Hc Hpos; try done.
  { exists c. cbn [concat]. rewrite log_len_nil, Z.add_0_r. by split. }
  apply Forall_cons in Hok as [Hgok Hok]. cbn [concat] in *. rewrite log_len_app in Hpos.
  pose proof (log_len_nonneg (concat groups)) as Hn.
  assert (b = log_bytes g /\ laid_out init groups []) as [-> Hl'].
  { destruct init as [|x init], groups as [|g1 groups]; cbn [laid_out] in Hl.
    - subst b. by rewrite app_nil_r.
    - by destruct Hl as [_ []].
    - destruct Hl as [_ Hl]. by destruct x.
    - done. }
  assert (Hcount : (length g <= length (log_bytes g))%nat).
  { clear. induction g as [|r g IHg]; [done|]. rewrite log_bytes_cons, length_app. cbn [length].
    pose proof (record_bytes_nonempty r). unfold RECORD_HEADER_SIZE in *. lia. }
  assert (log_len g = Z.of_nat (length (log_bytes g))) as Hgl by done.
  cbn [app scan_segments snd] in *. unfold read_segment_bytes at 1.
  rewrite (proj2 (Z.ltb_ge _ _) Hb).
  pose proof (scan_segment_log crc32c_append dr dp apply (Datatypes.S (length (log_bytes g)))
    RecoveryTarget_none false [] g [] (mk_scan s pos pos c)) as Hs.
  cbn [app length sc_stream_pos sc_last_good sc_applied sc_count] in Hs. rewrite app_nil_r in Hs.
  replace (match init ++ [seg] with [] => true | _ :: _ => false end) with false by (by destruct init).
  rewrite Hs by (try done; try lia; by left). clear Hs.
  pose proof (log_replay_all dr dp apply f pos g s Hf) as Hw. unfold log_replay in Hw.
  destruct (log_walk _ _ _ _ _ g _) as [s1 res|s1 pos1] eqn:Ew.
  { exfalso. revert Ew Hf. clear. intros Ew Hf. revert pos s Ew.
    induction g as [|r g IH]; intros pos s; cbn [log_walk]; [done|].
    unfold replay_decision. cbn [target_lsn target_xid target_time_micros RecoveryTarget_none].
    rewrite Hf. destruct (negb _); [|rewrite bool_decide_false by done]; cbn; apply IH. }
  injection Hw as -> Hp. rewrite decide_True by done. rewrite Hp.
  destruct (IH groups (pos + log_len g) (foldl f s g) (c + Z.of_nat (length g))) as (c' & Hc' & ->);
    try done; try lia.
  exists c'. rewrite log_len_app, foldl_app, Z.add_assoc. split; [lia|done].
Qed.

(** A final segment the repair refuses is one recovery fails on. *)
Lemma recover_bad_final crc32c_append crc32c limit dr dp d floor init i buf groups
    {S} (apply : S -> WalRecord -> S * result unit RecoveryError) f s e :
  read_floor crc32c d = Ok floor -> live_segments floor d = init ++ [(i, buf)] ->
  laid_out init groups [] -> Forall (Forall (record_ok crc32c_append)) groups ->
  Forall (fun seg => Z.of_nat (length seg.2) <= limit) (init ++ [(i, buf)]) -> limit < U64 ->
  Forall is_byte buf -> 0 <= floor_lsn floor ->
  floor_lsn floor + log_len (concat groups) + Z.of_nat (length buf) < U64 ->
  (forall s r, apply s r = (f s r, Ok tt)) ->
  good_prefix_len crc32c_append buf = Some (Err e) ->
  exists s', recover crc32c_append crc32c limit dr dp apply d s = Some (s', Err e).
Proof.
  intros Hfl Hl Hg Hok [Hsi [Hsb _]%Forall_cons]%Forall_app Hlim Hb H0 Hend Hf Hr. cbn [snd] in Hsb.
  pose proof (log_len_nonneg (concat groups)).
  unfold recover, recover_with_target. rewrite Hfl. cbn [target_lsn RecoveryTarget_none].
  fold (live_segments floor d). rewrite Hl.
  destruct (scan_segments_through crc32c_append limit dr dp apply f init (i, buf) groups
    (floor_lsn floor) s 0) as (c' & Hc' & Hs); try done; try lia.
  destruct (init ++ [(i, buf)]) as [|x l] eqn:El; [by destruct init|]. rewrite Hs.
  cbn [scan_segments]. unfold read_segment_bytes. rewrite (proj2 (Z.ltb_ge _ _) Hsb).
  destruct (good_prefix_Err crc32c_append dr dp apply f (Datatypes.S (length buf)) buf 0 e
    (mk_scan (foldl f s (concat groups)) (floor_lsn floor + log_len (concat groups))
       (floor_lsn floor + log_len (concat groups)) c')) as [s' ->];
    cbn [sc_last_good sc_stream_pos sc_count]; try done; try lia. by exists s'.
Qed.

(** ** Properties *)

(** C5. Recovery replays exactly the log. On any directory that holds whole
    records above its floor, however they are split into segments and whatever
    torn residue (a cut record, or one whose CRC fails at the very end) follows
    the last of them, and with any applier that does not fail, the scan ends,
    every record is applied once and in order, nothing of the residue is, and
    the returned LSN is the end of the last whole record. *)
Theorem recovery_replays_log crc32c_append crc32c limit dr dp d floor groups tail
    {S} (apply : S -> WalRecord -> S * result unit RecoveryError) (f : S -> WalRecord -> S) (s : S) :
  wal_image crc32c_append crc32c limit d floor groups tail ->
  (forall s r, apply s r = (f s r, Ok tt)) ->
  recover crc32c_append crc32c limit dr dp apply d s =
    Some (foldl f s (concat groups), Ok (floor_lsn floor + log_len (concat groups))).
Proof.
  intros Hi Hf. unfold recover.
  rewrite (recover_image dr dp apply crc32c_append crc32c limit d floor groups tail) by done.
  by rewrite (log_replay_all dr dp apply f).
Qed.

(** The point-in-time targets stop exactly where they promise. With an
    LSN target the applied records are the longest prefix of the log ending at
    or below it (and a target below the floor is refused before anything is
    applied); with a transaction target they run through the first commit
    record of that transaction, and a transaction without one is an error;
    with a time target they stop before the first commit newer than it. In
    each case the returned LSN is the end of the last applied record. *)
Theorem recovery_targets_exact crc32c_append crc32c limit dr dp d floor groups tail
    {S} (apply : S -> WalRecord -> S * result unit RecoveryError) (f : S -> WalRecord -> S) (s : S) :
  wal_image crc32c_append crc32c limit d floor groups tail ->
  (forall s r, apply s r = (f s r, Ok tt)) ->
  let rec_to target := recover_with_target crc32c_append crc32c limit dr dp apply d target s in
  let rs := concat groups in
  let base := floor_lsn floor in
  (forall t, rec_to (up_to_lsn t) =
     if t <? base then Some (s, Err (TargetBeforeFloor t base)) else
     let k := default (length rs) (position (ends_after t) (log_at base rs)) in
     Some (foldl f s (take k rs), Ok (base + log_len (take k rs)))) /\
  (forall x, rec_to (up_to_xid x) =
     match position (commit_of x) rs with
     | Some k => Some (foldl f s (take (Datatypes.S k) rs), Ok (base + log_len (take (Datatypes.S k) rs)))
     | None => Some (foldl f s rs, Err (TargetXidNotFound x))
     end) /\
  (Forall (fun r => is_commit r = true -> is_ok (CommitPayload_decode (rec_payload r)) = true) rs ->
   forall t, rec_to (up_to_time_micros t) =
     let k := default (length rs) (position (commit_after t) rs) in
     Some (foldl f s (take k rs), Ok (base + log_len (take k rs)))).
Proof.
  intros Hi Hf rec_to rs base.
  assert (Hrec : forall target, (forall t, target_lsn target = Some t -> base <= t) ->
    rec_to target = Some (log_replay dr dp apply target base rs s)).
  { intros target Ht. by apply (recover_image dr dp apply crc32c_append crc32c limit d floor groups tail). }
  split; [|split].
  - intros t. destruct (Z.ltb_spec t base) as [Hlt|Hge].
    + unfold rec_to, recover_with_target. rewrite (wi_floor _ _ _ _ _ _ _ Hi). cbn [target_lsn up_to_lsn].
      replace (t <? floor_lsn floor) with true by (symmetry; by apply Z.ltb_lt). done.
    + rewrite Hrec by (intros ? [= <-]; done). by rewrite (replay_lsn_target dr dp apply f Hf).
  - intros x. rewrite Hrec by done. rewrite (replay_xid_target dr dp apply f Hf). by destruct (position _ _).
  - intros Hd t. rewrite Hrec by done. by rewrite (replay_time_target dr dp apply f Hf).
Qed.

(** C36. The repair and recovery agree on where the log ends, for every
    possible content of the final segment. Where recovery fails on it the
    repair fails with the same error and leaves the directory alone; where
    recovery succeeds the repair trims exactly the bytes recovery ignored,
    leaving segments of whole records with no residue, so the segment stays
    recoverable when it is no longer the final one and replaying the repaired
    directory gives what replaying the original gave. *)
Theorem repair_agrees_with_recovery crc32c_append crc32c limit dr dp d floor init i buf groups
    {S} (apply : S -> WalRecord -> S * result unit RecoveryError) (f : S -> WalRecord -> S) (s : S) :
  read_floor crc32c d = Ok floor ->
  live_segments floor d = init ++ [(i, buf)] ->
  laid_out init groups [] -> Forall (Forall (record_ok crc32c_append)) groups ->
  Forall (fun seg => Z.of_nat (length seg.2) <= limit) (init ++ [(i, buf)]) -> limit < U64 ->
  Forall is_byte buf -> 0 <= floor_lsn floor ->
  floor_lsn floor + log_len (concat groups) + Z.of_nat (length buf) < U64 ->
  (forall s r, apply s r = (f s r, Ok tt)) ->
  match repair_final_segment_tail crc32c_append crc32c limit d with
  | None => False
  | Some (Err e, d') =>
      d' = d /\ exists s', recover crc32c_append crc32c limit dr dp apply d s = Some (s', Err e)
  | Some (Ok trimmed, d') =>
      exists rs, Forall (record_ok crc32c_append) rs /\
        buf = log_bytes rs ++ drop (length (log_bytes rs)) buf /\
        trimmed = (if (length (log_bytes rs) =? length buf)%nat then None
                   else Some (Z.of_nat (length buf - length (log_bytes rs)))) /\
        live_segments floor d' = init ++ [(i, log_bytes rs)] /\
        wal_image crc32c_append crc32c limit d' floor (groups ++ [rs]) [] /\
        let out := Some (foldl f s (concat groups ++ rs),
                         Ok (floor_lsn floor + log_len (concat groups ++ rs))) in
        recover crc32c_append crc32c limit dr dp apply d s = out /\
        recover crc32c_append crc32c limit dr dp apply d' s = out
  end.
Proof.
  intros Hfl Hl Hg Hok Hsz Hlim Hb H0 Hend Hf.
  unfold repair_final_segment_tail. rewrite Hfl. fold (live_segments floor d).
  rewrite Hl, last_snoc. pose proof Hsz as [Hsi [Hsb _]%Forall_cons]%Forall_app. cbn [snd] in Hsb.
  unfold read_segment_bytes. rewrite (proj2 (Z.ltb_ge _ _) Hsb).
  pose proof (log_len_nonneg (concat groups)).
  destruct (good_prefix_total crc32c_append (Datatypes.S (length buf)) buf 0 Hb ltac:(lia)) as [r Hr].
  unfold good_prefix_len. rewrite Hr. destruct r as [n|e].
  - destruct (good_prefix_Ok crc32c_append _ buf 0 n Hb ltac:(lia) ltac:(lia) Hr)
      as (rs & Hrs & Hbuf & Hn & Hle & Ht). rewrite drop_0 in Hbuf. cbn in Hn. subst n.
    assert (Htake : take (length (log_bytes rs)) buf = log_bytes rs).
    { rewrite Hbuf at 1. apply take_app_length. }
    assert (Hlen : log_len rs <= Z.of_nat (length buf)) by (unfold log_len; lia).
    assert (Himg : wal_image crc32c_append crc32c limit d floor (groups ++ [rs])
                     (drop (length (log_bytes rs)) buf)).
    { apply (image_snoc _ _ _ _ _ init i); try done; [by rewrite Hl, <- Hbuf|by rewrite Hl|].
      rewrite log_len_app. lia. }
    set (d1 := mk_WalDir (wd_manifest d) (<[i := take (length (log_bytes rs)) buf]> (wd_files d))).
    assert (Hl1 : live_segments floor d1 = init ++ [(i, log_bytes rs)]).
    { unfold d1. rewrite Htake. by eapply live_segments_replace. }
    assert (Himg1 : wal_image crc32c_append crc32c limit d1 floor (groups ++ [rs]) []).
    { apply (image_snoc _ _ _ _ _ init i); try done; [by rewrite app_nil_r|by left| |].
      - rewrite Hl1. apply Forall_app. split; [done|]. constructor; [|done]. cbn. unfold log_len in *. lia.
      - rewrite log_len_app. lia. }
    assert (Hcat : concat (groups ++ [rs]) = concat groups ++ rs)
      by (rewrite concat_app; cbn; by rewrite app_nil_r).
    assert (Hrec : forall d0 tl, wal_image crc32c_append crc32c limit d0 floor (groups ++ [rs]) tl ->
      recover crc32c_append crc32c limit dr dp apply d0 s =
        Some (foldl f s (concat groups ++ rs), Ok (floor_lsn floor + log_len (concat groups ++ rs)))).
    { intros d0 tl Hi. unfold recover. rewrite (recover_image dr dp apply _ _ _ _ _ _ _ _ _ Hi) by done.
      by rewrite (log_replay_all dr dp apply f), Hcat. }
    destruct (Z.leb_spec (Z.of_nat (length buf)) (Z.of_nat (length (log_bytes rs)))) as [Hfull|Hcut].
    + assert (Heq : length (log_bytes rs) = length buf) by lia.
      assert (Hnil : drop (length (log_bytes rs)) buf = []) by (apply drop_ge; lia).
      rewrite Hnil in Himg. exists rs. rewrite (proj2 (Nat.eqb_eq _ _) Heq).
      split; [done|]. split; [done|]. split; [done|]. split.
      { rewrite Hl. rewrite Hbuf at 1. by rewrite Hnil, app_nil_r. }
      split; [done|]. split; by eapply Hrec.
    + exists rs. rewrite (proj2 (Nat.eqb_neq _ _)) by lia.
      split; [done|]. split; [done|]. split; [do 2 f_equal; lia|]. split; [done|].
      split; [done|]. split; by eapply Hrec.
  - split; [done|]. by eapply recover_bad_final.
Qed.

(** A log of four records over two segments, the last one cut. *)
Definition sample_rec (t : RecordType) (x : Xid) (payload : list Z) : WalRecord :=
  mk_WalRecord (with_crc (mk_WalRecordHeader (28 + Z.of_nat (length payload)) 0 0 x t 0)
    (compute_record_crc sum_crc (mk_WalRecordHeader (28 + Z.of_nat (length payload)) 0 0 x t 0) payload))
    payload.

Lemma sample_rec_ok t x payload :
  in_width U64 x -> 28 + Z.of_nat (length payload) <= MAX_RECORD_BYTES ->
  record_ok sum_crc (sample_rec t x payload).
Proof.
  intros Hx Hl. split; unfold sample_rec; cbn [rec_header rec_payload with_crc total_length rec_crc];
    [|unfold RECORD_HEADER_SIZE; lia|done|reflexivity].
  split; cbn [with_crc total_length rec_crc prev_lsn rec_xid rec_flags]; try done; [|apply sum_crc_u32].
  pose proof MAX_below_U32. unfold in_width. lia.
Qed.

Ltac sample_records :=
  repeat first [apply Forall_nil_2 | apply Forall_cons_2];
  (apply sample_rec_ok; [by split|vm_compute; congruence]).

Definition sample_groups : list (list WalRecord) :=
  [[sample_rec HeapInsert 7 [1; 2; 3]; sample_rec HeapInsert 8 [4]];
   [sample_rec Commit 7 (le_encode 8 5 ++ le_encode 8 1000)]].

Definition sample_tail : list Z := take 30 (record_bytes (sample_rec Abort 8 (le_encode 8 0))).

Definition sample_dir : WalDir :=
  mk_WalDir (Some (floor_bytes (sum_crc 0) (mk_WalFloor 3 4096)))
    (list_to_map [(1, [9; 9; 9]); (3, log_bytes (nth 0 sample_groups []));
                  (4, log_bytes (nth 1 sample_groups []) ++ sample_tail)]).

Lemma sample_image : wal_image sum_crc (sum_crc 0) 1000 sample_dir (mk_WalFloor 3 4096) sample_groups sample_tail.
Proof.
  split.
  - vm_compute. reflexivity.
  - vm_compute. by split.
  - sample_records.
  - apply torn_prefix; [sample_records|]. vm_compute. lia.
  - vm_compute. repeat constructor; congruence.
  - done.
  - done.
  - vm_compute. reflexivity.
Qed.

Definition collect (l : list WalRecord) (r : WalRecord) : list WalRecord * result unit RecoveryError :=
  (l ++ [r], Ok tt).

Lemma recovery_replays_log_witness :
  recover sum_crc (sum_crc 0) 1000 (fun _ => "error"%string) (fun _ => "error"%string) collect sample_dir [] =
    Some (foldl (fun l r => l ++ [r]) [] (concat sample_groups), Ok (4096 + log_len (concat sample_groups))).
Proof.
  apply (recovery_replays_log sum_crc (sum_crc 0) 1000 _ _ sample_dir (mk_WalFloor 3 4096) sample_groups
    sample_tail collect); [apply sample_image|done].
Defined.

Lemma recovery_targets_exact_witness :
  let rec_to target := recover_with_target sum_crc (sum_crc 0) 1000 (fun _ => "error"%string)
    (fun _ => "error"%string) collect sample_dir target [] in
  rec_to (up_to_lsn 4155) = Some (take 1 (concat sample_groups), Ok 4127) /\
  rec_to (up_to_xid 7) = Some (concat sample_groups, Ok 4200) /\
  rec_to (up_to_xid 9) = Some (concat sample_groups, Err (TargetXidNotFound 9)) /\
  rec_to (up_to_time_micros 999) = Some (take 2 (concat sample_groups), Ok 4156).
Proof.
  destruct (recovery_targets_exact sum_crc (sum_crc 0) 1000 (fun _ => "error"%string) (fun _ => "error"%string)
    sample_dir (mk_WalFloor 3 4096) sample_groups sample_tail collect (fun l r => l ++ [r]) []
    sample_image (fun s r => eq_refl)) as (H1 & H2 & H3).
  cbn beta zeta in *. rewrite H1, !H2, H3.
  - vm_compute. repeat split.
  - repeat constructor; vm_compute; congruence.
Defined.

Lemma repair_agrees_with_recovery_witness :
  match repair_final_segment_tail sum_crc (sum_crc 0) 1000 sample_dir with
  | Some (Ok (Some n), d') =>
      n = 30 /\
      recover sum_crc (sum_crc 0) 1000 (fun _ => "error"%string) (fun _ => "error"%string) collect d' [] =
      recover sum_crc (sum_crc 0) 1000 (fun _ => "error"%string) (fun _ => "error"%string) collect sample_dir []
  | _ => False
  end.
Proof.
  pose proof (repair_agrees_with_recovery sum_crc (sum_crc 0) 1000 (fun _ => "error"%string) (fun _ => "error"%string)
    sample_dir (mk_WalFloor 3 4096) [(3, log_bytes (nth 0 sample_groups []))] 4
    (log_bytes (nth 1 sample_groups []) ++ sample_tail) [nth 0 sample_groups []] collect
    (fun l r => l ++ [r]) []) as H.
  assert (Hn : exists d', repair_final_segment_tail sum_crc (sum_crc 0) 1000 sample_dir = Some (Ok (Some 30), d'))
    by (eexists; vm_compute; reflexivity).
  destruct Hn as [d' Hn]. rewrite Hn in *.
  destruct H as (rs & _ & _ & _ & _ & _ & H1 & H2);
    [vm_compute; reflexivity|vm_compute; reflexivity|done| | |done| |done|vm_compute; reflexivity|done|].
  - sample_records.
  - vm_compute. repeat constructor; congruence.
  - vm_compute. repeat constructor; congruence.
  - split; [done|]. by rewrite H1, H2.
Defined.
