(* ===== verification/WalWriter.v ===== *)
(** * The WAL writer (ultrasql-wal, writer.rs)

    The driver of the writer thread: it drains the append buffer, splits the
    bytes at record boundaries over segment files, rotates, fsyncs and
    publishes the durable LSN. Files carry the length known to be on stable
    storage, so a crash can be stated: it keeps at least that much of each.

    File-system calls may fail. Their outcomes are drawn in order from a list
    held in the state, so the theorems quantify over every pattern of
    failures; a failed [write_all] has written some prefix of its chunk. *)

From S2P Require Import Prelude CoreIds WalRecord WalLog WalBuffer WalSegment WalPayload WalRecovery.

Inductive WalWriterError :=
| WIo
| WEncode (e : WalRecordError)
| WBuffer (e : WalBufferError)
| WSegmentIndexExhausted
| WCounterOverflow
| WPanic
| WFuel. (* not reached, see [write_loop_spec] *)

Record WalWriterConfig := mk_WalWriterConfig {
  segment_size_bytes : Z;
  fsync_batch_bytes : Z;
}.

Record seg_file := mk_seg_file { sf_bytes : list Z; sf_synced : nat }.

Inductive io_outcome := IoOk | IoFail (n : nat).

(** [WakeState] *)
Record WakeState := mk_WakeState { stopping : bool; force_fsync : bool; epoch : Z }.

(** [WriterDriver] with the state it shares: the directory, the buffer, the
    published durable LSN, the fatal flag and the wake state. *)
Record WriterDriver := mk_WriterDriver {
  w_files : list (Z * seg_file);
  w_buffer : WalBuffer;
  current_index : Z;
  current_file : bool;
  current_size : Z;
  unflushed_bytes : Z;
  pending_lsn : Lsn;
  durable_lsn : Lsn;
  shared_durable_lsn : Lsn;
  w_fatal : bool;
  w_wake : WakeState;
  w_io : list io_outcome;
}.

Definition wout (A : Type) : Type := result A WalWriterError * WriterDriver.

Notation "'letw' x ; w1 := c 'in' k" :=
  (match c with
   | (Ok x, w1) => k
   | (Err e, w1) => (Err e, w1)
   end) (at level 10, x name, w1 name, c at level 100, k at level 200) : rust_scope.

Definition next_io (w : WriterDriver) : io_outcome * WriterDriver :=
  match w_io w with
  | [] => (IoOk, w)
  | o :: io =>
      (o, mk_WriterDriver (w_files w) (w_buffer w) (current_index w) (current_file w) (current_size w)
            (unflushed_bytes w) (pending_lsn w) (durable_lsn w) (shared_durable_lsn w) (w_fatal w)
            (w_wake w) io)
  end.

Definition w_with_files (w : WriterDriver) (files : list (Z * seg_file)) : WriterDriver :=
  mk_WriterDriver files (w_buffer w) (current_index w) (current_file w) (current_size w)
    (unflushed_bytes w) (pending_lsn w) (durable_lsn w) (shared_durable_lsn w) (w_fatal w) (w_wake w) (w_io w).

Definition w_with_buffer (w : WriterDriver) (b : WalBuffer) : WriterDriver :=
  mk_WriterDriver (w_files w) b (current_index w) (current_file w) (current_size w)
    (unflushed_bytes w) (pending_lsn w) (durable_lsn w) (shared_durable_lsn w) (w_fatal w) (w_wake w) (w_io w).

Definition w_with_wake (w : WriterDriver) (k : WakeState) : WriterDriver :=
  mk_WriterDriver (w_files w) (w_buffer w) (current_index w) (current_file w) (current_size w)
    (unflushed_bytes w) (pending_lsn w) (durable_lsn w) (shared_durable_lsn w) (w_fatal w) k (w_io w).

(** The open segment: its index, whether a handle is held, its size and the
    bytes written to it since the last fsync. *)
Definition w_with_segment (w : WriterDriver) (index : Z) (file : bool) (size unflushed : Z) : WriterDriver :=
  mk_WriterDriver (w_files w) (w_buffer w) index file size unflushed (pending_lsn w) (durable_lsn w)
    (shared_durable_lsn w) (w_fatal w) (w_wake w) (w_io w).

Definition w_with_lsns (w : WriterDriver) (pending durable shared : Lsn) : WriterDriver :=
  mk_WriterDriver (w_files w) (w_buffer w) (current_index w) (current_file w) (current_size w)
    (unflushed_bytes w) pending durable shared (w_fatal w) (w_wake w) (w_io w).

Definition w_set_fatal (w : WriterDriver) : WriterDriver :=
  mk_WriterDriver (w_files w) (w_buffer w) (current_index w) (current_file w) (current_size w)
    (unflushed_bytes w) (pending_lsn w) (durable_lsn w) (shared_durable_lsn w) true (w_wake w) (w_io w).

(** The effect of a call through the open handle on its file. *)
Definition alter_file (index : Z) (g : seg_file -> seg_file) (files : list (Z * seg_file))
  : list (Z * seg_file) :=
  map (fun e => if e.1 =? index then (e.1, g e.2) else e) files.

Definition file_append (chunk : list Z) (f : seg_file) : seg_file :=
  mk_seg_file (sf_bytes f ++ chunk) (sf_synced f).

Definition file_sync (f : seg_file) : seg_file := mk_seg_file (sf_bytes f) (length (sf_bytes f)).

(** ** The driver *)

Definition take_force_fsync_if_work_pending (k : WakeState) (work_pending : bool) : bool * WakeState :=
  (force_fsync k,
   if force_fsync k && work_pending then mk_WakeState (stopping k) false (epoch k) else k).

Definition request_fsync (w : WriterDriver) : WriterDriver :=
  w_with_wake w (mk_WakeState (stopping (w_wake w)) true (wrapping_add U64 (epoch (w_wake w)) 1)).

Definition request_drain (w : WriterDriver) : WriterDriver :=
  w_with_wake w (mk_WakeState (stopping (w_wake w)) (force_fsync (w_wake w))
                   (wrapping_add U64 (epoch (w_wake w)) 1)).

Definition signal_stop (w : WriterDriver) : WriterDriver :=
  w_with_wake w (mk_WakeState true (force_fsync (w_wake w)) (wrapping_add U64 (epoch (w_wake w)) 1)).

(** [open_segment_file]: [create_new], then the fsync of the directory. A
    failure may leave the empty file behind. *)
Definition open_segment_file (w : WriterDriver) (index : Z) : wout unit :=
  if existsb (fun e => e.1 =? index) (w_files w) then (Err WIo, w) else
  let '(o, w1) := next_io w in
  let created := w_with_files w1 (w_files w1 ++ [(index, mk_seg_file [] 0)]) in
  match o with
  | IoFail n => (Err WIo, if (n =? 0)%nat then w1 else created)
  | IoOk => (Ok tt, created)
  end.

Definition ensure_segment_open (w : WriterDriver) : wout unit :=
  if current_file w then (Ok tt, w) else
  letw _u; w1 := open_segment_file w (current_index w) in
  let '(o, w2) := next_io w1 in
  match o with
  | IoFail _ => (Err WIo, w2)                      (* file.metadata() *)
  | IoOk => (Ok tt, w_with_segment w2 (current_index w2) true 0 (unflushed_bytes w2))
  end.

Definition flush_current (w : WriterDriver) : wout unit :=
  letw _u; w1 :=
    (if current_file w then
       let '(o, w1) := next_io w in
       match o with
       | IoFail _ => (Err WIo, w1)
       | IoOk => (Ok tt, w_with_files w1 (alter_file (current_index w1) file_sync (w_files w1)))
       end
     else (Ok tt, w)) in
  let w2 := w_with_segment w1 (current_index w1) (current_file w1) (current_size w1) 0 in
  let durable := pending_lsn w2 in
  match publish_durable_lsn (w_buffer w2) durable with
  | None => (Err WPanic, w_with_lsns w2 (pending_lsn w2) durable (shared_durable_lsn w2))
  | Some b => (Ok tt, w_with_lsns (w_with_buffer w2 b) (pending_lsn w2) durable durable)
  end.

Definition rotate_segment (w : WriterDriver) : wout unit :=
  letw _u; w1 := (if 0 <? unflushed_bytes w then flush_current w else (Ok tt, w)) in
  let w2 := w_with_segment w1 (current_index w1) false (current_size w1) (unflushed_bytes w1) in
  match checked_add U32 (current_index w2) 1 with
  | None => (Err WSegmentIndexExhausted, w2)
  | Some next => (Ok tt, w_with_segment w2 next false 0 (unflushed_bytes w2))
  end.

Definition peek_record_length (bytes : list Z) : result Z WalWriterError :=
  if (length bytes <? 4)%nat then Err WIo else
  let total := le_decode (take 4 bytes) in
  if total <? Z.of_nat RECORD_HEADER_SIZE then Err (WEncode (Malformed "total_length too small"))
  else Ok total.

(** [file.write_all(chunk)] through the open handle. *)
Definition file_write_all (w : WriterDriver) (chunk : list Z) : wout unit :=
  let '(o, w1) := next_io w in
  match o with
  | IoFail n => (Err WIo, w_with_files w1 (alter_file (current_index w1) (file_append (take n chunk)) (w_files w1)))
  | IoOk => (Ok tt, w_with_files w1 (alter_file (current_index w1) (file_append chunk) (w_files w1)))
  end.

Section config.
Context (config : WalWriterConfig).

(** The loop of [write_drained]; [rest] is [&bytes[cursor..]]. *)
Fixpoint write_loop (fuel : nat) (rest : list Z) (w : WriterDriver) : wout unit :=
  match fuel with
  | O => (Err WFuel, w)
  | S fuel' =>
      match rest with
      | [] => (Ok tt, w)
      | _ =>
          match peek_record_length rest with
          | Err e => (Err e, w)
          | Ok record_len =>
              letw _u; w1 := ensure_segment_open w in
              let remaining_capacity := saturating_sub (segment_size_bytes config) (current_size w1) in
              if (remaining_capacity <? record_len) && (0 <? current_size w1) then
                letw _v; w2 := rotate_segment w1 in write_loop fuel' rest w2
              else
                let n := Z.to_nat record_len in
                if (length rest <? n)%nat then (Err WIo, w1) else
                let chunk := take n rest in
                match checked_add U64 (current_size w1) record_len,
                      checked_add U64 (unflushed_bytes w1) (Z.of_nat (length chunk)) with
                | Some next_current_size, Some next_unflushed_bytes =>
                    if negb (current_file w1) then (Err WIo, w1) else
                    letw _v; w2 := file_write_all w1 chunk in
                    write_loop fuel' (drop n rest)
                      (w_with_segment w2 (current_index w2) (current_file w2) next_current_size next_unflushed_bytes)
                | _, _ => (Err WCounterOverflow, w1)
                end
          end
      end
  end.

Definition write_drained (bytes : list Z) (end_lsn : Lsn) (w : WriterDriver) : wout unit :=
  letw _u; w1 := write_loop (2 + 2 * length bytes) bytes w in
  (Ok tt, w_with_lsns w1 end_lsn (durable_lsn w1) (shared_durable_lsn w1)).

(** Drain the buffer and write what it held. *)
Definition drain_and_write (w : WriterDriver) : wout unit :=
  let '(r, bytes, b) := drain_into (w_buffer w) in
  let w1 := w_with_buffer w b in
  match r with
  | Err e => (Err (WBuffer e), w1)
  | Ok range =>
      match bytes with
      | [] => (Ok tt, w1)
      | _ => write_drained bytes (dr_end range) w1
      end
  end.

(** One iteration of the loop of [run] up to the stop check; [elapsed] says
    whether the group-commit window has passed, the result whether a stop was
    observed. *)
Definition run_iteration (elapsed : bool) (w : WriterDriver) : wout bool :=
  letw _u; w1 := drain_and_write w in
  let '(force, k) := take_force_fsync_if_work_pending (w_wake w1) (0 <? unflushed_bytes w1) in
  let w2 := w_with_wake w1 k in
  let need_fsync := (0 <? unflushed_bytes w2) &&
    (force || stopping k || (fsync_batch_bytes config <=? unflushed_bytes w2) || elapsed) in
  letw _v; w3 := (if need_fsync then flush_current w2 else (Ok tt, w2)) in
  (Ok (stopping k), w3).

(** The exit path: refuse new appends, drain what was admitted, fsync. *)
Definition run_stop (w : WriterDriver) : wout unit :=
  letw _u; w1 := drain_and_write (w_with_buffer w (close_appends (w_buffer w))) in
  if 0 <? unflushed_bytes w1 then flush_current w1 else (Ok tt, w1).
End config.

(** [WalWriter::open] after the repair: the driver resumes in a fresh
    segment and the buffer learns its drainer. *)
Definition next_segment_index (files : list (Z * seg_file)) : result Z WalWriterError :=
  match last (list_segments (mk_WalDir None (list_to_map (map (fun e => (e.1, sf_bytes e.2)) files)))) with
  | None => Ok 0
  | Some (idx, _) => ok_or (checked_add U32 idx 1) WSegmentIndexExhausted
  end.

Definition WriterDriver_new (files : list (Z * seg_file)) (b : WalBuffer) (first_index : Z)
    (io : list io_outcome) : WriterDriver :=
  mk_WriterDriver files b first_index false 0 0 (wb_durable b) (wb_durable b) (wb_durable b) false
    (mk_WakeState false false 0) io.

Definition writer_open (files : list (Z * seg_file)) (b : WalBuffer) (io : list io_outcome)
  : result WriterDriver WalWriterError :=
  let? idx := next_segment_index files in
  Ok (WriterDriver_new files (set_drainer b) idx io).

(** [wait_for_record_durable], one look at the state. *)
Inductive WalDurabilityWait := Durable | Fatal | TimedOut.

Definition wait_for_record_durable (w : WriterDriver) (record_start : Lsn) : WalDurabilityWait :=
  if record_start <? shared_durable_lsn w then Durable else
  if w_fatal w then Fatal else TimedOut.

(** ** The disk invariant

    [below] are files under the recovery floor, [closed] the segments written
    and left, each with its records, [cur] the records of the open segment. *)

Definition closed_file (e : Z * list WalRecord) : Z * seg_file :=
  (e.1, mk_seg_file (log_bytes e.2) (length (log_bytes e.2))).

Definition closed_log (closed : list (Z * list WalRecord)) : list WalRecord := concat (map snd closed).

Definition files_sorted (files : list (Z * seg_file)) : Prop := StronglySorted Z.lt (map fst files).

Section writer.
Context (crc32c_append : Z -> list Z -> Z) (config : WalWriterConfig) (limit : Z).
Context (Hseg : segment_size_bytes config <= limit) (Hmax : MAX_RECORD_BYTES <= limit) (Hlim : limit < U64).
Context (floor : WalFloor) (below : list (Z * seg_file)).

Definition log_ok (rs : list WalRecord) : Prop := Forall (record_ok crc32c_append) rs.

(** A position is a record boundary of the log [rs] laid from the floor. *)
Definition boundary (p : Lsn) (rs : list WalRecord) : Prop :=
  exists ps, ps `prefix_of` rs /\ p = floor_lsn floor + log_len ps.

Lemma boundary_mono p rs rs' : rs `prefix_of` rs' -> boundary p rs -> boundary p rs'.
Proof. intros Hp (ps & Hps & ->). exists ps. split; [by etrans|done]. Qed.

Lemma boundary_app p rs rs' : boundary p rs -> boundary p (rs ++ rs').
Proof. apply boundary_mono. by exists rs'. Qed.

Lemma boundary_end rs : boundary (floor_lsn floor + log_len rs) rs.
Proof. by exists rs. Qed.

(** What a crash can be survived from: every file but the last holds whole
    records and is synced, the last one holds a prefix of whole records and is
    synced up to [synced], and the log position [D] is on stable storage. *)
Record crash_ready (files : list (Z * seg_file)) (D : Lsn)
    (closed : list (Z * list WalRecord)) (full : list WalRecord) : Prop := {
  cr_last : (full = [] /\ files = below ++ map closed_file closed /\
             D <= floor_lsn floor + log_len (closed_log closed)) \/
            (exists i n synced,
               files = below ++ map closed_file closed ++
                       [(i, mk_seg_file (take n (log_bytes full)) synced)] /\
               segment_index floor <= i /\ (synced <= n)%nat /\
               D <= floor_lsn floor + log_len (closed_log closed) + Z.of_nat synced);
  cr_sorted : files_sorted files;
  cr_below : Forall (fun e : Z * seg_file => e.1 < segment_index floor) below;
  cr_above : Forall (fun e : Z * list WalRecord => segment_index floor <= e.1 /\ log_len e.2 <= limit) closed;
  cr_full : log_len full <= limit;
  cr_mark : boundary D (closed_log closed ++ full);
}.

(** The driver between two calls of its own operations. *)
Record driver_inv (w : WriterDriver) (closed : list (Z * list WalRecord)) (cur : list WalRecord) : Prop := {
  di_files :
    if current_file w then
      exists synced, (synced <= length (log_bytes cur))%nat /\
        w_files w = below ++ map closed_file closed ++
                    [(current_index w, mk_seg_file (log_bytes cur) synced)] /\
        unflushed_bytes w = log_len cur - Z.of_nat synced /\
        current_size w = log_len cur /\
        durable_lsn w <= floor_lsn floor + log_len (closed_log closed) + Z.of_nat synced
    else cur = [] /\ w_files w = below ++ map closed_file closed /\ unflushed_bytes w = 0 /\
         current_size w = 0 /\
         Forall (fun e : Z * seg_file => e.1 < current_index w) (w_files w) /\
         durable_lsn w <= floor_lsn floor + log_len (closed_log closed);
  di_index : segment_index floor <= current_index w;
  di_sorted : files_sorted (w_files w);
  di_below : Forall (fun e : Z * seg_file => e.1 < segment_index floor) below;
  di_above : Forall (fun e : Z * list WalRecord => segment_index floor <= e.1 /\ log_len e.2 <= limit) closed;
  di_cur : log_len cur <= limit;
  di_durable : wb_durable (w_buffer w) = durable_lsn w /\ shared_durable_lsn w = durable_lsn w /\
               durable_lsn w <= pending_lsn w;
  di_pending : pending_lsn w <= floor_lsn floor + log_len (closed_log closed ++ cur);
  di_marks : boundary (pending_lsn w) (closed_log closed ++ cur) /\
             boundary (durable_lsn w) (closed_log closed ++ cur);
}.

(** What no operation of the driver changes, and what only grows. *)
Record same_side (w w' : WriterDriver) : Prop := {
  ss_bytes : wb_bytes (w_buffer w') = wb_bytes (w_buffer w);
  ss_next : wb_next_lsn (w_buffer w') = wb_next_lsn (w_buffer w);
  ss_closed : wb_closed (w_buffer w') = wb_closed (w_buffer w);
  ss_cap : wb_capacity (w_buffer w') = wb_capacity (w_buffer w);
  ss_wake : w_wake w' = w_wake w;
  ss_fatal : w_fatal w' = w_fatal w;
  ss_pending : pending_lsn w' = pending_lsn w;
  ss_shared : shared_durable_lsn w <= shared_durable_lsn w';
}.

Lemma same_side_refl w : same_side w w.
Proof. by split; lia || done. Qed.

Lemma same_side_trans w1 w2 w3 : same_side w1 w2 -> same_side w2 w3 -> same_side w1 w3.
Proof. intros [] []. split; try congruence. lia. Qed.

Lemma driver_crash_ready w closed cur :
  driver_inv w closed cur -> crash_ready (w_files w) (shared_durable_lsn w) closed cur.
Proof.
  intros [Hf Hi Hs Hb Ha Hc (Hd1 & Hd2 & Hd3) Hp Hmk]. split; try done; rewrite Hd2; [|apply Hmk].
  destruct (current_file w).
  - destruct Hf as (synced & Hsy & Hf & _ & _ & Hd). right.
    exists (current_index w), (length (log_bytes cur)), synced. rewrite Hf, take_ge by lia. done.
  - destruct Hf as (-> & Hf & _ & _ & _ & Hd). left. done.
Qed.

(** An I/O outcome is consumed and nothing else changes. *)
Lemma next_io_spec w closed cur o w1 :
  next_io w = (o, w1) -> driver_inv w closed cur ->
  driver_inv w1 closed cur /\ same_side w w1 /\ current_file w1 = current_file w /\
  current_index w1 = current_index w /\ unflushed_bytes w1 = unflushed_bytes w /\
  current_size w1 = current_size w /\ w_files w1 = w_files w.
Proof.
  unfold next_io. destruct (w_io w) as [|o0 io]; intros [= <- <-] Hd.
  - split; [done|]. split; [apply same_side_refl|done].
  - split; [by destruct Hd; split|]. split; [|done]. split; done || (cbn; lia).
Qed.

Lemma sorted_last_fresh (pre : list (Z * seg_file)) i f :
  files_sorted (pre ++ [(i, f)]) -> Forall (fun e : Z * seg_file => e.1 < i) pre.
Proof.
  unfold files_sorted. induction pre as [|e pre IH]; [done|]. cbn.
  intros [Hs He]%StronglySorted_inv. constructor; [|by apply IH].
  rewrite map_app in He. apply Forall_app in He as [_ He]. by apply Forall_cons in He as [He _].
Qed.

Lemma sorted_snoc (pre : list (Z * seg_file)) i f :
  files_sorted pre -> Forall (fun e : Z * seg_file => e.1 < i) pre -> files_sorted (pre ++ [(i, f)]).
Proof.
  unfold files_sorted. induction pre as [|e pre IH]; cbn; intros Hs Hf; [by repeat constructor|].
  apply StronglySorted_inv in Hs as [Hs He]. apply Forall_cons in Hf as [Hei Hf].
  constructor; [by apply IH|]. rewrite map_app. apply Forall_app. split; [done|]. by constructor.
Qed.

Lemma alter_last (pre : list (Z * seg_file)) i f g :
  files_sorted (pre ++ [(i, f)]) -> alter_file i g (pre ++ [(i, f)]) = pre ++ [(i, g f)].
Proof.
  intros Hs%sorted_last_fresh. unfold alter_file. rewrite map_app. cbn. rewrite Z.eqb_refl. f_equal.
  induction Hs as [|e pre He Hs IH]; [done|]. cbn. rewrite IH.
  by rewrite (proj2 (Z.eqb_neq _ _)) by lia.
Qed.

Lemma files_sorted_fst (pre : list (Z * seg_file)) i f f' :
  files_sorted (pre ++ [(i, f)]) -> files_sorted (pre ++ [(i, f')]).
Proof. unfold files_sorted. by rewrite !map_app. Qed.

Lemma closed_log_snoc closed i g : closed_log (closed ++ [(i, g)]) = closed_log closed ++ g.
Proof. unfold closed_log. rewrite map_app, concat_app. cbn. by rewrite app_nil_r. Qed.

Definition flushed (w w' : WriterDriver) : Prop :=
  unflushed_bytes w' = 0 /\ durable_lsn w' = pending_lsn w /\ current_file w' = current_file w /\
  current_index w' = current_index w /\ current_size w' = current_size w.

(** A flush syncs the open segment and publishes the pending position; a
    failed one leaves the driver as it was. The publication never goes back. *)
Lemma flush_current_spec w closed cur :
  driver_inv w closed cur ->
  match flush_current w with
  | (Ok _, w') => driver_inv w' closed cur /\ same_side w w' /\ flushed w w'
  | (Err e, w') => driver_inv w' closed cur /\ same_side w w' /\ e = WIo
  end.
Proof.
  intros Hd. unfold flush_current.
  assert (Hpub : forall w1, driver_inv w1 closed cur -> publish_durable_lsn (w_buffer w1) (pending_lsn w1)
    = Some (wb_with_durable (w_buffer w1) (pending_lsn w1))).
  { intros w1 H1. unfold publish_durable_lsn. destruct (di_durable _ _ _ H1) as (-> & _ & H).
    by rewrite (proj2 (Z.leb_le _ _) H). }
  destruct (current_file w) eqn:Ef.
  - destruct (next_io w) as [o w1] eqn:Eio.
    destruct (next_io_spec w closed cur o w1 Eio Hd) as (Hd1 & Hss & Ef1 & Ei1 & Eu1 & Es1 & Efl1).
    destruct o; [|by split]. clear Hd.
    pose proof Hd1 as [Hf Hi Hs Hb Ha Hc (Hb1 & Hb2 & Hb3) Hp Hmk].
    rewrite Ef1, Ef in Hf. destruct Hf as (synced & Hsy & Hfl & Hun & Hsz & Hdu).
    assert (Halt : alter_file (current_index w1) file_sync (w_files w1) =
      below ++ map closed_file closed ++ [(current_index w1, mk_seg_file (log_bytes cur) (length (log_bytes cur)))]).
    { rewrite Hfl, app_assoc. rewrite Hfl, app_assoc in Hs. by rewrite alter_last, <- app_assoc. }
    cbn [w_with_files w_with_segment w_buffer pending_lsn current_index current_file current_size].
    rewrite Hpub by done. rewrite log_len_app in Hp. unfold log_len in *.
    split; [|split].
    + split; cbn; try done.
      * rewrite Ef1, Ef. exists (length (log_bytes cur)). unfold log_len. repeat split; try done; try lia.
      * rewrite Halt. rewrite Hfl, app_assoc in Hs. rewrite app_assoc. by eapply files_sorted_fst.
      * rewrite log_len_app. unfold log_len. lia.
      * by split; apply Hmk.
    + eapply same_side_trans; [exact Hss|]. split; cbn; try done. lia.
    + unfold flushed. cbn. destruct Hss. rewrite ss_pending0, Ef1, Ei1, Es1, Ef. done.
  - cbn [w_with_segment w_buffer pending_lsn current_index current_file current_size].
    rewrite Hpub by done. pose proof Hd as [Hf Hi Hs Hb Ha Hc (Hb1 & Hb2 & Hb3) Hp Hmk].
    rewrite Ef in Hf. destruct Hf as (-> & Hfl & Hun & Hsz & Hidx & Hdu).
    rewrite app_nil_r in Hp. split; [|split].
    + split; cbn; try done.
      * rewrite Ef. repeat split; try done.
      * by rewrite app_nil_r.
      * by split; apply Hmk.
    + split; cbn; try done. lia.
    + unfold flushed. cbn. by rewrite Ef.
Qed.

(** A failed operation leaves the disk crash-ready for a prefix of the log [A]. *)
Definition failed_at (w w' : WriterDriver) (A : list WalRecord) : Prop :=
  same_side w w' /\
  exists closed full rest, crash_ready (w_files w') (shared_durable_lsn w') closed full /\
    closed_log closed ++ full ++ rest = A.

Lemma failed_inv w w' closed cur rest :
  driver_inv w' closed cur -> same_side w w' -> failed_at w w' (closed_log closed ++ cur ++ rest).
Proof.
  intros Hd Hs. split; [done|]. exists closed, cur, rest. split; [|done]. by apply driver_crash_ready.
Qed.

Lemma failed_trans w1 w2 w3 A : same_side w1 w2 -> failed_at w2 w3 A -> failed_at w1 w3 A.
Proof. intros H1 [H2 H]. split; [by eapply same_side_trans|done]. Qed.

(** An empty file created past the end keeps everything crash-ready. *)
Lemma crash_ready_create w closed :
  driver_inv w closed [] -> current_file w = false ->
  crash_ready (w_files w ++ [(current_index w, mk_seg_file [] 0)]) (shared_durable_lsn w) closed [].
Proof.
  intros [Hf Hi Hs Hb Ha Hc (Hd1 & Hd2 & Hd3) Hp Hmk] Ef. rewrite Ef in Hf.
  destruct Hf as (_ & Hf & _ & _ & Hidx & Hdu). split; try done.
  - right. exists (current_index w), 0%nat, 0%nat. rewrite Hf, <- app_assoc. repeat split; try done. lia.
  - by apply sorted_snoc.
  - rewrite Hd2. apply Hmk.
Qed.

Lemma ensure_segment_open_spec w closed cur rest :
  driver_inv w closed cur ->
  match ensure_segment_open w with
  | (Ok _, w') => driver_inv w' closed cur /\ same_side w w' /\ current_file w' = true /\
                  current_size w' = current_size w
  | (Err e, w') => failed_at w w' (closed_log closed ++ cur ++ rest) /\ e = WIo
  end.
Proof.
  intros Hd. unfold ensure_segment_open, open_segment_file.
  destruct (current_file w) eqn:Ef; [split; [done|]; split; [apply same_side_refl|done]|].
  destruct (existsb _ _); [split; [|done]; apply failed_inv; [done|apply same_side_refl]|].
  destruct (next_io w) as [o w1] eqn:Eio.
  destruct (next_io_spec w closed cur o w1 Eio Hd) as (Hd1 & Hss & Ef1 & Ei1 & Eu1 & Es1 & Efl1).
  rewrite <- Ei1. rewrite Ef in Ef1. clear Hd.
  pose proof Hd1 as [Hf Hi Hs Hb Ha Hc (Hb1 & Hb2 & Hb3) Hp Hmk]. rewrite Ef1 in Hf.
  destruct Hf as (-> & Hfl & Hun & Hsz & Hidx & Hdu).
  set (w2 := w_with_files w1 (w_files w1 ++ [(current_index w1, mk_seg_file [] 0)])).
  assert (Hcr : crash_ready (w_files w2) (shared_durable_lsn w2) closed []) by (by apply (crash_ready_create w1)).
  assert (Hfail : forall w3, w_files w3 = w_files w2 -> same_side w1 w3 ->
    shared_durable_lsn w3 = shared_durable_lsn w2 -> failed_at w w3 (closed_log closed ++ [] ++ rest)).
  { intros w3 E1 E2 E3. split; [by eapply same_side_trans|]. exists closed, [], rest. by rewrite E1, E3. }
  assert (Hs2 : same_side w1 w2) by (split; try done; cbn; lia).
  destruct o as [|n].
  2: { split; [|done]. destruct (n =? 0)%nat; [by apply failed_inv|by apply Hfail]. }
  destruct (next_io w2) as [o2 w3] eqn:Eio2. unfold next_io in Eio2.
  assert (Hw3 : w_files w3 = w_files w2 /\ w_buffer w3 = w_buffer w2 /\ current_index w3 = current_index w2 /\
    unflushed_bytes w3 = unflushed_bytes w2 /\ pending_lsn w3 = pending_lsn w2 /\
    durable_lsn w3 = durable_lsn w2 /\ shared_durable_lsn w3 = shared_durable_lsn w2 /\
    w_wake w3 = w_wake w2 /\ w_fatal w3 = w_fatal w2).
  { destruct (w_io w2); injection Eio2 as _ <-; done. }
  destruct Hw3 as (E1 & E2 & E3 & E4 & E5 & E6 & E7 & E8 & E9).
  assert (Hs3 : same_side w1 w3) by (split; rewrite ?E2, ?E5, ?E7, ?E8, ?E9; try done; cbn; lia).
  destruct o2 as [|n]; [|split; [|done]; by apply Hfail].
  split; [|split; [|split; [done|by rewrite <- Es1, Hsz]]].
  - split; cbn; rewrite ?E1, ?E2, ?E3, ?E4, ?E5, ?E6, ?E7; cbn; try done.
    + exists 0%nat. rewrite log_bytes_nil, log_len_nil. rewrite Hfl, <- app_assoc.
      repeat split; try done; lia.
    + by apply sorted_snoc.
  - eapply same_side_trans; [exact Hss|]. destruct Hs3. by split.
Qed.

Lemma rotate_segment_spec w closed cur rest :
  driver_inv w closed cur -> current_file w = true ->
  match rotate_segment w with
  | (Ok _, w') => driver_inv w' (closed ++ [(current_index w, cur)]) [] /\ same_side w w' /\
                  current_file w' = false
  | (Err e, w') => failed_at w w' (closed_log closed ++ cur ++ rest) /\ (e = WIo \/ e = WSegmentIndexExhausted)
  end.
Proof.
  intros Hd Ef. unfold rotate_segment.
  assert (Hflush : exists r w1, (if 0 <? unflushed_bytes w then flush_current w else (Ok tt, w)) = (r, w1) /\
    driver_inv w1 closed cur /\ same_side w w1 /\
    (forall u, r = Ok u -> unflushed_bytes w1 = 0 /\ current_file w1 = true /\ current_index w1 = current_index w) /\
    (forall e, r = Err e -> e = WIo)).
  { pose proof (flush_current_spec w closed cur Hd) as H. destruct (Z.ltb_spec 0 (unflushed_bytes w)).
    - destruct (flush_current w) as [[u|e] w1]; eexists _, w1; (split; [reflexivity|]);
        destruct H as (H1 & H2 & H3); (split; [done|]; split; [done|]).
      + split; [|done]. intros _ _. destruct H3 as (? & _ & ? & ? & _). rewrite Ef in *. done.
      + split; [done|]. by intros ? [= <-].
    - eexists _, w. split; [reflexivity|]. split; [done|]. split; [apply same_side_refl|].
      split; [|done]. intros _ _. split; [|done]. pose proof (di_files _ _ _ Hd) as Hf. rewrite Ef in Hf.
      destruct Hf as (sy & ? & _ & ? & _). unfold log_len in *. lia. }
  destruct Hflush as (r & w1 & -> & Hd1 & Hss & Hok & Herr). destruct r as [u|e].
  2: { split; [by apply failed_inv|]. left. by apply Herr. }
  destruct (Hok u eq_refl) as (Hu & Ef1 & Ei). clear Hok Herr.
  pose proof Hd1 as [Hf Hi Hs Hb Ha Hc (Hb1 & Hb2 & Hb3) Hp Hmk]. rewrite Ef1 in Hf.
  destruct Hf as (sy & Hsy & Hfl & Hun & Hsz & Hdu).
  assert (sy = length (log_bytes cur)) as -> by (unfold log_len in *; lia).
  cbn [w_with_segment current_index]. unfold checked_add.
  destruct (Z.ltb_spec (current_index w1 + 1) U32) as [Hlt|].
  2: { split; [|by right]. split; [destruct Hss; by split|]. exists closed, cur, rest. split; [|done].
       apply (driver_crash_ready w1). done. }
  rewrite Ei in *. split; [|split; [destruct Hss; by split|done]].
  assert (Hfiles : w_files w1 = below ++ map closed_file (closed ++ [(current_index w, cur)])).
  { rewrite Hfl, map_app. done. }
  split; cbn; try done.
  - split; [done|]. split; [done|]. split; [lia|]. split; [done|]. split.
    + rewrite Hfl, app_assoc in *. apply sorted_last_fresh in Hs. apply Forall_app. split.
      * eapply Forall_impl; [exact Hs|]. cbn. lia.
      * constructor; [cbn; lia|done].
    + rewrite closed_log_snoc, log_len_app. unfold log_len in *. lia.
  - lia.
  - apply Forall_app. split; [done|]. constructor; [|done]. cbn. done.
  - rewrite log_len_nil. pose proof (log_len_nonneg cur). lia.
  - by rewrite closed_log_snoc, app_nil_r.
  - by rewrite closed_log_snoc, app_nil_r.
Qed.

Lemma peek_record r more :
  record_ok crc32c_append r ->
  peek_record_length (record_bytes r ++ more) = Ok (Z.of_nat (length (record_bytes r))).
Proof.
  intros Hr. unfold peek_record_length.
  pose proof (record_bytes_nonempty r) as Hne. unfold RECORD_HEADER_SIZE in Hne.
  replace (length (record_bytes r ++ more) <? 4)%nat with false
    by (symmetry; apply Nat.ltb_ge; rewrite length_app; lia).
  assert (le_decode (take 4 (record_bytes r ++ more)) = total_length (rec_header r)) as ->.
  { unfold record_bytes, encode_header. rewrite <- !app_assoc.
    rewrite take_app_le by (rewrite length_le_encode; lia).
    rewrite take_ge by (rewrite length_le_encode; lia).
    apply le_decode_encode. rewrite pow256_U32. apply Hr. }
  rewrite <- (record_bytes_length_Z crc32c_append r Hr).
  rewrite (proj2 (Z.ltb_ge _ _)); [done|]. unfold RECORD_HEADER_SIZE. lia.
Qed.

(** Writing one record to the open segment, or failing part way through. *)
Lemma file_write_all_spec w closed cur r rest :
  driver_inv w closed cur -> current_file w = true -> log_len (cur ++ [r]) <= limit ->
  match file_write_all w (record_bytes r) with
  | (Ok _, w') =>
      driver_inv (w_with_segment w' (current_index w') (current_file w') (log_len (cur ++ [r]))
                    (unflushed_bytes w + Z.of_nat (length (record_bytes r)))) closed (cur ++ [r]) /\
      same_side w w'
  | (Err e, w') => failed_at w w' (closed_log closed ++ cur ++ [r] ++ rest) /\ e = WIo
  end.
Proof.
  intros Hd Ef Hfit. unfold file_write_all. destruct (next_io w) as [o w1] eqn:Eio.
  destruct (next_io_spec w closed cur o w1 Eio Hd) as (Hd1 & Hss & Ef1 & Ei1 & Eu1 & Es1 & Efl1).
  clear Hd Eio. rewrite Ef in Ef1. pose proof Hd1 as [Hf Hi Hs Hb Ha Hc (Hb1 & Hb2 & Hb3) Hp Hmk].
  rewrite Ef1 in Hf. destruct Hf as (sy & Hsy & Hfl & Hun & Hsz & Hdu).
  assert (Halt : forall c, alter_file (current_index w1) (file_append c) (w_files w1) =
    below ++ map closed_file closed ++ [(current_index w1, mk_seg_file (log_bytes cur ++ c) sy)]).
  { intros c. rewrite Hfl, app_assoc. rewrite Hfl, app_assoc in Hs. by rewrite alter_last, <- app_assoc. }
  assert (Hsort : forall f, files_sorted (below ++ map closed_file closed ++ [(current_index w1, f)])).
  { intros f. rewrite Hfl, app_assoc in Hs. rewrite app_assoc. by eapply files_sorted_fst. }
  assert (Hlb : log_bytes (cur ++ [r]) = log_bytes cur ++ record_bytes r)
    by (by rewrite log_bytes_app, log_bytes_single).
  pose proof (log_len_nonneg cur) as Hn0.
  destruct o as [|n].
  - split; [|destruct Hss; by split].
    rewrite log_len_app, log_len_single in *.
    split; cbn; rewrite ?Ef1, ?Halt; try done.
    + exists sy. rewrite Hlb, length_app, log_len_app, log_len_single.
      repeat split; try done; unfold log_len in *; lia.
    + by rewrite log_len_app, log_len_single.
    + rewrite !log_len_app, log_len_single in *. lia.
    + rewrite app_assoc. split; apply boundary_app, Hmk.
  - split; [|done]. split; [destruct Hss; by split|]. exists closed, (cur ++ [r]), rest.
    rewrite <- !app_assoc. split; [|done]. cbn. rewrite Halt. split; try done.
    2: { rewrite Hb2, app_assoc. apply boundary_app, Hmk. }
    right. exists (current_index w1), (length (log_bytes cur) + n)%nat, sy.
    rewrite Hlb, take_app_add. repeat split; try done; try lia.
Qed.

Lemma capacity_fits w closed cur r :
  driver_inv w closed cur -> record_ok crc32c_append r -> current_file w = true ->
  (saturating_sub (segment_size_bytes config) (current_size w) <? Z.of_nat (length (record_bytes r)))
    && (0 <? current_size w) = false ->
  log_len (cur ++ [r]) <= limit.
Proof.
  intros Hd Hr Ef Hg. pose proof (di_files _ _ _ Hd) as Hf. rewrite Ef in Hf.
  destruct Hf as (sy & _ & _ & _ & Hsz & _). rewrite log_len_app, log_len_single, <- Hsz.
  pose proof (ro_max _ _ Hr). pose proof (record_bytes_length_Z _ _ Hr). pose proof (log_len_nonneg cur).
  pose proof (record_bytes_nonempty r) as Hne. unfold RECORD_HEADER_SIZE in Hne.
  unfold saturating_sub in Hg.
  destruct (Z.ltb_spec (Z.max (segment_size_bytes config - current_size w) 0) (Z.of_nat (length (record_bytes r))));
    destruct (Z.ltb_spec 0 (current_size w)); try done; lia.
Qed.

Definition write_fuel (todo : list WalRecord) (w : WriterDriver) : nat :=
  2 * length (log_bytes todo) + (if 0 <? current_size w then 1 else 0).

(** The whole loop: with enough fuel it either writes every record, in order
    and each in one segment, or fails at an I/O error or at the end of the
    segment numbers; in both cases the disk stays crash-ready. *)
Lemma write_loop_spec fuel todo w closed cur rest :
  driver_inv w closed cur -> log_ok todo -> (write_fuel todo w < fuel)%nat ->
  match write_loop config fuel (log_bytes todo) w with
  | (Ok _, w') => exists closed' cur', driver_inv w' closed' cur' /\ same_side w w' /\
                    closed_log closed' ++ cur' = closed_log closed ++ cur ++ todo /\
                    (if decide (todo = []) then w' = w else 0 < unflushed_bytes w')
  | (Err e, w') => failed_at w w' (closed_log closed ++ cur ++ todo ++ rest) /\
                   (e = WIo \/ e = WSegmentIndexExhausted)
  end.
Proof.
  revert todo w closed cur. induction fuel as [|fuel IH]; intros todo w closed cur Hd Hok Hfuel; [lia|].
  unfold write_fuel in Hfuel. cbn [write_loop]. destruct todo as [|r todo].
  { rewrite log_bytes_nil. exists closed, cur. rewrite app_nil_r. split; [done|]. by split; [apply same_side_refl|]. }
  apply Forall_cons in Hok as [Hr Hok]. rewrite log_bytes_cons in *. rewrite length_app in Hfuel.
  pose proof (record_bytes_nonempty r) as Hne. unfold RECORD_HEADER_SIZE in Hne.
  destruct (record_bytes r ++ log_bytes todo) as [|z zs] eqn:Ez.
  { apply (f_equal length) in Ez. rewrite length_app in Ez. cbn in Ez. lia. }
  rewrite <- Ez. clear Ez z zs. rewrite peek_record by done.
  pose proof (ensure_segment_open_spec w closed cur ((r :: todo) ++ rest) Hd) as He.
  destruct (ensure_segment_open w) as [[u|e] w1]; [|destruct He; split; [done|by left]].
  destruct He as (Hd1 & Hss1 & Ef1 & Es1).
  destruct ((saturating_sub _ _ <? _) && (0 <? current_size w1)) eqn:Eg.
  - pose proof (rotate_segment_spec w1 closed cur ((r :: todo) ++ rest) Hd1 Ef1) as Hrot.
    destruct (rotate_segment w1) as [[v|e] w2].
    2: { destruct Hrot as [Hrot He]. split; [by eapply failed_trans|done]. }
    destruct Hrot as (Hd2 & Hss2 & Ef2).
    pose proof (di_files _ _ _ Hd2) as Hf2. rewrite Ef2 in Hf2. destruct Hf2 as (_ & _ & _ & Hsz2 & _).
    apply andb_prop in Eg as [_ Eg]. rewrite Es1 in Eg. rewrite Eg in Hfuel.
    pose proof (IH (r :: todo) w2 _ [] Hd2) as Hloop. rewrite log_bytes_cons in Hloop.
    unfold write_fuel in Hloop. rewrite Hsz2, log_bytes_cons, length_app, closed_log_snoc in Hloop.
    destruct (write_loop config fuel _ w2) as [[x|e] w3]; cbn in Hloop.
    + destruct Hloop as (cl' & cur' & H1 & H2 & H3 & H4); [by constructor|lia|].
      exists cl', cur'. rewrite <- app_assoc in H3. split; [done|]. split; [|done].
      eapply same_side_trans; [exact Hss1|]. by eapply same_side_trans.
    + destruct Hloop as [H1 H2]; [by constructor|lia|]. rewrite <- app_assoc in H1. split; [|done].
      eapply failed_trans; [exact Hss1|]. by eapply failed_trans.
  - pose proof (capacity_fits w1 closed cur r Hd1 Hr Ef1 Eg) as Hfit.
    rewrite Nat2Z.id, length_app.
    rewrite (proj2 (Nat.ltb_ge _ _)) by lia.
    rewrite take_app_length, drop_app_length.
    pose proof (di_files _ _ _ Hd1) as Hf1. rewrite Ef1 in Hf1. destruct Hf1 as (sy & _ & _ & Hu1 & Hz1 & _).
    rewrite log_len_app, log_len_single in Hfit. unfold checked_add.
    rewrite (proj2 (Z.ltb_lt (current_size w1 + _) _)) by lia.
    rewrite (proj2 (Z.ltb_lt (unflushed_bytes w1 + _) _)) by lia.
    rewrite Ef1. cbn [negb].
    pose proof (file_write_all_spec w1 closed cur r (todo ++ rest) Hd1 Ef1) as Hw.
    rewrite log_len_app, log_len_single in Hw. specialize (Hw Hfit).
    destruct (file_write_all w1 (record_bytes r)) as [[v|e] w2].
    2: { destruct Hw as [Hw ->]. split; [by eapply failed_trans|by left]. }
    destruct Hw as [Hd2 Hss2]. rewrite Hz1.
    match goal with |- context [write_loop config fuel _ ?w3] => set (w' := w3) in * end.
    pose proof (IH todo w' closed (cur ++ [r]) Hd2 Hok) as Hloop.
    assert (Hss3 : same_side w w').
    { eapply same_side_trans; [exact Hss1|]. eapply same_side_trans; [exact Hss2|]. by split; lia || done. }
    rewrite <- !app_assoc in Hloop. cbn [app] in Hloop.
    destruct (write_loop config fuel _ w') as [[x|e] w3].
    + destruct Hloop as (cl' & cur' & H1 & H2 & H3 & H4).
      { unfold write_fuel. destruct (0 <? current_size w'); lia. }
      exists cl', cur'. split; [done|]. split; [by eapply same_side_trans|]. split; [done|].
      rewrite decide_False by done. destruct (decide (todo = [])) as [->|]; [subst w3|done].
      unfold w'. cbn. pose proof (di_files _ _ _ Hd1) as Hf1. rewrite Ef1 in Hf1.
      destruct Hf1 as (sy' & Hsy' & _ & Hu' & _). unfold log_len in Hu'. lia.
    + destruct Hloop as [H1 H2]. { unfold write_fuel. destruct (0 <? current_size w'); lia. }
      split; [by eapply failed_trans|done].
Qed.

(** Between iterations: everything drained is in files, the pending position
    is the end of what was written, and what is not synced is counted. *)
Record quiet (w : WriterDriver) (closed : list (Z * list WalRecord)) (cur pend : list WalRecord) : Prop := {
  q_driver : driver_inv w closed cur;
  q_bytes : wb_bytes (w_buffer w) = log_bytes pend;
  q_next : wb_next_lsn (w_buffer w) = floor_lsn floor + log_len (closed_log closed ++ cur ++ pend);
  q_pending : pending_lsn w = floor_lsn floor + log_len (closed_log closed ++ cur);
  q_flushed : unflushed_bytes w = 0 -> durable_lsn w = pending_lsn w;
  q_floor : 0 <= floor_lsn floor;
  q_ok : log_ok pend;
}.

Record outer_same (w w' : WriterDriver) : Prop := {
  os_next : wb_next_lsn (w_buffer w') = wb_next_lsn (w_buffer w);
  os_closed : wb_closed (w_buffer w') = wb_closed (w_buffer w);
  os_cap : wb_capacity (w_buffer w') = wb_capacity (w_buffer w);
  os_shared : shared_durable_lsn w <= shared_durable_lsn w';
}.

Lemma outer_same_trans w1 w2 w3 : outer_same w1 w2 -> outer_same w2 w3 -> outer_same w1 w3.
Proof. intros [] []. split; try congruence. lia. Qed.

Lemma same_side_outer w w' : same_side w w' -> outer_same w w'.
Proof. intros []. by split. Qed.

(** The state after a failure. *)
Definition broken_at (w' : WriterDriver) (A : list WalRecord) : Prop :=
  exists closed full rest, crash_ready (w_files w') (shared_durable_lsn w') closed full /\
    closed_log closed ++ full ++ rest = A.

Lemma drain_and_write_spec w closed cur pend :
  quiet w closed cur pend ->
  match drain_and_write config w with
  | (Ok _, w') => exists closed' cur', quiet w' closed' cur' [] /\ outer_same w w' /\ w_wake w' = w_wake w /\
                    closed_log closed' ++ cur' = closed_log closed ++ cur ++ pend
  | (Err e, w') => broken_at w' (closed_log closed ++ cur ++ pend) /\ outer_same w w' /\
                   (e = WIo \/ e = WSegmentIndexExhausted)
  end.
Proof.
  intros [Hd Hb Hn Hp Hfl H0 Hok]. unfold drain_and_write, drain_into, checked_sub. rewrite Hb.
  rewrite app_assoc, log_len_app in Hn. pose proof (log_len_nonneg (closed_log closed ++ cur)).
  fold (log_len pend). rewrite (proj2 (Z.leb_le _ _)) by lia. cbn [dr_end].
  set (w1 := w_with_buffer w _).
  assert (Hd1 : driver_inv w1 closed cur) by (by destruct Hd).
  destruct (log_bytes pend) as [|z zs] eqn:Ez.
  { apply log_bytes_nil_inv in Ez as ->. exists closed, cur. rewrite app_nil_r.
    split; [|split; [by split; lia || done|done]].
    split; try done. cbn. rewrite app_nil_r, Hn, log_len_nil. lia. }
  assert (Hne : pend <> []) by (intros ->; done).
  rewrite <- Ez in *. clear Ez z zs. unfold write_drained.
  pose proof (write_loop_spec (2 + 2 * length (log_bytes pend)) pend w1 closed cur [] Hd1 Hok) as Hw.
  assert (Hfuel : (write_fuel pend w1 < 2 + 2 * length (log_bytes pend))%nat)
    by (unfold write_fuel; destruct (0 <? _); lia).
  specialize (Hw Hfuel). destruct (write_loop config _ _ w1) as [[u|e] w2].
  - destruct Hw as (cl' & cur' & Hd2 & Hss & Heq & Hun). rewrite decide_False in Hun by done.
    assert (Hnext : wb_next_lsn (w_buffer w) = floor_lsn floor + log_len (closed_log cl' ++ cur'))
      by (rewrite Heq, app_assoc, log_len_app; lia).
    destruct Hss as [s1 s2 s3 s4 s5 s6 s7 s8]. exists cl', cur'. split; [|split; [|done]].
    + split; cbn; try done; [|by rewrite app_nil_r, s2|lia|constructor].
      destruct Hd2 as [Hf2 Hi2 Hs2 Hb2 Ha2 Hc2 (Hx1 & Hx2 & Hx3) Hp2 Hmk2]. split; cbn; try done.
      * repeat split; try done. rewrite s7 in Hp2, Hx3. cbn in *. lia.
      * lia.
      * split; [|apply Hmk2]. rewrite Hnext. apply boundary_end.
    + split; cbn; try done.
  - destruct Hw as [[Hss Hbr] He]. rewrite app_nil_r in Hbr. split; [done|]. split; [|done].
    apply same_side_outer in Hss. destruct Hss. by split.
Qed.

Lemma quiet_flush w closed cur pend :
  quiet w closed cur pend ->
  match flush_current w with
  | (Ok _, w') => quiet w' closed cur pend /\ outer_same w w' /\ w_wake w' = w_wake w /\
                  shared_durable_lsn w' = pending_lsn w'
  | (Err e, w') => broken_at w' (closed_log closed ++ cur ++ pend) /\ outer_same w w' /\ e = WIo
  end.
Proof.
  intros [Hd Hb Hn Hp Hfl H0 Hok]. pose proof (flush_current_spec w closed cur Hd) as H.
  destruct (flush_current w) as [[u|e] w'].
  - destruct H as (Hd' & Hss & Hun & Hdu & _). pose proof Hss as [s1 s2 s3 s4 s5 s6 s7 s8].
    split; [|split; [by apply same_side_outer|split; [done|]]].
    + split; try done; congruence.
    + destruct (di_durable _ _ _ Hd') as (_ & -> & _). congruence.
  - destruct H as (Hd' & Hss & ->). split; [|split; [by apply same_side_outer|done]].
    exists closed, cur, pend. split; [|done]. by apply driver_crash_ready.
Qed.

Lemma quiet_wake w k closed cur pend : quiet w closed cur pend -> quiet (w_with_wake w k) closed cur pend.
Proof. intros [[] ? ? ? ? ? ?]. by split. Qed.

Lemma quiet_broken w closed cur pend A :
  quiet w closed cur pend -> closed_log closed ++ cur ++ pend = A -> broken_at w A.
Proof.
  intros Hq <-. exists closed, cur, pend. split; [|done]. apply driver_crash_ready, Hq.
Qed.

Lemma quiet_unflushed w closed cur pend :
  quiet w closed cur pend -> unflushed_bytes w <= 0 -> unflushed_bytes w = 0.
Proof.
  intros Hq Hle. pose proof (di_files _ _ _ (q_driver _ _ _ _ Hq)) as Hf.
  destruct (current_file w); [|apply Hf]. destruct Hf as (sy & ? & _ & ? & _). unfold log_len in *. lia.
Qed.

(** One iteration writes everything that was buffered; a pending force or stop
    request makes all of it durable. *)
Lemma run_iteration_spec elapsed w closed cur pend :
  quiet w closed cur pend ->
  match run_iteration config elapsed w with
  | (Ok stop, w') => exists closed' cur', quiet w' closed' cur' [] /\ outer_same w w' /\
      closed_log closed' ++ cur' = closed_log closed ++ cur ++ pend /\
      stop = stopping (w_wake w) /\
      (force_fsync (w_wake w) || stopping (w_wake w) = true ->
       shared_durable_lsn w' = wb_next_lsn (w_buffer w'))
  | (Err e, w') => broken_at w' (closed_log closed ++ cur ++ pend) /\ outer_same w w' /\
                   (e = WIo \/ e = WSegmentIndexExhausted)
  end.
Proof.
  intros Hq. unfold run_iteration. pose proof (drain_and_write_spec w closed cur pend Hq) as Hdw.
  destruct (drain_and_write config w) as [[u|e] w1]; [|done].
  destruct Hdw as (cl & cu & Hq1 & Ho1 & Hw1 & Heq). cbn [take_force_fsync_if_work_pending].
  set (k := if force_fsync (w_wake w1) && _ then _ else _).
  assert (Hk : stopping k = stopping (w_wake w)). { unfold k. rewrite Hw1. destruct (force_fsync (w_wake w)), (0 <? unflushed_bytes w1); done. }
  pose proof (quiet_wake w1 k cl cu [] Hq1) as Hq2. rewrite Hk, Hw1.
  set (w2 := w_with_wake w1 k) in *.
  assert (Ho2 : outer_same w w2) by (destruct Ho1; by split).
  pose proof (quiet_flush w2 cl cu [] Hq2) as Hfl.
  destruct ((0 <? unflushed_bytes w2) && _) eqn:Eneed.
  - destruct (flush_current w2) as [[v|e] w3].
    + destruct Hfl as (Hq3 & Ho3 & Hw3 & Hsd). exists cl, cu. split; [done|].
      split; [by eapply outer_same_trans|]. split; [done|]. split; [done|]. intros _.
      rewrite Hsd, (q_pending _ _ _ _ Hq3), (q_next _ _ _ _ Hq3). by rewrite app_nil_r.
    + destruct Hfl as (Hb & Ho3 & ->). rewrite app_nil_r, Heq in Hb. split; [done|].
      split; [by eapply outer_same_trans|by left].
  - exists cl, cu. split; [done|]. split; [done|]. split; [done|]. split; [done|]. intros Hforce.
    destruct (Z.ltb_spec 0 (unflushed_bytes w2)) as [|Hle]; cbn [andb] in Eneed.
    { rewrite Hforce in Eneed. done. }
    assert (Hu : unflushed_bytes w2 = 0) by (by apply (quiet_unflushed w2 cl cu [])).
    destruct (di_durable _ _ _ (q_driver _ _ _ _ Hq2)) as (_ & -> & _).
    rewrite (q_flushed _ _ _ _ Hq2 Hu), (q_pending _ _ _ _ Hq2), (q_next _ _ _ _ Hq2). by rewrite app_nil_r.
Qed.

(** The exit path leaves nothing behind: everything admitted is durable. *)
Lemma run_stop_spec w closed cur pend :
  quiet w closed cur pend ->
  match run_stop config w with
  | (Ok _, w') => exists closed' cur', quiet w' closed' cur' [] /\
      wb_next_lsn (w_buffer w') = wb_next_lsn (w_buffer w) /\
      shared_durable_lsn w <= shared_durable_lsn w' /\
      closed_log closed' ++ cur' = closed_log closed ++ cur ++ pend /\
      shared_durable_lsn w' = wb_next_lsn (w_buffer w')
  | (Err e, w') => broken_at w' (closed_log closed ++ cur ++ pend) /\
      wb_next_lsn (w_buffer w') = wb_next_lsn (w_buffer w) /\
      shared_durable_lsn w <= shared_durable_lsn w'
  end.
Proof.
  intros Hq. unfold run_stop. set (w0 := w_with_buffer w _).
  assert (Hq0 : quiet w0 closed cur pend).
  { destruct Hq as [[] ? ? ? ? ? ?]. split; try done. }
  pose proof (drain_and_write_spec w0 closed cur pend Hq0) as Hdw.
  destruct (drain_and_write config w0) as [[u|e] w1].
  2: { destruct Hdw as (Hb & [H1 H2 H3 H4] & _). done. }
  destruct Hdw as (cl & cu & Hq1 & [H1 H2 H3 H4] & _ & Heq). cbn in H1, H4.
  destruct (Z.ltb_spec 0 (unflushed_bytes w1)) as [|Hle].
  - pose proof (quiet_flush w1 cl cu [] Hq1) as Hfl. destruct (flush_current w1) as [[v|e] w2].
    + destruct Hfl as (Hq2 & [J1 J2 J3 J4] & _ & Hsd). exists cl, cu.
      split; [done|]. split; [congruence|]. split; [lia|]. split; [done|].
      rewrite Hsd, (q_pending _ _ _ _ Hq2), (q_next _ _ _ _ Hq2). by rewrite app_nil_r.
    + destruct Hfl as (Hb & [J1 J2 J3 J4] & ->). rewrite app_nil_r, Heq in Hb.
      split; [done|]. split; [congruence|lia].
  - exists cl, cu. split; [done|]. split; [done|]. split; [done|]. split; [done|].
    assert (Hu : unflushed_bytes w1 = 0) by (by apply (quiet_unflushed w1 cl cu [])).
    destruct (di_durable _ _ _ (q_driver _ _ _ _ Hq1)) as (_ & -> & _).
    rewrite (q_flushed _ _ _ _ Hq1 Hu), (q_pending _ _ _ _ Hq1), (q_next _ _ _ _ Hq1). by rewrite app_nil_r.
Qed.
End writer.
