(* ===== verification/WalDurability.v ===== *)
(** * Durability of the log, end to end

    The append buffer, the writer thread and recovery together: any run of
    appenders and of the writer, with any pattern of I/O failures, followed by
    a crash that keeps of each file at least what was synced, and then a
    recovery of what is left.

    A run interleaves whole critical sections: an append, one iteration of the
    writer's loop, its exit path, and the wake-up requests. Appends that land
    while the writer is writing a batch it has already drained touch only the
    buffer, so they commute with the rest of that iteration. *)

From S2P Require Import Prelude CoreIds WalRecord WalLog WalBuffer WalSegment WalPayload WalRecovery WalWriter.

Inductive writer_phase := Running | StopSeen | Exited.

Record wal_sys := mk_wal_sys {
  ws_driver : WriterDriver;
  ws_links : gmap nat Lsn;
  ws_events : list buf_event;
  ws_phase : writer_phase;
}.

Inductive wal_op :=
| WAppend (op : buf_op)
| WIterate (elapsed : bool)
| WFinish
| WNotify
| WRequestDrain
| WSignalStop.

Definition is_append (op : buf_op) : bool :=
  match op with OpAppend _ | OpAppendBorrowed _ _ _ _ _ | OpAppendLinked _ _ _ _ _ => true | _ => false end.

(** The writer thread ends: the closer refuses further appends, and an error
    is published as fatal. *)
Definition thread_exit (w : WriterDriver) (failed : bool) : WriterDriver :=
  let w1 := if failed then w_set_fatal w else w in
  w_with_buffer w1 (close_appends (w_buffer w1)).

Section sys.
Context (crc32c_append : Z -> list Z -> Z) (config : WalWriterConfig).

Definition with_driver (s : wal_sys) (w : WriterDriver) (p : writer_phase) : wal_sys :=
  mk_wal_sys w (ws_links s) (ws_events s) p.

Definition wal_step (op : wal_op) (s : wal_sys) : wal_sys :=
  let w := ws_driver s in
  match op with
  | WAppend bop =>
      if is_append bop then
        let '(e, b) := buf_step crc32c_append bop (mk_buf_sys (w_buffer w) (ws_links s)) in
        mk_wal_sys (w_with_buffer w (bs_buf b)) (bs_links b) (ws_events s ++ [e]) (ws_phase s)
      else s
  | WIterate elapsed =>
      match ws_phase s with
      | Running =>
          match run_iteration config elapsed w with
          | (Ok stop, w') => with_driver s w' (if stop : bool then StopSeen else Running)
          | (Err _, w') => with_driver s (thread_exit w' true) Exited
          end
      | _ => s
      end
  | WFinish =>
      match ws_phase s with
      | StopSeen =>
          match run_stop config w with
          | (Ok _, w') => with_driver s (thread_exit w' false) Exited
          | (Err _, w') => with_driver s (thread_exit w' true) Exited
          end
      | _ => s
      end
  | WNotify => with_driver s (request_fsync w) (ws_phase s)
  | WRequestDrain => with_driver s (request_drain w) (ws_phase s)
  | WSignalStop => with_driver s (signal_stop w) (ws_phase s)
  end.

Definition wal_run (ops : list wal_op) (s : wal_sys) : wal_sys := foldl (fun s op => wal_step op s) s ops.
End sys.

Definition wal_op_ok (crc32c_append : Z -> list Z -> Z) (op : wal_op) : Prop :=
  match op with WAppend bop => op_ok crc32c_append bop | _ => True end.

(** ** The crash *)

(** What the disk may hold after a crash: of every file, some prefix that
    includes its synced part. *)
Definition crash (files : list (Z * seg_file)) (files' : list (Z * list Z)) : Prop :=
  Forall2 (fun f f' => f'.1 = f.1 /\ exists k,
    (sf_synced f.2 <= k <= length (sf_bytes f.2))%nat /\ f'.2 = take k (sf_bytes f.2)) files files'.

Definition disk (m : option (list Z)) (files : list (Z * list Z)) : WalDir := mk_WalDir m (list_to_map files).

Section durable.
Context (crc32c_append : Z -> list Z -> Z) (config : WalWriterConfig) (limit : Z).
Context (crc_u32 : forall c l, in_width U32 (crc32c_append c l)).
Context (Hseg : segment_size_bytes config <= limit) (Hmax : MAX_RECORD_BYTES <= limit) (Hlim : limit < U64).
Context (floor : WalFloor) (below : list (Z * seg_file)).

(** A byte prefix of a log is some of its records and a torn tail, and keeps
    every record that fits in it. *)
Lemma take_log_bytes rs k :
  log_ok crc32c_append rs ->
  exists j tail, take k (log_bytes rs) = log_bytes (take j rs) ++ tail /\ torn_tail crc32c_append tail /\
    forall ps, ps `prefix_of` rs -> log_len ps <= Z.of_nat k -> ps `prefix_of` take j rs.
Proof.
  intros Hok. revert k. induction Hok as [|r rs Hr Hok IH]; intros k.
  { exists 0%nat, []. rewrite log_bytes_nil, take_nil. cbn. rewrite log_bytes_nil.
    split; [done|]. split; [by left|]. intros ps Hps _. done. }
  rewrite log_bytes_cons. destruct (decide (k < length (record_bytes r))%nat) as [Hlt|Hge].
  - exists 0%nat, (take k (record_bytes r)). cbn. rewrite log_bytes_nil, take_app_le by lia.
    split; [done|]. split; [by apply torn_prefix|]. intros [|p ps] Hps Hl; [done|].
    apply prefix_cons_inv_1 in Hps as ->. exfalso. rewrite log_len_cons in Hl.
    pose proof (log_len_nonneg ps). lia.
  - destruct (IH (k - length (record_bytes r))%nat) as (j & tail & E & Ht & Hp).
    exists (S j), tail. cbn. rewrite take_app_ge, E, log_bytes_cons, app_assoc by lia.
    split; [done|]. split; [done|]. intros [|p ps] Hps Hl; [apply prefix_nil|].
    pose proof (prefix_cons_inv_1 _ _ _ _ Hps) as ->. apply prefix_cons_inv_2 in Hps.
    apply prefix_cons, Hp; [done|]. rewrite log_len_cons in Hl. lia.
Qed.

Lemma closed_file_crash closed files' :
  crash (map closed_file closed) files' -> files' = map (fun e => (e.1, log_bytes e.2)) closed.
Proof.
  revert files'. induction closed as [|[i g] closed IH]; intros files' H; cbn in *.
  - by apply Forall2_nil_inv_l in H.
  - apply Forall2_cons_inv_l in H as ([i' b'] & l & [Hi (k & Hk & Hb)] & Hl & ->). cbn in *.
    rewrite (IH l Hl). f_equal. subst i'. rewrite take_ge in Hb by lia. by subst b'.
Qed.

Lemma crash_fst files files' : crash files files' -> map fst files' = map fst files.
Proof.
  induction 1 as [|f f' files files' [H _] HF IH]; [done|]. cbn. by rewrite H, IH.
Qed.

Lemma crash_index (P : Z -> Prop) files files' :
  crash files files' -> Forall (fun e : Z * seg_file => P e.1) files ->
  Forall (fun e : Z * list Z => P e.1) files'.
Proof.
  induction 1 as [|f f' files files' [H _] HF IH]; intros Hp; [constructor|].
  apply Forall_cons in Hp as [Hp Hps]. constructor; [by rewrite H|by apply IH].
Qed.

Lemma laid_out_closed (closed : list (Z * list WalRecord)) :
  laid_out (map (fun e => (e.1, log_bytes e.2)) closed) (map snd closed) [].
Proof.
  induction closed as [|[i g] closed IH]; [done|]. cbn [map laid_out fst snd].
  destruct closed; [by rewrite app_nil_r|]. by split.
Qed.

Lemma filter_none {A} (p : A -> bool) l : Forall (fun x => p x = false) l -> List.filter p l = [].
Proof. induction 1 as [|x l Hx Hl IH]; [done|]. cbn. by rewrite Hx. Qed.

Lemma filter_all {A} (p : A -> bool) l : Forall (fun x => p x = true) l -> List.filter p l = l.
Proof. induction 1 as [|x l Hx Hl IH]; [done|]. cbn. by rewrite Hx, IH. Qed.

(** The files at or above the floor survive as the live segments. *)
Lemma live_after_crash m rest files' :
  files_sorted (below ++ rest) ->
  Forall (fun e : Z * seg_file => e.1 < segment_index floor) below ->
  Forall (fun e : Z * seg_file => segment_index floor <= e.1) rest ->
  crash (below ++ rest) files' ->
  exists rest', crash rest rest' /\ live_segments floor (disk m files') = rest'.
Proof.
  intros Hs Hb Hr Hc. pose proof (crash_fst _ _ Hc) as Hfst.
  apply Forall2_app_inv_l in Hc as (b' & r' & Hcb & Hcr & ->).
  exists r'. split; [done|]. unfold live_segments, disk.
  assert (seg_sorted (b' ++ r')) as Hss.
  { unfold seg_sorted, files_sorted in *. change (@fmap list list_fmap) with (@map). by rewrite Hfst. }
  rewrite list_segments_sorted, List.filter_app by done.
  rewrite filter_none, filter_all; [done| |].
  - eapply Forall_impl; [apply (crash_index (fun i => segment_index floor <= i) rest r' Hcr Hr)|].
    intros e He. by apply Z.leb_le.
  - eapply Forall_impl; [apply (crash_index (fun i => i < segment_index floor) below b' Hcb Hb)|].
    intros e He. by apply Z.leb_gt.
Qed.

(** After a crash from a crash-ready state the directory is an image of a
    prefix of the log that holds everything up to [D]. *)
Lemma crash_image crc32c m files files' D closed full :
  read_floor crc32c (disk m files') = Ok floor -> 0 <= floor_lsn floor ->
  crash_ready limit floor below files D closed full ->
  log_ok crc32c_append (closed_log closed ++ full) ->
  floor_lsn floor + log_len (closed_log closed ++ full) < U64 ->
  crash files files' ->
  exists groups tail,
    wal_image crc32c_append crc32c limit (disk m files') floor groups tail /\
    concat groups `prefix_of` closed_log closed ++ full /\
    closed_log closed `prefix_of` concat groups /\
    boundary floor D (concat groups).
Proof.
  intros Hfl H0 [Hlast Hs Hb Ha Hf Hmk] Hok Hend Hc.
  assert (Hcl : Forall (fun e : Z * list WalRecord => log_ok crc32c_append e.2) closed).
  { apply Forall_app in Hok as [Hok _]. unfold closed_log in Hok. clear -Hok.
    induction closed as [|[i g] closed IH]; [constructor|]. cbn in Hok. apply Forall_app in Hok as [Hg Hok].
    constructor; [done|by apply IH]. }
  assert (Hab : Forall (fun e : Z * seg_file => segment_index floor <= e.1) (map closed_file closed)).
  { apply Forall_map. eapply Forall_impl; [exact Ha|]. by intros e [? _]. }
  assert (Hsz : Forall (fun seg : Z * list Z => Z.of_nat (length seg.2) <= limit)
                  (map (fun e => (e.1, log_bytes e.2)) closed)).
  { apply Forall_map. eapply Forall_impl; [exact Ha|]. by intros e [_ ?]. }
  assert (Hgs : Forall (log_ok crc32c_append) (map snd closed)) by (by apply Forall_map).
  destruct Hlast as [(-> & -> & HD)|(i & n & synced & -> & Hi & Hsn & HD)].
  - destruct (live_after_crash m (map closed_file closed) files') as (rest' & Hcr & Hlive); try done.
    apply closed_file_crash in Hcr. rewrite app_nil_r in *.
    exists (map snd closed), []. split; [|done].
    split; try done; [|by left|by rewrite Hlive, Hcr]. rewrite Hlive, Hcr. apply laid_out_closed.
  - destruct (live_after_crash m (map closed_file closed ++
      [(i, mk_seg_file (take n (log_bytes full)) synced)]) files') as (rest' & Hcr & Hlive); try done.
    { apply Forall_app. split; [done|]. by constructor. }
    apply Forall2_app_inv_l in Hcr as (cl' & l' & Hcl' & Hl' & ->).
    apply closed_file_crash in Hcl' as ->.
    apply Forall2_cons_inv_l in Hl' as ([i' b'] & l & [Hi' (k & Hk & Hb')] & Hl & ->).
    apply Forall2_nil_inv_l in Hl as ->. cbn in Hi', Hk, Hb'. subst i' b'.
    rewrite take_take in *. rewrite length_take in Hk.
    apply Forall_app in Hok as [_ Hfok].
    destruct (take_log_bytes full (k `min` n) Hfok) as (j & tail & E & Ht & Hp). rewrite E in Hlive.
    exists (map snd closed ++ [take j full]), tail.
    assert (Hcat : concat (map snd closed ++ [take j full]) = closed_log closed ++ take j full)
      by (rewrite concat_app; cbn; by rewrite app_nil_r).
    assert (Hpre : closed_log closed ++ take j full `prefix_of` closed_log closed ++ full)
      by (apply prefix_app, prefix_take).
    split; [|rewrite Hcat; split; [done|split; [by exists (take j full)|]]].
    + apply (image_snoc _ _ _ _ _ (map (fun e => (e.1, log_bytes e.2)) closed) i); try done.
      * apply laid_out_closed.
      * by apply Forall_take.
      * rewrite Hlive. apply Forall_app. split; [done|]. constructor; [|done]. cbn. rewrite <- E.
        rewrite length_take. unfold log_len in Hf. lia.
      * fold (closed_log closed). destruct Hpre as [z Hz]. rewrite Hz, log_len_app in Hend.
        pose proof (log_len_nonneg z). lia.
    + destruct Hmk as (ps & Hps & ->). exists ps. split; [|done].
      destruct (prefix_weak_total ps (closed_log closed) (closed_log closed ++ full)) as [Hlo|[q ->]];
        [done|by exists full|by apply prefix_app_r|].
      apply prefix_app, Hp; [by apply prefix_app_inv in Hps|].
      rewrite log_len_app in HD. lia.
Qed.

(** ** The invariant of a run *)

(** An append call either places a record at the next LSN or leaves the
    buffer as it was; a closed buffer takes none. *)
Lemma append_step bop s e s' :
  is_append bop = true -> op_ok crc32c_append bop -> (forall l, in_width U64 (link_value s l)) ->
  (wb_closed (bs_buf s) = false -> in_width U64 (wb_next_lsn (bs_buf s))) ->
  buf_step crc32c_append bop s = (e, s') ->
  (forall l, in_width U64 (link_value s' l)) /\
  ((exists r k, e = EvAppend (wb_next_lsn (bs_buf s)) r k /\ record_ok crc32c_append r /\
      wb_closed (bs_buf s) = false /\
      wb_next_lsn (bs_buf s) + Z.of_nat (length (record_bytes r)) < U64 /\
      bs_buf s' = wb_with_inner (bs_buf s) (wb_bytes (bs_buf s) ++ record_bytes r)
                    (wb_next_lsn (bs_buf s) + Z.of_nat (length (record_bytes r)))) \/
   (appended [e] = [] /\ bs_buf s' = bs_buf s)).
Proof.
  intros Ha Hop Hl Hn.
  assert (Hcore : forall r o b', record_ok crc32c_append r -> buffer_append (bs_buf s) r = (o, b') ->
    (o = Appended (wb_next_lsn (bs_buf s)) /\ wb_closed (bs_buf s) = false /\
      wb_next_lsn (bs_buf s) + Z.of_nat (length (record_bytes r)) < U64 /\
      b' = wb_with_inner (bs_buf s) (wb_bytes (bs_buf s) ++ record_bytes r)
                    (wb_next_lsn (bs_buf s) + Z.of_nat (length (record_bytes r)))) \/
    ((exists e, o = Failed e) \/ o = MustWait) /\ b' = bs_buf s).
  { intros r o b' Hr E. destruct (wb_closed (bs_buf s)) eqn:Ec.
    - unfold buffer_append, reserve in E. rewrite Ec in E. injection E as <- <-. right. by eauto.
    - apply (buffer_append_cases crc32c_append) in E as [(-> & ? & -> & _)|[Ho ->]]; [by left|by right|done]. }
  destruct bop as [r|t x p f payload|t x f payload l| | | |]; try done; cbn [buf_step op_ok] in *.
  - destruct (buffer_append _ _) as [o b'] eqn:E. intros [= <- <-]. split; [done|].
    destruct (Hcore r o b' Hop E) as [(-> & Hc & Hlt & ->)|[[[er ->]| ->] ->]];
      [left; exists r, None; done|by right|by right].
  - rewrite append_borrowed_new. destruct (WalRecord_new _ _ _ _ _ _) as [r|er] eqn:En.
    2: { intros [= <- <-]. split; [done|]. by right. }
    apply WalRecord_new_ok in En as [Hr _]; [|done|apply Hop..].
    destruct (buffer_append _ _) as [o b'] eqn:E. intros [= <- <-]. split; [done|].
    destruct (Hcore r o b' Hr E) as [(-> & Hc & Hlt & ->)|[[[er ->]| ->] ->]];
      [left; exists r, None; done|by right|by right].
  - assert (Hins : forall v, in_width U64 v -> forall b' l', in_width U64 (link_value (mk_buf_sys b' (<[l:=v]> (bs_links s))) l')).
    { intros v Hv b' l'. unfold link_value. cbn. rewrite lookup_insert. destruct (decide (l = l')); [done|apply Hl]. }
    rewrite append_linked_new. destruct (WalRecord_new _ _ _ _ _ _) as [r|er] eqn:En.
    2: { intros [= <- <-]. split; [apply Hins, Hl|]. by right. }
    apply WalRecord_new_ok in En as [Hr _]; [|done|done|apply Hl].
    destruct (buffer_append _ _) as [o b'] eqn:E.
    destruct (Hcore r o b' Hr E) as [(-> & Hc & Hlt & ->)|[[[er ->]| ->] ->]]; intros [= <- <-];
      (split; [apply Hins; done || (by apply Hn) || apply Hl|]); [left; exists r, (Some l); done|by right|by right].
Qed.

Record sys_ok (recs0 : list WalRecord) (s : wal_sys) : Prop := {
  so_events : appended (ws_events s) =
    log_at (floor_lsn floor + log_len recs0) (map snd (appended (ws_events s)));
  so_ok : log_ok crc32c_append (recs0 ++ map snd (appended (ws_events s)));
  so_end : floor_lsn floor + log_len (recs0 ++ map snd (appended (ws_events s))) < U64;
  so_links : forall l, in_width U64 (link_value (mk_buf_sys (w_buffer (ws_driver s)) (ws_links s)) l);
  so_floor : 0 <= floor_lsn floor;
  so_start : floor_lsn floor + log_len recs0 <= shared_durable_lsn (ws_driver s);
  so_phase :
    match ws_phase s with
    | Exited => broken_at limit floor below (ws_driver s) (recs0 ++ map snd (appended (ws_events s))) /\
                wb_closed (w_buffer (ws_driver s)) = true
    | _ => exists closed cur pend, quiet crc32c_append limit floor below (ws_driver s) closed cur pend /\
             closed_log closed ++ cur ++ pend = recs0 ++ map snd (appended (ws_events s))
    end;
}.

Lemma appended_app evs evs' : appended (evs ++ evs') = appended evs ++ appended evs'.
Proof. unfold appended. apply omap_app. Qed.

Lemma quiet_with_buffer w b closed cur pend pend' :
  quiet crc32c_append limit floor below w closed cur pend ->
  wb_bytes b = log_bytes pend' ->
  wb_next_lsn b = floor_lsn floor + log_len (closed_log closed ++ cur ++ pend') ->
  wb_durable b = wb_durable (w_buffer w) -> log_ok crc32c_append pend' ->
  quiet crc32c_append limit floor below (w_with_buffer w b) closed cur pend'.
Proof.
  intros [[] ? ? ? ? ? ?] Hb Hn Hd Hok. split; try done. split; try done. cbn. by rewrite Hd.
Qed.

Lemma sys_append recs0 s bop :
  sys_ok recs0 s -> is_append bop = true -> op_ok crc32c_append bop ->
  sys_ok recs0 (wal_step crc32c_append config (WAppend bop) s).
Proof.
  intros [Hev Hok Hend Hl H0 Hst Hph] Ha Hop. cbn [wal_step]. rewrite Ha.
  destruct (buf_step _ _ _) as [e b] eqn:E.
  assert (Hn : wb_closed (w_buffer (ws_driver s)) = false ->
    wb_next_lsn (w_buffer (ws_driver s)) =
      floor_lsn floor + log_len (recs0 ++ map snd (appended (ws_events s))) /\
    exists closed cur pend, quiet crc32c_append limit floor below (ws_driver s) closed cur pend /\
      closed_log closed ++ cur ++ pend = recs0 ++ map snd (appended (ws_events s)) /\ ws_phase s <> Exited).
  { intros Hc. destruct (ws_phase s); [| |destruct Hph; congruence];
      destruct Hph as (cl & cu & pe & Hq & HA); (split; [by rewrite (q_next _ _ _ _ _ _ _ _ Hq), HA|]);
      exists cl, cu, pe; done. }
  apply append_step in E as [Hl' Hcase]; try done.
  2: { cbn [bs_buf]. intros Hc. destruct (Hn Hc) as [-> _]. pose proof (log_len_nonneg (recs0 ++ map snd (appended (ws_events s)))).
       unfold in_width. lia. }
  destruct Hcase as [(r & k & -> & Hr & Hc & Hlt & Hb)|[He Hb]].
  - destruct (Hn Hc) as [Hnext (cl & cu & pe & Hq & HA & Hne)]. cbn [bs_buf] in *.
    assert (Happ : appended (ws_events s ++ [EvAppend (wb_next_lsn (w_buffer (ws_driver s))) r k]) =
      appended (ws_events s) ++ [(wb_next_lsn (w_buffer (ws_driver s)), r)]) by apply appended_snoc.
    split; cbn [ws_events ws_driver ws_links ws_phase]; rewrite ?Happ, ?map_app; cbn [map snd];
      rewrite ?(app_assoc recs0); try done.
    + rewrite Hev at 1. rewrite log_at_app, Hnext, log_len_app, Z.add_assoc. by rewrite log_at_snd || done.
    + apply Forall_app. split; [done|]. by constructor.
    + rewrite log_len_app, log_len_single. lia.
    + assert (exists closed cur pend,
        quiet crc32c_append limit floor below (w_with_buffer (ws_driver s) (bs_buf b)) closed cur pend /\
        closed_log closed ++ cur ++ pend = (recs0 ++ map snd (appended (ws_events s))) ++ [r]) as Hgoal.
      { exists cl, cu, (pe ++ [r]). rewrite <- HA, <- !app_assoc. split; [|done].
        rewrite Hb. apply (quiet_with_buffer _ _ _ _ pe); cbn; try done.
        - by rewrite (q_bytes _ _ _ _ _ _ _ _ Hq), log_bytes_app, log_bytes_single.
        - rewrite Hnext, <- HA. rewrite !log_len_app, log_len_single. lia.
        - apply Forall_app. split; [apply Hq|by constructor]. }
      by destruct (ws_phase s).
  - cbn [bs_buf] in *. assert (Happ : appended (ws_events s ++ [e]) = appended (ws_events s))
      by (by rewrite appended_app, He, app_nil_r).
    assert (w_with_buffer (ws_driver s) (bs_buf b) = ws_driver s) as Hw by (rewrite Hb; by destruct (ws_driver s)).
    split; cbn [ws_events ws_driver ws_links ws_phase]; rewrite ?Happ, ?Hw; try done.
Qed.

(** A step of the writer that keeps the events. *)
Lemma sys_writer recs0 s w p :
  sys_ok recs0 s -> shared_durable_lsn (ws_driver s) <= shared_durable_lsn w ->
  match p with
  | Exited => broken_at limit floor below w (recs0 ++ map snd (appended (ws_events s))) /\
              wb_closed (w_buffer w) = true
  | _ => exists closed cur pend, quiet crc32c_append limit floor below w closed cur pend /\
           closed_log closed ++ cur ++ pend = recs0 ++ map snd (appended (ws_events s))
  end -> sys_ok recs0 (with_driver s w p).
Proof. intros [] Hs Hp. split; try done. cbn. lia. Qed.

Lemma wal_step_ok recs0 s op :
  sys_ok recs0 s -> wal_op_ok crc32c_append op -> sys_ok recs0 (wal_step crc32c_append config op s).
Proof.
  intros Hs Hop. destruct op as [bop|elapsed| | | |].
  - destruct (is_append bop) eqn:Ha; [by apply sys_append|]. cbn [wal_step]. by rewrite Ha.
  - cbn [wal_step]. pose proof (so_phase _ _ Hs) as Hph. destruct (ws_phase s); [|done..].
    destruct Hph as (cl & cu & pe & Hq & HA).
    pose proof (run_iteration_spec crc32c_append config limit Hseg Hmax Hlim floor below elapsed _ _ _ _ Hq) as Hi.
    destruct (run_iteration _ _ _) as [[stop|e] w'].
    + destruct Hi as (cl' & cu' & Hq' & [_ _ _ Hsh] & Heq & _). apply sys_writer; [done..|].
      assert (exists closed cur pend, quiet crc32c_append limit floor below w' closed cur pend /\
        closed_log closed ++ cur ++ pend = recs0 ++ map snd (appended (ws_events s))) as Hg.
      { exists cl', cu', []. by rewrite app_nil_r, Heq. }
      by destruct stop.
    + destruct Hi as (Hb & [_ _ _ Hsh] & _). rewrite HA in Hb. by apply sys_writer.
  - cbn [wal_step]. pose proof (so_phase _ _ Hs) as Hph. destruct (ws_phase s); [done| |done].
    destruct Hph as (cl & cu & pe & Hq & HA).
    pose proof (run_stop_spec crc32c_append config limit Hseg Hmax Hlim floor below _ _ _ _ Hq) as Hi.
    destruct (run_stop _ _) as [[u|e] w'].
    + destruct Hi as (cl' & cu' & Hq' & _ & Hsh & Heq & _). apply sys_writer; [done..|]. split; [|done].
      apply (quiet_broken crc32c_append _ _ _ w' cl' cu' []); [done|]. by rewrite app_nil_r, Heq.
    + destruct Hi as (Hb & _ & Hsh). rewrite HA in Hb. by apply sys_writer.
  - cbn [wal_step]. apply sys_writer; [done|done|]. pose proof (so_phase _ _ Hs) as Hph.
    destruct (ws_phase s); [| |done];
      destruct Hph as (cl & cu & pe & Hq & HA); exists cl, cu, pe; (split; [by apply quiet_wake|done]).
  - cbn [wal_step]. apply sys_writer; [done|done|]. pose proof (so_phase _ _ Hs) as Hph.
    destruct (ws_phase s); [| |done];
      destruct Hph as (cl & cu & pe & Hq & HA); exists cl, cu, pe; (split; [by apply quiet_wake|done]).
  - cbn [wal_step]. apply sys_writer; [done|done|]. pose proof (so_phase _ _ Hs) as Hph.
    destruct (ws_phase s); [| |done];
      destruct Hph as (cl & cu & pe & Hq & HA); exists cl, cu, pe; (split; [by apply quiet_wake|done]).
Qed.

Lemma wal_run_ok recs0 ops s :
  sys_ok recs0 s -> Forall (wal_op_ok crc32c_append) ops ->
  sys_ok recs0 (wal_run crc32c_append config ops s).
Proof.
  intros Hs Hops. revert s Hs. induction Hops as [|op ops Hop Hops IH]; intros s Hs; [done|].
  apply IH. by apply wal_step_ok.
Qed.

(** ** The start *)

(** A directory at start-up: everything in it is on stable storage (as it is
    after a crash), whole records above the floor. *)
Record opened_on (files : list (Z * seg_file)) (closed : list (Z * list WalRecord)) : Prop := {
  oo_files : files = below ++ map closed_file closed;
  oo_sorted : files_sorted files;
  oo_below : Forall (fun e : Z * seg_file => e.1 < segment_index floor) below;
  oo_above : Forall (fun e : Z * list WalRecord => segment_index floor <= e.1 /\ log_len e.2 <= limit) closed;
  oo_some : closed = [] -> below = [] /\ segment_index floor = 0;
  oo_ok : log_ok crc32c_append (closed_log closed);
  oo_floor : 0 <= floor_lsn floor;
  oo_end : floor_lsn floor + log_len (closed_log closed) < U64;
  oo_zero : 0 <= segment_index floor;
}.

Lemma next_segment_fresh files closed idx :
  opened_on files closed -> next_segment_index files = Ok idx ->
  Forall (fun e : Z * seg_file => e.1 < idx) files /\ segment_index floor <= idx.
Proof.
  intros [Hf Hs Hb Ha Hn _ _ _ Hz]. unfold next_segment_index.
  set (g := fun e : Z * seg_file => (e.1, sf_bytes e.2)).
  assert (Hsg : seg_sorted (map g files)).
  { unfold seg_sorted, files_sorted in *. change (@fmap list list_fmap) with (@map). by rewrite map_map. }
  rewrite list_segments_sorted by done.
  destruct files as [|f files _] using rev_ind.
  { cbn. intros [= <-]. split; [constructor|]. destruct closed as [|c closed].
    - destruct (Hn eq_refl) as [_ ->]. done.
    - symmetry in Hf. apply app_eq_nil in Hf as [_ Hf]. done. }
  rewrite map_app. cbn [map]. rewrite last_snoc. cbn. unfold checked_add. destruct (Z.ltb_spec (f.1 + 1) U32); [|done].
  intros <-%Ok_inj. destruct f as [i f]. pose proof (sorted_last_fresh _ _ _ Hs) as Hlt. cbn.
  split; [apply Forall_app; split; [eapply Forall_impl; [exact Hlt|]; cbn; lia|constructor; [cbn; lia|done]]|].
  destruct closed as [|c closed _] using rev_ind.
  { destruct (Hn eq_refl) as [-> _]. cbn in Hf. by destruct files. }
  rewrite map_app, app_assoc in Hf. apply app_inj_tail in Hf as [_ Hf]. injection Hf as -> _.
  apply Forall_app in Ha as [_ [[Ha _] _]%Forall_cons]. lia.
Qed.

Lemma opened_ok files closed b io w :
  opened_on files closed -> wb_bytes b = [] ->
  wb_next_lsn b = floor_lsn floor + log_len (closed_log closed) -> wb_durable b = wb_next_lsn b ->
  writer_open files b io = Ok w ->
  sys_ok (closed_log closed) (mk_wal_sys w ∅ [] Running).
Proof.
  intros Ho Hb Hn Hd. unfold writer_open. destruct (next_segment_index files) as [idx|] eqn:Ei; [|done].
  intros <-%Ok_inj. destruct (next_segment_fresh files closed idx Ho Ei) as [Hfr Hix].
  destruct Ho as [Hf Hs Hbe Ha Hnn Hok H0 He Hz].
  split; cbn; try done; rewrite ?app_nil_r; try done; [lia|].
  exists closed, [], []. rewrite !app_nil_r. split; [|done].
  assert (Hmk : boundary floor (wb_durable b) (closed_log closed)) by (rewrite Hd, Hn; apply boundary_end).
  split; cbn; rewrite ?app_nil_r; try done; [|congruence|constructor].
  split; cbn; rewrite ?app_nil_r, ?log_len_nil; try done; try lia.
  - repeat split; try done. lia.
  - pose proof MAX_below_U32. unfold MAX_RECORD_BYTES in *. lia.
Qed.

(** Recovery after a crash of any state of a run. *)
Lemma crash_recovers crc32c m recs0 s files' :
  sys_ok recs0 s -> read_floor crc32c (disk m files') = Ok floor ->
  crash (w_files (ws_driver s)) files' ->
  exists groups tail, wal_image crc32c_append crc32c limit (disk m files') floor groups tail /\
    recs0 `prefix_of` concat groups /\
    concat groups `prefix_of` recs0 ++ map snd (appended (ws_events s)) /\
    boundary floor (shared_durable_lsn (ws_driver s)) (concat groups).
Proof.
  intros [Hev Hok Hend Hl H0 Hst Hph] Hfl Hc.
  assert (Hbr : broken_at limit floor below (ws_driver s) (recs0 ++ map snd (appended (ws_events s)))).
  { destruct (ws_phase s); [| |apply Hph]; destruct Hph as (cl & cu & pe & Hq & HA);
      by apply (quiet_broken crc32c_append _ _ _ _ cl cu pe). }
  destruct Hbr as (closed & full & rest & Hcr & HA). rewrite <- HA, app_assoc in *.
  apply Forall_app in Hok as [Hok _]. rewrite log_len_app in Hend. pose proof (log_len_nonneg rest).
  destruct (crash_image crc32c m _ files' _ closed full Hfl H0 Hcr Hok) as (groups & tail & Hi & Hp & _ & Hb);
    [lia|done|].
  exists groups, tail. split; [done|]. split; [|split; [by apply prefix_app_r|done]].
  destruct Hb as (ps & Hps & Hdp). etrans; [|exact Hps].
  assert (Hrec0 : recs0 `prefix_of` (closed_log closed ++ full) ++ rest) by (rewrite HA; by eexists).
  destruct (prefix_weak_total recs0 ps ((closed_log closed ++ full) ++ rest)) as [|[q ->]]; [done| |done|].
  - apply prefix_app_r. by etrans.
  - rewrite Hdp, log_len_app in Hst. assert (log_len q = 0) as Hq0 by (pose proof (log_len_nonneg q); lia).
    destruct q as [|r q]; [by rewrite app_nil_r|]. pose proof (log_len_pos r q). lia.
Qed.

(** A record that starts before a boundary of a prefix of the log is in it. *)
Lemma durable_in_prefix recs0 evs rs D lsn r :
  appended evs = log_at (floor_lsn floor + log_len recs0) (map snd (appended evs)) ->
  rs `prefix_of` recs0 ++ map snd (appended evs) -> boundary floor D rs ->
  (lsn, r) ∈ appended evs -> lsn < D -> (lsn, r) ∈ log_at (floor_lsn floor) rs.
Proof.
  intros Hev Hp (ps & Hps & HD) Hin Hlt. rewrite Hev in Hin.
  assert (Hin' : (lsn, r) ∈ log_at (floor_lsn floor) (recs0 ++ map snd (appended evs))).
  { rewrite log_at_app. apply elem_of_app. by right. }
  destruct Hp as [z Hz]. rewrite Hz, log_at_app in Hin'. apply elem_of_app in Hin' as [|Hbad]; [done|].
  exfalso. apply list_elem_of_lookup in Hbad as [i Hi]. apply log_at_lookup in Hi as [_ ->].
  destruct Hps as [y ->]. rewrite log_len_app in Hlt.
  pose proof (log_len_nonneg y). pose proof (log_len_nonneg (take i z)). lia.
Qed.

(** The state of a run from start-up: the buffer is advanced past what
    recovery found, then the writer is opened. *)
Lemma opened_run_ok files closed cap init io w ops :
  opened_on files closed -> init <= floor_lsn floor + log_len (closed_log closed) ->
  writer_open files (advance_to_lsn (WalBuffer_new cap init) (floor_lsn floor + log_len (closed_log closed))) io
    = Ok w ->
  Forall (wal_op_ok crc32c_append) ops ->
  sys_ok (closed_log closed) (wal_run crc32c_append config ops (mk_wal_sys w ∅ [] Running)).
Proof.
  intros Ho Hinit Hw Hops. apply wal_run_ok; [|done].
  set (b := advance_to_lsn _ _) in *.
  assert (Hb : wb_bytes b = [] /\ wb_next_lsn b = floor_lsn floor + log_len (closed_log closed) /\
               wb_durable b = wb_next_lsn b).
  { unfold b, advance_to_lsn. cbn.
    destruct (Z.ltb_spec init (floor_lsn floor + log_len (closed_log closed))); cbn;
      [rewrite (proj2 (Z.ltb_lt _ _)) by done|rewrite (proj2 (Z.ltb_ge _ _)) by done]; cbn;
      repeat split; lia. }
  destruct Hb as (H1 & H2 & H3). by eapply opened_ok.
Qed.

Lemma appended_before_end recs0 s lsn r :
  sys_ok recs0 s -> (lsn, r) ∈ appended (ws_events s) ->
  lsn < floor_lsn floor + log_len (recs0 ++ map snd (appended (ws_events s))).
Proof.
  intros Hs. rewrite (so_events _ _ Hs) at 1. intros [i Hi]%list_elem_of_lookup.
  apply log_at_lookup in Hi as [Hi ->]. rewrite log_len_app.
  rewrite <- (take_drop_middle _ _ _ Hi) at 2. rewrite log_len_app.
  pose proof (log_len_pos r (drop (S i) (map snd (appended (ws_events s))))). lia.
Qed.

Definition dead (s : wal_sys) : Prop :=
  ws_phase s = Exited /\ w_fatal (ws_driver s) = true /\ wb_closed (w_buffer (ws_driver s)) = true.

Lemma dead_finish s : dead s -> dead (wal_step crc32c_append config WFinish s).
Proof. intros (Hp & H). cbn [wal_step]. rewrite Hp. by split. Qed.

(** An iteration under a force or stop request reaches the end of the log. *)
Lemma iterate_settles recs0 s elapsed :
  sys_ok recs0 s -> ws_phase s = Running ->
  force_fsync (w_wake (ws_driver s)) || stopping (w_wake (ws_driver s)) = true ->
  let s' := wal_step crc32c_append config (WIterate elapsed) s in
  (ws_events s' = ws_events s /\
   ws_phase s' = (if stopping (w_wake (ws_driver s)) then StopSeen else Running) /\
   shared_durable_lsn (ws_driver s') = floor_lsn floor + log_len (recs0 ++ map snd (appended (ws_events s)))) \/
  dead s'.
Proof.
  intros Hs Hp Hforce. cbn [wal_step]. rewrite Hp.
  pose proof (so_phase _ _ Hs) as Hph. rewrite Hp in Hph. destruct Hph as (cl & cu & pe & Hq & HA).
  pose proof (run_iteration_spec crc32c_append config limit Hseg Hmax Hlim floor below elapsed _ _ _ _ Hq) as Hi.
  destruct (run_iteration _ _ _) as [[stop|e] w']; [|by right].
  destruct Hi as (cl' & cu' & Hq' & [Hn _ _ _] & Heq & -> & Hd). left. split; [done|]. split; [done|]. cbn.
  rewrite (Hd Hforce), Hn, (q_next _ _ _ _ _ _ _ _ Hq). by rewrite HA.
Qed.

Lemma finish_settles recs0 s :
  sys_ok recs0 s -> ws_phase s = StopSeen ->
  let s' := wal_step crc32c_append config WFinish s in
  shared_durable_lsn (ws_driver s) <= shared_durable_lsn (ws_driver s') \/ dead s'.
Proof.
  intros Hs Hp. cbn [wal_step]. rewrite Hp.
  pose proof (so_phase _ _ Hs) as Hph. rewrite Hp in Hph. destruct Hph as (cl & cu & pe & Hq & HA).
  pose proof (run_stop_spec crc32c_append config limit Hseg Hmax Hlim floor below _ _ _ _ Hq) as Hi.
  destruct (run_stop _ _) as [[u|e] w']; [|by right]. left. cbn. by destruct Hi as (? & ? & _ & _ & Hsh & _).
Qed.
End durable.

(** ** Properties *)

(** C4. No acknowledged record is lost. Open the log on a directory whose
    files are on stable storage, let appenders and the writer run in any
    interleaving and with any I/O failures, and crash at any point, keeping of
    each file any prefix that includes its synced part. Recovery then ends,
    applies a prefix of the log (what was there at the start followed by the
    records appended, in append order), and that prefix contains everything
    that was on disk at the start and every record for which
    [wait_for_record_durable] answered [Durable], each at the LSN its append
    returned. *)
Theorem wal_durability crc32c_append crc32c config limit floor below m files closed cap init io w ops files' dr dp
    {S} (apply : S -> WalRecord -> S * result unit RecoveryError) (f : S -> WalRecord -> S) (s0 : S) :
  (forall c l, in_width U32 (crc32c_append c l)) ->
  segment_size_bytes config <= limit -> MAX_RECORD_BYTES <= limit -> limit < U64 ->
  opened_on crc32c_append limit floor below files closed ->
  init <= floor_lsn floor + log_len (closed_log closed) ->
  writer_open files (advance_to_lsn (WalBuffer_new cap init) (floor_lsn floor + log_len (closed_log closed))) io
    = Ok w ->
  Forall (wal_op_ok crc32c_append) ops ->
  let s := wal_run crc32c_append config ops (mk_wal_sys w ∅ [] Running) in
  crash (w_files (ws_driver s)) files' ->
  read_floor crc32c (disk m files') = Ok floor ->
  (forall s r, apply s r = (f s r, Ok tt)) ->
  exists rs,
    recover crc32c_append crc32c limit dr dp apply (disk m files') s0 =
      Some (foldl f s0 rs, Ok (floor_lsn floor + log_len rs)) /\
    closed_log closed `prefix_of` rs /\
    rs `prefix_of` closed_log closed ++ map snd (appended (ws_events s)) /\
    forall lsn r, (lsn, r) ∈ appended (ws_events s) ->
      wait_for_record_durable (ws_driver s) lsn = Durable -> (lsn, r) ∈ log_at (floor_lsn floor) rs.
Proof.
  intros Hc Hseg Hmax Hlim Ho Hinit Hw Hops s Hcr Hfl Hf.
  pose proof (opened_run_ok _ _ _ Hc Hseg Hmax Hlim _ _ _ _ _ _ _ _ _ Ho Hinit Hw Hops) as Hs. fold s in Hs.
  destruct (crash_recovers crc32c_append limit Hlim floor below crc32c m _ s files' Hs Hfl Hcr)
    as (groups & tail & Hi & H1 & H2 & H3).
  exists (concat groups). split; [|split; [done|split; [done|]]].
  - unfold recover. rewrite (recover_image dr dp apply _ _ _ _ _ _ _ _ _ Hi) by done.
    by rewrite (log_replay_all dr dp apply f).
  - intros lsn r Hin. unfold wait_for_record_durable.
    destruct (Z.ltb_spec lsn (shared_durable_lsn (ws_driver s))); [|by destruct (w_fatal _)]. intros _.
    eapply durable_in_prefix; try done. apply Hs.
Qed.

(** C34. Asking for durability gets it, or the writer is seen to be dead. In
    any state of a run whose writer is running, a notification followed by one
    iteration of the writer makes every record appended so far durable, unless
    a file-system call failed or the segment numbers are exhausted, in which
    case the thread has exited, the fatal flag is published and appends are
    refused; a stop request, one iteration and the exit path do the same. *)
Theorem notify_makes_durable crc32c_append config limit floor below files closed cap init io w ops elapsed :
  (forall c l, in_width U32 (crc32c_append c l)) ->
  segment_size_bytes config <= limit -> MAX_RECORD_BYTES <= limit -> limit < U64 ->
  opened_on crc32c_append limit floor below files closed ->
  init <= floor_lsn floor + log_len (closed_log closed) ->
  writer_open files (advance_to_lsn (WalBuffer_new cap init) (floor_lsn floor + log_len (closed_log closed))) io
    = Ok w ->
  Forall (wal_op_ok crc32c_append) ops ->
  let s := wal_run crc32c_append config ops (mk_wal_sys w ∅ [] Running) in
  ws_phase s = Running ->
  let settled s' :=
    (forall lsn r, (lsn, r) ∈ appended (ws_events s) -> wait_for_record_durable (ws_driver s') lsn = Durable) \/
    (ws_phase s' = Exited /\ w_fatal (ws_driver s') = true /\ wb_closed (w_buffer (ws_driver s')) = true) in
  settled (wal_run crc32c_append config [WNotify; WIterate elapsed] s) /\
  settled (wal_run crc32c_append config [WSignalStop; WIterate elapsed; WFinish] s).
Proof.
  intros Hc Hseg Hmax Hlim Ho Hinit Hw Hops s Hph settled.
  pose proof (opened_run_ok _ _ _ Hc Hseg Hmax Hlim _ _ _ _ _ _ _ _ _ Ho Hinit Hw Hops) as Hs. fold s in Hs.
  assert (Hall : forall s', floor_lsn floor + log_len (closed_log closed ++ map snd (appended (ws_events s)))
      <= shared_durable_lsn (ws_driver s') -> settled s').
  { intros s' Hle. left. intros lsn r Hin. unfold wait_for_record_durable.
    pose proof (appended_before_end _ _ _ _ _ _ _ _ Hs Hin). by rewrite (proj2 (Z.ltb_lt _ _)) by lia. }
  unfold wal_run. cbn [foldl]. split.
  - pose proof (wal_step_ok crc32c_append config limit Hc Hseg Hmax Hlim floor below _ s WNotify Hs I) as Hs1.
    destruct (iterate_settles crc32c_append config limit Hseg Hmax Hlim floor below _ _ elapsed Hs1)
      as [(_ & _ & Hd)|Hdead]; [done|done|apply Hall; rewrite Hd; done|by right].
  - pose proof (wal_step_ok crc32c_append config limit Hc Hseg Hmax Hlim floor below _ s WSignalStop Hs I) as Hs1.
    pose proof (wal_step_ok crc32c_append config limit Hc Hseg Hmax Hlim floor below _ _ (WIterate elapsed) Hs1 I) as Hs2.
    destruct (iterate_settles crc32c_append config limit Hseg Hmax Hlim floor below _ _ elapsed Hs1)
      as [(_ & Hp & Hd)|Hdead]; [done|cbn; by rewrite orb_true_r| |].
    + destruct (finish_settles crc32c_append config limit Hseg Hmax Hlim floor below _ _ Hs2 Hp) as [Hle|Hdead];
        [apply Hall; rewrite Hd in Hle; done|by right].
    + right. apply (dead_finish crc32c_append config _ Hdead).
Qed.

(** ** A run to instantiate the properties with

    Start on one segment above a floor, make one record durable, then fail in
    the middle of writing the next one and crash. *)

Definition run_floor : WalFloor := mk_WalFloor 3 4096.

Definition run_closed : list (Z * list WalRecord) :=
  [(3, [sample_rec HeapInsert 7 [1; 2; 3]; sample_rec Commit 7 (le_encode 8 5 ++ le_encode 8 1000)])].

Definition run_files : list (Z * seg_file) := map closed_file run_closed.

Definition run_config : WalWriterConfig := mk_WalWriterConfig 1000 4096.

Definition run_io : list io_outcome := [IoOk; IoOk; IoOk; IoOk; IoFail 10].

Definition run_driver : WriterDriver :=
  WriterDriver_new run_files
    (set_drainer (advance_to_lsn (WalBuffer_new 4096 0) (4096 + log_len (closed_log run_closed)))) 4 run_io.

Definition run_prefix : list wal_op := [WAppend (OpAppend (sample_rec HeapInsert 8 [4]))].

Definition run_ops : list wal_op :=
  run_prefix ++ [WNotify; WIterate false; WAppend (OpAppendBorrowed HeapDelete 9 0 0 [7]); WIterate true].

Abbreviation run_state := (wal_run sum_crc run_config run_ops (mk_wal_sys run_driver ∅ [] Running)).

(** A crash that keeps the synced part of every file and at most [n] bytes more. *)
Definition keep_synced (n : nat) (files : list (Z * seg_file)) : list (Z * list Z) :=
  map (fun e => (e.1, take (sf_synced e.2 + n) (sf_bytes e.2))) files.

Definition run_crash : list (Z * list Z) := keep_synced 4 (w_files (ws_driver run_state)).

Lemma keep_synced_crash n files :
  Forall (fun e : Z * seg_file => (sf_synced e.2 <= length (sf_bytes e.2))%nat) files ->
  crash files (keep_synced n files).
Proof.
  intros H. unfold keep_synced. induction H as [|e l He Hl IH]; [constructor|]. cbn [map].
  constructor; [|exact IH].
  split; [done|]. exists ((sf_synced e.2 + n) `min` length (sf_bytes e.2))%nat. split; [lia|]. cbn.
  destruct (decide (sf_synced e.2 + n <= length (sf_bytes e.2))%nat); [by rewrite Nat.min_l by lia|].
  rewrite Nat.min_r, !take_ge by lia. done.
Qed.

Lemma run_opened : opened_on sum_crc (2 ^ 27) run_floor [] run_files run_closed.
Proof.
  split.
  - done.
  - repeat constructor.
  - constructor.
  - constructor; [|constructor]. split; vm_compute; congruence.
  - done.
  - sample_records.
  - done.
  - vm_compute. reflexivity.
  - done.
Qed.

Lemma run_crash_ok : crash (w_files (ws_driver run_state)) run_crash.
Proof. apply keep_synced_crash. vm_compute. repeat constructor. Qed.

Lemma run_ops_ok ops : Forall (fun op => op = WAppend (OpAppend (sample_rec HeapInsert 8 [4])) \/
    op = WAppend (OpAppendBorrowed HeapDelete 9 0 0 [7]) \/ match op with WAppend _ => False | _ => True end) ops ->
  Forall (wal_op_ok sum_crc) ops.
Proof.
  intros H. eapply Forall_impl; [exact H|]. intros op [->|[->|Hop]].
  - cbn. sample_records.
  - by repeat split.
  - by destruct op.
Qed.

Lemma wal_durability_witness :
  (w_fatal (ws_driver run_state) = true /\ ws_phase run_state = Exited /\
   map fst (appended (ws_events run_state)) = [4171; 4200] /\
   shared_durable_lsn (ws_driver run_state) = 4200) /\
  exists rs,
    recover sum_crc (sum_crc 0) (2 ^ 27) (fun _ => "error"%string) (fun _ => "error"%string) collect
      (disk (Some (floor_bytes (sum_crc 0) run_floor)) run_crash) [] =
      Some (foldl (fun l r => l ++ [r]) [] rs, Ok (4096 + log_len rs)) /\
    closed_log run_closed `prefix_of` rs /\
    rs `prefix_of` closed_log run_closed ++ map snd (appended (ws_events run_state)) /\
    forall lsn r, (lsn, r) ∈ appended (ws_events run_state) ->
      wait_for_record_durable (ws_driver run_state) lsn = Durable -> (lsn, r) ∈ log_at 4096 rs.
Proof.
  split; [vm_compute; done|].
  apply (wal_durability sum_crc (sum_crc 0) run_config (2 ^ 27) run_floor [] _ run_files run_closed 4096 0
    run_io run_driver run_ops run_crash _ _ collect (fun l r => l ++ [r]) []).
  - apply sum_crc_u32.
  - done.
  - done.
  - done.
  - apply run_opened.
  - done.
  - vm_compute. reflexivity.
  - apply run_ops_ok. repeat (apply Forall_cons_2; [first [by left|by right; left|by right; right]|]). done.
  - apply run_crash_ok.
  - vm_compute. reflexivity.
  - done.
Defined.

Lemma notify_makes_durable_witness :
  let s := wal_run sum_crc run_config run_prefix (mk_wal_sys run_driver ∅ [] Running) in
  let settled s' :=
    (forall lsn r, (lsn, r) ∈ appended (ws_events s) -> wait_for_record_durable (ws_driver s') lsn = Durable) \/
    (ws_phase s' = Exited /\ w_fatal (ws_driver s') = true /\ wb_closed (w_buffer (ws_driver s')) = true) in
  settled (wal_run sum_crc run_config [WNotify; WIterate false] s) /\
  settled (wal_run sum_crc run_config [WSignalStop; WIterate false; WFinish] s).
Proof.
  apply (notify_makes_durable sum_crc run_config (2 ^ 27) run_floor [] run_files run_closed 4096 0
    run_io run_driver run_prefix false).
  - apply sum_crc_u32.
  - done.
  - done.
  - done.
  - apply run_opened.
  - done.
  - vm_compute. reflexivity.
  - apply run_ops_ok. repeat (apply Forall_cons_2; [first [by left|by right; left|by right; right]|]). done.
  - done.
Defined.

(** ** Reopening after a killed process

    A process that dies without the machine going down leaves bytes that are
    written but not synced. *)

Definition killed_files : list (Z * seg_file) :=
  [(0, mk_seg_file (log_bytes [sample_rec HeapInsert 7 [1]; sample_rec HeapInsert 7 [2]])
         (length (record_bytes (sample_rec HeapInsert 7 [1]))))].

Definition killed_view (files : list (Z * seg_file)) : WalDir :=
  disk None (map (fun e => (e.1, sf_bytes e.2)) files).

Definition reopened : wal_sys :=
  mk_wal_sys (WriterDriver_new killed_files
    (set_drainer (advance_to_lsn (WalBuffer_new 4096 0) 58)) 1 []) ∅ [] Running.

Definition after_commit : wal_sys :=
  wal_run sum_crc run_config [WAppend (OpAppend (sample_rec Commit 8 (le_encode 16 0))); WNotify; WIterate false] reopened.

(** What power loss then leaves: the synced part of each file and [n] bytes. *)
Definition power_loss (n : nat) : WalDir := disk None (keep_synced n (w_files (ws_driver after_commit))).

Definition replay (d : WalDir) : option (list WalRecord * result Lsn RecoveryError) :=
  recover sum_crc (sum_crc 0) 1000 (fun _ => "error"%string) (fun _ => "error"%string) collect d [].

(** Start-up can publish as durable what was never synced. A process is
    killed with a record written but not fsynced; at restart recovery replays
    that record, the repair finds no torn tail and therefore syncs nothing, the
    buffer's durable LSN is advanced past it and the writer resumes in a new
    segment. A later commit is acknowledged as durable; if the power then fails
    the unsynced bytes may be lost from what is no longer the final segment:
    recovery refuses the log, or, when they are lost exactly at a record
    boundary, replays it with the record missing and the acknowledged commit
    at an LSN other than its own. *)
Theorem reopen_without_sync_breaks_durability :
  replay (killed_view killed_files) =
    Some ([sample_rec HeapInsert 7 [1]; sample_rec HeapInsert 7 [2]], Ok 58) /\
  repair_final_segment_tail sum_crc (sum_crc 0) 1000 (killed_view killed_files)
    = Some (Ok None, killed_view killed_files) /\
  writer_open killed_files (advance_to_lsn (WalBuffer_new 4096 0) 58) [] = Ok (ws_driver reopened) /\
  map fst (appended (ws_events after_commit)) = [58] /\
  wait_for_record_durable (ws_driver after_commit) 58 = Durable /\
  (forall n, crash (w_files (ws_driver after_commit)) (keep_synced n (w_files (ws_driver after_commit)))) /\
  replay (power_loss 3) = Some ([sample_rec HeapInsert 7 [1]], Err (RecRecord (Truncated 28 3))) /\
  replay (power_loss 0) =
    Some ([sample_rec HeapInsert 7 [1]; sample_rec Commit 8 (le_encode 16 0)], Ok 73).
Proof.
  repeat split; try (vm_compute; reflexivity). intros n. apply keep_synced_crash.
  vm_compute. repeat constructor.
Qed.
