(* ===== verification/WalTruncate.v ===== *)
(** * Recycling WAL segments (ultrasql-wal, truncate.rs)

    The planner of the new recovery floor and the truncation that writes it
    and then unlinks the segments below it. Which of the unlinks take effect
    is an argument: a failed unlink is only logged by the code, and a crash
    may come between any two of them. *)

From S2P Require Import Prelude CoreIds WalRecord WalLog WalSegment WalPayload WalRecovery.

Record TruncationOutcome := mk_TruncationOutcome {
  to_floor : WalFloor;
  removed_segments : list Z;
  reclaimed_bytes : Z;
}.

Definition TruncationOutcome_noop (f : WalFloor) : TruncationOutcome := mk_TruncationOutcome f [] 0.

(** The contiguity loop of [plan_floor]. *)
Fixpoint contiguous (base offset : Z) (segments : list (Z * Z)) : bool :=
  match segments with
  | [] => true
  | (index, _) :: rest =>
      if U32 <=? offset then false else
      match checked_add U32 base offset with
      | None => false
      | Some expected => if index =? expected then contiguous base (offset + 1) rest else false
      end
  end.

(** Its second loop: the first segment reaching past the target, or the last. *)
Fixpoint plan_loop (current : WalFloor) (target start : Z) (segments : list (Z * Z)) : WalFloor :=
  match segments with
  | [] => current
  | (index, len) :: rest =>
      let seg_end := saturating_add U64 start len in
      if (target <? seg_end) || match rest with [] => true | _ => false end
      then mk_WalFloor index start
      else plan_loop current target seg_end rest
  end.

Definition plan_floor (current : WalFloor) (target_floor_lsn : Lsn) (segments : list (Z * Z)) : WalFloor :=
  match segments with
  | [] => current
  | (first_index, _) :: _ =>
      if negb (first_index =? segment_index current) then current else
      if negb (contiguous (segment_index current) 0 segments) then current else
      plan_loop current target_floor_lsn (floor_lsn current) segments
  end.

Definition segment_lens (segs : list (Z * list Z)) : list (Z * Z) :=
  map (fun seg => (seg.1, Z.of_nat (length seg.2))) segs.

Section truncate.
Context (crc32c : list Z -> Z).

(** [truncate_below]; [unlinked i] says that the unlink of segment [i] took
    effect. *)
Definition truncate_below (unlinked : Z -> bool) (d : WalDir) (target_floor_lsn : Lsn)
  : result TruncationOutcome RecoveryError * WalDir :=
  match read_floor crc32c d with
  | Err e => (Err e, d)
  | Ok current =>
      let all := list_segments d in
      let planning := segment_lens (List.filter (fun seg => segment_index current <=? seg.1) all) in
      let new_floor := plan_floor current target_floor_lsn planning in
      if segment_index new_floor =? segment_index current then (Ok (TruncationOutcome_noop current), d) else
      if target_floor_lsn <? floor_lsn new_floor then (Ok (TruncationOutcome_noop current), d) else
      let d1 := write_floor crc32c d new_floor in
      let gone := List.filter (fun seg => (seg.1 <? segment_index new_floor) && unlinked seg.1) all in
      (Ok (mk_TruncationOutcome new_floor (map fst gone)
             (foldl (fun acc seg => saturating_add U64 acc (Z.of_nat (length seg.2))) 0 gone)),
       mk_WalDir (wd_manifest d1) (foldr (fun seg files => delete seg.1 files) (wd_files d1) gone))
  end.
End truncate.

(** ** Live segments *)

Lemma elem_of_live floor d i b :
  (i, b) ∈ live_segments floor d <-> wd_files d !! i = Some b /\ segment_index floor <= i.
Proof.
  unfold live_segments. rewrite list_elem_of_In, List.filter_In. cbn. rewrite Z.leb_le.
  rewrite <- list_elem_of_In. unfold list_segments. rewrite merge_sort_Permutation.
  by rewrite elem_of_map_to_list.
Qed.

Lemma live_sorted floor d : seg_sorted (live_segments floor d).
Proof. apply filter_sorted, list_segments_listed. Qed.

(** The live segments depend on the files at or above the floor only. *)
Lemma live_segments_ext floor d d' :
  (forall i, segment_index floor <= i -> wd_files d !! i = wd_files d' !! i) ->
  live_segments floor d = live_segments floor d'.
Proof.
  intros H. pose proof (live_sorted floor d) as H1. pose proof (live_sorted floor d') as H2.
  apply seg_sorted_unique; [by apply seg_sorted_NoDup|by apply seg_sorted_le|done|].
  apply NoDup_Permutation; [by eapply NoDup_fmap_1, seg_sorted_NoDup|by eapply NoDup_fmap_1, seg_sorted_NoDup|].
  intros [i b]. rewrite !elem_of_live. split; intros [Hi Hle]; (split; [|done]).
  - by rewrite <- H.
  - by rewrite H.
Qed.

(** Raising the floor to a segment of the listing drops those before it. *)
Lemma live_segments_drop floor floor' d pre i b post :
  live_segments floor d = pre ++ (i, b) :: post -> segment_index floor <= i ->
  segment_index floor' = i -> live_segments floor' d = (i, b) :: post.
Proof.
  intros Hl Hi Hf. pose proof (live_sorted floor d) as Hs. rewrite Hl in Hs.
  assert (Hmid : live_segments floor' d = List.filter (fun seg => segment_index floor' <=? seg.1) (live_segments floor d)).
  { unfold live_segments. rewrite Hf. clear -Hi.
    induction (list_segments d) as [|[j c] l IH]; [done|]. cbn.
    destruct (Z.leb_spec (segment_index floor) j); cbn; destruct (Z.leb_spec i j); try (by rewrite IH); lia. }
  rewrite Hmid, Hl, List.filter_app. unfold seg_sorted in Hs. rewrite fmap_app in Hs.
  assert (Hpre : List.filter (fun seg : Z * list Z => segment_index floor' <=? seg.1) pre = []).
  { rewrite Hf. clear -Hs. induction pre as [|[j c] pre IH]; [done|]. cbn in *.
    apply StronglySorted_inv in Hs as [Hs Hx]. apply Forall_app in Hx as [_ Hx].
    apply Forall_cons in Hx as [Hx _]. cbn in Hx. rewrite (proj2 (Z.leb_gt _ _)) by done. by apply IH. }
  rewrite Hpre. cbn. rewrite Hf, Z.leb_refl. f_equal.
  assert (Hpost : StronglySorted Z.lt (i :: post.*1)) by (by apply StronglySorted_app_1_r in Hs).
  apply StronglySorted_inv in Hpost as [_ Hx]. clear -Hx.
  induction post as [|[j c] post IH]; [done|]. cbn in *. apply Forall_cons in Hx as [Hj Hx].
  rewrite (proj2 (Z.leb_le _ _)) by lia. by rewrite IH.
Qed.

(** ** The plan *)

(** The planner cuts the listing at a segment boundary: what is dropped is
    whole records ending at the new floor, at or below the target, and what is
    kept starts with the first segment reaching past it. *)
Lemma plan_loop_spec current target start segs groups tail :
  laid_out segs groups tail -> segs <> [] -> start + log_len (concat groups) < U64 -> 0 <= start ->
  exists pre i b post gpre gpost,
    segs = pre ++ (i, b) :: post /\ groups = gpre ++ gpost /\ length pre = length gpre /\
    laid_out ((i, b) :: post) gpost tail /\
    plan_loop current target start (segment_lens segs) = mk_WalFloor i (start + log_len (concat gpre)) /\
    (pre <> [] -> start + log_len (concat gpre) <= target) /\
    (post <> [] -> target < start + log_len (concat gpre) + Z.of_nat (length b)).
Proof.
  intros Hl Hne. revert groups start Hl. induction segs as [|[j c] segs IH]; intros groups start Hl Hend H0; [done|].
  destruct groups as [|g groups]; [done|]. cbn [segment_lens map fst snd plan_loop].
  fold (segment_lens segs). cbn [concat] in Hend. rewrite log_len_app in Hend.
  pose proof (log_len_nonneg (concat groups)). pose proof (log_len_nonneg g).
  destruct segs as [|seg segs].
  - rewrite orb_true_r. exists [], j, c, [], [], (g :: groups).
    cbn [concat app]. rewrite log_len_nil, Z.add_0_r. by repeat split.
  - assert (Hcl : c = log_bytes g /\ laid_out (seg :: segs) groups tail).
    { destruct groups; [by destruct seg; destruct Hl as [_ []]|done]. }
    destruct Hcl as [-> Hl']. fold (log_len g). unfold saturating_add.
    rewrite Z.min_l by lia. cbn [segment_lens map orb]. rewrite orb_false_r.
    destruct (Z.ltb_spec target (start + log_len g)).
    + exists [], j, (log_bytes g), (seg :: segs), [], (g :: groups). cbn [concat app].
      rewrite log_len_nil, Z.add_0_r. unfold log_len in *. by repeat split.
    + destruct (IH ltac:(done) groups (start + log_len g) Hl') as
        (pre & i & b & post & gpre & gpost & Hsegs & -> & Hlen & H3 & H4 & H5 & H6); [lia..|].
      exists ((j, log_bytes g) :: pre), i, b, post, (g :: gpre), gpost. cbn [concat app].
      rewrite log_len_app, Z.add_assoc, <- Hsegs. split; [done|]. split; [done|]. split; [cbn; lia|].
      split; [done|]. split; [done|]. split; [|done]. intros _.
      destruct pre; [|by apply H5]. destruct gpre; [|done]. cbn. rewrite log_len_nil. lia.
Qed.

Lemma delete_all_lookup (gone : list (Z * list Z)) (files : gmap Z (list Z)) j :
  j ∉ map fst gone -> foldr (fun seg files => delete seg.1 files) files gone !! j = files !! j.
Proof.
  induction gone as [|[k c] gone IH]; [done|]. cbn. intros Hj.
  rewrite lookup_delete_ne by set_solver. apply IH. set_solver.
Qed.
Section truncation.
Context (crc32c_append : Z -> list Z -> Z) (crc32c : list Z -> Z) (limit : Z).

(** A directory whose manifest is the new floor and whose files agree from the
    new floor on, whatever is left below it. *)
Lemma cut_image d d' floor i start pre b post gpre gpost tail :
  wal_image crc32c_append crc32c limit d floor (gpre ++ gpost) tail ->
  live_segments floor d = pre ++ (i, b) :: post -> laid_out ((i, b) :: post) gpost tail ->
  start = floor_lsn floor + log_len (concat gpre) ->
  segment_index floor <= i ->
  read_floor crc32c d' = Ok (mk_WalFloor i start) ->
  (forall j, i <= j -> wd_files d' !! j = wd_files d !! j) ->
  wal_image crc32c_append crc32c limit d' (mk_WalFloor i start) gpost tail.
Proof.
  intros [Hf Hl Hok Ht Hsz Hlim H0 He] Hlive Hlay -> Hi Hf' Hext.
  assert (Hl' : live_segments (mk_WalFloor i (floor_lsn floor + log_len (concat gpre))) d' = (i, b) :: post).
  { rewrite (live_segments_ext _ _ d) by (intros j Hj; by apply Hext).
    by eapply live_segments_drop. }
  rewrite concat_app, log_len_app in He. pose proof (log_len_nonneg (concat gpre)).
  split; cbn [floor_lsn]; try done; try lia.
  - by rewrite Hl'.
  - by apply Forall_app in Hok as [_ ?].
  - rewrite Hl'. rewrite Hlive in Hsz. by apply Forall_app in Hsz as [_ ?].
Qed.

End truncation.

(** A truncation that cut the log at a segment boundary at or below the
    target: every directory with the manifest it wrote and the files from the
    new floor on, whatever is left of those below, is an image of the rest. *)
Definition cut_ok (crc32c_append : Z -> list Z -> Z) (crc32c : list Z -> Z) (limit : Z) (d : WalDir)
    (floor : WalFloor) (groups : list (list WalRecord)) (tail : list Z) (target : Lsn)
    (floor' : WalFloor) (manifest' : option (list Z)) : Prop :=
  exists gpre gpost, groups = gpre ++ gpost /\
    floor_lsn floor' = floor_lsn floor + log_len (concat gpre) /\
    (gpre <> [] -> floor_lsn floor' <= target) /\
    forall files, (forall j, segment_index floor' <= j -> files !! j = wd_files d !! j) ->
      wal_image crc32c_append crc32c limit (mk_WalDir manifest' files) floor' gpost tail.

Lemma cut_noop crc32c_append crc32c limit d floor groups tail target :
  wal_image crc32c_append crc32c limit d floor groups tail ->
  cut_ok crc32c_append crc32c limit d floor groups tail target floor (wd_manifest d).
Proof.
  intros [Hf Hl Hok Ht Hsz Hlim H0 He]. exists [], groups. cbn. rewrite log_len_nil, Z.add_0_r.
  split; [done|]. split; [done|]. split; [done|]. intros files Hext.
  assert (live_segments floor (mk_WalDir (wd_manifest d) files) = live_segments floor d) as El
    by (by apply live_segments_ext).
  by split; rewrite ?El.
Qed.

(** When the planner moves the floor, the listing starts at the old one. *)
Lemma plan_floor_moves floor target segs :
  segment_index (plan_floor floor target (segment_lens segs)) <> segment_index floor ->
  plan_floor floor target (segment_lens segs) = plan_loop floor target (floor_lsn floor) (segment_lens segs) /\
  exists c rest, segs = (segment_index floor, c) :: rest.
Proof.
  unfold plan_floor. destruct segs as [|[j c] segs]; [done|]. cbn [segment_lens map fst snd].
  destruct (Z.eqb_spec j (segment_index floor)) as [->|]; [|done]. cbn [negb].
  destruct (contiguous _ _ _); [|done]. cbn [negb]. eauto.
Qed.

Lemma truncate_below_cut crc32c_append crc32c limit unlinked d floor groups tail target :
  (forall l, in_width U32 (crc32c l)) ->
  wal_image crc32c_append crc32c limit d floor groups tail ->
  Forall (fun seg : Z * list Z => in_width U32 seg.1) (live_segments floor d) ->
  exists out d', truncate_below crc32c unlinked d target = (Ok out, d') /\
    cut_ok crc32c_append crc32c limit d floor groups tail target (to_floor out) (wd_manifest d') /\
    (forall j, segment_index (to_floor out) <= j -> wd_files d' !! j = wd_files d !! j) /\
    Forall (fun j => j < segment_index (to_floor out)) (removed_segments out).
Proof.
  intros Hc Hi Hw. pose proof Hi as [Hf Hl Hok Ht Hsz Hlim H0 He].
  pose proof (cut_noop _ _ _ _ _ _ _ target Hi) as Hid.
  unfold truncate_below. rewrite Hf. fold (live_segments floor d).
  destruct (Z.eqb_spec (segment_index (plan_floor floor target (segment_lens (live_segments floor d))))
    (segment_index floor)) as [|Hne].
  { exists (TruncationOutcome_noop floor), d. by repeat split. }
  destruct (plan_floor_moves _ _ _ Hne) as [Hplan (c & rest & Hhd)]. rewrite Hplan in *. clear Hplan.
  destruct (plan_loop_spec floor target (floor_lsn floor) _ _ _ Hl ltac:(by rewrite Hhd) He H0) as
    (pre & i & b & post & gpre & gpost & Hsegs & -> & Hlen & Hlay & Hp & Hle & _).
  rewrite Hp in *. cbn [segment_index floor_lsn] in *.
  assert (Hpre : pre <> []) by (intros ->; rewrite Hsegs in Hhd; cbn in Hhd; congruence).
  rewrite (proj2 (Z.ltb_ge _ _)) by (by apply Hle).
  assert (Hidx : segment_index floor <= i /\ in_width U32 i).
  { split.
    - apply (elem_of_live floor d i b). rewrite Hsegs. set_solver.
    - rewrite Hsegs in Hw. apply Forall_app in Hw as [_ Hw]. by apply Forall_cons in Hw as [? _]. }
  destruct Hidx as [Hidx Hiw]. eexists _, _. split; [reflexivity|]. cbn [to_floor removed_segments].
  set (start := floor_lsn floor + log_len (concat gpre)) in *.
  rewrite concat_app, log_len_app in He.
  pose proof (log_len_nonneg (concat gpre)). pose proof (log_len_nonneg (concat gpost)).
  split; [|split].
  - exists gpre, gpost. split; [done|]. split; [done|]. split; [intros _; by apply Hle|].
    intros files Hext. eapply cut_image; try done.
    apply (read_floor_write crc32c Hc (mk_WalDir None files)); [done|]. cbn. unfold in_width, start. lia.
  - intros j Hj. cbn [wd_files write_floor]. apply delete_all_lookup.
    intros [[k ck] [-> Hin]]%list_elem_of_fmap. apply list_elem_of_In, List.filter_In in Hin as [_ Hk].
    apply andb_prop in Hk as [Hk%Z.ltb_lt _]. cbn in *. lia.
  - apply Forall_forall. intros j [[k ck] [-> Hin]]%list_elem_of_fmap.
    apply list_elem_of_In, List.filter_In in Hin as [_ Hk]. by apply andb_prop in Hk as [Hk%Z.ltb_lt _].
Qed.

(** ** Properties *)

(** C30. Recycling loses nothing recovery needs. On any image of a log, a
    truncation succeeds; it drops whole records only, all of them ending at or
    below the target, never a segment holding anything later; and whatever
    unlinks took effect, also when a crash interrupts them, recovery replays
    exactly the kept records, each at the LSN it had, and returns the same end
    of the log as before. *)
Theorem truncation_safe crc32c_append crc32c limit unlinked d floor groups tail target dr dp
    {S} (apply : S -> WalRecord -> S * result unit RecoveryError) (f : S -> WalRecord -> S) (s : S) :
  (forall l, in_width U32 (crc32c l)) ->
  wal_image crc32c_append crc32c limit d floor groups tail ->
  Forall (fun seg : Z * list Z => in_width U32 seg.1) (live_segments floor d) ->
  (forall s r, apply s r = (f s r, Ok tt)) ->
  exists out d' dropped kept,
    truncate_below crc32c unlinked d target = (Ok out, d') /\
    log_at (floor_lsn floor) (concat groups) = dropped ++ log_at (floor_lsn (to_floor out)) kept /\
    Forall (fun lr => ends_after target lr = false) dropped /\
    Forall (fun j => j < segment_index (to_floor out)) (removed_segments out) /\
    forall files,
      (forall j, segment_index (to_floor out) <= j -> files !! j = wd_files d' !! j) ->
      recover crc32c_append crc32c limit dr dp apply (mk_WalDir (wd_manifest d') files) s =
        Some (foldl f s kept, Ok (floor_lsn floor + log_len (concat groups))).
Proof.
  intros Hc Hi Hw Hf.
  destruct (truncate_below_cut _ _ _ unlinked _ _ _ _ target Hc Hi Hw) as
    (out & d' & Ht & (gpre & gpost & -> & Hfl & Hle & Himg) & Hsame & Hrm).
  exists out, d', (log_at (floor_lsn floor) (concat gpre)), (concat gpost).
  split; [done|]. split; [by rewrite concat_app, log_at_app, Hfl|]. split; [|split; [done|]].
  - apply Forall_forall. intros [lsn r] [k Hk]%list_elem_of_lookup. pose proof Hk as Hk'.
    apply log_at_lookup in Hk' as [Hr ->]. unfold ends_after. cbn. apply Z.ltb_ge.
    assert (Hne : gpre <> []) by (intros ->; done). specialize (Hle Hne). rewrite Hfl in Hle.
    rewrite <- (take_drop_middle _ _ _ Hr), log_len_app, log_len_cons in Hle.
    pose proof (log_len_nonneg (drop (Datatypes.S k) (concat gpre))). lia.
  - intros files Hext. unfold recover.
    assert (Hd2 : wal_image crc32c_append crc32c limit (mk_WalDir (wd_manifest d') files) (to_floor out) gpost tail).
    { apply Himg. intros j Hj. rewrite Hext by done. by apply Hsame. }
    rewrite (recover_image dr dp apply _ _ _ _ _ _ _ _ _ Hd2) by done.
    rewrite (log_replay_all dr dp apply f) by done. rewrite Hfl, concat_app, log_len_app. by rewrite Z.add_assoc.
Qed.

Lemma truncation_safe_witness :
  exists out d' dropped kept,
    truncate_below (sum_crc 0) (fun _ => false) sample_dir 4170 = (Ok out, d') /\
    log_at 4096 (concat sample_groups) = dropped ++ log_at (floor_lsn (to_floor out)) kept /\
    Forall (fun lr => ends_after 4170 lr = false) dropped /\
    Forall (fun j => j < segment_index (to_floor out)) (removed_segments out) /\
    forall files,
      (forall j, segment_index (to_floor out) <= j -> files !! j = wd_files d' !! j) ->
      recover sum_crc (sum_crc 0) 1000 (fun _ => "error"%string) (fun _ => "error"%string) collect
        (mk_WalDir (wd_manifest d') files) [] =
        Some (foldl (fun l r => l ++ [r]) [] kept, Ok (4096 + log_len (concat sample_groups))).
Proof.
  apply (truncation_safe sum_crc (sum_crc 0) 1000 (fun _ => false) sample_dir (mk_WalFloor 3 4096)
    sample_groups sample_tail 4170 _ _ collect (fun l r => l ++ [r]) []).
  - intros l. apply sum_crc_u32.
  - apply sample_image.
  - apply (bool_decide_unpack _). vm_compute. done.
  - done.
Defined.
