(* ===== verification/WalReader.v ===== *)
(** * The WAL stream reader (ultrasql-wal, reader.rs)

    [read_wal_range] reads the records of an LSN range for a standby. The
    messages of its two [Applier] errors are written without the numbers they
    print. *)

From S2P Require Import Prelude CoreIds WalRecord WalLog WalSegment WalPayload WalRecovery.

Record WalStreamRecord := mk_WalStreamRecord {
  sr_lsn : Lsn;
  sr_end_lsn : Lsn;
  sr_record_type : RecordType;
  sr_bytes : list Z;
}.

Record WalStream := mk_WalStream { st_records : list WalStreamRecord; st_next_lsn : Lsn }.

(** The loop variables. *)
Record read_pos := mk_read_pos { rp_stream_pos : Z; rp_next : Z; rp_records : list WalStreamRecord }.

Inductive read_result :=
| ReadOn (p : read_pos)                               (* segment exhausted *)
| ReadReturn (r : result WalStream RecoveryError)      (* the function returns *)
| ReadFuel.                                            (* not reached *)

Section reader.
Context (crc32c_append : Z -> list Z -> Z) (crc32c : list Z -> Z).

Fixpoint read_segment (fuel : nat) (from_lsn to_lsn : Lsn) (buf : list Z) (offset : nat) (p : read_pos)
  : read_result :=
  match fuel with
  | O => ReadFuel
  | S fuel' =>
      if negb (offset <? length buf)%nat then ReadOn p else
      match record_decode crc32c_append (drop offset buf) with
      | Err e => ReadReturn (Err (RecRecord e))
      | Ok (record, used) =>
          let record_start := rp_stream_pos p in
          match checked_add U64 record_start (Z.of_nat used) with
          | None => ReadReturn (Err (RecApplier "WAL stream lsn overflow"))
          | Some record_end =>
              if to_lsn <? record_end then ReadReturn (Ok (mk_WalStream (rp_records p) (rp_next p))) else
              let p' :=
                if from_lsn <=? record_start then
                  mk_read_pos record_end record_end
                    (rp_records p ++ [mk_WalStreamRecord record_start record_end
                       (record_type (rec_header record)) (slice offset (offset + used) buf)])
                else mk_read_pos record_end (rp_next p) (rp_records p) in
              read_segment fuel' from_lsn to_lsn buf (offset + used) p'
          end
      end
  end.

Fixpoint read_segments (from_lsn to_lsn : Lsn) (segments : list (Z * list Z)) (p : read_pos)
  : option (result WalStream RecoveryError) :=
  match segments with
  | [] => Some (Ok (mk_WalStream (rp_records p) (rp_next p)))
  | (_, buf) :: rest =>
      match read_segment (S (length buf)) from_lsn to_lsn buf 0 p with
      | ReadOn p' => read_segments from_lsn to_lsn rest p'
      | ReadReturn r => Some r
      | ReadFuel => None
      end
  end.

Definition read_wal_range (d : WalDir) (from_lsn to_lsn : Lsn) : option (result WalStream RecoveryError) :=
  if to_lsn <=? from_lsn then Some (Ok (mk_WalStream [] from_lsn)) else
  match read_floor crc32c d with
  | Err e => Some (Err e)
  | Ok floor =>
      if from_lsn <? floor_lsn floor
      then Some (Err (RecApplier "WAL stream start lsn is below the recovery floor")) else
      let segments := List.filter (fun seg => segment_index floor <=? seg.1) (list_segments d) in
      read_segments from_lsn to_lsn segments (mk_read_pos (floor_lsn floor) from_lsn [])
  end.
End reader.

(** ** The range of the abstract log *)

Definition stream_record (lr : Lsn * WalRecord) : WalStreamRecord :=
  mk_WalStreamRecord lr.1 (lr.1 + Z.of_nat (length (record_bytes lr.2)))
    (record_type (rec_header lr.2)) (record_bytes lr.2).

Definition in_range (from to : Lsn) (lr : Lsn * WalRecord) : bool :=
  (from <=? lr.1) && (lr.1 + Z.of_nat (length (record_bytes lr.2)) <=? to).

Definition range_of (from to : Lsn) (log : list (Lsn * WalRecord)) : list WalStreamRecord :=
  map stream_record (List.filter (in_range from to) log).

(** Where the next read resumes. *)
Definition resume_at (from : Lsn) (recs : list WalStreamRecord) : Lsn :=
  match last recs with Some r => sr_end_lsn r | None => from end.

Section reader_lemmas.
Context (crc32c_append : Z -> list Z -> Z).

Lemma range_app from to l l' : range_of from to (l ++ l') = range_of from to l ++ range_of from to l'.
Proof. unfold range_of. by rewrite List.filter_app, map_app. Qed.

(** Past the first record ending after [to] nothing is in range. *)
Lemma range_past from to pos rs : to < pos -> range_of from to (log_at pos rs) = [].
Proof.
  revert pos. induction rs as [|r rs IH]; intros pos Hp; [done|]. unfold range_of in *. cbn.
  unfold in_range at 1. cbn. rewrite (proj2 (Z.leb_gt _ to)) by lia. rewrite andb_false_r. apply IH. lia.
Qed.

(** What the loop does on the records of one segment. *)
Definition advance (from : Lsn) (p : read_pos) (base : Lsn) (rs : list WalRecord) (to : Lsn) : read_pos :=
  mk_read_pos (base + log_len rs) (resume_at (rp_next p) (range_of from to (log_at base rs)))
    (rp_records p ++ range_of from to (log_at base rs)).

Lemma resume_app from l l' : resume_at from (l ++ l') = resume_at (resume_at from l) l'.
Proof.
  destruct l' as [|x l' _] using rev_ind; [by rewrite app_nil_r|].
  unfold resume_at. by rewrite app_assoc, !last_snoc.
Qed.

Lemma read_segment_log fuel from to pre rs tail p :
  Forall (record_ok crc32c_append) rs -> (length rs < fuel)%nat ->
  rp_stream_pos p + log_len rs < U64 -> rp_stream_pos p <= to ->
  let p' := advance from p (rp_stream_pos p) rs to in
  read_segment crc32c_append fuel from to (pre ++ log_bytes rs ++ tail) (length pre) p =
    if to <? rp_stream_pos p + log_len rs then ReadReturn (Ok (mk_WalStream (rp_records p') (rp_next p')))
    else read_segment crc32c_append (fuel - length rs) from to (pre ++ log_bytes rs ++ tail)
           (length pre + length (log_bytes rs)) p'.
Proof.
  intros Hok. revert fuel pre p. induction Hok as [|r rs Hr Hok IH]; intros fuel pre p Hf Hend Hto p'.
  - unfold p', advance, range_of, resume_at. cbn [log_at List.filter map last].
    rewrite log_bytes_nil, log_len_nil, Z.add_0_r, app_nil_r. cbn [app length].
    rewrite Nat.sub_0_r, Nat.add_0_r, (proj2 (Z.ltb_ge _ _)) by done. by destruct p.
  - unfold p'. clear p'. destruct fuel as [|fuel]; [cbn in Hf; lia|].
    rewrite log_bytes_cons, <- app_assoc, log_len_cons in *.
    pose proof (record_bytes_nonempty r) as Hne. unfold RECORD_HEADER_SIZE in Hne.
    pose proof (log_len_nonneg rs).
    set (e := rp_stream_pos p + Z.of_nat (length (record_bytes r))) in *.
    assert (Hr1 : range_of from to (log_at (rp_stream_pos p) (r :: rs)) =
      (if in_range from to (rp_stream_pos p, r) then [stream_record (rp_stream_pos p, r)] else [])
      ++ range_of from to (log_at e rs)).
    { unfold range_of. cbn [log_at List.filter]. fold e. by destruct (in_range _ _ _). }
    unfold advance. rewrite Hr1, log_len_cons, resume_app, (app_assoc (rp_records p)), !Z.add_assoc. fold e.
    cbn [read_segment length Nat.sub].
    rewrite (proj2 (Nat.ltb_lt _ _)) by (rewrite !length_app; lia). cbn [negb].
    rewrite drop_app_length, record_decode_ok by done. unfold checked_add. fold e.
    rewrite (proj2 (Z.ltb_lt _ U64)) by lia.
    assert (Hin : in_range from to (rp_stream_pos p, r) = (from <=? rp_stream_pos p) && (e <=? to)) by done.
    rewrite Hin. destruct (Z.ltb_spec to e) as [Hlt|Hge].
    + rewrite (proj2 (Z.leb_gt _ _) Hlt), andb_false_r, (range_past from to e rs) by done.
      rewrite (proj2 (Z.ltb_lt to _)) by lia. cbn [rp_records rp_next resume_at last]. by rewrite !app_nil_r.
    + rewrite (proj2 (Z.leb_le _ _) Hge), andb_true_r.
      set (q := if from <=? rp_stream_pos p then _ else _).
      assert (Hq : q = mk_read_pos e
        (resume_at (rp_next p) (if from <=? rp_stream_pos p then [stream_record (rp_stream_pos p, r)] else []))
        (rp_records p ++ (if from <=? rp_stream_pos p then [stream_record (rp_stream_pos p, r)] else []))).
      { unfold q, stream_record. cbn [fst snd]. fold e. destruct (from <=? _); [|by rewrite app_nil_r].
        unfold resume_at. cbn. do 4 f_equal. unfold slice.
        rewrite drop_app_length. replace (_ + _ - _)%nat with (length (record_bytes r)) by lia. apply take_app_length. }
      clearbody q. subst q. rewrite app_assoc, <- length_app.
      rewrite IH by (cbn [rp_stream_pos]; cbn in Hf; lia).
      cbn [rp_stream_pos rp_next rp_records advance]. rewrite <- !app_assoc, length_app.
      replace (length pre + length (record_bytes r) + length (log_bytes rs))%nat
        with (length pre + length (record_bytes r ++ log_bytes rs))%nat by (rewrite length_app; lia).
      unfold advance. cbn [rp_next rp_records]. by rewrite <- !app_assoc.
Qed.

Lemma length_log_records g : (length g <= length (log_bytes g))%nat.
Proof.
  induction g as [|r g IHg]; [done|]. rewrite log_bytes_cons, length_app. cbn [length].
  pose proof (record_bytes_nonempty r). unfold RECORD_HEADER_SIZE in *. lia.
Qed.

(** The reader on the segments of an image: the records in range, unless it
    gets past them all and meets residue. *)
Lemma read_segments_log from to segs groups tail p :
  laid_out segs groups tail -> segs <> [] -> Forall (Forall (record_ok crc32c_append)) groups ->
  torn_tail crc32c_append tail ->
  rp_stream_pos p + log_len (concat groups) < U64 -> rp_stream_pos p <= to ->
  let p' := advance from p (rp_stream_pos p) (concat groups) to in
  if decide (tail = []) then
    read_segments crc32c_append from to segs p = Some (Ok (mk_WalStream (rp_records p') (rp_next p')))
  else if to <? rp_stream_pos p + log_len (concat groups) then
    read_segments crc32c_append from to segs p = Some (Ok (mk_WalStream (rp_records p') (rp_next p')))
  else exists e, record_decode crc32c_append tail = Err e /\
    read_segments crc32c_append from to segs p = Some (Err (RecRecord e)).
Proof.
  intros Hl Hne Hok Ht. revert groups p Hl Hok. induction segs as [|[j b] segs IH]; intros groups p Hl Hok Hend Hto p'; [done|].
  destruct groups as [|g groups]; [done|]. apply Forall_cons in Hok as [Hg Hok].
  cbn [concat] in *. rewrite log_len_app in Hend. pose proof (log_len_nonneg (concat groups)).
  pose proof (log_len_nonneg g). pose proof (length_log_records g) as Hcount. unfold p'. clear p'.
  destruct segs as [|seg segs].
  - assert (groups = []) as -> by (destruct groups; [done|by destruct Hl as [_ []]]).
    cbn [laid_out] in Hl. subst b. cbn [concat read_segments]. rewrite app_nil_r.
    pose proof (read_segment_log (S (length (log_bytes g ++ tail))) from to [] g tail p Hg) as Hs.
    cbn [app length] in Hs. cbn zeta in Hs. rewrite Hs by (rewrite ?length_app; lia). clear Hs.
    destruct (Z.ltb_spec to (rp_stream_pos p + log_len g)) as [Hlt|Hge]; [by destruct (decide (tail = []))|].
    rewrite Nat.add_0_l. destruct (decide (tail = [])) as [->|Hnt].
    + rewrite app_nil_r. destruct (S (length (log_bytes g)) - length g)%nat as [|k] eqn:Ek; [lia|].
      cbn [read_segment]. by rewrite Nat.ltb_irrefl.
    + destruct Ht as [?|(e & He & _)]; [done|]. exists e. split; [done|].
      rewrite length_app. destruct (S (length (log_bytes g) + length tail) - length g)%nat as [|k] eqn:Ek; [lia|].
      cbn [read_segment]. assert (0 < length tail)%nat by (destruct tail; [done|cbn; lia]).
      rewrite (proj2 (Nat.ltb_lt _ _)) by (rewrite length_app; lia). cbn [negb].
      by rewrite drop_app_length, He.
  - assert (Hcl : b = log_bytes g /\ laid_out (seg :: segs) groups tail).
    { destruct groups; [by destruct seg; destruct Hl as [_ []]|done]. }
    destruct Hcl as [-> Hl']. cbn [read_segments].
    pose proof (read_segment_log (S (length (log_bytes g))) from to [] g [] p Hg) as Hs.
    cbn [app length] in Hs. rewrite app_nil_r in Hs. cbn zeta in Hs. rewrite Hs by lia. clear Hs.
    rewrite Nat.add_0_l, log_len_app, Z.add_assoc.
    assert (Hadv : advance from (advance from p (rp_stream_pos p) g to) (rp_stream_pos p + log_len g) (concat groups) to
      = advance from p (rp_stream_pos p) (g ++ concat groups) to).
    { unfold advance. cbn [rp_records rp_next]. rewrite log_at_app, range_app, resume_app, log_len_app.
      by rewrite app_assoc, Z.add_assoc. }
    destruct (Z.ltb_spec to (rp_stream_pos p + log_len g)) as [Hlt|Hge].
    + rewrite (proj2 (Z.ltb_lt to _)) by lia.
      assert (Hst : mk_WalStream (rp_records (advance from p (rp_stream_pos p) g to))
          (rp_next (advance from p (rp_stream_pos p) g to)) =
        mk_WalStream (rp_records (advance from p (rp_stream_pos p) (g ++ concat groups) to))
          (rp_next (advance from p (rp_stream_pos p) (g ++ concat groups) to))).
      { unfold advance. cbn [rp_records rp_next]. rewrite log_at_app, range_app.
        rewrite (range_past from to (rp_stream_pos p + log_len g)) by done. by rewrite !app_nil_r. }
      rewrite Hst. by destruct (decide (tail = [])).
    + destruct (S (length (log_bytes g)) - length g)%nat as [|k] eqn:Ek; [lia|].
      cbn [read_segment]. rewrite Nat.ltb_irrefl. cbn [negb].
      pose proof (IH ltac:(done) groups (advance from p (rp_stream_pos p) g to) Hl' Hok) as Hi.
      cbn [advance rp_stream_pos] in Hi. fold (advance from p (rp_stream_pos p) g to) in Hi.
      cbn zeta in Hi. rewrite Hadv in Hi. apply Hi; lia.
Qed.
End reader_lemmas.

(** ** Properties *)

(** The stream reader returns exactly the records that lie in the range,
    with their LSNs and their bytes, and the LSN to resume at, on every image
    of a log that has no residue or has a record past the range. When the
    range reaches the last whole record and residue follows it (the record the
    writer is in the middle of writing), the call fails: it decodes what
    follows before it compares with the bound, so it does touch bytes above
    [to_lsn]. *)
Theorem read_range_exact crc32c_append crc32c limit d floor groups tail from_lsn to_lsn :
  wal_image crc32c_append crc32c limit d floor groups tail ->
  floor_lsn floor <= from_lsn -> from_lsn < to_lsn ->
  let log := log_at (floor_lsn floor) (concat groups) in
  let recs := range_of from_lsn to_lsn log in
  (tail = [] \/ to_lsn < floor_lsn floor + log_len (concat groups) ->
   read_wal_range crc32c_append crc32c d from_lsn to_lsn =
     Some (Ok (mk_WalStream recs (resume_at from_lsn recs)))) /\
  (tail <> [] -> floor_lsn floor + log_len (concat groups) <= to_lsn ->
   exists e, record_decode crc32c_append tail = Err e /\
     read_wal_range crc32c_append crc32c d from_lsn to_lsn = Some (Err (RecRecord e))).
Proof.
  intros [Hf Hl Hok Ht Hsz Hlim H0 He] Hfrom Hto log recs.
  unfold read_wal_range. rewrite (proj2 (Z.leb_gt _ _) Hto), Hf, (proj2 (Z.ltb_ge _ _) Hfrom).
  fold (live_segments floor d). destruct (live_segments floor d) as [|seg segs] eqn:Es.
  { destruct groups; [|done]. cbn in Hl. subst tail. split; [done|]. by intros. }
  pose proof (read_segments_log crc32c_append from_lsn to_lsn (seg :: segs) groups tail
    (mk_read_pos (floor_lsn floor) from_lsn []) Hl ltac:(done) Hok Ht) as H.
  cbn [rp_stream_pos rp_next rp_records advance app] in H. cbn zeta in H. specialize (H He ltac:(lia)).
  fold log in H. fold recs in H. split.
  - intros Hc. destruct (decide (tail = [])) as [->|]; [exact H|]. destruct Hc as [?|Hc]; [done|].
    by rewrite (proj2 (Z.ltb_lt _ _) Hc) in H.
  - intros Hn Hc. rewrite decide_False in H by done. by rewrite (proj2 (Z.ltb_ge _ _) Hc) in H.
Qed.

Lemma read_range_exact_witness :
  match read_wal_range sum_crc (sum_crc 0) sample_dir 4127 4199 with
  | Some (Ok st) => map sr_lsn (st_records st) = [4127] /\ st_next_lsn st = 4156
  | _ => False
  end /\
  exists e, record_decode sum_crc sample_tail = Err e /\
    read_wal_range sum_crc (sum_crc 0) sample_dir 4127 4200 = Some (Err (RecRecord e)).
Proof.
  destruct (read_range_exact sum_crc (sum_crc 0) 1000 sample_dir (mk_WalFloor 3 4096) sample_groups
    sample_tail 4127 4199 sample_image) as [H _]; [done|done|].
  destruct (read_range_exact sum_crc (sum_crc 0) 1000 sample_dir (mk_WalFloor 3 4096) sample_groups
    sample_tail 4127 4200 sample_image) as [_ H']; [done|done|].
  split.
  - rewrite H by (right; vm_compute; reflexivity). by split; vm_compute.
  - apply H'; vm_compute; congruence.
Defined.
