(* ===== verification/Bytes.v ===== *)
(** * Fixed-size byte buffers

    The pages of the storage engine are byte arrays addressed by offset. This
    file gives the two accesses everything else is built from, reading a range
    and overwriting a range, with the laws that say which reads a write
    affects. Offsets are integers, as the [usize] values of the source. *)

From S2P Require Import Prelude.

Definition zlen (l : list Z) : Z := Z.of_nat (length l).

(** [&bytes[a..b]]. *)
Definition zslice (a b : Z) (l : list Z) : list Z := take (Z.to_nat (b - a)) (drop (Z.to_nat a) l).

(** [bytes[off..off + new.len()].copy_from_slice(new)]. *)
Definition zsplice (off : Z) (new l : list Z) : list Z :=
  take (Z.to_nat off) l ++ new ++ drop (Z.to_nat off + length new) l.

(** [bytes.copy_within(a..b, dest)]. *)
Definition copy_within (a b dest : Z) (l : list Z) : list Z := zsplice dest (zslice a b l) l.

(** The little-endian integer of [n] bytes at [off]. *)
Definition zread (n : nat) (off : Z) (l : list Z) : Z := le_decode (zslice off (off + Z.of_nat n) l).

Lemma zlen_nonneg l : 0 <= zlen l.
Proof. unfold zlen. lia. Qed.

Lemma zlen_app l k : zlen (l ++ k) = zlen l + zlen k.
Proof. unfold zlen. rewrite length_app. lia. Qed.

Lemma zlen_enc n v : zlen (le_encode n v) = Z.of_nat n.
Proof. unfold zlen. by rewrite length_le_encode. Qed.

Lemma zlen_slice a b l : 0 <= a <= b -> b <= zlen l -> zlen (zslice a b l) = b - a.
Proof. unfold zlen, zslice. intros. rewrite length_take, length_drop. lia. Qed.

Lemma zlen_splice off new l : 0 <= off -> off + zlen new <= zlen l -> zlen (zsplice off new l) = zlen l.
Proof. unfold zlen, zsplice. intros. rewrite !length_app, length_take, length_drop. lia. Qed.

Lemma zslice_lookup a b l i :
  zslice a b l !! i = if decide (Z.of_nat i < b - a) then l !! (Z.to_nat a + i)%nat else None.
Proof.
  unfold zslice. case_decide.
  - rewrite lookup_take_lt by lia. by rewrite lookup_drop.
  - by rewrite lookup_take_ge by lia.
Qed.

Lemma zsplice_lookup off new l i :
  0 <= off -> off + zlen new <= zlen l ->
  zsplice off new l !! i =
    if decide (off <= Z.of_nat i < off + zlen new) then new !! (i - Z.to_nat off)%nat else l !! i.
Proof.
  unfold zsplice, zlen. intros H0 Hf.
  destruct (decide (Z.of_nat i < off)).
  { rewrite lookup_app_l by (rewrite length_take; lia). rewrite lookup_take_lt by lia.
    by rewrite decide_False by lia. }
  rewrite lookup_app_r by (rewrite length_take; lia). rewrite length_take.
  replace (i - Nat.min (Z.to_nat off) (length l))%nat with (i - Z.to_nat off)%nat by lia.
  case_decide.
  - by rewrite lookup_app_l by lia.
  - rewrite lookup_app_r by lia. rewrite lookup_drop. f_equal. lia.
Qed.

(** A range that misses the write is unchanged. *)
Lemma zslice_splice_out a b off new l :
  0 <= off -> off + zlen new <= zlen l -> 0 <= a -> b <= off \/ off + zlen new <= a ->
  zslice a b (zsplice off new l) = zslice a b l.
Proof.
  intros H0 Hf Ha Hd. apply list_eq. intros i. rewrite !zslice_lookup. case_decide; [|done].
  rewrite zsplice_lookup by done. rewrite decide_False; [done|]. lia.
Qed.

(** The written range reads back. *)
Lemma zslice_splice_in off new l :
  0 <= off -> off + zlen new <= zlen l -> zslice off (off + zlen new) (zsplice off new l) = new.
Proof.
  intros H0 Hf. apply list_eq. intros i. rewrite zslice_lookup. case_decide.
  - rewrite zsplice_lookup by done. rewrite decide_True by lia. f_equal. lia.
  - symmetry. apply lookup_ge_None. unfold zlen in *. lia.
Qed.

(** A range inside the written one reads the new bytes. *)
Lemma zslice_splice_sub a b off new l :
  0 <= off -> off + zlen new <= zlen l -> off <= a -> a <= b -> b <= off + zlen new ->
  zslice a b (zsplice off new l) = zslice (a - off) (b - off) new.
Proof.
  intros H0 Hf Ha Hab Hb. apply list_eq. intros i. rewrite !zslice_lookup.
  replace (b - off - (a - off)) with (b - a) by lia. case_decide; [|done].
  rewrite zsplice_lookup by done. rewrite decide_True by lia. f_equal. lia.
Qed.

Lemma zsplice_bytes off new l :
  Forall is_byte new -> Forall is_byte l -> Forall is_byte (zsplice off new l).
Proof. intros. unfold zsplice. rewrite !Forall_app. auto using Forall_take, Forall_drop. Qed.

Lemma zslice_bytes a b l : Forall is_byte l -> Forall is_byte (zslice a b l).
Proof. intros. unfold zslice. auto using Forall_take, Forall_drop. Qed.

Lemma zslice_app_l a b l k : 0 <= a -> b <= zlen l -> zslice a b (l ++ k) = zslice a b l.
Proof.
  intros Ha Hb. apply list_eq. intros i. rewrite !zslice_lookup. case_decide; [|done].
  apply lookup_app_l. unfold zlen in *. lia.
Qed.

Lemma zslice_app_r a b l k : zlen l <= a -> zslice a b (l ++ k) = zslice (a - zlen l) (b - zlen l) k.
Proof.
  intros Ha. apply list_eq. intros i. rewrite !zslice_lookup.
  replace (b - zlen l - (a - zlen l)) with (b - a) by lia. case_decide; [|done].
  unfold zlen in *. rewrite lookup_app_r by lia. f_equal. lia.
Qed.

Lemma zslice_full l n : n = zlen l -> zslice 0 n l = l.
Proof. intros ->. unfold zslice, zlen. rewrite drop_0. apply take_ge. lia. Qed.

Lemma zslice_split a b c l : 0 <= a <= b -> b <= c -> zslice a b l ++ zslice b c l = zslice a c l.
Proof.
  intros Hab Hbc. unfold zslice. replace (Z.to_nat b) with (Z.to_nat a + Z.to_nat (b - a))%nat by lia.
  rewrite <- drop_drop. set (k := drop (Z.to_nat a) l).
  replace (Z.to_nat (c - a)) with (Z.to_nat (b - a) + Z.to_nat (c - b))%nat by lia.
  rewrite <- (take_drop (Z.to_nat (b - a)) (take (_ + _) k)), take_take. f_equal; [f_equal; lia|].
  by rewrite take_drop_commute.
Qed.

(** Writing what is already there changes nothing. *)
Lemma zsplice_id off new l :
  0 <= off -> off + zlen new <= zlen l -> zslice off (off + zlen new) l = new -> zsplice off new l = l.
Proof.
  intros H0 Hf E. apply list_eq. intros i. rewrite zsplice_lookup by done. case_decide; [|done].
  rewrite <- E, zslice_lookup, decide_True by lia. f_equal. lia.
Qed.

(** Integers at an offset. *)
Lemma zread_splice_out n a off new l :
  0 <= off -> off + zlen new <= zlen l -> 0 <= a -> a + Z.of_nat n <= off \/ off + zlen new <= a ->
  zread n a (zsplice off new l) = zread n a l.
Proof. intros. unfold zread. by rewrite zslice_splice_out by lia. Qed.

Lemma zread_splice_enc n off v l :
  0 <= off -> off + Z.of_nat n <= zlen l -> 0 <= v < 256 ^ Z.of_nat n ->
  zread n off (zsplice off (le_encode n v) l) = v.
Proof.
  intros H0 Hf Hv. unfold zread. pose proof (zslice_splice_in off (le_encode n v) l) as E.
  rewrite zlen_enc in E. rewrite E by lia. by apply le_decode_encode.
Qed.

Lemma zread_bound n off l :
  Forall is_byte l -> 0 <= off -> off + Z.of_nat n <= zlen l -> 0 <= zread n off l < 256 ^ Z.of_nat n.
Proof.
  intros Hb H0 Hf. unfold zread. pose proof (le_decode_bound (zslice off (off + Z.of_nat n) l)) as H.
  pose proof (zlen_slice off (off + Z.of_nat n) l ltac:(lia) Hf) as Hl. unfold zlen in Hl.
  replace (length (zslice off (off + Z.of_nat n) l)) with n in H by lia. auto using zslice_bytes.
Qed.

Lemma zread_enc n off l :
  Forall is_byte l -> 0 <= off -> off + Z.of_nat n <= zlen l ->
  le_encode n (zread n off l) = zslice off (off + Z.of_nat n) l.
Proof.
  intros Hb H0 Hf. unfold zread. pose proof (zlen_slice off (off + Z.of_nat n) l ltac:(lia) Hf) as Hl.
  rewrite <- (le_encode_decode (zslice off (off + Z.of_nat n) l)) at 2 by auto using zslice_bytes.
  f_equal. unfold zlen in Hl. lia.
Qed.

Lemma zread_app_l n off l k : 0 <= off -> off + Z.of_nat n <= zlen l -> zread n off (l ++ k) = zread n off l.
Proof. intros. unfold zread. by rewrite zslice_app_l. Qed.

Lemma zread_app_r n off l k : zlen l <= off -> zread n off (l ++ k) = zread n (off - zlen l) k.
Proof. intros. unfold zread. rewrite zslice_app_r by done. f_equal. f_equal. lia. Qed.

Lemma zread_enc_hit n v k : 0 <= v < 256 ^ Z.of_nat n -> zread n 0 (le_encode n v ++ k) = v.
Proof.
  intros Hv. rewrite zread_app_l by (rewrite ?zlen_enc; lia). unfold zread.
  rewrite zslice_full by (rewrite zlen_enc; lia). by apply le_decode_encode.
Qed.

Lemma zread_enc_skip n m v off k :
  Z.of_nat m <= off -> zread n off (le_encode m v ++ k) = zread n (off - Z.of_nat m) k.
Proof. intros. rewrite zread_app_r by (rewrite zlen_enc; lia). by rewrite zlen_enc. Qed.

(** Read the fields of a concatenation of encoded integers. *)
Ltac zfields :=
  repeat first
    [ rewrite zread_enc_hit by (rewrite ?pow256_U16, ?pow256_U32, ?pow256_U64; first [done|lia])
    | rewrite zread_enc_skip by lia ];
  cbn [Z.of_nat Pos.of_succ_nat Pos.succ Z.sub Z.add Z.opp Z.pos_sub Pos.pred_double Pos.add].

#[global] Arguments zslice : simpl never.
#[global] Arguments zsplice : simpl never.
#[global] Arguments zread : simpl never.
#[global] Arguments zlen : simpl never.

(** A write over the front part of an earlier write. *)
Lemma zsplice_twice off a b c l :
  0 <= off -> length a = length b -> off + zlen (b ++ c) <= zlen l ->
  zsplice off a (zsplice off (b ++ c) l) = zsplice off (a ++ c) l.
Proof.
  intros H0 Hab Hf. pose proof (zlen_splice off (b ++ c) l H0 Hf) as Hl.
  assert (zlen a = zlen b) as Hz by (unfold zlen; lia). rewrite zlen_app in Hf. pose proof (zlen_nonneg c).
  apply list_eq. intros i. rewrite !zsplice_lookup by (rewrite ?zlen_app; lia). rewrite !zlen_app, Hz.
  destruct (decide (off <= Z.of_nat i < off + zlen b)) as [Hi|Hi].
  - rewrite decide_True by lia. rewrite lookup_app_l; [done|]. unfold zlen in *. lia.
  - case_decide as Hc; [|done]. unfold zlen in *. rewrite !lookup_app_r by lia. f_equal. lia.
Qed.
