(* ===== verification/Page.v ===== *)
(** * Slotted pages (ultrasql-storage, page.rs and checksum.rs)

    A page is its 8192 bytes. The header, the item identifiers and the tuple
    area are decoded from the bytes on every access, as in the source; an
    operation that would panic returns [None]. The page hash (xxh3) is a
    parameter. PageSpec.v shows that the byte-level operations implement
    operations on the list of slots of the page. *)

From S2P Require Import Prelude CoreIds Bytes.

Definition PAGE_HEADER_SIZE : Z := 24.
Definition ITEMID_SIZE : Z := 4.
Definition PAGE_VERSION_CURRENT : Z := 1.
Definition CHECKSUM_OFFSET : Z := 8.

Inductive PageError :=
| PageMalformed (what : string)
| ChecksumMismatch (expected actual : Z)
| NoSpace (needed available : Z)
| InvalidSlot (index len : Z)
| DeadSlot (slot : Z)
| SlotOccupied (slot : Z)
| UnsupportedVersion (version : Z).

Inductive PageKind := KHeap | KBTreeIndex | KFreeSpaceMap | KVisibilityMap | KMeta.

Definition PageKind_from_u16 (v : Z) : option PageKind :=
  match v with
  | 1 => Some KHeap
  | 2 => Some KBTreeIndex
  | 3 => Some KFreeSpaceMap
  | 4 => Some KVisibilityMap
  | 5 => Some KMeta
  | _ => None
  end.

Definition PageKind_to_u16 (k : PageKind) : Z :=
  match k with
  | KHeap => 1
  | KBTreeIndex => 2
  | KFreeSpaceMap => 3
  | KVisibilityMap => 4
  | KMeta => 5
  end.

(** ** Item identifiers *)

Inductive ItemIdFlags := Unused | Normal | Redirect | Dead.

#[global] Instance ItemIdFlags_eq_dec : EqDecision ItemIdFlags.
Proof. solve_decision. Defined.

Definition ItemIdFlags_from_bits (bits : Z) : ItemIdFlags :=
  match Z.land bits 3 with
  | 0 => Unused
  | 1 => Normal
  | 2 => Redirect
  | _ => Dead
  end.

Definition ItemIdFlags_to_u32 (f : ItemIdFlags) : Z :=
  match f with Unused => 0 | Normal => 1 | Redirect => 2 | Dead => 3 end.

Definition MAX_OFFSET : Z := Z.shiftl 1 15 - 1.
Definition MAX_LENGTH : Z := Z.shiftl 1 15 - 1.

(** The packed [u32]. *)
Definition ItemId_new (offset length : Z) (flags : ItemIdFlags) : Z :=
  Z.lor (Z.lor (ItemIdFlags_to_u32 flags) (wrap U32 (Z.shiftl length 2))) (wrap U32 (Z.shiftl offset 17)).

Definition ItemId_flags (id : Z) : ItemIdFlags := ItemIdFlags_from_bits id.
Definition ItemId_length (id : Z) : Z := Z.land (Z.shiftr id 2) MAX_LENGTH.
Definition ItemId_offset (id : Z) : Z := Z.land (Z.shiftr id 17) MAX_OFFSET.
Definition ItemId_is_normal (id : Z) : bool := bool_decide (ItemId_flags id = Normal).

(** ** The header *)

Record PageHeader := mk_PageHeader {
  hd_lsn : Z;
  hd_checksum : Z;
  hd_flags : Z;
  hd_kind : PageKind;
  hd_lower : Z;
  hd_upper : Z;
  hd_special : Z;
  hd_version : Z;
}.

Definition fresh_heap : PageHeader :=
  mk_PageHeader 0 0 0 KHeap PAGE_HEADER_SIZE PAGE_SIZE PAGE_SIZE PAGE_VERSION_CURRENT.

Abbreviation Page := (list Z) (only parsing).

(** The reads of constant ranges of the [u8; PAGE_SIZE] array cannot fail. *)
Definition PageHeader_decode (bytes : Page) : result PageHeader PageError :=
  let lsn := zread 8 0 bytes in
  let checksum := zread 4 8 bytes in
  let flags := zread 2 12 bytes in
  let kind_raw := zread 2 14 bytes in
  let lower := zread 2 16 bytes in
  let upper := zread 2 18 bytes in
  let special := zread 2 20 bytes in
  let version := zread 1 22 bytes in
  let? kind := ok_or (PageKind_from_u16 kind_raw) (PageMalformed "unknown page kind") in
  if negb (zread 1 23 bytes =? 0) then Err (PageMalformed "reserved header byte") else
  if negb (version =? PAGE_VERSION_CURRENT) then Err (UnsupportedVersion version) else
  if (lower <? PAGE_HEADER_SIZE) || (upper <? lower) || (special <? upper) || (PAGE_SIZE <? special)
     || match checked_sub lower PAGE_HEADER_SIZE with
        | Some slot_bytes => negb (slot_bytes mod ITEMID_SIZE =? 0)
        | None => true
        end
  then Err (PageMalformed "pointer ordering") else
  Ok (mk_PageHeader lsn checksum flags kind lower upper special version).

Definition header_bytes (h : PageHeader) : list Z :=
  le_encode 8 (hd_lsn h) ++ le_encode 4 (hd_checksum h) ++ le_encode 2 (hd_flags h)
  ++ le_encode 2 (PageKind_to_u16 (hd_kind h)) ++ le_encode 2 (hd_lower h) ++ le_encode 2 (hd_upper h)
  ++ le_encode 2 (hd_special h) ++ le_encode 1 (hd_version h) ++ le_encode 1 0.

Definition PageHeader_encode (h : PageHeader) (bytes : Page) : Page := zsplice 0 (header_bytes h) bytes.

Definition try_slot_count (h : PageHeader) : result Z PageError :=
  match checked_sub (hd_lower h) PAGE_HEADER_SIZE with
  | None => Err (PageMalformed "slot directory lower before header")
  | Some slot_bytes =>
      if negb (slot_bytes mod ITEMID_SIZE =? 0) then Err (PageMalformed "slot directory alignment")
      else Ok (slot_bytes / ITEMID_SIZE)
  end.

Definition slot_count (h : PageHeader) : option Z :=
  match try_slot_count h with Ok n => Some n | Err _ => None end.

Definition try_free_space (h : PageHeader) : result Z PageError :=
  ok_or (checked_sub (hd_upper h) (hd_lower h)) (PageMalformed "free space pointer ordering").

Definition free_space (h : PageHeader) : option Z :=
  match try_free_space h with Ok n => Some n | Err _ => None end.

Definition with_lsn (h : PageHeader) (lsn : Z) : PageHeader :=
  mk_PageHeader lsn (hd_checksum h) (hd_flags h) (hd_kind h) (hd_lower h) (hd_upper h) (hd_special h) (hd_version h).
Definition with_bounds (h : PageHeader) (lower upper : Z) : PageHeader :=
  mk_PageHeader (hd_lsn h) (hd_checksum h) (hd_flags h) (hd_kind h) lower upper (hd_special h) (hd_version h).

(** ** The page *)

Definition page_u16_from_usize (value : Z) (field : string) : result Z PageError :=
  if value <? U16 then Ok value else Err (PageMalformed field).

Definition item_offset_from_usize (offset : Z) : result Z PageError :=
  if U32 <=? offset then Err (PageMalformed "tuple offset overflow") else
  if MAX_OFFSET <? offset then Err (PageMalformed "tuple offset exceeds itemid") else Ok offset.

Definition new_heap : Page := PageHeader_encode fresh_heap (replicate (Z.to_nat PAGE_SIZE) 0).

(** [Page::header]: panics on a header that does not decode. *)
Definition page_header (p : Page) : option PageHeader :=
  match PageHeader_decode p with Ok h => Some h | Err _ => None end.

Definition try_item_id_offset (slot : Z) : result Z PageError :=
  let off := PAGE_HEADER_SIZE + slot * ITEMID_SIZE in
  if PAGE_SIZE <? off + ITEMID_SIZE then Err (PageMalformed "slot directory out of bounds") else Ok off.

Definition item_id_offset (slot : Z) : option Z :=
  match try_item_id_offset slot with Ok off => Some off | Err _ => None end.

Definition read_item_id (p : Page) (slot : Z) : option Z :=
  off ← item_id_offset slot; Some (zread 4 off p).

Definition write_item_id (p : Page) (slot id : Z) : option Page :=
  off ← item_id_offset slot; Some (zsplice off (le_encode 4 id) p).

(** The slots [0..count]. *)
Definition slots_below (count : Z) : list Z := seqZ 0 count.

Fixpoint first_unused (p : Page) (slots : list Z) : option (option Z) :=
  match slots with
  | [] => Some None
  | i :: rest =>
      id ← read_item_id p i;
      if bool_decide (ItemId_flags id = Unused) then Some (Some i) else first_unused p rest
  end.

Definition find_reusable_slot (p : Page) (count : Z) : option (option Z) := first_unused p (slots_below count).

(** Write an item identifier into each of the listed slots. *)
Fixpoint write_item_ids (p : Page) (slots : list Z) (id : Z) : option Page :=
  match slots with
  | [] => Some p
  | i :: rest => p' ← write_item_id p i id; write_item_ids p' rest id
  end.

(** What the three insertions share: with the target slot and the number of
    directory entries to add decided, check the space, copy the tuple below
    [upper], write the item identifiers and move the bounds. *)
Definition place_tuple (p : Page) (header : PageHeader) (count slot new_slots : Z) (tuple : list Z)
  : option (result unit PageError * Page) :=
  let needed_slot := new_slots * ITEMID_SIZE in
  let needed := zlen tuple + needed_slot in
  match try_free_space header with
  | Err e => Some (Err e, p)
  | Ok free =>
      if free <? needed then Some (Err (NoSpace needed free), p) else
      match checked_sub (hd_upper header) (zlen tuple) with
      | None => Some (Err (PageMalformed "tuple upper underflow"), p)
      | Some new_upper =>
          let p1 := zsplice new_upper tuple p in
          match item_offset_from_usize new_upper with
          | Err e => Some (Err e, p1)
          | Ok off =>
              let item := ItemId_new off (zlen tuple) Normal in
              p2 ← (if 0 <? new_slots then write_item_ids p1 (seqZ count (slot - count)) (ItemId_new 0 0 Unused)
                    else Some p1);
              p3 ← write_item_id p2 slot item;
              match page_u16_from_usize (hd_lower header + needed_slot) "page lower" with
              | Err e => Some (Err e, p3)
              | Ok new_lower =>
                  match page_u16_from_usize new_upper "page upper" with
                  | Err e => Some (Err e, p3)
                  | Ok up => Some (Ok tt, PageHeader_encode (with_bounds header new_lower up) p3)
                  end
              end
          end
      end
  end.

Definition check_tuple_len (tuple : list Z) : result unit PageError :=
  if U32 <=? zlen tuple then Err (PageMalformed "tuple too large for page") else
  if MAX_LENGTH <? zlen tuple then Err (PageMalformed "tuple length exceeds itemid") else Ok tt.

Definition returning (slot : Z) (r : result unit PageError * Page) : result Z PageError * Page :=
  (match r.1 with Ok _ => Ok slot | Err e => Err e end, r.2).

Definition insert_tuple (p : Page) (tuple : list Z) : option (result Z PageError * Page) :=
  match check_tuple_len tuple with
  | Err e => Some (Err e, p)
  | Ok _ =>
      header ← page_header p;
      count ← slot_count header;
      reuse ← find_reusable_slot p count;
      match reuse with
      | Some idx => returning idx <$> place_tuple p header count idx 0 tuple
      | None => returning count <$> place_tuple p header count count 1 tuple
      end
  end.

Definition insert_tuple_appended (p : Page) (tuple : list Z) : option (result Z PageError * Page) :=
  match check_tuple_len tuple with
  | Err e => Some (Err e, p)
  | Ok _ =>
      header ← page_header p;
      count ← slot_count header;
      returning count <$> place_tuple p header count count 1 tuple
  end.

Definition insert_tuple_at_slot (p : Page) (slot : Z) (tuple : list Z) : option (result unit PageError * Page) :=
  match check_tuple_len tuple with
  | Err e => Some (Err e, p)
  | Ok _ =>
      header ← page_header p;
      count ← slot_count header;
      if count <=? slot then place_tuple p header count slot (slot + 1 - count) tuple
      else
        id ← read_item_id p slot;
        if ItemId_is_normal id then Some (Err (SlotOccupied slot), p)
        else place_tuple p header count slot 0 tuple
  end.

(** The bounds check of a live item against its page. *)
Definition item_range (header : PageHeader) (id : Z) : result (Z * Z) PageError :=
  let off := ItemId_offset id in
  let fin := off + ItemId_length id in
  if (off <? hd_upper header) || (hd_special header <? fin)
  then Err (PageMalformed "tuple range out of bounds") else Ok (off, fin).

Definition read_tuple (p : Page) (slot : Z) : option (result (list Z) PageError) :=
  header ← page_header p;
  count ← slot_count header;
  if count <=? slot then Some (Err (InvalidSlot slot count)) else
  id ← read_item_id p slot;
  if negb (ItemId_is_normal id) then Some (Err (DeadSlot slot)) else
  Some (let? '(off, fin) := item_range header id in Ok (zslice off fin p)).

Definition delete_tuple (p : Page) (slot : Z) : option (result unit PageError * Page) :=
  header ← page_header p;
  count ← slot_count header;
  if count <=? slot then Some (Err (InvalidSlot slot count), p) else
  id ← read_item_id p slot;
  if negb (ItemId_is_normal id) then Some (Err (DeadSlot slot), p) else
  p' ← write_item_id p slot (ItemId_new (ItemId_offset id) (ItemId_length id) Dead);
  Some (Ok tt, p').

(** ** Compaction *)

Record live_item := mk_live_item { li_slot : Z; li_off : Z; li_len : Z }.

Fixpoint gather_live (p : Page) (slots : list Z) : option (list live_item) :=
  match slots with
  | [] => Some []
  | i :: rest =>
      id ← read_item_id p i;
      live ← gather_live p rest;
      Some (if ItemId_is_normal id then mk_live_item i (ItemId_offset id) (ItemId_length id) :: live else live)
  end.

Definition off_ge (a b : live_item) : Prop := li_off b <= li_off a.

#[global] Instance off_ge_dec : RelDecision off_ge.
Proof. intros a b. unfold off_ge. apply _. Defined.

(** One live tuple: moved down to [write_end]. *)
Definition move_live (p : Page) (write_end : Z) (li : live_item) : option (result Z PageError * Page) :=
  let src_end := li_off li + li_len li in
  if zlen p <? src_end then Some (Err (PageMalformed "tuple range out of bounds"), p) else
  match checked_sub write_end (li_len li) with
  | None => Some (Err (PageMalformed "tuple compact underflow"), p)
  | Some new_off =>
      let p1 := if negb (new_off =? li_off li) then copy_within (li_off li) src_end new_off p else p in
      match item_offset_from_usize new_off with
      | Err e => Some (Err e, p1)
      | Ok off => p2 ← write_item_id p1 (li_slot li) (ItemId_new off (li_len li) Normal); Some (Ok new_off, p2)
      end
  end.

Fixpoint move_all (p : Page) (write_end : Z) (live : list live_item) : option (result Z PageError * Page) :=
  match live with
  | [] => Some (Ok write_end, p)
  | li :: rest =>
      r ← move_live p write_end li;
      match r with
      | (Err e, p') => Some (Err e, p')
      | (Ok write_end', p') => move_all p' write_end' rest
      end
  end.

Fixpoint clear_dead (p : Page) (slots : list Z) : option Page :=
  match slots with
  | [] => Some p
  | i :: rest =>
      id ← read_item_id p i;
      p' ← (if bool_decide (ItemId_flags id = Dead) then write_item_id p i (ItemId_new 0 0 Unused) else Some p);
      clear_dead p' rest
  end.

Definition compact (p : Page) : option (result unit PageError * Page) :=
  header ← page_header p;
  count ← slot_count header;
  live ← gather_live p (slots_below count);
  r ← move_all p (hd_special header) (merge_sort off_ge live);
  match r with
  | (Err e, p1) => Some (Err e, p1)
  | (Ok write_end, p1) =>
      p2 ← clear_dead p1 (slots_below count);
      match page_u16_from_usize write_end "page upper" with
      | Err e => Some (Err e, p2)
      | Ok up => Some (Ok tt, PageHeader_encode (with_bounds header (hd_lower header) up) p2)
      end
  end.

(** ** Validation, checksum and LSN *)

Fixpoint validate_slots (p : Page) (header : PageHeader) (slots : list Z) : option (result unit PageError) :=
  match slots with
  | [] => Some (Ok tt)
  | i :: rest =>
      id ← read_item_id p i;
      if negb (ItemId_is_normal id) then validate_slots p header rest else
      match item_range header id with
      | Err e => Some (Err e)
      | Ok _ => validate_slots p header rest
      end
  end.

Definition from_bytes (bytes : Page) : option (result Page PageError) :=
  match PageHeader_decode bytes with
  | Err e => Some (Err e)
  | Ok header =>
      match try_slot_count header with
      | Err e => Some (Err e)
      | Ok count =>
          r ← validate_slots bytes header (slots_below count);
          Some (match r with Ok _ => Ok bytes | Err e => Err e end)
      end
  end.

Definition write_header (p : Page) (header : PageHeader) : result unit PageError * Page :=
  let scratch := zsplice 0 (zslice 0 PAGE_HEADER_SIZE p) (replicate (Z.to_nat PAGE_SIZE) 0) in
  match PageHeader_decode (PageHeader_encode header scratch) with
  | Err e => (Err e, p)
  | Ok _ => (Ok tt, PageHeader_encode header p)
  end.

Definition set_lsn (p : Page) (lsn : Z) : option Page :=
  h ← page_header p; Some (PageHeader_encode (with_lsn h lsn) p).

Section checksum.
Context (xxh3_64 : list Z -> Z).

Definition compute_page_checksum (page : Page) : Z :=
  let h := xxh3_64 (zsplice CHECKSUM_OFFSET [0; 0; 0; 0] page) in
  wrap U32 (Z.lxor h (Z.shiftr h 32)).

Definition refresh_checksum (p : Page) : Page :=
  zsplice CHECKSUM_OFFSET (le_encode 4 (compute_page_checksum p)) p.

Definition verify_checksum (p : Page) : result unit PageError :=
  let stored := zread 4 CHECKSUM_OFFSET p in
  let actual := compute_page_checksum p in
  if stored =? actual then Ok tt else Err (ChecksumMismatch stored actual).
End checksum.
