(* ===== verification/PageSpec.v ===== *)
(** * Slotted pages: the abstract page and the refinement

    An abstract page is the list of its slots. [page_ok] is the invariant of
    the byte-level page (the one the module comment of page.rs states, plus
    that the live tuples do not overlap, which compaction needs), and every
    operation of Page.v is shown to implement its abstract counterpart, without
    a panic. *)

From S2P Require Import Prelude CoreIds Bytes Page.

(** ** Packing of item identifiers *)

Lemma lor_shiftl_add a b n : 0 <= n -> 0 <= a < 2 ^ n -> Z.lor a (Z.shiftl b n) = a + b * 2 ^ n.
Proof.
  intros Hn Ha. rewrite <- Z.shiftl_mul_pow2 by done. symmetry. apply Z.add_nocarry_lor.
  apply Z.bits_inj'. intros k Hk. rewrite Z.land_spec, Z.shiftl_spec, Z.bits_0 by done.
  apply andb_false_iff. destruct (decide (k < n)); [right; apply Z.testbit_neg_r; lia|]. left.
  rewrite <- (Z.mod_small a (2 ^ n)) by done. apply Z.mod_pow2_bits_high. lia.
Qed.

Definition fits_item (off len : Z) : Prop := 0 <= off <= MAX_OFFSET /\ 0 <= len <= MAX_LENGTH.

Lemma flags_to_bound f : 0 <= ItemIdFlags_to_u32 f < 4.
Proof. destruct f; cbn; lia. Qed.

Lemma ItemId_new_value off len f :
  fits_item off len -> ItemId_new off len f = ItemIdFlags_to_u32 f + len * 4 + off * 131072.
Proof.
  unfold fits_item, ItemId_new, wrap, U32. change MAX_OFFSET with 32767. change MAX_LENGTH with 32767.
  intros [Ho Hl]. pose proof (flags_to_bound f). rewrite (Z.mod_small (Z.shiftl len 2)).
  2: { rewrite Z.shiftl_mul_pow2 by lia. change (2 ^ 2) with 4. change (2 ^ 32) with 4294967296. lia. }
  rewrite (Z.mod_small (Z.shiftl off 17)).
  2: { rewrite Z.shiftl_mul_pow2 by lia. change (2 ^ 17) with 131072. change (2 ^ 32) with 4294967296. lia. }
  rewrite (lor_shiftl_add _ len 2) by (change (2 ^ 2) with 4; lia). change (2 ^ 2) with 4.
  rewrite lor_shiftl_add by (change (2 ^ 17) with 131072; lia). by change (2 ^ 17) with 131072.
Qed.

Lemma ItemId_new_bound off len f : fits_item off len -> in_width U32 (ItemId_new off len f).
Proof.
  intros H. rewrite ItemId_new_value by done. unfold fits_item in H. pose proof (flags_to_bound f).
  change MAX_OFFSET with 32767 in H. change MAX_LENGTH with 32767 in H.
  unfold in_width, U32. change (2 ^ 32) with 4294967296. lia.
Qed.

Lemma ItemId_new_fields off len f :
  fits_item off len ->
  ItemId_flags (ItemId_new off len f) = f /\ ItemId_length (ItemId_new off len f) = len /\
  ItemId_offset (ItemId_new off len f) = off.
Proof.
  intros H. unfold ItemId_flags, ItemIdFlags_from_bits, ItemId_length, ItemId_offset.
  rewrite (ItemId_new_value _ _ _ H). unfold fits_item in H. pose proof (flags_to_bound f) as Hf.
  change MAX_OFFSET with (Z.ones 15) in *. change MAX_LENGTH with (Z.ones 15) in *. change 3 with (Z.ones 2).
  change (Z.ones 15) with 32767 in H. rewrite !Z.land_ones, !Z.shiftr_div_pow2 by lia.
  change (2 ^ 2) with 4. change (2 ^ 15) with 32768. change (2 ^ 17) with 131072.
  set (g := ItemIdFlags_to_u32 f) in *.
  assert ((g + len * 4 + off * 131072) mod 4 = g) as ->
    by (symmetry; apply (Z.mod_unique_pos _ _ (len + off * 32768)); lia).
  assert ((g + len * 4 + off * 131072) / 4 = len + off * 32768) as ->
    by (symmetry; apply (Z.div_unique_pos _ _ _ g); lia).
  assert ((g + len * 4 + off * 131072) / 131072 = off) as ->
    by (symmetry; apply (Z.div_unique_pos _ _ _ (g + len * 4)); lia).
  split; [by destruct f|]. split.
  - symmetry. apply (Z.mod_unique_pos _ _ off); lia.
  - apply Z.mod_small. lia.
Qed.

Lemma ItemId_length_bound id : 0 <= ItemId_length id <= MAX_LENGTH.
Proof.
  unfold ItemId_length. change MAX_LENGTH with (Z.ones 15). rewrite Z.land_ones by lia.
  pose proof (Z.mod_pos_bound (Z.shiftr id 2) (2 ^ 15) ltac:(lia)). change (Z.ones 15) with (2 ^ 15 - 1). lia.
Qed.

Lemma ItemId_offset_bound id : 0 <= ItemId_offset id <= MAX_OFFSET.
Proof.
  unfold ItemId_offset. change MAX_OFFSET with (Z.ones 15). rewrite Z.land_ones by lia.
  pose proof (Z.mod_pos_bound (Z.shiftr id 17) (2 ^ 15) ltac:(lia)). change (Z.ones 15) with (2 ^ 15 - 1). lia.
Qed.

#[global] Opaque ItemId_new ItemId_length ItemId_offset.

(** ** The header *)

Record header_ok (h : PageHeader) : Prop := {
  ho_lsn : in_width U64 (hd_lsn h);
  ho_checksum : in_width U32 (hd_checksum h);
  ho_flags : in_width U16 (hd_flags h);
  ho_version : hd_version h = PAGE_VERSION_CURRENT;
  ho_lower : PAGE_HEADER_SIZE <= hd_lower h;
  ho_aligned : (hd_lower h - PAGE_HEADER_SIZE) mod ITEMID_SIZE = 0;
  ho_upper : hd_lower h <= hd_upper h;
  ho_special : hd_upper h <= hd_special h;
  ho_page : hd_special h <= PAGE_SIZE;
}.

Lemma PageKind_roundtrip k : PageKind_from_u16 (PageKind_to_u16 k) = Some k.
Proof. by destruct k. Qed.

Lemma zlen_header h : zlen (header_bytes h) = PAGE_HEADER_SIZE.
Proof. unfold header_bytes. by rewrite !zlen_app, !zlen_enc. Qed.

Lemma header_bytes_bytes h : Forall is_byte (header_bytes h).
Proof. unfold header_bytes. rewrite !Forall_app. auto 20 with ultra. Qed.

Lemma zread_header n off h p :
  zlen p = PAGE_SIZE -> 0 <= off -> off + Z.of_nat n <= PAGE_HEADER_SIZE ->
  zread n off (PageHeader_encode h p) = zread n off (header_bytes h).
Proof.
  intros Hl H0 Hn. unfold zread, PageHeader_encode. pose proof (zlen_header h) as Hh.
  unfold PAGE_HEADER_SIZE, PAGE_SIZE in *.
  rewrite zslice_splice_sub by lia. by rewrite !Z.sub_0_r.
Qed.

Lemma header_decode_encode h p :
  zlen p = PAGE_SIZE -> header_ok h -> PageHeader_decode (PageHeader_encode h p) = Ok h.
Proof.
  intros Hl [Hlsn Hck Hfl Hv Hlo Hal Hup Hsp Hpg]. unfold PageHeader_decode.
  rewrite !zread_header by (done || (unfold PAGE_HEADER_SIZE; lia)).
  assert (in_width U16 (hd_lower h) /\ in_width U16 (hd_upper h) /\ in_width U16 (hd_special h)) as (? & ? & ?).
  { unfold in_width, U16, PAGE_SIZE, PAGE_HEADER_SIZE in *. lia. }
  assert (0 <= PageKind_to_u16 (hd_kind h) < U16) by (destruct (hd_kind h); done).
  unfold header_bytes. repeat (rewrite zread_enc_skip by lia; cbn [Z.of_nat Z.sub]).
  zfields. rewrite PageKind_roundtrip. cbn [ok_or]. cbv beta iota.
  rewrite Hv. zfields. change (PAGE_VERSION_CURRENT =? _) with true.
  rewrite <- (app_nil_r (le_encode 1 0)). zfields. cbn [Z.eqb negb].
  rewrite !(proj2 (Z.ltb_ge _ _)) by lia. unfold checked_sub. rewrite (proj2 (Z.leb_le _ _)) by lia.
  rewrite Hal. cbn. rewrite <- Hv. by destruct h.
Qed.

Lemma header_decode_ok p h :
  zlen p = PAGE_SIZE -> Forall is_byte p -> PageHeader_decode p = Ok h -> header_ok h.
Proof.
  intros Hl Hb. unfold PageHeader_decode.
  destruct (PageKind_from_u16 _) as [k|]; [|done]. cbn [ok_or]. cbv beta iota.
  destruct (zread 1 23 p =? 0); [|done]. cbn [negb].
  destruct (Z.eqb_spec (zread 1 22 p) PAGE_VERSION_CURRENT) as [Hv|]; [|done]. cbn [negb].
  destruct (_ || _ || _ || _ || _) eqn:E; [done|]. intros <-%Ok_inj.
  repeat (apply orb_false_elim in E as [E ?]).
  assert (forall n off, 0 <= off -> off + Z.of_nat n <= PAGE_SIZE -> 0 <= zread n off p < 256 ^ Z.of_nat n) as Hr.
  { intros. apply zread_bound; [done|done|]. by rewrite Hl. }
  unfold checked_sub in *. rewrite !Z.ltb_ge in *.
  constructor; cbn [hd_lsn hd_checksum hd_flags hd_version hd_lower hd_upper hd_special]; try done.
  - apply (Hr 8%nat); unfold PAGE_SIZE; lia.
  - apply (Hr 4%nat); unfold PAGE_SIZE; lia.
  - apply (Hr 2%nat); unfold PAGE_SIZE; lia.
  - rewrite (proj2 (Z.leb_le _ _)) in H by done. apply negb_false_iff in H. by apply Z.eqb_eq.
Qed.

(** ** The invariant *)

Definition n_slots (h : PageHeader) : Z := (hd_lower h - PAGE_HEADER_SIZE) / ITEMID_SIZE.

(** The item identifier of a slot. *)
Definition item (p : Page) (i : Z) : Z := zread 4 (PAGE_HEADER_SIZE + i * ITEMID_SIZE) p.

Definition live (p : Page) (i : Z) : Prop := ItemId_flags (item p i) = Normal.
Definition start (p : Page) (i : Z) : Z := ItemId_offset (item p i).
Definition extent (p : Page) (i : Z) : Z := ItemId_length (item p i).

Record page_ok (p : Page) (h : PageHeader) : Prop := {
  po_len : zlen p = PAGE_SIZE;
  po_bytes : Forall is_byte p;
  po_header : PageHeader_decode p = Ok h;
  po_live : forall i, 0 <= i < n_slots h -> live p i ->
    hd_upper h <= start p i /\ start p i + extent p i <= hd_special h;
  po_disjoint : forall i j, 0 <= i < n_slots h -> 0 <= j < n_slots h -> i <> j -> live p i -> live p j ->
    start p i + extent p i <= start p j \/ start p j + extent p j <= start p i;
}.

Lemma lower_slots h : header_ok h -> hd_lower h = PAGE_HEADER_SIZE + n_slots h * ITEMID_SIZE /\ 0 <= n_slots h.
Proof.
  intros [_ _ _ _ Hl Ha _ _ _]. unfold n_slots. unfold ITEMID_SIZE, PAGE_HEADER_SIZE in *.
  pose proof (Z.div_mod (hd_lower h - 24) 4 ltac:(lia)). split; [lia|]. apply Z.div_pos; lia.
Qed.

Lemma page_header_ok p h : page_ok p h -> header_ok h.
Proof. intros [Hl Hb Hh _ _]. by eapply header_decode_ok. Qed.

Lemma page_header_eq p h : page_ok p h -> page_header p = Some h.
Proof. intros Hp. unfold page_header. by rewrite (po_header _ _ Hp). Qed.

Lemma try_slot_count_eq h : header_ok h -> try_slot_count h = Ok (n_slots h).
Proof.
  intros Hh. unfold try_slot_count, checked_sub. rewrite (proj2 (Z.leb_le _ _)) by apply Hh.
  by rewrite (ho_aligned _ Hh).
Qed.

Lemma slot_count_eq h : header_ok h -> slot_count h = Some (n_slots h).
Proof. intros Hh. unfold slot_count. by rewrite try_slot_count_eq. Qed.

Lemma free_space_eq h : header_ok h -> try_free_space h = Ok (hd_upper h - hd_lower h).
Proof.
  intros Hh. unfold try_free_space, checked_sub. by rewrite (proj2 (Z.leb_le _ _)) by apply Hh.
Qed.

(** Every slot whose identifier lies in the page can be accessed. *)
Definition slot_fits (i : Z) : Prop := 0 <= i /\ PAGE_HEADER_SIZE + i * ITEMID_SIZE + ITEMID_SIZE <= PAGE_SIZE.

Lemma slot_fits_below h i : header_ok h -> 0 <= i < n_slots h -> slot_fits i.
Proof.
  intros Hh Hi. pose proof (lower_slots h Hh). pose proof (ho_upper _ Hh). pose proof (ho_special _ Hh).
  pose proof (ho_page _ Hh). unfold slot_fits, PAGE_HEADER_SIZE, ITEMID_SIZE, PAGE_SIZE in *. lia.
Qed.

Lemma item_id_offset_eq i : slot_fits i -> item_id_offset i = Some (PAGE_HEADER_SIZE + i * ITEMID_SIZE).
Proof.
  intros [_ H]. unfold item_id_offset, try_item_id_offset. by rewrite (proj2 (Z.ltb_ge _ _)) by done.
Qed.

Lemma read_item_id_eq p i : slot_fits i -> read_item_id p i = Some (item p i).
Proof. intros H. unfold read_item_id. by rewrite item_id_offset_eq. Qed.

Definition put_item (p : Page) (i id : Z) : Page :=
  zsplice (PAGE_HEADER_SIZE + i * ITEMID_SIZE) (le_encode 4 id) p.

Lemma write_item_id_eq p i id : slot_fits i -> write_item_id p i id = Some (put_item p i id).
Proof. intros H. unfold write_item_id. by rewrite item_id_offset_eq. Qed.

Section put_item.
Context (p : Page) (i id : Z).
Hypotheses (Hlen : zlen p = PAGE_SIZE) (Hfits : slot_fits i) (Hid : in_width U32 id).

Lemma put_item_len : zlen (put_item p i id) = PAGE_SIZE.
Proof using Hlen Hfits.
  unfold put_item, slot_fits, PAGE_HEADER_SIZE, ITEMID_SIZE in *. rewrite zlen_splice; rewrite ?zlen_enc; lia.
Qed.

Lemma put_item_bytes : Forall is_byte p -> Forall is_byte (put_item p i id).
Proof using. intros. unfold put_item. apply zsplice_bytes; [apply le_encode_bytes|done]. Qed.

Lemma put_item_same : item (put_item p i id) i = id.
Proof using Hlen Hfits Hid.
  unfold item, put_item, slot_fits, PAGE_HEADER_SIZE, ITEMID_SIZE in *. apply zread_splice_enc; [lia|lia|exact Hid].
Qed.

Lemma put_item_other j : 0 <= j -> j <> i -> item (put_item p i id) j = item p j.
Proof using Hlen Hfits.
  intros H0 Hj. unfold item, put_item, slot_fits, PAGE_HEADER_SIZE, ITEMID_SIZE in *.
  apply zread_splice_out; rewrite ?zlen_enc; lia.
Qed.

(** The rest of the page: any range outside the identifier. *)
Lemma put_item_slice a b :
  0 <= a -> b <= PAGE_HEADER_SIZE + i * ITEMID_SIZE \/ PAGE_HEADER_SIZE + i * ITEMID_SIZE + ITEMID_SIZE <= a ->
  zslice a b (put_item p i id) = zslice a b p.
Proof using Hlen Hfits.
  intros. unfold put_item, slot_fits, PAGE_HEADER_SIZE, ITEMID_SIZE in *.
  apply zslice_splice_out; rewrite ?zlen_enc; lia.
Qed.
End put_item.

(** The header is decoded from its 24 bytes. *)
Lemma decode_slice p q : zslice 0 PAGE_HEADER_SIZE p = zslice 0 PAGE_HEADER_SIZE q -> PageHeader_decode p = PageHeader_decode q.
Proof.
  intros E. assert (forall n off, 0 <= off -> off + Z.of_nat n <= PAGE_HEADER_SIZE -> zread n off p = zread n off q) as H.
  { intros n off H0 Hn. unfold zread. f_equal. apply list_eq. intros k. rewrite !zslice_lookup.
    case_decide; [|done]. apply (f_equal (fun l => l !! (Z.to_nat off + k)%nat)) in E.
    rewrite !zslice_lookup, !decide_True in E by lia. by rewrite !Nat.add_0_l in E. }
  unfold PageHeader_decode. rewrite !H by (unfold PAGE_HEADER_SIZE; lia). done.
Qed.

Lemma encode_slice h p a b :
  zlen p = PAGE_SIZE -> PAGE_HEADER_SIZE <= a -> zslice a b (PageHeader_encode h p) = zslice a b p.
Proof.
  intros Hl Ha. unfold PageHeader_encode. pose proof (zlen_header h).
  unfold PAGE_HEADER_SIZE, PAGE_SIZE in *. apply zslice_splice_out; lia.
Qed.

Lemma encode_item h p i : zlen p = PAGE_SIZE -> 0 <= i -> item (PageHeader_encode h p) i = item p i.
Proof.
  intros Hl Hi. unfold item, zread. rewrite encode_slice; [done|done|]. unfold PAGE_HEADER_SIZE, ITEMID_SIZE. lia.
Qed.

Lemma encode_len h p : zlen p = PAGE_SIZE -> zlen (PageHeader_encode h p) = PAGE_SIZE.
Proof.
  intros Hl. unfold PageHeader_encode. pose proof (zlen_header h). unfold PAGE_HEADER_SIZE, PAGE_SIZE in *.
  rewrite zlen_splice; lia.
Qed.

Lemma header_put_bytes h p : Forall is_byte p -> Forall is_byte (PageHeader_encode h p).
Proof. intros. unfold PageHeader_encode. apply zsplice_bytes; [apply header_bytes_bytes|done]. Qed.

(** ** The abstract page *)

Inductive slot_view := SUnused | SRedirect | SDead | SLive (tuple : list Z).

Definition view_item (p : Page) (id : Z) : slot_view :=
  match ItemId_flags id with
  | Unused => SUnused
  | Redirect => SRedirect
  | Dead => SDead
  | Normal => SLive (zslice (ItemId_offset id) (ItemId_offset id + ItemId_length id) p)
  end.

Definition view (p : Page) (i : Z) : slot_view := view_item p (item p i).

Definition page_slots (p : Page) (h : PageHeader) : list slot_view := map (view p) (seqZ 0 (n_slots h)).

Lemma page_slots_lookup p h i :
  0 <= n_slots h ->
  page_slots p h !! i = if decide (Z.of_nat i < n_slots h) then Some (view p (Z.of_nat i)) else None.
Proof.
  intros Hn. unfold page_slots. rewrite list_lookup_fmap. case_decide.
  - by rewrite lookup_seqZ_lt by done.
  - by rewrite lookup_seqZ_ge by lia.
Qed.

Lemma length_page_slots p h : length (page_slots p h) = Z.to_nat (n_slots h).
Proof. unfold page_slots. by rewrite length_map, length_seqZ. Qed.

Lemma view_live p i t : view p i = SLive t -> live p i /\ t = zslice (start p i) (start p i + extent p i) p.
Proof. unfold view, view_item, live, start, extent. destruct (ItemId_flags _); naive_solver. Qed.

Lemma view_not_live p q i : item q i = item p i -> ~ live p i -> view q i = view p i.
Proof. unfold view, view_item, live. intros ->. by destruct (ItemId_flags _). Qed.

(** A slot whose identifier and bytes are unchanged looks the same. *)
Lemma view_ext p q i :
  item q i = item p i ->
  (live p i -> zslice (start p i) (start p i + extent p i) q = zslice (start p i) (start p i + extent p i) p) ->
  view q i = view p i.
Proof.
  unfold view, view_item, live, start, extent. intros ->. destruct (ItemId_flags _); [done| |done|done].
  intros ->; done.
Qed.

(** ** Directory writes *)

Lemma zero_id : ItemId_new 0 0 Unused = 0 /\ in_width U32 0.
Proof. split; [|done]. rewrite ItemId_new_value; [done|]. split; done. Qed.

(** Writing one identifier into consecutive slots. *)
Lemma write_item_ids_eq p i m :
  zlen p = PAGE_SIZE -> Forall is_byte p -> 0 <= i -> 0 <= m -> (0 < m -> slot_fits (i + m - 1)) ->
  exists q, write_item_ids p (seqZ i m) (ItemId_new 0 0 Unused) = Some q /\
    zlen q = PAGE_SIZE /\ Forall is_byte q /\
    (forall j, i <= j < i + m -> ItemId_flags (item q j) = Unused) /\
    (forall j, 0 <= j -> j < i \/ i + m <= j -> item q j = item p j) /\
    (forall a b, 0 <= a -> b <= PAGE_HEADER_SIZE + i * ITEMID_SIZE \/ PAGE_HEADER_SIZE + (i + m) * ITEMID_SIZE <= a ->
       zslice a b q = zslice a b p).
Proof.
  destruct zero_id as [Hz Hw]. intros Hl Hb Hi Hm Hf.
  remember (Z.to_nat m) as n eqn:Hn. revert p i m Hl Hb Hi Hm Hf Hn.
  induction n as [|n IH]; intros p i m Hl Hb Hi Hm Hf Hn.
  { replace m with 0 by lia. exists p. cbn. repeat split; try done; intros; lia. }
  rewrite seqZ_cons by lia. cbn [write_item_ids].
  assert (slot_fits i) as Hfi.
  { specialize (Hf ltac:(lia)). unfold slot_fits, ITEMID_SIZE, PAGE_HEADER_SIZE in *. lia. }
  rewrite write_item_id_eq by done. cbn [mbind option_bind].
  destruct (IH (put_item p i (ItemId_new 0 0 Unused)) (Z.succ i) (Z.pred m)) as (q & E & Hq & Hqb & Hun & Hit & Hsl);
    [by apply put_item_len|by apply put_item_bytes|lia|lia| |lia|].
  { intros. replace (Z.succ i + Z.pred m - 1) with (i + m - 1) by lia. apply Hf. lia. }
  exists q. split; [done|]. split; [done|]. split; [done|]. split; [|split].
  - intros j Hj. destruct (decide (j = i)) as [->|]; [|apply Hun; lia].
    rewrite Hit by lia. rewrite put_item_same by (rewrite ?Hz; done). by rewrite Hz.
  - intros j H0 Hj. rewrite Hit by lia. apply put_item_other; try done. lia.
  - intros a b Ha Hab. unfold ITEMID_SIZE in *. rewrite Hsl by lia. apply put_item_slice; [done|done|done|].
    unfold ITEMID_SIZE. lia.
Qed.

(** ** Placing a tuple *)

(** The abstract insertion: fill the slot, or extend the directory to it with
    unused slots. *)
Definition put_slot (l : list slot_view) (slot : Z) (t : list Z) : list slot_view :=
  if slot <? Z.of_nat (length l) then <[Z.to_nat slot := SLive t]> l
  else l ++ replicate (Z.to_nat slot - length l) SUnused ++ [SLive t].

(** The target of an insertion: an existing slot that is not live, or one past
    the directory, with the number of entries it adds. *)
Definition target (p : Page) (h : PageHeader) (slot new_slots : Z) : Prop :=
  (0 <= slot < n_slots h /\ new_slots = 0 /\ ~ live p slot) \/
  (n_slots h <= slot /\ new_slots = slot + 1 - n_slots h).

(** The page after a placement, described by what can be read from it. *)
Record placed (p p' : Page) (h : PageHeader) (slot new_slots : Z) (t : list Z) : Prop := {
  pl_len : zlen p' = PAGE_SIZE;
  pl_bytes : Forall is_byte p';
  pl_header : PageHeader_decode p' =
    Ok (with_bounds h (hd_lower h + new_slots * ITEMID_SIZE) (hd_upper h - zlen t));
  pl_slot : item p' slot = ItemId_new (hd_upper h - zlen t) (zlen t) Normal;
  pl_old : forall i, 0 <= i < n_slots h -> i <> slot -> item p' i = item p i;
  pl_gap : forall i, n_slots h <= i < slot -> ItemId_flags (item p' i) = Unused;
  pl_tuple : zslice (hd_upper h - zlen t) (hd_upper h) p' = t;
  pl_data : forall a b, hd_upper h <= a -> zslice a b p' = zslice a b p;
}.

Lemma n_slots_with_bounds h new up :
  header_ok h -> 0 <= new -> n_slots (with_bounds h (hd_lower h + new * ITEMID_SIZE) up) = n_slots h + new.
Proof.
  intros Hh Hn. unfold n_slots. cbn [hd_lower with_bounds]. unfold ITEMID_SIZE.
  replace (hd_lower h + new * 4 - PAGE_HEADER_SIZE) with (hd_lower h - PAGE_HEADER_SIZE + new * 4) by lia.
  by rewrite Z.div_add.
Qed.

Lemma header_ok_with_bounds h new up :
  header_ok h -> 0 <= new -> hd_lower h + new * ITEMID_SIZE <= up -> up <= hd_special h ->
  header_ok (with_bounds h (hd_lower h + new * ITEMID_SIZE) up).
Proof.
  intros [] Hn Hlo Hup. constructor; try done; cbn [hd_lower hd_upper hd_special with_bounds].
  - unfold ITEMID_SIZE. lia.
  - unfold ITEMID_SIZE in *. replace (hd_lower h + new * 4 - PAGE_HEADER_SIZE)
      with (hd_lower h - PAGE_HEADER_SIZE + new * 4) by lia. by rewrite Z.mod_add.
Qed.

Section place.
Context (p : Page) (h : PageHeader) (slot new_slots : Z) (t : list Z).
Hypotheses (Hp : page_ok p h) (Ht : Forall is_byte t) (Htarget : target p h slot new_slots).
Hypothesis (Hspace : zlen t + new_slots * ITEMID_SIZE <= hd_upper h - hd_lower h).

Lemma target_bounds : 0 <= slot /\ 0 <= new_slots /\ slot < n_slots h + new_slots /\ slot_fits slot.
Proof using Hp Htarget Hspace.
  pose proof (page_header_ok _ _ Hp) as Hh. pose proof (lower_slots _ Hh) as [Hlo Hn].
  pose proof (zlen_nonneg t). pose proof (ho_special _ Hh). pose proof (ho_page _ Hh).
  unfold slot_fits, ITEMID_SIZE, PAGE_HEADER_SIZE in *. destruct Htarget as [(? & -> & _)|(? & ->)]; lia.
Qed.

Lemma tuple_placed a b :
  0 <= a -> b <= hd_upper h - zlen t \/ hd_upper h <= a ->
  zslice a b (zsplice (hd_upper h - zlen t) t p) = zslice a b p.
Proof using Hp Hspace Htarget.
  intros Ha Hd. pose proof (page_header_ok _ _ Hp) as Hh. pose proof (lower_slots _ Hh) as [Hlo Hn].
  pose proof target_bounds. pose proof (po_len _ _ Hp). pose proof (ho_special _ Hh). pose proof (ho_page _ Hh).
  unfold ITEMID_SIZE, PAGE_HEADER_SIZE in *. apply zslice_splice_out; lia.
Qed.

Lemma place_tuple_placed :
  exists p', place_tuple p h (n_slots h) slot new_slots t = Some (Ok tt, p') /\ placed p p' h slot new_slots t.
Proof using Hp Ht Htarget Hspace.
  pose proof (page_header_ok _ _ Hp) as Hh. pose proof (lower_slots _ Hh) as [Hlo Hn].
  destruct target_bounds as (Hs0 & Hn0 & Hsn & Hfit). pose proof (zlen_nonneg t) as Ht0.
  pose proof (po_len _ _ Hp) as Hlen. pose proof (ho_special _ Hh) as Hsp. pose proof (ho_page _ Hh) as Hpg.
  assert (Hup : PAGE_HEADER_SIZE <= hd_upper h - zlen t /\ hd_upper h <= PAGE_SIZE)
    by (unfold ITEMID_SIZE, PAGE_HEADER_SIZE in *; lia).
  unfold place_tuple. rewrite free_space_eq by done. rewrite (proj2 (Z.ltb_ge _ _)) by done.
  unfold checked_sub. rewrite (proj2 (Z.leb_le _ _)) by (unfold PAGE_HEADER_SIZE in *; lia).
  set (up := hd_upper h - zlen t) in *. set (p1 := zsplice up t p) in *.
  unfold item_offset_from_usize. change MAX_OFFSET with 32767. unfold PAGE_SIZE in *.
  rewrite (proj2 (Z.leb_gt _ _)) by (unfold U32; lia). rewrite (proj2 (Z.ltb_ge _ _)) by lia.
  assert (Hlen1 : zlen p1 = PAGE_SIZE) by (unfold p1, up, PAGE_HEADER_SIZE, PAGE_SIZE in *; rewrite zlen_splice; lia).
  assert (Hb1 : Forall is_byte p1) by (apply zsplice_bytes; [done|apply Hp]).
  set (id := ItemId_new up (zlen t) Normal).
  assert (Hfid : fits_item up (zlen t))
    by (unfold fits_item, PAGE_HEADER_SIZE in *; change MAX_OFFSET with 32767; change MAX_LENGTH with 32767; lia).
  assert (exists q, (if 0 <? new_slots
      then write_item_ids p1 (seqZ (n_slots h) (slot - n_slots h)) (ItemId_new 0 0 Unused) else Some p1) = Some q /\
    zlen q = PAGE_SIZE /\ Forall is_byte q /\
    (forall j, n_slots h <= j < slot -> ItemId_flags (item q j) = Unused) /\
    (forall j, 0 <= j < n_slots h -> item q j = item p1 j) /\
    (forall a b, 0 <= a -> b <= PAGE_HEADER_SIZE \/ up <= a -> zslice a b q = zslice a b p1))
    as (q & Eq & Hlq & Hbq & Hgap & Hold & Hsl).
  { destruct (Z.ltb_spec 0 new_slots) as [Hpos|].
    - destruct Htarget as [|[Hge Hnew]]; [lia|].
      destruct (write_item_ids_eq p1 (n_slots h) (slot - n_slots h) Hlen1 Hb1 Hn ltac:(lia))
        as (q & E & ? & ? & Hg & Hi & Hs).
      { intros. unfold slot_fits, ITEMID_SIZE, PAGE_HEADER_SIZE in *. lia. }
      exists q. repeat split; try done; [intros; apply Hg; lia|intros; apply Hi; lia|].
      intros a b Ha Hab. apply Hs; [done|]. unfold ITEMID_SIZE, PAGE_HEADER_SIZE, up in *. lia.
    - exists p1. repeat split; try done. intros j Hj. destruct Htarget as [(? & ? & _)|[]]; lia. }
  rewrite Eq. cbn [mbind option_bind]. rewrite write_item_id_eq by done. cbn [mbind option_bind].
  unfold page_u16_from_usize. rewrite !(proj2 (Z.ltb_lt _ _)) by (unfold U16, up, PAGE_HEADER_SIZE in *; lia).
  set (h' := with_bounds _ _ _). eexists. split; [done|].
  assert (Hlq' : zlen (put_item q slot id) = PAGE_SIZE) by by apply put_item_len.
  assert (Hdir : forall i, 0 <= i < n_slots h -> item p1 i = item p i).
  { intros i Hi. unfold item, zread. unfold p1, up. rewrite tuple_placed; [done| |];
      unfold ITEMID_SIZE, PAGE_HEADER_SIZE, up in *; lia. }
  constructor; fold up.
  - by apply encode_len.
  - by apply header_put_bytes, put_item_bytes.
  - apply header_decode_encode; [done|]. apply header_ok_with_bounds; [done|done| |]; unfold up; lia.
  - rewrite encode_item by done. apply put_item_same; [done|done|]. by apply ItemId_new_bound.
  - intros i Hi Hne. rewrite encode_item, put_item_other, Hold by (done || lia). by apply Hdir.
  - intros i Hi. rewrite encode_item, put_item_other by (done || lia). by apply Hgap.
  - rewrite encode_slice, put_item_slice, Hsl by (done || (unfold ITEMID_SIZE, PAGE_HEADER_SIZE, up in *; lia)).
    pose proof (zslice_splice_in up t p) as Hin. fold p1 in Hin. replace (up + zlen t) with (hd_upper h) in Hin by (unfold up; lia).
    apply Hin; unfold PAGE_HEADER_SIZE in *; lia.
  - intros a b Ha. rewrite encode_slice, put_item_slice, Hsl
      by (done || (unfold ITEMID_SIZE, PAGE_HEADER_SIZE, up in *; lia)).
    unfold p1, up. apply tuple_placed; unfold PAGE_HEADER_SIZE in *; lia.
Qed.
End place.

Section placed.
Context (p p' : Page) (h : PageHeader) (slot new_slots : Z) (t : list Z).
Hypotheses (Hp : page_ok p h) (Htarget : target p h slot new_slots).
Hypothesis (Hspace : zlen t + new_slots * ITEMID_SIZE <= hd_upper h - hd_lower h).
Hypothesis (Hpl : placed p p' h slot new_slots t).

Abbreviation h' := (with_bounds h (hd_lower h + new_slots * ITEMID_SIZE) (hd_upper h - zlen t)).

Lemma placed_bounds :
  header_ok h /\ 0 <= slot < n_slots h + new_slots /\ 0 <= new_slots /\ 0 <= n_slots h /\
  fits_item (hd_upper h - zlen t) (zlen t) /\ n_slots h' = n_slots h + new_slots.
Proof using Hp Htarget Hspace.
  pose proof (page_header_ok _ _ Hp) as Hh. pose proof (lower_slots _ Hh) as [Hlo Hn].
  destruct (target_bounds p h slot new_slots t Hp Htarget Hspace) as (? & ? & ? & _).
  pose proof (ho_special _ Hh). pose proof (ho_page _ Hh). pose proof (zlen_nonneg t).
  split; [done|]. split; [lia|]. split; [done|]. split; [done|]. split; [|by apply n_slots_with_bounds].
  unfold fits_item, PAGE_SIZE, PAGE_HEADER_SIZE, ITEMID_SIZE in *.
  change MAX_OFFSET with 32767. change MAX_LENGTH with 32767. lia.
Qed.

(** Which slots are live after the placement, and where. *)
Lemma placed_live i :
  0 <= i < n_slots h + new_slots -> live p' i ->
  (i = slot /\ start p' i = hd_upper h - zlen t /\ extent p' i = zlen t) \/
  (i <> slot /\ 0 <= i < n_slots h /\ live p i /\ start p' i = start p i /\ extent p' i = extent p i).
Proof using Hp Htarget Hspace Hpl.
  destruct placed_bounds as (Hh & Hs & Hn0 & Hn & Hfit & _). intros Hi Hli.
  destruct (decide (i = slot)) as [->|Hne].
  - left. unfold start, extent. rewrite (pl_slot _ _ _ _ _ _ Hpl).
    destruct (ItemId_new_fields _ _ Normal Hfit) as (_ & -> & ->). done.
  - right. destruct (decide (i < n_slots h)) as [Hlt|].
    + assert (item p' i = item p i) as E by (apply (pl_old _ _ _ _ _ _ Hpl); lia).
      unfold live, start, extent in *. rewrite E in *. by repeat split; try lia.
    + unfold live in Hli. rewrite (pl_gap _ _ _ _ _ _ Hpl) in Hli; [done|].
      destruct Htarget as [|[]]; lia.
Qed.

Lemma placed_ok : page_ok p' h'.
Proof using Hp Htarget Hspace Hpl.
  destruct placed_bounds as (Hh & Hs & Hn0 & Hn & Hfit & Hns). pose proof (ho_upper _ Hh). pose proof (ho_special _ Hh).
  pose proof (zlen_nonneg t).
  constructor; [apply Hpl|apply Hpl|apply Hpl| |]; rewrite Hns; cbn [hd_upper hd_special with_bounds].
  - intros i Hi Hl. destruct (placed_live i Hi Hl) as [(-> & -> & ->)|(_ & Hlt & Hl0 & -> & ->)]; [lia|].
    pose proof (po_live _ _ Hp i Hlt Hl0). lia.
  - intros i j Hi Hj Hne Hli Hlj.
    destruct (placed_live i Hi Hli) as [(-> & -> & ->)|(Hi1 & Hi2 & Hi3 & -> & ->)],
             (placed_live j Hj Hlj) as [(-> & -> & ->)|(Hj1 & Hj2 & Hj3 & -> & ->)]; [done| | |].
    + pose proof (po_live _ _ Hp j Hj2 Hj3). lia.
    + pose proof (po_live _ _ Hp i Hi2 Hi3). lia.
    + by apply (po_disjoint _ _ Hp).
Qed.

Lemma placed_view i :
  0 <= i < n_slots h + new_slots ->
  view p' i = if decide (i = slot) then SLive t else if decide (i < n_slots h) then view p i else SUnused.
Proof using Hp Htarget Hspace Hpl.
  destruct placed_bounds as (Hh & Hs & Hn0 & Hn & Hfit & Hns). intros Hi. case_decide as He.
  - subst i. unfold view, view_item. rewrite (pl_slot _ _ _ _ _ _ Hpl).
    destruct (ItemId_new_fields _ _ Normal Hfit) as (-> & -> & ->). f_equal.
    replace (hd_upper h - zlen t + zlen t) with (hd_upper h) by lia. apply Hpl.
  - case_decide.
    + apply view_ext; [apply (pl_old _ _ _ _ _ _ Hpl); lia|]. intros Hl. apply Hpl.
      apply (po_live _ _ Hp); [lia|done].
    + unfold view, view_item. rewrite (pl_gap _ _ _ _ _ _ Hpl); [done|]. destruct Htarget as [|[]]; lia.
Qed.

Lemma placed_slots : page_slots p' h' = put_slot (page_slots p h) slot t.
Proof using Hp Htarget Hspace Hpl.
  destruct placed_bounds as (Hh & Hs & Hn0 & Hn & Hfit & Hns).
  apply list_eq. intros i. rewrite page_slots_lookup by (rewrite Hns; lia). rewrite Hns.
  pose proof (length_page_slots p h) as Hl. unfold put_slot. rewrite Hl.
  destruct (Z.ltb_spec slot (Z.of_nat (Z.to_nat (n_slots h)))) as [Hlt|Hge].
  - destruct Htarget as [(_ & Hnew & _)|[]]; [|lia].
    destruct (decide (i = Z.to_nat slot)) as [->|Hne].
    + rewrite list_lookup_insert_eq by (rewrite Hl; lia). rewrite decide_True by lia.
      rewrite placed_view by lia. by rewrite decide_True by lia.
    + rewrite list_lookup_insert_ne by done. rewrite page_slots_lookup by done.
      rewrite Hnew, Z.add_0_r. case_decide; [|done]. rewrite placed_view by lia.
      by rewrite decide_False, decide_True by lia.
  - destruct Htarget as [(? & _)|[_ Hnew]]; [lia|]. rewrite Hnew.
    replace (n_slots h + (slot + 1 - n_slots h)) with (slot + 1) by lia.
    destruct (decide (Z.of_nat i < n_slots h)).
    + rewrite lookup_app_l by (rewrite Hl; lia). rewrite page_slots_lookup by done.
      rewrite !decide_True by lia. rewrite placed_view by lia. by rewrite decide_False, decide_True by lia.
    + rewrite lookup_app_r by (rewrite Hl; lia). rewrite Hl.
      destruct (decide (Z.of_nat i < slot)).
      * rewrite lookup_app_l by (rewrite length_replicate; lia). rewrite lookup_replicate_2 by lia.
        rewrite decide_True by lia. rewrite placed_view by lia. by rewrite !decide_False by lia.
      * rewrite lookup_app_r by (rewrite length_replicate; lia). rewrite length_replicate.
        case_decide.
        -- replace (i - _ - _)%nat with 0%nat by lia. cbn. rewrite placed_view by lia. by rewrite decide_True by lia.
        -- symmetry. apply lookup_ge_None. cbn. lia.
Qed.
End placed.

(** What an insertion does to the page: the space it needs, and the result. *)
Definition inserts (p : Page) (h : PageHeader) (slot new_slots : Z) (t : list Z) (p' : Page) : Prop :=
  exists h', page_ok p' h' /\ hd_kind h' = hd_kind h /\ hd_special h' = hd_special h /\ hd_lsn h' = hd_lsn h /\
    hd_upper h' - hd_lower h' = hd_upper h - hd_lower h - zlen t - new_slots * ITEMID_SIZE /\
    page_slots p' h' = put_slot (page_slots p h) slot t.

Lemma place_tuple_spec p h slot new_slots t :
  page_ok p h -> Forall is_byte t -> target p h slot new_slots ->
  let free := hd_upper h - hd_lower h in
  let needed := zlen t + new_slots * ITEMID_SIZE in
  if free <? needed then place_tuple p h (n_slots h) slot new_slots t = Some (Err (NoSpace needed free), p)
  else exists p', place_tuple p h (n_slots h) slot new_slots t = Some (Ok tt, p') /\ inserts p h slot new_slots t p'.
Proof.
  intros Hp Ht Htg free needed. destruct (Z.ltb_spec free needed) as [Hlt|Hge].
  - unfold place_tuple. rewrite free_space_eq by by eapply page_header_ok.
    fold free needed. by rewrite (proj2 (Z.ltb_lt _ _)).
  - destruct (place_tuple_placed p h slot new_slots t Hp Ht Htg Hge) as (p' & E & Hpl).
    exists p'. split; [done|]. eexists. split; [by apply (placed_ok p p' h slot new_slots t)|].
    do 3 (split; [done|]). split; [cbn; unfold free, needed in *; lia|].
    by apply (placed_slots p p' h slot new_slots t).
Qed.

(** ** Compaction *)

Lemma gather_live_eq p i m :
  0 <= i -> 0 <= m -> (forall j, i <= j < i + m -> slot_fits j) ->
  exists l, gather_live p (seqZ i m) = Some l /\ NoDup (map li_slot l) /\
    (forall li, li ∈ l <-> i <= li_slot li < i + m /\ live p (li_slot li) /\
       li = mk_live_item (li_slot li) (start p (li_slot li)) (extent p (li_slot li))).
Proof.
  intros Hi Hm Hf. remember (Z.to_nat m) as n eqn:Hn. revert i m Hi Hm Hf Hn.
  induction n as [|n IH]; intros i m Hi Hm Hf Hn.
  { replace m with 0 by lia. exists []. cbn. split; [done|]. split; [constructor|].
    intros li. split; [by intros ?%elem_of_nil|]. lia. }
  rewrite seqZ_cons by lia. cbn [gather_live]. rewrite read_item_id_eq by (apply Hf; lia). cbn [mbind option_bind].
  destruct (IH (Z.succ i) (Z.pred m)) as (l & -> & Hnd & Hl); [lia|lia|intros; apply Hf; lia|lia|].
  cbn [mbind option_bind]. unfold ItemId_is_normal.
  destruct (bool_decide_reflect (ItemId_flags (item p i) = Normal)) as [Hli|Hli].
  - eexists. split; [done|]. cbn [map li_slot]. split.
    { apply NoDup_cons. split; [|done]. rewrite list_elem_of_fmap. intros (li & -> & Hin%Hl). lia. }
    intros li. rewrite elem_of_cons, Hl. split.
    + intros [->|(? & ? & ?)]; [|split; [lia|done]]. cbn [li_slot]. split; [lia|done].
    + intros (Hr & Hlv & E). destruct (decide (li_slot li = i)) as [Ei|]; [left; by rewrite E, Ei|].
      right. split; [lia|done].
  - eexists. split; [done|]. split; [done|]. intros li. rewrite Hl. split.
    + intros (? & ? & ?). split; [lia|done].
    + intros (Hr & Hlv & ?). assert (li_slot li <> i) by (intros Ei; rewrite Ei in Hlv; by apply Hli). split; [lia|done].
Qed.

Definition sum_len (l : list live_item) : Z := foldr (fun li s => li_len li + s) 0 l.

Lemma sum_len_perm l k : l ≡ₚ k -> sum_len l = sum_len k.
Proof. unfold sum_len. induction 1; cbn; lia. Qed.

Section compact.
Context (p : Page) (h : PageHeader) (all : list live_item).
Hypothesis (Hp : page_ok p h).

(** The loop invariant: what remains to be moved is where it was and below
    [w], what was moved holds its tuple above [w]. *)
Record compacting (q : Page) (w : Z) (rest : list live_item) : Prop := {
  c_len : zlen q = PAGE_SIZE;
  c_bytes : Forall is_byte q;
  c_header : zslice 0 PAGE_HEADER_SIZE q = zslice 0 PAGE_HEADER_SIZE p;
  c_rest : forall li, li ∈ rest ->
    0 <= li_slot li < n_slots h /\ live p (li_slot li) /\ li_off li = start p (li_slot li) /\
    li_len li = extent p (li_slot li) /\ item q (li_slot li) = item p (li_slot li) /\ li_off li + li_len li <= w /\
    zslice (li_off li) (li_off li + li_len li) q = zslice (li_off li) (li_off li + li_len li) p;
  c_done : forall i, 0 <= i < n_slots h -> live p i -> i ∉ map li_slot rest ->
    live q i /\ w <= start q i /\ start q i + extent q i <= hd_special h /\ view q i = view p i;
  c_disjoint : forall i j, 0 <= i < n_slots h -> 0 <= j < n_slots h -> i <> j -> live p i -> live p j ->
    i ∉ map li_slot rest -> j ∉ map li_slot rest ->
    start q i + extent q i <= start q j \/ start q j + extent q j <= start q i;
  c_other : forall i, 0 <= i < n_slots h -> ~ live p i -> item q i = item p i;
  c_sorted : StronglySorted off_ge rest;
  c_nodup : NoDup (map li_slot rest);
  c_top : hd_upper h <= w <= hd_special h;
  c_sum : w = hd_special h - (sum_len all - sum_len rest);
}.

Lemma copied_page q w li rest :
  compacting q w (li :: rest) ->
  let new_off := w - li_len li in
  let t := zslice (li_off li) (li_off li + li_len li) p in
  (if negb (new_off =? li_off li) then copy_within (li_off li) (li_off li + li_len li) new_off q else q)
    = zsplice new_off t q /\ zlen t = li_len li /\ 0 <= li_len li /\ li_off li <= new_off /\ hd_upper h <= li_off li.
Proof using Hp.
  intros Hc new_off t. destruct (c_rest _ _ _ Hc li (list_elem_of_here _ _)) as (Hs & Hl & Ho & He & Hi & Hw & Ht).
  pose proof (po_live _ _ Hp _ Hs Hl) as [Hup Hsp]. pose proof (page_header_ok _ _ Hp) as Hh.
  pose proof (ItemId_length_bound (item p (li_slot li))) as Hb. fold (extent p (li_slot li)) in Hb. rewrite <- He in Hb.
  pose proof (ho_page _ Hh). pose proof (ho_lower _ Hh). pose proof (ho_upper _ Hh). pose proof (po_len _ _ Hp).
  pose proof (c_len _ _ _ Hc). pose proof (c_top _ _ _ Hc).
  unfold PAGE_HEADER_SIZE in *. rewrite <- Ho in Hup. rewrite <- Ho, <- He in Hsp.
  assert (Hlt : zlen t = li_len li) by (unfold t; rewrite zlen_slice; lia).
  split; [|unfold new_off; lia]. unfold copy_within. rewrite Ht. fold t.
  destruct (Z.eqb_spec new_off (li_off li)) as [E|]; [|done]. cbn [negb]. symmetry. rewrite E.
  apply zsplice_id; [lia|lia|]. rewrite Hlt. exact Ht.
Qed.

(** What remains still lies below the bound after a move. *)
Lemma rest_below q w li rest lj :
  compacting q w (li :: rest) -> lj ∈ rest -> li_off lj + li_len lj <= w - li_len li.
Proof using Hp.
  intros Hc Hj. destruct (copied_page _ _ _ _ Hc) as (_ & _ & Hli0 & Hoff & _).
  destruct (c_rest _ _ _ Hc li (list_elem_of_here _ _)) as (Hs & Hl & Ho & He & _ & Hw & _).
  destruct (c_rest _ _ _ Hc lj (list_elem_of_further _ _ _ Hj)) as (Hs' & Hl' & Ho' & He' & _ & Hw' & _).
  pose proof (c_sorted _ _ _ Hc) as Hso. apply StronglySorted_inv in Hso as [_ Hf].
  rewrite Forall_forall in Hf. specialize (Hf lj Hj). unfold off_ge in Hf.
  pose proof (c_nodup _ _ _ Hc) as Hn. apply NoDup_cons in Hn as [Hn _].
  assert (li_slot li <> li_slot lj) as Hne by (intros E; apply Hn; rewrite E; by apply list_elem_of_fmap_2).
  pose proof (po_disjoint _ _ Hp _ _ Hs Hs' Hne Hl Hl') as Hd. rewrite <- Ho, <- He, <- Ho', <- He' in Hd. lia.
Qed.

Section move.
Context (q : Page) (w : Z) (li : live_item) (rest : list live_item).
Hypothesis (Hc : compacting q w (li :: rest)).

Abbreviation new_off := (w - li_len li).
Abbreviation t := (zslice (li_off li) (li_off li + li_len li) p).
Abbreviation q' := (put_item (zsplice new_off t q) (li_slot li) (ItemId_new new_off (li_len li) Normal)).

Lemma move_facts :
  slot_fits (li_slot li) /\ zlen (zsplice new_off t q) = PAGE_SIZE /\ fits_item new_off (li_len li) /\
  PAGE_HEADER_SIZE + n_slots h * ITEMID_SIZE <= new_off.
Proof using Hp Hc.
  destruct (copied_page _ _ _ _ Hc) as (_ & Ht & H0 & Hoff & Hup).
  destruct (c_rest _ _ _ Hc li (list_elem_of_here _ _)) as (Hs & Hl & Ho & He & _ & Hw & _).
  pose proof (page_header_ok _ _ Hp) as Hh. pose proof (lower_slots _ Hh) as [Hlo ?].
  pose proof (ho_upper _ Hh). pose proof (ho_page _ Hh). pose proof (c_top _ _ _ Hc).
  pose proof (c_len _ _ _ Hc) as Hq. split; [by eapply slot_fits_below|].
  unfold fits_item, PAGE_SIZE, PAGE_HEADER_SIZE, ITEMID_SIZE in *.
  split; [rewrite zlen_splice; lia|]. change MAX_OFFSET with 32767. change MAX_LENGTH with 32767.
  pose proof (ItemId_length_bound (item p (li_slot li))) as Hb. fold (extent p (li_slot li)) in Hb.
  change MAX_LENGTH with 32767 in Hb. lia.
Qed.

Lemma moved_item i : 0 <= i < n_slots h -> i <> li_slot li -> item q' i = item q i.
Proof using Hp Hc.
  intros Hi Hne. destruct move_facts as (Hf & Hl & _ & Hd). rewrite put_item_other by (done || lia).
  destruct (copied_page _ _ _ _ Hc) as (_ & Ht & H0 & Hoff & Hup). pose proof (c_top _ _ _ Hc).
  pose proof (page_header_ok _ _ Hp) as Hh. pose proof (ho_page _ Hh). pose proof (c_len _ _ _ Hc) as Hq.
  unfold item. unfold PAGE_SIZE, PAGE_HEADER_SIZE, ITEMID_SIZE in *. apply zread_splice_out; lia.
Qed.

Lemma moved_slice a b :
  PAGE_HEADER_SIZE + n_slots h * ITEMID_SIZE <= a -> b <= new_off \/ w <= a -> zslice a b q' = zslice a b q.
Proof using Hp Hc.
  intros Ha Hb. destruct move_facts as (Hf & Hl & _ & Hd).
  destruct (c_rest _ _ _ Hc li (list_elem_of_here _ _)) as (Hs & _).
  destruct (copied_page _ _ _ _ Hc) as (_ & Ht & H0 & Hoff & Hup). pose proof (c_top _ _ _ Hc).
  pose proof (page_header_ok _ _ Hp) as Hh. pose proof (ho_page _ Hh). pose proof (c_len _ _ _ Hc) as Hq.
  pose proof (lower_slots _ Hh) as [Hlo ?].
  rewrite put_item_slice by (done || (unfold PAGE_HEADER_SIZE, ITEMID_SIZE in *; lia)).
  unfold PAGE_SIZE, PAGE_HEADER_SIZE, ITEMID_SIZE in *. apply zslice_splice_out; lia.
Qed.

Lemma moved_self :
  live q' (li_slot li) /\ start q' (li_slot li) = new_off /\ extent q' (li_slot li) = li_len li /\
  view q' (li_slot li) = view p (li_slot li).
Proof using Hp Hc.
  destruct move_facts as (Hf & Hl & Hfit & Hd).
  destruct (c_rest _ _ _ Hc li (list_elem_of_here _ _)) as (Hs & Hlive & Ho & He & _).
  destruct (copied_page _ _ _ _ Hc) as (_ & Ht & H0 & Hoff & Hup). pose proof (c_top _ _ _ Hc).
  pose proof (page_header_ok _ _ Hp) as Hh. pose proof (ho_page _ Hh). pose proof (c_len _ _ _ Hc) as Hq.
  pose proof (ItemId_new_fields _ _ Normal Hfit) as (Ef & El & Eo).
  assert (item q' (li_slot li) = ItemId_new new_off (li_len li) Normal) as E
    by (apply put_item_same; [done|done|by apply ItemId_new_bound]).
  unfold live, start, extent, view, view_item. rewrite E, Ef, El, Eo.
  split; [done|]. split; [done|]. split; [done|]. unfold live in Hlive. rewrite Hlive.
  fold (start p (li_slot li)) (extent p (li_slot li)). rewrite <- Ho, <- He. f_equal.
  rewrite put_item_slice by (done || (unfold PAGE_HEADER_SIZE, ITEMID_SIZE in *; lia)).
  pose proof (zslice_splice_in new_off t q) as Hin. rewrite Ht in Hin.
  replace (new_off + li_len li) with w by lia. replace (new_off + li_len li) with w in Hin by lia.
  apply Hin; unfold PAGE_SIZE, PAGE_HEADER_SIZE, ITEMID_SIZE in *; lia.
Qed.

(** A slot moved earlier is not disturbed. *)
Lemma moved_done i :
  0 <= i < n_slots h -> live p i -> i ∉ map li_slot (li :: rest) ->
  live q' i /\ start q' i = start q i /\ extent q' i = extent q i /\ view q' i = view p i.
Proof using Hp Hc.
  intros Hi Hl Hn. destruct (c_done _ _ _ Hc i Hi Hl Hn) as (Hlq & Hw & Hsp & Hv).
  assert (i <> li_slot li) as Hne by (intros ->; apply Hn; apply list_elem_of_here).
  pose proof (moved_item i Hi Hne) as E. destruct move_facts as (_ & _ & _ & Hd).
  destruct (copied_page _ _ _ _ Hc) as (_ & _ & H0 & _).
  unfold live, start, extent in *. rewrite E. split; [done|]. split; [done|]. split; [done|].
  rewrite <- Hv. apply view_ext; [done|]. intros _. apply moved_slice; unfold start in *; lia.
Qed.

Lemma move_live_step :
  exists q2, move_live q w li = Some (Ok (w - li_len li), q2) /\ compacting q2 (w - li_len li) rest.
Proof using Hp Hc.
  destruct move_facts as (Hf & Hl & Hfit & Hd). destruct (copied_page _ _ _ _ Hc) as (E & Ht & H0 & Hoff & Hup).
  destruct (c_rest _ _ _ Hc li (list_elem_of_here _ _)) as (Hs & Hlive & Ho & He & _ & Hw & _).
  pose proof (c_top _ _ _ Hc) as Htop. pose proof (page_header_ok _ _ Hp) as Hh. pose proof (ho_page _ Hh) as Hpg.
  pose proof (c_len _ _ _ Hc) as Hq. pose proof (lower_slots _ Hh) as [Hlo Hn0]. pose proof (ho_upper _ Hh) as Hupp.
  pose proof (c_nodup _ _ _ Hc) as Hnd. apply NoDup_cons in Hnd as [Hnin Hnd].
  pose proof moved_self as (Hself & Hst & Hex & Hvw).
  exists q'. split.
  { unfold move_live. rewrite (proj2 (Z.ltb_ge _ _)) by lia. unfold checked_sub.
    rewrite (proj2 (Z.leb_le _ _)) by (unfold PAGE_HEADER_SIZE, ITEMID_SIZE in *; lia). cbn zeta. rewrite E.
    unfold item_offset_from_usize. unfold fits_item in Hfit.
    rewrite (proj2 (Z.leb_gt _ _)) by (change MAX_OFFSET with 32767 in Hfit; unfold U32; lia).
    rewrite (proj2 (Z.ltb_ge _ _)) by lia. by rewrite write_item_id_eq. }
  constructor.
  - by apply put_item_len.
  - apply put_item_bytes, zsplice_bytes; [apply zslice_bytes, Hp|apply Hc].
  - rewrite <- (c_header _ _ _ Hc). rewrite put_item_slice by (done || (unfold PAGE_HEADER_SIZE, ITEMID_SIZE in *; lia)).
    unfold PAGE_SIZE, PAGE_HEADER_SIZE, ITEMID_SIZE in *. apply zslice_splice_out; lia.
  - intros lj Hj. pose proof (rest_below _ _ _ _ _ Hc Hj) as Hb.
    destruct (c_rest _ _ _ Hc lj (list_elem_of_further _ _ _ Hj)) as (Hs' & Hl' & Ho' & He' & Hi' & Hw' & Hz').
    pose proof (po_live _ _ Hp _ Hs' Hl') as [Hu' _]. rewrite <- Ho' in Hu'.
    assert (li_slot lj <> li_slot li) as Hne by (intros X; apply Hnin; rewrite <- X; by apply list_elem_of_fmap_2).
    split; [done|]. split; [done|]. split; [done|]. split; [done|]. split; [by rewrite moved_item|]. split; [lia|].
    rewrite moved_slice; [done| |left; lia]. lia.
  - intros i Hi Hl' Hn. destruct (decide (i = li_slot li)) as [->|Hne].
    + rewrite Hst, Hex. split; [done|]. split; [lia|]. split; [lia|done].
    + destruct (moved_done i Hi Hl') as (A & B & C & D); [by apply not_elem_of_cons|].
      destruct (c_done _ _ _ Hc i Hi Hl') as (_ & Hw' & Hsp' & _); [by apply not_elem_of_cons|].
      rewrite B, C. split; [done|]. split; [lia|]. split; [lia|done].
  - intros i j Hi Hj Hij Hli Hlj Hni Hnj.
    assert (Hpos : forall k, 0 <= k < n_slots h -> live p k -> k <> li_slot li -> k ∉ map li_slot rest ->
      start q' k = start q k /\ extent q' k = extent q k /\ w <= start q k).
    { intros k Hk Hlk Hkn Hnk. destruct (moved_done k Hk Hlk) as (_ & B & C & _); [by apply not_elem_of_cons|].
      destruct (c_done _ _ _ Hc k Hk Hlk) as (_ & ? & _); [by apply not_elem_of_cons|]. done. }
    destruct (decide (i = li_slot li)) as [->|Hi'], (decide (j = li_slot li)) as [->|Hj']; [done| | |].
    + destruct (Hpos j) as (-> & -> & ?); try done. rewrite Hst, Hex. lia.
    + destruct (Hpos i) as (-> & -> & ?); try done. rewrite Hst, Hex. lia.
    + destruct (Hpos i) as (-> & -> & ?); try done. destruct (Hpos j) as (-> & -> & ?); try done.
      apply (c_disjoint _ _ _ Hc); try done; by apply not_elem_of_cons.
  - intros i Hi Hnl. rewrite moved_item; [by apply Hc|done|]. intros ->. by apply Hnl.
  - by pose proof (c_sorted _ _ _ Hc) as [? _]%StronglySorted_inv.
  - done.
  - lia.
  - pose proof (c_sum _ _ _ Hc) as Hsum. cbn [sum_len foldr] in Hsum. unfold sum_len in *. lia.
Qed.
End move.

Lemma move_all_eq q w rest :
  compacting q w rest ->
  exists q', move_all q w rest = Some (Ok (w - sum_len rest), q') /\ compacting q' (w - sum_len rest) [].
Proof using Hp.
  revert q w. induction rest as [|li rest IH]; intros q w Hc.
  { exists q. cbn [move_all sum_len foldr]. rewrite Z.sub_0_r. done. }
  destruct (move_live_step q w li rest Hc) as (q2 & E & Hc2). cbn [move_all]. rewrite E. cbn [mbind option_bind].
  destruct (IH _ _ Hc2) as (q3 & E3 & Hc3). exists q3. cbn [sum_len foldr]. fold (sum_len rest).
  replace (w - (li_len li + sum_len rest)) with (w - li_len li - sum_len rest) by lia. done.
Qed.
End compact.

(** Dead slots become unused, nothing else changes. *)
Lemma clear_dead_eq q i m :
  zlen q = PAGE_SIZE -> Forall is_byte q -> 0 <= i -> 0 <= m -> (forall j, i <= j < i + m -> slot_fits j) ->
  exists q', clear_dead q (seqZ i m) = Some q' /\ zlen q' = PAGE_SIZE /\ Forall is_byte q' /\
    (forall j, i <= j < i + m -> ItemId_flags (item q j) = Dead -> ItemId_flags (item q' j) = Unused) /\
    (forall j, 0 <= j -> ~ (i <= j < i + m /\ ItemId_flags (item q j) = Dead) -> item q' j = item q j) /\
    (forall a b, 0 <= a -> b <= PAGE_HEADER_SIZE \/ PAGE_HEADER_SIZE + (i + m) * ITEMID_SIZE <= a ->
       zslice a b q' = zslice a b q).
Proof.
  destruct zero_id as [Hz Hw]. intros Hl Hb Hi Hm Hf.
  remember (Z.to_nat m) as n eqn:Hn. revert q i m Hl Hb Hi Hm Hf Hn.
  induction n as [|n IH]; intros q i m Hl Hb Hi Hm Hf Hn.
  { replace m with 0 by lia. exists q. cbn. repeat split; try done; intros; lia. }
  rewrite seqZ_cons by lia. cbn [clear_dead]. assert (slot_fits i) as Hfi by (apply Hf; lia).
  rewrite read_item_id_eq by done. cbn [mbind option_bind].
  set (q1 := if bool_decide (ItemId_flags (item q i) = Dead) then put_item q i (ItemId_new 0 0 Unused) else q).
  replace (if bool_decide _ then _ else _) with (Some q1)
    by (unfold q1; case_bool_decide; [by rewrite write_item_id_eq|done]). cbn [mbind option_bind].
  assert (zlen q1 = PAGE_SIZE /\ Forall is_byte q1) as [Hl1 Hb1].
  { unfold q1. case_bool_decide; [|done]. split; [by apply put_item_len|by apply put_item_bytes]. }
  assert (Hother : forall j, 0 <= j -> j <> i -> item q1 j = item q j).
  { intros j ??. unfold q1. case_bool_decide; [by apply put_item_other|done]. }
  destruct (IH q1 (Z.succ i) (Z.pred m)) as (q' & E & ? & ? & Hd & Hk & Hsl); try done; try lia.
  { intros. apply Hf. lia. }
  exists q'. split; [done|]. split; [done|]. split; [done|]. split; [|split].
  - intros j Hj Hdead. destruct (decide (j = i)) as [->|Hne].
    + rewrite Hk by lia. unfold q1. rewrite bool_decide_true by done.
      rewrite put_item_same by (rewrite ?Hz; done). by rewrite Hz.
    + apply Hd; [lia|]. by rewrite Hother by lia.
  - intros j Hj0 Hj. destruct (decide (j = i)) as [->|Hne].
    + rewrite Hk by lia. unfold q1. rewrite bool_decide_false; [done|]. intros ?. apply Hj. split; [lia|done].
    + rewrite Hk, Hother; try done. rewrite Hother by done. intros [? ?]. apply Hj. split; [lia|done].
  - intros a b Ha Hab. rewrite Hsl by (unfold ITEMID_SIZE in *; lia). unfold q1. case_bool_decide; [|done].
    apply put_item_slice; [done|done|done|]. unfold ITEMID_SIZE, PAGE_HEADER_SIZE in *. lia.
Qed.

(** The abstract compaction. *)
Definition bury (s : slot_view) : slot_view := match s with SDead => SUnused | _ => s end.

Definition slot_bytes (s : slot_view) : Z := match s with SLive t => zlen t | _ => 0 end.

Definition live_bytes (l : list slot_view) : Z := foldr (fun s n => slot_bytes s + n) 0 l.

#[global] Instance off_ge_trans : Transitive off_ge.
Proof. intros a b c. unfold off_ge. lia. Qed.
#[global] Instance off_ge_total : Total off_ge.
Proof. intros a b. unfold off_ge. lia. Qed.

Lemma start_compacting p h l :
  page_ok p h -> gather_live p (slots_below (n_slots h)) = Some l ->
  compacting p h l p (hd_special h) (merge_sort off_ge l).
Proof.
  intros Hp E. pose proof (page_header_ok _ _ Hp) as Hh. destruct (lower_slots _ Hh) as [_ Hn].
  destruct (gather_live_eq p 0 (n_slots h)) as (l' & E' & Hnd & Hl); [lia|done| |].
  { intros. eapply slot_fits_below; [done|lia]. }
  unfold slots_below in E. rewrite E in E'. simplify_eq.
  pose proof (merge_sort_Permutation off_ge l') as Hperm.
  assert (Hin : forall li, li ∈ merge_sort off_ge l' <-> li ∈ l') by (intros; by rewrite Hperm).
  assert (Hall : forall i, 0 <= i < n_slots h -> live p i -> i ∈ map li_slot (merge_sort off_ge l')).
  { intros i Hi Hli. apply list_elem_of_fmap. exists (mk_live_item i (start p i) (extent p i)).
    split; [done|]. rewrite Hin, Hl. cbn. split; [lia|done]. }
  constructor; try done; try apply Hp.
  - intros li Hli. apply Hin, Hl in Hli as (Hr & Hlv & Eli). rewrite Eli. cbn [li_slot li_off li_len].
    pose proof (po_live _ _ Hp (li_slot li) ltac:(lia) Hlv). repeat split; try lia; done.
  - intros i Hi Hl' Hn'. by destruct Hn'; apply Hall.
  - intros i j Hi Hj _ Hli _ Hn' _. by destruct Hn'; apply Hall.
  - apply StronglySorted_merge_sort; apply _.
  - by rewrite Hperm.
  - pose proof (ho_special _ Hh). lia.
  - rewrite (sum_len_perm _ _ Hperm). lia.
Qed.

Lemma live_bytes_map p l k :
  (forall i, i ∈ l -> live p i -> start p i + extent p i <= zlen p) ->
  gather_live p l = Some k -> live_bytes (map (view p) l) = sum_len k.
Proof.
  revert k. induction l as [|i l IH]; intros k Hb; cbn [gather_live map live_bytes foldr].
  { by intros [= <-]. }
  destruct (read_item_id p i) as [id|] eqn:E; [|done]. cbn [mbind option_bind].
  destruct (gather_live p l) as [k'|] eqn:Ek; [|done]. cbn [mbind option_bind]. intros [= <-].
  assert (id = item p i) as ->.
  { unfold read_item_id in E. unfold item_id_offset, try_item_id_offset in E.
    destruct (_ <? _) in E; [done|]. cbn in E. by simplify_eq. }
  fold (live_bytes (map (view p) l)). rewrite (IH k') by (done || (intros; apply Hb; [by right|done])).
  unfold view, view_item, ItemId_is_normal, slot_bytes.
  destruct (ItemId_flags (item p i)) eqn:Ef;
    try (rewrite bool_decide_false by done; apply Z.add_0_l). rewrite bool_decide_true by done.
  pose proof (Hb i ltac:(by left) Ef) as Hi. unfold start, extent in Hi.
  pose proof (ItemId_offset_bound (item p i)). pose proof (ItemId_length_bound (item p i)).
  rewrite zlen_slice by lia. unfold sum_len. cbn [foldr li_len]. lia.
Qed.

(** The page after the moves and after the dead slots were cleared. *)
Section cleared.
Context (p : Page) (h : PageHeader) (all : list live_item) (q : Page) (w : Z) (q' : Page).
Hypotheses (Hp : page_ok p h) (Hc : compacting p h all q w []).
Hypothesis (Hdead : forall j, 0 <= j < 0 + n_slots h -> ItemId_flags (item q j) = Dead -> ItemId_flags (item q' j) = Unused).
Hypothesis (Hkeep : forall j, 0 <= j -> ~ (0 <= j < 0 + n_slots h /\ ItemId_flags (item q j) = Dead) -> item q' j = item q j).
Hypothesis (Hsl : forall a b, 0 <= a -> b <= PAGE_HEADER_SIZE \/ PAGE_HEADER_SIZE + (0 + n_slots h) * ITEMID_SIZE <= a ->
  zslice a b q' = zslice a b q).
Hypotheses (Hlq : zlen q' = PAGE_SIZE) (Hbq : Forall is_byte q').

Abbreviation h' := (with_bounds h (hd_lower h) w).
Abbreviation r := (PageHeader_encode h' q').

Lemma cleared_live i : 0 <= i < n_slots h -> live p i ->
  item r i = item q i /\ w <= start q i /\ start q i + extent q i <= hd_special h /\ view q i = view p i.
Proof using Hc Hkeep Hlq.
  intros Hi Hli. destruct (c_done _ _ _ _ _ _ Hc i Hi Hli) as (Hl & H1 & H2 & H3); [by intros ?%elem_of_nil|].
  rewrite encode_item by (done || lia). rewrite Hkeep; [done|lia|]. intros [_ Hd]. unfold live in Hl. congruence.
Qed.

Lemma cleared_not_live i : 0 <= i < n_slots h -> live r i -> live p i.
Proof using Hc Hdead Hkeep Hlq.
  intros Hi Hlv. unfold live in Hlv. rewrite encode_item in Hlv by (done || lia).
  destruct (decide (ItemId_flags (item p i) = Normal)) as [|Hn]; [done|]. exfalso.
  pose proof (c_other _ _ _ _ _ _ Hc i Hi Hn) as Eo.
  destruct (decide (ItemId_flags (item q i) = Dead)) as [Hd|Hd].
  - by rewrite (Hdead i ltac:(lia) Hd) in Hlv.
  - rewrite Hkeep in Hlv by (lia || naive_solver). by rewrite Eo in Hlv.
Qed.

Lemma cleared_view i : 0 <= i < n_slots h -> view r i = bury (view p i).
Proof using Hp Hc Hdead Hkeep Hsl Hlq.
  intros Hi. pose proof (page_header_ok _ _ Hp) as Hh. destruct (lower_slots _ Hh) as [Hlo Hn].
  pose proof (ho_upper _ Hh). pose proof (c_top _ _ _ _ _ _ Hc).
  destruct (decide (ItemId_flags (item p i) = Normal)) as [Hl|Hnl].
  - destruct (cleared_live i Hi Hl) as (E & Hw & _ & Hv). destruct (view p i) eqn:Ev;
      try (unfold view, view_item in Ev; unfold live in Hl; by rewrite Hl in Ev).
    cbn [bury]. rewrite <- Hv. apply view_ext; [done|]. intros _.
    rewrite encode_slice by (done || (unfold PAGE_HEADER_SIZE, ITEMID_SIZE in *; lia)).
    apply Hsl; unfold PAGE_HEADER_SIZE, ITEMID_SIZE in *; lia.
  - pose proof (c_other _ _ _ _ _ _ Hc i Hi Hnl) as Eo. unfold live in Hnl.
    unfold view, view_item. rewrite encode_item by (done || lia).
    destruct (ItemId_flags (item p i)) eqn:Ef; [|done| |].
    + rewrite Hkeep, Eo, Ef by (lia || naive_solver congruence). done.
    + rewrite Hkeep, Eo, Ef by (lia || naive_solver congruence). done.
    + rewrite Hdead by (lia || congruence). done.
Qed.

Lemma cleared_ok : header_ok h' /\ page_ok r h' /\ page_slots r h' = map bury (page_slots p h).
Proof using Hp Hc Hdead Hkeep Hsl Hlq Hbq.
  pose proof (page_header_ok _ _ Hp) as Hh. pose proof (ho_upper _ Hh). pose proof (c_top _ _ _ _ _ _ Hc).
  assert (Hh' : header_ok h').
  { replace (hd_lower h) with (hd_lower h + 0 * ITEMID_SIZE) by lia. apply header_ok_with_bounds; [done|lia|lia|lia]. }
  split; [done|]. split.
  - constructor; [by apply encode_len|by apply header_put_bytes|by apply header_decode_encode| |];
      change (n_slots h') with (n_slots h); cbn [hd_upper hd_special with_bounds].
    + intros i Hi Hli%cleared_not_live; [|done]. destruct (cleared_live i Hi Hli) as (E & ? & ? & _).
      unfold start, extent in *. by rewrite E.
    + intros i j Hi Hj Hij Hli%cleared_not_live Hlj%cleared_not_live; [|done|done].
      destruct (cleared_live i Hi Hli) as (Ei & _). destruct (cleared_live j Hj Hlj) as (Ej & _).
      unfold start, extent. rewrite Ei, Ej. apply (c_disjoint _ _ _ _ _ _ Hc i j); try done; by intros ?%elem_of_nil.
  - unfold page_slots. change (n_slots h') with (n_slots h). rewrite map_map. apply map_ext_in.
    intros i Hi%list_elem_of_In%elem_of_seqZ. apply cleared_view. lia.
Qed.
End cleared.

Lemma compact_spec p h :
  page_ok p h ->
  exists p' h', compact p = Some (Ok tt, p') /\ page_ok p' h' /\ hd_kind h' = hd_kind h /\
    hd_special h' = hd_special h /\ hd_lower h' = hd_lower h /\ hd_lsn h' = hd_lsn h /\
    page_slots p' h' = map bury (page_slots p h) /\
    hd_upper h' = hd_special h - live_bytes (page_slots p h).
Proof.
  intros Hp. pose proof (page_header_ok _ _ Hp) as Hh. destruct (lower_slots _ Hh) as [Hlo Hn].
  assert (Hfits : forall j, 0 <= j < 0 + n_slots h -> slot_fits j) by (intros; eapply slot_fits_below; [done|lia]).
  destruct (gather_live_eq p 0 (n_slots h)) as (l & E & Hnd & Hl); [lia|done|done|].
  pose proof (start_compacting p h l Hp E) as Hc.
  destruct (move_all_eq p h l Hp _ _ _ Hc) as (q & Em & Hc').
  rewrite (sum_len_perm _ _ (merge_sort_Permutation off_ge l)) in Em, Hc'.
  assert (Hsum : live_bytes (page_slots p h) = sum_len l).
  { unfold page_slots. eapply live_bytes_map; [|exact E]. intros i Hi Hli. apply elem_of_seqZ in Hi.
    pose proof (po_live _ _ Hp i ltac:(lia) Hli). rewrite (po_len _ _ Hp). pose proof (ho_page _ Hh). lia. }
  rewrite <- Hsum in Em, Hc'. set (w := hd_special h - live_bytes (page_slots p h)) in *.
  destruct (clear_dead_eq q 0 (n_slots h)) as (q' & Ec & Hlq & Hbq & Hdead & Hkeep & Hsl);
    [apply Hc'|apply Hc'|lia|done|done|].
  destruct (cleared_ok p h l q w q' Hp Hc' Hdead Hkeep Hsl Hlq Hbq) as (_ & Hok & Hslots).
  do 2 eexists. split; [|split; [exact Hok|]; repeat split; done].
  unfold compact. rewrite (page_header_eq _ _ Hp). cbn [mbind option_bind]. rewrite (slot_count_eq _ Hh).
  cbn [mbind option_bind]. unfold slots_below. rewrite E. cbn [mbind option_bind]. rewrite Em.
  cbn [mbind option_bind]. rewrite Ec. cbn [mbind option_bind]. unfold page_u16_from_usize.
  pose proof (c_top _ _ _ _ _ _ Hc'). pose proof (ho_page _ Hh).
  by rewrite (proj2 (Z.ltb_lt _ _)) by (unfold U16, PAGE_SIZE in *; lia).
Qed.

(** ** The other operations *)

Lemma read_tuple_spec p h slot :
  page_ok p h -> 0 <= slot ->
  read_tuple p slot = Some
    match page_slots p h !! Z.to_nat slot with
    | None => Err (InvalidSlot slot (n_slots h))
    | Some (SLive t) => Ok t
    | Some _ => Err (DeadSlot slot)
    end.
Proof.
  intros Hp H0. pose proof (page_header_ok _ _ Hp) as Hh. destruct (lower_slots _ Hh) as [_ Hn].
  unfold read_tuple. rewrite (page_header_eq _ _ Hp). cbn [mbind option_bind]. rewrite (slot_count_eq _ Hh).
  cbn [mbind option_bind]. rewrite page_slots_lookup by done. rewrite Z2Nat.id by done.
  destruct (Z.leb_spec (n_slots h) slot); [by rewrite decide_False by lia|]. rewrite decide_True by lia.
  rewrite read_item_id_eq by (eapply slot_fits_below; [done|lia]). cbn [mbind option_bind].
  unfold ItemId_is_normal, view, view_item. destruct (ItemId_flags (item p slot)) eqn:Ef;
    try (rewrite bool_decide_false by done; done). rewrite bool_decide_true by done. cbn [negb].
  destruct (po_live _ _ Hp slot ltac:(lia) Ef) as [Hu Hs]. unfold start, extent in *.
  unfold item_range. rewrite !(proj2 (Z.ltb_ge _ _)) by lia. done.
Qed.

(** Replacing an identifier by one that is not live. *)
Lemma put_not_live_ok p h slot id :
  page_ok p h -> 0 <= slot < n_slots h -> in_width U32 id -> ItemId_flags id <> Normal ->
  page_ok (put_item p slot id) h /\
  page_slots (put_item p slot id) h = <[Z.to_nat slot := view_item p id]> (page_slots p h).
Proof.
  intros Hp Hs Hid Hf. pose proof (page_header_ok _ _ Hp) as Hh. destruct (lower_slots _ Hh) as [Hlo Hn].
  assert (Hfit : slot_fits slot) by by eapply slot_fits_below. pose proof (po_len _ _ Hp) as Hl.
  assert (Hsame : item (put_item p slot id) slot = id) by by apply put_item_same.
  assert (Hoth : forall i, 0 <= i -> i <> slot -> item (put_item p slot id) i = item p i)
    by (intros; by apply put_item_other).
  assert (Hlive : forall i, 0 <= i -> live (put_item p slot id) i ->
    live p i /\ item (put_item p slot id) i = item p i).
  { intros i Hi Hli. destruct (decide (i = slot)) as [->|Hne].
    - unfold live in Hli. by rewrite Hsame in Hli.
    - unfold live in *. by rewrite Hoth in * by done. }
  split.
  - constructor.
    + by apply put_item_len.
    + apply put_item_bytes, Hp.
    + rewrite <- (po_header _ _ Hp). apply decode_slice. apply put_item_slice; [done|done|lia|].
      left. unfold PAGE_HEADER_SIZE, ITEMID_SIZE. lia.
    + intros i Hi [Hli E]%Hlive; [|lia]. unfold start, extent. rewrite E. by apply (po_live _ _ Hp).
    + intros i j Hi Hj Hij [Hli Ei]%Hlive [Hlj Ej]%Hlive; [|lia|lia]. unfold start, extent. rewrite Ei, Ej.
      by apply (po_disjoint _ _ Hp).
  - apply list_eq. intros i. rewrite page_slots_lookup by done. destruct (decide (i = Z.to_nat slot)) as [->|Hne].
    + rewrite list_lookup_insert_eq by (rewrite length_page_slots; lia). rewrite decide_True, Z2Nat.id by lia.
      unfold view. rewrite Hsame. unfold view_item. by destruct (ItemId_flags id).
    + rewrite list_lookup_insert_ne by done. rewrite page_slots_lookup by done. case_decide; [|done]. f_equal.
      apply view_ext; [apply Hoth; lia|]. intros Hli. pose proof (po_live _ _ Hp (Z.of_nat i) ltac:(lia) Hli) as [Hu _].
      pose proof (ho_upper _ Hh). apply put_item_slice; [done|done| |];
        unfold PAGE_HEADER_SIZE, ITEMID_SIZE in *; lia.
Qed.

Lemma delete_tuple_spec p h slot :
  page_ok p h -> 0 <= slot ->
  match page_slots p h !! Z.to_nat slot with
  | None => delete_tuple p slot = Some (Err (InvalidSlot slot (n_slots h)), p)
  | Some (SLive t) => exists p', delete_tuple p slot = Some (Ok tt, p') /\ page_ok p' h /\
      page_slots p' h = <[Z.to_nat slot := SDead]> (page_slots p h)
  | Some _ => delete_tuple p slot = Some (Err (DeadSlot slot), p)
  end.
Proof.
  intros Hp H0. pose proof (page_header_ok _ _ Hp) as Hh. destruct (lower_slots _ Hh) as [_ Hn].
  unfold delete_tuple. rewrite (page_header_eq _ _ Hp). cbn [mbind option_bind]. rewrite (slot_count_eq _ Hh).
  cbn [mbind option_bind]. rewrite page_slots_lookup by done. rewrite Z2Nat.id by done.
  destruct (Z.leb_spec (n_slots h) slot); [by rewrite decide_False by lia|]. rewrite decide_True by lia.
  assert (Hfit : slot_fits slot) by (eapply slot_fits_below; [done|lia]).
  rewrite read_item_id_eq by done. cbn [mbind option_bind].
  unfold ItemId_is_normal, view, view_item. destruct (ItemId_flags (item p slot)) eqn:Ef;
    try (rewrite bool_decide_false by done; done). rewrite bool_decide_true by done. cbn [negb].
  rewrite write_item_id_eq by done. cbn [mbind option_bind].
  set (id := ItemId_new _ _ Dead).
  assert (Hfi : fits_item (ItemId_offset (item p slot)) (ItemId_length (item p slot)))
    by (split; [apply ItemId_offset_bound|apply ItemId_length_bound]).
  destruct (ItemId_new_fields _ _ Dead Hfi) as (Hfl & _). fold id in Hfl.
  destruct (put_not_live_ok p h slot id Hp ltac:(lia)) as [Hok Hsl]; [by apply ItemId_new_bound|by rewrite Hfl|].
  eexists. split; [done|]. split; [done|]. rewrite Hsl. unfold view_item. by rewrite Hfl.
Qed.

Lemma set_lsn_spec p h lsn :
  page_ok p h -> in_width U64 lsn ->
  exists p', set_lsn p lsn = Some p' /\ page_ok p' (with_lsn h lsn) /\
    page_slots p' (with_lsn h lsn) = page_slots p h.
Proof.
  intros Hp Hlsn. pose proof (page_header_ok _ _ Hp) as Hh. pose proof (po_len _ _ Hp) as Hl.
  destruct (lower_slots _ Hh) as [Hlo Hn]. pose proof (ho_upper _ Hh).
  unfold set_lsn. rewrite (page_header_eq _ _ Hp). cbn [mbind option_bind]. eexists. split; [done|].
  assert (Hi : forall i, 0 <= i -> item (PageHeader_encode (with_lsn h lsn) p) i = item p i)
    by (intros; by apply encode_item).
  split.
  - constructor; [by apply encode_len|apply header_put_bytes, Hp| | |].
    + apply header_decode_encode; [done|]. by destruct Hh; constructor.
    + intros i Hi'. unfold live, start, extent. rewrite Hi by lia. by apply (po_live _ _ Hp).
    + intros i j Hi' Hj'. unfold live, start, extent. rewrite !Hi by lia. by apply (po_disjoint _ _ Hp).
  - unfold page_slots. change (n_slots (with_lsn h lsn)) with (n_slots h). apply map_ext_in.
    intros i [Hi0 Hi1]%list_elem_of_In%elem_of_seqZ. apply view_ext; [by apply Hi|]. intros Hli.
    destruct (po_live _ _ Hp i ltac:(lia) Hli). apply encode_slice; [done|].
    unfold PAGE_HEADER_SIZE, ITEMID_SIZE in *. lia.
Qed.

Lemma first_unused_eq p i m :
  0 <= i -> 0 <= m -> (forall j, i <= j < i + m -> slot_fits j) ->
  first_unused p (seqZ i m) =
    Some ((fun k => i + Z.of_nat k) <$> position (fun j => bool_decide (ItemId_flags (item p j) = Unused)) (seqZ i m)).
Proof.
  intros Hi Hm Hf. remember (Z.to_nat m) as n eqn:Hn. revert i m Hi Hm Hf Hn.
  induction n as [|n IH]; intros i m Hi Hm Hf Hn; [by replace m with 0 by lia|].
  rewrite seqZ_cons by lia. cbn [first_unused position]. rewrite read_item_id_eq by (apply Hf; lia).
  cbn [mbind option_bind]. case_bool_decide; [cbn; do 2 f_equal; lia|].
  rewrite IH by (lia || (intros; apply Hf; lia)). f_equal. destruct (position _ _); [|done]. cbn. f_equal. lia.
Qed.

Lemma validate_slots_eq p h i m :
  0 <= i -> 0 <= m -> (forall j, i <= j < i + m -> slot_fits j) ->
  exists r, validate_slots p h (seqZ i m) = Some r /\
    (r = Ok tt <-> forall j, i <= j < i + m -> live p j ->
       hd_upper h <= start p j /\ start p j + extent p j <= hd_special h) /\
    (forall e, r = Err e -> e = PageMalformed "tuple range out of bounds").
Proof.
  intros Hi Hm Hf. remember (Z.to_nat m) as n eqn:Hn. revert i m Hi Hm Hf Hn.
  induction n as [|n IH]; intros i m Hi Hm Hf Hn.
  { replace m with 0 by lia. exists (Ok tt). split; [done|]. split; [|done]. split; [intros _ j; lia|done]. }
  rewrite seqZ_cons by lia. cbn [validate_slots]. rewrite read_item_id_eq by (apply Hf; lia). cbn [mbind option_bind].
  destruct (IH (Z.succ i) (Z.pred m)) as (r & Er & Hr & He); [lia|lia|intros; apply Hf; lia|lia|].
  unfold ItemId_is_normal. destruct (bool_decide_reflect (ItemId_flags (item p i) = Normal)) as [Hl|Hl]; cbn [negb].
  - unfold item_range. fold (start p i) (extent p i).
    destruct ((start p i <? hd_upper h) || (hd_special h <? start p i + extent p i)) eqn:Eb.
    + eexists. split; [done|]. split; [|by intros e [= <-]]. split; [done|]. intros H.
      specialize (H i ltac:(lia) Hl). apply orb_true_iff in Eb. rewrite !Z.ltb_lt in Eb. lia.
    + exists r. split; [done|]. split; [|done]. rewrite Hr. apply orb_false_elim in Eb. rewrite !Z.ltb_ge in Eb.
      split; intros H j Hj Hlj; [|apply H; [lia|done]].
      destruct (decide (j = i)) as [->|]; [lia|apply H; [lia|done]].
  - exists r. split; [done|]. split; [|done]. rewrite Hr. split; intros H j Hj Hlj; [|apply H; [lia|done]].
    destruct (decide (j = i)) as [->|]; [done|apply H; [lia|done]].
Qed.

(** ** The abstract machine *)

Inductive page_op :=
| OpInsert (t : list Z)
| OpAppend (t : list Z)
| OpInsertAt (slot : Z) (t : list Z)
| OpRead (slot : Z)
| OpDelete (slot : Z)
| OpCompact
| OpSetLsn (lsn : Z).

Inductive page_out :=
| OutSlot (r : result Z PageError)
| OutUnit (r : result unit PageError)
| OutTuple (r : result (list Z) PageError).

(** The slots, the free bytes and the size of the directory plus tuple area. *)
Record apage := mk_apage { a_slots : list slot_view; a_free : Z; a_room : Z }.

Definition abs_page (p : Page) (h : PageHeader) : apage :=
  mk_apage (page_slots p h) (hd_upper h - hd_lower h) (hd_special h - PAGE_HEADER_SIZE).

Definition a_len (a : apage) : Z := Z.of_nat (length (a_slots a)).

Definition a_place (a : apage) (slot new_slots : Z) (t : list Z) : result unit PageError * apage :=
  let needed := zlen t + new_slots * ITEMID_SIZE in
  if a_free a <? needed then (Err (NoSpace needed (a_free a)), a)
  else (Ok tt, mk_apage (put_slot (a_slots a) slot t) (a_free a - needed) (a_room a)).

Definition is_unused (s : slot_view) : bool := match s with SUnused => true | _ => false end.
Definition is_live (s : slot_view) : bool := match s with SLive _ => true | _ => false end.

Definition out_slot (slot : Z) (r : result unit PageError * apage) : page_out * apage :=
  (OutSlot (match r.1 with Ok _ => Ok slot | Err e => Err e end), r.2).

Definition a_step (op : page_op) (a : apage) : page_out * apage :=
  match op with
  | OpInsert t =>
      match check_tuple_len t with
      | Err e => (OutSlot (Err e), a)
      | Ok _ =>
          match position is_unused (a_slots a) with
          | Some i => out_slot (Z.of_nat i) (a_place a (Z.of_nat i) 0 t)
          | None => out_slot (a_len a) (a_place a (a_len a) 1 t)
          end
      end
  | OpAppend t =>
      match check_tuple_len t with
      | Err e => (OutSlot (Err e), a)
      | Ok _ => out_slot (a_len a) (a_place a (a_len a) 1 t)
      end
  | OpInsertAt slot t =>
      match check_tuple_len t with
      | Err e => (OutUnit (Err e), a)
      | Ok _ =>
          match a_slots a !! Z.to_nat slot with
          | None => let '(r, a') := a_place a slot (slot + 1 - a_len a) t in (OutUnit r, a')
          | Some s => if is_live s then (OutUnit (Err (SlotOccupied slot)), a)
                      else let '(r, a') := a_place a slot 0 t in (OutUnit r, a')
          end
      end
  | OpRead slot =>
      (OutTuple match a_slots a !! Z.to_nat slot with
                | None => Err (InvalidSlot slot (a_len a))
                | Some (SLive t) => Ok t
                | Some _ => Err (DeadSlot slot)
                end, a)
  | OpDelete slot =>
      match a_slots a !! Z.to_nat slot with
      | None => (OutUnit (Err (InvalidSlot slot (a_len a))), a)
      | Some (SLive t) => (OutUnit (Ok tt), mk_apage (<[Z.to_nat slot := SDead]> (a_slots a)) (a_free a) (a_room a))
      | Some _ => (OutUnit (Err (DeadSlot slot)), a)
      end
  | OpCompact =>
      (OutUnit (Ok tt),
       mk_apage (map bury (a_slots a)) (a_room a - a_len a * ITEMID_SIZE - live_bytes (a_slots a)) (a_room a))
  | OpSetLsn _ => (OutUnit (Ok tt), a)
  end.

Definition page_step (op : page_op) (p : Page) : option (page_out * Page) :=
  match op with
  | OpInsert t => '(r, q) ← insert_tuple p t; Some (OutSlot r, q)
  | OpAppend t => '(r, q) ← insert_tuple_appended p t; Some (OutSlot r, q)
  | OpInsertAt slot t => '(r, q) ← insert_tuple_at_slot p slot t; Some (OutUnit r, q)
  | OpRead slot => r ← read_tuple p slot; Some (OutTuple r, p)
  | OpDelete slot => '(r, q) ← delete_tuple p slot; Some (OutUnit r, q)
  | OpCompact => '(r, q) ← compact p; Some (OutUnit r, q)
  | OpSetLsn lsn => q ← set_lsn p lsn; Some (OutUnit (Ok tt), q)
  end.

(** The arguments the source's types admit. *)
Definition page_op_ok (op : page_op) : Prop :=
  match op with
  | OpInsert t | OpAppend t => Forall is_byte t
  | OpInsertAt slot t => in_width U16 slot /\ Forall is_byte t
  | OpRead slot | OpDelete slot => in_width U16 slot
  | OpCompact => True
  | OpSetLsn lsn => in_width U64 lsn
  end.

Fixpoint page_run (ops : list page_op) (p : Page) : option (list page_out * Page) :=
  match ops with
  | [] => Some ([], p)
  | op :: rest => '(o, q) ← page_step op p; '(os, q') ← page_run rest q; Some (o :: os, q')
  end.

Fixpoint a_run (ops : list page_op) (a : apage) : list page_out * apage :=
  match ops with
  | [] => ([], a)
  | op :: rest => let '(o, a1) := a_step op a in let '(os, a2) := a_run rest a1 in (o :: os, a2)
  end.

(** ** The simulation *)

Definition sim (p : Page) (a : apage) : Prop := exists h, page_ok p h /\ abs_page p h = a.

Lemma a_len_abs p h : page_ok p h -> a_len (abs_page p h) = n_slots h.
Proof.
  intros Hp. pose proof (page_header_ok _ _ Hp) as Hh. destruct (lower_slots _ Hh) as [_ Hn].
  unfold a_len. cbn. rewrite length_page_slots. lia.
Qed.

Lemma place_sim p h slot new_slots t :
  page_ok p h -> Forall is_byte t -> target p h slot new_slots ->
  exists p', place_tuple p h (n_slots h) slot new_slots t =
      Some ((a_place (abs_page p h) slot new_slots t).1, p') /\
    sim p' (a_place (abs_page p h) slot new_slots t).2.
Proof.
  intros Hp Ht Htg. pose proof (place_tuple_spec p h slot new_slots t Hp Ht Htg) as H. cbn zeta in H.
  unfold a_place. cbn [a_free a_slots a_room abs_page].
  destruct (hd_upper h - hd_lower h <? zlen t + new_slots * ITEMID_SIZE).
  - exists p. split; [done|]. by exists h.
  - destruct H as (p' & E & h' & Hok & _ & Hsp & _ & Hfr & Hsl). exists p'. split; [done|]. exists h'. split; [done|].
    unfold abs_page. by rewrite Hsl, Hsp, Hfr, Z.sub_add_distr.
Qed.

Lemma not_live_view p i : view p i <> SLive (zslice (start p i) (start p i + extent p i) p) -> ~ live p i.
Proof. unfold view, view_item, live, start, extent. intros H E. by rewrite E in H. Qed.

Lemma unused_view p l :
  position (fun j => bool_decide (ItemId_flags (item p j) = Unused)) l = position is_unused (map (view p) l).
Proof.
  induction l as [|i l IH]; [done|]. cbn [position map]. rewrite IH.
  unfold view at 2, view_item. by destruct (ItemId_flags (item p i)).
Qed.

Lemma unused_position p h :
  page_ok p h ->
  find_reusable_slot p (n_slots h) = Some (Z.of_nat <$> position is_unused (page_slots p h)).
Proof.
  intros Hp. pose proof (page_header_ok _ _ Hp) as Hh. destruct (lower_slots _ Hh) as [_ Hn].
  unfold find_reusable_slot, slots_below. rewrite first_unused_eq by (lia || (intros; eapply slot_fits_below; [done|lia])).
  f_equal. unfold page_slots. rewrite unused_view. by destruct (position _ _).
Qed.

(** A placement in the slot the abstract page chose. *)
Lemma append_target p h : page_ok p h -> target p h (n_slots h) 1.
Proof. intros _. right. lia. Qed.

Lemma fill_target p h i s :
  page_ok p h -> page_slots p h !! Z.to_nat i = Some s -> 0 <= i -> is_live s = false -> target p h i 0.
Proof.
  intros Hp Hi H0 Hs. pose proof (page_header_ok _ _ Hp) as Hh. destruct (lower_slots _ Hh) as [_ Hn].
  rewrite page_slots_lookup in Hi by done. case_decide; [|done]. rewrite Z2Nat.id in Hi by done. simplify_eq.
  left. split; [lia|]. split; [done|]. intros Hl. unfold view, view_item, live in *. by rewrite Hl in Hs.
Qed.

Lemma insert_sim p h t :
  page_ok p h -> Forall is_byte t ->
  exists p', page_step (OpInsert t) p = Some ((a_step (OpInsert t) (abs_page p h)).1, p') /\
    sim p' (a_step (OpInsert t) (abs_page p h)).2.
Proof.
  intros Hp Ht. pose proof (page_header_ok _ _ Hp) as Hh. cbn [page_step a_step]. unfold insert_tuple.
  destruct (check_tuple_len t); [|exists p; split; [done|by exists h]].
  rewrite (page_header_eq _ _ Hp). cbn [mbind option_bind]. rewrite (slot_count_eq _ Hh). cbn [mbind option_bind].
  rewrite (unused_position _ _ Hp). cbn [a_slots abs_page]. rewrite a_len_abs by done.
  destruct (position is_unused (page_slots p h)) as [i|] eqn:E; cbn [fmap option_fmap option_map mbind option_bind].
  - apply position_Some in E as [(s & Hs & Hu) _].
    destruct (place_sim p h (Z.of_nat i) 0 t Hp Ht) as (p' & E' & Hsim).
    { eapply fill_target; [done|by rewrite Nat2Z.id|lia|by destruct s]. }
    exists p'. rewrite E'. done.
  - destruct (place_sim p h (n_slots h) 1 t Hp Ht (append_target _ _ Hp)) as (p' & E' & Hsim).
    exists p'. rewrite E'. done.
Qed.

Lemma append_sim p h t :
  page_ok p h -> Forall is_byte t ->
  exists p', page_step (OpAppend t) p = Some ((a_step (OpAppend t) (abs_page p h)).1, p') /\
    sim p' (a_step (OpAppend t) (abs_page p h)).2.
Proof.
  intros Hp Ht. pose proof (page_header_ok _ _ Hp) as Hh. cbn [page_step a_step]. unfold insert_tuple_appended.
  destruct (check_tuple_len t); [|exists p; split; [done|by exists h]].
  rewrite (page_header_eq _ _ Hp). cbn [mbind option_bind]. rewrite (slot_count_eq _ Hh). cbn [mbind option_bind].
  rewrite a_len_abs by done. destruct (place_sim p h (n_slots h) 1 t Hp Ht (append_target _ _ Hp)) as (p' & E' & Hsim).
  exists p'. rewrite E'. done.
Qed.

Lemma insert_at_sim p h slot t :
  page_ok p h -> in_width U16 slot -> Forall is_byte t ->
  exists p', page_step (OpInsertAt slot t) p = Some ((a_step (OpInsertAt slot t) (abs_page p h)).1, p') /\
    sim p' (a_step (OpInsertAt slot t) (abs_page p h)).2.
Proof.
  intros Hp [H0 _] Ht. pose proof (page_header_ok _ _ Hp) as Hh. destruct (lower_slots _ Hh) as [_ Hn].
  cbn [page_step a_step]. unfold insert_tuple_at_slot.
  destruct (check_tuple_len t); [|exists p; split; [done|by exists h]].
  rewrite (page_header_eq _ _ Hp). cbn [mbind option_bind]. rewrite (slot_count_eq _ Hh). cbn [mbind option_bind].
  rewrite a_len_abs by done. cbn [a_slots abs_page]. rewrite page_slots_lookup, Z2Nat.id by done.
  destruct (Z.leb_spec (n_slots h) slot) as [Hge|Hlt].
  - rewrite decide_False by lia. destruct (place_sim p h slot (slot + 1 - n_slots h) t Hp Ht) as (p' & E & Hsim); [by right|].
    exists p'. rewrite E. by destruct (a_place _ _ _ _).
  - rewrite decide_True by lia. rewrite read_item_id_eq by (eapply slot_fits_below; [done|lia]).
    cbn [mbind option_bind]. unfold ItemId_is_normal, view, view_item.
    destruct (ItemId_flags (item p slot)) eqn:Ef;
      try (rewrite bool_decide_false by done; cbn [is_live];
           destruct (place_sim p h slot 0 t Hp Ht) as (p' & E & Hsim);
           [left; split; [lia|]; split; [done|]; unfold live; congruence
           |exists p'; rewrite E; by destruct (a_place _ _ _ _)]).
    rewrite bool_decide_true by done. cbn [is_live]. exists p. split; [done|]. by exists h.
Qed.

Lemma page_step_sim op p a :
  sim p a -> page_op_ok op ->
  exists p', page_step op p = Some ((a_step op a).1, p') /\ sim p' (a_step op a).2.
Proof.
  intros (h & Hp & <-). pose proof (page_header_ok _ _ Hp) as Hh. destruct (lower_slots _ Hh) as [Hlo Hn].
  destruct op as [t|t|slot t|slot|slot| |lsn]; cbn [page_op_ok].
  - intros Ht. by apply insert_sim.
  - intros Ht. by apply append_sim.
  - intros [Hs Ht]. by apply insert_at_sim.
  - intros [H0 _]. cbn [page_step a_step]. rewrite (read_tuple_spec _ _ _ Hp H0), a_len_abs by done.
    exists p. split; [done|]. by exists h.
  - intros [H0 _]. cbn [page_step a_step a_slots abs_page]. pose proof (delete_tuple_spec _ _ _ Hp H0) as H.
    rewrite a_len_abs by done. destruct (page_slots p h !! Z.to_nat slot) as [[]|].
    4: { destruct H as (p' & -> & Hok & Hsl). exists p'. split; [done|]. exists h. split; [done|].
         unfold abs_page. by rewrite Hsl. }
    all: rewrite H; exists p; split; [done|]; by exists h.
  - intros _. cbn [page_step a_step a_slots a_room abs_page]. rewrite a_len_abs by done.
    destruct (compact_spec _ _ Hp) as (p' & h' & -> & Hok & _ & Hsp & Hl & _ & Hsl & Hu).
    exists p'. split; [done|]. exists h'. split; [done|]. unfold abs_page. rewrite Hsl, Hsp, Hl, Hu, Hlo. cbn [snd]. f_equal. lia.
  - intros Hlsn. cbn [page_step a_step]. destruct (set_lsn_spec _ _ _ Hp Hlsn) as (p' & -> & Hok & Hsl).
    exists p'. split; [done|]. eexists. split; [done|]. unfold abs_page. by rewrite Hsl.
Qed.

Lemma page_run_sim ops p a :
  sim p a -> Forall page_op_ok ops ->
  exists p', page_run ops p = Some ((a_run ops a).1, p') /\ sim p' (a_run ops a).2.
Proof.
  revert p a. induction ops as [|op ops IH]; intros p a Hs Hok; [by exists p|].
  apply Forall_cons in Hok as [H1 H2]. destruct (page_step_sim op p a Hs H1) as (q & E & Hq).
  cbn [page_run a_run]. rewrite E. cbn [mbind option_bind]. destruct (a_step op a) as [o a1]. cbn [fst snd] in *.
  destruct (IH q a1 Hq H2) as (q' & E' & Hq'). rewrite E'. cbn [mbind option_bind].
  destruct (a_run ops a1) as [os a2]. by exists q'.
Qed.

Definition empty_page : apage := mk_apage [] 8168 8168.

Lemma new_heap_sim : sim new_heap empty_page.
Proof.
  assert (Hl : zlen (replicate (Z.to_nat PAGE_SIZE) 0) = PAGE_SIZE).
  { unfold zlen. rewrite length_replicate, Z2Nat.id; done. }
  assert (Hh : header_ok fresh_heap) by (constructor; done).
  exists fresh_heap. split; [|done]. constructor.
  - by apply encode_len.
  - apply header_put_bytes. apply Forall_replicate. done.
  - by apply header_decode_encode.
  - intros i Hi. change (n_slots fresh_heap) with 0 in Hi. lia.
  - intros i j Hi. change (n_slots fresh_heap) with 0 in Hi. lia.
Qed.

(** ** Validation *)

(** What [from_bytes] checks: the header, and the range of every live item. *)
Record validated (p : Page) (h : PageHeader) : Prop := {
  va_header : PageHeader_decode p = Ok h;
  va_live : forall i, 0 <= i < n_slots h -> live p i ->
    hd_upper h <= start p i /\ start p i + extent p i <= hd_special h;
}.

Lemma from_bytes_eq p :
  zlen p = PAGE_SIZE -> Forall is_byte p ->
  exists r, from_bytes p = Some r /\ (forall q, r = Ok q <-> q = p /\ exists h, validated p h).
Proof.
  intros Hl Hb. unfold from_bytes. destruct (PageHeader_decode p) as [h|e] eqn:Eh.
  2: { exists (Err e). split; [done|]. intros q. split; [done|]. intros (_ & h & [Hh _]). congruence. }
  pose proof (header_decode_ok _ _ Hl Hb Eh) as Hh. destruct (lower_slots _ Hh) as [_ Hn].
  rewrite try_slot_count_eq by done. unfold slots_below.
  destruct (validate_slots_eq p h 0 (n_slots h)) as (r & -> & Hr & _); [lia|done| |].
  { intros. eapply slot_fits_below; [done|lia]. }
  cbn [mbind option_bind]. eexists. split; [done|]. intros q. split.
  - destruct r as [[]|]; [|done]. intros <-%Ok_inj. split; [done|]. exists h. split; [done|]. by apply Hr.
  - intros (-> & h' & [Eh' Hv]). assert (h' = h) as -> by congruence.
    assert (r = Ok tt) as -> by by apply Hr. done.
Qed.

Lemma page_ok_validated p h : page_ok p h -> validated p h.
Proof. intros [Hl Hb Hh Hv Hd]. by split. Qed.

Lemma from_bytes_ok p h : page_ok p h -> from_bytes p = Some (Ok p).
Proof.
  intros Hp. destruct (from_bytes_eq p) as (r & -> & Hr); [apply Hp|apply Hp|]. f_equal. apply Hr.
  split; [done|]. exists h. by apply page_ok_validated.
Qed.

(** ** Order of placements *)

Lemma put_slot_lookup l slot t i :
  0 <= slot ->
  put_slot l slot t !! i =
    if decide (Z.of_nat i = slot) then Some (SLive t)
    else if decide (Z.of_nat i < slot) then Some (default SUnused (l !! i)) else l !! i.
Proof.
  intros H0. unfold put_slot. destruct (Z.ltb_spec slot (Z.of_nat (length l))) as [Hlt|Hge].
  - case_decide as E; [replace i with (Z.to_nat slot) by lia; apply list_lookup_insert_eq; lia|].
    rewrite list_lookup_insert_ne by lia. case_decide; [|done].
    destruct (lookup_lt_is_Some_2 l i) as [s Hs]; [lia|]. by rewrite Hs.
  - destruct (decide (i < length l)%nat) as [Hi|Hi].
    + rewrite lookup_app_l by done. rewrite decide_False, decide_True by lia.
      destruct (lookup_lt_is_Some_2 l i Hi) as [s Hs]. by rewrite Hs.
    + rewrite lookup_app_r by lia. rewrite (lookup_ge_None_2 l i) by lia. cbn [default].
      destruct (decide (Z.of_nat i < slot)).
      * rewrite decide_False by lia. rewrite lookup_app_l by (rewrite length_replicate; lia).
        apply lookup_replicate_2. lia.
      * rewrite lookup_app_r by (rewrite length_replicate; lia). rewrite length_replicate. case_decide.
        -- by replace (i - length l - (Z.to_nat slot - length l))%nat with 0%nat by lia.
        -- apply lookup_ge_None_2. cbn. lia.
Qed.

Lemma length_put_slot l slot t :
  0 <= slot -> Z.of_nat (length (put_slot l slot t)) = Z.max (Z.of_nat (length l)) (slot + 1).
Proof.
  intros H0. unfold put_slot. destruct (Z.ltb_spec slot (Z.of_nat (length l))).
  - rewrite length_insert. lia.
  - rewrite !length_app, length_replicate. cbn. lia.
Qed.

Lemma put_slot_comm l s1 t1 s2 t2 :
  0 <= s1 -> 0 <= s2 -> s1 <> s2 ->
  put_slot (put_slot l s1 t1) s2 t2 = put_slot (put_slot l s2 t2) s1 t1.
Proof.
  intros H1 H2 Hne. apply list_eq. intros i. rewrite !put_slot_lookup by done.
  repeat case_decide; try lia; done.
Qed.

(** The entries an insertion adds to the directory. *)
Definition growth (l : list slot_view) (slot : Z) : Z := Z.max 0 (slot + 1 - Z.of_nat (length l)).

Lemma a_insert_at_Ok a slot t a' :
  0 <= slot -> a_step (OpInsertAt slot t) a = (OutUnit (Ok tt), a') <->
  check_tuple_len t = Ok tt /\ (forall s, a_slots a !! Z.to_nat slot = Some s -> is_live s = false) /\
  zlen t + growth (a_slots a) slot * ITEMID_SIZE <= a_free a /\
  a' = mk_apage (put_slot (a_slots a) slot t) (a_free a - (zlen t + growth (a_slots a) slot * ITEMID_SIZE)) (a_room a).
Proof.
  intros H0. unfold a_step. destruct (check_tuple_len t) as [[]|]; [|by split; [|intros []]].
  assert (Hplace : forall n, n = growth (a_slots a) slot ->
    (let '(r, a2) := a_place a slot n t in (OutUnit r, a2)) = (OutUnit (Ok tt), a') <->
    zlen t + growth (a_slots a) slot * ITEMID_SIZE <= a_free a /\
    a' = mk_apage (put_slot (a_slots a) slot t) (a_free a - (zlen t + growth (a_slots a) slot * ITEMID_SIZE)) (a_room a)).
  { intros n ->. unfold a_place. destruct (Z.ltb_spec (a_free a) (zlen t + growth (a_slots a) slot * ITEMID_SIZE)).
    - split; [done|]. lia.
    - split; [intros [= <-]; done|]. by intros [_ ->]. }
  destruct (a_slots a !! Z.to_nat slot) as [s|] eqn:E.
  - pose proof (lookup_lt_Some _ _ _ E). destruct (is_live s) eqn:Es.
    { split; [done|]. intros (_ & L & _). specialize (L s eq_refl). congruence. }
    rewrite Hplace by (unfold growth; lia).
    split; [intros [? ?]; repeat split; try done; by intros ? [= <-]|tauto].
  - pose proof (lookup_ge_None_1 _ _ E). rewrite Hplace by (unfold growth, a_len; lia).
    split; [intros [? ?]; repeat split; done|tauto].
Qed.

Lemma a_insert_at_comm a s1 t1 s2 t2 a1 a2 :
  0 <= s1 -> 0 <= s2 -> s1 <> s2 ->
  a_step (OpInsertAt s1 t1) a = (OutUnit (Ok tt), a1) -> a_step (OpInsertAt s2 t2) a1 = (OutUnit (Ok tt), a2) ->
  exists b1, a_step (OpInsertAt s2 t2) a = (OutUnit (Ok tt), b1) /\
    a_step (OpInsertAt s1 t1) b1 = (OutUnit (Ok tt), a2).
Proof.
  intros H1 H2 Hne. rewrite !a_insert_at_Ok by done. intros (C1 & L1 & F1 & ->) (C2 & L2 & F2 & ->).
  cbn [a_slots a_free a_room] in *. setoid_rewrite a_insert_at_Ok; [|done|done].
  pose proof (zlen_nonneg t1). pose proof (zlen_nonneg t2).
  assert (Hg : growth (a_slots a) s1 + growth (put_slot (a_slots a) s1 t1) s2 =
               growth (a_slots a) s2 + growth (put_slot (a_slots a) s2 t2) s1)
    by (unfold growth; rewrite !length_put_slot by done; lia).
  assert (growth (put_slot (a_slots a) s2 t2) s1 >= 0 /\ growth (a_slots a) s1 >= 0) as [? ?] by (unfold growth; lia).
  eexists. split; [split; [done|]; split; [|split; [|reflexivity]]|].
  - intros s Hs. apply L2. rewrite put_slot_lookup by done. rewrite decide_False by lia.
    rewrite Hs. by case_decide.
  - unfold ITEMID_SIZE in *. lia.
  - cbn [a_slots a_free a_room]. split; [done|]. split; [|split; [unfold ITEMID_SIZE in *; lia|]].
    + intros s. rewrite put_slot_lookup by done. rewrite decide_False by lia. case_decide; [|apply L1].
      destruct (a_slots a !! Z.to_nat s1) as [s'|] eqn:E; intros [= <-]; [by apply L1|done].
    + rewrite (put_slot_comm _ s2) by done. f_equal. unfold ITEMID_SIZE in *. lia.
Qed.

(** ** Checksum *)

Lemma checksum_ignores_field xxh3_64 p v :
  zlen p = PAGE_SIZE ->
  compute_page_checksum xxh3_64 (zsplice CHECKSUM_OFFSET (le_encode 4 v) p) = compute_page_checksum xxh3_64 p.
Proof.
  intros Hl. unfold compute_page_checksum. replace (zsplice CHECKSUM_OFFSET [0; 0; 0; 0] (zsplice _ _ p))
    with (zsplice CHECKSUM_OFFSET [0; 0; 0; 0] p); [done|].
  unfold CHECKSUM_OFFSET, PAGE_SIZE in *. assert (Hz : zlen [0; 0; 0; 0] = 4) by done. pose proof (zlen_enc 4 v) as He.
  assert (Hs : zlen (zsplice 8 (le_encode 4 v) p) = 8192) by (rewrite zlen_splice; lia).
  apply list_eq. intros i. rewrite !zsplice_lookup by lia. rewrite Hz, He. change (Z.of_nat 4) with 4. by case_decide.
Qed.

Lemma checksum_bound xxh3_64 p : in_width U32 (compute_page_checksum xxh3_64 p).
Proof. unfold compute_page_checksum, wrap. by apply Z.mod_pos_bound. Qed.

Lemma refresh_verifies xxh3_64 p : zlen p = PAGE_SIZE -> verify_checksum xxh3_64 (refresh_checksum xxh3_64 p) = Ok tt.
Proof.
  intros Hl. unfold verify_checksum, refresh_checksum. rewrite checksum_ignores_field by done.
  unfold CHECKSUM_OFFSET, PAGE_SIZE in *.
  rewrite zread_splice_enc; [by rewrite Z.eqb_refl|lia|lia|apply checksum_bound].
Qed.

(** ** Properties *)

(** C9. The slotted page implements a list of slots. Run any sequence of the
    page operations on a fresh heap page: no operation panics, every result
    (the slot chosen, the tuple read, each error with its fields) is the one
    the abstract page gives, the final bytes represent the abstract page
    reached, and they pass the validation a page read from disk goes
    through. In the abstract page an insertion takes the first unused slot or
    a new one and fails exactly when the free bytes do not suffice, a deletion
    leaves a dead slot that keeps its bytes, and compaction turns dead slots
    into unused ones and frees exactly the bytes that hold no live tuple. *)
Theorem page_refines_slots ops :
  Forall page_op_ok ops ->
  exists p, page_run ops new_heap = Some ((a_run ops empty_page).1, p) /\
    sim p (a_run ops empty_page).2 /\ from_bytes p = Some (Ok p).
Proof.
  intros Hok. destruct (page_run_sim ops _ _ new_heap_sim Hok) as (p & E & Hs).
  exists p. split; [done|]. split; [done|]. destruct Hs as (h & Hp & _). by eapply from_bytes_ok.
Qed.

Definition small_ops : list page_op :=
  [OpInsert [1; 2; 3]; OpInsert [4]; OpDelete 0; OpInsert [9; 9]; OpCompact; OpInsert [7]; OpRead 0; OpRead 2;
   OpInsertAt 5 [8]; OpInsertAt 2 [8]; OpRead 4; OpRead 6].

Definition sample_ops : list page_op := small_ops ++ [OpInsert (replicate (Z.to_nat 9000) 0)].

Lemma page_refines_slots_witness :
  exists p, page_run sample_ops new_heap =
    Some ([OutSlot (Ok 0); OutSlot (Ok 1); OutUnit (Ok tt); OutSlot (Ok 2); OutUnit (Ok tt); OutSlot (Ok 0);
           OutTuple (Ok [7]); OutTuple (Ok [9; 9]); OutUnit (Ok tt); OutUnit (Err (SlotOccupied 2));
           OutTuple (Err (DeadSlot 4)); OutTuple (Err (InvalidSlot 6 6)); OutSlot (Err (NoSpace 9000 8139))], p) /\
    from_bytes p = Some (Ok p).
Proof.
  destruct (page_refines_slots sample_ops) as (p & E & _ & F).
  { apply Forall_app. split; [by repeat constructor|].
    apply Forall_singleton. by apply Forall_replicate. }
  exists p. split; [|exact F]. rewrite E. vm_compute. reflexivity.
Defined.

(** Redo of heap inserts does not depend on their order. When two tuples can
    be placed at two different slots one after the other, they can be placed in
    the other order too, and both pages have the same slots and the same free
    space: what recovery needs, since the log order of two inserts can differ
    from the order in which they took their slots. *)
Theorem redo_order_independent p h s1 t1 s2 t2 p1 p12 :
  page_ok p h -> in_width U16 s1 -> in_width U16 s2 -> s1 <> s2 -> Forall is_byte t1 -> Forall is_byte t2 ->
  insert_tuple_at_slot p s1 t1 = Some (Ok tt, p1) -> insert_tuple_at_slot p1 s2 t2 = Some (Ok tt, p12) ->
  exists q1 q12, insert_tuple_at_slot p s2 t2 = Some (Ok tt, q1) /\
    insert_tuple_at_slot q1 s1 t1 = Some (Ok tt, q12) /\
    exists a, sim p12 a /\ sim q12 a /\
      a_slots a = put_slot (put_slot (page_slots p h) s1 t1) s2 t2.
Proof.
  intros Hp H1 H2 Hne Ht1 Ht2 E1 E2.
  assert (Hstep : forall q a s t q', sim q a -> in_width U16 s -> Forall is_byte t ->
    insert_tuple_at_slot q s t = Some (Ok tt, q') ->
    exists a', a_step (OpInsertAt s t) a = (OutUnit (Ok tt), a') /\ sim q' a').
  { intros q a s t q' Hs Hw Ht E. destruct (page_step_sim (OpInsertAt s t) q a Hs) as (q2 & E' & Hq2); [by split|].
    cbn [page_step] in E'. rewrite E in E'. cbn [mbind option_bind] in E'.
    destruct (a_step _ _) as [o a'] eqn:Ea. simplify_eq/=. by exists a'. }
  assert (Hback : forall q a s t a', sim q a -> in_width U16 s -> Forall is_byte t ->
    a_step (OpInsertAt s t) a = (OutUnit (Ok tt), a') ->
    exists q', insert_tuple_at_slot q s t = Some (Ok tt, q') /\ sim q' a').
  { intros q a s t a' Hs Hw Ht Ea. destruct (page_step_sim (OpInsertAt s t) q a Hs) as (q2 & E' & Hq2); [by split|].
    rewrite Ea in *. cbn [page_step fst snd] in *. destruct (insert_tuple_at_slot q s t) as [[r q3]|]; [|done].
    cbn in E'. simplify_eq. by exists q2. }
  assert (Hs : sim p (abs_page p h)) by by exists h.
  destruct (Hstep _ _ _ _ _ Hs H1 Ht1 E1) as (a1 & A1 & S1). destruct (Hstep _ _ _ _ _ S1 H2 Ht2 E2) as (a2 & A2 & S2).
  destruct (a_insert_at_comm _ _ _ _ _ _ _ ltac:(apply H1) ltac:(apply H2) Hne A1 A2) as (b1 & B1 & B2).
  destruct (Hback _ _ _ _ _ Hs H2 Ht2 B1) as (q1 & F1 & T1). destruct (Hback _ _ _ _ _ T1 H1 Ht1 B2) as (q12 & F2 & T2).
  exists q1, q12. split; [done|]. split; [done|]. exists a2. split; [done|]. split; [done|].
  apply a_insert_at_Ok in A1 as (_ & _ & _ & ->); [|apply H1]. apply a_insert_at_Ok in A2 as (_ & _ & _ & ->); [|apply H2].
  done.
Qed.

(** The page an insertion leaves. *)
Definition after (r : option (result unit PageError * Page)) : Page :=
  match r with Some (_, p) => p | None => [] end.

Lemma redo_order_independent_witness :
  let p1 := after (insert_tuple_at_slot new_heap 3 [5; 6]) in
  let p12 := after (insert_tuple_at_slot p1 0 [7]) in
  exists q1 q12, insert_tuple_at_slot new_heap 0 [7] = Some (Ok tt, q1) /\
    insert_tuple_at_slot q1 3 [5; 6] = Some (Ok tt, q12) /\
    exists a, sim p12 a /\ sim q12 a /\ a_slots a = [SLive [7]; SUnused; SUnused; SLive [5; 6]].
Proof.
  intros p1 p12. destruct new_heap_sim as (h & Hp & Ha).
  assert (E : page_slots new_heap h = []) by by apply (f_equal a_slots) in Ha.
  destruct (redo_order_independent new_heap h 3 [5; 6] 0 [7] p1 p12) as (q1 & q12 & F1 & F2 & a & S1 & S2 & Hs);
    [done|done|done|done|by repeat constructor|by repeat constructor|vm_compute; reflexivity|vm_compute; reflexivity|].
  exists q1, q12. split; [done|]. split; [done|]. exists a. split; [done|]. split; [done|]. by rewrite Hs, E.
Defined.


