(* ===== verification/BtNode.v ===== *)
(** * B-tree nodes (ultrasql-storage, btree/mod.rs and btree/node.rs)

    The layout of a node on its page: the metadata in the special area, the
    packed entries after the page header, and the searches inside a node. A
    page is its bytes (Page.v); an operation that would panic returns [None]. *)

From S2P Require Import Prelude CoreIds WalRecord WalPayload Bytes Page PageSpec.

(** ** Binary search

    [slice::binary_search_by], the halving loop of the standard library, and
    [slice::partition_point], which is the same search. *)

Fixpoint search_loop {A} (f : A -> comparison) (fuel : nat) (l : list A) (base size : nat) : nat :=
  match fuel with
  | O => base
  | S fuel' =>
      if (size <=? 1)%nat then base
      else
        let half := (size / 2)%nat in
        let mid := (base + half)%nat in
        let base' :=
          match l !! mid with
          | Some y => match f y with Gt => base | _ => mid end
          | None => base
          end in
        search_loop f fuel' l base' (size - half)
  end.

Definition binary_search_by {A} (f : A -> comparison) (l : list A) : result nat nat :=
  match l with
  | [] => Err O
  | _ =>
      let base := search_loop f (length l) l 0 (length l) in
      match l !! base with
      | Some y => match f y with Eq => Ok base | Lt => Err (S base) | Gt => Err base end
      | None => Err base
      end
  end.

Definition partition_point {A} (pred : A -> bool) (l : list A) : nat :=
  match binary_search_by (fun x => if pred x then Lt else Gt) l with Ok i => i | Err i => i end.

(** [Vec::insert(pos, x)]. *)
Definition vec_insert {A} (pos : nat) (x : A) (l : list A) : list A := take pos l ++ x :: drop pos l.

(** ** Constants *)

Definition MAX_LEAF_ENTRIES : Z := 32.
Definition MAX_INTERNAL_ENTRIES : Z := 16.
Definition INTERNAL_ENTRY_SIZE : Z := 16.
Definition LEAF_ENTRY_SIZE : Z := 20.
Definition NODE_META_SIZE : Z := 24.
Definition NODE_SPECIAL_OFFSET : Z := PAGE_SIZE - NODE_META_SIZE.
Definition NO_SIBLING : Z := U32 - 1.
Definition FLAG_LEAF : Z := Z.shiftl 1 0.
Definition FLAG_HAS_HIGH_KEY : Z := Z.shiftl 1 1.
Definition I64_MIN : Z := - 2 ^ 63.

Inductive BTreeError :=
| BufferPool
| BPage (e : PageError)
| KeyTooLarge
| DuplicateKey
| MalformedNode (what : string)
| BWal
| BWalPayload (e : PayloadError)
| BWalRecord (e : WalRecordError).

(** ** Signed integers ([i64] fields) *)

Definition in_i64 (z : Z) : Prop := - 2 ^ 63 <= z < 2 ^ 63.
Definition i64_bytes (z : Z) : list Z := le_encode 8 (wrap U64 z).
Definition to_i64 (v : Z) : Z := if v <? 2 ^ 63 then v else v - 2 ^ 64.

(** ** Node metadata *)

Record NodeMeta := mk_NodeMeta { right_link : Z; high_key : Z; level : Z; n_keys : Z; nm_flags : Z }.

Definition KNOWN_FLAGS : Z := Z.lor FLAG_LEAF FLAG_HAS_HIGH_KEY.
Definition fresh_leaf : NodeMeta := mk_NodeMeta NO_SIBLING 0 0 0 FLAG_LEAF.
Definition fresh_internal (lvl : Z) : NodeMeta := mk_NodeMeta NO_SIBLING 0 lvl 0 0.
Definition is_leaf (m : NodeMeta) : bool := negb (Z.land (nm_flags m) FLAG_LEAF =? 0).
Definition has_high_key (m : NodeMeta) : bool := negb (Z.land (nm_flags m) FLAG_HAS_HIGH_KEY =? 0).

(** The record update [NodeMeta { n_keys, ..meta }]. *)
Definition with_n_keys (m : NodeMeta) (n : Z) : NodeMeta :=
  mk_NodeMeta (right_link m) (high_key m) (level m) n (nm_flags m).

(** [flags & !KNOWN_FLAGS] on [u16]. *)
Definition unknown_flags (flags : Z) : Z := Z.land flags (U16 - 1 - KNOWN_FLAGS).

Definition NodeMeta_read (page : Page) : result NodeMeta BTreeError :=
  let off := NODE_SPECIAL_OFFSET in
  let rl := zread 4 off page in
  let hk := to_i64 (zread 8 (off + 4) page) in
  let lv := zread 2 (off + 12) page in
  let n := zread 2 (off + 14) page in
  let flags := zread 2 (off + 16) page in
  if negb (unknown_flags flags =? 0) then Err (MalformedNode "node flags reserved bits") else
  if existsb (fun b => negb (b =? 0)) (zslice (off + 18) (off + 24) page) then Err (MalformedNode "node reserved bytes") else
  let max_keys := if negb (Z.land flags FLAG_LEAF =? 0) then MAX_LEAF_ENTRIES else MAX_INTERNAL_ENTRIES in
  if max_keys <? n then Err (MalformedNode "node key count") else
  Ok (mk_NodeMeta rl hk lv n flags).

Definition meta_bytes (m : NodeMeta) : list Z :=
  le_encode 4 (right_link m) ++ i64_bytes (high_key m) ++ le_encode 2 (level m) ++ le_encode 2 (n_keys m)
  ++ le_encode 2 (nm_flags m) ++ le_encode 6 0.

Definition NodeMeta_write (m : NodeMeta) (page : Page) : Page := zsplice NODE_SPECIAL_OFFSET (meta_bytes m) page.

(** ** Entries *)

Record LeafEntry := mk_LeafEntry { le_key : Z; le_value : TupleId }.
Record InternalEntry := mk_InternalEntry { ie_key : Z; ie_child : Z }.

#[global] Instance LeafEntry_eq_dec : EqDecision LeafEntry.
Proof. solve_decision. Defined.

Definition entry_start (index entry_size : Z) (label : string) : result Z BTreeError :=
  let start := PAGE_HEADER_SIZE + index * entry_size in
  if NODE_SPECIAL_OFFSET <? start + entry_size then Err (MalformedNode label) else Ok start.

Definition entry_start_or_panic (index entry_size : Z) (label : string) : option Z :=
  match entry_start index entry_size label with Ok start => Some start | Err _ => None end.

Definition leaf_entry_bytes (e : LeafEntry) : list Z :=
  i64_bytes (le_key e) ++ le_encode 4 (pg_relation (tid_page (le_value e)))
  ++ le_encode 4 (pg_block (tid_page (le_value e))) ++ le_encode 2 (tid_slot (le_value e)) ++ le_encode 2 0.

(** The body of the loop of [read_leaf_entries]; the field ranges of an entry
    that starts inside the body of the page are inside it too. *)
Definition read_leaf_entry (page : Page) (i : Z) : result LeafEntry BTreeError :=
  let? off := entry_start i LEAF_ENTRY_SIZE "leaf entry out of range" in
  let key := to_i64 (zread 8 off page) in
  let rel := zread 4 (off + 8) page in
  let block := zread 4 (off + 12) page in
  let slot := zread 2 (off + 16) page in
  if existsb (fun b => negb (b =? 0)) (zslice (off + 18) (off + LEAF_ENTRY_SIZE) page)
  then Err (MalformedNode "leaf entry reserved bytes") else
  Ok (mk_LeafEntry key (mk_TupleId (mk_PageId rel block) slot)).

Definition internal_entry_bytes (e : InternalEntry) : list Z :=
  i64_bytes (ie_key e) ++ le_encode 4 (ie_child e) ++ le_encode 4 0.

Definition read_internal_entry (page : Page) (i : Z) : result InternalEntry BTreeError :=
  let? off := entry_start i INTERNAL_ENTRY_SIZE "internal entry out of range" in
  let key := to_i64 (zread 8 off page) in
  let child := zread 4 (off + 8) page in
  if existsb (fun b => negb (b =? 0)) (zslice (off + 12) (off + INTERNAL_ENTRY_SIZE) page)
  then Err (MalformedNode "internal entry reserved bytes") else
  Ok (mk_InternalEntry key child).

(** The loops over the entry indices. *)
Fixpoint read_entries {E} (read : Z -> result E BTreeError) (indices : list Z) : result (list E) BTreeError :=
  match indices with
  | [] => Ok []
  | i :: rest => let? e := read i in let? es := read_entries read rest in Ok (e :: es)
  end.

Fixpoint write_entries {E} (size : Z) (enc : E -> list Z) (label : string) (page : Page) (i : Z) (es : list E)
  : option Page :=
  match es with
  | [] => Some page
  | e :: rest =>
      off ← entry_start_or_panic i size label;
      write_entries size enc label (zsplice off (enc e) page) (i + 1) rest
  end.

Definition read_leaf_entries (page : Page) (count : Z) : result (list LeafEntry) BTreeError :=
  read_entries (read_leaf_entry page) (seqZ 0 count).
Definition write_leaf_entries (page : Page) (es : list LeafEntry) : option Page :=
  write_entries LEAF_ENTRY_SIZE leaf_entry_bytes "leaf entry out of range" page 0 es.
Definition read_internal_entries (page : Page) (count : Z) : result (list InternalEntry) BTreeError :=
  read_entries (read_internal_entry page) (seqZ 0 count).
Definition write_internal_entries (page : Page) (es : list InternalEntry) : option Page :=
  write_entries INTERNAL_ENTRY_SIZE internal_entry_bytes "internal entry out of range" page 0 es.

(** ** Page initialisation *)

Definition init_btree_page (page : Page) (meta : NodeMeta) : option (result unit BTreeError * Page) :=
  h ← page_header page;
  let new_header := mk_PageHeader 0 0 0 KBTreeIndex PAGE_HEADER_SIZE NODE_SPECIAL_OFFSET NODE_SPECIAL_OFFSET
                      (hd_version h) in
  let '(r, page') := write_header page new_header in
  Some (match r with Err e => (Err (BPage e), page') | Ok _ => (Ok tt, NodeMeta_write meta page') end).

(** ** Searches inside a node *)

Definition should_chase_right (meta : NodeMeta) (key : Z) : option Z :=
  if negb (has_high_key meta) then None
  else if (high_key meta <=? key) && negb (right_link meta =? NO_SIBLING) then Some (right_link meta) else None.

(** The child of the last entry that satisfies [before], or of the first entry. *)
Definition child_at (page : Page) (meta : NodeMeta) (before : InternalEntry -> bool) : result Z BTreeError :=
  let? entries := read_internal_entries page (n_keys meta) in
  match entries with
  | [] => Err (MalformedNode "empty internal node")
  | _ =>
      match entries !! (partition_point before entries - 1)%nat with
      | Some e => Ok (ie_child e)
      | None => Err (MalformedNode "empty internal node")
      end
  end.

Definition find_child_internal (page : Page) (meta : NodeMeta) (key : Z) : result Z BTreeError :=
  child_at page meta (fun e => ie_key e <=? key).

Definition find_leftmost_child_internal (page : Page) (meta : NodeMeta) (key : Z) : result Z BTreeError :=
  child_at page meta (fun e => ie_key e <? key).

Inductive DescendStep := DChaseRight (next : Z) | ReachedLeaf | Descend (child : Z).

Definition step_descend (page : Page) (key : Z) : result DescendStep BTreeError :=
  let? meta := NodeMeta_read page in
  match should_chase_right meta key with
  | Some next => Ok (DChaseRight next)
  | None =>
      if is_leaf meta then Ok ReachedLeaf
      else let? child := find_child_internal page meta key in Ok (Descend child)
  end.

Inductive LeafProbe := PChaseRight (next : Z) | Found (value : TupleId) | Missing.

Definition probe_leaf (page : Page) (key : Z) : result LeafProbe BTreeError :=
  let? meta := NodeMeta_read page in
  match should_chase_right meta key with
  | Some next => Ok (PChaseRight next)
  | None =>
      let? entries := read_leaf_entries page (n_keys meta) in
      Ok (match binary_search_by (fun e => le_key e ?= key) entries with
          | Ok i => match entries !! i with Some e => Found (le_value e) | None => Missing end
          | Err _ => Missing
          end)
  end.

(** ** Laws of the searches *)

Definition cmp_le (a b : comparison) : Prop := match a, b with Gt, Lt | Gt, Eq | Eq, Lt => False | _, _ => True end.

Definition ordered {A} (f : A -> comparison) (l : list A) : Prop :=
  forall i j a b, (i <= j)%nat -> l !! i = Some a -> l !! j = Some b -> cmp_le (f a) (f b).

Lemma search_loop_spec {A} (f : A -> comparison) fuel l base size :
  ordered f l -> (size <= fuel)%nat -> (0 < size)%nat -> (base + size <= length l)%nat ->
  (base = O \/ exists y, l !! base = Some y /\ f y <> Gt) ->
  (forall i y, (base + size <= i)%nat -> l !! i = Some y -> f y = Gt) ->
  let b := search_loop f fuel l base size in
  (b < length l)%nat /\ (b = O \/ exists y, l !! b = Some y /\ f y <> Gt) /\
  (forall i y, (b < i)%nat -> l !! i = Some y -> f y = Gt).
Proof.
  intros Ho. revert base size. induction fuel as [|fuel IH]; intros base size Hf Hp Hl Hb Hg; [lia|].
  cbn [search_loop]. destruct (Nat.leb_spec size 1) as [H1|H1].
  { split; [lia|]. split; [done|]. intros i y Hi. apply Hg. lia. }
  assert (Hh : (0 < size / 2 /\ 2 * (size / 2) <= size)%nat).
  { pose proof (Nat.div_mod_eq size 2). pose proof (Nat.mod_upper_bound size 2 ltac:(lia)). lia. }
  set (half := (size / 2)%nat) in *.
  destruct (lookup_lt_is_Some_2 l (base + half)) as [y Hy]; [lia|]. rewrite Hy.
  destruct (f y) eqn:E.
  1, 2: apply IH; [lia|lia|lia|right; exists y; split; [done|by rewrite E]|intros i z Hi; apply Hg; lia].
  apply IH; [lia|lia|lia|done|]. intros i z Hi Hz. assert (cmp_le (f y) (f z)) as Hc by (eapply Ho; [|exact Hy|exact Hz]; lia).
  rewrite E in Hc. by destruct (f z).
Qed.

Lemma binary_search_by_spec {A} (f : A -> comparison) l :
  ordered f l ->
  match binary_search_by f l with
  | Ok i => exists y, l !! i = Some y /\ f y = Eq
  | Err i => (i <= length l)%nat /\ Forall (fun y => f y = Lt) (take i l) /\ Forall (fun y => f y = Gt) (drop i l)
  end.
Proof.
  intros Ho. destruct l as [|x l']; [done|]. unfold binary_search_by. set (l := x :: l') in *.
  destruct (search_loop_spec f (length l) l 0 (length l)) as (Hb & Hlow & Hhigh); [done|lia|cbn; lia|lia|by left| |].
  { intros i y Hi Hy. apply lookup_lt_Some in Hy. lia. }
  set (b := search_loop _ _ _ _ _) in *. destruct (lookup_lt_is_Some_2 l b Hb) as [y Hy]. rewrite Hy.
  assert (Hpre : forall k, (forall i z, (i < k)%nat -> l !! i = Some z -> f z = Lt) -> Forall (fun z => f z = Lt) (take k l)).
  { intros k H. apply Forall_lookup_2. intros i z Hz. apply lookup_take_Some in Hz as [Hz Hi]. by eapply H. }
  assert (Hpost : forall k, (forall i z, (k <= i)%nat -> l !! i = Some z -> f z = Gt) -> Forall (fun z => f z = Gt) (drop k l)).
  { intros k H. apply Forall_lookup_2. intros i z Hz. rewrite lookup_drop in Hz. eapply H, Hz. lia. }
  destruct (f y) eqn:E.
  - by exists y.
  - split; [lia|]. split; [apply Hpre|apply Hpost].
    + intros i z Hi Hz. assert (cmp_le (f z) (f y)) as Hc by (eapply Ho; [|exact Hz|exact Hy]; lia). rewrite E in Hc. by destruct (f z).
    + intros i z Hi. apply Hhigh. lia.
  - destruct Hlow as [->|(z & Hz & Hn)]; [|simplify_eq]. split; [lia|]. split; [by apply Hpre; intros; lia|apply Hpost].
    intros i z _ Hz. assert (cmp_le (f y) (f z)) as Hc by (eapply Ho; [|exact Hy|exact Hz]; lia). rewrite E in Hc. by destruct (f z).
Qed.

Lemma partition_point_spec {A} (pred : A -> bool) l :
  (forall i j a b, (i <= j)%nat -> l !! i = Some a -> l !! j = Some b -> pred b = true -> pred a = true) ->
  let n := partition_point pred l in
  (n <= length l)%nat /\ Forall (fun y => pred y = true) (take n l) /\ Forall (fun y => pred y = false) (drop n l).
Proof.
  intros Hm. unfold partition_point.
  pose proof (binary_search_by_spec (fun x => if pred x then Lt else Gt) l) as H.
  destruct (binary_search_by _ _) as [i|i].
  - destruct H as (y & _ & Hy); [|by destruct (pred y)].
    intros i' j a b Hij Ha Hb. specialize (Hm _ _ _ _ Hij Ha Hb). destruct (pred a), (pred b); try done. by specialize (Hm eq_refl).
  - destruct H as (Hi & Ht & Hd).
    { intros i' j a b Hij Ha Hb. specialize (Hm _ _ _ _ Hij Ha Hb). destruct (pred a), (pred b); try done. by specialize (Hm eq_refl). }
    split; [done|]. split; (eapply Forall_impl; [eassumption|]); intros z Hz; cbv beta in *; destruct (pred z); done.
Qed.
