(* ===== verification/BtNodeSpec.v ===== *)
(** * B-tree nodes: what a page holds

    [node_page p m b] says that the bytes of page [p] are the node with
    metadata [m] and entries [b]. The readers of BtNode.v return the node, and
    the writers establish it, whatever the page held before. *)

From S2P Require Import Prelude CoreIds Bytes Page PageSpec BtNode.

(** ** Signed integers *)

Lemma to_i64_wrap z : in_i64 z -> to_i64 (wrap U64 z) = z.
Proof.
  unfold in_i64, to_i64, wrap, U64. intros Hz. destruct (decide (0 <= z)).
  - rewrite Z.mod_small by lia. rewrite (proj2 (Z.ltb_lt _ _)) by lia. done.
  - replace (z mod 2 ^ 64) with (z + 2 ^ 64) by (apply (Z.mod_unique_pos _ _ (-1)); lia).
    rewrite (proj2 (Z.ltb_ge _ _)) by lia. lia.
Qed.

Lemma wrap_U64 z : 0 <= wrap U64 z < U64.
Proof. unfold wrap. apply Z.mod_pos_bound. done. Qed.

Lemma zlen_i64 z : zlen (i64_bytes z) = 8.
Proof. unfold i64_bytes. by rewrite zlen_enc. Qed.

(** A page whose header can be decoded; what the other bytes are does not matter. *)
Definition page_valid (p : Page) : Prop :=
  zlen p = PAGE_SIZE /\ Forall is_byte p /\ exists h, PageHeader_decode p = Ok h.

Lemma new_heap_valid : page_valid new_heap.
Proof.
  assert (zlen (replicate (Z.to_nat PAGE_SIZE) 0) = PAGE_SIZE) as Hl by (unfold zlen; rewrite length_replicate; done).
  split; [by apply encode_len|]. split.
  - apply header_put_bytes. by apply Forall_replicate.
  - exists fresh_heap. apply header_decode_encode; [done|]. constructor; done.
Qed.

(** Bytes written after the header keep the page valid. *)
Lemma splice_valid off new p :
  page_valid p -> PAGE_HEADER_SIZE <= off -> off + zlen new <= PAGE_SIZE -> Forall is_byte new ->
  page_valid (zsplice off new p).
Proof.
  intros (Hl & Hb & h & Hh) H0 Hn Hby. unfold PAGE_HEADER_SIZE in *. split; [rewrite zlen_splice; lia|].
  split; [by apply zsplice_bytes|]. exists h. rewrite <- Hh. apply decode_slice.
  apply zslice_splice_out; unfold PAGE_HEADER_SIZE; lia.
Qed.

(** Reads inside a written range. *)
Lemma zread_slice n a b off p q :
  zslice a b p = q -> a <= off -> 0 <= a -> off + Z.of_nat n <= b -> zread n off p = zread n (off - a) q.
Proof.
  intros <- Ha H0 Hb. unfold zread. f_equal. apply list_eq. intros i. rewrite !zslice_lookup.
  replace (off - a + Z.of_nat n - (off - a)) with (off + Z.of_nat n - off) by lia. case_decide; [|done].
  rewrite decide_True by lia. f_equal. lia.
Qed.

Lemma zslice_slice a b c d p q :
  zslice a b p = q -> a <= c -> 0 <= a -> d <= b -> zslice c d p = zslice (c - a) (d - a) q.
Proof.
  intros <- Ha H0 Hb. apply list_eq. intros i. rewrite !zslice_lookup.
  replace (d - a - (c - a)) with (d - c) by lia. case_decide; [|done].
  rewrite decide_True by lia. f_equal. lia.
Qed.

Lemma zsplice_zsplice off a b p :
  0 <= off -> off + zlen a + zlen b <= zlen p ->
  zsplice (off + zlen a) b (zsplice off a p) = zsplice off (a ++ b) p.
Proof.
  intros H0 Hf. pose proof (zlen_nonneg a). pose proof (zlen_nonneg b). apply list_eq. intros i.
  rewrite zsplice_lookup by (rewrite ?zlen_splice; lia). rewrite !zsplice_lookup by (rewrite ?zlen_app; lia).
  rewrite zlen_app. unfold zlen in *. repeat case_decide; try lia; try done.
  - rewrite lookup_app_r by lia. f_equal. lia.
  - by rewrite lookup_app_l by lia.
Qed.

Lemma zsplice_nil off p : zsplice off [] p = p.
Proof. unfold zsplice. cbn [length app]. rewrite Nat.add_0_r. apply take_drop. Qed.

Lemma zslice_whole a b l : a = 0 -> b = zlen l -> zslice a b l = l.
Proof. intros -> ->. by apply zslice_full. Qed.

(** Read the fields of a packed record, one after the other. *)
Ltac read_packed :=
  repeat first
    [ rewrite zread_enc_hit by (rewrite ?pow256_U16, ?pow256_U32, ?pow256_U64; first [done|lia])
    | rewrite zread_enc_skip by lia;
      cbn [Z.of_nat Pos.of_succ_nat Pos.succ Z.sub Z.add Z.opp Z.pos_sub Pos.pred_double Pos.add] ].

(** ** Entry codecs

    What a fixed-size entry promises to the loops over the body of a node. *)
Class EntryCodec (E : Type) := {
  ec_size : Z;
  ec_bytes : E -> list Z;
  ec_read : Page -> Z -> result E BTreeError;
  ec_label : string;
  ec_fits : E -> Prop;
  ec_size_pos : 0 < ec_size;
  ec_len : forall e, zlen (ec_bytes e) = ec_size;
  ec_is_bytes : forall e, Forall is_byte (ec_bytes e);
  ec_read_bytes : forall p i e,
    0 <= i -> PAGE_HEADER_SIZE + i * ec_size + ec_size <= NODE_SPECIAL_OFFSET -> ec_fits e ->
    zslice (PAGE_HEADER_SIZE + i * ec_size) (PAGE_HEADER_SIZE + i * ec_size + ec_size) p = ec_bytes e ->
    ec_read p i = Ok e;
}.

Definition tid_ok (t : TupleId) : Prop :=
  in_width U32 (pg_relation (tid_page t)) /\ in_width U32 (pg_block (tid_page t)) /\ in_width U16 (tid_slot t).

Definition leaf_fits (e : LeafEntry) : Prop := in_i64 (le_key e) /\ tid_ok (le_value e).
Definition inner_fits (e : InternalEntry) : Prop := in_i64 (ie_key e) /\ in_width U32 (ie_child e).

Lemma entry_start_eq i size label :
  PAGE_HEADER_SIZE + i * size + size <= NODE_SPECIAL_OFFSET ->
  entry_start i size label = Ok (PAGE_HEADER_SIZE + i * size).
Proof. intros H. unfold entry_start. by rewrite (proj2 (Z.ltb_ge _ _)). Qed.

Lemma no_reserved l : l = replicate (length l) 0 -> existsb (fun b => negb (b =? 0)) l = false.
Proof. intros ->. by induction (length l). Qed.

#[global, program] Instance LeafEntry_codec : EntryCodec LeafEntry := {|
  ec_size := LEAF_ENTRY_SIZE;
  ec_bytes := leaf_entry_bytes;
  ec_read := read_leaf_entry;
  ec_label := "leaf entry out of range";
  ec_fits := leaf_fits;
|}.
Next Obligation. done. Qed.
Next Obligation. intros e. unfold leaf_entry_bytes. by rewrite !zlen_app, !zlen_enc, zlen_i64. Qed.
Next Obligation. intros e. unfold leaf_entry_bytes, i64_bytes. rewrite !Forall_app. auto 20 with ultra. Qed.
Next Obligation.
  intros p i e Hi Hf (Hk & Hr & Hb & Hs) Hz. unfold read_leaf_entry. rewrite entry_start_eq by done.
  set (off := PAGE_HEADER_SIZE + i * LEAF_ENTRY_SIZE) in *.
  assert (0 <= off) by (unfold off, PAGE_HEADER_SIZE, LEAF_ENTRY_SIZE; lia).
  assert (forall n k, 0 <= k -> k + Z.of_nat n <= 20 -> zread n (off + k) p = zread n k (leaf_entry_bytes e)) as Hrd.
  { intros n k H0 Hn. rewrite (zread_slice n _ _ (off + k) p _ Hz) by (unfold LEAF_ENTRY_SIZE; lia). f_equal. lia. }
  replace (zread 8 off p) with (zread 8 (off + 0) p) by (f_equal; lia). rewrite !Hrd by lia.
  rewrite (zslice_slice _ _ (off + 18) (off + LEAF_ENTRY_SIZE) p _ Hz) by lia.
  unfold leaf_entry_bytes, i64_bytes. pose proof (wrap_U64 (le_key e)).
  read_packed.
  rewrite no_reserved; [|].
  { rewrite to_i64_wrap by done. by destruct e as [k [[r b] s]]. }
  replace (off + 18 - off) with 18 by lia. replace (off + LEAF_ENTRY_SIZE - off) with 20 by (unfold LEAF_ENTRY_SIZE; lia).
  rewrite !zslice_app_r by (rewrite ?zlen_enc; cbn; lia). rewrite !zlen_enc. reflexivity.
Qed.

#[global, program] Instance InternalEntry_codec : EntryCodec InternalEntry := {|
  ec_size := INTERNAL_ENTRY_SIZE;
  ec_bytes := internal_entry_bytes;
  ec_read := read_internal_entry;
  ec_label := "internal entry out of range";
  ec_fits := inner_fits;
|}.
Next Obligation. done. Qed.
Next Obligation. intros e. unfold internal_entry_bytes. by rewrite !zlen_app, !zlen_enc, zlen_i64. Qed.
Next Obligation. intros e. unfold internal_entry_bytes, i64_bytes. rewrite !Forall_app. auto 20 with ultra. Qed.
Next Obligation.
  intros p i e Hi Hf (Hk & Hc) Hz. unfold read_internal_entry. rewrite entry_start_eq by done.
  set (off := PAGE_HEADER_SIZE + i * INTERNAL_ENTRY_SIZE) in *.
  assert (0 <= off) by (unfold off, PAGE_HEADER_SIZE, INTERNAL_ENTRY_SIZE; lia).
  assert (forall n k, 0 <= k -> k + Z.of_nat n <= 16 -> zread n (off + k) p = zread n k (internal_entry_bytes e)) as Hrd.
  { intros n k H0 Hn. rewrite (zread_slice n _ _ (off + k) p _ Hz) by (unfold INTERNAL_ENTRY_SIZE; lia). f_equal. lia. }
  replace (zread 8 off p) with (zread 8 (off + 0) p) by (f_equal; lia). rewrite !Hrd by lia.
  rewrite (zslice_slice _ _ (off + 12) (off + INTERNAL_ENTRY_SIZE) p _ Hz) by lia.
  unfold internal_entry_bytes, i64_bytes. pose proof (wrap_U64 (ie_key e)).
  read_packed.
  rewrite no_reserved; [|].
  { rewrite to_i64_wrap by done. by destruct e. }
  replace (off + 12 - off) with 12 by lia. replace (off + INTERNAL_ENTRY_SIZE - off) with 16 by (unfold INTERNAL_ENTRY_SIZE; lia).
  rewrite !zslice_app_r by (rewrite ?zlen_enc; cbn; lia). rewrite !zlen_enc. reflexivity.
Qed.

(** ** The body of a node *)

Section body.
Context {E : Type} `{!EntryCodec E}.

Definition packed (es : list E) : list Z := concat (map ec_bytes es).

(** The entries fit before the metadata. *)
Definition body_room (n : Z) : Prop := PAGE_HEADER_SIZE + n * ec_size <= NODE_SPECIAL_OFFSET.

Lemma zlen_packed es : zlen (packed es) = Z.of_nat (length es) * ec_size.
Proof using.
  induction es as [|e es IH]; [done|]. unfold packed in *. cbn [map concat length].
  rewrite zlen_app, ec_len, IH. lia.
Qed.

Lemma packed_bytes es : Forall is_byte (packed es).
Proof using.
  induction es as [|e es IH]; [constructor|]. unfold packed in *. cbn [map concat]. apply Forall_app.
  split; [apply ec_is_bytes|done].
Qed.

Lemma read_entries_packed es : forall p i,
  0 <= i -> body_room (i + Z.of_nat (length es)) -> Forall ec_fits es ->
  zslice (PAGE_HEADER_SIZE + i * ec_size) (PAGE_HEADER_SIZE + i * ec_size + zlen (packed es)) p = packed es ->
  read_entries (ec_read p) (seqZ i (Z.of_nat (length es))) = Ok es.
Proof using.
  induction es as [|e es IH]; intros p i Hi Hr Hf Hz; [done|].
  apply Forall_cons in Hf as [He Hf]. cbn [length] in *. pose proof ec_size_pos. unfold body_room in *.
  pose proof (zlen_nonneg (packed es)) as Hn. pose proof (zlen_packed es) as Hpk.
  rewrite seqZ_cons by lia. cbn [read_entries].
  assert (Hall : zlen (packed (e :: es)) = ec_size + zlen (packed es)).
  { rewrite !zlen_packed. cbn [length]. lia. }
  assert (packed (e :: es) = ec_bytes e ++ packed es) as Hcons by done.
  pose proof (ec_len e) as Hl. unfold PAGE_HEADER_SIZE in *.
  rewrite (ec_read_bytes p i e); [|lia|unfold PAGE_HEADER_SIZE; lia|done|].
  2: { unfold PAGE_HEADER_SIZE. rewrite (zslice_slice _ _ _ _ p _ Hz) by lia. rewrite Hcons, zslice_app_l by lia. apply zslice_whole; lia. }
  replace (Z.pred (Z.of_nat (S (length es)))) with (Z.of_nat (length es)) by lia.
  rewrite (IH p (Z.succ i)); [done|lia|lia|done|].
  rewrite (zslice_slice _ _ _ _ p _ Hz) by lia. rewrite Hcons, zslice_app_r by lia. apply zslice_whole; lia.
Qed.

Lemma write_entries_packed es : forall p i,
  0 <= i -> zlen p = PAGE_SIZE -> body_room (i + Z.of_nat (length es)) ->
  write_entries ec_size ec_bytes ec_label p i es = Some (zsplice (PAGE_HEADER_SIZE + i * ec_size) (packed es) p).
Proof using.
  induction es as [|e es IH]; intros p i Hi Hl Hr; cbn [write_entries].
  { by rewrite zsplice_nil. }
  pose proof ec_size_pos. unfold body_room in *. cbn [length] in *.
  pose proof (ec_len e) as He. pose proof (zlen_packed es).
  unfold entry_start_or_panic. rewrite entry_start_eq by lia. cbn [mbind option_bind].
  unfold NODE_SPECIAL_OFFSET, PAGE_HEADER_SIZE, NODE_META_SIZE, PAGE_SIZE in *.
  rewrite IH; [|lia|rewrite zlen_splice; lia|lia]. f_equal.
  replace (24 + (i + 1) * ec_size) with (24 + i * ec_size + zlen (ec_bytes e)) by lia.
  rewrite zsplice_zsplice by lia. done.
Qed.
End body.

Inductive Body := LeafB (es : list LeafEntry) | InnerB (es : list InternalEntry).

Definition body_len (b : Body) : Z := match b with LeafB es => Z.of_nat (length es) | InnerB es => Z.of_nat (length es) end.
Definition body_packed (b : Body) : list Z := match b with LeafB es => packed es | InnerB es => packed es end.
Definition body_fits (b : Body) : Prop := match b with LeafB es => Forall leaf_fits es | InnerB es => Forall inner_fits es end.
Definition body_max (b : Body) : Z := match b with LeafB _ => MAX_LEAF_ENTRIES | InnerB _ => MAX_INTERNAL_ENTRIES end.
Definition body_leaf (b : Body) : bool := match b with LeafB _ => true | InnerB _ => false end.

(** ** Metadata *)

Definition meta_fits (m : NodeMeta) : Prop :=
  in_width U32 (right_link m) /\ in_i64 (high_key m) /\ in_width U16 (level m) /\ 0 <= nm_flags m < 4.

(** Metadata for a node with entries [b]. *)
Definition meta_for (m : NodeMeta) (b : Body) : Prop :=
  meta_fits m /\ n_keys m = body_len b /\ body_len b <= body_max b /\ is_leaf m = body_leaf b.

Definition holds_meta (p : Page) (m : NodeMeta) : Prop := zslice NODE_SPECIAL_OFFSET PAGE_SIZE p = meta_bytes m.

Lemma zlen_meta m : zlen (meta_bytes m) = NODE_META_SIZE.
Proof. unfold meta_bytes. by rewrite !zlen_app, !zlen_enc, zlen_i64. Qed.

Lemma meta_bytes_bytes m : Forall is_byte (meta_bytes m).
Proof. unfold meta_bytes, i64_bytes. rewrite !Forall_app. auto 20 with ultra. Qed.

Lemma flags_small f : 0 <= f < 4 -> unknown_flags f = 0.
Proof. intros Hf. assert (f = 0 \/ f = 1 \/ f = 2 \/ f = 3) as [-> | [-> | [-> | ->]]] by lia; done. Qed.

Lemma NodeMeta_read_holds p m b : holds_meta p m -> meta_for m b -> NodeMeta_read p = Ok m.
Proof.
  unfold holds_meta. intros Hz ((Hr & Hh & Hl & Hf) & Hn & Hmax & Hleaf). unfold NodeMeta_read.
  assert (forall n k, 0 <= k -> k + Z.of_nat n <= 24 -> zread n (NODE_SPECIAL_OFFSET + k) p = zread n k (meta_bytes m)) as Hrd.
  { intros n k H0 Hk. rewrite (zread_slice n _ _ (NODE_SPECIAL_OFFSET + k) p _ Hz)
      by (unfold NODE_SPECIAL_OFFSET, PAGE_SIZE, NODE_META_SIZE; lia). f_equal. lia. }
  replace (zread 4 NODE_SPECIAL_OFFSET p) with (zread 4 (NODE_SPECIAL_OFFSET + 0) p) by (f_equal; lia).
  rewrite !Hrd by lia.
  rewrite (zslice_slice _ _ (NODE_SPECIAL_OFFSET + 18) (NODE_SPECIAL_OFFSET + 24) p _ Hz)
    by (unfold NODE_SPECIAL_OFFSET, PAGE_SIZE, NODE_META_SIZE; lia).
  assert (0 <= n_keys m < U16) as Hnk.
  { rewrite Hn. destruct b; cbn [body_len body_max] in *; unfold MAX_LEAF_ENTRIES, MAX_INTERNAL_ENTRIES, U16 in *; lia. }
  assert (0 <= nm_flags m < U16) as Hfl by (unfold U16; lia).
  unfold meta_bytes, i64_bytes. pose proof (wrap_U64 (high_key m)). read_packed.
  rewrite flags_small by done. cbn [Z.eqb negb]. rewrite no_reserved.
  2: { rewrite !zslice_app_r by (rewrite ?zlen_enc; unfold NODE_SPECIAL_OFFSET, PAGE_SIZE, NODE_META_SIZE; cbn; lia).
       rewrite !zlen_enc. reflexivity. }
  change (negb (Z.land (nm_flags m) FLAG_LEAF =? 0)) with (is_leaf m). rewrite Hleaf, Hn.
  rewrite (proj2 (Z.ltb_ge _ _)) by (destruct b; cbn [body_leaf body_max] in *; done).
  rewrite to_i64_wrap by done. rewrite <- Hn. by destruct m.
Qed.

(** ** The node on a page *)

Record node_page (p : Page) (m : NodeMeta) (b : Body) : Prop := {
  np_valid : page_valid p;
  np_meta : holds_meta p m;
  np_body : zslice PAGE_HEADER_SIZE (PAGE_HEADER_SIZE + zlen (body_packed b)) p = body_packed b;
  np_for : meta_for m b;
  np_fits : body_fits b;
}.

Lemma body_packed_room b : body_len b <= body_max b -> PAGE_HEADER_SIZE + zlen (body_packed b) <= NODE_SPECIAL_OFFSET.
Proof.
  destruct b as [es|es]; cbn [body_len body_max body_packed]; rewrite zlen_packed; cbn [ec_size LeafEntry_codec InternalEntry_codec];
    unfold MAX_LEAF_ENTRIES, MAX_INTERNAL_ENTRIES, LEAF_ENTRY_SIZE, INTERNAL_ENTRY_SIZE, PAGE_HEADER_SIZE, NODE_SPECIAL_OFFSET,
      PAGE_SIZE, NODE_META_SIZE; lia.
Qed.

Lemma body_packed_bytes b : Forall is_byte (body_packed b).
Proof. destruct b; apply packed_bytes. Qed.

Lemma node_read_meta p m b : node_page p m b -> NodeMeta_read p = Ok m.
Proof. intros H. eapply NodeMeta_read_holds; apply H. Qed.

Lemma node_read_leaf p m es : node_page p m (LeafB es) -> read_leaf_entries p (n_keys m) = Ok es.
Proof.
  intros H. pose proof (np_for _ _ _ H) as (_ & Hn & Hm & _). unfold read_leaf_entries. rewrite Hn. cbn [body_len] in *.
  pose proof (body_packed_room (LeafB es) Hm) as Hroom. cbn [body_packed] in Hroom. rewrite zlen_packed in Hroom.
  pose proof (read_entries_packed (E := LeafEntry) es p 0) as Hw. rewrite Z.mul_0_l, Z.add_0_r in Hw.
  apply Hw; [done|unfold body_room; lia|apply H|apply H].
Qed.

Lemma node_read_inner p m es : node_page p m (InnerB es) -> read_internal_entries p (n_keys m) = Ok es.
Proof.
  intros H. pose proof (np_for _ _ _ H) as (_ & Hn & Hm & _). unfold read_internal_entries. rewrite Hn. cbn [body_len] in *.
  pose proof (body_packed_room (InnerB es) Hm) as Hroom. cbn [body_packed] in Hroom. rewrite zlen_packed in Hroom.
  pose proof (read_entries_packed (E := InternalEntry) es p 0) as Hw. rewrite Z.mul_0_l, Z.add_0_r in Hw.
  apply Hw; [done|unfold body_room; lia|apply H|apply H].
Qed.

(** Writing the entries, then the metadata, makes the page the node. *)
Lemma node_written p m b :
  page_valid p -> meta_for m b -> body_fits b ->
  node_page (NodeMeta_write m (zsplice PAGE_HEADER_SIZE (body_packed b) p)) m b.
Proof.
  intros Hv Hm Hf. pose proof (body_packed_room b ltac:(apply Hm)) as Hr. pose proof (body_packed_bytes b) as Hb.
  pose proof (zlen_nonneg (body_packed b)). pose proof (zlen_meta m).
  unfold PAGE_HEADER_SIZE, NODE_SPECIAL_OFFSET, NODE_META_SIZE, PAGE_SIZE in *.
  assert (page_valid (zsplice 24 (body_packed b) p)) as Hv1
    by (apply splice_valid; unfold PAGE_HEADER_SIZE, PAGE_SIZE; (done || lia)).
  pose proof (proj1 Hv) as Hl. pose proof (proj1 Hv1) as Hl1. unfold PAGE_SIZE in *.
  unfold NodeMeta_write, NODE_SPECIAL_OFFSET, NODE_META_SIZE. constructor; [| | |done|done].
  - apply splice_valid; unfold PAGE_HEADER_SIZE, PAGE_SIZE; [done|lia|lia|apply meta_bytes_bytes].
  - unfold holds_meta, NODE_SPECIAL_OFFSET, NODE_META_SIZE, PAGE_SIZE.
    pose proof (zslice_splice_in (8192 - 24) (meta_bytes m) (zsplice 24 (body_packed b) p)) as Hin.
    rewrite zlen_meta in Hin. apply Hin; unfold NODE_META_SIZE; lia.
  - unfold PAGE_HEADER_SIZE, PAGE_SIZE. rewrite zslice_splice_out by lia. apply zslice_splice_in; lia.
Qed.

Lemma write_leaf_node p m es :
  page_valid p -> meta_for m (LeafB es) -> Forall leaf_fits es ->
  exists p1, write_leaf_entries p es = Some p1 /\ page_valid p1 /\ node_page (NodeMeta_write m p1) m (LeafB es).
Proof.
  intros Hv Hm Hf. eexists. split; [|split; [|by apply node_written]].
  - pose proof (body_packed_room (LeafB es) ltac:(apply Hm)) as Hroom. cbn [body_packed] in Hroom. rewrite zlen_packed in Hroom.
    unfold write_leaf_entries. pose proof (write_entries_packed es p 0) as Hw. rewrite Z.mul_0_l, Z.add_0_r in Hw.
    apply Hw; [done|apply Hv|unfold body_room; lia].
  - pose proof (body_packed_room (LeafB es) ltac:(apply Hm)). apply splice_valid; [done|done| |apply body_packed_bytes].
    unfold NODE_SPECIAL_OFFSET, NODE_META_SIZE in *. lia.
Qed.

Lemma write_inner_node p m es :
  page_valid p -> meta_for m (InnerB es) -> Forall inner_fits es ->
  exists p1, write_internal_entries p es = Some p1 /\ page_valid p1 /\ node_page (NodeMeta_write m p1) m (InnerB es).
Proof.
  intros Hv Hm Hf. eexists. split; [|split; [|by apply node_written]].
  - pose proof (body_packed_room (InnerB es) ltac:(apply Hm)) as Hroom. cbn [body_packed] in Hroom. rewrite zlen_packed in Hroom.
    unfold write_internal_entries. pose proof (write_entries_packed es p 0) as Hw. rewrite Z.mul_0_l, Z.add_0_r in Hw.
    apply Hw; [done|apply Hv|unfold body_room; lia].
  - pose proof (body_packed_room (InnerB es) ltac:(apply Hm)). apply splice_valid; [done|done| |apply body_packed_bytes].
    unfold NODE_SPECIAL_OFFSET, NODE_META_SIZE in *. lia.
Qed.

Lemma meta_write_valid p m : page_valid p -> page_valid (NodeMeta_write m p).
Proof.
  intros Hv. apply splice_valid; [done|done| |apply meta_bytes_bytes]. rewrite zlen_meta. done.
Qed.

(** Initialisation succeeds on every valid page. *)
Lemma init_valid p m : page_valid p -> exists p', init_btree_page p m = Some (Ok tt, p') /\ page_valid p'.
Proof.
  intros (Hl & Hb & h & Hh). unfold init_btree_page, page_header. rewrite Hh. cbn [mbind option_bind].
  pose proof (header_decode_ok p h Hl Hb Hh) as Hok. set (nh := mk_PageHeader _ _ _ _ _ _ _ _).
  assert (header_ok nh) as Hnh by (constructor; try done; apply Hok).
  unfold write_header. rewrite header_decode_encode; [|rewrite zlen_splice; unfold zlen|done].
  - eexists. split; [done|]. apply meta_write_valid. split; [by apply encode_len|]. split; [by apply header_put_bytes|].
    exists nh. by apply header_decode_encode.
  - by rewrite length_replicate.
  - lia.
  - rewrite length_replicate. pose proof (zlen_slice 0 PAGE_HEADER_SIZE p ltac:(done)) as Hs. unfold zlen in *.
    rewrite Hs by (rewrite Hl; done). done.
Qed.

(** Stamping the LSN keeps the node. *)
Lemma set_lsn_node p m b lsn :
  node_page p m b -> in_width U64 lsn -> exists p', set_lsn p lsn = Some p' /\ node_page p' m b.
Proof.
  intros [[Hl [Hb [h Hh]]] Hm Hbd Hfor Hf] Hlsn. unfold set_lsn, page_header. rewrite Hh. cbn [mbind option_bind].
  eexists. split; [done|]. pose proof (header_decode_ok p h Hl Hb Hh) as Hok.
  pose proof (body_packed_room b ltac:(apply Hfor)).
  constructor; [|unfold holds_meta; rewrite encode_slice; done|by rewrite encode_slice|done|done].
  split; [by apply encode_len|]. split; [by apply header_put_bytes|].
  exists (with_lsn h lsn). apply header_decode_encode; [done|]. destruct Hok. by constructor.
Qed.
