(* ===== verification/BTree.v ===== *)
(** * The B-link tree (ultrasql-storage, btree/mod.rs, insert.rs, lookup.rs,
      iter.rs and vacuum.rs)

    The state of one index: the pages of its relation, the root block, the
    block allocator, and what the tree uses of its surroundings. A page fetch
    consumes one outcome of [bt_io] (a failed one is [BufferPoolError]) and
    always fails once the pool is poisoned; a block never written holds a fresh
    page. The WAL sink is a trait object: a parameter with its own state.
    Operations hold the relation latch for their whole duration, so each is one
    step on the state. [None] is a panic or a loop that exceeded its fuel, the
    number of pages of the relation. Keys are [i64], the 8-byte key type. *)

From S2P Require Import Prelude CoreIds WalRecord WalPayload WalPayloadIndex WalSink Bytes Page PageSpec BtNode.

Record BTree (S : Type) := mk_BTree {
  bt_pages : gmap Z Page;
  bt_root : Z;
  bt_next : Z;
  bt_io : list bool;
  bt_poisoned : bool;
  bt_sink : S;
}.
Arguments mk_BTree {S} _ _ _ _ _ _.
Arguments bt_pages {S} _.
Arguments bt_root {S} _.
Arguments bt_next {S} _.
Arguments bt_io {S} _.
Arguments bt_poisoned {S} _.
Arguments bt_sink {S} _.

(** ** Effects *)

Definition M (S A : Type) : Type := BTree S -> option (result A BTreeError * BTree S).

#[global] Instance M_ret S : MRet (M S) := fun A a t => Some (Ok a, t).
#[global] Instance M_bind S : MBind (M S) := fun A B k m t =>
  match m t with
  | None => None
  | Some (Err e, t') => Some (Err e, t')
  | Some (Ok a, t') => k a t'
  end.

Definition throw {S A} (e : BTreeError) : M S A := fun t => Some (Err e, t).
Definition panic {S A} : M S A := fun _ => None.
(** The [?] operator. *)
Definition lift {S A} (r : result A BTreeError) : M S A := fun t => Some (r, t).
Definition or_panic {S A} (o : option A) : M S A := fun t => match o with Some a => Some (Ok a, t) | None => None end.

Definition with_pages {S} (t : BTree S) (p : gmap Z Page) : BTree S :=
  mk_BTree p (bt_root t) (bt_next t) (bt_io t) (bt_poisoned t) (bt_sink t).
Definition with_next {S} (t : BTree S) (n : Z) : BTree S :=
  mk_BTree (bt_pages t) (bt_root t) n (bt_io t) (bt_poisoned t) (bt_sink t).
Definition with_io {S} (t : BTree S) (io : list bool) : BTree S :=
  mk_BTree (bt_pages t) (bt_root t) (bt_next t) io (bt_poisoned t) (bt_sink t).
Definition with_sink {S} (t : BTree S) (s : S) : BTree S :=
  mk_BTree (bt_pages t) (bt_root t) (bt_next t) (bt_io t) (bt_poisoned t) s.
Definition with_poison {S} (t : BTree S) : BTree S :=
  mk_BTree (bt_pages t) (bt_root t) (bt_next t) (bt_io t) true (bt_sink t).

(** The bytes of a block. *)
Definition page_of {S} (t : BTree S) (b : Z) : Page := default new_heap (bt_pages t !! b).

(** [get_page] and [get_page_relieved]. *)
Definition get_page {S} (b : Z) : M S Page := fun t =>
  if bt_poisoned t then Some (Err BufferPool, t) else
  match bt_io t with
  | false :: io => Some (Err BufferPool, with_io t io)
  | true :: io => Some (Ok (page_of t b), with_io t io)
  | [] => Some (Ok (page_of t b), t)
  end.

(** A write through the guard of a block. *)
Definition put_page {S} (b : Z) (p : Page) : M S unit := fun t => Some (Ok tt, with_pages t (<[b := p]> (bt_pages t))).

Definition allocate_block {S} : M S Z := fun t =>
  Some (Ok (bt_next t), with_next t (wrapping_add U32 (bt_next t) 1)).

Definition get_root {S} : M S Z := fun t => Some (Ok (bt_root t), t).

(** Enough for any walk that visits a page at most once. *)
Definition page_fuel {S} : M S nat := fun t => Some (Ok (Datatypes.S (size (bt_pages t))), t).

Definition u16_len {S A} (l : list A) (what : string) : M S Z :=
  lift (if Z.of_nat (length l) <? U16 then Ok (Z.of_nat (length l)) else Err (MalformedNode what)).

(** [init_btree_page] through the guard of block [b], which holds [p]. *)
Definition init_page {S} (b : Z) (p : Page) (meta : NodeMeta) : M S Page :=
  r ← or_panic (init_btree_page p meta);
  put_page b r.2;;
  lift r.1;;
  mret r.2.

(** ** Construction *)

Definition create {S} (pages : gmap Z Page) (io : list bool) (sink : S) (next_block : Z)
  : option (result unit BTreeError * BTree S) :=
  let t := mk_BTree pages 0 (Z.max next_block 1) io false sink in
  (p ← get_page 0; init_page 0 p fresh_leaf;; mret tt) t.

(** ** Descents *)

Fixpoint descend_to_leaf {S} (fuel : nat) (current key : Z) (path : list Z) : M S (Z * list Z) :=
  match fuel with
  | O => panic
  | Datatypes.S fuel' =>
      page ← get_page current;
      step ← lift (step_descend page key);
      match step with
      | DChaseRight next => descend_to_leaf fuel' next key path
      | ReachedLeaf => mret (current, path)
      | Descend child => descend_to_leaf fuel' child key (path ++ [current])
      end
  end.

Fixpoint descend_to_leaf_readonly {S} (fuel : nat) (current key : Z) : M S Z :=
  match fuel with
  | O => panic
  | Datatypes.S fuel' =>
      page ← get_page current;
      step ← lift (step_descend page key);
      match step with
      | DChaseRight next => descend_to_leaf_readonly fuel' next key
      | ReachedLeaf => mret current
      | Descend child => descend_to_leaf_readonly fuel' child key
      end
  end.

Fixpoint descend_to_leftmost_leaf_for_key {S} (fuel : nat) (current key : Z) : M S Z :=
  match fuel with
  | O => panic
  | Datatypes.S fuel' =>
      page ← get_page current;
      meta ← lift (NodeMeta_read page);
      if is_leaf meta then mret current
      else
        child ← lift (find_leftmost_child_internal page meta key);
        descend_to_leftmost_leaf_for_key fuel' child key
  end.

Fixpoint leftmost_leaf {S} (fuel : nat) (current : Z) : M S Z :=
  match fuel with
  | O => panic
  | Datatypes.S fuel' =>
      page ← get_page current;
      meta ← lift (NodeMeta_read page);
      if is_leaf meta then mret current
      else
        entries ← lift (read_internal_entries page (n_keys meta));
        match entries with
        | [] => throw (MalformedNode "empty internal node")
        | e :: _ => leftmost_leaf fuel' (ie_child e)
        end
  end.

(** ** Lookup *)

Fixpoint lookup_in_leaf {S} (fuel : nat) (current key : Z) : M S (option TupleId) :=
  match fuel with
  | O => panic
  | Datatypes.S fuel' =>
      page ← get_page current;
      probe ← lift (probe_leaf page key);
      match probe with
      | PChaseRight next => lookup_in_leaf fuel' next key
      | Found value => mret (Some value)
      | Missing => mret None
      end
  end.

Definition lookup {S} (key : Z) : M S (option TupleId) :=
  root ← get_root;
  fuel ← page_fuel;
  leaf ← descend_to_leaf_readonly fuel root key;
  lookup_in_leaf fuel leaf key.

Definition matching (key : Z) (entries : list LeafEntry) : list TupleId :=
  map le_value (filter (fun e => le_key e = key) entries).

Fixpoint lookup_all_loop {S} (fuel : nat) (current key : Z) (out : list TupleId) : M S (list TupleId) :=
  match fuel with
  | O => panic
  | Datatypes.S fuel' =>
      page ← get_page current;
      meta ← lift (NodeMeta_read page);
      entries ← lift (read_leaf_entries page (n_keys meta));
      let out := out ++ matching key entries in
      match should_chase_right meta key with
      | Some next => lookup_all_loop fuel' next key out
      | None => mret out
      end
  end.

Definition lookup_all {S} (key : Z) : M S (list TupleId) :=
  root ← get_root;
  fuel ← page_fuel;
  current ← descend_to_leftmost_leaf_for_key fuel root key;
  lookup_all_loop fuel current key [].

(** ** Insertion *)

Inductive LeafInsertOutcome := LChaseRight (next : Z) | Inserted | Split (sep_key new_block : Z).

(** The derived orders of [(i64, TupleId)]: field by field. *)
Definition tid_compare (a b : TupleId) : comparison :=
  match pg_relation (tid_page a) ?= pg_relation (tid_page b) with
  | Eq => match pg_block (tid_page a) ?= pg_block (tid_page b) with
          | Eq => tid_slot a ?= tid_slot b
          | c => c
          end
  | c => c
  end.

Definition entry_lt (e : LeafEntry) (key : Z) (value : TupleId) : bool :=
  match le_key e ?= key with
  | Lt => true
  | Gt => false
  | Eq => match tid_compare (le_value e) value with Lt => true | _ => false end
  end.

(** Where a new leaf entry goes, or the duplicate it collides with. *)
Definition leaf_position {S} (entries : list LeafEntry) (key : Z) (value : TupleId) (allow_duplicates : bool) : M S nat :=
  if allow_duplicates then
    let pos := partition_point (fun e => entry_lt e key value) entries in
    match entries !! pos with
    | Some e => if bool_decide (le_key e = key /\ le_value e = value) then throw DuplicateKey else mret pos
    | None => mret pos
    end
  else
    match binary_search_by (fun e => le_key e ?= key) entries with
    | Ok _ => throw DuplicateKey
    | Err i => mret i
    end.

Definition try_leaf_insert {S} (current : Z) (w : Page) (key : Z) (value : TupleId) (allow_duplicates : bool)
  : M S LeafInsertOutcome :=
  meta ← lift (NodeMeta_read w);
  match should_chase_right meta key with
  | Some next => mret (LChaseRight next)
  | None =>
      entries ← lift (read_leaf_entries w (n_keys meta));
      pos ← leaf_position entries key value allow_duplicates;
      let all := vec_insert pos (mk_LeafEntry key value) entries in
      if n_keys meta <? MAX_LEAF_ENTRIES then
        w1 ← or_panic (write_leaf_entries w all);
        put_page current w1;;
        n ← u16_len all "leaf overflow";
        put_page current (NodeMeta_write (with_n_keys meta n) w1);;
        mret Inserted
      else
        let mid := (length all / 2)%nat in
        let right := drop mid all in
        let left := take mid all in
        first ← or_panic (head right);
        let sep_key := le_key first in
        new_block ← allocate_block;
        rp ← get_page new_block;
        rn ← u16_len right "right leaf overflow";
        let right_meta := mk_NodeMeta (right_link meta) (if has_high_key meta then high_key meta else 0) 0 rn
                            (Z.lor FLAG_LEAF (if has_high_key meta then FLAG_HAS_HIGH_KEY else 0)) in
        rp1 ← init_page new_block rp right_meta;
        rp2 ← or_panic (write_leaf_entries rp1 right);
        put_page new_block (NodeMeta_write right_meta rp2);;
        w1 ← or_panic (write_leaf_entries w left);
        put_page current w1;;
        ln ← u16_len left "left leaf overflow";
        put_page current (NodeMeta_write (mk_NodeMeta new_block sep_key 0 ln (Z.lor FLAG_LEAF FLAG_HAS_HIGH_KEY)) w1);;
        mret (Split sep_key new_block)
  end.

Fixpoint insert_into_leaf {S} (fuel : nat) (current key : Z) (value : TupleId) (allow_duplicates : bool)
  : M S (option (Z * Z)) :=
  match fuel with
  | O => panic
  | Datatypes.S fuel' =>
      w ← get_page current;
      outcome ← try_leaf_insert current w key value allow_duplicates;
      match outcome with
      | LChaseRight next => insert_into_leaf fuel' next key value allow_duplicates
      | Inserted => mret None
      | Split sep_key new_block => mret (Some (sep_key, new_block))
      end
  end.

(** [right_entries[0].key = i64::MIN]. *)
Definition with_min_first (es : list InternalEntry) : list InternalEntry :=
  match es with
  | [] => []
  | e :: rest => mk_InternalEntry I64_MIN (ie_child e) :: rest
  end.

Definition try_internal_insert {S} (block : Z) (w : Page) (sep_key right_child : Z) : M S (option (Z * Z)) :=
  meta ← lift (NodeMeta_read w);
  entries ← lift (read_internal_entries w (n_keys meta));
  let pos := partition_point (fun e => ie_key e <=? sep_key) entries in
  let all := vec_insert pos (mk_InternalEntry sep_key right_child) entries in
  if n_keys meta <? MAX_INTERNAL_ENTRIES then
    w1 ← or_panic (write_internal_entries w all);
    put_page block w1;;
    n ← u16_len all "internal overflow";
    put_page block (NodeMeta_write (with_n_keys meta n) w1);;
    mret None
  else
    let mid := (length all / 2)%nat in
    let right := drop mid all in
    let left := take mid all in
    first ← or_panic (head right);
    let parent_sep := ie_key first in
    let right_entries := with_min_first right in
    new_block ← allocate_block;
    rp ← get_page new_block;
    rn ← u16_len right_entries "right internal overflow";
    let right_meta := mk_NodeMeta (right_link meta) (if has_high_key meta then high_key meta else 0) (level meta) rn
                        (if has_high_key meta then FLAG_HAS_HIGH_KEY else 0) in
    rp1 ← init_page new_block rp right_meta;
    rp2 ← or_panic (write_internal_entries rp1 right_entries);
    put_page new_block (NodeMeta_write right_meta rp2);;
    w1 ← or_panic (write_internal_entries w left);
    put_page block w1;;
    ln ← u16_len left "left internal overflow";
    put_page block (NodeMeta_write (mk_NodeMeta new_block parent_sep (level meta) ln FLAG_HAS_HIGH_KEY) w1);;
    mret (Some (parent_sep, new_block)).

Definition insert_into_internal {S} (block sep_key right_child : Z) : M S (option (Z * Z)) :=
  w ← get_page block;
  try_internal_insert block w sep_key right_child.

(** The root split: the root block stays, its old content moves to a new block. *)
Definition split_root {S} (sep_key new_right : Z) : M S unit :=
  old_root ← get_root;
  new_left ← allocate_block;
  r ← get_page old_root;
  meta ← lift (NodeMeta_read r);
  let lvl := saturating_add U16 (level meta) 1 in
  _l ← get_page new_left;
  put_page new_left r;;
  w ← get_page old_root;
  let meta := fresh_internal lvl in
  w1 ← init_page old_root w meta;
  w2 ← or_panic (write_internal_entries w1 [mk_InternalEntry I64_MIN new_left; mk_InternalEntry sep_key new_right]);
  put_page old_root (NodeMeta_write (with_n_keys meta 2) w2).

(** The loop of [propagate_split]; the path is given from its end. *)
Fixpoint propagate_split {S} (rpath : list Z) (sep_key new_right : Z) : M S unit :=
  match rpath with
  | [] => split_root sep_key new_right
  | parent :: rest =>
      r ← insert_into_internal parent sep_key new_right;
      match r with
      | None => mret tt
      | Some (k, b) => propagate_split rest k b
      end
  end.

Section logged.
Context {S : Type} (crc32c_append : Z -> list Z -> Z) (rel : Z).

(** [append_after_page_mutation]. *)
Definition append_after_page_mutation (sink : WalSink S) (record : WalRecord) : M S Lsn := fun t =>
  match sink_append sink (bt_sink t) record with
  | (Ok lsn, s') => Some (Ok lsn, with_sink t s')
  | (Err _, s') => Some (Err BWal, with_poison (with_sink t s'))
  end.

Definition stamp_page_lsn (b : Z) (lsn : Lsn) : M S unit :=
  p ← get_page b;
  p' ← or_panic (set_lsn p lsn);
  put_page b p'.

(** Build and append one record of the index. *)
Definition log_op (sink : WalSink S) (op : BTreeOpKind) (xid : Xid) (b : Z) (key_bytes cv : list Z) : M S Lsn :=
  prev_lsn ← (fun t => Some (Ok (last_lsn_for sink (bt_sink t) xid), t));
  payload ← lift (match BTreeOpPayload_encode (mk_BTreeOpPayload op rel (mk_PageId rel b) key_bytes cv) with
                  | Ok bytes => Ok bytes
                  | Err e => Err (BWalPayload e)
                  end);
  record ← lift (match WalRecord_new crc32c_append WalRecord.BTreeOp xid prev_lsn 0 payload with
                 | Ok r => Ok r
                 | Err e => Err (BWalRecord e)
                 end);
  append_after_page_mutation sink record.

Definition tid_wire (value : TupleId) : list Z :=
  le_encode 4 (pg_relation (tid_page value)) ++ le_encode 4 (pg_block (tid_page value))
  ++ le_encode 2 (tid_slot value) ++ le_encode 2 0.

Definition insert_inner (key : Z) (value : TupleId) (xid : Xid) (wal : option (WalSink S)) (allow_duplicates : bool)
  : M S unit :=
  root ← get_root;
  fuel ← page_fuel;
  found ← descend_to_leaf fuel root key [];
  let leaf_block := found.1 in
  let path := found.2 in
  split_result ← insert_into_leaf fuel leaf_block key value allow_duplicates;
  match wal with
  | None => mret tt
  | Some sink =>
      lsn ← log_op sink BInsert xid leaf_block (i64_bytes key) (tid_wire value);
      stamp_page_lsn leaf_block lsn
  end;;
  match split_result with
  | None => mret tt
  | Some (sep_key, new_right) =>
      match wal with
      | None => mret tt
      | Some sink => log_op sink BSplit xid leaf_block (i64_bytes sep_key) (le_encode 4 new_right);; mret tt
      end;;
      propagate_split (rev path) sep_key new_right
  end.

Definition insert (key : Z) (value : TupleId) (xid : Xid) (wal : option (WalSink S)) : M S unit :=
  insert_inner key value xid wal false.

Definition insert_non_unique (key : Z) (value : TupleId) (xid : Xid) (wal : option (WalSink S)) : M S unit :=
  insert_inner key value xid wal true.

(** ** Deletion *)

Fixpoint delete_from_leaf (fuel : nat) (current key : Z) (value : TupleId) : M S (option Z) :=
  match fuel with
  | O => panic
  | Datatypes.S fuel' =>
      w ← get_page current;
      meta ← lift (NodeMeta_read w);
      entries ← lift (read_leaf_entries w (n_keys meta));
      match position (fun e => bool_decide (le_key e = key /\ le_value e = value)) entries with
      | Some pos =>
          let entries := vec_remove pos entries in
          w1 ← or_panic (write_leaf_entries w entries);
          put_page current w1;;
          n ← u16_len entries "leaf underflow";
          put_page current (NodeMeta_write (with_n_keys meta n) w1);;
          mret (Some current)
      | None =>
          match should_chase_right meta key with
          | Some next => delete_from_leaf fuel' next key value
          | None => mret None
          end
      end
  end.

Definition delete_inner (key : Z) (value : TupleId) (xid : option Xid) (wal : option (WalSink S)) : M S bool :=
  root ← get_root;
  fuel ← page_fuel;
  leaf ← descend_to_leftmost_leaf_for_key fuel root key;
  deleted ← delete_from_leaf fuel leaf key value;
  match deleted with
  | None => mret false
  | Some deleted_leaf =>
      match wal, xid with
      | Some sink, Some xid =>
          lsn ← log_op sink BDelete xid deleted_leaf (i64_bytes key) (tid_wire value);
          stamp_page_lsn deleted_leaf lsn
      | _, _ => mret tt
      end;;
      mret true
  end.

Definition delete (key : Z) (value : TupleId) : M S bool := delete_inner key value None None.
Definition delete_logged (key : Z) (value : TupleId) (xid : Xid) (wal : option (WalSink S)) : M S bool :=
  delete_inner key value (Some xid) wal.
End logged.

(** ** Vacuum *)

Fixpoint vacuum_loop {S} (is_dead : TupleId -> bool) (fuel : nat) (leaf : Z) (removed : Z) : M S Z :=
  match fuel with
  | O => panic
  | Datatypes.S fuel' =>
      w ← get_page leaf;
      meta ← lift (NodeMeta_read w);
      entries ← lift (read_leaf_entries w (n_keys meta));
      let kept := filter (fun e => is_dead (le_value e) = false) entries in
      let before := Z.of_nat (length entries) in
      let after := Z.of_nat (length kept) in
      (if after <? before then
         w1 ← or_panic (write_leaf_entries w kept);
         put_page leaf w1;;
         n ← u16_len kept "vacuum overflow";
         put_page leaf (NodeMeta_write (with_n_keys meta n) w1);;
         mret tt
       else mret tt);;
      let removed := removed + (before - after) in
      if right_link meta =? NO_SIBLING then mret removed
      else vacuum_loop is_dead fuel' (right_link meta) removed
  end.

Definition vacuum {S} (is_dead : TupleId -> bool) : M S Z :=
  root ← get_root;
  fuel ← page_fuel;
  leaf ← leftmost_leaf fuel root;
  vacuum_loop is_dead fuel leaf 0.

(** ** Range scans *)

Record RangeIter := mk_RangeIter {
  current_leaf : option Z;
  current_slot : nat;
  ri_start : Z;
  ri_end : option Z;
  started : bool;
}.

Definition range_scan (start : Z) (end_ : option Z) : RangeIter := mk_RangeIter None 0 start end_ false.

Definition at_leaf (it : RangeIter) (leaf : option Z) (slot : nat) : RangeIter :=
  mk_RangeIter leaf slot (ri_start it) (ri_end it) (started it).

Definition start_slot_in_leaf {S} (leaf raw_start : Z) : M S nat :=
  page ← get_page leaf;
  meta ← lift (NodeMeta_read page);
  entries ← lift (read_leaf_entries page (n_keys meta));
  mret (partition_point (fun e => le_key e <? raw_start) entries).

(** What [next] returns: nothing, an entry or an error; a panic is the [None]
    of the monad. The error does not stop the iterator. *)
Inductive Item := INone | IEntry (key : Z) (value : TupleId) | IError (e : BTreeError).

(** The error of an effect becomes the item; the iterator is kept. *)
Definition item_or {S A} (m : M S A) (it : RangeIter) (k : A -> M S (Item * RangeIter)) : M S (Item * RangeIter) := fun t =>
  match m t with
  | None => None
  | Some (Err e, t') => Some (Ok (IError e, it), t')
  | Some (Ok a, t') => k a t'
  end.

Definition past_end (end_ : option Z) (key : Z) : bool :=
  match end_ with Some raw_end => raw_end <=? key | None => false end.

(** The loop of [next]. *)
Fixpoint next_loop {S} (fuel : nat) (it : RangeIter) : M S (Item * RangeIter) :=
  match fuel with
  | O => panic
  | Datatypes.S fuel' =>
      match current_leaf it with
      | None => mret (INone, it)
      | Some leaf =>
          item_or (page ← get_page leaf;
                   meta ← lift (NodeMeta_read page);
                   entries ← lift (read_leaf_entries page (n_keys meta));
                   mret (meta, entries)) it (fun me =>
          let '(meta, entries) := me in
          match entries !! current_slot it with
          | Some e =>
              let it' := at_leaf it (current_leaf it) (Datatypes.S (current_slot it)) in
              if le_key e <? ri_start it then next_loop fuel' it'
              else if past_end (ri_end it) (le_key e) then mret (INone, at_leaf it' None (current_slot it'))
              else mret (IEntry (le_key e) (le_value e), it')
          | None =>
              if right_link meta =? NO_SIBLING then mret (INone, at_leaf it None (current_slot it))
              else next_loop fuel' (at_leaf it (Some (right_link meta)) 0)
          end)
      end
  end.

(** Enough for the steps of one [next]: the entries of every leaf and the
    links between them. *)
Definition scan_fuel {S} : M S nat := fun t =>
  Some (Ok (Datatypes.S (Z.to_nat (MAX_LEAF_ENTRIES + 1) * Datatypes.S (size (bt_pages t)))%nat), t).

Definition next {S} (it : RangeIter) : M S (Item * RangeIter) :=
  fuel ← scan_fuel;
  if started it then next_loop fuel it
  else
    let it1 := mk_RangeIter (current_leaf it) (current_slot it) (ri_start it) (ri_end it) true in
    item_or (root ← get_root; pf ← page_fuel; leftmost_leaf pf root) it1 (fun leaf =>
    let it2 := at_leaf it1 (Some leaf) (current_slot it1) in
    item_or (start_slot_in_leaf leaf (ri_start it)) it2 (fun slot =>
    next_loop fuel (at_leaf it2 (Some leaf) slot))).

(** A caller that collects the entries until the end or the first error. *)
Fixpoint collect {S} (fuel : nat) (it : RangeIter) (out : list LeafEntry) : M S (list LeafEntry) :=
  match fuel with
  | O => panic
  | Datatypes.S fuel' =>
      r ← next it;
      match r.1 with
      | INone => mret out
      | IError e => throw e
      | IEntry key value => collect fuel' r.2 (out ++ [mk_LeafEntry key value])
      end
  end.

(** The items of [backward_scan]: the entries at most [start] and at least
    [end_], collected forward; the iterator yields them from the last to the
    first. *)
Definition in_backward (start : Z) (end_ : option Z) (e : LeafEntry) : bool :=
  (le_key e <=? start) && match end_ with Some x => x <=? le_key e | None => true end.

Fixpoint backward_loop {S} (fuel : nat) (leaf start : Z) (end_ : option Z) (items : list LeafEntry)
  : M S (list LeafEntry) :=
  match fuel with
  | O => panic
  | Datatypes.S fuel' =>
      page ← get_page leaf;
      meta ← lift (NodeMeta_read page);
      entries ← lift (read_leaf_entries page (n_keys meta));
      let items := items ++ filter (fun e => in_backward start end_ e = true) entries in
      if right_link meta =? NO_SIBLING then mret items
      else backward_loop fuel' (right_link meta) start end_ items
  end.

Definition backward_scan {S} (start : Z) (end_ : option Z) : M S (list LeafEntry) :=
  root ← get_root;
  fuel ← page_fuel;
  leaf ← descend_to_leaf_readonly fuel root I64_MIN;
  items ← backward_loop fuel leaf start end_ [];
  mret (rev items).
