(* ===== verification/BTreeInv.v ===== *)
(** * The B-link tree: invariant, effects and descents

    The invariant describes the tree by its levels, leaves first. A level is a
    list of nodes in the order of the right-links; each node has a low fence,
    the high key of a node is the low fence of its right neighbour, and an
    entry of an internal node carries the low fence of its child. A parent may
    lack an entry for a child: the child is then reached over the right-links,
    which is what a split interrupted between two pages leaves behind. *)

From S2P Require Import Prelude CoreIds WalRecord WalPayload WalPayloadIndex WalSink Bytes Page PageSpec BtNode BtNodeSpec BTree.

(** ** Effects: weakest preconditions

    [wp m t Q] holds when [m] neither panics nor runs out of fuel from [t] and
    its result and final state satisfy [Q]. *)
Definition wp {S A} (m : M S A) (t : BTree S) (Q : result A BTreeError -> BTree S -> Prop) : Prop :=
  match m t with Some (r, t') => Q r t' | None => False end.

Lemma wp_mono {S A} (m : M S A) t (P Q : result A BTreeError -> BTree S -> Prop) :
  wp m t P -> (forall r t', P r t' -> Q r t') -> wp m t Q.
Proof. unfold wp. destruct (m t) as [[r t']|]; auto. Qed.

Lemma wp_ret {S A} (a : A) (t : BTree S) Q : Q (Ok a) t -> wp (mret a) t Q.
Proof. done. Qed.

Lemma wp_throw {S A} e (t : BTree S) (Q : result A BTreeError -> BTree S -> Prop) : Q (Err e) t -> wp (throw e) t Q.
Proof. done. Qed.

Lemma wp_bind {S A B} (m : M S A) (k : A -> M S B) t Q :
  wp m t (fun r t' => match r with Ok a => wp (k a) t' Q | Err e => Q (Err e) t' end) -> wp (m ≫= k) t Q.
Proof. unfold wp, mbind, M_bind. destruct (m t) as [[[a|e] t']|]; auto. Qed.

Lemma wp_lift {S A} (r : result A BTreeError) (t : BTree S) Q : Q r t -> wp (lift r) t Q.
Proof. done. Qed.

Lemma wp_or_panic {S A} (a : A) o (t : BTree S) Q : o = Some a -> Q (Ok a) t -> wp (or_panic o) t Q.
Proof. by intros ->. Qed.

(** A state in which a page fetch can fail. *)
Definition faulty {S} (t : BTree S) : Prop := bt_poisoned t = true \/ false ∈ bt_io t.

(** Fetching pages changes neither the tree nor its allocator, and does not
    make a sound environment fail. *)
Record fetched {S} (t t' : BTree S) : Prop := {
  fe_pages : bt_pages t' = bt_pages t;
  fe_root : bt_root t' = bt_root t;
  fe_next : bt_next t' = bt_next t;
  fe_faulty : faulty t' -> faulty t;
}.

#[global] Instance fetched_preorder S : PreOrder (@fetched S).
Proof.
  split; [by constructor|]. intros a b c [] []. constructor; [congruence|congruence|congruence|auto].
Qed.

Lemma wp_get_page {S} b (t : BTree S) Q :
  (forall t', fetched t t' -> Q (Ok (page_of t b)) t') ->
  (forall t', fetched t t' -> faulty t -> Q (Err BufferPool) t') -> wp (get_page b) t Q.
Proof.
  intros Hok Herr. unfold wp, get_page. destruct (bt_poisoned t) eqn:E; [apply Herr; [done|by left]|].
  destruct (bt_io t) as [|[] io] eqn:Eio; [by apply Hok| |].
  - apply Hok. constructor; [done..|]. intros [?|?]; [by left|]. right. rewrite Eio. cbn in *. by apply list_elem_of_further.
  - apply Herr; [|right; rewrite Eio; apply list_elem_of_here].
    constructor; [done..|]. intros _. right. rewrite Eio. apply list_elem_of_here.
Qed.

(** One step of a program: split the first effect off. *)
Ltac wstep := apply wp_bind.

(** ** Fences *)

Definition low_le (x y : option Z) : Prop :=
  match x, y with None, _ => True | Some a, Some b => a <= b | Some _, None => False end.
(** [k] is at or above a low fence, at or below, strictly below a high key. *)
Definition ge_low (lo : option Z) (k : Z) : Prop := match lo with Some l => l <= k | None => True end.
Definition le_high (k : Z) (hi : option Z) : Prop := match hi with Some h => k <= h | None => True end.
Definition lt_high (k : Z) (hi : option Z) : Prop := match hi with Some h => k < h | None => True end.
(** [k] is strictly above a low fence. *)
Definition gt_low (lo : option Z) (k : Z) : Prop := match lo with Some l => l < k | None => True end.
(** A high key at or below another. *)
Definition high_le (x y : option Z) : Prop :=
  match x, y with _, None => True | Some a, Some b => a <= b | None, Some _ => False end.

#[global] Instance low_le_preorder : PreOrder low_le.
Proof. split; [intros [x|]; cbn; [lia|done]|]. intros [x|] [y|] [z|]; cbn; try done; lia. Qed.

Lemma ge_low_le lo lo' k : low_le lo lo' -> ge_low lo' k -> ge_low lo k.
Proof. destruct lo, lo'; cbn; try done; lia. Qed.

(** ** Levels *)

Record gnode := mk_gnode { g_blk : Z; g_low : option Z; g_body : Body }.

Definition hd_blk (c : list gnode) : Z := match c with [] => NO_SIBLING | g :: _ => g_blk g end.
Definition hd_low (c : list gnode) : option Z := match c with [] => None | g :: _ => g_low g end.

Definition low_at (below : list gnode) (b : Z) (e : option Z) : Prop :=
  exists g, g ∈ below /\ g_blk g = b /\ g_low g = e.

(** The order of the entries of one leaf: by key, then by tuple identifier. *)
Definition entry_before (a b : LeafEntry) : Prop := entry_lt a (le_key b) (le_value b) = true.

Definition body_ok (below : list gnode) (lo hi : option Z) (b : Body) : Prop :=
  match b with
  | LeafB es =>
      StronglySorted entry_before es /\
      Forall (fun e => ge_low lo (le_key e) /\ le_high (le_key e) hi) es
  | InnerB es =>
      exists c0 rest, es = mk_InternalEntry I64_MIN c0 :: rest /\
      StronglySorted Z.le (map ie_key rest) /\ low_at below c0 lo /\
      Forall (fun e => ge_low lo (ie_key e) /\ le_high (ie_key e) hi /\ low_at below (ie_child e) (Some (ie_key e))) rest
  end.

Definition node_high (m : NodeMeta) : option Z := if has_high_key m then Some (high_key m) else None.

(** A property of every node of a level and of what lies to its right. *)
Fixpoint each (Q : gnode -> list gnode -> Prop) (c : list gnode) : Prop :=
  match c with [] => True | g :: post => Q g post /\ each Q post end.

(** The node is on its page, and its entries respect the fences. *)
Definition on_page (ps : gmap Z Page) (g : gnode) (post : list gnode) : Prop :=
  exists p m, ps !! g_blk g = Some p /\ node_page p m (g_body g) /\
              right_link m = hd_blk post /\ node_high m = hd_low post.

Definition node_ok (ps : gmap Z Page) (below : list gnode) (leaf : bool) (g : gnode) (post : list gnode) : Prop :=
  on_page ps g post /\ body_ok below (g_low g) (hd_low post) (g_body g) /\ body_leaf (g_body g) = leaf.

Record lows_ok (c : list gnode) : Prop := {
  lo_sorted : StronglySorted low_le (map g_low c);
  lo_head : exists g rest, c = g :: rest /\ g_low g = None /\ Forall (fun g => is_Some (g_low g)) rest;
}.

Definition below (G : list (list gnode)) (l : nat) : list gnode :=
  match l with O => [] | Datatypes.S l' => default [] (G !! l') end.

Definition blocks (G : list (list gnode)) : list Z := map g_blk (concat G).

Record tree_inv {S} (t : BTree S) (G : list (list gnode)) : Prop := {
  ti_lows : forall l c, G !! l = Some c -> lows_ok c;
  ti_nodes : forall l c, G !! l = Some c -> each (node_ok (bt_pages t) (below G l) (l =? 0)%nat) c;
  ti_root : exists G' g rest, G = G' ++ [g :: rest] /\ g_blk g = bt_root t;
  ti_nodup : NoDup (blocks G);
  ti_range : Forall (fun b => 0 <= b < bt_next t) (blocks G);
  ti_next : 0 < bt_next t < U32;
  ti_valid : map_Forall (fun _ p => page_valid p) (bt_pages t);
}.

(** The entries of the tree, in leaf order. *)
Definition leaf_entries (g : gnode) : list LeafEntry := match g_body g with LeafB es => es | InnerB _ => [] end.
Definition level_entries (c : list gnode) : list LeafEntry := concat (map leaf_entries c).
Definition contents (G : list (list gnode)) : list LeafEntry := level_entries (default [] (G !! 0%nat)).

(** ** Laws of [each] *)

Lemma each_app Q a b : each Q (a ++ b) <-> each (fun g post => Q g (post ++ b)) a /\ each Q b.
Proof. induction a as [|g a IH]; cbn; [tauto|]. rewrite IH. tauto. Qed.

Lemma each_impl (P Q : gnode -> list gnode -> Prop) c :
  each P c -> (forall g post, g ∈ c -> P g post -> Q g post) -> each Q c.
Proof.
  induction c as [|g c IH]; cbn; [done|]. intros [Hg Hc] HPQ. split; [apply HPQ; [left|done]|].
  apply IH; [done|]. intros. apply HPQ; [by right|done].
Qed.

Lemma each_at Q pre g post : each Q (pre ++ g :: post) -> Q g post.
Proof. rewrite each_app. cbn. tauto. Qed.

Lemma hd_blk_app a b c : hd_blk b = hd_blk c -> hd_blk (a ++ b) = hd_blk (a ++ c).
Proof. by destruct a. Qed.
Lemma hd_low_app a b c : hd_low b = hd_low c -> hd_low (a ++ b) = hd_low (a ++ c).
Proof. by destruct a. Qed.

Lemma elem_of_middle {A} (x : A) pre post : x ∈ pre ++ x :: post.
Proof. apply elem_of_app. right. left. Qed.

(** The tree depends on the pages, the root and the allocator only. *)
Lemma tree_inv_fetched {S} (t t' : BTree S) G : fetched t t' -> tree_inv t G -> tree_inv t' G.
Proof.
  intros [Hp Hr Hn _] [L N R D B X V]. constructor; rewrite ?Hp, ?Hr, ?Hn; done.
Qed.

Lemma page_of_fetched {S} (t t' : BTree S) b : fetched t t' -> page_of t' b = page_of t b.
Proof. intros [Hp _ _ _]. unfold page_of. by rewrite Hp. Qed.

(** ** A node of a level *)

Section node.
Context {S : Type} (t : BTree S) (G : list (list gnode)).
Hypothesis Hinv : tree_inv t G.

Lemma elem_of_blocks l c g : G !! l = Some c -> g ∈ c -> g_blk g ∈ blocks G.
Proof using.
  intros Hl Hg. unfold blocks. apply list_elem_of_fmap. exists g. split; [done|].
  apply list_elem_of_In, in_concat. exists c. split; apply list_elem_of_In; [|done]. by eapply list_elem_of_lookup_2.
Qed.

Lemma blk_range l c g : G !! l = Some c -> g ∈ c -> 0 <= g_blk g < bt_next t.
Proof using Hinv.
  intros Hl Hg. pose proof (ti_range _ _ Hinv) as H. rewrite Forall_forall in H. apply H. by eapply elem_of_blocks.
Qed.

Lemma blk_not_sibling l c g : G !! l = Some c -> g ∈ c -> g_blk g <> NO_SIBLING.
Proof using Hinv.
  intros Hl Hg. pose proof (blk_range l c g Hl Hg). pose proof (ti_next _ _ Hinv). unfold NO_SIBLING. lia.
Qed.

Context (l : nat) (pre post : list gnode) (g : gnode).
Hypothesis Hat : G !! l = Some (pre ++ g :: post).

Lemma node_here : node_ok (bt_pages t) (below G l) (l =? 0)%nat g post.
Proof using Hinv Hat. by eapply each_at, (ti_nodes _ _ Hinv). Qed.

Lemma page_here : exists m, node_page (page_of t (g_blk g)) m (g_body g) /\
  right_link m = hd_blk post /\ node_high m = hd_low post /\ bt_pages t !! g_blk g = Some (page_of t (g_blk g)).
Proof using Hinv Hat.
  destruct node_here as [(p & m & Hp & Hn & Hr & Hh) _]. exists m. unfold page_of. rewrite Hp. done.
Qed.

(** Fences to the right are at or above, to the left at or below. *)
Lemma lows_right g' : g' ∈ post -> low_le (g_low g) (g_low g').
Proof using Hinv Hat.
  intros Hg. pose proof (lo_sorted _ (ti_lows _ _ Hinv _ _ Hat)) as H. rewrite map_app in H.
  apply StronglySorted_app_1_r in H. cbn [map] in H. apply StronglySorted_inv in H as [_ H].
  rewrite Forall_forall in H. apply H. by apply list_elem_of_fmap_2.
Qed.

Lemma lows_left g' : g' ∈ pre -> low_le (g_low g') (g_low g).
Proof using Hinv Hat.
  intros Hg. pose proof (lo_sorted _ (ti_lows _ _ Hinv _ _ Hat)) as H. rewrite map_app in H.
  eapply StronglySorted_app_1_elem_of; [exact H|by apply list_elem_of_fmap_2|]. cbn. left.
Qed.

(** The next node exists exactly when the node has a high key. *)
Lemma next_low : match post with [] => True | g' :: _ => is_Some (g_low g') end.
Proof using Hinv Hat.
  destruct post as [|g' post']; [done|].
  destruct (lo_head _ (ti_lows _ _ Hinv _ _ Hat)) as (g0 & rest & E & _ & Hr). rewrite Forall_forall in Hr. apply Hr.
  destruct pre as [|x pre']; cbn in E; injection E as -> <-; [left|]. apply elem_of_app. right. right. left.
Qed.

Lemma fence_order : match hd_low post with Some h => match g_low g with Some l => l <= h | None => True end | None => True end.
Proof using Hinv Hat.
  pose proof lows_right as H. destruct post as [|g' post'] eqn:E; [done|]. cbn.
  specialize (H g' ltac:(left)). destruct (g_low g), (g_low g'); cbn in *; done.
Qed.

(** What a chase decides on this node. *)
Lemma chase_here m key :
  right_link m = hd_blk post -> node_high m = hd_low post ->
  match should_chase_right m key with
  | Some next => exists g' post', post = g' :: post' /\ next = g_blk g' /\ ge_low (g_low g') key
  | None => lt_high key (hd_low post)
  end.
Proof using Hinv Hat.
  intros Hr Hh. unfold should_chase_right. unfold node_high in Hh. destruct (has_high_key m).
  - cbn [negb]. destruct post as [|g' post'] eqn:E; [done|]. cbn [hd_low hd_blk] in *.
    assert (right_link m <> NO_SIBLING) as Hns.
    { rewrite Hr. eapply blk_not_sibling; [exact Hat|]. apply elem_of_app. right. right. left. }
    apply Z.eqb_neq in Hns. rewrite Hns. cbn [negb]. rewrite andb_true_r.
    destruct (Z.leb_spec (high_key m) key); [|by rewrite <- Hh].
    exists g', post'. split; [done|]. split; [done|]. by rewrite <- Hh.
  - cbn [negb]. by rewrite <- Hh.
Qed.
End node.

(** ** Fuel *)

Definition remaining (G : list (list gnode)) (l : nat) (post : list gnode) : nat :=
  (length post + 1 + length (concat (take l G)))%nat.

Lemma length_blocks_size {S} (t : BTree S) G : tree_inv t G -> (length (concat G) <= size (bt_pages t))%nat.
Proof.
  intros Hinv. rewrite <- (length_map g_blk). change (map g_blk (concat G)) with (blocks G).
  rewrite <- (size_dom (bt_pages t)). rewrite <- (size_list_to_set (C := gset Z) (blocks G)) by apply Hinv.
  apply subseteq_size. intros b Hb%elem_of_list_to_set. unfold blocks in Hb.
  apply list_elem_of_fmap in Hb as (g & -> & Hg). apply list_elem_of_In, in_concat in Hg as (c & Hc & Hg).
  apply list_elem_of_In in Hc, Hg. apply list_elem_of_lookup in Hc as [l Hl].
  apply list_elem_of_split in Hg as (pre & post & ->).
  destruct (page_here t G Hinv l pre post g Hl) as (m & _ & _ & _ & Hp). by apply elem_of_dom_2 in Hp.
Qed.

Lemma remaining_below G l' pre' g' post' :
  G !! l' = Some (pre' ++ g' :: post') ->
  (remaining G l' post' <= length (concat (take (Datatypes.S l') G)))%nat.
Proof.
  intros Hl. unfold remaining. rewrite (take_S_r _ _ _ Hl), concat_app. cbn [concat]. rewrite app_nil_r, !length_app. cbn [length]. lia.
Qed.

Lemma remaining_total {S} (t : BTree S) G l pre g post :
  tree_inv t G -> G !! l = Some (pre ++ g :: post) -> (remaining G l post <= size (bt_pages t))%nat.
Proof.
  intros Hinv Hl. pose proof (length_blocks_size t G Hinv). pose proof (remaining_below _ _ _ _ _ Hl).
  rewrite <- (take_drop (Datatypes.S l) G), concat_app, length_app in H. lia.
Qed.

(** ** Searching an internal node *)

Lemma sorted_cons_min (rest : list InternalEntry) c0 :
  StronglySorted Z.le (map ie_key rest) -> Forall inner_fits rest ->
  StronglySorted Z.le (map ie_key (mk_InternalEntry I64_MIN c0 :: rest)).
Proof.
  intros Hs Hf. cbn [map]. constructor; [done|]. apply Forall_map. eapply Forall_impl; [exact Hf|].
  intros e [[Hk _] _]. exact Hk.
Qed.

Lemma sorted_keys_mono {E} (key : E -> Z) es i j a b :
  StronglySorted Z.le (map key es) -> (i <= j)%nat -> es !! i = Some a -> es !! j = Some b -> key a <= key b.
Proof.
  intros Hs Hij Ha Hb. apply (sorted_lookup_le (map key es) i j); [done|done| |]; by rewrite list_lookup_fmap, ?Ha, ?Hb.
Qed.

Lemma child_at_spec p m es bel lo hi before :
  node_page p m (InnerB es) -> body_ok bel lo hi (InnerB es) ->
  (forall a b, ie_key a <= ie_key b -> before b = true -> before a = true) ->
  exists b e, child_at p m before = Ok b /\ low_at bel b e /\ low_le lo e /\
    (e = lo \/ exists x, before x = true /\ e = Some (ie_key x)).
Proof.
  intros Hp (c0 & rest & -> & Hs & H0 & Hr) Hm. unfold child_at. rewrite (node_read_inner _ _ _ Hp).
  pose proof (np_fits _ _ _ Hp) as Hf. cbn [body_fits] in Hf. apply Forall_cons in Hf as [_ Hf].
  pose proof (sorted_cons_min rest c0 Hs Hf) as Hss. set (es := mk_InternalEntry I64_MIN c0 :: rest) in *.
  destruct (partition_point_spec before es) as (Hn & Ht & _).
  { intros i j a b Hij Ha Hb. apply Hm. by eapply (sorted_keys_mono ie_key). }
  set (n := partition_point before es) in *.
  destruct (lookup_lt_is_Some_2 es (n - 1)) as [e He]; [cbn [es length] in *; lia|]. cbn [es]. fold es. rewrite He.
  destruct (decide (n <= 1)%nat) as [H1|H1].
  { replace (n - 1)%nat with O in He by lia. injection He as <-. exists c0, lo. cbn. split; [done|]. split; [done|]. split; [reflexivity|by left]. }
  assert (e ∈ rest) as Hin.
  { destruct (n - 1)%nat as [|k] eqn:En; [lia|]. cbn in He. by eapply list_elem_of_lookup_2. }
  rewrite Forall_forall in Hr. destruct (Hr e Hin) as (Hlo & Hhi & Hat).
  exists (ie_child e), (Some (ie_key e)). split; [done|]. split; [done|].
  split; [destruct lo; cbn in *; done|]. right. exists e. split; [|done].
  rewrite Forall_lookup in Ht. apply (Ht (n - 1)%nat). rewrite lookup_take_lt by lia. done.
Qed.

Lemma low_at_split G l' b e :
  low_at (below G (Datatypes.S l')) b e -> exists pre g post, G !! l' = Some (pre ++ g :: post) /\ g_blk g = b /\ g_low g = e.
Proof.
  intros (g & Hg & Hb & He). cbn [below] in Hg. destruct (G !! l') as [c|] eqn:E; [|by apply not_elem_of_nil in Hg].
  cbn in Hg. apply list_elem_of_split in Hg as (pre & post & ->). eauto 10.
Qed.

Section descents.
Context {S : Type} (t : BTree S) (G : list (list gnode)).
Hypothesis Hinv : tree_inv t G.

(** The high key of a node bounds the high keys below it. *)
Lemma high_nested l P preP postP g pre post key :
  G !! Datatypes.S l = Some (preP ++ P :: postP) -> G !! l = Some (pre ++ g :: post) ->
  ge_low (g_low g) key -> lt_high key (hd_low postP) -> high_le (hd_low post) (hd_low postP).
Proof using Hinv.
  intros HP Hg Hlow Hhi. destruct postP as [|P2 postP']; [by destruct (hd_low post)|]. cbn [hd_low] in *.
  assert (HP2 : G !! Datatypes.S l = Some ((preP ++ [P]) ++ P2 :: postP')) by by rewrite <- app_assoc.
  destruct (node_here t G Hinv _ _ _ _ HP2) as (_ & Hok & Hleaf). cbn [Nat.eqb] in Hleaf.
  destruct (g_body P2) as [|es] eqn:Eb; [done|]. destruct Hok as (c0 & rest & _ & _ & Hc0 & _).
  destruct (g_low P2) as [h|] eqn:EP2; [|by destruct (hd_low post)].
  destruct Hc0 as (x & Hx & _ & Hxl). cbn [below] in Hx. rewrite Hg in Hx. cbn [default] in Hx. cbn [lt_high] in Hhi.
  apply elem_of_app in Hx as [Hx|Hx].
  { pose proof (lows_left t G Hinv l pre post g Hg x Hx) as Hle. rewrite Hxl in Hle.
    destruct (g_low g); cbn in *; [lia|done]. }
  apply elem_of_cons in Hx as [->|Hx]; [rewrite Hxl in Hlow; cbn in Hlow; lia|].
  destruct post as [|g2 post']; [by apply not_elem_of_nil in Hx|]. cbn [hd_low].
  assert (low_le (g_low g2) (g_low x)) as Hle.
  { apply elem_of_cons in Hx as [->|Hx]; [reflexivity|].
    eapply (lows_right t G Hinv l (pre ++ [g]) post' g2); [by rewrite <- app_assoc|done]. }
  rewrite Hxl in Hle. pose proof (next_low t G Hinv l pre (g2 :: post') g Hg) as [y Hy]. cbn in Hy. rewrite Hy in *. done.
Qed.

(** The path from the root to a node: every parent is one level up, covers the
    key, and its low fence is at or below that of the node beneath. *)
Fixpoint path_ok (l : nat) (lo : option Z) (key : Z) (rpath : list Z) : Prop :=
  match rpath with
  | [] => Datatypes.S l = length G
  | b :: rest => exists pre P post, G !! Datatypes.S l = Some (pre ++ P :: post) /\ g_blk P = b /\
      low_le (g_low P) lo /\ ge_low (g_low P) key /\ lt_high key (hd_low post) /\
      path_ok (Datatypes.S l) (g_low P) key rest
  end.

Lemma path_ok_le l lo lo' key rpath : low_le lo lo' -> path_ok l lo key rpath -> path_ok l lo' key rpath.
Proof using.
  destruct rpath as [|b rest]; [done|]. cbn. intros Hle (pre & P & post & H1 & H2 & H3 & H4). exists pre, P, post.
  split; [done|]. split; [done|]. split; [by etrans|done].
Qed.

(** One step of a descent from a node at or left of the key. *)
Lemma step_descend_spec l pre g post key :
  G !! l = Some (pre ++ g :: post) -> ge_low (g_low g) key ->
  exists step, step_descend (page_of t (g_blk g)) key = Ok step /\
  match step with
  | DChaseRight next => exists g' post', post = g' :: post' /\ next = g_blk g' /\ ge_low (g_low g') key
  | ReachedLeaf => l = O /\ lt_high key (hd_low post)
  | Descend child => exists l' pre' g' post', l = Datatypes.S l' /\ G !! l' = Some (pre' ++ g' :: post') /\
      g_blk g' = child /\ low_le (g_low g) (g_low g') /\ ge_low (g_low g') key /\ lt_high key (hd_low post)
  end.
Proof using Hinv.
  intros Hat Hlow. destruct (page_here t G Hinv l pre post g Hat) as (m & Hp & Hr & Hh & _).
  destruct (node_here t G Hinv l pre post g Hat) as (_ & Hok & Hleaf). unfold step_descend.
  rewrite (node_read_meta _ _ _ Hp). pose proof (chase_here t G Hinv l pre post g Hat m key Hr Hh) as Hc.
  destruct (should_chase_right m key) as [next|]; [by eexists|].
  pose proof (np_for _ _ _ Hp) as (_ & _ & _ & Hl). rewrite Hl, Hleaf.
  destruct l as [|l']; [by eexists|]. cbn [Nat.eqb] in *.
  destruct (g_body g) as [|es] eqn:Eb; [done|].
  destruct (child_at_spec _ _ _ _ _ _ (fun e => ie_key e <=? key) Hp Hok) as (b & e & Hch & Hla & Hle & He).
  { intros a b Hab. rewrite !Z.leb_le. lia. }
  unfold find_child_internal. rewrite Hch. eexists. split; [done|].
  apply low_at_split in Hla as (pre' & g' & post' & Hat' & <- & <-).
  exists l', pre', g', post'. split; [done|]. split; [done|]. split; [done|]. split; [done|]. split; [|done].
  destruct He as [->|(x & Hx & ->)]; [done|]. cbn. by apply Z.leb_le.
Qed.

(** Where a descent stops: the leaf that covers the key. *)
Definition covers (key b : Z) : Prop :=
  exists pre g post, G !! 0%nat = Some (pre ++ g :: post) /\ g_blk g = b /\
    ge_low (g_low g) key /\ lt_high key (hd_low post).
End descents.

(** A fetch inside a descent: continue on the same pages, or stop. *)
Lemma wp_fetch {S A} b (t : BTree S) (k : Page -> M S A) Q :
  (forall t', fetched t t' -> wp (k (page_of t b)) t' Q) ->
  (forall t', fetched t t' -> faulty t -> Q (Err BufferPool) t') -> wp (page ← get_page b; k page) t Q.
Proof. intros Hok Herr. wstep. by apply wp_get_page. Qed.

(** The result of a read: the tree is unchanged, and only a fetch can fail. *)
Definition reads {S A} (t : BTree S) (Q : A -> Prop) (r : result A BTreeError) (t' : BTree S) : Prop :=
  fetched t t' /\ match r with Ok a => Q a | Err e => e = BufferPool /\ faulty t end.

Lemma reads_fetched {S A} (t1 t2 : BTree S) (Q : A -> Prop) r t' : fetched t1 t2 -> reads t2 Q r t' -> reads t1 Q r t'.
Proof. intros Hf [Hf' Hr]. split; [by etrans|]. destruct r; [done|]. destruct Hr. split; [done|]. by apply Hf. Qed.

Lemma wp_reads_fetched {S A} (m : M S A) (t1 t2 : BTree S) (Q : A -> Prop) :
  fetched t1 t2 -> wp m t2 (reads t2 Q) -> wp m t2 (reads t1 Q).
Proof. intros Hf Hw. eapply wp_mono; [exact Hw|]. intros r t'. by apply reads_fetched. Qed.

(** Sequencing reads. *)
Lemma wp_bind_reads {S A B} (m : M S A) (k : A -> M S B) (t : BTree S) (P : A -> Prop) (Q : B -> Prop) :
  wp m t (reads t P) -> (forall a t', fetched t t' -> P a -> wp (k a) t' (reads t' Q)) -> wp (m ≫= k) t (reads t Q).
Proof.
  intros Hm Hk. wstep. eapply wp_mono; [exact Hm|]. intros [a|e] t' [Hf Hr]; [|by split].
  eapply wp_reads_fetched; [exact Hf|]. by apply Hk.
Qed.

Lemma wp_get_page_reads {S} b (t : BTree S) : wp (get_page b) t (reads t (fun p => p = page_of t b)).
Proof. apply wp_get_page; by split. Qed.

Lemma reads_ret {S A} (t : BTree S) (Q : A -> Prop) a : Q a -> wp (mret a) t (reads t Q).
Proof. intros. apply wp_ret. by split. Qed.

Lemma descend_to_leaf_spec {S} G fuel : forall (t : BTree S) l pre g post key path,
  tree_inv t G -> G !! l = Some (pre ++ g :: post) -> ge_low (g_low g) key ->
  path_ok G l (g_low g) key (rev path) -> (remaining G l post <= fuel)%nat ->
  wp (descend_to_leaf fuel (g_blk g) key path) t (reads t (fun r =>
    exists pre g post, G !! 0%nat = Some (pre ++ g :: post) /\ g_blk g = r.1 /\ ge_low (g_low g) key /\
      lt_high key (hd_low post) /\ path_ok G 0 (g_low g) key (rev r.2))).
Proof.
  induction fuel as [|fuel IH]; intros t l pre g post key path Hinv Hat Hlow Hpath Hfuel; [unfold remaining in Hfuel; lia|].
  cbn [descend_to_leaf]. eapply wp_bind_reads; [apply wp_get_page_reads|]. intros p t' Hf ->.
  destruct (step_descend_spec t G Hinv l pre g post key Hat Hlow) as (step & Hs & Hstep).
  wstep. apply wp_lift. rewrite Hs. pose proof (tree_inv_fetched _ _ _ Hf Hinv) as Hinv'. destruct step as [next| |child].
  - destruct Hstep as (g' & post' & -> & -> & Hl'). apply (IH t' l (pre ++ [g]) g' post'); [done|by rewrite <- app_assoc|done| |].
    + eapply path_ok_le; [|exact Hpath]. apply (lows_right t G Hinv l pre (g' :: post') g Hat). left.
    + unfold remaining in *. cbn [length] in Hfuel. lia.
  - destruct Hstep as [-> Hhi]. apply reads_ret. cbn. eauto 10.
  - destruct Hstep as (l' & pre' & g' & post' & -> & Hat' & <- & Hle & Hl' & Hhi).
    eapply (IH t' l'); [done|done|done| |].
    + rewrite rev_unit. cbn. exists pre, g, post. done.
    + pose proof (remaining_below _ _ _ _ _ Hat'). unfold remaining in Hfuel. lia.
Qed.

Lemma descend_readonly_spec {S} G fuel : forall (t : BTree S) l pre g post key,
  tree_inv t G -> G !! l = Some (pre ++ g :: post) -> ge_low (g_low g) key -> (remaining G l post <= fuel)%nat ->
  wp (descend_to_leaf_readonly fuel (g_blk g) key) t (reads t (covers G key)).
Proof.
  induction fuel as [|fuel IH]; intros t l pre g post key Hinv Hat Hlow Hfuel; [unfold remaining in Hfuel; lia|].
  cbn [descend_to_leaf_readonly]. eapply wp_bind_reads; [apply wp_get_page_reads|]. intros p t' Hf ->.
  destruct (step_descend_spec t G Hinv l pre g post key Hat Hlow) as (step & Hs & Hstep).
  wstep. apply wp_lift. rewrite Hs. pose proof (tree_inv_fetched _ _ _ Hf Hinv) as Hinv'. destruct step as [next| |child].
  - destruct Hstep as (g' & post' & -> & -> & Hl'). apply (IH t' l (pre ++ [g]) g' post'); [done|by rewrite <- app_assoc|done|].
    unfold remaining in *. cbn [length] in Hfuel. lia.
  - destruct Hstep as [-> Hhi]. apply reads_ret. unfold covers. eauto 10.
  - destruct Hstep as (l' & pre' & g' & post' & -> & Hat' & <- & Hle & Hl' & Hhi).
    eapply (IH t' l'); [done|done|done|]. pose proof (remaining_below _ _ _ _ _ Hat'). unfold remaining in Hfuel. lia.
Qed.

(** The leaf a leftmost descent stops at: every leaf to its left ends below the key. *)
Definition starts (G : list (list gnode)) (key b : Z) : Prop :=
  exists pre g post, G !! 0%nat = Some (pre ++ g :: post) /\ g_blk g = b /\ gt_low (g_low g) key.

Lemma leaf_or_inner {S} (t : BTree S) G l pre g post m :
  tree_inv t G -> G !! l = Some (pre ++ g :: post) -> node_page (page_of t (g_blk g)) m (g_body g) ->
  is_leaf m = (l =? 0)%nat.
Proof.
  intros Hinv Hat Hp. destruct (node_here t G Hinv l pre post g Hat) as (_ & _ & Hleaf).
  pose proof (np_for _ _ _ Hp) as (_ & _ & _ & Hl). by rewrite Hl.
Qed.

Lemma descend_leftmost_spec {S} G fuel : forall (t : BTree S) l pre g post key,
  tree_inv t G -> G !! l = Some (pre ++ g :: post) -> gt_low (g_low g) key -> (remaining G l post <= fuel)%nat ->
  wp (descend_to_leftmost_leaf_for_key fuel (g_blk g) key) t (reads t (starts G key)).
Proof.
  induction fuel as [|fuel IH]; intros t l pre g post key Hinv Hat Hlow Hfuel; [unfold remaining in Hfuel; lia|].
  cbn [descend_to_leftmost_leaf_for_key]. eapply wp_bind_reads; [apply wp_get_page_reads|]. intros p t' Hf ->.
  destruct (page_here t G Hinv l pre post g Hat) as (m & Hp & _ & _ & _).
  wstep. apply wp_lift. rewrite (node_read_meta _ _ _ Hp). rewrite (leaf_or_inner t G l pre g post m Hinv Hat Hp).
  destruct l as [|l']; cbn [Nat.eqb]; [apply reads_ret; unfold starts; eauto 10|].
  destruct (node_here t G Hinv _ pre post g Hat) as (_ & Hok & Hleaf). cbn [Nat.eqb] in Hleaf.
  destruct (g_body g) as [|es] eqn:Eb; [done|].
  destruct (child_at_spec _ _ _ _ _ _ (fun e => ie_key e <? key) Hp Hok) as (b & e & Hch & Hla & Hle & He).
  { intros a b Hab. rewrite !Z.ltb_lt. lia. }
  wstep. apply wp_lift. unfold find_leftmost_child_internal. rewrite Hch.
  apply low_at_split in Hla as (pre' & g' & post' & Hat' & <- & Hge).
  eapply (IH t' l'); [by eapply tree_inv_fetched|done| |].
  - rewrite Hge. destruct He as [->|(x & Hx & ->)]; [done|]. cbn. by apply Z.ltb_lt.
  - pose proof (remaining_below _ _ _ _ _ Hat'). unfold remaining in Hfuel. lia.
Qed.

(** The root covers every key. *)
Lemma root_node {S} (t : BTree S) G : tree_inv t G ->
  exists l g post, G !! l = Some (g :: post) /\ g_blk g = bt_root t /\ g_low g = None /\ Datatypes.S l = length G.
Proof.
  intros Hinv. destruct (ti_root _ _ Hinv) as (G' & g & post & HG & Hb). exists (length G'), g, post.
  assert (G !! length G' = Some (g :: post)) as Hl by (rewrite HG; apply list_lookup_middle; done).
  split; [done|]. split; [done|]. destruct (lo_head _ (ti_lows _ _ Hinv _ _ Hl)) as (g0 & rest & E & Hn & _).
  injection E as -> ->. split; [done|]. rewrite HG, length_app. cbn. lia.
Qed.

(** The first child of the leftmost node is the leftmost node below. *)
Lemma leftmost_child {S} (t : BTree S) G l g post es c0 rest :
  tree_inv t G -> G !! Datatypes.S l = Some (g :: post) -> g_low g = None -> g_body g = InnerB es ->
  es = mk_InternalEntry I64_MIN c0 :: rest ->
  exists g' post', G !! l = Some (g' :: post') /\ g_blk g' = c0 /\ g_low g' = None.
Proof.
  intros Hinv Hat Hn Hb ->. destruct (node_here t G Hinv _ [] post g Hat) as (_ & Hok & _). rewrite Hb, Hn in Hok.
  destruct Hok as (c0' & rest' & [= <- <-] & _ & Hc0 & _). apply low_at_split in Hc0 as (pre & g' & post' & Hg & Hbl & Hlo).
  destruct (lo_head _ (ti_lows _ _ Hinv _ _ Hg)) as (x & r & E & Hx & Hr). destruct pre as [|y pre]; cbn in E, Hg.
  - by exists g', post'.
  - injection E as -> <-. rewrite Forall_forall in Hr. destruct (Hr g' (elem_of_middle _ _ _)) as [z Hz]. congruence.
Qed.

Lemma leftmost_leaf_spec {S} G fuel : forall (t : BTree S) l g post,
  tree_inv t G -> G !! l = Some (g :: post) -> g_low g = None -> (remaining G l post <= fuel)%nat ->
  wp (leftmost_leaf fuel (g_blk g)) t (reads t (fun b => exists g post, G !! 0%nat = Some (g :: post) /\ g_blk g = b)).
Proof.
  induction fuel as [|fuel IH]; intros t l g post Hinv Hat Hlow Hfuel; [unfold remaining in Hfuel; lia|].
  cbn [leftmost_leaf]. eapply wp_bind_reads; [apply wp_get_page_reads|]. intros p t' Hf ->.
  destruct (page_here t G Hinv l [] post g Hat) as (m & Hp & _ & _ & _).
  wstep. apply wp_lift. rewrite (node_read_meta _ _ _ Hp). rewrite (leaf_or_inner t G l [] g post m Hinv Hat Hp).
  destruct l as [|l']; cbn [Nat.eqb]; [apply reads_ret; eauto|].
  destruct (node_here t G Hinv _ [] post g Hat) as (_ & Hok & Hleaf). cbn [Nat.eqb] in Hleaf.
  destruct (g_body g) as [|es] eqn:Eb; [done|]. destruct Hok as (c0 & rest & -> & _).
  wstep. apply wp_lift. rewrite (node_read_inner _ _ _ Hp).
  destruct (leftmost_child t G l' g post _ c0 rest Hinv Hat Hlow Eb eq_refl) as (g' & post' & Hg & Hb & Hn). cbn [ie_child]. rewrite <- Hb.
  eapply (IH t' l'); [by eapply tree_inv_fetched|done|done|].
  pose proof (remaining_below G l' [] g' post' Hg). unfold remaining in Hfuel. lia.
Qed.
