(* ===== verification/BTreeLeaf.v ===== *)
(** * The B-link tree: rewriting a node, splitting it, growing the root

    Every structural change is an instance of [tree_inv_update]: one node of a
    level is replaced by nodes the first of which keeps its block and its low
    fence. *)

From S2P Require Import Prelude CoreIds WalSink Bytes Page PageSpec BtNode BtNodeSpec BTree BTreeInv.

Lemma low_at_mono (bel bel' : list gnode) b e :
  (forall g, g ∈ bel -> exists g', g' ∈ bel' /\ g_blk g' = g_blk g /\ g_low g' = g_low g) ->
  low_at bel b e -> low_at bel' b e.
Proof. intros H (g & Hg & <- & <-). destruct (H g Hg) as (g' & ? & ? & ?). by exists g'. Qed.

Lemma body_ok_mono bel bel' lo hi b :
  (forall b e, low_at bel b e -> low_at bel' b e) -> body_ok bel lo hi b -> body_ok bel' lo hi b.
Proof.
  intros H. destruct b as [es|es]; [done|]. intros (c0 & rest & -> & Hs & H0 & Hr). exists c0, rest.
  split; [done|]. split; [done|]. split; [by apply H|]. eapply Forall_impl; [exact Hr|]. cbn. naive_solver.
Qed.

Lemma on_page_agree ps ps' g post post' :
  ps' !! g_blk g = ps !! g_blk g -> hd_blk post' = hd_blk post -> hd_low post' = hd_low post ->
  on_page ps g post -> on_page ps' g post'.
Proof. intros Hp Hb Hl (p & m & H1 & H2 & H3 & H4). exists p, m. rewrite Hp, Hb, Hl. done. Qed.

Section update.
Context {S : Type} (t t' : BTree S) (G : list (list gnode)) (l : nat) (pre post : list gnode) (g g1 : gnode) (ins : list gnode).
Hypothesis Hinv : tree_inv t G.
Hypothesis Hat : G !! l = Some (pre ++ g :: post).
Hypothesis Hblk : g_blk g1 = g_blk g.
Hypothesis Hlow : g_low g1 = g_low g.

Let c' : list gnode := pre ++ (g1 :: ins) ++ post.
Let G' : list (list gnode) := <[l := c']> G.

Lemma upd_level_length : (l < length G)%nat.
Proof using Hat. by eapply lookup_lt_Some. Qed.

Lemma below_same j : j <> Datatypes.S l -> below G' j = below G j.
Proof using. destruct j as [|j]; [done|]. intros Hj. cbn [below]. unfold G'. rewrite list_lookup_insert_ne by lia. done. Qed.

Lemma low_at_above b e : low_at (below G (Datatypes.S l)) b e -> low_at (below G' (Datatypes.S l)) b e.
Proof using Hat Hblk Hlow.
  cbn [below]. unfold G'. rewrite list_lookup_insert_eq by apply upd_level_length. rewrite Hat. cbn [default].
  apply low_at_mono. intros x Hx. apply elem_of_app in Hx as [Hx|Hx].
  - exists x. split; [apply elem_of_app; by left|done].
  - apply elem_of_cons in Hx as [->|Hx].
    + exists g1. split; [|done]. apply elem_of_app. right. left.
    + exists x. split; [|done]. apply elem_of_app. right. apply elem_of_app. by right.
Qed.

Lemma body_ok_below j lo hi b : body_ok (below G j) lo hi b -> body_ok (below G' j) lo hi b.
Proof using Hat Hblk Hlow.
  destruct (decide (j = Datatypes.S l)) as [->|Hj]; [|by rewrite below_same].
  apply body_ok_mono. apply low_at_above.
Qed.

Lemma blocks_split : exists a b, blocks G = a ++ g_blk g :: b /\ blocks G' ≡ₚ blocks G ++ map g_blk ins.
Proof using Hat Hblk.
  pose proof (take_drop_middle _ _ _ Hat) as HG. pose proof upd_level_length as Hl.
  set (a := map g_blk (concat (take l G)) ++ map g_blk pre). set (b := map g_blk post ++ map g_blk (concat (drop (Datatypes.S l) G))).
  assert (blocks G = a ++ g_blk g :: b) as HB.
  { unfold blocks. rewrite <- HG at 1. rewrite concat_app. cbn [concat]. rewrite !map_app. cbn [map]. unfold a, b.
    by rewrite <- !app_assoc. }
  exists a, b. split; [done|]. rewrite HB. unfold G', blocks. rewrite insert_take_drop by done.
  rewrite concat_app. cbn [concat]. unfold c'. rewrite !map_app. cbn [map]. rewrite Hblk. unfold a, b. rewrite ?map_app, <- !app_assoc. cbn [app].
  apply Permutation_app_head, Permutation_app_head, perm_skip.
  etrans; [apply Permutation_app_comm|]. by rewrite <- app_assoc.
Qed.

Lemma other_block j c x : G !! j = Some c -> x ∈ c -> (j <> l \/ x ∈ pre \/ x ∈ post) -> g_blk x <> g_blk g.
Proof using Hinv Hat.
  intros Hj Hx Hor E. pose proof (ti_nodup _ _ Hinv) as HD. unfold blocks in HD.
  assert (forall A B : list gnode, concat G = A ++ g :: B -> x ∈ A ++ B -> False) as Hno.
  { intros A B HAB Hin. rewrite HAB, map_app in HD. cbn [map] in HD. apply NoDup_app in HD as (_ & Hd1 & Hd2).
    apply NoDup_cons in Hd2 as [Hd2 _]. apply elem_of_app in Hin as [Hin|Hin].
    - apply (Hd1 (g_blk x)); [by apply list_elem_of_fmap_2|]. rewrite E. left.
    - apply Hd2. rewrite <- E. by apply list_elem_of_fmap_2. }
  pose proof (take_drop_middle _ _ _ Hat) as HG.
  assert (concat G = (concat (take l G) ++ pre) ++ g :: (post ++ concat (drop (Datatypes.S l) G))) as HC.
  { rewrite <- HG at 1. rewrite concat_app. cbn [concat]. by rewrite <- !app_assoc. }
  apply (Hno _ _ HC). destruct (decide (j = l)) as [->|Hjl].
  - rewrite Hat in Hj. injection Hj as <-. rewrite !elem_of_app. destruct Hor as [|[?|?]]; [done|by left;right|by right;left].
  - rewrite !elem_of_app. destruct (decide (j < l)%nat).
    + left. left. apply list_elem_of_In, in_concat. exists c. split; apply list_elem_of_In; [|done].
      apply (list_elem_of_lookup_2 _ j). by rewrite lookup_take_lt.
    + right. right. apply list_elem_of_In, in_concat. exists c. split; apply list_elem_of_In; [|done].
      apply (list_elem_of_lookup_2 _ (j - Datatypes.S l)). rewrite lookup_drop. rewrite <- Hj. f_equal. lia.
Qed.

Hypothesis Hpages : forall b, b ∈ blocks G -> b <> g_blk g -> bt_pages t' !! b = bt_pages t !! b.
Hypothesis Hnew : each (fun x p => node_ok (bt_pages t') (below G l) (l =? 0)%nat x (p ++ post)) (g1 :: ins).
Hypothesis Hlows : lows_ok c'.
Hypothesis Hins : NoDup (map g_blk ins) /\ Forall (fun b => bt_next t <= b < bt_next t') (map g_blk ins).
Hypothesis Hroot : bt_root t' = bt_root t.
Hypothesis Hnext : bt_next t <= bt_next t' < U32.
Hypothesis Hvalid : map_Forall (fun _ p => page_valid p) (bt_pages t').

Lemma node_ok_other j c x p p' :
  G !! j = Some c -> x ∈ c -> (j <> l \/ x ∈ pre \/ x ∈ post) -> hd_blk p' = hd_blk p -> hd_low p' = hd_low p ->
  node_ok (bt_pages t) (below G j) (j =? 0)%nat x p -> node_ok (bt_pages t') (below G' j) (j =? 0)%nat x p'.
Proof using Hinv Hat Hblk Hlow Hpages.
  intros Hj Hx Hor Hb Hl (Hon & Hok & Hleaf). split; [|split; [rewrite Hl; by apply body_ok_below|done]].
  eapply on_page_agree; [|exact Hb|exact Hl|exact Hon]. apply Hpages; [by eapply elem_of_blocks|]. by eapply other_block.
Qed.

Lemma update_nodes j c : G' !! j = Some c -> each (node_ok (bt_pages t') (below G' j) (j =? 0)%nat) c.
Proof using Hinv Hat Hblk Hlow Hpages Hnew.
  intros Hj. destruct (decide (j = l)) as [->|Hjl].
  2: { unfold G' in Hj. rewrite list_lookup_insert_ne in Hj by done. eapply each_impl; [by apply (ti_nodes _ _ Hinv)|].
       intros x p Hx. eapply node_ok_other; [exact Hj|done|by left|done|done]. }
  unfold G' in Hj. rewrite list_lookup_insert_eq in Hj by apply upd_level_length. injection Hj as <-.
  pose proof (ti_nodes _ _ Hinv _ _ Hat) as Hold. apply each_app in Hold as [Hpre Hold]. destruct Hold as [_ Hpost].
  unfold c'. rewrite each_app, each_app. split; [|split].
  - eapply each_impl; [exact Hpre|]. intros x p Hx. cbv beta. eapply (node_ok_other l); [exact Hat|by apply elem_of_app; left|by right; left| |].
    + apply hd_blk_app. cbn. done.
    + apply hd_low_app. cbn. done.
  - rewrite below_same by lia. exact Hnew.
  - eapply each_impl; [exact Hpost|]. intros x p Hx. eapply (node_ok_other l); [exact Hat| |by right; right|done|done].
    apply elem_of_app. right. by right.
Qed.

Lemma tree_inv_update : tree_inv t' G'.
Proof using All.
  destruct blocks_split as (a & b & _ & Hperm). constructor.
  - intros j c Hj. destruct (decide (j = l)) as [->|Hjl].
    + unfold G' in Hj. rewrite list_lookup_insert_eq in Hj by apply upd_level_length. by injection Hj as <-.
    + unfold G' in Hj. rewrite list_lookup_insert_ne in Hj by done. by eapply (ti_lows _ _ Hinv).
  - apply update_nodes.
  - destruct (ti_root _ _ Hinv) as (G0 & x & rest & HG & Hx). rewrite Hroot, <- Hx. clear Hnew.
    assert (l = length G0 \/ (l < length G0)%nat) as [Hl|Hl].
    { pose proof upd_level_length as H. rewrite HG, length_app in H. cbn in H. lia. }
    + unfold G'. rewrite HG in Hat |- *. rewrite Hl in Hat |- *. rewrite list_lookup_middle in Hat by done. injection Hat as HatE.
      rewrite insert_app_r_alt by lia. rewrite Nat.sub_diag. cbn. unfold c'.
      destruct pre as [|y pre']; cbn in HatE |- *; injection HatE as -> ->; eauto.
    + exists (<[l := c']> G0), x, rest. split; [|done]. unfold G'. rewrite HG. by rewrite insert_app_l.
  - rewrite Hperm. apply NoDup_app. split; [apply Hinv|]. split; [|apply Hins].
    intros y Hy Hy'. pose proof (ti_range _ _ Hinv) as HR. destruct Hins as [_ HF]. rewrite Forall_forall in HR, HF.
    specialize (HR y Hy). specialize (HF y Hy'). lia.
  - rewrite Hperm. apply Forall_app. split; [eapply Forall_impl; [apply Hinv|]|eapply Forall_impl; [apply Hins|]]; cbn; intros; [lia|].
    pose proof (ti_next _ _ Hinv). lia.
  - pose proof (ti_next _ _ Hinv). lia.
  - exact Hvalid.
Qed.
End update.

(** * The B-link tree: inserting into a leaf

    Rewriting and splitting a leaf as operations on the level of the leaves. *)

(** ** The order of leaf entries *)

Definition lex_before (k r b s k' r' b' s' : Z) : Prop :=
  k < k' \/ (k = k' /\ (r < r' \/ (r = r' /\ (b < b' \/ (b = b' /\ s < s'))))).

Lemma entry_lt_lex e k v :
  entry_lt e k v = true <->
  lex_before (le_key e) (pg_relation (tid_page (le_value e))) (pg_block (tid_page (le_value e))) (tid_slot (le_value e))
             k (pg_relation (tid_page v)) (pg_block (tid_page v)) (tid_slot v).
Proof.
  unfold entry_lt, tid_compare, lex_before. repeat (case_match; rewrite ?Z.compare_eq_iff, ?Z.compare_lt_iff, ?Z.compare_gt_iff in * );
    split; intros; try done; lia.
Qed.

Lemma entry_before_trans a b c : entry_before a b -> entry_before b c -> entry_before a c.
Proof. unfold entry_before. rewrite !entry_lt_lex. unfold lex_before. lia. Qed.

Lemma entry_before_key a b : entry_before a b -> le_key a <= le_key b.
Proof. unfold entry_before. rewrite entry_lt_lex. unfold lex_before. lia. Qed.

Lemma entry_key_before a b : le_key a < le_key b -> entry_before a b.
Proof. unfold entry_before. rewrite entry_lt_lex. unfold lex_before. lia. Qed.

Lemma entry_not_before a b : ~ entry_before a b -> a = b \/ entry_before b a.
Proof.
  unfold entry_before. rewrite !entry_lt_lex. destruct a as [k [[r bl] s]], b as [k' [[r' bl'] s']]. unfold lex_before. cbn.
  intros H. destruct (decide (k = k' /\ r = r' /\ bl = bl' /\ s = s')) as [(-> & -> & -> & ->)|]; [by left|]. right. lia.
Qed.

Lemma leaf_keys_sorted es : StronglySorted entry_before es -> StronglySorted Z.le (map le_key es).
Proof.
  induction 1 as [|e es Hs IH Hf]; cbn; [constructor|]. constructor; [done|]. apply Forall_map.
  eapply Forall_impl; [exact Hf|]. intros x Hx. by apply entry_before_key.
Qed.

Lemma vec_insert_sorted {A} (R : A -> A -> Prop) i x l :
  (forall a b c, R a b -> R b c -> R a c) ->
  StronglySorted R l -> Forall (fun y => R y x) (take i l) -> Forall (R x) (drop i l) -> StronglySorted R (vec_insert i x l).
Proof.
  intros Htr Hs Ht Hd. unfold vec_insert. rewrite <- (take_drop i l), StronglySorted_app in Hs. destruct Hs as (Hx & Hs1 & Hs2).
  apply StronglySorted_app. split; [|split; [done|by constructor]].
  intros a b Ha Hb. rewrite Forall_forall in Ht, Hd. apply elem_of_cons in Hb as [->|Hb]; [by apply Ht|]. by apply Hx.
Qed.

Lemma length_vec_insert {A} i (x : A) l : length (vec_insert i x l) = Datatypes.S (length l).
Proof. unfold vec_insert. rewrite length_app. cbn. rewrite length_take, length_drop. lia. Qed.

Lemma elem_of_vec_insert {A} i (x y : A) l : y ∈ vec_insert i x l <-> y = x \/ y ∈ l.
Proof.
  unfold vec_insert. rewrite <- (take_drop i l) at 3. rewrite !elem_of_app, elem_of_cons. tauto.
Qed.

Lemma Forall_vec_insert {A} (P : A -> Prop) i x l : P x -> Forall P l -> Forall P (vec_insert i x l).
Proof. rewrite !Forall_forall. intros Hx Hl y Hy. apply elem_of_vec_insert in Hy as [->|Hy]; auto. Qed.

(** ** The position of a new entry *)

Record new_slot (es : list LeafEntry) (e : LeafEntry) (dup : bool) (i : nat) : Prop := {
  ns_before : Forall (fun y => entry_before y e) (take i es);
  ns_after : Forall (entry_before e) (drop i es);
  ns_unique : dup = false -> Forall (fun y => le_key y <> le_key e) es;
}.

(** The collision a leaf reports. *)
Definition collides (es : list LeafEntry) (e : LeafEntry) (dup : bool) : Prop :=
  if dup then e ∈ es else exists y, y ∈ es /\ le_key y = le_key e.

Lemma leaf_position_spec {S} (t : BTree S) es key value dup :
  StronglySorted entry_before es ->
  wp (leaf_position es key value dup) t (fun r t' => t' = t /\
    match r with
    | Ok i => new_slot es (mk_LeafEntry key value) dup i
    | Err e => e = DuplicateKey /\ collides es (mk_LeafEntry key value) dup
    end).
Proof.
  intros Hs. unfold leaf_position. set (e := mk_LeafEntry key value).
  assert (forall i j a b, (i <= j)%nat -> es !! i = Some a -> es !! j = Some b -> a = b \/ entry_before a b) as Hij.
  { intros i j a b Hle Ha Hb. destruct (decide (i = j)) as [->|]; [left; congruence|]. right.
    eapply (StronglySorted_app_1_elem_of entry_before (take j es) (drop j es)); [by rewrite take_drop| |].
    - apply (list_elem_of_lookup_2 _ i). rewrite lookup_take_lt by lia. done.
    - apply (list_elem_of_lookup_2 _ 0). rewrite lookup_drop, Nat.add_0_r. done. }
  destruct dup.
  - destruct (partition_point_spec (fun x => entry_lt x key value) es) as (Hn & Ht & Hd).
    { intros i j a b Hle Ha Hb Hlt. destruct (Hij i j a b Hle Ha Hb) as [->|Hab]; [done|].
      change (entry_before a e). by eapply entry_before_trans. }
    set (pos := partition_point _ es) in *.
    destruct (es !! pos) as [x|] eqn:Ex.
    + case_bool_decide as Heq.
      * split; [done|]. split; [done|]. cbn. destruct Heq as [<- <-]. replace e with x by (by destruct x). by eapply list_elem_of_lookup_2.
      * split; [done|]. constructor; [done| |done].
        assert (Hxe : entry_before e x).
        { rewrite (drop_S es x pos Ex) in Hd. apply Forall_cons in Hd as [Hx _].
          destruct (entry_not_before x e) as [->|H]; [unfold entry_before; cbn; by rewrite Hx|by destruct Heq|done]. }
        rewrite (drop_S es x pos Ex). constructor; [done|]. apply Forall_lookup_2. intros k y Hy. rewrite lookup_drop in Hy.
        destruct (Hij pos (Datatypes.S pos + k)%nat x y ltac:(lia) Ex Hy) as [<-|H]; [done|]. by eapply entry_before_trans.
    + split; [done|]. constructor; [done| |done]. rewrite drop_ge; [constructor|]. by apply lookup_ge_None.
  - pose proof (binary_search_by_spec (fun x => le_key x ?= key) es) as Hb. destruct (binary_search_by _ es) as [i|i].
    + destruct Hb as (y & Hy & Hc); [|split; [done|]; split; [done|]; exists y; split; [by eapply list_elem_of_lookup_2|by apply Z.compare_eq_iff]].
      intros i' j a b Hle Ha Hb. pose proof (sorted_keys_mono le_key es i' j a b (leaf_keys_sorted es Hs) Hle Ha Hb).
      destruct (Z.compare_spec (le_key a) key), (Z.compare_spec (le_key b) key); cbn; (done || lia).
    + destruct Hb as (Hi & Ht & Hd).
      { intros i' j a b Hle Ha Hb. pose proof (sorted_keys_mono le_key es i' j a b (leaf_keys_sorted es Hs) Hle Ha Hb).
        destruct (Z.compare_spec (le_key a) key), (Z.compare_spec (le_key b) key); cbn; (done || lia). }
      split; [done|]. constructor.
      * eapply Forall_impl; [exact Ht|]. intros x Hx. apply entry_key_before. by apply Z.compare_lt_iff.
      * eapply Forall_impl; [exact Hd|]. intros x Hx. apply entry_key_before. cbn. by apply Z.compare_gt_iff in Hx; lia.
      * intros _. rewrite <- (take_drop i es). apply Forall_app. split.
        -- eapply Forall_impl; [exact Ht|]. change (le_key e) with key. cbn. intros x Hx E. by rewrite E, Z.compare_refl in Hx.
        -- eapply Forall_impl; [exact Hd|]. change (le_key e) with key. cbn. intros x Hx E. by rewrite E, Z.compare_refl in Hx.
Qed.

(** ** Writing a leaf through its guard *)

Definition store {S} (t : BTree S) (b : Z) (p : Page) : BTree S := with_pages t (<[b := p]> (bt_pages t)).

Lemma store_store {S} (t : BTree S) b p q : store (store t b p) b q = store t b q.
Proof. unfold store, with_pages. cbn. by rewrite insert_insert_eq. Qed.

Lemma wp_put {S A} b p (k : M S A) t Q : wp k (store t b p) Q -> wp (put_page b p;; k) t Q.
Proof. done. Qed.

Lemma wp_u16 {S A B} (l : list A) what (k : Z -> M S B) t Q :
  Z.of_nat (length l) < U16 -> wp (k (Z.of_nat (length l))) t Q -> wp (n ← u16_len l what; k n) t Q.
Proof. intros Hl Hk. wstep. unfold u16_len. rewrite (proj2 (Z.ltb_lt _ _)) by done. by apply wp_lift. Qed.

Lemma wp_store_leaf {S A} (t : BTree S) b w es (f : Z -> NodeMeta) what (k : M S A) Q :
  page_valid w -> meta_for (f (Z.of_nat (length es))) (LeafB es) -> Forall leaf_fits es ->
  (forall p, node_page p (f (Z.of_nat (length es))) (LeafB es) -> wp k (store t b p) Q) ->
  wp (w1 ← or_panic (write_leaf_entries w es); put_page b w1;; n ← u16_len es what;
      put_page b (NodeMeta_write (f n) w1);; k) t Q.
Proof.
  intros Hv Hm Hf Hk. destruct (write_leaf_node w _ es Hv Hm Hf) as (p1 & Hw & _ & Hn).
  wstep. apply (wp_or_panic p1); [done|]. apply wp_put. apply wp_u16.
  { destruct Hm as (_ & _ & Hmax & _). cbn [body_len body_max] in Hmax. unfold MAX_LEAF_ENTRIES, U16 in *. lia. }
  apply wp_put. rewrite store_store. by apply Hk.
Qed.

Lemma wp_store_inner {S A} (t : BTree S) b w es (f : Z -> NodeMeta) what (k : M S A) Q :
  page_valid w -> meta_for (f (Z.of_nat (length es))) (InnerB es) -> Forall inner_fits es ->
  (forall p, node_page p (f (Z.of_nat (length es))) (InnerB es) -> wp k (store t b p) Q) ->
  wp (w1 ← or_panic (write_internal_entries w es); put_page b w1;; n ← u16_len es what;
      put_page b (NodeMeta_write (f n) w1);; k) t Q.
Proof.
  intros Hv Hm Hf Hk. destruct (write_inner_node w _ es Hv Hm Hf) as (p1 & Hw & _ & Hn).
  wstep. apply (wp_or_panic p1); [done|]. apply wp_put. apply wp_u16.
  { destruct Hm as (_ & _ & Hmax & _). cbn [body_len body_max] in Hmax. unfold MAX_INTERNAL_ENTRIES, U16 in *. lia. }
  apply wp_put. rewrite store_store. by apply Hk.
Qed.

Lemma wp_init_page {S A} (t : BTree S) b p m (k : Page -> M S A) Q :
  page_valid p -> (forall p', page_valid p' -> wp (k p') (store t b p') Q) -> wp (q ← init_page b p m; k q) t Q.
Proof.
  intros Hv Hk. destruct (init_valid p m Hv) as (p' & Hi & Hv'). wstep. unfold init_page. wstep.
  apply (wp_or_panic (Ok tt, p')); [done|]. apply wp_put. wstep. apply wp_lift. apply wp_ret. by apply Hk.
Qed.

(** ** Rewriting and splitting a node *)

Lemma tree_inv_next {S} (t t' : BTree S) G :
  tree_inv t G -> bt_pages t' = bt_pages t -> bt_root t' = bt_root t -> bt_next t <= bt_next t' < U32 -> tree_inv t' G.
Proof.
  intros [L N R D B X V] Hp Hr Hn. constructor; rewrite ?Hp, ?Hr; try done; [|lia].
  eapply Forall_impl; [exact B|]. cbn. lia.
Qed.

Section rewrite.
Context {S : Type} (t t' : BTree S) (G : list (list gnode)) (l : nat) (pre post : list gnode) (g : gnode).
Hypothesis Hinv : tree_inv t G.
Hypothesis Hat : G !! l = Some (pre ++ g :: post).
Hypothesis Hroot : bt_root t' = bt_root t.

Lemma insert_valid (ps : gmap Z Page) b p :
  map_Forall (fun _ p => page_valid p) ps -> page_valid p -> map_Forall (fun _ p => page_valid p) (<[b := p]> ps).
Proof using. intros Hps Hp. by apply map_Forall_insert_2. Qed.

Lemma rewrite_node b' p' m' :
  bt_pages t' = <[g_blk g := p']> (bt_pages t) -> bt_next t <= bt_next t' < U32 ->
  node_page p' m' b' -> right_link m' = hd_blk post -> node_high m' = hd_low post ->
  body_ok (below G l) (g_low g) (hd_low post) b' -> body_leaf b' = (l =? 0)%nat ->
  tree_inv t' (<[l := pre ++ mk_gnode (g_blk g) (g_low g) b' :: post]> G).
Proof using Hinv Hat Hroot.
  intros Hp Hn Hpg Hr Hh Hok Hleaf.
  apply (tree_inv_update t t' G l pre post g (mk_gnode (g_blk g) (g_low g) b') []); try done.
  - intros b _ Hb. rewrite Hp. by rewrite lookup_insert_ne.
  - cbn. split; [|done]. split; [|done]. exists p', m'. cbn. rewrite Hp, lookup_insert_eq. done.
  - destruct (ti_lows _ _ Hinv _ _ Hat) as [Hs Hhd]. constructor.
    + rewrite map_app in Hs |- *. exact Hs.
    + destruct Hhd as (g0 & rest & E & Hn0 & Hf). destruct pre as [|x pre']; cbn in E |- *; injection E as -> <-; [by eauto|].
      exists g0. eexists. split; [done|]. split; [done|]. rewrite !Forall_app, !Forall_cons in *. cbn. done.
  - split; constructor.
  - rewrite Hp. apply insert_valid; [apply Hinv|apply Hpg].
Qed.

Lemma split_node b1 b2 p1 m1 p2 m2 sep :
  bt_pages t' = <[g_blk g := p1]> (<[bt_next t := p2]> (bt_pages t)) -> bt_next t' = bt_next t + 1 -> bt_next t + 1 < U32 ->
  node_page p1 m1 b1 -> right_link m1 = bt_next t -> node_high m1 = Some sep ->
  node_page p2 m2 b2 -> right_link m2 = hd_blk post -> node_high m2 = hd_low post ->
  body_ok (below G l) (g_low g) (Some sep) b1 -> body_ok (below G l) (Some sep) (hd_low post) b2 ->
  body_leaf b1 = (l =? 0)%nat -> body_leaf b2 = (l =? 0)%nat ->
  ge_low (g_low g) sep -> le_high sep (hd_low post) ->
  tree_inv t' (<[l := pre ++ mk_gnode (g_blk g) (g_low g) b1 :: mk_gnode (bt_next t) (Some sep) b2 :: post]> G).
Proof using Hinv Hat Hroot.
  intros Hp Hn Hw Hp1 Hr1 Hh1 Hp2 Hr2 Hh2 Hok1 Hok2 Hl1 Hl2 Hlo Hhi.
  assert (g_blk g < bt_next t) as Hgb by (eapply (blk_range t G Hinv); [exact Hat|apply elem_of_middle]).
  pose proof (ti_next _ _ Hinv) as Hnx.
  apply (tree_inv_update t t' G l pre post g (mk_gnode (g_blk g) (g_low g) b1) [mk_gnode (bt_next t) (Some sep) b2]); try done.
  - intros b Hb Hne. rewrite Hp, lookup_insert_ne by done. rewrite lookup_insert_ne; [done|].
    pose proof (ti_range _ _ Hinv) as HR. rewrite Forall_forall in HR. specialize (HR b Hb). lia.
  - cbn. split; [|split; [|done]].
    + split; [|done]. exists p1, m1. cbn. rewrite Hp, lookup_insert_eq. done.
    + split; [|done]. exists p2, m2. cbn. rewrite Hp, lookup_insert_ne, lookup_insert_eq by lia. done.
  - destruct (ti_lows _ _ Hinv _ _ Hat) as [Hs Hhd]. constructor.
    + rewrite !map_app in Hs |- *. cbn [map app g_low] in *. rewrite StronglySorted_app in Hs |- *.
      destruct Hs as (Hx & Hs1 & Hs2). apply StronglySorted_inv in Hs2 as [Hs2 Hf2].
      assert (Forall (low_le (Some sep)) (map g_low post)) as Hpost.
      { apply Forall_map, Forall_forall. intros y Hy. destruct post as [|z post']; [by apply not_elem_of_nil in Hy|]. cbn [hd_low] in Hhi.
        pose proof (next_low t G Hinv l pre (z :: post') g Hat) as [h Hz]. cbn in Hz. rewrite Hz in Hhi. cbn in Hhi.
        assert (low_le (Some h) (g_low y)) as Hzy.
        { rewrite <- Hz. apply elem_of_cons in Hy as [->|Hy]; [reflexivity|].
          eapply (lows_right t G Hinv l (pre ++ [g]) post' z); [by rewrite <- app_assoc|done]. }
        destruct (g_low y); cbn in *; [lia|done]. }
      assert (low_le (g_low g) (Some sep)) as Hgs by (destruct (g_low g); done).
      split; [|split; [done|]].
      * intros a b Ha Hb. apply elem_of_cons in Hb as [->|Hb]; [apply Hx; [done|left]|].
        apply elem_of_cons in Hb as [->|Hb]; [|apply Hx; [done|by right]].
        etrans; [apply (Hx a (g_low g)); [done|left]|done].
      * constructor; [by constructor|]. constructor; [done|]. eapply Forall_impl; [exact Hpost|]. intros y Hy. by etrans.
    + destruct Hhd as (g0 & rest & E & Hn0 & Hf). destruct pre as [|x pre']; cbn in E |- *; injection E as -> <-.
      * eexists. eexists. split; [done|]. cbn. split; [done|]. by constructor.
      * exists g0. eexists. split; [done|]. split; [done|]. rewrite !Forall_app, !Forall_cons in *. cbn. naive_solver.
  - cbn. split; [repeat constructor; set_solver|]. constructor; [lia|constructor].
  - rewrite Hn. lia.
  - rewrite Hp. apply insert_valid; [apply insert_valid; [apply Hinv|apply Hp2]|apply Hp1].
Qed.
End rewrite.

(** ** Inserting into the leaf that covers the key *)

Lemma wp_allocate {S A} (k : Z -> M S A) (t : BTree S) Q :
  bt_next t + 1 < U32 -> 0 < bt_next t -> wp (k (bt_next t)) (with_next t (bt_next t + 1)) Q -> wp (b ← allocate_block; k b) t Q.
Proof.
  intros Hn H0 Hk. wstep. unfold wp, allocate_block, wrapping_add, wrap. rewrite Z.mod_small by lia. exact Hk.
Qed.

Lemma meta_flags_leaf rl hk lv n : is_leaf (mk_NodeMeta rl hk lv n (Z.lor FLAG_LEAF FLAG_HAS_HIGH_KEY)) = true.
Proof. done. Qed.

(** The leaf written by an insertion without a split. *)
Lemma leaf_insert_body bel lo hi es e dup i :
  body_ok bel lo hi (LeafB es) -> new_slot es e dup i -> ge_low lo (le_key e) -> lt_high (le_key e) hi ->
  body_ok bel lo hi (LeafB (vec_insert i e es)).
Proof.
  intros [Hs Hf] [Hb Ha _] Hlo Hhi. split; [apply vec_insert_sorted; [apply entry_before_trans|done|done|done]|].
  apply Forall_vec_insert; [|done]. split; [done|]. destruct hi; cbn in *; [lia|done].
Qed.

(** The halves of a leaf around the separator. *)
Lemma leaf_halves bel lo hi es mid first :
  body_ok bel lo hi (LeafB es) -> head (drop mid es) = Some first ->
  body_ok bel lo (Some (le_key first)) (LeafB (take mid es)) /\ body_ok bel (Some (le_key first)) hi (LeafB (drop mid es)) /\
  ge_low lo (le_key first) /\ le_high (le_key first) hi.
Proof.
  intros [Hs Hf] Hfirst. destruct (drop mid es) as [|x rest] eqn:Ed; [done|]. injection Hfirst as ->.
  rewrite <- (take_drop mid es), Ed in Hs, Hf. rewrite StronglySorted_app in Hs. destruct Hs as (Hx & Hs1 & Hs2).
  apply Forall_app in Hf as [Hf1 Hf2]. pose proof (Forall_inv Hf2) as [Hlo Hhi].
  split; [|split; [|done]].
  - split; [done|]. apply Forall_forall. intros y Hy. rewrite Forall_forall in Hf1. split; [by apply Hf1|]. cbn.
    apply entry_before_key. apply Hx; [done|left].
  - split; [done|]. apply StronglySorted_inv in Hs2 as [_ Hlt]. constructor; [split; [cbn; lia|done]|].
    apply Forall_cons in Hf2 as [_ Hf2]. apply Forall_forall. intros y Hy. rewrite Forall_forall in Hf2, Hlt.
    split; [cbn; apply entry_before_key; by apply Hlt|by apply Hf2].
Qed.

Definition leaf_insert_post {S} (t : BTree S) (G : list (list gnode)) (pre : list gnode) (g : gnode) (post : list gnode)
    (es : list LeafEntry) (e : LeafEntry) (dup : bool) (r : result LeafInsertOutcome BTreeError) (t' : BTree S) : Prop :=
  (faulty t' -> faulty t) /\
  match r with
  | Ok (LChaseRight next) => t' = t /\ exists g' post', post = g' :: post' /\ next = g_blk g' /\ ge_low (g_low g') (le_key e)
  | Ok Inserted => lt_high (le_key e) (hd_low post) /\ bt_next t' = bt_next t /\ exists i, new_slot es e dup i /\
      tree_inv t' (<[0%nat := pre ++ mk_gnode (g_blk g) (g_low g) (LeafB (vec_insert i e es)) :: post]> G)
  | Ok (Split sep nb) => lt_high (le_key e) (hd_low post) /\ bt_next t' = bt_next t + 1 /\ nb = bt_next t /\
      ge_low (g_low g) sep /\ le_high sep (hd_low post) /\
      exists i left right, new_slot es e dup i /\ left ++ right = vec_insert i e es /\
        (exists first rest, right = first :: rest /\ le_key first = sep) /\
        tree_inv t' (<[0%nat := pre ++ mk_gnode (g_blk g) (g_low g) (LeafB left) ::
                                     mk_gnode nb (Some sep) (LeafB right) :: post]> G)
  | Err err => lt_high (le_key e) (hd_low post) /\ bt_next t <= bt_next t' <= bt_next t + 1 /\ tree_inv t' G /\
      ((err = DuplicateKey /\ collides es e dup /\ t' = t) \/ (err = BufferPool /\ faulty t))
  end.

Lemma try_leaf_insert_spec {S} (t : BTree S) G pre g post es key value dup :
  tree_inv t G -> G !! 0%nat = Some (pre ++ g :: post) -> g_body g = LeafB es -> ge_low (g_low g) key ->
  leaf_fits (mk_LeafEntry key value) -> bt_next t + 1 < U32 ->
  wp (try_leaf_insert (g_blk g) (page_of t (g_blk g)) key value dup) t
     (leaf_insert_post t G pre g post es (mk_LeafEntry key value) dup).
Proof.
  intros Hinv Hat Hb Hlow Hfits Hroom. set (e := mk_LeafEntry key value) in *.
  destruct (page_here t G Hinv 0 pre post g Hat) as (m & Hp & Hr & Hh & _).
  destruct (node_here t G Hinv 0 pre post g Hat) as (_ & Hok & _). rewrite Hb in *.
  pose proof (ti_next _ _ Hinv) as Hnx. pose proof (np_for _ _ _ Hp) as ((Hm1 & Hm2 & Hm3 & Hm4) & Hn & Hmax & Hlf).
  pose proof (np_fits _ _ _ Hp) as Hbf. cbn [body_fits body_len body_max] in *.
  unfold try_leaf_insert. wstep. apply wp_lift. rewrite (node_read_meta _ _ _ Hp).
  pose proof (chase_here t G Hinv 0 pre post g Hat m key Hr Hh) as Hc.
  destruct (should_chase_right m key) as [next|]; [apply wp_ret; split; [done|]; done|].
  wstep. apply wp_lift. rewrite (node_read_leaf _ _ _ Hp). wstep.
  eapply wp_mono; [apply leaf_position_spec; apply Hok|]. fold e. intros [i|err] t1 [-> Hpos].
  2: { destruct Hpos as [-> Hcol]. split; [done|]. split; [done|]. split; [lia|]. split; [done|]. by left. }
  pose proof (leaf_insert_body _ _ _ _ e dup i Hok Hpos Hlow Hc) as Hall.
  pose proof (Forall_vec_insert _ i e es Hfits Hbf) as Hallf.
  set (all := vec_insert i e es) in *. pose proof (length_vec_insert i e es : length all = _) as Hlen.
  rewrite Hn. destruct (Z.ltb_spec (Z.of_nat (length es)) MAX_LEAF_ENTRIES) as [Hlt|Hge].
  - apply (wp_store_leaf t (g_blk g) _ all (with_n_keys m)); [apply Hp| |done|].
    { split; [done|]. split; [done|]. split; [cbn [body_len body_max]; lia|done]. }
    intros p Hnp. apply wp_ret. split; [done|]. split; [done|]. split; [done|]. exists i. split; [done|].
    eapply (rewrite_node t _ G 0); [done|done|done|done|cbn; lia|exact Hnp|done|exact Hh|done|done].
  - unfold MAX_LEAF_ENTRIES in *. assert (length es = 32%nat) as H32 by lia. rewrite H32 in Hlen.
    assert (length all / 2 = 16)%nat as Hmid by (rewrite Hlen; done). rewrite Hmid.
    destruct (drop 16 all) as [|first rest] eqn:Ed.
    { apply (f_equal length) in Ed. rewrite length_drop in Ed. cbn in Ed. lia. }
    assert (length (drop 16 all) = 17%nat) as Hl2 by (rewrite length_drop; lia). rewrite Ed in Hl2.
    assert (length (take 16 all) = 16%nat) as Hl1 by (rewrite length_take; lia).
    destruct (leaf_halves _ _ _ all 16 first Hall ltac:(by rewrite Ed)) as (Hok1 & Hok2 & Hslo & Hshi). rewrite Ed in Hok2.
    assert (Forall leaf_fits (take 16 all) /\ Forall leaf_fits (first :: rest)) as [Hf1 Hf2].
    { rewrite <- Ed. auto using Forall_take, Forall_drop. }
    pose proof (Forall_inv Hf2) as [Hsep64 _].
    wstep. apply (wp_or_panic first); [done|]. apply wp_allocate; [lia|lia|]. apply wp_fetch.
    2: { intros t' Hf Hfa. split; [intros Hx; by apply Hf in Hx|]. pose proof (fe_next _ _ Hf) as Hfn. cbn in Hfn. split; [done|]. split; [lia|].
         split; [|by right]. eapply (tree_inv_next t); [done|by rewrite (fe_pages _ _ Hf)|by rewrite (fe_root _ _ Hf)|lia]. }
    intros t1 Hf1t. apply wp_u16; [rewrite Hl2; done|]. cbv zeta. set (mr := mk_NodeMeta _ _ _ _ _).
    assert (Hmr : meta_for mr (LeafB (first :: rest))).
    { split; [|split; [done|split; [cbn [body_len body_max]; rewrite Hl2; done|by unfold mr, is_leaf; cbn; destruct (has_high_key m)]]].
      split; [done|]. split; [cbn; by destruct (has_high_key m)|]. split; [done|]. cbn. by destruct (has_high_key m). }
    apply wp_init_page.
    { unfold page_of. destruct (bt_pages _ !! _) as [q|] eqn:Eq; [|apply new_heap_valid].
      cbn in Eq |- *. by apply (ti_valid _ _ Hinv) in Eq. }
    intros p' Hp'. destruct (write_leaf_node p' mr (first :: rest) Hp' Hmr Hf2) as (rp2 & Hw2 & _ & Hnp2).
    wstep. apply (wp_or_panic rp2); [done|]. apply wp_put. rewrite store_store.
    set (f := fun n => mk_NodeMeta (bt_next t) (le_key first) 0 n (Z.lor FLAG_LEAF FLAG_HAS_HIGH_KEY)).
    apply (wp_store_leaf _ (g_blk g) _ (take 16 all) f); [apply Hp| |done|].
    { split; [|split; [done|split; [cbn [body_len body_max]; rewrite Hl1; done|done]]]. split; [cbn; unfold in_width; lia|]. done. }
    intros p1 Hnp1. apply wp_ret. split; [exact (fe_faulty _ _ Hf1t)|]. split; [done|].
    pose proof (fe_next _ _ Hf1t) as Hfn. pose proof (fe_pages _ _ Hf1t) as Hfp. pose proof (fe_root _ _ Hf1t) as Hfr. cbn in Hfn, Hfp, Hfr.
    split; [cbn; lia|]. split; [done|]. split; [done|]. split; [done|].
    exists i, (take 16 all), (first :: rest). split; [done|]. split; [rewrite <- Ed; apply take_drop|]. split; [eauto|].
    eapply (split_node t _ G 0); [done|done|cbn; by rewrite Hfr|cbn; by rewrite Hfp|cbn; lia|lia|exact Hnp1|done|done|exact Hnp2|done| |done..].
    rewrite <- Hh. unfold node_high, mr. cbn. by destruct (has_high_key m).
Qed.
