(* ===== verification/BTreeInner.v ===== *)
(** * The B-link tree: propagating a split

    Inserting a separator into an internal node, splitting that node, and
    growing the tree by one level below the stable root block. *)

From S2P Require Import Prelude CoreIds WalSink Bytes Page PageSpec BtNode BtNodeSpec BTree BTreeInv BTreeLeaf.

Lemma sorted_insert_key (rest : list InternalEntry) e i :
  StronglySorted Z.le (map ie_key rest) ->
  Forall (fun y => ie_key y <= ie_key e) (take i rest) -> Forall (fun y => ie_key e <= ie_key y) (drop i rest) ->
  StronglySorted Z.le (map ie_key (vec_insert i e rest)).
Proof.
  intros Hs Ht Hd. unfold vec_insert. rewrite map_app, StronglySorted_app. cbn [map].
  rewrite <- (take_drop i rest), map_app, StronglySorted_app in Hs. destruct Hs as (Hx & Hs1 & Hs2).
  split; [|split; [done|constructor; [done|by apply Forall_map]]].
  intros a b Ha Hb. apply elem_of_cons in Hb as [->|Hb]; [|by apply Hx].
  apply list_elem_of_fmap in Ha as (y & -> & Hy). rewrite Forall_forall in Ht. by apply Ht.
Qed.

(** The entries after a separator is added. *)
Lemma inner_insert_body bel lo hi es sep b :
  body_ok bel lo hi (InnerB es) -> Forall inner_fits es -> in_i64 sep ->
  ge_low lo sep -> le_high sep hi -> low_at bel b (Some sep) ->
  body_ok bel lo hi (InnerB (vec_insert (partition_point (fun e => ie_key e <=? sep) es) (mk_InternalEntry sep b) es)).
Proof.
  intros (c0 & rest & -> & Hs & H0 & Hr) Hf Hsep Hlo Hhi Hat. apply Forall_cons in Hf as [_ Hf].
  pose proof (sorted_cons_min rest c0 Hs Hf) as Hss. set (es := mk_InternalEntry I64_MIN c0 :: rest) in *.
  destruct (partition_point_spec (fun e => ie_key e <=? sep) es) as (Hn & Ht & Hd).
  { intros i j x y Hij Hx Hy. rewrite !Z.leb_le. pose proof (sorted_keys_mono ie_key es i j x y Hss Hij Hx Hy). lia. }
  set (n := partition_point _ es) in *. destruct n as [|n].
  { rewrite drop_0 in Hd. apply Forall_cons in Hd as [Hd _]. cbn in Hd. apply Z.leb_gt in Hd. unfold in_i64, I64_MIN in *. lia. }
  exists c0, (vec_insert n (mk_InternalEntry sep b) rest). split; [done|]. cbn [es take drop] in Ht, Hd. apply Forall_cons in Ht as [_ Ht].
  split; [|split; [done|]].
  - apply sorted_insert_key; [done| |].
    + eapply Forall_impl; [exact Ht|]. cbn. intros y Hy. by apply Z.leb_le.
    + eapply Forall_impl; [exact Hd|]. cbn. intros y Hy. apply Z.leb_gt in Hy. lia.
  - by apply Forall_vec_insert.
Qed.

(** The halves of an internal node: the separator leaves the right half. *)
Lemma inner_halves bel lo hi es mid first :
  body_ok bel lo hi (InnerB es) -> (0 < mid)%nat -> head (drop mid es) = Some first ->
  body_ok bel lo (Some (ie_key first)) (InnerB (take mid es)) /\
  body_ok bel (Some (ie_key first)) hi (InnerB (with_min_first (drop mid es))) /\
  ge_low lo (ie_key first) /\ le_high (ie_key first) hi.
Proof.
  intros (c0 & rest & -> & Hs & H0 & Hr) Hmid. destruct mid as [|mid]; [lia|]. cbn [take drop].
  destruct (drop mid rest) as [|x tl] eqn:Ed; [done|]. intros [= ->].
  rewrite <- (take_drop mid rest), Ed in Hs, Hr. rewrite map_app, StronglySorted_app in Hs. destruct Hs as (Hx & Hs1 & Hs2).
  apply Forall_app in Hr as [Hr1 Hr2]. apply Forall_cons in Hr2 as [(Hlo & Hhi & Hat) Hr2].
  cbn [map] in Hs2. apply StronglySorted_inv in Hs2 as [Hs2 Hge]. rewrite Forall_map in Hge.
  split; [|split; [|done]].
  - exists c0, (take mid rest). split; [done|]. split; [done|]. split; [done|].
    apply Forall_forall. intros y Hy. rewrite Forall_forall in Hr1. destruct (Hr1 y Hy) as (? & ? & ?).
    split; [done|]. split; [|done]. cbn. apply Hx; [by apply list_elem_of_fmap_2|left].
  - exists (ie_child first), tl. split; [done|]. split; [done|]. split; [done|].
    apply Forall_forall. intros y Hy. rewrite Forall_forall in Hr2, Hge. destruct (Hr2 y Hy) as (? & ? & ?).
    split; [cbn; by apply Hge|done].
Qed.

Definition inner_insert_post {S} (t : BTree S) (G : list (list gnode)) (l : nat) (pre : list gnode) (g : gnode)
    (post : list gnode) (r : result (option (Z * Z)) BTreeError) (t' : BTree S) : Prop :=
  (faulty t' -> faulty t) /\ bt_next t <= bt_next t' <= bt_next t + 1 /\
  match r with
  | Ok None => exists es', tree_inv t' (<[l := pre ++ mk_gnode (g_blk g) (g_low g) (InnerB es') :: post]> G)
  | Ok (Some (sep, nb)) => in_i64 sep /\ ge_low (g_low g) sep /\ le_high sep (hd_low post) /\
      exists es1 es2, tree_inv t' (<[l := pre ++ mk_gnode (g_blk g) (g_low g) (InnerB es1) ::
                                               mk_gnode nb (Some sep) (InnerB es2) :: post]> G)
  | Err err => err = BufferPool /\ faulty t /\ tree_inv t' G
  end.

Lemma with_min_first_fits es : Forall inner_fits es -> Forall inner_fits (with_min_first es).
Proof.
  destruct es as [|e es]; [done|]. cbn. rewrite !Forall_cons. intros [[_ Hc] Hf]. split; [split; [|done]|done].
  unfold in_i64, I64_MIN. cbn. lia.
Qed.

Lemma length_with_min_first es : length (with_min_first es) = length es.
Proof. by destruct es. Qed.

Lemma insert_into_internal_spec {S} (t : BTree S) G l pre g post sep b :
  tree_inv t G -> G !! Datatypes.S l = Some (pre ++ g :: post) -> in_i64 sep -> in_width U32 b ->
  ge_low (g_low g) sep -> le_high sep (hd_low post) -> low_at (below G (Datatypes.S l)) b (Some sep) -> bt_next t + 1 < U32 ->
  wp (insert_into_internal (g_blk g) sep b) t (inner_insert_post t G (Datatypes.S l) pre g post).
Proof.
  intros Hinv Hat Hsep Hbw Hlo Hhi Hch Hroom. pose proof (ti_next _ _ Hinv) as Hnx.
  destruct (page_here t G Hinv _ pre post g Hat) as (m & Hp & Hr & Hh & _).
  destruct (node_here t G Hinv _ pre post g Hat) as (_ & Hok & Hleaf). cbn [Nat.eqb] in Hleaf.
  destruct (g_body g) as [|es] eqn:Hb; [done|].
  pose proof (np_for _ _ _ Hp) as ((Hm1 & Hm2 & Hm3 & Hm4) & Hn & Hmax & Hlf).
  pose proof (np_fits _ _ _ Hp) as Hbf. cbn [body_fits body_len body_max] in *.
  unfold insert_into_internal. apply wp_fetch.
  2: { intros t' Hf Hfa. split; [apply Hf|]. split; [rewrite (fe_next _ _ Hf); lia|]. split; [done|]. split; [done|]. by eapply tree_inv_fetched. }
  intros t0 Hf0. pose proof (tree_inv_fetched _ _ _ Hf0 Hinv) as Hinv0. pose proof (fe_next _ _ Hf0) as Hn0.
  pose proof (fe_faulty _ _ Hf0) as Hfa0.
  unfold try_internal_insert. wstep. apply wp_lift. rewrite (node_read_meta _ _ _ Hp). wstep. apply wp_lift. rewrite (node_read_inner _ _ _ Hp).
  pose proof (inner_insert_body _ _ _ _ sep b Hok Hbf Hsep Hlo Hhi Hch) as Hall.
  set (pos := partition_point _ es) in *. set (e := mk_InternalEntry sep b) in *.
  assert (Forall inner_fits (vec_insert pos e es)) as Hallf by (by apply Forall_vec_insert).
  pose proof (length_vec_insert pos e es) as Hlen. set (all := vec_insert pos e es) in *. cbv zeta.
  rewrite Hn. destruct (Z.ltb_spec (Z.of_nat (length es)) MAX_INTERNAL_ENTRIES) as [Hlt|Hge].
  - apply (wp_store_inner t0 (g_blk g) _ all (with_n_keys m)); [apply Hp| |done|].
    { split; [done|]. split; [done|]. split; [cbn [body_len body_max]; lia|done]. }
    intros p Hnp. apply wp_ret. split; [exact Hfa0|]. split; [cbn; lia|]. exists all.
    eapply (rewrite_node t0 _ G (Datatypes.S l)); [done|done|done|done|cbn; lia|exact Hnp|done|exact Hh|done|done].
  - unfold MAX_INTERNAL_ENTRIES in *. assert (length es = 16%nat) as H16 by lia. rewrite H16 in Hlen.
    assert (length all / 2 = 8)%nat as Hmid by (rewrite Hlen; done). rewrite Hmid.
    destruct (drop 8 all) as [|first rest] eqn:Ed.
    { apply (f_equal length) in Ed. rewrite length_drop in Ed. cbn in Ed. lia. }
    assert (length (drop 8 all) = 9%nat) as Hl2 by (rewrite length_drop; lia). rewrite Ed in Hl2.
    assert (length (take 8 all) = 8%nat) as Hl1 by (rewrite length_take; lia).
    destruct (inner_halves _ _ _ all 8 first Hall ltac:(lia) ltac:(by rewrite Ed)) as (Hok1 & Hok2 & Hslo & Hshi). rewrite Ed in Hok2.
    assert (Forall inner_fits (take 8 all) /\ Forall inner_fits (first :: rest)) as [Hf1 Hf2].
    { rewrite <- Ed. auto using Forall_take, Forall_drop. }
    pose proof (Forall_inv Hf2) as [Hsep64 _]. apply with_min_first_fits in Hf2. rewrite <- length_with_min_first in Hl2.
    set (rs := with_min_first (first :: rest)) in *.
    wstep. apply (wp_or_panic first); [done|]. apply wp_allocate; [lia|lia|]. apply wp_fetch.
    2: { intros t' Hf Hfa. pose proof (fe_next _ _ Hf) as Hfn. cbn in Hfn. split; [intros Hx; apply Hfa0; by apply Hf in Hx|]. split; [lia|].
         split; [done|]. split; [by apply Hfa0|]. eapply (tree_inv_next t0); [done|by rewrite (fe_pages _ _ Hf)|by rewrite (fe_root _ _ Hf)|lia]. }
    intros t1 Hf1t. apply wp_u16; [rewrite Hl2; done|]. cbv zeta. set (mr := mk_NodeMeta _ _ _ _ _).
    assert (Hmr : meta_for mr (InnerB rs)).
    { split; [|split; [done|split; [cbn [body_len body_max]; rewrite Hl2; done|by unfold mr, is_leaf; cbn; destruct (has_high_key m)]]].
      split; [done|]. split; [cbn; by destruct (has_high_key m)|]. split; [done|]. cbn. by destruct (has_high_key m). }
    apply wp_init_page.
    { unfold page_of. destruct (bt_pages _ !! _) as [q|] eqn:Eq; [|apply new_heap_valid].
      cbn in Eq |- *. by apply (ti_valid _ _ Hinv0) in Eq. }
    intros p' Hp'. destruct (write_inner_node p' mr rs Hp' Hmr Hf2) as (rp2 & Hw2 & _ & Hnp2).
    wstep. apply (wp_or_panic rp2); [done|]. apply wp_put. rewrite store_store.
    set (f := fun n => mk_NodeMeta (bt_next t0) (ie_key first) (level m) n FLAG_HAS_HIGH_KEY).
    apply (wp_store_inner _ (g_blk g) _ (take 8 all) f); [apply Hp| |done|].
    { split; [|split; [done|split; [cbn [body_len body_max]; rewrite Hl1; done|done]]]. split; [cbn; unfold in_width; lia|]. done. }
    intros p1 Hnp1. apply wp_ret.
    pose proof (fe_next _ _ Hf1t) as Hfn. pose proof (fe_pages _ _ Hf1t) as Hfp. pose proof (fe_root _ _ Hf1t) as Hfr. cbn in Hfn, Hfp, Hfr.
    split; [intros Hx; apply Hfa0; by apply Hf1t|]. split; [cbn; lia|]. split; [done|]. split; [done|]. split; [done|].
    exists (take 8 all), rs.
    eapply (split_node t0 _ G (Datatypes.S l)); [done|done|cbn; by rewrite Hfr|cbn; by rewrite Hfp|cbn; lia|lia|exact Hnp1|done|done|exact Hnp2|done| |done..].
    rewrite <- Hh. unfold node_high, mr. cbn. by destruct (has_high_key m).
Qed.

(** ** The root split *)

(** A page outside the tree does not matter. *)
Lemma tree_inv_store_fresh {S} (t t' : BTree S) G b p :
  tree_inv t G -> b ∉ blocks G -> page_valid p -> bt_pages t' = <[b := p]> (bt_pages t) -> bt_root t' = bt_root t ->
  bt_next t <= bt_next t' < U32 -> tree_inv t' G.
Proof.
  intros Hinv Hb Hp Hps Hr Hn. pose proof (ti_next _ _ Hinv) as Hnx. constructor; rewrite ?Hr; try apply Hinv.
  - intros l c Hl. eapply each_impl; [by apply (ti_nodes _ _ Hinv)|]. intros g post Hg (Hon & Hrest). split; [|done].
    eapply on_page_agree; [|done|done|exact Hon]. rewrite Hps. apply lookup_insert_ne. intros ->. apply Hb. by eapply elem_of_blocks.
  - eapply Forall_impl; [apply Hinv|]. cbn. lia.
  - lia.
  - rewrite Hps. apply insert_valid; [apply Hinv|done].
Qed.

Section grow.
Context {S : Type} (t t' : BTree S) (G0 : list (list gnode)) (g : gnode) (rest : list gnode) (nl sep nb : Z) (p pr : Page) (mr : NodeMeta).
Let G : list (list gnode) := G0 ++ [g :: rest].
Let g' : gnode := mk_gnode nl None (g_body g).
Let root_es : list InternalEntry := [mk_InternalEntry I64_MIN nl; mk_InternalEntry sep nb].
Let G' : list (list gnode) := (G0 ++ [g' :: rest]) ++ [[mk_gnode (g_blk g) None (InnerB root_es)]].
Hypothesis Hinv : tree_inv t G.
Hypothesis Hlow : g_low g = None.
Hypothesis Hpg : bt_pages t !! g_blk g = Some p.
Hypothesis Hpages : bt_pages t' = <[g_blk g := pr]> (<[nl := p]> (bt_pages t)).
Hypothesis Hnl : nl = bt_next t.
Hypothesis Hnext : bt_next t' = bt_next t + 1.
Hypothesis Hroom : bt_next t + 1 < U32.
Hypothesis Hroot : bt_root t' = bt_root t /\ g_blk g = bt_root t.
Hypothesis Hpr : node_page pr mr (InnerB root_es).
Hypothesis Hmr : right_link mr = NO_SIBLING /\ node_high mr = None.
Hypothesis Hch : low_at (g :: rest) nb (Some sep).

Lemma grow_top : G !! length G0 = Some ([] ++ g :: rest).
Proof using. unfold G. by apply list_lookup_middle. Qed.

Lemma grow_root_range : g_blk g < nl.
Proof using Hinv Hnl. rewrite Hnl. eapply (blk_range t G Hinv); [exact grow_top|left]. Qed.

Lemma grow_page b : b ∈ blocks G -> b <> g_blk g -> bt_pages t' !! b = bt_pages t !! b.
Proof using Hinv Hpages Hnl.
  intros Hb Hne. rewrite Hpages, lookup_insert_ne by done. apply lookup_insert_ne.
  pose proof (ti_range _ _ Hinv) as HR. rewrite Forall_forall in HR. specialize (HR b Hb). lia.
Qed.

Lemma grow_levels j c : G' !! j = Some c ->
  ((j < length G0)%nat /\ G !! j = Some c) \/ (j = length G0 /\ c = g' :: rest) \/
  (j = Datatypes.S (length G0) /\ c = [mk_gnode (g_blk g) None (InnerB root_es)]).
Proof using.
  intros Hj. assert (j < length G0 \/ j = length G0 \/ j = Datatypes.S (length G0))%nat as [Hl | [-> | ->]].
  { apply lookup_lt_Some in Hj. unfold G' in Hj. rewrite !length_app in Hj. cbn in Hj. lia. }
  - left. split; [done|]. unfold G', G in *. rewrite lookup_app_l in Hj by (rewrite length_app; cbn; lia). rewrite lookup_app_l in Hj by lia.
    by rewrite lookup_app_l by lia.
  - right. left. split; [done|]. unfold G' in Hj. rewrite lookup_app_l in Hj by (rewrite length_app; cbn; lia).
    rewrite list_lookup_middle in Hj by done. congruence.
  - right. right. split; [done|]. unfold G' in Hj. rewrite lookup_app_r in Hj by (rewrite length_app; cbn; lia).
    rewrite length_app in Hj. cbn in Hj. replace (Datatypes.S (length G0) - (length G0 + 1))%nat with O in Hj by lia. by injection Hj as <-.
Qed.

Lemma grow_below j : (j <= length G0)%nat -> below G' j = below G j.
Proof using.
  destruct j as [|j]; [done|]. intros Hj. cbn [below]. unfold G', G. rewrite lookup_app_l by (rewrite length_app; cbn; lia).
  rewrite !lookup_app_l by lia. done.
Qed.

Lemma grow_other j c x : G !! j = Some c -> x ∈ c -> (j <> length G0 \/ x ∈ rest) -> g_blk x <> g_blk g.
Proof using Hinv.
  intros Hj Hx Hor. eapply (other_block t G (length G0) [] rest g Hinv grow_top); [exact Hj|done|].
  destruct Hor as [?|?]; [by left|by right; right].
Qed.

Lemma grow_nodes j c : G' !! j = Some c -> each (node_ok (bt_pages t') (below G' j) (j =? 0)%nat) c.
Proof using All.
  intros Hj. destruct (grow_levels j c Hj) as [(Hl & Hc)|[(-> & ->)|(-> & ->)]].
  - rewrite grow_below by lia. eapply each_impl; [by apply (ti_nodes _ _ Hinv)|]. intros x post Hx (Hon & Hrest). split; [|done].
    eapply on_page_agree; [|done|done|exact Hon]. apply grow_page; [by eapply elem_of_blocks|]. eapply grow_other; [exact Hc|done|left; lia].
  - rewrite grow_below by lia. pose proof (ti_nodes _ _ Hinv _ _ grow_top) as Hold. cbn [app each] in Hold. destruct Hold as [Hg Hr].
    pose proof grow_root_range as Hlt. split.
    + destruct Hg as ((p0 & m0 & H1 & H2 & H3 & H4) & Hok & Hleaf). rewrite Hpg in H1. injection H1 as <-.
      split; [|split; [cbn; by rewrite <- Hlow|done]]. exists p, m0. cbn. split; [|done].
      rewrite Hpages, lookup_insert_ne, lookup_insert_eq by lia. done.
    + eapply each_impl; [exact Hr|]. intros x post Hx (Hon & Hrest). split; [|done].
      eapply on_page_agree; [|done|done|exact Hon].
      apply grow_page; [eapply elem_of_blocks; [exact grow_top|by right]|]. eapply grow_other; [exact grow_top|by right|by right].
  - cbn [each]. split; [|done]. split; [|split; [|done]].
    + exists pr, mr. cbn. rewrite Hpages, lookup_insert_eq. destruct Hmr. done.
    + cbn [g_body g_low hd_low below]. unfold G'. rewrite lookup_app_l by (rewrite length_app; cbn; lia). rewrite list_lookup_middle by done. cbn [default].
      exists nl, [mk_InternalEntry sep nb]. split; [done|]. split; [repeat constructor|]. split; [exists g'; split; [left|done]|].
      constructor; [|constructor]. split; [done|]. split; [done|]. destruct Hch as (x & Hx & Hxb & Hxl). exists x.
      apply elem_of_cons in Hx as [->|Hx]; [congruence|]. split; [by right|done].
Qed.

Lemma grow_root : tree_inv t' G'.
Proof using All.
  pose proof (ti_next _ _ Hinv) as Hnx.
  assert (blocks G' ≡ₚ nl :: blocks G) as Hperm.
  { unfold blocks, G', G. rewrite !concat_app. cbn [concat app]. rewrite !app_nil_r, !map_app. cbn [map g_blk g'].
    rewrite <- app_assoc. cbn [app]. rewrite <- !Permutation_middle. constructor.
    rewrite (Permutation_app_comm (map g_blk rest)), Permutation_app_comm. cbn [app]. symmetry.
    rewrite (Permutation_app_comm (map g_blk (concat G0))). done. }
  constructor.
  - intros j c Hj. destruct (grow_levels j c Hj) as [(Hl & Hc)|[(-> & ->)|(-> & ->)]].
    + by eapply (ti_lows _ _ Hinv).
    + destruct (ti_lows _ _ Hinv _ _ grow_top) as [Hs (g0 & r0 & E & Hn & Hf)]. cbn [app] in Hs, E. injection E as -> ->.
      constructor; [cbn [map] in *; by rewrite Hlow in Hs|]. exists g', r0. done.
    + constructor; [repeat constructor|]. by eexists _, [].
  - apply grow_nodes.
  - destruct Hroot as [-> <-]. by eexists (G0 ++ [g' :: rest]), (mk_gnode (g_blk g) None (InnerB root_es)), [].
  - rewrite Hperm. constructor; [|apply Hinv]. intros Hin. pose proof (ti_range _ _ Hinv) as HR. rewrite Forall_forall in HR.
    specialize (HR nl Hin). lia.
  - rewrite Hperm. constructor; [lia|]. eapply Forall_impl; [apply Hinv|]. cbn. lia.
  - lia.
  - rewrite Hpages. apply insert_valid; [|apply Hpr]. apply insert_valid; [apply Hinv|]. by apply (ti_valid _ _ Hinv) in Hpg.
Qed.
End grow.

(** The leaves as the readers see them, whatever their blocks. *)
Definition shape (G : list (list gnode)) : list (option Z * Body) :=
  map (fun g => (g_low g, g_body g)) (default [] (G !! 0%nat)).

Definition body_entries (b : Body) : list LeafEntry := match b with LeafB es => es | InnerB _ => [] end.

Lemma contents_shape G : contents G = concat (map (fun x => body_entries x.2) (shape G)).
Proof. unfold contents, level_entries, shape. by rewrite map_map. Qed.

(** The outcome of restructuring the upper levels. *)
Definition restructured {S A} (t : BTree S) (G : list (list gnode)) (r : result A BTreeError) (t' : BTree S) : Prop :=
  (faulty t' -> faulty t) /\ (exists G', tree_inv t' G' /\ shape G' = shape G) /\
  match r with Ok _ => True | Err e => e = BufferPool /\ faulty t end.

Lemma split_root_spec {S} (t : BTree S) G sep nb :
  tree_inv t G -> low_at (below G (length G)) nb (Some sep) -> in_i64 sep -> in_width U32 nb -> bt_next t + 1 < U32 ->
  wp (split_root sep nb) t (restructured t G).
Proof.
  intros Hinv Hch Hsep Hnb Hroom. pose proof (ti_next _ _ Hinv) as Hnx. unfold split_root. wstep. apply wp_lift.
  destruct (ti_root _ _ Hinv) as (G0 & g & rest & HG & Hb).
  assert (Hat : G !! length G0 = Some ([] ++ g :: rest)) by (rewrite HG; by apply list_lookup_middle).
  assert (Hlow : g_low g = None).
  { destruct (lo_head _ (ti_lows _ _ Hinv _ _ Hat)) as (x & r & E & Hx & _). cbn in E. by injection E as -> _. }
  destruct (page_here t G Hinv _ [] rest g Hat) as (m & Hp & _ & _ & Hpl). rewrite <- Hb.
  assert (forall t' : BTree S, bt_pages t' = bt_pages t -> bt_root t' = bt_root t -> bt_next t' = bt_next t + 1 -> tree_inv t' G) as Hsame.
  { intros t' E1 E2 E3. apply (tree_inv_next t); [done|done|done|lia]. }
  apply wp_allocate; [lia|lia|]. apply wp_fetch.
  2: { intros t' Hf Hfa. split; [apply Hf|]. split; [|done]. exists G. split; [|done]. apply Hsame; apply Hf. }
  intros t1 Hf1. wstep. apply wp_lift. change (page_of (with_next t _) (g_blk g)) with (page_of t (g_blk g)).
  rewrite (node_read_meta _ _ _ Hp). cbv zeta. apply wp_fetch.
  2: { intros t' Hf Hfa. pose proof (transitivity Hf1 Hf) as Hf'. split; [apply Hf'|]. split; [|split; [done|by apply Hf1]].
       exists G. split; [|done]. apply Hsame; apply Hf'. }
  intros t2 Hf2. pose proof (transitivity Hf1 Hf2) as Hf12. apply wp_put. apply wp_fetch.
  2: { intros t' Hf Hfa. split; [intros Hx; apply Hf12; by apply Hf in Hx|]. split; [|split; [done|by apply Hf12]].
       exists G. split; [|done].
       eapply (tree_inv_store_fresh t); [done| |apply Hp|rewrite (fe_pages _ _ Hf); cbn; by rewrite (fe_pages _ _ Hf12)|
         rewrite (fe_root _ _ Hf); cbn; by rewrite (fe_root _ _ Hf12)|rewrite (fe_next _ _ Hf); cbn; rewrite (fe_next _ _ Hf12); cbn; lia].
       intros Hin. pose proof (ti_range _ _ Hinv) as HR. rewrite Forall_forall in HR. specialize (HR _ Hin). lia. }
  intros t3 Hf3. assert (g_blk g < bt_next t) as Hgb by (eapply (blk_range t G Hinv); [exact Hat|left]).
  apply wp_init_page.
  { unfold page_of, store. cbn. rewrite lookup_insert_ne by lia. rewrite (fe_pages _ _ Hf12). cbn. rewrite Hpl. apply Hp. }
  intros w1 Hw1. set (mr := with_n_keys _ 2). set (es := [mk_InternalEntry I64_MIN _; _]).
  assert (Hmr : meta_for mr (InnerB es)).
  { split; [|done]. split; [done|]. split; [done|]. split; [|done]. cbn. pose proof (np_for _ _ _ Hp) as ((_ & _ & Hlv & _) & _).
    unfold in_width, U16, saturating_add in *. lia. }
  assert (Hes : Forall inner_fits es).
  { constructor; [|constructor; [done|constructor]]. split; [done|]. unfold in_width. cbn. lia. }
  destruct (write_inner_node w1 mr es Hw1 Hmr Hes) as (w2 & Hw2 & _ & Hnp).
  wstep. apply (wp_or_panic w2); [done|]. unfold wp, put_page. split; [intros Hx; apply Hf12; by apply Hf3 in Hx|]. split; [|done].
  eexists. split.
  - eapply (grow_root t _ G0 g rest (bt_next t) sep nb (page_of t (g_blk g)) _ mr).
    + by rewrite <- HG.
    + done.
    + done.
    + cbn. rewrite insert_insert_eq, (fe_pages _ _ Hf3). cbn. by rewrite (fe_pages _ _ Hf12).
    + done.
    + cbn. rewrite (fe_next _ _ Hf3). cbn. rewrite (fe_next _ _ Hf12). done.
    + done.
    + cbn. rewrite (fe_root _ _ Hf3). cbn. by rewrite (fe_root _ _ Hf12).
    + exact Hnp.
    + done.
    + rewrite HG, length_app, Nat.add_1_r in Hch. cbn [below] in Hch. rewrite list_lookup_middle in Hch by done. exact Hch.
  - unfold shape. rewrite HG. destruct G0 as [|c0 G0]; [|done]. cbn. by rewrite Hlow.
Qed.

(** ** Propagation *)

(** The parents on a path, each covering the node below it. *)
Fixpoint path_hi (G : list (list gnode)) (l : nat) (lo hi : option Z) (rpath : list Z) : Prop :=
  match rpath with
  | [] => Datatypes.S l = length G
  | b :: rest => exists pre P post, G !! Datatypes.S l = Some (pre ++ P :: post) /\ g_blk P = b /\
      low_le (g_low P) lo /\ high_le hi (hd_low post) /\ path_hi G (Datatypes.S l) (g_low P) (hd_low post) rest
  end.

Lemma path_nested {S} (t : BTree S) G key rpath : forall l pre g post,
  tree_inv t G -> G !! l = Some (pre ++ g :: post) -> ge_low (g_low g) key -> lt_high key (hd_low post) ->
  path_ok G l (g_low g) key rpath -> path_hi G l (g_low g) (hd_low post) rpath.
Proof.
  induction rpath as [|b rest IH]; intros l pre g post Hinv Hat Hlo Hhi; [done|]. cbn.
  intros (preP & P & postP & HP & Hb & Hle & HPlo & HPhi & Hrest). exists preP, P, postP. split; [done|]. split; [done|].
  split; [done|]. split; [by eapply (high_nested t G Hinv l)|]. by eapply IH.
Qed.

(** A path looks at the levels above its node only. *)
Lemma path_hi_levels G G' rpath : forall l lo hi,
  (forall j, (l < j)%nat -> G' !! j = G !! j) -> length G' = length G -> path_hi G l lo hi rpath -> path_hi G' l lo hi rpath.
Proof.
  induction rpath as [|b rest IH]; intros l lo hi Hl Hlen; cbn; [by rewrite Hlen|].
  intros (pre & P & post & HP & Hrest). exists pre, P, post. rewrite Hl by lia. split; [done|]. naive_solver eauto with lia.
Qed.

Lemma ge_low_high lo k lo' : low_le lo' lo -> ge_low lo k -> ge_low lo' k.
Proof. intros. by eapply ge_low_le. Qed.

Lemma le_high_le k hi hi' : high_le hi hi' -> le_high k hi -> le_high k hi'.
Proof. destruct hi, hi'; cbn; try done; lia. Qed.

Lemma restructured_trans {S A} (t t1 t2 : BTree S) G G1 (r : result A BTreeError) :
  (faulty t1 -> faulty t) -> shape G1 = shape G -> restructured t1 G1 r t2 -> restructured t G r t2.
Proof.
  intros Hf Hs (H1 & (G' & H2 & H3) & H4). split; [by auto|]. split; [exists G'; split; [done|congruence]|].
  destruct r; [done|]. destruct H4. auto.
Qed.

Lemma shape_insert_upper G l c : shape (<[Datatypes.S l := c]> G) = shape G.
Proof. unfold shape. by rewrite list_lookup_insert_ne. Qed.

Lemma propagate_spec {S} rpath : forall (t : BTree S) G l lo hi sep nb,
  tree_inv t G -> path_hi G l lo hi rpath -> low_at (below G (Datatypes.S l)) nb (Some sep) ->
  ge_low lo sep -> le_high sep hi -> in_i64 sep -> in_width U32 nb -> bt_next t + Z.of_nat (length rpath) + 1 < U32 ->
  wp (propagate_split rpath sep nb) t (restructured t G).
Proof.
  induction rpath as [|b rest IH]; intros t G l lo hi sep nb Hinv Hpath Hch Hlo Hhi Hsep Hnb Hroom; cbn [propagate_split].
  { cbn in Hpath. rewrite Hpath in Hch. by apply split_root_spec; [done..|cbn in Hroom; lia]. }
  cbn [path_hi] in Hpath. destruct Hpath as (pre & P & post & HP & <- & Hle & Hhe & Hpath). cbn [length] in Hroom.
  wstep. eapply wp_mono.
  { apply (insert_into_internal_spec t G l pre P post); [done|done|done|done|by eapply ge_low_high|by eapply le_high_le|done|lia]. }
  intros r t1 (Hf1 & Hn1 & Hr). destruct r as [[[k bk]|]|err].
  - destruct Hr as (Hk64 & Hklo & Hkhi & es1 & es2 & Hinv1). set (G1 := <[_ := _]> G) in *.
    assert (G1 !! Datatypes.S l = Some (pre ++ mk_gnode (g_blk P) (g_low P) (InnerB es1) :: mk_gnode bk (Some k) (InnerB es2) :: post)) as HG1.
    { apply list_lookup_insert_eq. by eapply lookup_lt_Some. }
    eapply wp_mono; [eapply (IH t1 G1 (Datatypes.S l) (g_low P) (hd_low post))|].
    + done.
    + eapply path_hi_levels; [| |exact Hpath]; [|apply length_insert]. intros j Hj. apply list_lookup_insert_ne. lia.
    + cbn [below]. rewrite HG1. cbn [default]. exists (mk_gnode bk (Some k) (InnerB es2)). split; [|done]. apply elem_of_app. right. right. left.
    + done.
    + done.
    + done.
    + assert (0 <= bk < bt_next t1) as Hbk.
      { eapply (blk_range t1 G1 Hinv1 _ _ (mk_gnode bk (Some k) (InnerB es2)) HG1). apply elem_of_app. right. right. left. }
      pose proof (ti_next _ _ Hinv1). unfold in_width. lia.
    + lia.
    + intros r t2. apply restructured_trans; [done|apply shape_insert_upper].
  - destruct Hr as (es' & Hinv1). apply wp_ret. split; [done|]. split; [|done]. eexists. split; [exact Hinv1|apply shape_insert_upper].
  - destruct Hr as (-> & Hfa & Hinv1). split; [done|]. split; [|done]. by exists G.
Qed.
