(* ===== verification/BTreeOps.v ===== *)
(** * The B-link tree: what each operation does to the entries

    The entries of the tree, in leaf order, are its abstract state. Insertion
    adds one entry at its place, deletion and vacuum remove entries, lookups
    and scans read them; a failed fetch or a refused log record leaves the tree
    well formed. *)

From S2P Require Import Prelude CoreIds WalRecord WalPayload WalPayloadIndex WalSink Bytes Page PageSpec BtNode BtNodeSpec BTree BTreeInv BTreeLeaf BTreeInner.

(** ** Entries and fences *)

Lemma level_entries_app a b : level_entries (a ++ b) = level_entries a ++ level_entries b.
Proof. unfold level_entries. by rewrite map_app, concat_app. Qed.

Lemma level_entries_cons g c : level_entries (g :: c) = leaf_entries g ++ level_entries c.
Proof. done. Qed.

Lemma contents_at G c : G !! 0%nat = Some c -> contents G = level_entries c.
Proof. intros H. unfold contents. by rewrite H. Qed.

Lemma elem_of_level_entries e c : e ∈ level_entries c <-> exists g, g ∈ c /\ e ∈ leaf_entries g.
Proof.
  unfold level_entries. rewrite list_elem_of_In, in_concat. setoid_rewrite in_map_iff. split.
  - intros (l & (g & <- & Hg) & He). exists g. by rewrite !list_elem_of_In.
  - intros (g & Hg & He). exists (leaf_entries g). rewrite !list_elem_of_In in *. eauto.
Qed.

(** Every key below the high key of its leaf: what unique insertion keeps. *)
Definition strict (G : list (list gnode)) : Prop :=
  each (fun g post => Forall (fun e => lt_high (le_key e) (hd_low post)) (leaf_entries g)) (default [] (G !! 0%nat)).

Lemma strict_at G c : G !! 0%nat = Some c ->
  strict G <-> each (fun g post => Forall (fun e => lt_high (le_key e) (hd_low post)) (leaf_entries g)) c.
Proof. intros H. unfold strict. by rewrite H. Qed.

(** A tree that only unique insertion has filled. *)
Definition uniq (G : list (list gnode)) : Prop := strict G /\ NoDup (map le_key (contents G)).

Lemma strict_shape G G' : shape G' = shape G -> strict G -> strict G'.
Proof.
  unfold shape, strict. generalize (default [] (G !! 0%nat)) as c, (default [] (G' !! 0%nat)) as c'. intros c c'. revert c'.
  induction c as [|g c IH]; intros [|g' c']; cbn; try done. intros [= Hl Hb Hr] [Hg Hc]. split; [|by apply IH].
  assert (hd_low c' = hd_low c) as -> by (destruct c, c'; cbn in *; congruence). unfold leaf_entries in *. by rewrite Hb.
Qed.

Lemma uniq_shape G G' : shape G' = shape G -> uniq G -> uniq G'.
Proof. intros Hs [H1 H2]. split; [by eapply strict_shape|]. by rewrite !contents_shape, Hs in *. Qed.

Section fences.
Context {S : Type} (t : BTree S) (G : list (list gnode)) (pre post : list gnode) (g : gnode).
Hypothesis Hinv : tree_inv t G.
Hypothesis Hat : G !! 0%nat = Some (pre ++ g :: post).

(** What a leaf to the left has above it is at or below the low fence of [g]. *)
Lemma left_high a x b : pre = a ++ x :: b -> exists h lo,
  hd_low (b ++ g :: post) = Some h /\ g_low g = Some lo /\ h <= lo.
Proof using Hinv Hat.
  intros ->. assert (Hx : G !! 0%nat = Some (a ++ x :: b ++ g :: post)) by (by rewrite Hat, <- app_assoc).
  pose proof (next_low t G Hinv 0 a _ x Hx) as Hn. destruct b as [|y b]; cbn [app hd_low] in *.
  - destruct Hn as [h Hh]. exists h, h. rewrite Hh. split; [done|]. split; [done|lia].
  - destruct Hn as [h Hh]. pose proof (lows_left t G Hinv 0 _ post g Hat y) as Hle.
    specialize (Hle ltac:(apply elem_of_app; right; right; left)). rewrite Hh in Hle.
    destruct (g_low g) as [lo|]; [|done]. exists h, lo. done.
Qed.

Lemma left_keys e : e ∈ level_entries pre -> exists lo, g_low g = Some lo /\ le_key e <= lo.
Proof using Hinv Hat.
  intros (x & Hx & He)%elem_of_level_entries. apply list_elem_of_split in Hx as (a & b & E).
  destruct (left_high a x b E) as (h & lo & Hh & Hlo & Hle). exists lo. split; [done|].
  assert (Hxa : G !! 0%nat = Some (a ++ x :: b ++ g :: post)) by (by rewrite Hat, E, <- app_assoc).
  destruct (node_here t G Hinv 0 a _ x Hxa) as (_ & Hok & _). unfold leaf_entries in He.
  destruct (g_body x) as [es|]; [|by apply not_elem_of_nil in He]. destruct Hok as [_ Hf]. rewrite Forall_forall in Hf.
  destruct (Hf e He) as [_ Hhi]. rewrite Hh in Hhi. cbn in Hhi. lia.
Qed.

Lemma left_keys_strict e : strict G -> e ∈ level_entries pre -> exists lo, g_low g = Some lo /\ le_key e < lo.
Proof using Hinv Hat.
  intros Hst (x & Hx & He)%elem_of_level_entries. apply list_elem_of_split in Hx as (a & b & E).
  destruct (left_high a x b E) as (h & lo & Hh & Hlo & Hle). exists lo. split; [done|].
  unfold strict in Hst. rewrite Hat, E in Hst. cbn [default] in Hst. rewrite <- app_assoc in Hst. cbn [app] in Hst. apply each_at in Hst.
  rewrite Forall_forall in Hst. specialize (Hst e He). rewrite Hh in Hst. cbn in Hst. lia.
Qed.

Lemma right_keys e : e ∈ level_entries post -> exists h, hd_low post = Some h /\ h <= le_key e.
Proof using Hinv Hat.
  intros (x & Hx & He)%elem_of_level_entries. pose proof (next_low t G Hinv 0 pre post g Hat) as Hn.
  destruct post as [|y post'] eqn:Ep; [by apply not_elem_of_nil in Hx|]. destruct Hn as [h Hh]. exists h. split; [done|].
  assert (low_le (Some h) (g_low x)) as Hle.
  { rewrite <- Hh. apply elem_of_cons in Hx as [->|Hx]; [reflexivity|].
    eapply (lows_right t G Hinv 0 (pre ++ [g]) post' y); [by rewrite <- app_assoc|done]. }
  apply list_elem_of_split in Hx as (a & b & E).
  assert (Hxa : G !! 0%nat = Some ((pre ++ g :: a) ++ x :: b)) by (by rewrite Hat, E, <- app_assoc).
  destruct (node_here t G Hinv 0 _ _ x Hxa) as (_ & Hok & _). unfold leaf_entries in He.
  destruct (g_body x) as [es|]; [|by apply not_elem_of_nil in He]. destruct Hok as [_ Hf]. rewrite Forall_forall in Hf.
  destruct (Hf e He) as [Hlo _]. destruct (g_low x); cbn in *; [lia|done].
Qed.

Lemma leaf_body : exists es, g_body g = LeafB es.
Proof using Hinv Hat.
  destruct (node_here t G Hinv 0 pre post g Hat) as (_ & _ & Hl). destruct (g_body g) as [es|]; [by exists es|done].
Qed.
End fences.

(** ** The effect of an insertion *)

Definition inserted (e : LeafEntry) (l l' : list LeafEntry) : Prop := exists a b, l = a ++ b /\ l' = a ++ e :: b.

Record insert_effect (G G' : list (list gnode)) (e : LeafEntry) (dup : bool) : Prop := {
  if_inserted : inserted e (contents G) (contents G');
  if_fresh : dup = false -> uniq G -> Forall (fun y => le_key y <> le_key e) (contents G);
  if_uniq : dup = false -> uniq G -> uniq G';
}.

Lemma insert_effect_shape G G' G'' e dup : shape G'' = shape G' -> insert_effect G G' e dup -> insert_effect G G'' e dup.
Proof.
  intros Hs [H1 H2 H3]. constructor; [by rewrite (contents_shape G''), Hs, <- contents_shape|done|].
  intros Hd Hu. eapply uniq_shape; [exact Hs|]. by apply H3.
Qed.

Lemma inserted_nodup e l l' :
  inserted e l l' -> Forall (fun y => le_key y <> le_key e) l -> NoDup (map le_key l) -> NoDup (map le_key l').
Proof.
  intros (a & b & -> & ->) Hf Hd. rewrite map_app. cbn [map]. rewrite <- Permutation_middle. rewrite map_app in Hd. constructor; [|done].
  rewrite <- map_app. intros (y & Hy & Hin)%list_elem_of_fmap. rewrite Forall_forall in Hf. by apply (Hf y Hin).
Qed.

(** The new leaves hold the old entries and the new one. *)
Section effect.
Context {S : Type} (t : BTree S) (G : list (list gnode)) (pre post new : list gnode) (g : gnode).
Context (es : list LeafEntry) (e : LeafEntry) (dup : bool) (i : nat).
Hypothesis Hinv : tree_inv t G.
Hypothesis Hat : G !! 0%nat = Some (pre ++ g :: post).
Hypothesis Hbody : g_body g = LeafB es.
Hypothesis Hslot : new_slot es e dup i.
Hypothesis Hlow : ge_low (g_low g) (le_key e).
Hypothesis Hhigh : lt_high (le_key e) (hd_low post).
Hypothesis Hnew : level_entries new = vec_insert i e es.
Hypothesis Hhd : hd_low (new ++ post) = g_low g.

Let G' : list (list gnode) := <[0%nat := pre ++ new ++ post]> G.

Lemma new_level : G' !! 0%nat = Some (pre ++ new ++ post).
Proof using Hat. apply list_lookup_insert_eq. by eapply lookup_lt_Some. Qed.

Lemma effect_inserted : inserted e (contents G) (contents G').
Proof using Hat Hbody Hnew.
  rewrite (contents_at _ _ Hat), (contents_at _ _ new_level), !level_entries_app, level_entries_cons, Hnew.
  unfold leaf_entries at 1. rewrite Hbody. unfold vec_insert. exists (level_entries pre ++ take i es), (drop i es ++ level_entries post).
  rewrite <- !app_assoc. cbn [app]. split; [|done]. f_equal. by rewrite app_assoc, take_drop.
Qed.

Lemma effect_fresh : dup = false -> strict G -> Forall (fun y => le_key y <> le_key e) (contents G).
Proof using Hinv Hat Hbody Hslot Hlow Hhigh.
  intros Hd Hst. rewrite (contents_at _ _ Hat), level_entries_app, level_entries_cons. rewrite !Forall_app. split; [|split].
  - apply Forall_forall. intros y Hy. destruct (left_keys_strict t G pre post g Hinv Hat y Hst Hy) as (lo & Hlo & Hlt).
    rewrite Hlo in Hlow. cbn in Hlow. lia.
  - unfold leaf_entries. rewrite Hbody. by apply (ns_unique _ _ _ _ Hslot).
  - apply Forall_forall. intros y Hy. destruct (right_keys t G pre post g Hinv Hat y Hy) as (h & Hh & Hle).
    rewrite Hh in Hhigh. cbn in Hhigh. lia.
Qed.

Hypothesis Hstrict : each (fun g p => Forall (fun y => le_high (le_key y) (hd_low (p ++ post))) (leaf_entries g)) new.
Hypothesis Hlast : forall a x b y h, new = a ++ x :: b -> y ∈ leaf_entries x -> b <> [] -> hd_low (b ++ post) = Some h ->
  exists z, z ∈ level_entries b /\ le_key z = h.

(** Every high key inside the new leaves is the key of an entry to its right. *)
Lemma effect_strict : dup = false -> uniq G -> strict G'.
Proof using All.
  intros Hd [Hst Hnd]. assert (NoDup (map le_key (contents G'))) as Hnd'.
  { eapply inserted_nodup; [apply effect_inserted|by apply effect_fresh|done]. }
  rewrite (contents_at _ _ new_level), !level_entries_app, !map_app in Hnd'. apply NoDup_app in Hnd' as (_ & _ & Hnd').
  apply NoDup_app in Hnd' as (Hnd' & _ & _).
  apply (strict_at _ _ new_level). apply (strict_at _ _ Hat) in Hst. rewrite each_app in Hst. destruct Hst as [Hpre [Hg Hpost]].
  rewrite each_app, each_app. split; [|split; [|done]].
  { eapply each_impl; [exact Hpre|]. cbv beta. intros x p _ Hx. by rewrite (hd_low_app p (new ++ post) (g :: post)). }
  assert (forall a b, new = a ++ b -> each (fun g p => Forall (fun e => lt_high (le_key e) (hd_low (p ++ post))) (leaf_entries g)) b) as Hb;
    [|by apply (Hb [])].
  intros a b. revert a. induction b as [|x b IH]; intros a Ha; [done|]. split; [|apply (IH (a ++ [x])); by rewrite <- app_assoc].
  apply Forall_forall. intros y Hy. assert (Hle := Hstrict). rewrite Ha, each_app in Hle. destruct Hle as [_ [Hle _]].
  rewrite Forall_forall in Hle. specialize (Hle y Hy). destruct (decide (b = [])) as [->|Hne].
  - cbn [app] in *. assert (y ∈ vec_insert i e es) as Hin.
    { rewrite <- Hnew, Ha. apply elem_of_level_entries. exists x. split; [apply elem_of_middle|done]. }
    apply elem_of_vec_insert in Hin as [->|Hin]; [done|]. unfold leaf_entries in Hg. rewrite Hbody in Hg. rewrite Forall_forall in Hg. by apply Hg.
  - destruct (hd_low (b ++ post)) as [h|] eqn:Eh; [|done]. cbn in *. destruct (Hlast a x b y h Ha Hy Hne Eh) as (z & Hz & Hzk).
    assert (le_key y <> le_key z) as Hneq; [|lia]. rewrite Ha, level_entries_app, level_entries_cons, !map_app in Hnd'.
    apply NoDup_app in Hnd' as (_ & _ & Hnd'). apply NoDup_app in Hnd' as (_ & Hdis & _). intros Hyz.
    apply (Hdis (le_key y)); [by apply list_elem_of_fmap_2|]. rewrite Hyz. by apply list_elem_of_fmap_2.
Qed.

Lemma leaf_effect : insert_effect G G' e dup.
Proof using All.
  constructor; [apply effect_inserted|intros Hd [Hst _]; by apply effect_fresh|]. intros Hd Hu. split; [by apply effect_strict|].
  destruct Hu as [Hst Hnd]. eapply inserted_nodup; [apply effect_inserted|by apply effect_fresh|done].
Qed.
End effect.

(** ** The leaf step of an insertion *)

Definition leaf_step_post {S} (t : BTree S) (G : list (list gnode)) (pre : list gnode) (g : gnode) (post : list gnode)
    (es : list LeafEntry) (e : LeafEntry) (dup : bool) (r : result (option (Z * Z)) BTreeError) (t' : BTree S) : Prop :=
  (faulty t' -> faulty t) /\ bt_next t <= bt_next t' <= bt_next t + 1 /\
  match r with
  | Ok split => exists G', tree_inv t' G' /\ insert_effect G G' e dup /\ length G' = length G /\
      (forall j, (0 < j)%nat -> G' !! j = G !! j) /\ g_blk g ∈ blocks G' /\
      match split with
      | None => True
      | Some (sep, nb) => in_i64 sep /\ in_width U32 nb /\ ge_low (g_low g) sep /\ le_high sep (hd_low post) /\
                          low_at (below G' 1) nb (Some sep)
      end
  | Err err => tree_inv t' G /\ ((err = DuplicateKey /\ collides es e dup /\ fetched t t') \/ (err = BufferPool /\ faulty t))
  end.

Lemma insert_into_leaf_spec {S} fuel (t : BTree S) G pre g post es key value dup :
  tree_inv t G -> G !! 0%nat = Some (pre ++ g :: post) -> g_body g = LeafB es -> ge_low (g_low g) key -> lt_high key (hd_low post) ->
  leaf_fits (mk_LeafEntry key value) -> bt_next t + 1 < U32 ->
  wp (insert_into_leaf (Datatypes.S fuel) (g_blk g) key value dup) t (leaf_step_post t G pre g post es (mk_LeafEntry key value) dup).
Proof.
  intros Hinv Hat Hb Hlow Hhigh Hfits Hroom. cbn [insert_into_leaf]. set (e := mk_LeafEntry key value) in *. apply wp_fetch.
  2: { intros t' Hf Hfa. split; [apply Hf|]. split; [rewrite (fe_next _ _ Hf); lia|]. split; [by eapply tree_inv_fetched|]. by right. }
  intros t1 Hf. pose proof (tree_inv_fetched _ _ _ Hf Hinv) as Hinv1. rewrite <- (page_of_fetched t t1 (g_blk g) Hf).
  pose proof (fe_next _ _ Hf) as Hn1. wstep. eapply wp_mono; [apply try_leaf_insert_spec; [done|exact Hat|exact Hb|done|done|by rewrite Hn1]|].
  fold e. intros r t2 [Hfa2 Hr]. destruct (node_here t G Hinv 0 pre post g Hat) as (_ & Hok & _). rewrite Hb in Hok.
  destruct r as [[next| |sep nb]|err].
  - destruct Hr as (_ & g' & post' & -> & _ & Hge). cbn in Hhigh, Hge. destruct (g_low g') as [h|] eqn:Eg; cbn in *; [lia|].
    pose proof (next_low t G Hinv 0 pre _ g Hat) as [h Hh]. congruence.
  - destruct Hr as (_ & Hn2 & i & Hslot & Hinv2). apply wp_ret. split; [intros Hx; apply Hf; by apply Hfa2|]. split; [lia|].
    set (g1 := mk_gnode (g_blk g) (g_low g) (LeafB (vec_insert i e es))) in *.
    exists (<[0%nat := pre ++ [g1] ++ post]> G). split; [done|]. split; [|split; [apply length_insert|]].
    2: { split; [intros j Hj; apply list_lookup_insert_ne; lia|]. split; [|done].
         eapply (elem_of_blocks _ 0 _ g1); [apply list_lookup_insert_eq; by eapply lookup_lt_Some|apply elem_of_app; right; left]. }
    eapply (leaf_effect t G pre post [g1] g es e dup i); try done; [by unfold level_entries; cbn; rewrite app_nil_r| |].
    + cbn. split; [|done]. apply Forall_forall. intros y Hy. apply elem_of_vec_insert in Hy as [->|Hy].
      * cbn. destruct (hd_low post); cbn in *; [lia|done].
      * destruct Hok as [_ Hf']. rewrite Forall_forall in Hf'. by apply Hf'.
    + intros a x b y h E Hy Hne. exfalso. destruct a as [|z a]; cbn in E; injection E as -> E; [by rewrite <- E in Hne|].
      symmetry in E; by apply app_nil in E as [_ E].
  - destruct Hr as (_ & Hn2 & -> & Hslo & Hshi & i & left & right & Hslot & Hlr & (first & rest & -> & Hfirst) & Hinv2). apply wp_ret.
    split; [intros Hx; apply Hf; by apply Hfa2|]. split; [lia|].
    set (g1 := mk_gnode (g_blk g) (g_low g) (LeafB left)) in *. set (g2 := mk_gnode (bt_next t1) (Some sep) (LeafB (first :: rest))) in *.
    assert (HG' : <[0%nat := pre ++ [g1; g2] ++ post]> G !! 0%nat = Some (pre ++ g1 :: g2 :: post))
      by (apply list_lookup_insert_eq; by eapply lookup_lt_Some).
    exists (<[0%nat := pre ++ [g1; g2] ++ post]> G). split; [done|]. split; [|split; [apply length_insert|]].
    2: { split; [intros j Hj; apply list_lookup_insert_ne; lia|].
         split; [eapply (elem_of_blocks _ 0 _ g1); [exact HG'|apply elem_of_app; right; left]|].
         pose proof (ti_next _ _ Hinv1). split; [|split; [unfold in_width; lia|split; [done|split; [done|]]]].
         - assert (first ∈ vec_insert i e es) as Hin by (rewrite <- Hlr; apply elem_of_app; right; left).
           rewrite <- Hfirst. apply elem_of_vec_insert in Hin as [->|Hin]; [apply Hfits|].
           destruct (page_here t G Hinv 0 pre post g Hat) as (m & Hp & _). pose proof (np_fits _ _ _ Hp) as Hbf. rewrite Hb in Hbf.
           cbn in Hbf. rewrite Forall_forall in Hbf. by apply Hbf.
         - cbn [below]. rewrite HG'. exists g2. split; [apply elem_of_app; right; right; left|done]. }
    destruct (node_here t2 _ Hinv2 0 pre (g2 :: post) g1 HG') as (_ & [_ Hok1] & _).
    destruct (node_here t2 _ Hinv2 0 (pre ++ [g1]) post g2 ltac:(by rewrite <- app_assoc)) as (_ & [_ Hok2] & _).
    eapply (leaf_effect t G pre post [g1; g2] g es e dup i); try done.
    + unfold level_entries. cbn. by rewrite app_nil_r.
    + split; [|split; [|done]]; (eapply Forall_impl; [eassumption|]); cbn; naive_solver.
    + intros a x b y h E Hy Hne Hh. destruct a as [|z a]; cbn in E; injection E as -> E.
      * rewrite <- E in *. cbn in Hh. exists first. split; [apply elem_of_level_entries; exists g2; split; [left|left]|congruence].
      * destruct a as [|z' a]; cbn in E; injection E as -> E; [by rewrite <- E in Hne|]. symmetry in E; by apply app_nil in E as [_ E].
  - destruct Hr as (_ & Hn2 & Hinv2 & Hor). split; [intros Hx; apply Hf; by apply Hfa2|]. split; [lia|]. split; [done|].
    destruct Hor as [(-> & Hc & ->)|[-> Hfa]]; [by left|right]. split; [done|]. by apply Hf.
Qed.

(** ** Logging *)

(** Documented behaviour of a sink: it returns the position of the record. *)
Definition sink_ok {S} (sink : WalSink S) : Prop :=
  forall s r lsn s', sink_append sink s r = (Ok lsn, s') -> in_width U64 lsn.

Definition wal_ok {S} (wal : option (WalSink S)) : Prop := match wal with Some sink => sink_ok sink | None => True end.

(** Logging leaves the tree alone; a refused record poisons the pool. *)
Definition logged {S A} (t : BTree S) (Q : A -> Prop) (r : result A BTreeError) (t' : BTree S) : Prop :=
  bt_pages t' = bt_pages t /\ bt_root t' = bt_root t /\ bt_next t' = bt_next t /\
  match r with Ok a => Q a /\ (faulty t' -> faulty t) | Err e => e = BWal end.

Lemma btree_payload_ok op rel b key_bytes cv :
  (length key_bytes <= 8)%nat -> (length cv <= 12)%nat ->
  exists bytes, BTreeOpPayload_encode (mk_BTreeOpPayload op rel (mk_PageId rel b) key_bytes cv) = Ok bytes /\ (length bytes <= 44)%nat.
Proof.
  intros Hk Hc. unfold BTreeOpPayload_encode. cbn [bt_key_bytes bt_child_or_value bt_op bt_index_rel bt_page].
  assert (0 <= blen key_bytes <= 8 /\ 0 <= blen cv <= 12) as [Hk' Hc'] by (unfold blen; lia).
  assert (12 <= MAX_VARIABLE_PAYLOAD_BYTES) by done.
  rewrite !(proj2 (Z.leb_gt _ _)) by (unfold U32; lia). rewrite !(proj2 (Z.ltb_ge _ _)) by lia.
  rewrite !checked_offset_eq by (unfold U64, BT_FIXED in *; lia). eexists. split; [done|].
  rewrite !length_app, !length_le_encode, length_page_id. lia.
Qed.

Lemma log_op_spec {S} crc rel (sink : WalSink S) op xid b key_bytes cv (t : BTree S) :
  sink_ok sink -> (length key_bytes <= 8)%nat -> (length cv <= 12)%nat ->
  wp (log_op crc rel sink op xid b key_bytes cv) t (logged t (in_width U64)).
Proof.
  intros Hs Hk Hc. unfold log_op. wstep. unfold wp at 1. wstep. apply wp_lift.
  destruct (btree_payload_ok op rel b key_bytes cv Hk Hc) as (bytes & -> & Hl). wstep. apply wp_lift.
  unfold WalRecord_new, build_header, checked_add.
  rewrite (proj2 (Z.ltb_lt _ _)) by (unfold RECORD_HEADER_SIZE, U64; lia). cbn [ok_or].
  rewrite (proj2 (Z.ltb_ge _ _)) by (unfold RECORD_HEADER_SIZE, MAX_RECORD_BYTES; lia). cbn [Z.eqb negb].
  rewrite (proj2 (Z.leb_gt _ _)) by (unfold RECORD_HEADER_SIZE, U32; lia).
  unfold wp, append_after_page_mutation. destruct (sink_append _ _ _) as [[lsn|] s'] eqn:E; cbn.
  - split; [done|]. split; [done|]. split; [done|]. split; [by eapply Hs|done].
  - done.
Qed.

Lemma length_tid_wire v : length (tid_wire v) = 12%nat.
Proof. unfold tid_wire. by rewrite !length_app, !length_le_encode. Qed.

Lemma length_i64 k : length (i64_bytes k) = 8%nat.
Proof. apply length_le_encode. Qed.

(** Stamping the page of a node keeps the tree. *)
Lemma stamp_spec {S} (t : BTree S) G b lsn :
  tree_inv t G -> b ∈ blocks G -> in_width U64 lsn ->
  wp (stamp_page_lsn b lsn) t (fun r t' => tree_inv t' G /\ bt_next t' = bt_next t /\ (faulty t' -> faulty t) /\
    match r with Ok _ => True | Err e => e = BufferPool /\ faulty t end).
Proof.
  intros Hinv Hb Hl. unfold stamp_page_lsn. apply wp_fetch.
  2: { intros t' Hf Hfa. split; [by eapply tree_inv_fetched|]. split; [apply Hf|]. split; [apply Hf|done]. }
  intros t1 Hf. pose proof (tree_inv_fetched _ _ _ Hf Hinv) as Hinv1. pose proof (fe_next _ _ Hf) as Hn1.
  unfold blocks in Hb. apply list_elem_of_fmap in Hb as (g & -> & Hg). apply list_elem_of_In, in_concat in Hg as (c & Hc & Hg).
  apply list_elem_of_In in Hc, Hg. apply list_elem_of_lookup in Hc as [l Hat]. apply list_elem_of_split in Hg as (pre & post & ->).
  destruct (page_here t G Hinv l pre post g Hat) as (m & Hp & Hr & Hh & _). destruct (node_here t G Hinv l pre post g Hat) as (_ & Hok & Hleaf).
  destruct (set_lsn_node _ _ _ lsn Hp Hl) as (p' & Hs & Hp'). wstep. apply (wp_or_panic p'); [done|].
  unfold wp, put_page. split; [|split; [done|split; [exact (fe_faulty _ _ Hf)|done]]].
  pose proof (rewrite_node t1 (with_pages t1 (<[g_blk g := p']> (bt_pages t1))) G l pre post g Hinv1 Hat eq_refl (g_body g) p' m eq_refl) as Hrw.
  rewrite list_insert_id in Hrw by (rewrite Hat; by destruct g). apply Hrw; try done. cbn. pose proof (ti_next _ _ Hinv1). lia.
Qed.

(** ** Insertion *)

(** Block numbers left for the splits of one insertion. *)
Definition room {S} (t : BTree S) : Prop := bt_next t + Z.of_nat (size (bt_pages t)) + 2 < U32.

Lemma levels_size {S} (t : BTree S) G : tree_inv t G -> (length G <= size (bt_pages t))%nat.
Proof.
  intros Hinv. etrans; [|by apply length_blocks_size]. assert (Forall (fun c : list gnode => c <> []) G) as Hne.
  { apply Forall_lookup_2. intros l c Hl ->. by destruct (lo_head _ (ti_lows _ _ Hinv _ _ Hl)) as (g & rest & ? & _). }
  clear Hinv. induction Hne as [|c G Hc _ IH]; cbn; [lia|]. rewrite length_app. destruct c; [done|]. cbn. lia.
Qed.

Lemma path_ok_length G key rpath : forall l lo, path_ok G l lo key rpath -> (l + Datatypes.S (length rpath) = length G)%nat.
Proof.
  induction rpath as [|b rest IH]; intros l lo; cbn; [lia|]. intros (pre & P & post & _ & _ & _ & _ & _ & H).
  apply IH in H. lia.
Qed.

Definition insert_post {S} (t : BTree S) (G : list (list gnode)) (e : LeafEntry) (dup : bool)
    (r : result unit BTreeError) (t' : BTree S) : Prop :=
  exists G', tree_inv t' G' /\ (faulty t' -> faulty t \/ r = Err BWal) /\
  match r with
  | Ok _ => insert_effect G G' e dup
  | Err DuplicateKey => shape G' = shape G /\ collides (contents G) e dup
  | Err BufferPool => faulty t /\ (shape G' = shape G \/ insert_effect G G' e dup)
  | Err BWal => insert_effect G G' e dup
  | Err _ => False
  end.

Lemma insert_post_upper {S} (t t1 t2 : BTree S) G G1 e dup (r : result unit BTreeError) :
  (faulty t1 -> faulty t) -> insert_effect G G1 e dup -> restructured t1 G1 r t2 -> insert_post t G e dup r t2.
Proof.
  intros Hf He (Hf2 & (G' & Hinv' & Hs) & Hr). exists G'. split; [done|]. split; [auto|].
  pose proof (insert_effect_shape G G1 G' e dup Hs He) as He'. destruct r as [u|err]; [done|]. destruct Hr as [-> Hfa]. auto.
Qed.

(** The records of an insertion, between the leaf and its parents. *)
Lemma insert_log_spec {S} crc rel xid (wal : option (WalSink S)) (t : BTree S) G b key_bytes cv Q (k : M S unit) :
  wal_ok wal -> tree_inv t G -> b ∈ blocks G -> (length key_bytes <= 8)%nat -> (length cv <= 12)%nat ->
  (forall t', tree_inv t' G -> bt_next t' = bt_next t -> (faulty t' -> faulty t) -> wp k t' Q) ->
  (forall t', tree_inv t' G -> Q (Err BWal) t') ->
  (forall t', tree_inv t' G -> (faulty t' -> faulty t) -> faulty t -> Q (Err BufferPool) t') ->
  wp (match wal with
      | None => mret tt
      | Some sink => lsn ← log_op crc rel sink BInsert xid b key_bytes cv; stamp_page_lsn b lsn
      end;; k) t Q.
Proof.
  intros Hw Hinv Hb Hk Hc Hok Hwal Hbp. wstep. destruct wal as [sink|]; [|apply wp_ret; by apply Hok].
  wstep. eapply wp_mono; [by apply log_op_spec|]. intros [lsn|err] t1 (E1 & E2 & E3 & Hr).
  2: { rewrite Hr. apply Hwal. pose proof (ti_next _ _ Hinv). apply (tree_inv_next t); [done|done|done|lia]. }
  destruct Hr as [Hl Hf1]. pose proof (ti_next _ _ Hinv). assert (tree_inv t1 G) as Hinv1 by (apply (tree_inv_next t); [done|done|done|lia]).
  eapply wp_mono; [by apply (stamp_spec t1 G)|]. intros [u|err] t2 (Hinv2 & En & Hf2 & Hr2).
  - apply Hok; [done|congruence|auto].
  - destruct Hr2 as [-> Hfa]. apply Hbp; [done|auto|auto].
Qed.

Lemma insert_inner_spec {S} crc rel (t : BTree S) G key value xid wal dup :
  tree_inv t G -> room t -> wal_ok wal -> leaf_fits (mk_LeafEntry key value) ->
  wp (insert_inner crc rel key value xid wal dup) t (insert_post t G (mk_LeafEntry key value) dup).
Proof.
  intros Hinv Hroom Hwal Hfits. pose proof (levels_size t G Hinv) as Hlev. unfold room in Hroom. set (e := mk_LeafEntry key value) in *.
  unfold insert_inner. wstep. apply wp_lift. wstep. apply wp_lift.
  destruct (root_node t G Hinv) as (l & g0 & post0 & Hat0 & <- & Hlow0 & Htop). wstep.
  eapply wp_mono; [apply (descend_to_leaf_spec G _ t l [] g0 post0); [done|done|by rewrite Hlow0|cbn; by rewrite Htop|]|].
  { pose proof (remaining_total t G l [] g0 post0 Hinv Hat0). lia. }
  intros [found|err] t1 [Hf1 Hr].
  2: { destruct Hr as [-> Hfa]. exists G. split; [by eapply tree_inv_fetched|]. split; [intros _; by left|]. split; [done|by left]. }
  destruct Hr as (pre & g & post & Hat & <- & Hlow & Hhigh & Hpath). pose proof (tree_inv_fetched _ _ _ Hf1 Hinv) as Hinv1.
  pose proof (path_ok_length _ _ _ _ _ Hpath) as Hplen. rewrite length_rev in Hplen.
  pose proof (path_nested t1 G key _ 0 pre g post Hinv1 Hat Hlow Hhigh Hpath) as Hnest. pose proof (fe_next _ _ Hf1) as Hn1.
  destruct (leaf_body t G pre post g Hinv Hat) as [es Hes]. cbv zeta. wstep.
  eapply wp_mono; [apply (insert_into_leaf_spec _ t1 G pre g post es); [done|done|done|done|done|done|lia]|]. fold e.
  intros r t2 (Hf2 & Hn2 & Hr). destruct r as [split|err].
  2: { destruct Hr as [Hinv2 Hor]. exists G. split; [done|]. split; [intros Hx; left; apply Hf1; by apply Hf2|].
       destruct Hor as [(-> & Hc & _)|(-> & Hfa)]; [|split; [by apply Hf1|by left]]. split; [done|].
       assert (forall y, y ∈ es -> y ∈ contents G) as Hin.
       { intros y Hy. rewrite (contents_at _ _ Hat), level_entries_app, level_entries_cons, !elem_of_app. right. left.
         unfold leaf_entries. by rewrite Hes. }
       unfold collides in *. destruct dup; [by apply Hin|]. destruct Hc as (y & Hy & Hk). exists y. auto. }
  destruct Hr as (G2 & Hinv2 & He2 & Hlen2 & Hup2 & Hblk2 & Hsplit).
  assert (forall t' : BTree S, (faulty t' -> faulty t2) -> faulty t' -> faulty t) as Hback by (intros t' H Hx; apply Hf1, Hf2, H, Hx).
  eapply (insert_log_spec crc rel xid wal t2 G2); [done|done|done|by rewrite length_i64|by rewrite length_tid_wire| | |].
  2: { intros t' Hinv'. exists G2. split; [done|]. split; [intros _; by right|done]. }
  2: { intros t' Hinv' Hf' Hfa. exists G2. split; [done|]. split; [intros Hx; left; by apply (Hback t')|]. split; [by apply (Hback t2)|by right]. }
  intros t3 Hinv3 Hn3 Hf3. destruct split as [[sep nb]|].
  2: { apply wp_ret. exists G2. split; [done|]. split; [intros Hx; left; by apply (Hback t3)|done]. }
  destruct Hsplit as (Hs64 & Hnb & Hslo & Hshi & Hch).
  assert (forall t' : BTree S, tree_inv t' G2 -> bt_next t' = bt_next t3 -> (faulty t' -> faulty t3) ->
    wp (propagate_split (rev found.2) sep nb) t' (insert_post t G e dup)) as Hprop.
  { intros t' Hinv' Hn' Hf'. eapply wp_mono.
    - apply (propagate_spec _ t' G2 0 (g_low g) (hd_low post)); [done| |done|done|done|done|done|rewrite length_rev; lia].
      eapply path_hi_levels; [|exact Hlen2|exact Hnest]. intros j Hj. by apply Hup2.
    - intros r t4 Hr. eapply (insert_post_upper t t' t4); [|done|exact Hr]. intros Hx. apply (Hback t3); [done|auto]. }
  wstep. destruct wal as [sink|]; [|apply wp_ret; by apply Hprop].
  wstep. eapply wp_mono; [apply log_op_spec; [done|by rewrite length_i64|rewrite length_le_encode; lia]|].
  intros [lsn|err] t4 (E1 & E2 & E3 & Hr); pose proof (ti_next _ _ Hinv3);
    assert (tree_inv t4 G2) as Hinv4 by (apply (tree_inv_next t3); [done|done|done|lia]).
  - apply wp_ret. apply Hprop; [done|done|apply Hr].
  - rewrite Hr. exists G2. split; [done|]. split; [intros _; by right|done].
Qed.
