(* ===== verification/BTreeReads.v ===== *)
(** * The B-link tree: lookups, deletion, vacuum and scans *)

From S2P Require Import Prelude CoreIds WalRecord WalPayload WalPayloadIndex WalSink Bytes Page PageSpec BtNode BtNodeSpec BTree BTreeInv BTreeLeaf BTreeInner BTreeOps.

(** ** The entries are sorted by key *)

Lemma suffix_sorted {S} (t : BTree S) G c : tree_inv t G -> forall pre, G !! 0%nat = Some (pre ++ c) ->
  StronglySorted Z.le (map le_key (level_entries c)).
Proof.
  intros Hinv. induction c as [|g c IH]; intros pre Hat; [constructor|].
  rewrite level_entries_cons, map_app, StronglySorted_app.
  destruct (node_here t G Hinv 0 pre c g Hat) as (_ & Hok & _). destruct (leaf_body t G pre c g Hinv Hat) as [es Hes].
  unfold leaf_entries. rewrite Hes in Hok |- *. destruct Hok as [Hs Hf]. split; [|split].
  - intros a b Ha Hb. apply list_elem_of_fmap in Ha as (x & -> & Hx). apply list_elem_of_fmap in Hb as (y & -> & Hy).
    destruct (right_keys t G pre c g Hinv Hat y Hy) as (h & Hh & Hle). rewrite Forall_forall in Hf. destruct (Hf x Hx) as [_ Hhi].
    rewrite Hh in Hhi. cbn in Hhi. lia.
  - by apply leaf_keys_sorted.
  - apply (IH (pre ++ [g])). by rewrite <- app_assoc.
Qed.

Lemma contents_sorted {S} (t : BTree S) G : tree_inv t G -> StronglySorted Z.le (map le_key (contents G)).
Proof.
  intros Hinv. unfold contents. destruct (G !! 0%nat) as [c|] eqn:E; [|constructor]. by apply (suffix_sorted t G c Hinv []).
Qed.

(** A walk along the leaves reads this page. *)
Lemma leaf_page {S} (t : BTree S) G pre g post : tree_inv t G -> G !! 0%nat = Some (pre ++ g :: post) -> exists m,
  NodeMeta_read (page_of t (g_blk g)) = Ok m /\ read_leaf_entries (page_of t (g_blk g)) (n_keys m) = Ok (leaf_entries g) /\
  node_page (page_of t (g_blk g)) m (LeafB (leaf_entries g)) /\ right_link m = hd_blk post /\ node_high m = hd_low post.
Proof.
  intros Hinv Hat. destruct (page_here t G Hinv 0 pre post g Hat) as (m & Hp & Hr & Hh & _).
  destruct (leaf_body t G pre post g Hinv Hat) as [es Hes]. unfold leaf_entries. rewrite Hes in *. exists m.
  split; [by eapply node_read_meta|]. split; [by apply node_read_leaf|done].
Qed.

(** The end of the chain. *)
Lemma last_sibling {S} (t : BTree S) G pre g post m : tree_inv t G -> G !! 0%nat = Some (pre ++ g :: post) ->
  right_link m = hd_blk post -> (right_link m =? NO_SIBLING) = match post with [] => true | _ => false end.
Proof.
  intros Hinv Hat ->. destruct post as [|g' post']; cbn; [done|]. apply Z.eqb_neq.
  eapply (blk_not_sibling t G Hinv); [exact Hat|]. apply elem_of_app. right. right. left.
Qed.

(** ** Point lookups *)

Lemma matching_app k a b : matching k (a ++ b) = matching k a ++ matching k b.
Proof. unfold matching. by rewrite filter_app, map_app. Qed.

Lemma matching_none k l : (forall e, e ∈ l -> le_key e <> k) -> matching k l = [].
Proof.
  intros H. unfold matching. replace (filter _ l) with (@nil LeafEntry); [done|]. symmetry.
  induction l as [|e l IH]; [done|]. rewrite filter_cons_False by (apply H; left). apply IH. intros. apply H. by right.
Qed.

Lemma lookup_all_loop_spec {S} G fuel : forall (t : BTree S) pre g post key out,
  tree_inv t G -> G !! 0%nat = Some (pre ++ g :: post) -> (length post < fuel)%nat ->
  wp (lookup_all_loop fuel (g_blk g) key out) t (reads t (fun r => r = out ++ matching key (level_entries (g :: post)))).
Proof.
  induction fuel as [|fuel IH]; intros t pre g post key out Hinv Hat Hfuel; [lia|].
  cbn [lookup_all_loop]. eapply wp_bind_reads; [apply wp_get_page_reads|]. intros p t' Hf ->.
  destruct (leaf_page t G pre g post Hinv Hat) as (m & Hm & He & _ & Hr & Hh). wstep. apply wp_lift. rewrite Hm. wstep. apply wp_lift. rewrite He.
  pose proof (chase_here t G Hinv 0 pre post g Hat m key Hr Hh) as Hc. cbv zeta.
  rewrite level_entries_cons, matching_app. destruct (should_chase_right m key) as [next|].
  - destruct Hc as (g' & post' & -> & -> & _). cbn [length] in Hfuel. rewrite app_assoc.
    apply (IH t' (pre ++ [g]) g' post'); [by eapply tree_inv_fetched|by rewrite <- app_assoc|lia].
  - apply reads_ret. rewrite (matching_none key (level_entries post)), app_nil_r; [done|].
    intros e Hin. destruct (right_keys t G pre post g Hinv Hat e Hin) as (h & Hhd & Hle). rewrite Hhd in Hc. cbn in Hc. lia.
Qed.

Lemma length_level0 {S} (t : BTree S) G pre g post :
  tree_inv t G -> G !! 0%nat = Some (pre ++ g :: post) -> (length (pre ++ g :: post) <= size (bt_pages t))%nat.
Proof.
  intros Hinv Hat. etrans; [|by apply length_blocks_size]. destruct G as [|c G]; [done|]. injection Hat as ->. cbn [concat]. rewrite (length_app (pre ++ g :: post)). lia.
Qed.

(** Entries before the start of a leftmost descent are below the key. *)
Lemma before_start {S} (t : BTree S) G pre g post key e :
  tree_inv t G -> G !! 0%nat = Some (pre ++ g :: post) -> gt_low (g_low g) key -> e ∈ level_entries pre -> le_key e < key.
Proof.
  intros Hinv Hat Hgt He. destruct (left_keys t G pre post g Hinv Hat e He) as (lo & Hlo & Hle). rewrite Hlo in Hgt. cbn in Hgt. lia.
Qed.

Lemma lookup_all_spec {S} (t : BTree S) G key :
  tree_inv t G -> wp (lookup_all key) t (reads t (fun r => r = matching key (contents G))).
Proof.
  intros Hinv. unfold lookup_all. wstep. apply wp_lift. wstep. apply wp_lift.
  destruct (root_node t G Hinv) as (l & g0 & post0 & Hat0 & <- & Hlow0 & _).
  eapply wp_bind_reads.
  { apply (descend_leftmost_spec G _ t l [] g0 post0); [done|done|by rewrite Hlow0|]. pose proof (remaining_total t G l [] g0 post0 Hinv Hat0). lia. }
  intros b t' Hf (pre & g & post & Hat & <- & Hgt). pose proof (length_level0 t G pre g post Hinv Hat) as Hl. rewrite length_app in Hl. cbn in Hl.
  eapply wp_mono; [apply (lookup_all_loop_spec G _ t' pre g post); [by eapply tree_inv_fetched|done|lia]|].
  intros r t2 [Hf2 Hr]. split; [done|]. destruct r; [|done]. rewrite Hr, (contents_at _ _ Hat), level_entries_app, matching_app.
  rewrite (matching_none key (level_entries pre)); [done|]. intros e He. pose proof (before_start t G pre g post key e Hinv Hat Hgt He). lia.
Qed.

(** A point lookup is exact on a tree whose keys are below the high keys. *)
Definition found_by (G : list (list gnode)) (key : Z) (r : option TupleId) : Prop :=
  match r with
  | Some v => mk_LeafEntry key v ∈ contents G
  | None => strict G -> forall e, e ∈ contents G -> le_key e <> key
  end.

Lemma lookup_spec {S} (t : BTree S) G key : tree_inv t G -> wp (lookup key) t (reads t (found_by G key)).
Proof.
  intros Hinv. unfold lookup. wstep. apply wp_lift. wstep. apply wp_lift.
  destruct (root_node t G Hinv) as (l & g0 & post0 & Hat0 & <- & Hlow0 & _). eapply wp_bind_reads.
  { apply (descend_readonly_spec G _ t l [] g0 post0); [done|done|by rewrite Hlow0|]. pose proof (remaining_total t G l [] g0 post0 Hinv Hat0). lia. }
  intros b t1 Hf (pre & g & post & Hat & <- & Hlow & Hhigh). pose proof (tree_inv_fetched _ _ _ Hf Hinv) as Hinv1.
  cbn [lookup_in_leaf]. eapply wp_bind_reads; [apply wp_get_page_reads|]. intros p t2 Hf2 ->. wstep. apply wp_lift.
  destruct (leaf_page t1 G pre g post Hinv1 Hat) as (m & Hm & He & _ & Hr & Hh). unfold probe_leaf. rewrite Hm.
  pose proof (chase_here t1 G Hinv1 0 pre post g Hat m key Hr Hh) as Hc. destruct (should_chase_right m key) as [next|].
  { destruct Hc as (g' & post' & -> & _ & Hge). cbn in Hhigh. pose proof (next_low t G Hinv 0 pre _ g Hat) as [h Hg]. rewrite Hg in *. cbn in *. lia. }
  rewrite He. destruct (node_here t G Hinv 0 pre post g Hat) as (_ & Hok & _). destruct (leaf_body t G pre post g Hinv Hat) as [es Hes].
  assert (leaf_entries g = es) as -> by (unfold leaf_entries; by rewrite Hes). rewrite Hes in Hok. destruct Hok as [Hs _].
  assert (contents G = level_entries pre ++ es ++ level_entries post) as HC.
  { rewrite (contents_at _ _ Hat), level_entries_app, level_entries_cons. unfold leaf_entries. by rewrite Hes. }
  pose proof (binary_search_by_spec (fun x => le_key x ?= key) es) as Hb. destruct (binary_search_by _ es) as [i|i].
  - destruct Hb as (y & Hy & Hk%Z.compare_eq_iff).
    { intros i' j a b Hle Ha Hb. pose proof (sorted_keys_mono le_key es i' j a b (leaf_keys_sorted es Hs) Hle Ha Hb).
      destruct (Z.compare_spec (le_key a) key), (Z.compare_spec (le_key b) key); cbn; (done || lia). }
    rewrite Hy. apply reads_ret. cbn. rewrite HC, !elem_of_app. right. left. rewrite <- Hk. destruct y. by eapply list_elem_of_lookup_2.
  - destruct Hb as (_ & Ht & Hd).
    { intros i' j a b Hle Ha Hb. pose proof (sorted_keys_mono le_key es i' j a b (leaf_keys_sorted es Hs) Hle Ha Hb).
      destruct (Z.compare_spec (le_key a) key), (Z.compare_spec (le_key b) key); cbn; (done || lia). }
    apply reads_ret. cbn. intros Hst e. rewrite HC, !elem_of_app. intros [Hin|[Hin|Hin]].
    + destruct (left_keys_strict t G pre post g Hinv Hat e Hst Hin) as (lo & Hlo & Hlt). rewrite Hlo in Hlow. cbn in Hlow. lia.
    + intros Hk. rewrite <- (take_drop i es), elem_of_app in Hin. rewrite Forall_forall in Ht, Hd.
      destruct Hin as [Hin|Hin]; [apply Ht in Hin|apply Hd in Hin]; by rewrite Hk, Z.compare_refl in Hin.
    + destruct (right_keys t G pre post g Hinv Hat e Hin) as (h & Hhd & Hle). rewrite Hhd in Hhigh. cbn in Hhigh. lia.
Qed.

(** ** Removing entries from a leaf *)

Lemma sorted_sublist {A} (R : A -> A -> Prop) l k : sublist l k -> StronglySorted R k -> StronglySorted R l.
Proof.
  induction 1 as [|x l k Hsub IH|x l k Hsub IH]; intros Hs; [done| |].
  - apply StronglySorted_inv in Hs as [Hs Hf]. constructor; [by apply IH|]. rewrite Forall_forall in Hf |- *.
    intros y Hy. apply Hf. by eapply elem_of_sublist.
  - apply IH. by apply StronglySorted_inv in Hs as [Hs _].
Qed.

Lemma Forall_sublist' {A} (P : A -> Prop) l k : sublist l k -> Forall P k -> Forall P l.
Proof. intros Hs Hf. rewrite Forall_forall in *. intros x Hx. apply Hf. by eapply elem_of_sublist. Qed.

(** The tree after the entries of one leaf are thinned out. *)
Definition thin (G : list (list gnode)) (pre : list gnode) (g : gnode) (post : list gnode) (es : list LeafEntry) : list (list gnode) :=
  <[0%nat := pre ++ mk_gnode (g_blk g) (g_low g) (LeafB es) :: post]> G.

Section thin.
Context {S : Type} (t : BTree S) (G : list (list gnode)) (pre post : list gnode) (g : gnode) (es : list LeafEntry).
Hypothesis Hinv : tree_inv t G.
Hypothesis Hat : G !! 0%nat = Some (pre ++ g :: post).
Hypothesis Hsub : sublist es (leaf_entries g).

Lemma thin_level : thin G pre g post es !! 0%nat = Some (pre ++ mk_gnode (g_blk g) (g_low g) (LeafB es) :: post).
Proof using Hat. apply list_lookup_insert_eq. by eapply lookup_lt_Some. Qed.

Lemma thin_contents : contents (thin G pre g post es) = level_entries pre ++ es ++ level_entries post.
Proof using Hat. by rewrite (contents_at _ _ thin_level), level_entries_app. Qed.

Lemma thin_uniq : uniq G -> uniq (thin G pre g post es).
Proof using Hat Hsub.
  intros [Hst Hnd]. split.
  - apply (strict_at _ _ Hat) in Hst. apply (strict_at _ _ thin_level). rewrite each_app in Hst |- *. destruct Hst as [Hp [Hg Hq]].
    split; [|split; [by eapply Forall_sublist'|done]]. eapply each_impl; [exact Hp|]. cbv beta. intros x p _ Hx.
    by rewrite (hd_low_app p _ (g :: post)).
  - rewrite thin_contents. rewrite (contents_at _ _ Hat), level_entries_app, level_entries_cons in Hnd.
    eapply sublist_NoDup; [exact Hnd|]. rewrite !map_app. apply sublist_app; [done|]. apply sublist_app; [|done]. exact (fmap_sublist le_key _ _ Hsub).
Qed.

Lemma wp_thin {A} w m what (k : M S A) Q :
  w = page_of t (g_blk g) -> node_page w m (LeafB (leaf_entries g)) -> right_link m = hd_blk post -> node_high m = hd_low post ->
  (forall t', tree_inv t' (thin G pre g post es) -> bt_next t' = bt_next t -> (faulty t' -> faulty t) -> wp k t' Q) ->
  wp (w1 ← or_panic (write_leaf_entries w es); put_page (g_blk g) w1;; n ← u16_len es what;
      put_page (g_blk g) (NodeMeta_write (with_n_keys m n) w1);; k) t Q.
Proof using Hinv Hat Hsub.
  intros -> Hp Hr Hh Hk. pose proof (np_for _ _ _ Hp) as (Hm & Hn & Hmax & Hl). cbn [body_len body_max] in *.
  pose proof (sublist_length _ _ Hsub) as Hlen.
  apply (wp_store_leaf t (g_blk g) _ es (with_n_keys m)); [apply Hp| | |].
  - split; [done|]. split; [done|]. split; [cbn [body_len body_max]; lia|done].
  - eapply Forall_sublist'; [exact Hsub|]. apply (np_fits _ _ _ Hp).
  - intros p Hnp. apply Hk; [|done|done].
    pose proof (ti_next _ _ Hinv). destruct (node_here t G Hinv 0 pre post g Hat) as (_ & Hok & _).
    destruct (leaf_body t G pre post g Hinv Hat) as [es0 Hes]. unfold leaf_entries in Hsub. rewrite Hes in Hok, Hsub.
    eapply (rewrite_node t _ G 0); [done|done|done|done|cbn; lia|exact Hnp|done|exact Hh| |done].
    destruct Hok as [Hs Hf]. split; [by eapply sorted_sublist|by eapply Forall_sublist'].
Qed.
End thin.

(** ** Deletion *)

Definition is_entry (key : Z) (value : TupleId) (e : LeafEntry) : bool := bool_decide (le_key e = key /\ le_value e = value).

Lemma is_entry_true k v e : is_entry k v e = true <-> e = mk_LeafEntry k v.
Proof. unfold is_entry. rewrite bool_decide_eq_true. destruct e; cbn. naive_solver. Qed.

(** The first occurrence of [e] is gone. *)
Definition removed_first (e : LeafEntry) (l l' : list LeafEntry) : Prop := exists a b, l = a ++ e :: b /\ l' = a ++ b /\ e ∉ a.

Definition delete_step_post {S} (t : BTree S) (G : list (list gnode)) (e : LeafEntry) (front tail : list LeafEntry)
    (r : result (option Z) BTreeError) (t' : BTree S) : Prop :=
  (faulty t' -> faulty t) /\
  match r with
  | Ok (Some b) => exists G' l', tree_inv t' G' /\ b ∈ blocks G' /\ (uniq G -> uniq G') /\
      removed_first e tail l' /\ contents G' = front ++ l'
  | Ok None => fetched t t' /\ e ∉ tail
  | Err err => fetched t t' /\ err = BufferPool /\ faulty t
  end.

Lemma delete_from_leaf_spec {S} G fuel : forall (t : BTree S) pre g post key value,
  tree_inv t G -> G !! 0%nat = Some (pre ++ g :: post) -> (length post < fuel)%nat ->
  wp (delete_from_leaf fuel (g_blk g) key value) t
     (delete_step_post t G (mk_LeafEntry key value) (level_entries pre) (level_entries (g :: post))).
Proof.
  induction fuel as [|fuel IH]; intros t pre g post key value Hinv Hat Hfuel; [lia|]. set (e := mk_LeafEntry key value) in *.
  cbn [delete_from_leaf]. apply wp_fetch; [|intros t' Hf Hfa; split; [apply Hf|done]].
  intros t1 Hf. pose proof (tree_inv_fetched _ _ _ Hf Hinv) as Hinv1. rewrite <- (page_of_fetched t t1 (g_blk g) Hf).
  destruct (leaf_page t1 G pre g post Hinv1 Hat) as (m & Hm & He & Hp & Hr & Hh).
  wstep. apply wp_lift. rewrite Hm. wstep. apply wp_lift. rewrite He. change (fun e0 : LeafEntry => bool_decide _) with (is_entry key value).
  destruct (position (is_entry key value) (leaf_entries g)) as [pos|] eqn:Epos.
  - apply position_Some in Epos as [(x & Hx & Hxt) Hno]. apply is_entry_true in Hxt as ->. cbv zeta.
    pose proof (take_drop_middle _ _ _ Hx) as Hsplit.
    assert (sublist (vec_remove pos (leaf_entries g)) (leaf_entries g)) as Hsub.
    { unfold vec_remove. rewrite <- Hsplit at 3. apply sublist_app; [done|]. by constructor. }
    apply (wp_thin t1 G pre post g _ Hinv1 Hat Hsub _ m); [done|done|done|done|].
    intros t2 Hinv2 _ Hf2. apply wp_ret. split; [intros Hx2; apply Hf; by apply Hf2|].
    exists (thin G pre g post (vec_remove pos (leaf_entries g))), (vec_remove pos (leaf_entries g) ++ level_entries post).
    split; [done|]. split; [|split; [by apply thin_uniq|split; [|by apply thin_contents]]].
    + eapply (elem_of_blocks _ 0 _ (mk_gnode (g_blk g) (g_low g) (LeafB (vec_remove pos (leaf_entries g))))); [by apply thin_level|]. apply elem_of_app. right. left.
    + exists (take pos (leaf_entries g)), (drop (Datatypes.S pos) (leaf_entries g) ++ level_entries post).
      rewrite level_entries_cons. rewrite <- Hsplit at 1. unfold vec_remove. rewrite <- !app_assoc. split; [done|]. split; [done|].
      intros Hin. apply list_elem_of_lookup in Hin as [i Hi]. apply lookup_take_Some in Hi as [Hi Hlt].
      specialize (Hno i e Hlt Hi). assert (is_entry key value e = true) by (by apply is_entry_true). congruence.
  - assert (e ∉ leaf_entries g) as Hnot.
    { intros Hin. apply position_None in Epos. rewrite Forall_forall in Epos. specialize (Epos e Hin).
      assert (is_entry key value e = true) by (by apply is_entry_true). congruence. }
    pose proof (chase_here t1 G Hinv1 0 pre post g Hat m key Hr Hh) as Hc. destruct (should_chase_right m key) as [next|].
    + destruct Hc as (g' & post' & -> & -> & _). cbn [length] in Hfuel.
      eapply wp_mono; [apply (IH t1 (pre ++ [g]) g' post'); [done|by rewrite <- app_assoc|lia]|]. fold e.
      intros r t2 [Hf2 Hr2]. split; [intros Hx; apply Hf; by apply Hf2|]. rewrite level_entries_cons.
      destruct r as [[b|]|err].
      * destruct Hr2 as (G' & l' & H1 & H2 & H3 & (a & b' & Ha & Hl' & Hna) & H5). exists G', (leaf_entries g ++ l').
        split; [done|]. split; [done|]. split; [done|]. split.
        -- exists (leaf_entries g ++ a), b'. rewrite Ha, Hl', <- !app_assoc. split; [done|]. split; [done|]. by apply not_elem_of_app.
        -- rewrite H5, level_entries_app, level_entries_cons. cbn. by rewrite app_nil_r, <- app_assoc.
      * destruct Hr2 as [Hf3 Hn]. split; [by etrans|]. by apply not_elem_of_app.
      * destruct Hr2 as (Hf3 & -> & Hfa). split; [by etrans|]. split; [done|by apply Hf].
    + apply wp_ret. split; [apply Hf|]. split; [done|]. rewrite level_entries_cons. apply not_elem_of_app. split; [done|].
      intros Hin. destruct (right_keys t G pre post g Hinv Hat e Hin) as (h & Hhd & Hle). rewrite Hhd in Hc. cbn in Hc, Hle. lia.
Qed.

Definition delete_post {S} (t : BTree S) (G : list (list gnode)) (e : LeafEntry) (r : result bool BTreeError) (t' : BTree S) : Prop :=
  exists G', tree_inv t' G' /\ (uniq G -> uniq G') /\ (faulty t' -> faulty t \/ r = Err BWal) /\
  match r with
  | Ok true => removed_first e (contents G) (contents G')
  | Ok false => contents G' = contents G /\ e ∉ contents G
  | Err BufferPool => faulty t /\ (contents G' = contents G \/ removed_first e (contents G) (contents G'))
  | Err BWal => removed_first e (contents G) (contents G')
  | Err _ => False
  end.

Lemma delete_inner_spec {S} crc rel (t : BTree S) G key value xid wal :
  tree_inv t G -> wal_ok wal -> wp (delete_inner crc rel key value xid wal) t (delete_post t G (mk_LeafEntry key value)).
Proof.
  intros Hinv Hwal. set (e := mk_LeafEntry key value). unfold delete_inner. wstep. apply wp_lift. wstep. apply wp_lift.
  destruct (root_node t G Hinv) as (l & g0 & post0 & Hat0 & <- & Hlow0 & _). wstep. eapply wp_mono.
  { apply (descend_leftmost_spec G _ t l [] g0 post0); [done|done|by rewrite Hlow0|]. pose proof (remaining_total t G l [] g0 post0 Hinv Hat0). lia. }
  intros [b|err] t1 [Hf Hr].
  2: { destruct Hr as [-> Hfa]. exists G. split; [by eapply tree_inv_fetched|]. split; [done|]. split; [intros _; by left|]. split; [done|by left]. }
  destruct Hr as (pre & g & post & Hat & <- & Hgt). pose proof (length_level0 t G pre g post Hinv Hat) as Hl. rewrite length_app in Hl. cbn in Hl.
  assert (Hpre : e ∉ level_entries pre).
  { intros Hin. pose proof (before_start t G pre g post key e Hinv Hat Hgt Hin). cbn in *. lia. }
  assert (HC : contents G = level_entries pre ++ level_entries (g :: post)) by (by rewrite (contents_at _ _ Hat), level_entries_app).
  wstep. eapply wp_mono; [apply (delete_from_leaf_spec G _ t1 pre g post); [by eapply tree_inv_fetched|done|lia]|]. fold e.
  intros r t2 [Hf2 Hr]. destruct r as [[b|]|err].
  2: { destruct Hr as [Hf3 Hn]. apply wp_ret. pose proof (transitivity Hf Hf3) as Hf'. exists G. split; [by eapply tree_inv_fetched|]. split; [done|].
       split; [intros Hx; left; by apply Hf'|]. split; [done|]. rewrite HC. by apply not_elem_of_app. }
  2: { destruct Hr as (Hf3 & -> & Hfa). pose proof (transitivity Hf Hf3) as Hf'. exists G. split; [by eapply tree_inv_fetched|]. split; [done|].
       split; [intros _; left; by apply Hf|]. split; [by apply Hf|by left]. }
  destruct Hr as (G' & l' & Hinv2 & Hb & Hu & (a & b' & Ha & Hl' & Hna) & HC').
  assert (removed_first e (contents G) (contents G')) as Hrem.
  { exists (level_entries pre ++ a), b'. rewrite HC, HC', Ha, Hl', <- !app_assoc. split; [done|]. split; [done|]. by apply not_elem_of_app. }
  assert (Hback : faulty t2 -> faulty t) by (intros Hx; by apply Hf, Hf2).
  wstep. destruct wal as [sink|]; [|apply wp_ret, wp_ret; exists G'; split; [done|]; split; [done|]; split; [auto|done]].
  destruct xid as [x|]; [|apply wp_ret, wp_ret; exists G'; split; [done|]; split; [done|]; split; [auto|done]].
  wstep. eapply wp_mono; [apply log_op_spec; [done|by rewrite length_i64|by rewrite length_tid_wire]|].
  pose proof (ti_next _ _ Hinv2) as Hnx. intros [lsn|err] t3 (E1 & E2 & E3 & Hr);
    assert (tree_inv t3 G') as Hinv3 by (apply (tree_inv_next t2); [done|done|done|lia]).
  - destruct Hr as [Hlsn Hf3]. eapply wp_mono; [by apply (stamp_spec t3 G')|]. intros [u|err] t4 (Hinv4 & _ & Hf4 & Hr4).
    + apply wp_ret. exists G'. split; [done|]. split; [done|]. split; [auto|done].
    + destruct Hr4 as [-> Hfa]. exists G'. split; [done|]. split; [done|]. split; [auto|]. split; [auto|by right].
  - rewrite Hr. exists G'. split; [done|]. split; [done|]. split; [by right|done].
Qed.

(** ** Vacuum *)

Definition alive (is_dead : TupleId -> bool) (l : list LeafEntry) : list LeafEntry :=
  filter (fun e => is_dead (le_value e) = false) l.

Lemma alive_app d a b : alive d (a ++ b) = alive d a ++ alive d b.
Proof. apply filter_app. Qed.

(** A pass that stopped after a prefix of the leaves has cleaned that prefix. *)
Definition vacuum_step_post {S} (is_dead : TupleId -> bool) (t : BTree S) (G : list (list gnode)) (front tail : list LeafEntry) (removed : Z)
    (r : result Z BTreeError) (t' : BTree S) : Prop :=
  (faulty t' -> faulty t) /\
  exists G' a b, tree_inv t' G' /\ (uniq G -> uniq G') /\ tail = a ++ b /\ contents G' = front ++ alive is_dead a ++ b /\
  match r with
  | Ok n => b = [] /\ n = removed + Z.of_nat (length a) - Z.of_nat (length (alive is_dead a))
  | Err e => e = BufferPool /\ faulty t
  end.

Lemma alive_sublist d l : sublist (alive d l) l.
Proof. unfold alive. induction l as [|e l IH]; [done|]. rewrite filter_cons. case_decide; by constructor. Qed.

Lemma alive_full d l : length (alive d l) = length l -> alive d l = l.
Proof.
  unfold alive. induction l as [|e l IH]; [done|]. rewrite filter_cons. case_decide; cbn.
  - intros [= Hl]. f_equal. by apply IH.
  - intros Hl. pose proof (length_filter (fun e => d (le_value e) = false) l). lia.
Qed.

(** One leaf of the pass. *)
Lemma vacuum_leaf_spec {S} is_dead (t : BTree S) G pre g post m Q :
  tree_inv t G -> G !! 0%nat = Some (pre ++ g :: post) -> node_page (page_of t (g_blk g)) m (LeafB (leaf_entries g)) ->
  right_link m = hd_blk post -> node_high m = hd_low post ->
  (forall t', tree_inv t' (thin G pre g post (alive is_dead (leaf_entries g))) -> (faulty t' -> faulty t) -> Q (Ok tt) t') ->
  wp (if Z.of_nat (length (alive is_dead (leaf_entries g))) <? Z.of_nat (length (leaf_entries g)) then
        w1 ← or_panic (write_leaf_entries (page_of t (g_blk g)) (alive is_dead (leaf_entries g)));
        put_page (g_blk g) w1;;
        n ← u16_len (alive is_dead (leaf_entries g)) "vacuum overflow";
        put_page (g_blk g) (NodeMeta_write (with_n_keys m n) w1);;
        mret tt
      else mret tt) t Q.
Proof.
  intros Hinv Hat Hp Hr Hh HQ. pose proof (alive_sublist is_dead (leaf_entries g)) as Hsub.
  destruct (Z.ltb_spec (Z.of_nat (length (alive is_dead (leaf_entries g)))) (Z.of_nat (length (leaf_entries g)))) as [Hlt|Hge].
  - apply (wp_thin t G pre post g _ Hinv Hat Hsub _ m "vacuum overflow" (mret tt) Q eq_refl Hp Hr Hh).
    intros t' Hinv' _ Hf. apply wp_ret. by apply HQ.
  - apply wp_ret. apply HQ; [|done]. pose proof (sublist_length _ _ Hsub). rewrite alive_full by lia.
    destruct (leaf_body t G pre post g Hinv Hat) as [es Hes]. unfold thin, leaf_entries. rewrite Hes.
    rewrite list_insert_id; [done|]. rewrite Hat. do 2 f_equal. destruct g; cbn in *. by rewrite Hes.
Qed.

Lemma vacuum_loop_spec {S} is_dead fuel : forall (t : BTree S) G pre g post removed,
  tree_inv t G -> G !! 0%nat = Some (pre ++ g :: post) -> (length post < fuel)%nat ->
  wp (vacuum_loop is_dead fuel (g_blk g) removed) t
     (vacuum_step_post is_dead t G (level_entries pre) (level_entries (g :: post)) removed).
Proof.
  induction fuel as [|fuel IH]; intros t G pre g post removed Hinv Hat Hfuel; [lia|]. cbn [vacuum_loop].
  assert (HC : contents G = level_entries pre ++ level_entries (g :: post)) by (by rewrite (contents_at _ _ Hat), level_entries_app).
  apply wp_fetch.
  2: { intros t' Hf Hfa. split; [apply Hf|]. exists G, [], (level_entries (g :: post)). split; [by eapply tree_inv_fetched|]. done. }
  intros t1 Hf. pose proof (tree_inv_fetched _ _ _ Hf Hinv) as Hinv1. rewrite <- (page_of_fetched t t1 (g_blk g) Hf).
  destruct (leaf_page t1 G pre g post Hinv1 Hat) as (m & Hm & He & Hp & Hr & Hh).
  wstep. apply wp_lift. rewrite Hm. wstep. apply wp_lift. rewrite He. cbv zeta.
  change (filter (fun e => is_dead (le_value e) = false) (leaf_entries g)) with (alive is_dead (leaf_entries g)).
  wstep. apply (vacuum_leaf_spec is_dead t1 G pre g post m); [done|done|done|done|done|]. intros t2 Hinv2 Hf2.
  set (n := removed + _). rewrite (last_sibling t1 G pre g post m Hinv1 Hat Hr).
  pose proof (alive_sublist is_dead (leaf_entries g)) as Hsub.
  set (G2 := thin G pre g post (alive is_dead (leaf_entries g))) in *.
  assert (uniq G -> uniq G2) as Hu by (by apply thin_uniq).
  destruct post as [|g' post'].
  - apply wp_ret. split; [intros Hx; by apply Hf, Hf2|]. exists G2, (leaf_entries g), []. rewrite level_entries_cons. cbn [level_entries map concat].
    split; [done|]. split; [done|]. split; [done|]. split; [unfold G2; rewrite (thin_contents G pre [] g _ Hat); done|]. split; [done|]. unfold n. lia.
  - cbn [length] in Hfuel. rewrite Hr. cbn [hd_blk]. set (g1 := mk_gnode (g_blk g) (g_low g) (LeafB (alive is_dead (leaf_entries g)))).
    eapply wp_mono; [apply (IH t2 G2 (pre ++ [g1]) g' post'); [done|unfold G2; rewrite (thin_level G pre _ g _ Hat); by rewrite <- app_assoc|lia]|].
    intros r t3 (Hf3 & G' & a & b & Hinv3 & Hu3 & Htl & HC3 & Hr3). split; [intros Hx; by apply Hf, Hf2, Hf3|].
    exists G', (leaf_entries g ++ a), b. rewrite level_entries_cons, Htl, <- app_assoc. split; [done|]. split; [auto|]. split; [done|].
    split; [rewrite HC3, level_entries_app, alive_app, <- !app_assoc; cbn; by rewrite app_nil_r|].
    destruct r as [k|err]; [|destruct Hr3 as [-> Hfa]; split; [done|by apply Hf, Hf2]]. destruct Hr3 as [-> ->]. split; [done|].
    rewrite alive_app, !length_app. unfold n. lia.
Qed.

Lemma vacuum_spec {S} is_dead (t : BTree S) G :
  tree_inv t G -> wp (vacuum is_dead) t (vacuum_step_post is_dead t G [] (contents G) 0).
Proof.
  intros Hinv. unfold vacuum. wstep. apply wp_lift. wstep. apply wp_lift.
  destruct (root_node t G Hinv) as (l & g0 & post0 & Hat0 & <- & Hlow0 & _). wstep. eapply wp_mono.
  { apply (leftmost_leaf_spec G _ t l g0 post0); [done|done|done|]. pose proof (remaining_total t G l [] g0 post0 Hinv Hat0). lia. }
  intros [b|err] t1 [Hf Hr].
  2: { destruct Hr as [-> Hfa]. split; [apply Hf|]. exists G, [], (contents G). split; [by eapply tree_inv_fetched|]. done. }
  destruct Hr as (g & post & Hat & <-). pose proof (length_level0 t G [] g post Hinv Hat) as Hl. cbn in Hl.
  eapply wp_mono; [apply (vacuum_loop_spec is_dead _ t1 G [] g post); [by eapply tree_inv_fetched|done|lia]|].
  intros r t2 (Hf2 & G' & a & b & Hinv2 & Hu & Htl & HC & Hr). split; [intros Hx; by apply Hf, Hf2|].
  exists G', a, b. rewrite (contents_at _ _ Hat). split; [done|]. split; [done|]. split; [done|]. split; [done|].
  destruct r; [done|]. destruct Hr as [-> Hfa]. split; [done|by apply Hf].
Qed.
