(* ===== verification/BTreeScan.v ===== *)
(** * The B-link tree: range scans *)

From S2P Require Import Prelude CoreIds WalSink Bytes Page PageSpec BtNode BtNodeSpec BTree BTreeInv BTreeLeaf BTreeInner BTreeOps BTreeReads.

(** ** The iterator against the list of entries still ahead of it *)

Fixpoint next_item (start : Z) (end_ : option Z) (R : list LeafEntry) : Item * list LeafEntry :=
  match R with
  | [] => (INone, [])
  | e :: R' =>
      if le_key e <? start then next_item start end_ R'
      else if past_end end_ (le_key e) then (INone, [])
      else (IEntry (le_key e) (le_value e), R')
  end.

(** What the iterator has still to visit. *)
Definition ahead (G : list (list gnode)) (it : RangeIter) (R : list LeafEntry) : Prop :=
  match current_leaf it with
  | None => R = []
  | Some b => exists pre g post, G !! 0%nat = Some (pre ++ g :: post) /\ g_blk g = b /\
                R = drop (current_slot it) (leaf_entries g) ++ level_entries post
  end.

Definition next_post {S} (t : BTree S) (G : list (list gnode)) (it : RangeIter) (R : list LeafEntry)
    (r : result (Item * RangeIter) BTreeError) (t' : BTree S) : Prop :=
  fetched t t' /\
  match r with
  | Err _ => False
  | Ok (item, it') =>
      (item = IError BufferPool /\ faulty t) \/
      (started it' = true /\ ri_start it' = ri_start it /\ ri_end it' = ri_end it /\
       ahead G it' (next_item (ri_start it) (ri_end it) R).2 /\ item = (next_item (ri_start it) (ri_end it) R).1)
  end.

Lemma wp_item_or {S A} (m : M S A) it (k : A -> M S (Item * RangeIter)) (t : BTree S) Q :
  wp m t (fun r t' => match r with Ok a => wp (k a) t' Q | Err e => Q (Ok (IError e, it)) t' end) -> wp (item_or m it k) t Q.
Proof. unfold wp, item_or. destruct (m t) as [[[a|e] t']|]; auto. Qed.

Lemma next_post_fetched {S} (t t1 : BTree S) G it it1 R R1 r t2 :
  fetched t t1 -> started it1 = started it -> ri_start it1 = ri_start it -> ri_end it1 = ri_end it ->
  next_item (ri_start it) (ri_end it) R1 = next_item (ri_start it) (ri_end it) R ->
  next_post t1 G it1 R1 r t2 -> next_post t G it R r t2.
Proof.
  intros Hf _ Hs He Hn [Hf2 Hr]. split; [by etrans|]. destruct r as [[item it']|]; [|done].
  destruct Hr as [[-> Hfa]|Hr]; [left; split; [done|by apply Hf]|right]. rewrite Hs, He, Hn in Hr. done.
Qed.

Lemma next_loop_spec {S} G fuel : forall (t : BTree S) pre g post it,
  tree_inv t G -> G !! 0%nat = Some (pre ++ g :: post) -> current_leaf it = Some (g_blk g) -> started it = true ->
  (length (drop (current_slot it) (leaf_entries g) ++ level_entries post) + length post < fuel)%nat ->
  wp (next_loop fuel it) t (next_post t G it (drop (current_slot it) (leaf_entries g) ++ level_entries post)).
Proof.
  induction fuel as [|fuel IH]; intros t pre g post it Hinv Hat Hcur Hst Hfuel; [lia|]. cbn [next_loop]. rewrite Hcur.
  apply wp_item_or. apply wp_fetch; [|intros t' Hf Hfa; split; [done|by left]].
  intros t1 Hf. pose proof (tree_inv_fetched _ _ _ Hf Hinv) as Hinv1.
  destruct (leaf_page t G pre g post Hinv Hat) as (m & Hm & He & _ & Hr & _).
  wstep. apply wp_lift. rewrite Hm. wstep. apply wp_lift. rewrite He. apply wp_ret. cbv beta iota.
  destruct (leaf_entries g !! current_slot it) as [e|] eqn:Ee.
  - rewrite (drop_S _ _ _ Ee) in Hfuel |- *. cbn [app] in *. set (it1 := at_leaf it _ _).
    assert (Hcur1 : current_leaf it1 = Some (g_blk g)) by done.
    destruct (Z.ltb_spec (le_key e) (ri_start it)) as [Hlt|Hge].
    + eapply wp_mono; [apply (IH t1 pre g post it1 Hinv1 Hat Hcur1); [done|cbn [length] in Hfuel; cbn; lia]|].
      intros r t2. apply next_post_fetched; [done|done|done|done|]. cbn. by rewrite (proj2 (Z.ltb_lt _ _)).
    + destruct (past_end (ri_end it) (le_key e)) eqn:Ep.
      * apply wp_ret. split; [done|]. right. cbn. rewrite (proj2 (Z.ltb_ge _ _)), Ep by done. done.
      * apply wp_ret. split; [done|]. right. cbn [next_item]. rewrite (proj2 (Z.ltb_ge _ _)), Ep by done. cbn [fst snd].
        split; [done|]. split; [done|]. split; [done|]. split; [|done]. unfold ahead. rewrite Hcur1. by exists pre, g, post.
  - assert (drop (current_slot it) (leaf_entries g) = []) as Hd by (apply drop_ge; by apply lookup_ge_None).
    rewrite Hd in Hfuel |- *. cbn [app] in *. rewrite (last_sibling t G pre g post m Hinv Hat Hr). destruct post as [|g' post'].
    + apply wp_ret. split; [done|]. right. by cbn.
    + rewrite Hr. cbn [hd_blk]. rewrite level_entries_cons in Hfuel |- *.
      eapply wp_mono; [apply (IH t1 (pre ++ [g]) g' post'); [done|by rewrite <- app_assoc|done|done|cbn [current_slot at_leaf]; rewrite drop_0; cbn [length] in Hfuel; lia]|].
      intros r t2. cbn [current_slot at_leaf]. rewrite drop_0. by apply next_post_fetched.
Qed.

(** The steps of one [next] are within its fuel. *)
Lemma leaf_entries_max {S} (t : BTree S) G pre g post :
  tree_inv t G -> G !! 0%nat = Some (pre ++ g :: post) -> (length (leaf_entries g) <= 32)%nat.
Proof.
  intros Hinv Hat. destruct (leaf_page t G pre g post Hinv Hat) as (m & _ & _ & Hp & _).
  pose proof (np_for _ _ _ Hp) as (_ & _ & Hmax & _). cbn [body_len body_max] in Hmax. unfold MAX_LEAF_ENTRIES in Hmax. lia.
Qed.

Lemma level_entries_max {S} (t : BTree S) G c : tree_inv t G -> forall pre, G !! 0%nat = Some (pre ++ c) ->
  (length (level_entries c) + length c <= 33 * length c)%nat.
Proof.
  intros Hinv. induction c as [|g c IH]; intros pre Hat; [cbn; lia|]. pose proof (leaf_entries_max t G pre g c Hinv Hat).
  specialize (IH (pre ++ [g]) ltac:(by rewrite <- app_assoc)). rewrite level_entries_cons, length_app. cbn [length]. lia.
Qed.

Lemma next_spec {S} (t : BTree S) G it R :
  tree_inv t G -> (started it = true -> ahead G it R) -> (started it = false -> current_leaf it = None /\ R = contents G) ->
  wp (next it) t (next_post t G it R).
Proof.
  intros Hinv Hah Hfresh. unfold next. wstep. apply wp_lift. set (fuel := Datatypes.S _).
  assert (Hgo : forall (t' : BTree S) pre g post it', tree_inv t' G -> bt_pages t' = bt_pages t -> G !! 0%nat = Some (pre ++ g :: post) ->
    current_leaf it' = Some (g_blk g) -> started it' = true ->
    wp (next_loop fuel it') t' (next_post t' G it' (drop (current_slot it') (leaf_entries g) ++ level_entries post))).
  { intros t' pre g post it' Hinv' Hps Hat Hcur Hst. apply (next_loop_spec G fuel t' pre g post); [done|done|done|done|].
    pose proof (level_entries_max t' G (g :: post) Hinv' pre Hat) as Hm. pose proof (length_level0 t' G pre g post Hinv' Hat) as Hl.
    rewrite Hps in Hl. rewrite length_app, length_drop. rewrite level_entries_cons, length_app in Hm. rewrite length_app in Hl. cbn [length] in *.
    unfold fuel, MAX_LEAF_ENTRIES. change (Z.to_nat (32 + 1)) with 33%nat. lia. }
  destruct (started it) eqn:Est.
  - specialize (Hah eq_refl). unfold ahead in Hah. destruct (current_leaf it) as [b|] eqn:Ec.
    + destruct Hah as (pre & g & post & Hat & <- & ->). by apply (Hgo t pre g post it).
    + rewrite Hah. unfold fuel. cbn [next_loop]. rewrite Ec. apply wp_ret. split; [done|]. right. cbn. unfold ahead. by rewrite Ec.
  - destruct (Hfresh eq_refl) as [Hc ->]. clear Hah Hfresh. cbv zeta. apply wp_item_or. wstep. apply wp_lift. wstep. apply wp_lift.
    destruct (root_node t G Hinv) as (l & g0 & post0 & Hat0 & <- & Hlow0 & _). eapply wp_mono.
    { apply (leftmost_leaf_spec G _ t l g0 post0); [done|done|done|]. pose proof (remaining_total t G l [] g0 post0 Hinv Hat0). lia. }
    intros [b|err] t1 [Hf Hr]; [|destruct Hr as [-> Hfa]; split; [done|by left]]. destruct Hr as (g & post & Hat & <-).
    pose proof (tree_inv_fetched _ _ _ Hf Hinv) as Hinv1. apply wp_item_or. unfold start_slot_in_leaf. apply wp_fetch.
    2: { intros t' Hf' Hfa. split; [by etrans|]. left. split; [done|by apply Hf]. }
    intros t2 Hf2. destruct (leaf_page t1 G [] g post Hinv1 Hat) as (m & Hm & He & _ & _ & _).
    wstep. apply wp_lift. rewrite Hm. wstep. apply wp_lift. rewrite He. apply wp_ret. pose proof (transitivity Hf Hf2) as Hf12.
    set (slot := partition_point _ _). set (it3 := at_leaf _ _ _).
    eapply wp_mono; [apply (Hgo t2 [] g post it3); [by eapply tree_inv_fetched|apply Hf12|done|done|done]|].
    intros r t3. cbn [it3 current_slot at_leaf]. rewrite (contents_at _ _ Hat), level_entries_cons.
    intros [Hf3 Hr]. split; [by etrans|]. destruct r as [[item it']|]; [|done]. destruct Hr as [[-> Hfa]|Hr]; [left; split; [done|by apply Hf12]|right].
    cbn [ri_start ri_end at_leaf it3] in Hr.
    assert (next_item (ri_start it) (ri_end it) (leaf_entries g ++ level_entries post) =
            next_item (ri_start it) (ri_end it) (drop slot (leaf_entries g) ++ level_entries post)) as ->; [|done].
    destruct (leaf_body t G [] post g Hinv Hat) as [es Hes]. destruct (node_here t G Hinv 0 [] post g Hat) as (_ & Hok & _).
    assert (leaf_entries g = es) as Hle by (unfold leaf_entries; by rewrite Hes). rewrite Hes in Hok. destruct Hok as [Hs _].
    destruct (partition_point_spec (fun e => le_key e <? ri_start it) (leaf_entries g)) as (_ & Ht & _).
    { intros i j a b Hij Ha Hb. rewrite !Z.ltb_lt. rewrite Hle in *.
      pose proof (sorted_keys_mono le_key es i j a b (leaf_keys_sorted es Hs) Hij Ha Hb). lia. }
    fold slot in Ht. rewrite <- (take_drop slot (leaf_entries g)) at 1. rewrite <- app_assoc. revert Ht.
    generalize (take slot (leaf_entries g)) as front, (drop slot (leaf_entries g) ++ level_entries post) as tail. intros front tail Hfr.
    induction Hfr as [|x front Hx _ IHf]; cbn; [done|]. by rewrite Hx.
Qed.

(** ** Collecting a range *)

Definition in_range (start : Z) (end_ : option Z) (e : LeafEntry) : Prop := start <= le_key e /\ past_end end_ (le_key e) = false.

#[global] Instance in_range_dec start end_ e : Decision (in_range start end_ e).
Proof. unfold in_range. apply _. Defined.

Definition range_of (start : Z) (end_ : option Z) (l : list LeafEntry) : list LeafEntry := filter (in_range start end_) l.

Lemma past_end_mono end_ a b : a <= b -> past_end end_ a = true -> past_end end_ b = true.
Proof. destruct end_; cbn; [|done]. rewrite !Z.leb_le. lia. Qed.

(** One step on a sorted list of entries. *)
Lemma next_item_range start end_ R :
  StronglySorted Z.le (map le_key R) ->
  StronglySorted Z.le (map le_key (next_item start end_ R).2) /\ (length (next_item start end_ R).2 <= length R)%nat /\
  match (next_item start end_ R).1 with
  | INone => range_of start end_ R = []
  | IEntry k v => range_of start end_ R = mk_LeafEntry k v :: range_of start end_ (next_item start end_ R).2 /\
                  (length (next_item start end_ R).2 < length R)%nat
  | IError _ => False
  end.
Proof.
  induction R as [|e R IH]; [done|]. cbn [map next_item]. intros Hs. apply StronglySorted_inv in Hs as [Hs Hf]. unfold range_of in *.
  destruct (Z.ltb_spec (le_key e) start) as [Hlt|Hge].
  - destruct (IH Hs) as (H1 & H2 & H3). split; [done|]. split; [cbn; lia|]. rewrite filter_cons_False by (intros [? _]; lia).
    destruct (next_item start end_ R).1; [done| |done]. destruct H3. split; [done|cbn; lia].
  - destruct (past_end end_ (le_key e)) eqn:Ep; cbn [fst snd].
    + split; [constructor|]. split; [cbn; lia|]. rewrite filter_cons_False by (intros [_ ?]; congruence).
      rewrite Forall_map in Hf. clear IH Hs. induction Hf as [|x R Hx _ IHf]; [done|].
      rewrite filter_cons_False; [done|]. intros [_ Hp]. rewrite (past_end_mono end_ (le_key e)) in Hp; done.
    + split; [done|]. split; [cbn; lia|]. rewrite filter_cons_True by done. split; [by destruct e|cbn; lia].
Qed.

Lemma collect_spec {S} G fuel : forall (t : BTree S) it R out,
  tree_inv t G -> (started it = true -> ahead G it R) -> (started it = false -> current_leaf it = None /\ R = contents G) ->
  StronglySorted Z.le (map le_key R) -> (length R < fuel)%nat ->
  wp (collect fuel it out) t (reads t (fun r => r = out ++ range_of (ri_start it) (ri_end it) R)).
Proof.
  induction fuel as [|fuel IH]; intros t it R out Hinv Hah Hfr Hs Hfuel; [lia|]. cbn [collect]. wstep.
  eapply wp_mono; [by apply (next_spec t G it R)|]. intros [[item it']|] t1 [Hf Hr]; [|done]. cbn [fst snd].
  destruct Hr as [[-> Hfa]|(Hst & Hrs & Hre & Hah' & ->)]; [by apply wp_throw|].
  destruct (next_item_range (ri_start it) (ri_end it) R Hs) as (Hs' & Hlen & Hitem).
  set (R' := (next_item (ri_start it) (ri_end it) R).2) in *. destruct (next_item _ _ _).1 as [|k v|err] eqn:Ei; [| |done].
  - apply wp_ret. split; [done|]. by rewrite Hitem, app_nil_r.
  - destruct Hitem as [Hrange Hlt]. eapply wp_reads_fetched; [exact Hf|]. eapply wp_mono.
    { apply (IH t1 it' R'); [by eapply tree_inv_fetched|done|by rewrite Hst|done|lia]. }
    intros r t2 [Hf2 Hr]. split; [done|]. destruct r; [|done]. by rewrite Hr, Hrs, Hre, Hrange, <- app_assoc.
Qed.

Lemma range_scan_spec {S} (t : BTree S) G start end_ fuel :
  tree_inv t G -> (length (contents G) < fuel)%nat ->
  wp (collect fuel (range_scan start end_) []) t (reads t (fun r => r = range_of start end_ (contents G))).
Proof.
  intros Hinv Hfuel. apply (collect_spec G fuel t (range_scan start end_) (contents G) []); try done. by eapply contents_sorted.
Qed.

(** ** Backward scans *)

Definition backward_of (start : Z) (end_ : option Z) (l : list LeafEntry) : list LeafEntry :=
  filter (fun e => in_backward start end_ e = true) l.

Lemma backward_loop_spec {S} G fuel : forall (t : BTree S) pre g post start end_ items,
  tree_inv t G -> G !! 0%nat = Some (pre ++ g :: post) -> (length post < fuel)%nat ->
  wp (backward_loop fuel (g_blk g) start end_ items) t (reads t (fun r => r = items ++ backward_of start end_ (level_entries (g :: post)))).
Proof.
  induction fuel as [|fuel IH]; intros t pre g post start end_ items Hinv Hat Hfuel; [lia|]. cbn [backward_loop].
  eapply wp_bind_reads; [apply wp_get_page_reads|]. intros p t' Hf ->.
  destruct (leaf_page t G pre g post Hinv Hat) as (m & Hm & He & _ & Hr & _). wstep. apply wp_lift. rewrite Hm. wstep. apply wp_lift. rewrite He.
  cbv zeta. rewrite (last_sibling t G pre g post m Hinv Hat Hr), level_entries_cons. unfold backward_of. rewrite filter_app.
  destruct post as [|g' post'].
  - apply reads_ret. by rewrite app_nil_r.
  - rewrite Hr. cbn [hd_blk]. cbn [length] in Hfuel. rewrite app_assoc.
    apply (IH t' (pre ++ [g]) g' post'); [by eapply tree_inv_fetched|by rewrite <- app_assoc|lia].
Qed.

(** The scan starts at the leaf that covers [i64::MIN]: entries with that key
    in leaves further left are missed. *)
Lemma backward_scan_spec {S} (t : BTree S) G start end_ :
  tree_inv t G -> Forall leaf_fits (contents G) ->
  wp (backward_scan start end_) t (reads t (fun r => exists a b, contents G = a ++ b /\ Forall (fun e => le_key e = I64_MIN) a /\
    (strict G -> a = []) /\ r = rev (backward_of start end_ b))).
Proof.
  intros Hinv Hfits. unfold backward_scan. wstep. apply wp_lift. wstep. apply wp_lift.
  destruct (root_node t G Hinv) as (l & g0 & post0 & Hat0 & <- & Hlow0 & _). eapply wp_bind_reads.
  { apply (descend_readonly_spec G _ t l [] g0 post0); [done|done|by rewrite Hlow0|]. pose proof (remaining_total t G l [] g0 post0 Hinv Hat0). lia. }
  intros b t1 Hf (pre & g & post & Hat & <- & Hlow & _). pose proof (length_level0 t G pre g post Hinv Hat) as Hl. rewrite length_app in Hl. cbn in Hl.
  eapply wp_bind_reads; [apply (backward_loop_spec G _ t1 pre g post); [by eapply tree_inv_fetched|done|lia]|].
  intros r t2 Hf2 ->. apply reads_ret. exists (level_entries pre), (level_entries (g :: post)).
  assert (HC : contents G = level_entries pre ++ level_entries (g :: post)) by (by rewrite (contents_at _ _ Hat), level_entries_app).
  split; [done|]. rewrite HC, Forall_app in Hfits. destruct Hfits as [Hfits _]. rewrite Forall_forall in Hfits. split; [|split; [|done]].
  - apply Forall_forall. intros e He. destruct (left_keys t G pre post g Hinv Hat e He) as (lo & Hlo & Hle). rewrite Hlo in Hlow. cbn in Hlow.
    destruct (Hfits e He) as [[Hk _] _]. unfold I64_MIN in *. lia.
  - intros Hst. apply elem_of_nil_inv. intros e He. destruct (left_keys_strict t G pre post g Hinv Hat e Hst He) as (lo & Hlo & Hlt).
    rewrite Hlo in Hlow. cbn in Hlow. destruct (Hfits e He) as [[Hk _] _]. unfold I64_MIN in *. lia.
Qed.

Lemma contents_fits {S} (t : BTree S) G : tree_inv t G -> Forall leaf_fits (contents G).
Proof.
  intros Hinv. apply Forall_forall. intros e. unfold contents. destruct (G !! 0%nat) as [c|] eqn:E; cbn [default from_option id]; [|by intros ?%not_elem_of_nil].
  intros (g & Hg & He)%elem_of_level_entries. apply list_elem_of_split in Hg as (pre & post & ->).
  destruct (leaf_page t G pre g post Hinv E) as (m & _ & _ & Hp & _). pose proof (np_fits _ _ _ Hp) as Hf. cbn in Hf.
  rewrite Forall_forall in Hf. by apply Hf.
Qed.
