(* ===== verification/BTreeSpec.v ===== *)
(** * The B-link tree: the index it implements

    An index is the list of its entries in key order. Runs of operations on
    the pages are shown to be runs of operations on that list, errors
    included, for every pattern of failed page fetches and refused log
    records; an index filled by unique insertion only is a finite map. *)

From S2P Require Import Prelude CoreIds WalRecord WalPayload WalPayloadIndex WalSink Bytes Page PageSpec BtNode BtNodeSpec BTree BTreeInv BTreeLeaf BTreeInner BTreeOps BTreeReads BTreeScan.

(** ** Creation *)

Lemma init_empty_leaf p : page_valid p -> exists p', init_btree_page p fresh_leaf = Some (Ok tt, p') /\ node_page p' fresh_leaf (LeafB []).
Proof.
  intros Hv. destruct Hv as (Hl & Hb & h & Hh). unfold init_btree_page, page_header. rewrite Hh. cbn [mbind option_bind].
  pose proof (header_decode_ok p h Hl Hb Hh) as Hok. set (nh := mk_PageHeader _ _ _ _ _ _ _ _).
  assert (header_ok nh) as Hnh by (constructor; try done; apply Hok).
  assert (page_valid (PageHeader_encode nh p)) as Hv.
  { split; [by apply encode_len|]. split; [by apply header_put_bytes|]. exists nh. by apply header_decode_encode. }
  unfold write_header. rewrite header_decode_encode; [|rewrite zlen_splice; unfold zlen|done].
  - eexists. split; [done|]. pose proof (node_written _ fresh_leaf (LeafB []) Hv) as Hn. cbn [body_packed packed map concat] in Hn.
    rewrite zsplice_nil in Hn. apply Hn; [done|constructor].
  - by rewrite length_replicate.
  - lia.
  - rewrite length_replicate. pose proof (zlen_slice 0 PAGE_HEADER_SIZE p ltac:(done)) as Hs. unfold zlen in *.
    rewrite Hs by (rewrite Hl; done). done.
Qed.

Definition empty_index : list (list gnode) := [[mk_gnode 0 None (LeafB [])]].

Lemma create_spec {S} pages io (sink : S) next :
  map_Forall (fun _ p => page_valid p) pages -> next < U32 ->
  match create pages io sink next with
  | Some (Ok _, t) => tree_inv t empty_index /\ (faulty t -> false ∈ io)
  | Some (Err e, _) => e = BufferPool /\ false ∈ io
  | None => False
  end.
Proof.
  intros Hp Hn. set (t0 := mk_BTree pages 0 (Z.max next 1) io false sink).
  assert (wp (p ← get_page 0; init_page 0 p fresh_leaf;; mret tt) t0 (fun r t =>
    match r with Ok _ => tree_inv t empty_index /\ (faulty t -> false ∈ io) | Err e => e = BufferPool /\ false ∈ io end)) as H.
  2: { unfold create. fold t0. unfold wp in H. revert H. cbv zeta. generalize ((p ← get_page 0; init_page 0 p fresh_leaf;; mret tt) t0). by intros [[[[]|e] t]|]. }
  apply wp_fetch; [|intros t' Hf [?|?]; [done|by split]]. intros t1 Hf. wstep. unfold init_page. wstep.
  assert (page_valid (page_of t0 0)) as Hv.
  { unfold page_of. destruct (bt_pages t0 !! 0) as [q|] eqn:E; [|apply new_heap_valid]. by apply Hp in E. }
  destruct (init_empty_leaf _ Hv) as (p' & Hi & Hnp). apply (wp_or_panic (Ok tt, p')); [done|]. apply wp_put. wstep. apply wp_lift. apply wp_ret, wp_ret.
  pose proof (fe_next _ _ Hf) as E1. pose proof (fe_pages _ _ Hf) as E2. pose proof (fe_root _ _ Hf) as E3. cbn in E1, E2, E3.
  split; [|intros Hx; destruct (fe_faulty _ _ Hf Hx) as [?|?]; done].
  assert (forall l c, empty_index !! l = Some c -> l = O /\ c = [mk_gnode 0 None (LeafB [])]) as Hlev by (intros [|l] c; cbn; naive_solver).
  constructor.
  - intros l c Hl. destruct (Hlev l c Hl) as [-> ->]. constructor; [repeat constructor|]. by eexists _, [].
  - intros l c Hl. destruct (Hlev l c Hl) as [-> ->]. cbn [each]. split; [|done]. split; [|split; [split; constructor|done]].
    exists p', fresh_leaf. cbn. by rewrite lookup_insert_eq.
  - eexists [], _, []. cbn. split; [done|]. by rewrite E3.
  - cbn. repeat constructor. apply not_elem_of_nil.
  - cbn. constructor; [|constructor]. rewrite E1. lia.
  - cbn. rewrite E1. unfold U32 in *; lia.
  - cbn. apply insert_valid; [by rewrite E2|apply Hnp].
Qed.

(** ** Runs of operations *)

Inductive bt_op :=
| OpInsert (key : Z) (value : TupleId) (xid : Xid)
| OpInsertDup (key : Z) (value : TupleId) (xid : Xid)
| OpDelete (key : Z) (value : TupleId) (xid : Xid)
| OpLookup (key : Z)
| OpLookupAll (key : Z)
| OpRange (start : Z) (end_ : option Z)
| OpBackward (start : Z) (end_ : option Z)
| OpVacuum (is_dead : TupleId -> bool).

Inductive bt_answer :=
| AUnit
| ABool (b : bool)
| AOpt (o : option TupleId)
| ATids (l : list TupleId)
| AEntries (l : list LeafEntry)
| ACount (n : Z).

Section run.
Context {S : Type} (crc32c_append : Z -> list Z -> Z) (rel : Z) (wal : option (WalSink S)).

Definition bt_exec (op : bt_op) : M S bt_answer :=
  match op with
  | OpInsert k v x => insert crc32c_append rel k v x wal;; mret AUnit
  | OpInsertDup k v x => insert_non_unique crc32c_append rel k v x wal;; mret AUnit
  | OpDelete k v x => b ← delete_logged crc32c_append rel k v x wal; mret (ABool b)
  | OpLookup k => o ← lookup k; mret (AOpt o)
  | OpLookupAll k => l ← lookup_all k; mret (ATids l)
  | OpRange a b => fuel ← scan_fuel; l ← collect fuel (range_scan a b) []; mret (AEntries l)
  | OpBackward a b => l ← backward_scan a b; mret (AEntries l)
  | OpVacuum d => n ← vacuum d; mret (ACount n)
  end.

(** Every operation is tried, whatever the ones before it answered. *)
Fixpoint bt_run (ops : list bt_op) (t : BTree S) : option (list (result bt_answer BTreeError) * BTree S) :=
  match ops with
  | [] => Some ([], t)
  | op :: rest =>
      match bt_exec op t with
      | None => None
      | Some (r, t') => match bt_run rest t' with Some (rs, t'') => Some (r :: rs, t'') | None => None end
      end
  end.

(** Block numbers do not run out during the run. *)
Definition room_ok (t : BTree S) : bool := bt_next t + Z.of_nat (size (bt_pages t)) + 2 <? U32.

Fixpoint roomy (ops : list bt_op) (t : BTree S) : bool :=
  match ops with
  | [] => true
  | op :: rest => room_ok t && match bt_exec op t with Some (_, t') => roomy rest t' | None => true end
  end.
End run.

(** The keys and tuple identifiers a run inserts fit their types. *)
Definition op_fits (op : bt_op) : Prop :=
  match op with
  | OpInsert k v _ | OpInsertDup k v _ => leaf_fits (mk_LeafEntry k v)
  | _ => True
  end.

(** ** The multimap *)

(** What the operation does when it completes. *)
Definition multimap_ok (op : bt_op) (l : list LeafEntry) (a : bt_answer) (l' : list LeafEntry) : Prop :=
  match op, a with
  | OpInsert k v _, AUnit | OpInsertDup k v _, AUnit => inserted (mk_LeafEntry k v) l l'
  | OpDelete k v _, ABool true => removed_first (mk_LeafEntry k v) l l'
  | OpDelete k v _, ABool false => l' = l /\ mk_LeafEntry k v ∉ l
  | OpLookup k, AOpt (Some v) => l' = l /\ mk_LeafEntry k v ∈ l
  | OpLookup k, AOpt None => l' = l
  | OpLookupAll k, ATids vs => l' = l /\ vs = matching k l
  | OpRange a b, AEntries es => l' = l /\ es = range_of a b l
  | OpBackward a b, AEntries es => l' = l /\ exists c d, l = c ++ d /\ Forall (fun e => le_key e = I64_MIN) c /\ es = rev (backward_of a b d)
  | OpVacuum d, ACount n => l' = alive d l /\ n = Z.of_nat (length l) - Z.of_nat (length l')
  | _, _ => False
  end.

(** What an operation that failed half way may have done. *)
Definition multimap_partial (op : bt_op) (l l' : list LeafEntry) : Prop :=
  match op with
  | OpInsert k v _ | OpInsertDup k v _ => l' = l \/ inserted (mk_LeafEntry k v) l l'
  | OpDelete k v _ => l' = l \/ removed_first (mk_LeafEntry k v) l l'
  | OpVacuum d => exists a b, l = a ++ b /\ l' = alive d a ++ b
  | _ => l' = l
  end.

Definition multimap_step (faults : Prop) (op : bt_op) (l : list LeafEntry) (r : result bt_answer BTreeError) (l' : list LeafEntry) : Prop :=
  StronglySorted Z.le (map le_key l') /\
  match r with
  | Ok a => multimap_ok op l a l'
  | Err DuplicateKey => l' = l /\
      match op with
      | OpInsert k _ _ => exists e, e ∈ l /\ le_key e = k
      | OpInsertDup k v _ => mk_LeafEntry k v ∈ l
      | _ => False
      end
  | Err BufferPool => faults /\ multimap_partial op l l'
  | Err BWal => multimap_partial op l l'
  | Err _ => False
  end.

(** A run on the list of entries. Once a log record was refused the pool is
    poisoned, and fetches fail from then on. *)
Fixpoint multimap_run (faults : Prop) (ops : list bt_op) (l : list LeafEntry) (rs : list (result bt_answer BTreeError)) (l' : list LeafEntry) : Prop :=
  match ops, rs with
  | [], [] => l' = l
  | op :: ops', r :: rs' => exists l1, multimap_step faults op l r l1 /\ multimap_run (faults \/ r = Err BWal) ops' l1 rs' l'
  | _, _ => False
  end.

(** ** Every operation is a step of the multimap *)

(** What a run that never inserts duplicates knows on top. *)
Definition unique_facts (op : bt_op) (l : list LeafEntry) (r : result bt_answer BTreeError) (l' : list LeafEntry) : Prop :=
  match op, r with
  | OpInsert k _ _, Ok _ | OpInsert k _ _, Err BWal => Forall (fun y => le_key y <> k) l
  | OpInsert k _ _, Err BufferPool => l' = l \/ Forall (fun y => le_key y <> k) l
  | OpLookup k, Ok (AOpt None) => Forall (fun y => le_key y <> k) l
  | OpBackward a b, Ok (AEntries es) => es = rev (backward_of a b l)
  | _, _ => True
  end.

Definition unique_op (op : bt_op) : Prop := match op with OpInsertDup _ _ _ => False | _ => True end.

Definition bt_post {S} (op : bt_op) (t : BTree S) (G : list (list gnode)) (r : result bt_answer BTreeError) (t' : BTree S) : Prop :=
  exists G', tree_inv t' G' /\ (faulty t' -> faulty t \/ r = Err BWal) /\ multimap_step (faulty t) op (contents G) r (contents G') /\
    (unique_op op -> uniq G -> uniq G' /\ unique_facts op (contents G) r (contents G')).

Lemma contents_same G G' : shape G' = shape G -> contents G' = contents G.
Proof. intros H. by rewrite !contents_shape, H. Qed.

Section simulation.
Context {S : Type} (crc : Z -> list Z -> Z) (rel : Z) (wal : option (WalSink S)).
Hypothesis Hwal : wal_ok wal.

(** Reads: the tree stays, the answer satisfies the specification. *)
Lemma exec_reads {A} (m : M S A) (f : A -> bt_answer) op (t : BTree S) G (P : A -> Prop) :
  tree_inv t G -> wp m t (reads t P) ->
  (forall a, P a -> multimap_ok op (contents G) (f a) (contents G)) ->
  multimap_partial op (contents G) (contents G) ->
  (forall a, P a -> uniq G -> unique_facts op (contents G) (Ok (f a)) (contents G)) ->
  unique_facts op (contents G) (Err BufferPool) (contents G) ->
  wp (a ← m; mret (f a)) t (bt_post op t G).
Proof.
  intros Hinv Hm Hok Hpart Hun Hue. wstep. eapply wp_mono; [exact Hm|]. intros [a|e] t' [Hf Hr].
  - apply wp_ret. exists G. split; [by eapply tree_inv_fetched|]. split; [left; by apply Hf|]. split; [|auto].
    split; [by eapply contents_sorted|]. by apply Hok.
  - destruct Hr as [-> Hfa]. exists G. split; [by eapply tree_inv_fetched|]. split; [left; by apply Hf|]. split; [|done].
    split; [by eapply contents_sorted|]. done.
Qed.

Lemma exec_insert (t : BTree S) G op k v x (dup : bool) :
  op = (if dup then OpInsertDup k v x else OpInsert k v x) ->
  tree_inv t G -> room t -> leaf_fits (mk_LeafEntry k v) ->
  wp (insert_inner crc rel k v x wal dup;; mret AUnit) t (bt_post op t G).
Proof.
  intros Hop Hinv Hroom Hfit. wstep. eapply wp_mono; [by apply insert_inner_spec|].
  intros r t' (G' & Hinv' & Hf & Hr). pose proof (contents_sorted _ _ Hinv') as Hs.
  assert (Hnd : insert_effect G G' (mk_LeafEntry k v) dup -> unique_op op -> uniq G ->
    uniq G' /\ Forall (fun y => le_key y <> k) (contents G)).
  { intros [_ H2 H3] Hu HG. destruct dup; [by rewrite Hop in Hu|]. split; [by apply H3|by apply H2]. }
  destruct r as [[]|e].
  - apply wp_ret. exists G'. split; [done|]. split; [by intros [?|?]%Hf; [left|]|]. split.
    + split; [done|]. rewrite Hop. destruct dup; apply Hr.
    + rewrite Hop in *. destruct dup; cbn; [done|]. by apply Hnd.
  - exists G'. split; [done|]. split; [by intros [?|[= ->]]%Hf; [left|right]|].
    destruct e; try done; subst op.
    + destruct Hr as [Hfa Hr]. split; [split; [done|]; split; [done|]|].
      * destruct Hr as [Hsh%contents_same|[Hi _ _]]; destruct dup; cbn; auto.
      * destruct dup; [done|]. intros _ HG. destruct Hr as [Hsh|He].
        -- split; [by eapply uniq_shape|]. left. by apply contents_same.
        -- cbn. destruct (Hnd He I HG). auto.
    + destruct Hr as [Hsh Hc]. pose proof (contents_same _ _ Hsh) as HC. split; [split; [done|]; split; [done|]|].
      * by destruct dup.
      * intros _ HG. split; [by eapply uniq_shape|]. by destruct dup.
    + split; [split; [done|]|].
      * destruct dup; right; apply Hr.
      * destruct dup; [done|]. by apply Hnd.
Qed.

Lemma exec_delete (t : BTree S) G k v x : tree_inv t G -> wp (bt_exec crc rel wal (OpDelete k v x)) t (bt_post (OpDelete k v x) t G).
Proof.
  intros Hinv. cbn [bt_exec]. unfold delete_logged. wstep. eapply wp_mono; [by apply delete_inner_spec|].
  intros r t' (G' & Hinv' & Hu & Hf & Hr). pose proof (contents_sorted _ _ Hinv') as Hs. destruct r as [b|e].
  - apply wp_ret. exists G'. split; [done|]. split; [by intros [?|?]%Hf; [left|]|]. split; [|by split; [auto|]].
    split; [done|]. by destruct b.
  - exists G'. split; [done|]. split; [by intros [?|[= ->]]%Hf; [left|right]|]. split; [|by split; [auto|]].
    split; [done|]. destruct e; try done. by right.
Qed.

Lemma exec_vacuum (t : BTree S) G d : tree_inv t G -> wp (bt_exec crc rel wal (OpVacuum d)) t (bt_post (OpVacuum d) t G).
Proof.
  intros Hinv. cbn [bt_exec]. wstep. eapply wp_mono; [by apply vacuum_spec|].
  intros r t' (Hf & G' & a & b & Hinv' & Hu & Htl & HC & Hr). pose proof (contents_sorted _ _ Hinv') as Hs. cbn [app] in HC.
  destruct r as [n|e].
  - destruct Hr as [-> ->]. rewrite !app_nil_r in *. subst a. apply wp_ret. exists G'. split; [done|]. split; [by left; apply Hf|].
    split; [|by split; [auto|]]. split; [done|]. cbn. rewrite HC. split; [done|lia].
  - destruct Hr as [-> Hfa]. exists G'. split; [done|]. split; [by left; apply Hf|]. split; [|by split; [auto|]].
    split; [done|]. split; [done|]. by exists a, b.
Qed.

Lemma scan_fuel_enough (t : BTree S) G : tree_inv t G -> (length (contents G) < Datatypes.S (Z.to_nat (MAX_LEAF_ENTRIES + 1) * Datatypes.S (size (bt_pages t))))%nat.
Proof.
  intros Hinv. unfold contents. destruct (G !! 0%nat) as [c|] eqn:E; cbn [default from_option id]; [|cbn; lia].
  pose proof (level_entries_max t G c Hinv [] E) as Hm. destruct c as [|g c]; [cbn; lia|].
  pose proof (length_level0 t G [] g c Hinv E) as Hl. cbn [app] in Hl. unfold MAX_LEAF_ENTRIES. change (Z.to_nat (32 + 1)) with 33%nat. lia.
Qed.

Lemma bt_exec_sim (op : bt_op) (t : BTree S) G :
  tree_inv t G -> room t -> op_fits op -> wp (bt_exec crc rel wal op) t (bt_post op t G).
Proof.
  intros Hinv Hroom Hfit. destruct op as [k v x|k v x|k v x|k|k|a b|a b|d]; cbn [bt_exec].
  - by apply (exec_insert t G (OpInsert k v x) k v x false).
  - by apply (exec_insert t G (OpInsertDup k v x) k v x true).
  - by apply exec_delete.
  - eapply exec_reads; [done|by apply lookup_spec|..|done]; try done; intros [v|]; cbn; try done.
    intros H [Hst _]. apply Forall_forall. by apply H.
  - by eapply exec_reads; [done|by apply lookup_all_spec|..]; [intros ? ->|..].
  - wstep. apply wp_lift. by eapply exec_reads; [done|by apply range_scan_spec, scan_fuel_enough|..]; [intros ? ->|..].
  - eapply exec_reads; [done|apply backward_scan_spec; [done|by eapply contents_fits]|..|done]; try done.
    + intros es (c & e & H1 & H2 & _ & H3). split; [done|]. by exists c, e.
    + intros es (c & e & H1 & _ & H2 & ->) [Hst _]. cbn. rewrite H1. by rewrite (H2 Hst).
  - by apply exec_vacuum.
Qed.

End simulation.
