(* ===== verification/BTreeRefine.v ===== *)
(** * The B-link tree: runs refine a multimap and a map

    Whole runs of index operations from a created index. Every run is a run on
    the sorted list of entries; a run without non-unique insertions is a run on
    a finite map. The file ends with the behaviours of duplicate keys that the
    comments of the source do not promise. *)

From S2P Require Import Prelude CoreIds WalRecord WalPayload WalPayloadIndex WalSink Bytes Page PageSpec BtNode BtNodeSpec BTree BTreeInv BTreeOps BTreeReads BTreeScan BTreeSpec.

(** ** The multimap *)

Lemma multimap_step_mono (F F' : Prop) op l r l' : (F -> F') -> multimap_step F op l r l' -> multimap_step F' op l r l'.
Proof. intros HF [Hs Hr]. split; [done|]. destruct r as [a|[]]; try done. destruct Hr. auto. Qed.

Section runs.
Context {S : Type} (crc : Z -> list Z -> Z) (rel : Z) (wal : option (WalSink S)).

(** What a run of the multimap and, without non-unique insertions, the facts
    of unique keys amount to, step by step. *)
Fixpoint index_run (F : Prop) (ops : list bt_op) (l : list LeafEntry) (rs : list (result bt_answer BTreeError)) (l' : list LeafEntry) (u : Prop) : Prop :=
  match ops, rs with
  | [], [] => l' = l
  | op :: ops', r :: rs' => exists l1, multimap_step F op l r l1 /\
      (u -> NoDup (map le_key l) /\ NoDup (map le_key l1) /\ unique_facts op l r l1) /\ index_run (F \/ r = Err BWal) ops' l1 rs' l' u
  | _, _ => False
  end.

Lemma bt_run_sim (u : Prop) : wal_ok wal -> forall ops (t : BTree S) G (F : Prop),
  tree_inv t G -> (faulty t -> F) -> Forall op_fits ops -> roomy crc rel wal ops t = true ->
  (u -> uniq G /\ Forall unique_op ops) ->
  exists rs t' G', bt_run crc rel wal ops t = Some (rs, t') /\ tree_inv t' G' /\ index_run F ops (contents G) rs (contents G') u.
Proof.
  intros Hwal. induction ops as [|op ops IH]; intros t G F Hinv HF Hfits Hroom Hu; [by eexists [], t, G|].
  cbn [bt_run roomy] in *. apply andb_true_iff in Hroom as [Hr%Z.ltb_lt Hroom]. apply Forall_cons in Hfits as [Hfit Hfits].
  pose proof (bt_exec_sim crc rel wal Hwal op t G Hinv Hr Hfit) as Hsim. unfold wp in Hsim.
  destruct (bt_exec crc rel wal op t) as [[r t1]|]; [|done]. destruct Hsim as (G1 & Hinv1 & HF1 & Hstep & Hun).
  destruct (IH t1 G1 (F \/ r = Err BWal) Hinv1) as (rs & t' & G' & -> & Hinv' & Hrun); [by intros [?|?]%HF1; [left; auto|right]|done|done|..].
  { intros HU. destruct (Hu HU) as [HG [Ho Hos]%Forall_cons]. split; [by apply Hun|done]. }
  exists (r :: rs), t', G'. split; [done|]. split; [done|]. exists (contents G1). split; [by eapply multimap_step_mono|]. split; [|done].
  intros HU. destruct (Hu HU) as [HG [Ho _]%Forall_cons]. destruct (Hun Ho HG) as [HG1 Hf]. split; [apply HG|]. by split; [apply HG1|].
Qed.
End runs.

Lemma index_run_multimap F ops l rs l' u : index_run F ops l rs l' u -> multimap_run F ops l rs l'.
Proof.
  revert F l rs. induction ops as [|op ops IH]; intros F l [|r rs]; cbn; try done.
  intros (l1 & Hs & _ & Hrun). exists l1. split; [done|]. by apply IH.
Qed.


(** ** The map *)

Definition index_map (l : list LeafEntry) : gmap Z TupleId := list_to_map (map (fun e => (le_key e, le_value e)) l).

(** The strictly increasing list [es] of the entries of [m] in a range. *)
Definition lists_range (P : Z -> Prop) (m : gmap Z TupleId) (es : list LeafEntry) : Prop :=
  StronglySorted Z.lt (map le_key es) /\ forall k v, mk_LeafEntry k v ∈ es <-> P k /\ m !! k = Some v.

(** A completed update. *)
Definition map_effect (op : bt_op) (m m' : gmap Z TupleId) : Prop :=
  match op with
  | OpInsert k v _ => m !! k = None /\ m' = <[k := v]> m
  | OpDelete k v _ => m !! k = Some v /\ m' = base.delete k m
  | _ => False
  end.

Definition map_ok (op : bt_op) (m : gmap Z TupleId) (a : bt_answer) (m' : gmap Z TupleId) : Prop :=
  match op, a with
  | OpInsert _ _ _, AUnit | OpDelete _ _ _, ABool true => map_effect op m m'
  | OpDelete k v _, ABool false => m' = m /\ m !! k <> Some v
  | OpLookup k, AOpt o => m' = m /\ o = m !! k
  | OpLookupAll k, ATids vs => m' = m /\ vs = match m !! k with Some v => [v] | None => [] end
  | OpRange a b, AEntries es => m' = m /\ lists_range (fun k => a <= k /\ match b with Some x => k < x | None => True end) m es
  | OpBackward a b, AEntries es => m' = m /\ lists_range (fun k => k <= a /\ match b with Some x => x <= k | None => True end) m (rev es)
  | OpVacuum d, ACount n => m' = filter (fun kv => d kv.2 = false) m /\ n = Z.of_nat (size m) - Z.of_nat (size m')
  | _, _ => False
  end.

(** An interrupted vacuum has removed dead entries only. *)
Definition map_partial (op : bt_op) (m m' : gmap Z TupleId) : Prop :=
  m' = m \/ map_effect op m m' \/
  match op with OpVacuum d => m' ⊆ m /\ (forall k v, m !! k = Some v -> d v = false -> m' !! k = Some v) | _ => False end.

Definition map_step (faults : Prop) (op : bt_op) (m : gmap Z TupleId) (r : result bt_answer BTreeError) (m' : gmap Z TupleId) : Prop :=
  match r with
  | Ok a => map_ok op m a m'
  | Err DuplicateKey => m' = m /\ match op with OpInsert k _ _ => is_Some (m !! k) | _ => False end
  | Err BufferPool => faults /\ map_partial op m m'
  | Err BWal => map_partial op m m'
  | Err _ => False
  end.

Fixpoint map_run (faults : Prop) (ops : list bt_op) (m : gmap Z TupleId) (rs : list (result bt_answer BTreeError)) (m' : gmap Z TupleId) : Prop :=
  match ops, rs with
  | [], [] => m' = m
  | op :: ops', r :: rs' => exists m1, map_step faults op m r m1 /\ map_run (faults \/ r = Err BWal) ops' m1 rs' m'
  | _, _ => False
  end.

Lemma index_map_spec l k v : NoDup (map le_key l) -> index_map l !! k = Some v <-> mk_LeafEntry k v ∈ l.
Proof.
  intros Hnd. unfold index_map. rewrite <- elem_of_list_to_map by by rewrite map_map. rewrite list_elem_of_fmap. split.
  - by intros ([] & [= -> ->] & Hin).
  - intros Hin. by exists (mk_LeafEntry k v).
Qed.

Lemma index_map_none l k : index_map l !! k = None <-> Forall (fun y => le_key y <> k) l.
Proof.
  unfold index_map. rewrite <- not_elem_of_list_to_map, map_map, Forall_forall. cbn. rewrite list_elem_of_fmap. naive_solver.
Qed.

Lemma index_map_size l : NoDup (map le_key l) -> size (index_map l) = length l.
Proof. intros Hnd. unfold index_map. rewrite map_size_list_to_map, length_map; [done|]. by rewrite map_map. Qed.

Lemma index_map_inserted e l l' : NoDup (map le_key l) -> NoDup (map le_key l') -> inserted e l l' -> index_map l' = <[le_key e := le_value e]> (index_map l).
Proof.
  intros Hl Hl' (a & b & -> & ->). destruct e as [k v]. apply map_eq. intros j. apply option_eq. intros w.
  rewrite index_map_spec by done. cbn [le_key le_value]. rewrite lookup_insert_Some, index_map_spec by done.
  assert (forall w, mk_LeafEntry k w ∉ a ++ b) as Hno.
  { intros w' Hin. rewrite map_app in Hl'. cbn in Hl'. apply NoDup_app in Hl' as (_ & H1 & [H2 _]%NoDup_cons).
    apply elem_of_app in Hin as [Hin|Hin].
    - apply (H1 k); [apply list_elem_of_fmap; by exists (mk_LeafEntry k w')|left].
    - apply H2, list_elem_of_fmap. by exists (mk_LeafEntry k w'). }
  rewrite !elem_of_app, elem_of_cons. split.
  - intros [H|[[= -> ->]|H]]; [right|left; done|right]; (split; [intros <-; eapply Hno; rewrite elem_of_app; eauto|auto]).
  - intros [[<- <-]|[_ [H|H]]]; auto.
Qed.

Lemma index_map_removed e l l' : NoDup (map le_key l) -> NoDup (map le_key l') -> removed_first e l l' ->
  index_map l !! le_key e = Some (le_value e) /\ index_map l' = base.delete (le_key e) (index_map l).
Proof.
  intros Hl Hl' (a & b & -> & -> & _). destruct e as [k v]. cbn [le_key le_value].
  rewrite (index_map_inserted (mk_LeafEntry k v) (a ++ b) (a ++ mk_LeafEntry k v :: b)) by (try done; by exists a, b). cbn [le_key le_value].
  split; [apply lookup_insert_eq|]. rewrite delete_insert_id; [done|]. apply index_map_none. apply Forall_forall. intros y Hy <-.
  rewrite map_app in Hl. cbn in Hl. apply NoDup_app in Hl as (_ & H1 & [H2 _]%NoDup_cons).
  apply elem_of_app in Hy as [Hy|Hy]; [apply (H1 (le_key y)); [|left]|apply H2]; apply list_elem_of_fmap; eauto.
Qed.

Lemma nodup_keys_sublist l l' : sublist l' l -> NoDup (map le_key l) -> NoDup (map le_key l').
Proof. intros Hs Hnd. eapply sublist_NoDup; [exact Hnd|]. by apply fmap_sublist. Qed.

Lemma sorted_strict l : StronglySorted Z.le l -> NoDup l -> StronglySorted Z.lt l.
Proof.
  induction 1 as [|x l Hs IH Hall]; intros Hnd; constructor; apply NoDup_cons in Hnd as [Hx Hnd]; [auto|].
  rewrite Forall_forall in *. intros y Hy. specialize (Hall y Hy). assert (x <> y) by by intros ->. lia.
Qed.

Lemma range_listed (P : Z -> Prop) (Q : LeafEntry -> Prop) `{!forall e, Decision (Q e)} l :
  StronglySorted Z.le (map le_key l) -> NoDup (map le_key l) -> (forall e, Q e <-> P (le_key e)) -> lists_range P (index_map l) (filter Q l).
Proof.
  intros Hs Hnd HQ. pose proof (sorted_strict _ Hs Hnd) as Hlt. split.
  - clear Hs Hnd. induction l as [|e l IH]; [constructor|]. cbn [map] in Hlt. apply StronglySorted_inv in Hlt as [Hl Ha].
    rewrite filter_cons. case_decide; [|auto]. cbn. constructor; [auto|]. rewrite Forall_map, Forall_forall in *. intros y [_ Hy]%list_elem_of_filter. auto.
  - intros k v. rewrite list_elem_of_filter, HQ, index_map_spec by done. done.
Qed.

Lemma index_map_alive d l : NoDup (map le_key l) -> index_map (alive d l) = filter (fun kv => d kv.2 = false) (index_map l).
Proof.
  intros Hnd. apply map_eq. intros k. apply option_eq. intros v. rewrite map_lookup_filter_Some.
  rewrite !index_map_spec by (done || by eapply nodup_keys_sublist; [apply alive_sublist|]). unfold alive. rewrite list_elem_of_filter. cbn. tauto.
Qed.

Lemma matching_map k l : NoDup (map le_key l) -> matching k l = match index_map l !! k with Some v => [v] | None => [] end.
Proof.
  unfold matching. induction l as [|e l IH]; intros Hnd; [done|]. cbn [map] in Hnd. apply NoDup_cons in Hnd as [Hx Hnd].
  rewrite filter_cons. change (index_map (e :: l)) with (<[le_key e := le_value e]> (index_map l)). case_decide as Hk.
  - assert (<[le_key e := le_value e]> (index_map l) !! k = Some (le_value e)) as -> by (rewrite <- Hk; apply lookup_insert_eq). cbn [map]. rewrite IH by done. assert (index_map l !! k = None) as ->; [|done].
    rewrite index_map_none, Forall_forall. intros y Hy Hyk. apply Hx, list_elem_of_fmap. exists y. split; [congruence|done].
  - rewrite lookup_insert_ne by done. by apply IH.
Qed.

Lemma vacuum_interrupted d a b : NoDup (map le_key (a ++ b)) -> let m := index_map (a ++ b) in let m' := index_map (alive d a ++ b) in
  m' ⊆ m /\ forall k v, m !! k = Some v -> d v = false -> m' !! k = Some v.
Proof.
  intros Hnd m m'. assert (NoDup (map le_key (alive d a ++ b))) as Hnd'.
  { eapply nodup_keys_sublist; [|exact Hnd]. apply sublist_app; [apply alive_sublist|done]. }
  split.
  - apply map_subseteq_spec. intros k v. unfold m, m'. rewrite !index_map_spec by done. rewrite !elem_of_app. unfold alive. rewrite list_elem_of_filter. tauto.
  - intros k v. unfold m, m'. rewrite !index_map_spec by done. rewrite !elem_of_app. unfold alive. rewrite list_elem_of_filter. cbn. tauto.
Qed.

(** An interrupted update of unique keys is an interrupted update of the map. *)
Lemma map_of_partial op l l' : unique_op op -> multimap_partial op l l' -> NoDup (map le_key l) -> NoDup (map le_key l') ->
  (match op with OpInsert k _ _ => l' = l \/ Forall (fun y => le_key y <> k) l | _ => True end) -> map_partial op (index_map l) (index_map l').
Proof.
  intros Hop Hp Hl Hl' Hu. unfold map_partial. destruct op as [k v x|k v x|k v x|k|k|a' b|a' b|d]; cbn in *; try (left; by subst); try done.
  - destruct Hu as [->|Hu]; [by left|]. destruct Hp as [->|Hi]; [by left|]. right; left. split; [by apply index_map_none|].
    by apply (index_map_inserted (mk_LeafEntry k v)).
  - destruct Hp as [->|Hi]; [by left|]. right; left. by apply (index_map_removed (mk_LeafEntry k v)).
  - destruct Hp as (a & b & -> & ->). right; right. by apply vacuum_interrupted.
Qed.

(** A step of the multimap whose keys are unique is a step of the map. *)
Lemma map_of_step F op l r l' : unique_op op -> StronglySorted Z.le (map le_key l) ->
  multimap_step F op l r l' -> NoDup (map le_key l) -> NoDup (map le_key l') -> unique_facts op l r l' ->
  map_step F op (index_map l) r (index_map l').
Proof.
  intros Hop Hs [_ Hr] Hl Hl' Hu. destruct r as [a|e].
  - destruct op as [k v x|k v x|k v x|k|k|a' b|a' b|d], a as [|[]|[v'|]|vs|es|n]; try done; cbn in Hr.
    + split; [by apply index_map_none|]. by apply (index_map_inserted (mk_LeafEntry k v)).
    + by apply (index_map_removed (mk_LeafEntry k v)).
    + destruct Hr as [-> Hno]. split; [done|]. by rewrite index_map_spec.
    + destruct Hr as [-> Hin]. split; [done|]. symmetry. by apply index_map_spec.
    + subst l'. split; [done|]. symmetry. by apply index_map_none.
    + destruct Hr as [-> ->]. split; [done|]. by apply matching_map.
    + destruct Hr as [-> ->]. split; [done|]. apply range_listed; [done|done|]. intros e. unfold in_range, past_end.
      destruct b; [rewrite Z.leb_gt|]; intuition.
    + destruct Hr as [-> _]. cbn in Hu. subst es. split; [done|]. rewrite rev_involutive. apply range_listed; [done|done|]. intros e. unfold in_backward.
      destruct b; rewrite andb_true_iff, ?Z.leb_le; intuition.
    + destruct Hr as [-> ->]. split; [by apply index_map_alive|]. by rewrite !index_map_size.
  - destruct e; try done; cbn in Hr.
    + destruct Hr as [HF Hp]. split; [done|]. apply map_of_partial; by destruct op.
    + destruct Hr as [-> Hc]. split; [done|]. destruct op as [k v x| | | | | | |]; try done. destruct Hc as ([k' v'] & Hin & <-).
      exists v'. by apply index_map_spec.
    + apply map_of_partial; try done. destruct op; try done; by right.
Qed.

Lemma index_run_map F ops l rs l' : StronglySorted Z.le (map le_key l) -> Forall unique_op ops -> index_run F ops l rs l' True ->
  map_run F ops (index_map l) rs (index_map l').
Proof.
  revert F l rs. induction ops as [|op ops IH]; intros F l [|r rs] Hs Hops; cbn; try done; [by intros ->|].
  apply Forall_cons in Hops as [Hop Hops]. intros (l1 & Hstep & Hu & Hrun). destruct (Hu I) as (Hl & Hl1 & Hf). exists (index_map l1).
  split; [by apply map_of_step|]. apply IH; [apply Hstep|done|done].
Qed.

(** C11. An index that only unique insertion fills is a finite map: insertion of an
    absent key adds it, of a present key reports the duplicate; lookups, range
    scans in both directions, deletion and vacuum are those of the map. *)
Theorem btree_unique_map {S} (crc : Z -> list Z -> Z) rel (wal : option (WalSink S)) pages io (sink : S) next ops t0 :
  map_Forall (fun _ p => page_valid p) pages -> next < U32 -> create pages io sink next = Some (Ok tt, t0) ->
  wal_ok wal -> Forall op_fits ops -> Forall unique_op ops -> roomy crc rel wal ops t0 = true ->
  exists rs t' m, bt_run crc rel wal ops t0 = Some (rs, t') /\ map_run (false ∈ io) ops ∅ rs m.
Proof.
  intros Hp Hn Hc Hwal Hfits Huniq Hroom. pose proof (create_spec pages io sink next Hp Hn) as Hcr. rewrite Hc in Hcr. destruct Hcr as [Hinv Hf].
  destruct (bt_run_sim crc rel wal True Hwal ops t0 empty_index (false ∈ io)) as (rs & t' & G & Hrun & HG & Hi); try done.
  { intros _. split; [|done]. split; [|constructor]. cbn. repeat constructor. }
  exists rs, t', (index_map (contents G)). split; [done|]. apply (index_run_map _ _ [] rs); [constructor|done|done].
Qed.

(** ** Concrete runs *)

Definition tid (n : Z) : TupleId := mk_TupleId (mk_PageId 1 n) 0.

(** A log whose positions advance by 64, and one that accepts [n] records. *)
Definition counting_sink : WalSink Z := mk_WalSink Z (fun s _ => s) (fun s _ => if bool_decide (in_width U64 s) then (Ok s, s + 64) else (Err tt, s)).
Definition limited_sink : WalSink nat :=
  mk_WalSink nat (fun _ _ => 0) (fun s _ => match s with O => (Err tt, O) | Datatypes.S n => (Ok 64, n) end).

Definition fresh_index {S} (io : list bool) (sink : S) : BTree S :=
  match create ∅ io sink 1 with Some (_, t) => t | None => mk_BTree ∅ 0 1 io false sink end.

(** Keys in a scrambled order; more than two leaves. *)
Definition scrambled (n : nat) : list Z := map (fun i => Z.of_nat i * 37 mod 101) (seq 0 n).

Definition mixed_ops : list bt_op :=
  map (fun k => OpInsert k (tid k) 5) (scrambled 70)
  ++ [OpInsert 37 (tid 9) 5; OpInsertDup 37 (tid 9) 5; OpLookup 37; OpLookupAll 37; OpDelete 37 (tid 37) 6; OpLookup 38; OpRange 30 (Some 40);
      OpBackward 40 (Some 30); OpVacuum (fun v => pg_block (tid_page v) <? 50); OpRange 0 (Some 55)].

Lemma counting_ok : wal_ok (Some counting_sink).
Proof. intros s r lsn s'. cbn. case_bool_decide; [|done]. by intros [= -> _]. Qed.

#[global] Instance op_fits_dec op : Decision (op_fits op).
Proof. destruct op; cbn; unfold leaf_fits, in_i64, tid_ok; apply _. Defined.

Definition ent (k : Z) : LeafEntry := mk_LeafEntry k (tid k).


(** The log accepts 41 records: the insertion after them is refused with the
    entry in place, and the poisoned pool answers nothing more. *)
Definition unique_ops : list bt_op :=
  map (fun k => OpInsert k (tid k) 5) (scrambled 38)
  ++ [OpLookup 37; OpInsert 37 (tid 1) 5; OpDelete 37 (tid 36) 5; OpDelete 37 (tid 37) 5; OpLookup 37; OpRange 90 None;
      OpInsert 200 (tid 200) 5; OpInsert 201 (tid 201) 5; OpLookup 201].

#[global] Instance unique_op_dec op : Decision (unique_op op).
Proof. destruct op; cbn; apply _. Defined.

Lemma limited_ok : wal_ok (Some limited_sink).
Proof. intros [|n] r lsn s'; cbn; [done|]. by intros [= <- _]. Qed.

Lemma btree_unique_map_witness :
  let t0 := fresh_index [] 41%nat in
  option_map (fun x => drop 38 x.1) (bt_run (fun _ _ => 7) 9 (Some limited_sink) unique_ops t0)
    = Some [Ok (AOpt (Some (tid 37))); Err DuplicateKey; Ok (ABool false); Ok (ABool true); Ok (AOpt None); Ok (AEntries [ent 90; ent 94; ent 97; ent 100]);
            Ok AUnit; Err BWal; Err BufferPool] /\
  exists rs t' m, bt_run (fun _ _ => 7) 9 (Some limited_sink) unique_ops t0 = Some (rs, t') /\ map_run (false ∈ []) unique_ops ∅ rs m.
Proof.
  split; [|apply (btree_unique_map (fun _ _ => 7) 9 (Some limited_sink) ∅ [] 41%nat 1 unique_ops)].
  - vm_compute. reflexivity.
  - apply map_Forall_empty.
  - reflexivity.
  - vm_compute. reflexivity.
  - apply limited_ok.
  - apply (bool_decide_unpack _). vm_compute. exact I.
  - apply (bool_decide_unpack _). vm_compute. exact I.
  - vm_compute. reflexivity.
Defined.

(** ** Duplicate keys across leaves *)

(** Once the entries of one key have split a leaf, the duplicate check of
    non-unique insertion looks at the rightmost of their leaves only: an entry
    that is already stored to the left is accepted a second time. *)
Theorem non_unique_duplicate_pair :
  let ops := map (fun i => OpInsertDup 7 (tid (Z.of_nat i)) 5) (seq 0 33) ++ [OpInsertDup 7 (tid 0) 5; OpLookupAll 7] in
  exists t', bt_run (fun _ _ => 7) 9 None ops (fresh_index [] tt) =
    Some (replicate 34 (Ok AUnit) ++ [Ok (ATids (map (fun i => tid (Z.of_nat i)) (seq 0 16) ++ [tid 0] ++ map (fun i => tid (Z.of_nat i)) (seq 16 17)))], t').
Proof. eexists. vm_compute. reflexivity. Qed.

(** The backward scan descends with the smallest key and so starts at the
    rightmost leaf that may hold it: of 33 entries with that key it misses the
    16 in the first leaf. *)
Theorem backward_scan_misses_min :
  let ops := map (fun i => OpInsertDup I64_MIN (tid (Z.of_nat i)) 5) (seq 0 33) ++ [OpBackward 0 None] in
  exists t', bt_run (fun _ _ => 7) 9 None ops (fresh_index [] tt) =
    Some (replicate 33 (Ok AUnit) ++ [Ok (AEntries (rev (map (fun i => mk_LeafEntry I64_MIN (tid (Z.of_nat i))) (seq 16 17))))], t').
Proof. eexists. vm_compute. reflexivity. Qed.
