(* ===== verification/BufPool.v ===== *)
(** * The buffer pool (ultrasql-storage, buffer_pool.rs; the relief hook of
      ultrasql-server, server_lifecycle.rs)

    The frames, the page table, the CLOCK hand and the counters. The outside
    world (the page files and the log) is a state [D]; the page loader, the
    writer callback of a flush and the WAL sink act on it and are parameters.
    Every definition here is one whole call, run without interleaving; [PoolRace]
    takes [get_page] apart. An index out of range or an [expect] on an empty
    frame is [None]. A flush pins a frame only while it looks at it, which no
    other call can observe here. *)

From S2P Require Import Prelude CoreIds Bytes Page.

Inductive BufferPoolError := Exhausted | Loader (e : string) | WriteContention (id : PageId) | Poisoned.

#[global] Instance BufferPoolError_eq_dec : EqDecision BufferPoolError.
Proof. solve_decision. Defined.

(** The error type of a flush: [Error::Corruption], or the writer's error. *)
Inductive FlushError := Corruption (what : string) | WriterFailed (e : string).

Definition EVICTION_RELIEF_ROUNDS : nat := 3.

Record Frame := mk_Frame {
  f_page : option Page;
  f_id : option PageId;
  f_pins : Z;
  f_ref : bool;
  f_dirty : bool;
}.

Definition empty_frame : Frame := mk_Frame None None 0 false false.

Record Counters := mk_Counters { gets : Z; hits : Z; misses : Z; evictions : Z; dirty : Z }.
Record RelationCounters := mk_RelationCounters { rel_reads : Z; rel_hits : Z }.

Record Pool := mk_Pool {
  frames : list Frame;
  page_table : gmap PageId nat;
  max_resident_blocks : gmap Z Z;
  clock_hand : Z;
  counters : Counters;
  relation_counters : gmap Z RelationCounters;
  btree_block_allocators : gmap Z Z;
  poisoned : bool;
}.

(** ** Field updates *)

Definition set_frames (p : Pool) (fs : list Frame) : Pool :=
  mk_Pool fs (page_table p) (max_resident_blocks p) (clock_hand p) (counters p) (relation_counters p) (btree_block_allocators p) (poisoned p).
Definition set_table (p : Pool) (t : gmap PageId nat) : Pool :=
  mk_Pool (frames p) t (max_resident_blocks p) (clock_hand p) (counters p) (relation_counters p) (btree_block_allocators p) (poisoned p).
Definition set_max (p : Pool) (m : gmap Z Z) : Pool :=
  mk_Pool (frames p) (page_table p) m (clock_hand p) (counters p) (relation_counters p) (btree_block_allocators p) (poisoned p).
Definition set_hand (p : Pool) (h : Z) : Pool :=
  mk_Pool (frames p) (page_table p) (max_resident_blocks p) h (counters p) (relation_counters p) (btree_block_allocators p) (poisoned p).
Definition set_counters (p : Pool) (c : Counters) : Pool :=
  mk_Pool (frames p) (page_table p) (max_resident_blocks p) (clock_hand p) c (relation_counters p) (btree_block_allocators p) (poisoned p).
Definition set_relation_counters (p : Pool) (r : gmap Z RelationCounters) : Pool :=
  mk_Pool (frames p) (page_table p) (max_resident_blocks p) (clock_hand p) (counters p) r (btree_block_allocators p) (poisoned p).
Definition set_allocators (p : Pool) (a : gmap Z Z) : Pool :=
  mk_Pool (frames p) (page_table p) (max_resident_blocks p) (clock_hand p) (counters p) (relation_counters p) a (poisoned p).
Definition poison_after_wal_error (p : Pool) : Pool :=
  mk_Pool (frames p) (page_table p) (max_resident_blocks p) (clock_hand p) (counters p) (relation_counters p) (btree_block_allocators p) true.

Definition count_get (p : Pool) : Pool := let c := counters p in
  set_counters p (mk_Counters (wrapping_add U64 (gets c) 1) (hits c) (misses c) (evictions c) (dirty c)).
Definition count_hit (p : Pool) : Pool := let c := counters p in
  set_counters p (mk_Counters (gets c) (wrapping_add U64 (hits c) 1) (misses c) (evictions c) (dirty c)).
Definition count_miss (p : Pool) : Pool := let c := counters p in
  set_counters p (mk_Counters (gets c) (hits c) (wrapping_add U64 (misses c) 1) (evictions c) (dirty c)).
Definition count_eviction (p : Pool) : Pool := let c := counters p in
  set_counters p (mk_Counters (gets c) (hits c) (misses c) (wrapping_add U64 (evictions c) 1) (dirty c)).
Definition add_dirty (p : Pool) (n : Z) : Pool := let c := counters p in
  set_counters p (mk_Counters (gets c) (hits c) (misses c) (evictions c) (wrapping_add U64 (dirty c) n)).

Definition relation_counters_of (p : Pool) (rel : Z) : RelationCounters := default (mk_RelationCounters 0 0) (relation_counters p !! rel).
Definition record_relation_hit (p : Pool) (rel : Z) : Pool := let c := relation_counters_of p rel in
  set_relation_counters p (<[rel := mk_RelationCounters (rel_reads c) (wrapping_add U64 (rel_hits c) 1)]> (relation_counters p)).
Definition record_relation_read (p : Pool) (rel : Z) : Pool := let c := relation_counters_of p rel in
  set_relation_counters p (<[rel := mk_RelationCounters (wrapping_add U64 (rel_reads c) 1) (rel_hits c)]> (relation_counters p)).

Definition with_id (f : Frame) (id : option PageId) : Frame := mk_Frame (f_page f) id (f_pins f) (f_ref f) (f_dirty f).
Definition with_page (f : Frame) (pg : option Page) : Frame := mk_Frame pg (f_id f) (f_pins f) (f_ref f) (f_dirty f).
Definition with_ref (f : Frame) (b : bool) : Frame := mk_Frame (f_page f) (f_id f) (f_pins f) b (f_dirty f).
Definition with_dirty (f : Frame) (b : bool) : Frame := mk_Frame (f_page f) (f_id f) (f_pins f) (f_ref f) b.
Definition add_pin (f : Frame) (n : Z) : Frame := mk_Frame (f_page f) (f_id f) (wrapping_add U64 (f_pins f) n) (f_ref f) (f_dirty f).

Definition at_frame (p : Pool) (i : nat) (g : Frame -> Frame) : Pool := set_frames p (alter g i (frames p)).

(** ** Construction and small accessors *)

Definition new (capacity : nat) : option Pool :=
  match capacity with
  | O => None
  | _ => Some (mk_Pool (replicate capacity empty_frame) ∅ ∅ 0 (mk_Counters 0 0 0 0 0) ∅ ∅ false)
  end.

Definition capacity (p : Pool) : nat := length (frames p).
Definition dirty_pages (p : Pool) : Z := dirty (counters p).
Definition resident_pages (p : Pool) : nat := size (page_table p).
Definition max_resident_block (p : Pool) (rel : Z) : option Z := max_resident_blocks p !! rel.
Definition pinned_frames (p : Pool) : nat := length (filter (fun f => 0 < f_pins f) (frames p)).

(** [btree_block_allocator] with [raise_atomic_floor]: the allocator of the
    relation, raised to the floor. *)
Definition btree_block_allocator (p : Pool) (rel next_floor : Z) : Z * Pool :=
  let v := Z.max (default next_floor (btree_block_allocators p !! rel)) next_floor in
  (v, set_allocators p (<[rel := v]> (btree_block_allocators p))).

(** ** Finding a frame *)

Definition is_free (f : Frame) : bool := (f_pins f =? 0) && bool_decide (f_id f = None).

Fixpoint find_free (fs : list Frame) (i : nat) : option nat :=
  match fs with
  | [] => None
  | f :: rest => if is_free f then Some i else find_free rest (S i)
  end.

(** The CLOCK sweep, [n] attempts. *)
Fixpoint sweep (n : nat) (p : Pool) (new_page_id : PageId) : option (result nat BufferPoolError * Pool) :=
  match n with
  | O => Some (Err Exhausted, p)
  | S n' =>
      let hand := Z.to_nat (clock_hand p mod Z.of_nat (length (frames p))) in
      let p := set_hand p (wrapping_add U64 (clock_hand p) 1) in
      frame ← frames p !! hand;
      if negb (f_pins frame =? 0) then sweep n' p new_page_id
      else if f_ref frame then sweep n' (at_frame p hand (fun f => with_ref f false)) new_page_id
      else
        let take p := Some (Ok hand, at_frame p hand (fun f => with_page (with_id f (Some new_page_id)) None)) in
        match f_id frame with
        | Some old_id =>
            if f_dirty frame then sweep n' p new_page_id
            else take (count_eviction (set_table p (delete old_id (page_table p))))
        | None => take p
        end
  end.

Definition acquire_frame_for (p : Pool) (new_page_id : PageId) : option (result nat BufferPoolError * Pool) :=
  match find_free (frames p) 0 with
  | Some i => Some (Ok i, at_frame p i (fun f => with_id f (Some new_page_id)))
  | None => sweep (length (frames p) * 4) p new_page_id
  end.

(** ** Fetching a page *)

(** [trait PageLoader]: reads a page from the outside world. *)
Class PageLoader (D : Type) := load : D -> PageId -> result Page string * D.

(** The mark of the highest block seen of a relation. *)
Definition note_resident (p : Pool) (id : PageId) : Pool :=
  set_max p (<[pg_relation id := Z.max (default (pg_block id) (max_resident_blocks p !! pg_relation id)) (pg_block id)]> (max_resident_blocks p)).

(** The new page goes into its frame, with one pin. *)
Definition install (p : Pool) (i : nat) (id : PageId) (page : Page) : option Pool :=
  frame ← frames p !! i;
  let p1 := at_frame p i (fun f => add_pin (with_dirty (with_ref (with_id (with_page f (Some page)) (Some id)) true) false) 1) in
  let p2 := if f_dirty frame then add_dirty p1 (-1) else p1 in
  Some (note_resident (set_table p2 (<[id := i]> (page_table p2))) id).

Definition hit (p : Pool) (i : nat) (id : PageId) : Pool :=
  record_relation_hit (count_hit (at_frame p i (fun f => with_ref (add_pin f 1) true))) (pg_relation id).

Section pool.
Context {D : Type} `{!PageLoader D}.

(** The part of [get_page] under the miss lock. *)
Definition get_page_miss (p : Pool) (d : D) (id : PageId) : option (result nat BufferPoolError * (Pool * D)) :=
  match page_table p !! id with
  | Some i => _ ← frames p !! i; Some (Ok i, (hit p i id, d))
  | None =>
      r ← acquire_frame_for (record_relation_read (count_miss p) (pg_relation id)) id;
      match r with
      | (Err e, p1) => Some (Err e, (p1, d))
      | (Ok i, p1) =>
          match load d id with
          | (Err e, d1) => Some (Err (Loader e), (at_frame p1 i (fun f => with_id (with_page f None) None), d1))
          | (Ok page, d1) => p2 ← install p1 i id page; Some (Ok i, (p2, d1))
          end
      end
  end.

Definition get_page (p : Pool) (d : D) (id : PageId) : option (result nat BufferPoolError * (Pool * D)) :=
  if poisoned p then Some (Err Poisoned, (p, d)) else
  let p := count_get p in
  match page_table p !! id with
  | Some i =>
      frame ← frames p !! i;
      if bool_decide (f_id frame = Some id) then Some (Ok i, (hit p i id, d))
      else get_page_miss p d id
  | None => get_page_miss p d id
  end.

(** The retries of [get_page_relieved]. *)
Fixpoint relieved_loop (relieve : Pool -> D -> option (result unit BufferPoolError * (Pool * D))) (budget : nat) (p : Pool) (d : D) (id : PageId)
  : option (result nat BufferPoolError * (Pool * D)) :=
  r ← get_page p d id;
  match r, budget with
  | (Err Exhausted, s), O => Some (Err Exhausted, s)
  | (Err Exhausted, (p1, d1)), S budget' =>
      x ← relieve p1 d1;
      match x with
      | (Err e, s) => Some (Err e, s)
      | (Ok _, (p2, d2)) => relieved_loop relieve budget' p2 d2 id
      end
  | _, _ => Some r
  end.

Definition get_page_relieved (relief : option (Pool -> D -> option (result unit BufferPoolError * (Pool * D)))) (p : Pool) (d : D) (id : PageId)
  : option (result nat BufferPoolError * (Pool * D)) :=
  match relief with
  | None => get_page p d id
  | Some relieve => relieved_loop relieve EVICTION_RELIEF_ROUNDS p d id
  end.
End pool.

(** ** Guards *)

Definition guard_read (p : Pool) (i : nat) : option Page := f ← frames p !! i; f_page f.

(** A write through a guard: the bytes change under the frame's lock, and the
    frame is dirty when the lock is released. *)
Definition guard_write (p : Pool) (i : nat) (g : Page -> Page) : option Pool :=
  frame ← frames p !! i;
  page ← f_page frame;
  let p1 := at_frame p i (fun f => with_dirty (with_page f (Some (g page))) true) in
  Some (if f_dirty frame then p1 else add_dirty p1 1).

Definition unpin (p : Pool) (i : nat) (make_dirty : bool) : option Pool :=
  frame ← frames p !! i;
  let p1 := if make_dirty && negb (f_dirty frame) then add_dirty (at_frame p i (fun f => with_dirty f true)) 1 else p in
  Some (at_frame p1 i (fun f => add_pin f (-1))).

(** ** Flushing *)

(** The part of [trait WalSink] a flush consults. *)
Record DurableSink (D : Type) := mk_DurableSink { durable_lsn : D -> Z; zero_lsn_has_no_pending_record : D -> bool }.
Arguments durable_lsn {D} _ _.
Arguments zero_lsn_has_no_pending_record {D} _ _.

(** A page whose record starts at [page_lsn] may not be written yet. *)
Definition gated (durability : option (Z * bool)) (page_lsn : Z) : bool :=
  match durability with
  | Some (boundary, zero_free) => (boundary <=? page_lsn) && negb ((page_lsn =? 0) && zero_free)
  | None => false
  end.

(** The dirty, unpinned, resident page of a frame. *)
Definition flush_candidate (f : Frame) : option (PageId * Page) :=
  if negb (f_dirty f) then None else
  if negb (f_pins f =? 0) then None else
  match f_id f, f_page f with Some id, Some page => Some (id, page) | _, _ => None end.

Definition page_lsn (page : Page) : option Z := h ← page_header page; Some (hd_lsn h).

Section flush.
Context {D : Type} (writer : D -> PageId -> Page -> result unit string * D).

Fixpoint flush_frames (durability : option (Z * bool)) (todo : list nat) (p : Pool) (d : D) (flushed : Z)
  : option (result Z FlushError * (Pool * D)) :=
  match todo with
  | [] => Some (Ok flushed, (p, d))
  | i :: rest =>
      frame ← frames p !! i;
      match flush_candidate frame with
      | None => flush_frames durability rest p d flushed
      | Some (id, page) =>
          lsn ← page_lsn page;
          if gated durability lsn then flush_frames durability rest p d flushed
          else match writer d id page with
               | (Err e, d1) => Some (Err (WriterFailed e), (p, d1))
               | (Ok _, d1) => flush_frames durability rest (add_dirty (at_frame p i (fun f => with_dirty f false)) (-1)) d1 (flushed + 1)
               end
      end
  end.

Definition durability_of (sink : option (DurableSink D)) (d : D) : option (Z * bool) :=
  match sink with Some s => Some (durable_lsn s d, zero_lsn_has_no_pending_record s d) | None => None end.

Definition try_flush_dirty (sink : option (DurableSink D)) (p : Pool) (d : D) : option (result Z FlushError * (Pool * D)) :=
  if poisoned p then Some (Err (Corruption "buffer pool poisoned after WAL append failure"), (p, d)) else
  flush_frames (durability_of sink d) (seq 0 (length (frames p))) p d 0.
End flush.

Definition lower (oldest : option Z) (lsn : Z) : option Z :=
  Some (match oldest with Some current => if current <=? lsn then current else lsn | None => lsn end).

Fixpoint oldest_dirty_loop (fs : list Frame) (oldest : option Z) : option (option Z) :=
  match fs with
  | [] => Some oldest
  | f :: rest =>
      if negb (f_dirty f) then oldest_dirty_loop rest oldest else
      match f_id f, f_page f with
      | Some _, Some page => lsn ← page_lsn page; oldest_dirty_loop rest (lower oldest lsn)
      | _, _ => oldest_dirty_loop rest oldest
      end
  end.

Definition oldest_dirty_lsn (p : Pool) : option (option Z) := oldest_dirty_loop (frames p) None.

Fixpoint unflushable_loop (durability : Z * bool) (fs : list Frame) (oldest : option Z) : option (option Z) :=
  match fs with
  | [] => Some oldest
  | f :: rest =>
      match flush_candidate f with
      | None => unflushable_loop durability rest oldest
      | Some (_, page) =>
          lsn ← page_lsn page;
          if (lsn <? durability.1) || ((lsn =? 0) && durability.2) then unflushable_loop durability rest oldest
          else unflushable_loop durability rest (lower oldest lsn)
      end
  end.

Definition oldest_unflushable_dirty_lsn {D} (sink : option (DurableSink D)) (p : Pool) (d : D) : option (option Z) :=
  match sink with
  | None => Some None
  | Some s => unflushable_loop (durable_lsn s d, zero_lsn_has_no_pending_record s d) (frames p) None
  end.

(** ** The relief hook of the server *)

Section relief.
Context {D : Type} (store : D -> PageId -> Page -> result unit string * D).
(** Waits until the record that starts at the position is durable. *)
Context (force : option (D -> Z -> result unit string * D)) (sink : option (DurableSink D)).

Definition flush_durable (p : Pool) (d : D) : option (result Z BufferPoolError * (Pool * D)) :=
  r ← try_flush_dirty store sink p d;
  Some (match r with
        | (Ok n, s) => (Ok n, s)
        | (Err (WriterFailed e), s) => (Err (Loader e), s)
        | (Err (Corruption e), s) => (Err (Loader e), s)
        end).

Definition relieve (p : Pool) (d : D) : option (result unit BufferPoolError * (Pool * D)) :=
  if poisoned p then Some (Err Poisoned, (p, d)) else
  r ← flush_durable p d;
  match r with
  | (Err e, s) => Some (Err e, s)
  | (Ok flushed, (p1, d1)) =>
      if 0 <? flushed then Some (Ok tt, (p1, d1)) else
      target ← oldest_unflushable_dirty_lsn sink p1 d1;
      match target, force with
      | Some lsn, Some f =>
          match f d1 lsn with
          | (Err e, d2) => Some (Err (Loader e), (p1, d2))
          | (Ok _, d2) =>
              r2 ← flush_durable p1 d2;
              match r2 with
              | (Err e, s) => Some (Err e, s)
              | (Ok _, s) => Some (Ok tt, s)
              end
          end
      | _, _ => Some (Ok tt, (p1, d1))
      end
  end.
End relief.
