(* ===== verification/BufPoolSpec.v ===== *)
(** * The buffer pool: coherence, eviction and write-ahead logging

    The invariant of the pool and what each call does under it. A pool is a
    cache of the page files: a clean frame holds what the file holds, a page has
    at most one frame, a pinned frame keeps its page. *)

From S2P Require Import Prelude CoreIds Bytes Page BufPool.

(** ** Counting frames *)

Definition b2z (b : bool) : Z := if b then 1 else 0.

Fixpoint countb (P : Frame -> bool) (fs : list Frame) : Z :=
  match fs with [] => 0 | f :: rest => b2z (P f) + countb P rest end.

Lemma countb_bound P fs : 0 <= countb P fs <= Z.of_nat (length fs).
Proof. induction fs as [|f fs IH]; cbn; [lia|]. destruct (P f); cbn; lia. Qed.

Lemma countb_insert P fs i f g : fs !! i = Some f -> countb P (<[i := g]> fs) = countb P fs - b2z (P f) + b2z (P g).
Proof.
  revert i. induction fs as [|x fs IH]; intros [|i] H; try done; cbn in H; [injection H as ->; cbn; lia|].
  change (<[S i := g]> (x :: fs)) with (x :: <[i := g]> fs). cbn [countb]. rewrite (IH _ H). lia.
Qed.

Lemma countb_pos P fs i f : fs !! i = Some f -> P f = true -> 0 < countb P fs.
Proof.
  revert i. induction fs as [|x fs IH]; intros [|i] H HP; cbn in *; try done.
  - injection H as ->. rewrite HP. pose proof (countb_bound P fs). cbn. lia.
  - pose proof (IH _ H HP). destruct (P x); cbn; lia.
Qed.

Lemma countb_ext P fs fs' : Forall2 (fun f f' => P f' = P f) fs fs' -> countb P fs' = countb P fs.
Proof. induction 1 as [|f f' fs fs' H _ IH]; cbn; [done|]. by rewrite H, IH. Qed.

Lemma alter_insert {A} (g : A -> A) (l : list A) i x : l !! i = Some x -> alter g i l = <[i := g x]> l.
Proof. intros H. apply list_eq. intros j. destruct (decide (i = j)) as [->|Hne].
  - rewrite list_lookup_alter_eq, list_lookup_insert_eq, H; [done|]. by eapply lookup_lt_Some.
  - by rewrite list_lookup_alter_ne, list_lookup_insert_ne.
Qed.

(** ** The invariant of the pool *)

Record frame_ok (f : Frame) : Prop := {
  fo_pins : in_width U64 (f_pins f);
  fo_page : is_Some (f_page f) <-> is_Some (f_id f);
  fo_none : f_id f = None -> f_pins f = 0 /\ f_dirty f = false;
  fo_lsn : forall pg, f_page f = Some pg -> is_Some (page_lsn pg);
}.

Record pool_ok (p : Pool) : Prop := {
  po_cap : 0 < Z.of_nat (length (frames p)) /\ 4 * Z.of_nat (length (frames p)) < U64;
  po_hand : in_width U64 (clock_hand p);
  po_table : forall id i, page_table p !! id = Some i <-> exists f, frames p !! i = Some f /\ f_id f = Some id;
  po_frame : Forall frame_ok (frames p);
  po_dirty : dirty (counters p) = countb f_dirty (frames p);
  po_max : forall id i, page_table p !! id = Some i -> exists m, max_resident_block p (pg_relation id) = Some m /\ pg_block id <= m;
}.

(** Two pools that differ in reference bits and the hand only. *)
Record refs_only (p q : Pool) : Prop := {
  ro_frames : Forall2 (fun f f' => f' = with_ref f (f_ref f')) (frames p) (frames q);
  ro_rest : q = mk_Pool (frames q) (page_table p) (max_resident_blocks p) (clock_hand q) (counters p) (relation_counters p)
                        (btree_block_allocators p) (poisoned p);
  ro_hand : in_width U64 (clock_hand p) -> in_width U64 (clock_hand q);
}.

Lemma ref_self fs : Forall2 (fun f f' => f' = with_ref f (f_ref f')) fs fs.
Proof. induction fs as [|[] fs IH]; constructor; done. Qed.

Lemma refs_only_refl p : refs_only p p.
Proof. constructor; [apply ref_self|by destruct p|done]. Qed.

Lemma refs_only_trans p q r : refs_only p q -> refs_only q r -> refs_only p r.
Proof.
  intros [F1 R1 H1] [F2 R2 H2]. constructor; [|rewrite R2; by rewrite R1|auto].
  clear - F1 F2. revert F2. generalize (frames r). induction F1 as [|f f' fs fs' Hf _ IH]; intros l HF; inversion HF; subst; constructor; [|auto].
  destruct f. cbn in *. subst. match goal with H : _ = with_ref f' _ |- _ => rewrite H, Hf end. done.
Qed.

Lemma refs_only_lookup p q i f : refs_only p q -> frames p !! i = Some f -> exists b, frames q !! i = Some (with_ref f b).
Proof.
  intros [HF _ _] H. destruct (Forall2_lookup_l _ _ _ _ _ HF H) as (f' & H' & Hf). exists (f_ref f'). by rewrite H', <- Hf.
Qed.

Lemma refs_only_lookup_r p q i f : refs_only p q -> frames q !! i = Some f -> exists b, frames p !! i = Some (with_ref f b).
Proof.
  intros [HF _ _] H. destruct (Forall2_lookup_r _ _ _ _ _ HF H) as (f' & H' & Hf). exists (f_ref f'). rewrite H', Hf. by destruct f'.
Qed.

Lemma refs_only_length p q : refs_only p q -> length (frames q) = length (frames p).
Proof. intros [HF _ _]. symmetry. by eapply Forall2_length. Qed.

Lemma frame_ok_ref f b : frame_ok f -> frame_ok (with_ref f b).
Proof. intros []. by constructor. Qed.

Lemma refs_only_table p q : refs_only p q -> page_table q = page_table p /\ max_resident_blocks q = max_resident_blocks p /\ counters q = counters p /\ poisoned q = poisoned p.
Proof. intros [_ -> _]. done. Qed.

Lemma refs_only_ok p q : refs_only p q -> pool_ok p -> pool_ok q.
Proof.
  intros HR [H1 H2 H3 H4 H5 H6]. pose proof (refs_only_length _ _ HR) as Hl. destruct (refs_only_table _ _ HR) as (Ht & Hm & Hc & _).
  constructor; [by rewrite Hl|by apply HR|..].
  - intros id i. rewrite Ht, H3. split; intros (f & Hf & Hid).
    + destruct (refs_only_lookup _ _ _ _ HR Hf) as [b Hb]. eauto.
    + destruct (refs_only_lookup_r _ _ _ _ HR Hf) as [b Hb]. eauto.
  - apply Forall_lookup. intros i f Hf. destruct (refs_only_lookup_r _ _ _ _ HR Hf) as [b Hb]. rewrite Forall_lookup in H4.
    specialize (H4 _ _ Hb). apply (frame_ok_ref _ (f_ref f)) in H4. by destruct f.
  - rewrite Hc, H5. symmetry. apply countb_ext. eapply Forall2_impl; [apply HR|]. cbn. by intros f f' ->.
  - intros id i. rewrite Ht. unfold max_resident_block. rewrite Hm. apply H6.
Qed.

(** ** The sweep *)

Definition advance (p : Pool) : Pool := set_hand p (wrapping_add U64 (clock_hand p) 1).

Lemma advance_refs p : refs_only p (advance p).
Proof. constructor; [apply ref_self|done|]. intros _. apply Z.mod_pos_bound. done. Qed.

Lemma clear_ref_refs p i : refs_only p (at_frame p i (fun f => with_ref f false)).
Proof.
  constructor; [|done|done]. cbn. apply Forall2_same_length_lookup_2; [by rewrite length_alter|]. intros j x y Hx Hy.
  destruct (decide (i = j)) as [->|Hne]; [rewrite list_lookup_alter_eq, Hx in Hy; by injection Hy as <-|].
  rewrite list_lookup_alter_ne, Hx in Hy by done. injection Hy as <-. by destruct x.
Qed.

(** Evicting what a frame holds. *)
Definition evicted (p : Pool) (f : Frame) : Pool :=
  match f_id f with Some old => count_eviction (set_table p (delete old (page_table p))) | None => p end.

Definition claim (id : PageId) (f : Frame) : Frame := with_page (with_id f (Some id)) None.

(** A frame the sweep may take. *)
Definition evictable (f : Frame) : Prop := f_pins f = 0 /\ (is_Some (f_id f) -> f_dirty f = false).

Definition sweep_post (p : Pool) (id : PageId) (r : result nat BufferPoolError) (p' : Pool) : Prop :=
  match r with
  | Err e => e = Exhausted /\ refs_only p p'
  | Ok i => exists q f, refs_only p q /\ frames q !! i = Some f /\ evictable f /\ p' = at_frame (evicted q f) i (claim id)
  end.

Lemma sweep_post_refs p q id r p' : refs_only p q -> sweep_post q id r p' -> sweep_post p id r p'.
Proof.
  intros HR. destruct r as [i|e]; cbn.
  - intros (q' & f & HR' & H). exists q', f. split; [by eapply refs_only_trans|done].
  - intros [-> HR']. split; [done|]. by eapply refs_only_trans.
Qed.

Lemma hand_lookup p : 0 < Z.of_nat (length (frames p)) -> is_Some (frames p !! Z.to_nat (clock_hand p mod Z.of_nat (length (frames p)))).
Proof. intros H. apply lookup_lt_is_Some. pose proof (Z.mod_pos_bound (clock_hand p) _ H). lia. Qed.

Lemma sweep_spec n : forall p id, 0 < Z.of_nat (length (frames p)) -> exists r p', sweep n p id = Some (r, p') /\ sweep_post p id r p'.
Proof.
  induction n as [|n IH]; intros p id Hl; cbn [sweep]; [by eexists _, _; split; [done|split; [done|apply refs_only_refl]]|].
  destruct (hand_lookup p Hl) as [f Hf]. set (hand := Z.to_nat _) in *. fold (advance p).
  change (frames (advance p)) with (frames p). rewrite Hf. cbn [mbind option_bind]. pose proof (advance_refs p) as HA.
  destruct (f_pins f =? 0) eqn:Ep; cbn [negb].
  2: { destruct (IH (advance p) id Hl) as (r & p' & -> & Hp). eexists _, _. split; [done|]. by eapply sweep_post_refs. }
  apply Z.eqb_eq in Ep. destruct (f_ref f).
  { pose proof (clear_ref_refs (advance p) hand) as HC. destruct (IH (at_frame (advance p) hand (fun f => with_ref f false)) id) as (r & p' & -> & Hp).
    { by rewrite (refs_only_length _ _ HC). }
    eexists _, _. split; [done|]. eapply sweep_post_refs; [|done]. by eapply refs_only_trans. }
  assert (forall q, q = evicted (advance p) f -> evictable f -> sweep_post p id (Ok hand) (at_frame q hand (fun f => with_page (with_id f (Some id)) None))) as Htake.
  { intros q -> He. exists (advance p), f. done. }
  unfold evicted in Htake. destruct (f_id f) as [old|] eqn:Eid.
  - destruct (f_dirty f) eqn:Ed.
    + destruct (IH (advance p) id Hl) as (r & p' & -> & Hp). eexists _, _. split; [done|]. by eapply sweep_post_refs.
    + eexists _, _. split; [done|]. apply Htake; [done|]. by split.
  - eexists _, _. split; [done|]. apply Htake; [done|]. split; [done|]. rewrite Eid. by intros [].
Qed.

(** ** The sweep misses no evictable frame *)

Fixpoint hands (n : nat) (h len : Z) : list nat :=
  match n with O => [] | S n' => Z.to_nat (h mod len) :: hands n' (wrapping_add U64 h 1) len end.

Definition visits (i : nat) (l : list nat) : nat := length (filter (fun j => j = i) l).

(** A sweep that fails has seen an evictable frame at most once, and then its
    reference bit was set. *)
Lemma sweep_fails_visits n : forall p id e p' i f,
  sweep n p id = Some (Err e, p') -> frames p !! i = Some f -> f_pins f = 0 -> f_dirty f = false ->
  (visits i (hands n (clock_hand p) (Z.of_nat (length (frames p)))) <= if f_ref f then 1 else 0)%nat.
Proof.
  induction n as [|n IH]; intros p id e p' i f; cbn [sweep hands]; [intros; cbn; lia|].
  set (hand := Z.to_nat _). fold (advance p). change (frames (advance p)) with (frames p).
  destruct (frames p !! hand) as [g|] eqn:Eg; [|done]. cbn [mbind option_bind]. intros Hs Hi Hp Hd.
  unfold visits. rewrite filter_cons. destruct (decide (hand = i)) as [Hhi|Hne].
  - rewrite Hhi in Eg. rewrite Hi in Eg. injection Eg as <-. rewrite Hp in Hs. cbn [negb Z.eqb] in Hs. destruct (f_ref f).
    + pose proof (clear_ref_refs (advance p) hand) as HC. pose proof (refs_only_length _ _ HC) as Hl.
      assert (frames (at_frame (advance p) hand (fun f => with_ref f false)) !! i = Some (with_ref f false)) as Hi'.
      { cbn. rewrite Hhi. by rewrite list_lookup_alter_eq, Hi. }
      specialize (IH _ _ _ _ _ _ Hs Hi' Hp Hd). rewrite Hl in IH. cbn in IH |- *. unfold visits in IH. lia.
    + destruct (f_id f); [rewrite Hd in Hs|]; done.
  - assert (forall q, refs_only (advance p) q -> clock_hand q = clock_hand (advance p) -> sweep n q id = Some (Err e, p') -> frames q !! i = Some f ->
      (length (filter (fun j => j = i) (hands n (wrapping_add U64 (clock_hand p) 1) (Z.of_nat (length (frames p))))) <= if f_ref f then 1 else 0)%nat) as Hgo.
    { intros q HR Hh Hq Hqi. specialize (IH _ _ _ _ _ _ Hq Hqi Hp Hd). rewrite (refs_only_length _ _ HR), Hh in IH. done. }
    destruct (negb (f_pins g =? 0)); [by eapply (Hgo (advance p)); [apply refs_only_refl|..]|].
    destruct (f_ref g).
    + eapply (Hgo _ (clear_ref_refs (advance p) hand)); [done|exact Hs|]. cbn. by rewrite list_lookup_alter_ne.
    + destruct (f_id g); [destruct (f_dirty g)|]; try done. by eapply (Hgo (advance p)); [apply refs_only_refl|..].
Qed.

Lemma hands_app a b h len : in_width U64 h -> hands (a + b) h len = hands a h len ++ hands b (wrapping_add U64 h (Z.of_nat a)) len.
Proof.
  revert h. induction a as [|a IH]; intros h Hh; cbn [hands Nat.add app].
  - f_equal. unfold wrapping_add, wrap. rewrite Z.add_0_r. symmetry. by apply Z.mod_small.
  - rewrite IH by (apply Z.mod_pos_bound; done). do 3 f_equal. unfold wrapping_add, wrap. rewrite Z.add_mod_idemp_l by done. f_equal. lia.
Qed.

Lemma hands_straight n h len : 0 <= h -> h + Z.of_nat n <= U64 -> hands n h len = map (fun k => Z.to_nat ((h + Z.of_nat k) mod len)) (seq 0 n).
Proof.
  revert h. induction n as [|n IH]; intros h Hh Hn; [done|]. cbn [hands seq map]. rewrite Z.add_0_r. f_equal.
  destruct n as [|n]; [done|]. unfold wrapping_add, wrap. rewrite Z.mod_small by lia. rewrite IH by lia.
  rewrite <- (seq_shift (S n) 0), map_map. apply map_ext. intros k. do 2 f_equal. lia.
Qed.

(** A full turn of the hand that does not wrap visits every frame. *)
Lemma turn_visits h (len i : nat) : (i < len)%nat -> 0 <= h -> h + Z.of_nat len <= U64 -> (1 <= visits i (hands len h (Z.of_nat len)))%nat.
Proof.
  intros Hi Hh Hn. rewrite hands_straight by done. unfold visits.
  assert (i ∈ filter (fun j => j = i) (map (fun k => Z.to_nat ((h + Z.of_nat k) mod Z.of_nat len)) (seq 0 len))) as Hin.
  { apply list_elem_of_filter. split; [done|]. apply list_elem_of_fmap. set (l := Z.of_nat len) in *.
    exists (Z.to_nat ((Z.of_nat i - h) mod l)). assert (0 < l) by lia. pose proof (Z.mod_pos_bound (Z.of_nat i - h) l ltac:(done)). split.
    - rewrite Z2Nat.id by lia. rewrite Z.add_mod_idemp_r by lia. replace (h + (Z.of_nat i - h)) with (Z.of_nat i) by lia.
      rewrite Z.mod_small by lia. lia.
    - apply elem_of_seq. lia. }
  destruct (filter _ _); [by apply not_elem_of_nil in Hin|]. cbn. lia.
Qed.

Lemma visits_app i l l' : visits i (l ++ l') = (visits i l + visits i l')%nat.
Proof. unfold visits. by rewrite filter_app, length_app. Qed.

Lemma two_turns_visit h (len i : nat) : (i < len)%nat -> 0 <= h -> h + 2 * Z.of_nat len <= U64 ->
  (2 <= visits i (hands (len + len) h (Z.of_nat len)))%nat.
Proof.
  intros Hi Hh Hn. rewrite hands_app by (split; lia). rewrite visits_app.
  pose proof (turn_visits h len i Hi Hh ltac:(lia)). unfold wrapping_add, wrap. rewrite Z.mod_small by lia.
  pose proof (turn_visits (h + Z.of_nat len) len i Hi ltac:(lia) ltac:(lia)). lia.
Qed.

(** Four turns visit every frame twice, wherever the hand wraps. *)
Lemma four_turns_visit h (len i : nat) : (i < len)%nat -> in_width U64 h -> 4 * Z.of_nat len < U64 ->
  (2 <= visits i (hands (len * 4) h (Z.of_nat len)))%nat.
Proof.
  intros Hi Hh Hn. replace (len * 4)%nat with ((len + len) + (len + len))%nat by lia. rewrite hands_app by done. rewrite visits_app.
  destruct (decide (h + 2 * Z.of_nat len <= U64)) as [Hs|Hw].
  - pose proof (two_turns_visit h len i Hi (proj1 Hh) Hs). lia.
  - unfold in_width in Hh. set (h' := wrapping_add _ _ _). assert (0 <= h' < 2 * Z.of_nat len) as Hh'.
    { unfold h', wrapping_add, wrap. replace (h + Z.of_nat (len + len)) with (h + Z.of_nat (len + len) - U64 + 1 * U64) by lia.
      rewrite Z.mod_add by done. rewrite Z.mod_small; lia. }
    pose proof (two_turns_visit h' len i Hi ltac:(lia) ltac:(lia)). lia.
Qed.

(** The sweep fails exactly when no frame is evictable. *)
Lemma sweep_exhausted p id : pool_ok p -> find_free (frames p) 0 = None ->
  (exists p', sweep (length (frames p) * 4) p id = Some (Err Exhausted, p')) <-> Forall (fun f => f_pins f <> 0 \/ f_dirty f = true) (frames p).
Proof.
  intros Hok Hff. destruct (po_cap _ Hok) as [Hl Hl4]. destruct (sweep_spec (length (frames p) * 4) p id Hl) as (r & p' & Hs & Hp). split.
  - intros [p'' Hs']. apply Forall_lookup. intros i f Hi. destruct (decide (f_pins f = 0)) as [Hpin|]; [|by left]. destruct (f_dirty f) eqn:Hd; [by right|].
    pose proof (sweep_fails_visits _ _ _ _ _ _ _ Hs' Hi Hpin Hd) as Hv. pose proof (four_turns_visit (clock_hand p) (length (frames p)) i) as H4.
    specialize (H4 ltac:(by eapply lookup_lt_Some) (po_hand _ Hok) Hl4). destruct (f_ref f); lia.
  - intros Hall. destruct r as [i|e]; [|destruct Hp as [-> _]; by eexists]. exfalso. destruct Hp as (q & f & HR & Hf & [Hp0 Hcl] & _).
    destruct (refs_only_lookup_r _ _ _ _ HR Hf) as [b Hb]. rewrite Forall_lookup in Hall.
    assert (f_id f = None) as Hnone.
    { destruct (f_id f) eqn:E; [|done]. destruct (Hall _ _ Hb) as [H|H]; [done|]. cbn in H. rewrite (Hcl ltac:(by eexists)) in H. done. }
    assert (forall fs k, find_free fs k = None -> Forall (fun f => is_free f = false) fs) as Hff'.
    { induction fs as [|g fs IH]; intros k; cbn; [constructor|]. destruct (is_free g) eqn:E; [done|]. intros ?. constructor; [done|by eapply IH]. }
    specialize (Hff' _ _ Hff). rewrite Forall_lookup in Hff'. specialize (Hff' _ _ Hb). unfold is_free in Hff'. cbn in Hff'.
    rewrite Hp0, Hnone in Hff'. done.
Qed.

(** ** The pool over the page files *)

(** What the pool relies on: a load returns the page of the file and changes no
    file; a page exists only with a valid header. *)
Class PageStore (D : Type) `{!PageLoader D} := {
  disk : D -> PageId -> Page;
  load_disk : forall d id r d', load d id = (r, d') ->
    (forall x, disk d' x = disk d x) /\ forall pg, r = Ok pg -> pg = disk d id /\ is_Some (page_lsn pg);
}.

(** A writer touches the file of the page it is given only. *)
Definition stores_pages {D} `{PageStore D} (w : D -> PageId -> Page -> result unit string * D) : Prop :=
  forall d id pg r d', w d id pg = (r, d') -> (forall x, x <> id -> disk d' x = disk d x) /\ (r = Ok tt -> disk d' id = pg).

Definition coherent {D} `{PageStore D} (p : Pool) (d : D) : Prop :=
  forall i f id pg, frames p !! i = Some f -> f_id f = Some id -> f_page f = Some pg -> f_dirty f = false -> disk d id = pg.

(** The content of a page: its frame, or else its file. *)
Definition view {D} `{PageStore D} (p : Pool) (d : D) (id : PageId) : Page :=
  match page_table p !! id with Some i => default (disk d id) (frames p !! i ≫= f_page) | None => disk d id end.

Lemma table_unique p id i j f : pool_ok p -> page_table p !! id = Some i -> frames p !! j = Some f -> f_id f = Some id -> i = j.
Proof. intros Hok Hi Hj Hf. assert (page_table p !! id = Some j) as Hj' by (apply po_table; eauto). congruence. Qed.

Lemma lookup_frame p id i : pool_ok p -> page_table p !! id = Some i -> exists f pg, frames p !! i = Some f /\ f_id f = Some id /\ f_page f = Some pg /\ frame_ok f.
Proof.
  intros Hok Hi. apply (po_table _ Hok) in Hi as (f & Hf & Hid). pose proof (po_frame _ Hok) as HF. rewrite Forall_lookup in HF. specialize (HF _ _ Hf).
  destruct (proj2 (fo_page _ HF) ltac:(by eexists)) as [pg Hpg]. by exists f, pg.
Qed.

Definition vacated (q : Pool) (f : Frame) : gmap PageId nat := match f_id f with Some old => delete old (page_table q) | None => page_table q end.

Definition max_grows (q p' : Pool) : Prop :=
  forall rel m, max_resident_block q rel = Some m -> exists m', max_resident_block p' rel = Some m' /\ m <= m'.

Section replace.
Context (q p' : Pool) (i : nat) (f nf : Frame).
Hypothesis Hok : pool_ok q.
Hypothesis Hi : frames q !! i = Some f.
Hypothesis Hev : evictable f.
Hypothesis Hnew : frame_ok nf.
Hypothesis Hclean : f_dirty nf = false.
Hypothesis Habsent : forall id, f_id nf = Some id -> page_table q !! id = None.
Hypothesis Hframes : frames p' = <[i := nf]> (frames q).
Hypothesis Hhand : clock_hand p' = clock_hand q.
Hypothesis Htable : page_table p' = match f_id nf with Some id => <[id := i]> (vacated q f) | None => vacated q f end.
Hypothesis Hdirty : dirty (counters p') = dirty (counters q).
Hypothesis Hmax : max_grows q p'.
Hypothesis Hmax' : forall id, f_id nf = Some id -> exists m, max_resident_block p' (pg_relation id) = Some m /\ pg_block id <= m.

Lemma replace_clean : f_dirty f = false.
Proof.
  destruct Hev as [_ H]. destruct (f_id f) eqn:E; [apply H; by eexists|]. pose proof (po_frame _ Hok) as HF. rewrite Forall_lookup in HF. by apply (HF _ _ Hi).
Qed.

Lemma vacated_spec id j : vacated q f !! id = Some j <-> page_table q !! id = Some j /\ j <> i.
Proof.
  unfold vacated. destruct (f_id f) as [old|] eqn:E.
  - assert (page_table q !! old = Some i) as Hold by (apply po_table; eauto). rewrite lookup_delete_Some. split.
    + intros [Hne Hj]. split; [done|]. intros ->. apply (po_table _ Hok) in Hj as (g & Hg & Hgid). congruence.
    + intros [Hj Hne]. split; [|done]. intros <-. congruence.
  - split; [|naive_solver]. intros Hj. split; [done|]. intros ->. apply (po_table _ Hok) in Hj as (g & Hg & Hgid). congruence.
Qed.

Lemma replace_ok : pool_ok p'.
Proof.
  pose proof (lookup_lt_Some _ _ _ Hi) as Hlt. constructor.
  - rewrite Hframes, length_insert. apply Hok.
  - rewrite Hhand. apply Hok.
  - intros id j. rewrite Htable, Hframes. destruct (decide (j = i)) as [->|Hne].
    + rewrite list_lookup_insert_eq by done. destruct (f_id nf) as [nid|] eqn:En.
      * rewrite lookup_insert_Some, vacated_spec. split; [intros [[<- _]|(_ & _ & ?)]; [eauto|done]|]. intros (g & [= <-] & Hg). left. split; congruence.
      * rewrite vacated_spec. split; [by intros [_ ?]|]. intros (g & [= <-] & Hg). congruence.
    + rewrite list_lookup_insert_ne by done. rewrite <- (po_table _ Hok id j). destruct (f_id nf) as [nid|] eqn:En.
      * rewrite lookup_insert_Some, vacated_spec. split; [intros [[_ ?]|(_ & ? & _)]; congruence|]. intros Hj. right. split; [|done].
        intros <-. specialize (Habsent nid eq_refl). congruence.
      * rewrite vacated_spec. naive_solver.
  - rewrite Hframes. apply Forall_insert; [apply Hok|done].
  - rewrite Hdirty, Hframes, (po_dirty _ Hok), (countb_insert _ _ _ _ _ Hi), replace_clean, Hclean. cbn. lia.
  - intros id j. rewrite Htable. assert (forall j, vacated q f !! id = Some j -> exists m, max_resident_block p' (pg_relation id) = Some m /\ pg_block id <= m) as Hv.
    { intros j' [Hj _]%vacated_spec. destruct (po_max _ Hok _ _ Hj) as (m & Hm & Hb). destruct (Hmax _ _ Hm) as (m' & ? & ?). exists m'. split; [done|lia]. }
    destruct (f_id nf) as [nid|] eqn:En; [|apply Hv]. rewrite lookup_insert_Some. intros [[<- _]|[_ Hj]]; [by apply Hmax'|by eapply Hv].
Qed.

Lemma replace_view {D} `{PageStore D} (d : D) : coherent q d -> (forall id pg, f_id nf = Some id -> f_page nf = Some pg -> disk d id = pg) ->
  coherent p' d /\ forall x, view p' d x = view q d x.
Proof.
  intros Hc Hn. pose proof (lookup_lt_Some _ _ _ Hi) as Hlt. split.
  - intros j g id pg. rewrite Hframes. destruct (decide (j = i)) as [->|Hne]; [|rewrite list_lookup_insert_ne by done; apply Hc].
    rewrite list_lookup_insert_eq by done. intros [= <-] Hid Hpg _. by apply Hn.
  - intros x. unfold view. rewrite Htable, Hframes.
    assert (forall m : gmap PageId nat, (forall j, m !! x = Some j <-> page_table q !! x = Some j /\ j <> i) ->
      match m !! x with Some j => default (disk d x) (<[i := nf]> (frames q) !! j ≫= f_page) | None => disk d x end =
      match page_table q !! x with Some j => default (disk d x) (frames q !! j ≫= f_page) | None => disk d x end) as Hv.
    { intros m Hm. destruct (m !! x) as [j|] eqn:Ej.
      - destruct (proj1 (Hm j) eq_refl) as [-> Hj]. by rewrite list_lookup_insert_ne.
      - destruct (page_table q !! x) as [j|] eqn:Eq; [|done]. destruct (decide (j = i)) as [->|Hne]; [|by discriminate (proj2 (Hm j) (conj eq_refl Hne))].
        destruct (lookup_frame _ _ _ Hok Eq) as (g & pg & Hg & Hgid & Hpg & _). rewrite Hg. cbn. rewrite Hpg. cbn.
        rewrite Hi in Hg. injection Hg as <-. by apply (Hc i f); [..|apply replace_clean]. }
    destruct (f_id nf) as [nid|] eqn:En; [|apply Hv, vacated_spec]. destruct (decide (nid = x)) as [->|Hne].
    + rewrite lookup_insert_eq, list_lookup_insert_eq, (Habsent x eq_refl) by done. cbn. destruct (f_page nf) eqn:Ep; [|done]. symmetry. by apply Hn.
    + rewrite lookup_insert_ne by done. apply Hv. intros j. apply vacated_spec.
Qed.
End replace.
