(* ===== verification/BufPoolOps.v ===== *)
(** * The buffer pool: what each call does

    Fetching, guards, flushing and relief under the invariant of BufPoolSpec.v. *)

From S2P Require Import Prelude CoreIds Bytes Page BufPool BufPoolSpec.

(** ** Changing a frame in place *)

Lemma update_ok p p' i f f' :
  pool_ok p -> frames p !! i = Some f -> f_id f' = f_id f -> frame_ok f' -> frames p' = <[i := f']> (frames p) ->
  page_table p' = page_table p -> max_resident_blocks p' = max_resident_blocks p -> clock_hand p' = clock_hand p ->
  dirty (counters p') = dirty (counters p) - b2z (f_dirty f) + b2z (f_dirty f') -> pool_ok p'.
Proof.
  intros Hok Hi Hid Hf' HF HT HM HH HD. pose proof (lookup_lt_Some _ _ _ Hi) as Hlt. constructor.
  - rewrite HF, length_insert. apply Hok.
  - rewrite HH. apply Hok.
  - intros id j. rewrite HT, (po_table _ Hok), HF. destruct (decide (j = i)) as [->|Hne].
    + rewrite list_lookup_insert_eq, Hi by done. split; intros (g & [= <-] & Hg); eexists; (split; [done|congruence]).
    + by rewrite list_lookup_insert_ne.
  - rewrite HF. apply Forall_insert; [apply Hok|done].
  - rewrite HD, HF, (po_dirty _ Hok), (countb_insert _ _ _ _ _ Hi). lia.
  - intros id j. rewrite HT. unfold max_resident_block. rewrite HM. apply Hok.
Qed.

Lemma update_view {D} `{PageStore D} p p' i f f' (d : D) x :
  pool_ok p -> frames p !! i = Some f -> frames p' = <[i := f']> (frames p) -> page_table p' = page_table p ->
  view p' d x = if bool_decide (f_id f = Some x) then default (disk d x) (f_page f') else view p d x.
Proof.
  intros Hok Hi HF HT. pose proof (lookup_lt_Some _ _ _ Hi) as Hlt. unfold view. rewrite HT, HF. case_bool_decide as Hx.
  - assert (page_table p !! x = Some i) as -> by (apply po_table; eauto). by rewrite list_lookup_insert_eq.
  - destruct (page_table p !! x) as [j|] eqn:Ej; [|done]. destruct (decide (j = i)) as [->|Hne]; [|by rewrite list_lookup_insert_ne].
    apply (po_table _ Hok) in Ej as (g & Hg & Hgid). congruence.
Qed.

Lemma view_frame {D} `{PageStore D} p (d : D) i f id pg :
  pool_ok p -> frames p !! i = Some f -> f_id f = Some id -> f_page f = Some pg -> view p d id = pg.
Proof. intros Hok Hi Hid Hpg. unfold view. assert (page_table p !! id = Some i) as -> by (apply po_table; eauto). rewrite Hi. cbn. by rewrite Hpg. Qed.

(** ** Acquiring a frame *)

Definition busy (f : Frame) : Prop := f_pins f <> 0 \/ f_dirty f = true.

Lemma refs_only_busy p q : refs_only p q -> Forall busy (frames p) -> Forall busy (frames q).
Proof.
  intros HR Hb. rewrite Forall_lookup in *. intros i f Hi. destruct (refs_only_lookup_r _ _ _ _ HR Hi) as [b Hf]. exact (Hb _ _ Hf).
Qed.

Lemma find_free_spec fs k : match find_free fs k with
  | Some i => exists f, (k <= i)%nat /\ fs !! (i - k)%nat = Some f /\ is_free f = true
  | None => True
  end.
Proof.
  revert k. induction fs as [|f fs IH]; intros k; cbn; [done|]. destruct (is_free f) eqn:E.
  - exists f. by rewrite Nat.sub_diag.
  - specialize (IH (S k)). destruct (find_free fs (S k)) as [i|]; [|done]. destruct IH as (g & Hle & Hg & Hgf). exists g. split; [lia|].
    split; [|done]. by replace (i - k)%nat with (S (i - S k)) by lia.
Qed.

Record acquired (p q p' : Pool) (i : nat) (f : Frame) (id : PageId) : Prop := {
  aq_refs : refs_only p q;
  aq_frame : frames q !! i = Some f;
  aq_evictable : evictable f;
  aq_frames : frames p' = <[i := claim id f]> (frames q);
  aq_table : page_table p' = vacated q f;
  aq_max : max_resident_blocks p' = max_resident_blocks q;
  aq_hand : clock_hand p' = clock_hand q;
  aq_dirty : dirty (counters p') = dirty (counters q);
  aq_poisoned : poisoned p' = poisoned q;
}.

Lemma acquire_spec p id : pool_ok p -> exists r p', acquire_frame_for p id = Some (r, p') /\
  match r with
  | Ok i => (exists q f, acquired p q p' i f id) /\ ~ Forall busy (frames p)
  | Err e => e = Exhausted /\ refs_only p p' /\ Forall busy (frames p)
  end.
Proof.
  intros Hok. unfold acquire_frame_for. pose proof (find_free_spec (frames p) 0) as Hff. destruct (find_free (frames p) 0) as [i|] eqn:Ef.
  - destruct Hff as (f & _ & Hi & Hfree). rewrite Nat.sub_0_r in Hi. apply andb_true_iff in Hfree as [Hp%Z.eqb_eq Hid%bool_decide_eq_true].
    pose proof (po_frame _ Hok) as HF. rewrite Forall_lookup in HF. pose proof (HF _ _ Hi) as Hfo. destruct (fo_none _ Hfo Hid) as [_ Hd].
    assert (f_page f = None) as Hpg. { destruct (f_page f) eqn:E; [|done]. destruct (proj1 (fo_page _ Hfo)) as [? ?]; [rewrite E; by eexists|congruence]. }
    eexists _, _. split; [done|]. split; [|intros Hb; rewrite Forall_lookup in Hb; by destruct (Hb _ _ Hi); [|congruence]].
    exists p, f. constructor; try done; [apply refs_only_refl| |].
    + cbn. rewrite (alter_insert _ _ _ _ Hi). f_equal. unfold claim, with_page, with_id. cbn. by rewrite Hpg.
    + unfold vacated. by rewrite Hid.
  - pose proof (sweep_exhausted p id Hok Ef) as Hex. destruct (sweep_spec (length (frames p) * 4) p id (proj1 (po_cap _ Hok))) as (r & p' & Hs & Hp).
    exists r, p'. split; [done|]. destruct r as [i|e].
    + split; [|intros Hb; destruct (proj2 Hex Hb) as [p'' Hs']; congruence]. destruct Hp as (q & f & HR & Hi & He & ->). exists q, f.
      constructor; try done; unfold evicted, vacated; destruct (f_id f); try done; cbn; by rewrite (alter_insert _ _ _ _ Hi).
    + destruct Hp as [-> HR]. split; [done|]. split; [done|]. apply Hex. by exists p'.
Qed.

(** ** Fetching *)

(** A call that adds the pin of [o], and leaves pinned frames to their pages. *)
Definition pins_step (p : Pool) (o : option nat) (p' : Pool) : Prop :=
  length (frames p') = length (frames p) /\
  forall j f, frames p !! j = Some f -> exists f', frames p' !! j = Some f' /\ f_pins f' = f_pins f + b2z (bool_decide (o = Some j)) /\
    (f_pins f <> 0 -> f_id f' = f_id f).

Lemma pins_step_refl p : pins_step p None p.
Proof. split; [done|]. intros j f Hj. exists f. split; [done|]. rewrite bool_decide_eq_false_2 by done. cbn. split; [lia|done]. Qed.

Lemma refs_only_pins p q : refs_only p q -> pins_step p None q.
Proof.
  intros HR. split; [by apply refs_only_length|]. intros j f Hj. destruct (refs_only_lookup _ _ _ _ HR Hj) as [b Hb]. exists (with_ref f b). split; [done|].
  rewrite bool_decide_eq_false_2 by done. cbn. split; [lia|done].
Qed.

Lemma replace_pins p q p' i f nf : refs_only p q -> frames q !! i = Some f -> f_pins f = 0 -> frames p' = <[i := nf]> (frames q) ->
  forall o, f_pins nf = b2z (bool_decide (o = Some i)) -> (forall j, o = Some j -> j = i) -> pins_step p o p'.
Proof.
  intros HR Hi Hp HF o Hn Ho. pose proof (lookup_lt_Some _ _ _ Hi) as Hlt. split; [rewrite HF, length_insert; by apply refs_only_length|].
  intros j g Hj. destruct (refs_only_lookup _ _ _ _ HR Hj) as [b Hb]. rewrite HF. destruct (decide (j = i)) as [->|Hne].
  - exists nf. rewrite list_lookup_insert_eq by done. rewrite Hi in Hb. injection Hb as ->. cbn in Hp. split; [done|]. split; [lia|done].
  - exists (with_ref g b). rewrite list_lookup_insert_ne by done. rewrite bool_decide_eq_false_2 by (intros E; by apply Hne, Ho). cbn. split; [done|]. split; [lia|done].
Qed.

Lemma replace_pins_same p p' i f f' : frames p !! i = Some f -> frames p' = <[i := f']> (frames p) -> f_pins f' = f_pins f -> f_id f' = f_id f -> pins_step p None p'.
Proof.
  intros Hi HF Hp Hid. pose proof (lookup_lt_Some _ _ _ Hi) as Hlt. split; [by rewrite HF, length_insert|]. intros j g Hj.
  rewrite bool_decide_eq_false_2 by done. cbn [b2z]. rewrite HF. destruct (decide (j = i)) as [->|Hne].
  - rewrite Hi in Hj. injection Hj as <-. exists f'. rewrite list_lookup_insert_eq by done. split; [done|]. split; [lia|done].
  - exists g. rewrite list_lookup_insert_ne by done. split; [done|]. split; [lia|done].
Qed.

Definition pins_bounded (p : Pool) : Prop := Forall (fun f => f_pins f < U64 - 1) (frames p).

Section fetch.
Context {D : Type} `{PageStore D}.

Definition same_files (d d' : D) : Prop := forall x, disk d' x = disk d x.

Lemma coherent_files p (d d' : D) : same_files d d' -> coherent p d -> coherent p d'.
Proof. intros Hs Hc i f id pg. rewrite Hs. apply Hc. Qed.

Lemma view_files p (d d' : D) x : same_files d d' -> view p d' x = view p d x.
Proof. intros Hs. unfold view. by rewrite Hs. Qed.

Record fetch_post (p : Pool) (d : D) (o : option nat) (p' : Pool) (d' : D) : Prop := {
  fp_ok : pool_ok p';
  fp_coherent : coherent p' d';
  fp_view : forall x, view p' d' x = view p d x;
  fp_files : same_files d d';
  fp_pins : pins_step p o p';
  fp_poisoned : poisoned p' = poisoned p;
}.

Definition get_answer (p : Pool) (d : D) (id : PageId) (r : result nat BufferPoolError) (p' : Pool) : Prop :=
  match r with
  | Ok i => poisoned p = false /\ (page_table p !! id = None -> ~ Forall busy (frames p)) /\ exists f, frames p' !! i = Some f /\ f_id f = Some id
  | Err Poisoned => poisoned p = true
  | Err Exhausted => poisoned p = false /\ page_table p !! id = None /\ Forall busy (frames p) /\ Forall busy (frames p')
  | Err (Loader e) => poisoned p = false /\ page_table p !! id = None /\ ~ Forall busy (frames p) /\ (load d id).1 = Err e
  | Err (WriteContention _) => False
  end.

Definition frame_of (r : result nat BufferPoolError) : option nat := match r with Ok i => Some i | Err _ => None end.

Definition get_post (p : Pool) (d : D) (id : PageId) (r : result nat BufferPoolError) (p' : Pool) (d' : D) : Prop :=
  fetch_post p d (frame_of r) p' d' /\ get_answer p d id r p'.

Lemma hit_spec p (d : D) i id f : pool_ok p -> coherent p d -> pins_bounded p -> poisoned p = false -> frames p !! i = Some f -> f_id f = Some id ->
  get_post p d id (Ok i) (hit p i id) d.
Proof.
  intros Hok Hc Hb Hpo Hi Hid. pose proof (lookup_lt_Some _ _ _ Hi) as Hlt. pose proof (po_frame _ Hok) as HF. rewrite Forall_lookup in HF. pose proof (HF _ _ Hi) as Hfo.
  unfold pins_bounded in Hb. rewrite Forall_lookup in Hb. specialize (Hb _ _ Hi). pose proof (fo_pins _ Hfo) as Hw. unfold in_width in Hw.
  set (f' := with_ref (add_pin f 1) true). assert (f_pins f' = f_pins f + 1) as Hp' by (cbn; unfold wrapping_add, wrap; rewrite Z.mod_small; lia).
  assert (frames (hit p i id) = <[i := f']> (frames p)) as Hfr by (cbn; by rewrite (alter_insert _ _ _ _ Hi)).
  assert (frame_ok f') as Hf'.
  { destruct Hfo as [H1 H2 H3 H4]. constructor; [rewrite Hp'; unfold in_width; lia|done|cbn; congruence|done]. }
  split; [|split; [done|]; split; [intros Hx; pose proof (proj2 (po_table _ Hok id i) ltac:(eauto)); congruence|]; exists f'; split; [rewrite Hfr; by apply list_lookup_insert_eq|done]]. constructor; try done.
  - eapply update_ok; [exact Hok|exact Hi|..|exact Hfr| | | |]; try done. cbn. lia.
  - intros j g x pg. rewrite Hfr. destruct (decide (j = i)) as [->|Hne]; [|rewrite list_lookup_insert_ne by done; apply Hc].
    rewrite list_lookup_insert_eq by done. intros [= <-]. apply (Hc i f); done.
  - intros x. rewrite (update_view p _ i f f' d x Hok Hi Hfr eq_refl). case_bool_decide as Hx; [|done]. injection (eq_trans (eq_sym Hid) Hx) as <-.
    destruct (proj2 (fo_page _ Hfo) ltac:(by rewrite Hid)) as [pg Hpg]. rewrite (view_frame p d i f id pg) by done. cbn. by rewrite Hpg.
  - split; [by rewrite Hfr, length_insert|]. intros j g Hj. rewrite Hfr. destruct (decide (j = i)) as [->|Hne].
    + rewrite Hi in Hj. injection Hj as <-. exists f'. rewrite list_lookup_insert_eq by done. rewrite bool_decide_eq_true_2 by done. cbn [b2z]. done.
    + exists g. rewrite list_lookup_insert_ne by done. rewrite bool_decide_eq_false_2 by (cbn; congruence). cbn. split; [done|]. split; [lia|done].
Qed.

(** A frame just emptied or filled, without its pin. *)
Lemma acquired_install p q p1 i f id p2 nf (d d1 : D) o : pool_ok p -> coherent p d -> page_table p !! id = None -> same_files d d1 ->
  acquired p q p1 i f id -> frame_ok nf -> f_dirty nf = false -> (forall x, f_id nf = Some x -> x = id) ->
  (forall pg, f_page nf = Some pg -> disk d id = pg) ->
  f_pins nf = b2z (bool_decide (o = Some i)) -> (forall j, o = Some j -> j = i) ->
  frames p2 = <[i := nf]> (frames p1) -> page_table p2 = match f_id nf with Some x => <[x := i]> (page_table p1) | None => page_table p1 end ->
  clock_hand p2 = clock_hand p1 -> dirty (counters p2) = dirty (counters p1) -> max_grows p1 p2 ->
  (forall x, f_id nf = Some x -> exists m, max_resident_block p2 (pg_relation x) = Some m /\ pg_block x <= m) -> poisoned p2 = poisoned p1 ->
  fetch_post p d o p2 d1.
Proof.
  intros Hok Hc Habs Hsf [HR Hi He HF HT HM HH HD HP] Hnf Hcl Hid Hdisk Hpins Ho HF2 HT2 HH2 HD2 HM2 HM2' HP2.
  pose proof (refs_only_ok _ _ HR Hok) as Hokq. destruct (refs_only_table _ _ HR) as (Htq & Hmq & Hcq & Hpq).
  assert (coherent q d) as Hcq'.
  { intros j g x pg Hj. destruct (refs_only_lookup_r _ _ _ _ HR Hj) as [b Hb]. apply (Hc _ _ _ _ Hb). }
  assert (frames p2 = <[i := nf]> (frames q)) as HF' by (by rewrite HF2, HF, list_insert_insert_eq).
  assert (max_grows q p2) as HMg by (intros rel m; unfold max_resident_block; rewrite <- HM; apply HM2).
  assert (page_table p2 = match f_id nf with Some x => <[x := i]> (vacated q f) | None => vacated q f end) as HT' by (by rewrite HT2, HT).
  assert (forall x, f_id nf = Some x -> page_table q !! x = None) as Habs' by (intros x Hx; rewrite (Hid x Hx); congruence).
  assert (coherent p2 d /\ forall x, view p2 d x = view q d x) as [Hc2 Hv].
  { apply (replace_view q p2 i f nf); try done; try congruence. intros x pg Hx Hpg. rewrite (Hid x Hx). by apply Hdisk. }
  constructor.
  - eapply replace_ok; [exact Hokq|exact Hi|exact He|exact Hnf|exact Hcl|exact Habs'|exact HF'|congruence|exact HT'|congruence|exact HMg|exact HM2'].
  - by eapply coherent_files.
  - intros x. rewrite (view_files _ _ _ _ Hsf), Hv. unfold view. rewrite Htq. destruct (page_table p !! x) as [j|] eqn:Ej; [|done].
    destruct (lookup_frame _ _ _ Hok Ej) as (g & pg & Hg & _ & Hpg & _). destruct (refs_only_lookup _ _ _ _ HR Hg) as [b Hb]. by rewrite Hb, Hg.
  - done.
  - eapply replace_pins; [exact HR|exact Hi|apply He|exact HF'|done|done].
  - congruence.
Qed.

Lemma note_resident_max p id : max_grows p (note_resident p id) /\
  exists m, max_resident_block (note_resident p id) (pg_relation id) = Some m /\ pg_block id <= m.
Proof.
  unfold max_resident_block. cbn. split.
  - intros rel m Hm. unfold max_resident_block in *. cbn. destruct (decide (pg_relation id = rel)) as [<-|Hne].
    + eexists. rewrite lookup_insert_eq, Hm. split; [done|]. cbn. lia.
    + exists m. rewrite lookup_insert_ne by done. split; [done|lia].
  - eexists. rewrite lookup_insert_eq. split; [done|]. lia.
Qed.

Lemma miss_spec p (d : D) id : pool_ok p -> coherent p d -> pins_bounded p -> poisoned p = false -> page_table p !! id = None ->
  exists r p' d', get_page_miss p d id = Some (r, (p', d')) /\ get_post p d id r p' d'.
Proof.
  intros Hok Hc Hb Hpo Habs. unfold get_page_miss. rewrite Habs. set (p0 := record_relation_read (count_miss p) (pg_relation id)).
  assert (pool_ok p0) as Hok0 by (destruct Hok; by constructor). assert (coherent p0 d) as Hc0 by exact Hc.
  destruct (acquire_spec p0 id Hok0) as (r & p1 & -> & Hr). cbn [mbind option_bind]. destruct r as [i|e].
  2: { destruct Hr as (-> & HR & Hbusy). eexists _, _, _. split; [done|].
       split; [|split; [done|]; split; [done|]; split; [done|by eapply refs_only_busy]]. constructor; try done.
       - by eapply refs_only_ok.
       - intros j g x pg Hj. destruct (refs_only_lookup_r _ _ _ _ HR Hj) as [b Hb']. apply (Hc _ _ _ _ Hb').
       - intros x. unfold view. destruct (refs_only_table _ _ HR) as (-> & _). change (page_table p0) with (page_table p).
         destruct (page_table p !! x) as [j|] eqn:Ej; [|done]. destruct (lookup_frame _ _ _ Hok Ej) as (g & pg & Hg & _).
         destruct (refs_only_lookup _ _ _ _ HR Hg) as [b Hb']. by rewrite Hb', Hg.
       - exact (refs_only_pins _ _ HR).
       - by destruct (refs_only_table _ _ HR) as (_ & _ & _ & ->). }
  destruct Hr as [(q & f & Ha) Hnb]. destruct (load d id) as [r d1] eqn:El. destruct (load_disk _ _ _ _ El) as [Hsf Hpg].
  pose proof (lookup_lt_Some _ _ _ (aq_frame _ _ _ _ _ _ Ha)) as Hlt.
  assert (frames p1 !! i = Some (claim id f)) as Hi1 by (rewrite (aq_frames _ _ _ _ _ _ Ha); by apply list_lookup_insert_eq).
  assert (f_dirty f = false /\ f_pins f = 0) as [Hfd Hfp].
  { split; [|apply Ha]. eapply (replace_clean q i f); [by eapply refs_only_ok; [apply Ha|]|apply Ha|apply Ha]. }
  destruct r as [page|e].
  - destruct (Hpg page eq_refl) as [-> Hlsn]. unfold install. rewrite Hi1. cbn [mbind option_bind]. cbn [f_dirty claim with_page with_id]. rewrite Hfd.
    set (nf := mk_Frame (Some (disk d id)) (Some id) 1 true false). eexists _, _, _. split; [done|]. split.
    + match goal with |- fetch_post p d _ ?p2 _ => cut (fetch_post p0 d (Some i) p2 d1); [by intros []; constructor|] end.
      eapply (acquired_install p0 q p1 i f id _ nf d d1 (Some i) Hok0 Hc0 Habs Hsf Ha); try done.
      * constructor; cbn; [done|split; by eexists|done|by intros pg [= <-]].
      * by intros x [= <-].
      * by intros pg [= <-].
      * cbn. by rewrite bool_decide_eq_true_2.
      * by intros j [= <-].
      * cbn. rewrite (alter_insert _ _ _ _ Hi1). f_equal. unfold add_pin, with_dirty, with_ref, with_id, with_page, claim, nf. cbn. rewrite Hfp. done.
      * match goal with |- max_grows _ (note_resident ?p _) => exact (proj1 (note_resident_max p id)) end.
      * intros x [= <-]. apply note_resident_max.
    + split; [done|]. split; [done|]. eexists. cbn. rewrite (alter_insert _ _ _ _ Hi1), list_lookup_insert_eq; [done|]. rewrite (aq_frames _ _ _ _ _ _ Ha), length_insert. done.
  - eexists _, _, _. split; [done|]. split; [|by cbn; rewrite El].
    match goal with |- fetch_post p d _ ?p2 _ => cut (fetch_post p0 d None p2 d1); [by intros []; constructor|] end.
    eapply (acquired_install p0 q p1 i f id _ (mk_Frame None None 0 (f_ref f) false) d d1 None Hok0 Hc0 Habs Hsf Ha); try done.
    + constructor; cbn; [done|split; by intros []|done|done].
    + cbn. rewrite (alter_insert _ _ _ _ Hi1). f_equal. unfold with_id, with_page, claim. cbn. by rewrite Hfp, Hfd.
    + intros rel m Hm. exists m. split; [done|lia].
Qed.

(** ** What a fetch does *)

Lemma get_post_counted p (d : D) id r p' d' : get_post (count_get p) d id r p' d' -> get_post p d id r p' d'.
Proof. intros [[] Ha]. split; [by constructor|]. by destruct r as [|[]]. Qed.

Lemma get_page_spec p (d : D) id : pool_ok p -> coherent p d -> pins_bounded p ->
  exists r p' d', get_page p d id = Some (r, (p', d')) /\ get_post p d id r p' d'.
Proof.
  intros Hok Hc Hb. unfold get_page. destruct (poisoned p) eqn:Hpo.
  { eexists _, _, _. split; [done|]. split; [|done]. constructor; try done. apply pins_step_refl. }
  assert (pool_ok (count_get p)) as Hok0 by (destruct Hok; by constructor). cbv zeta. change (page_table (count_get p)) with (page_table p).
  change (frames (count_get p)) with (frames p).
  destruct (page_table p !! id) as [i|] eqn:Ei.
  - destruct (lookup_frame _ _ _ Hok Ei) as (f & pg & Hi & Hid & _). rewrite Hi. cbn [mbind option_bind]. rewrite bool_decide_eq_true_2 by done.
    eexists _, _, _. split; [done|]. apply get_post_counted. exact (hit_spec (count_get p) d i id f Hok0 Hc Hb Hpo Hi Hid).
  - destruct (miss_spec (count_get p) d id Hok0 Hc Hb Hpo Ei) as (r & p' & d' & -> & Hr). exists r, p', d'. split; [done|]. by apply get_post_counted.
Qed.

(** ** Guards *)

(** A write through a guard changes the page of its frame. *)
Lemma guard_write_spec p (d : D) i f id pg g : pool_ok p -> coherent p d -> frames p !! i = Some f -> f_id f = Some id -> f_page f = Some pg ->
  is_Some (page_lsn (g pg)) ->
  exists p', guard_write p i g = Some p' /\ pool_ok p' /\ coherent p' d /\ pins_step p None p' /\ poisoned p' = poisoned p /\
    forall x, view p' d x = if bool_decide (x = id) then g pg else view p d x.
Proof.
  intros Hok Hc Hi Hid Hpg Hg. pose proof (lookup_lt_Some _ _ _ Hi) as Hlt. unfold guard_write. rewrite Hi. cbn [mbind option_bind]. rewrite Hpg. cbn [mbind option_bind].
  pose proof (po_frame _ Hok) as HF. rewrite Forall_lookup in HF. pose proof (HF _ _ Hi) as Hfo.
  set (f' := with_dirty (with_page f (Some (g pg))) true). eexists. split; [done|].
  match goal with |- pool_ok ?q /\ _ => set (p' := q) end.
  assert (frames p' = <[i := f']> (frames p) /\ page_table p' = page_table p /\ max_resident_blocks p' = max_resident_blocks p /\
    clock_hand p' = clock_hand p /\ poisoned p' = poisoned p) as (Hfr & Ht & Hm & Hh & Hpo).
  { unfold p'. destruct (f_dirty f); cbn; rewrite (alter_insert _ _ _ _ Hi); done. }
  assert (frame_ok f') as Hfo'.
  { destruct Hfo as [H1 H2 H3 H4]. constructor; cbn; [done|split; [by rewrite Hid|done]|congruence|by intros ? [= <-]]. }
  split; [|split; [|split; [|split; [done|]]]].
  - eapply update_ok; [exact Hok|exact Hi|..|exact Hfr|exact Ht|exact Hm|exact Hh|]; try done. unfold p'. pose proof (countb_bound f_dirty (frames p)).
    pose proof (po_dirty _ Hok). pose proof (po_cap _ Hok). destruct (f_dirty f); cbn; [lia|]. unfold wrapping_add, wrap. rewrite Z.mod_small; lia.
  - intros j h x pg'. rewrite Hfr. destruct (decide (j = i)) as [->|Hne]; [|rewrite list_lookup_insert_ne by done; apply Hc].
    rewrite list_lookup_insert_eq by done. by intros [= <-].
  - eapply replace_pins_same; [exact Hi|exact Hfr|done|done].
  - intros x. rewrite (update_view p p' i f f' d x Hok Hi Hfr Ht). case_bool_decide as Hx; case_bool_decide as Hx'; try done; congruence.
Qed.

Lemma unpin_spec p (d : D) i f id : pool_ok p -> coherent p d -> frames p !! i = Some f -> f_id f = Some id -> 0 < f_pins f ->
  exists p', unpin p i false = Some p' /\ pool_ok p' /\ coherent p' d /\ poisoned p' = poisoned p /\ (forall x, view p' d x = view p d x) /\
    length (frames p') = length (frames p) /\
    forall j h, frames p !! j = Some h -> exists h', frames p' !! j = Some h' /\ f_pins h' = f_pins h - b2z (bool_decide (j = i)) /\ f_id h' = f_id h.
Proof.
  intros Hok Hc Hi Hid Hpin. pose proof (lookup_lt_Some _ _ _ Hi) as Hlt. unfold unpin. rewrite Hi. cbn [mbind option_bind andb].
  pose proof (po_frame _ Hok) as HF. rewrite Forall_lookup in HF. pose proof (HF _ _ Hi) as Hfo. pose proof (fo_pins _ Hfo) as Hw. unfold in_width in Hw.
  set (f' := add_pin f (-1)). assert (f_pins f' = f_pins f - 1) as Hp' by (cbn; unfold wrapping_add, wrap; rewrite Z.mod_small; lia).
  assert (frames (at_frame p i (fun f => add_pin f (-1))) = <[i := f']> (frames p)) as Hfr by (cbn; by rewrite (alter_insert _ _ _ _ Hi)).
  eexists. split; [done|]. split; [|split; [|split; [done|split; [|split; [by rewrite Hfr, length_insert|]]]]].
  - apply (update_ok p _ i f f'); [exact Hok|exact Hi|done|..|exact Hfr|done|done|done|cbn; lia].
    destruct Hfo as [H1 H2 H3 H4]. constructor; [rewrite Hp'; unfold in_width; lia|done|cbn; congruence|done].
  - intros j h x pg'. rewrite Hfr. destruct (decide (j = i)) as [->|Hne]; [|rewrite list_lookup_insert_ne by done; apply Hc].
    rewrite list_lookup_insert_eq by done. intros [= <-]. apply (Hc i f); done.
  - intros x. rewrite (update_view p _ i f f' d x Hok Hi Hfr eq_refl). case_bool_decide as Hx; [|done]. injection (eq_trans (eq_sym Hid) Hx) as <-.
    destruct (proj2 (fo_page _ Hfo) ltac:(by rewrite Hid)) as [pg Hpg]. rewrite (view_frame p d i f id pg) by done. cbn. by rewrite Hpg.
  - intros j h Hj. rewrite Hfr. destruct (decide (j = i)) as [->|Hne].
    + rewrite Hi in Hj. injection Hj as <-. exists f'. rewrite list_lookup_insert_eq, bool_decide_eq_true_2 by done. done.
    + exists h. rewrite list_lookup_insert_ne, bool_decide_eq_false_2 by done. cbn. split; [done|]. split; [lia|done].
Qed.

End fetch.

(** * The buffer pool: flushing and relief

    A flush writes pages back without changing what any reader sees, writes
    nothing that the log does not cover, and leaves behind only pages that are
    pinned or not covered yet. *)

(** The pool after a flush: some dirty bits are cleared. *)
Definition cleaned (p p' : Pool) : Prop :=
  length (frames p') = length (frames p) /\
  forall j f, frames p !! j = Some f -> exists b, frames p' !! j = Some (with_dirty f b) /\ (b = true -> f_dirty f = true).

Lemma cleaned_refl p : cleaned p p.
Proof. split; [done|]. intros j f Hj. exists (f_dirty f). split; [by destruct f|done]. Qed.

Lemma cleaned_trans p q r : cleaned p q -> cleaned q r -> cleaned p r.
Proof.
  intros [L1 H1] [L2 H2]. split; [congruence|]. intros j f Hj. destruct (H1 _ _ Hj) as (b & Hb & Hd). destruct (H2 _ _ Hb) as (b' & Hb' & Hd').
  exists b'. split; [done|]. auto.
Qed.

Lemma cleaned_pins p p' : cleaned p p' -> pins_step p None p'.
Proof.
  intros [HL HC]. split; [done|]. intros j f Hj. destruct (HC _ _ Hj) as (b & Hb & _). exists (with_dirty f b). split; [done|].
  rewrite bool_decide_eq_false_2 by done. cbn. split; [lia|done].
Qed.

(** A page that may be flushed but is not covered by the log. *)
Definition blocked (durability : option (Z * bool)) (f : Frame) : Prop :=
  forall id pg, flush_candidate f = Some (id, pg) -> exists lsn, page_lsn pg = Some lsn /\ gated durability lsn = true.

Lemma candidate_spec f id pg : flush_candidate f = Some (id, pg) <-> f_dirty f = true /\ f_pins f = 0 /\ f_id f = Some id /\ f_page f = Some pg.
Proof.
  unfold flush_candidate. destruct (f_dirty f); cbn; [|split; [done|by intros [? _]]]. destruct (f_pins f =? 0) eqn:E; cbn.
  - apply Z.eqb_eq in E. destruct (f_id f), (f_page f); naive_solver.
  - apply Z.eqb_neq in E. split; [done|]. by intros (_ & ? & _).
Qed.

Section flushing.
Context {D : Type} `{PageStore D} (w : D -> PageId -> Page -> result unit string * D).

(** Writing the file of a dirty page changes nothing for readers. *)
Lemma write_dirty_files p (d d1 : D) i f id : pool_ok p -> coherent p d -> frames p !! i = Some f -> f_id f = Some id -> f_dirty f = true ->
  (forall x, x <> id -> disk d1 x = disk d x) -> coherent p d1 /\ forall x, view p d1 x = view p d x.
Proof.
  intros Hok Hc Hi Hid Hd Hx. split.
  - intros j g x pg Hj Hg Hpg Hgd. destruct (decide (x = id)) as [->|Hne]; [|rewrite Hx by done; by eapply Hc].
    assert (i = j) as <- by (eapply table_unique; [done|apply po_table; eauto|done|done]). congruence.
  - intros x. unfold view. destruct (page_table p !! x) as [j|] eqn:Ej.
    + destruct (lookup_frame _ _ _ Hok Ej) as (g & pg & Hg & _ & Hpg & _). rewrite Hg. cbn. by rewrite Hpg.
    + apply Hx. intros ->. assert (page_table p !! id = Some i) by (apply po_table; eauto). congruence.
Qed.

Lemma clean_frame p (d : D) i f id pg : pool_ok p -> coherent p d -> frames p !! i = Some f -> f_dirty f = true -> f_id f = Some id -> f_page f = Some pg -> disk d id = pg ->
  let p1 := add_dirty (at_frame p i (fun f => with_dirty f false)) (-1) in
  pool_ok p1 /\ coherent p1 d /\ cleaned p p1 /\ (forall x, view p1 d x = view p d x) /\ poisoned p1 = poisoned p.
Proof.
  intros Hok Hc Hi Hd Hid Hpg Hdisk p1. pose proof (lookup_lt_Some _ _ _ Hi) as Hlt. set (f' := with_dirty f false).
  assert (frames p1 = <[i := f']> (frames p)) as Hfr by (cbn; by rewrite (alter_insert _ _ _ _ Hi)).
  pose proof (po_frame _ Hok) as HF. rewrite Forall_lookup in HF. pose proof (HF _ _ Hi) as Hfo.
  split; [|split; [|split; [|split; [|done]]]].
  - eapply (update_ok p p1 i f f'); try done; [destruct Hfo as [H1 H2 H3 H4]; constructor; try done; intros Hn; split; [by apply H3|done]|].
    pose proof (countb_pos f_dirty _ _ _ Hi Hd). pose proof (countb_bound f_dirty (frames p)). pose proof (po_dirty _ Hok). pose proof (po_cap _ Hok).
    cbn. rewrite Hd. cbn. unfold wrapping_add, wrap. rewrite Z.mod_small; lia.
  - intros j h x pg'. rewrite Hfr. destruct (decide (j = i)) as [->|Hne]; [|rewrite list_lookup_insert_ne by done; apply Hc].
    rewrite list_lookup_insert_eq by done. intros [= <-]. cbn. congruence.
  - split; [by rewrite Hfr, length_insert|]. intros j h Hj. rewrite Hfr. destruct (decide (j = i)) as [->|Hne].
    + rewrite Hi in Hj. injection Hj as <-. exists false. by rewrite list_lookup_insert_eq.
    + exists (f_dirty h). rewrite list_lookup_insert_ne by done. rewrite Hj. split; [by destruct h|done].
  - intros x. rewrite (update_view p p1 i f f' d x Hok Hi Hfr eq_refl). case_bool_decide as Hx; [|done]. injection (eq_trans (eq_sym Hid) Hx) as <-.
    rewrite (view_frame p d i f id pg) by done. cbn. by rewrite Hpg.
Qed.

Record flush_post (dur : option (Z * bool)) (todo : list nat) (flushed : Z) (p : Pool) (d : D) (r : result Z FlushError) (p' : Pool) (d' : D) : Prop := {
  fl_ok : pool_ok p';
  fl_coherent : coherent p' d';
  fl_view : forall x, view p' d' x = view p d x;
  fl_cleaned : cleaned p p';
  fl_poisoned : poisoned p' = poisoned p;
  fl_answer : match r with
    | Ok n => flushed <= n /\ (forall i f, i ∈ todo -> frames p !! i = Some f -> blocked dur f \/ flushed < n) /\
        (forall i f, i ∈ todo -> frames p' !! i = Some f -> blocked dur f) /\ (flushed < n -> ~ Forall busy (frames p')) /\
        (n = flushed -> p' = p /\ d' = d)
    | Err e => exists s, e = WriterFailed s
    end;
}.

Lemma flush_frames_spec dur : stores_pages w -> forall todo p (d : D) flushed, pool_ok p -> coherent p d -> Forall (fun i => (i < length (frames p))%nat) todo ->
  exists r p' d', flush_frames w dur todo p d flushed = Some (r, (p', d')) /\ flush_post dur todo flushed p d r p' d'.
Proof.
  intros Hw. induction todo as [|i todo IH]; intros p d flushed Hok Hc Hlt; cbn [flush_frames].
  { eexists _, _, _. split; [done|]. constructor; try done; [apply cleaned_refl|]. split; [lia|]. split; [by intros i f ?%not_elem_of_nil|]. split; [by intros i f ?%not_elem_of_nil|]. split; [lia|done]. }
  apply Forall_cons in Hlt as [Hi Hlt]. apply lookup_lt_is_Some in Hi as [f Hf]. rewrite Hf. cbn [mbind option_bind].
  assert (Hskip : blocked dur f -> exists r p' d', flush_frames w dur todo p d flushed = Some (r, (p', d')) /\ flush_post dur (i :: todo) flushed p d r p' d').
  { intros Hb. destruct (IH p d flushed Hok Hc Hlt) as (r & p' & d' & -> & [H1 H2 H3 H4 H5 H6]). eexists _, _, _. split; [done|]. constructor; try done.
    destruct r as [n|e]; [|done]. destruct H6 as (Hn & Ha & Hz & Hpr & Hsame). split; [done|]. split; [|split; [|done]].
    - intros j g [->|Hj]%elem_of_cons Hg; [rewrite Hf in Hg; injection Hg as <-; by left|by eapply Ha].
    - intros j g [->|Hj]%elem_of_cons Hg; [|by eapply Hz]. destruct H4 as [_ H4]. destruct (H4 _ _ Hf) as (b & Hb' & Hd). rewrite Hb' in Hg. injection Hg as <-.
      intros x pg (Hx1 & Hx2 & Hx3 & Hx4)%candidate_spec. apply (Hb x pg). apply candidate_spec. cbn in *. auto. }
  destruct (flush_candidate f) as [[id pg]|] eqn:Ec; [|apply Hskip; intros ? ?; congruence].
  pose proof Ec as (Hd & Hp & Hid & Hpg)%candidate_spec. pose proof (po_frame _ Hok) as HF. rewrite Forall_lookup in HF.
  destruct (fo_lsn _ (HF _ _ Hf) _ Hpg) as [lsn El]. rewrite El. cbn [mbind option_bind].
  destruct (gated dur lsn) eqn:Eg; [apply Hskip; intros x y Hxy; rewrite Ec in Hxy; injection Hxy as <- <-; by exists lsn|].
  destruct (w d id pg) as [rw d1] eqn:Ew. destruct (Hw _ _ _ _ _ Ew) as [Hother Hthis]. destruct (write_dirty_files p d d1 i f id Hok Hc Hf Hid Hd Hother) as [Hc1 Hv1].
  destruct rw as [[]|e].
  - destruct (clean_frame p d1 i f id pg Hok Hc1 Hf Hd Hid Hpg (Hthis eq_refl)) as (Hok2 & Hc2 & Hcl & Hv2 & Hpo). cbv zeta in *. set (p1 := add_dirty _ _) in *.
    destruct (IH p1 d1 (flushed + 1) Hok2 Hc2) as (r & p' & d' & -> & [H1 H2 H3 H4 H5 H6]). { by rewrite (proj1 Hcl). }
    eexists _, _, _. split; [done|]. constructor; [done|done|intros x; by rewrite H3, Hv2, Hv1|by eapply cleaned_trans|congruence|].
    destruct r as [n|e]; [|done]. destruct H6 as (Hn & Ha & Hz & Hpr & Hsame). destruct H4 as [_ H4].
    assert (frames p1 !! i = Some (with_dirty f false)) as Hi1 by (cbn; by rewrite list_lookup_alter_eq, Hf).
    destruct (H4 _ _ Hi1) as (b & Hb' & Hd'). assert (b = false) as -> by (destruct b; [by specialize (Hd' eq_refl)|done]).
    split; [lia|]. split; [intros; right; lia|]. split; [|split; [|lia]].
    + intros j g [->|Hj]%elem_of_cons Hg; [|by eapply Hz]. intros x pg' (Hx & _)%candidate_spec. rewrite Hb' in Hg. by injection Hg as <-.
    + intros _ Hbusy. rewrite Forall_lookup in Hbusy. by destruct (Hbusy _ _ Hb').
  - eexists _, _, _. split; [done|]. constructor; [done|done|done|apply cleaned_refl|done|by eexists].
Qed.

Lemma seq_in_range n : Forall (fun i => (i < n)%nat) (seq 0 n).
Proof. apply Forall_forall. intros i Hi%elem_of_seq. lia. Qed.

Lemma try_flush_spec sink p (d : D) : stores_pages w -> pool_ok p -> coherent p d -> poisoned p = false ->
  exists r p' d', try_flush_dirty w sink p d = Some (r, (p', d')) /\ flush_post (durability_of sink d) (seq 0 (length (frames p))) 0 p d r p' d'.
Proof. intros Hw Hok Hc Hpo. unfold try_flush_dirty. rewrite Hpo. apply flush_frames_spec; [done|done|done|apply seq_in_range]. Qed.

(** ** The lowest blocked position *)

Lemma gated_alt durability lsn : gated (Some durability) lsn = negb ((lsn <? durability.1) || ((lsn =? 0) && durability.2)).
Proof. destruct durability as [b z]. cbn. rewrite negb_orb, Z.leb_antisym. done. Qed.

Definition blocked_at (dur : Z * bool) (f : Frame) (lsn : Z) : Prop :=
  exists id pg, flush_candidate f = Some (id, pg) /\ page_lsn pg = Some lsn /\ gated (Some dur) lsn = true.

Lemma unflushable_spec dur fs : Forall frame_ok fs -> forall oldest, exists o, unflushable_loop dur fs oldest = Some o /\
  (forall l, o = Some l -> oldest = Some l \/ exists f, f ∈ fs /\ blocked_at dur f l) /\
  (o = None -> oldest = None /\ forall f l, f ∈ fs -> ~ blocked_at dur f l).
Proof.
  induction 1 as [|f fs Hf _ IH]; intros oldest; cbn [unflushable_loop].
  { exists oldest. split; [done|]. split; [auto|]. intros ->. split; [done|]. by intros f l ?%not_elem_of_nil. }
  assert (Hskip : (forall l, ~ blocked_at dur f l) -> exists o, unflushable_loop dur fs oldest = Some o /\
    (forall l, o = Some l -> oldest = Some l \/ exists g, g ∈ f :: fs /\ blocked_at dur g l) /\
    (o = None -> oldest = None /\ forall g l, g ∈ f :: fs -> ~ blocked_at dur g l)).
  { intros Hno. destruct (IH oldest) as (o & -> & H1 & H2). exists o. split; [done|]. split.
    - intros l Hl. destruct (H1 l Hl) as [?|(g & Hg & Hb)]; [by left|]. right. exists g. split; [by right|done].
    - intros Ho. destruct (H2 Ho) as [-> Hn]. split; [done|]. intros g l [->|Hg]%elem_of_cons; [apply Hno|by apply Hn]. }
  destruct (flush_candidate f) as [[id pg]|] eqn:Ec.
  2: { apply Hskip. intros l (? & ? & ? & _). congruence. }
  pose proof Ec as (_ & _ & _ & Hpg)%candidate_spec. destruct (fo_lsn _ Hf _ Hpg) as [lsn El]. rewrite El. cbn [mbind option_bind].
  pose proof (gated_alt dur lsn) as Hg. destruct (_ || _).
  { apply Hskip. intros l (id' & pg' & Hc & Hl & Hgt). rewrite Hc in Ec. injection Ec as <- <-. rewrite Hl in El. injection El as ->. by rewrite Hg in Hgt. }
  assert (blocked_at dur f lsn) as Hb by (by exists id, pg). destruct (IH (lower oldest lsn)) as (o & -> & H1 & H2). exists o. split; [done|]. split.
  - intros l Hl. destruct (H1 l Hl) as [Hlow|(g & Hgi & Hgb)]; [|right; exists g; split; [by right|done]].
    unfold lower in Hlow. destruct oldest as [c|]; [destruct (c <=? lsn); injection Hlow as <-; [by left|]|injection Hlow as <-]; right; exists f; (split; [left|done]).
  - intros Ho. destruct (H2 Ho) as [Hlow _]. done.
Qed.

(** A property of the outside world that holds of every covered write holds
    through a flush. *)
Lemma flush_frames_gate dur (Inv : D -> Prop) : (forall d id pg lsn, Inv d -> page_lsn pg = Some lsn -> gated dur lsn = false -> Inv (w d id pg).2) ->
  forall todo p d flushed r p' d', Inv d -> flush_frames w dur todo p d flushed = Some (r, (p', d')) -> Inv d'.
Proof.
  intros HI. induction todo as [|i todo IH]; intros p d flushed r p' d' Hd; cbn [flush_frames]; [by intros [= _ _ <-]|].
  destruct (frames p !! i) as [f|]; cbn [mbind option_bind]; [|done]. destruct (flush_candidate f) as [[id pg]|]; [|by apply IH].
  destruct (page_lsn pg) as [lsn|] eqn:El; cbn [mbind option_bind]; [|done]. destruct (gated dur lsn) eqn:Eg; [by apply IH|].
  pose proof (HI d id pg lsn Hd El Eg) as Hd1. destruct (w d id pg) as [[[]|e] d1]; cbn in Hd1; [by apply IH|]. by intros [= _ _ <-].
Qed.

End flushing.

(** ** Relief *)

Section relieving.
Context {D : Type} `{PageStore D} (store : D -> PageId -> Page -> result unit string * D) (force : option (D -> Z -> result unit string * D))
  (sink : option (DurableSink D)).

(** Forcing the log touches no page file and, when it succeeds, makes the
    record at the position durable. *)
Definition forces (f : D -> Z -> result unit string * D) : Prop :=
  forall d lsn r d', f d lsn = (r, d') -> same_files d d' /\ (r = Ok tt -> forall s, sink = Some s -> lsn < durable_lsn s d').

Hypothesis Hstore : stores_pages store.
Hypothesis Hforce : match force with Some f => forces f | None => True end.

Record relief_post (p : Pool) (d : D) (r : result unit BufferPoolError) (p' : Pool) (d' : D) : Prop := {
  rl_ok : pool_ok p';
  rl_coherent : coherent p' d';
  rl_view : forall x, view p' d' x = view p d x;
  rl_cleaned : cleaned p p';
  rl_poisoned : poisoned p' = poisoned p;
  rl_error : forall e, r = Err e -> e <> Exhausted /\ (e = Poisoned -> poisoned p = true);
  rl_progress : r = Ok tt -> poisoned p = false -> (force = None -> sink = None) ->
    (exists i f, frames p !! i = Some f /\ f_pins f = 0) -> ~ Forall busy (frames p');
}.

Lemma flush_durable_spec p (d : D) : pool_ok p -> coherent p d -> poisoned p = false ->
  exists r p' d', flush_durable store sink p d = Some (r, (p', d')) /\ (forall e, r = Err e -> e <> Exhausted /\ (e = Poisoned -> poisoned p = true)) /\
    exists r0, flush_post (durability_of sink d) (seq 0 (length (frames p))) 0 p d r0 p' d' /\ (forall n, r = Ok n -> r0 = Ok n).
Proof.
  intros Hok Hc Hpo. destruct (try_flush_spec store sink p d Hstore Hok Hc Hpo) as (r & p' & d' & Hr & Hp). unfold flush_durable. rewrite Hr. cbn [mbind option_bind].
  destruct r as [n|[e|e]]; eexists _, _, _; (split; [done|]); (split; [by intros ? [= <-]|]); eexists; (split; [exact Hp|]); by intros ? [= ->].
Qed.

(** A frame that is unpinned in a pool whose frames are all busy. *)
Lemma candidate_exists p i f : pool_ok p -> Forall busy (frames p) -> frames p !! i = Some f -> f_pins f = 0 ->
  exists id pg, flush_candidate f = Some (id, pg).
Proof.
  intros Hok Hb Hi Hp. rewrite Forall_lookup in Hb. destruct (Hb _ _ Hi) as [?|Hd]; [done|]. pose proof (po_frame _ Hok) as HF. rewrite Forall_lookup in HF. pose proof (HF _ _ Hi) as Hfo.
  destruct (f_id f) as [id|] eqn:Eid. 2: { destruct (fo_none _ Hfo Eid). congruence. }
  destruct (proj2 (fo_page _ Hfo) ltac:(by rewrite Eid)) as [pg Hpg]. exists id, pg. by apply candidate_spec.
Qed.

Lemma all_todo p i f : frames p !! i = Some f -> i ∈ seq 0 (length (frames p)).
Proof. intros Hi. apply elem_of_seq. apply lookup_lt_Some in Hi. lia. Qed.

Lemma relief_flush dur p (d : D) r p' d' todo : flush_post dur todo 0 p d r p' d' -> pool_ok p' /\ coherent p' d' /\ (forall x, view p' d' x = view p d x) /\ cleaned p p' /\ poisoned p' = poisoned p.
Proof. by intros []. Qed.

(** The state after an attempt that freed no frame of a busy pool. *)
Lemma relieve_spec p (d : D) : pool_ok p -> coherent p d -> Forall busy (frames p) ->
  exists r p' d', relieve store force sink p d = Some (r, (p', d')) /\ relief_post p d r p' d'.
Proof.
  intros Hok Hc Hbusy. unfold relieve. destruct (poisoned p) eqn:Hpo.
  { eexists _, _, _. split; [done|]. constructor; try done; [apply cleaned_refl|by intros ? [= <-]]. }
  destruct (flush_durable_spec p d Hok Hc Hpo) as (r & p1 & d1 & -> & He & r0 & HF & Hr0). cbn [mbind option_bind].
  destruct (relief_flush _ _ _ _ _ _ _ HF) as (Hok1 & Hc1 & Hv1 & Hcl1 & Hpo1). destruct r as [n|e].
  2: { eexists _, _, _. split; [done|]. constructor; try done. intros e' [= <-]. by apply He. }
  pose proof (fl_answer _ _ _ _ _ _ _ _ HF) as Hans. rewrite (Hr0 n eq_refl) in Hans. destruct Hans as (Hn & Hall & _ & Hprog & Hsame).
  destruct (0 <? n) eqn:En.
  { apply Z.ltb_lt in En. eexists _, _, _. split; [done|]. constructor; try done. intros _ _ _ _. by apply Hprog. }
  apply Z.ltb_ge in En. destruct (Hsame ltac:(lia)) as [-> ->]. clear Hok1 Hc1 Hv1 Hcl1 Hpo1 Hprog Hsame.
  assert (forall i f, frames p !! i = Some f -> blocked (durability_of sink d) f) as Hbl.
  { intros i f Hi. destruct (Hall i f (all_todo _ _ _ Hi) Hi); [done|lia]. }
  (* nothing to force *)
  assert (Hidle : (sink = None \/ force = None \/ forall i f l dur, durability_of sink d = Some dur -> frames p !! i = Some f -> ~ blocked_at dur f l) ->
    relief_post p d (Ok tt) p d).
  { intros Hno. constructor; try done; [apply cleaned_refl|]. intros _ _ Hfs (i & f & Hi & Hp) _. destruct (candidate_exists p i f Hok Hbusy Hi Hp) as (id & pg & Hc').
    destruct (Hbl i f Hi id pg Hc') as (lsn & Hl & Hg). destruct sink as [s|]; [|done]. destruct Hno as [?|[?|Hno]]; [done|by specialize (Hfs ltac:(done))|].
    apply (Hno i f lsn _ eq_refl Hi). by exists id, pg. }
  unfold oldest_unflushable_dirty_lsn. destruct sink as [s|] eqn:Es; [|eexists _, _, _; split; [done|]; apply Hidle; by left].
  destruct (unflushable_spec (durable_lsn s d, zero_lsn_has_no_pending_record s d) (frames p) (po_frame _ Hok) None) as (o & -> & Hsome & Hnone).
  cbn [mbind option_bind]. destruct o as [lsn|].
  2: { eexists _, _, _. split; [done|]. apply Hidle. right; right. intros i f l dur [= <-] Hi. apply (proj2 (Hnone eq_refl)). by eapply list_elem_of_lookup_2. }
  destruct force as [fo|]; [|eexists _, _, _; split; [done|]; apply Hidle; by auto].
  destruct (fo d lsn) as [rf d2] eqn:Ef. destruct (Hforce _ _ _ _ Ef) as [Hsf Hdur]. destruct rf as [[]|e].
  2: { eexists _, _, _. split; [done|]. constructor; try done; [by eapply coherent_files|intros x; by apply view_files|apply cleaned_refl|by intros ? [= <-]]. }
  rewrite <- Es. destruct (flush_durable_spec p d2 Hok (coherent_files _ _ _ Hsf Hc) Hpo) as (r2 & p2 & d3 & -> & He2 & r3 & HF2 & Hr3). cbn [mbind option_bind].
  destruct (relief_flush _ _ _ _ _ _ _ HF2) as (Hok2 & Hc2 & Hv2 & Hcl2 & Hpo2).
  assert (forall x, view p2 d3 x = view p d x) as Hv by (intros x; rewrite Hv2; by apply view_files).
  destruct r2 as [n2|e]; (eexists _, _, _; split; [done|]); constructor; try done; [|by intros ? [= <-]; apply He2].
  intros _ _ _ _. pose proof (fl_answer _ _ _ _ _ _ _ _ HF2) as Hans. rewrite (Hr3 n2 eq_refl) in Hans. destruct Hans as (_ & Hall2 & _ & Hprog2 & _).
  apply Hprog2. destruct (Hsome lsn eq_refl) as [?|(f & Hf & id & pg & Hc' & Hl & Hg)]; [done|]. apply list_elem_of_lookup in Hf as [i Hi].
  destruct (Hall2 i f (all_todo _ _ _ Hi) Hi) as [Hb|]; [|done]. exfalso. destruct (Hb id pg Hc') as (l & Hl' & Hg'). rewrite Hl in Hl'. injection Hl' as <-.
  specialize (Hdur eq_refl s Es). rewrite Es in Hg'. cbn in Hg'. rewrite (proj2 (Z.leb_gt _ _)) in Hg' by lia. done.
Qed.

(** ** Fetching with relief *)

Lemma cleaned_frame p p' i f : cleaned p p' -> frames p' !! i = Some f -> exists b, frames p !! i = Some (with_dirty f b).
Proof.
  intros [HL HC] Hi. assert (is_Some (frames p !! i)) as [g Hg] by (apply lookup_lt_is_Some; rewrite <- HL; by eapply lookup_lt_Some).
  destruct (HC _ _ Hg) as (b & Hb & _). rewrite Hi in Hb. injection Hb as ->. exists (f_dirty g). rewrite Hg. by destruct g.
Qed.

Lemma pins_step_bounded p p' : pins_step p None p' -> pins_bounded p -> pins_bounded p'.
Proof.
  intros [HL HS] Hb. unfold pins_bounded in *. rewrite Forall_lookup in *. intros i f Hi. assert (is_Some (frames p !! i)) as [g Hg] by (apply lookup_lt_is_Some; rewrite <- HL; by eapply lookup_lt_Some).
  destruct (HS _ _ Hg) as (f' & Hf' & Hp & _). rewrite Hi in Hf'. injection Hf' as <-. rewrite Hp, bool_decide_eq_false_2 by done. cbn. specialize (Hb _ _ Hg). lia.
Qed.

Lemma pins_step_trans p q r o : pins_step p None q -> pins_step q o r -> pins_step p o r.
Proof.
  intros [L1 H1] [L2 H2]. split; [congruence|]. intros j f Hj. destruct (H1 _ _ Hj) as (g & Hg & Hgp & Hgi). destruct (H2 _ _ Hg) as (h & Hh & Hhp & Hhi).
  rewrite bool_decide_eq_false_2 in Hgp by done. cbn in Hgp. exists h. split; [done|]. split; [lia|]. intros Hp. rewrite Hhi by lia. by apply Hgi.
Qed.

(** The outcome of a fetch that may have flushed. *)
Record relieved_post (p : Pool) (d : D) (id : PageId) (r : result nat BufferPoolError) (p' : Pool) (d' : D) : Prop := {
  rp_ok : pool_ok p';
  rp_coherent : coherent p' d';
  rp_view : forall x, view p' d' x = view p d x;
  rp_pins : pins_step p (frame_of r) p';
  rp_poisoned : poisoned p' = poisoned p;
  rp_failed : r = Err Poisoned <-> poisoned p = true;
  rp_answer : forall i, r = Ok i -> exists f, frames p' !! i = Some f /\ f_id f = Some id;
}.

Lemma get_relieved p (d : D) id r p' d' : get_post p d id r p' d' -> relieved_post p d id r p' d'.
Proof.
  intros [[] Ha]. constructor; try done; [|intros i ->; apply Ha]. destruct r as [i|[]]; cbn in Ha; split; try done; by destruct Ha; congruence.
Qed.

Lemma relieved_loop_spec budget : forall p (d : D) id, pool_ok p -> coherent p d -> pins_bounded p ->
  exists r p' d', relieved_loop (relieve store force sink) budget p d id = Some (r, (p', d')) /\ relieved_post p d id r p' d' /\
    (r = Err Exhausted -> Forall busy (frames p) /\
       ((0 < budget)%nat -> (force = None -> sink = None) -> forall i f, frames p !! i = Some f -> f_pins f <> 0)).
Proof.
  induction budget as [|budget IH]; intros p d id Hok Hc Hb; cbn [relieved_loop];
    destruct (get_page_spec p d id Hok Hc Hb) as (r & p1 & d1 & -> & Hg); cbn [mbind option_bind].
  { exists r, p1, d1. split; [by destruct r as [|[]]|]. split; [by apply get_relieved|]. intros ->. destruct Hg as [_ (_ & _ & ? & _)]. split; [done|lia]. }
  destruct r as [i|e]; [eexists _, _, _; split; [done|]; split; [by apply get_relieved|done]|].
  destruct (decide (e = Exhausted)) as [->|Hne]; [|eexists _, _, _; split; [by destruct e|]; split; [by apply get_relieved|congruence]].
  pose proof (get_relieved _ _ _ _ _ _ Hg) as [Hok1 Hc1 Hv1 Hp1 Hpo1 _ _]. cbn [frame_of] in Hp1. destruct Hg as [_ (Hpo & _ & Hbusy & Hbusy1)].
  destruct (relieve_spec p1 d1 Hok1 Hc1 Hbusy1) as (r & p2 & d2 & -> & [Hok2 Hc2 Hv2 Hcl Hpo2 Herr Hprog]). cbn [mbind option_bind].
  pose proof (pins_step_trans _ _ _ _ Hp1 (cleaned_pins _ _ Hcl)) as Hp2.
  destruct r as [[]|e].
  2: { eexists _, _, _. split; [done|]. split; [|intros [= ->]; by destruct (Herr _ eq_refl)].
       constructor; try done; [intros x; by rewrite Hv2, Hv1|congruence|]. split; [|congruence]. intros [= ->]. destruct (Herr _ eq_refl) as [_ Hx]. specialize (Hx eq_refl). congruence. }
  destruct (IH p2 d2 id Hok2 Hc2 (pins_step_bounded _ _ Hp2 Hb)) as (r & p3 & d3 & -> & [Hok3 Hc3 Hv3 Hp3 Hpo3 Hfail Ha] & Hex).
  exists r, p3, d3. split; [done|]. split.
  { constructor; try done; [intros x; by rewrite Hv3, Hv2, Hv1|by eapply pins_step_trans|congruence|]. by rewrite Hfail, Hpo2, Hpo1. }
  intros Hr. destruct (Hex Hr) as [Hbusy2 _]. split; [done|]. intros _ Hfs i f Hi Hpin.
  apply (Hprog eq_refl ltac:(congruence) Hfs); [|done]. destruct Hp1 as [_ Hp1]. destruct (Hp1 _ _ Hi) as (f' & Hf' & Hpf & _). exists i, f'.
  rewrite bool_decide_eq_false_2 in Hpf by done. cbn in Hpf. split; [done|lia].
Qed.

End relieving.
