(* ===== verification/BufPoolRefine.v ===== *)
(** * The buffer pool is a transparent cache

    Clients that fetch pages, read and write through their guards, drop them and
    flush, in any order and with any failures of the files and the log, cannot
    tell the pool from the pages themselves. *)

From S2P Require Import Prelude CoreIds Bytes Page PageSpec BtNodeSpec BufPool BufPoolSpec BufPoolOps.

(** ** The calls of a client *)

Inductive pool_op :=
| PGet (id : PageId) (relieved : bool)
| PRead (guard : nat)
| PWrite (guard : nat) (change : Page -> Page)
| PDrop (guard : nat)
| PFlush
| PPoison.

Inductive pool_answer :=
| AGot (r : result unit BufferPoolError)
| APage (pg : Page)
| AFlushed (r : result Z FlushError)
| ADone
| ANoGuard.

(** The guards the client holds, with the page each was fetched for. *)
Abbreviation guards := (list (nat * PageId)) (only parsing).

Section client.
Context {D : Type} `{PageStore D} (store : D -> PageId -> Page -> result unit string * D) (force : option (D -> Z -> result unit string * D))
  (sink : option (DurableSink D)).

Definition pool_exec (op : pool_op) (p : Pool) (d : D) (gs : guards) : option (pool_answer * (Pool * D * guards)) :=
  match op with
  | PGet id relieved =>
      r ← get_page_relieved (if relieved then Some (relieve store force sink) else None) p d id;
      Some (match r with
            | (Ok i, (p', d')) => (AGot (Ok tt), (p', d', gs ++ [(i, id)]))
            | (Err e, (p', d')) => (AGot (Err e), (p', d', gs))
            end)
  | PRead k =>
      match gs !! k with
      | Some (i, _) => pg ← guard_read p i; Some (APage pg, (p, d, gs))
      | None => Some (ANoGuard, (p, d, gs))
      end
  | PWrite k g =>
      match gs !! k with
      | Some (i, _) => p' ← guard_write p i g; Some (ADone, (p', d, gs))
      | None => Some (ANoGuard, (p, d, gs))
      end
  | PDrop k =>
      match gs !! k with
      | Some (i, _) => p' ← unpin p i false; Some (ADone, (p', d, delete k gs))
      | None => Some (ANoGuard, (p, d, gs))
      end
  | PFlush => r ← try_flush_dirty store sink p d; Some (AFlushed r.1, (r.2, gs))
  | PPoison => Some (ADone, (poison_after_wal_error p, d, gs))
  end.

Fixpoint pool_run (ops : list pool_op) (p : Pool) (d : D) (gs : guards) : option (list pool_answer * (Pool * D * guards)) :=
  match ops with
  | [] => Some ([], (p, d, gs))
  | op :: rest =>
      r ← pool_exec op p d gs;
      let '(a, (p', d', gs')) := r in
      rs ← pool_run rest p' d' gs';
      Some (a :: rs.1, rs.2)
  end.

(** ** The specification: pages and nothing else *)

Record pages := mk_pages { content : PageId -> Page; held : list PageId; failed : bool }.

Definition same_pages (m m' : pages) : Prop := (forall x, content m' x = content m x) /\ failed m' = failed m.

Definition pages_step (op : pool_op) (m : pages) (a : pool_answer) (m' : pages) : Prop :=
  match op with
  | PGet id _ => same_pages m m' /\ (failed m = true -> a = AGot (Err Poisoned)) /\
      match a with
      | AGot (Ok _) => held m' = held m ++ [id]
      | AGot (Err e) => held m' = held m /\ (e = Poisoned -> failed m = true)
      | _ => False
      end
  | PRead k => same_pages m m' /\ held m' = held m /\ a = match held m !! k with Some id => APage (content m id) | None => ANoGuard end
  | PWrite k g => failed m' = failed m /\ held m' = held m /\
      match held m !! k with
      | Some id => a = ADone /\ forall x, content m' x = if bool_decide (x = id) then g (content m id) else content m x
      | None => a = ANoGuard /\ forall x, content m' x = content m x
      end
  | PDrop k => same_pages m m' /\ (if bool_decide (k < length (held m))%nat then a = ADone /\ held m' = delete k (held m) else a = ANoGuard /\ held m' = held m)
  | PFlush => same_pages m m' /\ held m' = held m /\ exists r, a = AFlushed r /\ (failed m = true -> exists s, r = Err (Corruption s))
  | PPoison => a = ADone /\ (forall x, content m' x = content m x) /\ held m' = held m /\ failed m' = true
  end.

Fixpoint pages_run (ops : list pool_op) (m : pages) (rs : list pool_answer) (m' : pages) : Prop :=
  match ops, rs with
  | [], [] => m' = m
  | op :: ops', r :: rs' => exists m1, pages_step op m r m1 /\ pages_run ops' m1 rs' m'
  | _, _ => False
  end.

(** The changes a client makes keep the header of a page readable. *)
Definition change_ok (op : pool_op) : Prop :=
  match op with PWrite _ g => forall pg, is_Some (page_lsn pg) -> is_Some (page_lsn (g pg)) | _ => True end.

(** ** The invariant *)

Definition pins_on (i : nat) (gs : guards) : Z := Z.of_nat (length (filter (fun g => g.1 = i) gs)).

Record client_ok (p : Pool) (d : D) (gs : guards) : Prop := {
  co_pool : pool_ok p;
  co_coherent : coherent p d;
  co_pins : forall i f, frames p !! i = Some f -> f_pins f = pins_on i gs;
  co_guards : Forall (fun g => exists f, frames p !! g.1 = Some f /\ f_id f = Some g.2) gs;
}.

Definition pages_of (p : Pool) (d : D) (gs : guards) : pages := mk_pages (view p d) (map snd gs) (poisoned p).

Lemma pins_on_bound i gs : 0 <= pins_on i gs <= Z.of_nat (length gs).
Proof. unfold pins_on. pose proof (length_filter (fun g : nat * PageId => g.1 = i) gs). lia. Qed.

Lemma pins_on_app i gs g : pins_on i (gs ++ [g]) = pins_on i gs + b2z (bool_decide (g.1 = i)).
Proof.
  unfold pins_on. rewrite filter_app, length_app, filter_cons, filter_nil. case_bool_decide; case_decide; try done; cbn; lia.
Qed.

Lemma pins_on_delete i gs k g : gs !! k = Some g -> pins_on i (delete k gs) = pins_on i gs - b2z (bool_decide (i = g.1)).
Proof.
  intros Hk. rewrite <- (take_drop_middle _ _ _ Hk) at 2. rewrite delete_take_drop. unfold pins_on. rewrite !filter_app, filter_cons, !length_app.
  case_decide; case_bool_decide; try congruence; cbn; lia.
Qed.

Lemma pins_on_pos gs k g : gs !! k = Some g -> 0 < pins_on g.1 gs.
Proof.
  intros Hk. rewrite <- (take_drop_middle _ _ _ Hk). unfold pins_on. rewrite filter_app, filter_cons, length_app. case_decide; [cbn; lia|done].
Qed.

Lemma client_bounded p d gs : client_ok p d gs -> Z.of_nat (length gs) < U64 - 1 -> pins_bounded p.
Proof.
  intros [_ _ Hp _] Hl. apply Forall_lookup. intros i f Hi. rewrite (Hp _ _ Hi). pose proof (pins_on_bound i gs). lia.
Qed.

Lemma guard_frame p d gs k i id : client_ok p d gs -> gs !! k = Some (i, id) ->
  exists f pg, frames p !! i = Some f /\ f_id f = Some id /\ f_page f = Some pg /\ 0 < f_pins f /\ view p d id = pg.
Proof.
  intros [Hok Hc Hp Hg] Hk. rewrite Forall_lookup in Hg. destruct (Hg _ _ Hk) as (f & Hf & Hid). cbn in *.
  destruct (lookup_frame p id i Hok) as (f' & pg & Hf' & _ & Hpg & _); [apply po_table; eauto|]. rewrite Hf in Hf'. injection Hf' as <-.
  exists f, pg. split; [done|]. split; [done|]. split; [done|]. split; [rewrite (Hp _ _ Hf); apply (pins_on_pos _ _ _ Hk)|by eapply view_frame].
Qed.

(** Calls that pin nothing keep the guards; a fetch adds one. *)
Lemma client_step p d gs p' d' o id : client_ok p d gs -> pool_ok p' -> coherent p' d' -> pins_step p o p' ->
  (forall i, o = Some i -> exists f, frames p' !! i = Some f /\ f_id f = Some id) ->
  client_ok p' d' (gs ++ match o with Some i => [(i, id)] | None => [] end).
Proof.
  intros [Hok Hc Hp Hg] Hok' Hc' [HL HS] Ho. constructor; [done|done|..].
  - intros i f' Hi. assert (is_Some (frames p !! i)) as [f Hf] by (apply lookup_lt_is_Some; rewrite <- HL; by eapply lookup_lt_Some).
    destruct (HS _ _ Hf) as (f'' & Hf'' & Hpin & _). rewrite Hi in Hf''. injection Hf'' as <-. rewrite Hpin, (Hp _ _ Hf).
    destruct o as [j|]; [|by rewrite app_nil_r, bool_decide_eq_false_2, Z.add_0_r]. rewrite pins_on_app. cbn.
    do 2 f_equal. apply bool_decide_ext. split; congruence.
  - apply Forall_app. split; [|destruct o as [j|]; repeat constructor; by apply Ho]. rewrite Forall_lookup in *. intros k g Hk.
    destruct (Hg _ _ Hk) as (f & Hf & Hid). destruct (HS _ _ Hf) as (f' & Hf' & _ & Hkeep). exists f'. split; [done|]. rewrite Hkeep; [done|].
    rewrite (Hp _ _ Hf). pose proof (pins_on_pos _ _ _ Hk). lia.
Qed.

Lemma client_step_none p d gs p' d' : client_ok p d gs -> pool_ok p' -> coherent p' d' -> pins_step p None p' -> client_ok p' d' gs.
Proof. intros. rewrite <- (app_nil_r gs). by apply (client_step p d gs p' d' None (mk_PageId 0 0)). Qed.

(** ** Every call is a step on the pages *)

Hypothesis Hstore : stores_pages store.
Hypothesis Hforce : match force with Some f => forces sink f | None => True end.

Lemma get_relieved_spec relieved p d id : pool_ok p -> coherent p d -> pins_bounded p ->
  exists r p' d', get_page_relieved (if relieved : bool then Some (relieve store force sink) else None) p d id = Some (r, (p', d')) /\
    relieved_post p d id r p' d'.
Proof.
  intros Hok Hc Hb. destruct relieved; cbn [get_page_relieved].
  - destruct (relieved_loop_spec store force sink Hstore Hforce EVICTION_RELIEF_ROUNDS p d id Hok Hc Hb) as (r & p' & d' & -> & Hr & _). by exists r, p', d'.
  - destruct (get_page_spec p d id Hok Hc Hb) as (r & p' & d' & -> & Hr). exists r, p', d'. split; [done|]. by apply get_relieved.
Qed.

Definition exec_post (op : pool_op) (p : Pool) (d : D) (gs : guards) : Prop :=
  exists a p' d' gs', pool_exec op p d gs = Some (a, (p', d', gs')) /\ client_ok p' d' gs' /\ (length gs' <= S (length gs))%nat /\
    pages_step op (pages_of p d gs) a (pages_of p' d' gs').

Lemma exec_get p d gs id relieved : client_ok p d gs -> Z.of_nat (length gs) < U64 - 1 -> exec_post (PGet id relieved) p d gs.
Proof.
  intros Hcl Hl. pose proof (client_bounded _ _ _ Hcl Hl) as Hb. pose proof Hcl as [Hok Hc _ _].
  destruct (get_relieved_spec relieved p d id Hok Hc Hb) as (r & p' & d' & Hr & [Hok' Hc' Hv Hp Hpo Hf Ha]). unfold exec_post. cbn [pool_exec]. rewrite Hr. cbn [mbind option_bind].
  destruct r as [i|e].
  - eexists _, _, _, _. split; [done|]. split; [apply (client_step p d gs p' d' (Some i) id); try done; intros j [= <-]; by apply Ha|].
    split; [rewrite length_app; cbn; lia|]. split; [done|]. split; [intros Hx; by apply Hf in Hx|]. cbn. by rewrite map_app.
  - eexists _, _, _, _. split; [done|]. split; [by eapply client_step_none|]. split; [lia|]. split; [done|].
    split; [intros Hx; apply Hf in Hx; by injection Hx as ->|]. split; [done|]. intros ->. by apply Hf.
Qed.

Lemma lookup_held (gs : list (nat * PageId)) k : map snd gs !! k = snd <$> gs !! k.
Proof. apply list_lookup_fmap. Qed.

Lemma exec_read p d gs k : client_ok p d gs -> exec_post (PRead k) p d gs.
Proof.
  intros Hcl. unfold exec_post. cbn [pool_exec pages_step]. unfold pages_of, held. rewrite lookup_held. destruct (gs !! k) as [[i id]|] eqn:Ek; cbn.
  - destruct (guard_frame _ _ _ _ _ _ Hcl Ek) as (f & pg & Hf & Hid & Hpg & _ & Hv). unfold guard_read. rewrite Hf. cbn. rewrite Hpg. cbn.
    eexists _, _, _, _. split; [done|]. split; [done|]. split; [lia|]. split; [done|]. split; [done|]. by rewrite Hv.
  - eexists _, _, _, _. split; [done|]. split; [done|]. split; [lia|]. done.
Qed.

Lemma exec_write p d gs k g : client_ok p d gs -> change_ok (PWrite k g) -> exec_post (PWrite k g) p d gs.
Proof.
  intros Hcl Hg. unfold exec_post. cbn [pool_exec pages_step]. unfold pages_of, held. rewrite lookup_held. destruct (gs !! k) as [[i id]|] eqn:Ek; cbn.
  - destruct (guard_frame _ _ _ _ _ _ Hcl Ek) as (f & pg & Hf & Hid & Hpg & _ & Hv). pose proof Hcl as [Hok Hc _ _].
    assert (is_Some (page_lsn pg)) as Hlsn. { pose proof (po_frame _ Hok) as HF. rewrite Forall_lookup in HF. by apply (fo_lsn _ (HF _ _ Hf)). }
    destruct (guard_write_spec p d i f id pg g Hok Hc Hf Hid Hpg (Hg _ Hlsn)) as (p' & -> & Hok' & Hc' & Hp & Hpo & Hv'). cbn.
    eexists _, _, _, _. split; [done|]. split; [by eapply client_step_none|]. split; [lia|]. split; [done|]. split; [done|]. split; [done|]. by rewrite Hv.
  - eexists _, _, _, _. split; [done|]. split; [done|]. split; [lia|]. done.
Qed.

Lemma exec_drop p d gs k : client_ok p d gs -> exec_post (PDrop k) p d gs.
Proof.
  intros Hcl. unfold exec_post. cbn [pool_exec pages_step]. unfold pages_of, held. rewrite length_map. destruct (gs !! k) as [[i id]|] eqn:Ek.
  - destruct (guard_frame _ _ _ _ _ _ Hcl Ek) as (f & pg & Hf & Hid & Hpg & Hpos & Hv). pose proof Hcl as [Hok Hc Hp Hg].
    destruct (unpin_spec p d i f id Hok Hc Hf Hid Hpos) as (p' & -> & Hok' & Hc' & Hpo & Hv' & HL & HS). cbn [mbind option_bind].
    pose proof (lookup_lt_Some _ _ _ Ek) as Hlt. rewrite bool_decide_eq_true_2 by done. eexists _, _, _, _. split; [done|]. split; [|split; [|split; [by split|]]].
    + constructor; [done|done|..].
      * intros j f' Hj. assert (is_Some (frames p !! j)) as [h Hh] by (apply lookup_lt_is_Some; rewrite <- HL; by eapply lookup_lt_Some).
        destruct (HS _ _ Hh) as (h' & Hh' & Hpin & _). rewrite Hj in Hh'. injection Hh' as <-. rewrite Hpin, (Hp _ _ Hh). by rewrite (pins_on_delete _ _ _ _ Ek).
      * rewrite delete_take_drop. rewrite <- (take_drop_middle _ _ _ Ek) in Hg. apply Forall_app in Hg as [H1 [_ H2]%Forall_cons].
        apply Forall_app. split; (eapply Forall_impl; [eassumption|]); intros g (h & Hh & Hhid); destruct (HS _ _ Hh) as (h' & Hh' & _ & Hid'); exists h'; by rewrite Hid'.
    + rewrite length_delete by eauto. lia.
    + split; [done|]. cbn. rewrite !delete_take_drop, map_app. by rewrite fmap_take, fmap_drop.
  - rewrite bool_decide_eq_false_2 by (apply lookup_ge_None in Ek; lia). eexists _, _, _, _. split; [done|]. split; [done|]. split; [lia|]. done.
Qed.

Lemma exec_flush p d gs : client_ok p d gs -> exec_post PFlush p d gs.
Proof.
  intros Hcl. pose proof Hcl as [Hok Hc _ _]. unfold exec_post. cbn [pool_exec]. destruct (poisoned p) eqn:Hpo.
  - unfold try_flush_dirty. rewrite Hpo. cbn. eexists _, _, _, _. split; [done|]. split; [done|]. split; [lia|]. split; [done|]. split; [done|]. eexists. split; [done|]. intros _. by eexists.
  - destruct (try_flush_spec store sink p d Hstore Hok Hc Hpo) as (r & p' & d' & -> & [H1 H2 H3 H4 H5 _]). cbn. eexists _, _, _, _. split; [done|].
    split; [eapply client_step_none; [done|done|done|by apply cleaned_pins]|]. split; [lia|]. split; [done|]. split; [done|]. exists r. split; [done|]. cbn. congruence.
Qed.

Lemma pool_exec_sim op p d gs : client_ok p d gs -> Z.of_nat (length gs) < U64 - 1 -> change_ok op -> exec_post op p d gs.
Proof.
  intros Hcl Hl Hg. destruct op; [by apply exec_get|by apply exec_read|by apply exec_write|by apply exec_drop|by apply exec_flush|].
  eexists _, _, _, _. split; [done|]. split; [|split; [lia|done]]. destruct Hcl as [[] Hc Hp Hgs]. by constructor.
Qed.

Lemma pool_run_sim ops : forall p d gs, client_ok p d gs -> Z.of_nat (length gs + length ops) < U64 - 1 -> Forall change_ok ops ->
  exists rs p' d' gs', pool_run ops p d gs = Some (rs, (p', d', gs')) /\ client_ok p' d' gs' /\ pages_run ops (pages_of p d gs) rs (pages_of p' d' gs').
Proof.
  induction ops as [|op ops IH]; intros p d gs Hcl Hl Hg; cbn [pool_run]; [by eexists _, _, _, _|]. apply Forall_cons in Hg as [Hg Hgs]. cbn in Hl.
  destruct (pool_exec_sim op p d gs Hcl ltac:(lia) Hg) as (a & p1 & d1 & gs1 & -> & Hcl1 & Hl1 & Hstep). cbn [mbind option_bind].
  destruct (IH p1 d1 gs1 Hcl1 ltac:(lia) Hgs) as (rs & p' & d' & gs' & -> & Hcl' & Hrun). cbn. eexists _, _, _, _. split; [done|]. split; [done|]. by exists (pages_of p1 d1 gs1).
Qed.

End client.

Lemma new_ok {D} `{PageStore D} n p (d : D) : new n = Some p -> 4 * Z.of_nat n < U64 -> client_ok p d [] /\ forall x, view p d x = disk d x.
Proof.
  unfold new. destruct n as [|n]; [done|]. intros [= <-] Hn. set (p := mk_Pool _ _ _ _ _ _ _ _).
  assert (forall i f, frames p !! i = Some f -> f = empty_frame) as Hf by (intros i f Hi; by apply (lookup_replicate (S n) empty_frame) in Hi as [-> _]).
  split; [|done]. constructor; [constructor|..].
  - change (frames p) with (replicate (S n) empty_frame). rewrite length_replicate. lia.
  - done.
  - intros id i. change (page_table p) with (∅ : gmap PageId nat). rewrite lookup_empty. split; [done|]. intros (f & Hi & Hid). by rewrite (Hf _ _ Hi) in Hid.
  - apply Forall_lookup. intros i f Hi. rewrite (Hf _ _ Hi). constructor; try done. split; by intros [].
  - change (dirty (counters p)) with 0. change (frames p) with (replicate (S n) empty_frame). generalize (S n). intros k. induction k as [|k IH]; [done|]. cbn [replicate countb f_dirty empty_frame b2z]. lia.
  - intros id i. change (page_table p) with (∅ : gmap PageId nat). by rewrite lookup_empty.
  - intros i f id pg Hi. rewrite (Hf _ _ Hi). done.
  - intros i f Hi. by rewrite (Hf _ _ Hi).
  - constructor.
Qed.

(** C12. The pool is a transparent cache: every sequence of fetches (with or without
    relief), reads, writes, drops, flushes and a poisoning, over page files and
    a log that may fail at any call, runs without a panic and answers as the
    pages themselves would. *)
Theorem pool_refines_pages {D} `{PageStore D} store force (sink : option (DurableSink D)) n ops p0 (d0 : D) :
  stores_pages store -> match force with Some f => forces sink f | None => True end ->
  new n = Some p0 -> 4 * Z.of_nat n < U64 -> Z.of_nat (length ops) < U64 - 1 -> Forall change_ok ops ->
  exists rs p' d' gs', pool_run store force sink ops p0 d0 [] = Some (rs, (p', d', gs')) /\ pool_ok p' /\ coherent p' d' /\
    pages_run ops (mk_pages (disk d0) [] false) rs (pages_of p' d' gs').
Proof.
  intros Hs Hf Hnew Hn Hl Hg. destruct (new_ok n p0 d0 Hnew Hn) as [Hcl Hv].
  destruct (pool_run_sim store force sink Hs Hf ops p0 d0 [] Hcl Hl Hg) as (rs & p' & d' & gs' & Hrun & [Hok Hc _ _] & Hpr).
  exists rs, p', d', gs'. split; [done|]. split; [done|]. split; [done|]. unfold new in Hnew. destruct n; [done|]. injection Hnew as <-. exact Hpr.
Qed.

(** ** Exhaustion, relief and the log *)

(** A fetch reports exhaustion exactly when the page is not resident and every
    frame is pinned or dirty: four turns of the clock miss no clean unpinned
    frame, wherever the hand stands and also when its counter wraps. *)
Theorem pool_exhausted_exact {D} `{PageStore D} p (d : D) id : pool_ok p -> coherent p d -> pins_bounded p ->
  (exists s, get_page p d id = Some (Err Exhausted, s)) <-> poisoned p = false /\ page_table p !! id = None /\ Forall busy (frames p).
Proof.
  intros Hok Hc Hb. destruct (get_page_spec p d id Hok Hc Hb) as (r & p' & d' & -> & [_ Ha]). split.
  - intros [s [= -> _]]. destruct Ha as (? & ? & ? & _). done.
  - intros (Hpo & Habs & Hbusy). destruct r as [i|[]]; cbn in Ha; [|by eexists|..].
    + destruct Ha as (_ & Hx & _). by destruct (Hx Habs).
    + by destruct Ha as (_ & _ & Hx & _).
    + done.
    + congruence.
Qed.

(** The pages a flush hands to its writer, with their positions in the log. *)
Definition recording {D} (w : D -> PageId -> Page -> result unit string * D) (x : D * list (PageId * option Z)) (id : PageId) (pg : Page)
  : result unit string * (D * list (PageId * option Z)) :=
  let r := w x.1 id pg in (r.1, (r.2, x.2 ++ [(id, page_lsn pg)])).

Definition recording_sink {D} (s : DurableSink D) : DurableSink (D * list (PageId * option Z)) :=
  mk_DurableSink _ (fun x => durable_lsn s x.1) (fun x => zero_lsn_has_no_pending_record s x.1).

(** C18. Write-ahead logging: every page a flush writes carries the position of a
    record that starts below the durable end of the log as the flush found it,
    or the position zero when the sink reserves it, whatever the pool holds and
    whatever the writer does. *)
Theorem flush_wal_before_data {D} (w : D -> PageId -> Page -> result unit string * D) (s : DurableSink D) p d r p' d' log :
  try_flush_dirty (recording w) (Some (recording_sink s)) p (d, []) = Some (r, (p', (d', log))) ->
  Forall (fun x => exists lsn, x.2 = Some lsn /\ (lsn < durable_lsn s d \/ lsn = 0 /\ zero_lsn_has_no_pending_record s d = true)) log.
Proof.
  unfold try_flush_dirty. destruct (poisoned p); [by intros [= _ _ _ <-]; constructor|]. intros Hr.
  refine (flush_frames_gate _ _ (fun x => Forall _ x.2) _ _ _ _ _ _ _ (d', log) _ Hr); [|by constructor].
  intros x id pg lsn Hx Hl Hg. cbn. apply Forall_app. split; [done|]. constructor; [|constructor]. exists lsn. split; [done|].
  cbn in Hg. destruct (Z.leb_spec (durable_lsn s d) lsn) as [Hle|]; [|by left]. right. cbn in Hg. apply negb_false_iff, andb_true_iff in Hg as [Hz ?].
  apply Z.eqb_eq in Hz. done.
Qed.

(** Relief works: a fetch with the server's relief hook never reports
    exhaustion while a frame is unpinned, as long as the log can be forced. *)
Theorem relief_frees_a_frame {D} `{PageStore D} store force (sink : option (DurableSink D)) p (d : D) id i f :
  stores_pages store -> match force with Some g => forces sink g | None => sink = None end ->
  pool_ok p -> coherent p d -> pins_bounded p -> frames p !! i = Some f -> f_pins f = 0 ->
  exists r p' d', get_page_relieved (Some (relieve store force sink)) p d id = Some (r, (p', d')) /\ r <> Err Exhausted /\
    (forall x, view p' d' x = view p d x).
Proof.
  intros Hs Hf Hok Hc Hb Hi Hp. destruct (relieved_loop_spec store force sink Hs ltac:(by destruct force) EVICTION_RELIEF_ROUNDS p d id Hok Hc Hb) as (r & p' & d' & Hr & [] & Hex).
  exists r, p', d'. split; [done|]. split; [|done]. intros ->. destruct (Hex eq_refl) as [_ Hx]. apply (Hx ltac:(unfold EVICTION_RELIEF_ROUNDS; lia)) with (i := i) (f := f); try done.
  by destruct force.
Qed.

(** A flush that succeeds leaves the files up to date, except for pages that
    are pinned or whose record is not durable yet. *)
Theorem flush_persists {D} `{PageStore D} store (sink : option (DurableSink D)) p (d : D) n p' d' id :
  stores_pages store -> pool_ok p -> coherent p d -> try_flush_dirty store sink p d = Some (Ok n, (p', d')) ->
  disk d' id = view p d id \/ exists i f, frames p !! i = Some f /\ f_id f = Some id /\
    (f_pins f <> 0 \/ exists pg lsn, f_page f = Some pg /\ page_lsn pg = Some lsn /\ gated (durability_of sink d) lsn = true).
Proof.
  intros Hs Hok Hc Hr. destruct (poisoned p) eqn:Hpo; [unfold try_flush_dirty in Hr; by rewrite Hpo in Hr|].
  destruct (try_flush_spec store sink p d Hs Hok Hc Hpo) as (r & p1 & d1 & Hr' & [Hok' Hc' Hv Hcl _ Ha]). rewrite Hr in Hr'. injection Hr' as <- <- <-.
  destruct Ha as (_ & _ & Hbl & _). rewrite <- Hv. unfold view. destruct (page_table p' !! id) as [i|] eqn:Ei; [|by left].
  destruct (lookup_frame _ _ _ Hok' Ei) as (f & pg & Hf & Hid & Hpg & _). rewrite Hf. cbn. rewrite Hpg. cbn.
  destruct (cleaned_frame _ _ _ _ Hcl Hf) as [b Hb]. destruct (f_dirty f) eqn:Hd; [|left; by eapply Hc'].
  right. exists i, (with_dirty f b). split; [done|]. split; [done|]. destruct (decide (f_pins f = 0)) as [Hp|]; [|by left]. right. exists pg.
  destruct (Hbl i f) with (id := id) (pg := pg) as (lsn & Hl & Hg); [|done|by apply candidate_spec|by exists lsn].
  apply elem_of_seq. rewrite <- (proj1 Hcl). apply lookup_lt_Some in Hf. lia.
Qed.

(** ** A concrete world *)

(** Page files, the durable end of the log, and the outcomes of the calls to
    come: a failed write leaves zeros in the file. *)
Record world := mk_world { files : gmap PageId Page; durable_end : Z; outcomes : list bool }.

Definition outcome (d : world) : bool * world :=
  match outcomes d with [] => (true, d) | b :: rest => (b, mk_world (files d) (durable_end d) rest) end.

Definition file (d : world) (id : PageId) : Page := default new_heap (files d !! id).

#[global] Instance world_loader : PageLoader world := fun d id =>
  let (ok, d) := outcome d in (if ok && bool_decide (is_Some (page_lsn (file d id))) then Ok (file d id) else Err "load failed", d).

Definition world_store (d : world) (id : PageId) (pg : Page) : result unit string * world :=
  let (ok, d) := outcome d in
  (if ok then Ok tt else Err "write failed", mk_world (<[id := if ok then pg else []]> (files d)) (durable_end d) (outcomes d)).

Definition world_force (d : world) (lsn : Z) : result unit string * world :=
  let (ok, d) := outcome d in
  if ok then (Ok tt, mk_world (files d) (Z.max (durable_end d) (lsn + 1)) (outcomes d)) else (Err "log failed", d).

Definition world_sink : DurableSink world := mk_DurableSink world durable_end (fun _ => true).

Lemma outcome_files d : files (outcome d).2 = files d.
Proof. unfold outcome. by destruct (outcomes d). Qed.

#[global] Instance world_pages : PageStore world.
Proof.
  refine {| disk := file |}. intros d id r d'. unfold load, world_loader. pose proof (outcome_files d) as Hf. destruct (outcome d) as [ok d1]. cbn in Hf.
  assert (forall x, file d1 x = file d x) as Hd by (intros x; unfold file; by rewrite Hf). intros [= <- <-]. split; [done|]. intros pg.
  destruct (ok && _) eqn:E; [|done]. apply andb_true_iff in E as [_ E%bool_decide_eq_true]. intros [= <-]. by rewrite <- Hd.
Defined.

Lemma world_stores : stores_pages world_store.
Proof.
  intros d id pg r d'. unfold world_store. pose proof (outcome_files d) as Hf. destruct (outcome d) as [ok d1]. cbn in Hf. intros [= <- <-]. cbn. unfold file. cbn. split.
  - intros x Hx. by rewrite lookup_insert_ne, Hf.
  - destruct ok; [|done]. by rewrite lookup_insert_eq.
Qed.

Lemma world_forces : forces (Some world_sink) world_force.
Proof.
  intros d lsn r d'. unfold world_force. pose proof (outcome_files d) as Hf. destruct (outcome d) as [ok d1]. cbn in Hf.
  assert (same_files d d1) as Hs by (intros x; cbn; unfold file; by rewrite Hf). destruct ok; intros [= <- <-]; (split; [done|]); [|done].
  intros _ s [= <-]. cbn. lia.
Qed.

Definition block (n : Z) : PageId := mk_PageId 1 n.
Definition page_at (lsn : Z) : Page := default new_heap (set_lsn new_heap lsn).

(** Two frames. Page 0 is changed by the record at 64; the third page needs the
    log forced and page 0 written back, the first attempt of which fails. *)
Definition cache_ops : list pool_op :=
  [PGet (block 0) false; PWrite 0 (fun _ => page_at 64); PGet (block 1) false; PGet (block 2) true; PDrop 0; PGet (block 2) false;
   PGet (block 2) true; PGet (block 2) true; PRead 0; PDrop 0; PGet (block 0) true; PRead 1; PFlush; PPoison; PGet (block 0) true].

Definition digest (a : pool_answer) : pool_answer + option Z := match a with APage pg => inr (page_lsn pg) | _ => inl a end.

Definition cache_world : world := mk_world ∅ 0 [true; true; true; false].
Definition two_frames : Pool := default (mk_Pool [] ∅ ∅ 0 (mk_Counters 0 0 0 0 0) ∅ ∅ false) (new 2).

Lemma change_ok_const k pg : is_Some (page_lsn pg) -> change_ok (PWrite k (fun _ => pg)).
Proof. by intros H ? _. Qed.

Lemma pool_refines_pages_witness :
  option_map (fun x => map digest x.1) (pool_run world_store (Some world_force) (Some world_sink) cache_ops two_frames cache_world []) =
    Some [inl (AGot (Ok tt)); inl ADone; inl (AGot (Ok tt)); inl (AGot (Err Exhausted)); inl ADone; inl (AGot (Err Exhausted));
          inl (AGot (Err (Loader "write failed"))); inl (AGot (Ok tt)); inr (Some 0); inl ADone; inl (AGot (Ok tt)); inr (Some 64);
          inl (AFlushed (Ok 0)); inl ADone; inl (AGot (Err Poisoned))] /\
  exists rs p' d' gs', pool_run world_store (Some world_force) (Some world_sink) cache_ops two_frames cache_world [] = Some (rs, (p', d', gs')) /\ pool_ok p' /\ coherent p' d' /\
    pages_run cache_ops (mk_pages (disk cache_world) [] false) rs (pages_of p' d' gs').
Proof.
  split; [|apply (pool_refines_pages world_store (Some world_force) (Some world_sink) 2)].
  - vm_compute. reflexivity.
  - apply world_stores.
  - apply world_forces.
  - reflexivity.
  - reflexivity.
  - reflexivity.
  - repeat constructor. apply change_ok_const. by vm_compute; eexists.
Defined.

(** The states a run of the concrete client reaches. *)
Definition reached (ops : list pool_op) : Pool * world * list (nat * PageId) :=
  match pool_run world_store (Some world_force) (Some world_sink) ops two_frames (mk_world ∅ 65 []) [] with
  | Some (_, s) => s
  | None => (two_frames, mk_world ∅ 65 [], [])
  end.

Lemma reached_ok ops : Z.of_nat (length ops) < U64 - 1 -> Forall change_ok ops -> client_ok (reached ops).1.1 (reached ops).1.2 (reached ops).2.
Proof.
  intros Hl Hg. destruct (new_ok 2 two_frames (mk_world ∅ 65 []) eq_refl eq_refl) as [Hcl _]. unfold reached.
  destruct (pool_run_sim world_store (Some world_force) (Some world_sink) world_stores world_forces ops two_frames (mk_world ∅ 65 []) [] Hcl Hl Hg)
    as (rs & p' & d' & gs' & -> & Hcl' & _). done.
Qed.

(** Page 0 pinned; page 1 dirty, its record at 64 durable; then page 1 pinned as
    well, page 0 dirty with the record at 128, which is not durable. *)
Definition pinned_and_dirty : list pool_op := [PGet (block 0) false; PGet (block 1) false; PWrite 1 (fun _ => page_at 64); PDrop 1].
Definition two_dirty : list pool_op := pinned_and_dirty ++ [PWrite 0 (fun _ => page_at 128); PDrop 0].

Lemma two_dirty_ok : Forall change_ok two_dirty.
Proof. repeat constructor; apply change_ok_const; by vm_compute; eexists. Qed.

Lemma pinned_and_dirty_ok : Forall change_ok pinned_and_dirty.
Proof. repeat constructor; apply change_ok_const; by vm_compute; eexists. Qed.

Lemma pinned_and_dirty_client : let '(p, d, gs) := reached pinned_and_dirty in client_ok p d gs /\ pins_bounded p.
Proof.
  pose proof (reached_ok pinned_and_dirty eq_refl pinned_and_dirty_ok) as Hcl.
  assert (length (reached pinned_and_dirty).2 = 1%nat) as Hl by (vm_compute; reflexivity).
  destruct (reached pinned_and_dirty) as [[p d] gs]. cbn in *. split; [done|]. eapply client_bounded; [exact Hcl|]. by rewrite Hl.
Qed.

Lemma two_dirty_client : let '(p, d, gs) := reached two_dirty in client_ok p d gs /\ pins_bounded p.
Proof.
  pose proof (reached_ok two_dirty eq_refl two_dirty_ok) as Hcl. assert (length (reached two_dirty).2 = 0%nat) as Hl by (vm_compute; reflexivity).
  destruct (reached two_dirty) as [[p d] gs]. cbn in *. split; [done|]. eapply client_bounded; [exact Hcl|]. by rewrite Hl.
Qed.

Lemma pool_exhausted_exact_witness : let '(p, d, _) := reached pinned_and_dirty in
  (exists s, get_page p d (block 2) = Some (Err Exhausted, s)) /\ poisoned p = false /\ page_table p !! block 2 = None /\ Forall busy (frames p).
Proof.
  pose proof pinned_and_dirty_client as Hcl.
  assert ((fst <$> get_page (reached pinned_and_dirty).1.1 (reached pinned_and_dirty).1.2 (block 2)) = Some (Err Exhausted)) as Hx by (vm_compute; reflexivity).
  destruct (reached pinned_and_dirty) as [[p d] gs]. cbn [fst snd] in Hx. destruct Hcl as [Hcl Hb].
  assert (exists s, get_page p d (block 2) = Some (Err Exhausted, s)) as Hs by (destruct (get_page p d (block 2)) as [[r s]|]; [injection Hx as ->; by exists s|done]).
  split; [exact Hs|]. apply (pool_exhausted_exact p d (block 2)); [apply Hcl|apply Hcl|exact Hb|exact Hs].
Defined.

Lemma flush_wal_before_data_witness : let '(p, d, _) := reached two_dirty in
  option_map (fun x => x.2.2.2) (try_flush_dirty (recording world_store) (Some (recording_sink world_sink)) p (d, [])) = Some [(block 1, Some 64)] /\
  Forall (fun x => exists lsn, x.2 = Some lsn /\ (lsn < durable_lsn world_sink d \/ lsn = 0 /\ zero_lsn_has_no_pending_record world_sink d = true)) [(block 1, Some 64)].
Proof.
  assert (option_map (fun x => x.2.2.2) (try_flush_dirty (recording world_store) (Some (recording_sink world_sink)) (reached two_dirty).1.1 ((reached two_dirty).1.2, []))
    = Some [(block 1, Some 64)]) as Hx by (vm_compute; reflexivity).
  destruct (reached two_dirty) as [[p d] gs]. cbn [fst snd] in Hx. split; [exact Hx|].
  destruct (try_flush_dirty (recording world_store) (Some (recording_sink world_sink)) p (d, [])) as [[r [p' [d' log]]]|] eqn:Hr; [|done].
  cbn in Hx. injection Hx as ->. exact (flush_wal_before_data world_store world_sink p d r p' d' _ Hr).
Defined.

Lemma relief_frees_a_frame_witness : let '(p, d, _) := reached two_dirty in
  exists r p' d', get_page_relieved (Some (relieve world_store (Some world_force) (Some world_sink))) p d (block 2) = Some (r, (p', d')) /\ r <> Err Exhausted /\
    (forall x, view p' d' x = view p d x).
Proof.
  pose proof two_dirty_client as Hcl. assert ((f_pins <$> frames (reached two_dirty).1.1 !! 0%nat) = Some 0) as Hx by (vm_compute; reflexivity).
  destruct (reached two_dirty) as [[p d] gs]. cbn [fst snd] in Hx. destruct Hcl as [Hcl Hb]. destruct (frames p !! 0%nat) as [f|] eqn:Hf; [|done]. injection Hx as Hp.
  apply (relief_frees_a_frame world_store (Some world_force) (Some world_sink) p d (block 2) 0 f); [apply world_stores|apply world_forces|apply Hcl|apply Hcl|exact Hb|exact Hf|exact Hp].
Defined.

Lemma flush_persists_witness : let '(p, d, _) := reached two_dirty in
  exists p' d', try_flush_dirty world_store (Some world_sink) p d = Some (Ok 1, (p', d')) /\
  (disk d' (block 1) = view p d (block 1) \/ exists i f, frames p !! i = Some f /\ f_id f = Some (block 1) /\
    (f_pins f <> 0 \/ exists pg lsn, f_page f = Some pg /\ page_lsn pg = Some lsn /\ gated (durability_of (Some world_sink) d) lsn = true)).
Proof.
  pose proof two_dirty_client as Hcl. assert ((fst <$> try_flush_dirty world_store (Some world_sink) (reached two_dirty).1.1 (reached two_dirty).1.2) = Some (Ok 1)) as Hx by (vm_compute; reflexivity).
  destruct (reached two_dirty) as [[p d] gs]. cbn [fst snd] in Hx. destruct Hcl as [Hcl Hb].
  destruct (try_flush_dirty world_store (Some world_sink) p d) as [[r [p' d']]|] eqn:Hr; [|done]. injection Hx as ->. exists p', d'. split; [done|].
  apply (flush_persists world_store (Some world_sink) p d 1 p' d' (block 1)); [apply world_stores|apply Hcl|apply Hcl|exact Hr].
Defined.
