(* ===== verification/PoolRace.v ===== *)
(** * Concurrent fetches from the buffer pool (ultrasql-storage, buffer_pool.rs)

    [get_page] taken apart at the points where another thread can act: the
    lock-free lookup, the pin, the check of the tag, and on a miss the claim of
    a frame under the miss lock, the installation of the bytes, the reset of the
    dirty bit, and the pin with the new table entry. Threads interleave at these
    points; page loads succeed. *)

From S2P Require Import Prelude CoreIds Bytes Page BufPool BufPoolSpec BufPoolOps.

(** Where a thread stands in [get_page], and what it holds. *)
Inductive pc :=
| Start
| Found (i : nat)
| Pinned (i : nat)
| Missing
| Claimed (i : nat)
| Filled (i : nat)
| Cleaned (i : nat)
| Guard (i : nat)
| Gone.

Record race := mk_race { pool : Pool; miss_lock : bool; threads : list (PageId * pc) }.

Definition at_pc (s : race) (k : nat) (id : PageId) (c : pc) (p : Pool) (lock : bool) : race :=
  mk_race p lock (<[k := (id, c)]> (threads s)).

Section race.
Context (file : PageId -> Page).

(** One move of thread [k] through [get_page]. *)
Definition fetch_step (s : race) (k : nat) : option race :=
  let p := pool s in
  t ← threads s !! k;
  let '(id, c) := t in
  match c with
  | Start =>
      Some (at_pc s k id (match page_table p !! id with Some i => Found i | None => Missing end) p (miss_lock s))
  | Found i => Some (at_pc s k id (Pinned i) (at_frame p i (fun f => add_pin f 1)) (miss_lock s))
  | Pinned i =>
      f ← frames p !! i;
      Some (if bool_decide (f_id f = Some id)
            then at_pc s k id (Guard i) (at_frame p i (fun f => with_ref f true)) (miss_lock s)
            else at_pc s k id Missing (at_frame p i (fun f => add_pin f (-1))) (miss_lock s))
  | Missing =>
      if miss_lock s then None else
      match page_table p !! id with
      | Some i => Some (at_pc s k id (Guard i) (at_frame p i (fun f => with_ref (add_pin f 1) true)) false)
      | None =>
          r ← acquire_frame_for p id;
          match r with
          | (Ok i, p') => Some (at_pc s k id (Claimed i) p' true)
          | (Err _, p') => Some (at_pc s k id Gone p' false)
          end
      end
  | Claimed i => Some (at_pc s k id (Filled i) (at_frame p i (fun f => with_page f (Some (file id)))) true)
  | Filled i =>
      Some (at_pc s k id (Cleaned i) (at_frame p i (fun f => with_dirty (with_ref (with_id f (Some id)) true) false)) true)
  | Cleaned i =>
      let p' := at_frame p i (fun f => add_pin f 1) in
      Some (at_pc s k id (Guard i) (set_table p' (<[id := i]> (page_table p'))) false)
  | Guard _ | Gone => None
  end.

(** What a thread does with its guard. A read of an empty frame panics. *)
Definition read_step (s : race) (k : nat) : option Page :=
  t ← threads s !! k;
  match t.2 with Guard i => guard_read (pool s) i | _ => None end.

Definition write_step (s : race) (k : nat) (page : Page) : option race :=
  t ← threads s !! k;
  match t.2 with
  | Guard i => p' ← guard_write (pool s) i (fun _ => page); Some (mk_race p' (miss_lock s) (threads s))
  | _ => None
  end.

Definition drop_step (s : race) (k : nat) : option race :=
  t ← threads s !! k;
  match t.2 with
  | Guard i => p' ← unpin (pool s) i false; Some (at_pc s k t.1 Gone p' (miss_lock s))
  | _ => None
  end.

Inductive act := Fetch (k : nat) | Write (k : nat) (page : Page) | Drop (k : nat).

Definition act_step (s : race) (a : act) : option race :=
  match a with
  | Fetch k => fetch_step s k
  | Write k page => write_step s k page
  | Drop k => drop_step s k
  end.

Fixpoint schedule (acts : list act) (s : race) : option race :=
  match acts with
  | [] => Some s
  | a :: rest => s' ← act_step s a; schedule rest s'
  end.

(** ** The tag of a guard *)

Definition pins (i : nat) (c : pc) : bool := match c with Pinned j | Guard j => bool_decide (j = i) | _ => false end.
Definition pinning (i : nat) (ts : list (PageId * pc)) : Z := Z.of_nat (length (filter (fun t => pins i t.2 = true) ts)).

(** The frame a thread relies on to hold its page. *)
Definition owns (c : pc) : option nat := match c with Claimed i | Filled i | Cleaned i | Guard i => Some i | _ => None end.
Definition installing (c : pc) : bool := match c with Claimed _ | Filled _ | Cleaned _ => true | _ => false end.

Definition tag (p : Pool) (i : nat) : option PageId := f ← frames p !! i; f_id f.

Record race_ok (s : race) : Prop := {
  ra_size : 0 < Z.of_nat (length (frames (pool s))) /\ Z.of_nat (length (threads s)) < U64 - 1;
  ra_pins : forall i f, frames (pool s) !! i = Some f -> f_pins f = pinning i (threads s);
  ra_owns : forall k id c i, threads s !! k = Some (id, c) -> owns c = Some i -> tag (pool s) i = Some id;
  ra_install : forall k id c, threads s !! k = Some (id, c) -> installing c = true -> miss_lock s = true;
  ra_one : forall k k' id id' c c', threads s !! k = Some (id, c) -> threads s !! k' = Some (id', c') ->
    installing c = true -> installing c' = true -> k = k';
  ra_table : forall id i, page_table (pool s) !! id = Some i -> tag (pool s) i = Some id;
}.

Lemma pinning_insert i ts k id c id' c' : ts !! k = Some (id, c) -> pinning i (<[k := (id', c')]> ts) = pinning i ts - b2z (pins i c) + b2z (pins i c').
Proof.
  intros Hk. pose proof (lookup_lt_Some _ _ _ Hk) as Hlt. rewrite insert_take_drop by done. rewrite <- (take_drop_middle _ _ _ Hk) at 3.
  unfold pinning. rewrite !filter_app, !filter_cons, !length_app. cbn [snd]. destruct (pins i c), (pins i c'); cbn; repeat case_decide; try done; cbn; lia.
Qed.

Lemma pinning_bound i ts : 0 <= pinning i ts <= Z.of_nat (length ts).
Proof. unfold pinning. pose proof (length_filter (fun t : PageId * pc => pins i t.2 = true) ts). lia. Qed.

Lemma pinning_pos i ts k id c : ts !! k = Some (id, c) -> pins i c = true -> 0 < pinning i ts.
Proof.
  intros Hk Hp. rewrite <- (take_drop_middle _ _ _ Hk). unfold pinning. rewrite filter_app, filter_cons, length_app. cbn [snd]. rewrite decide_True by done. cbn. lia.
Qed.

(** Moving one thread: the tags of frames other threads rely on must stay. *)
Lemma race_update s k id c c' p' lock' :
  race_ok s -> threads s !! k = Some (id, c) -> length (frames p') = length (frames (pool s)) ->
  (forall i f', frames p' !! i = Some f' -> exists f, frames (pool s) !! i = Some f /\ f_pins f' = f_pins f - b2z (pins i c) + b2z (pins i c')) ->
  (forall j x, tag (pool s) j = Some x -> tag p' j = Some x \/ (pinning j (threads s) = 0 /\ miss_lock s = false)) ->
  (forall i, owns c' = Some i -> tag p' i = Some id) ->
  (forall x i, page_table p' !! x = Some i -> tag p' i = Some x) ->
  (installing c = true \/ lock' = miss_lock s \/ lock' = true) ->
  (installing c' = true -> lock' = true /\ (installing c = true \/ miss_lock s = false)) ->
  race_ok (at_pc s k id c' p' lock').
Proof.
  intros [Hsz Hp Ho Hin Hone Ht] Hk HL Hpins Htag Hown Htab Hlock Hinst. pose proof (lookup_lt_Some _ _ _ Hk) as Hlt.
  assert (Hother : forall j x d, threads (at_pc s k id c' p' lock') !! j = Some (x, d) -> (j = k /\ x = id /\ d = c') \/ (j <> k /\ threads s !! j = Some (x, d))).
  { intros j x d. cbn. destruct (decide (j = k)) as [->|Hne]; [rewrite list_lookup_insert_eq by done; intros [= <- <-]; by left|].
    rewrite list_lookup_insert_ne by done. auto. }
  constructor; cbn [pool miss_lock at_pc].
  - cbn. rewrite length_insert, HL. done.
  - intros i f' Hi. destruct (Hpins _ _ Hi) as (f & Hf & ->). cbn. rewrite (pinning_insert _ _ _ _ _ _ _ Hk), (Hp _ _ Hf). done.
  - intros j x d i [(-> & -> & ->)|[Hne Hj]]%Hother; [apply Hown|]. intros Hd. destruct (Htag i x (Ho _ _ _ _ Hj Hd)) as [?|[Hz Hl]]; [done|]. exfalso.
    destruct d; try done; injection Hd as ->; try (by rewrite (Hin _ _ _ Hj eq_refl) in Hl).
    pose proof (pinning_pos i _ _ _ _ Hj ltac:(cbn; by rewrite bool_decide_eq_true_2)). lia.
  - intros j x d [(-> & -> & ->)|[Hne Hj]]%Hother Hd; [by apply Hinst|]. destruct Hlock as [Hc|[-> | ->]]; [|by eapply Hin|done].
    destruct Hne. by eapply Hone.
  - intros j j' x x' d d' [(-> & -> & ->)|[Hne Hj]]%Hother [(-> & -> & ->)|[Hne' Hj']]%Hother Hd Hd'; [done|..|by eapply Hone].
    + destruct (Hinst Hd) as [_ [Hc|Hl]]; [|rewrite (Hin _ _ _ Hj' Hd') in Hl; done]. destruct Hne'. by eapply Hone.
    + destruct (Hinst Hd') as [_ [Hc|Hl]]; [|rewrite (Hin _ _ _ Hj Hd) in Hl; done]. destruct Hne. by eapply Hone.
  - exact Htab.
Qed.

(** A change of one frame that keeps its tag. *)
Lemma frame_change p i g n : (forall f, frames p !! i = Some f -> f_id (g f) = f_id f) -> (forall f, frames p !! i = Some f -> f_pins (g f) = f_pins f + n) ->
  length (frames (at_frame p i g)) = length (frames p) /\ (forall j, tag (at_frame p i g) j = tag p j) /\
  (forall j f', frames (at_frame p i g) !! j = Some f' -> exists f, frames p !! j = Some f /\ f_pins f' = f_pins f + (if bool_decide (i = j) then n else 0)).
Proof.
  intros Hid Hpin. split; [by cbn; rewrite length_alter|]. split.
  - intros j. unfold tag. cbn. destruct (decide (i = j)) as [->|Hne]; [rewrite list_lookup_alter_eq|by rewrite list_lookup_alter_ne].
    destruct (frames p !! j) as [f|] eqn:Ef; cbn; [by apply Hid|done].
  - intros j f'. cbn. case_bool_decide as Hij.
    + subst j. rewrite list_lookup_alter_eq. destruct (frames p !! i) as [f|] eqn:Ef; [|done]. intros [= <-]. exists f. split; [done|]. by apply Hpin.
    + rewrite list_lookup_alter_ne by done. intros Hj. exists f'. split; [done|lia].
Qed.
(** The same, as a move of a thread. *)
Lemma race_frame s k id c c' i g n lock' : race_ok s -> threads s !! k = Some (id, c) ->
  (forall f, frames (pool s) !! i = Some f -> f_id (g f) = f_id f) -> (forall f, frames (pool s) !! i = Some f -> f_pins (g f) = f_pins f + n) ->
  (forall j, b2z (pins j c') - b2z (pins j c) = if bool_decide (i = j) then n else 0) ->
  (forall j, owns c' = Some j -> tag (pool s) j = Some id) ->
  (installing c = true \/ lock' = miss_lock s \/ lock' = true) ->
  (installing c' = true -> lock' = true /\ (installing c = true \/ miss_lock s = false)) ->
  race_ok (at_pc s k id c' (at_frame (pool s) i g) lock').
Proof.
  intros Hok Hk Hid Hpin Hn Hown Hl Hi. destruct (frame_change (pool s) i g n Hid Hpin) as (HL & HT & HP). eapply race_update; try done.
  - intros j f' Hj. destruct (HP _ _ Hj) as (f & Hf & ->). exists f. split; [done|]. specialize (Hn j). lia.
  - intros j x. rewrite HT. auto.
  - intros j Hj. rewrite HT. by apply Hown.
  - intros x j Hx. rewrite HT. by apply (ra_table _ Hok).
Qed.

Lemma race_pin_up s i f : race_ok s -> frames (pool s) !! i = Some f -> f_pins (add_pin f 1) = f_pins f + 1.
Proof.
  intros Hok Hi. cbn. pose proof (ra_pins _ Hok _ _ Hi). pose proof (pinning_bound i (threads s)). pose proof (ra_size _ Hok).
  unfold wrapping_add, wrap. rewrite Z.mod_small; lia.
Qed.

Lemma race_pin_down s i f k id c : race_ok s -> frames (pool s) !! i = Some f -> threads s !! k = Some (id, c) -> pins i c = true ->
  f_pins (add_pin f (-1)) = f_pins f + -1.
Proof.
  intros Hok Hi Hk Hc. cbn. pose proof (ra_pins _ Hok _ _ Hi). pose proof (pinning_pos i _ _ _ _ Hk Hc). pose proof (pinning_bound i (threads s)).
  pose proof (ra_size _ Hok). unfold wrapping_add, wrap. rewrite Z.mod_small; lia.
Qed.

Lemma refs_only_tag p q : refs_only p q -> forall j, tag q j = tag p j.
Proof.
  intros HR j. unfold tag. destruct (frames p !! j) as [f|] eqn:E.
  - destruct (refs_only_lookup _ _ _ _ HR E) as [b ->]. done.
  - destruct (frames q !! j) as [f|] eqn:E'; [|done]. destruct (refs_only_lookup_r _ _ _ _ HR E') as [b ?]. congruence.
Qed.

(** What claiming a frame does to the tags: one unpinned frame takes the new
    tag, and the table forgets its old one. *)
Lemma acquire_tags p id i p' : 0 < Z.of_nat (length (frames p)) -> acquire_frame_for p id = Some (Ok i, p') ->
  (forall x j, page_table p !! x = Some j -> tag p j = Some x) ->
  length (frames p') = length (frames p) /\ tag p' i = Some id /\ (forall j, j <> i -> tag p' j = tag p j) /\
  (forall j f', frames p' !! j = Some f' -> exists f, frames p !! j = Some f /\ f_pins f' = f_pins f) /\
  (exists f, frames p !! i = Some f /\ f_pins f = 0) /\
  (forall x j, page_table p' !! x = Some j -> page_table p !! x = Some j /\ j <> i).
Proof.
  intros Hl Ha Ht. unfold acquire_frame_for in Ha.
  assert (Hgen : forall q f g, refs_only p q -> frames q !! i = Some f -> f_pins f = 0 -> (forall x, f_id (g x) = Some id /\ f_pins (g x) = f_pins x) ->
    frames p' = alter g i (frames q) -> (forall x j, page_table p' !! x = Some j -> page_table p !! x = Some j /\ f_id f <> Some x) ->
    length (frames p') = length (frames p) /\ tag p' i = Some id /\ (forall j, j <> i -> tag p' j = tag p j) /\
    (forall j f', frames p' !! j = Some f' -> exists f, frames p !! j = Some f /\ f_pins f' = f_pins f) /\
    (exists f, frames p !! i = Some f /\ f_pins f = 0) /\
    (forall x j, page_table p' !! x = Some j -> page_table p !! x = Some j /\ j <> i)).
  { intros q f g HR Hi Hp Hg HF HT. pose proof (refs_only_tag _ _ HR) as Htag. split; [rewrite HF, length_alter; by apply refs_only_length|].
    split; [unfold tag; rewrite HF, list_lookup_alter_eq, Hi; cbn; apply Hg|].
    split; [intros j Hj; rewrite <- Htag; unfold tag; by rewrite HF, list_lookup_alter_ne|]. split; [|split].
    - intros j f'. rewrite HF. destruct (decide (i = j)) as [->|Hne].
      + rewrite list_lookup_alter_eq, Hi. intros [= <-]. destruct (refs_only_lookup_r _ _ _ _ HR Hi) as [b Hb]. eexists. split; [exact Hb|]. by rewrite (proj2 (Hg f)).
      + rewrite list_lookup_alter_ne by done. intros Hj. destruct (refs_only_lookup_r _ _ _ _ HR Hj) as [b Hb]. eexists. by split; [exact Hb|].
    - destruct (refs_only_lookup_r _ _ _ _ HR Hi) as [b Hb]. eexists. by split; [exact Hb|].
    - intros x j Hx. destruct (HT _ _ Hx) as [Hx' Hne]. split; [done|]. intros ->. apply Ht in Hx'. rewrite <- Htag in Hx'. unfold tag in Hx'. rewrite Hi in Hx'. done. }
  destruct (find_free (frames p) 0) as [k|] eqn:Ef.
  - injection Ha as <- <-. pose proof (find_free_spec (frames p) 0) as Hff. rewrite Ef in Hff. destruct Hff as (f & _ & Hi & [Hp%Z.eqb_eq Hid%bool_decide_eq_true]%andb_true_iff).
    rewrite Nat.sub_0_r in Hi. apply (Hgen p f (fun f => with_id f (Some id)) (refs_only_refl p)); try done. intros x j Hx. split; [done|congruence].
  - destruct (sweep_spec (length (frames p) * 4) p id Hl) as (r & p1 & Hs & Hpost). rewrite Hs in Ha. injection Ha as -> ->.
    destruct Hpost as (q & f & HR & Hi & [Hp _] & ->). apply (Hgen q f (claim id) HR Hi Hp); [done|unfold evicted; by destruct (f_id f)|].
    destruct (refs_only_table _ _ HR) as (Htq & _). intros x j. unfold evicted. destruct (f_id f) as [old|] eqn:Eo; cbn; rewrite Htq; [|done].
    rewrite lookup_delete_Some. intros [Hne Hx]. split; [done|congruence].
Qed.

Lemma pool_same s k id c c' lock' : race_ok s -> threads s !! k = Some (id, c) -> (forall j, pins j c = false) -> (forall j, pins j c' = false) ->
  owns c' = None -> (installing c = true \/ lock' = miss_lock s \/ lock' = true) -> installing c' = false -> race_ok (at_pc s k id c' (pool s) lock').
Proof.
  intros Hok Hk Hc Hc' Ho Hl Hi. eapply race_update; try done.
  - intros j f Hj. exists f. split; [done|]. rewrite Hc, Hc'. cbn. lia.
  - auto.
  - intros j Hj. congruence.
  - apply (ra_table _ Hok).
  - congruence.
Qed.

Lemma fetch_step_ok s k s' : race_ok s -> fetch_step s k = Some s' -> race_ok s'.
Proof.
  intros Hok. unfold fetch_step. destruct (threads s !! k) as [[id c]|] eqn:Hk; cbn [mbind option_bind]; [|done].
  assert (Hown : forall i, owns c = Some i -> tag (pool s) i = Some id) by (intros i; by eapply ra_owns).
  destruct c as [|i|i| |i|i|i|i|]; try done.
  - intros [= <-]. destruct (page_table (pool s) !! id); apply (pool_same s k id Start); auto.
  - intros [= <-]. eapply (race_frame s k id (Found i) (Pinned i) i _ 1); auto.
    + intros f Hf. by apply (race_pin_up s i).
    + intros j. cbn. by case_bool_decide.
    + done.
  - destruct (frames (pool s) !! i) as [f|] eqn:Hf; cbn [mbind option_bind]; [|done]. case_bool_decide as Hid; intros [= <-].
    + eapply (race_frame s k id (Pinned i) (Guard i) i _ 0); auto.
      * intros g _. cbn. lia.
      * intros j. cbn. case_bool_decide; cbn; lia.
      * intros j [= <-]. unfold tag. by rewrite Hf.
      * done.
    + eapply (race_frame s k id (Pinned i) Missing i _ (-1)); auto.
      * intros g Hg. eapply race_pin_down; [done|done|done|]. cbn. by rewrite bool_decide_eq_true_2.
      * intros j. cbn. case_bool_decide; cbn; lia.
      * done.
  - destruct (miss_lock s) eqn:Hl; [done|]. destruct (page_table (pool s) !! id) as [i|] eqn:Et.
    + intros [= <-]. eapply (race_frame s k id Missing (Guard i) i _ 1); auto.
      * intros f Hf. by apply (race_pin_up s i).
      * intros j. cbn. by case_bool_decide.
      * intros j [= <-]. by apply (ra_table _ Hok).
    + destruct (acquire_frame_for (pool s) id) as [[[i|e] p']|] eqn:Ea; cbn [mbind option_bind]; [| |done].
      * intros [= <-]. destruct (acquire_tags _ _ _ _ (proj1 (ra_size _ Hok)) Ea (ra_table _ Hok)) as (HL & Hti & Htj & HP & (f0 & Hf0 & Hp0) & HT).
        eapply (race_update s k id Missing (Claimed i)); auto.
        -- intros j f' Hj. destruct (HP _ _ Hj) as (f & Hf & ->). exists f. split; [done|]. cbn. lia.
        -- intros j x Hj. destruct (decide (j = i)) as [->|Hne]; [|left; by rewrite Htj]. right. split; [|done]. by rewrite <- (ra_pins _ Hok _ _ Hf0).
        -- by intros j [= <-].
        -- intros x j Hx. destruct (HT _ _ Hx) as [Hx' Hne]. rewrite Htj by done. by apply (ra_table _ Hok).
      * intros [= <-]. unfold acquire_frame_for in Ea. destruct (find_free _ _); [done|].
        destruct (sweep_spec (length (frames (pool s)) * 4) (pool s) id (proj1 (ra_size _ Hok))) as (r & p1 & Hs & Hpost). rewrite Hs in Ea. injection Ea as -> ->.
        destruct Hpost as [_ HR]. pose proof (refs_only_tag _ _ HR) as Htag. eapply (race_update s k id Missing Gone); auto.
        -- by apply refs_only_length.
        -- intros j f' Hj. destruct (refs_only_lookup_r _ _ _ _ HR Hj) as [b Hb]. eexists. split; [exact Hb|]. cbn. lia.
        -- intros j x. rewrite Htag. auto.
        -- done.
        -- intros x j. rewrite Htag. destruct (refs_only_table _ _ HR) as (-> & _). apply (ra_table _ Hok).
  - intros [= <-]. eapply (race_frame s k id (Claimed i) (Filled i) i _ 0); auto; [intros f _; cbn; lia|intros j; cbn; by case_bool_decide].
  - intros [= <-]. eapply (race_frame s k id (Filled i) (Cleaned i) i _ 0); auto; [|intros f _; cbn; lia|intros j; cbn; by case_bool_decide].
    intros f Hf. specialize (Hown i eq_refl). unfold tag in Hown. rewrite Hf in Hown. cbn in *. done.
  - intros [= <-]. destruct (frame_change (pool s) i (fun f => add_pin f 1) 1) as (HL & HT & HP); [done|intros f Hf; by apply (race_pin_up s i)|].
    specialize (Hown i eq_refl). eapply (race_update s k id (Cleaned i) (Guard i)); auto.
    + intros j f' Hj. destruct (HP _ _ Hj) as (f & Hf & ->). exists f. split; [done|]. cbn. case_bool_decide; cbn; lia.
    + intros j x Hj. left. by rewrite <- Hj; apply HT.
    + intros j [= <-]. rewrite <- Hown. apply HT.
    + intros x j. cbn. rewrite lookup_insert_Some. intros [[<- <-]|[_ Hx]]; [rewrite <- Hown; apply HT|]. etrans; [apply HT|]. by apply (ra_table _ Hok).
Qed.

Lemma act_step_ok s a s' : race_ok s -> act_step s a = Some s' -> race_ok s'.
Proof.
  intros Hok. destruct a as [k|k page|k]; cbn [act_step]; [by apply fetch_step_ok|..].
  - unfold write_step. destruct (threads s !! k) as [[id c]|] eqn:Hk; cbn [mbind option_bind]; [|done]. cbn [snd]. destruct c as [|i|i| |i|i|i|i|]; try done.
    unfold guard_write. destruct (frames (pool s) !! i) as [f|] eqn:Hf; cbn [mbind option_bind]; [|done]. destruct (f_page f); cbn [mbind option_bind]; [|done].
    intros [= <-]. set (g := fun f => with_dirty (with_page f (Some page)) true).
    assert (race_ok (at_pc s k id (Guard i) (at_frame (pool s) i g) (miss_lock s))) as [H1 H2 H3 H4 H5 H6].
    { eapply (race_frame s k id (Guard i) (Guard i) i _ 0); auto; [intros h _; cbn; lia|intros j; case_bool_decide; lia| |done].
      intros j [= <-]. by eapply ra_owns. }
    cbn in H1, H2, H3, H4, H5. rewrite list_insert_id in H1, H2, H3, H4, H5 by done. by destruct (f_dirty f); constructor.
  - unfold drop_step. destruct (threads s !! k) as [[id c]|] eqn:Hk; cbn [mbind option_bind]; [|done]. cbn [snd fst]. destruct c as [|i|i| |i|i|i|i|]; try done.
    unfold unpin. destruct (frames (pool s) !! i) as [f|] eqn:Hf; cbn [mbind option_bind]; [|done]. intros [= <-].
    eapply (race_frame s k id (Guard i) Gone i _ (-1)); auto; [|intros j; cbn; case_bool_decide; cbn; lia|done|done].
    intros h Hh. eapply race_pin_down; [done|done|done|]. cbn. by rewrite bool_decide_eq_true_2.
Qed.

Lemma schedule_ok acts : forall s s', race_ok s -> schedule acts s = Some s' -> race_ok s'.
Proof.
  induction acts as [|a acts IH]; intros s s' Hok; cbn [schedule]; [by intros [= <-]|]. destruct (act_step s a) as [s1|] eqn:E; cbn [mbind option_bind]; [|done].
  apply IH. by eapply act_step_ok.
Qed.

End race.

(** Threads that want these pages from a new pool. *)
Definition contenders (n : nat) (ids : list PageId) : option race :=
  p ← new n; Some (mk_race p false (map (fun id => (id, Start)) ids)).

Lemma contenders_ok n ids s : contenders n ids = Some s -> Z.of_nat (length ids) < U64 - 1 -> race_ok s.
Proof.
  unfold contenders, new. destruct n as [|n]; [done|]. cbn [mbind option_bind]. intros [= <-] Hl.
  assert (Hth : forall k id c, map (fun id => (id, Start)) ids !! k = Some (id, c) -> c = Start).
  { intros k id c Hk. apply list_lookup_fmap_Some in Hk as (x & [= -> ->] & _). done. }
  constructor; cbn [pool threads miss_lock frames page_table].
  - rewrite length_map. split; [cbn; lia|done].
  - intros i f Hi. apply (lookup_replicate (S n) empty_frame) in Hi as [-> _]. cbn. symmetry. unfold pinning. clear. induction ids as [|id ids IH]; [done|]. cbn [map]. rewrite filter_cons. cbn. done.
  - intros k id c i Hk%Hth. by subst c.
  - intros k id c Hk%Hth. by subst c.
  - intros k k' id id' c c' Hk%Hth. by subst c.
  - intros id i. by rewrite lookup_empty.
Qed.


(** ** A lookup that outlives two evictions *)

Definition pageP : PageId := mk_PageId 1 0.
Definition pageQ : PageId := mk_PageId 1 1.
Definition two_files (id : PageId) : Page := if bool_decide (id = pageP) then [1] else [2].

Definition fetch_all (k : nat) : list act := replicate 5 (Fetch k).

(** One frame. Thread 1 finds page P in it and is delayed; thread 2 has the
    frame taken for page Q, thread 3 has it taken back for P. *)
Definition delayed : list act :=
  fetch_all 0 ++ [Drop 0; Fetch 1] ++ fetch_all 2 ++ [Drop 2; Fetch 3; Fetch 3; Fetch 1; Fetch 1].

Definition one_frame : race := default (mk_race (mk_Pool [] ∅ ∅ 0 (mk_Counters 0 0 0 0 0) ∅ ∅ false) false [])
  (contenders 1 [pageP; pageP; pageQ; pageP; pageQ; pageP]).


(** The tag is set when the frame is claimed, before its bytes are loaded. A
    thread that looked the page up before it was evicted and compares the tag
    while the page is being loaded again passes the check and holds a guard on
    an empty frame: reading through it panics. *)
Theorem stale_hit_panics : exists s, schedule two_files delayed one_frame = Some s /\ threads s !! 1%nat = Some (pageP, Guard 0) /\ read_step s 1 = None.
Proof. eexists. split; [vm_compute; reflexivity|]. split; reflexivity. Qed.

(** And when that thread writes between the installation of the bytes and the
    reset of the dirty bit, its write is forgotten: the frame counts as clean,
    is evicted without being written back, and the next fetch of the page
    returns the old bytes. *)
Theorem stale_hit_loses_write :
  let acts := delayed ++ [Fetch 3; Write 1 [9]; Fetch 3; Fetch 3; Drop 1; Drop 3] ++ fetch_all 4 ++ [Drop 4] ++ fetch_all 5 in
  exists s, schedule two_files acts one_frame = Some s /\ read_step s 5 = Some [1].
Proof. eexists. split; [vm_compute; reflexivity|reflexivity]. Qed.
