(* ===== verification/PoolIndex.v ===== *)
(** * The B-link tree over the buffer pool

    An index insertion changes its leaf and drops the guard, then appends the
    record, then stamps the page. In between the frame is dirty, unpinned and
    carries the position of an older record. *)

From S2P Require Import Prelude CoreIds WalSink Bytes Page PageSpec BtNode BtNodeSpec BTree BTreeInv BTreeSpec BTreeRefine BufPool BufPoolSpec BufPoolRefine.

(** A pool of one frame that holds a changed, unpinned page. *)
Definition holding (id : PageId) (pg : Page) : Pool :=
  mk_Pool [mk_Frame (Some pg) (Some id) 0 false true] {[ id := 0%nat ]} {[ pg_relation id := pg_block id ]} 0 (mk_Counters 0 0 0 0 1) ∅ ∅ false.

Lemma holding_flushed id pg : page_lsn pg = Some 0 -> exists p' d',
  try_flush_dirty world_store (Some world_sink) (holding id pg) (mk_world ∅ 0 []) = Some (Ok 1, (p', d')) /\ file d' id = pg.
Proof.
  intros Hl. unfold try_flush_dirty, holding. cbn -[page_lsn]. rewrite Hl. cbn -[page_lsn]. eexists _, _. split; [reflexivity|].
  unfold file. cbn. by rewrite lookup_insert_eq.
Qed.

(** A checkpoint that runs in that window writes the changed leaf although
    nothing has been logged: after the first half of an insertion into a new
    index, the log is as before, the leaf holds the entry, and a flush with an
    empty durable log succeeds and puts the leaf into its file. *)
Theorem index_leaf_flushed_before_logged :
  exists t1 p' d', insert_into_leaf 2 0 7 (tid 7) false (fresh_index [] 64) = Some (Ok None, t1) /\
    bt_sink t1 = bt_sink (fresh_index [] 64) /\ read_leaf_entries (page_of t1 0) 1 = Ok [ent 7] /\
    try_flush_dirty world_store (Some world_sink) (holding (mk_PageId 9 0) (page_of t1 0)) (mk_world ∅ 0 []) = Some (Ok 1, (p', d')) /\
    file d' (mk_PageId 9 0) = page_of t1 0.
Proof.
  assert (Hx : match insert_into_leaf 2 0 7 (tid 7) false (fresh_index [] 64) with
    | Some (Ok None, t1) => bt_sink t1 = 64 /\ read_leaf_entries (page_of t1 0) 1 = Ok [ent 7] /\ page_lsn (page_of t1 0) = Some 0
    | _ => False
    end) by (vm_compute; auto).
  destruct (insert_into_leaf 2 0 7 (tid 7) false (fresh_index [] 64)) as [[[[|]|] t1]|]; try done. destruct Hx as (Hs & He & Hl).
  destruct (holding_flushed (mk_PageId 9 0) _ Hl) as (p' & d' & Hf & Hd). by exists t1, p', d'.
Qed.
