(* ===== verification/WalPayloadSequence.v ===== *)
(** * Sequence payloads of the write-ahead log (ultrasql-wal, payload/sequence.rs)

    A sequence record carries the whole state of the sequence after the
    operation: a fixed prefix, the name, and a fixed suffix of signed fields.
    A [String] is its list of bytes, which the standard library keeps valid
    UTF-8; [utf8_valid] is the check of [std::str::from_utf8]. *)

From S2P Require Import Prelude CoreIds WalRecord WalPayload WalPayloadIndex WalSections Bytes BtNode BtNodeSpec.

(** ** UTF-8 strings of the standard library *)

Definition in_range (lo hi b : Z) : bool := (lo <=? b) && (b <=? hi).
Definition cont_byte (b : Z) : bool := in_range 128 191 b.

(** The second byte each three-byte lead admits: no overlong form, no surrogate. *)
Definition three_lead (a b : Z) : bool :=
  ((a =? 224) && in_range 160 191 b) || (in_range 225 236 a && cont_byte b)
  || ((a =? 237) && in_range 128 159 b) || (in_range 238 239 a && cont_byte b).

(** The second byte each four-byte lead admits: no overlong form, nothing above U+10FFFF. *)
Definition four_lead (a b : Z) : bool :=
  ((a =? 240) && in_range 144 191 b) || (in_range 241 243 a && cont_byte b)
  || ((a =? 244) && in_range 128 143 b).

Fixpoint utf8_valid (l : list Z) : bool :=
  match l with
  | [] => true
  | a :: r1 =>
      if a <? 128 then utf8_valid r1 else
      match r1 with
      | [] => false
      | b :: r2 =>
          if in_range 194 223 a then cont_byte b && utf8_valid r2 else
          match r2 with
          | [] => false
          | c :: r3 =>
              if in_range 224 239 a then three_lead a b && cont_byte c && utf8_valid r3 else
              match r3 with
              | [] => false
              | d :: r4 => four_lead a b && cont_byte c && cont_byte d && utf8_valid r4
              end
          end
      end
  end.

(** [str::to_ascii_lowercase] *)
Definition lower_byte (b : Z) : Z := if in_range 65 90 b then b + 32 else b.
Definition to_ascii_lowercase (s : list Z) : list Z := map lower_byte s.

(** ** SequenceOpPayload *)

Inductive SequenceOpKind := SCreate | SAdvance | SSet | SAlter | SDrop.

#[global] Instance SequenceOpKind_eq_dec : EqDecision SequenceOpKind.
Proof. solve_decision. Defined.

Definition SequenceOpKind_from_u8 (v : Z) : result SequenceOpKind PayloadError :=
  match v with
  | 1 => Ok SCreate
  | 2 => Ok SAdvance
  | 3 => Ok SSet
  | 4 => Ok SAlter
  | 5 => Ok SDrop
  | _ => Err (PMalformed "sequence_op kind unknown")
  end.

Definition SequenceOpKind_to_u8 (k : SequenceOpKind) : Z :=
  match k with SCreate => 1 | SAdvance => 2 | SSet => 3 | SAlter => 4 | SDrop => 5 end.

Record SequenceOpPayload := mk_SequenceOpPayload {
  sq_op : SequenceOpKind;
  sq_seqrelid : Z;
  sq_name : list Z;
  sq_start_value : Z;
  sq_last_value : Z;
  sq_min_value : Z;
  sq_max_value : Z;
  sq_increment : Z;
  sq_cache_size : Z;
  sq_is_called : bool;
  sq_cycle : bool;
}.

Definition decode_bool_byte (value : Z) (what : string) : result bool PayloadError :=
  match value with
  | 0 => Ok false
  | 1 => Ok true
  | _ => Err (PMalformed what)
  end.

Definition bool_byte (b : bool) : Z := if b then 1 else 0.

(** The advancing readers return the value and the offset after it. *)
Definition read_i64_advance (bytes : list Z) (offset : Z) (what context : string) : result (Z * Z) PayloadError :=
  let? end_ := checked_offset offset 8 context in
  let? v := field 8 (Z.to_nat offset) bytes what in
  Ok (to_i64 v, end_).

Definition read_u32_advance (bytes : list Z) (offset : Z) (what context : string) : result (Z * Z) PayloadError :=
  let? end_ := checked_offset offset 4 context in
  let? v := field 4 (Z.to_nat offset) bytes what in
  Ok (v, end_).

Definition SQ_PREFIX : Z := 12.
Definition SQ_SUFFIX : Z := 48.
Definition sq_overflow : string := "sequence_op length overflow".

Definition SequenceOpPayload_encode (p : SequenceOpPayload) : result (list Z) PayloadError :=
  let name := sq_name p in
  if U32 <=? blen name then Err (PMalformed "sequence_op name_len overflow") else
  if MAX_VARIABLE_PAYLOAD_BYTES <? blen name then Err (PMalformed "sequence_op name_len exceeds ceiling") else
  let? name_end := checked_offset SQ_PREFIX (blen name) sq_overflow in
  let? total := checked_offset name_end SQ_SUFFIX sq_overflow in
  Ok (le_encode 1 (SequenceOpKind_to_u8 (sq_op p)) ++ le_encode 3 0 ++ le_encode 4 (sq_seqrelid p)
      ++ le_encode 4 (blen name) ++ name
      ++ i64_bytes (sq_start_value p) ++ i64_bytes (sq_last_value p) ++ i64_bytes (sq_min_value p)
      ++ i64_bytes (sq_max_value p) ++ i64_bytes (sq_increment p) ++ le_encode 4 (sq_cache_size p)
      ++ le_encode 1 (bool_byte (sq_is_called p)) ++ le_encode 1 (bool_byte (sq_cycle p)) ++ le_encode 2 0).

Definition SequenceOpPayload_decode (bytes : list Z) : result SequenceOpPayload PayloadError :=
  if blen bytes <? SQ_PREFIX then Err (PTruncated SQ_PREFIX (blen bytes)) else
  let? op := SequenceOpKind_from_u8 (byte_at bytes 0) in
  if negb (byte_at bytes 1 =? 0) || negb (byte_at bytes 2 =? 0) || negb (byte_at bytes 3 =? 0)
  then Err (PMalformed "sequence_op reserved prefix bytes must be zero") else
  let? seqrelid := field 4 4 bytes "seqrelid" in
  let? name_len := field 4 8 bytes "name_len" in
  if MAX_VARIABLE_PAYLOAD_BYTES <? name_len then Err (PMalformed "sequence_op name_len exceeds ceiling") else
  let? name_end := checked_offset SQ_PREFIX name_len sq_overflow in
  let? needed := checked_offset name_end SQ_SUFFIX sq_overflow in
  if blen bytes <? needed then Err (PTruncated needed (blen bytes)) else
  let name := slice 12 (Z.to_nat name_end) bytes in
  if negb (utf8_valid name) then Err (PMalformed "sequence_op name utf8") else
  let? '(start_value, off) := read_i64_advance bytes name_end "sequence_op start_value" sq_overflow in
  let? '(last_value, off) := read_i64_advance bytes off "sequence_op last_value" sq_overflow in
  let? '(min_value, off) := read_i64_advance bytes off "sequence_op min_value" sq_overflow in
  let? '(max_value, off) := read_i64_advance bytes off "sequence_op max_value" sq_overflow in
  let? '(increment, off) := read_i64_advance bytes off "sequence_op increment" sq_overflow in
  let? '(cache_size, off) := read_u32_advance bytes off "sequence_op cache_size" sq_overflow in
  let? cycle_off := checked_offset off 1 sq_overflow in
  let? reserved_start := checked_offset off 2 sq_overflow in
  let? reserved_end := checked_offset off 4 sq_overflow in
  let? is_called := decode_bool_byte (byte_at bytes off) "sequence_op is_called" in
  let? cycle := decode_bool_byte (byte_at bytes cycle_off) "sequence_op cycle" in
  if existsb (fun byte => negb (byte =? 0)) (slice (Z.to_nat reserved_start) (Z.to_nat reserved_end) bytes)
  then Err (PMalformed "sequence_op reserved suffix bytes must be zero") else
  let? _u := require_exact_len bytes needed in
  Ok (mk_SequenceOpPayload op seqrelid name start_value last_value min_value max_value increment
        cache_size is_called cycle).

(** ** Lemmas *)

Lemma SequenceOpKind_roundtrip k : SequenceOpKind_from_u8 (SequenceOpKind_to_u8 k) = Ok k.
Proof. by destruct k. Qed.

Lemma SequenceOpKind_canonical v k : SequenceOpKind_from_u8 v = Ok k -> SequenceOpKind_to_u8 k = v.
Proof. intros H. unfold SequenceOpKind_from_u8 in H. repeat case_match; simplify_eq; done. Qed.

Lemma bool_byte_roundtrip b what : decode_bool_byte (bool_byte b) what = Ok b.
Proof. by destruct b. Qed.

Lemma bool_byte_canonical v what b : decode_bool_byte v what = Ok b -> bool_byte b = v.
Proof. intros H. unfold decode_bool_byte in H. repeat case_match; simplify_eq; done. Qed.

Lemma lower_cont b lo hi : 128 <= lo -> in_range lo hi (lower_byte b) = in_range lo hi b.
Proof.
  intros Hlo. unfold lower_byte, in_range.
  destruct (Z.leb_spec 65 b), (Z.leb_spec b 90); cbn [andb]; try done.
  rewrite (proj2 (Z.leb_gt lo (b + 32))), (proj2 (Z.leb_gt lo b)) by lia. done.
Qed.

Lemma lower_ascii b : (lower_byte b <? 128) = (b <? 128).
Proof.
  unfold lower_byte, in_range. destruct (Z.leb_spec 65 b), (Z.leb_spec b 90); cbn [andb]; try done.
  rewrite !(proj2 (Z.ltb_lt _ _)) by lia. done.
Qed.

Lemma lower_high b v : 128 <= v -> (lower_byte b =? v) = (b =? v).
Proof.
  intros Hv. unfold lower_byte, in_range. destruct (Z.leb_spec 65 b), (Z.leb_spec b 90); cbn [andb]; try done.
  rewrite !(proj2 (Z.eqb_neq _ _)) by lia. done.
Qed.

(** Lower-casing keeps a string valid UTF-8 and is idempotent. *)
Lemma lowercase_utf8 s : utf8_valid (to_ascii_lowercase s) = utf8_valid s.
Proof.
  unfold to_ascii_lowercase. induction s as [s IH] using (induction_ltof1 _ length).
  unfold ltof in IH. destruct s as [|a r1]; [done|]. cbn [map utf8_valid]. rewrite lower_ascii.
  destruct (a <? 128); [apply IH; cbn; lia|].
  destruct r1 as [|b r2]; [done|]. cbn [map]. rewrite !lower_cont by lia.
  destruct (in_range 194 223 a).
  { unfold cont_byte. rewrite lower_cont, IH by (cbn; lia). done. }
  destruct r2 as [|c r3]; [done|]. cbn [map].
  unfold three_lead, four_lead, cont_byte. rewrite !lower_high, !lower_cont by lia.
  destruct (in_range 224 239 a); [rewrite IH by (cbn; lia); done|].
  destruct r3 as [|d r4]; [done|]. cbn [map]. rewrite !lower_cont, IH by (cbn; lia). done.
Qed.

Lemma lowercase_idem s : to_ascii_lowercase (to_ascii_lowercase s) = to_ascii_lowercase s.
Proof.
  unfold to_ascii_lowercase. rewrite map_map. apply map_ext. intros b. unfold lower_byte, in_range.
  destruct (Z.leb_spec 65 b), (Z.leb_spec b 90); cbn [andb]; try done.
  - rewrite (proj2 (Z.leb_gt (b + 32) 90)) by lia. by rewrite andb_false_r.
  - rewrite (proj2 (Z.leb_gt b 90)) by lia. by rewrite andb_false_r.
  - rewrite (proj2 (Z.leb_gt 65 b)) by lia. done.
  - rewrite (proj2 (Z.leb_gt 65 b)) by lia. done.
Qed.

Lemma lowercase_blen s : blen (to_ascii_lowercase s) = blen s.
Proof. unfold blen, to_ascii_lowercase. by rewrite length_map. Qed.

Section advancing.
Context (secs : list (list Z)).

Lemma read_i64_sec z k off what ctx :
  secs !! k = Some (i64_bytes z) -> off = sec_off secs k -> in_i64 z -> off + 8 < U64 ->
  read_i64_advance (concat secs) off what ctx = Ok (z, off + 8).
Proof.
  intros H -> Hz Hlt. unfold read_i64_advance. rewrite checked_offset_eq by done.
  rewrite (field_sec secs 8 (wrap U64 z) k) by (done || (unfold sec_off, blen; lia) || apply wrap_U64).
  by rewrite to_i64_wrap.
Qed.

Lemma read_u32_sec v k off what ctx :
  secs !! k = Some (le_encode 4 v) -> off = sec_off secs k -> in_width U32 v -> off + 4 < U64 ->
  read_u32_advance (concat secs) off what ctx = Ok (v, off + 4).
Proof.
  intros H -> Hv Hlt. unfold read_u32_advance. rewrite checked_offset_eq by done.
  rewrite (field_sec secs 4 v k) by (done || (unfold sec_off, blen; lia)). done.
Qed.
End advancing.

Lemma wrap_to_i64 v : in_width U64 v -> wrap U64 (to_i64 v) = v /\ in_i64 (to_i64 v).
Proof.
  unfold in_width, wrap, to_i64, in_i64, U64. intros Hv.
  destruct (Z.ltb_spec v (2 ^ 63)); (split; [|lia]); [apply Z.mod_small; lia|].
  replace (v - 2 ^ 64) with (v + (-1) * 2 ^ 64) by lia. rewrite Z.mod_add by lia. apply Z.mod_small; lia.
Qed.

Lemma read_i64_Ok bytes off what ctx z off' :
  Forall is_byte bytes -> 0 <= off -> read_i64_advance bytes off what ctx = Ok (z, off') ->
  off' = off + 8 /\ in_i64 z /\ off + 8 <= blen bytes /\
  i64_bytes z = slice (Z.to_nat off) (Z.to_nat off + 8) bytes.
Proof.
  intros Hb Hoff. unfold read_i64_advance. checks. read_fields Hb. intros [= <- <-].
  assert (in_width U64 v) as Hv by done. apply wrap_to_i64 in Hv as [Hw Hi].
  split; [done|]. split; [done|]. split; [unfold blen; lia|]. unfold i64_bytes. rewrite Hw. done.
Qed.

Lemma read_u32_Ok bytes off what ctx z off' :
  Forall is_byte bytes -> 0 <= off -> read_u32_advance bytes off what ctx = Ok (z, off') ->
  off' = off + 4 /\ in_width U32 z /\ off + 4 <= blen bytes /\
  le_encode 4 z = slice (Z.to_nat off) (Z.to_nat off + 4) bytes.
Proof.
  intros Hb Hoff. unfold read_u32_advance. checks. read_fields Hb. intros [= <- <-].
  split; [done|]. split; [done|]. split; [unfold blen; lia|]. done.
Qed.

(** ** The codec *)

Definition sq_fits (p : SequenceOpPayload) : Prop :=
  in_width U32 (sq_seqrelid p) /\ utf8_valid (sq_name p) = true /\
  in_i64 (sq_start_value p) /\ in_i64 (sq_last_value p) /\ in_i64 (sq_min_value p) /\
  in_i64 (sq_max_value p) /\ in_i64 (sq_increment p) /\ in_width U32 (sq_cache_size p).

(** The sections of an encoded payload. *)
Definition sq_sections (p : SequenceOpPayload) : list (list Z) :=
  [le_encode 1 (SequenceOpKind_to_u8 (sq_op p)); le_encode 1 0; le_encode 1 0; le_encode 1 0;
   le_encode 4 (sq_seqrelid p); le_encode 4 (blen (sq_name p)); sq_name p;
   i64_bytes (sq_start_value p); i64_bytes (sq_last_value p); i64_bytes (sq_min_value p);
   i64_bytes (sq_max_value p); i64_bytes (sq_increment p); le_encode 4 (sq_cache_size p);
   le_encode 1 (bool_byte (sq_is_called p)); le_encode 1 (bool_byte (sq_cycle p)); le_encode 2 0].

#[export] Hint Unfold sq_sections i64_bytes : sections.

Lemma sq_encode_sections p bytes :
  SequenceOpPayload_encode p = Ok bytes ->
  bytes = concat (sq_sections p) /\ blen (sq_name p) <= MAX_VARIABLE_PAYLOAD_BYTES /\
  blen bytes = SQ_PREFIX + blen (sq_name p) + SQ_SUFFIX.
Proof.
  unfold SequenceOpPayload_encode. checks. intros <-%Ok_inj. split; [|split; [done|]].
  - unfold sq_sections. cbn [concat]. change (le_encode 3 0) with (le_encode 1 0 ++ le_encode 1 0 ++ le_encode 1 0).
    rewrite <- !app_assoc, app_nil_r. done.
  - unfold i64_bytes, SQ_PREFIX, SQ_SUFFIX. rewrite !blen_app, !blen_enc. lia.
Qed.

Lemma sq_roundtrip p bytes :
  sq_fits p -> SequenceOpPayload_encode p = Ok bytes -> SequenceOpPayload_decode bytes = Ok p.
Proof.
  intros (Hr & Hu & H1 & H2 & H3 & H4 & H5 & Hc) (-> & Hn & Hl)%sq_encode_sections.
  pose proof ceiling_U32 as Hce. unfold U32 in Hce. set (secs := sq_sections p) in *. assert (0 <= blen (sq_name p)) as Hn0 by (unfold blen; lia).
  unfold SequenceOpPayload_decode. rewrite Hl. unfold SQ_PREFIX, SQ_SUFFIX, U64, in_width, U32 in *.
  rewrite (proj2 (Z.ltb_ge _ _)) by lia.
  assert (is_byte (SequenceOpKind_to_u8 (sq_op p))) as Hop by (by destruct (sq_op p)).
  assert (is_byte (bool_byte (sq_is_called p)) /\ is_byte (bool_byte (sq_cycle p))) as [Hb1 Hb2]
    by (by destruct (sq_is_called p), (sq_cycle p)).
  rewrite (byte_at_sec secs (SequenceOpKind_to_u8 (sq_op p)) 0) by sec_side secs.
  rewrite SequenceOpKind_roundtrip.
  rewrite (byte_at_sec secs 0 1), (byte_at_sec secs 0 2), (byte_at_sec secs 0 3) by sec_side secs.
  cbn [Z.eqb negb orb].
  rewrite (field_sec secs 4 (sq_seqrelid p) 4) by sec_side secs.
  rewrite (field_sec secs 4 (blen (sq_name p)) 5) by sec_side secs.
  rewrite (proj2 (Z.ltb_ge _ _)) by done. rewrite !checked_offset_eq by (unfold U64; lia).
  rewrite Z.ltb_irrefl. rewrite (slice_sec secs (sq_name p) 6) by sec_side secs. rewrite Hu. cbn [negb].
  rewrite (read_i64_sec secs (sq_start_value p) 7) by sec_side secs.
  rewrite (read_i64_sec secs (sq_last_value p) 8) by sec_side secs.
  rewrite (read_i64_sec secs (sq_min_value p) 9) by sec_side secs.
  rewrite (read_i64_sec secs (sq_max_value p) 10) by sec_side secs.
  rewrite (read_i64_sec secs (sq_increment p) 11) by sec_side secs.
  rewrite (read_u32_sec secs (sq_cache_size p) 12) by sec_side secs.
  rewrite !checked_offset_eq by (unfold U64; lia).
  rewrite (byte_at_sec secs (bool_byte (sq_is_called p)) 13) by sec_side secs.
  rewrite (byte_at_sec secs (bool_byte (sq_cycle p)) 14) by sec_side secs.
  rewrite !bool_byte_roundtrip. rewrite (slice_sec secs (le_encode 2 0) 15) by sec_side secs.
  cbn [existsb le_encode Z.eqb]. change (0 mod 256) with 0. cbn [Z.eqb negb orb existsb]. change (0 / 256) with 0.
  change (0 mod 256) with 0. cbn [Z.eqb negb orb existsb].
  rewrite <- Hl at 1. rewrite require_exact_len_refl. by destruct p.
Qed.

(** Destruct the advancing reads of a decoder that succeeded. *)
Ltac read_advancing Hb :=
  repeat match goal with
  | |- (match read_i64_advance ?b ?o ?w ?c with Ok _ => _ | Err _ => _ end) = _ -> _ =>
      let z := fresh "z" in let E := fresh "E" in let L := fresh "L" in let B := fresh "B" in
      destruct (read_i64_advance b o w c) as [[z ?]|] eqn:E; [|done];
      apply read_i64_Ok in E as (-> & B & L & E); [|exact Hb|lia]
  | |- (match read_u32_advance ?b ?o ?w ?c with Ok _ => _ | Err _ => _ end) = _ -> _ =>
      let z := fresh "z" in let E := fresh "E" in let L := fresh "L" in let B := fresh "B" in
      destruct (read_u32_advance b o w c) as [[z ?]|] eqn:E; [|done];
      apply read_u32_Ok in E as (-> & B & L & E); [|exact Hb|lia]
  end.

Lemma existsb_zero2 bytes a b :
  (b <= length bytes)%nat -> b = (a + 2)%nat ->
  existsb (fun byte => negb (byte =? 0)) (slice a b bytes) = false -> slice a b bytes = le_encode 2 0.
Proof.
  intros Hb ->. pose proof (length_slice a (a + 2) bytes Hb) as Hl. revert Hl.
  generalize (slice a (a + 2) bytes). intros l Hl. destruct l as [|x [|y [|]]]; cbn in Hl; try lia.
  cbn. destruct (Z.eqb_spec x 0) as [->|]; [|done]. destruct (Z.eqb_spec y 0) as [->|]; [|done]. done.
Qed.

(** The suffix of a payload that decodes, section by section. *)
Lemma sq_suffix_split bytes n :
  (n + 48 = length bytes)%nat ->
  drop n bytes = slice n (n + 8) bytes ++ slice (n + 8) (n + 16) bytes ++ slice (n + 16) (n + 24) bytes
    ++ slice (n + 24) (n + 32) bytes ++ slice (n + 32) (n + 40) bytes ++ slice (n + 40) (n + 44) bytes
    ++ slice (n + 44) (n + 45) bytes ++ slice (n + 45) (n + 46) bytes ++ slice (n + 46) (n + 48) bytes.
Proof.
  intros Hl. rewrite <- !slice_split by lia. unfold slice. rewrite take_ge; [done|]. rewrite length_drop. lia.
Qed.

(** The prefix of a payload that decodes. *)
Lemma sq_prefix_split bytes e :
  (12 <= e <= length bytes)%nat ->
  bytes = slice 0 1 bytes ++ slice 1 2 bytes ++ slice 2 3 bytes ++ slice 3 4 bytes ++ slice 4 8 bytes
    ++ slice 8 12 bytes ++ slice 12 e bytes ++ drop e bytes.
Proof.
  intros He. rewrite !app_assoc. rewrite <- !slice_split by lia.
  unfold slice. rewrite drop_0, Nat.sub_0_r. by rewrite take_drop.
Qed.

Lemma sq_canonical p bytes :
  Forall is_byte bytes -> SequenceOpPayload_decode bytes = Ok p ->
  sq_fits p /\ SequenceOpPayload_encode p = Ok bytes.
Proof.
  intros Hb. unfold SequenceOpPayload_decode, SQ_PREFIX, SQ_SUFFIX. checks.
  destruct (SequenceOpKind_from_u8 _) as [op|] eqn:Eop; [|done]. apply SequenceOpKind_canonical in Eop.
  destruct (Z.eqb_spec (byte_at bytes 1) 0) as [Z1|]; [cbn [negb orb]|done].
  destruct (Z.eqb_spec (byte_at bytes 2) 0) as [Z2|]; [cbn [negb orb]|done].
  destruct (Z.eqb_spec (byte_at bytes 3) 0) as [Z3|]; [cbn [negb orb]|done].
  read_fields Hb. checks. destruct (utf8_valid _) eqn:Eu; [cbn [negb]|done].
  read_advancing Hb. checks. destruct (decode_bool_byte _ _) as [called|] eqn:Ec; [|done].
  destruct (decode_bool_byte (byte_at bytes _) "sequence_op cycle") as [cyc|] eqn:Ey; [|done].
  apply bool_byte_canonical in Ec, Ey. destruct (existsb _ _) eqn:Ez; [done|]. checks. intros <-%Ok_inj.
  set (n := Z.to_nat (12 + v0)). split.
  { unfold sq_fits. cbn [sq_seqrelid sq_name sq_start_value sq_last_value sq_min_value sq_max_value sq_increment
      sq_cache_size]. done. }
  assert (Hlen : (n + 48 = length bytes)%nat) by (unfold n, blen in *; lia).
  assert (Hname : blen (slice 12 n bytes) = v0).
  { unfold blen. rewrite length_slice by (unfold n, blen in *; lia). unfold n. lia. }
  unfold SequenceOpPayload_encode.
  cbn [sq_op sq_seqrelid sq_name sq_start_value sq_last_value sq_min_value sq_max_value sq_increment
      sq_cache_size sq_is_called sq_cycle]. rewrite Hname. pose proof ceiling_U32.
  rewrite (proj2 (Z.leb_gt _ _)), (proj2 (Z.ltb_ge _ _)) by lia. unfold SQ_PREFIX, SQ_SUFFIX.
  rewrite !checked_offset_eq by lia. f_equal.
  apply existsb_zero2 in Ez; [|unfold n, blen in *; lia|lia].
  assert (Hbyte : forall i, 0 <= i < blen bytes -> le_encode 1 (byte_at bytes i) = slice (Z.to_nat i) (Z.to_nat i + 1) bytes)
    by (intros i Hi; symmetry; by apply byte_at_slice).
  assert (Hres : le_encode 3 0 = slice 1 2 bytes ++ slice 2 3 bytes ++ slice 3 4 bytes).
  { change (le_encode 3 0) with (le_encode 1 0 ++ le_encode 1 0 ++ le_encode 1 0).
    f_equal; [|f_equal]; [rewrite <- Z1 at 1|rewrite <- Z2 at 1|rewrite <- Z3 at 1];
      apply Hbyte; lia. }
  rewrite Hres, Eop, Ec, Ey, <- Ez, E, E0, E1, E2, E3, E4, E5, E6. rewrite !Hbyte by lia.
  rewrite <- !app_assoc. etransitivity; [|symmetry; apply (sq_prefix_split bytes n); unfold n, blen in *; lia].
  rewrite (sq_suffix_split bytes n) by done. unfold n.
  repeat (apply (f_equal2 app); [f_equal; lia|]). f_equal; lia.
Qed.

#[global, program] Instance SequenceOpPayload_codec : PayloadCodec SequenceOpPayload := {|
  pc_encode := SequenceOpPayload_encode;
  pc_decode := SequenceOpPayload_decode;
  pc_fits := sq_fits;
  pc_legacy _ := False;
|}.
Next Obligation. exact sq_roundtrip. Qed.
Next Obligation. intros p bytes Hb H. apply sq_canonical in H as [? ?]; auto. Qed.
