(* ===== verification/Sequence.v ===== *)
(** * Sequence generators (ultrasql-storage, sequence.rs; ultrasql-server, recovery_target.rs)

    The state of a sequence, its operations, the WAL record each logged
    operation appends, and the redo of those records. A sequence is the pair
    of its two mutexes; the fallible operations return their result and the
    sequence they leave. The WAL sink is the trait object of [BTree]. *)

From S2P Require Import Prelude CoreIds WalRecord WalPayload WalPayloadIndex WalSink Bytes BtNode BtNodeSpec WalPayloadSequence.

(** [i64::MIN], [i64::MAX] and [i64::checked_add] *)
Definition I64_MIN : Z := - 2 ^ 63.
Definition I64_MAX : Z := 2 ^ 63 - 1.
Definition i64_checked_add (x y : Z) : option Z :=
  if (I64_MIN <=? x + y) && (x + y <=? I64_MAX) then Some (x + y) else None.

(** The reasons of [InvalidOptions], with the values their message names. *)
Inductive InvalidReason :=
| ZeroIncrement
| MinNotBelowMax (min max : Z)
| StartOutOfRange (start min max : Z).

Inductive SequenceError :=
| Exhausted
| NotCalled
| OutOfRange (value min max : Z)
| InvalidOptions (why : InvalidReason)
| SeqWal.

Record SequenceOptions := mk_SequenceOptions {
  opt_start : Z;
  opt_increment : Z;
  opt_min : option Z;
  opt_max : option Z;
  opt_cache : Z;
  opt_cycle : bool;
}.

Definition SequenceOptions_default : SequenceOptions := mk_SequenceOptions 1 1 None None 1 false.

Record SequenceState := mk_SequenceState {
  start_value : Z;
  last_value : Z;
  is_called : bool;
  min_value : Z;
  max_value : Z;
  increment : Z;
  cycle : bool;
  cache_size : Z;
}.

Record SequenceSnapshot := mk_SequenceSnapshot {
  snap_start_value : Z;
  snap_last_value : Z;
  snap_is_called : bool;
  snap_min_value : Z;
  snap_max_value : Z;
  snap_increment : Z;
  snap_cycle : bool;
  snap_cache_size : Z;
}.

Definition from_opts (opts : SequenceOptions) : result SequenceState SequenceError :=
  if opt_increment opts =? 0 then Err (InvalidOptions ZeroIncrement) else
  let ascending := 0 <? opt_increment opts in
  let min_value := default (if ascending then 1 else I64_MIN) (opt_min opts) in
  let max_value := default (if ascending then I64_MAX else -1) (opt_max opts) in
  if max_value <=? min_value then Err (InvalidOptions (MinNotBelowMax min_value max_value)) else
  let start := opt_start opts in
  if (start <? min_value) || (max_value <? start)
  then Err (InvalidOptions (StartOutOfRange start min_value max_value)) else
  let cache_size := Z.max (opt_cache opts) 1 in
  Ok (mk_SequenceState start start false min_value max_value (opt_increment opts) (opt_cycle opts) cache_size).

Definition from_snapshot (s : SequenceSnapshot) : result SequenceState SequenceError :=
  if snap_increment s =? 0 then Err (InvalidOptions ZeroIncrement) else
  if snap_max_value s <=? snap_min_value s
  then Err (InvalidOptions (MinNotBelowMax (snap_min_value s) (snap_max_value s))) else
  if (snap_start_value s <? snap_min_value s) || (snap_max_value s <? snap_start_value s)
  then Err (InvalidOptions (StartOutOfRange (snap_start_value s) (snap_min_value s) (snap_max_value s))) else
  if (snap_last_value s <? snap_min_value s) || (snap_max_value s <? snap_last_value s)
  then Err (OutOfRange (snap_last_value s) (snap_min_value s) (snap_max_value s)) else
  Ok (mk_SequenceState (snap_start_value s) (snap_last_value s) (snap_is_called s) (snap_min_value s)
        (snap_max_value s) (snap_increment s) (snap_cycle s) (Z.max (snap_cache_size s) 1)).

Definition snapshot (s : SequenceState) : SequenceSnapshot :=
  mk_SequenceSnapshot (start_value s) (last_value s) (is_called s) (min_value s) (max_value s)
    (increment s) (cycle s) (cache_size s).

(** The record update [self.last_value = value; self.is_called = called]. *)
Definition with_value (s : SequenceState) (value : Z) (called : bool) : SequenceState :=
  mk_SequenceState (start_value s) value called (min_value s) (max_value s) (increment s) (cycle s) (cache_size s).

(** [advance]: on an error the state is unchanged. *)
Definition advance (s : SequenceState) : result (Z * SequenceState) SequenceError :=
  let in_range v := (min_value s <=? v) && (v <=? max_value s) in
  if is_called s then
    let wrapped :=
      if cycle s then
        let value := if 0 <? increment s then min_value s else max_value s in
        Ok (value, with_value s value true)
      else Err Exhausted in
    match i64_checked_add (last_value s) (increment s) with
    | Some n => if in_range n then Ok (n, with_value s n true) else wrapped
    | None => wrapped
    end
  else Ok (last_value s, with_value s (last_value s) true).

(** ** The handle *)

Record Sequence := mk_Sequence { seq_state : SequenceState; seq_currval : option Z }.

Definition Sequence_new (opts : SequenceOptions) : result Sequence SequenceError :=
  let? state := from_opts opts in Ok (mk_Sequence state None).

Definition Sequence_from_snapshot (s : SequenceSnapshot) : result Sequence SequenceError :=
  let? state := from_snapshot s in Ok (mk_Sequence state None).

Definition nextval (q : Sequence) : result Z SequenceError * Sequence :=
  match advance (seq_state q) with
  | Ok (value, state) => (Ok value, mk_Sequence state (Some value))
  | Err e => (Err e, q)
  end.

Definition currval (q : Sequence) : result Z SequenceError := ok_or (seq_currval q) NotCalled.
Definition lastval (q : Sequence) : result Z SequenceError := currval q.

Definition setval (value : Z) (called : bool) (q : Sequence) : result unit SequenceError * Sequence :=
  let state := seq_state q in
  if (value <? min_value state) || (max_value state <? value)
  then (Err (OutOfRange value (min_value state) (max_value state)), q)
  else (Ok tt, mk_Sequence (with_value state value called) (if called then Some value else seq_currval q)).

Definition state_snapshot (q : Sequence) : SequenceSnapshot := snapshot (seq_state q).

Definition apply_snapshot (s : SequenceSnapshot) (q : Sequence) : result unit SequenceError * Sequence :=
  match from_snapshot s with
  | Ok next => (Ok tt, mk_Sequence next None)
  | Err e => (Err e, q)
  end.

Definition options_snapshot (q : Sequence) : SequenceOptions :=
  let state := seq_state q in
  mk_SequenceOptions (start_value state) (increment state) (Some (min_value state)) (Some (max_value state))
    (cache_size state) (cycle state).

Definition alter_options (opts : SequenceOptions) (restart : option Z) (q : Sequence)
  : result unit SequenceError * Sequence :=
  match from_opts opts with
  | Err e => (Err e, q)
  | Ok next =>
      let state := seq_state q in
      match restart with
      | Some value =>
          if (value <? min_value next) || (max_value next <? value)
          then (Err (OutOfRange value (min_value next) (max_value next)), q)
          else (Ok tt, mk_Sequence (with_value next value false) (seq_currval q))
      | None =>
          if (last_value state <? min_value next) || (max_value next <? last_value state)
          then (Err (OutOfRange (last_value state) (min_value next) (max_value next)), q)
          else (Ok tt, mk_Sequence (with_value next (last_value state) (is_called state)) (seq_currval q))
      end
  end.

(** ** WAL logging *)

Section logged.
Context {W : Type} (crc : Z -> list Z -> Z).

(** The payload [emit_wal] builds from a snapshot. *)
Definition seq_payload (op : SequenceOpKind) (name : list Z) (seqrelid : Z) (s : SequenceSnapshot)
  : SequenceOpPayload :=
  mk_SequenceOpPayload op seqrelid (to_ascii_lowercase name) (snap_start_value s) (snap_last_value s)
    (snap_min_value s) (snap_max_value s) (snap_increment s) (snap_cache_size s) (snap_is_called s) (snap_cycle s).

(** What follows the snapshot in [emit_wal]: encode, link and append. *)
Definition emit_snapshot (op : SequenceOpKind) (name : list Z) (seqrelid : Z) (xid : Xid) (sink : WalSink W)
  (s : SequenceSnapshot) (w : W) : result unit SequenceError * W :=
  match SequenceOpPayload_encode (seq_payload op name seqrelid s) with
  | Err _ => (Err SeqWal, w)
  | Ok payload =>
      let prev_lsn := last_lsn_for sink w xid in
      match WalRecord_new crc SequenceOp xid prev_lsn 0 payload with
      | Err _ => (Err SeqWal, w)
      | Ok record =>
          match sink_append sink w record with
          | (Ok _, w') => (Ok tt, w')
          | (Err _, w') => (Err SeqWal, w')
          end
      end
  end.

Definition emit_wal (op : SequenceOpKind) (name : list Z) (seqrelid : Z) (xid : Xid) (wal : option (WalSink W))
  (q : Sequence) (w : W) : result unit SequenceError * W :=
  match wal with
  | None => (Ok tt, w)
  | Some sink => emit_snapshot op name seqrelid xid sink (state_snapshot q) w
  end.

Definition nextval_logged (name : list Z) (seqrelid : Z) (xid : Xid) (wal : option (WalSink W))
  (q : Sequence) (w : W) : result Z SequenceError * Sequence * W :=
  match nextval q with
  | (Err e, q') => (Err e, q', w)
  | (Ok value, q') =>
      match emit_wal SAdvance name seqrelid xid wal q' w with
      | (Ok _, w') => (Ok value, q', w')
      | (Err e, w') => (Err e, q', w')
      end
  end.

Definition setval_logged (value : Z) (called : bool) (name : list Z) (seqrelid : Z) (xid : Xid)
  (wal : option (WalSink W)) (q : Sequence) (w : W) : result unit SequenceError * Sequence * W :=
  match setval value called q with
  | (Err e, q') => (Err e, q', w)
  | (Ok _, q') => let '(r, w') := emit_wal SSet name seqrelid xid wal q' w in (r, q', w')
  end.

Definition alter_options_logged (opts : SequenceOptions) (restart : option Z) (name : list Z) (seqrelid : Z)
  (xid : Xid) (wal : option (WalSink W)) (q : Sequence) (w : W) : result unit SequenceError * Sequence * W :=
  match alter_options opts restart q with
  | (Err e, q') => (Err e, q', w)
  | (Ok _, q') => let '(r, w') := emit_wal SAlter name seqrelid xid wal q' w in (r, q', w')
  end.
End logged.

(** ** Redo (recovery_target.rs)

    The sequences of the server, by lower-cased name; a refused record stops
    the replay. *)

Definition sequence_snapshot (p : SequenceOpPayload) : SequenceSnapshot :=
  mk_SequenceSnapshot (sq_start_value p) (sq_last_value p) (sq_is_called p) (sq_min_value p) (sq_max_value p)
    (sq_increment p) (sq_cycle p) (sq_cache_size p).

Definition apply_sequence_op (p : SequenceOpPayload) (sequences : gmap (list Z) Sequence)
  : result (gmap (list Z) Sequence) SequenceError :=
  let name := to_ascii_lowercase (sq_name p) in
  if decide (sq_op p = SDrop) then Ok (base.delete name sequences) else
  let snap := sequence_snapshot p in
  match sequences !! name with
  | Some existing =>
      match apply_snapshot snap existing with
      | (Ok _, existing') => Ok (<[name := existing']> sequences)
      | (Err e, _) => Err e
      end
  | None =>
      let? seq := Sequence_from_snapshot snap in
      Ok (<[name := seq]> sequences)
  end.

(** ** The invariant of a sequence *)

Definition in_bounds (s : SequenceState) (v : Z) : Prop := min_value s <= v <= max_value s.

Record seq_ok (s : SequenceState) : Prop := {
  so_increment : increment s <> 0 /\ in_i64 (increment s);
  so_limits : min_value s < max_value s /\ in_i64 (min_value s) /\ in_i64 (max_value s);
  so_start : in_bounds s (start_value s);
  so_last : in_bounds s (last_value s);
  so_cache : 1 <= cache_size s < U32;
}.

(** The values the types of [SequenceOptions] and [SequenceSnapshot] admit. *)
Definition opts_fit (o : SequenceOptions) : Prop :=
  in_i64 (opt_start o) /\ in_i64 (opt_increment o) /\
  (forall m, opt_min o = Some m -> in_i64 m) /\ (forall m, opt_max o = Some m -> in_i64 m) /\
  in_width U32 (opt_cache o).

Definition snap_fits (s : SequenceSnapshot) : Prop :=
  in_i64 (snap_increment s) /\ in_i64 (snap_min_value s) /\ in_i64 (snap_max_value s) /\
  in_width U32 (snap_cache_size s).

Lemma from_opts_ok o s : opts_fit o -> from_opts o = Ok s -> seq_ok s /\ start_value s = opt_start o /\
  last_value s = opt_start o /\ is_called s = false /\ increment s = opt_increment o /\ cycle s = opt_cycle o.
Proof.
  intros (H1 & H2 & H3 & H4 & H5). unfold from_opts.
  destruct (Z.eqb_spec (opt_increment o) 0); [done|].
  set (mn := default _ (opt_min o)). set (mx := default _ (opt_max o)).
  assert (in_i64 mn) as Hmn.
  { unfold mn. destruct (opt_min o); [by apply H3|]. cbn. destruct (0 <? opt_increment o); done. }
  assert (in_i64 mx) as Hmx.
  { unfold mx. destruct (opt_max o); [by apply H4|]. cbn. destruct (0 <? opt_increment o); done. }
  destruct (Z.leb_spec mx mn); [done|].
  destruct (Z.ltb_spec (opt_start o) mn); [done|]. destruct (Z.ltb_spec mx (opt_start o)); [done|].
  cbn [orb]. intros <-%Ok_inj. split; [|done]. unfold in_width, U32 in *.
  split; unfold in_bounds, U32; cbn [increment min_value max_value start_value last_value cache_size];
    first [done | lia | (split; [lia|]; done)].
Qed.

Lemma from_snapshot_ok p s : snap_fits p -> from_snapshot p = Ok s -> seq_ok s.
Proof.
  intros (H1 & H2 & H3 & H4). unfold from_snapshot.
  destruct (Z.eqb_spec (snap_increment p) 0); [done|].
  destruct (Z.leb_spec (snap_max_value p) (snap_min_value p)); [done|].
  destruct (Z.ltb_spec (snap_start_value p) (snap_min_value p)); [done|].
  destruct (Z.ltb_spec (snap_max_value p) (snap_start_value p)); [done|].
  destruct (Z.ltb_spec (snap_last_value p) (snap_min_value p)); [done|].
  destruct (Z.ltb_spec (snap_max_value p) (snap_last_value p)); [done|].
  cbn [orb]. intros <-%Ok_inj. unfold in_width, U32 in *.
  split; unfold in_bounds, U32; cbn [increment min_value max_value start_value last_value cache_size];
    first [done | lia].
Qed.

(** A well-formed state is a fixed point of its own snapshot. *)
Lemma from_snapshot_snapshot s : seq_ok s -> from_snapshot (snapshot s) = Ok s.
Proof.
  intros [[Hi _] (Hm & _) Hs Hl Hc]. unfold from_snapshot, snapshot, in_bounds in *.
  cbn [snap_increment snap_min_value snap_max_value snap_start_value snap_last_value snap_is_called snap_cycle
    snap_cache_size].
  rewrite (proj2 (Z.eqb_neq _ _)) by done. rewrite (proj2 (Z.leb_gt _ _)) by lia.
  rewrite !(proj2 (Z.ltb_ge _ _)) by lia. cbn [orb]. rewrite Z.max_l by lia. by destruct s.
Qed.

Lemma with_value_ok s v c : seq_ok s -> in_bounds s v -> seq_ok (with_value s v c).
Proof. intros [] Hv. by split. Qed.

(** ** The steps between the values *)

(** How many times the increment still fits after [v], and where a cycle restarts. *)
Definition room (s : SequenceState) (v : Z) : Z :=
  if 0 <? increment s then (max_value s - v) / increment s else (v - min_value s) / (- increment s).
Definition cycle_base (s : SequenceState) : Z := if 0 <? increment s then min_value s else max_value s.

Lemma div_step a d : 0 < d -> (a - d) / d = a / d - 1.
Proof. intros Hd. replace (a - d) with (a + (-1) * d) by lia. rewrite Z.div_add by lia. lia. Qed.

Lemma room_nonneg s v : seq_ok s -> in_bounds s v -> 0 <= room s v.
Proof.
  intros [[Hi _] _ _ _ _] Hv. unfold room, in_bounds in *.
  destruct (Z.ltb_spec 0 (increment s)); apply Z.div_pos; lia.
Qed.

Lemma room_step s v : increment s <> 0 -> room s (v + increment s) = room s v - 1.
Proof.
  intros Hi. unfold room. destruct (Z.ltb_spec 0 (increment s)); rewrite <- div_step by lia; f_equal; lia.
Qed.

(** The next value is in bounds exactly when there is room for it. *)
Lemma room_in_bounds s v :
  seq_ok s -> in_bounds s v -> 1 <= room s v <-> in_bounds s (v + increment s).
Proof.
  intros [[Hi _] _ _ _ _] Hv. unfold room, in_bounds in *. destruct (Z.ltb_spec 0 (increment s)).
  - split; intros H'.
    + pose proof (Z.mul_div_le (max_value s - v) (increment s)). nia.
    + apply Z.div_le_lower_bound; lia.
  - split; intros H'.
    + pose proof (Z.mul_div_le (v - min_value s) (- increment s)). nia.
    + apply Z.div_le_lower_bound; lia.
Qed.

Lemma cycle_base_ok s : seq_ok s -> in_bounds s (cycle_base s).
Proof. intros [_ (H & _) _ _ _]. unfold cycle_base, in_bounds. destruct (0 <? increment s); lia. Qed.

(** [advance] on a sequence that was called: the overflow check never decides. *)
Lemma advance_called s :
  seq_ok s -> is_called s = true ->
  advance s =
    if 1 <=? room s (last_value s) then Ok (last_value s + increment s, with_value s (last_value s + increment s) true)
    else if cycle s then Ok (cycle_base s, with_value s (cycle_base s) true) else Err Exhausted.
Proof.
  intros Hok Hc. pose proof (so_last _ Hok) as Hl. pose proof (room_in_bounds s _ Hok Hl) as Hr.
  destruct (so_limits _ Hok) as (_ & Hmn & Hmx). unfold advance. rewrite Hc. fold (cycle_base s).
  unfold i64_checked_add, I64_MIN, I64_MAX, in_i64, in_bounds in *.
  destruct (Z.leb_spec 1 (room s (last_value s))) as [H1|H1].
  - apply Hr in H1. rewrite (proj2 (Z.leb_le (- 2 ^ 63) _)), (proj2 (Z.leb_le _ (2 ^ 63 - 1))) by lia. cbn [andb].
    rewrite !(proj2 (Z.leb_le _ _)) by lia. done.
  - destruct (Z.leb_spec (- 2 ^ 63) (last_value s + increment s)); [|by destruct (cycle s)].
    destruct (Z.leb_spec (last_value s + increment s) (2 ^ 63 - 1)); [|by destruct (cycle s)]. cbn [andb].
    destruct (Z.leb_spec (min_value s) (last_value s + increment s)); cbn [andb]; [|by destruct (cycle s)].
    destruct (Z.leb_spec (last_value s + increment s) (max_value s)); [lia|by destruct (cycle s)].
Qed.

Lemma advance_ok s v s' :
  seq_ok s -> advance s = Ok (v, s') -> in_bounds s v /\ s' = with_value s v true /\ seq_ok s'.
Proof.
  intros Hok. pose proof (so_last _ Hok) as Hl. destruct (is_called s) eqn:Hc.
  - rewrite advance_called by done. destruct (Z.leb_spec 1 (room s (last_value s))) as [H1|].
    + apply room_in_bounds in H1; [|done|done]. intros [= <- <-]. auto using with_value_ok.
    + pose proof (cycle_base_ok s Hok). destruct (cycle s); [|done]. intros [= <- <-]. auto using with_value_ok.
  - unfold advance. rewrite Hc. intros [= <- <-]. auto using with_value_ok.
Qed.

(** ** Runs of a handle *)

Inductive SeqCall :=
| CNextval
| CSetval (value : Z) (called : bool)
| CAlter (opts : SequenceOptions) (restart : option Z)
| CApply (snap : SequenceSnapshot).

Definition call_fits (c : SeqCall) : Prop :=
  match c with
  | CNextval | CSetval _ _ => True
  | CAlter opts _ => opts_fit opts
  | CApply snap => snap_fits snap
  end.

Definition seq_call (c : SeqCall) (q : Sequence) : Sequence :=
  match c with
  | CNextval => snd (nextval q)
  | CSetval value called => snd (setval value called q)
  | CAlter opts restart => snd (alter_options opts restart q)
  | CApply snap => snd (apply_snapshot snap q)
  end.

Definition seq_calls (cs : list SeqCall) (q : Sequence) : Sequence := fold_left (fun q c => seq_call c q) cs q.

(** The results of [n] calls of [nextval]. *)
Fixpoint nextvals (n : nat) (q : Sequence) : list (result Z SequenceError) :=
  match n with
  | O => []
  | Datatypes.S n' => let '(r, q') := nextval q in r :: nextvals n' q'
  end.

Lemma setval_ok v c q : seq_ok (seq_state q) -> seq_ok (seq_state (snd (setval v c q))).
Proof.
  intros Hq. unfold setval. destruct (Z.ltb_spec v (min_value (seq_state q))); [done|].
  destruct (Z.ltb_spec (max_value (seq_state q)) v); [done|]. cbn. apply with_value_ok; [done|]. by unfold in_bounds.
Qed.

Lemma alter_ok opts restart q :
  opts_fit opts -> seq_ok (seq_state q) -> seq_ok (seq_state (snd (alter_options opts restart q))).
Proof.
  intros Ho Hq. unfold alter_options. destruct (from_opts opts) as [s|] eqn:E; [|done].
  apply from_opts_ok in E as (Hs & _); [|done].
  assert (forall v c, (v <? min_value s) || (max_value s <? v) = false -> seq_ok (with_value s v c)) as Hv.
  { intros v c Hvs. apply orb_false_elim in Hvs as [?%Z.ltb_ge ?%Z.ltb_ge]. by apply with_value_ok. }
  destruct restart; destruct (_ || _) eqn:E; cbn; auto.
Qed.

Lemma seq_call_ok c q : call_fits c -> seq_ok (seq_state q) -> seq_ok (seq_state (seq_call c q)).
Proof.
  intros Hc Hq. destruct c as [|v b|opts restart|snap]; cbn [seq_call].
  - unfold nextval. destruct (advance (seq_state q)) as [[v s]|] eqn:E; [|done]. by eapply advance_ok.
  - by apply setval_ok.
  - by apply alter_ok.
  - unfold apply_snapshot. destruct (from_snapshot snap) eqn:E; [|done]. by eapply from_snapshot_ok.
Qed.

Lemma seq_calls_ok cs q : Forall call_fits cs -> seq_ok (seq_state q) -> seq_ok (seq_state (seq_calls cs q)).
Proof.
  intros Hc. revert q. induction Hc as [|c cs H _ IH]; intros q Hq; [done|]. cbn. by apply IH, seq_call_ok.
Qed.

(** C31. Whatever calls are made on a sequence that was created, with any
    arguments their types admit, a value [nextval] returns is within the
    bounds in force and is an [i64], the next call of [currval] returns it,
    and an error leaves the sequence as it was. *)
Theorem nextval_in_bounds opts cs q0 :
  opts_fit opts -> Sequence_new opts = Ok q0 -> Forall call_fits cs ->
  let q := seq_calls cs q0 in
  seq_ok (seq_state q) /\
  match nextval q with
  | (Ok v, q') => min_value (seq_state q) <= v <= max_value (seq_state q) /\ in_i64 v /\ currval q' = Ok v
  | (Err e, q') => e = Exhausted /\ q' = q
  end.
Proof.
  intros Ho Hn Hc q. assert (Hok : seq_ok (seq_state q)).
  { apply seq_calls_ok; [done|]. unfold Sequence_new in Hn. destruct (from_opts opts) eqn:E; [|done].
    apply from_opts_ok in E as [? _]; [|done]. by injection Hn as <-. }
  split; [done|]. unfold nextval. destruct (advance (seq_state q)) as [[v s']|e] eqn:E.
  - apply advance_ok in E as (Hv & -> & _); [|done]. destruct (so_limits _ Hok) as (_ & H1 & H2).
    unfold in_bounds, in_i64 in *. split; [done|]. split; [lia|done].
  - split; [|done]. destruct (is_called (seq_state q)) eqn:Ec.
    + rewrite advance_called in E by done. repeat case_match; congruence.
    + unfold advance in E. rewrite Ec in E. done.
Qed.

Lemma nextval_in_bounds_witness :
  opts_fit (mk_SequenceOptions 1 3 None (Some 10) 1 true) /\
  exists q0, Sequence_new (mk_SequenceOptions 1 3 None (Some 10) 1 true) = Ok q0 /\
  let q := seq_calls [CNextval; CSetval 9 true] q0 in
  seq_ok (seq_state q) /\
  match nextval q with
  | (Ok v, q') => min_value (seq_state q) <= v <= max_value (seq_state q) /\ in_i64 v /\ currval q' = Ok v
  | (Err e, q') => e = Exhausted /\ q' = q
  end.
Proof.
  assert (opts_fit (mk_SequenceOptions 1 3 None (Some 10) 1 true)) as Ho.
  { unfold opts_fit, in_i64, in_width, U32. cbn. repeat split; try lia; intros; simplify_eq; lia. }
  split; [done|]. eexists. split; [reflexivity|].
  apply (nextval_in_bounds (mk_SequenceOptions 1 3 None (Some 10) 1 true)); [done|reflexivity|by repeat constructor].
Defined.

(** ** The values of a fresh sequence in closed form *)

Definition nth_value (s : SequenceState) (i : Z) : option Z :=
  if i <=? room s (start_value s) then Some (start_value s + i * increment s)
  else if cycle s
  then Some (cycle_base s + ((i - room s (start_value s) - 1) mod (room s (cycle_base s) + 1)) * increment s)
  else None.

(** The state after the value of index [i]: the last value issued is the
    [i]-th, or the sequence is exhausted at its last one. *)
Definition at_index (s0 : SequenceState) (i : Z) (s : SequenceState) : Prop :=
  seq_ok s /\ s = with_value s0 (last_value s) true /\
  match nth_value s0 i with
  | Some v => last_value s = v
  | None => room s (last_value s) = 0
  end.

Lemma room_with s v c x : room (with_value s v c) x = room s x.
Proof. done. Qed.

Lemma room_iter s v k : increment s <> 0 -> room s (v + k * increment s) = room s v - k.
Proof.
  intros Hi. unfold room. destruct (Z.ltb_spec 0 (increment s)).
  - replace (max_value s - (v + k * increment s)) with (max_value s - v + (- k) * increment s) by lia.
    rewrite Z.div_add by lia. lia.
  - replace (v + k * increment s - min_value s) with (v - min_value s + (- k) * (- increment s)) by lia.
    rewrite Z.div_add by lia. lia.
Qed.

(** The successor of the [i]-th value is the next one of the closed form. *)
Lemma nth_value_step s0 i :
  seq_ok s0 -> 0 <= i ->
  nth_value s0 (i + 1) =
    match nth_value s0 i with
    | Some v => if 1 <=? room s0 v then Some (v + increment s0) else if cycle s0 then Some (cycle_base s0) else None
    | None => None
    end.
Proof.
  intros Hok Hi. destruct (so_increment _ Hok) as [Hinc _]. unfold nth_value.
  pose proof (room_nonneg s0 _ Hok (so_start _ Hok)) as HR.
  pose proof (room_nonneg s0 _ Hok (cycle_base_ok _ Hok)) as HP.
  set (R := room s0 (start_value s0)) in *. set (P := room s0 (cycle_base s0)) in *.
  destruct (Z.leb_spec i R).
  - rewrite room_iter by done. fold R. destruct (Z.leb_spec (i + 1) R).
    + rewrite (proj2 (Z.leb_le _ _)) by lia. f_equal. lia.
    + rewrite (proj2 (Z.leb_gt _ _)) by lia. destruct (cycle s0); [|done]. f_equal.
      replace (i + 1 - R - 1) with 0 by lia. rewrite Z.mod_0_l by lia. lia.
  - rewrite (proj2 (Z.leb_gt _ _)) by lia. destruct (cycle s0); [|done].
    rewrite room_iter by done. fold P. set (m := (i - R - 1) mod (P + 1)).
    assert (0 <= m < P + 1) by (apply Z.mod_pos_bound; lia).
    assert (Hm : (i + 1 - R - 1) mod (P + 1) = (m + 1) mod (P + 1)).
    { unfold m. rewrite Z.add_mod_idemp_l by lia. f_equal. lia. }
    rewrite Hm. destruct (Z.leb_spec 1 (P - m)).
    + f_equal. rewrite Z.mod_small by lia. lia.
    + f_equal. replace (m + 1) with (P + 1) by lia. rewrite Z.mod_same by lia. lia.
Qed.

Lemma nextval_at s0 i q :
  seq_ok s0 -> 0 <= i -> at_index s0 i (seq_state q) ->
  fst (nextval q) = ok_or (nth_value s0 (i + 1)) Exhausted /\
  at_index s0 (i + 1) (seq_state (snd (nextval q))).
Proof.
  intros Hok Hi (Hs & Heq & Hat). set (s := seq_state q) in *.
  assert (Hr : forall v, room s v = room s0 v) by (intros; by rewrite Heq).
  assert (is_called s = true /\ increment s = increment s0 /\ cycle s = cycle s0 /\ cycle_base s = cycle_base s0)
    as (Hc & Hinc & Hcy & Hba) by (by rewrite Heq).
  unfold at_index. rewrite nth_value_step by done.
  unfold nextval. fold s. pose proof (advance_called s Hs Hc) as Ha.
  destruct (nth_value s0 i) as [v|] eqn:Ei.
  - rewrite Hat, Hr, Hinc, Hcy, Hba in Ha. destruct (Z.leb_spec 1 (room s0 v)).
    + rewrite Ha. cbn. pose proof (advance_ok _ _ _ Hs Ha) as (_ & _ & Hs'). split; [done|]. split; [done|].
      split; [|done]. rewrite Heq. done.
    + destruct (cycle s0).
      * rewrite Ha. cbn. pose proof (advance_ok _ _ _ Hs Ha) as (_ & _ & Hs'). split; [done|]. split; [done|].
        split; [|done]. rewrite Heq. done.
      * rewrite Ha. cbn. fold s. split; [done|]. split; [done|]. split; [done|].
        pose proof (room_nonneg s _ Hs (so_last _ Hs)) as H0. rewrite Hat, Hr in *. lia.
  - assert (cycle s0 = false) as Hcf.
    { unfold nth_value in Ei. destruct (_ <=? _); [done|]. by destruct (cycle s0). }
    rewrite Hat, Hcy, Hcf in Ha. cbn in Ha. rewrite Ha. cbn. fold s. done.
Qed.

Lemma nextvals_at n : forall s0 i q,
  seq_ok s0 -> 0 <= i -> at_index s0 i (seq_state q) ->
  nextvals n q = map (fun k => ok_or (nth_value s0 (i + 1 + Z.of_nat k)) Exhausted) (seq 0 n).
Proof.
  induction n as [|n IH]; intros s0 i q Hok Hi Hat; [done|].
  destruct (nextval_at s0 i q Hok Hi Hat) as [Hv Hat']. cbn [nextvals seq map].
  destruct (nextval q) as [r q'] eqn:E. cbn in Hv, Hat'. f_equal; [by rewrite Z.add_0_r|].
  rewrite (IH s0 (i + 1)) by (done || lia). rewrite <- seq_shift, map_map. apply map_ext. intros k.
  do 2 f_equal. lia.
Qed.

(** The values of a fresh sequence in closed form: the calls return
    [start], [start + increment], ... while the value is within the bounds;
    then every call fails with [Exhausted], or, for a cycling sequence, the
    values restart at the minimum (maximum when descending) and repeat with
    the period of that range. *)
Theorem nextvals_closed_form opts q n :
  opts_fit opts -> Sequence_new opts = Ok q ->
  nextvals n q = map (fun k => ok_or (nth_value (seq_state q) (Z.of_nat k)) Exhausted) (seq 0 n).
Proof.
  intros Ho Hn. unfold Sequence_new in Hn. destruct (from_opts opts) as [s|] eqn:E; [|done]. injection Hn as <-.
  apply from_opts_ok in E as (Hok & Hst & Hla & Hc & Hi & Hcy); [|done]. cbn [seq_state].
  destruct n as [|n]; [done|]. cbn [nextvals]. unfold nextval, advance. cbn [seq_state]. rewrite Hc. cbn [seq map].
  pose proof (room_nonneg s _ Hok (so_start _ Hok)) as HR.
  assert (Hz : nth_value s 0 = Some (last_value s)).
  { unfold nth_value. rewrite (proj2 (Z.leb_le _ _)) by lia. f_equal. rewrite Hst, Hla. lia. }
  change (Z.of_nat 0) with 0. rewrite Hz. f_equal.
  rewrite (nextvals_at n s 0); [|done|lia|].
  - rewrite <- seq_shift, map_map. apply map_ext. intros k. do 2 f_equal. lia.
  - cbn [seq_state]. split; [|split; [done|]].
    + apply with_value_ok; [done|]. apply (so_last _ Hok).
    + rewrite Hz. done.
Qed.

Lemma nextvals_closed_form_witness :
  nextvals 6 (mk_Sequence (mk_SequenceState 10 10 false 1 10 (-4) true 1) None)
  = [Ok 10; Ok 6; Ok 2; Ok 10; Ok 6; Ok 2].
Proof.
  rewrite (nextvals_closed_form (mk_SequenceOptions 10 (-4) (Some 1) (Some 10) 1 true)).
  - reflexivity.
  - unfold opts_fit, in_i64, in_width, U32. cbn. repeat split; try lia; intros; simplify_eq; lia.
  - reflexivity.
Defined.
