(* ===== verification/SequenceRedo.v ===== *)
(** * Logged sequences: redo and concurrent callers

    The server's table of sequences under its logged operations, and what the
    redo of the log rebuilds ([apply_sequence_op] of recovery_target.rs). The
    second half interleaves callers of [nextval_logged] at its three
    atomic parts: the advance and the snapshot each hold the state's mutex, the
    append is serialised by the sink. *)

From S2P Require Import Prelude CoreIds WalRecord WalPayload WalPayloadIndex WalSink Bytes BtNode BtNodeSpec WalPayloadSequence Sequence.

Abbreviation Table := (@gmap (list Z) list_eq_dec list_countable Sequence).

(** ** Replaying a log *)

(** The dispatch of one record, as far as it concerns sequences; [None] is a
    replay that stops. *)
Definition redo_record (r : WalRecord) (tbl : Table) : option Table :=
  match record_type (rec_header r) with
  | SequenceOp =>
      match SequenceOpPayload_decode (rec_payload r) with
      | Ok p => match apply_sequence_op p tbl with Ok tbl' => Some tbl' | Err _ => None end
      | Err _ => None
      end
  | _ => Some tbl
  end.

Fixpoint redo (log : list WalRecord) (tbl : Table) : option Table :=
  match log with
  | [] => Some tbl
  | r :: log' => match redo_record r tbl with Some tbl' => redo log' tbl' | None => None end
  end.

Lemma redo_app l1 l2 tbl : redo (l1 ++ l2) tbl = match redo l1 tbl with Some t => redo l2 t | None => None end.
Proof. revert tbl. induction l1 as [|r l1 IH]; intros tbl; cbn; [done|]. by destruct (redo_record r tbl). Qed.

(** ** The table under logged operations *)

Section table.
Context {W : Type} (crc : Z -> list Z -> Z) (sink : WalSink W) (log_of : W -> list WalRecord) (xid : Xid).

(** Documented behaviour of a sink: an accepted record is at the end of its log. *)
Definition sink_keeps : Prop :=
  forall w r lsn w', sink_append sink w r = (Ok lsn, w') -> log_of w' = log_of w ++ [r].

Inductive TableOp :=
| TCreate (name : list Z) (seqrelid : Z) (opts : SequenceOptions)
| TNextval (name : list Z)
| TSetval (name : list Z) (value : Z) (called : bool)
| TAlter (name : list Z) (opts : SequenceOptions) (restart : option Z)
| TDrop (name : list Z).

(** Store what a logged call left; a WAL failure ends the run. *)
Definition commit_call {A : Type} (name : list Z) (tbl : Table) (r : result A SequenceError * Sequence * W)
  : option (Table * W) :=
  match r with
  | (Err SeqWal, _, _) => None
  | (_, q', w') => Some (<[name := q']> tbl, w')
  end.

Definition table_op (op : TableOp) (tbl : Table) (w : W) : option (Table * W) :=
  match op with
  | TCreate name seqrelid opts =>
      match tbl !! name, Sequence_new opts with
      | None, Ok q =>
          match emit_wal crc SCreate name seqrelid xid (Some sink) q w with
          | (Ok _, w') => Some (<[name := q]> tbl, w')
          | (Err _, _) => None
          end
      | _, _ => Some (tbl, w)
      end
  | TNextval name =>
      match tbl !! name with
      | Some q => commit_call name tbl (nextval_logged crc name 0 xid (Some sink) q w)
      | None => Some (tbl, w)
      end
  | TSetval name value called =>
      match tbl !! name with
      | Some q => commit_call name tbl (setval_logged crc value called name 0 xid (Some sink) q w)
      | None => Some (tbl, w)
      end
  | TAlter name opts restart =>
      match tbl !! name with
      | Some q => commit_call name tbl (alter_options_logged crc opts restart name 0 xid (Some sink) q w)
      | None => Some (tbl, w)
      end
  | TDrop name =>
      match tbl !! name with
      | Some q =>
          match emit_wal crc SDrop name 0 xid (Some sink) q w with
          | (Ok _, w') => Some (base.delete name tbl, w')
          | (Err _, _) => None
          end
      | None => Some (tbl, w)
      end
  end.

Fixpoint table_run (ops : list TableOp) (tbl : Table) (w : W) : option (Table * W) :=
  match ops with
  | [] => Some (tbl, w)
  | op :: ops' => match table_op op tbl w with Some (tbl', w') => table_run ops' tbl' w' | None => None end
  end.

(** The keys of the table are lower-cased valid strings, the options [i64]s. *)
Definition key_ok (name : list Z) : Prop := to_ascii_lowercase name = name /\ utf8_valid name = true.

Definition op_fits (op : TableOp) : Prop :=
  match op with
  | TCreate name seqrelid opts => key_ok name /\ in_width U32 seqrelid /\ opts_fit opts
  | TNextval name | TSetval name _ _ | TDrop name => key_ok name
  | TAlter name opts _ => key_ok name /\ opts_fit opts
  end.

(** ** What an emitted record redoes *)

Lemma emit_record op name seqrelid q w w' :
  sink_keeps -> key_ok name -> in_width U32 seqrelid -> seq_ok (seq_state q) ->
  emit_wal crc op name seqrelid xid (Some sink) q w = (Ok tt, w') ->
  exists r, log_of w' = log_of w ++ [r] /\ record_type (rec_header r) = SequenceOp /\
  SequenceOpPayload_decode (rec_payload r) = Ok (seq_payload op name seqrelid (state_snapshot q)).
Proof.
  intros Hk [Hlo Hu] Hr [[_ Hi] (_ & Hmn & Hmx) Hs Hl Hc]. cbn [emit_wal]. unfold emit_snapshot.
  destruct (SequenceOpPayload_encode _) as [bytes|] eqn:E; [|done].
  destruct (WalRecord_new _ _ _ _ _ _) as [r|] eqn:Er; [|done].
  destruct (sink_append _ _ _) as [[lsn|] w1] eqn:Ea; [|done]. intros [= <-]. exists r.
  split; [by eapply Hk|]. unfold WalRecord_new in Er. destruct (build_header _ _ _ _ _ _) as [h|] eqn:Eh; [|done].
  injection Er as <-. cbn [rec_header rec_payload].
  split; [unfold build_header in Eh; repeat case_match; by simplify_eq|].
  eapply sq_roundtrip; [|exact E]. unfold in_bounds, in_i64, in_width, U32 in *.
  unfold sq_fits, seq_payload, state_snapshot, snapshot, in_i64, in_width, U32.
  cbn [sq_seqrelid sq_name sq_start_value sq_last_value sq_min_value sq_max_value sq_increment sq_cache_size
    snap_start_value snap_last_value snap_min_value snap_max_value snap_increment snap_cache_size].
  rewrite lowercase_utf8. repeat split; try done; lia.
Qed.

(** Redoing a record that carries a state installs it. *)
Lemma redo_state op name seqrelid q tbl :
  key_ok name -> seq_ok (seq_state q) -> op <> SDrop ->
  exists cur, apply_sequence_op (seq_payload op name seqrelid (state_snapshot q)) tbl
              = Ok (<[name := mk_Sequence (seq_state q) cur]> tbl).
Proof.
  intros [Hlo _] Hok Hop. unfold apply_sequence_op. cbn [sq_name sq_op seq_payload]. rewrite !Hlo.
  rewrite decide_False by done.
  change (sequence_snapshot _) with (snapshot (seq_state q)).
  unfold apply_snapshot, Sequence_from_snapshot. rewrite from_snapshot_snapshot by done.
  exists None. by destruct (tbl !! name).
Qed.

Lemma redo_drop name seqrelid q tbl :
  key_ok name ->
  apply_sequence_op (seq_payload SDrop name seqrelid (state_snapshot q)) tbl = Ok (base.delete name tbl).
Proof. intros [Hlo _]. unfold apply_sequence_op. cbn [sq_name sq_op seq_payload]. by rewrite !Hlo. Qed.

(** ** The invariant of a run *)

Definition same_states (t1 t2 : Table) : Prop := forall name, seq_state <$> t1 !! name = seq_state <$> t2 !! name.

Record logged_inv (tbl : Table) (w : W) : Prop := {
  li_ok : map_Forall (fun _ q => seq_ok (seq_state q)) tbl;
  li_redo : exists tbl', redo (log_of w) ∅ = Some tbl' /\ same_states tbl' tbl;
}.

Lemma same_states_insert t1 t2 name q1 q2 :
  same_states t1 t2 -> seq_state q1 = seq_state q2 -> same_states (<[name := q1]> t1) (<[name := q2]> t2).
Proof.
  intros H Hq n. destruct (decide (n = name)) as [->|]; [rewrite !lookup_insert_eq; cbn; by rewrite Hq|].
  by rewrite !lookup_insert_ne.
Qed.

Lemma same_states_delete t1 t2 name :
  same_states t1 t2 -> same_states (base.delete name t1) (base.delete name t2).
Proof.
  intros H n. destruct (decide (n = name)) as [->|]; [by rewrite !lookup_delete_eq|]. by rewrite !lookup_delete_ne.
Qed.

(** An emitted state extends the invariant. *)
Lemma emit_inv op name seqrelid q tbl w w' :
  sink_keeps -> logged_inv tbl w -> key_ok name -> in_width U32 seqrelid -> seq_ok (seq_state q) -> op <> SDrop ->
  emit_wal crc op name seqrelid xid (Some sink) q w = (Ok tt, w') -> logged_inv (<[name := q]> tbl) w'.
Proof.
  intros Hk [Hok (t & Hredo & Hsame)] Hn Hr Hq Hop He.
  destruct (emit_record _ _ _ _ _ _ Hk Hn Hr Hq He) as (r & Hlog & Hty & Hdec).
  destruct (redo_state op name seqrelid q t Hn Hq Hop) as [cur Hap]. split.
  - by apply map_Forall_insert_2.
  - exists (<[name := mk_Sequence (seq_state q) cur]> t). split; [|by apply same_states_insert].
    rewrite Hlog, redo_app, Hredo. cbn [redo]. unfold redo_record. rewrite Hty, Hdec, Hap. done.
Qed.

(** A call that failed before logging left the sequence as it was. *)
Lemma unchanged_inv tbl w name q : logged_inv tbl w -> tbl !! name = Some q -> logged_inv (<[name := q]> tbl) w.
Proof. intros H Hq. by rewrite insert_id. Qed.

(** The state a call leaves is the one its record carries. *)
Lemma commit_inv {A : Type} op name q (tbl : Table) w (r : result A SequenceError) q' w' tbl' w'' :
  sink_keeps -> logged_inv tbl w -> key_ok name -> tbl !! name = Some q -> op <> SDrop ->
  (r = Err SeqWal \/ (q' = q /\ w' = w) \/
   (seq_ok (seq_state q') /\ emit_wal crc op name 0 xid (Some sink) q' w = (Ok tt, w'))) ->
  commit_call name tbl (r, q', w') = Some (tbl', w'') -> logged_inv tbl' w''.
Proof.
  intros Hk Hinv Hn Hq Hop Hr Hc.
  assert (Hc' : r <> Err SeqWal /\ tbl' = <[name := q']> tbl /\ w'' = w').
  { destruct r as [|[]]; cbn in Hc; simplify_eq; auto. }
  destruct Hc' as (Hne & -> & ->). destruct Hr as [|[[-> ->]|[Hok He]]]; [done|by apply unchanged_inv|].
  eapply (emit_inv op name 0); eauto. done.
Qed.

Lemma emit_result op name seqrelid q w r w' :
  emit_wal crc op name seqrelid xid (Some sink) q w = (r, w') -> r = Ok tt \/ r = Err SeqWal.
Proof. cbn. unfold emit_snapshot. intros H. repeat case_match; simplify_eq; auto. Qed.

Lemma nextval_state q r q' : nextval q = (r, q') -> seq_ok (seq_state q) ->
  match r with Ok _ => seq_ok (seq_state q') | Err e => q' = q end.
Proof.
  unfold nextval. destruct (advance (seq_state q)) as [[v s]|] eqn:E; intros [= <- <-] Hok; [|done].
  cbn. by eapply advance_ok.
Qed.

Lemma table_op_inv op tbl w tbl' w' :
  sink_keeps -> op_fits op -> logged_inv tbl w -> table_op op tbl w = Some (tbl', w') -> logged_inv tbl' w'.
Proof.
  intros Hk Hf Hinv. pose proof (li_ok _ _ Hinv) as Hall.
  destruct op as [name rel opts|name|name v c|name opts restart|name]; cbn [op_fits table_op] in *.
  - destruct Hf as (Hn & Hr & Ho). destruct (tbl !! name) eqn:El; [by intros [= <- <-]|].
    destruct (Sequence_new opts) as [q|] eqn:Eq; [|by intros [= <- <-]].
    destruct (emit_wal _ _ _ _ _ _ _ _) as [[[]|] w1] eqn:E; [|done]. intros [= <- <-].
    eapply emit_inv; eauto; [|done]. unfold Sequence_new in Eq. destruct (from_opts opts) eqn:Es; [|done].
    injection Eq as <-. by eapply from_opts_ok.
  - destruct (tbl !! name) as [q|] eqn:El; [|by intros [= <- <-]]. pose proof (Hall _ _ El) as Hok.
    unfold nextval_logged. destruct (nextval q) as [[v|e] q'] eqn:En; pose proof (nextval_state _ _ _ En Hok) as Hq';
      [|by eapply (commit_inv SAdvance); eauto].
    destruct (emit_wal _ _ _ _ _ _ _ _) as [r w1] eqn:E. destruct (emit_result _ _ _ _ _ _ _ E) as [-> | ->];
      by eapply (commit_inv SAdvance); eauto.
  - destruct (tbl !! name) as [q|] eqn:El; [|by intros [= <- <-]]. pose proof (Hall _ _ El) as Hok.
    pose proof (setval_ok v c q Hok) as Hq'. unfold setval_logged. destruct (setval v c q) as [[[]|e] q'] eqn:En.
    + destruct (emit_wal _ _ _ _ _ _ _ _) as [r w1] eqn:E. destruct (emit_result _ _ _ _ _ _ _ E) as [-> | ->];
        by eapply (commit_inv SSet); eauto.
    + assert (q' = q) as -> by (unfold setval in En; case_match; congruence). by eapply (commit_inv SSet); eauto.
  - destruct Hf as [Hn Ho]. destruct (tbl !! name) as [q|] eqn:El; [|by intros [= <- <-]].
    pose proof (Hall _ _ El) as Hok. pose proof (alter_ok opts restart q Ho Hok) as Hq'.
    unfold alter_options_logged. destruct (alter_options opts restart q) as [[[]|e] q'] eqn:En.
    + destruct (emit_wal _ _ _ _ _ _ _ _) as [r w1] eqn:E. destruct (emit_result _ _ _ _ _ _ _ E) as [-> | ->];
        by eapply (commit_inv SAlter); eauto.
    + assert (q' = q) as -> by (unfold alter_options in En; repeat case_match; congruence).
      by eapply (commit_inv SAlter); eauto.
  - destruct (tbl !! name) as [q|] eqn:El; [|by intros [= <- <-]].
    destruct (emit_wal _ _ _ _ _ _ _ _) as [[[]|] w1] eqn:E; [|done]. intros [= <- <-].
    destruct (emit_record SDrop name 0 q w w1) as (r & Hlog & Hty & Hdec); [done|done|done|by eapply Hall|done|].
    destruct Hinv as [_ (t & Hredo & Hsame)]. split; [by apply map_Forall_delete|].
    exists (base.delete name t). split; [|by apply same_states_delete].
    rewrite Hlog, redo_app, Hredo. cbn [redo]. unfold redo_record. rewrite Hty, Hdec, redo_drop by done. done.
Qed.

Lemma table_run_inv ops : forall tbl w tbl' w',
  sink_keeps -> Forall op_fits ops -> logged_inv tbl w -> table_run ops tbl w = Some (tbl', w') ->
  logged_inv tbl' w'.
Proof.
  induction ops as [|op ops IH]; intros tbl w tbl' w' Hk Hf Hinv; cbn [table_run]; [by intros [= <- <-]|].
  apply Forall_cons_1 in Hf as [Hop Hf]. destruct (table_op op tbl w) as [[t1 w1]|] eqn:E; [|done].
  apply IH; [done|done|]. by eapply table_op_inv.
Qed.
End table.


(** A sink that keeps its records in a list. *)
Definition list_sink : WalSink (list WalRecord) :=
  mk_WalSink _ (fun _ _ => 0) (fun w r => (Ok (Z.of_nat (length w)), w ++ [r])).

Lemma list_sink_keeps : sink_keeps list_sink (fun w => w).
Proof. intros w r lsn w' [= <- <-]. done. Qed.

Definition seq_name : list Z := [115; 101; 113].

Definition demo_ops : list TableOp :=
  [TCreate seq_name 42 SequenceOptions_default; TNextval seq_name; TSetval seq_name 7 true; TNextval seq_name;
   TSetval seq_name 0 true].

Lemma default_opts_fit : opts_fit SequenceOptions_default.
Proof. unfold opts_fit, in_i64, in_width, U32. cbn. repeat split; try lia; intros; simplify_eq. Qed.


(** ** Concurrent callers of [nextval_logged]

    Each caller goes through four atomic parts: the advance under the state's
    mutex, the write of [currval], the snapshot under the state's mutex, and
    the append. *)

Inductive Phase :=
| Idle
| Advanced (v : Z)
| Cached (v : Z)
| Snapped (v : Z) (s : SequenceSnapshot).

Definition phase_value (p : Phase) : option Z :=
  match p with Idle => None | Advanced v | Cached v | Snapped v _ => Some v end.

Record Callers (W : Type) := mk_Callers {
  ca_seq : Sequence;
  ca_wal : W;
  ca_threads : list Phase;
  ca_issued : list Z;
  ca_returned : list Z;
}.
Arguments mk_Callers {W} _ _ _ _ _.
Arguments ca_seq {W} _.
Arguments ca_wal {W} _.
Arguments ca_threads {W} _.
Arguments ca_issued {W} _.
Arguments ca_returned {W} _.

Section callers.
Context {W : Type} (crc : Z -> list Z -> Z) (sink : WalSink W) (name : list Z) (xid : Xid).

Inductive caller_step : Callers W -> Callers W -> Prop :=
| step_advance c t v s' :
    ca_threads c !! t = Some Idle -> advance (seq_state (ca_seq c)) = Ok (v, s') ->
    caller_step c (mk_Callers (mk_Sequence s' (seq_currval (ca_seq c))) (ca_wal c)
                     (<[t := Advanced v]> (ca_threads c)) (ca_issued c ++ [v]) (ca_returned c))
| step_cache c t v :
    ca_threads c !! t = Some (Advanced v) ->
    caller_step c (mk_Callers (mk_Sequence (seq_state (ca_seq c)) (Some v)) (ca_wal c)
                     (<[t := Cached v]> (ca_threads c)) (ca_issued c) (ca_returned c))
| step_snapshot c t v :
    ca_threads c !! t = Some (Cached v) ->
    caller_step c (mk_Callers (ca_seq c) (ca_wal c)
                     (<[t := Snapped v (state_snapshot (ca_seq c))]> (ca_threads c)) (ca_issued c) (ca_returned c))
| step_append c t v s w' :
    ca_threads c !! t = Some (Snapped v s) -> emit_snapshot crc SAdvance name 0 xid sink s (ca_wal c) = (Ok tt, w') ->
    caller_step c (mk_Callers (ca_seq c) w' (<[t := Idle]> (ca_threads c)) (ca_issued c) (ca_returned c ++ [v]))
| step_append_failed c t v s w' :
    ca_threads c !! t = Some (Snapped v s) -> emit_snapshot crc SAdvance name 0 xid sink s (ca_wal c) = (Err SeqWal, w') ->
    caller_step c (mk_Callers (ca_seq c) w' (<[t := Idle]> (ca_threads c)) (ca_issued c) (ca_returned c)).

Definition callers_start (q : Sequence) (w : W) (n : nat) : Callers W := mk_Callers q w (replicate n Idle) [] [].

Definition pending (ps : list Phase) : list Z := omap phase_value ps.

Lemma pending_insert ps t p p' :
  ps !! t = Some p ->
  option_list (phase_value p) ++ pending (<[t := p']> ps) ≡ₚ option_list (phase_value p') ++ pending ps.
Proof.
  intros Ht. rewrite <- (take_drop_middle ps t p Ht) at 2. rewrite insert_take_drop by (by eapply lookup_lt_Some).
  unfold pending. rewrite !omap_app. cbn.
  destruct (phase_value p), (phase_value p'); cbn; solve_Permutation.
Qed.

Record callers_inv (s0 : SequenceState) (c : Callers W) : Prop := {
  ci_issued : ca_issued c = omap (fun k => nth_value s0 (Z.of_nat k)) (seq 0 (length (ca_issued c)));
  ci_state : match length (ca_issued c) with
             | O => seq_state (ca_seq c) = s0
             | Datatypes.S k => at_index s0 (Z.of_nat k) (seq_state (ca_seq c))
             end;
  ci_held : exists lost, ca_returned c ++ pending (ca_threads c) ++ lost ≡ₚ ca_issued c;
}.

Definition seq_fresh (s0 : SequenceState) : Prop :=
  seq_ok s0 /\ is_called s0 = false /\ start_value s0 = last_value s0 /\ cycle s0 = false.

Lemma nth_value_zero s0 : seq_fresh s0 -> nth_value s0 0 = Some (last_value s0).
Proof.
  intros (Hok & _ & Hst & _). unfold nth_value. pose proof (room_nonneg s0 _ Hok (so_start _ Hok)).
  rewrite (proj2 (Z.leb_le _ _)) by lia. f_equal. lia.
Qed.

(** The value an advance returns is the next of the closed form. *)
Lemma advance_next s0 (c : Callers W) v s' :
  seq_fresh s0 -> callers_inv s0 c -> advance (seq_state (ca_seq c)) = Ok (v, s') ->
  nth_value s0 (Z.of_nat (length (ca_issued c))) = Some v /\ at_index s0 (Z.of_nat (length (ca_issued c))) s'.
Proof.
  intros Hf [_ Hst _] Ha. pose proof Hf as (Hok & Hc & Hsl & _). destruct (length (ca_issued c)) as [|k].
  - pose proof (nth_value_zero s0 Hf) as Hz. rewrite Hst in Ha. unfold advance in Ha. rewrite Hc in Ha.
    injection Ha as <- <-. split; [done|]. split; [|split; [done|]].
    + apply with_value_ok; [done|]. apply (so_last _ Hok).
    + change (Z.of_nat 0) with 0. by rewrite Hz.
  - destruct (nextval_at s0 (Z.of_nat k) (ca_seq c)) as [Hv Hat]; [done|lia|done|].
    unfold nextval in Hv, Hat. rewrite Ha in Hv, Hat. cbn in Hv, Hat.
    replace (Z.of_nat (Datatypes.S k)) with (Z.of_nat k + 1) by lia. split; [|done].
    destruct (nth_value s0 (Z.of_nat k + 1)); cbn in Hv; congruence.
Qed.

Lemma omap_snoc_seq {A : Type} (f : nat -> option A) n v :
  f n = Some v -> omap f (seq 0 (n + 1)) = omap f (seq 0 n) ++ [v].
Proof. intros H. rewrite seq_app, omap_app. cbn. by rewrite H. Qed.

(** A step that only moves a thread between phases of the same value. *)
Lemma held_move ret ps lost iss t p p' :
  ret ++ pending ps ++ lost ≡ₚ iss -> ps !! t = Some p -> phase_value p = phase_value p' ->
  ret ++ pending (<[t := p']> ps) ++ lost ≡ₚ iss.
Proof.
  intros H Ht Hp. pose proof (pending_insert ps t p p' Ht) as Hi. rewrite Hp in Hi.
  apply Permutation_app_inv_l in Hi. by rewrite Hi.
Qed.

Lemma callers_step_inv s0 c c' : seq_fresh s0 -> callers_inv s0 c -> caller_step c c' -> callers_inv s0 c'.
Proof.
  intros Hf Hinv Hstep. pose proof Hinv as [Hi Hst [lost Hh]].
  destruct Hstep as [c t v s' Ht Ha|c t v Ht|c t v Ht|c t v s w' Ht He|c t v s w' Ht He]; split;
    cbn [ca_issued ca_seq ca_returned ca_threads seq_state]; try done.
  - destruct (advance_next s0 c v s' Hf Hinv Ha) as [Hv _].
    rewrite length_app. cbn [length]. rewrite (omap_snoc_seq _ _ v) by done. by rewrite <- Hi.
  - destruct (advance_next s0 c v s' Hf Hinv Ha) as [_ Hat]. rewrite length_app, Nat.add_1_r. done.
  - exists lost. pose proof (pending_insert _ t _ (Advanced v) Ht) as Hp. cbn in Hp. rewrite Hp, <- Hh. solve_Permutation.
  - exists lost. by eapply held_move.
  - exists lost. by eapply held_move.
  - exists lost. pose proof (pending_insert _ t _ Idle Ht) as Hp. cbn in Hp. rewrite <- Hh, <- Hp. solve_Permutation.
  - exists (v :: lost). pose proof (pending_insert _ t _ Idle Ht) as Hp. cbn in Hp. rewrite <- Hh, <- Hp. solve_Permutation.
Qed.

Lemma callers_inv_reachable s0 w n c :
  seq_fresh s0 -> rtc caller_step (callers_start (mk_Sequence s0 None) w n) c -> callers_inv s0 c.
Proof.
  intros Hf Hr. remember (callers_start _ _ _) as c0 eqn:E.
  assert (callers_inv s0 c0) as H0.
  { subst c0. split; [done|done|]. exists []. cbn. rewrite app_nil_r.
    assert (forall k, pending (replicate k Idle) = []) as -> by (by induction k). done. }
  clear E. induction Hr as [|c0 c1 c2 Hs _ IH]; [done|]. apply IH. by eapply callers_step_inv.
Qed.

(** Before its exhaustion a sequence that does not cycle repeats no value. *)
Lemma nth_values_NoDup s0 n :
  seq_ok s0 -> cycle s0 = false -> NoDup (omap (fun k => nth_value s0 (Z.of_nat k)) (seq 0 n)).
Proof.
  intros Hok Hc. apply NoDup_ListNoDup. destruct (so_increment _ Hok) as [Hi _].
  apply NoDup_ListNoDup. induction n as [|n IH]; [constructor|].
  rewrite seq_S, omap_app. apply NoDup_app. split; [done|]. split; [|cbn; case_match; repeat constructor; set_solver].
  intros x Hx Hx'. apply list_elem_of_omap in Hx as (i & Hi' & Hxi). apply elem_of_seq in Hi'.
  apply list_elem_of_omap in Hx' as (j & Hj & Hxj). apply list_elem_of_singleton in Hj as ->.
  unfold nth_value in *. rewrite Hc in *. repeat case_match; simplify_eq. nia.
Qed.
End callers.

(** C33. Concurrent callers get distinct values: however the callers of a
    fresh sequence that does not cycle are interleaved, the values issued are
    the first ones of its closed form, in the order of the advances, and no
    value is returned twice or held by two callers. *)
Theorem concurrent_nextval_unique {W} crc (sink : WalSink W) name xid s0 w n c :
  seq_fresh s0 -> rtc (caller_step crc sink name xid) (callers_start (mk_Sequence s0 None) w n) c ->
  ca_issued c = omap (fun k => nth_value s0 (Z.of_nat k)) (seq 0 (length (ca_issued c))) /\
  NoDup (ca_returned c ++ pending (ca_threads c)).
Proof.
  intros Hf Hr. destruct (callers_inv_reachable crc sink name xid s0 w n c Hf Hr) as [Hi _ [lost Hh]].
  split; [done|]. destruct Hf as (Hok & _ & _ & Hc).
  assert (NoDup (ca_issued c)) as Hnd by (rewrite Hi; by apply nth_values_NoDup).
  rewrite <- Hh, app_assoc in Hnd. by apply NoDup_app in Hnd as (? & _ & _).
Qed.

(** Two callers, the second of which snapshots and appends between the
    snapshot and the append of the first. *)
Definition race_seq : SequenceState := mk_SequenceState 1 1 false 1 I64_MAX 1 false 1.
Definition race_append (snap : SequenceSnapshot) (w : list WalRecord) : list WalRecord :=
  snd (emit_snapshot (fun _ _ => 0) SAdvance seq_name 0 0 list_sink snap w).

Lemma race_append_ok v w :
  v = 1 \/ v = 2 ->
  emit_snapshot (fun _ _ => 0) SAdvance seq_name 0 0 list_sink (snapshot (with_value race_seq v true)) w
  = (Ok tt, race_append (snapshot (with_value race_seq v true)) w).
Proof.
  intros Hv. unfold race_append. apply injective_projections; [|done]. cbn [fst]. by destruct Hv as [-> | ->]; vm_compute.
Qed.

Definition race_end : Callers (list WalRecord) :=
  let s1 := with_value race_seq 1 true in
  let s2 := with_value race_seq 2 true in
  mk_Callers (mk_Sequence s2 (Some 2)) (race_append (snapshot s1) (race_append (snapshot s2) [])) [Idle; Idle] [1; 2] [2; 1].

Lemma race_run :
  rtc (caller_step (fun _ _ => 0) list_sink seq_name 0) (callers_start (mk_Sequence race_seq None) [] 2) race_end.
Proof.
  eapply rtc_l; [by apply (step_advance _ _ _ _ _ 0%nat 1 (with_value race_seq 1 true))|].
  eapply rtc_l; [by apply (step_cache _ _ _ _ _ 0%nat 1)|].
  eapply rtc_l; [by apply (step_snapshot _ _ _ _ _ 0%nat 1)|].
  eapply rtc_l; [by apply (step_advance _ _ _ _ _ 1%nat 2 (with_value race_seq 2 true))|].
  eapply rtc_l; [by apply (step_cache _ _ _ _ _ 1%nat 2)|].
  eapply rtc_l; [by apply (step_snapshot _ _ _ _ _ 1%nat 2)|].
  eapply rtc_l; [eapply (step_append _ _ _ _ _ 1%nat 2); [done|apply (race_append_ok 2); auto]|].
  eapply rtc_l; [eapply (step_append _ _ _ _ _ 0%nat 1); [done|apply (race_append_ok 1); auto]|].
  apply rtc_refl.
Qed.

Lemma race_seq_fresh : seq_fresh race_seq.
Proof. split; [|done]. split; unfold in_bounds, in_i64; cbn; repeat split; vm_compute; done. Qed.

Lemma concurrent_nextval_unique_witness : NoDup (ca_returned race_end ++ pending (ca_threads race_end)).
Proof.
  refine (proj2 (concurrent_nextval_unique (fun _ _ => 0) list_sink seq_name 0 race_seq [] 2 race_end _ _)).
  - exact race_seq_fresh.
  - exact race_run.
Defined.

(** The records of concurrent callers may be appended out of the order of the
    advances: both callers returned, and the redo of the log gives a sequence
    whose next value was already returned. *)
Theorem sequence_reissued_after_redo :
  exists c tbl q v,
    rtc (caller_step (fun _ _ => 0) list_sink seq_name 0) (callers_start (mk_Sequence race_seq None) [] 2) c /\
    redo (ca_wal c) ∅ = Some tbl /\ tbl !! seq_name = Some q /\ fst (nextval q) = Ok v /\ v ∈ ca_returned c.
Proof.
  assert (H : match redo (ca_wal race_end) ∅ with
              | Some t => match t !! seq_name with Some q => Some (fst (nextval q)) | None => None end
              | None => None
              end = Some (Ok 2)) by (vm_compute; reflexivity).
  destruct (redo (ca_wal race_end) ∅) as [tbl|] eqn:E; [|done].
  destruct (tbl !! seq_name) as [q|] eqn:Eq; [|done]. injection H as H.
  exists race_end, tbl, q, 2. repeat split; [exact race_run|done|done|done|]. apply list_elem_of_here.
Qed.
