(* ===== verification/HeapMaps.v ===== *)
(** * The free-space map and the visibility map (ultrasql-storage, fsm.rs and vm.rs)

    Both maps keep one byte vector per relation: the free-space map a category
    per block, the visibility map two bits per block. Each operation takes the
    lock of its vector once, so it is one step on the map. *)

From S2P Require Import Prelude CoreIds.

(** ** FreeSpaceMap *)

Definition CATEGORY_COUNT : Z := 256.

Abbreviation FreeSpaceMap := (gmap Z (list Z)).

(** [Vec::resize(idx + 1, 0)] when the index is past the end. *)
Definition grow_to (idx : nat) (v : list Z) : list Z :=
  if (length v <=? idx)%nat then v ++ replicate (S idx - length v) 0 else v.

Definition category_byte (value : Z) : Z := Z.min value 255.

Definition record_free_space (rel block free_bytes : Z) (fsm : FreeSpaceMap) : FreeSpaceMap :=
  let clamped := Z.min free_bytes PAGE_SIZE in
  let category := category_byte (Z.min (clamped * CATEGORY_COUNT / PAGE_SIZE) 255) in
  let idx := Z.to_nat block in
  <[rel := <[idx := category]> (grow_to idx (default [] (fsm !! rel)))]> fsm.

(** [u32::div_ceil] *)
Definition div_ceil (a b : Z) : Z := (a + b - 1) / b.

Definition min_category (min_free : Z) : Z :=
  let min_clamped := Z.min min_free PAGE_SIZE in
  if min_clamped =? 0 then 0 else category_byte (Z.min (div_ceil (min_clamped * CATEGORY_COUNT) PAGE_SIZE) 255).

Definition find_block_with_at_least (rel min_free : Z) (fsm : FreeSpaceMap) : option Z :=
  v ← fsm !! rel;
  i ← position (fun cat => negb (cat <? min_category min_free)) v;
  if Z.of_nat i <? U32 then Some (Z.of_nat i) else None.

Definition invalidate_block (rel block : Z) (fsm : FreeSpaceMap) : FreeSpaceMap :=
  match fsm !! rel with
  | Some v => <[rel := <[Z.to_nat block := 0]> v]> fsm
  | None => fsm
  end.

(** ** VisibilityMap *)

Definition BIT_VISIBLE : Z := 1.
Definition BIT_FROZEN : Z := 2.

Abbreviation VisibilityMap := (gmap Z (list Z)).

Definition byte_index_and_shift (block : Z) : nat * Z :=
  let bit_offset := block * 2 in (Z.to_nat (bit_offset / 8), bit_offset mod 8).

(** [!x] on a [u8]. *)
Definition not_u8 (x : Z) : Z := Z.lxor x 255.

Definition get_bits (rel block : Z) (vm : VisibilityMap) : Z :=
  let '(i, shift) := byte_index_and_shift block in
  match vm !! rel with
  | None => 0
  | Some v => match v !! i with
              | None => 0
              | Some b => Z.land (Z.shiftr b shift) 3
              end
  end.

(** [set_bits] as it is called: only to set. *)
Definition set_bits (rel block mask : Z) (vm : VisibilityMap) : VisibilityMap :=
  let '(i, shift) := byte_index_and_shift block in
  let v := grow_to i (default [] (vm !! rel)) in
  <[rel := alter (fun b => Z.lor b (Z.shiftl mask shift)) i v]> vm.

Definition is_all_visible (rel block : Z) (vm : VisibilityMap) : bool :=
  negb (Z.land (get_bits rel block vm) BIT_VISIBLE =? 0).
Definition is_all_frozen (rel block : Z) (vm : VisibilityMap) : bool :=
  negb (Z.land (get_bits rel block vm) BIT_FROZEN =? 0).
Definition mark_all_visible (rel block : Z) (vm : VisibilityMap) : VisibilityMap := set_bits rel block BIT_VISIBLE vm.
Definition mark_all_frozen (rel block : Z) (vm : VisibilityMap) : VisibilityMap := set_bits rel block BIT_FROZEN vm.

Definition vm_clear (rel block : Z) (vm : VisibilityMap) : VisibilityMap :=
  match vm !! rel with
  | None => vm
  | Some v =>
      let '(i, shift) := byte_index_and_shift block in
      if (length v <=? i)%nat then vm
      else <[rel := alter (fun b => Z.land b (not_u8 (Z.shiftl (Z.lor BIT_VISIBLE BIT_FROZEN) shift))) i v]> vm
  end.

(** ** The free-space map as a function of the block *)

Definition category (fsm : FreeSpaceMap) (rel block : Z) : Z :=
  default 0 (default [] (fsm !! rel) !! Z.to_nat block).

Lemma grow_to_lookup idx v j : default 0 (grow_to idx v !! j) = default 0 (v !! j).
Proof.
  unfold grow_to. destruct (Nat.leb_spec (length v) idx) as [Hl|]; [|done].
  destruct (decide (j < length v)%nat); [by rewrite lookup_app_l|].
  rewrite lookup_app_r by lia. rewrite (lookup_ge_None_2 v) by lia. cbn.
  destruct (decide (j - length v < S idx - length v)%nat); [by rewrite lookup_replicate_2|].
  by rewrite lookup_ge_None_2 by (rewrite length_replicate; lia).
Qed.

Lemma length_grow_to idx v : (idx < length (grow_to idx v))%nat.
Proof. unfold grow_to. destruct (Nat.leb_spec (length v) idx); [rewrite length_app, length_replicate; lia|done]. Qed.

Lemma category_record fsm rel block free rel' block' :
  0 <= block -> 0 <= block' ->
  category (record_free_space rel block free fsm) rel' block' =
    if decide (rel' = rel /\ block' = block) then Z.min (Z.min free PAGE_SIZE * CATEGORY_COUNT / PAGE_SIZE) 255
    else category fsm rel' block'.
Proof.
  intros Hb Hb'. unfold category, record_free_space, category_byte. rewrite Z.min_l by lia.
  destruct (decide (rel' = rel)) as [->|]; [|rewrite lookup_insert_ne by done; by rewrite decide_False by naive_solver].
  rewrite lookup_insert_eq. cbn [default]. unfold id. destruct (decide (block' = block)) as [->|].
  - rewrite decide_True by done. by rewrite list_lookup_insert_eq by apply length_grow_to.
  - rewrite decide_False by naive_solver. rewrite list_lookup_insert_ne by lia. apply grow_to_lookup.
Qed.

Lemma category_invalidate fsm rel block rel' block' :
  0 <= block -> 0 <= block' ->
  category (invalidate_block rel block fsm) rel' block' =
    if decide (rel' = rel /\ block' = block) then 0 else category fsm rel' block'.
Proof.
  intros Hb Hb'. unfold category, invalidate_block. destruct (fsm !! rel) as [v|] eqn:E.
  - destruct (decide (rel' = rel)) as [->|];
      [|rewrite lookup_insert_ne by done; by rewrite decide_False by naive_solver].
    rewrite lookup_insert_eq, E. cbn [default]. unfold id. destruct (decide (block' = block)) as [->|].
    + rewrite decide_True by done. destruct (decide (Z.to_nat block < length v)%nat).
      * by rewrite list_lookup_insert_eq.
      * by rewrite lookup_ge_None_2 by (rewrite length_insert; lia).
    + rewrite decide_False by naive_solver. by rewrite list_lookup_insert_ne by lia.
  - case_decide as Hd; [|done]. destruct Hd as [-> ->]. by rewrite E.
Qed.

(** The category of a request, rounded up, is at most that of what is free,
    rounded down, only when there is that much free. *)
Lemma category_covers free need :
  0 <= free -> 0 <= need <= 8160 ->
  min_category need <= Z.min (Z.min free PAGE_SIZE * CATEGORY_COUNT / PAGE_SIZE) 255 -> need <= free.
Proof.
  intros Hf Hn. unfold min_category, category_byte, div_ceil, CATEGORY_COUNT, PAGE_SIZE.
  rewrite (Z.min_l need) by lia. destruct (Z.eqb_spec need 0); [lia|]. intros H.
  pose proof (Z.div_mod (Z.min free 8192 * 256) 8192 ltac:(lia)).
  pose proof (Z.mod_pos_bound (Z.min free 8192 * 256) 8192 ltac:(lia)).
  pose proof (Z.div_mod (need * 256 + 8192 - 1) 8192 ltac:(lia)).
  pose proof (Z.mod_pos_bound (need * 256 + 8192 - 1) 8192 ltac:(lia)). lia.
Qed.

(** A hint names the first block whose category covers the request. *)
Lemma find_block_category fsm rel need b :
  find_block_with_at_least rel need fsm = Some b ->
  0 <= b /\ min_category need <= category fsm rel b /\
  forall b', 0 <= b' < b -> category fsm rel b' < min_category need.
Proof.
  unfold find_block_with_at_least, category. destruct (fsm !! rel) as [v|]; [|done]. cbn [mbind option_bind default].
  destruct (position _ v) as [i|] eqn:E; [|done]. cbn [mbind option_bind].
  destruct (Z.of_nat i <? U32); [|done]. intros [= <-].
  apply position_Some in E as [(a & Ha & Hp) Hbefore]. unfold id. rewrite Nat2Z.id, Ha. cbn [default].
  split; [lia|]. split; [bool_to_prop; apply Z.ltb_ge in Hp; done|]. intros b' Hb'.
  destruct (lookup_lt_is_Some_2 v (Z.to_nat b')) as [c Hc]; [apply lookup_lt_Some in Ha; lia|]. rewrite Hc. cbn [default].
  assert (negb (c <? min_category need) = false) as Hn by (apply (Hbefore (Z.to_nat b')); [lia|done]).
  bool_to_prop. by apply Z.ltb_lt.
Qed.

(** ** The visibility map as a function of the block *)

Lemma not_u8_bit x i : 0 <= i < 8 -> Z.testbit (not_u8 x) i = negb (Z.testbit x i).
Proof.
  intros Hi. unfold not_u8. rewrite Z.lxor_spec. replace (Z.testbit 255 i) with true; [by rewrite xorb_true_r|].
  symmetry. change 255 with (Z.ones 8). by apply Z.ones_spec_low.
Qed.

Lemma land3_bits a b :
  (forall i, 0 <= i < 2 -> Z.testbit a i = Z.testbit b i) -> Z.land a 3 = Z.land b 3.
Proof.
  intros H. apply Z.bits_inj'. intros i Hi. rewrite !Z.land_spec. destruct (decide (i < 2)); [by rewrite H by lia|].
  replace (Z.testbit 3 i) with false; [by rewrite !andb_false_r|]. symmetry. change 3 with (Z.ones 2).
  apply Z.ones_spec_high. lia.
Qed.

Lemma shift_cases block : 0 <= block ->
  exists k, byte_index_and_shift block = (Z.to_nat (block / 4), 2 * k) /\ 0 <= k < 4 /\ block = block / 4 * 4 + k.
Proof.
  intros Hb. exists (block mod 4). unfold byte_index_and_shift. split; [f_equal|].
  - f_equal. replace 8 with (4 * 2) by lia. by rewrite Z.div_mul_cancel_r by lia.
  - replace 8 with (4 * 2) by lia. rewrite Z.mul_mod_distr_r by lia. lia.
  - pose proof (Z.mod_pos_bound block 4). pose proof (Z.div_mod block 4). lia.
Qed.

(** The two bits at [2 k'] of a byte in which those at [2 k] were set. *)
Lemma lor_pair b mask k k' :
  0 <= mask < 4 -> 0 <= k < 4 -> 0 <= k' < 4 ->
  Z.land (Z.shiftr (Z.lor b (Z.shiftl mask (2 * k))) (2 * k')) 3 =
    Z.lor (Z.land (Z.shiftr b (2 * k')) 3) (if k' =? k then mask else 0).
Proof.
  intros Hm Hk Hk'.
  assert (Hmb : forall i, 2 <= i -> Z.testbit mask i = false).
  { intros i Hi. destruct (decide (mask = 0)) as [->|]; [apply Z.testbit_0_l|].
    apply Z.bits_above_log2; [lia|]. assert (Z.log2 mask < 2); [apply Z.log2_lt_pow2; lia|lia]. }
  apply Z.bits_inj'. intros i Hi.
  rewrite Z.land_spec, Z.shiftr_spec, Z.lor_spec, Z.shiftl_spec, Z.lor_spec, Z.land_spec, Z.shiftr_spec by lia.
  destruct (decide (i < 2)).
  - replace (Z.testbit 3 i) with true by (symmetry; change 3 with (Z.ones 2); apply Z.ones_spec_low; lia).
    rewrite !andb_true_r. destruct (Z.eqb_spec k' k) as [->|].
    + by replace (i + 2 * k - 2 * k) with i by lia.
    + rewrite Z.testbit_0_l. f_equal. destruct (decide (k' < k)); [apply Z.testbit_neg_r; lia|apply Hmb; lia].
  - replace (Z.testbit 3 i) with false by (symmetry; change 3 with (Z.ones 2); apply Z.ones_spec_high; lia).
    rewrite !andb_false_r. symmetry. destruct (k' =? k); [apply Hmb; lia|apply Z.testbit_0_l].
Qed.

(** The two bits at [2 k'] of a byte in which those at [2 k] were cleared. *)
Lemma land_pair b k k' :
  0 <= k < 4 -> 0 <= k' < 4 ->
  Z.land (Z.shiftr (Z.land b (not_u8 (Z.shiftl 3 (2 * k)))) (2 * k')) 3 =
    if k' =? k then 0 else Z.land (Z.shiftr b (2 * k')) 3.
Proof.
  intros Hk Hk'. destruct (Z.eqb_spec k' k) as [->|Hne].
  - apply Z.bits_inj_0. intros i. destruct (decide (0 <= i)) as [Hi|]; [|apply Z.testbit_neg_r; lia].
    rewrite Z.land_spec, Z.shiftr_spec, Z.land_spec by lia. destruct (decide (i < 2)).
    + rewrite not_u8_bit, Z.shiftl_spec by lia. replace (i + 2 * k - 2 * k) with i by lia.
      replace (Z.testbit 3 i) with true by (symmetry; change 3 with (Z.ones 2); apply Z.ones_spec_low; lia).
      by rewrite andb_false_r.
    + replace (Z.testbit 3 i) with false by (symmetry; change 3 with (Z.ones 2); apply Z.ones_spec_high; lia).
      by rewrite andb_false_r.
  - apply land3_bits. intros i Hi. rewrite !Z.shiftr_spec, Z.land_spec by lia.
    rewrite not_u8_bit, Z.shiftl_spec by lia.
    replace (Z.testbit 3 (i + 2 * k' - 2 * k)) with false; [by rewrite andb_true_r|]. symmetry.
    destruct (decide (k' < k)); [apply Z.testbit_neg_r; lia|]. change 3 with (Z.ones 2). apply Z.ones_spec_high. lia.
Qed.

Definition vm_bits (vm : VisibilityMap) (rel block : Z) : Z := get_bits rel block vm.

Lemma get_bits_eq rel block k vm :
  byte_index_and_shift block = (Z.to_nat (block / 4), 2 * k) -> 0 <= k < 4 ->
  get_bits rel block vm = Z.land (Z.shiftr (default 0 (default [] (vm !! rel) !! Z.to_nat (block / 4))) (2 * k)) 3.
Proof.
  intros E Hk. unfold get_bits. rewrite E. destruct (vm !! rel) as [v|]; cbn [default]; unfold id.
  - destruct (v !! _); [done|]. by rewrite Z.shiftr_0_l.
  - by rewrite Z.shiftr_0_l.
Qed.

Lemma alter_default (f : Z -> Z) (v : list Z) i j :
  (i < length v)%nat -> default 0 (alter f i v !! j) = if decide (j = i) then f (default 0 (v !! i)) else default 0 (v !! j).
Proof.
  intros Hi. destruct (decide (j = i)) as [->|]; [|by rewrite list_lookup_alter_ne].
  rewrite list_lookup_alter_eq. by destruct (lookup_lt_is_Some_2 v i Hi) as [x ->].
Qed.

Lemma vm_bits_set vm rel block mask rel' block' :
  0 <= mask < 4 -> 0 <= block -> 0 <= block' ->
  vm_bits (set_bits rel block mask vm) rel' block' =
    Z.lor (vm_bits vm rel' block') (if decide (rel' = rel /\ block' = block) then mask else 0).
Proof.
  intros Hm Hb Hb'. destruct (shift_cases block Hb) as (k & E & Hk & Heq).
  destruct (shift_cases block' Hb') as (k' & E' & Hk' & Heq'). unfold vm_bits. rewrite !(get_bits_eq _ _ k') by done.
  unfold set_bits. rewrite E. destruct (decide (rel' = rel)) as [->|].
  2: { rewrite lookup_insert_ne by done. rewrite decide_False by naive_solver. by rewrite Z.lor_0_r. }
  rewrite lookup_insert_eq. cbn [default]. unfold id. set (v := default [] (vm !! rel)).
  rewrite alter_default by apply length_grow_to. rewrite !grow_to_lookup.
  case_decide as Hi.
  - rewrite Hi, lor_pair by done. f_equal. assert (block' / 4 = block / 4) by lia.
    destruct (Z.eqb_spec k' k); [rewrite decide_True by (split; [done|lia])|rewrite decide_False by (intros [_ ->]; lia)]; done.
  - rewrite decide_False by (by intros [_ ->]). by rewrite Z.lor_0_r.
Qed.

Lemma vm_bits_clear vm rel block rel' block' :
  0 <= block -> 0 <= block' ->
  vm_bits (vm_clear rel block vm) rel' block' = if decide (rel' = rel /\ block' = block) then 0 else vm_bits vm rel' block'.
Proof.
  intros Hb Hb'. destruct (shift_cases block Hb) as (k & E & Hk & Heq).
  destruct (shift_cases block' Hb') as (k' & E' & Hk' & Heq'). unfold vm_bits. rewrite !(get_bits_eq _ _ k') by done.
  unfold vm_clear. destruct (vm !! rel) as [v|] eqn:Ev.
  2: { case_decide as Hd; [|done]. destruct Hd as [-> ->]. rewrite Ev. cbn. by rewrite Z.shiftr_0_l. }
  rewrite E. destruct (Nat.leb_spec (length v) (Z.to_nat (block / 4))) as [Hl|Hl].
  { case_decide as Hd; [|done]. destruct Hd as [-> ->]. rewrite Ev. cbn. unfold id.
    rewrite lookup_ge_None_2 by done. cbn. by rewrite Z.shiftr_0_l. }
  destruct (decide (rel' = rel)) as [->|].
  2: { rewrite lookup_insert_ne by done. by rewrite decide_False by naive_solver. }
  rewrite lookup_insert_eq, Ev. cbn [default]. unfold id. rewrite alter_default by done.
  case_decide as Hi.
  - rewrite Hi. change (Z.lor BIT_VISIBLE BIT_FROZEN) with 3. rewrite land_pair by done.
    assert (block' / 4 = block / 4) by lia.
    destruct (Z.eqb_spec k' k); [rewrite decide_True by (split; [done|lia])|rewrite decide_False by (intros [_ ->]; lia)]; done.
  - by rewrite decide_False by (by intros [_ ->]).
Qed.
