(* ===== verification/UndoLog.v ===== *)
(** * The undo log of in-place updates (ultrasql-storage, heap/mod.rs)

    Each relation has an undo log of two record kinds: full pre-images of a
    slot, and compact batches that say which slots of a page had a constant
    added to an [i32] column. Records of both kinds take their number from
    one sequence; vectors of records are paired with vectors of metadata and
    with hash indices by slot and by page. The operations that push, find,
    deactivate, compact, trim and copy records, and the reconstruction of the
    payload a snapshot must see, are translated here; UndoLogSpec.v relates
    them to one timeline of records. *)

From S2P Require Import Prelude CoreIds TupleHeader Snapshot Visibility Bytes.

(** ** Records *)

Record UndoEntry := mk_UndoEntry {
  ue_tid : TupleId;
  ue_writer_xid : Xid;
  ue_command_id : CommandId;
  ue_old_payload : list Z;
}.

Record Int32PairUndoBatch := mk_Int32PairUndoBatch {
  ub_page : PageId;
  ub_writer_xid : Xid;
  ub_command_id : CommandId;
  ub_target_col : Z;
  ub_delta : Z;
  ub_first_slot : Z;
  ub_slot_count : Z;
  ub_slots : list Z;
}.

Definition slot_len (b : Int32PairUndoBatch) : Z :=
  if is_nil (ub_slots b) then ub_slot_count b else zlen (ub_slots b).

Definition contains_slot (b : Int32PairUndoBatch) (slot : Z) : bool :=
  if is_nil (ub_slots b) then
    let end_ := saturating_add U16 (ub_first_slot b) (ub_slot_count b) in
    (ub_first_slot b <=? slot) && (slot <? end_)
  else binary_search_ok (ub_slots b) slot.

Record UndoRecordMetadata := mk_UndoRecordMetadata { md_sequence : Z; md_active : bool }.

(** ** One record kind: the vector, its metadata and its index

    [entries], [entry_metadata], [entries_by_tid] and [int32_pair_batches],
    [batch_metadata], [batches_by_page] are two instances of it. *)

Record Recs (K A : Type) `{Countable K} := mk_Recs {
  rc_items : list A;
  rc_meta : list UndoRecordMetadata;
  rc_index : gmap K (list nat);
}.
Arguments mk_Recs {K A _ _} _ _ _.
Arguments rc_items {K A _ _} _.
Arguments rc_meta {K A _ _} _.
Arguments rc_index {K A _ _} _.

Section recs.
Context {K A : Type} `{Countable K} (key : A -> K) (writer : A -> Xid).

Definition recs_empty : Recs K A := mk_Recs [] [] ∅.

(** [index.entry(k).or_default().push(i)] *)
Definition index_push (k : K) (i : nat) (index : gmap K (list nat)) : gmap K (list nat) :=
  <[k := default [] (index !! k) ++ [i]]> index.

Definition recs_push (sequence : Z) (a : A) (r : Recs K A) : Recs K A :=
  mk_Recs (rc_items r ++ [a]) (rc_meta r ++ [mk_UndoRecordMetadata sequence true])
    (index_push (key a) (length (rc_items r)) (rc_index r)).

Definition index_for (r : Recs K A) (k : K) : list nat := default [] (rc_index r !! k).

(** [ordered_entries_for_tid] and [ordered_batches_for_page] *)
Definition active_at (r : Recs K A) (i : nat) : option (A * UndoRecordMetadata) :=
  metadata ← rc_meta r !! i;
  if md_active metadata then (a ← rc_items r !! i; Some (a, metadata)) else None.
Definition ordered_for (r : Recs K A) (k : K) : list (A * UndoRecordMetadata) :=
  omap (active_at r) (index_for r k).

(** The entries of the index whose key is on the page, with their numbers;
    the order of a hash map's iteration is not specified. *)
Definition indexed_on (sel : K -> bool) (r : Recs K A) : list (nat * (A * UndoRecordMetadata)) :=
  map_to_list (rc_index r) ≫= (fun kv : K * list nat =>
    if sel kv.1 then omap (fun i => (fun p => (i, p)) <$> active_at r i) kv.2 else []).

(** Record [i] becomes inactive if [xid] wrote it. *)
Definition deactivate_at (xid : Xid) (items : list A) (meta : list UndoRecordMetadata) (i : nat)
    : list UndoRecordMetadata :=
  match items !! i with
  | Some a =>
      if writer a =? xid then alter (fun m => mk_UndoRecordMetadata (md_sequence m) false) i meta else meta
  | None => meta
  end.
Definition recs_deactivate (xid : Xid) (indices : list nat) (r : Recs K A) : Recs K A :=
  mk_Recs (rc_items r) (foldl (deactivate_at xid (rc_items r)) (rc_meta r) indices) (rc_index r).

(** The part of [rebuild_indices] for the kind. *)
Fixpoint rebuild_from (i : nat) (items : list A) (meta : list UndoRecordMetadata) (index : gmap K (list nat))
    : gmap K (list nat) :=
  match items, meta with
  | a :: items', m :: meta' =>
      rebuild_from (S i) items' meta' (if md_active m then index_push (key a) i index else index)
  | _, _ => index
  end.
Definition recs_rebuild (r : Recs K A) : Recs K A :=
  mk_Recs (rc_items r) (rc_meta r) (rebuild_from 0 (rc_items r) (rc_meta r) ∅).

(** The drain of both vectors into the kept and the dropped records. *)
Definition recs_split (keep : A -> UndoRecordMetadata -> bool) (r : Recs K A) : Recs K A * list A :=
  let both := zip (rc_items r) (rc_meta r) in
  let kept := filter (fun p => keep p.1 p.2 = true) both in
  (mk_Recs kept.*1 kept.*2 (rc_index r), (filter (fun p => keep p.1 p.2 = false) both).*1).

Definition active_count (r : Recs K A) : nat := length (filter (fun m => md_active m = true) (rc_meta r)).
End recs.

(** ** The log *)

Record UndoRelationLog := mk_UndoRelationLog {
  next_sequence : Z;
  ul_entries : Recs TupleId UndoEntry;
  ul_batches : Recs PageId Int32PairUndoBatch;
}.

Definition UndoRelationLog_default : UndoRelationLog := mk_UndoRelationLog 0 recs_empty recs_empty.

Definition push_entry (e : UndoEntry) (l : UndoRelationLog) : UndoRelationLog :=
  mk_UndoRelationLog (saturating_add U64 (next_sequence l) 1)
    (recs_push ue_tid (next_sequence l) e (ul_entries l)) (ul_batches l).

Definition push_int32_pair_batch (b : Int32PairUndoBatch) (l : UndoRelationLog) : UndoRelationLog :=
  mk_UndoRelationLog (saturating_add U64 (next_sequence l) 1)
    (ul_entries l) (recs_push ub_page (next_sequence l) b (ul_batches l)).

Definition append_int32_pair_batches (scratch : list Int32PairUndoBatch) (l : UndoRelationLog) : UndoRelationLog :=
  foldl (fun l b => push_int32_pair_batch b l) l scratch.

Definition entries_for_tid (l : UndoRelationLog) (tid : TupleId) : list UndoEntry := (ordered_for (ul_entries l) tid).*1.
Definition batches_for_page (l : UndoRelationLog) (page : PageId) : list Int32PairUndoBatch :=
  (ordered_for (ul_batches l) page).*1.

Definition undo_is_empty (l : UndoRelationLog) : bool :=
  is_nil (rc_items (ul_entries l)) && is_nil (rc_items (ul_batches l)).
Definition entries_len (l : UndoRelationLog) : nat := active_count (ul_entries l).
Definition int32_pair_batches_len (l : UndoRelationLog) : nat := active_count (ul_batches l).

(** [(relation, block)] order of pages *)
Definition page_le (p q : PageId) : Prop :=
  pg_relation p < pg_relation q \/ pg_relation p = pg_relation q /\ pg_block p <= pg_block q.
#[global] Instance page_le_dec : RelDecision page_le.
Proof. unfold page_le. intros p q. apply _. Defined.

Definition keys_written_by {K A} `{Countable K} (writer : A -> Xid) (xid : Xid) (r : Recs K A) : list K :=
  map fst (filter (fun kv : K * list nat =>
    existsb (fun i => match active_at r i with Some (a, _) => writer a =? xid | None => false end) kv.2 = true)
    (map_to_list (rc_index r))).

Definition pages_written_by (xid : Xid) (l : UndoRelationLog) : list PageId :=
  let of_entries := map tid_page (keys_written_by ue_writer_xid xid (ul_entries l)) in
  let of_batches := keys_written_by ub_writer_xid xid (ul_batches l) in
  merge_sort page_le (elements (list_to_set (of_entries ++ of_batches) : gset PageId)).

Definition on_page (page : PageId) (tid : TupleId) : bool := bool_decide (tid_page tid = page).

Definition number_le {A} (p q : nat * A) : Prop := (p.1 <= q.1)%nat.
#[global] Instance number_le_dec {A} : RelDecision (@number_le A).
Proof. unfold number_le. intros p q. apply _. Defined.

Definition entries_written_by_on_page (xid : Xid) (page : PageId) (l : UndoRelationLog) : list (Z * UndoEntry) :=
  map (fun p => (md_sequence p.2.2, p.2.1))
    (merge_sort number_le
      (filter (fun p => ue_writer_xid p.2.1 = xid) (indexed_on (on_page page) (ul_entries l)))).

Definition batches_written_by_on_page (xid : Xid) (page : PageId) (l : UndoRelationLog)
    : list (Z * Int32PairUndoBatch) :=
  map (fun p => (md_sequence p.2, p.1))
    (filter (fun p => ub_writer_xid p.1 = xid) (ordered_for (ul_batches l) page)).

Definition has_active_history_for_tid_excluding (tid : TupleId) (xid : Xid) (l : UndoRelationLog) : bool :=
  existsb (fun e => negb (ue_writer_xid e =? xid)) (entries_for_tid l tid)
  || existsb (fun b => negb (ub_writer_xid b =? xid) && contains_slot b (tid_slot tid))
       (batches_for_page l (tid_page tid)).

Definition deactivate_written_by_on_page (xid : Xid) (page : PageId) (l : UndoRelationLog) : UndoRelationLog :=
  let tids := map_to_list (rc_index (ul_entries l)) ≫= (fun kv : TupleId * list nat =>
    if on_page page kv.1 then kv.2 else []) in
  mk_UndoRelationLog (next_sequence l)
    (recs_deactivate ue_writer_xid xid tids (ul_entries l))
    (recs_deactivate ub_writer_xid xid (index_for (ul_batches l) page) (ul_batches l)).

Definition rebuild_indices (l : UndoRelationLog) : UndoRelationLog :=
  mk_UndoRelationLog (next_sequence l) (recs_rebuild ue_tid (ul_entries l)) (recs_rebuild ub_page (ul_batches l)).

Definition compact_inactive_records (l : UndoRelationLog) : UndoRelationLog :=
  rebuild_indices (mk_UndoRelationLog (next_sequence l)
    (recs_split (fun _ m => md_active m) (ul_entries l)).1 (recs_split (fun _ m => md_active m) (ul_batches l)).1).

Definition take_written_by (xid : Xid) (l : UndoRelationLog)
    : (list UndoEntry * list Int32PairUndoBatch) * UndoRelationLog :=
  let '(es, taken_entries) := recs_split (fun e _ => negb (ue_writer_xid e =? xid)) (ul_entries l) in
  let '(bs, taken_batches) := recs_split (fun b _ => negb (ub_writer_xid b =? xid)) (ul_batches l) in
  ((taken_entries, taken_batches), rebuild_indices (mk_UndoRelationLog (next_sequence l) es bs)).

Definition trim_below (oldest_active_xid : Xid) (l : UndoRelationLog) : (Z * Z) * UndoRelationLog :=
  let '(es, te) := recs_split (fun e m => md_active m && (oldest_active_xid <=? ue_writer_xid e)) (ul_entries l) in
  let '(bs, tb) := recs_split (fun b m => md_active m && (oldest_active_xid <=? ub_writer_xid b)) (ul_batches l) in
  let trimmed := (Z.of_nat (length te), Z.of_nat (length tb)) in
  let l' := mk_UndoRelationLog (next_sequence l) es bs in
  (trimmed, if decide (trimmed = (0, 0)) then l' else rebuild_indices l').

(** ** The page-scoped copy a scan takes under the page latch *)

Definition sequence_le {A} (p q : Z * A) : Prop := p.1 <= q.1.
#[global] Instance sequence_le_dec {A} : RelDecision (@sequence_le A).
Proof. unfold sequence_le. intros p q. apply _. Defined.

Fixpoint snapshot_loop (entries : list (Z * UndoEntry)) : list (Z * Int32PairUndoBatch) -> UndoRelationLog -> UndoRelationLog :=
  fix go batches snapshot :=
    match entries, batches with
    | (es, e) :: entries', (bs, b) :: batches' =>
        if es <? bs then snapshot_loop entries' batches (push_entry e snapshot)
        else go batches' (push_int32_pair_batch b snapshot)
    | (_, e) :: entries', [] => snapshot_loop entries' batches (push_entry e snapshot)
    | [], (_, b) :: batches' => go batches' (push_int32_pair_batch b snapshot)
    | [], [] => snapshot
    end.

Definition snapshot_page (page : PageId) (l : UndoRelationLog) : UndoRelationLog :=
  let entries := map (fun p => (md_sequence p.2.2, p.2.1)) (indexed_on (on_page page) (ul_entries l)) in
  let batches := map (fun p => (md_sequence p.2, p.1)) (ordered_for (ul_batches l) page) in
  snapshot_loop (merge_sort sequence_le entries) (merge_sort sequence_le batches) UndoRelationLog_default.

(** ** The payload a snapshot must see *)

Definition I32_MIN : Z := - 2 ^ 31.
Definition I32_MAX : Z := 2 ^ 31 - 1.
Definition to_i32 (v : Z) : Z := if v <? 2 ^ 31 then v else v - U32.
Definition i32_bytes (v : Z) : list Z := le_encode 4 (wrap U32 v).

(** The [i64] subtraction of two [i32] values cannot overflow. *)
Definition reverse_one_compact_delta (payload : list Z) (target_col delta : Z) : option (list Z) :=
  let offset := if target_col =? 0 then 1 else 5 in
  if zlen payload <? offset + 4 then None else
  let current := to_i32 (zread 4 offset payload) in
  let restored := current - delta in
  if (I32_MIN <=? restored) && (restored <=? I32_MAX) then Some (zsplice offset (i32_bytes restored) payload) else None.

Section reader.
Context {O : Type} `{XidStatusOracle O}.

Definition undo_writer_visible_to_snapshot (writer : Xid) (command_id : CommandId) (s : Snapshot) (oracle : O) : bool :=
  if own_subxid_rolled_back s writer then false
  else if is_current_xid s writer then command_id <? current_command s
  else if xid_in_progress s writer then false
  else match status oracle writer with Committed | Frozen => true | InProgress | Aborted => false end.

Section loop.
Context (s : Snapshot) (oracle : O) (current_payload : list Z).

(** One record of the merged streams: [None] is the early return of [?]. *)
Definition undo_full (e : UndoEntry) (pre_image : option (list Z)) : option (option (list Z)) :=
  if undo_writer_visible_to_snapshot (ue_writer_xid e) (ue_command_id e) s oracle then Some pre_image
  else Some (Some (ue_old_payload e)).
Definition undo_compact (b : Int32PairUndoBatch) (pre_image : option (list Z)) : option (option (list Z)) :=
  if undo_writer_visible_to_snapshot (ub_writer_xid b) (ub_command_id b) s oracle then Some pre_image
  else Some <$> reverse_one_compact_delta (default (take 9 current_payload) pre_image) (ub_target_col b) (ub_delta b).

Fixpoint undo_loop (full : list (UndoEntry * UndoRecordMetadata))
    : list (Int32PairUndoBatch * UndoRecordMetadata) -> option (list Z) -> option (list Z) :=
  fix go compact pre_image :=
    match full, compact with
    | (e, em) :: full', (b, bm) :: compact' =>
        if md_sequence bm <? md_sequence em then p ← undo_full e pre_image; undo_loop full' compact p
        else p ← undo_compact b pre_image; go compact' p
    | (e, _) :: full', [] => p ← undo_full e pre_image; undo_loop full' compact p
    | [], (b, _) :: compact' => p ← undo_compact b pre_image; go compact' p
    | [], [] => pre_image
    end.
End loop.

Definition undo_pre_image_from_log (log : UndoRelationLog) (tid : TupleId) (current_payload : list Z)
    (s : Snapshot) (oracle : O) : option (list Z) :=
  if zlen current_payload <? 9 then None else
  undo_loop s oracle current_payload
    (reverse (ordered_for (ul_entries log) tid))
    (filter (fun p => contains_slot p.1 (tid_slot tid) = true) (reverse (ordered_for (ul_batches log) (tid_page tid))))
    None.
End reader.
