(* ===== verification/UndoLogSpec.v ===== *)
(** * The undo log as one timeline of records

    The invariant of the undo log (the vectors and the metadata have one
    length, the indices list the active records of their key in order, the
    two kinds share one increasing sequence), that every operation keeps it,
    and the timeline of active records the log stands for: pushing appends,
    deactivating, trimming and copying a page filter, compacting changes
    nothing, and reading a slot's payload undoes the slot's records that the
    snapshot does not see, newest first. *)

From S2P Require Import Prelude CoreIds TupleHeader Snapshot Visibility Bytes UndoLog.

(** ** Sorted lists of numbers *)

Lemma sorted_nat_unique (l k : list nat) :
  StronglySorted lt l -> StronglySorted lt k -> (forall i, i ∈ l <-> i ∈ k) -> l = k.
Proof.
  intros Hl Hk He.
  assert (Hnd : forall m, StronglySorted lt m -> NoDup m).
  { induction 1 as [|a m _ IH Ha]; constructor; [|done]. intros Hin.
    rewrite Forall_forall in Ha. specialize (Ha a Hin). lia. }
  apply (StronglySorted_unique_strong lt l k); [|done|done|].
  - intros i j _ _ Hij Hji. lia.
  - apply NoDup_Permutation; auto.
Qed.

Lemma sorted_seq i n : StronglySorted lt (seq i n).
Proof.
  revert i. induction n as [|n IH]; intros i; cbn; constructor; [apply IH|].
  apply Forall_forall. intros j Hj%elem_of_seq. lia.
Qed.

Lemma sorted_filter {A} (R : A -> A -> Prop) (P : A -> Prop) `{forall x, Decision (P x)} l :
  StronglySorted R l -> StronglySorted R (filter P l).
Proof.
  induction 1 as [|a l Hs IH Ha]; [constructor|]. rewrite filter_cons. case_decide; [|done].
  constructor; [done|]. rewrite Forall_forall in *. intros x Hx%list_elem_of_filter. apply Ha, Hx.
Qed.

Lemma omap_filter_some {A B} (f : A -> option B) (l : list A) : omap f l = omap f (filter (fun x => is_Some (f x)) l).
Proof.
  induction l as [|a l IH]; [done|]. rewrite filter_cons. cbn. case_decide as Hd.
  - cbn. by rewrite IH.
  - apply eq_None_not_Some in Hd. by rewrite Hd.
Qed.

Lemma omap_sorted_cover {B} (f : nat -> option B) (l : list nat) n :
  StronglySorted lt l -> (forall i, is_Some (f i) -> (i < n)%nat /\ i ∈ l) ->
  omap f l = omap f (seq 0 n).
Proof.
  intros Hl Hc. rewrite (omap_filter_some f l), (omap_filter_some f (seq 0 n)). f_equal.
  apply sorted_nat_unique; [by apply sorted_filter|apply sorted_filter, sorted_seq|].
  intros i. rewrite !list_elem_of_filter, elem_of_seq. naive_solver lia.
Qed.

Lemma omap_lookup_from {A B} (h : A -> option B) (pre l : list A) :
  omap (fun i => (pre ++ l) !! i ≫= h) (seq (length pre) (length l)) = omap h l.
Proof.
  revert pre. induction l as [|a l IH]; intros pre; [done|]. cbn [length seq omap list_omap].
  rewrite list_lookup_middle by done. cbn [mbind option_bind]. specialize (IH (pre ++ [a])).
  rewrite <- app_assoc, length_app in IH. cbn [length app] in IH.
  replace (length pre + 1)%nat with (S (length pre)) in IH by lia. by rewrite IH.
Qed.

Lemma omap_lookup_seq {A B} (h : A -> option B) (l : list A) :
  omap (fun i => l !! i ≫= h) (seq 0 (length l)) = omap h l.
Proof. apply (omap_lookup_from h []). Qed.

Lemma omap_guard_filter {A} (P : A -> Prop) `{forall x, Decision (P x)} (l : list A) :
  omap (fun x => if decide (P x) then Some x else None) l = filter P l.
Proof. induction l as [|a l IH]; [done|]. rewrite filter_cons. cbn. case_decide; by rewrite IH. Qed.

Lemma omap_ext_in {A B} (f g : A -> option B) (l : list A) : (forall x, x ∈ l -> f x = g x) -> omap f l = omap g l.
Proof.
  induction l as [|a l IH]; intros He; [done|]. cbn. rewrite He by apply list_elem_of_here.
  rewrite IH; [done|]. intros x Hx. apply He. by right.
Qed.

Lemma filter_forall2 {X} (act : X -> bool) (Q : X -> Prop) `{forall x, Decision (Q x)} (l l' : list X) :
  Forall2 (fun p p' => act p = true -> if decide (Q p) then act p' = false else p' = p) l l' ->
  Forall2 (fun p p' => act p = false -> act p' = false) l l' ->
  filter (fun p => act p = true) l' = filter (fun p => ~ Q p) (filter (fun p => act p = true) l).
Proof.
  induction 1 as [|p p' l l' Hp HF IH]; intros HF'; [done|]. apply Forall2_cons in HF' as [Hp' HF'].
  rewrite (filter_cons _ p' l'), (filter_cons _ p l), IH by done.
  destruct (act p) eqn:Ep.
  - specialize (Hp eq_refl). rewrite (decide_True (P := true = true)) by done. rewrite filter_cons.
    destruct (decide (Q p)) as [Hq|Hq].
    + rewrite Hp. rewrite decide_False by done. rewrite decide_False by (intros Hn; by apply Hn). done.
    + subst p'. rewrite Ep. rewrite !decide_True by done. done.
  - rewrite Hp' by done. rewrite !decide_False by done. done.
Qed.

(** ** One record kind *)

Section recs.
Context {K A : Type} `{Countable K}.

Definition pairs (r : Recs K A) : list (A * UndoRecordMetadata) := zip (rc_items r) (rc_meta r).
Definition actives (r : Recs K A) : list (A * UndoRecordMetadata) := filter (fun p => md_active p.2 = true) (pairs r).

Lemma pairs_lookup r i p : pairs r !! i = Some p <-> rc_items r !! i = Some p.1 /\ rc_meta r !! i = Some p.2.
Proof. unfold pairs. rewrite lookup_zip_with_Some. destruct p. naive_solver. Qed.

Lemma active_at_pairs r i :
  active_at r i = pairs r !! i ≫= (fun p => if decide (md_active p.2 = true) then Some p else None).
Proof.
  unfold active_at, pairs. rewrite lookup_zip_with.
  destruct (rc_meta r !! i) as [m|], (rc_items r !! i) as [a|]; cbn; try done; destruct (md_active m); done.
Qed.

Lemma active_at_Some r i p : active_at r i = Some p <-> pairs r !! i = Some p /\ md_active p.2 = true.
Proof.
  rewrite active_at_pairs. destruct (pairs r !! i) as [q|] eqn:E; cbn; [|naive_solver].
  case_decide; naive_solver.
Qed.

Lemma active_at_elem r i p : active_at r i = Some p -> p ∈ actives r.
Proof. intros [Hp Ha]%active_at_Some. apply list_elem_of_filter. split; [done|]. by eapply list_elem_of_lookup_2. Qed.

Lemma actives_elem r p : p ∈ actives r -> exists i, active_at r i = Some p.
Proof. intros [Ha [i Hi]%list_elem_of_lookup_1]%list_elem_of_filter. exists i. by apply active_at_Some. Qed.

Lemma pairs_split keep (r : Recs K A) : pairs (recs_split keep r).1 = filter (fun p => keep p.1 p.2 = true) (pairs r).
Proof. unfold recs_split, pairs; cbn. by rewrite zip_fst_snd. Qed.

Lemma recs_split_length keep (r : Recs K A) : length (rc_meta (recs_split keep r).1) = length (rc_items (recs_split keep r).1).
Proof. cbn. by rewrite !length_fmap. Qed.

Section deactivate.
Context (writer : A -> Xid).
Definition inactive (m : UndoRecordMetadata) : UndoRecordMetadata := mk_UndoRecordMetadata (md_sequence m) false.

Lemma deactivate_lookup xid items meta js i :
  foldl (deactivate_at writer xid items) meta js !! i =
  (fun m => if decide (i ∈ js /\ writer <$> items !! i = Some xid) then inactive m else m) <$> meta !! i.
Proof.
  revert meta. induction js as [|j js IH]; intros meta; cbn [foldl].
  - destruct (meta !! i); cbn; [|done]. rewrite decide_False; [done|]. intros [Hi _]. by apply not_elem_of_nil in Hi.
  - rewrite IH. unfold deactivate_at. destruct (items !! j) as [a|] eqn:Ea.
    + destruct (Z.eqb_spec (writer a) xid) as [Hx|Hx].
      * destruct (decide (j = i)) as [->|Hne].
        -- rewrite list_lookup_alter_eq. destruct (meta !! i) as [m|]; cbn; [|done].
           rewrite Ea. cbn. rewrite Hx. f_equal.
           clear IH. rewrite (decide_True (P := i ∈ i :: js /\ Some xid = Some xid)); [by case_match|].
           split; [apply list_elem_of_here|done].
        -- rewrite list_lookup_alter_ne by done. destruct (meta !! i); cbn; [|done]. f_equal.
           apply decide_ext. rewrite elem_of_cons. naive_solver.
      * destruct (meta !! i); cbn; [|done]. f_equal. apply decide_ext. rewrite elem_of_cons.
        split; [naive_solver|]. intros [[->|?] He]; [rewrite Ea in He; naive_solver|done].
    + destruct (meta !! i); cbn; [|done]. f_equal. apply decide_ext. rewrite elem_of_cons.
      split; [naive_solver|]. intros [[->|?] He]; [by rewrite Ea in He|done].
Qed.

Lemma length_deactivate xid items meta js : length (foldl (deactivate_at writer xid items) meta js) = length meta.
Proof.
  revert meta. induction js as [|j js IH]; intros meta; [done|]. cbn. rewrite IH. unfold deactivate_at.
  destruct (items !! j); [|done]. case_match; [|done]. by rewrite length_alter.
Qed.

End deactivate.

Context (key : A -> K).

Record recs_wf (r : Recs K A) : Prop := {
  rw_length : length (rc_meta r) = length (rc_items r);
  rw_sorted k : StronglySorted lt (index_for r k);
  rw_sound k i : i ∈ index_for r k -> exists a, rc_items r !! i = Some a /\ key a = k;
  rw_complete i a m : rc_items r !! i = Some a -> rc_meta r !! i = Some m -> md_active m = true ->
    i ∈ index_for r (key a);
}.

Lemma length_pairs r : recs_wf r -> length (pairs r) = length (rc_items r).
Proof. intros Hw. unfold pairs. rewrite length_zip_with, (rw_length r Hw). lia. Qed.

(** The index finds exactly the active records of a key, in order. *)
Lemma ordered_for_eq r k : recs_wf r -> ordered_for r k = filter (fun p => key p.1 = k) (actives r).
Proof.
  intros Hw. unfold ordered_for.
  set (g i := active_at r i ≫= (fun p => if decide (key p.1 = k) then Some p else None)).
  trans (omap g (index_for r k)).
  { apply omap_ext_in. intros i (a & Ha & Hk)%(rw_sound r Hw). unfold g.
    destruct (active_at r i) as [p|] eqn:E; [|done]. cbn. apply active_at_Some in E as [[Hp _]%pairs_lookup _].
    rewrite decide_True by congruence. done. }
  rewrite (omap_sorted_cover g _ (length (pairs r))); [|apply (rw_sorted r Hw)|].
  - unfold g, actives. rewrite <- omap_guard_filter, <- omap_guard_filter.
    rewrite <- (omap_lookup_seq _ (pairs r)).
    (* both sides filter the lookups of the whole vector *)
    generalize (seq 0 (length (pairs r))). intros l. induction l as [|i l IH]; [done|]. cbn.
    rewrite active_at_pairs. destruct (pairs r !! i) as [p|]; cbn; [|done].
    case_decide; cbn; [|done]. case_decide; cbn; by rewrite IH.
  - intros i [p Hp]. unfold g in Hp. destruct (active_at r i) as [q|] eqn:E; [|done]. cbn in Hp.
    case_decide as Hk; [|done]. apply active_at_Some in E as [Hl Ha]. split; [by eapply lookup_lt_Some|].
    apply pairs_lookup in Hl as [Hi Hm]. rewrite <- Hk. by eapply (rw_complete r Hw).
Qed.

Lemma recs_wf_empty : recs_wf recs_empty.
Proof.
  split; cbn; [done| | |done]; unfold index_for; cbn; intros k; rewrite lookup_empty; cbn; [constructor|].
  intros i Hi. by apply not_elem_of_nil in Hi.
Qed.

(** *** Pushing *)

Lemma index_for_push r sq a k :
  index_for (recs_push key sq a r) k = index_for r k ++ (if decide (key a = k) then [length (rc_items r)] else []).
Proof.
  unfold index_for, recs_push, index_push; cbn. case_decide as Hk.
  - subst. by rewrite lookup_insert_eq.
  - rewrite lookup_insert_ne by done. by rewrite app_nil_r.
Qed.

Lemma pairs_push r sq a : recs_wf r -> pairs (recs_push key sq a r) = pairs r ++ [(a, mk_UndoRecordMetadata sq true)].
Proof. intros Hw. unfold pairs, recs_push; cbn. rewrite zip_with_app by (by rewrite (rw_length r Hw)). done. Qed.

Lemma actives_push r sq a :
  recs_wf r -> actives (recs_push key sq a r) = actives r ++ [(a, mk_UndoRecordMetadata sq true)].
Proof. intros Hw. unfold actives. rewrite pairs_push by done. by rewrite filter_app. Qed.

Lemma index_bound r k i : recs_wf r -> i ∈ index_for r k -> (i < length (rc_items r))%nat.
Proof. intros Hw (a & Ha & _)%(rw_sound r Hw). by eapply lookup_lt_Some. Qed.

Lemma log_sorted_snoc l n : StronglySorted lt l -> Forall (fun i => (i < n)%nat) l -> StronglySorted lt (l ++ [n]).
Proof.
  induction 1 as [|a l Hs IH Ha]; intros Hn; cbn; [repeat constructor|]. apply Forall_cons in Hn as [Hn Hl].
  constructor; [auto|]. apply Forall_app. split; [done|by constructor].
Qed.

Lemma recs_push_wf r sq a : recs_wf r -> recs_wf (recs_push key sq a r).
Proof.
  intros Hw. split.
  - cbn. rewrite !length_app, (rw_length r Hw). done.
  - intros k. rewrite index_for_push. case_decide; [|rewrite app_nil_r; apply (rw_sorted r Hw)].
    apply log_sorted_snoc; [apply (rw_sorted r Hw)|]. apply Forall_forall. intros i. by apply index_bound.
  - intros k i. rewrite index_for_push, elem_of_app. cbn. intros [Hi|Hi].
    + apply (rw_sound r Hw) in Hi as (b & Hb & Hk). exists b. split; [by apply lookup_app_l_Some|done].
    + case_decide; [|by apply not_elem_of_nil in Hi]. apply list_elem_of_singleton in Hi as ->.
      exists a. by rewrite list_lookup_middle.
  - intros i b m Hb Hm Ha. rewrite index_for_push, elem_of_app. cbn in Hb, Hm.
    apply lookup_app_Some in Hb as [Hb|[Hge Hb]].
    + left. apply lookup_app_Some in Hm as [Hm|[Hge _]]; [by eapply (rw_complete r Hw)|].
      rewrite (rw_length r Hw) in Hge. apply lookup_lt_Some in Hb. lia.
    + right. apply list_lookup_singleton_Some in Hb as [Hi ->]. rewrite decide_True by done.
      apply list_elem_of_singleton. lia.
Qed.

(** *** Deactivating *)

Lemma recs_deactivate_wf (writer : A -> Xid) xid js r : recs_wf r -> recs_wf (recs_deactivate writer xid js r).
Proof.
  intros Hw. split.
  - cbn. rewrite length_deactivate. apply Hw.
  - apply Hw.
  - apply Hw.
  - intros i a m Ha Hm Hact. cbn in *. rewrite deactivate_lookup in Hm.
    apply fmap_Some in Hm as (m0 & Hm0 & ->). apply (rw_complete r Hw i a m0); try done.
    case_decide; [done|]. done.
Qed.

Lemma actives_deactivate (writer : A -> Xid) xid js r (Q : A * UndoRecordMetadata -> Prop) `{forall p, Decision (Q p)} :
  recs_wf r ->
  (forall i p, active_at r i = Some p -> Q p <-> i ∈ js /\ writer p.1 = xid) ->
  actives (recs_deactivate writer xid js r) = filter (fun p => ~ Q p) (actives r).
Proof.
  intros Hw HQ. unfold actives.
  assert (Hpt : forall i p, pairs r !! i = Some p ->
    pairs (recs_deactivate writer xid js r) !! i =
      Some (p.1, if decide (i ∈ js /\ writer p.1 = xid) then inactive p.2 else p.2)).
  { intros i p [Hi Hm]%pairs_lookup. apply pairs_lookup. cbn. split; [done|].
    rewrite deactivate_lookup, Hi, Hm. cbn. f_equal. apply decide_ext. naive_solver. }
  assert (Hlen : length (pairs (recs_deactivate writer xid js r)) = length (pairs r)).
  { rewrite !length_pairs by auto using recs_deactivate_wf. done. }
  apply (filter_forall2 (fun p => md_active p.2)); apply Forall2_same_length_lookup_2; try done;
    intros i p p' Hp Hp' Ha; rewrite (Hpt i p Hp) in Hp'; simplify_eq/=.
  - pose proof (HQ i p (proj2 (active_at_Some r i p) (conj Hp Ha))) as HQi.
    destruct (decide (Q p)); [rewrite decide_True by naive_solver; done|].
    rewrite decide_False by naive_solver. by destruct p.
  - by case_decide.
Qed.

(** *** Dropping records and rebuilding the index *)

Lemma rebuild_from_spec items meta i index k :
  let old := default [] (index !! k) in
  let new := default [] (rebuild_from key i items meta index !! k) in
  StronglySorted lt old -> Forall (fun j => (j < i)%nat) old ->
  StronglySorted lt new /\
  (forall j, j ∈ new <-> j ∈ old \/
     exists d a m, j = (i + d)%nat /\ items !! d = Some a /\ meta !! d = Some m /\ md_active m = true /\ key a = k).
Proof.
  revert meta i index. induction items as [|a items IH]; intros meta i index old new Hs Hlt.
  { split; [done|]. intros j. split; [by left|]. intros [|(? & ? & ? & _ & ? & _)]; done. }
  destruct meta as [|m meta].
  { split; [done|]. intros j. split; [by left|]. intros [|(? & ? & ? & _ & _ & ? & _)]; done. }
  assert (Hnew : forall j,
    (exists d b mb, j = (i + d)%nat /\ (a :: items) !! d = Some b /\ (m :: meta) !! d = Some mb /\
       md_active mb = true /\ key b = k) <->
    (j = i /\ md_active m = true /\ key a = k) \/
    (exists d b mb, j = (S i + d)%nat /\ items !! d = Some b /\ meta !! d = Some mb /\ md_active mb = true /\ key b = k)).
  { intros j. split.
    - intros ([|d] & b & mb & -> & Hb & Hm & Ha & Hk); simplify_eq/=; [left; split; [lia|done]|].
      right. exists d, b, mb. split; [lia|done].
    - intros [(-> & Ha & Hk)|(d & b & mb & -> & ?)]; [exists 0%nat, a, m; split; [lia|done]|].
      exists (S d), b, mb. split; [lia|done]. }
  unfold new. cbn [rebuild_from].
  set (index' := if md_active m then index_push (key a) i index else index).
  assert (Hold : default [] (index' !! k) = old ++ (if decide (md_active m = true /\ key a = k) then [i] else [])).
  { unfold index', old. destruct (md_active m); [|rewrite decide_False by naive_solver; by rewrite app_nil_r].
    unfold index_push. destruct (decide (key a = k)) as [->|Hk].
    - rewrite lookup_insert_eq, decide_True by done. done.
    - rewrite lookup_insert_ne by done. rewrite decide_False by naive_solver. by rewrite app_nil_r. }
  destruct (IH meta (S i) index') as [Hs' Hin'].
  - rewrite Hold. case_decide; [by apply log_sorted_snoc|by rewrite app_nil_r].
  - rewrite Hold. apply Forall_app. split; [eapply Forall_impl; [done|]; cbn; lia|].
    case_decide; repeat constructor.
  - split; [done|]. intros j. rewrite Hin', Hold, elem_of_app, Hnew.
    case_decide; rewrite ?list_elem_of_singleton, ?elem_of_nil; naive_solver.
Qed.

Lemma recs_rebuild_wf r : length (rc_meta r) = length (rc_items r) -> recs_wf (recs_rebuild key r).
Proof.
  intros Hl.
  assert (Hspec : forall k, _) by (intros k; apply (rebuild_from_spec (rc_items r) (rc_meta r) 0 ∅ k);
    rewrite lookup_empty; constructor).
  split; [done| | |].
  - intros k. apply Hspec.
  - intros k i Hi. apply Hspec in Hi as [Hi|(d & a & m & -> & Ha & _ & _ & Hk)].
    + rewrite lookup_empty in Hi. by apply not_elem_of_nil in Hi.
    + by exists a.
  - intros i a m Ha Hm Hact. apply Hspec. right. by exists i, a, m.
Qed.

Lemma pairs_rebuild r : pairs (recs_rebuild key r) = pairs r.
Proof. done. Qed.

Lemma split_nothing keep (r : Recs K A) : recs_wf r -> (recs_split keep r).2 = [] -> (recs_split keep r).1 = r.
Proof.
  intros Hw Hd. unfold recs_split in *. cbn in *. apply fmap_nil_inv in Hd.
  assert (Hall : filter (fun p => keep p.1 p.2 = true) (zip (rc_items r) (rc_meta r)) = zip (rc_items r) (rc_meta r)).
  { revert Hd. generalize (zip (rc_items r) (rc_meta r)). intros l. induction l as [|p l IH]; [done|].
    rewrite !filter_cons. destruct (keep p.1 p.2) eqn:E.
    - rewrite decide_False, decide_True by done. intros Hd. by rewrite IH.
    - rewrite decide_True by done. done. }
  rewrite Hall. destruct r as [items meta index]; cbn. pose proof (rw_length _ Hw) as Hl; cbn in Hl.
  rewrite fst_zip, snd_zip by lia. done.
Qed.

(** *** The records of a set of keys *)

Lemma indexed_on_elem sel r i p :
  recs_wf r -> (i, p) ∈ indexed_on sel r <-> active_at r i = Some p /\ sel (key p.1) = true.
Proof.
  intros Hw. unfold indexed_on. rewrite list_elem_of_bind. split.
  - intros ([k js] & Hi & Hk). cbn in Hi. destruct (sel k) eqn:Es; [|by apply not_elem_of_nil in Hi].
    apply list_elem_of_omap in Hi as (j & Hj & Hp). apply fmap_Some in Hp as (q & Hq & [= -> ->]).
    split; [done|]. apply elem_of_map_to_list in Hk.
    destruct (rw_sound r Hw k j) as (a & Ha & Hka); [unfold index_for; by rewrite Hk|].
    apply active_at_Some in Hq as [[Hq _]%pairs_lookup _]. congruence.
  - intros [Hp Hs]. pose proof Hp as [Hl Ha]%active_at_Some. apply pairs_lookup in Hl as [Hi Hm].
    pose proof (rw_complete r Hw i p.1 p.2 Hi Hm Ha) as Hin. unfold index_for in Hin.
    destruct (rc_index r !! key p.1) as [js|] eqn:E; [|by apply not_elem_of_nil in Hin].
    exists (key p.1, js). split; [|by apply elem_of_map_to_list]. cbn. rewrite Hs.
    apply list_elem_of_omap. exists i. split; [done|]. by rewrite Hp.
Qed.

Lemma sorted_NoDup (l : list nat) : StronglySorted lt l -> NoDup l.
Proof.
  induction 1 as [|a l _ IH Ha]; constructor; [|done]. intros Hin. rewrite Forall_forall in Ha.
  specialize (Ha a Hin). lia.
Qed.

Lemma indexed_on_NoDup sel r : recs_wf r -> NoDup (indexed_on sel r).
Proof.
  intros Hw. unfold indexed_on. apply NoDup_bind.
  - intros [k1 js1] [k2 js2] [i p] H1 H2. cbn. destruct (sel k1), (sel k2);
      rewrite ?list_elem_of_omap, ?elem_of_nil; try done.
    intros (j1 & Hj1 & (q1 & Hq1 & [= -> ->])%fmap_Some) (j2 & Hj2 & (q2 & Hq2 & [= -> ->])%fmap_Some).
    apply elem_of_map_to_list in H1, H2.
    destruct (rw_sound r Hw k1 j2) as (a & Ha & <-); [unfold index_for; by rewrite H1|].
    destruct (rw_sound r Hw k2 j2) as (b & Hb & <-); [unfold index_for; by rewrite H2|]. congruence.
  - intros [k js] Hk. cbn. destruct (sel k); [|constructor]. apply elem_of_map_to_list in Hk.
    assert (NoDup js) as Hnd.
    { apply sorted_NoDup. pose proof (rw_sorted r Hw k) as Hs. unfold index_for in Hs. by rewrite Hk in Hs. }
    clear Hk. induction Hnd as [|j js Hj _ IH]; cbn; [constructor|].
    destruct (active_at r j) as [q|]; cbn; [|done]. constructor; [|done].
    intros (j' & Hj' & (q' & _ & [= <- _])%fmap_Some)%list_elem_of_omap. done.
  - apply NoDup_map_to_list.
Qed.

(** The same records, walked in vector order. *)
Definition numbered (sel : K -> bool) (r : Recs K A) : list (nat * (A * UndoRecordMetadata)) :=
  omap (fun i => p ← active_at r i; if sel (key p.1) then Some (i, p) else None) (seq 0 (length (pairs r))).

Lemma numbered_snd sel r : (numbered sel r).*2 = filter (fun p => sel (key p.1) = true) (actives r).
Proof.
  unfold numbered, actives. rewrite <- omap_guard_filter, <- omap_guard_filter, <- (omap_lookup_seq _ (pairs r)).
  generalize (seq 0 (length (pairs r))). intros l. induction l as [|i l IH]; [done|]. cbn.
  rewrite active_at_pairs. destruct (pairs r !! i) as [p|]; cbn; [|done].
  case_decide; cbn; [|done]. destruct (sel (key p.1)); cbn; by rewrite IH.
Qed.

Lemma numbered_elem sel r i p : (i, p) ∈ numbered sel r <-> active_at r i = Some p /\ sel (key p.1) = true.
Proof.
  unfold numbered. rewrite list_elem_of_omap. split.
  - intros (j & _ & Hj). destruct (active_at r j) as [q|] eqn:E; [|done]. cbn in Hj.
    destruct (sel (key q.1)) eqn:Es; [|done]. by simplify_eq.
  - intros [Hp Hs]. exists i. split; [|by rewrite Hp; cbn; rewrite Hs].
    apply active_at_Some in Hp as [Hl%lookup_lt_Some _]. apply elem_of_seq. lia.
Qed.

Lemma numbered_sorted sel r : StronglySorted (fun p q : nat * (A * UndoRecordMetadata) => p.1 < q.1)%nat (numbered sel r).
Proof.
  unfold numbered. generalize (sorted_seq 0 (length (pairs r))). generalize (seq 0 (length (pairs r))).
  induction 1 as [|i l Hs IH Hi]; cbn; [constructor|]. destruct (active_at r i) as [p|]; cbn; [|done].
  destruct (sel (key p.1)); cbn; [|done]. constructor; [done|]. rewrite Forall_forall in Hi.
  apply Forall_forall. intros [j q] (i' & Hi' & Hq)%list_elem_of_omap. destruct (active_at r i'); [|done]. cbn in Hq.
  case_match; simplify_eq. cbn. by apply Hi.
Qed.

Lemma numbered_NoDup sel r : NoDup (numbered sel r).
Proof.
  pose proof (numbered_sorted sel r) as Hs. induction Hs as [|p l _ IH Hp]; constructor; [|done].
  intros Hin. rewrite Forall_forall in Hp. specialize (Hp p Hin). lia.
Qed.

Lemma indexed_on_numbered sel r : recs_wf r -> indexed_on sel r ≡ₚ numbered sel r.
Proof.
  intros Hw. apply NoDup_Permutation; [by apply indexed_on_NoDup|apply numbered_NoDup|].
  intros [i p]. by rewrite numbered_elem, indexed_on_elem.
Qed.
End recs.

(** ** The timeline *)

Inductive Rec := REntry (e : UndoEntry) | RBatch (b : Int32PairUndoBatch).

Definition rec_writer (r : Rec) : Xid := match r with REntry e => ue_writer_xid e | RBatch b => ub_writer_xid b end.
Definition rec_command (r : Rec) : CommandId := match r with REntry e => ue_command_id e | RBatch b => ub_command_id b end.
Definition rec_page (r : Rec) : PageId := match r with REntry e => tid_page (ue_tid e) | RBatch b => ub_page b end.
Definition rec_touches (tid : TupleId) (r : Rec) : bool :=
  match r with
  | REntry e => bool_decide (ue_tid e = tid)
  | RBatch b => bool_decide (ub_page b = tid_page tid) && contains_slot b (tid_slot tid)
  end.

Definition push_rec (l : UndoRelationLog) (r : Rec) : UndoRelationLog :=
  match r with REntry e => push_entry e l | RBatch b => push_int32_pair_batch b l end.

Definition tagged {A} (f : A -> Rec) (l : list (A * UndoRecordMetadata)) : list (Z * Rec) :=
  map (fun p => (md_sequence p.2, f p.1)) l.

Definition before {X} (p q : Z * X) : Prop := p.1 < q.1.
Definition after {X} (p q : Z * X) : Prop := q.1 < p.1.
#[global] Instance before_dec {X} : RelDecision (@before X).
Proof. unfold before. intros p q. apply _. Defined.
#[global] Instance after_dec {X} : RelDecision (@after X).
Proof. unfold after. intros p q. apply _. Defined.

Definition timeline (l : UndoRelationLog) : list (Z * Rec) :=
  list_merge before (tagged REntry (actives (ul_entries l))) (tagged RBatch (actives (ul_batches l))).

Definition records (l : UndoRelationLog) : list Rec := (timeline l).*2.

Definition seqs {K A} `{Countable K} (r : Recs K A) : list Z := map (fun p => md_sequence p.2) (pairs r).

Record log_wf (l : UndoRelationLog) : Prop := {
  lw_entries : recs_wf ue_tid (ul_entries l);
  lw_batches : recs_wf ub_page (ul_batches l);
  lw_sorted_e : StronglySorted Z.lt (seqs (ul_entries l));
  lw_sorted_b : StronglySorted Z.lt (seqs (ul_batches l));
  lw_disjoint x : x ∈ seqs (ul_entries l) -> x ∈ seqs (ul_batches l) -> False;
  lw_range : Forall (fun x => 0 <= x < next_sequence l) (seqs (ul_entries l) ++ seqs (ul_batches l));
  lw_next : 0 <= next_sequence l < U64;
}.

(** *** Merging *)

Lemma merge_sorted {X} (R : X -> X -> Prop) `{!RelDecision R, !Transitive R} l1 l2 :
  StronglySorted R l1 -> StronglySorted R l2 ->
  (forall x y, x ∈ l1 -> y ∈ l2 -> R x y \/ R y x) -> StronglySorted R (list_merge R l1 l2).
Proof.
  intros H1 H2. revert l2 H2. induction H1 as [|x l1 H1 IH1 Hx]; intros l2 H2 Hc; [by rewrite list_merge_nil_l|].
  induction H2 as [|y l2 H2 IH2 Hy]; [by rewrite list_merge_nil_r; constructor|].
  rewrite list_merge_cons. rewrite Forall_forall in Hx, Hy. case_decide as Hd; constructor.
  - apply IH1; [by constructor; [|apply Forall_forall]|]. intros a b Ha Hb. apply Hc; [by right|done].
  - apply Forall_forall. intros z. rewrite merge_Permutation, elem_of_app, elem_of_cons.
    intros [Hz|[->|Hz]]; [by apply Hx|done|]. etransitivity; [done|by apply Hy].
  - apply IH2. intros a b Ha Hb. apply Hc; [done|by right].
  - apply Forall_forall. intros z. rewrite merge_Permutation, elem_of_app, elem_of_cons.
    assert (R y x) as Hyx by (destruct (Hc x y); [left|left|done|done]).
    intros [[->|Hz]|Hz]; [done|etransitivity; [done|by apply Hx]|by apply Hy].
Qed.

#[global] Instance before_trans {X} : Transitive (@before X).
Proof. unfold before. intros p q r. lia. Qed.
#[global] Instance after_trans {X} : Transitive (@after X).
Proof. unfold after. intros p q r. lia. Qed.

Lemma before_unique {X} (l k : list (Z * X)) : StronglySorted before l -> StronglySorted before k -> l ≡ₚ k -> l = k.
Proof. apply StronglySorted_unique_strong. unfold before. intros p q _ _ ? ?. lia. Qed.
Lemma after_unique {X} (l k : list (Z * X)) : StronglySorted after l -> StronglySorted after k -> l ≡ₚ k -> l = k.
Proof. apply StronglySorted_unique_strong. unfold after. intros p q _ _ ? ?. lia. Qed.

Lemma reverse_before {X} (l : list (Z * X)) : StronglySorted before l -> StronglySorted after (reverse l).
Proof.
  induction 1 as [|p l Hs IH Hp]; [constructor|]. rewrite reverse_cons.
  assert (Hp' : Forall (fun q => after q p) (reverse l)).
  { apply Forall_reverse. eapply Forall_impl; [done|]. done. }
  clear Hs Hp. induction IH as [|q k Hk IH Hq]; cbn; [repeat constructor|].
  apply Forall_cons in Hp' as [Hqp Hp']. constructor; [by apply IH|].
  apply Forall_app. split; [done|by constructor].
Qed.

Lemma tagged_sorted {K A} `{Countable K} (f : A -> Rec) (r : Recs K A) :
  StronglySorted Z.lt (seqs r) -> StronglySorted before (tagged f (actives r)).
Proof.
  unfold seqs, tagged, actives. generalize (pairs r). intros l. induction l as [|p l IH]; [constructor|].
  cbn [map]. intros [Hs Hp]%StronglySorted_inv. rewrite filter_cons. case_decide; [|by apply IH].
  cbn [map]. constructor; [by apply IH|]. rewrite Forall_forall in Hp. apply Forall_forall.
  intros q (p' & -> & Hp')%list_elem_of_fmap. apply list_elem_of_filter in Hp' as [_ Hp']. unfold before; cbn.
  apply Hp, list_elem_of_fmap. by exists p'.
Qed.

Lemma tagged_seq {K A} `{Countable K} (f : A -> Rec) (r : Recs K A) p :
  p ∈ tagged f (actives r) -> p.1 ∈ seqs r.
Proof.
  intros (q & -> & Hq)%list_elem_of_fmap. apply list_elem_of_filter in Hq as [_ Hq]. cbn.
  apply list_elem_of_fmap. by exists q.
Qed.

Lemma timeline_sorted l : log_wf l -> StronglySorted before (timeline l).
Proof.
  intros Hw. apply merge_sorted; [apply _|by apply tagged_sorted, lw_sorted_e|by apply tagged_sorted, lw_sorted_b|].
  intros p q Hp%tagged_seq Hq%tagged_seq. unfold before.
  destruct (Z.lt_trichotomy p.1 q.1) as [|[He|]]; [by left| |by right].
  exfalso. rewrite He in Hp. by eapply (lw_disjoint l Hw).
Qed.

Lemma timeline_perm l : timeline l ≡ₚ tagged REntry (actives (ul_entries l)) ++ tagged RBatch (actives (ul_batches l)).
Proof. apply merge_Permutation. Qed.

Lemma timeline_unique l k :
  log_wf l -> StronglySorted before k ->
  k ≡ₚ tagged REntry (actives (ul_entries l)) ++ tagged RBatch (actives (ul_batches l)) -> timeline l = k.
Proof. intros Hw Hk Hp. apply before_unique; [by apply timeline_sorted|done|]. by rewrite timeline_perm, Hp. Qed.

(** * Operations of the undo log on its timeline

    Every operation of the undo log keeps its invariant and acts on the
    timeline of records as its documentation says; the copy of a page and
    the reconstruction of a payload read the timeline. *)

(** ** The invariant *)

Lemma default_wf : log_wf UndoRelationLog_default.
Proof.
  split; [apply recs_wf_empty|apply recs_wf_empty|constructor|constructor| |constructor|unfold U64; cbn; lia].
  intros x Hx. by apply not_elem_of_nil in Hx.
Qed.

Lemma sorted_lt_snoc l n : StronglySorted Z.lt l -> Forall (fun i => i < n) l -> StronglySorted Z.lt (l ++ [n]).
Proof.
  induction 1 as [|a l Hs IH Ha]; intros Hn; cbn; [repeat constructor|]. apply Forall_cons in Hn as [Hn Hl].
  constructor; [auto|]. apply Forall_app. split; [done|by constructor].
Qed.

Lemma seqs_push {K A} `{Countable K} (key : A -> K) sq a (r : Recs K A) :
  recs_wf key r -> seqs (recs_push key sq a r) = seqs r ++ [sq].
Proof. intros Hw. unfold seqs. rewrite pairs_push by done. by rewrite map_app. Qed.

Lemma log_range_app l : log_wf l ->
  Forall (fun x => 0 <= x < next_sequence l) (seqs (ul_entries l)) /\
  Forall (fun x => 0 <= x < next_sequence l) (seqs (ul_batches l)).
Proof. intros Hw. apply Forall_app, Hw. Qed.

Lemma range_below n l : Forall (fun x => 0 <= x < n) l -> Forall (fun x => x < n) l /\ n ∉ l.
Proof.
  intros Hf. split; [eapply Forall_impl; [done|]; cbn; lia|]. intros Hin. rewrite Forall_forall in Hf.
  specialize (Hf n Hin). lia.
Qed.

Lemma push_rec_wf l r : log_wf l -> next_sequence l < U64 - 1 -> log_wf (push_rec l r).
Proof.
  intros Hw Hn. destruct (log_range_app l Hw) as [He Hb]. pose proof (lw_next l Hw) as Hnext.
  destruct (range_below _ _ He) as [He' Hne], (range_below _ _ Hb) as [Hb' Hnb].
  assert (Hsat : saturating_add U64 (next_sequence l) 1 = next_sequence l + 1)
    by (unfold saturating_add; lia).
  assert (Hweak : forall k, Forall (fun x => 0 <= x < next_sequence l) k ->
    Forall (fun x => 0 <= x < next_sequence l + 1) k) by (intros k Hk; eapply Forall_impl; [done|]; cbn; lia).
  destruct r as [e|b]; cbn [push_rec]; unfold push_entry, push_int32_pair_batch; split; cbn [ul_entries ul_batches next_sequence];
    rewrite ?seqs_push, ?Hsat by apply Hw.
  all: try by apply Hw.
  all: try by apply recs_push_wf, Hw.
  all: try by apply sorted_lt_snoc; [apply Hw|].
  all: try lia.
  - intros x. rewrite elem_of_app, list_elem_of_singleton. intros [Hx| ->]; [by apply (lw_disjoint l Hw)|done].
  - rewrite !Forall_app. split_and!; [auto| |auto]. constructor; [lia|constructor].
  - intros x Hx. rewrite elem_of_app, list_elem_of_singleton.
    intros [Hx'| ->]; [by eapply (lw_disjoint l Hw)|done].
  - rewrite !Forall_app. split_and!; [auto|auto|]. constructor; [lia|constructor].
Qed.

Lemma push_rec_next l r : log_wf l -> next_sequence l < U64 - 1 -> next_sequence (push_rec l r) = next_sequence l + 1.
Proof. intros Hw Hn. pose proof (lw_next l Hw). destruct r; cbn; unfold saturating_add; lia. Qed.

Lemma timeline_below l p : log_wf l -> p ∈ timeline l -> 0 <= p.1 < next_sequence l.
Proof.
  intros Hw. rewrite timeline_perm, elem_of_app. destruct (log_range_app l Hw) as [He Hb].
  rewrite Forall_forall in He, Hb. intros [Hp|Hp]; apply tagged_seq in Hp; auto.
Qed.

Lemma before_snoc {X} (l : list (Z * X)) n (x : X) :
  StronglySorted before l -> (forall p, p ∈ l -> p.1 < n) -> StronglySorted before (l ++ [(n, x)]).
Proof.
  induction 1 as [|p l Hs IH Hp]; intros Hn; cbn; [repeat constructor|]. constructor.
  - apply IH. intros q Hq. apply Hn. by right.
  - apply Forall_app. split; [done|]. constructor; [|constructor]. apply (Hn p). left.
Qed.

(** Pushing appends to the timeline. *)
Lemma timeline_push l r :
  log_wf l -> next_sequence l < U64 - 1 -> timeline (push_rec l r) = timeline l ++ [(next_sequence l, r)].
Proof.
  intros Hw Hn. apply timeline_unique; [by apply push_rec_wf| |].
  - apply before_snoc; [by apply timeline_sorted|]. intros p Hp%timeline_below; [lia|done].
  - rewrite timeline_perm.
    destruct r as [e|b]; cbn [push_rec push_entry push_int32_pair_batch ul_entries ul_batches];
      rewrite actives_push by apply Hw; unfold tagged; rewrite map_app; cbn [map fst snd md_sequence].
    + rewrite <- !app_assoc. apply Permutation_app_head, Permutation_app_comm.
    + by rewrite app_assoc.
Qed.

Lemma records_push l r : log_wf l -> next_sequence l < U64 - 1 -> records (push_rec l r) = records l ++ [r].
Proof. intros Hw Hn. unfold records. rewrite timeline_push by done. by rewrite fmap_app. Qed.

Lemma push_all l rs :
  log_wf l -> next_sequence l + Z.of_nat (length rs) < U64 ->
  log_wf (foldl push_rec l rs) /\ records (foldl push_rec l rs) = records l ++ rs /\
  next_sequence (foldl push_rec l rs) = next_sequence l + Z.of_nat (length rs).
Proof.
  revert l. induction rs as [|r rs IH]; intros l Hw Hn; cbn [foldl length].
  { split; [done|]. rewrite app_nil_r. split; [done|]. cbn. lia. }
  cbn [length] in Hn. destruct (IH (push_rec l r)) as (Hw' & Hr & Hnx).
  - apply push_rec_wf; [done|lia].
  - rewrite push_rec_next by (done || lia). lia.
  - rewrite Hr, Hnx, records_push, push_rec_next by (done || lia). rewrite <- app_assoc. split; [done|]. split; [done|lia].
Qed.

(** ** Operations that filter *)

Lemma timeline_filter l l' (Q : Z * Rec -> Prop) `{forall p, Decision (Q p)} :
  log_wf l -> log_wf l' ->
  tagged REntry (actives (ul_entries l')) = filter Q (tagged REntry (actives (ul_entries l))) ->
  tagged RBatch (actives (ul_batches l')) = filter Q (tagged RBatch (actives (ul_batches l))) ->
  timeline l' = filter Q (timeline l).
Proof.
  intros Hw Hw' He Hb. apply timeline_unique; [done|by apply sorted_filter, timeline_sorted|].
  rewrite He, Hb, <- filter_app. by rewrite timeline_perm.
Qed.

Lemma tagged_filter {A} (f : A -> Rec) (P : A * UndoRecordMetadata -> Prop) `{forall p, Decision (P p)}
    (Q : Z * Rec -> Prop) `{forall p, Decision (Q p)} l :
  (forall p, p ∈ l -> P p <-> Q (md_sequence p.2, f p.1)) ->
  tagged f (filter P l) = filter Q (tagged f l).
Proof.
  unfold tagged. induction l as [|p l IH]; intros Hpq; [done|]. cbn [map]. rewrite !filter_cons.
  rewrite (decide_ext _ (Q (md_sequence p.2, f p.1))) by (apply Hpq; left).
  case_decide; cbn [map]; (rewrite IH; [done|]; intros q Hq; apply Hpq; by right).
Qed.

Lemma seqs_deactivate {K A} `{Countable K} (key : A -> K) (writer : A -> Xid) xid js (r : Recs K A) :
  recs_wf key r -> seqs (recs_deactivate writer xid js r) = seqs r.
Proof.
  intros Hw. unfold seqs. apply list_eq. intros i. rewrite !list_lookup_fmap.
  destruct (pairs r !! i) as [p|] eqn:E.
  - apply pairs_lookup in E as [Hi Hm].
    assert (pairs (recs_deactivate writer xid js r) !! i =
      Some (p.1, if decide (i ∈ js /\ writer <$> rc_items r !! i = Some xid) then inactive p.2 else p.2)) as ->.
    { apply (proj2 (pairs_lookup _ _ _)). cbn [fst snd rc_items rc_meta recs_deactivate]. split; [done|]. by rewrite deactivate_lookup, Hm. }
    cbn. by case_decide.
  - assert (pairs (recs_deactivate writer xid js r) !! i = None) as ->; [|done].
    apply lookup_ge_None in E. apply lookup_ge_None.
    rewrite (length_pairs key) in * by auto using recs_deactivate_wf. done.
Qed.

Lemma deactivate_wf xid page l : log_wf l -> log_wf (deactivate_written_by_on_page xid page l).
Proof.
  intros Hw. split; cbn [ul_entries ul_batches next_sequence deactivate_written_by_on_page].
  all: rewrite ?(seqs_deactivate ue_tid), ?(seqs_deactivate ub_page) by apply Hw.
  all: try apply Hw; apply recs_deactivate_wf, Hw.
Qed.

Definition written_on (xid : Xid) (page : PageId) (r : Rec) : bool :=
  (rec_writer r =? xid) && bool_decide (rec_page r = page).

Lemma timeline_deactivate xid page l :
  log_wf l ->
  timeline (deactivate_written_by_on_page xid page l) = filter (fun p => written_on xid page p.2 = false) (timeline l).
Proof.
  intros Hw. apply timeline_filter; [done|by apply deactivate_wf| |];
    cbn [ul_entries ul_batches deactivate_written_by_on_page].
  - rewrite (actives_deactivate ue_tid ue_writer_xid xid _ _
      (fun p => written_on xid page (REntry p.1) = true)); [|apply Hw|].
    + apply tagged_filter. intros p _. cbn [snd]. destruct (written_on xid page (REntry p.1)); intuition congruence.
    + intros i p Hp. unfold written_on. cbn. rewrite andb_true_iff, Z.eqb_eq, bool_decide_eq_true.
      assert (i ∈ (map_to_list (rc_index (ul_entries l)) ≫= (fun kv : TupleId * list nat =>
        if on_page page kv.1 then kv.2 else [])) <-> tid_page (ue_tid p.1) = page) as ->; [|tauto].
      pose proof (lw_entries l Hw) as Hwe. apply active_at_Some in Hp as [Hl Ha]. apply pairs_lookup in Hl as [Hi Hm].
      rewrite list_elem_of_bind. split.
      * intros ([tid js] & Hin & Hk). cbn in Hin. unfold on_page in Hin. case_bool_decide; [|by apply not_elem_of_nil in Hin].
        apply elem_of_map_to_list in Hk. destruct (rw_sound _ _ Hwe tid i) as (e & He & Hk'); [unfold index_for; by rewrite Hk|].
        congruence.
      * intros <-. pose proof (rw_complete _ _ Hwe i p.1 p.2 Hi Hm Ha) as Hin. unfold index_for in Hin.
        destruct (rc_index (ul_entries l) !! ue_tid p.1) as [js|] eqn:E; [|by apply not_elem_of_nil in Hin].
        exists (ue_tid p.1, js). split; [|by apply elem_of_map_to_list]. cbn. unfold on_page. by rewrite bool_decide_true.
  - rewrite (actives_deactivate ub_page ub_writer_xid xid _ _
      (fun p => written_on xid page (RBatch p.1) = true)); [|apply Hw|].
    + apply tagged_filter. intros p _. cbn [snd]. destruct (written_on xid page (RBatch p.1)); intuition congruence.
    + intros i p Hp. unfold written_on. cbn. rewrite andb_true_iff, Z.eqb_eq, bool_decide_eq_true.
      pose proof (lw_batches l Hw) as Hwb. apply active_at_Some in Hp as [Hl Ha]. apply pairs_lookup in Hl as [Hi Hm].
      assert (i ∈ index_for (ul_batches l) page <-> ub_page p.1 = page) as ->; [|tauto]. split.
      * intros (b & Hb & Hk)%(rw_sound _ _ Hwb). congruence.
      * intros <-. by eapply (rw_complete _ _ Hwb).
Qed.

(** *** Compacting, trimming, taking *)

Definition retain (keep_e : UndoEntry -> UndoRecordMetadata -> bool)
    (keep_b : Int32PairUndoBatch -> UndoRecordMetadata -> bool) (l : UndoRelationLog) : UndoRelationLog :=
  rebuild_indices (mk_UndoRelationLog (next_sequence l)
    (recs_split keep_e (ul_entries l)).1 (recs_split keep_b (ul_batches l)).1).

Lemma seqs_split {K A} `{Countable K} keep (r : Recs K A) :
  (StronglySorted Z.lt (seqs r) -> StronglySorted Z.lt (seqs (recs_split keep r).1)) /\
  (forall x, x ∈ seqs (recs_split keep r).1 -> x ∈ seqs r).
Proof.
  unfold seqs. rewrite pairs_split. split.
  - induction (pairs r) as [|p l IH]; [done|]. cbn [map]. intros [Hs Hp]%StronglySorted_inv. rewrite filter_cons.
    case_decide; [|by apply IH]. cbn [map]. constructor; [by apply IH|]. rewrite Forall_forall in Hp. apply Forall_forall.
    intros x (q & -> & [_ Hq]%list_elem_of_filter)%list_elem_of_fmap. apply Hp, list_elem_of_fmap. by exists q.
  - intros x (q & -> & [_ Hq]%list_elem_of_filter)%list_elem_of_fmap. apply list_elem_of_fmap. by exists q.
Qed.

Lemma retain_wf keep_e keep_b l : log_wf l -> log_wf (retain keep_e keep_b l).
Proof.
  intros Hw. destruct (seqs_split keep_e (ul_entries l)) as [Hse Hie], (seqs_split keep_b (ul_batches l)) as [Hsb Hib].
  split; cbn [ul_entries ul_batches next_sequence rebuild_indices retain].
  - apply recs_rebuild_wf, recs_split_length.
  - apply recs_rebuild_wf, recs_split_length.
  - apply Hse, Hw.
  - apply Hsb, Hw.
  - intros x Hx Hx'. eapply (lw_disjoint l Hw x); [by apply Hie|by apply Hib].
  - destruct (log_range_app l Hw) as [He Hb]. rewrite Forall_forall in He, Hb. apply Forall_app.
    split; apply Forall_forall; intros x Hx; [by apply He, Hie|by apply Hb, Hib].
  - apply Hw.
Qed.


Lemma actives_split {K A} `{Countable K} keep (r : Recs K A) (R : A * UndoRecordMetadata -> Prop)
    `{forall p, Decision (R p)} :
  (forall p, md_active p.2 = true -> keep p.1 p.2 = true <-> R p) ->
  actives (recs_split keep r).1 = filter R (actives r).
Proof.
  intros He. unfold actives. rewrite pairs_split, !list_filter_filter. apply list_filter_iff. intros p.
  pose proof (He p). tauto.
Qed.

Lemma timeline_retain keep_e keep_b l (Q : Z * Rec -> Prop) `{forall p, Decision (Q p)} :
  log_wf l ->
  (forall e m, md_active m = true -> keep_e e m = true <-> Q (md_sequence m, REntry e)) ->
  (forall b m, md_active m = true -> keep_b b m = true <-> Q (md_sequence m, RBatch b)) ->
  timeline (retain keep_e keep_b l) = filter Q (timeline l).
Proof.
  intros Hw He Hb. apply timeline_filter; [done|by apply retain_wf| |];
    cbn [ul_entries ul_batches rebuild_indices retain].
  - change (actives (recs_rebuild ue_tid (recs_split keep_e (ul_entries l)).1))
      with (actives (recs_split keep_e (ul_entries l)).1).
    rewrite (actives_split _ _ (fun p => Q (md_sequence p.2, REntry p.1))) by (intros [e m]; apply He).
    by apply tagged_filter.
  - change (actives (recs_rebuild ub_page (recs_split keep_b (ul_batches l)).1))
      with (actives (recs_split keep_b (ul_batches l)).1).
    rewrite (actives_split _ _ (fun p => Q (md_sequence p.2, RBatch p.1))) by (intros [b m]; apply Hb).
    by apply tagged_filter.
Qed.

Lemma log_filter_all {X} (P : X -> Prop) `{forall x, Decision (P x)} (l : list X) : (forall x, P x) -> filter P l = l.
Proof. intros Hp. induction l as [|x l IH]; [done|]. rewrite filter_cons, decide_True by done. by rewrite IH. Qed.

Lemma log_compact_spec l :
  log_wf l -> log_wf (compact_inactive_records l) /\ timeline (compact_inactive_records l) = timeline l.
Proof.
  intros Hw. change (compact_inactive_records l) with (retain (fun _ m => md_active m) (fun _ m => md_active m) l).
  split; [by apply retain_wf|]. rewrite (timeline_retain _ _ _ (fun _ => True)) by (done || tauto). by apply log_filter_all.
Qed.

Lemma take_spec xid l :
  log_wf l -> log_wf (take_written_by xid l).2 /\
  timeline (take_written_by xid l).2 = filter (fun p => rec_writer p.2 <> xid) (timeline l).
Proof.
  intros Hw.
  change (take_written_by xid l).2 with
    (retain (fun e _ => negb (ue_writer_xid e =? xid)) (fun b _ => negb (ub_writer_xid b =? xid)) l).
  split; [by apply retain_wf|]. apply timeline_retain; [done| |]; intros a m _; cbn;
    by rewrite negb_true_iff, Z.eqb_neq.
Qed.

Lemma trim_eq oldest l :
  log_wf l ->
  exists l', l' = retain (fun e m => md_active m && (oldest <=? ue_writer_xid e))
                         (fun b m => md_active m && (oldest <=? ub_writer_xid b)) l /\
    ((trim_below oldest l).2 = l' \/ (trim_below oldest l).2 = l /\ timeline l = timeline l').
Proof.
  intros Hw. eexists. split; [done|]. unfold trim_below.
  destruct (recs_split (fun e m => _) (ul_entries l)) as [es te] eqn:Ee,
    (recs_split (fun b m => _) (ul_batches l)) as [bs tb] eqn:Eb. cbn [snd].
  case_decide as Hz; [|left; unfold retain; by rewrite Ee, Eb].
  right. simplify_eq.
  assert (te = [] /\ tb = []) as [-> ->] by (destruct te, tb; simplify_eq/=; done).
  assert (es = ul_entries l) as ->.
  { pose proof (split_nothing ue_tid (fun e m => md_active m && (oldest <=? ue_writer_xid e)) (ul_entries l) (lw_entries l Hw)) as Hs. rewrite Ee in Hs. by apply Hs. }
  assert (bs = ul_batches l) as ->.
  { pose proof (split_nothing ub_page (fun b m => md_active m && (oldest <=? ub_writer_xid b)) (ul_batches l) (lw_batches l Hw)) as Hs. rewrite Eb in Hs. by apply Hs. }
  split; [by destruct l|]. unfold retain. rewrite Ee, Eb. done.
Qed.

Lemma trim_spec oldest l :
  log_wf l -> log_wf (trim_below oldest l).2 /\
  timeline (trim_below oldest l).2 = filter (fun p => oldest <= rec_writer p.2) (timeline l).
Proof.
  intros Hw. destruct (trim_eq oldest l Hw) as (l' & Hl' & Hc).
  assert (timeline l' = filter (fun p => oldest <= rec_writer p.2) (timeline l)) as Ht.
  { subst l'. apply timeline_retain; [done| |]; intros a m Ha; rewrite Ha; cbn; by rewrite Z.leb_le. }
  destruct Hc as [-> |[-> Hc]].
  - split; [subst; by apply retain_wf|done].
  - split; [done|]. by etrans.
Qed.

(** *** Copying a page *)

Lemma snapshot_loop_merge es bs s :
  snapshot_loop es bs s =
  foldl push_rec s (list_merge before (map (fun p => (p.1, REntry p.2)) es) (map (fun p => (p.1, RBatch p.2)) bs)).*2.
Proof.
  revert bs s. induction es as [|[x e] es IH]; intros bs s.
  - induction bs as [|[y b] bs IHb] in s |- *; [done|].
    change (snapshot_loop [] ((y, b) :: bs) s) with (snapshot_loop [] bs (push_int32_pair_batch b s)).
    rewrite IHb. cbn [map]. by rewrite !list_merge_nil_l.
  - induction bs as [|[y b] bs IHb] in s |- *.
    + change (snapshot_loop ((x, e) :: es) [] s) with (snapshot_loop es [] (push_entry e s)).
      rewrite IH. cbn [map]. by rewrite !list_merge_nil_r.
    + cbn [map]. rewrite list_merge_cons. cbn [snapshot_loop]. unfold before at 1. cbn [fst].
      destruct (Z.ltb_spec x y).
      * rewrite decide_True by done. rewrite IH. done.
      * rewrite decide_False by (unfold before; cbn; lia). cbn [snapshot_loop] in IHb. rewrite IHb. done.
Qed.


Lemma filter_snd {X Y} (P : Y -> Prop) `{forall y, Decision (P y)} (l : list (X * Y)) :
  (filter (fun p => P p.2) l).*2 = filter P l.*2.
Proof. induction l as [|p l IH]; [done|]. rewrite fmap_cons, !filter_cons. case_decide; rewrite ?fmap_cons; by rewrite IH. Qed.

Lemma before_inj {X} (l : list (Z * X)) p q : StronglySorted before l -> p ∈ l -> q ∈ l -> p.1 = q.1 -> p = q.
Proof.
  induction 1 as [|a l _ IH Ha]; [by intros ?%not_elem_of_nil|]. rewrite Forall_forall in Ha.
  intros [->|Hp]%elem_of_cons [->|Hq]%elem_of_cons He; [done| | |by apply IH].
  - specialize (Ha q Hq). unfold before in Ha. lia.
  - specialize (Ha p Hp). unfold before in Ha. lia.
Qed.

Lemma before_weaken {X} (l : list (Z * X)) : StronglySorted before l -> StronglySorted sequence_le l.
Proof.
  induction 1 as [|a l _ IH Ha]; constructor; [done|]. eapply Forall_impl; [done|]. unfold before, sequence_le. cbn. lia.
Qed.

#[global] Instance sequence_le_total {X} : Total (@sequence_le X).
Proof. unfold sequence_le. intros p q. lia. Qed.
#[global] Instance sequence_le_trans {X} : Transitive (@sequence_le X).
Proof. unfold sequence_le. intros p q r. lia. Qed.

Lemma merge_sort_before {X} (l k : list (Z * X)) : l ≡ₚ k -> StronglySorted before k -> merge_sort sequence_le l = k.
Proof.
  intros Hp Hk. assert (merge_sort sequence_le l ≡ₚ k) as Hm by (by rewrite merge_sort_Permutation).
  apply (StronglySorted_unique_strong sequence_le); [|apply (StronglySorted_merge_sort _)|by apply before_weaken|done].
  intros p q Hpi Hqi Hpq Hqp. rewrite Hm in Hpi. apply (before_inj k); [done|done|done|].
  unfold sequence_le in *. lia.
Qed.

Lemma records_length l : log_wf l -> Z.of_nat (length (records l)) <= next_sequence l.
Proof.
  intros Hw. unfold records. rewrite length_fmap, <- (length_fmap fst).
  assert ((timeline l).*1 ⊆+ seqZ 0 (next_sequence l)) as Hsub.
  { apply NoDup_submseteq.
    - pose proof (timeline_sorted l Hw) as Hs. induction Hs as [|p k _ IH Hp]; [constructor|]. cbn. constructor; [|done].
      intros (q & Hq & Hin)%list_elem_of_fmap. rewrite Forall_forall in Hp. specialize (Hp q Hin).
      unfold before in Hp. lia.
    - intros x (p & -> & Hp)%list_elem_of_fmap. apply elem_of_seqZ. apply timeline_below in Hp; [lia|done]. }
  apply submseteq_length in Hsub. rewrite length_seqZ in Hsub. pose proof (lw_next l Hw). lia.
Qed.

(** The records of a page, of each kind, in the order of the timeline. *)
Lemma snapshot_sources page l :
  log_wf l ->
  merge_sort sequence_le (map (fun p => (md_sequence p.2.2, p.2.1)) (indexed_on (on_page page) (ul_entries l))) =
    map (fun p => (md_sequence p.2, p.1)) (filter (fun p => tid_page (ue_tid p.1) = page) (actives (ul_entries l))) /\
  merge_sort sequence_le (map (fun p => (md_sequence p.2, p.1)) (ordered_for (ul_batches l) page)) =
    map (fun p => (md_sequence p.2, p.1)) (filter (fun p => ub_page p.1 = page) (actives (ul_batches l))).
Proof.
  intros Hw.
  assert (Hsorted : forall K A `{Countable K} (r : Recs K A) (P : A * UndoRecordMetadata -> Prop) `{forall p, Decision (P p)},
    StronglySorted Z.lt (seqs r) ->
    StronglySorted before (map (fun p => (md_sequence p.2, p.1)) (filter P (actives r)))).
  { intros K A HeqK HK r P HP Hs. unfold actives, seqs in *. induction (pairs r) as [|p ps IH]; [constructor|].
    cbn [map] in Hs. apply StronglySorted_inv in Hs as [Hs Hp]. rewrite filter_cons. case_decide; [|by apply IH].
    rewrite filter_cons. case_decide; [|by apply IH]. cbn [map]. constructor; [by apply IH|].
    rewrite Forall_forall in Hp. apply Forall_forall. intros q (p' & -> & Hp')%list_elem_of_fmap.
    apply list_elem_of_filter in Hp' as [_ [_ Hp']%list_elem_of_filter]. unfold before; cbn.
    apply Hp, list_elem_of_fmap. by exists p'. }
  split; apply merge_sort_before.
  - rewrite (indexed_on_numbered ue_tid) by apply Hw.
    assert (map (fun p => (md_sequence p.2.2, p.2.1)) (numbered ue_tid (on_page page) (ul_entries l)) =
      map (fun p => (md_sequence p.2, p.1)) (numbered ue_tid (on_page page) (ul_entries l)).*2) as ->
      by (rewrite <- list_fmap_compose; done).
    rewrite numbered_snd. match goal with |- ?a ≡ₚ ?b => assert (a = b) as ->; [|done] end. f_equal. apply list_filter_iff. intros p. unfold on_page.
    by rewrite bool_decide_eq_true.
  - by apply Hsorted, lw_sorted_e.
  - rewrite (ordered_for_eq ub_page) by apply Hw. done.
  - by apply Hsorted, lw_sorted_b.
Qed.

Lemma snapshot_page_spec page l :
  log_wf l -> log_wf (snapshot_page page l) /\
  records (snapshot_page page l) = filter (fun r => rec_page r = page) (records l).
Proof.
  intros Hw. unfold snapshot_page. destruct (snapshot_sources page l Hw) as [-> ->].
  rewrite snapshot_loop_merge, !map_map. cbn [fst snd].
  change (map (fun p => (md_sequence p.2, REntry p.1))) with (tagged REntry).
  change (map (fun p => (md_sequence p.2, RBatch p.1))) with (tagged RBatch).
  rewrite (tagged_filter REntry _ (fun p => rec_page p.2 = page)) by done.
  rewrite (tagged_filter RBatch _ (fun p => rec_page p.2 = page)) by done.
  assert (Hm : list_merge before (filter (fun p => rec_page p.2 = page) (tagged REntry (actives (ul_entries l))))
    (filter (fun p => rec_page p.2 = page) (tagged RBatch (actives (ul_batches l)))) =
    filter (fun p => rec_page p.2 = page) (timeline l)).
  { apply before_unique; [|by apply sorted_filter, timeline_sorted|].
    - apply merge_sorted; [apply _|by apply sorted_filter, tagged_sorted, lw_sorted_e
        |by apply sorted_filter, tagged_sorted, lw_sorted_b|].
      intros p q [_ Hp%tagged_seq]%list_elem_of_filter [_ Hq%tagged_seq]%list_elem_of_filter. unfold before.
      destruct (Z.lt_trichotomy p.1 q.1) as [|[He|]]; [by left| |by right].
      exfalso. rewrite He in Hp. by eapply (lw_disjoint l Hw).
    - rewrite merge_Permutation, timeline_perm, filter_app. done. }
  rewrite Hm.
  assert (Hr : (filter (fun p => rec_page p.2 = page) (timeline l)).*2 = filter (fun r => rec_page r = page) (records l)).
  { unfold records. refine (filter_snd (fun r => rec_page r = page) (timeline l)). }
  rewrite Hr. destruct (push_all UndoRelationLog_default (filter (fun r => rec_page r = page) (records l))) as (Hw' & Hrec & _).
  - apply default_wf.
  - pose proof (records_length l Hw). pose proof (lw_next l Hw).
    pose proof (length_filter (fun r => rec_page r = page) (records l)). cbn. lia.
  - split; [done|]. by rewrite Hrec.
Qed.
