(* ===== verification/UndoRead.v ===== *)
(** * What a snapshot reads through the undo log

    The reconstruction of a payload as a fold over the slot's records,
    newest first; the refinement of the undo log to a list of records; that
    reading undoes exactly the writes a snapshot does not see; and that
    trimming below a snapshot's horizon does not change what it reads. *)

From S2P Require Import Prelude CoreIds TupleHeader Snapshot Visibility Bytes UndoLog UndoLogSpec.

(** ** Reading the timeline *)

Definition slot_records (l : UndoRelationLog) (tid : TupleId) : list Rec :=
  filter (fun r => rec_touches tid r = true) (records l).

Section reader.
Context {O : Type} `{XidStatusOracle O} (s : Snapshot) (oracle : O).

Definition seen (r : Rec) : bool := undo_writer_visible_to_snapshot (rec_writer r) (rec_command r) s oracle.

Definition undo_rec (cur : list Z) (r : Rec) (pre : option (list Z)) : option (option (list Z)) :=
  match r with REntry e => undo_full s oracle e pre | RBatch b => undo_compact s oracle cur b pre end.

(** The records newest first; [None] when a compact record cannot be
    reversed. *)
Fixpoint undo_recs (cur : list Z) (rs : list Rec) (pre : option (list Z)) : option (list Z) :=
  match rs with
  | [] => pre
  | r :: rs' => p ← undo_rec cur r pre; undo_recs cur rs' p
  end.

Lemma undo_loop_merge cur full compact pre :
  undo_loop s oracle cur full compact pre =
  undo_recs cur (list_merge after (tagged REntry full) (tagged RBatch compact)).*2 pre.
Proof.
  revert compact pre. induction full as [|[e em] full IH]; intros compact pre.
  - induction compact as [|[b bm] compact IHc] in pre |- *; [done|]. cbn [tagged map]. rewrite list_merge_nil_l.
    cbn [undo_loop undo_recs fmap list_fmap fst snd undo_rec]. destruct (undo_compact s oracle cur b pre); [|done].
    cbn [mbind option_bind]. cbn [undo_loop] in IHc. rewrite IHc. cbn [tagged map]. by rewrite list_merge_nil_l.
  - induction compact as [|[b bm] compact IHc] in pre |- *.
    + cbn [tagged map]. rewrite list_merge_nil_r. cbn [undo_loop undo_recs fmap list_fmap fst snd undo_rec].
      destruct (undo_full s oracle e pre); [|done]. cbn [mbind option_bind]. rewrite IH. cbn [tagged map].
      by rewrite list_merge_nil_r.
    + cbn [tagged map]. rewrite list_merge_cons. cbn [undo_loop]. unfold after at 1. cbn [fst snd].
      destruct (Z.ltb_spec (md_sequence bm) (md_sequence em)).
      * rewrite decide_True by done. cbn [undo_recs fmap list_fmap fst snd undo_rec].
        destruct (undo_full s oracle e pre); [|done]. cbn [mbind option_bind]. by rewrite IH.
      * rewrite decide_False by (unfold after; cbn; lia). cbn [undo_recs fmap list_fmap fst snd undo_rec].
        destruct (undo_compact s oracle cur b pre); [|done]. cbn [mbind option_bind]. cbn [undo_loop] in IHc. by rewrite IHc.
Qed.

Lemma filter_reverse {X} (P : X -> Prop) `{forall x, Decision (P x)} (l : list X) : filter P (reverse l) = reverse (filter P l).
Proof.
  induction l as [|x l IH]; [done|]. rewrite reverse_cons, filter_app, IH, !filter_cons.
  case_decide; [by rewrite reverse_cons|]. by rewrite app_nil_r.
Qed.

Lemma tagged_reverse {A} (f : A -> Rec) l : tagged f (reverse l) = reverse (tagged f l).
Proof. apply fmap_reverse. Qed.

(** The merged streams are the slot's records, newest first. *)
Lemma streams_merge log tid :
  log_wf log ->
  list_merge after (tagged REntry (reverse (ordered_for (ul_entries log) tid)))
    (tagged RBatch (filter (fun p => contains_slot p.1 (tid_slot tid) = true)
       (reverse (ordered_for (ul_batches log) (tid_page tid))))) =
  reverse (filter (fun p => rec_touches tid p.2 = true) (timeline log)).
Proof.
  intros Hw. rewrite (ordered_for_eq ue_tid), (ordered_for_eq ub_page) by apply Hw.
  rewrite filter_reverse, list_filter_filter, !tagged_reverse.
  rewrite (tagged_filter REntry _ (fun p => rec_touches tid p.2 = true));
    [|intros p _; cbn; by rewrite bool_decide_eq_true].
  rewrite (tagged_filter RBatch _ (fun p => rec_touches tid p.2 = true));
    [|intros p _; cbn; rewrite andb_true_iff, bool_decide_eq_true; tauto].
  apply after_unique.
  - apply merge_sorted; [apply _|by apply reverse_before, sorted_filter, tagged_sorted, lw_sorted_e
      |by apply reverse_before, sorted_filter, tagged_sorted, lw_sorted_b|].
    intros p q. rewrite !elem_of_reverse, !list_elem_of_filter. intros [_ Hp%tagged_seq] [_ Hq%tagged_seq]. unfold after.
    destruct (Z.lt_trichotomy p.1 q.1) as [|[He|]]; [by right| |by left].
    exfalso. rewrite He in Hp. by eapply (lw_disjoint log Hw).
  - by apply reverse_before, sorted_filter, timeline_sorted.
  - rewrite merge_Permutation, !reverse_Permutation, <- filter_app. by rewrite timeline_perm.
Qed.

Lemma pre_image_eq log tid cur :
  log_wf log -> 9 <= zlen cur ->
  undo_pre_image_from_log log tid cur s oracle = undo_recs cur (reverse (slot_records log tid)) None.
Proof.
  intros Hw Hlen. unfold undo_pre_image_from_log. destruct (Z.ltb_spec (zlen cur) 9); [lia|].
  rewrite undo_loop_merge, streams_merge by done. f_equal. rewrite fmap_reverse. f_equal.
  unfold slot_records, records. refine (filter_snd (fun r => rec_touches tid r = true) (timeline log)).
Qed.

(** Records the snapshot sees are not undone. *)
Lemma undo_rec_seen cur r pre : seen r = true -> undo_rec cur r pre = Some pre.
Proof. unfold seen. destruct r; cbn; unfold undo_full, undo_compact; by intros ->. Qed.

Lemma undo_recs_filter cur (P : Rec -> Prop) `{forall r, Decision (P r)} rs pre :
  (forall r, r ∈ rs -> ~ P r -> seen r = true) -> undo_recs cur (filter P rs) pre = undo_recs cur rs pre.
Proof.
  revert pre. induction rs as [|r rs IH]; intros pre Hs; [done|].
  assert (Hrest : forall q, q ∈ rs -> ~ P q -> seen q = true) by (intros q Hq; apply Hs; by right).
  rewrite filter_cons. case_decide as Hp; cbn [undo_recs].
  - destruct (undo_rec cur r pre); [|done]. cbn. by apply IH.
  - rewrite undo_rec_seen by (apply Hs; [left|done]). cbn. by apply IH.
Qed.

Lemma pre_image_filter log log' tid cur (P : Rec -> Prop) `{forall r, Decision (P r)} :
  log_wf log -> log_wf log' -> records log' = filter P (records log) ->
  (forall r, r ∈ slot_records log tid -> ~ P r -> seen r = true) ->
  undo_pre_image_from_log log' tid cur s oracle = undo_pre_image_from_log log tid cur s oracle.
Proof.
  intros Hw Hw' Hr Hs. destruct (Z.ltb_spec (zlen cur) 9) as [Hl|Hl].
  { unfold undo_pre_image_from_log. by rewrite (proj2 (Z.ltb_lt _ _) Hl). }
  rewrite !pre_image_eq by done. unfold slot_records in *. rewrite Hr.
  etrans; [|apply (undo_recs_filter cur P)].
  - rewrite filter_reverse, !list_filter_filter. do 2 f_equal. apply list_filter_iff. intros r. tauto.
  - intros r Hin. rewrite elem_of_reverse in Hin. by apply Hs.
Qed.
End reader.

(** ** Refinement to a list of records *)

Inductive uop :=
| UPush (r : Rec)
| UAppend (bs : list Int32PairUndoBatch)
| UDeactivate (xid : Xid) (page : PageId)
| UCompact
| UTrim (oldest : Xid)
| UTake (xid : Xid).

Definition run_uop (l : UndoRelationLog) (o : uop) : UndoRelationLog :=
  match o with
  | UPush r => push_rec l r
  | UAppend bs => append_int32_pair_batches bs l
  | UDeactivate xid page => deactivate_written_by_on_page xid page l
  | UCompact => compact_inactive_records l
  | UTrim oldest => (trim_below oldest l).2
  | UTake xid => (take_written_by xid l).2
  end.

Definition spec_uop (rs : list Rec) (o : uop) : list Rec :=
  match o with
  | UPush r => rs ++ [r]
  | UAppend bs => rs ++ map RBatch bs
  | UDeactivate xid page => filter (fun r => written_on xid page r = false) rs
  | UCompact => rs
  | UTrim oldest => filter (fun r => oldest <= rec_writer r) rs
  | UTake xid => filter (fun r => rec_writer r <> xid) rs
  end.

Definition uop_pushes (o : uop) : Z :=
  match o with UPush _ => 1 | UAppend bs => Z.of_nat (length bs) | _ => 0 end.

Lemma records_filter l l' (P : Rec -> Prop) `{forall r, Decision (P r)} :
  timeline l' = filter (fun p => P p.2) (timeline l) -> records l' = filter P (records l).
Proof. intros Ht. unfold records. rewrite Ht. apply filter_snd. Qed.

Lemma append_eq bs l : append_int32_pair_batches bs l = foldl push_rec l (map RBatch bs).
Proof. unfold append_int32_pair_batches. revert l. induction bs as [|b bs IH]; intros l; [done|]. cbn. apply IH. Qed.

Lemma run_uop_spec l o :
  log_wf l -> next_sequence l + uop_pushes o < U64 ->
  log_wf (run_uop l o) /\ records (run_uop l o) = spec_uop (records l) o /\
  next_sequence (run_uop l o) = next_sequence l + uop_pushes o.
Proof.
  intros Hw Hn. destruct o as [r|bs|xid page| |oldest|xid]; cbn [run_uop spec_uop uop_pushes] in *.
  - destruct (push_all l [r] Hw) as (Hw' & Hr & Hnx); [cbn; lia|]. done.
  - rewrite append_eq. destruct (push_all l (map RBatch bs) Hw) as (Hw' & Hr & Hnx); [rewrite length_map; lia|].
    rewrite length_map in Hnx. done.
  - split; [by apply deactivate_wf|]. split; [|cbn; lia].
    apply (records_filter _ _ (fun r => written_on xid page r = false)). by apply timeline_deactivate.
  - destruct (log_compact_spec l Hw) as [Hw' Ht]. split; [done|]. split; [unfold records; by rewrite Ht|cbn; lia].
  - destruct (trim_spec oldest l Hw) as [Hw' Ht]. split; [done|].
    split; [by apply (records_filter _ _ (fun r => oldest <= rec_writer r))|].
    unfold trim_below. destruct (recs_split _ _), (recs_split _ _). cbn. case_decide; cbn; lia.
  - destruct (take_spec xid l Hw) as [Hw' Ht]. split; [done|].
    split; [by apply (records_filter _ _ (fun r => rec_writer r <> xid))|]. cbn. lia.
Qed.

Definition run_uops (ops : list uop) : UndoRelationLog := foldl run_uop UndoRelationLog_default ops.
Definition spec_uops (ops : list uop) : list Rec := foldl spec_uop [] ops.
Definition total_pushes (ops : list uop) : Z := foldr (fun o n => uop_pushes o + n) 0 ops.

Lemma run_uops_spec l rs ops :
  log_wf l -> records l = rs -> next_sequence l + total_pushes ops < U64 ->
  log_wf (foldl run_uop l ops) /\ records (foldl run_uop l ops) = foldl spec_uop rs ops.
Proof.
  revert l rs. induction ops as [|o ops IH]; intros l rs Hw Hr Hn; cbn [foldl]; [by rewrite Hr|].
  cbn [total_pushes foldr] in Hn. fold (total_pushes ops) in Hn.
  assert (0 <= total_pushes ops) as Hpos.
  { clear. induction ops as [|o ops IH]; cbn; [lia|]. fold (total_pushes ops). destruct o; cbn; lia. }
  destruct (run_uop_spec l o Hw) as (Hw' & Hr' & Hn'); [lia|]. subst rs. apply IH; [done|done|lia].
Qed.

(** Reading a slot from the copy of its page. *)
Lemma snapshot_pre_image {O} `{XidStatusOracle O} log tid cur s (oracle : O) :
  log_wf log ->
  undo_pre_image_from_log (snapshot_page (tid_page tid) log) tid cur s oracle = undo_pre_image_from_log log tid cur s oracle.
Proof.
  intros Hw. destruct (snapshot_page_spec (tid_page tid) _ Hw) as [Hw' Hs].
  apply (pre_image_filter s oracle _ _ tid cur (fun r => rec_page r = tid_page tid)); [done|done|done|].
  intros r [Ht _]%list_elem_of_filter Hp. exfalso. apply Hp. destruct r as [e|b]; cbn in Ht |- *.
  - apply bool_decide_eq_true in Ht as ->. done.
  - apply andb_prop in Ht as [Ht _]. by apply bool_decide_eq_true in Ht.
Qed.

(** C14. The undo log refines a list of records. After any sequence of the
    operations the heap performs on it (appending pre-images and batches,
    deactivating a transaction's records on a page, compacting, trimming
    below a horizon, removing a transaction's records), the log with its two
    vectors, metadata, sequence numbers and hash indices stands for the list
    of records the same operations give on a plain list, and the payload a
    snapshot reads for a slot, from the log or from the copy of its page a
    scan takes, is the one obtained by undoing the slot's records of that
    list, newest first. *)
Theorem undo_log_refines {O} `{XidStatusOracle O} ops tid cur s (oracle : O) :
  total_pushes ops < U64 -> 9 <= zlen cur ->
  records (run_uops ops) = spec_uops ops /\
  undo_pre_image_from_log (run_uops ops) tid cur s oracle =
    undo_recs s oracle cur (reverse (filter (fun r => rec_touches tid r = true) (spec_uops ops))) None /\
  undo_pre_image_from_log (snapshot_page (tid_page tid) (run_uops ops)) tid cur s oracle =
    undo_pre_image_from_log (run_uops ops) tid cur s oracle.
Proof.
  intros Hn Hlen. destruct (run_uops_spec UndoRelationLog_default [] ops) as [Hw Hr];
    [apply default_wf|done|cbn; lia|]. fold (run_uops ops) in Hw, Hr. fold (spec_uops ops) in Hr.
  split; [done|]. split.
  - rewrite pre_image_eq by done. unfold slot_records. by rewrite Hr.
  - by apply snapshot_pre_image.
Qed.

Definition example_entry : UndoEntry := mk_UndoEntry (mk_TupleId (mk_PageId 7 0) 2) 11 0 [0; 5; 0; 0; 0; 9; 0; 0; 0].
Definition example_batch : Int32PairUndoBatch := mk_Int32PairUndoBatch (mk_PageId 7 0) 12 0 1 4 0 6 [].
Definition example_uops : list uop :=
  [UPush (REntry example_entry); UAppend [example_batch; example_batch]; UDeactivate 13 (mk_PageId 7 0); UCompact; UTrim 11].
Definition nobody : Xid -> XidStatus := fun _ => InProgress.

Lemma undo_log_refines_witness :
  undo_pre_image_from_log (run_uops example_uops) (mk_TupleId (mk_PageId 7 0) 2) [0; 6; 0; 0; 0; 17; 0; 0; 0]
    (Snapshot_new 5 10 9 0 []) nobody = Some [0; 5; 0; 0; 0; 9; 0; 0; 0].
Proof.
  destruct (undo_log_refines example_uops (mk_TupleId (mk_PageId 7 0) 2) [0; 6; 0; 0; 0; 17; 0; 0; 0]
    (Snapshot_new 5 10 9 0 []) nobody) as (_ & -> & _); [reflexivity|discriminate|]. vm_compute. reflexivity.
Defined.

(** ** Writes and what is read back

    A write of a slot in place, as the two update paths make it: a full
    record keeps the first nine bytes of the payload, a compact record the
    constant that was added to the column without overflow. *)

Definition target_offset (col : Z) : Z := if col =? 0 then 1 else 5.

Inductive slot_write (tid : TupleId) : Rec -> list Z -> list Z -> Prop :=
| write_full e p p' :
    ue_tid e = tid -> ue_old_payload e = take 9 p -> zlen p' = zlen p -> Forall is_byte p' ->
    slot_write tid (REntry e) p p'
| write_compact b p v :
    rec_touches tid (RBatch b) = true -> v = to_i32 (zread 4 (target_offset (ub_target_col b)) p) ->
    I32_MIN <= v + ub_delta b <= I32_MAX ->
    slot_write tid (RBatch b) p (zsplice (target_offset (ub_target_col b)) (i32_bytes (v + ub_delta b)) p).

(** The writes of a slot in order, each with the payload it left. *)
Inductive slot_history (tid : TupleId) : list Z -> list (Rec * list Z) -> Prop :=
| history_nil p : slot_history tid p []
| history_cons p r p' ws : slot_write tid r p p' -> slot_history tid p' ws -> slot_history tid p ((r, p') :: ws).

Fixpoint payload_after (p : list Z) (ws : list (Rec * list Z)) : list Z :=
  match ws with [] => p | (_, p') :: ws' => payload_after p' ws' end.

Lemma payload_after_app p ws ws' : payload_after p (ws ++ ws') = payload_after (payload_after p ws) ws'.
Proof. revert p. induction ws as [|[r q] ws IH]; intros p; [done|]. apply IH. Qed.

Lemma history_app tid p ws ws' :
  slot_history tid p (ws ++ ws') <-> slot_history tid p ws /\ slot_history tid (payload_after p ws) ws'.
Proof.
  revert p. induction ws as [|[r q] ws IH]; intros p; cbn.
  - split; [intros Hh; split; [constructor|done]|by intros [_ Hh]].
  - split.
    + intros Hh. inversion Hh as [|p1 r1 p2 ws1 Hwr Hrest]; subst. apply IH in Hrest as [H1 H2].
      split; [by constructor|done].
    + intros [Hh Hh']. inversion Hh as [|p1 r1 p2 ws1 Hwr Hrest]; subst. constructor; [done|]. by apply IH.
Qed.

Definition payload_ok (p : list Z) : Prop := 9 <= zlen p /\ Forall is_byte p.

Lemma i32_bytes_props v : zlen (i32_bytes v) = 4 /\ Forall is_byte (i32_bytes v).
Proof. split; [unfold i32_bytes; by rewrite zlen_enc|apply le_encode_bytes]. Qed.

Lemma target_offset_range col : 1 <= target_offset col /\ target_offset col + 4 <= 9.
Proof. unfold target_offset. destruct (col =? 0); lia. Qed.

Lemma slot_write_ok tid r p p' : payload_ok p -> slot_write tid r p p' -> payload_ok p'.
Proof.
  intros [Hl Hb]. destruct 1 as [e p p' _ _ Hlen Hp'|b p v _ _ _]; [split; [lia|done]|].
  destruct (i32_bytes_props (v + ub_delta b)) as [H4 H5]. pose proof (target_offset_range (ub_target_col b)).
  split; [|by apply zsplice_bytes]. rewrite zlen_splice; lia.
Qed.

Lemma history_ok tid p ws : payload_ok p -> slot_history tid p ws -> payload_ok (payload_after p ws).
Proof. intros Hp Hh. induction Hh as [|p r p' ws Hw Hh IH]; [done|]. cbn. apply IH. by eapply slot_write_ok. Qed.

Lemma to_i32_range v : 0 <= v < U32 -> I32_MIN <= to_i32 v <= I32_MAX /\ wrap U32 (to_i32 v) = v.
Proof.
  unfold I32_MIN, I32_MAX, to_i32, wrap, U32. intros Hv. destruct (Z.ltb_spec v (2 ^ 31)).
  - split; [lia|]. apply Z.mod_small. lia.
  - split; [lia|]. rewrite <- (Z_mod_plus_full _ 1).
    replace (v - 2 ^ 32 + 1 * 2 ^ 32) with v by lia. apply Z.mod_small. lia.
Qed.

Lemma to_i32_wrap v : I32_MIN <= v <= I32_MAX -> to_i32 (wrap U32 v) = v.
Proof.
  unfold I32_MIN, I32_MAX, to_i32, wrap, U32. intros Hv. destruct (Z.ltb_spec v 0).
  - assert (v mod 2 ^ 32 = v + 2 ^ 32) as -> by (rewrite <- (Z_mod_plus_full v 1), Z.mod_small; lia).
    destruct (Z.ltb_spec (v + 2 ^ 32) (2 ^ 31)); lia.
  - rewrite Z.mod_small by lia. destruct (Z.ltb_spec v (2 ^ 31)); lia.
Qed.

Lemma take_zsplice n off new l :
  0 <= off -> off + zlen new <= Z.of_nat n -> off + zlen new <= zlen l ->
  take n (zsplice off new l) = zsplice off new (take n l).
Proof.
  intros H0 Hn Hl. unfold zsplice, zlen in *. rewrite !take_app, !length_take.
  rewrite take_take, skipn_firstn_comm. rewrite (take_ge new) by lia.
  replace (n `min` Z.to_nat off)%nat with (Z.to_nat off) by lia.
  rewrite take_take. replace (Z.to_nat off `min` n)%nat with (Z.to_nat off) by lia.
  do 3 f_equal. lia.
Qed.

(** The inverse of a compact write. *)
Lemma reverse_compact col delta p v :
  payload_ok p -> v = to_i32 (zread 4 (target_offset col) p) -> I32_MIN <= v + delta <= I32_MAX ->
  reverse_one_compact_delta (take 9 (zsplice (target_offset col) (i32_bytes (v + delta)) p)) col delta = Some (take 9 p).
Proof.
  intros [Hl Hb] Hv Hr. pose proof (target_offset_range col) as [Ho1 Ho2]. destruct (i32_bytes_props (v + delta)) as [H4 _].
  assert (zlen (take 9 p) = 9) as H9 by (unfold zlen in *; rewrite length_take; lia).
  assert (Hb9 : Forall is_byte (take 9 p)) by (by apply Forall_take).
  rewrite take_zsplice by lia. unfold reverse_one_compact_delta. fold (target_offset col).
  set (off := target_offset col) in *.
  rewrite zlen_splice by lia. destruct (Z.ltb_spec (zlen (take 9 p)) (off + 4)); [lia|].
  assert (to_i32 (zread 4 off (zsplice off (i32_bytes (v + delta)) (take 9 p))) = v + delta) as Hcur.
  { unfold i32_bytes. rewrite zread_splice_enc; [by apply to_i32_wrap|lia|lia|]. unfold wrap, U32. apply Z.mod_pos_bound. done. }
  cbv zeta. rewrite !Hcur. replace (v + delta - delta) with v by lia.
  assert (zread 4 off (take 9 p) = zread 4 off p) as Hread.
  { rewrite <- (take_drop 9 p) at 2. rewrite zread_app_l by lia. done. }
  pose proof (zread_bound 4 off (take 9 p) Hb9 ltac:(lia) ltac:(lia)) as Hrange.
  destruct (to_i32_range (zread 4 off p)) as [Hvr Hvw]; [rewrite <- Hread; unfold U32; cbn in Hrange; lia|].
  rewrite <- Hv in Hvr, Hvw. assert ((I32_MIN <=? v) && (v <=? I32_MAX) = true) as -> by (rewrite andb_true_iff, !Z.leb_le; lia).
  f_equal.
  pose proof (zsplice_twice off (i32_bytes v) (i32_bytes (v + delta)) [] (take 9 p)) as Htw. rewrite !app_nil_r in Htw.
  destruct (i32_bytes_props v) as [H4' _]. rewrite Htw by (unfold zlen in *; lia).
  apply zsplice_id; [lia|lia|]. rewrite H4'. unfold i32_bytes. rewrite Hvw, <- Hread.
  rewrite (zread_enc 4 off) by (done || lia). done.
Qed.

Section reconstruct.
Context {O : Type} `{XidStatusOracle O} (s : Snapshot) (oracle : O).

(** Undoing unseen writes, newest first, reaches the payload before them. *)
Lemma undo_unseen tid cur p us rest pre :
  payload_ok p -> slot_history tid p us -> Forall (fun w => seen s oracle w.1 = false) us -> us <> [] ->
  default (take 9 cur) pre = take 9 (payload_after p us) ->
  undo_recs s oracle cur (reverse us.*1 ++ rest) pre = undo_recs s oracle cur rest (Some (take 9 p)).
Proof.
  revert pre. induction us as [|[r q] us IH] using rev_ind; intros pre Hok Hh Hu Hne Hd; [done|].
  apply history_app in Hh as [Hh Hl]. inversion Hl as [|p1 r1 p2 ws1 Hwr Hrest]; subst.
  apply Forall_app in Hu as [Hu Hr]. apply Forall_cons in Hr as [Hr _]. cbn [fst] in Hr.
  rewrite payload_after_app in Hd. cbn in Hd. rewrite fmap_app, reverse_app. cbn [fmap list_fmap fst reverse rev_append app undo_recs].
  assert (undo_rec s oracle cur r pre = Some (Some (take 9 (payload_after p us)))) as ->.
  { pose proof (history_ok _ _ _ Hok Hh) as Hok'. inversion Hwr as [e p1 p2 He Ho|b p1 v Ht Hv Hv2]; subst; unfold seen in Hr; cbn in Hr |- *.
    - unfold undo_full. by rewrite Hr, Ho.
    - unfold undo_compact. rewrite Hr, Hd. fold (target_offset (ub_target_col b)).
      by rewrite (reverse_compact _ _ _ _ Hok' eq_refl Hv2). }
  cbn [mbind option_bind]. destruct us as [|w us]; [done|]. by apply IH.
Qed.

(** C15. Snapshot reads see through in-place updates. Take a slot whose
    payload was written in place any number of times, by full or compact
    updates in any order, each leaving its record in the undo log. A
    snapshot that sees a prefix of those writes and not the rest reads, from
    the current bytes of the slot and the log, exactly the payload the last
    write of the prefix left; when it sees every write, the log yields no
    pre-image and the reader uses the bytes in the slot. *)
Theorem undo_reconstructs log tid p ws us :
  log_wf log -> payload_ok p -> slot_history tid p (ws ++ us) -> slot_records log tid = (ws ++ us).*1 ->
  Forall (fun w => seen s oracle w.1 = true) ws -> Forall (fun w => seen s oracle w.1 = false) us ->
  undo_pre_image_from_log log tid (payload_after p (ws ++ us)) s oracle =
    match us with [] => None | _ => Some (take 9 (payload_after p ws)) end.
Proof.
  intros Hw Hok Hh Hr Hs Hu.
  assert (Hskip : forall cur pre, undo_recs s oracle cur (reverse ws.*1) pre = pre).
  { intros cur. clear -Hs. induction ws as [|w ws IH] using rev_ind; intros pre; [done|].
    apply Forall_app in Hs as [Hs Hw]. apply Forall_cons in Hw as [Hw _].
    rewrite fmap_app, reverse_app. cbn. rewrite undo_rec_seen by done. cbn. by apply IH. }
  pose proof (history_ok _ _ _ Hok Hh) as [Hlen _]. rewrite pre_image_eq, Hr by done.
  rewrite fmap_app, reverse_app. apply history_app in Hh as [Hhw Hhu].
  destruct us as [|u us]; [cbn; apply Hskip|].
  rewrite (undo_unseen tid _ (payload_after p ws) (u :: us)); [apply Hskip|by eapply history_ok|done|done|done|].
  cbn [default]. by rewrite payload_after_app.
Qed.
End reconstruct.

Lemma undo_reconstructs_witness :
  let log := run_uops [UPush (REntry example_entry); UPush (RBatch example_batch)] in
  let tid := mk_TupleId (mk_PageId 7 0) 2 in
  undo_pre_image_from_log log tid [0; 6; 0; 0; 0; 13; 0; 0; 0] (Snapshot_new 12 13 20 0 [])
    (fun x : Xid => if x =? 11 then Committed else InProgress) = Some [0; 6; 0; 0; 0; 9; 0; 0; 0].
Proof.
  refine (undo_reconstructs (Snapshot_new 12 13 20 0 []) (fun x : Xid => if x =? 11 then Committed else InProgress)
    (run_uops [UPush (REntry example_entry); UPush (RBatch example_batch)]) (mk_TupleId (mk_PageId 7 0) 2)
    [0; 5; 0; 0; 0; 9; 0; 0; 0] [(REntry example_entry, [0; 6; 0; 0; 0; 9; 0; 0; 0])]
    [(RBatch example_batch, [0; 6; 0; 0; 0; 13; 0; 0; 0])] _ _ _ _ _ _).
  - destruct (run_uops_spec UndoRelationLog_default [] [UPush (REntry example_entry); UPush (RBatch example_batch)])
      as [Hw _]; [apply default_wf|reflexivity|reflexivity|exact Hw].
  - split; [discriminate|repeat constructor; discriminate || reflexivity].
  - constructor; [constructor; [reflexivity|reflexivity|reflexivity|repeat constructor; discriminate || reflexivity]|].
    constructor; [|constructor].
    refine (write_compact (mk_TupleId (mk_PageId 7 0) 2) example_batch [0; 6; 0; 0; 0; 9; 0; 0; 0] 9 _ _ _);
      [reflexivity|reflexivity|split; discriminate].
  - reflexivity.
  - repeat constructor.
  - repeat constructor.
Defined.
