(* ===== verification/WalBufferSink.v ===== *)
(** * The sink over the WAL buffer (ultrasql-server, wal_sink.rs)

    [WalBufferSink] hands the records of the access methods to the WAL buffer
    and remembers the last and the first LSN of each transaction. Its maps and
    counters are shared atomics; a call is one step here. An append that parks
    for room resumes after the writer's next drain. *)

From S2P Require Import Prelude CoreIds WalRecord WalLog WalBuffer WalSink.

Record WalBufferSink := mk_WalBufferSink {
  ws_buffer : WalBuffer;
  ws_zero_lsn_reserved : bool;
  ws_last_lsn : gmap Xid Lsn;
  ws_first_lsn : gmap Xid Lsn;
  ws_cache_xid : Xid;
  ws_cache_lsn : Lsn;
  ws_wal_records : Z;
  ws_wal_fpi : Z;
  ws_wal_bytes : Z;
}.

Definition WalBufferSink_new (b : WalBuffer) : WalBufferSink := mk_WalBufferSink b false ∅ ∅ 0 0 0 0 0.

Definition mark_zero_lsn_reserved (w : WalBufferSink) : WalBufferSink :=
  mk_WalBufferSink (ws_buffer w) true (ws_last_lsn w) (ws_first_lsn w) (ws_cache_xid w) (ws_cache_lsn w)
    (ws_wal_records w) (ws_wal_fpi w) (ws_wal_bytes w).

Definition ws_with_buffer (w : WalBufferSink) (b : WalBuffer) : WalBufferSink :=
  mk_WalBufferSink b (ws_zero_lsn_reserved w) (ws_last_lsn w) (ws_first_lsn w) (ws_cache_xid w) (ws_cache_lsn w)
    (ws_wal_records w) (ws_wal_fpi w) (ws_wal_bytes w).

Definition ws_with_last (w : WalBufferSink) (last : gmap Xid Lsn) (x : Xid) (lsn : Lsn) : WalBufferSink :=
  mk_WalBufferSink (ws_buffer w) (ws_zero_lsn_reserved w) last (ws_first_lsn w) x lsn
    (ws_wal_records w) (ws_wal_fpi w) (ws_wal_bytes w).

Definition ws_with_first (w : WalBufferSink) (first : gmap Xid Lsn) : WalBufferSink :=
  mk_WalBufferSink (ws_buffer w) (ws_zero_lsn_reserved w) (ws_last_lsn w) first (ws_cache_xid w) (ws_cache_lsn w)
    (ws_wal_records w) (ws_wal_fpi w) (ws_wal_bytes w).

(** [entry(..).or_insert_with(..).fetch_min(..)] *)
Definition record_first_lsn (w : WalBufferSink) (xid : Xid) (lsn : Lsn) : WalBufferSink :=
  if negb (Xid_is_normal xid) then w else
  ws_with_first w (<[xid := Z.min (default lsn (ws_first_lsn w !! xid)) lsn]> (ws_first_lsn w)).

Definition oldest_of (m : gmap Xid Lsn) : option Lsn :=
  map_fold (fun _ v oldest => Some (match oldest with Some current => Z.min current v | None => v end)) None m.

(** [retain] drops the entries of the transactions that are not active. *)
Definition prune_terminal_and_oldest_active_first_lsn (w : WalBufferSink) (is_active : Xid -> bool)
  : option Lsn * WalBufferSink :=
  let kept := filter (fun kv => is_active kv.1 = true) (ws_first_lsn w) in
  (oldest_of kept, ws_with_first w kept).

Definition publish_last_lsn (w : WalBufferSink) (xid : Xid) (lsn : Lsn) : WalBufferSink :=
  if ws_cache_xid w =? xid
  then ws_with_last w (ws_last_lsn w) (ws_cache_xid w) (Z.max (ws_cache_lsn w) lsn) else
  let last := if negb (ws_cache_xid w =? 0)
    then <[ws_cache_xid w := Z.max (default 0 (ws_last_lsn w !! ws_cache_xid w)) (ws_cache_lsn w)]> (ws_last_lsn w)
    else ws_last_lsn w in
  ws_with_last w last xid (Z.max (default 0 (last !! xid)) lsn).

Definition sink_last_lsn_for (w : WalBufferSink) (xid : Xid) : Lsn :=
  if ws_cache_xid w =? xid then ws_cache_lsn w else default 0 (ws_last_lsn w !! xid).

(** What follows an accepted record. *)
Definition accept (w : WalBufferSink) (xid : Xid) (total : Z) (is_fpi : bool) (lsn : Lsn) : WalBufferSink :=
  let w := record_first_lsn (publish_last_lsn w xid lsn) xid lsn in
  mk_WalBufferSink (ws_buffer w) (ws_zero_lsn_reserved w) (ws_last_lsn w) (ws_first_lsn w) (ws_cache_xid w) (ws_cache_lsn w)
    (wrap U64 (ws_wal_records w + 1)) (if is_fpi then wrap U64 (ws_wal_fpi w + 1) else ws_wal_fpi w)
    (wrap U64 (ws_wal_bytes w + total)).

(** A parked append comes back once the writer has drained the buffer. *)
Definition unparked {A} (attempt : WalBuffer -> append_outcome * WalBuffer * A) (b : WalBuffer)
  : append_outcome * WalBuffer * A :=
  match attempt b with
  | (MustWait, _, _) => attempt (drain b).2
  | other => other
  end.

Definition is_full_page (t : RecordType) : bool := match t with FullPageWrite => true | _ => false end.

Definition finish_append (w : WalBufferSink) (b : WalBuffer) (o : append_outcome) (xid : Xid) (total : Z) (t : RecordType)
  : result Lsn unit * WalBufferSink :=
  match o with
  | Appended lsn => (Ok lsn, accept (ws_with_buffer w b) xid total (is_full_page t) lsn)
  | _ => (Err tt, ws_with_buffer w b)
  end.

Definition append_ref (w : WalBufferSink) (r : WalRecord) : result Lsn unit * WalBufferSink :=
  let '(o, b, _) := unparked (fun b => (buffer_append b r, tt)) (ws_buffer w) in
  finish_append w b o (rec_xid (rec_header r)) (total_length (rec_header r)) (record_type (rec_header r)).

Section borrowed.
Context (crc32c_append : Z -> list Z -> Z).

Definition borrowed_length (payload : list Z) : option Z :=
  checked_add U64 (Z.of_nat RECORD_HEADER_SIZE) (Z.of_nat (length payload)).

Definition sink_append_borrowed (w : WalBufferSink) (t : RecordType) (xid : Xid) (prev : Lsn) (flags : Z) (payload : list Z)
  : result Lsn unit * WalBufferSink :=
  match borrowed_length payload with
  | None => (Err tt, w)
  | Some total =>
      let '(o, b, _) := unparked (fun b => (append_borrowed crc32c_append b t xid prev flags payload, tt)) (ws_buffer w) in
      finish_append w b o xid total t
  end.

(** The value of the link comes third. *)
Definition sink_append_borrowed_linked (w : WalBufferSink) (t : RecordType) (xid : Xid) (flags : Z) (payload : list Z)
    (link : Lsn) : result Lsn unit * WalBufferSink * Lsn :=
  match borrowed_length payload with
  | None => (Err tt, w, link)
  | Some total =>
      let '(o, b, link') := unparked (fun b => append_borrowed_linked crc32c_append b t xid flags payload link) (ws_buffer w) in
      (finish_append w b o xid total t, link')
  end.
End borrowed.

(** [impl WalSink for WalBufferSink] *)
Definition WalBufferSink_sink : WalSink WalBufferSink := mk_WalSink _ sink_last_lsn_for append_ref.

(** ** What an append does to the buffer *)

Lemma drain_buffer b : wb_bytes (drain b).2 = [] /\ wb_next_lsn (drain b).2 = wb_next_lsn b.
Proof. done. Qed.

Lemma assign_next b h payload o b' :
  assign_and_encode b h payload = (o, b') ->
  match o with
  | Appended lsn => lsn = wb_next_lsn b /\ wb_next_lsn b' = lsn + total_length h /\ wb_next_lsn b' < U64
  | _ => wb_next_lsn b' = wb_next_lsn b
  end /\ o <> MustWait.
Proof.
  unfold assign_and_encode, checked_add. destruct (Z.ltb_spec (wb_next_lsn b + total_length h) U64); intros [= <- <-]; done.
Qed.

Lemma append_next b r o b' :
  buffer_append b r = (o, b') ->
  match o with
  | Appended lsn => lsn = wb_next_lsn b /\ wb_next_lsn b' = lsn + total_length (rec_header r) /\ wb_next_lsn b' < U64
  | _ => wb_next_lsn b' = wb_next_lsn b
  end.
Proof. unfold buffer_append. destruct (reserve _ _); [|by intros [= <- <-]..]. intros H%assign_next. apply H. Qed.

(** An empty buffer never parks an append. *)
Lemma append_drained b r : (buffer_append (drain b).2 r).1 <> MustWait.
Proof.
  unfold buffer_append. destruct (reserve (drain b).2 (total_length (rec_header r))) eqn:E.
  - destruct (assign_and_encode _ _ _) as [o b'] eqn:Ea. apply assign_next in Ea as [_ H]. done.
  - done.
  - unfold reserve in E. cbn in E. destruct (wb_closed b); [done|].
    destruct (match checked_add _ _ _ with Some _ => _ | None => _ end); [done|]. by destruct (wb_drainer b).
Qed.

Lemma accept_buffer w xid total is_fpi lsn : ws_buffer (accept w xid total is_fpi lsn) = ws_buffer w.
Proof. unfold accept, record_first_lsn, publish_last_lsn. cbn. repeat case_match; done. Qed.

(** The sink after an append. *)
Definition append_result (w : WalBufferSink) (r : WalRecord) (res : result Lsn unit) (w' : WalBufferSink) : Prop :=
  match res with
  | Ok lsn => lsn = wb_next_lsn (ws_buffer w) /\ wb_next_lsn (ws_buffer w') = lsn + total_length (rec_header r) /\
      wb_next_lsn (ws_buffer w') < U64 /\
      exists b, w' = accept (ws_with_buffer w b) (rec_xid (rec_header r)) (total_length (rec_header r))
                       (is_full_page (record_type (rec_header r))) lsn
  | Err _ => wb_next_lsn (ws_buffer w') = wb_next_lsn (ws_buffer w) /\ exists b, w' = ws_with_buffer w b
  end.

Lemma append_ref_result w r res w' : append_ref w r = (res, w') -> append_result w r res w'.
Proof.
  unfold append_ref. destruct (unparked _ _) as [[o b] u] eqn:Eu.
  assert (exists b0, wb_next_lsn b0 = wb_next_lsn (ws_buffer w) /\ buffer_append b0 r = (o, b)) as (b0 & Hn & Ha).
  { unfold unparked in Eu. destruct (buffer_append (ws_buffer w) r) as [o1 b1] eqn:E1.
    destruct o1; [injection Eu as <- <- <-; by eexists..|]. exists (drain (ws_buffer w)).2. split; [done|]. by injection Eu. }
  pose proof (append_next _ _ _ _ Ha) as Hx. unfold finish_append. destruct o; intros [= <- <-]; cbn [append_result].
  - destruct Hx as (-> & Hn' & Hlt). rewrite accept_buffer. cbn [ws_with_buffer ws_buffer]. rewrite Hn in *. split_and!; [done..|by eexists].
  - cbn. split; [congruence|by eexists].
  - cbn. split; [congruence|by eexists].
Qed.

(** ** The LSNs of a transaction *)

Abbreviation Accepted := (list (Lsn * WalRecord)) (only parsing).

Definition lsns_of (x : Xid) (g : Accepted) : list Lsn := (filter (fun e => rec_xid (rec_header e.2) = x) g).*1.

Lemma lsns_of_snoc x g lsn r :
  lsns_of x (g ++ [(lsn, r)]) = lsns_of x g ++ (if decide (rec_xid (rec_header r) = x) then [lsn] else []).
Proof. unfold lsns_of. rewrite filter_app, fmap_app. f_equal. rewrite filter_cons. cbn. by case_decide. Qed.

Definition last_lsn_of (x : Xid) (g : Accepted) : Lsn := default 0 (last (lsns_of x g)).

(** Appending records one after the other; the accepted ones with their LSNs. *)
Fixpoint appends (rs : list WalRecord) (st : Accepted * WalBufferSink) : Accepted * WalBufferSink :=
  match rs with
  | [] => st
  | r :: rest =>
      match append_ref st.2 r with
      | (Ok lsn, w') => appends rest (st.1 ++ [(lsn, r)], w')
      | (Err _, w') => appends rest (st.1, w')
      end
  end.

(** The map and the cache of one transaction hold the last LSNs; the entry of
    the cached transaction may be behind. *)
Record last_inv (g : Accepted) (m : gmap Xid Lsn) (cx : Xid) (cl : Lsn) : Prop := {
  li_map : forall x, x <> 0 -> x <> cx -> default 0 (m !! x) = last_lsn_of x g;
  li_stale : cx <> 0 -> 0 <= default 0 (m !! cx) <= cl;
  li_cache : cx <> 0 -> cl = last_lsn_of cx g;
}.

(** What the sink knows of the records it accepted. *)
Record sink_inv (g : Accepted) (w : WalBufferSink) : Prop := {
  si_below : Forall (fun e => 0 <= e.1 < wb_next_lsn (ws_buffer w)) g;
  si_order : StronglySorted Z.lt (g.*1);
  si_next : 0 <= wb_next_lsn (ws_buffer w);
  si_last : last_inv g (ws_last_lsn w) (ws_cache_xid w) (ws_cache_lsn w);
  si_first : forall x, ws_first_lsn w !! x = if Xid_is_normal x then head (lsns_of x g) else None;
}.

Lemma sink_inv_new b : 0 <= wb_next_lsn b -> sink_inv [] (WalBufferSink_new b).
Proof. intros H. constructor; [constructor|constructor|done|done|]. intros x. cbn. rewrite lookup_empty. by case_match. Qed.

Lemma sink_inv_buffer g w b :
  sink_inv g w -> wb_next_lsn b = wb_next_lsn (ws_buffer w) -> sink_inv g (ws_with_buffer w b).
Proof. intros [H1 H2 H3 H4 H5] E. constructor; cbn; rewrite ?E; done. Qed.

Lemma last_lsn_of_below g w x : sink_inv g w -> 0 <= last_lsn_of x g /\ last_lsn_of x g <= wb_next_lsn (ws_buffer w).
Proof.
  intros Hi. unfold last_lsn_of. destruct (last (lsns_of x g)) as [l|] eqn:E; cbn; [|pose proof (si_next _ _ Hi); lia].
  apply last_Some_elem_of in E. apply list_elem_of_fmap in E as ([l' r] & -> & [_ He]%list_elem_of_filter).
  pose proof (proj1 (Forall_forall _ _) (si_below _ _ Hi) _ He). cbn in *. lia.
Qed.

(** ** An accepted record *)

Lemma StronglySorted_snoc (l : list Z) x : StronglySorted Z.lt l -> Forall (fun y => y < x) l -> StronglySorted Z.lt (l ++ [x]).
Proof.
  induction 1 as [|y l Hs IH Hy]; intros Hf; [repeat constructor|]. inversion Hf; subst. cbn. constructor; [by apply IH|].
  apply Forall_app. split; [done|by repeat constructor].
Qed.

Lemma last_lsn_of_snoc y g lsn r :
  last_lsn_of y (g ++ [(lsn, r)]) = if decide (y = rec_xid (rec_header r)) then lsn else last_lsn_of y g.
Proof.
  unfold last_lsn_of. rewrite lsns_of_snoc. destruct (decide (y = rec_xid (rec_header r))) as [->|Hne].
  - rewrite decide_True by done. by rewrite last_snoc.
  - rewrite decide_False by done. by rewrite app_nil_r.
Qed.

Lemma publish_inv g w r lsn :
  let x := rec_xid (rec_header r) in
  let p := publish_last_lsn w x lsn in
  last_inv g (ws_last_lsn w) (ws_cache_xid w) (ws_cache_lsn w) -> (forall y, 0 <= last_lsn_of y g <= lsn) ->
  last_inv (g ++ [(lsn, r)]) (ws_last_lsn p) (ws_cache_xid p) (ws_cache_lsn p).
Proof.
  intros x p [Hm Hs Hc] Hb. unfold p, publish_last_lsn. destruct (Z.eqb_spec (ws_cache_xid w) x) as [Heq|Hne].
  - constructor; cbn [ws_with_last ws_last_lsn ws_cache_xid ws_cache_lsn].
    + intros y Hy Hyc. rewrite last_lsn_of_snoc, decide_False by (fold x; congruence). by apply Hm.
    + intros H0. specialize (Hs H0). lia.
    + intros H0. rewrite last_lsn_of_snoc, decide_True by done. rewrite (Hc H0). specialize (Hb (ws_cache_xid w)). lia.
  - set (m' := if negb _ then _ else _).
    assert (forall y, y <> 0 -> default 0 (m' !! y) = last_lsn_of y g) as Hm'.
    { intros y Hy. unfold m'. destruct (Z.eqb_spec (ws_cache_xid w) 0) as [Hc0|Hc0]; cbn [negb]; [apply Hm; congruence|].
      destruct (decide (y = ws_cache_xid w)) as [->|Hyc]; [|rewrite lookup_insert_ne by done; by apply Hm].
      rewrite lookup_insert_eq. cbn. rewrite <- (Hc Hc0). specialize (Hs Hc0). lia. }
    constructor; cbn [ws_with_last ws_last_lsn ws_cache_xid ws_cache_lsn].
    + intros y Hy Hyc. rewrite last_lsn_of_snoc, decide_False by done. by apply Hm'.
    + intros H0. rewrite (Hm' x H0). specialize (Hb x). lia.
    + intros H0. rewrite last_lsn_of_snoc, decide_True by done. rewrite (Hm' x H0). specialize (Hb x). lia.
Qed.

Lemma first_inv g (f : gmap Xid Lsn) r lsn :
  let x := rec_xid (rec_header r) in
  (forall y, f !! y = if Xid_is_normal y then head (lsns_of y g) else None) -> Forall (fun e => e.1 <= lsn) g ->
  forall y, (if negb (Xid_is_normal x) then f else <[x := Z.min (default lsn (f !! x)) lsn]> f) !! y =
    if Xid_is_normal y then head (lsns_of y (g ++ [(lsn, r)])) else None.
Proof.
  intros x Hf Hb y. rewrite lsns_of_snoc. fold x. destruct (decide (y = x)) as [->|Hne].
  - rewrite decide_True by done. destruct (Xid_is_normal x) eqn:En; cbn [negb]; [|by rewrite Hf, En].
    rewrite lookup_insert_eq, Hf, En. destruct (lsns_of x g) as [|l0 ls] eqn:Eg; cbn; [f_equal; lia|]. f_equal.
    assert (l0 ∈ lsns_of x g) as He by (rewrite Eg; left).
    apply list_elem_of_fmap in He as ([l' r'] & -> & [_ He]%list_elem_of_filter).
    pose proof (proj1 (Forall_forall _ _) Hb _ He). cbn in *. lia.
  - rewrite (decide_False (P := x = y)) by done. rewrite app_nil_r. destruct (negb _); [apply Hf|].
    rewrite lookup_insert_ne by done. apply Hf.
Qed.

Lemma accept_fields w x total is_fpi lsn :
  let p := publish_last_lsn w x lsn in
  let a := accept w x total is_fpi lsn in
  ws_last_lsn a = ws_last_lsn p /\ ws_cache_xid a = ws_cache_xid p /\ ws_cache_lsn a = ws_cache_lsn p /\
  ws_first_lsn a = if negb (Xid_is_normal x) then ws_first_lsn w
                   else <[x := Z.min (default lsn (ws_first_lsn w !! x)) lsn]> (ws_first_lsn w).
Proof.
  intros p a. assert (ws_first_lsn p = ws_first_lsn w) as Ep by (unfold p, publish_last_lsn; by case_match).
  unfold a, accept, record_first_lsn. fold p. rewrite <- Ep. by destruct (negb _).
Qed.

Lemma sink_inv_accept g w b r total is_fpi :
  let x := rec_xid (rec_header r) in
  let lsn := wb_next_lsn (ws_buffer w) in
  sink_inv g w -> lsn < wb_next_lsn b -> sink_inv (g ++ [(lsn, r)]) (accept (ws_with_buffer w b) x total is_fpi lsn).
Proof.
  intros x lsn Hi Hlt. pose proof Hi as [Hbelow Hord Hnext Hlast Hfirst].
  destruct (accept_fields (ws_with_buffer w b) x total is_fpi lsn) as (E1 & E2 & E3 & E4).
  constructor; rewrite ?E1, ?E2, ?E3, ?E4, ?accept_buffer; cbn [ws_with_buffer ws_buffer ws_first_lsn].
  - apply Forall_app. split; [|repeat constructor; cbn; unfold lsn in *; lia]. eapply Forall_impl; [exact Hbelow|].
    cbn. intros e ?. unfold lsn in *. lia.
  - rewrite fmap_app. apply StronglySorted_snoc; [done|]. apply Forall_fmap. eapply Forall_impl; [exact Hbelow|].
    cbn. intros e ?. unfold lsn. lia.
  - unfold lsn in *. lia.
  - apply publish_inv; [done|]. intros y. by apply (last_lsn_of_below g w y).
  - apply first_inv; [done|]. eapply Forall_impl; [exact Hbelow|]. cbn. intros e ?. unfold lsn. lia.
Qed.

Lemma sink_inv_append g w r res w' :
  sink_inv g w -> 0 < total_length (rec_header r) -> append_ref w r = (res, w') ->
  match res with Ok lsn => sink_inv (g ++ [(lsn, r)]) w' | Err _ => sink_inv g w' end.
Proof.
  intros Hi Hz H%append_ref_result. destruct res as [lsn|e]; cbn [append_result] in H.
  - destruct H as (-> & Hn & _ & b & ->). rewrite accept_buffer in Hn. cbn in Hn. apply sink_inv_accept; [done|lia].
  - destruct H as (Hn & b & ->). by apply sink_inv_buffer.
Qed.

Lemma appends_inv rs g w :
  sink_inv g w -> Forall (fun r => 0 < total_length (rec_header r)) rs ->
  sink_inv (appends rs (g, w)).1 (appends rs (g, w)).2.
Proof.
  intros Hi Hr. revert g w Hi. induction Hr as [|r rs Hz _ IH]; intros g w Hi; [done|]. cbn [appends fst snd].
  destruct (append_ref w r) as [[lsn|e] w'] eqn:E; apply IH; by apply (sink_inv_append _ _ _ _ _ Hi Hz E).
Qed.

(** ** The oldest record of an active transaction *)

Lemma first_is_least g e :
  StronglySorted Z.lt (g.*1) -> e ∈ g -> exists l, head (lsns_of (rec_xid (rec_header e.2)) g) = Some l /\ l <= e.1.
Proof.
  induction g as [|e0 g IH]; intros Hs He; [by apply not_elem_of_nil in He|]. cbn in Hs. inversion Hs as [|? ? Hs' Hf]; subst.
  unfold lsns_of. rewrite filter_cons. apply elem_of_cons in He as [->|He].
  - rewrite decide_True by done. cbn. exists e0.1. split; [done|lia].
  - case_decide as Ex; cbn; [|by apply IH]. exists e0.1. split; [done|].
    assert (e.1 ∈ g.*1) as Hin by (apply list_elem_of_fmap; by exists e). pose proof (proj1 (Forall_forall _ _) Hf _ Hin). lia.
Qed.

Lemma oldest_of_spec (m : gmap Xid Lsn) :
  match oldest_of m with
  | None => m = ∅
  | Some v => (exists k, m !! k = Some v) /\ forall k v', m !! k = Some v' -> v <= v'
  end.
Proof.
  unfold oldest_of. apply (map_fold_weak_ind (fun o m => match o with
    | None => m = ∅
    | Some v => (exists k, m !! k = Some v) /\ forall k v', m !! k = Some v' -> v <= v' end)); [done|].
  intros i x m0 o Hi. destruct o as [v|].
  - intros [(k & Hk) Hle]. split.
    + destruct (Z.min_spec v x) as [[_ ->]|[_ ->]]; [exists k; rewrite lookup_insert_ne by congruence; done|exists i; by rewrite lookup_insert_eq].
    + intros k' v'. destruct (decide (i = k')) as [->|Hne]; [rewrite lookup_insert_eq; intros [= <-]; lia|].
      rewrite lookup_insert_ne by done. intros H%Hle. lia.
  - intros ->. split; [exists i; by rewrite lookup_insert_eq|]. intros k v'.
    destruct (decide (i = k)) as [->|Hne]; [rewrite lookup_insert_eq; intros [= <-]; lia|]. by rewrite lookup_insert_ne.
Qed.

(** The records of the user transactions that are active. *)
Definition active_record (is_active : Xid -> bool) (e : Lsn * WalRecord) : Prop :=
  Xid_is_normal (rec_xid (rec_header e.2)) = true /\ is_active (rec_xid (rec_header e.2)) = true.

Lemma prune_spec g w is_active :
  sink_inv g w ->
  match (prune_terminal_and_oldest_active_first_lsn w is_active).1 with
  | None => forall e, e ∈ g -> ~ active_record is_active e
  | Some m => (exists e, e ∈ g /\ active_record is_active e /\ e.1 = m) /\
      forall e, e ∈ g -> active_record is_active e -> m <= e.1
  end.
Proof.
  intros Hi. unfold prune_terminal_and_oldest_active_first_lsn. cbn [fst]. set (kept := filter _ _).
  assert (forall x l, kept !! x = Some l <-> is_active x = true /\ Xid_is_normal x = true /\ head (lsns_of x g) = Some l) as Hk.
  { intros x l. unfold kept. rewrite map_lookup_filter_Some, (si_first _ _ Hi). cbn. destruct (Xid_is_normal x); naive_solver. }
  assert (forall e, e ∈ g -> active_record is_active e ->
    exists l, kept !! rec_xid (rec_header e.2) = Some l /\ l <= e.1) as Hact.
  { intros e He [Hn Ha]. destruct (first_is_least g e (si_order _ _ Hi) He) as (l & Hl & Hle). exists l. split; [|done]. by apply Hk. }
  pose proof (oldest_of_spec kept) as Ho. destruct (oldest_of kept) as [m|].
  - destruct Ho as [(x & Hx) Hle]. split.
    + apply Hk in Hx as (Ha & Hn & Hh). apply head_Some_elem_of, list_elem_of_fmap in Hh as (e & -> & [Ex He]%list_elem_of_filter).
      exists e. rewrite <- Ex in Ha, Hn. split_and!; done.
    + intros e He Hae. destruct (Hact e He Hae) as (l & Hl & Hle'). specialize (Hle _ _ Hl). lia.
  - intros e He Hae. destruct (Hact e He Hae) as (l & Hl & _). rewrite Ho, lookup_empty in Hl. done.
Qed.

(** ** Properties *)

(** After any sequence of appends the sink reports, for every transaction,
    the LSN of its last accepted record as the link of its next one; and pruning
    at a checkpoint returns the LSN of the oldest record of a user transaction
    that is still active, or nothing exactly when none of them wrote. *)
Theorem sink_tracks_transactions b rs is_active :
  0 <= wb_next_lsn b -> Forall (fun r => 0 < total_length (rec_header r)) rs ->
  let st := appends rs ([], WalBufferSink_new b) in
  (forall x, x <> 0 -> sink_last_lsn_for st.2 x = last_lsn_of x st.1) /\
  match (prune_terminal_and_oldest_active_first_lsn st.2 is_active).1 with
  | None => forall e, e ∈ st.1 -> ~ active_record is_active e
  | Some m => (exists e, e ∈ st.1 /\ active_record is_active e /\ e.1 = m) /\
      forall e, e ∈ st.1 -> active_record is_active e -> m <= e.1
  end.
Proof.
  intros Hb Hr st. assert (sink_inv st.1 st.2) as Hi by (by apply appends_inv, Hr; apply sink_inv_new).
  split; [|by apply prune_spec]. intros x Hx. unfold sink_last_lsn_for. destruct (si_last _ _ Hi) as [Hm _ Hc].
  destruct (Z.eqb_spec (ws_cache_xid st.2) x) as [<-|Hne]; [by apply Hc|by apply Hm].
Qed.

Definition sample_record (x : Xid) (payload : list Z) : WalRecord :=
  mk_WalRecord (mk_WalRecordHeader (28 + Z.of_nat (length payload)) 0 0 x HeapInsert 0) payload.

Lemma sink_tracks_transactions_witness :
  let st := appends [sample_record 7 [1; 2]; sample_record 9 []; sample_record 7 [3]] ([], WalBufferSink_new (WalBuffer_new 4096 64)) in
  sink_last_lsn_for st.2 7 = last_lsn_of 7 st.1 /\ sink_last_lsn_for st.2 7 = 122 /\
  (prune_terminal_and_oldest_active_first_lsn st.2 (fun x => x =? 9)).1 = Some 94.
Proof.
  intros st. split; [|split; vm_compute; reflexivity].
  apply (sink_tracks_transactions (WalBuffer_new 4096 64)
    [sample_record 7 [1; 2]; sample_record 9 []; sample_record 7 [3]] (fun x => x =? 9)); [|repeat constructor|]; by vm_compute.
Defined.

(** Appending through a borrowed payload is building the record and
    appending it: the same outcome, the same bytes in the buffer, the same
    bookkeeping. *)
Theorem sink_borrowed_equiv crc32c_append w t xid prev flags payload :
  sink_append_borrowed crc32c_append w t xid prev flags payload =
    match WalRecord_new crc32c_append t xid prev flags payload with
    | Ok r => append_ref w r
    | Err _ => (Err tt, w)
    end.
Proof.
  assert (ws_with_buffer w (ws_buffer w) = w) as Ew by (by destruct w).
  unfold sink_append_borrowed, borrowed_length, unparked, checked_add. rewrite !append_borrowed_new.
  unfold WalRecord_new. rewrite build_header_spec. rewrite <- Nat2Z.inj_add.
  destruct (Z.ltb_spec (Z.of_nat (RECORD_HEADER_SIZE + length payload)) U64) as [Hlt|Hge].
  - destruct (_ <? _); [destruct (_ <=? _); cbn; by rewrite Ew|]. destruct (negb _); cbn [finish_append]; [by rewrite Ew|].
    unfold append_ref, unparked. cbn [rec_header with_crc total_length rec_xid record_type]. done.
  - rewrite (proj2 (Z.ltb_lt MAX_RECORD_BYTES _)) by (unfold MAX_RECORD_BYTES, U64 in *; lia).
    by destruct (_ <=? _).
Qed.
