(* ===== verification/Heap.v ===== *)
(** * The heap access method (ultrasql-storage, heap/mod.rs, helpers.rs, insert.rs,
      delete.rs, update.rs, scan.rs, wal_emit.rs)

    The classical row operations of [HeapAccess] on their page bytes: insertion
    with its search for room, fetch, deletion, update on the same page (HOT) or
    on another one, the full-page images and the WAL records they append.

    The buffer pool is the map of page bytes it implements: a fetch consumes an
    outcome of [h_io] (a failed one is [HBufferPool]) and fails once the pool is
    poisoned; a block never written holds a fresh heap page. A page guard is its
    page identifier: reads and writes through it do not fetch. Each call is one
    step on the state; a guard's pin, which only keeps a flush away, has no
    effect on it. [None] is a panic, or the growth loop out of its fuel. *)

From S2P Require Import Prelude CoreIds TupleHeader WalRecord WalPayload WalPayloadHeap WalSink Bytes Page HeapMaps UndoLog.

(** ** Errors and options *)

Inductive HeapError :=
| HBufferPool
| HPage (e : PageError)
| HPageWriter
| HMalformedHeader (what : string)
| HParallelWorkerPanic
| HWriteConflict (what : string)
| HOutOfBlocks
| HNumericOverflow (what : string)
| HWal
| HWalPayload (e : PayloadError)
| HWalRecord (e : WalRecordError).

Record InsertOptions (W : Type) := mk_InsertOptions {
  io_xmin : Xid;
  io_command_id : CommandId;
  io_n_atts : Z;
  io_wal : option (WalSink W);
  io_fsm : bool;
  io_vm : bool;
}.
Arguments mk_InsertOptions {W} _ _ _ _ _ _.
Arguments io_xmin {W} _.
Arguments io_command_id {W} _.
Arguments io_n_atts {W} _.
Arguments io_wal {W} _.
Arguments io_fsm {W} _.
Arguments io_vm {W} _.

Record UpdateOptions (W : Type) := mk_UpdateOptions {
  uo_xid : Xid;
  uo_command_id : CommandId;
  uo_hot_eligible : bool;
  uo_wal : option (WalSink W);
  uo_vm : bool;
}.
Arguments mk_UpdateOptions {W} _ _ _ _ _.
Arguments uo_xid {W} _.
Arguments uo_command_id {W} _.
Arguments uo_hot_eligible {W} _.
Arguments uo_wal {W} _.
Arguments uo_vm {W} _.

Record DeleteOptions (W : Type) := mk_DeleteOptions {
  do_xmax : Xid;
  do_cmax : CommandId;
  do_wal : option (WalSink W);
  do_fsm : bool;
  do_vm : bool;
}.
Arguments mk_DeleteOptions {W} _ _ _ _ _.
Arguments do_xmax {W} _.
Arguments do_cmax {W} _.
Arguments do_wal {W} _.
Arguments do_fsm {W} _.
Arguments do_vm {W} _.

Record UpdateOutcome := mk_UpdateOutcome { uo_old_tid : TupleId; uo_new_tid : TupleId; uo_hot : bool }.

Record HeapTuple := mk_HeapTuple { ht_tid : TupleId; ht_header : TupleHeader; ht_data : list Z }.

(** ** Pages stamped by a transaction *)

Record RollbackStampPages := mk_RollbackStampPages { rs_pages : list PageId; rs_seen : gset PageId }.

Definition stamps_insert (s : RollbackStampPages) (id : PageId) : RollbackStampPages :=
  if decide (id ∈ rs_seen s) then s else mk_RollbackStampPages (rs_pages s ++ [id]) ({[id]} ∪ rs_seen s).

Definition stamps_snapshot (s : RollbackStampPages) : list PageId := filter (fun id => id ∈ rs_seen s) (rs_pages s).

Definition stamps_mark_restored (s : RollbackStampPages) (id : PageId) : RollbackStampPages :=
  mk_RollbackStampPages (rs_pages s) (rs_seen s ∖ {[id]}).

(** ** State *)

Record Heap (W : Type) := mk_Heap {
  h_pages : gmap PageId Page;
  h_io : list bool;
  h_poisoned : bool;
  h_counters : gmap Z Z;
  h_cursors : gmap Z Z;
  h_checkpoint_lsn : Z;
  h_fsm : FreeSpaceMap;
  h_vm : VisibilityMap;
  h_stamps : gmap Xid RollbackStampPages;
  (** the relations whose projection cache was invalidated, and by whom *)
  h_bumps : list (Z * Xid);
  (** the pages with cached payload statistics *)
  h_stats : gset PageId;
  (** the undo log of each relation *)
  h_undo : gmap Z UndoRelationLog;
  h_sink : W;
}.
Arguments mk_Heap {W} _ _ _ _ _ _ _ _ _ _ _ _ _.
Arguments h_pages {W} _.
Arguments h_io {W} _.
Arguments h_poisoned {W} _.
Arguments h_counters {W} _.
Arguments h_cursors {W} _.
Arguments h_checkpoint_lsn {W} _.
Arguments h_fsm {W} _.
Arguments h_vm {W} _.
Arguments h_stamps {W} _.
Arguments h_bumps {W} _.
Arguments h_stats {W} _.
Arguments h_undo {W} _.
Arguments h_sink {W} _.

Section updates.
Context {W : Type}.
Definition with_pages (h : Heap W) x := mk_Heap x (h_io h) (h_poisoned h) (h_counters h) (h_cursors h)
  (h_checkpoint_lsn h) (h_fsm h) (h_vm h) (h_stamps h) (h_bumps h) (h_stats h) (h_undo h) (h_sink h).
Definition with_io (h : Heap W) x := mk_Heap (h_pages h) x (h_poisoned h) (h_counters h) (h_cursors h)
  (h_checkpoint_lsn h) (h_fsm h) (h_vm h) (h_stamps h) (h_bumps h) (h_stats h) (h_undo h) (h_sink h).
Definition with_poison (h : Heap W) := mk_Heap (h_pages h) (h_io h) true (h_counters h) (h_cursors h)
  (h_checkpoint_lsn h) (h_fsm h) (h_vm h) (h_stamps h) (h_bumps h) (h_stats h) (h_undo h) (h_sink h).
Definition with_counters (h : Heap W) x := mk_Heap (h_pages h) (h_io h) (h_poisoned h) x (h_cursors h)
  (h_checkpoint_lsn h) (h_fsm h) (h_vm h) (h_stamps h) (h_bumps h) (h_stats h) (h_undo h) (h_sink h).
Definition with_cursors (h : Heap W) x := mk_Heap (h_pages h) (h_io h) (h_poisoned h) (h_counters h) x
  (h_checkpoint_lsn h) (h_fsm h) (h_vm h) (h_stamps h) (h_bumps h) (h_stats h) (h_undo h) (h_sink h).
Definition with_fsm (h : Heap W) x := mk_Heap (h_pages h) (h_io h) (h_poisoned h) (h_counters h) (h_cursors h)
  (h_checkpoint_lsn h) x (h_vm h) (h_stamps h) (h_bumps h) (h_stats h) (h_undo h) (h_sink h).
Definition with_vm (h : Heap W) x := mk_Heap (h_pages h) (h_io h) (h_poisoned h) (h_counters h) (h_cursors h)
  (h_checkpoint_lsn h) (h_fsm h) x (h_stamps h) (h_bumps h) (h_stats h) (h_undo h) (h_sink h).
Definition with_stamps (h : Heap W) x := mk_Heap (h_pages h) (h_io h) (h_poisoned h) (h_counters h) (h_cursors h)
  (h_checkpoint_lsn h) (h_fsm h) (h_vm h) x (h_bumps h) (h_stats h) (h_undo h) (h_sink h).
Definition with_bumps (h : Heap W) x := mk_Heap (h_pages h) (h_io h) (h_poisoned h) (h_counters h) (h_cursors h)
  (h_checkpoint_lsn h) (h_fsm h) (h_vm h) (h_stamps h) x (h_stats h) (h_undo h) (h_sink h).
Definition with_stats (h : Heap W) x := mk_Heap (h_pages h) (h_io h) (h_poisoned h) (h_counters h) (h_cursors h)
  (h_checkpoint_lsn h) (h_fsm h) (h_vm h) (h_stamps h) (h_bumps h) x (h_undo h) (h_sink h).
Definition with_undo (h : Heap W) x := mk_Heap (h_pages h) (h_io h) (h_poisoned h) (h_counters h) (h_cursors h)
  (h_checkpoint_lsn h) (h_fsm h) (h_vm h) (h_stamps h) (h_bumps h) (h_stats h) x (h_sink h).
Definition with_hsink (h : Heap W) (x : W) := mk_Heap (h_pages h) (h_io h) (h_poisoned h) (h_counters h) (h_cursors h)
  (h_checkpoint_lsn h) (h_fsm h) (h_vm h) (h_stamps h) (h_bumps h) (h_stats h) (h_undo h) x.
End updates.

(** ** Effects *)

Definition HM (W E A : Type) : Type := Heap W -> option (result A E * Heap W).

#[global] Instance HM_ret W E : MRet (HM W E) := fun A a h => Some (Ok a, h).
#[global] Instance HM_bind W E : MBind (HM W E) := fun A B k m h =>
  match m h with
  | None => None
  | Some (Err e, h') => Some (Err e, h')
  | Some (Ok a, h') => k a h'
  end.

Section effects.
Context {W E A : Type}.
Definition hthrow (e : E) : HM W E A := fun h => Some (Err e, h).
Definition hpanic : HM W E A := fun _ => None.
Definition hlift (r : result A E) : HM W E A := fun h => Some (r, h).
Definition hor_panic (o : option A) : HM W E A := fun h => match o with Some a => Some (Ok a, h) | None => None end.
Definition gets (f : Heap W -> A) : HM W E A := fun h => Some (Ok (f h), h).
(** The result of a call as a value, the [match] on it. *)
Definition try_ (m : HM W E A) : HM W E (result A E) := fun h =>
  match m h with None => None | Some (r, h') => Some (Ok r, h') end.
End effects.

Definition modify {W E} (f : Heap W -> Heap W) : HM W E unit := fun h => Some (Ok tt, f h).
Definition map_err {W E F A} (f : E -> F) (m : HM W E A) : HM W F A := fun h =>
  match m h with
  | None => None
  | Some (Ok a, h') => Some (Ok a, h')
  | Some (Err e, h') => Some (Err (f e), h')
  end.
Definition result_err {A E F} (f : E -> F) (r : result A E) : result A F :=
  match r with Ok a => Ok a | Err e => Err (f e) end.

(** ** Pages *)

Definition page_of {W} (h : Heap W) (id : PageId) : Page := default new_heap (h_pages h !! id).

(** [get_page] and [get_page_relieved]. *)
Definition get_page {W} (id : PageId) : HM W HeapError unit := fun h =>
  if h_poisoned h then Some (Err HBufferPool, h) else
  match h_io h with
  | false :: io => Some (Err HBufferPool, with_io h io)
  | true :: io => Some (Ok tt, with_io h io)
  | [] => Some (Ok tt, h)
  end.

(** Access through a guard. *)
Definition guard_page {W E} (id : PageId) : HM W E Page := gets (fun h => page_of h id).
Definition put_page {W E} (id : PageId) (p : Page) : HM W E unit :=
  modify (fun h => with_pages h (<[id := p]> (h_pages h))).

Definition vm_clear_page {W E} (on : bool) (id : PageId) : HM W E unit :=
  if on then modify (fun h => with_vm h (vm_clear (pg_relation id) (pg_block id) (h_vm h))) else mret tt.

Definition poison_after_wal_error {W E} : HM W E unit := modify with_poison.

(** The closure of an emission: any error poisons the pool. *)
Definition poisoning {W A} (m : HM W HeapError A) : HM W HeapError A :=
  r ← try_ m;
  match r with
  | Ok a => mret a
  | Err e => poison_after_wal_error;; hthrow e
  end.

Definition counter {W} (h : Heap W) (rel : Z) : Z := default 0 (h_counters h !! rel).
Definition set_counter {W E} (rel n : Z) : HM W E unit := modify (fun h => with_counters h (<[rel := n]> (h_counters h))).
Definition set_cursor {W E} (rel n : Z) : HM W E unit := modify (fun h => with_cursors h (<[rel := n]> (h_cursors h))).
Definition block_count {W} (h : Heap W) (rel : Z) : Z := counter h rel.
Definition seed_block_count {W E} (rel blocks : Z) : HM W E unit :=
  c ← gets (fun h => counter h rel);
  if blocks =? 0 then mret tt else if c <? blocks then set_counter rel blocks else mret tt.

Definition bump_version {W E} (rel : Z) (xid : Xid) : HM W E unit :=
  modify (fun h => with_bumps h (h_bumps h ++ [(rel, xid)])).
Definition invalidate_int32_pair_payload_stats_page {W E} (id : PageId) : HM W E unit :=
  modify (fun h => with_stats h (h_stats h ∖ {[id]})).

Definition remember_rollback_stamp_page {W E} (xid : Xid) (id : PageId) : HM W E unit :=
  if xid =? 0 then mret tt else
  modify (fun h => with_stamps h
    (<[xid := stamps_insert (default (mk_RollbackStampPages [] ∅) (h_stamps h !! xid)) id]> (h_stamps h))).

(** ** Helpers *)

Definition checked_tuple_space_needed (tuple_size : Z) : result Z HeapError :=
  ok_or (checked_add U64 tuple_size ITEMID_SIZE) (HMalformedHeader "tuple size overflow").

Definition tuple_size_of (payload : list Z) : result Z HeapError :=
  ok_or (checked_add U64 (Z.of_nat TUPLE_HEADER_SIZE) (zlen payload)) (HMalformedHeader "tuple size overflow").

Definition collect_header_bytes (h : TupleHeader) : option (list Z) := encode h (replicate TUPLE_HEADER_SIZE 0).

(** The window of a slot, whatever its state. *)
Definition slot_window (p : Page) (slot : Z) : result (Z * Z) HeapError :=
  match try_item_id_offset slot with
  | Err _ => Err (HPage (InvalidSlot slot 0))
  | Ok off =>
      let id := zread 4 off p in
      let offset := ItemId_offset id in
      let length := ItemId_length id in
      if PAGE_SIZE <? offset + length then Err (HMalformedHeader "itemid tuple range outside page")
      else Ok (offset, length)
  end.

(** [page_bytes[off..off + TUPLE_HEADER_SIZE].copy_from_slice(..)] *)
Definition patch_header {W} (id : PageId) (off : Z) (bytes : list Z) : HM W HeapError unit :=
  p ← guard_page id;
  if PAGE_SIZE <? off + Z.of_nat TUPLE_HEADER_SIZE then hpanic else put_page id (zsplice off bytes p).

Definition decode_header (bytes : list Z) (what : string) : result TupleHeader HeapError :=
  match decode (take TUPLE_HEADER_SIZE bytes) with
  | Some (h, _) => Ok h
  | None => Err (HMalformedHeader what)
  end.

Definition copy_slot_bytes {W} (id : PageId) (slot : Z) : HM W HeapError (list Z) :=
  p ← guard_page id;
  r ← hor_panic (read_tuple p slot);
  hlift (result_err HPage r).

Definition decode_tuple (tid : TupleId) (bytes : list Z) : result HeapTuple HeapError :=
  if zlen bytes <? Z.of_nat TUPLE_HEADER_SIZE then Err (HMalformedHeader "slot shorter than header") else
  let? header := decode_header bytes "header decode failed" in
  Ok (mk_HeapTuple tid header (drop TUPLE_HEADER_SIZE bytes)).

(** [page_free_space]: a failed fetch records the block as full. *)
Definition page_free_space {W} (id : PageId) : HM W HeapError Z :=
  r ← try_ (get_page id);
  match r with
  | Err _ => mret 0
  | Ok _ =>
      p ← guard_page id;
      header ← hor_panic (page_header p);
      free ← hor_panic (free_space header);
      mret (Z.min free (U32 - 1))
  end.

Definition post_insert_fsm {W} (on : bool) (id : PageId) : HM W HeapError unit :=
  if on then
    free ← page_free_space id;
    modify (fun h => with_fsm h (record_free_space (pg_relation id) (pg_block id) free (h_fsm h)))
  else mret tt.
Definition post_delete_fsm {W} (on : bool) (id : PageId) : HM W HeapError unit := post_insert_fsm on id.

(** ** WAL emission *)

Definition raise_lsn {W E} (id : PageId) (lsn : Lsn) : HM W E unit :=
  p ← guard_page id;
  header ← hor_panic (page_header p);
  if hd_lsn header <? lsn then (p' ← hor_panic (set_lsn p lsn); put_page id p') else mret tt.

Definition stamp_pinned_page_lsn {W} (id : PageId) (lsn : Lsn) : HM W HeapError unit := raise_lsn id lsn.

Section emit.
Context {W : Type} (crc : Z -> list Z -> Z).

(** [sink.append(record)] *)
Definition append (sink : WalSink W) (record : WalRecord) : HM W HeapError Lsn := fun h =>
  match sink_append sink (h_sink h) record with
  | (Ok lsn, w) => Some (Ok lsn, with_hsink h w)
  | (Err _, w) => Some (Err HWal, with_hsink h w)
  end.

Definition append_after_page_mutation (sink : WalSink W) (record : WalRecord) : HM W HeapError Lsn :=
  poisoning (append sink record).

Definition last_lsn (sink : WalSink W) (xid : Xid) : HM W HeapError Lsn := gets (fun h => last_lsn_for sink (h_sink h) xid).

Definition new_record (ty : RecordType) (xid : Xid) (prev : Lsn) (payload : list Z) : result WalRecord HeapError :=
  result_err HWalRecord (WalRecord_new crc ty xid prev 0 payload).

Definition maybe_emit_fpw (id : PageId) (sink : WalSink W) (xid : Xid) : HM W HeapError unit :=
  checkpoint_lsn ← gets h_checkpoint_lsn;
  if checkpoint_lsn =? 0 then mret tt else
  get_page id;;
  page ← guard_page id;
  header ← hor_panic (page_header page);
  if checkpoint_lsn <=? hd_lsn header then mret tt else
  if negb (zlen page =? PAGE_SIZE) then hthrow (HMalformedHeader "page_bytes length is not PAGE_SIZE; cannot emit FPW") else
  prev_lsn ← last_lsn sink xid;
  bytes ← hlift (result_err HWalPayload (FullPageWritePayload_encode (mk_FullPageWritePayload id page)));
  record ← hlift (new_record FullPageWrite xid prev_lsn bytes);
  lsn ← append sink record;
  raise_lsn id lsn.

Definition emit_insert_wal (tid : TupleId) (opts : InsertOptions W) : HM W HeapError unit :=
  match io_wal opts with
  | None => mret tt
  | Some sink =>
      poisoning (
        tuple_bytes ← copy_slot_bytes (tid_page tid) (tid_slot tid);
        prev_lsn ← last_lsn sink (io_xmin opts);
        payload_bytes ← hlift (result_err HWalPayload (HeapInsertPayload_encode (mk_HeapInsertPayload tid tuple_bytes)));
        record ← hlift (new_record HeapInsert (io_xmin opts) prev_lsn payload_bytes);
        lsn ← append sink record;
        stamp_pinned_page_lsn (tid_page tid) lsn)
  end.

Definition emit_update_wal (outcome : UpdateOutcome) (opts : UpdateOptions W) : HM W HeapError unit :=
  let old_tid := uo_old_tid outcome in
  let new_tid := uo_new_tid outcome in
  match uo_wal opts with
  | None => mret tt
  | Some sink =>
      poisoning (
        new_tuple_bytes ← copy_slot_bytes (tid_page new_tid) (tid_slot new_tid);
        let flags := if uo_hot outcome then HEAP_UPDATE_HOT else 0 in
        prev_lsn ← last_lsn sink (uo_xid opts);
        payload_bytes ← hlift (result_err HWalPayload
          (HeapUpdatePayload_encode (mk_HeapUpdatePayload old_tid new_tid flags new_tuple_bytes)));
        record ← hlift (new_record HeapUpdate (uo_xid opts) prev_lsn payload_bytes);
        lsn ← append sink record;
        stamp_pinned_page_lsn (tid_page new_tid) lsn;;
        if decide (tid_page old_tid = tid_page new_tid) then mret tt
        else stamp_pinned_page_lsn (tid_page old_tid) lsn)
  end.

(** ** Insertion *)

Definition put_result {W A} (id : PageId) (r : option (result A PageError * Page)) : HM W HeapError A :=
  rp ← hor_panic r;
  put_page id rp.2;;
  hlift (result_err HPage rp.1).

Definition insert_into_pinned (id : PageId) (payload : list Z) (opts : InsertOptions W) (n_atts tuple_size : Z)
  : HM W HeapError TupleId :=
  page ← guard_page id;
  page_hd ← hor_panic (page_header page);
  free ← hor_panic (free_space page_hd);
  if free <? tuple_size + ITEMID_SIZE then hthrow (HPage (NoSpace (tuple_size + ITEMID_SIZE) free)) else
  let header := fresh (io_xmin opts) (io_command_id opts) (mk_TupleId id 0) n_atts in
  hbytes ← hor_panic (encode header (replicate TUPLE_HEADER_SIZE 0));
  slot ← put_result id (insert_tuple page (hbytes ++ payload));
  let final_tid := mk_TupleId id slot in
  header_bytes ← hor_panic (collect_header_bytes (with_ctid header final_tid));
  page ← guard_page id;
  window ← hlift (slot_window page slot);
  patch_header id window.1 header_bytes;;
  vm_clear_page (io_vm opts) id;;
  mret final_tid.

Definition or_sink (a b : option (WalSink W)) : option (WalSink W) := match a with Some _ => a | None => b end.

Definition try_insert_into (id : PageId) (payload : list Z) (opts : InsertOptions W) (n_atts tuple_size : Z)
  (fpw_sink : option (WalSink W)) : HM W HeapError TupleId :=
  match or_sink (io_wal opts) fpw_sink with
  | Some sink => maybe_emit_fpw id sink (io_xmin opts)
  | None => mret tt
  end;;
  get_page id;;
  tid ← insert_into_pinned id payload opts n_atts tuple_size;
  emit_insert_wal tid opts;;
  mret tid.

(** One candidate page: [None] when it has no room. *)
Definition try_block (rel block : Z) (payload : list Z) (opts : InsertOptions W) (n_atts tuple_size : Z)
  (fpw_sink : option (WalSink W)) : HM W HeapError (option TupleId) :=
  r ← try_ (try_insert_into (mk_PageId rel block) payload opts n_atts tuple_size fpw_sink);
  match r with
  | Ok tid => mret (Some tid)
  | Err (HPage (NoSpace _ _)) => mret None
  | Err other => hthrow other
  end.

(** The effects that follow a successful candidate. *)
Definition placed_on (rel block : Z) (opts : InsertOptions W) (tid : TupleId) : HM W HeapError TupleId :=
  post_insert_fsm (io_fsm opts) (tid_page tid);;
  set_cursor rel block;;
  mret tid.

Fixpoint scan_blocks (rel : Z) (blocks : list Z) (payload : list Z) (opts : InsertOptions W) (n_atts tuple_size : Z)
  (fpw_sink : option (WalSink W)) : HM W HeapError (option TupleId) :=
  match blocks with
  | [] => mret None
  | block :: rest =>
      r ← try_block rel block payload opts n_atts tuple_size fpw_sink;
      match r with
      | Some tid => tid ← placed_on rel block opts tid; mret (Some tid)
      | None => scan_blocks rel rest payload opts n_atts tuple_size fpw_sink
      end
  end.

(** The growth loop; [fuel] bounds its rounds. *)
Fixpoint grow (fuel : nat) (rel : Z) (payload : list Z) (opts : InsertOptions W) (n_atts tuple_size : Z)
  (fpw_sink : option (WalSink W)) : HM W HeapError TupleId :=
  match fuel with
  | O => hpanic
  | Datatypes.S fuel' =>
      new_block ← gets (fun h => counter h rel);
      set_counter rel (wrap U32 (new_block + 1));;
      if new_block =? U32 - 1 then set_counter rel (U32 - 1);; hthrow HOutOfBlocks else
      r ← try_block rel new_block payload opts n_atts tuple_size fpw_sink;
      match r with
      | Some tid => placed_on rel new_block opts tid
      | None => grow fuel' rel payload opts n_atts tuple_size fpw_sink
      end
  end.

(** The block the free-space map proposes. *)
Definition try_hint (rel : Z) (payload : list Z) (opts : InsertOptions W) (n_atts tuple_size : Z)
  (fpw_sink : option (WalSink W)) : HM W HeapError (option TupleId) :=
  if io_fsm opts then
    needed ← hlift (checked_tuple_space_needed tuple_size);
    if U32 <=? needed then hthrow (HMalformedHeader "tuple size overflow") else
    hint ← gets (fun h => find_block_with_at_least rel needed (h_fsm h));
    match hint with
    | None => mret None
    | Some block =>
        r ← try_block rel block payload opts n_atts tuple_size fpw_sink;
        match r with
        | Some tid => tid ← placed_on rel (pg_block (tid_page tid)) opts tid; mret (Some tid)
        | None => modify (fun h => with_fsm h (invalidate_block rel block (h_fsm h)));; mret None
        end
    end
  else mret None.

Definition insert_inner_pinned (fuel : nat) (rel : Z) (payload : list Z) (opts : InsertOptions W)
  (fpw_sink : option (WalSink W)) : HM W HeapError TupleId :=
  existing ← gets (fun h => counter h rel);
  let n_atts := io_n_atts opts in
  tuple_size ← hlift (tuple_size_of payload);
  hinted ← try_hint rel payload opts n_atts tuple_size fpw_sink;
  match hinted with
  | Some tid => mret tid
  | None =>
      cursor ← gets (fun h => default 0 (h_cursors h !! rel));
      let start := Z.min cursor (Z.max 0 (existing - 1)) in
      r ← scan_blocks rel (seqZ start (existing - start)) payload opts n_atts tuple_size fpw_sink;
      match r with
      | Some tid => mret tid
      | None =>
          r ← scan_blocks rel (seqZ 0 start) payload opts n_atts tuple_size fpw_sink;
          match r with
          | Some tid => mret tid
          | None => grow fuel rel payload opts n_atts tuple_size fpw_sink
          end
      end
  end.

Definition insert (fuel : nat) (rel : Z) (payload : list Z) (opts : InsertOptions W) : HM W HeapError TupleId :=
  tid ← insert_inner_pinned fuel rel payload opts None;
  invalidate_int32_pair_payload_stats_page (tid_page tid);;
  bump_version rel (io_xmin opts);;
  mret tid.

(** ** Reading *)

Definition fetch (tid : TupleId) : HM W HeapError HeapTuple :=
  get_page (tid_page tid);;
  owned ← copy_slot_bytes (tid_page tid) (tid_slot tid);
  hlift (decode_tuple tid owned).

(** ** Deletion *)

Definition delete_in_place (tid : TupleId) (xmax : Xid) (cmax : CommandId) (vm : bool) : HM W HeapError unit :=
  let id := tid_page tid in
  page ← guard_page id;
  window ← hlift (slot_window page (tid_slot tid));
  if window.2 <? Z.of_nat TUPLE_HEADER_SIZE then hthrow (HMalformedHeader "slot shorter than header") else
  header ← hlift (decode_header (zslice window.1 (window.1 + Z.of_nat TUPLE_HEADER_SIZE) page) "header decode failed");
  header_bytes ← hor_panic (collect_header_bytes (mark_deleted header xmax cmax));
  vm_clear_page vm id;;
  patch_header id window.1 header_bytes.

Definition delete (tid : TupleId) (opts : DeleteOptions W) : HM W HeapError unit :=
  let id := tid_page tid in
  match do_wal opts with
  | Some sink =>
      maybe_emit_fpw id sink (do_xmax opts);;
      prev_lsn ← last_lsn sink (do_xmax opts);
      payload_bytes ← hlift (result_err HWalPayload
        (HeapDeletePayload_encode (mk_HeapDeletePayload tid (do_xmax opts) (do_cmax opts))));
      record ← hlift (new_record HeapDelete (do_xmax opts) prev_lsn payload_bytes);
      get_page id;;
      delete_in_place tid (do_xmax opts) (do_cmax opts) (do_vm opts);;
      remember_rollback_stamp_page (do_xmax opts) id;;
      lsn ← append_after_page_mutation sink record;
      stamp_pinned_page_lsn id lsn
  | None =>
      get_page id;;
      delete_in_place tid (do_xmax opts) (do_cmax opts) (do_vm opts);;
      remember_rollback_stamp_page (do_xmax opts) id
  end;;
  post_delete_fsm (do_fsm opts) id;;
  bump_version (pg_relation id) (do_xmax opts).

(** ** Update *)

(** The header of a version that is replaced: [flag] is [HOT_UPDATED] on the same
    page, [UPDATED] otherwise. *)
Definition superseded (h : TupleHeader) (xid : Xid) (cid : CommandId) (flag : Z) (new_tid : TupleId) : TupleHeader :=
  let mask := mask_set (infomask h) flag in
  let mask := if mask_contains mask UPDATED_IN_PLACE
    then mask_set (mask_clear mask UPDATED_IN_PLACE) INPLACE_HISTORY else mask in
  mk_TupleHeader (xmin h) xid (cmin h) cid mask (n_atts h) (data_offset h) new_tid.

Definition updatable (h : TupleHeader) : bool := is_alive h || mask_contains (infomask h) UPDATED_IN_PLACE.

(** [tuple_header_bytes_mut(..)?.copy_from_slice(..)]: a checked range. *)
Definition checked_patch (id : PageId) (off : Z) (bytes : list Z) (what : string) : HM W HeapError unit :=
  p ← guard_page id;
  if PAGE_SIZE <? off + Z.of_nat TUPLE_HEADER_SIZE then hthrow (HMalformedHeader what)
  else put_page id (zsplice off bytes p).

Definition read_live_header (id : PageId) (slot : Z) : HM W HeapError TupleHeader :=
  bytes ← copy_slot_bytes id slot;
  if zlen bytes <? Z.of_nat TUPLE_HEADER_SIZE then hthrow (HMalformedHeader "slot shorter than header") else
  hdr ← hlift (decode_header bytes "header decode failed");
  if updatable hdr then mret hdr else hthrow (HMalformedHeader "update on deleted tuple").

Definition try_hot_update (old_tid : TupleId) (new_payload : list Z) (opts : UpdateOptions W) (new_tuple_size : Z)
  : HM W HeapError (option TupleId) :=
  let id := tid_page old_tid in
  hdr ← read_live_header id (tid_slot old_tid);
  page ← guard_page id;
  page_hd ← hor_panic (page_header page);
  free ← hor_panic (free_space page_hd);
  needed ← hlift (checked_tuple_space_needed new_tuple_size);
  if free <? needed then mret None else
  let tentative := fresh (uo_xid opts) (uo_command_id opts) (mk_TupleId id 0) (n_atts hdr) in
  let new_hdr := mk_TupleHeader (xmin tentative) (xmax tentative) (cmin tentative) (cmax tentative)
    (mask_set (infomask tentative) (Z.lor HOT_UPDATED UPDATED)) (n_atts tentative) (data_offset tentative) (ctid tentative) in
  hbytes ← hor_panic (encode new_hdr (replicate TUPLE_HEADER_SIZE 0));
  new_slot ← put_result id (insert_tuple_appended page (hbytes ++ new_payload));
  let new_tid := mk_TupleId id new_slot in
  new_hdr_bytes ← hor_panic (collect_header_bytes (with_ctid new_hdr new_tid));
  page ← guard_page id;
  new_window ← hlift (slot_window page new_slot);
  checked_patch id new_window.1 new_hdr_bytes "new header outside page";;
  page ← guard_page id;
  old_window ← hlift (slot_window page (tid_slot old_tid));
  if old_window.2 <? Z.of_nat TUPLE_HEADER_SIZE then hthrow (HMalformedHeader "old slot shorter than header") else
  old_hdr ← hlift (decode_header (zslice old_window.1 (old_window.1 + Z.of_nat TUPLE_HEADER_SIZE) page)
                     "old header decode failed");
  old_hdr_bytes ← hor_panic (collect_header_bytes
    (superseded old_hdr (uo_xid opts) (uo_command_id opts) HOT_UPDATED new_tid));
  checked_patch id old_window.1 old_hdr_bytes "old header outside page";;
  vm_clear_page (uo_vm opts) id;;
  mret (Some new_tid).

Definition stamp_updated_old (old_tid new_tid : TupleId) (opts : UpdateOptions W) : HM W HeapError unit :=
  let id := tid_page old_tid in
  hdr ← read_live_header id (tid_slot old_tid);
  hdr_bytes ← hor_panic (collect_header_bytes (superseded hdr (uo_xid opts) (uo_command_id opts) UPDATED new_tid));
  page ← guard_page id;
  window ← hlift (slot_window page (tid_slot old_tid));
  if window.2 <? Z.of_nat TUPLE_HEADER_SIZE then hthrow (HMalformedHeader "slot shorter than header") else
  checked_patch id window.1 hdr_bytes "slot header outside page";;
  vm_clear_page (uo_vm opts) id.

(** The steps of the non-HOT path between the insertion and the record: with a
    WAL any failure poisons the pool. *)
Definition poisoning_if {A} (wal : bool) (m : HM W HeapError A) : HM W HeapError A := if wal then poisoning m else m.

Definition fpw_for (wal : option (WalSink W)) (id : PageId) (xid : Xid) : HM W HeapError unit :=
  match wal with Some sink => maybe_emit_fpw id sink xid | None => mret tt end.

Definition has_wal (wal : option (WalSink W)) : bool := match wal with Some _ => true | None => false end.

Definition update_hot (old_tid : TupleId) (new_payload : list Z) (opts : UpdateOptions W) (new_tuple_size : Z)
  : HM W HeapError (option UpdateOutcome) :=
  let id := tid_page old_tid in
  fpw_for (uo_wal opts) id (uo_xid opts);;
  get_page id;;
  hot_tid ← try_hot_update old_tid new_payload opts new_tuple_size;
  match hot_tid with
  | None => mret None
  | Some new_tid =>
      let outcome := mk_UpdateOutcome old_tid new_tid true in
      remember_rollback_stamp_page (uo_xid opts) id;;
      emit_update_wal outcome opts;;
      invalidate_int32_pair_payload_stats_page id;;
      bump_version (pg_relation id) (uo_xid opts);;
      mret (Some outcome)
  end.

Definition update_cold (fuel : nat) (old_tid : TupleId) (new_payload : list Z) (opts : UpdateOptions W)
  : HM W HeapError UpdateOutcome :=
  let id := tid_page old_tid in
  let wal := has_wal (uo_wal opts) in
  old ← fetch old_tid;
  let insert_opts := mk_InsertOptions (uo_xid opts) (uo_command_id opts) (n_atts (ht_header old)) None false (uo_vm opts) in
  new_tid ← insert_inner_pinned fuel (pg_relation id) new_payload insert_opts (uo_wal opts);
  poisoning_if wal (fpw_for (uo_wal opts) id (uo_xid opts));;
  poisoning_if wal (get_page id);;
  poisoning_if wal (stamp_updated_old old_tid new_tid opts);;
  remember_rollback_stamp_page (uo_xid opts) id;;
  let outcome := mk_UpdateOutcome old_tid new_tid false in
  emit_update_wal outcome opts;;
  invalidate_int32_pair_payload_stats_page id;;
  (if decide (tid_page new_tid = id) then mret tt else invalidate_int32_pair_payload_stats_page (tid_page new_tid));;
  bump_version (pg_relation id) (uo_xid opts);;
  mret outcome.

Definition update (fuel : nat) (old_tid : TupleId) (new_payload : list Z) (opts : UpdateOptions W)
  : HM W HeapError UpdateOutcome :=
  new_tuple_size ← hlift (tuple_size_of new_payload);
  hot ← (if uo_hot_eligible opts then update_hot old_tid new_payload opts new_tuple_size else mret None);
  match hot with
  | Some outcome => mret outcome
  | None => update_cold fuel old_tid new_payload opts
  end.
End emit.
