(* ===== verification/HeapRedo.v ===== *)
(** * Redo of heap records (ultrasql-storage, wal_applier.rs; ultrasql-wal, applier.rs;
      ultrasql-server, recovery_target.rs)

    The replay of insert, update, delete and full-page records into the heap,
    gated by the LSN of the page; the dispatch of a record to a recovery target;
    and the two targets: the heap itself, and the target of the server, which
    forwards to the heap. *)

From S2P Require Import Prelude CoreIds TupleHeader WalRecord WalPayload WalPayloadHeap Bytes Page HeapMaps Heap.

Inductive ApplyError :=
| APayload (e : PayloadError)
| ARefused (operation : string)
| AUnknownPayload (record_type : Z).

Definition should_skip_redo (p : Page) (record_lsn : Lsn) : option bool :=
  header ← page_header p;
  Some ((record_lsn <? hd_lsn header) || (negb (record_lsn =? 0) && (hd_lsn header =? record_lsn))).

Definition item_id_from_page_bytes (p : Page) (slot : Z) (op : string) : result Z ApplyError :=
  let off := PAGE_HEADER_SIZE + slot * ITEMID_SIZE in
  if zlen p <? off + ITEMID_SIZE then Err (ARefused op) else Ok (zread 4 off p).

Section redo.
Context {W : Type} (replay_vm : bool).

Abbreviation RM := (HM W ApplyError).

Definition stamp_replayed_lsn (id : PageId) (record_lsn : Lsn) : RM unit :=
  p ← guard_page id;
  header ← hor_panic (page_header p);
  if negb (record_lsn =? 0) && (hd_lsn header <? record_lsn)
  then p' ← hor_panic (set_lsn p record_lsn); put_page id p'
  else mret tt.

Definition clear_replay_visibility (id : PageId) : RM unit := vm_clear_page replay_vm id.

Definition advance_counter (rel block : Z) : RM unit :=
  match checked_add U32 block 1 with
  | None => hthrow (ARefused "advance_counter")
  | Some needed => c ← gets (fun h => counter h rel); if c <? needed then set_counter rel needed else mret tt
  end.

Definition fetch_for_redo (id : PageId) (op : string) : RM unit := map_err (fun _ => ARefused op) (get_page id).

Definition skip_redo (id : PageId) (record_lsn : Lsn) : RM bool :=
  p ← guard_page id; hor_panic (should_skip_redo p record_lsn).

(** Whether the recorded slot already holds a tuple. *)
Definition already_filled (id : PageId) (slot : Z) : RM bool :=
  p ← guard_page id;
  header ← hor_panic (page_header p);
  count ← hor_panic (slot_count header);
  if slot <? count then
    r ← hor_panic (read_tuple p slot);
    mret (match r with Ok existing => negb (zlen existing =? 0) | Err _ => false end)
  else mret false.

Definition place_at_slot (id : PageId) (slot : Z) (tuple : list Z) (op : string) : RM unit :=
  p ← guard_page id;
  r ← hor_panic (insert_tuple_at_slot p slot tuple);
  put_page id r.2;;
  match r.1 with Ok _ => mret tt | Err _ => hthrow (ARefused op) end.

(** The header of the tuple a record stamps. *)
Definition redo_header (id : PageId) (slot : Z) (op : string) : RM TupleHeader :=
  p ← guard_page id;
  r ← hor_panic (read_tuple p slot);
  match r with
  | Err _ => hthrow (ARefused op)
  | Ok existing =>
      if zlen existing <? Z.of_nat TUPLE_HEADER_SIZE then hthrow (ARefused op) else
      match decode (take TUPLE_HEADER_SIZE existing) with
      | None => hthrow (ARefused op)
      | Some (hdr, _) => mret hdr
      end
  end.

Definition patch_slot_header (id : PageId) (slot : Z) (hdr : TupleHeader) (op : string) : RM unit :=
  bytes ← hor_panic (encode hdr (replicate TUPLE_HEADER_SIZE 0));
  p ← guard_page id;
  item ← hlift (item_id_from_page_bytes p slot op);
  let off := ItemId_offset item in
  if PAGE_SIZE <? off + Z.of_nat TUPLE_HEADER_SIZE then hpanic else put_page id (zsplice off bytes p).

(** ** Insertion *)

Definition apply_insert_at_lsn (payload : HeapInsertPayload) (record_lsn : Lsn) : RM unit :=
  let id := tid_page (hi_tid payload) in
  let slot := tid_slot (hi_tid payload) in
  advance_counter (pg_relation id) (pg_block id);;
  fetch_for_redo id "heap_insert";;
  skip ← skip_redo id record_lsn;
  if (skip : bool) then mret tt else
  filled ← already_filled id slot;
  if (filled : bool) then stamp_replayed_lsn id record_lsn else
  clear_replay_visibility id;;
  place_at_slot id slot (hi_tuple_bytes payload) "heap_insert";;
  stamp_replayed_lsn id record_lsn.

(** ** Update *)

Definition redo_flag (flags : Z) : Z := if Z.land flags HEAP_UPDATE_HOT =? 0 then UPDATED else HOT_UPDATED.

Definition redo_superseded (payload : HeapUpdatePayload) (new_header hdr : TupleHeader) : TupleHeader :=
  superseded hdr (xmin new_header) (cmin new_header) (redo_flag (hu_flags payload)) (hu_new_tid payload).

(** Both versions on one page: one latch, and the LSN after both writes. *)
Definition redo_update_same_page (payload : HeapUpdatePayload) (new_header : TupleHeader) (record_lsn : Lsn) : RM unit :=
  let op := "heap_update_hot"%string in
  let id := tid_page (hu_new_tid payload) in
  fetch_for_redo id op;;
  skip ← skip_redo id record_lsn;
  if (skip : bool) then mret tt else
  clear_replay_visibility id;;
  filled ← already_filled id (tid_slot (hu_new_tid payload));
  (if (filled : bool) then mret tt else place_at_slot id (tid_slot (hu_new_tid payload)) (hu_new_tuple_bytes payload) op);;
  hdr ← redo_header id (tid_slot (hu_old_tid payload)) op;
  patch_slot_header id (tid_slot (hu_old_tid payload)) (redo_superseded payload new_header hdr) op;;
  stamp_replayed_lsn id record_lsn.

Definition redo_update_new (payload : HeapUpdatePayload) (record_lsn : Lsn) : RM unit :=
  let op := "heap_update_new"%string in
  let id := tid_page (hu_new_tid payload) in
  fetch_for_redo id op;;
  skip ← skip_redo id record_lsn;
  if (skip : bool) then mret tt else
  filled ← already_filled id (tid_slot (hu_new_tid payload));
  (if (filled : bool) then mret tt else
     clear_replay_visibility id;;
     place_at_slot id (tid_slot (hu_new_tid payload)) (hu_new_tuple_bytes payload) op);;
  stamp_replayed_lsn id record_lsn.

Definition redo_update_old (payload : HeapUpdatePayload) (new_header : TupleHeader) (record_lsn : Lsn) : RM unit :=
  let op := "heap_update_old"%string in
  let id := tid_page (hu_old_tid payload) in
  fetch_for_redo id op;;
  skip ← skip_redo id record_lsn;
  if (skip : bool) then mret tt else
  hdr ← redo_header id (tid_slot (hu_old_tid payload)) op;
  clear_replay_visibility id;;
  patch_slot_header id (tid_slot (hu_old_tid payload)) (redo_superseded payload new_header hdr) op;;
  stamp_replayed_lsn id record_lsn.

Definition apply_update_at_lsn (payload : HeapUpdatePayload) (record_lsn : Lsn) : RM unit :=
  let new_page_id := tid_page (hu_new_tid payload) in
  let old_page_id := tid_page (hu_old_tid payload) in
  if zlen (hu_new_tuple_bytes payload) <? Z.of_nat TUPLE_HEADER_SIZE then hthrow (ARefused "heap_update") else
  match decode (take TUPLE_HEADER_SIZE (hu_new_tuple_bytes payload)) with
  | None => hthrow (ARefused "heap_update")
  | Some (new_header, _) =>
      remember_rollback_stamp_page (xmin new_header) old_page_id;;
      advance_counter (pg_relation new_page_id) (pg_block new_page_id);;
      (if decide (old_page_id = new_page_id) then mret tt
       else advance_counter (pg_relation old_page_id) (pg_block old_page_id));;
      if decide (old_page_id = new_page_id) then redo_update_same_page payload new_header record_lsn
      else redo_update_new payload record_lsn;; redo_update_old payload new_header record_lsn
  end.

(** ** Deletion *)

Definition same_delete (hdr : TupleHeader) (xmax0 : Xid) (cmax0 : CommandId) : bool :=
  (xmax hdr =? xmax0) && (cmax hdr =? cmax0) && negb (mask_contains (infomask hdr) UPDATED_IN_PLACE).

Definition apply_delete_at_lsn (payload : HeapDeletePayload) (record_lsn : Lsn) : RM unit :=
  let op := "heap_delete"%string in
  let id := tid_page (hd_tid payload) in
  let slot := tid_slot (hd_tid payload) in
  advance_counter (pg_relation id) (pg_block id);;
  remember_rollback_stamp_page (hd_xmax payload) id;;
  fetch_for_redo id op;;
  skip ← skip_redo id record_lsn;
  if (skip : bool) then mret tt else
  hdr ← redo_header id slot op;
  if same_delete hdr (hd_xmax payload) (hd_cmax payload) then stamp_replayed_lsn id record_lsn else
  clear_replay_visibility id;;
  patch_slot_header id slot (mark_deleted hdr (hd_xmax payload) (hd_cmax payload)) op;;
  stamp_replayed_lsn id record_lsn.

(** ** Full pages *)

Definition apply_full_page_write_at_lsn (payload : FullPageWritePayload) (record_lsn : Lsn) : RM unit :=
  let id := fpw_page payload in
  advance_counter (pg_relation id) (pg_block id);;
  fetch_for_redo id "fpw";;
  if negb (zlen (fpw_page_bytes payload) =? PAGE_SIZE) then hthrow (ARefused "fpw") else
  clear_replay_visibility id;;
  put_page id (fpw_page_bytes payload);;
  stamp_replayed_lsn id record_lsn.
End redo.

(** ** Recovery targets *)

(** [trait HeapTarget]: the methods of the records modelled here, and
    [t_other] for the arms of the remaining record types. *)
Record HeapTarget (W : Type) := mk_HeapTarget {
  t_insert_at_lsn : HeapInsertPayload -> Lsn -> HM W ApplyError unit;
  t_update_at_lsn : HeapUpdatePayload -> Lsn -> HM W ApplyError unit;
  t_delete_at_lsn : HeapDeletePayload -> Lsn -> HM W ApplyError unit;
  t_full_page_write_at_lsn : FullPageWritePayload -> Lsn -> HM W ApplyError unit;
  t_other : RecordType -> list Z -> Lsn -> HM W ApplyError unit;
}.
Arguments mk_HeapTarget {W} _ _ _ _ _.
Arguments t_insert_at_lsn {W} _ _ _.
Arguments t_update_at_lsn {W} _ _ _.
Arguments t_delete_at_lsn {W} _ _ _.
Arguments t_full_page_write_at_lsn {W} _ _ _.
Arguments t_other {W} _ _ _ _.

Section targets.
Context {W : Type} (replay_vm : bool) (other : RecordType -> list Z -> Lsn -> HM W ApplyError unit).

(** [impl HeapTarget for HeapAccess] *)
Definition heap_target : HeapTarget W :=
  mk_HeapTarget (apply_insert_at_lsn replay_vm) (apply_update_at_lsn replay_vm) (apply_delete_at_lsn replay_vm)
    (apply_full_page_write_at_lsn replay_vm) other.

(** The methods of the heap without an LSN. *)
Definition apply_insert (p : HeapInsertPayload) : HM W ApplyError unit := apply_insert_at_lsn replay_vm p Lsn_ZERO.
Definition apply_update (p : HeapUpdatePayload) : HM W ApplyError unit := apply_update_at_lsn replay_vm p Lsn_ZERO.
Definition apply_delete (p : HeapDeletePayload) : HM W ApplyError unit := apply_delete_at_lsn replay_vm p Lsn_ZERO.
Definition apply_full_page_write (p : FullPageWritePayload) : HM W ApplyError unit :=
  apply_full_page_write_at_lsn replay_vm p Lsn_ZERO.

(** The default [_at_lsn] method of the trait: the LSN is dropped. *)
Definition default_at_lsn {P} (apply : P -> HM W ApplyError unit) : P -> Lsn -> HM W ApplyError unit :=
  fun payload _ => apply payload.

(** [impl HeapTarget for ServerRecoveryTarget]: forwards the methods without an
    LSN and keeps the default of the others. *)
Definition server_target : HeapTarget W :=
  mk_HeapTarget (default_at_lsn apply_insert) (default_at_lsn apply_update) (default_at_lsn apply_delete)
    (default_at_lsn apply_full_page_write) other.
End targets.

Definition decoded {W A} (r : result A PayloadError) : HM W ApplyError A := hlift (result_err APayload r).

Definition dispatch_record_at_lsn {W} (target : HeapTarget W) (record : WalRecord) (record_lsn : Lsn)
  : HM W ApplyError unit :=
  let bytes := rec_payload record in
  match record_type (rec_header record) with
  | HeapInsert => p ← decoded (HeapInsertPayload_decode bytes); t_insert_at_lsn target p record_lsn
  | HeapUpdate => p ← decoded (HeapUpdatePayload_decode bytes); t_update_at_lsn target p record_lsn
  | HeapDelete => p ← decoded (HeapDeletePayload_decode bytes); t_delete_at_lsn target p record_lsn
  | FullPageWrite => p ← decoded (FullPageWritePayload_decode bytes); t_full_page_write_at_lsn target p record_lsn
  | Nop => mret tt
  | ty => t_other target ty bytes record_lsn
  end.

(** The records of a log with their LSNs, in order. *)
Fixpoint replay {W} (target : HeapTarget W) (log : list (Lsn * WalRecord)) : HM W ApplyError unit :=
  match log with
  | [] => mret tt
  | (lsn, record) :: rest => dispatch_record_at_lsn target record lsn;; replay target rest
  end.
