(* ===== verification/HeapPage.v ===== *)
(** * Heap pages: page-level facts of the heap operations

    Patching the header of a live tuple, inserting a tuple whose header is
    patched afterwards, the headers the operations write, and the invariant of
    a heap page: a well-formed slotted page whose live tuples start with a
    header that decodes. *)

From S2P Require Import Prelude CoreIds TupleHeader Bytes Page PageSpec Heap HeapRedo.

Abbreviation thbytes := TupleHeader.header_bytes.

(** ** Splices *)

Lemma zsplice_comm o1 n1 o2 n2 l :
  0 <= o1 -> 0 <= o2 -> o1 + zlen n1 <= zlen l -> o2 + zlen n2 <= zlen l ->
  o1 + zlen n1 <= o2 \/ o2 + zlen n2 <= o1 ->
  zsplice o1 n1 (zsplice o2 n2 l) = zsplice o2 n2 (zsplice o1 n1 l).
Proof.
  intros H1 H2 F1 F2 Hd. pose proof (zlen_splice o1 n1 l H1 F1). pose proof (zlen_splice o2 n2 l H2 F2).
  apply list_eq. intros i. rewrite !zsplice_lookup by lia. repeat case_decide; try done; lia.
Qed.

(** ** Inserting a tuple and patching its first bytes *)

Section patch.
Context (p : Page) (h : PageHeader) (slot new_slots : Z) (a b c : list Z).
Hypotheses (Hp : page_ok p h) (Htg : target p h slot new_slots) (Hsm : new_slots <= 1).
Hypotheses (Hab : length a = length b) (Ha : Forall is_byte a) (Hb : Forall is_byte b) (Hc : Forall is_byte c).

(** Placing [a ++ c] and writing [b] over its first bytes is placing [b ++ c]. *)
Lemma place_patched p1 :
  place_tuple p h (n_slots h) slot new_slots (a ++ c) = Some (Ok tt, p1) ->
  place_tuple p h (n_slots h) slot new_slots (b ++ c) =
    Some (Ok tt, zsplice (hd_upper h - zlen (a ++ c)) b p1).
Proof using Hp Htg Hsm Hab.
  pose proof (page_header_ok _ _ Hp) as Hh. destruct (lower_slots _ Hh) as [Hlo Hn]. pose proof (po_len _ _ Hp) as Hl.
  pose proof (ho_special _ Hh). pose proof (ho_page _ Hh).
  assert (zlen (b ++ c) = zlen (a ++ c)) as Ez by (rewrite !zlen_app; unfold zlen; lia).
  assert (zlen a = zlen b) as Ezab by (unfold zlen; lia). pose proof (zlen_app a c) as Eac.
  pose proof (zlen_nonneg c). pose proof (zlen_nonneg a).
  unfold place_tuple. rewrite Ez, free_space_eq by done.
  destruct (Z.ltb_spec (hd_upper h - hd_lower h) (zlen (a ++ c) + new_slots * ITEMID_SIZE)) as [|Hsp]; [done|].
  unfold checked_sub. destruct (Z.leb_spec (zlen (a ++ c)) (hd_upper h)) as [Hle|]; [|done].
  set (up := hd_upper h - zlen (a ++ c)) in *.
  destruct (item_offset_from_usize up) as [off|]; [|done].
  assert (seqZ (n_slots h) (slot - n_slots h) = [] \/ new_slots <= 0) as Hseq.
  { destruct Htg as [(_ & -> & _)|[Hge ->]]; [by right|]. left. replace (slot - n_slots h) with 0 by lia. done. }
  assert (forall q : Page, (if 0 <? new_slots then write_item_ids q (seqZ (n_slots h) (slot - n_slots h))
      (ItemId_new 0 0 Unused) else Some q) = Some q) as Hskip.
  { intros q. destruct (Z.ltb_spec 0 new_slots); [|done]. destruct Hseq as [-> |]; [done|lia]. }
  rewrite !Hskip. cbn [mbind option_bind].
  assert (slot_fits slot /\ PAGE_HEADER_SIZE + slot * ITEMID_SIZE + ITEMID_SIZE <= up) as [Hfit Hbelow].
  { unfold slot_fits, up, ITEMID_SIZE, PAGE_HEADER_SIZE in *. destruct Htg as [(? & -> & _)|(? & ->)]; lia. }
  rewrite !write_item_id_eq by done. cbn [mbind option_bind].
  destruct (page_u16_from_usize _ "page lower") as [lo|]; [|done].
  destruct (page_u16_from_usize up "page upper") as [up'|]; [|done]. intros [= <-]. f_equal. f_equal.
  unfold PageHeader_encode, put_item. set (hb := header_bytes _). pose proof (zlen_header (with_bounds h lo up')) as Hhb.
  fold hb in Hhb. assert (zlen (zsplice up (a ++ c) p) = PAGE_SIZE) as Hl1.
  { rewrite zlen_splice; [done| |]; unfold up, PAGE_HEADER_SIZE, ITEMID_SIZE in *; lia. }
  assert (Hl2 : zlen (zsplice (PAGE_HEADER_SIZE + slot * ITEMID_SIZE)
    (le_encode 4 (ItemId_new off (zlen (a ++ c)) Normal)) (zsplice up (a ++ c) p)) = PAGE_SIZE).
  { rewrite zlen_splice; [done| |]; rewrite ?zlen_enc; unfold slot_fits, PAGE_HEADER_SIZE, ITEMID_SIZE in *; lia. }
  rewrite (zsplice_comm up b 0 hb); [|unfold slot_fits, PAGE_HEADER_SIZE, ITEMID_SIZE, up in *; lia..].
  rewrite (zsplice_comm up b (PAGE_HEADER_SIZE + slot * ITEMID_SIZE));
    [|rewrite ?zlen_enc; unfold slot_fits, PAGE_HEADER_SIZE, ITEMID_SIZE, up in *; lia..].
  rewrite zsplice_twice; [done| |done|]; unfold up, PAGE_HEADER_SIZE, ITEMID_SIZE in *; lia.
Qed.
End patch.

(** ** Windows *)

Lemma slot_window_eq p slot :
  slot_fits slot -> start p slot + extent p slot <= PAGE_SIZE ->
  slot_window p slot = Ok (start p slot, extent p slot).
Proof.
  intros Hf Hle. unfold slot_window. pose proof (item_id_offset_eq slot Hf) as E. unfold item_id_offset in E.
  destruct (try_item_id_offset slot); [|done]. injection E as ->. fold (item p slot). fold (start p slot) (extent p slot).
  by rewrite (proj2 (Z.ltb_ge _ _)).
Qed.

Lemma slot_window_live p h slot :
  page_ok p h -> 0 <= slot < n_slots h -> live p slot -> slot_window p slot = Ok (start p slot, extent p slot).
Proof.
  intros Hp Hs Hl. pose proof (page_header_ok _ _ Hp) as Hh. destruct (po_live _ _ Hp slot Hs Hl).
  pose proof (ho_page _ Hh). apply slot_window_eq; [by eapply slot_fits_below|lia].
Qed.

Lemma item_id_from_page_bytes_eq p slot op :
  zlen p = PAGE_SIZE -> slot_fits slot -> item_id_from_page_bytes p slot op = Ok (item p slot).
Proof.
  intros Hl [_ Hf]. unfold item_id_from_page_bytes. by rewrite (proj2 (Z.ltb_ge _ _)) by lia.
Qed.

(** ** The slot an insertion takes *)

(** The insertions of the heap and the redo of their record place a tuple in
    the same slot with the same effect. *)
Definition lands_at (p : Page) (h : PageHeader) (slot new_slots : Z) : Prop :=
  target p h slot new_slots /\ 0 <= new_slots <= 1 /\ 0 <= slot /\
  forall t, check_tuple_len t = Ok tt ->
    insert_tuple_at_slot p slot t = place_tuple p h (n_slots h) slot new_slots t.

Lemma lands_append p h : page_ok p h -> lands_at p h (n_slots h) 1.
Proof.
  intros Hp. pose proof (page_header_ok _ _ Hp) as Hh. destruct (lower_slots _ Hh) as [_ Hn].
  split; [by apply append_target|]. split; [lia|]. split; [done|]. intros t Et. unfold insert_tuple_at_slot.
  rewrite Et, (page_header_eq _ _ Hp). cbn [mbind option_bind]. rewrite (slot_count_eq _ Hh). cbn [mbind option_bind].
  rewrite Z.leb_refl. by replace (n_slots h + 1 - n_slots h) with 1 by lia.
Qed.

Lemma appended_eq p h t :
  page_ok p h -> check_tuple_len t = Ok tt ->
  insert_tuple_appended p t = returning (n_slots h) <$> place_tuple p h (n_slots h) (n_slots h) 1 t.
Proof.
  intros Hp Et. pose proof (page_header_ok _ _ Hp) as Hh. unfold insert_tuple_appended.
  rewrite Et, (page_header_eq _ _ Hp). cbn [mbind option_bind]. by rewrite (slot_count_eq _ Hh).
Qed.

Lemma insert_lands p h :
  page_ok p h ->
  exists slot k, lands_at p h slot k /\
    forall t, check_tuple_len t = Ok tt -> insert_tuple p t = returning slot <$> place_tuple p h (n_slots h) slot k t.
Proof.
  intros Hp. pose proof (page_header_ok _ _ Hp) as Hh. destruct (lower_slots _ Hh) as [_ Hn].
  pose proof (unused_position _ _ Hp) as Hu. destruct (position is_unused (page_slots p h)) as [i|] eqn:E.
  - apply position_Some in E as [(s & Hs & Hsu) _]. exists (Z.of_nat i), 0.
    assert (target p h (Z.of_nat i) 0) as Htg.
    { eapply fill_target; [done|by rewrite Nat2Z.id|lia|by destruct s]. }
    split.
    + split; [done|]. split; [lia|]. split; [lia|]. intros t Et. unfold insert_tuple_at_slot.
      rewrite Et, (page_header_eq _ _ Hp). cbn [mbind option_bind]. rewrite (slot_count_eq _ Hh). cbn [mbind option_bind].
      destruct Htg as [(Hi & _ & Hnl)|[? ?]]; [|lia]. rewrite (proj2 (Z.leb_gt _ _)) by lia.
      rewrite read_item_id_eq by by eapply slot_fits_below. cbn [mbind option_bind].
      unfold ItemId_is_normal. by rewrite bool_decide_false.
    + intros t Et. unfold insert_tuple. rewrite Et, (page_header_eq _ _ Hp). cbn [mbind option_bind].
      rewrite (slot_count_eq _ Hh). cbn [mbind option_bind]. rewrite Hu. done.
  - exists (n_slots h), 1. split; [by apply lands_append|]. intros t Et. unfold insert_tuple.
    rewrite Et, (page_header_eq _ _ Hp). cbn [mbind option_bind].
    rewrite (slot_count_eq _ Hh). cbn [mbind option_bind]. rewrite Hu. done.
Qed.

Lemma fits_check p h t :
  page_ok p h -> zlen t <= hd_upper h - hd_lower h -> check_tuple_len t = Ok tt.
Proof.
  intros Hp Hle. pose proof (page_header_ok _ _ Hp) as Hh. destruct (lower_slots _ Hh) as [Hlo Hn].
  pose proof (ho_special _ Hh). pose proof (ho_page _ Hh). unfold check_tuple_len. change MAX_LENGTH with 32767.
  unfold PAGE_SIZE, PAGE_HEADER_SIZE, ITEMID_SIZE, U32 in *.
  rewrite (proj2 (Z.leb_gt _ _)) by lia. by rewrite (proj2 (Z.ltb_ge _ _)) by lia.
Qed.

Section insert_patched.
Context (p : Page) (h : PageHeader) (slot k : Z) (a c : list Z).
Hypotheses (Hp : page_ok p h) (Hland : lands_at p h slot k).
Hypotheses (Ha : Forall is_byte a) (Hc : Forall is_byte c).
Hypothesis (Hroom : zlen (a ++ c) + ITEMID_SIZE <= hd_upper h - hd_lower h).

Lemma insert_patched :
  exists p1, place_tuple p h (n_slots h) slot k (a ++ c) = Some (Ok tt, p1) /\
    exists off, slot_window p1 slot = Ok (off, zlen (a ++ c)) /\ off + zlen (a ++ c) <= PAGE_SIZE /\
    forall b, length a = length b -> Forall is_byte b ->
      insert_tuple_at_slot p slot (b ++ c) = Some (Ok tt, zsplice off b p1) /\
      inserts p h slot k (b ++ c) (zsplice off b p1).
Proof using Hp Hland Ha Hc Hroom.
  destruct Hland as (Htg & Hk & H0 & Heq). pose proof (page_header_ok _ _ Hp) as Hh. destruct (lower_slots _ Hh) as [Hlo Hn].
  pose proof (ho_special _ Hh). pose proof (ho_page _ Hh).
  assert (zlen (a ++ c) + k * ITEMID_SIZE <= hd_upper h - hd_lower h) as Hsp by (unfold ITEMID_SIZE in *; lia).
  assert (Hac : Forall is_byte (a ++ c)) by (by apply Forall_app).
  destruct (place_tuple_placed p h slot k (a ++ c) Hp Hac Htg Hsp) as (p1 & E & Hpl). exists p1. split; [done|].
  exists (hd_upper h - zlen (a ++ c)).
  destruct (placed_bounds p h slot k (a ++ c) Hp Htg Hsp) as (_ & Hs & _ & _ & Hfit & Hns).
  destruct (target_bounds p h slot k (a ++ c) Hp Htg Hsp) as (_ & _ & _ & Hsf).
  destruct (ItemId_new_fields _ _ Normal Hfit) as (_ & El & Eo).
  assert (start p1 slot = hd_upper h - zlen (a ++ c) /\ extent p1 slot = zlen (a ++ c)) as [Es Ee]
    by (unfold start, extent; by rewrite (pl_slot _ _ _ _ _ _ Hpl)).
  split; [rewrite <- Ee at 2; rewrite <- Es; apply slot_window_eq; [done|rewrite Es, Ee; lia]|]. split; [lia|].
  intros b Hab Hb. assert (zlen (b ++ c) = zlen (a ++ c)) as Ez by (rewrite !zlen_app; unfold zlen; lia).
  pose proof (place_patched p h slot k a b c Hp Htg ltac:(lia) Hab p1 E) as E2. split.
  - rewrite Heq; [done|]. apply (fits_check p h); [done|]. unfold ITEMID_SIZE in *. lia.
  - pose proof (place_tuple_spec p h slot k (b ++ c) Hp ltac:(by apply Forall_app) Htg) as Hspec. cbn zeta in Hspec.
    rewrite Ez, (proj2 (Z.ltb_ge _ _)) in Hspec by done. destruct Hspec as (p' & E' & Hins).
    rewrite E2 in E'. injection E' as <-. done.
Qed.
End insert_patched.

(** ** Patching a live tuple *)

Lemma patch_live p h slot b t :
  page_ok p h -> page_slots p h !! Z.to_nat slot = Some (SLive t) -> 0 <= slot ->
  (length b <= length t)%nat -> Forall is_byte b ->
  let p' := zsplice (start p slot) b p in
  page_ok p' h /\ page_slots p' h = <[Z.to_nat slot := SLive (b ++ drop (length b) t)]> (page_slots p h) /\
  item p' slot = item p slot.
Proof.
  intros Hp Hv H0 Hlen Hb p'. pose proof (page_header_ok _ _ Hp) as Hh. destruct (lower_slots _ Hh) as [Hlo Hn].
  pose proof (ho_upper _ Hh) as Hup. pose proof (ho_special _ Hh). pose proof (ho_page _ Hh). pose proof (po_len _ _ Hp) as Hl.
  rewrite page_slots_lookup, Z2Nat.id in Hv by done. case_decide as Hlt; [|done]. injection Hv as Hv.
  pose proof (view_live _ _ _ Hv) as [Hli Et]. destruct (po_live _ _ Hp slot ltac:(lia) Hli) as [Hu Hs].
  pose proof (ItemId_length_bound (item p slot)) as [Hx _]. fold (extent p slot) in Hx.
  assert (zlen t = extent p slot) as Hzt by (rewrite Et; rewrite zlen_slice; unfold PAGE_HEADER_SIZE, ITEMID_SIZE in *; lia).
  assert (zlen b <= extent p slot) as Hzb by (unfold zlen in *; lia).
  assert (Hit : forall i, 0 <= i < n_slots h -> item p' i = item p i).
  { intros i Hi. unfold item, p'. apply zread_splice_out; unfold PAGE_HEADER_SIZE, ITEMID_SIZE in *; lia. }
  assert (Hsl : forall i, 0 <= i < n_slots h -> i <> slot -> live p i ->
    zslice (start p i) (start p i + extent p i) p' = zslice (start p i) (start p i + extent p i) p).
  { intros i Hi Hne Hl'. destruct (po_live _ _ Hp i Hi Hl'). pose proof (po_disjoint _ _ Hp i slot Hi ltac:(lia) Hne Hl' Hli).
    unfold p'. apply zslice_splice_out; unfold PAGE_HEADER_SIZE, ITEMID_SIZE in *; lia. }
  assert (zlen p' = PAGE_SIZE) as Hl'.
  { unfold p'. rewrite zlen_splice; [done| |]; unfold PAGE_HEADER_SIZE, ITEMID_SIZE in *; lia. }
  split; [|split; [|apply Hit; lia]].
  - constructor; [done|apply zsplice_bytes; [done|apply Hp]| | |].
    + rewrite <- (po_header _ _ Hp). apply decode_slice. unfold p'.
      apply zslice_splice_out; unfold PAGE_HEADER_SIZE, ITEMID_SIZE in *; lia.
    + intros i Hi. unfold live, start, extent. rewrite Hit by done. by apply (po_live _ _ Hp).
    + intros i j Hi Hj. unfold live, start, extent. rewrite !Hit by done. by apply (po_disjoint _ _ Hp).
  - apply list_eq. intros i. rewrite page_slots_lookup by done. destruct (decide (i = Z.to_nat slot)) as [->|Hne].
    + rewrite list_lookup_insert_eq by (rewrite length_page_slots; lia). rewrite decide_True, Z2Nat.id by lia.
      f_equal. unfold view, view_item. rewrite Hit by lia. unfold live in Hli. rewrite Hli. f_equal.
      fold (start p slot) (extent p slot). rewrite <- (zslice_split _ (start p slot + zlen b)) by (pose proof (zlen_nonneg b); unfold PAGE_HEADER_SIZE, ITEMID_SIZE in *; lia).
      f_equal.
      * unfold p'. apply zslice_splice_in; unfold PAGE_HEADER_SIZE, ITEMID_SIZE in *; lia.
      * unfold p'. rewrite zslice_splice_out by (unfold PAGE_HEADER_SIZE, ITEMID_SIZE in *; pose proof (zlen_nonneg b); lia).
        rewrite Et. unfold zslice. rewrite skipn_firstn_comm, drop_drop. f_equal; [unfold zlen; lia|].
        f_equal. unfold zlen, PAGE_HEADER_SIZE, ITEMID_SIZE in *. lia.
    + rewrite list_lookup_insert_ne by done. rewrite page_slots_lookup by done. case_decide; [|done]. f_equal.
      apply view_ext; [apply Hit; lia|]. intros Hl2. apply Hsl; [lia|lia|done].
Qed.

(** ** Headers *)

Lemma known_mask m : in_width U16 m -> Z.land m (not_u16 KNOWN_BITS) = 0 <-> m < 4096.
Proof.
  unfold in_width. intros [H0 H1]. change (not_u16 KNOWN_BITS) with (Z.shiftl 15 12). split.
  - intros Hz. destruct (decide (m < 4096)) as [|Hge]; [done|].
    assert (Z.shiftr m 12 <> 0) as Hnz.
    { rewrite Z.shiftr_div_pow2 by lia. change (2 ^ 12) with 4096. pose proof (Z.div_le_lower_bound m 4096 1). lia. }
    exfalso. apply Hnz. apply Z.bits_inj_0. intros i. destruct (decide (0 <= i)); [|apply Z.testbit_neg_r; lia].
    rewrite Z.shiftr_spec by done. destruct (decide (i < 4)).
    + assert (Z.testbit (Z.land m (Z.shiftl 15 12)) (i + 12) = false) as Hb by (by rewrite Hz, Z.testbit_0_l).
      rewrite Z.land_spec, Z.shiftl_spec in Hb by lia. replace (i + 12 - 12) with i in Hb by lia.
      change 15 with (Z.ones 4) in Hb. by rewrite Z.ones_spec_low, andb_true_r in Hb by lia.
    + apply Z.bits_above_log2; [done|]. apply Z.le_lt_trans with 15; [|lia].
      destruct (decide (m = 0)) as [->|]; [done|]. assert (Z.log2 m < 16); [|lia]. apply Z.log2_lt_pow2; unfold U16 in *; lia.
  - intros Hlt. apply Z.bits_inj_0. intros i. destruct (decide (0 <= i)); [|apply Z.testbit_neg_r; lia].
    rewrite Z.land_spec, Z.shiftl_spec by lia. destruct (decide (i < 12)).
    + rewrite (Z.testbit_neg_r 15) by lia. apply andb_false_r.
    + rewrite Z.bits_above_log2; [done|done|]. destruct (decide (m = 0)) as [->|]; [cbn; lia|].
      apply Z.le_lt_trans with 11; [|lia]. assert (Z.log2 m < 12); [|lia]. apply Z.log2_lt_pow2; lia.
Qed.

Lemma lor_bound a b n : 0 <= n -> 0 <= a < 2 ^ n -> 0 <= b < 2 ^ n -> 0 <= Z.lor a b < 2 ^ n.
Proof.
  intros Hn Ha Hb. split; [apply Z.lor_nonneg; lia|].
  destruct (decide (Z.lor a b = 0)) as [->|]; [lia|]. assert (0 <= Z.lor a b) by (apply Z.lor_nonneg; lia).
  apply Z.log2_lt_pow2; [lia|]. rewrite Z.log2_lor by lia.
  assert (forall x, 0 <= x < 2 ^ n -> x = 0 \/ Z.log2 x < n) as Hlog.
  { intros x Hx. destruct (decide (x = 0)); [by left|]. right. apply Z.log2_lt_pow2; lia. }
  pose proof (Z.log2_nonneg a). pose proof (Z.log2_nonneg b).
  destruct (Hlog a Ha) as [->|], (Hlog b Hb) as [->|]; cbn [Z.log2] in *; try lia; done.
Qed.

(** The masks an operation may write: twelve bits. *)
Lemma mask_set_bound m flag : 0 <= m < 4096 -> 0 <= flag < 4096 -> 0 <= mask_set m flag < 4096.
Proof. intros. unfold mask_set. by apply (lor_bound m flag 12). Qed.

Lemma mask_clear_bound m flag : 0 <= m < 4096 -> 0 <= mask_clear m flag < 4096.
Proof.
  intros [H0 H1]. unfold mask_clear. split; [apply Z.land_nonneg; by left|].
  set (x := not_u16 flag). assert (m - Z.land m x = Z.ldiff m (Z.land m x)) as Hs.
  { apply Z.sub_nocarry_ldiff. apply Z.bits_inj_0. intros i. rewrite Z.ldiff_spec, Z.land_spec.
    by destruct (Z.testbit m i), (Z.testbit x i). }
  assert (0 <= Z.ldiff m (Z.land m x)) by (apply Z.ldiff_nonneg; by left). lia.
Qed.

Lemma header_wf_mask h : header_wf h -> 0 <= infomask h < 4096.
Proof. intros (_&_&_&_&Hm&Hk&_). split; [apply Hm|]. by apply known_mask. Qed.

Definition tid_width (t : TupleId) : Prop :=
  in_width U32 (pg_relation (tid_page t)) /\ in_width U32 (pg_block (tid_page t)) /\ in_width U16 (tid_slot t).

Lemma mask_wf m : 0 <= m < 4096 -> in_width U16 m /\ Z.land m (not_u16 KNOWN_BITS) = 0.
Proof.
  intros Hm. assert (in_width U16 m) as Hw by (unfold in_width, U16; lia). split; [done|]. apply known_mask; [done|lia].
Qed.

Lemma fresh_wf x c t n :
  in_width U64 x -> in_width U32 c -> tid_width t -> in_width U16 n -> header_wf (fresh x c t n).
Proof. intros Hx Hc (Hr & Hb & Hs) Hn. unfold header_wf. by split_and!. Qed.

Lemma mark_deleted_wf h x c : header_wf h -> in_width U64 x -> in_width U32 c -> header_wf (mark_deleted h x c).
Proof.
  intros Hwf Hx Hc. pose proof (header_wf_mask _ Hwf) as Hm. destruct Hwf as (H1&H2&H3&H4&H5&H6&H7&H8&H9&H10&H11).
  assert (0 <= infomask (mark_deleted h x c) < 4096) as Hm'.
  { cbn [mark_deleted infomask]. case_match; [|done]. apply (mask_set_bound _ INPLACE_HISTORY); [|done].
    by apply (mask_clear_bound _ UPDATED_IN_PLACE). }
  destruct (mask_wf _ Hm') as [Hw Hk]. unfold header_wf. by split_and!.
Qed.

Lemma superseded_wf h x c flag t :
  header_wf h -> in_width U64 x -> in_width U32 c -> 0 <= flag < 4096 -> tid_width t ->
  header_wf (superseded h x c flag t).
Proof.
  intros Hwf Hx Hc Hf (Hr & Hb & Hs). pose proof (header_wf_mask _ Hwf) as Hm.
  destruct Hwf as (H1&H2&H3&H4&H5&H6&H7&H8&H9&H10&H11).
  assert (0 <= infomask (superseded h x c flag t) < 4096) as Hm'.
  { cbn [superseded infomask]. pose proof (mask_set_bound (infomask h) flag Hm Hf). case_match; [|done].
    apply mask_set_bound; [|done]. by apply mask_clear_bound. }
  destruct (mask_wf _ Hm') as [Hw Hk]. unfold header_wf. by split_and!.
Qed.

Lemma with_ctid_wf h t : header_wf h -> tid_width t -> header_wf (with_ctid h t).
Proof. intros (H1&H2&H3&H4&H5&H6&H7&H8&_) (Hr & Hb & Hs). unfold header_wf. by split_and!. Qed.

Lemma encode_collect h : encode h (replicate TUPLE_HEADER_SIZE 0) = Some (thbytes h).
Proof. rewrite encode_bytes by by rewrite length_replicate. by rewrite drop_replicate, app_nil_r. Qed.

Lemma collect_header_bytes_eq h : collect_header_bytes h = Some (thbytes h).
Proof. apply encode_collect. Qed.

Lemma thbytes_bytes h : Forall is_byte (thbytes h).
Proof. unfold thbytes. rewrite !Forall_app. repeat split; apply le_encode_bytes. Qed.

Lemma zlen_thbytes h : zlen (thbytes h) = 40.
Proof. unfold zlen. by rewrite length_header_bytes. Qed.

Lemma zlen_header_app h c : zlen (thbytes h ++ c) = 40 + zlen c.
Proof. by rewrite zlen_app, zlen_thbytes. Qed.

(** ** Tuples and heap pages *)

(** A tuple starts with a header that decodes. *)
Definition tuple_header (t : list Z) (hdr : TupleHeader) : Prop := decode (take TUPLE_HEADER_SIZE t) = Some (hdr, TUPLE_HEADER_SIZE).
Definition tuple_ok (t : list Z) : Prop := exists hdr, tuple_header t hdr.

Lemma tuple_header_facts t hdr :
  Forall is_byte t -> tuple_header t hdr -> header_wf hdr /\ (40 <= length t)%nat /\ 40 <= zlen t /\ thbytes hdr = take 40 t.
Proof.
  intros Hb H. apply decode_canonical in H as (E & Hwf & _ & _ & Hl); [|by apply Forall_take].
  unfold TUPLE_HEADER_SIZE in *. rewrite length_take in Hl. split; [done|]. split; [lia|]. split; [unfold zlen; lia|].
  by rewrite drop_ge, app_nil_r in E by (rewrite length_take; lia).
Qed.

Lemma take_header h c : take TUPLE_HEADER_SIZE (thbytes h ++ c) = thbytes h.
Proof. rewrite take_app_length'; [done|by rewrite length_header_bytes]. Qed.

Lemma header_tuple_ok h c : header_wf h -> tuple_header (thbytes h ++ c) (with_ctid h (ctid_truncated (ctid h))).
Proof.
  intros Hwf. unfold tuple_header. rewrite take_header, <- (app_nil_r (thbytes h)). by apply decode_header_bytes.
Qed.

Record hpage (p : Page) (h : PageHeader) : Prop := {
  hp_ok : page_ok p h;
  hp_tuples : forall i t, page_slots p h !! i = Some (SLive t) -> tuple_ok t;
}.

Lemma hpage_unique p h h' : hpage p h -> hpage p h' -> h = h'.
Proof.
  intros [Hp _] [Hp' _]. pose proof (po_header _ _ Hp) as E. rewrite (po_header _ _ Hp') in E. by apply Ok_inj in E.
Qed.

Lemma live_bytes_slots p h i t : page_ok p h -> page_slots p h !! i = Some (SLive t) -> Forall is_byte t.
Proof.
  intros Hp. pose proof (page_header_ok _ _ Hp) as Hh. destruct (lower_slots _ Hh) as [_ Hn].
  rewrite page_slots_lookup by done. case_decide; [|done]. intros [= [_ ->]%view_live]. apply zslice_bytes, Hp.
Qed.

Lemma hpage_new : exists h, hpage new_heap h /\ hd_lsn h = 0.
Proof.
  exists fresh_heap. destruct new_heap_sim as (h & Hp & E).
  assert (h = fresh_heap) as ->.
  { assert (PageHeader_decode new_heap = Ok fresh_heap) as E0 by (vm_compute; reflexivity).
    pose proof (po_header _ _ Hp) as Hd. rewrite E0 in Hd. by apply Ok_inj in Hd. }
  split; [|done]. split; [done|]. intros i t. by replace (page_slots new_heap fresh_heap) with (@nil slot_view) by reflexivity.
Qed.

Lemma hpage_inserted p h slot k t p' :
  hpage p h -> inserts p h slot k t p' -> 0 <= slot -> tuple_ok t ->
  exists h', hpage p' h' /\ hd_lsn h' = hd_lsn h /\ page_slots p' h' = put_slot (page_slots p h) slot t.
Proof.
  intros [Hp Ht] (h' & Hp' & _ & _ & Hl & _ & Hs) H0 Hok. exists h'. split; [|done]. split; [done|].
  intros i u. rewrite Hs, put_slot_lookup by done. case_decide; [by intros [= <-]|]. case_decide; [|apply Ht].
  destruct (page_slots p h !! i) as [s|] eqn:E; cbn [default]; [|done]. intros [= ->]. by eapply Ht.
Qed.

Lemma hpage_patched p h slot t hdr :
  hpage p h -> page_slots p h !! Z.to_nat slot = Some (SLive t) -> 0 <= slot -> header_wf hdr ->
  let p' := zsplice (start p slot) (thbytes hdr) p in
  hpage p' h /\ page_slots p' h = <[Z.to_nat slot := SLive (thbytes hdr ++ drop 40 t)]> (page_slots p h) /\
  item p' slot = item p slot.
Proof.
  intros [Hp Ht] Hs H0 Hwf. destruct (Ht _ _ Hs) as [old Hold].
  apply tuple_header_facts in Hold as (_ & Hlt & _); [|by eapply live_bytes_slots].
  destruct (patch_live p h slot (thbytes hdr) t Hp Hs H0) as (Hp' & Hs' & Hi);
    [by rewrite length_header_bytes|apply thbytes_bytes|]. rewrite length_header_bytes in Hs'.
  split; [|done]. split; [done|]. intros i u Hu. rewrite Hs' in Hu.
  apply list_lookup_insert_Some in Hu as [(<- & [= <-] & _)|[_ Hu]]; [|by eapply Ht].
  eexists. by apply header_tuple_ok.
Qed.

Lemma hpage_set_lsn p h lsn :
  hpage p h -> in_width U64 lsn ->
  exists p', set_lsn p lsn = Some p' /\ hpage p' (with_lsn h lsn) /\ page_slots p' (with_lsn h lsn) = page_slots p h.
Proof.
  intros [Hp Ht] Hl. destruct (set_lsn_spec p h lsn Hp Hl) as (p' & E & Hp' & Hs). exists p'. split; [done|]. split; [|done].
  split; [done|]. intros i t. rewrite Hs. apply Ht.
Qed.
