(* ===== verification/HeapReplay.v ===== *)
(** * The effect of a heap record on one page

    A decoded heap record acts on each page it names by itself. [page_redo] is
    that action: the LSN gate, the change, the LSN of the record stamped on the
    page. Replaying a log from pages that are each at some earlier version of
    themselves brings every page to its last version. *)

From S2P Require Import Prelude CoreIds TupleHeader WalRecord WalPayload WalPayloadHeap Bytes Page PageSpec Heap HeapRedo HeapPage.

Inductive heap_record :=
| RInsert (p : HeapInsertPayload)
| RUpdate (p : HeapUpdatePayload)
| RDelete (p : HeapDeletePayload)
| RFull (p : FullPageWritePayload).

Definition ok_of {A E} (r : result A E) : option A := match r with Ok a => Some a | Err _ => None end.

Definition decode_heap (r : WalRecord) : option heap_record :=
  match record_type (rec_header r) with
  | HeapInsert => RInsert <$> ok_of (HeapInsertPayload_decode (rec_payload r))
  | HeapUpdate => RUpdate <$> ok_of (HeapUpdatePayload_decode (rec_payload r))
  | HeapDelete => RDelete <$> ok_of (HeapDeletePayload_decode (rec_payload r))
  | FullPageWrite => RFull <$> ok_of (FullPageWritePayload_decode (rec_payload r))
  | _ => None
  end.

(** The pages a record names. *)
Definition touches (r : heap_record) (id : PageId) : bool :=
  match r with
  | RInsert p => bool_decide (id = tid_page (hi_tid p))
  | RUpdate p => bool_decide (id = tid_page (hu_new_tid p) \/ id = tid_page (hu_old_tid p))
  | RDelete p => bool_decide (id = tid_page (hd_tid p))
  | RFull p => bool_decide (id = fpw_page p)
  end.

Definition is_full (r : heap_record) : bool := match r with RFull _ => true | _ => false end.

(** ** The parts of a change *)

Definition stamp (lsn : Lsn) (p : Page) : option Page :=
  header ← page_header p;
  if negb (lsn =? 0) && (hd_lsn header <? lsn) then set_lsn p lsn else Some p.

Definition gate (lsn : Lsn) (f : Page -> option Page) (p : Page) : option Page :=
  skip ← should_skip_redo p lsn;
  if (skip : bool) then Some p else q ← f p; stamp lsn q.

Definition filled (p : Page) (slot : Z) : option bool :=
  header ← page_header p;
  count ← slot_count header;
  if slot <? count then
    r ← read_tuple p slot;
    Some (match r with Ok existing => negb (zlen existing =? 0) | Err _ => false end)
  else Some false.

Definition fill (slot : Z) (t : list Z) (p : Page) : option Page :=
  b ← filled p slot;
  if (b : bool) then Some p else
  r ← insert_tuple_at_slot p slot t;
  match r with (Ok _, q) => Some q | (Err _, _) => None end.

Definition header_at (p : Page) (slot : Z) : option TupleHeader :=
  r ← read_tuple p slot;
  existing ← ok_of r;
  if zlen existing <? Z.of_nat TUPLE_HEADER_SIZE then None else
  '(hdr, _) ← decode (take TUPLE_HEADER_SIZE existing);
  Some hdr.

Definition put_header (slot : Z) (hdr : TupleHeader) (p : Page) : option Page :=
  let off := ItemId_offset (item p slot) in
  if (zlen p <? PAGE_HEADER_SIZE + slot * ITEMID_SIZE + ITEMID_SIZE) || (PAGE_SIZE <? off + Z.of_nat TUPLE_HEADER_SIZE)
  then None else Some (zsplice off (thbytes hdr) p).

Definition restamp (slot : Z) (f : TupleHeader -> TupleHeader) (p : Page) : option Page :=
  hdr ← header_at p slot; put_header slot (f hdr) p.

Definition unless_deleted (slot : Z) (x : Xid) (c : CommandId) (p : Page) : option Page :=
  hdr ← header_at p slot;
  if same_delete hdr x c then Some p else put_header slot (mark_deleted hdr x c) p.

(** ** The action of a record on a page *)

Definition new_version (p : HeapUpdatePayload) : option TupleHeader :=
  if zlen (hu_new_tuple_bytes p) <? Z.of_nat TUPLE_HEADER_SIZE then None else
  '(hdr, _) ← decode (take TUPLE_HEADER_SIZE (hu_new_tuple_bytes p)); Some hdr.

Definition update_page (p : HeapUpdatePayload) (new_header : TupleHeader) (id : PageId) (q : Page) : option Page :=
  let new_id := tid_page (hu_new_tid p) in
  let old_id := tid_page (hu_old_tid p) in
  let place := fill (tid_slot (hu_new_tid p)) (hu_new_tuple_bytes p) in
  let mark := restamp (tid_slot (hu_old_tid p)) (redo_superseded p new_header) in
  if decide (old_id = new_id) then q' ← place q; mark q'
  else if decide (id = new_id) then place q else mark q.

Definition page_redo (r : heap_record) (lsn : Lsn) (id : PageId) (q : Page) : option Page :=
  if negb (touches r id) then Some q else
  match r with
  | RInsert p => gate lsn (fill (tid_slot (hi_tid p)) (hi_tuple_bytes p)) q
  | RUpdate p => new_header ← new_version p; gate lsn (update_page p new_header id) q
  | RDelete p => gate lsn (unless_deleted (tid_slot (hd_tid p)) (hd_xmax p) (hd_cmax p)) q
  | RFull p => if zlen (fpw_page_bytes p) =? PAGE_SIZE then stamp lsn (fpw_page_bytes p) else None
  end.

Fixpoint page_redos (rs : list (Lsn * heap_record)) (id : PageId) (q : Page) : option Page :=
  match rs with
  | [] => Some q
  | (lsn, r) :: rest => q' ← page_redo r lsn id q; page_redos rest id q'
  end.

(** ** Facts *)

Lemma page_redos_app rs1 rs2 id q : page_redos (rs1 ++ rs2) id q = page_redos rs1 id q ≫= page_redos rs2 id.
Proof.
  revert q. induction rs1 as [|[lsn r] rs1 IH]; intros q; [done|]. cbn [page_redos app].
  destruct (page_redo r lsn id q); [apply IH|done].
Qed.

Lemma page_redo_other r lsn id q : touches r id = false -> page_redo r lsn id q = Some q.
Proof. intros E. unfold page_redo. by rewrite E. Qed.

Lemma page_redo_full r lsn id q q' : is_full r = true -> touches r id = true -> page_redo r lsn id q = page_redo r lsn id q'.
Proof. intros Hf Ht. unfold page_redo. rewrite Ht. by destruct r. Qed.

Section lsn.
Context (lsn : Lsn).
Hypothesis (Hlsn : 0 < lsn < U64).

Lemma should_skip_eq p h : page_ok p h -> should_skip_redo p lsn = Some (lsn <=? hd_lsn h).
Proof using Hlsn.
  intros Hp. unfold should_skip_redo. rewrite (page_header_eq _ _ Hp). cbn [mbind option_bind]. f_equal.
  destruct (Z.eqb_spec lsn 0); [lia|]. cbn [negb andb].
  destruct (Z.ltb_spec lsn (hd_lsn h)), (Z.eqb_spec (hd_lsn h) lsn), (Z.leb_spec lsn (hd_lsn h)); done || lia.
Qed.

Lemma gate_skip f p h : page_ok p h -> lsn <= hd_lsn h -> gate lsn f p = Some p.
Proof using Hlsn.
  intros Hp Hle. unfold gate. rewrite (should_skip_eq _ _ Hp). cbn [mbind option_bind]. by rewrite (proj2 (Z.leb_le _ _)).
Qed.

Lemma gate_pass f p h : page_ok p h -> hd_lsn h < lsn -> gate lsn f p = f p ≫= stamp lsn.
Proof using Hlsn.
  intros Hp Hlt. unfold gate. rewrite (should_skip_eq _ _ Hp). cbn [mbind option_bind]. by rewrite (proj2 (Z.leb_gt _ _)).
Qed.

Lemma stamp_raises p h :
  hpage p h -> hd_lsn h < lsn ->
  exists p', stamp lsn p = Some p' /\ set_lsn p lsn = Some p' /\ hpage p' (with_lsn h lsn) /\
    page_slots p' (with_lsn h lsn) = page_slots p h.
Proof using Hlsn.
  intros Hp Hlt. destruct (hpage_set_lsn p h lsn Hp) as (p' & E & Hp' & Hs); [unfold in_width; lia|].
  exists p'. split; [|done]. unfold stamp. rewrite (page_header_eq _ _ (hp_ok _ _ Hp)). cbn [mbind option_bind].
  destruct (Z.eqb_spec lsn 0); [lia|]. cbn [negb andb]. by rewrite (proj2 (Z.ltb_lt _ _)).
Qed.

(** A page that already holds the effect is left alone. *)
Lemma page_redo_skip r id p h :
  page_ok p h -> lsn <= hd_lsn h -> is_full r = false -> (forall u, r = RUpdate u -> new_version u <> None) ->
  page_redo r lsn id p = Some p.
Proof using Hlsn.
  intros Hp Hle Hf Hu. unfold page_redo. destruct (touches r id); [|done]. cbn [negb].
  destruct r; [by eapply gate_skip| |by eapply gate_skip|done].
  destruct (new_version p0) eqn:E; [by eapply gate_skip|]. by specialize (Hu _ eq_refl).
Qed.
End lsn.

(** ** Versions of the pages along a log *)

(** The LSNs of a log increase from [floor]. *)
Fixpoint increasing (floor : Lsn) (rs : list (Lsn * heap_record)) : Prop :=
  match rs with
  | [] => True
  | (lsn, _) :: rest => floor < lsn < U64 /\ increasing lsn rest
  end.

Definition page_lsn_is (p : Page) (l : Lsn) : Prop := exists h, page_ok p h /\ hd_lsn h = l.

(** One page along the log: a change of the page carries the LSN of its record,
    and the page of [n] records is what replaying them makes of the first one. *)
Record history (rs : list (Lsn * heap_record)) (id : PageId) (V : nat -> Page) : Prop := {
  hi_step : forall k lsn r, rs !! k = Some (lsn, r) -> page_redo r lsn id (V k) = Some (V (S k));
  hi_lsn : forall k lsn r, rs !! k = Some (lsn, r) -> touches r id = true -> page_lsn_is (V (S k)) lsn;
  hi_ok : forall k, (k <= length rs)%nat -> exists l, page_lsn_is (V k) l;
  hi_update : forall k lsn u, rs !! k = Some (lsn, RUpdate u) -> touches (RUpdate u) id = true -> new_version u <> None;
}.

Lemma increasing_lookup floor rs i j li lj ri rj :
  increasing floor rs -> 0 <= floor -> rs !! i = Some (li, ri) -> rs !! j = Some (lj, rj) -> (i < j)%nat -> 0 < li < lj /\ lj < U64.
Proof.
  revert floor i j. induction rs as [|[l r] rs IH]; intros floor i j; [done|]. cbn [increasing]. intros [Hl Hi] H0.
  destruct i as [|i], j as [|j]; cbn [lookup list_lookup]; try lia.
  - intros [= <- <-] Hj _. clear IH. revert l Hl Hi j Hj. induction rs as [|[m s] rs IH]; intros l Hl Hi j Hj; [done|].
    cbn [increasing] in Hi. destruct Hi as [Hm Hi]. destruct j as [|j].
    + injection Hj as <- <-. lia.
    + cbn [lookup list_lookup] in Hj. pose proof (IH m ltac:(lia) Hi j Hj). lia.
  - intros Hi' Hj Hij. eapply (IH l); [done|lia|exact Hi'|exact Hj|lia].
Qed.

Lemma increasing_pos floor rs k l r : increasing floor rs -> 0 <= floor -> rs !! k = Some (l, r) -> 0 < l < U64.
Proof.
  revert floor k. induction rs as [|[m s] rs IH]; intros floor k; [done|]. cbn [increasing]. intros [Hl Hi] H0.
  destruct k as [|k]; cbn [lookup list_lookup]; [intros [= <- <-]; lia|]. apply (IH m); [done|lia].
Qed.

Section history.
Context (floor : Lsn) (rs : list (Lsn * heap_record)) (id : PageId) (V : nat -> Page).
Hypotheses (Hinc : increasing floor rs) (Hfloor : 0 <= floor) (HV : history rs id V).

(** From the record that last touched it on, a page carries at least its LSN. *)
Lemma version_lsn k lsn r m :
  rs !! k = Some (lsn, r) -> touches r id = true -> (k < m <= length rs)%nat ->
  exists l, page_lsn_is (V m) l /\ lsn <= l.
Proof using Hinc Hfloor HV.
  intros Hk Ht [Hlt Hle]. induction m as [|m IH]; [lia|].
  destruct (decide (m = k)) as [->|Hne]; [exists lsn; split; [by eapply (hi_lsn _ _ _ HV)|lia]|].
  destruct (lookup_lt_is_Some_2 rs m) as [[lm rm] Hm]; [lia|]. destruct (touches rm id) eqn:Htm.
  - exists lm. split; [by eapply (hi_lsn _ _ _ HV)|].
    pose proof (increasing_lookup floor rs k m lsn lm r rm Hinc Hfloor Hk Hm ltac:(lia)). lia.
  - pose proof (hi_step _ _ _ HV _ _ _ Hm) as Hs. rewrite page_redo_other in Hs by done. injection Hs as <-. apply IH; lia.
Qed.

(** One record, on a page at a version at least as recent. *)
Lemma redo_version k lsn r m :
  rs !! k = Some (lsn, r) -> (k <= m <= length rs)%nat ->
  exists m', (S k <= m' <= length rs)%nat /\ page_redo r lsn id (V m) = Some (V m').
Proof using Hinc Hfloor HV.
  intros Hk Hm. pose proof (lookup_lt_Some _ _ _ Hk) as Hlt. pose proof (hi_step _ _ _ HV _ _ _ Hk) as Hs.
  destruct (decide (m = k)) as [->|Hne]; [exists (S k); split; [lia|done]|].
  destruct (touches r id) eqn:Ht; [|exists m; split; [lia|by apply page_redo_other]].
  destruct (is_full r) eqn:Hf.
  - exists (S k). split; [lia|]. by rewrite (page_redo_full r lsn id (V m) (V k)).
  - exists m. split; [lia|]. destruct (version_lsn k lsn r m Hk Ht ltac:(lia)) as (l & (h & Hp & <-) & Hle).
    eapply page_redo_skip; [by eapply increasing_pos|done|done|done|].
    intros u ->. by eapply (hi_update _ _ _ HV).
Qed.

Lemma catch_up k m : (k <= m <= length rs)%nat -> page_redos (drop k rs) id (V m) = Some (V (length rs)).
Proof using Hinc Hfloor HV.
  remember (length rs - k)%nat as n eqn:Hn. revert k m Hn. induction n as [|n IH]; intros k m Hn Hm.
  - rewrite drop_ge by lia. cbn. f_equal. f_equal. lia.
  - destruct (lookup_lt_is_Some_2 rs k) as [[lsn r] Hk]; [lia|]. rewrite (drop_S _ _ _ Hk). cbn [page_redos].
    destruct (redo_version k lsn r m Hk Hm) as (m' & Hm' & ->). cbn [mbind option_bind]. apply IH; lia.
Qed.

(** The first record that names the page carries its image. *)
Definition image_first : Prop :=
  exists k lsn r, rs !! k = Some (lsn, r) /\ touches r id = true /\ is_full r = true /\
    forall j l s, (j < k)%nat -> rs !! j = Some (l, s) -> touches s id = false.

Lemma untouched_prefix k p :
  (k <= length rs)%nat -> (forall j l s, (j < k)%nat -> rs !! j = Some (l, s) -> touches s id = false) ->
  page_redos (take k rs) id p = Some p.
Proof using.
  intros Hk Hj. assert (Forall (fun x => touches x.2 id = false) (take k rs)) as Hf.
  { apply Forall_lookup. intros j [l s] [E Hlt]%lookup_take_Some. by eapply Hj. }
  clear Hk Hj. induction Hf as [|[l s] rest Hs _ IH]; [done|]. cbn [page_redos]. rewrite page_redo_other by done. apply IH.
Qed.

Lemma torn_catch_up p : image_first -> page_redos rs id p = Some (V (length rs)).
Proof using Hinc Hfloor HV.
  intros (k & lsn & r & Hk & Ht & Hf & Hj). pose proof (lookup_lt_Some _ _ _ Hk) as Hlt.
  rewrite <- (take_drop k rs) at 1. rewrite page_redos_app, untouched_prefix by (done || lia). cbn [mbind option_bind].
  rewrite (drop_S _ _ _ Hk). cbn [page_redos]. rewrite (page_redo_full r lsn id p (V k)) by done.
  rewrite (hi_step _ _ _ HV _ _ _ Hk). cbn [mbind option_bind]. apply catch_up. lia.
Qed.
End history.

(** * The redo of the heap acts page by page

    [dispatch_record_at_lsn] on the heap target changes every page the way
    [page_redo] does. *)

Section run.
Context {W : Type} (replay_vm : bool) (other : RecordType -> list Z -> Lsn -> HM W ApplyError unit).

Lemma bind_run {E A B} (m : HM W E A) (k : A -> HM W E B) h a h' : m h = Some (Ok a, h') -> (m ≫= k) h = k a h'.
Proof. unfold mbind, HM_bind. by intros ->. Qed.

(** The pages may be fetched. *)
Definition ready (h : Heap W) : Prop := h_poisoned h = false /\ h_io h = [].

(** [h'] is [h] with the page [id] replaced by [q], up to the bookkeeping. *)
Definition upd (id : PageId) (q : Page) (h h' : Heap W) : Prop :=
  ready h' /\ forall j, page_of h' j = if decide (j = id) then q else page_of h j.

Definition same_pages (h h' : Heap W) : Prop := ready h' /\ forall j, page_of h' j = page_of h j.

Lemma upd_refl id h : ready h -> upd id (page_of h id) h h.
Proof. intros Hr. split; [done|]. intros j. by case_decide as E; [rewrite E|]. Qed.

Lemma upd_after id q h h1 h' : same_pages h h1 -> upd id q h1 h' -> upd id q h h'.
Proof. intros [_ Hs] [Hr Hu]. split; [done|]. intros j. rewrite Hu. by rewrite Hs. Qed.

Lemma upd_upd id q1 q h h1 h' : upd id q1 h h1 -> upd id q h1 h' -> upd id q h h'.
Proof. intros [_ H1] [Hr Hu]. split; [done|]. intros j. rewrite Hu, H1. by case_decide. Qed.

Lemma upd_page id q h h' : upd id q h h' -> page_of h' id = q.
Proof. intros [_ H]. by rewrite H, decide_True. Qed.

Lemma put_page_run {E} id q h : ready h -> exists h', put_page (E := E) id q h = Some (Ok tt, h') /\ upd id q h h'.
Proof.
  intros Hr. eexists. split; [done|]. split; [done|]. intros j. unfold page_of. cbn. case_decide as E0.
  - by rewrite E0, lookup_insert_eq.
  - by rewrite lookup_insert_ne.
Qed.

Lemma vm_clear_run {E} on id h : ready h -> exists h', vm_clear_page (E := E) on id h = Some (Ok tt, h') /\ same_pages h h'.
Proof. intros Hr. destruct on; (eexists; split; [done|]); by split. Qed.

Lemma advance_counter_run rel block h :
  ready h -> 0 <= block -> block + 1 < U32 ->
  exists h', advance_counter rel block h = Some (Ok tt, h') /\ same_pages h h'.
Proof.
  intros Hr H0 Hb. unfold advance_counter, checked_add. rewrite (proj2 (Z.ltb_lt _ _)) by lia.
  unfold mbind, HM_bind, gets. destruct (_ <? _); (eexists; split; [done|]); by split.
Qed.

Lemma remember_run {E} xid id h : ready h -> exists h', remember_rollback_stamp_page (E := E) xid id h = Some (Ok tt, h') /\ same_pages h h'.
Proof. intros Hr. unfold remember_rollback_stamp_page. destruct (xid =? 0); (eexists; split; [done|]); by split. Qed.

Lemma fetch_run id op h : ready h -> fetch_for_redo id op h = Some (Ok tt, h).
Proof. intros [Hp Hio]. unfold fetch_for_redo, map_err, get_page. by rewrite Hp, Hio. Qed.

Lemma stamp_run id lsn q h :
  ready h -> stamp lsn (page_of h id) = Some q ->
  exists h', stamp_replayed_lsn id lsn h = Some (Ok tt, h') /\ upd id q h h'.
Proof.
  intros Hr E. unfold stamp_replayed_lsn. rewrite (bind_run _ _ h (page_of h id) h) by done.
  unfold stamp in E. destruct (page_header (page_of h id)) as [hd|] eqn:Eh; [|done]. cbn [mbind option_bind] in E.
  rewrite (bind_run _ _ h hd h) by done. destruct (_ && _).
  - rewrite (bind_run _ _ h q h) by (unfold hor_panic; by rewrite E). by apply put_page_run.
  - injection E as <-. exists h. split; [done|]. by apply upd_refl.
Qed.

Lemma filled_run id slot b h :
  filled (page_of h id) slot = Some b -> already_filled (W := W) id slot h = Some (Ok b, h).
Proof.
  intros E. unfold already_filled. rewrite (bind_run _ _ h (page_of h id) h) by done. unfold filled in E.
  destruct (page_header (page_of h id)) as [hd|] eqn:Eh; [|done]. cbn [mbind option_bind] in E.
  rewrite (bind_run _ _ h hd h) by done.
  destruct (slot_count hd) as [n|] eqn:En; [|done]. cbn [mbind option_bind] in E.
  rewrite (bind_run _ _ h n h) by done. destruct (slot <? n); [|by injection E as <-].
  destruct (read_tuple (page_of h id) slot) as [r|] eqn:Er; [|done]. cbn [mbind option_bind] in E. injection E as <-.
  by rewrite (bind_run _ _ h r h).
Qed.

Lemma skip_run id lsn b h : should_skip_redo (page_of h id) lsn = Some b -> skip_redo (W := W) id lsn h = Some (Ok b, h).
Proof. intros E. unfold skip_redo. rewrite (bind_run _ _ h (page_of h id) h) by done. unfold hor_panic. by rewrite E. Qed.

Lemma place_run id slot t op q h :
  ready h -> insert_tuple_at_slot (page_of h id) slot t = Some (Ok tt, q) ->
  exists h', place_at_slot id slot t op h = Some (Ok tt, h') /\ upd id q h h'.
Proof.
  intros Hr E. unfold place_at_slot. rewrite (bind_run _ _ h (page_of h id) h) by done.
  rewrite (bind_run _ _ h (Ok tt, q) h) by (unfold hor_panic; by rewrite E). cbn [fst snd].
  destruct (put_page_run (E := ApplyError) id q h Hr) as (h' & E' & Hu). exists h'. split; [|done].
  by rewrite (bind_run _ _ h tt h') by done.
Qed.

Lemma header_run id slot op hdr h :
  header_at (page_of h id) slot = Some hdr -> redo_header (W := W) id slot op h = Some (Ok hdr, h).
Proof.
  intros E. unfold redo_header. rewrite (bind_run _ _ h (page_of h id) h) by done. unfold header_at in E.
  destruct (read_tuple (page_of h id) slot) as [r|] eqn:Er; [|done]. cbn [mbind option_bind] in E.
  rewrite (bind_run _ _ h r h) by done. destruct r as [t|]; [|done]. cbn [ok_of mbind option_bind] in E.
  destruct (zlen t <? _); [done|]. destruct (decode _) as [[x n]|]; [|done]. by injection E as <-.
Qed.

Lemma patch_run id slot hdr op q h :
  ready h -> put_header slot hdr (page_of h id) = Some q ->
  exists h', patch_slot_header id slot hdr op h = Some (Ok tt, h') /\ upd id q h h'.
Proof.
  intros Hr. unfold put_header. destruct (_ || _) eqn:Eb; [done|]. apply orb_false_iff in Eb as [E1 E2]. intros [= <-].
  unfold patch_slot_header. rewrite (bind_run _ _ h (thbytes hdr) h) by (unfold hor_panic; by rewrite encode_collect).
  rewrite (bind_run _ _ h (page_of h id) h) by done.
  rewrite (bind_run _ _ h (item (page_of h id) slot) h)
    by (unfold hlift, item_id_from_page_bytes; by rewrite E1). rewrite E2. by apply put_page_run.
Qed.

Lemma gate_inv lsn f p q :
  gate lsn f p = Some q ->
  exists skip : bool, should_skip_redo p lsn = Some skip /\
    if skip then q = p else exists p1, f p = Some p1 /\ stamp lsn p1 = Some q.
Proof.
  unfold gate. destruct (should_skip_redo p lsn) as [[] |]; cbn [mbind option_bind]; [intros [= <-]; by exists true| |done].
  destruct (f p) as [p1|] eqn:E; [|done]. intros Hs. exists false. split; [done|]. by exists p1.
Qed.

Lemma fill_inv slot t p q :
  fill slot t p = Some q ->
  exists b : bool, filled p slot = Some b /\ if b then q = p else insert_tuple_at_slot p slot t = Some (Ok tt, q).
Proof.
  unfold fill. destruct (filled p slot) as [[] |]; cbn [mbind option_bind]; [intros [= <-]; by exists true| |done].
  destruct (insert_tuple_at_slot p slot t) as [[[[]|] q']|]; cbn [mbind option_bind]; try done. intros [= <-]. by exists false.
Qed.

(** Bind steps of a run in a goal. *)
Ltac run_step := first
  [ erewrite bind_run by eassumption
  | rewrite (bind_run (fetch_for_redo _ _) _ _ tt _) by (by apply fetch_run) ].

(** The end of every redo: stamp the page. *)
Lemma stamp_end id lsn q q' h h1 :
  upd id q h h1 -> stamp lsn q = Some q' ->
  exists h', stamp_replayed_lsn id lsn h1 = Some (Ok tt, h') /\ upd id q' h h'.
Proof.
  intros Hu Hs. pose proof (upd_page _ _ _ _ Hu) as Hp. destruct (stamp_run id lsn q' h1) as (h' & E & Hu');
    [apply Hu|by rewrite Hp|]. exists h'. split; [done|]. by eapply upd_upd.
Qed.

Lemma same_upd id h h1 : same_pages h h1 -> upd id (page_of h id) h h1.
Proof. intros [Hr Hs]. split; [done|]. intros j. rewrite Hs. by case_decide as E; [rewrite E|]. Qed.

Section records.
Context (lsn : Lsn).

Lemma apply_insert_run p q h :
  let id := tid_page (hi_tid p) in
  ready h -> 0 <= pg_block id -> pg_block id + 1 < U32 -> page_redo (RInsert p) lsn id (page_of h id) = Some q ->
  exists h', apply_insert_at_lsn replay_vm p lsn h = Some (Ok tt, h') /\ upd id q h h'.
Proof.
  intros id Hr H0 Hb. unfold page_redo. cbn [touches]. fold id. rewrite bool_decide_true by done. cbn [negb].
  intros (skip & Es & Hg)%gate_inv. unfold apply_insert_at_lsn. fold id.
  destruct (advance_counter_run (pg_relation id) (pg_block id) h Hr H0 Hb) as (h1 & E1 & S1). run_step.
  rewrite (bind_run _ _ h1 tt h1) by (apply fetch_run, S1). destruct S1 as [R1 P1].
  rewrite (bind_run _ _ h1 skip h1) by (apply skip_run; by rewrite P1). destruct skip.
  { exists h1. split; [done|]. subst q. by apply same_upd. }
  destruct Hg as (p1 & (b & Ef & Hf)%fill_inv & Hst).
  rewrite (bind_run _ _ h1 b h1) by (apply filled_run; by rewrite P1). destruct b.
  { subst p1. apply (stamp_end id lsn (page_of h id)); [by apply same_upd|done]. }
  destruct (vm_clear_run (E := ApplyError) replay_vm id h1 R1) as (h2 & E2 & R2 & P2).
  unfold clear_replay_visibility. run_step.
  destruct (place_run id (tid_slot (hi_tid p)) (hi_tuple_bytes p) "heap_insert" p1 h2 R2) as (h3 & E3 & U3);
    [by rewrite P2, P1|]. run_step. apply (stamp_end id lsn p1); [|done].
  eapply upd_after; [|exact U3]. split; [done|]. intros j. by rewrite P2, P1.
Qed.

Lemma apply_delete_run p q h :
  let id := tid_page (hd_tid p) in
  ready h -> 0 <= pg_block id -> pg_block id + 1 < U32 -> page_redo (RDelete p) lsn id (page_of h id) = Some q ->
  exists h', apply_delete_at_lsn replay_vm p lsn h = Some (Ok tt, h') /\ upd id q h h'.
Proof.
  intros id Hr H0 Hb. unfold page_redo. cbn [touches]. fold id. rewrite bool_decide_true by done. cbn [negb].
  intros (skip & Es & Hg)%gate_inv. unfold apply_delete_at_lsn. fold id.
  destruct (advance_counter_run (pg_relation id) (pg_block id) h Hr H0 Hb) as (h1 & E1 & R1 & P1). run_step.
  destruct (remember_run (E := ApplyError) (hd_xmax p) id h1 R1) as (h2 & E2 & R2 & P2). run_step.
  rewrite (bind_run _ _ h2 tt h2) by (by apply fetch_run).
  assert (same_pages h h2) as S2 by (split; [done|]; intros j; by rewrite P2, P1).
  rewrite (bind_run _ _ h2 skip h2) by (apply skip_run; by rewrite P2, P1). destruct skip.
  { exists h2. split; [done|]. subst q. by apply same_upd. }
  destruct Hg as (p1 & Hd & Hst). unfold unless_deleted in Hd.
  destruct (header_at (page_of h id) (tid_slot (hd_tid p))) as [hdr|] eqn:Eh; [|done]. cbn [mbind option_bind] in Hd.
  rewrite (bind_run _ _ h2 hdr h2) by (apply header_run; by rewrite P2, P1).
  destruct (same_delete hdr (hd_xmax p) (hd_cmax p)).
  { injection Hd as <-. apply (stamp_end id lsn (page_of h id)); [by apply same_upd|done]. }
  destruct (vm_clear_run (E := ApplyError) replay_vm id h2 R2) as (h3 & E3 & R3 & P3).
  unfold clear_replay_visibility. run_step.
  destruct (patch_run id (tid_slot (hd_tid p)) (mark_deleted hdr (hd_xmax p) (hd_cmax p)) "heap_delete" p1 h3 R3)
    as (h4 & E4 & U4); [by rewrite P3, P2, P1|]. run_step. apply (stamp_end id lsn p1); [|done].
  eapply upd_after; [|exact U4]. split; [done|]. intros j. by rewrite P3, P2, P1.
Qed.

Lemma apply_full_run p q h :
  let id := fpw_page p in
  ready h -> 0 <= pg_block id -> pg_block id + 1 < U32 -> page_redo (RFull p) lsn id (page_of h id) = Some q ->
  exists h', apply_full_page_write_at_lsn replay_vm p lsn h = Some (Ok tt, h') /\ upd id q h h'.
Proof.
  intros id Hr H0 Hb. unfold page_redo. cbn [touches]. fold id. rewrite bool_decide_true by done. cbn [negb].
  destruct (Z.eqb_spec (zlen (fpw_page_bytes p)) PAGE_SIZE) as [El|]; [|done]. intros Hst.
  unfold apply_full_page_write_at_lsn. fold id.
  destruct (advance_counter_run (pg_relation id) (pg_block id) h Hr H0 Hb) as (h1 & E1 & R1 & P1). run_step.
  rewrite (bind_run _ _ h1 tt h1) by (by apply fetch_run). rewrite El, Z.eqb_refl. cbn [negb].
  destruct (vm_clear_run (E := ApplyError) replay_vm id h1 R1) as (h2 & E2 & R2 & P2).
  unfold clear_replay_visibility. run_step.
  destruct (put_page_run (E := ApplyError) id (fpw_page_bytes p) h2 R2) as (h3 & E3 & U3). run_step.
  apply (stamp_end id lsn (fpw_page_bytes p)); [|done].
  eapply upd_after; [|exact U3]. split; [done|]. intros j. by rewrite P2, P1.
Qed.

(** ** Update *)

Section update.
Context (p : HeapUpdatePayload) (new_header : TupleHeader).
Hypothesis (Hnew : new_version p = Some new_header).
Abbreviation new_id := (tid_page (hu_new_tid p)).
Abbreviation old_id := (tid_page (hu_old_tid p)).

(** The new version is placed unless its slot holds a tuple already. *)
Lemma fill_run on op q h :
  ready h -> fill (tid_slot (hu_new_tid p)) (hu_new_tuple_bytes p) (page_of h new_id) = Some q ->
  exists b h', already_filled (W := W) new_id (tid_slot (hu_new_tid p)) h = Some (Ok b, h) /\
    (if (b : bool) then mret tt
     else (if (on : bool) then clear_replay_visibility replay_vm new_id else mret tt);;
          place_at_slot new_id (tid_slot (hu_new_tid p)) (hu_new_tuple_bytes p) op) h = Some (Ok tt, h') /\
    upd new_id q h h'.
Proof using.
  intros Hr (b & Ef & Hf)%fill_inv. exists b. apply filled_run in Ef. destruct b.
  { exists h. split; [done|]. split; [done|]. subst q. by apply upd_refl. }
  destruct (vm_clear_run (E := ApplyError) (if on then replay_vm else false) new_id h Hr) as (h1 & E1 & R1 & P1).
  destruct (place_run new_id (tid_slot (hu_new_tid p)) (hu_new_tuple_bytes p) op q h1 R1) as (h2 & E2 & U2);
    [by rewrite P1|]. exists h2. split; [done|]. split; [|eapply upd_after; [|exact U2]; done].
  rewrite (bind_run _ _ h tt h1) by (by destruct on). done.
Qed.

(** The old version gets its new header. *)
Lemma restamp_run op q h :
  ready h -> restamp (tid_slot (hu_old_tid p)) (redo_superseded p new_header) (page_of h old_id) = Some q ->
  exists hdr, redo_header (W := W) old_id (tid_slot (hu_old_tid p)) op h = Some (Ok hdr, h) /\
    forall h1, same_pages h h1 -> exists h',
      patch_slot_header old_id (tid_slot (hu_old_tid p)) (redo_superseded p new_header hdr) op h1 = Some (Ok tt, h') /\
      upd old_id q h h'.
Proof using.
  intros Hr. unfold restamp. destruct (header_at (page_of h old_id) (tid_slot (hu_old_tid p))) as [hdr|] eqn:Eh; [|done].
  cbn [mbind option_bind]. intros Hp. exists hdr. split; [by apply header_run|]. intros h1 S1.
  destruct (patch_run old_id (tid_slot (hu_old_tid p)) (redo_superseded p new_header hdr) op q h1) as (h' & E & U);
    [apply S1|by rewrite (proj2 S1)|]. exists h'. split; [done|]. by eapply upd_after.
Qed.

Lemma same_page_run q h :
  old_id = new_id -> ready h -> gate lsn (update_page p new_header new_id) (page_of h new_id) = Some q ->
  exists h', redo_update_same_page replay_vm p new_header lsn h = Some (Ok tt, h') /\ upd new_id q h h'.
Proof using.
  intros Heq Hr (skip & Es & Hg)%gate_inv. unfold redo_update_same_page.
  rewrite (bind_run _ _ h tt h) by (by apply fetch_run). rewrite (bind_run _ _ h skip h) by (by apply skip_run). destruct skip.
  { exists h. split; [done|]. subst q. by apply upd_refl. }
  destruct Hg as (p2 & Hu & Hst). unfold update_page in Hu. rewrite decide_True in Hu by done.
  destruct (fill _ _ _) as [p1|] eqn:Ef; [|done]. cbn [mbind option_bind] in Hu.
  destruct (vm_clear_run (E := ApplyError) replay_vm new_id h Hr) as (h1 & E1 & R1 & P1).
  unfold clear_replay_visibility at 1. run_step.
  destruct (fill_run false "heap_update_hot" p1 h1 R1) as (b & h2 & Eb & E2 & U2); [by rewrite P1|]. run_step.
  rewrite (bind_run _ _ h1 tt h2) by (by destruct b). pose proof (upd_page _ _ _ _ U2) as Hp2.
  destruct (restamp_run "heap_update_hot" p2 h2) as (hdr & E3 & H3); [apply U2|by rewrite Heq, Hp2|].
  rewrite Heq in E3, H3. run_step. destruct (H3 h2) as (h4 & E4 & U4); [split; [apply U2|done]|]. run_step.
  apply (stamp_end new_id lsn p2); [|done]. eapply upd_upd; [|exact U4]. eapply upd_after; [|exact U2]. by split.
Qed.

Lemma new_page_run q h :
  old_id <> new_id -> ready h -> gate lsn (update_page p new_header new_id) (page_of h new_id) = Some q ->
  exists h', redo_update_new replay_vm p lsn h = Some (Ok tt, h') /\ upd new_id q h h'.
Proof using.
  intros Hne Hr (skip & Es & Hg)%gate_inv. unfold redo_update_new.
  rewrite (bind_run _ _ h tt h) by (by apply fetch_run). rewrite (bind_run _ _ h skip h) by (by apply skip_run). destruct skip.
  { exists h. split; [done|]. subst q. by apply upd_refl. }
  destruct Hg as (p1 & Hu & Hst). unfold update_page in Hu. rewrite decide_False, decide_True in Hu by done.
  destruct (fill_run true "heap_update_new" p1 h Hr Hu) as (b & h2 & Eb & E2 & U2). run_step.
  rewrite (bind_run _ _ h tt h2) by (by destruct b). by apply (stamp_end new_id lsn p1).
Qed.

Lemma old_page_run q h :
  old_id <> new_id -> ready h -> gate lsn (update_page p new_header old_id) (page_of h old_id) = Some q ->
  exists h', redo_update_old replay_vm p new_header lsn h = Some (Ok tt, h') /\ upd old_id q h h'.
Proof using.
  intros Hne Hr (skip & Es & Hg)%gate_inv. unfold redo_update_old.
  rewrite (bind_run _ _ h tt h) by (by apply fetch_run). rewrite (bind_run _ _ h skip h) by (by apply skip_run). destruct skip.
  { exists h. split; [done|]. subst q. by apply upd_refl. }
  destruct Hg as (p1 & Hu & Hst). unfold update_page in Hu. rewrite !decide_False in Hu by done.
  destruct (restamp_run "heap_update_old" p1 h Hr Hu) as (hdr & E3 & H3). run_step.
  destruct (vm_clear_run (E := ApplyError) replay_vm old_id h Hr) as (h1 & E1 & S1).
  unfold clear_replay_visibility. run_step. destruct (H3 h1 S1) as (h4 & E4 & U4). run_step.
  by apply (stamp_end old_id lsn p1).
Qed.

Lemma apply_update_run (V : PageId -> Page) h :
  ready h -> (forall id, touches (RUpdate p) id = true -> 0 <= pg_block id /\ pg_block id + 1 < U32) ->
  (forall id, page_redo (RUpdate p) lsn id (page_of h id) = Some (V id)) ->
  exists h', apply_update_at_lsn replay_vm p lsn h = Some (Ok tt, h') /\ ready h' /\ forall id, page_of h' id = V id.
Proof using Hnew.
  intros Hr Hb HV.
  assert (forall id, touches (RUpdate p) id = true -> gate lsn (update_page p new_header id) (page_of h id) = Some (V id)) as Hg.
  { intros id Ht. specialize (HV id). unfold page_redo in HV. rewrite Ht, Hnew in HV. done. }
  assert (forall id, touches (RUpdate p) id = false -> V id = page_of h id) as Ho.
  { intros id Ht. specialize (HV id). rewrite page_redo_other in HV by done. by injection HV. }
  assert (touches (RUpdate p) new_id = true) as Tn by (apply bool_decide_true; by left).
  assert (touches (RUpdate p) old_id = true) as To by (apply bool_decide_true; by right).
  unfold apply_update_at_lsn. unfold new_version in Hnew. destruct (zlen _ <? _) eqn:El; [done|]. clear El.
  destruct (decode _) as [[nh n]|] eqn:Ed; [|done]. cbn in Hnew. injection Hnew as ->.
  destruct (remember_run (E := ApplyError) (xmin new_header) old_id h Hr) as (h1 & E1 & R1 & P1). run_step.
  destruct (advance_counter_run (pg_relation new_id) (pg_block new_id) h1 R1) as (h2 & E2 & R2 & P2); [by apply Hb..|]. run_step.
  destruct (decide (old_id = new_id)) as [Heq|Hne].
  - rewrite (bind_run _ _ h2 tt h2) by done.
    destruct (same_page_run (V new_id) h2 Heq R2) as (h3 & E3 & R3 & P3); [rewrite P2, P1; by apply Hg|].
    exists h3. split; [done|]. split; [done|]. intros id. rewrite P3, P2, P1. case_decide as Hid; [by rewrite Hid|].
    symmetry. apply Ho. apply bool_decide_eq_false. naive_solver congruence.
  - destruct (advance_counter_run (pg_relation old_id) (pg_block old_id) h2 R2) as (h3 & E3 & R3 & P3); [by apply Hb..|]. run_step.
    destruct (new_page_run (V new_id) h3 Hne R3) as (h4 & E4 & R4 & P4); [rewrite P3, P2, P1; by apply Hg|]. run_step.
    destruct (old_page_run (V old_id) h4 Hne R4) as (h5 & E5 & R5 & P5);
      [rewrite P4, decide_False, P3, P2, P1 by done; by apply Hg|].
    exists h5. split; [done|]. split; [done|]. intros id. rewrite P5, P4, P3, P2, P1.
    case_decide as Hid; [by rewrite Hid|]. case_decide as Hid'; [by rewrite Hid'|].
    symmetry. apply Ho. apply bool_decide_eq_false. naive_solver.
Qed.
End update.
End records.

(** ** Dispatch and replay *)

Definition blocks_ok (r : heap_record) : Prop :=
  forall id, touches r id = true -> 0 <= pg_block id /\ pg_block id + 1 < U32.

Lemma upd_versions (r : heap_record) lsn id0 (V : PageId -> Page) h h' :
  (forall id, touches r id = true -> id = id0) -> (forall id, page_redo r lsn id (page_of h id) = Some (V id)) ->
  upd id0 (V id0) h h' -> ready h' /\ forall id, page_of h' id = V id.
Proof.
  intros Ht HV [Hr Hu]. split; [done|]. intros id. rewrite Hu. case_decide as E; [by rewrite E|].
  specialize (HV id). rewrite page_redo_other in HV by (destruct (touches r id) eqn:E2; [by apply Ht in E2|done]).
  by injection HV.
Qed.

Lemma dispatch_run r hr lsn (V : PageId -> Page) h :
  ready h -> decode_heap r = Some hr -> blocks_ok hr ->
  (forall id, page_redo hr lsn id (page_of h id) = Some (V id)) ->
  exists h', dispatch_record_at_lsn (heap_target replay_vm other) r lsn h = Some (Ok tt, h') /\
    ready h' /\ forall id, page_of h' id = V id.
Proof.
  intros Hr Hd Hb HV. unfold dispatch_record_at_lsn, decode_heap in *.
  destruct (record_type (rec_header r)); try done.
  - destruct (HeapInsertPayload_decode _) as [p|]; [|done]. injection Hd as <-.
    rewrite (bind_run _ _ h p h) by done. cbn [t_insert_at_lsn heap_target].
    destruct (Hb (tid_page (hi_tid p))) as [B0 B1]; [by apply bool_decide_true|].
    destruct (apply_insert_run lsn p (V (tid_page (hi_tid p))) h Hr B0 B1) as (h' & E & U); [done|].
    exists h'. split; [done|]. eapply (upd_versions (RInsert p)); [|done|exact U]. by intros id ?%bool_decide_eq_true.
  - destruct (HeapUpdatePayload_decode _) as [p|]; [|done]. injection Hd as <-.
    rewrite (bind_run _ _ h p h) by done. cbn [t_update_at_lsn heap_target].
    assert (exists nh, new_version p = Some nh) as [nh Hnh].
    { specialize (HV (tid_page (hu_new_tid p))). unfold page_redo in HV. cbn [touches] in HV.
      rewrite bool_decide_true in HV by (by left). cbn [negb] in HV. destruct (new_version p); [eauto|done]. }
    by apply (apply_update_run lsn p nh Hnh V h).
  - destruct (HeapDeletePayload_decode _) as [p|]; [|done]. injection Hd as <-.
    rewrite (bind_run _ _ h p h) by done. cbn [t_delete_at_lsn heap_target].
    destruct (Hb (tid_page (hd_tid p))) as [B0 B1]; [by apply bool_decide_true|].
    destruct (apply_delete_run lsn p (V (tid_page (hd_tid p))) h Hr B0 B1) as (h' & E & U); [done|].
    exists h'. split; [done|]. eapply (upd_versions (RDelete p)); [|done|exact U]. by intros id ?%bool_decide_eq_true.
  - destruct (FullPageWritePayload_decode _) as [p|]; [|done]. injection Hd as <-.
    rewrite (bind_run _ _ h p h) by done. cbn [t_full_page_write_at_lsn heap_target].
    destruct (Hb (fpw_page p)) as [B0 B1]; [by apply bool_decide_true|].
    destruct (apply_full_run lsn p (V (fpw_page p)) h Hr B0 B1) as (h' & E & U); [done|].
    exists h'. split; [done|]. eapply (upd_versions (RFull p)); [|done|exact U]. by intros id ?%bool_decide_eq_true.
Qed.

(** A log of heap records, decoded. *)
Definition decodes (x : Lsn * WalRecord) (y : Lsn * heap_record) : Prop :=
  x.1 = y.1 /\ decode_heap x.2 = Some y.2 /\ blocks_ok y.2.

Lemma replay_run log rs (V : PageId -> Page) h :
  ready h -> Forall2 decodes log rs -> (forall id, page_redos rs id (page_of h id) = Some (V id)) ->
  exists h', replay (heap_target replay_vm other) log h = Some (Ok tt, h') /\ ready h' /\ forall id, page_of h' id = V id.
Proof.
  intros Hr Hl. revert h Hr V. induction Hl as [|[l r] [l' hr] log rs (El & Hd & Hb) _ IH]; intros h Hr V HV.
  { exists h. split; [done|]. split; [done|]. intros id. specialize (HV id). cbn in HV. by injection HV. }
  cbn [fst snd] in *. subst l'. cbn [page_redos] in HV.
  set (V1 := fun id => default [] (page_redo hr l id (page_of h id))).
  assert (forall id, page_redo hr l id (page_of h id) = Some (V1 id)) as H1.
  { intros id. specialize (HV id). unfold V1. by destruct (page_redo hr l id (page_of h id)). }
  destruct (dispatch_run r hr l V1 h Hr Hd Hb H1) as (h1 & E1 & R1 & P1). cbn [replay]. run_step.
  apply IH; [done|]. intros id. rewrite P1. specialize (HV id). by rewrite H1 in HV.
Qed.
End run.
