(* ===== verification/HeapTrace.v ===== *)
(** * Logged changes of the heap pages

    [changes] relates the pages before and after a piece of work and the part of
    the log written meanwhile: replaying that part, record by record, leads from
    the former to the latter. Steps compose; a full-page image and a logged
    change of one or two pages are steps. *)

From S2P Require Import Prelude CoreIds TupleHeader WalRecord WalPayload WalPayloadHeap WalSink Bytes Page PageSpec Heap HeapRedo HeapPage HeapReplay.

Abbreviation Log := (list (Lsn * WalRecord)) (only parsing).
Abbreviation Pages := (PageId -> Page) (only parsing).

Definition last_of (floor : Lsn) (l : list Lsn) : Lsn := default floor (last l).

Lemma last_of_cons floor l rest : last_of floor (l :: rest) = last_of l rest.
Proof. unfold last_of. rewrite last_cons. by destruct (last rest). Qed.

(** The LSN of the last record of a log that starts above [floor]. *)
Definition top (floor : Lsn) (L : Log) : Lsn := last_of floor (L.*1).

Lemma top_snoc floor L lsn r : top floor (L ++ [(lsn, r)]) = lsn.
Proof. unfold top, last_of. rewrite fmap_app. cbn [fmap list_fmap fst]. by rewrite last_snoc. Qed.

Lemma top_app floor L K : top floor (L ++ K) = top (top floor L) K.
Proof.
  destruct K as [|x K _] using rev_ind; [by rewrite app_nil_r|]. destruct x as [l r].
  by rewrite app_assoc, !top_snoc.
Qed.

Lemma top_cons floor lsn r K : top floor ((lsn, r) :: K) = top lsn K.
Proof. exact (top_app floor [(lsn, r)] K). Qed.

(** One page along a log, with what each record leaves. *)
Inductive traced (id : PageId) : list (Lsn * heap_record) -> Page -> Page -> Prop :=
| traced_nil p : traced id [] p p
| traced_cons lsn r rs p q p' :
    page_redo r lsn id p = Some q ->
    (touches r id = true -> exists h, hpage q h /\ hd_lsn h = lsn) ->
    traced id rs q p' ->
    traced id ((lsn, r) :: rs) p p'.

Lemma traced_app id rs1 rs2 p q p' : traced id rs1 p q -> traced id rs2 q p' -> traced id (rs1 ++ rs2) p p'.
Proof. induction 1; [done|]. intros H2. cbn [app]. econstructor; eauto. Qed.

Lemma traced_redos id rs p p' : traced id rs p p' -> page_redos rs id p = Some p'.
Proof. induction 1 as [|? ? ? ? ? ? E _ _ IH]; [done|]. cbn [page_redos]. by rewrite E. Qed.

(** What a log leaves of the page [p]: for every record a page of the heap. *)
Lemma traced_page id floor rs p p' h :
  traced id rs p p' -> increasing floor rs -> hpage p h -> hd_lsn h <= floor ->
  exists h', hpage p' h' /\ hd_lsn h <= hd_lsn h' <= last_of floor (rs.*1).
Proof.
  intros H. revert floor h. induction H as [p|lsn r rs p q p' E Ht _ IH]; intros floor h Hinc Hp Hle.
  { exists h. unfold last_of. cbn. split; [done|lia]. }
  cbn [increasing] in Hinc. destruct Hinc as [Hl Hinc].
  assert (exists hq, hpage q hq /\ hd_lsn h <= hd_lsn hq <= lsn) as (hq & Hq & Hql).
  { destruct (touches r id) eqn:Et.
    - destruct (Ht eq_refl) as (hq & Hq & Eq). exists hq. split; [done|lia].
    - rewrite page_redo_other in E by done. injection E as <-. exists h. split; [done|lia]. }
  destruct (IH lsn hq Hinc Hq ltac:(lia)) as (h' & Hp' & Hl'). exists h'. split; [done|].
  assert (last_of floor (((lsn, r) :: rs).*1) = last_of lsn (rs.*1)) as ->; [|lia].
  cbn [fmap list_fmap fst]. apply last_of_cons.
Qed.

(** The page either has been imaged since the checkpoint, or its first change
    in the log is its image. *)
Definition covered (ckpt : Lsn) (p : Page) : Prop := ckpt = 0 \/ exists h, page_ok p h /\ ckpt <= hd_lsn h.

Definition untouched (rs : list (Lsn * heap_record)) (id : PageId) : Prop := Forall (fun x => touches x.2 id = false) rs.

Definition imaged (ckpt : Lsn) (rs : list (Lsn * heap_record)) (id : PageId) (p : Page) : Prop :=
  untouched rs id \/ image_first rs id \/ covered ckpt p.

Lemma untouched_redos rs id p : untouched rs id -> page_redos rs id p = Some p.
Proof. induction 1 as [|[l r] rs Hr _ IH]; [done|]. cbn [page_redos]. by rewrite page_redo_other. Qed.

Lemma image_first_app rs1 rs2 id : untouched rs1 id -> image_first rs2 id -> image_first (rs1 ++ rs2) id.
Proof.
  intros Hu (k & lsn & r & Hk & Ht & Hf & Hj). exists (length rs1 + k)%nat, lsn, r.
  split; [rewrite lookup_app_r by lia; by replace (length rs1 + k - length rs1)%nat with k by lia|].
  split; [done|]. split; [done|]. intros j l s Hlt Hs. destruct (decide (j < length rs1)%nat).
  - rewrite lookup_app_l in Hs by done. by apply (proj1 (Forall_lookup _ _) Hu j (l, s)).
  - rewrite lookup_app_r in Hs by lia. eapply (Hj (j - length rs1)%nat); [lia|done].
Qed.

Lemma image_first_prefix rs1 rs2 id : image_first rs1 id -> image_first (rs1 ++ rs2) id.
Proof.
  intros (k & lsn & r & Hk & Ht & Hf & Hj). exists k, lsn, r. pose proof (lookup_lt_Some _ _ _ Hk).
  split; [by rewrite lookup_app_l|]. split; [done|]. split; [done|]. intros j l s Hlt Hs.
  rewrite lookup_app_l in Hs by lia. by eapply Hj.
Qed.

Section changes.
Context (floor ckpt : Lsn).

Definition changes (V : Pages) (L : Log) (V' : Pages) (L' : Log) : Prop :=
  exists raw rs, L' = L ++ raw /\ Forall2 decodes raw rs /\ increasing (top floor L) rs /\
    forall id, traced id rs (V id) (V' id) /\ imaged ckpt rs id (V id).

Lemma changes_refl V V' L : (forall id, V' id = V id) -> changes V L V' L.
Proof.
  intros E. exists [], []. split; [by rewrite app_nil_r|]. split; [done|]. split; [done|]. intros id. rewrite E.
  split; [constructor|]. left. constructor.
Qed.

Lemma increasing_app f rs1 rs2 : increasing f rs1 -> increasing (last_of f (rs1.*1)) rs2 -> increasing f (rs1 ++ rs2).
Proof.
  revert f. induction rs1 as [|[l r] rs1 IH]; intros f; [done|]. cbn [increasing app fmap list_fmap fst]. intros [Hl H1] H2.
  split; [done|]. apply IH; [done|]. by rewrite last_of_cons in H2.
Qed.

Lemma decodes_fst raw rs : Forall2 decodes raw rs -> raw.*1 = rs.*1.
Proof. induction 1 as [|[l r] [l' hr] raw rs (E & _) _ IH]; [done|]. cbn in *. by rewrite E, IH. Qed.

Lemma changes_trans V L V1 L1 V2 L2 : changes V L V1 L1 -> changes V1 L1 V2 L2 -> changes V L V2 L2.
Proof.
  intros (raw1 & rs1 & -> & D1 & I1 & T1) (raw2 & rs2 & -> & D2 & I2 & T2). exists (raw1 ++ raw2), (rs1 ++ rs2).
  split; [by rewrite app_assoc|]. split; [by apply Forall2_app|]. split.
  { apply increasing_app; [done|]. by rewrite top_app in I2; unfold top at 1 in I2; rewrite (decodes_fst _ _ D1) in I2. }
  intros id. destruct (T1 id) as [Ta Ia], (T2 id) as [Tb Ib]. split; [by eapply traced_app|].
  destruct Ia as [Hu|[Hf|Hc]].
  - apply traced_redos in Ta. rewrite untouched_redos in Ta by done. injection Ta as Ea. rewrite <- Ea in Ib.
    destruct Ib as [Hu2|[Hf2|Hc2]]; [left; by apply Forall_app|right; left; by apply image_first_app|by right; right].
  - right. left. by apply image_first_prefix.
  - by right; right.
Qed.

(** Every page is a heap page with an LSN of the log. *)
Definition pages_ok (V : Pages) (L : Log) : Prop :=
  forall id, exists h, hpage (V id) h /\ hd_lsn h <= top floor L.

Lemma changes_ok V L V' L' : pages_ok V L -> changes V L V' L' -> pages_ok V' L'.
Proof.
  intros Hok (raw & rs & -> & D & I & T) id. destruct (Hok id) as (h & Hp & Hl).
  destruct (traced_page id (top floor L) rs (V id) (V' id) h (proj1 (T id)) I Hp Hl) as (h' & Hp' & _ & Hl').
  exists h'. split; [done|]. rewrite top_app. unfold top at 1. by rewrite (decodes_fst _ _ D).
Qed.

(** One record. *)
Lemma changes_record V L V' lsn r hr :
  decode_heap r = Some hr -> blocks_ok hr -> top floor L < lsn < U64 ->
  (forall id, page_redo hr lsn id (V id) = Some (V' id)) ->
  (forall id, touches hr id = true -> exists h, hpage (V' id) h /\ hd_lsn h = lsn) ->
  (forall id, touches hr id = true -> is_full hr = true \/ covered ckpt (V id)) ->
  changes V L V' (L ++ [(lsn, r)]).
Proof.
  intros Hd Hb Hl HV Ht Hc. exists [(lsn, r)], [(lsn, hr)]. split; [done|]. split; [constructor; [split; [done|by split]|constructor]|].
  split; [done|]. intros id. split; [econstructor; [apply HV|apply Ht|constructor]|].
  destruct (touches hr id) eqn:E; [|left; by repeat constructor].
  destruct (Hc id E) as [Hf|Hcov]; [|by right; right]. right. left. exists 0%nat, lsn, hr.
  do 3 (split; [done|]). intros; lia.
Qed.
End changes.

(** ** The sink *)

(** What the heap relies on. [log w L]: the sink in state [w] has accepted the
    records [L], in order. An accepted record is at the end of the log, with an
    LSN above the ones before; a rejected one is not in it. *)
Class LogSink {W} (sink : WalSink W) (log : W -> Log -> Prop) (floor : Lsn) : Prop := {
  ls_append w L r lsn w' : log w L -> 0 < total_length (rec_header r) -> sink_append sink w r = (Ok lsn, w') ->
    log w' (L ++ [(lsn, r)]) /\ top floor L < lsn < U64;
  ls_reject w L r e w' : log w L -> sink_append sink w r = (Err e, w') -> log w' L;
}.
