(* ===== verification/HeapLogic.v ===== *)
(** * A program logic for the heap operations

    Weakest preconditions of the heap monad: [N] stands for the outcome of a
    panic. The specifications of the primitives speak of the pages, the log and
    the poison flag; the remaining bookkeeping is framed away. *)

From S2P Require Import Prelude CoreIds TupleHeader WalRecord WalPayload WalPayloadHeap WalSink Bytes Page PageSpec HeapMaps Heap HeapRedo HeapPage HeapReplay HeapTrace.

Create HintDb keeps.

Section wp.
Context {W : Type} (N : Prop).

Definition wp {E A} (m : HM W E A) (Q : result A E -> Heap W -> Prop) (h : Heap W) : Prop :=
  match m h with None => N | Some (r, h') => Q r h' end.

Lemma hwp_bind {E A B} (m : HM W E A) (k : A -> HM W E B) Q h :
  wp m (fun r h' => match r with Ok a => wp (k a) Q h' | Err e => Q (Err e) h' end) h -> wp (m ≫= k) Q h.
Proof. unfold wp, mbind, HM_bind. by destruct (m h) as [[[a|e] h']|]. Qed.

Lemma hwp_ret {E A} (a : A) (Q : result A E -> Heap W -> Prop) h : Q (Ok a) h -> wp (mret a) Q h.
Proof. done. Qed.

Lemma hwp_mono {E A} (m : HM W E A) (Q Q' : result A E -> Heap W -> Prop) h :
  wp m Q h -> (forall r h', Q r h' -> Q' r h') -> wp m Q' h.
Proof. unfold wp. destruct (m h) as [[r h']|]; eauto. Qed.

Lemma wp_try {E A} (m : HM W E A) (Q : result (result A E) E -> Heap W -> Prop) h :
  wp m (fun r h' => Q (Ok r) h') h -> wp (try_ m) Q h.
Proof. unfold wp, try_. by destruct (m h) as [[r h']|]. Qed.

Lemma hwp_lift {E A} (r : result A E) (Q : result A E -> Heap W -> Prop) h : Q r h -> wp (hlift r) Q h.
Proof. done. Qed.

Lemma hwp_throw {E A} (e : E) (Q : result A E -> Heap W -> Prop) h : Q (Err e) h -> wp (hthrow e) Q h.
Proof. done. Qed.

Lemma wp_some {E A} (o : option A) a (Q : result A E -> Heap W -> Prop) h : o = Some a -> Q (Ok a) h -> wp (hor_panic o) Q h.
Proof. by intros ->. Qed.

Lemma wp_gets {E A} (f : Heap W -> A) (Q : result A E -> Heap W -> Prop) h : Q (Ok (f h)) h -> wp (gets f) Q h.
Proof. done. Qed.

Lemma wp_modify {E} f (Q : result unit E -> Heap W -> Prop) h : Q (Ok tt) (f h) -> wp (modify f) Q h.
Proof. done. Qed.
End wp.

(** Computations that leave the block counters alone. *)
Section keeps.
Context {W : Type}.

Definition keeps {E A} (m : HM W E A) : Prop := forall h r h', m h = Some (r, h') -> h_counters h' = h_counters h.

Lemma keeps_bind {E A B} (m : HM W E A) (k : A -> HM W E B) : keeps m -> (forall a, keeps (k a)) -> keeps (m ≫= k).
Proof.
  intros Hm Hk h r h'. unfold mbind, HM_bind. destruct (m h) as [[[a|e] h1]|] eqn:E1; [|intros [= <- <-]; by eapply Hm|done].
  intros E2. rewrite (Hk a _ _ _ E2). by eapply Hm.
Qed.

Lemma keeps_same {E A} (m : HM W E A) : (forall h r h', m h = Some (r, h') -> h' = h) -> keeps m.
Proof. intros H h r h' E1. by rewrite (H _ _ _ E1). Qed.

Lemma keeps_ret {E A} (a : A) : keeps (mret a : HM W E A).
Proof. apply keeps_same. by intros h r h' [= <- <-]. Qed.

Lemma keeps_throw {E A} (e : E) : keeps (hthrow e : HM W E A).
Proof. apply keeps_same. by intros h r h' [= <- <-]. Qed.

Lemma keeps_panic {E A} : keeps (hpanic : HM W E A).
Proof. done. Qed.

Lemma keeps_lift {E A} (r : result A E) : keeps (hlift r : HM W E A).
Proof. apply keeps_same. by intros h r' h' [= <- <-]. Qed.

Lemma keeps_or_panic {E A} (o : option A) : keeps (hor_panic o : HM W E A).
Proof. apply keeps_same. intros h r h'. unfold hor_panic. destruct o; [by intros [= <- <-]|done]. Qed.

Lemma keeps_gets {E A} (f : Heap W -> A) : keeps (gets f : HM W E A).
Proof. apply keeps_same. by intros h r h' [= <- <-]. Qed.

Lemma keeps_modify {E} (f : Heap W -> Heap W) : (forall h, h_counters (f h) = h_counters h) -> keeps (modify f : HM W E unit).
Proof. intros Hf h r h' [= <- <-]. apply Hf. Qed.

Lemma keeps_try {E A} (m : HM W E A) : keeps m -> keeps (try_ m).
Proof. intros Hm h r h'. unfold try_. destruct (m h) as [[r1 h1]|] eqn:E1; [|done]. intros [= <- <-]. by eapply Hm. Qed.

Lemma keeps_get_page id : keeps (get_page (W := W) id).
Proof. intros h r h'. unfold get_page. repeat case_match; intros [= <- <-]; done. Qed.

Lemma keeps_append sink record : keeps (append (W := W) sink record).
Proof. intros h r h'. unfold append. repeat case_match; intros [= <- <-]; done. Qed.

Lemma wp_keeps N {E A} (m : HM W E A) (Q : result A E -> Heap W -> Prop) h :
  keeps m -> wp N m (fun r h' => h_counters h' = h_counters h -> Q r h') h -> wp N m Q h.
Proof. intros Hk. unfold wp. destruct (m h) as [[r h']|] eqn:E1; [|done]. intros HQ. apply HQ. by eapply Hk. Qed.
End keeps.

#[export] Hint Resolve keeps_ret keeps_throw keeps_panic keeps_lift keeps_or_panic keeps_gets keeps_get_page keeps_append : keeps.

Ltac keeps_step :=
  repeat first
    [ progress intros
    | apply keeps_bind
    | apply keeps_try
    | (apply keeps_modify; done)
    | solve [auto with keeps]
    | case_match ].

(** Peel the next step of a computation. *)
Ltac wp_step :=
  cbv beta iota;
  lazymatch goal with
  | |- wp _ (mbind _ _) _ _ => apply hwp_bind
  | |- wp _ (mret _) _ _ => apply hwp_ret
  | |- wp _ (gets _) _ _ => apply wp_gets
  | |- wp _ (last_lsn _ _) _ _ => apply wp_gets
  | |- wp _ (hlift _) _ _ => apply hwp_lift
  | |- wp _ (hthrow _) _ _ => apply hwp_throw
  | |- wp _ (try_ _) _ _ => apply wp_try
  | |- wp _ (modify _) _ _ => apply wp_modify
  end.

Section heap.
Context {W : Type} (crc : Z -> list Z -> Z) (sink : WalSink W) (log : W -> Log -> Prop) (floor : Lsn).
Context `{!LogSink sink log floor} (N : Prop) (ckpt : Lsn).

Abbreviation wp := (wp (W := W) N).

(** The bookkeeping of blocks: counters at their width, cursors and free-space
    vectors within the blocks there can be. *)
Definition fsm_ok (fsm : FreeSpaceMap) : Prop := forall rel v, fsm !! rel = Some v -> Z.of_nat (length v) < U32.
Definition books (h : Heap W) : Prop :=
  (forall rel, in_width U32 (counter h rel)) /\ (forall rel, 0 <= default 0 (h_cursors h !! rel)) /\ fsm_ok (h_fsm h).

(** The state the specifications speak of. *)
Definition state (V : Pages) (L : Log) (h : Heap W) : Prop :=
  (forall id, page_of h id = V id) /\ log (h_sink h) L /\ h_poisoned h = false /\ h_checkpoint_lsn h = ckpt /\ books h.

Definition upd_page (id : PageId) (q : Page) (V : Pages) : Pages := fun j => if decide (j = id) then q else V j.

Lemma upd_same id q V : upd_page id q V id = q.
Proof. unfold upd_page. by rewrite decide_True. Qed.

Lemma upd_other id q V j : j <> id -> upd_page id q V j = V j.
Proof. intros. unfold upd_page. by rewrite decide_False. Qed.

Lemma state_ext V V' L h : state V L h -> (forall id, V id = V' id) -> state V' L h.
Proof. intros [Hp Hr] E. split; [|done]. intros id. by rewrite Hp. Qed.

Lemma wp_guard {E} id (Q : result Page E -> Heap W -> Prop) V L h :
  state V L h -> Q (Ok (V id)) h -> wp (guard_page id) Q h.
Proof. intros [Hp _] HQ. apply wp_gets. by rewrite Hp. Qed.

Lemma hwp_put {E} id q (Q : result unit E -> Heap W -> Prop) V L h :
  state V L h -> (forall h', state (upd_page id q V) L h' -> Q (Ok tt) h') -> wp (put_page id q) Q h.
Proof.
  intros [Hp Hr] HQ. apply wp_modify. apply HQ. split; [|done]. intros j. unfold page_of, upd_page. cbn.
  case_decide as E0; [by rewrite E0, lookup_insert_eq|]. rewrite lookup_insert_ne by done. apply Hp.
Qed.

Lemma hwp_get_page id (Q : result unit HeapError -> Heap W -> Prop) V L h :
  state V L h -> (forall h', state V L h' -> Q (Ok tt) h' /\ Q (Err HBufferPool) h') -> wp (get_page id) Q h.
Proof.
  intros Hs HQ. unfold HeapLogic.wp, get_page. destruct Hs as (Hp & Hl & Hpo & Hc & Hb). rewrite Hpo.
  assert (forall io, state V L (with_io h io)) as Hio by (intros io; by split_and!).
  destruct (h_io h) as [|[] io]; apply HQ; [by split_and!|apply Hio..].
Qed.

Lemma wp_vm_clear {E} on id (Q : result unit E -> Heap W -> Prop) V L h :
  state V L h -> (forall h', state V L h' -> Q (Ok tt) h') -> wp (vm_clear_page on id) Q h.
Proof. intros Hs HQ. destruct on; apply HQ; exact Hs. Qed.

(** A change of the bookkeeping. *)
Lemma wp_book {E} f (Q : result unit E -> Heap W -> Prop) V L h :
  state V L h -> (h_pages (f h) = h_pages h /\ h_sink (f h) = h_sink h /\ h_poisoned (f h) = h_poisoned h /\
    h_checkpoint_lsn (f h) = h_checkpoint_lsn h) -> (books h -> books (f h)) ->
  (forall h', state V L h' -> Q (Ok tt) h') -> wp (modify f) Q h.
Proof.
  intros (Hp & Hl & Hpo & Hc & Hb) (E1 & E2 & E3 & E4) Hf HQ. apply wp_modify, HQ.
  split; [|rewrite E2, E3, E4; split_and!; [done..|by apply Hf]]. intros id. unfold page_of. rewrite E1. apply Hp.
Qed.

Lemma wp_remember {E} xid id (Q : result unit E -> Heap W -> Prop) V L h :
  state V L h -> (forall h', state V L h' -> Q (Ok tt) h') -> wp (remember_rollback_stamp_page xid id) Q h.
Proof. intros Hs HQ. unfold remember_rollback_stamp_page. destruct (xid =? 0); [by apply hwp_ret, HQ|]. by eapply wp_book. Qed.

Lemma wp_bump {E} rel xid (Q : result unit E -> Heap W -> Prop) V L h :
  state V L h -> (forall h', state V L h' -> Q (Ok tt) h') -> wp (bump_version rel xid) Q h.
Proof. intros Hs HQ. by eapply wp_book. Qed.

Lemma wp_invalidate {E} id (Q : result unit E -> Heap W -> Prop) V L h :
  state V L h -> (forall h', state V L h' -> Q (Ok tt) h') -> wp (invalidate_int32_pair_payload_stats_page id) Q h.
Proof. intros Hs HQ. by eapply wp_book. Qed.

Lemma wp_set_counter {E} rel n (Q : result unit E -> Heap W -> Prop) V L h :
  state V L h -> in_width U32 n -> (forall h', state V L h' -> counter h' rel = n -> Q (Ok tt) h') -> wp (set_counter rel n) Q h.
Proof.
  intros Hs Hn HQ. apply wp_modify, HQ; [|by unfold counter; cbn; rewrite lookup_insert_eq].
  destruct Hs as (Hp & Hl & Hpo & Hc & Hb & Hb'). split_and!; [done..|]. split; [|done]. intros rel'.
  unfold counter. cbn. destruct (decide (rel' = rel)) as [->|]; [by rewrite lookup_insert_eq|]. rewrite lookup_insert_ne by done. apply Hb.
Qed.

Lemma wp_set_cursor {E} rel n (Q : result unit E -> Heap W -> Prop) V L h :
  state V L h -> 0 <= n -> (forall h', state V L h' -> Q (Ok tt) h') -> wp (set_cursor rel n) Q h.
Proof.
  intros Hs Hn HQ. eapply wp_book; [done|done| |done]. intros (Hb & Hc & Hf). split_and!; [done| |done]. intros rel'. cbn.
  destruct (decide (rel' = rel)) as [->|]; [by rewrite lookup_insert_eq|]. rewrite lookup_insert_ne by done. apply Hc.
Qed.

Lemma length_grow idx v : length (grow_to idx v) = Nat.max (length v) (S idx).
Proof using. unfold grow_to. destruct (Nat.leb_spec (length v) idx); [rewrite length_app, length_replicate|]; lia. Qed.

Lemma wp_record_free {E} rel block free (Q : result unit E -> Heap W -> Prop) V L h :
  state V L h -> 0 <= block -> block + 1 < U32 -> (forall h', state V L h' -> Q (Ok tt) h') ->
  wp (modify (fun h => with_fsm h (record_free_space rel block free (h_fsm h)))) Q h.
Proof.
  intros Hs H0 Hb HQ. eapply wp_book; [done|done| |done]. intros (Hc & Hd & Hf). split_and!; [done|done|]. intros rel' v. cbn.
  unfold record_free_space. intros [[<- <-]|[_ Hv]]%lookup_insert_Some; [|by eapply Hf].
  rewrite length_insert, length_grow. destruct (h_fsm h !! rel) as [w|] eqn:Ew; cbn; [specialize (Hf _ _ Ew)|]; unfold id; lia.
Qed.

Lemma wp_invalidate_block {E} rel block (Q : result unit E -> Heap W -> Prop) V L h :
  state V L h -> (forall h', state V L h' -> Q (Ok tt) h') ->
  wp (modify (fun h => with_fsm h (invalidate_block rel block (h_fsm h)))) Q h.
Proof.
  intros Hs HQ. eapply wp_book; [done|done| |done]. intros (Hc & Hd & Hf). split_and!; [done|done|]. intros rel' v. cbn.
  unfold invalidate_block. destruct (h_fsm h !! rel) as [w|] eqn:Ew; [|apply Hf].
  intros [[<- <-]|[_ Hv]]%lookup_insert_Some; [|by eapply Hf]. rewrite length_insert. by eapply Hf.
Qed.

Lemma hint_block V L h rel need b :
  state V L h -> find_block_with_at_least rel need (h_fsm h) = Some b -> 0 <= b /\ b + 1 < U32.
Proof.
  intros (_ & _ & _ & _ & _ & _ & Hf). unfold find_block_with_at_least.
  destruct (h_fsm h !! rel) as [v|] eqn:Ev; [|done]. cbn [mbind option_bind].
  destruct (position _ v) as [i|] eqn:Ei; [|done]. cbn [mbind option_bind]. destruct (_ <? _); [|done]. intros [= <-].
  apply position_Some in Ei as [(c & Hi & _) _]. apply lookup_lt_Some in Hi. specialize (Hf _ _ Ev). lia.
Qed.

Lemma wp_append record (Q : result Lsn HeapError -> Heap W -> Prop) V L h :
  state V L h -> 0 < total_length (rec_header record) ->
  (forall lsn h', top floor L < lsn < U64 -> state V (L ++ [(lsn, record)]) h' -> Q (Ok lsn) h') ->
  (forall h', state V L h' -> Q (Err HWal) h') -> wp (append sink record) Q h.
Proof using LogSink0.
  intros (Hp & Hl & Hr) Hz HQ HE. unfold HeapLogic.wp, append.
  destruct (sink_append sink (h_sink h) record) as [[lsn|e] w] eqn:E.
  - destruct (ls_append _ _ _ _ _ Hl Hz E) as [E1 E2]. apply HQ; [done|]. split; [apply Hp|]. split; [done|apply Hr].
  - apply HE. split; [apply Hp|]. split; [|apply Hr]. cbn. by eapply ls_reject.
Qed.

(** The page takes the LSN of a new record. *)
Lemma wp_raise {E} id lsn hd (Q : result unit E -> Heap W -> Prop) V L h :
  state V L h -> hpage (V id) hd -> hd_lsn hd < lsn < U64 -> 0 < lsn ->
  (forall q h', set_lsn (V id) lsn = Some q -> hpage q (with_lsn hd lsn) ->
     page_slots q (with_lsn hd lsn) = page_slots (V id) hd -> state (upd_page id q V) L h' -> Q (Ok tt) h') ->
  wp (raise_lsn id lsn) Q h.
Proof.
  intros Hs Hp Hl H0 HQ. unfold raise_lsn. wp_step. eapply wp_guard; [done|]. wp_step.
  eapply wp_some; [apply page_header_eq, Hp|]. rewrite (proj2 (Z.ltb_lt _ _)) by lia.
  destruct (hpage_set_lsn (V id) hd lsn Hp) as (q & E1 & Hq & Hsl); [unfold in_width; lia|].
  wp_step. eapply wp_some; [done|]. eapply hwp_put; [done|]. intros h' Hs'. by eapply HQ.
Qed.

(** The LSN of a stamped page. *)
Lemma stamp_is_set p h lsn q :
  page_ok p h -> hd_lsn h < lsn -> 0 < lsn -> set_lsn p lsn = Some q -> stamp lsn p = Some q.
Proof using.
  intros Hp Hl H0 E. unfold stamp. rewrite (page_header_eq _ _ Hp). cbn [mbind option_bind].
  destruct (Z.eqb_spec lsn 0); [lia|]. cbn [negb andb]. by rewrite (proj2 (Z.ltb_lt _ _)).
Qed.
End heap.
