(* ===== verification/HeapInsert.v ===== *)
(** * Logging a change of the heap

    The full-page image before the first change of a page, and the emission of
    the record of a change: both are [changes] of the logged pages. *)

From S2P Require Import Prelude CoreIds TupleHeader WalRecord WalPayload WalPayloadHeap WalSink Bytes Page PageSpec HeapMaps Heap HeapRedo HeapPage HeapReplay HeapTrace HeapLogic.

Lemma new_record_Ok crc ty xid prev payload r :
  new_record crc ty xid prev payload = Ok r ->
  rec_payload r = payload /\ record_type (rec_header r) = ty /\ 0 < total_length (rec_header r).
Proof.
  unfold new_record, result_err, WalRecord_new. rewrite build_header_spec.
  destruct (_ <? _); [by destruct (_ <=? _)|]. destruct (negb _); [done|]. intros <-%Ok_inj.
  split; [done|]. split; [done|]. cbn [rec_header with_crc total_length]. unfold RECORD_HEADER_SIZE. lia.
Qed.

Lemma page_redo_image id p lsn q h :
  page_ok p h -> hd_lsn h < lsn -> 0 < lsn -> set_lsn p lsn = Some q ->
  forall x, page_redo (RFull (mk_FullPageWritePayload id p)) lsn id x = Some q.
Proof.
  intros Hp Hl H0 E x. unfold page_redo. cbn [touches fpw_page]. rewrite bool_decide_true by done. cbn [negb fpw_page_bytes].
  rewrite (po_len _ _ Hp), Z.eqb_refl. by eapply stamp_is_set.
Qed.

(** A page a record may name. *)
Definition block_ok (id : PageId) : Prop :=
  in_width U32 (pg_relation id) /\ 0 <= pg_block id /\ pg_block id + 1 < U32.

Section ops.
Context {W : Type} (crc : Z -> list Z -> Z) (sink : WalSink W) (log : W -> Log -> Prop) (floor : Lsn).
Context `{!LogSink sink log floor} (N : Prop) (ckpt : Lsn).
Hypothesis (Hfloor : 0 <= ckpt <= floor).

Abbreviation wp := (wp (W := W) N).
Abbreviation state := (state log ckpt).
Abbreviation changes := (changes floor ckpt).
Abbreviation pages_ok := (pages_ok floor).

Definition poisoned (h : Heap W) : Prop := h_poisoned h = true.

Lemma top_app_le L K rs : Forall2 decodes K rs -> increasing (top floor L) rs -> top floor L <= top floor (L ++ K).
Proof using.
  intros D I. rewrite top_app. unfold top at 2. rewrite (decodes_fst _ _ D). generalize (top floor L) I. clear.
  induction rs as [|[l r] rs IH]; intros f; [done|]. cbn [increasing fmap list_fmap fst]. intros [Hl Hi].
  rewrite last_of_cons. specialize (IH l Hi). lia.
Qed.

Lemma changes_top V L V' L' : changes V L V' L' -> top floor L <= top floor L'.
Proof using. intros (raw & rs & -> & D & I & _). by eapply top_app_le. Qed.

(** ** Full-page images *)

(** The image of the page was logged, or was not needed. *)
Definition image_out (U : Pages) (L : Log) (id : PageId) (U' : Pages) (L' : Log) : Prop :=
  (forall j, U' j = U j) /\ L' = L \/
  exists lsn r q, decode_heap r = Some (RFull (mk_FullPageWritePayload id (U id))) /\ top floor L < lsn < U64 /\
    set_lsn (U id) lsn = Some q /\ (forall j, U' j = upd_page id q U j) /\ L' = L ++ [(lsn, r)].

Lemma wp_fpw id xid (Q : result unit HeapError -> Heap W -> Prop) U L h hd :
  state U L h -> hpage (U id) hd -> hd_lsn hd <= top floor L -> floor <= top floor L -> block_ok id ->
  (forall e h', state U L h' -> Q (Err e) h') ->
  (forall U' L' h', state U' L' h' -> image_out U L id U' L' -> covered ckpt (U' id) -> Q (Ok tt) h') ->
  wp (maybe_emit_fpw crc id sink xid) Q h.
Proof using LogSink0 Hfloor.
  intros Hs Hp Hl Hft Hb HE HQ. unfold maybe_emit_fpw. wp_step. wp_step.
  assert (h_checkpoint_lsn h = ckpt) as -> by apply Hs.
  destruct (Z.eqb_spec ckpt 0) as [->|Hnz].
  { apply hwp_ret. apply (HQ U L); [done|by left|by left]. }
  wp_step. eapply hwp_get_page; [done|]. intros h1 Hs1. split; [|by apply HE].
  wp_step. eapply wp_guard; [done|]. wp_step. eapply wp_some; [apply page_header_eq, Hp|].
  destruct (Z.leb_spec ckpt (hd_lsn hd)) as [Hle|Hgt].
  { apply hwp_ret. apply (HQ U L); [done|by left|]. right. exists hd. split; [apply Hp|done]. }
  rewrite (po_len _ _ (hp_ok _ _ Hp)), Z.eqb_refl. cbn [negb].
  wp_step. wp_step. wp_step. wp_step.
  destruct (FullPageWritePayload_encode _) as [bytes|] eqn:Ee; cbn [result_err]; [|by apply HE].
  wp_step. wp_step. destruct (new_record crc FullPageWrite xid _ bytes) as [record|] eqn:Er; [|by apply HE].
  apply new_record_Ok in Er as (Erp & Ert & Erz). wp_step.
  eapply (wp_append sink log floor N ckpt); [done|done| |intros h' Hs'; by apply HE]. intros lsn h2 Hlsn Hs2.
  eapply wp_raise; [done|done|lia|lia|]. intros q h3 Eq Hq Hsl Hs3.
  eapply HQ; [exact Hs3| |]; [|right; exists (with_lsn hd lsn); rewrite upd_same; split; [apply Hq|cbn; lia]].
  right. exists lsn, record, q. split; [|done]. unfold decode_heap. rewrite Ert, Erp.
  destruct Hb as (Hb1 & Hb2 & Hb3).
  rewrite (pc_roundtrip (PayloadCodec := FullPageWritePayload_codec) (mk_FullPageWritePayload id (U id))); [done| |done].
  split; [done|]. cbn [fpw_page]. unfold in_width. lia.
Qed.

Lemma image_changes V U L id U' L' hd :
  hpage (U id) hd -> hd_lsn hd <= top floor L -> floor <= top floor L -> block_ok id -> V id = U id -> image_out U L id U' L' ->
  changes V L (upd_page id (U' id) V) L'.
Proof using Hfloor.
  intros Hp Hl Hft Hb Ev [[E ->]|(lsn & r & q & Hd & Hlsn & Hq & E & ->)].
  - apply changes_refl. intros j. unfold upd_page. case_decide as Ej; [|done]. by rewrite Ej, E.
  - rewrite E, upd_same. destruct (hpage_set_lsn (U id) hd lsn Hp) as (q' & Eq' & Hq' & _); [unfold in_width; lia|].
    rewrite Hq in Eq'. injection Eq' as <-.
    eapply changes_record; [exact Hd| |done| | |].
    + intros j Hj%bool_decide_eq_true. cbn [fpw_page] in Hj. subst j. apply Hb.
    + intros j. destruct (decide (j = id)) as [->|Hne].
      * rewrite upd_same. eapply page_redo_image; [apply Hp|lia|lia|done].
      * rewrite upd_other by done. apply page_redo_other. by apply bool_decide_eq_false.
    + intros j Hj%bool_decide_eq_true. cbn [fpw_page] in Hj. subst j. rewrite upd_same. by eexists.
    + intros j _. by left.
Qed.

(** The image of a page keeps its slots. *)
Lemma image_slots U L id U' L' hd :
  hpage (U id) hd -> hd_lsn hd <= top floor L -> floor <= top floor L -> image_out U L id U' L' ->
  (forall j, j <> id -> U' j = U j) /\
  exists hd', hpage (U' id) hd' /\ hd_lsn hd' <= top floor L' /\ page_slots (U' id) hd' = page_slots (U id) hd /\
    floor <= top floor L'.
Proof using Hfloor.
  intros Hp Hl Hft [[E ->]|(lsn & r & q & Hd & Hlsn & Hq & E & ->)].
  - split; [by intros|]. exists hd. rewrite E. done.
  - split; [intros j Hj; by rewrite E, upd_other|]. rewrite E, upd_same, top_snoc.
    destruct (hpage_set_lsn (U id) hd lsn Hp) as (q' & Eq' & Hq' & Hs); [unfold in_width; lia|].
    rewrite Hq in Eq'. injection Eq' as <-. exists (with_lsn hd lsn). split; [done|]. cbn. split; [lia|]. split; [done|lia].
Qed.

(** ** Records *)

(** The record of a change of one page, whose old content is covered. *)
Lemma record_changes V L id q hr r lsn q' hd hd' :
  decode_heap r = Some hr -> (forall j, touches hr j = bool_decide (j = id)) -> is_full hr = false -> block_ok id ->
  hpage (V id) hd -> hd_lsn hd <= top floor L -> floor <= top floor L -> top floor L < lsn < U64 ->
  hpage q hd' -> hd_lsn hd' = hd_lsn hd -> set_lsn q lsn = Some q' -> covered ckpt (V id) ->
  page_redo hr lsn id (V id) = stamp lsn q ->
  changes V L (upd_page id q' V) (L ++ [(lsn, r)]).
Proof using Hfloor.
  intros Hd Ht Hf Hb Hp Hl Hft Hlsn Hq Hlq Eq Hc Hr.
  destruct (hpage_set_lsn q hd' lsn Hq) as (q'' & Eq' & Hq' & _); [unfold in_width; lia|].
  rewrite Eq in Eq'. injection Eq' as <-.
  eapply changes_record; [exact Hd| |done| | |].
  - intros j. rewrite Ht. intros ->%bool_decide_eq_true. apply Hb.
  - intros j. destruct (decide (j = id)) as [->|Hne].
    + rewrite upd_same, Hr. eapply stamp_is_set; [apply Hq|lia|lia|done].
    + rewrite upd_other by done. apply page_redo_other. rewrite Ht. by apply bool_decide_eq_false.
  - intros j. rewrite Ht. intros ->%bool_decide_eq_true. rewrite upd_same. by eexists.
  - intros j. rewrite Ht. intros ->%bool_decide_eq_true. by right.
Qed.
End ops.

(** * Insertion

    [insert_into_pinned] leaves the page as the redo of its record would, and
    [try_insert_into], the scans and the growth loop only make logged changes. *)

Lemma filled_target p h slot k : page_ok p h -> target p h slot k -> 0 <= slot -> filled p slot = Some false.
Proof.
  intros Hp Htg H0. pose proof (page_header_ok _ _ Hp) as Hh. destruct (lower_slots _ Hh) as [_ Hn].
  unfold filled. rewrite (page_header_eq _ _ Hp). cbn [mbind option_bind]. rewrite (slot_count_eq _ Hh). cbn [mbind option_bind].
  destruct (Z.ltb_spec slot (n_slots h)) as [Hlt|]; [|done]. destruct Htg as [(_ & _ & Hnl)|[? _]]; [|lia].
  rewrite (read_tuple_spec p h slot Hp H0). cbn [mbind option_bind]. rewrite page_slots_lookup, Z2Nat.id by done.
  rewrite decide_True by done. destruct (view p slot) eqn:Ev; try done. by apply view_live in Ev as [? _].
Qed.

(** The page [q] is [p] with the tuple [t] in a slot that was free. *)
Record inserted (p : Page) (hd : PageHeader) (slot : Z) (t : list Z) (q : Page) (hd' : PageHeader) : Prop := {
  in_redo : insert_tuple_at_slot p slot t = Some (Ok tt, q);
  in_free : filled p slot = Some false;
  in_slot : in_width U16 slot;
  in_tuple : tuple_ok t;
  in_bytes : Forall is_byte t;
  in_len : zlen t <= PAGE_SIZE;
  in_page : hpage q hd';
  in_lsn : hd_lsn hd' = hd_lsn hd;
  in_slots : page_slots q hd' = put_slot (page_slots p hd) slot t;
}.

(** What the two insertions do once they know the page has room: place the
    tuple with a tentative header, then write its final header. *)
Lemma inserted_intro p hd slot k a c :
  hpage p hd -> lands_at p hd slot k -> length a = 40%nat -> Forall is_byte a -> Forall is_byte c ->
  zlen (a ++ c) + ITEMID_SIZE <= hd_upper hd - hd_lower hd ->
  exists p1 off, place_tuple p hd (n_slots hd) slot k (a ++ c) = Some (Ok tt, p1) /\
    slot_window p1 slot = Ok (off, zlen (a ++ c)) /\ off + 40 <= PAGE_SIZE /\
    forall hdr, header_wf hdr -> exists hd', inserted p hd slot (thbytes hdr ++ c) (zsplice off (thbytes hdr) p1) hd'.
Proof.
  intros [Hp Ht] Hland Hla Ha Hc Hroom. pose proof Hland as (Htg & Hk & H0 & _).
  destruct (insert_patched p hd slot k a c Hp Hland Ha Hc Hroom) as (p1 & E1 & off & Ew & Hoff & Hpat).
  pose proof (page_header_ok _ _ Hp) as Hh. destruct (lower_slots _ Hh) as [Hlo Hn].
  pose proof (ho_special _ Hh). pose proof (ho_page _ Hh). pose proof (zlen_nonneg c).
  assert (zlen a = 40) as Hza by (unfold zlen; lia). pose proof (zlen_app a c) as Hzac.
  destruct (target_bounds p hd slot k (a ++ c) Hp Htg) as (_ & _ & _ & Hsf); [unfold ITEMID_SIZE in *; lia|].
  exists p1, off. split; [done|]. split; [done|]. split; [lia|]. intros hdr Hwf.
  assert (length a = length (thbytes hdr)) as Hlen by (by rewrite length_header_bytes).
  destruct (Hpat (thbytes hdr) Hlen (thbytes_bytes hdr)) as [Er Hins].
  destruct (hpage_inserted p hd slot k (thbytes hdr ++ c) _ (Build_hpage _ _ Hp Ht) Hins H0) as (hd' & Hp' & Hl' & Hs').
  { eexists. by apply header_tuple_ok. }
  exists hd'. constructor; try done.
  - by eapply filled_target.
  - unfold slot_fits, in_width, U16, PAGE_HEADER_SIZE, ITEMID_SIZE, PAGE_SIZE in *. lia.
  - eexists. by apply header_tuple_ok.
  - apply Forall_app. split; [apply thbytes_bytes|done].
  - rewrite zlen_header_app. unfold ITEMID_SIZE, PAGE_HEADER_SIZE in *. lia.
Qed.

Section insert.
Context {W : Type} (crc : Z -> list Z -> Z) (sink : WalSink W) (log : W -> Log -> Prop) (floor : Lsn).
Context `{!LogSink sink log floor} (N : Prop) (ckpt : Lsn).
Hypothesis (Hfloor : 0 <= ckpt <= floor).

Abbreviation wp := (wp (W := W) N).
Abbreviation state := (state log ckpt).
Abbreviation changes := (changes floor ckpt).
Abbreviation pages_ok := (pages_ok floor).

Lemma free_space_Some hd : header_ok hd -> free_space hd = Some (hd_upper hd - hd_lower hd).
Proof using. intros Hh. unfold free_space. by rewrite free_space_eq. Qed.

Lemma wp_put_result {A} id r (a : A) q (Q : result A HeapError -> Heap W -> Prop) V L h :
  state V L h -> r = Some (Ok a, q) -> (forall h', state (upd_page id q V) L h' -> Q (Ok a) h') -> wp (put_result id r) Q h.
Proof using.
  intros Hs -> HQ. unfold put_result. wp_step. eapply wp_some; [done|]. wp_step.
  eapply hwp_put; [done|]. intros h' Hs'. wp_step. by apply HQ.
Qed.

(** The widths of the arguments. *)
Definition row_ok (payload : list Z) (x : Xid) (c : CommandId) (n : Z) : Prop :=
  Forall is_byte payload /\ in_width U64 x /\ in_width U32 c /\ in_width U16 n.

Definition is_no_space {A} (r : result A HeapError) : Prop := exists a b, r = Err (HPage (NoSpace a b)).

Lemma wp_insert_into id payload opts n_atts0 (Q : result TupleId HeapError -> Heap W -> Prop) V L h hd :
  state V L h -> hpage (V id) hd -> block_ok id -> row_ok payload (io_xmin opts) (io_command_id opts) n_atts0 ->
  (forall h' a b, hd_upper hd - hd_lower hd < 40 + zlen payload + ITEMID_SIZE -> state V L h' -> Q (Err (HPage (NoSpace a b))) h') ->
  (forall slot q hd' h',
     let hdr := with_ctid (fresh (io_xmin opts) (io_command_id opts) (mk_TupleId id 0) n_atts0) (mk_TupleId id slot) in
     header_wf hdr -> inserted (V id) hd slot (thbytes hdr ++ payload) q hd' ->
     state (upd_page id q V) L h' -> Q (Ok (mk_TupleId id slot)) h') ->
  wp (insert_into_pinned id payload opts n_atts0 (40 + zlen payload)) Q h.
Proof using.
  intros Hs Hp Hb (Hpb & Hx & Hc & Hn) HE HQ. unfold insert_into_pinned.
  pose proof (page_header_ok _ _ (hp_ok _ _ Hp)) as Hh.
  wp_step. eapply wp_guard; [done|]. wp_step. eapply wp_some; [apply page_header_eq, Hp|].
  wp_step. eapply wp_some; [by apply free_space_Some|].
  destruct (Z.ltb_spec (hd_upper hd - hd_lower hd) (40 + zlen payload + ITEMID_SIZE)) as [Hlt|Hge].
  { apply hwp_throw. by apply HE. }
  set (h0 := fresh (io_xmin opts) (io_command_id opts) (mk_TupleId id 0) n_atts0).
  assert (forall s, in_width U16 s -> tid_width (mk_TupleId id s)) as Htw.
  { intros s Hs'. destruct Hb as (? & ? & ?). split; [done|]. split; [|done]. cbn. unfold in_width. lia. }
  assert (header_wf h0) as Hwf0 by (apply fresh_wf; [done|done|by apply Htw|done]).
  wp_step. eapply wp_some; [apply encode_collect|].
  destruct (insert_lands (V id) hd (hp_ok _ _ Hp)) as (slot & k & Hland & Hins).
  destruct (inserted_intro (V id) hd slot k (thbytes h0) payload Hp Hland) as (p1 & off & E1 & Ew & Hoff & Hfin);
    [apply length_header_bytes|apply thbytes_bytes|done|rewrite zlen_header_app; lia|].
  wp_step. eapply (wp_put_result id _ slot p1); [done| |].
  { rewrite Hins, E1; [done|]. apply (fits_check (V id) hd); [apply Hp|]. rewrite zlen_header_app. unfold ITEMID_SIZE in *. lia. }
  intros h1 Hs1. wp_step. eapply wp_some; [apply collect_header_bytes_eq|].
  wp_step. eapply wp_guard; [done|]. rewrite upd_same. wp_step. apply hwp_lift. rewrite Ew. cbn [fst].
  wp_step. unfold patch_header. wp_step. eapply wp_guard; [done|]. rewrite upd_same.
  rewrite (proj2 (Z.ltb_ge _ _)) by (unfold TUPLE_HEADER_SIZE; lia). eapply hwp_put; [done|]. intros h2 Hs2.
  wp_step. eapply wp_vm_clear; [done|]. intros h3 Hs3. wp_step.
  assert (in_width U16 slot) as Hsw by (destruct (Hfin h0 Hwf0) as [hd' Hi]; apply Hi).
  assert (header_wf (with_ctid h0 (mk_TupleId id slot))) as Hwf by (apply with_ctid_wf; [done|by apply Htw]).
  destruct (Hfin _ Hwf) as (hd' & Hi). eapply HQ; [done|exact Hi|].
  eapply state_ext; [exact Hs3|]. intros j. unfold upd_page. by case_decide.
Qed.

(** ** The record *)

Lemma wp_poisoning {A} (m : HM W HeapError A) (Q : result A HeapError -> Heap W -> Prop) h :
  wp m (fun r h' => match r with Ok a => Q (Ok a) h' | Err e => forall h'', poisoned h'' -> Q (Err e) h'' end) h ->
  wp (poisoning m) Q h.
Proof using.
  intros H. unfold poisoning. wp_step. wp_step. eapply hwp_mono; [exact H|]. intros [a|e] h' HQ; [by apply hwp_ret|].
  wp_step. unfold poison_after_wal_error. wp_step. apply hwp_throw. by apply HQ.
Qed.

Lemma inserted_lookup p hd slot t q hd' : inserted p hd slot t q hd' -> page_slots q hd' !! Z.to_nat slot = Some (SLive t).
Proof using.
  intros Hi. destruct (in_slot _ _ _ _ _ _ Hi) as [H0 _]. rewrite (in_slots _ _ _ _ _ _ Hi), put_slot_lookup by done.
  by rewrite decide_True by (by rewrite Z2Nat.id).
Qed.

Lemma wp_copy_slot id slot t (Q : result (list Z) HeapError -> Heap W -> Prop) V L h hd :
  state V L h -> page_ok (V id) hd -> page_slots (V id) hd !! Z.to_nat slot = Some (SLive t) -> 0 <= slot ->
  Q (Ok t) h -> wp (copy_slot_bytes id slot) Q h.
Proof using.
  intros Hs Hp Hl H0 HQ. unfold copy_slot_bytes. wp_step. eapply wp_guard; [done|]. wp_step.
  eapply wp_some; [by apply read_tuple_spec|]. rewrite Hl. by apply hwp_lift.
Qed.

Lemma tid_fits_of id slot : block_ok id -> in_width U16 slot -> tid_fits (mk_TupleId id slot).
Proof using. intros (? & ? & ?) ?. by split_and!. Qed.

Lemma page_len_ceiling t : zlen t <= PAGE_SIZE -> blen t <= MAX_VARIABLE_PAYLOAD_BYTES.
Proof using. intros H. assert (PAGE_SIZE <= MAX_VARIABLE_PAYLOAD_BYTES) by (by vm_compute). unfold zlen, blen in *. lia. Qed.

Lemma insert_redo V id slot t q hd hd' lsn :
  inserted (V id) hd slot t q hd' -> page_ok (V id) hd -> hd_lsn hd < lsn < U64 -> 0 < lsn ->
  page_redo (RInsert (mk_HeapInsertPayload (mk_TupleId id slot) t)) lsn id (V id) = stamp lsn q.
Proof using.
  intros Hi Hp Hl H0. unfold page_redo. cbn [touches hi_tid tid_page]. rewrite bool_decide_true by done. cbn [negb].
  rewrite (gate_pass lsn ltac:(lia) _ _ hd Hp ltac:(lia)). unfold fill. cbn [hi_tid tid_slot hi_tuple_bytes].
  rewrite (in_free _ _ _ _ _ _ Hi). cbn [mbind option_bind]. by rewrite (in_redo _ _ _ _ _ _ Hi).
Qed.

(** The errors of an emission. *)
Definition wal_error (e : HeapError) : Prop := match e with HWal | HWalPayload _ | HWalRecord _ => True | _ => False end.

Lemma new_record_Err ty xid prev bytes e : new_record crc ty xid prev bytes = Err e -> wal_error e.
Proof using.
  unfold new_record, result_err. destruct (WalRecord_new _ _ _ _ _ _); [done|]. by intros [= <-].
Qed.

Lemma wp_emit_insert id slot t opts V L h hd q hd' (Q : result unit HeapError -> Heap W -> Prop) :
  io_wal opts = Some sink -> state (upd_page id q V) L h -> inserted (V id) hd slot t q hd' -> hpage (V id) hd ->
  hd_lsn hd <= top floor L -> floor <= top floor L -> block_ok id -> covered ckpt (V id) ->
  (forall e h', wal_error e -> poisoned h' -> Q (Err e) h') ->
  (forall lsn r q' h', set_lsn q lsn = Some q' -> state (upd_page id q' V) (L ++ [(lsn, r)]) h' ->
     hpage q' (with_lsn hd' lsn) -> page_slots q' (with_lsn hd' lsn) = page_slots q hd' ->
     changes V L (upd_page id q' V) (L ++ [(lsn, r)]) -> Q (Ok tt) h') ->
  wp (emit_insert_wal crc (mk_TupleId id slot) opts) Q h.
Proof using LogSink0 Hfloor.
  intros Ew Hs Hi Hp Hl Hft Hb Hc HE HQ. unfold emit_insert_wal. rewrite Ew. apply wp_poisoning.
  pose proof (in_page _ _ _ _ _ _ Hi) as Hq. pose proof (in_slot _ _ _ _ _ _ Hi) as Hsl.
  wp_step. eapply wp_copy_slot; [exact Hs|rewrite upd_same; apply Hq|rewrite upd_same; by eapply inserted_lookup|apply Hsl|].
  wp_step. wp_step. wp_step. wp_step.
  destruct (HeapInsertPayload_encode _) as [bytes|] eqn:Ee; cbn [result_err]; [|intros h'' ?; by apply HE].
  wp_step. wp_step. destruct (new_record crc HeapInsert (io_xmin opts) _ bytes) as [record|] eqn:Er; [|intros h'' ?; apply HE; [by eapply new_record_Err|done]].
  apply new_record_Ok in Er as (Erp & Ert & Erz). wp_step.
  eapply (wp_append sink log floor N ckpt); [done|done| |intros h' Hs' h'' ?; by apply HE]. intros lsn h2 Hlsn Hs2.
  assert (hd_lsn hd' < lsn) as Hlt by (rewrite (in_lsn _ _ _ _ _ _ Hi); lia).
  eapply wp_raise; [done|rewrite upd_same; exact Hq|lia|lia|]. rewrite upd_same. intros q' h3 Eq Hq' Hsl' Hs3.
  eapply (HQ lsn record q'); [done| |done|done|].
  - eapply state_ext; [exact Hs3|]. intros j. unfold upd_page. repeat case_decide; done.
  - eapply (record_changes floor ckpt Hfloor V L id q
      (RInsert (mk_HeapInsertPayload (mk_TupleId id slot) t)) record lsn q' hd hd'); try done;
      [|apply Hi|eapply insert_redo; [done|apply Hp|lia|lia]].
    unfold decode_heap. rewrite Ert, Erp.
    rewrite (pc_roundtrip (PayloadCodec := HeapInsertPayload_codec) (mk_HeapInsertPayload (mk_TupleId id slot) t)); [done| |done].
    split; [by apply tid_fits_of|]. apply page_len_ceiling, Hi.
Qed.

(** ** One candidate page *)

(** Changes that leave the slots of every page as they were: images only. *)
Definition slots_of (p : Page) : list slot_view := match page_header p with Some h => page_slots p h | None => [] end.

Lemma slots_of_eq p h : page_ok p h -> slots_of p = page_slots p h.
Proof using. intros Hp. unfold slots_of. by rewrite (page_header_eq _ _ Hp). Qed.

Definition quiet (V : Pages) (L : Log) (V' : Pages) (L' : Log) : Prop :=
  changes V L V' L' /\ forall id, slots_of (V' id) = slots_of (V id).

Lemma quiet_refl V L : quiet V L V L.
Proof using. split; [by apply changes_refl|done]. Qed.

Lemma quiet_trans V L V1 L1 V2 L2 : quiet V L V1 L1 -> quiet V1 L1 V2 L2 -> quiet V L V2 L2.
Proof using. intros [H1 E1] [H2 E2]. split; [by eapply changes_trans|]. intros id. by rewrite E2, E1. Qed.

Section candidate.
Context (payload : list Z) (opts : InsertOptions W) (n : Z) (fpw_sink : option (WalSink W)).
Hypothesis (Hsink : or_sink (io_wal opts) fpw_sink = Some sink).
Hypothesis (Hrow : row_ok payload (io_xmin opts) (io_command_id opts) n).

(** The header of the new version and its tuple. *)
Definition new_header (tid : TupleId) : TupleHeader :=
  with_ctid (fresh (io_xmin opts) (io_command_id opts) (mk_TupleId (tid_page tid) 0) n) tid.
Definition new_tuple (tid : TupleId) : list Z := thbytes (new_header tid) ++ payload.

(** The tuple is on its page; without a WAL of the insertion its record is still to come. *)
Definition placed_at (V : Pages) (L : Log) (tid : TupleId) (h' : Heap W) : Prop :=
  let id := tid_page tid in
  block_ok id /\ header_wf (new_header tid) /\
  exists V1 L1 hd q hd', quiet V L V1 L1 /\ hpage (V1 id) hd /\ hd_lsn hd <= top floor L1 /\ covered ckpt (V1 id) /\
    inserted (V1 id) hd (tid_slot tid) (new_tuple tid) q hd' /\
    match io_wal opts with
    | None => state (upd_page id q V1) L1 h'
    | Some _ => exists lsn r q', state (upd_page id q' V1) (L1 ++ [(lsn, r)]) h' /\ hpage q' (with_lsn hd' lsn) /\
        page_slots q' (with_lsn hd' lsn) = page_slots q hd' /\
        changes V1 L1 (upd_page id q' V1) (L1 ++ [(lsn, r)])
    end.

Definition good (V : Pages) (L : Log) : Prop := pages_ok V L /\ floor <= top floor L.

Lemma good_changes V L V' L' : good V L -> changes V L V' L' -> good V' L'.
Proof using. intros [Hok Hft] Hc. split; [by eapply changes_ok|]. apply changes_top in Hc. lia. Qed.

Lemma good_quiet V L V' L' : good V L -> quiet V L V' L' -> good V' L'.
Proof using. intros Hg [Hc _]. by eapply good_changes. Qed.

Lemma wp_try_insert_into id V L h (Q : result TupleId HeapError -> Heap W -> Prop) :
  state V L h -> good V L -> block_ok id ->
  (forall e h', wal_error e -> poisoned h' -> Q (Err e) h') ->
  (forall e V' L' h', state V' L' h' -> quiet V L V' L' -> Q (Err e) h') ->
  (forall tid h', tid_page tid = id -> placed_at V L tid h' -> Q (Ok tid) h') ->
  wp (try_insert_into crc id payload opts n (40 + zlen payload) fpw_sink) Q h.
Proof using LogSink0 Hfloor Hsink Hrow.
  intros Hs [Hok Hft] Hb HP HE HQ. unfold try_insert_into. rewrite Hsink. destruct (Hok id) as (hd & Hp & Hl).
  wp_step. eapply (wp_fpw crc sink log floor N ckpt Hfloor id); [done|done|done|done|done| |].
  { intros e h' Hs'. eapply HE; [done|apply quiet_refl]. }
  intros V1 L1 h1 Hs1 Him Hcov.
  pose proof (image_changes floor ckpt Hfloor V V L id V1 L1 hd Hp Hl Hft Hb eq_refl Him) as Hch.
  destruct (image_slots floor ckpt Hfloor V L id V1 L1 hd Hp Hl Hft Him) as [Hoth (hd1 & Hp1 & Hl1 & Hsl1 & Hft1)].
  assert (forall j, upd_page id (V1 id) V j = V1 j) as Eu.
  { intros j. unfold upd_page. case_decide as E; [by rewrite E|]. by rewrite Hoth. }
  assert (quiet V L V1 L1) as Hch1.
  { split; [eapply changes_trans; [exact Hch|]; apply changes_refl; intros j; by rewrite Eu|].
    intros j. destruct (decide (j = id)) as [->|Hj]; [|by rewrite Hoth].
    by rewrite (slots_of_eq _ _ (hp_ok _ _ Hp1)), (slots_of_eq _ _ (hp_ok _ _ Hp)). }
  wp_step. eapply hwp_get_page; [done|]. intros h2 Hs2. split; [|by eapply HE].
  wp_step. eapply wp_insert_into; [done|exact Hp1|done|done| |].
  { intros h' a b _ Hs'. by eapply HE. }
  intros slot q hd' h3 hdr Hwf Hins Hs3. cbn zeta in *.
  assert (forall h', match io_wal opts with
    | None => state (upd_page id q V1) L1 h'
    | Some _ => exists lsn r q', state (upd_page id q' V1) (L1 ++ [(lsn, r)]) h' /\ hpage q' (with_lsn hd' lsn) /\
        page_slots q' (with_lsn hd' lsn) = page_slots q hd' /\ changes V1 L1 (upd_page id q' V1) (L1 ++ [(lsn, r)])
    end -> placed_at V L (mk_TupleId id slot) h') as Hdone.
  { intros h' Hm. split; [done|]. split; [done|]. by exists V1, L1, hd1, q, hd'. }
  destruct (io_wal opts) as [s|] eqn:Ew.
  - assert (s = sink) as -> by (cbn in Hsink; by injection Hsink).
    wp_step. eapply wp_emit_insert; [done|exact Hs3|exact Hins|done|done|done|done|done|by apply HP|].
    intros lsn r q' h4 _ Hs4 Hq' Hsl Hc4. wp_step. apply HQ; [done|]. apply Hdone. by exists lsn, r, q'.
  - unfold emit_insert_wal. rewrite Ew. wp_step. wp_step. wp_step. apply HQ; [done|]. by apply Hdone.
Qed.

Lemma wp_try_block rel block V L h (Q : result (option TupleId) HeapError -> Heap W -> Prop) :
  state V L h -> good V L -> block_ok (mk_PageId rel block) ->
  (forall e h', wal_error e -> poisoned h' -> Q (Err e) h') ->
  (forall e V' L' h', state V' L' h' -> quiet V L V' L' -> Q (Err e) h') ->
  (forall V' L' h', state V' L' h' -> quiet V L V' L' -> Q (Ok None) h') ->
  (forall tid h', tid_page tid = mk_PageId rel block -> placed_at V L tid h' -> Q (Ok (Some tid)) h') ->
  wp (try_block crc rel block payload opts n (40 + zlen payload) fpw_sink) Q h.
Proof using LogSink0 Hfloor Hsink Hrow.
  intros Hs Hg Hb HP HE HN HQ. unfold try_block. wp_step. wp_step.
  eapply wp_try_insert_into; [done|done|done| | |].
  - intros e h' He Hpo. destruct e; try done; by apply hwp_throw, HP.
  - intros e V' L' h' Hs' Hc. destruct e as [| [] | | | | | | | | |];
      first [by eapply hwp_ret, HN | by eapply hwp_throw, HE].
  - intros tid h' Ht Hpl. wp_step. by apply HQ.
Qed.

(** ** The search for room *)

(** A placed tuple stays placed when only the bookkeeping changes. *)
Lemma placed_at_state V L tid h :
  placed_at V L tid h ->
  block_ok (tid_page tid) /\
  exists U L1 hd, state U L1 h /\ page_ok (U (tid_page tid)) hd /\ forall h', state U L1 h' -> placed_at V L tid h'.
Proof using.
  clear Hsink. intros (Hb & Hwf & V1 & L1 & hd & q & hd' & Hc & Hp & Hl & Hcov & Hi & Hm). split; [done|].
  assert (page_ok q hd') as Hq by apply Hi. destruct (io_wal opts) as [s|] eqn:Ew.
  - destruct Hm as (lsn & r & q' & Hs & Hq' & Hsl & Hc2). exists (upd_page (tid_page tid) q' V1), (L1 ++ [(lsn, r)]), (with_lsn hd' lsn).
    split; [done|]. split; [rewrite upd_same; apply Hq'|]. intros h' Hs'. split; [done|]. split; [done|].
    exists V1, L1, hd, q, hd'. split_and!; try done. rewrite Ew. by exists lsn, r, q'.
  - exists (upd_page (tid_page tid) q V1), L1, hd'. split; [done|]. split; [by rewrite upd_same|].
    intros h' Hs'. split; [done|]. split; [done|]. exists V1, L1, hd, q, hd'. split_and!; try done. by rewrite Ew.
Qed.

Lemma wp_page_free id (Q : result Z HeapError -> Heap W -> Prop) U L h hd :
  state U L h -> page_ok (U id) hd -> (forall n h', state U L h' -> Q (Ok n) h') -> wp (page_free_space id) Q h.
Proof using.
  intros Hs Hp HQ. unfold page_free_space. wp_step. wp_step. eapply hwp_get_page; [done|]. intros h1 Hs1. split; [|by apply HQ].
  wp_step. eapply wp_guard; [done|]. wp_step. eapply wp_some; [by apply page_header_eq|]. wp_step.
  eapply wp_some; [apply free_space_Some; by eapply page_header_ok|]. wp_step. by apply HQ.
Qed.

Lemma wp_post_fsm on id (Q : result unit HeapError -> Heap W -> Prop) U L h hd :
  state U L h -> page_ok (U id) hd -> block_ok id -> (forall h', state U L h' -> Q (Ok tt) h') -> wp (post_insert_fsm on id) Q h.
Proof using.
  intros Hs Hp (_ & H0 & Hb) HQ. unfold post_insert_fsm. destruct on; [|by apply hwp_ret, HQ].
  wp_step. eapply wp_page_free; [done|done|]. intros n0 h1 Hs1. eapply wp_record_free; [done|done|done|]. apply HQ.
Qed.

Lemma wp_placed_on rel block tid V L h (Q : result TupleId HeapError -> Heap W -> Prop) :
  placed_at V L tid h -> 0 <= block -> (forall h', placed_at V L tid h' -> Q (Ok tid) h') -> wp (placed_on rel block opts tid) Q h.
Proof using.
  intros (Hb & U & L1 & hd & Hs & Hp & Hst)%placed_at_state H0 HQ. unfold placed_on.
  wp_step. eapply wp_post_fsm; [done|done|done|]. intros h1 Hs1. wp_step. eapply wp_set_cursor; [done|done|].
  intros h2 Hs2. wp_step. by apply HQ, Hst.
Qed.

(** A placement after some changes is a placement after all of them. *)
Lemma placed_at_trans V L V1 L1 tid h : quiet V L V1 L1 -> placed_at V1 L1 tid h -> placed_at V L tid h.
Proof using.
  intros Hc (Hb & Hwf & V2 & L2 & hd & q & hd' & Hc2 & Hr). split; [done|]. split; [done|].
  exists V2, L2, hd, q, hd'. split; [by eapply quiet_trans|done].
Qed.

(** What the search may leave behind without a tuple. *)
Definition searched {A} (V : Pages) (L : Log) (Q : result A HeapError -> Heap W -> Prop) : Prop :=
  (forall e h', wal_error e -> poisoned h' -> Q (Err e) h') /\
  (forall e V' L' h', state V' L' h' -> quiet V L V' L' -> Q (Err e) h').

Lemma searched_trans {A} V L V1 L1 (Q : result A HeapError -> Heap W -> Prop) :
  quiet V L V1 L1 -> searched V L Q -> searched V1 L1 Q.
Proof using. intros Hc [HP HE]. split; [done|]. intros e V' L' h' Hs' Hc'. eapply HE; [done|by eapply quiet_trans]. Qed.

Lemma wp_scan_blocks rel blocks V L h (Q : result (option TupleId) HeapError -> Heap W -> Prop) :
  state V L h -> good V L -> Forall (fun b => block_ok (mk_PageId rel b)) blocks -> searched V L Q ->
  (forall V' L' h', state V' L' h' -> quiet V L V' L' -> Q (Ok None) h') ->
  (forall tid h', pg_relation (tid_page tid) = rel -> placed_at V L tid h' -> Q (Ok (Some tid)) h') ->
  wp (scan_blocks crc rel blocks payload opts n (40 + zlen payload) fpw_sink) Q h.
Proof using LogSink0 Hfloor Hsink Hrow.
  intros Hs Hg Hbl. revert V L h Hs Hg. induction Hbl as [|b blocks Hb _ IH]; intros V L h Hs Hg [HP HE] HN HQ.
  { apply hwp_ret. eapply HN; [done|apply quiet_refl]. }
  cbn [scan_blocks]. wp_step. eapply wp_try_block; [done|done|done|done|done| |].
  - intros V1 L1 h1 Hs1 Hc1. apply (IH V1 L1); [done|by eapply good_quiet|by eapply searched_trans| |].
    + intros V' L' h' Hs' Hc'. eapply HN; [done|by eapply quiet_trans].
    + intros tid h' Hrel Hpl. apply HQ; [done|]. by eapply placed_at_trans.
  - intros tid h1 Ht Hpl. wp_step. eapply wp_placed_on; [done|apply Hb|]. intros h2 Hpl2. wp_step.
    apply HQ; [by rewrite Ht|done].
Qed.

Lemma block_ok_of rel b : in_width U32 rel -> 0 <= b -> b + 1 < U32 -> block_ok (mk_PageId rel b).
Proof using. intros. unfold block_ok. by split_and!. Qed.

Lemma keeps_try_block rel block : keeps (try_block crc rel block payload opts n (40 + zlen payload) fpw_sink).
Proof using.
  clear Hsink Hrow. unfold try_block, try_insert_into, maybe_emit_fpw, insert_into_pinned, emit_insert_wal, poisoning, poison_after_wal_error,
    put_result, patch_header, copy_slot_bytes, vm_clear_page, stamp_pinned_page_lsn, raise_lsn, guard_page, put_page, last_lsn.
  keeps_step.
Qed.

(** Every round takes the next block: the loop ends before they run out. *)
Lemma wp_grow fuel rel V L h (Q : result TupleId HeapError -> Heap W -> Prop) :
  N \/ U32 - counter h rel <= Z.of_nat fuel -> state V L h -> good V L -> in_width U32 rel -> searched V L Q ->
  (forall tid h', pg_relation (tid_page tid) = rel -> placed_at V L tid h' -> Q (Ok tid) h') ->
  wp (grow crc fuel rel payload opts n (40 + zlen payload) fpw_sink) Q h.
Proof using LogSink0 Hfloor Hsink Hrow.
  intros HN Hs Hg Hrel. revert V L h HN Hs Hg. induction fuel as [|fuel IH]; intros V L h HN Hs Hg [HP HE] HQ;
    assert (in_width U32 (counter h rel)) as Hc by (destruct Hs as (_ & _ & _ & _ & Hbk & _); apply Hbk);
    [unfold in_width in Hc; destruct HN; [done|lia]|].
  cbn [grow]. wp_step. wp_step.
  wp_step. eapply wp_set_counter; [done| |].
  { unfold in_width, wrap. apply Z.mod_pos_bound. done. }
  intros h1 Hs1 Ec. destruct (Z.eqb_spec (counter h rel) (U32 - 1)) as [Heq|Hne].
  - wp_step. eapply wp_set_counter; [done|by unfold in_width, U32|]. intros h2 Hs2 _. apply hwp_throw.
    eapply HE; [done|apply quiet_refl].
  - unfold in_width in Hc. assert (block_ok (mk_PageId rel (counter h rel))) as Hb by (apply block_ok_of; [done|lia|lia]).
    wp_step. apply wp_keeps; [apply keeps_try_block|]. eapply wp_try_block; [done|done|done|by intros; apply HP|by intros; eapply HE| |].
    + intros V1 L1 h2 Hs2 Hc2 Ek. apply (IH V1 L1); [|done|by eapply good_quiet|by eapply searched_trans|].
      { destruct HN as [HN|HN]; [by left|right]. unfold counter in Ec |- * at 1. rewrite Ek. unfold counter in Hc, HN, Hne.
        rewrite Ec. unfold counter, wrap. rewrite Z.mod_small by lia. lia. }
      intros tid h' Ht Hpl. apply HQ; [done|]. by eapply placed_at_trans.
    + intros tid h2 Ht Hpl _. eapply wp_placed_on; [done|lia|]. intros h3 Hpl3. apply HQ; [by rewrite Ht|done].
Qed.

Lemma wp_try_hint rel V L h (Q : result (option TupleId) HeapError -> Heap W -> Prop) :
  state V L h -> good V L -> in_width U32 rel -> searched V L Q ->
  (forall V' L' h', state V' L' h' -> quiet V L V' L' -> Q (Ok None) h') ->
  (forall tid h', pg_relation (tid_page tid) = rel -> placed_at V L tid h' -> Q (Ok (Some tid)) h') ->
  wp (try_hint crc rel payload opts n (40 + zlen payload) fpw_sink) Q h.
Proof using LogSink0 Hfloor Hsink Hrow.
  intros Hs Hg Hrel [HP HE] HN HQ. assert (forall e, Q (Err e) h) as HE0 by (intros e; eapply HE; [done|apply quiet_refl]).
  unfold try_hint. destruct (io_fsm opts); [|apply hwp_ret; eapply HN; [done|apply quiet_refl]].
  wp_step. wp_step. destruct (checked_tuple_space_needed _) as [needed|]; [|apply HE0].
  destruct (U32 <=? needed); [apply hwp_throw, HE0|]. wp_step. wp_step.
  destruct (find_block_with_at_least rel needed (h_fsm h)) as [b|] eqn:Ef; [|apply hwp_ret; eapply HN; [done|apply quiet_refl]].
  destruct (hint_block log ckpt V L h rel needed b Hs Ef) as [Hb0 Hb1].
  wp_step. eapply wp_try_block; [done|done|by apply block_ok_of|done|done| |].
  - intros V1 L1 h1 Hs1 Hc1. wp_step. eapply wp_invalidate_block; [done|]. intros h2 Hs2. wp_step. by eapply HN.
  - intros tid h1 Ht Hpl. wp_step. eapply wp_placed_on; [done|by rewrite Ht|]. intros h2 Hpl2. wp_step.
    apply HQ; [by rewrite Ht|done].
Qed.
End candidate.

(** ** The insertion *)

Lemma tuple_size_eq payload : zlen payload < U32 -> tuple_size_of payload = Ok (40 + zlen payload).
Proof using.
  intros Hl. unfold tuple_size_of, checked_add, TUPLE_HEADER_SIZE. pose proof (zlen_nonneg payload).
  by rewrite (proj2 (Z.ltb_lt _ _)) by (unfold U64, U32 in *; lia).
Qed.

Lemma wp_insert_inner fuel rel payload opts fpw_sink V L h (Q : result TupleId HeapError -> Heap W -> Prop) :
  N \/ U32 <= Z.of_nat fuel -> or_sink (io_wal opts) fpw_sink = Some sink ->
  row_ok payload (io_xmin opts) (io_command_id opts) (io_n_atts opts) -> zlen payload < U32 ->
  state V L h -> good V L -> in_width U32 rel -> searched V L Q ->
  (forall tid h', pg_relation (tid_page tid) = rel -> placed_at payload opts (io_n_atts opts) V L tid h' -> Q (Ok tid) h') ->
  wp (insert_inner_pinned crc fuel rel payload opts fpw_sink) Q h.
Proof using LogSink0 Hfloor.
  intros HN Hsink Hrow Hlen Hs Hg Hrel HSe HQ. unfold insert_inner_pinned. wp_step. wp_step.
  assert (in_width U32 (counter h rel)) as [Hc0 Hc1] by (destruct Hs as (_ & _ & _ & _ & Hbk & _); apply Hbk).
  rewrite tuple_size_eq by done. wp_step. wp_step. cbn iota. wp_step.
  eapply wp_try_hint; [done|done|done|done|done|exact HSe| |].
  2: { intros tid h1 Ht Hpl. wp_step. by apply HQ. }
  intros V1 L1 h1 Hs1 Hch1. wp_step. wp_step.
  assert (0 <= default 0 (h_cursors h1 !! rel)) as Hcu by (destruct Hs1 as (_ & _ & _ & _ & _ & Hbk & _); apply Hbk).
  set (start := Z.min _ _). assert (0 <= start <= Z.max 0 (counter h rel - 1)) as Hst by (unfold start; lia).
  assert (forall a m, 0 <= a -> a + m <= Z.max 0 (counter h rel) -> Forall (fun b => block_ok (mk_PageId rel b)) (seqZ a m)) as Hbl.
  { intros a m Ha Hm. apply Forall_forall. intros b [Hb1 Hb2]%elem_of_seqZ. apply block_ok_of; [done|lia|lia]. }
  pose proof (good_quiet _ _ _ _ Hg Hch1) as Hg1. pose proof (searched_trans _ _ _ _ _ Hch1 HSe) as HSe1.
  wp_step. eapply wp_scan_blocks; [done|done|done|done|apply Hbl; lia|exact HSe1| |].
  2: { intros tid h2 Ht Hpl. wp_step. apply HQ; [done|]. by eapply placed_at_trans. }
  intros V2 L2 h2 Hs2 Hch2. pose proof (good_quiet _ _ _ _ Hg1 Hch2) as Hg2. pose proof (searched_trans _ _ _ _ _ Hch2 HSe1) as HSe2.
  pose proof (quiet_trans _ _ _ _ _ _ Hch1 Hch2) as Hch12.
  wp_step. eapply wp_scan_blocks; [done|done|done|done|apply Hbl; lia|exact HSe2| |].
  2: { intros tid h3 Ht Hpl. wp_step. apply HQ; [done|]. by eapply placed_at_trans. }
  intros V3 L3 h3 Hs3 Hch3. pose proof (good_quiet _ _ _ _ Hg2 Hch3) as Hg3. pose proof (searched_trans _ _ _ _ _ Hch3 HSe2) as HSe3.
  assert (0 <= counter h3 rel) as Hc3 by (destruct Hs3 as (_ & _ & _ & _ & Hbk & _); apply Hbk).
  eapply wp_grow; [done|done|destruct HN; [by left|right; lia]|done|done|done|exact HSe3|].
  intros tid h4 Ht Hpl. apply HQ; [done|]. eapply placed_at_trans; [|exact Hpl]. by eapply quiet_trans.
Qed.
End insert.
