(* ===== verification/HeapChange.v ===== *)
(** * Deletion and update

    Both stamp the header of a live tuple; the page they leave is the page the
    redo of their record makes. *)

From S2P Require Import Prelude CoreIds TupleHeader WalRecord WalPayload WalPayloadHeap WalSink Bytes Page PageSpec HeapMaps Heap HeapRedo HeapPage HeapReplay HeapTrace HeapLogic HeapInsert.

(** ** The header of a live tuple *)

Section live.
Context (p : Page) (hd : PageHeader) (slot : Z) (t : list Z) (hdr : TupleHeader).
Hypotheses (Hp : hpage p hd) (Hs : page_slots p hd !! Z.to_nat slot = Some (SLive t)) (H0 : 0 <= slot).
Hypothesis (Hh : tuple_header t hdr).

Lemma live_slot :
  slot < n_slots hd /\ live p slot /\ t = zslice (start p slot) (start p slot + extent p slot) p /\ extent p slot = zlen t /\
  hd_upper hd <= start p slot /\ start p slot + extent p slot <= PAGE_SIZE /\ slot_fits slot /\ 40 <= start p slot + 40 /\
  header_wf hdr /\ 40 <= zlen t /\ (40 <= length t)%nat /\ thbytes hdr = take 40 t.
Proof using Hp Hs H0 Hh.
  pose proof (hp_ok _ _ Hp) as Hok. pose proof (page_header_ok _ _ Hok) as Hho. destruct (lower_slots _ Hho) as [Hlo Hn].
  pose proof (live_bytes_slots p hd _ t Hok Hs) as Hb. destruct (tuple_header_facts t hdr Hb Hh) as (Hwf & Hl1 & Hl2 & Et).
  rewrite page_slots_lookup, Z2Nat.id in Hs by done. case_decide as Hlt; [|done]. injection Hs as Hv.
  pose proof (view_live _ _ _ Hv) as [Hli Hte]. destruct (po_live _ _ Hok slot ltac:(lia) Hli) as [Hu Hsp].
  pose proof (ho_upper _ Hho). pose proof (ho_special _ Hho). pose proof (ho_page _ Hho). pose proof (po_len _ _ Hok).
  pose proof (ItemId_length_bound (item p slot)) as [Hx _]. fold (extent p slot) in Hx.
  split_and!; try done; try lia.
  - rewrite Hte. rewrite zlen_slice; unfold PAGE_HEADER_SIZE, ITEMID_SIZE in *; lia.
  - eapply slot_fits_below; [done|lia].
  - unfold PAGE_HEADER_SIZE, ITEMID_SIZE in *. lia.
Qed.

Lemma header_slice : zslice (start p slot) (start p slot + 40) p = take 40 t.
Proof using Hp Hs H0 Hh.
  destruct live_slot as (_ & _ & Et & Ee & Hu & _ & _ & _ & _ & Hz & _). rewrite Et. unfold zslice.
  rewrite take_take. f_equal. lia.
Qed.

Lemma decode_header_live what : decode_header (zslice (start p slot) (start p slot + Z.of_nat TUPLE_HEADER_SIZE) p) what = Ok hdr.
Proof using Hp Hs H0 Hh.
  change (Z.of_nat TUPLE_HEADER_SIZE) with 40. rewrite header_slice. unfold decode_header.
  rewrite take_take. change (Nat.min TUPLE_HEADER_SIZE 40) with TUPLE_HEADER_SIZE. unfold tuple_header in Hh. by rewrite Hh.
Qed.

Lemma header_at_live : header_at p slot = Some hdr.
Proof using Hp Hs H0 Hh.
  destruct live_slot as (_ & _ & _ & _ & _ & _ & _ & _ & _ & Hz & _). unfold header_at.
  rewrite (read_tuple_spec p hd slot (hp_ok _ _ Hp) H0), Hs. cbn [mbind option_bind ok_of].
  rewrite (proj2 (Z.ltb_ge _ _)) by (unfold TUPLE_HEADER_SIZE; lia). unfold tuple_header in Hh. by rewrite Hh.
Qed.

Lemma put_header_live hdr' : put_header slot hdr' p = Some (zsplice (start p slot) (thbytes hdr') p).
Proof using Hp Hs H0 Hh.
  destruct live_slot as (_ & _ & _ & Ee & _ & Hsz & [_ Hf] & _ & _ & Hz & _). unfold put_header.
  fold (start p slot). rewrite (po_len _ _ (hp_ok _ _ Hp)).
  by rewrite !(proj2 (Z.ltb_ge _ _)) by (unfold TUPLE_HEADER_SIZE; lia).
Qed.

Lemma restamp_live f : restamp slot f p = Some (zsplice (start p slot) (thbytes (f hdr)) p).
Proof using Hp Hs H0 Hh. unfold restamp. rewrite header_at_live. apply put_header_live. Qed.

Lemma splice_same : zsplice (start p slot) (thbytes hdr) p = p.
Proof using Hp Hs H0 Hh.
  destruct live_slot as (_ & _ & _ & Ee & Hu & Hsz & _ & Hs0 & _ & Hz & _ & Et).
  apply zsplice_id; rewrite ?zlen_thbytes; [lia| |].
  - rewrite (po_len _ _ (hp_ok _ _ Hp)). lia.
  - by rewrite header_slice.
Qed.

(** The exact stamp of a deletion is the only thing its redo leaves alone. *)
Lemma unless_deleted_live x c :
  unless_deleted slot x c p = Some (zsplice (start p slot) (thbytes (mark_deleted hdr x c)) p).
Proof using Hp Hs H0 Hh.
  unfold unless_deleted. rewrite header_at_live. cbn [mbind option_bind].
  destruct (same_delete hdr x c) eqn:Es; [|apply put_header_live]. unfold same_delete in Es.
  apply andb_true_iff in Es as [[E1%Z.eqb_eq E2%Z.eqb_eq]%andb_true_iff Hm%negb_true_iff]. subst x c.
  assert (mark_deleted hdr (xmax hdr) (cmax hdr) = hdr) as ->; [unfold mark_deleted; rewrite Hm; by destruct hdr|].
  by rewrite splice_same.
Qed.
End live.

Section change.
Context {W : Type} (crc : Z -> list Z -> Z) (sink : WalSink W) (log : W -> Log -> Prop) (floor : Lsn).
Context `{!LogSink sink log floor} (N : Prop) (ckpt : Lsn).
Hypothesis (Hfloor : 0 <= ckpt <= floor).

Abbreviation wp := (wp (W := W) N).
Abbreviation state := (state log ckpt).
Abbreviation changes := (changes floor ckpt).
Abbreviation quiet := (quiet floor ckpt).
Abbreviation good := (good floor).
Abbreviation searched := (searched log floor ckpt).

(** The slot holds a tuple. *)
Definition holds (V : Pages) (tid : TupleId) (t : list Z) : Prop :=
  slots_of (V (tid_page tid)) !! Z.to_nat (tid_slot tid) = Some (SLive t).

(** An identifier an operation may be given. *)
Definition tid_ok (tid : TupleId) : Prop := block_ok (tid_page tid) /\ in_width U16 (tid_slot tid).

Lemma tid_ok_width tid : tid_ok tid -> tid_width tid.
Proof using. intros [(? & ? & ?) ?]. split; [done|]. split; [unfold in_width; lia|done]. Qed.

Lemma good_page V L id : good V L -> exists hd, hpage (V id) hd /\ hd_lsn hd <= top floor L.
Proof using. intros [Hok _]. apply Hok. Qed.

Lemma holds_page V L tid t :
  good V L -> holds V tid t ->
  exists hd hdr, hpage (V (tid_page tid)) hd /\ hd_lsn hd <= top floor L /\
    page_slots (V (tid_page tid)) hd !! Z.to_nat (tid_slot tid) = Some (SLive t) /\ tuple_header t hdr.
Proof using.
  intros Hg Hh. destruct (good_page V L (tid_page tid) Hg) as (hd & Hp & Hl). unfold holds in Hh.
  rewrite (slots_of_eq _ _ (hp_ok _ _ Hp)) in Hh. destruct (hp_tuples _ _ Hp _ _ Hh) as [hdr Hhdr]. by exists hd, hdr.
Qed.

(** ** The page before a change: imaged if it has to be *)

Lemma wp_image wal id xid V L h (Q : result unit HeapError -> Heap W -> Prop) :
  wal = Some sink -> state V L h -> good V L -> block_ok id ->
  (forall e h', state V L h' -> Q (Err e) h') ->
  (forall V1 L1 h', state V1 L1 h' -> quiet V L V1 L1 -> good V1 L1 -> covered ckpt (V1 id) -> Q (Ok tt) h') ->
  wp (fpw_for crc wal id xid) Q h.
Proof using LogSink0 Hfloor.
  intros -> Hs Hg Hb HE HQ. destruct (good_page V L id Hg) as (hd & Hp & Hl). pose proof (proj2 Hg) as Hft. unfold fpw_for.
  eapply (wp_fpw crc sink log floor N ckpt Hfloor id); [done|done|done|done|done|done|].
  intros V1 L1 h1 Hs1 Him Hcov.
  pose proof (image_changes floor ckpt Hfloor V V L id V1 L1 hd Hp Hl Hft Hb eq_refl Him) as Hch.
  destruct (image_slots floor ckpt Hfloor V L id V1 L1 hd Hp Hl Hft Him) as [Hoth (hd1 & Hp1 & Hl1 & Hsl1 & Hft1)].
  assert (quiet V L V1 L1) as Hq; [|eapply HQ; [done|done|by eapply good_quiet|done]].
  split.
  - eapply changes_trans; [exact Hch|]. apply changes_refl. intros j. unfold upd_page. case_decide as E; [by rewrite E|]. by rewrite Hoth.
  - intros j. destruct (decide (j = id)) as [->|Hj]; [|by rewrite Hoth].
    by rewrite (slots_of_eq _ _ (hp_ok _ _ Hp1)), (slots_of_eq _ _ (hp_ok _ _ Hp)).
Qed.

(** ** Deletion *)

Lemma wp_delete_in_place tid x c vm V L h hd t hdr (Q : result unit HeapError -> Heap W -> Prop) :
  let id := tid_page tid in
  state V L h -> hpage (V id) hd -> page_slots (V id) hd !! Z.to_nat (tid_slot tid) = Some (SLive t) -> 0 <= tid_slot tid ->
  tuple_header t hdr ->
  (forall h', state (upd_page id (zsplice (start (V id) (tid_slot tid)) (thbytes (mark_deleted hdr x c)) (V id)) V) L h' -> Q (Ok tt) h') ->
  wp (delete_in_place tid x c vm) Q h.
Proof using.
  intros id Hs Hp Hl H0 Hh HQ.
  destruct (live_slot (V id) hd (tid_slot tid) t hdr Hp Hl H0 Hh) as (Hlt & Hli & _ & Ee & _ & Hsz & _ & _ & _ & Hz & _).
  unfold delete_in_place. fold id. wp_step. eapply wp_guard; [done|]. wp_step. apply hwp_lift.
  rewrite (slot_window_live (V id) hd) by (apply Hp || lia || done). cbn [fst snd].
  rewrite (proj2 (Z.ltb_ge _ _)) by (unfold TUPLE_HEADER_SIZE; lia). wp_step. apply hwp_lift.
  rewrite (decode_header_live (V id) hd (tid_slot tid) t hdr Hp Hl H0 Hh).
  wp_step. eapply wp_some; [apply collect_header_bytes_eq|]. wp_step. eapply wp_vm_clear; [done|]. intros h1 Hs1.
  unfold patch_header. cbv beta iota. apply hwp_bind. eapply wp_guard; [done|].
  rewrite (proj2 (Z.ltb_ge _ _)) by (unfold TUPLE_HEADER_SIZE; lia). eapply hwp_put; [done|]. apply HQ.
Qed.

Lemma delete_redo V id slot x c t hd hdr lsn :
  hpage (V id) hd -> page_slots (V id) hd !! Z.to_nat slot = Some (SLive t) -> 0 <= slot -> tuple_header t hdr ->
  hd_lsn hd < lsn < U64 -> 0 < lsn ->
  page_redo (RDelete (mk_HeapDeletePayload (mk_TupleId id slot) x c)) lsn id (V id) =
    stamp lsn (zsplice (start (V id) slot) (thbytes (mark_deleted hdr x c)) (V id)).
Proof using.
  intros Hp Hl H0 Hh Hlsn Hpos. unfold page_redo. cbn [touches hd_tid tid_page]. rewrite bool_decide_true by done. cbn [negb].
  rewrite (gate_pass lsn ltac:(lia) _ _ hd (hp_ok _ _ Hp) ltac:(lia)). cbn [tid_slot hd_tid hd_xmax hd_cmax].
  by rewrite (unless_deleted_live (V id) hd slot t hdr Hp Hl H0 Hh).
Qed.

(** The tuple after the deletion: its header is stamped, the rest is as before. *)
Definition deleted_tuple (hdr : TupleHeader) (x : Xid) (c : CommandId) (t : list Z) : list Z :=
  thbytes (mark_deleted hdr x c) ++ drop 40 t.

Lemma wp_delete tid opts V L h t (Q : result unit HeapError -> Heap W -> Prop) :
  do_wal opts = Some sink -> state V L h -> good V L -> tid_ok tid -> holds V tid t ->
  in_width U64 (do_xmax opts) -> in_width U32 (do_cmax opts) -> searched V L Q ->
  (forall V' L' h' hdr, tuple_header t hdr -> state V' L' h' -> changes V L V' L' ->
     (forall j, slots_of (V' j) = if decide (j = tid_page tid)
        then <[Z.to_nat (tid_slot tid) := SLive (deleted_tuple hdr (do_xmax opts) (do_cmax opts) t)]> (slots_of (V j))
        else slots_of (V j)) ->
     Q (Ok tt) h') ->
  wp (delete crc tid opts) Q h.
Proof using LogSink0 Hfloor.
  intros Ew Hs Hg [Hb Hsl] Hh Hx Hc [HP HE] HQ. unfold delete. rewrite Ew. set (id := tid_page tid) in *.
  wp_step. wp_step. eapply (wp_image (Some sink)); [done|done|done|done| |].
  { intros e h' Hs'. eapply HE; [done|apply quiet_refl]. }
  intros V1 L1 h1 Hs1 Hq1 Hg1 Hcov. assert (holds V1 tid t) as Hh1 by (unfold holds; by rewrite (proj2 Hq1)).
  destruct (holds_page V1 L1 tid t Hg1 Hh1) as (hd & hdr & Hp & Hl & Hlv & Hhdr). fold id in Hp, Hlv. pose proof (proj2 Hg1) as Hft.
  assert (forall e h', state V1 L1 h' -> Q (Err e) h') as HE1 by (intros; by eapply HE).
  wp_step. wp_step. wp_step. wp_step.
  destruct (HeapDeletePayload_encode _) as [bytes|] eqn:Ee; cbn [result_err]; [|by apply HE1].
  wp_step. wp_step. destruct (new_record crc HeapDelete (do_xmax opts) _ bytes) as [record|] eqn:Er; [|by apply HE1].
  apply new_record_Ok in Er as (Erp & Ert & Erz).
  wp_step. eapply hwp_get_page; [done|]. intros h2 Hs2. split; [|by apply HE1].
  wp_step. eapply wp_delete_in_place; [done|exact Hp|exact Hlv|apply Hsl|exact Hhdr|]. intros h3 Hs3. fold id in Hs3.
  set (q := zsplice _ _ _) in Hs3.
  assert (header_wf hdr) as Hwf by (eapply tuple_header_facts; [eapply (live_bytes_slots (V1 id) hd); [apply Hp|done]|done]).
  destruct (hpage_patched (V1 id) hd (tid_slot tid) t (mark_deleted hdr (do_xmax opts) (do_cmax opts)) Hp Hlv) as (Hpq & Hsq & _);
    [apply Hsl|by apply mark_deleted_wf|]. fold q in Hpq, Hsq.
  wp_step. eapply wp_remember; [done|]. intros h4 Hs4. wp_step.
  eapply (wp_poisoning N). eapply (wp_append sink log floor N ckpt); [done|done| |by intros h' _ h'' ?; apply HP].
  intros lsn h5 Hlsn Hs5. eapply wp_raise; [done|rewrite upd_same; exact Hpq|lia|lia|]. rewrite upd_same. intros q' h6 Eq Hq' Hsl' Hs6.
  assert (state (upd_page id q' V1) (L1 ++ [(lsn, record)]) h6) as Hs6'.
  { eapply state_ext; [exact Hs6|]. intros j. unfold upd_page. repeat case_decide; done. }
  assert (changes V1 L1 (upd_page id q' V1) (L1 ++ [(lsn, record)])) as Hch.
  { eapply (record_changes floor ckpt Hfloor V1 L1 id q
      (RDelete (mk_HeapDeletePayload (mk_TupleId id (tid_slot tid)) (do_xmax opts) (do_cmax opts))) record lsn q' hd hd); try done;
      [|eapply delete_redo; [done|done|apply Hsl|done|lia|lia]].
    unfold decode_heap. rewrite Ert, Erp. replace (mk_TupleId id (tid_slot tid)) with tid by (by destruct tid).
    rewrite (pc_roundtrip (PayloadCodec := HeapDeletePayload_codec) (mk_HeapDeletePayload tid (do_xmax opts) (do_cmax opts)));
      [done| |done]. split; [|done]. replace tid with (mk_TupleId id (tid_slot tid)) by (by destruct tid). by apply tid_fits_of. }
  wp_step. eapply wp_post_fsm; [exact Hs6'|rewrite upd_same; apply Hq'|done|]. intros h7 Hs7.
  eapply wp_bump; [done|]. intros h8 Hs8. eapply HQ; [done|done|eapply changes_trans; [apply Hq1|exact Hch]|].
  intros j. unfold upd_page. rewrite <- (proj2 Hq1 j). case_decide as Ej; [subst j|done].
  by rewrite (slots_of_eq _ _ (hp_ok _ _ Hq')), (slots_of_eq _ _ (hp_ok _ _ Hp)), Hsl', Hsq.
Qed.

(** ** The record of an update *)

Definition update_flags (hot : bool) : Z := if hot then HEAP_UPDATE_HOT else 0.

Lemma wp_emit_update old_tid new_tid hot t opts U L h (Q : result unit HeapError -> Heap W -> Prop) :
  let ids := fun j => j = tid_page new_tid \/ j = tid_page old_tid in
  uo_wal opts = Some sink -> state U L h -> floor <= top floor L -> tid_ok old_tid -> tid_ok new_tid ->
  holds U new_tid t -> zlen t <= PAGE_SIZE -> (forall j, ids j -> exists hd, hpage (U j) hd /\ hd_lsn hd <= top floor L) ->
  (forall e h', wal_error e -> poisoned h' -> Q (Err e) h') ->
  (forall lsn r U' h', decode_heap r = Some (RUpdate (mk_HeapUpdatePayload old_tid new_tid (update_flags hot) t)) ->
     top floor L < lsn < U64 -> state U' (L ++ [(lsn, r)]) h' ->
     (forall j, ids j -> set_lsn (U j) lsn = Some (U' j)) -> (forall j, ~ ids j -> U' j = U j) -> Q (Ok tt) h') ->
  wp (emit_update_wal crc (mk_UpdateOutcome old_tid new_tid hot) opts) Q h.
Proof using LogSink0 Hfloor.
  intros ids Ew Hs Hft [Hbo Hso] [Hbn Hsn] Hh Hlen Hok HP HQ. unfold emit_update_wal. rewrite Ew. cbn [uo_new_tid uo_old_tid uo_hot].
  apply (wp_poisoning N). destruct (Hok (tid_page new_tid)) as (hdn & Hpn & Hln); [by left|].
  unfold holds in Hh. rewrite (slots_of_eq _ _ (hp_ok _ _ Hpn)) in Hh.
  wp_step. eapply wp_copy_slot; [exact Hs|apply Hpn|exact Hh|apply Hsn|]. wp_step. wp_step. wp_step. wp_step.
  fold (update_flags hot). set (p := mk_HeapUpdatePayload old_tid new_tid (update_flags hot) t) in *.
  destruct (HeapUpdatePayload_encode p) as [bytes|] eqn:Ee; cbn [result_err]; [|intros h'' ?; by apply HP].
  wp_step. wp_step. destruct (new_record crc HeapUpdate (uo_xid opts) _ bytes) as [record|] eqn:Er;
    [|intros h'' ?; apply HP; [by eapply new_record_Err|done]].
  apply new_record_Ok in Er as (Erp & Ert & Erz).
  assert (decode_heap record = Some (RUpdate p)) as Hd.
  { unfold decode_heap. rewrite Ert, Erp. rewrite (pc_roundtrip (PayloadCodec := HeapUpdatePayload_codec) p); [done| |done].
    cbn [hu_old_tid hu_new_tid hu_flags hu_new_tuple_bytes p]. destruct Hbo as (? & ? & ?), Hbn as (? & ? & ?).
    split_and!; try done; [by destruct hot; [right|left]|by apply page_len_ceiling]. }
  wp_step. eapply (wp_append sink log floor N ckpt); [done|done| |by intros h' _ h'' ?; apply HP].
  intros lsn h2 Hlsn Hs2. wp_step. eapply wp_raise; [done|exact Hpn|lia|lia|]. intros qn h3 Eqn Hqn Hsln Hs3.
  cbv beta iota. destruct (decide (tid_page old_tid = tid_page new_tid)) as [Heq|Hne].
  - wp_step. eapply (HQ lsn record); [done|done|exact Hs3| |].
    + intros j [->| ->]; rewrite ?Heq, upd_same; done.
    + intros j Hj. apply upd_other. intros ->. apply Hj. by left.
  - destruct (Hok (tid_page old_tid)) as (hdo & Hpo & Hlo); [by right|].
    eapply wp_raise; [done|rewrite upd_other by done; exact Hpo|lia|lia|]. rewrite upd_other by done.
    intros qo h4 Eqo Hqo Hslo Hs4. eapply (HQ lsn record); [done|done|exact Hs4| |].
    + intros j [->| ->]; [rewrite upd_other by done; by rewrite upd_same|by rewrite upd_same].
    + intros j Hj. rewrite !upd_other; [done| |]; intros ->; apply Hj; [by left|by right].
Qed.

(** The pages of an update, changed as the redo of its record changes them. *)
Lemma update_changes p V U L lsn r U' :
  let ids := fun j => j = tid_page (hu_new_tid p) \/ j = tid_page (hu_old_tid p) in
  decode_heap r = Some (RUpdate p) -> (forall j, ids j -> block_ok j) -> floor <= top floor L -> top floor L < lsn < U64 ->
  (forall j, ids j -> page_redo (RUpdate p) lsn j (V j) = stamp lsn (U j)) ->
  (forall j, ids j -> exists hd, hpage (U j) hd /\ hd_lsn hd <= top floor L) ->
  (forall j, ids j -> covered ckpt (V j)) -> (forall j, ~ ids j -> U j = V j) ->
  (forall j, ids j -> set_lsn (U j) lsn = Some (U' j)) -> (forall j, ~ ids j -> U' j = U j) ->
  changes V L U' (L ++ [(lsn, r)]).
Proof using Hfloor.
  intros ids Hd Hb Hft Hlsn Hr Hok Hcov HUV HU' HUo.
  assert (forall j, touches (RUpdate p) j = true <-> ids j) as Ht by (intros j; apply bool_decide_eq_true).
  eapply changes_record; [exact Hd| |done| | |].
  - intros j Hj%Ht. destruct (Hb j Hj) as (_ & ? & ?). done.
  - intros j. destruct (touches (RUpdate p) j) eqn:Et.
    + apply Ht in Et. rewrite Hr by done. destruct (Hok j Et) as (hd & Hp & Hl).
      eapply stamp_is_set; [apply Hp|lia|lia|by apply HU'].
    + rewrite page_redo_other by done. assert (~ ids j) as Hn by (rewrite <- Ht; congruence). by rewrite HUo, HUV.
  - intros j Hj%Ht. destruct (Hok j Hj) as (hd & Hp & Hl).
    destruct (hpage_set_lsn (U j) hd lsn Hp) as (q & Eq & Hq & _); [unfold in_width; lia|].
    rewrite HU' in Eq by done. injection Eq as <-. by eexists.
  - intros j Hj%Ht. right. by apply Hcov.
Qed.

(** ** The new version and the old one *)

Section versions.
Context (old_tid new_tid : TupleId) (hot : bool) (nh : TupleHeader) (payload : list Z) (x : Xid) (c : CommandId).
Hypotheses (Hnh : header_wf nh) (Hx : xmin nh = x) (Hc : cmin nh = c).

Let tnew := thbytes nh ++ payload.
Let upayload := mk_HeapUpdatePayload old_tid new_tid (update_flags hot) tnew.
Let flag := if hot then HOT_UPDATED else UPDATED.
Let dead (hdr : TupleHeader) := superseded hdr x c flag new_tid.

Lemma new_version_eq : new_version upayload = Some (with_ctid nh (ctid_truncated (ctid nh))).
Proof using Hnh.
  unfold new_version, upayload. cbn [hu_new_tuple_bytes]. unfold tnew. rewrite zlen_header_app.
  rewrite (proj2 (Z.ltb_ge _ _)) by (pose proof (zlen_nonneg payload); unfold TUPLE_HEADER_SIZE; lia).
  pose proof (header_tuple_ok nh payload Hnh) as E. unfold tuple_header in E. by rewrite E.
Qed.

Lemma redo_superseded_eq hdr : redo_superseded upayload (with_ctid nh (ctid_truncated (ctid nh))) hdr = dead hdr.
Proof using Hx Hc.
  unfold redo_superseded, dead, upayload. cbn [hu_flags hu_new_tid with_ctid xmin cmin]. rewrite Hx, Hc. f_equal.
  unfold flag, update_flags, redo_flag. by destruct hot.
Qed.

Lemma filled_live p hd slot t :
  hpage p hd -> page_slots p hd !! Z.to_nat slot = Some (SLive t) -> 0 <= slot -> filled p slot = Some true.
Proof using.
  clear dead flag. intros Hp Hs H0. destruct (hp_tuples _ _ Hp _ _ Hs) as [hdr Hh].
  destruct (live_slot p hd slot t hdr Hp Hs H0 Hh) as (Hlt & _ & _ & _ & _ & _ & _ & _ & _ & Hz & _).
  pose proof (page_header_ok _ _ (hp_ok _ _ Hp)) as Hho. unfold filled.
  rewrite (page_header_eq _ _ (hp_ok _ _ Hp)). cbn [mbind option_bind]. rewrite (slot_count_eq _ Hho). cbn [mbind option_bind].
  rewrite (proj2 (Z.ltb_lt _ _)) by done. rewrite (read_tuple_spec p hd slot (hp_ok _ _ Hp) H0), Hs. cbn [mbind option_bind].
  by destruct (Z.eqb_spec (zlen t) 0); [lia|].
Qed.

(** The old version, on the page that got the new one. *)
Lemma old_after_insert p hd slot q hd' told :
  hpage p hd -> inserted p hd slot tnew q hd' ->
  page_slots p hd !! Z.to_nat (tid_slot old_tid) = Some (SLive told) -> 0 <= tid_slot old_tid ->
  slot <> tid_slot old_tid /\ page_slots q hd' !! Z.to_nat (tid_slot old_tid) = Some (SLive told).
Proof using.
  clear dead flag. intros Hp Hi Hs H0. destruct (in_slot _ _ _ _ _ _ Hi) as [Hs0 _].
  assert (slot <> tid_slot old_tid) as Hne.
  { intros ->. pose proof (filled_live p hd _ told Hp Hs H0) as E. by rewrite (in_free _ _ _ _ _ _ Hi) in E. }
  split; [done|]. rewrite (in_slots _ _ _ _ _ _ Hi), put_slot_lookup by done.
  rewrite decide_False by lia. case_decide; [|done]. by rewrite Hs.
Qed.

(** Both versions on one page. *)
Lemma same_page_redo p hd q hd' told hdr lsn :
  tid_page old_tid = tid_page new_tid -> hpage p hd -> inserted p hd (tid_slot new_tid) tnew q hd' ->
  page_slots p hd !! Z.to_nat (tid_slot old_tid) = Some (SLive told) -> 0 <= tid_slot old_tid -> tuple_header told hdr ->
  hd_lsn hd < lsn < U64 -> 0 < lsn ->
  page_redo (RUpdate upayload) lsn (tid_page new_tid) p = stamp lsn (zsplice (start q (tid_slot old_tid)) (thbytes (dead hdr)) q).
Proof using Hnh Hx Hc.
  intros Heq Hp Hi Hs H0 Hh Hlsn Hpos. destruct (old_after_insert p hd _ q hd' told Hp Hi Hs H0) as [_ Hs'].
  unfold page_redo. cbn [touches]. rewrite bool_decide_true by (by left). cbn [negb]. rewrite new_version_eq. cbn [mbind option_bind].
  rewrite (gate_pass lsn ltac:(lia) _ _ hd (hp_ok _ _ Hp) ltac:(lia)). unfold update_page. cbn [upayload hu_old_tid hu_new_tid hu_new_tuple_bytes].
  rewrite decide_True by done. unfold fill. rewrite (in_free _ _ _ _ _ _ Hi). cbn [mbind option_bind].
  rewrite (in_redo _ _ _ _ _ _ Hi). cbn [mbind option_bind].
  rewrite (restamp_live q hd' (tid_slot old_tid) told hdr (in_page _ _ _ _ _ _ Hi) Hs' H0 Hh).
  cbn [mbind option_bind]. fold upayload. by rewrite redo_superseded_eq.
Qed.

(** The versions on two pages. *)
Lemma new_page_redo p hd q hd' lsn :
  tid_page old_tid <> tid_page new_tid -> page_ok p hd -> inserted p hd (tid_slot new_tid) tnew q hd' ->
  hd_lsn hd < lsn < U64 -> 0 < lsn -> page_redo (RUpdate upayload) lsn (tid_page new_tid) p = stamp lsn q.
Proof using Hnh.
  intros Hne Hp Hi Hlsn Hpos. unfold page_redo. cbn [touches]. rewrite bool_decide_true by (by left). cbn [negb].
  rewrite new_version_eq. cbn [mbind option_bind].
  rewrite (gate_pass lsn ltac:(lia) _ _ hd Hp ltac:(lia)). unfold update_page. cbn [upayload hu_old_tid hu_new_tid hu_new_tuple_bytes].
  rewrite decide_False, decide_True by done. unfold fill. rewrite (in_free _ _ _ _ _ _ Hi). cbn [mbind option_bind].
  by rewrite (in_redo _ _ _ _ _ _ Hi).
Qed.

Lemma old_page_redo p hd told hdr lsn :
  tid_page old_tid <> tid_page new_tid -> hpage p hd ->
  page_slots p hd !! Z.to_nat (tid_slot old_tid) = Some (SLive told) -> 0 <= tid_slot old_tid -> tuple_header told hdr ->
  hd_lsn hd < lsn < U64 -> 0 < lsn ->
  page_redo (RUpdate upayload) lsn (tid_page old_tid) p = stamp lsn (zsplice (start p (tid_slot old_tid)) (thbytes (dead hdr)) p).
Proof using Hnh Hx Hc.
  intros Hne Hp Hs H0 Hh Hlsn Hpos. unfold page_redo. cbn [touches]. rewrite bool_decide_true by (by right). cbn [negb].
  rewrite new_version_eq. cbn [mbind option_bind].
  rewrite (gate_pass lsn ltac:(lia) _ _ hd (hp_ok _ _ Hp) ltac:(lia)). unfold update_page. cbn [upayload hu_old_tid hu_new_tid hu_new_tuple_bytes].
  rewrite !decide_False by done. rewrite (restamp_live p hd (tid_slot old_tid) told hdr Hp Hs H0 Hh).
  cbn [mbind option_bind]. fold upayload. by rewrite redo_superseded_eq.
Qed.
End versions.
End change.
