(* ===== verification/HeapUpdate.v ===== *)
(** * Update

    On the page of the old version when it has room and the caller allows it,
    else on another page: in both cases one record describes both versions. *)

From S2P Require Import Prelude CoreIds TupleHeader WalRecord WalPayload WalPayloadHeap WalSink Bytes Page PageSpec HeapMaps Heap HeapRedo HeapPage HeapReplay HeapTrace HeapLogic HeapInsert HeapChange.

Section update.
Context {W : Type} (crc : Z -> list Z -> Z) (sink : WalSink W) (log : W -> Log -> Prop) (floor : Lsn).
Context `{!LogSink sink log floor} (N : Prop) (ckpt : Lsn).
Hypothesis (Hfloor : 0 <= ckpt <= floor).

Abbreviation wp := (wp (W := W) N).
Abbreviation state := (state log ckpt).
Abbreviation changes := (changes floor ckpt).
Abbreviation quiet := (quiet floor ckpt).
Abbreviation good := (good floor).
Abbreviation searched := (searched log floor ckpt).

Context (old_tid : TupleId) (payload told : list Z) (hdr : TupleHeader) (opts : UpdateOptions W).
Hypotheses (Hwal : uo_wal opts = Some sink) (Hold : tid_ok old_tid) (Hhdr : tuple_header told hdr).
Hypotheses (Hpay : Forall is_byte payload) (Hlen : zlen payload < U32).
Hypotheses (Hxid : in_width U64 (uo_xid opts)) (Hcid : in_width U32 (uo_command_id opts)).

Abbreviation oid := (tid_page old_tid).
Abbreviation oslot := (tid_slot old_tid).

Lemma wp_read_live (Q : result TupleHeader HeapError -> Heap W -> Prop) U L h hd :
  state U L h -> hpage (U oid) hd -> page_slots (U oid) hd !! Z.to_nat oslot = Some (SLive told) ->
  (updatable hdr = false -> forall e, Q (Err e) h) -> (updatable hdr = true -> Q (Ok hdr) h) ->
  wp (read_live_header oid oslot) Q h.
Proof using Hold Hhdr.
  intros Hs Hp Hl HE HQ. destruct Hold as [_ [H0 _]].
  destruct (live_slot (U oid) hd oslot told hdr Hp Hl H0 Hhdr) as (_ & _ & _ & _ & _ & _ & _ & _ & _ & Hz & _).
  unfold read_live_header. wp_step. eapply wp_copy_slot; [exact Hs|apply Hp|exact Hl|exact H0|].
  rewrite (proj2 (Z.ltb_ge _ _)) by (unfold TUPLE_HEADER_SIZE; lia). wp_step. apply hwp_lift.
  unfold decode_header. unfold tuple_header in Hhdr. rewrite Hhdr. destruct (updatable hdr); [by apply hwp_ret, HQ|by apply hwp_throw, HE].
Qed.

Definition dead_header (flag : Z) (new_tid : TupleId) : TupleHeader :=
  superseded hdr (uo_xid opts) (uo_command_id opts) flag new_tid.

(** The old version on a page [q], superseded. *)
Definition stamped (flag : Z) (new_tid : TupleId) (q : Page) : Page :=
  zsplice (start q oslot) (thbytes (dead_header flag new_tid)) q.

Lemma hdr_wf p hd : hpage p hd -> page_slots p hd !! Z.to_nat oslot = Some (SLive told) -> header_wf hdr.
Proof using Hhdr. intros Hp Hs. eapply tuple_header_facts; [eapply live_bytes_slots; [apply Hp|done]|done]. Qed.

Lemma wp_patch_old flag new_tid what (Q : result unit HeapError -> Heap W -> Prop) U L h hd :
  state U L h -> hpage (U oid) hd -> page_slots (U oid) hd !! Z.to_nat oslot = Some (SLive told) ->
  (forall h', state (upd_page oid (stamped flag new_tid (U oid)) U) L h' -> Q (Ok tt) h') ->
  wp (checked_patch oid (start (U oid) oslot) (thbytes (dead_header flag new_tid)) what) Q h.
Proof using Hold Hhdr.
  intros Hs Hp Hl HQ. destruct Hold as [_ [H0 _]].
  destruct (live_slot (U oid) hd oslot told hdr Hp Hl H0 Hhdr) as (_ & _ & _ & Ee & _ & Hsz & _ & _ & _ & Hz & _).
  unfold checked_patch. wp_step. eapply wp_guard; [done|].
  rewrite (proj2 (Z.ltb_ge _ _)) by (unfold TUPLE_HEADER_SIZE; lia). eapply hwp_put; [done|]. apply HQ.
Qed.

Lemma wp_window_old {A} (k : Page -> Z * Z -> HM W HeapError A) (Q : result A HeapError -> Heap W -> Prop) U L h hd :
  state U L h -> hpage (U oid) hd -> page_slots (U oid) hd !! Z.to_nat oslot = Some (SLive told) ->
  wp (k (U oid) (start (U oid) oslot, zlen told)) Q h ->
  wp (page ← guard_page oid; window ← hlift (slot_window page oslot); k page window) Q h.
Proof using Hold Hhdr.
  intros Hs Hp Hl HQ. destruct Hold as [_ [H0 _]].
  destruct (live_slot (U oid) hd oslot told hdr Hp Hl H0 Hhdr) as (Hlt & Hli & _ & Ee & _).
  wp_step. eapply wp_guard; [done|]. wp_step. apply hwp_lift.
  rewrite (slot_window_live (U oid) hd) by (apply Hp || lia || done). by rewrite Ee.
Qed.

(** ** The old version of a non-HOT update *)

Lemma wp_stamp_old new_tid (Q : result unit HeapError -> Heap W -> Prop) U L h hd :
  state U L h -> hpage (U oid) hd -> page_slots (U oid) hd !! Z.to_nat oslot = Some (SLive told) ->
  (updatable hdr = false -> forall e, Q (Err e) h) ->
  (updatable hdr = true -> forall h', state (upd_page oid (stamped UPDATED new_tid (U oid)) U) L h' -> Q (Ok tt) h') ->
  wp (stamp_updated_old old_tid new_tid opts) Q h.
Proof using Hold Hhdr.
  intros Hs Hp Hl HE HQ. destruct (live_slot (U oid) hd oslot told hdr Hp Hl (proj1 (proj2 Hold)) Hhdr)
    as (_ & _ & _ & _ & _ & _ & _ & _ & _ & Hz & _). unfold stamp_updated_old. wp_step. eapply wp_read_live; [done|exact Hp|done|exact HE|].
  intros Hu. wp_step. eapply wp_some; [apply collect_header_bytes_eq|]. eapply wp_window_old; [done|exact Hp|done|]. cbn [fst snd].
  rewrite (proj2 (Z.ltb_ge _ _)) by (unfold TUPLE_HEADER_SIZE; lia). wp_step. eapply wp_patch_old; [done|exact Hp|done|].
  intros h1 Hs1. eapply wp_vm_clear; [done|]. by apply HQ.
Qed.

(** ** On the same page *)

Definition hot_header (new_tid : TupleId) : TupleHeader :=
  with_ctid (mk_TupleHeader (uo_xid opts) Xid_INVALID (uo_command_id opts) CommandId_FIRST
    (mask_set 0 (Z.lor HOT_UPDATED UPDATED)) (n_atts hdr) 0 (mk_TupleId oid 0)) new_tid.

Lemma hot_header_wf new_tid : header_wf hdr -> tid_width new_tid -> header_wf (hot_header new_tid).
Proof using Hxid Hcid.
  intros (_&_&_&_&_&_&Hn&_) Ht. destruct Ht as (Hr & Hb & Hs). unfold header_wf. by split_and!.
Qed.

Lemma wp_try_hot (Q : result (option TupleId) HeapError -> Heap W -> Prop) V L h hd :
  state V L h -> hpage (V oid) hd -> page_slots (V oid) hd !! Z.to_nat oslot = Some (SLive told) ->
  (forall e, Q (Err e) h) -> Q (Ok None) h ->
  (forall slot q hd' h', updatable hdr = true -> header_wf (hot_header (mk_TupleId oid slot)) ->
     inserted (V oid) hd slot (thbytes (hot_header (mk_TupleId oid slot)) ++ payload) q hd' ->
     page_slots q hd' !! Z.to_nat oslot = Some (SLive told) ->
     state (upd_page oid (stamped HOT_UPDATED (mk_TupleId oid slot) q) V) L h' -> Q (Ok (Some (mk_TupleId oid slot))) h') ->
  wp (try_hot_update old_tid payload opts (40 + zlen payload)) Q h.
Proof using Hold Hhdr Hpay Hlen Hxid Hcid.
  intros Hs Hp Hl HE HN HQ. pose proof (hdr_wf _ _ Hp Hl) as Hwf.
  pose proof (page_header_ok _ _ (hp_ok _ _ Hp)) as Hho. unfold try_hot_update.
  wp_step. eapply wp_read_live; [done|exact Hp|done|by intros|]. intros Hu.
  wp_step. eapply wp_guard; [done|]. wp_step. eapply wp_some; [apply page_header_eq, Hp|]. wp_step.
  eapply wp_some; [by apply free_space_Some|].
  assert (checked_tuple_space_needed (40 + zlen payload) = Ok (40 + zlen payload + ITEMID_SIZE)) as ->.
  { unfold checked_tuple_space_needed, checked_add. pose proof (zlen_nonneg payload).
    by rewrite (proj2 (Z.ltb_lt _ _)) by (unfold ITEMID_SIZE, U64, U32 in *; lia). }
  wp_step. wp_step. cbv beta iota.
  destruct (Z.ltb_spec (hd_upper hd - hd_lower hd) (40 + zlen payload + ITEMID_SIZE)) as [|Hge]; [by apply hwp_ret|].
  cbn [fresh xmin xmax cmin cmax infomask n_atts data_offset ctid].
  change (mk_TupleHeader (uo_xid opts) Xid_INVALID (uo_command_id opts) CommandId_FIRST
    (mask_set 0 (Z.lor HOT_UPDATED UPDATED)) (n_atts hdr) 0 (mk_TupleId oid 0)) with (hot_header (mk_TupleId oid 0)).
  wp_step. eapply wp_some; [apply encode_collect|].
  pose proof (lands_append (V oid) hd (hp_ok _ _ Hp)) as Hland.
  destruct (inserted_intro (V oid) hd (n_slots hd) 1 (thbytes (hot_header (mk_TupleId oid 0))) payload Hp Hland)
    as (p1 & off & E1 & Ew & Hoff & Hfin); [apply length_header_bytes|apply thbytes_bytes|done|rewrite zlen_header_app; lia|].
  set (slot := n_slots hd) in *.
  assert (in_width U16 slot) as Hsw.
  { destruct Hold as [(? & ? & ?) ?].
    destruct (Hfin _ (hot_header_wf (mk_TupleId oid 0) Hwf ltac:(split_and!; [done|unfold in_width; cbn; lia|done]))) as [? Hi]. apply Hi. }
  assert (header_wf (hot_header (mk_TupleId oid slot))) as Hwf'.
  { destruct Hold as [(? & ? & ?) ?]. apply hot_header_wf; [done|]. split_and!; [done|unfold in_width; cbn; lia|done]. }
  wp_step. eapply (wp_put_result log N ckpt oid _ slot p1); [done| |].
  { rewrite (appended_eq (V oid) hd); [fold slot; by rewrite E1|apply Hp|]. apply (fits_check (V oid) hd); [apply Hp|].
    rewrite zlen_header_app. unfold ITEMID_SIZE in *. lia. }
  intros h1 Hs1. wp_step. eapply wp_some; [apply collect_header_bytes_eq|].
  change (with_ctid (hot_header (mk_TupleId oid 0)) (mk_TupleId oid slot)) with (hot_header (mk_TupleId oid slot)).
  wp_step. eapply wp_guard; [done|]. rewrite upd_same. wp_step. apply hwp_lift. rewrite Ew. cbn [fst].
  wp_step. unfold checked_patch at 1. wp_step. eapply wp_guard; [done|]. rewrite upd_same.
  rewrite (proj2 (Z.ltb_ge _ _)) by (unfold TUPLE_HEADER_SIZE; lia). eapply hwp_put; [done|]. intros h2 Hs2.
  destruct (Hfin _ Hwf') as (hd' & Hi). set (q := zsplice off _ p1) in *.
  pose proof (in_page _ _ _ _ _ _ Hi) as Hq.
  destruct (old_after_insert old_tid (hot_header (mk_TupleId oid slot)) payload (V oid) hd slot q hd' told Hp Hi Hl)
    as [_ Hl']; [apply Hold|].
  assert (state (upd_page oid q V) L h2) as Hs2' by (eapply state_ext; [exact Hs2|]; intros j; unfold upd_page; repeat case_decide; done).
  cbv beta iota. eapply wp_window_old; [exact Hs2'|rewrite upd_same; exact Hq|rewrite upd_same; exact Hl'|]. cbn [fst snd].
  destruct (live_slot q hd' oslot told hdr Hq Hl' (proj1 (proj2 Hold)) Hhdr) as (_ & _ & _ & _ & _ & _ & _ & _ & _ & Hz & _).
  rewrite (proj2 (Z.ltb_ge _ _)) by (unfold TUPLE_HEADER_SIZE; lia).
  wp_step. apply hwp_lift. rewrite !upd_same, (decode_header_live q hd' oslot told hdr Hq Hl' (proj1 (proj2 Hold)) Hhdr).
  wp_step. eapply wp_some; [apply collect_header_bytes_eq|]. fold (dead_header HOT_UPDATED (mk_TupleId oid slot)).
  wp_step. replace (start q oslot) with (start (upd_page oid q V oid) oslot) by (by rewrite upd_same).
  eapply (wp_patch_old HOT_UPDATED (mk_TupleId oid slot) _ _ (upd_page oid q V));
    [exact Hs2'|rewrite upd_same; exact Hq|rewrite upd_same; exact Hl'|].
  intros h3 Hs3. wp_step. eapply wp_vm_clear; [done|]. intros h4 Hs4. wp_step.
  rewrite upd_same in Hs4.
  eapply HQ; [done|done|exact Hi|exact Hl'|]. eapply state_ext; [exact Hs4|]. intros j. unfold upd_page. repeat case_decide; done.
Qed.

(** ** What an update does to the slots *)

(** The slot of [tid] holds no tuple. *)
Definition free_at (V : Pages) (tid : TupleId) : Prop :=
  forall t, slots_of (V (tid_page tid)) !! Z.to_nat (tid_slot tid) <> Some (SLive t).

Lemma inserted_free V tid t q hd hd' :
  hpage (V (tid_page tid)) hd -> inserted (V (tid_page tid)) hd (tid_slot tid) t q hd' -> free_at V tid.
Proof using.
  intros Hp Hi u Hu. rewrite (slots_of_eq _ _ (hp_ok _ _ Hp)) in Hu.
  destruct (in_slot _ _ _ _ _ _ Hi) as [H0 _]. pose proof (filled_live _ _ _ _ Hp Hu H0) as E.
  by rewrite (in_free _ _ _ _ _ _ Hi) in E.
Qed.

Definition dead_tuple (flag : Z) (new_tid : TupleId) : list Z := thbytes (dead_header flag new_tid) ++ drop 40 told.

Definition updated (V V' : Pages) (flag : Z) (new_tid : TupleId) (tnew : list Z) : Prop :=
  free_at V new_tid /\
  forall j, slots_of (V' j) =
    let s := if decide (j = tid_page new_tid) then put_slot (slots_of (V j)) (tid_slot new_tid) tnew else slots_of (V j) in
    if decide (j = oid) then <[Z.to_nat oslot := SLive (dead_tuple flag new_tid)]> s else s.

Lemma stamped_page flag new_tid q hd :
  0 <= flag < 4096 -> tid_width new_tid -> hpage q hd -> page_slots q hd !! Z.to_nat oslot = Some (SLive told) ->
  hpage (stamped flag new_tid q) hd /\
  page_slots (stamped flag new_tid q) hd = <[Z.to_nat oslot := SLive (dead_tuple flag new_tid)]> (page_slots q hd).
Proof using Hold Hhdr Hxid Hcid.
  intros Hf Ht Hp Hs. destruct (hpage_patched q hd oslot told (dead_header flag new_tid) Hp Hs) as (Hp' & Hs' & _);
    [apply Hold|apply superseded_wf; [by eapply hdr_wf|done|done|done|done]|]. done.
Qed.

(** Stamping the LSN keeps the slots. *)
Lemma set_lsn_slots (U U' : Pages) lsn j hd :
  0 < lsn < U64 -> hpage (U j) hd -> set_lsn (U j) lsn = Some (U' j) -> slots_of (U' j) = slots_of (U j).
Proof using.
  intros Hl Hp E. destruct (hpage_set_lsn (U j) hd lsn Hp) as (q & Eq & Hq & Hs); [unfold in_width; lia|].
  rewrite E in Eq. injection Eq as <-. by rewrite (slots_of_eq _ _ (hp_ok _ _ Hq)), (slots_of_eq _ _ (hp_ok _ _ Hp)), Hs.
Qed.

(** The end of both paths: the pages [U] hold both versions, the record is written. *)
Lemma wp_finish (hot : bool) nh new_tid V L U h (Q : result unit HeapError -> Heap W -> Prop) :
  let tnew := thbytes nh ++ payload in
  let flag := if hot then HOT_UPDATED else UPDATED in
  let upayload := mk_HeapUpdatePayload old_tid new_tid (update_flags hot) tnew in
  let ids := fun j => j = tid_page new_tid \/ j = oid in
  state U L h -> good V L -> tid_ok new_tid -> zlen tnew <= PAGE_SIZE -> holds U new_tid tnew ->
  (forall j, ids j -> covered ckpt (V j)) -> (forall j, ~ ids j -> U j = V j) ->
  (forall j, ids j -> exists hd, hpage (U j) hd /\ hd_lsn hd <= top floor L) ->
  (forall j lsn, ids j -> top floor L < lsn < U64 -> page_redo (RUpdate upayload) lsn j (V j) = stamp lsn (U j)) ->
  (forall e h', wal_error e -> poisoned h' -> Q (Err e) h') ->
  (forall U' L' h', state U' L' h' -> changes V L U' L' -> (forall j, slots_of (U' j) = slots_of (U j)) -> Q (Ok tt) h') ->
  wp (emit_update_wal crc (mk_UpdateOutcome old_tid new_tid hot) opts) Q h.
Proof using LogSink0 Hfloor Hwal Hold.
  intros tnew flag upayload ids Hs Hg Hnew Hln Hh Hcov HUV Hok Hredo HP HQ. pose proof (proj2 Hg) as Hft.
  eapply (wp_emit_update crc sink log floor N ckpt Hfloor old_tid new_tid hot tnew); [done|exact Hs|done|done|done|done|done|done|done|].
  intros lsn r U' h' Hd Hlsn Hs' HU' HUo. eapply HQ; [exact Hs'| |].
  - eapply (update_changes floor ckpt Hfloor upayload V U L lsn r U'); try done; [|by intros j Hj; apply Hredo].
    intros j [->| ->]; [apply Hnew|apply Hold].
  - intros j. destruct (decide (ids j)) as [Hj|Hj]; [|by rewrite HUo].
    destruct (Hok j Hj) as (hd & Hp & _). eapply set_lsn_slots; [|done|by apply HU']. lia.
Qed.

(** ** The path on the same page *)

Lemma wp_update_hot V L h (Q : result (option UpdateOutcome) HeapError -> Heap W -> Prop) :
  state V L h -> good V L -> holds V old_tid told -> searched V L Q ->
  (forall V' L' h', state V' L' h' -> quiet V L V' L' -> Q (Ok None) h') ->
  (forall new_tid V' L' h', updatable hdr = true -> tid_ok new_tid -> tid_page new_tid = oid -> header_wf (hot_header new_tid) ->
     state V' L' h' -> changes V L V' L' -> updated V V' HOT_UPDATED new_tid (thbytes (hot_header new_tid) ++ payload) ->
     Q (Ok (Some (mk_UpdateOutcome old_tid new_tid true))) h') ->
  wp (update_hot crc old_tid payload opts (40 + zlen payload)) Q h.
Proof using LogSink0 Hfloor Hwal Hold Hhdr Hpay Hlen Hxid Hcid.
  intros Hs Hg Hh [HP HE] HN HQ. unfold update_hot. wp_step.
  eapply (wp_image crc sink log floor N ckpt Hfloor (uo_wal opts)); [done|done|done|apply Hold| |].
  { intros e h' Hs'. eapply HE; [done|apply quiet_refl]. }
  intros V1 L1 h1 Hs1 Hq1 Hg1 Hcov. assert (holds V1 old_tid told) as Hh1 by (unfold holds; by rewrite (proj2 Hq1)).
  destruct (holds_page floor V1 L1 old_tid told Hg1 Hh1) as (hd & _ & Hp & Hl & Hlv & _). pose proof (proj2 Hg1) as Hft.
  wp_step. eapply hwp_get_page; [done|]. intros h2 Hs2. split; [|by eapply HE].
  wp_step. eapply wp_try_hot; [done|exact Hp|done|intros e; by eapply HE|wp_step; by eapply HN|].
  intros slot q hd' h3 Hu Hwf Hi Hlq Hs3. set (new_tid := mk_TupleId oid slot) in *.
  assert (tid_ok new_tid) as Hnew by (split; [apply Hold|apply Hi]).
  destruct (stamped_page HOT_UPDATED new_tid q hd') as [Hq2 Hsl2]; [done|by apply tid_ok_width|apply Hi|done|].
  destruct (old_after_insert old_tid (hot_header new_tid) payload (V1 oid) hd slot q hd' told Hp Hi Hlv) as [Hne _]; [apply Hold|].
  wp_step. eapply wp_remember; [done|]. intros h4 Hs4. wp_step.
  assert (forall lsn, top floor L1 < lsn < U64 -> page_redo (RUpdate (mk_HeapUpdatePayload old_tid new_tid (update_flags true)
    (thbytes (hot_header new_tid) ++ payload))) lsn oid (V1 oid) = stamp lsn (stamped HOT_UPDATED new_tid q)) as Hredo.
  { intros lsn Hlsn. eapply (same_page_redo old_tid new_tid true (hot_header new_tid) payload (uo_xid opts) (uo_command_id opts));
      [done|done|done|done|exact Hp|exact Hi|exact Hlv|apply Hold|done|lia|lia]. }
  eapply (wp_finish true (hot_header new_tid) new_tid V1 L1); [exact Hs4|done|done|apply Hi| | | | | |by apply HP|].
  - unfold holds. cbn [tid_page new_tid]. rewrite upd_same, (slots_of_eq _ _ (hp_ok _ _ Hq2)), Hsl2.
    destruct (in_slot _ _ _ _ _ _ Hi) as [Hs0 _], Hold as [_ [Ho0 _]]. change (tid_slot new_tid) with slot.
    rewrite list_lookup_insert_ne by lia. by eapply inserted_lookup.
  - intros j [->| ->]; done.
  - intros j Hj. apply upd_other. intros ->. apply Hj. by right.
  - intros j [->| ->]; cbn [tid_page new_tid]; rewrite upd_same; exists hd'; (split; [done|]); rewrite (in_lsn _ _ _ _ _ _ Hi); done.
  - intros j lsn [->| ->] Hlsn; cbn [tid_page new_tid]; rewrite upd_same; by apply Hredo.
  - intros U' L' h5 Hs5 Hch HslU. wp_step. eapply wp_invalidate; [done|]. intros h6 Hs6. wp_step. eapply wp_bump; [done|].
    intros h7 Hs7. wp_step. eapply HQ; [done|done|done|done|done|eapply changes_trans; [apply Hq1|done]|].
    split; [intros t; unfold free_at in *; rewrite <- (proj2 Hq1); by eapply (inserted_free V1 new_tid)|].
    intros j. rewrite HslU, <- (proj2 Hq1 j). unfold upd_page. cbn [tid_page new_tid tid_slot]. case_decide as Ej; [subst j|done].
    by rewrite (slots_of_eq _ _ (hp_ok _ _ Hq2)), Hsl2, (in_slots _ _ _ _ _ _ Hi), (slots_of_eq _ _ (hp_ok _ _ Hp)).
Qed.

(** ** The path through another insertion *)

Definition cold_opts : InsertOptions W :=
  mk_InsertOptions (uo_xid opts) (uo_command_id opts) (n_atts hdr) None false (uo_vm opts).
Definition cold_header (new_tid : TupleId) : TupleHeader := new_header cold_opts (n_atts hdr) new_tid.

Lemma hwp_fetch (Q : result HeapTuple HeapError -> Heap W -> Prop) V L h :
  state V L h -> good V L -> holds V old_tid told -> (forall e h', state V L h' -> Q (Err e) h') ->
  (forall h', state V L h' -> Q (Ok (mk_HeapTuple old_tid hdr (drop 40 told))) h') -> wp (fetch old_tid) Q h.
Proof using Hold Hhdr.
  intros Hs Hg Hh HE HQ. destruct (holds_page floor V L old_tid told Hg Hh) as (hd & _ & Hp & _ & Hl & _). destruct Hold as [_ [H0 _]].
  destruct (live_slot (V oid) hd oslot told hdr Hp Hl H0 Hhdr) as (_ & _ & _ & _ & _ & _ & _ & _ & _ & Hz & _).
  unfold fetch. wp_step. eapply hwp_get_page; [done|]. intros h1 Hs1. split; [|by apply HE].
  wp_step. eapply wp_copy_slot; [exact Hs1|apply Hp|exact Hl|exact H0|]. apply hwp_lift. unfold decode_tuple.
  rewrite (proj2 (Z.ltb_ge _ _)) by (unfold TUPLE_HEADER_SIZE; lia). unfold decode_header.
  unfold tuple_header in Hhdr. rewrite Hhdr. by apply HQ.
Qed.

(** No image is due for a page that is covered. *)
Lemma wp_fpw_covered id xid (Q : result unit HeapError -> Heap W -> Prop) U L h hd :
  state U L h -> page_ok (U id) hd -> covered ckpt (U id) -> (forall e h', state U L h' -> Q (Err e) h') ->
  (forall h', state U L h' -> Q (Ok tt) h') -> wp (maybe_emit_fpw crc id sink xid) Q h.
Proof using.
  intros Hs Hp Hcov HE HQ. unfold maybe_emit_fpw. wp_step. wp_step. assert (h_checkpoint_lsn h = ckpt) as -> by apply Hs.
  cbv beta iota. destruct (Z.eqb_spec ckpt 0) as [|Hnz]; [by apply hwp_ret, HQ|].
  wp_step. eapply hwp_get_page; [done|]. intros h1 Hs1. split; [|by apply HE].
  wp_step. eapply wp_guard; [done|]. wp_step. eapply wp_some; [by apply page_header_eq|].
  destruct Hcov as [|(hd2 & Hp2 & Hle)]; [done|].
  assert (hd2 = hd) as -> by (pose proof (po_header _ _ Hp2) as E; rewrite (po_header _ _ Hp) in E; by apply Ok_inj in E).
  rewrite (proj2 (Z.leb_le _ _)) by done. by apply hwp_ret, HQ.
Qed.

(** The image of the old page while the new version waits for its record. *)
Lemma wp_image_old nid q V L h hdq (Q : result unit HeapError -> Heap W -> Prop) :
  state (upd_page nid q V) L h -> good V L -> page_ok q hdq -> (nid = oid -> covered ckpt q) ->
  (forall e h', Q (Err e) h') ->
  (forall V2 L2 h', state (upd_page nid q V2) L2 h' -> quiet V L V2 L2 -> good V2 L2 -> V2 nid = V nid ->
     (nid <> oid -> covered ckpt (V2 oid)) -> Q (Ok tt) h') ->
  wp (fpw_for crc (uo_wal opts) oid (uo_xid opts)) Q h.
Proof using LogSink0 Hfloor Hwal Hold.
  intros Hs Hg Hq Hcov HE HQ. rewrite Hwal. cbn [fpw_for]. destruct (decide (nid = oid)) as [Heq|Hne].
  - eapply wp_fpw_covered; [exact Hs|rewrite <- Heq, upd_same; exact Hq|rewrite <- Heq, upd_same; by apply Hcov|by intros|].
    intros h' Hs'. eapply HQ; [exact Hs'|apply quiet_refl|done|done|done].
  - destruct (good_page floor V L oid Hg) as (hd & Hp & Hl). pose proof (proj2 Hg) as Hft.
    eapply (wp_fpw crc sink log floor N ckpt Hfloor oid);
      [exact Hs|rewrite upd_other by done; exact Hp|done|done|apply Hold|by intros|].
    intros U' L' h' Hs' Him Hcov'. assert (upd_page nid q V oid = V oid) as Eo by (by apply upd_other).
    pose proof (image_changes floor ckpt Hfloor V (upd_page nid q V) L oid U' L' hd
      ltac:(by rewrite Eo) Hl Hft (proj1 Hold) (eq_sym Eo) Him) as Hch.
    destruct (image_slots floor ckpt Hfloor (upd_page nid q V) L oid U' L' hd ltac:(by rewrite Eo) Hl Hft Him)
      as [Hoth (hd1 & Hp1 & Hl1 & Hsl1 & _)].
    assert (quiet V L (upd_page oid (U' oid) V) L') as Hqt.
    { split; [done|]. intros j. unfold upd_page. case_decide as E; [subst j|done].
      by rewrite (slots_of_eq _ _ (hp_ok _ _ Hp1)), Hsl1, Eo, (slots_of_eq _ _ (hp_ok _ _ Hp)). }
    eapply (HQ (upd_page oid (U' oid) V)); [|exact Hqt|by eapply good_quiet|by apply upd_other|by rewrite upd_same].
    eapply state_ext; [exact Hs'|]. intros j. destruct (decide (j = oid)) as [->|Hj].
    + by rewrite upd_other, upd_same by done.
    + rewrite Hoth by done. unfold upd_page. repeat case_decide; done.
Qed.

Lemma wp_poison_if {A} (m : HM W HeapError A) (Q : result A HeapError -> Heap W -> Prop) h :
  wp m (fun r h' => match r with Ok a => Q (Ok a) h' | Err e => forall h'', poisoned h'' -> Q (Err e) h'' end) h ->
  wp (poisoning_if (has_wal (uo_wal opts)) m) Q h.
Proof using Hwal. rewrite Hwal. apply (wp_poisoning N). Qed.

(** Failing: the pool is poisoned, or only images were logged. *)
Definition failed {A} (V : Pages) (L : Log) (Q : result A HeapError -> Heap W -> Prop) : Prop :=
  (forall e h', poisoned h' -> Q (Err e) h') /\
  (forall e V' L' h', state V' L' h' -> quiet V L V' L' -> Q (Err e) h').

Lemma failed_searched {A} V L (Q : result A HeapError -> Heap W -> Prop) : failed V L Q -> searched V L Q.
Proof using. intros [HP HE]. split; [|done]. intros e h' _. apply HP. Qed.

Lemma upd_at id q (V : Pages) j : j = id -> upd_page id q V j = q.
Proof using. intros ->. apply upd_same. Qed.

(** The new version is on its page [nid], the old one is stamped, the record is
    written. *)
Lemma wp_cold_end new_tid V L h hdn q hdq (Q : result UpdateOutcome HeapError -> Heap W -> Prop) :
  let nid := tid_page new_tid in
  let tnew := thbytes (cold_header new_tid) ++ payload in
  state (upd_page nid q V) L h -> good V L -> holds V old_tid told -> tid_ok new_tid -> header_wf (cold_header new_tid) ->
  hpage (V nid) hdn -> hd_lsn hdn <= top floor L -> inserted (V nid) hdn (tid_slot new_tid) tnew q hdq ->
  covered ckpt (V nid) -> covered ckpt (V oid) ->
  (forall e h', poisoned h' -> Q (Err e) h') ->
  (forall V' L' h', updatable hdr = true -> state V' L' h' -> changes V L V' L' -> updated V V' UPDATED new_tid tnew ->
     Q (Ok (mk_UpdateOutcome old_tid new_tid false)) h') ->
  wp (poisoning_if (has_wal (uo_wal opts)) (get_page oid);;
      poisoning_if (has_wal (uo_wal opts)) (stamp_updated_old old_tid new_tid opts);;
      remember_rollback_stamp_page (uo_xid opts) oid;;
      emit_update_wal crc (mk_UpdateOutcome old_tid new_tid false) opts;;
      invalidate_int32_pair_payload_stats_page oid;;
      (if decide (nid = oid) then mret tt else invalidate_int32_pair_payload_stats_page nid);;
      bump_version (pg_relation oid) (uo_xid opts);;
      mret (mk_UpdateOutcome old_tid new_tid false)) Q h.
Proof using LogSink0 Hfloor Hwal Hold Hhdr Hxid Hcid.
  intros nid tnew Hs Hg Hh Hnew Hwf Hpn Hln Hi Hcn Hco HP HQ. pose proof (proj2 Hg) as Hft.
  destruct (holds_page floor V L old_tid told Hg Hh) as (hdo & _ & Hpo & Hlo & Hlvo & _).
  assert (exists hdu, hpage (upd_page nid q V oid) hdu /\ hd_lsn hdu <= top floor L /\
    page_slots (upd_page nid q V oid) hdu !! Z.to_nat oslot = Some (SLive told) /\
    (nid = oid -> tid_slot new_tid <> oslot)) as (hdu & Hpu & Hlu & Hlvu & Hne).
  { destruct (decide (oid = nid)) as [Heq|Hneq].
    - assert (hdo = hdn) as ->.
      { eapply hpage_unique; [exact Hpo|by rewrite Heq]. }
      destruct (old_after_insert old_tid (cold_header new_tid) payload (V nid) hdn (tid_slot new_tid) q hdq told Hpn Hi)
        as [Hne Hlvq]; [by rewrite <- Heq|apply Hold|].
      exists hdq. rewrite Heq, upd_same, (in_lsn _ _ _ _ _ _ Hi). split; [apply Hi|]. done.
    - exists hdo. rewrite upd_other by done. split_and!; try done. }
  wp_step. apply wp_poison_if. eapply hwp_get_page; [done|]. intros h1 Hs1. split; [|by apply HP].
  wp_step. apply wp_poison_if. eapply wp_stamp_old; [exact Hs1|exact Hpu|exact Hlvu|by intros; apply HP|]. intros Hu h2 Hs2.
  destruct (stamped_page UPDATED new_tid (upd_page nid q V oid) hdu) as [Hq2 Hsl2]; [done|by apply tid_ok_width|exact Hpu|exact Hlvu|].
  wp_step. eapply wp_remember; [done|]. intros h3 Hs3. set (U := upd_page oid _ _) in *. wp_step.
  eapply (wp_finish false (cold_header new_tid) new_tid V L U); [exact Hs3|done|done|apply Hi| | | | | |by intros; apply HP|].
  - fold tnew. unfold holds. fold nid. unfold U. destruct (decide (nid = oid)) as [Heq|Hneq].
    + rewrite (upd_at oid _ _ _ Heq), (slots_of_eq _ _ (hp_ok _ _ Hq2)), Hsl2.
      destruct (in_slot _ _ _ _ _ _ Hi) as [Hs0 _], Hold as [_ [Ho0 _]]. specialize (Hne Heq).
      rewrite list_lookup_insert_ne by lia. assert (hdu = hdq) as ->.
      { eapply hpage_unique; [exact Hpu|]. rewrite <- Heq, upd_same. apply Hi. }
      rewrite <- Heq, upd_same. by eapply inserted_lookup.
    + rewrite upd_other, upd_same by done. rewrite (slots_of_eq _ _ (hp_ok _ _ (in_page _ _ _ _ _ _ Hi))). by eapply inserted_lookup.
  - intros j [->| ->]; done.
  - intros j Hj. unfold U. rewrite !upd_other; [done| |]; intros ->; apply Hj; [by left|by right].
  - intros j Hj. unfold U. destruct (decide (j = oid)) as [->|Hjo]; [rewrite upd_same; by exists hdu|].
    destruct Hj as [->|]; [|done]. fold nid in Hjo |- *. rewrite upd_other, upd_same by done. exists hdq.
    rewrite (in_lsn _ _ _ _ _ _ Hi). split; [apply Hi|done].
  - intros j lsn Hj Hlsn. fold tnew. unfold U. destruct (decide (nid = oid)) as [Heq|Hneq].
    + assert (j = oid) as -> by (destruct Hj as [->| ->]; [done|done]). rewrite upd_same, <- Heq, upd_same.
      eapply (same_page_redo old_tid new_tid false (cold_header new_tid) payload (uo_xid opts) (uo_command_id opts));
        [done|done|done|done|exact Hpn|exact Hi| |apply Hold|done|lia|lia].
      assert (hdo = hdn) as <-; [|by rewrite Heq].
      eapply hpage_unique; [exact Hpo|by rewrite <- Heq].
    + destruct (decide (j = oid)) as [->|Hjo].
      * rewrite upd_same. rewrite upd_other by done.
        eapply (old_page_redo old_tid new_tid false (cold_header new_tid) payload (uo_xid opts) (uo_command_id opts));
          [done|done|done|done|exact Hpo|exact Hlvo|apply Hold|done|lia|lia].
      * destruct Hj as [->|]; [|done]. fold nid in Hjo |- *. rewrite upd_other, upd_same by done.
        eapply (new_page_redo old_tid new_tid false (cold_header new_tid) payload); [done|done|apply Hpn|exact Hi|lia|lia].
  - intros U' L' h4 Hs4 Hch HslU. wp_step. eapply wp_invalidate; [done|]. intros h5 Hs5. wp_step.
    assert (forall h', state U' L' h' -> updated V U' UPDATED new_tid tnew -> wp (bump_version (pg_relation oid) (uo_xid opts);;
      mret (mk_UpdateOutcome old_tid new_tid false)) Q h') as Hend.
    { intros h' Hs' Hup. wp_step. eapply wp_bump; [done|]. intros h6 Hs6. wp_step. by eapply HQ. }
    assert (updated V U' UPDATED new_tid tnew) as Hup.
    { split; [by eapply inserted_free|].
      intros j. rewrite HslU. fold nid. cbv zeta. unfold U. destruct (decide (j = oid)) as [->|Hjo].
      - rewrite upd_same, (slots_of_eq _ _ (hp_ok _ _ Hq2)), Hsl2. f_equal.
        rewrite <- (slots_of_eq _ _ (hp_ok _ _ Hpu)). unfold upd_page. case_decide as E; [|done].
        rewrite (slots_of_eq _ _ (hp_ok _ _ (in_page _ _ _ _ _ _ Hi))), (in_slots _ _ _ _ _ _ Hi), E.
        by rewrite (slots_of_eq _ _ (hp_ok _ _ Hpn)).
      - rewrite upd_other by done. unfold upd_page. case_decide as E; [subst j|done].
        by rewrite (slots_of_eq _ _ (hp_ok _ _ (in_page _ _ _ _ _ _ Hi))), (in_slots _ _ _ _ _ _ Hi), (slots_of_eq _ _ (hp_ok _ _ Hpn)). }
    cbv beta iota. destruct (decide (nid = oid)); [wp_step; by apply Hend|]. eapply wp_invalidate; [done|]. intros h6 Hs6. by apply Hend.
Qed.
Lemma covered_inserted p hd slot t q hd' : page_ok p hd -> inserted p hd slot t q hd' -> covered ckpt p -> covered ckpt q.
Proof using.
  intros Hp Hi [E0|(hd2 & Hp2 & Hle)]; [by left|]. right. exists hd'. split; [apply Hi|].
  assert (hd2 = hd) as -> by (pose proof (po_header _ _ Hp2) as E; rewrite (po_header _ _ Hp) in E; by apply Ok_inj in E).
  by rewrite (in_lsn _ _ _ _ _ _ Hi).
Qed.

Lemma updated_quiet V L V1 L1 V' flag new_tid t : quiet V L V1 L1 -> updated V1 V' flag new_tid t -> updated V V' flag new_tid t.
Proof using. intros [_ E] [Hf Hu]. split; [intros u; rewrite <- E; apply Hf|]. intros j. rewrite Hu. by rewrite !E. Qed.

Lemma wp_update_cold fuel V L h (Q : result UpdateOutcome HeapError -> Heap W -> Prop) :
  N \/ U32 <= Z.of_nat fuel -> state V L h -> good V L -> holds V old_tid told -> failed V L Q ->
  (forall new_tid V' L' h', updatable hdr = true -> tid_ok new_tid -> pg_relation (tid_page new_tid) = pg_relation oid ->
     header_wf (cold_header new_tid) -> state V' L' h' -> changes V L V' L' ->
     updated V V' UPDATED new_tid (thbytes (cold_header new_tid) ++ payload) ->
     Q (Ok (mk_UpdateOutcome old_tid new_tid false)) h') ->
  wp (update_cold crc fuel old_tid payload opts) Q h.
Proof using LogSink0 Hfloor Hwal Hold Hhdr Hpay Hlen Hxid Hcid.
  intros HN Hs Hg Hh Hfail HQ. pose proof Hfail as [HP HE]. destruct (holds_page floor V L old_tid told Hg Hh) as (hdo & _ & Hpo & _ & Hlvo & _).
  pose proof (hdr_wf _ _ Hpo Hlvo) as Hwfo. unfold update_cold. wp_step. eapply hwp_fetch; [done|done|done| |].
  { intros e h' Hs'. eapply HE; [done|apply quiet_refl]. }
  intros h1 Hs1. cbn [ht_header]. fold cold_opts. wp_step.
  eapply (wp_insert_inner crc sink log floor N ckpt Hfloor); [done|exact Hwal| |done|done|done|apply Hold|by apply failed_searched|].
  { split_and!; try done. apply Hwfo. }
  intros new_tid h2 Hrel (Hb & Hwf & V1 & L1 & hdn & q & hdq & Hq1 & Hpn & Hln & Hcn & Hi & Hs2). cbn [io_wal cold_opts] in Hs2.
  fold (cold_header new_tid) in Hwf. pose proof (good_quiet floor ckpt _ _ _ _ Hg Hq1) as Hg1.
  wp_step. apply wp_poison_if.
  eapply (wp_image_old (tid_page new_tid) q V1 L1 h2 hdq); [exact Hs2|done|apply Hi|intros _| |].
  { eapply covered_inserted; [apply Hpn|done|done]. }
  { intros e h' h'' Hp''. by apply HP. }
  intros V2 L2 h3 Hs3 Hq2 Hg2 En Hco.
  assert (tid_ok new_tid) as Hnew by (split; [done|apply Hi]).
  eapply (wp_cold_end new_tid V2 L2 h3 hdn q hdq); [exact Hs3|done| |done|done|by rewrite En| |by rewrite En|by rewrite En| |done|].
  - unfold holds. by rewrite (proj2 Hq2), (proj2 Hq1).
  - pose proof (changes_top floor ckpt _ _ _ _ (proj1 Hq2)). lia.
  - destruct (decide (tid_page new_tid = oid)) as [E|Hne]; [by rewrite <- E, En|by apply Hco].
  - intros V' L' h' Hu Hs' Hch Hup. assert (quiet V L V2 L2) as Hq12 by (by eapply quiet_trans).
    eapply HQ; [done|done|done|done|done| |by eapply updated_quiet]. eapply changes_trans; [apply Hq12|done].
Qed.

(** ** The update *)

Lemma wp_update fuel V L h (Q : result UpdateOutcome HeapError -> Heap W -> Prop) :
  N \/ U32 <= Z.of_nat fuel -> state V L h -> good V L -> holds V old_tid told -> failed V L Q ->
  (forall (hot : bool) new_tid V' L' h', updatable hdr = true -> tid_ok new_tid ->
     pg_relation (tid_page new_tid) = pg_relation oid -> (hot = true -> tid_page new_tid = oid) ->
     header_wf (if hot then hot_header new_tid else cold_header new_tid) -> state V' L' h' -> changes V L V' L' ->
     updated V V' (if hot then HOT_UPDATED else UPDATED) new_tid
       (thbytes (if hot then hot_header new_tid else cold_header new_tid) ++ payload) ->
     Q (Ok (mk_UpdateOutcome old_tid new_tid hot)) h') ->
  wp (update crc fuel old_tid payload opts) Q h.
Proof using LogSink0 Hfloor Hwal Hold Hhdr Hpay Hlen Hxid Hcid.
  intros HN Hs Hg Hh Hfail HQ. unfold update. rewrite tuple_size_eq by done. wp_step. wp_step. cbv beta iota. wp_step.
  assert (forall V1 L1 h1, state V1 L1 h1 -> quiet V L V1 L1 -> wp (update_cold crc fuel old_tid payload opts) Q h1) as Hcold.
  { intros V1 L1 h1 Hs1 Hq1. eapply wp_update_cold; [done|done|by eapply good_quiet|unfold holds; by rewrite (proj2 Hq1)| |].
    - destruct Hfail as [HP HE]. split; [done|]. intros e V' L' h' Hs' Hq'. eapply HE; [done|by eapply quiet_trans].
    - intros new_tid V' L' h' Hu Hnew Hrel Hwf Hs' Hch Hup.
      eapply (HQ false); [done|done|done|done|done|done|eapply changes_trans; [apply Hq1|done]|by eapply updated_quiet]. }
  destruct (uo_hot_eligible opts); [|wp_step; eapply Hcold; [done|apply quiet_refl]].
  eapply wp_update_hot; [done|done|done|by apply failed_searched|exact Hcold|].
  intros new_tid V' L' h' Hu Hnew Hpg Hwf Hs' Hch Hup. wp_step. eapply (HQ true); try done. by rewrite Hpg.
Qed.
End update.
