(* ===== verification/HeapTable.v ===== *)
(** * The heap as a table of rows

    What the heap promises its callers: a partial map from tuple identifiers to
    rows, each a header and its data. Insertion adds a row at an identifier
    that had none, deletion stamps the header of a row, an update adds the new
    version and stamps the old one. The row operations on the page bytes, with
    their images, records and searches, implement these steps. *)

From S2P Require Import Prelude CoreIds TupleHeader WalRecord WalPayload WalPayloadHeap WalSink Bytes Page PageSpec HeapMaps Heap HeapRedo HeapPage HeapReplay HeapTrace HeapLogic HeapInsert HeapChange HeapUpdate.

Record Row := mk_Row { row_header : TupleHeader; row_data : list Z }.
Abbreviation Table := (TupleId -> option Row) (only parsing).

Definition t_put (T : Table) (tid : TupleId) (row : Row) : Table := fun x => if decide (x = tid) then Some row else T x.

(** A header as the page keeps it: 24 bits for the block of its [ctid], 8 for
    the slot. *)
Definition stored (h : TupleHeader) : TupleHeader := with_ctid h (ctid_truncated (ctid h)).

(** ** The rows of the pages *)

Definition row_of (t : list Z) : option Row :=
  '(hdr, _) ← decode (take TUPLE_HEADER_SIZE t); Some (mk_Row hdr (drop TUPLE_HEADER_SIZE t)).

Definition slot_row (s : option slot_view) : option Row := match s with Some (SLive t) => row_of t | _ => None end.

Definition slots_rows (S : PageId -> list slot_view) : Table := fun tid =>
  if tid_slot tid <? 0 then None else slot_row (S (tid_page tid) !! Z.to_nat (tid_slot tid)).

Definition rows (V : Pages) : Table := slots_rows (fun id => slots_of (V id)).

Lemma row_of_header h payload : header_wf h -> row_of (thbytes h ++ payload) = Some (mk_Row (stored h) payload).
Proof.
  intros Hwf. pose proof (header_tuple_ok h payload Hwf) as E. unfold tuple_header in E. unfold row_of. rewrite E.
  cbn [mbind option_bind]. by rewrite drop_app_length' by (by rewrite length_header_bytes).
Qed.

Lemma row_of_tuple t hdr : tuple_header t hdr -> row_of t = Some (mk_Row hdr (drop 40 t)).
Proof. intros E. unfold tuple_header in E. unfold row_of. by rewrite E. Qed.

Lemma slots_rows_ext S S' tid : (forall id, S id = S' id) -> slots_rows S tid = slots_rows S' tid.
Proof. intros E. unfold slots_rows. by rewrite E. Qed.

(** The slots of one page changed at one place. *)
Lemma slots_rows_at S S' tid row x :
  0 <= tid_slot tid -> (forall id, id <> tid_page tid -> S' id = S id) ->
  slot_row (S' (tid_page tid) !! Z.to_nat (tid_slot tid)) = Some row ->
  (forall i, i <> Z.to_nat (tid_slot tid) -> slot_row (S' (tid_page tid) !! i) = slot_row (S (tid_page tid) !! i)) ->
  slots_rows S' x = t_put (slots_rows S) tid row x.
Proof.
  intros H0 Ho Ha Hi. unfold t_put, slots_rows. destruct (Z.ltb_spec (tid_slot x) 0) as [Hn|Hn].
  { rewrite decide_False; [done|]. intros ->. lia. }
  case_decide as E; [by rewrite E|]. destruct (decide (tid_page x = tid_page tid)) as [Ep|Ep]; [|by rewrite Ho].
  rewrite Ep. apply Hi. intros Es. apply E. destruct x as [px sx], tid as [pt st]. cbn in *. f_equal; [done|lia].
Qed.

Lemma slots_rows_put S S' tid t row x :
  0 <= tid_slot tid -> (forall id, id <> tid_page tid -> S' id = S id) ->
  S' (tid_page tid) = put_slot (S (tid_page tid)) (tid_slot tid) t -> row_of t = Some row ->
  slots_rows S' x = t_put (slots_rows S) tid row x.
Proof.
  intros H0 Ho Es Hr. apply slots_rows_at; [done|done| |]; rewrite Es.
  - rewrite put_slot_lookup by done. by rewrite decide_True by (by rewrite Z2Nat.id).
  - intros i Hi. rewrite put_slot_lookup by done. rewrite decide_False by lia.
    case_decide; [|done]. by destruct (S (tid_page tid) !! i).
Qed.

Lemma slots_rows_set S S' tid t u row x :
  0 <= tid_slot tid -> (forall id, id <> tid_page tid -> S' id = S id) ->
  S (tid_page tid) !! Z.to_nat (tid_slot tid) = Some u ->
  S' (tid_page tid) = <[Z.to_nat (tid_slot tid) := SLive t]> (S (tid_page tid)) -> row_of t = Some row ->
  slots_rows S' x = t_put (slots_rows S) tid row x.
Proof.
  intros H0 Ho Hu Es Hr. apply slots_rows_at; [done|done| |]; rewrite Es.
  - rewrite list_lookup_insert_eq by (by eapply lookup_lt_Some). done.
  - intros i Hi. by rewrite list_lookup_insert_ne.
Qed.

(** ** Operations *)

Inductive op (W : Type) :=
| OInsert (rel : Z) (payload : list Z) (opts : InsertOptions W)
| OUpdate (tid : TupleId) (payload : list Z) (opts : UpdateOptions W)
| ODelete (tid : TupleId) (opts : DeleteOptions W).
Arguments OInsert {W} _ _ _.
Arguments OUpdate {W} _ _ _.
Arguments ODelete {W} _ _.

Inductive out := OutInserted (tid : TupleId) | OutUpdated (u : UpdateOutcome) | OutDeleted.

Definition run_op {W} (crc : Z -> list Z -> Z) (fuel : nat) (o : op W) : HM W HeapError out :=
  match o with
  | OInsert rel payload opts => tid ← insert crc fuel rel payload opts; mret (OutInserted tid)
  | OUpdate tid payload opts => u ← update crc fuel tid payload opts; mret (OutUpdated u)
  | ODelete tid opts => delete crc tid opts;; mret OutDeleted
  end.

(** The step of the table. *)
Inductive table_step {W} : op W -> out -> Table -> Table -> Prop :=
| ts_insert rel payload opts tid T T' :
    pg_relation (tid_page tid) = rel -> T tid = None ->
    (forall x, T' x = t_put T tid
       (mk_Row (stored (with_ctid (fresh (io_xmin opts) (io_command_id opts) tid (io_n_atts opts)) tid)) payload) x) ->
    table_step (OInsert rel payload opts) (OutInserted tid) T T'
| ts_update tid payload opts (hot : bool) new_tid row nh T T' :
    T tid = Some row -> updatable (row_header row) = true -> T new_tid = None ->
    pg_relation (tid_page new_tid) = pg_relation (tid_page tid) -> (hot = true -> tid_page new_tid = tid_page tid) ->
    nh = fresh (uo_xid opts) (uo_command_id opts) new_tid (n_atts (row_header row)) ->
    (forall x, T' x = t_put (t_put T new_tid
         (mk_Row (stored (if hot then mk_TupleHeader (xmin nh) (xmax nh) (cmin nh) (cmax nh)
                            (mask_set (infomask nh) (Z.lor HOT_UPDATED UPDATED)) (n_atts nh) (data_offset nh) new_tid
                          else with_ctid nh new_tid)) payload)) tid
         (mk_Row (stored (superseded (row_header row) (uo_xid opts) (uo_command_id opts)
                            (if hot then HOT_UPDATED else UPDATED) new_tid)) (row_data row)) x) ->
    table_step (OUpdate tid payload opts) (OutUpdated (mk_UpdateOutcome tid new_tid hot)) T T'
| ts_delete tid opts row T T' :
    T tid = Some row ->
    (forall x, T' x = t_put T tid
       (mk_Row (stored (mark_deleted (row_header row) (do_xmax opts) (do_cmax opts))) (row_data row)) x) ->
    table_step (ODelete tid opts) OutDeleted T T'.

(** An operation that fails leaves the table as it was. *)
Definition table_result {W} (o : op W) (r : result out HeapError) (T T' : Table) : Prop :=
  match r with Ok a => table_step o a T T' | Err _ => forall x, T' x = T x end.

Lemma table_result_ext {W} (o : op W) r T T1 T2 :
  table_result o r T T1 -> (forall x, T2 x = T1 x) -> table_result o r T T2.
Proof.
  intros H E. destruct r as [a|]; [|intros x; by rewrite E]. cbn [table_result] in *.
  destruct H as [???? T T' H1 H2 H3|??????? T T' H1 H2 H3 H4 H5 H6 H7|??? T T' H1 H2].
  - apply ts_insert; [done|done|]. intros x. rewrite E. apply H3.
  - eapply ts_update; [done..|]. intros x. rewrite E. apply H7.
  - eapply ts_delete; [done|]. intros x. rewrite E. apply H2.
Qed.

Section refine.
Context {W : Type} (crc : Z -> list Z -> Z) (sink : WalSink W) (log : W -> Log -> Prop) (floor : Lsn).
Context `{!LogSink sink log floor} (ckpt : Lsn) (fuel : nat).
Hypothesis (Hfloor : 0 <= ckpt <= floor).

Abbreviation changes := (changes floor ckpt).
Abbreviation state := (state log ckpt).

(** The heap may be operated on after the log [L]: its pages are heap pages whose LSNs are in the
    log, its bookkeeping is in its bounds. *)
Definition started (h : Heap W) (L : Log) : Prop :=
  log (h_sink h) L /\ h_poisoned h = false /\ h_checkpoint_lsn h = ckpt /\ books h /\ good floor (page_of h) L.

(** The arguments at their widths, a WAL, and for an update or a deletion an
    identifier of a row. *)
Definition op_ok (V : Pages) (o : op W) : Prop :=
  match o with
  | OInsert rel payload opts =>
      io_wal opts = Some sink /\ row_ok payload (io_xmin opts) (io_command_id opts) (io_n_atts opts) /\
      zlen payload < U32 /\ in_width U32 rel
  | OUpdate tid payload opts =>
      uo_wal opts = Some sink /\ Forall is_byte payload /\ zlen payload < U32 /\
      in_width U64 (uo_xid opts) /\ in_width U32 (uo_command_id opts) /\ tid_ok tid /\ is_Some (rows V tid)
  | ODelete tid opts =>
      do_wal opts = Some sink /\ in_width U64 (do_xmax opts) /\ in_width U32 (do_cmax opts) /\
      tid_ok tid /\ is_Some (rows V tid)
  end.

Lemma rows_holds V L tid :
  good floor V L -> tid_ok tid -> is_Some (rows V tid) ->
  exists t hdr, holds V tid t /\ tuple_header t hdr /\ rows V tid = Some (mk_Row hdr (drop 40 t)).
Proof using.
  intros Hg Ht [row Hr]. pose proof Hr as Hr0. unfold rows, slots_rows in Hr.
  rewrite (proj2 (Z.ltb_ge _ _)) in Hr by apply Ht.
  destruct (slots_of _ !! _) as [[| | |t]|] eqn:El; try done. exists t.
  destruct (holds_page floor V L tid t Hg El) as (hd & hdr & _ & _ & _ & Hh). exists hdr. split; [done|]. split; [done|].
  rewrite Hr0. cbn [slot_row] in Hr. by rewrite (row_of_tuple t hdr Hh) in Hr.
Qed.

Lemma free_rows V tid : free_at V tid -> rows V tid = None.
Proof using.
  intros Hf. unfold rows, slots_rows. destruct (_ <? _); [done|].
  destruct (slots_of _ !! _) as [[| | |t]|] eqn:El; try done. by apply Hf in El.
Qed.

Lemma rows_quiet V L V' L' x : quiet floor ckpt V L V' L' -> rows V' x = rows V x.
Proof using. intros [_ E]. by apply slots_rows_ext. Qed.

(** The outcome of an operation from pages [V] and log [L]. *)
Definition outcome (o : op W) (V : Pages) (L : Log) (r : result out HeapError) (h' : Heap W) : Prop :=
  h_poisoned h' = true \/
  exists V' L', state V' L' h' /\ changes V L V' L' /\ table_result o r (rows V) (rows V').

Lemma outcome_failed {A} o V L (k : result A HeapError -> result out HeapError) :
  (forall e, k (Err e) = Err e) -> failed log floor ckpt V L (fun r h' => outcome o V L (k r) h').
Proof using.
  intros Hk. split; [by left|]. intros e V' L' h' Hs Hq. right. exists V', L'. rewrite Hk.
  split; [done|]. split; [apply Hq|]. intros x. by eapply rows_quiet.
Qed.
Lemma outcome_throw o V L e V' L' h' : state V' L' h' -> quiet floor ckpt V L V' L' -> outcome o V L (Err e) h'.
Proof using. apply (outcome_failed o V L (fun r => r)); done. Qed.

Section operations.
Context (N : Prop) (HN : N \/ U32 <= Z.of_nat fuel).
Abbreviation wp := (wp (W := W) N).

Lemma wp_insert_op rel payload opts V L h :
  let o := OInsert rel payload opts in
  state V L h -> good floor V L -> op_ok V o -> wp (run_op crc fuel o) (outcome o V L) h.
Proof using LogSink0 Hfloor HN.
  intros o Hs Hg (Hw & Hrow & Hlen & Hrel). unfold run_op, o, insert. wp_step. wp_step.
  eapply (wp_insert_inner crc sink log floor N ckpt Hfloor); [done|by rewrite Hw|done|done|done|done|done| |].
  { split; [by left|]. intros e V' L' h'. apply outcome_throw. }
  intros tid h1 Ht (Hb & Hwf & V1 & L1 & hd & q & hd' & Hq & Hp & _ & _ & Hi & Hm). rewrite Hw in Hm.
  destruct Hm as (lsn & r & q' & Hs1 & Hp' & Hsl & Hch).
  wp_step. eapply wp_invalidate; [done|]. intros h2 Hs2. wp_step. eapply wp_bump; [done|]. intros h3 Hs3. wp_step. wp_step.
  right. exists (upd_page (tid_page tid) q' V1), (L1 ++ [(lsn, r)]). split; [done|]. split; [eapply changes_trans; [apply Hq|done]|].
  constructor; [done| |].
  - apply free_rows. intros t. rewrite <- (proj2 Hq). eapply (inserted_free V1 tid); [exact Hp|exact Hi].
  - intros x. transitivity (t_put (rows V1) tid (mk_Row (stored (new_header opts (io_n_atts opts) tid)) payload) x).
    + eapply slots_rows_put; [apply Hi|intros id Hid; by rewrite upd_other| |by apply row_of_header].
      rewrite upd_same, (slots_of_eq _ _ (hp_ok _ _ Hp')), Hsl, (slots_of_eq _ _ (hp_ok _ _ Hp)). apply Hi.
    + unfold t_put. case_decide; [done|]. by eapply rows_quiet.
Qed.

Lemma wp_delete_op tid opts V L h :
  let o := ODelete tid opts in
  state V L h -> good floor V L -> op_ok V o -> wp (run_op crc fuel o) (outcome o V L) h.
Proof using LogSink0 Hfloor HN.
  intros o Hs Hg (Hw & Hx & Hc & Ht & Hr). destruct (rows_holds V L tid Hg Ht Hr) as (t & hdr & Hh & Hhdr & Er).
  unfold run_op, o. wp_step. eapply (wp_delete crc sink log floor N ckpt Hfloor); try done.
  { split; [by left|]. intros e V' L' h'. apply outcome_throw. }
  intros V' L' h' hdr' Hhdr' Hs' Hch Hsl. wp_step.
  assert (hdr' = hdr) as -> by (unfold tuple_header in *; rewrite Hhdr in Hhdr'; by injection Hhdr').
  right. exists V', L'. split; [done|]. split; [done|]. econstructor; [exact Er|].
  intros x. cbn [row_header row_data]. destruct (holds_page floor V L tid t Hg Hh) as (hd & _ & Hp & _ & Hlv & _).
  eapply slots_rows_set; [apply Ht|intros id Hid; by rewrite Hsl, decide_False|exact Hh|by rewrite Hsl, decide_True|].
  apply row_of_header, mark_deleted_wf; [|done|done]. eapply tuple_header_facts; [eapply live_bytes_slots; [apply Hp|done]|done].
Qed.

Lemma wp_update_op tid payload opts V L h :
  let o := OUpdate tid payload opts in
  state V L h -> good floor V L -> op_ok V o -> wp (run_op crc fuel o) (outcome o V L) h.
Proof using LogSink0 Hfloor HN.
  intros o Hs Hg (Hw & Hp & Hlen & Hx & Hc & Ht & Hr). destruct (rows_holds V L tid Hg Ht Hr) as (t & hdr & Hh & Hhdr & Er).
  unfold run_op, o. wp_step.
  eapply (wp_update crc sink log floor N ckpt Hfloor tid payload t hdr opts); try done.
  { split; [by left|]. intros e V' L' h'. apply outcome_throw. }
  intros hot new_tid V' L' h' Hu Hnew Hrel Hhot Hwf Hs' Hch [Hfree Hup]. wp_step.
  right. exists V', L'. split; [done|]. split; [done|].
  destruct (holds_page floor V L tid t Hg Hh) as (hd & _ & Hpg & _ & Hlv & _).
  assert (header_wf hdr) as Hwfo by (eapply tuple_header_facts; [eapply live_bytes_slots; [apply Hpg|done]|done]).
  econstructor; [exact Er|done|by apply free_rows|done|done|reflexivity|]. cbn [row_header row_data]. intros x.
  set (S1 := fun j => if decide (j = tid_page new_tid) then put_slot (slots_of (V j)) (tid_slot new_tid)
    (thbytes (if hot then hot_header tid hdr opts new_tid else cold_header hdr opts new_tid) ++ payload) else slots_of (V j)).
  assert (forall y, slots_rows S1 y = t_put (rows V) new_tid
    (mk_Row (stored (if hot then hot_header tid hdr opts new_tid else cold_header hdr opts new_tid)) payload) y) as H1.
  { intros y. eapply slots_rows_put; [apply Hnew|intros id Hid; unfold S1; by rewrite decide_False| |by apply row_of_header].
    unfold S1. by rewrite decide_True. }
  etransitivity.
  - eapply (slots_rows_set S1 _ tid (dead_tuple t hdr opts (if hot then HOT_UPDATED else UPDATED) new_tid)); [apply Ht| | | |].
    + intros id Hid. rewrite Hup. by rewrite decide_False.
    + unfold S1. case_decide as E; [|exact Hh]. rewrite put_slot_lookup by apply Hnew. rewrite Z2Nat.id by apply Ht.
      rewrite decide_False; [case_decide; [|rewrite <- E in *; exact Hh]|].
      * unfold holds in Hh. rewrite Hh. done.
      * intros Es. apply (Hfree t). rewrite <- E, <- Es. exact Hh.
    + rewrite Hup. by rewrite decide_True.
    + apply row_of_header. apply superseded_wf; [done|done|done|destruct hot; by vm_compute|by apply tid_ok_width].
  - unfold t_put at 1 2. case_decide; [done|]. rewrite H1. by destruct hot.
Qed.

Lemma wp_op o V L h : state V L h -> good floor V L -> op_ok V o -> wp (run_op crc fuel o) (outcome o V L) h.
Proof using LogSink0 Hfloor HN. destruct o; [apply wp_insert_op|apply wp_update_op|apply wp_delete_op]. Qed.
End operations.

(** ** One operation *)

Lemma op_outcome o h L r h' :
  started h L -> op_ok (page_of h) o -> run_op crc fuel o h = Some (r, h') -> h_poisoned h' = false ->
  exists L', started h' L' /\ changes (page_of h) L (page_of h') L' /\
    table_result o r (rows (page_of h)) (rows (page_of h')).
Proof using LogSink0 Hfloor.
  intros (Hl & Hp & Hc & Hb & Hg) Hok E Hpo. assert (state (page_of h) L h) as Hs by (by split_and!).
  pose proof (wp_op True (or_introl I) o (page_of h) L h Hs Hg Hok) as Hw. unfold HeapLogic.wp in Hw. rewrite E in Hw. destruct Hw as [Hw|(V' & L' & Hs' & Hch & Ht)]; [congruence|].
  pose proof Hs' as (HV & Hl' & _ & Hc' & Hb'). exists L'.
  assert (changes (page_of h) L (page_of h') L') as Hch'.
  { eapply changes_trans; [exact Hch|]. by apply changes_refl. }
  split_and!; [|done|].
  - split_and!; [done|done|done|done|by eapply good_changes].
  - assert (forall x, rows (page_of h') x = rows V' x) as Er by (intros x; apply slots_rows_ext; intros id; by rewrite HV).
    by eapply table_result_ext.
Qed.

(** The growth loop has a block for every round of its fuel. *)
Lemma op_returns o h L :
  U32 <= Z.of_nat fuel -> started h L -> op_ok (page_of h) o -> exists r h', run_op crc fuel o h = Some (r, h').
Proof using LogSink0 Hfloor.
  intros Hf (Hl & Hp & Hc & Hb & Hg) Hok. assert (state (page_of h) L h) as Hs by (by split_and!).
  pose proof (wp_op False (or_intror Hf) o (page_of h) L h Hs Hg Hok) as Hw. unfold HeapLogic.wp in Hw.
  destruct (run_op crc fuel o h) as [[r h']|]; [by exists r, h'|done].
Qed.
End refine.
