(* ===== verification/HeapRecover.v ===== *)
(** * Recovery of the heap

    Any run of row operations, failed ones included, leaves a log whose replay
    brings every page to the bytes it had at the end of the run: from pages each
    caught at some point of the run, and, with full-page images, from pages
    whose content was lost. The server's recovery target drops the LSN of the
    records, and with it this guarantee. *)

From S2P Require Import Prelude CoreIds TupleHeader WalRecord WalBuffer WalPayload WalPayloadHeap WalSink Bytes Page PageSpec HeapMaps WalBufferSink Heap HeapRedo HeapPage HeapReplay HeapTrace HeapLogic HeapInsert HeapChange HeapUpdate HeapTable.

(** ** One page along a log *)

Lemma traced_split id rs1 rs2 p p' :
  traced id (rs1 ++ rs2) p p' -> exists q, traced id rs1 p q /\ traced id rs2 q p'.
Proof.
  revert p. induction rs1 as [|[l r] rs1 IH]; intros p; cbn [app].
  - intros H. exists p. split; [constructor|done].
  - intros H. inversion H as [|? ? ? ? q0 ? E Ht Hr]; subst. destruct (IH q0 Hr) as (q & H1 & H2).
    exists q. split; [by econstructor|done].
Qed.

Section versions.
Context (floor : Lsn) (id : PageId) (rs : list (Lsn * heap_record)) (p p' : Page) (h : PageHeader).
Hypotheses (Ht : traced id rs p p') (Hinc : increasing floor rs) (Hp : hpage p h) (Hl : hd_lsn h <= floor).

(** The page after [k] records. *)
Definition version (k : nat) : Page := default [] (page_redos (take k rs) id p).

Lemma version_at k : exists q, traced id (take k rs) p q /\ traced id (drop k rs) q p' /\ version k = q.
Proof using Ht.
  pose proof Ht as H. rewrite <- (take_drop k rs) in H. destruct (traced_split _ _ _ _ _ H) as (q & H1 & H2).
  exists q. split; [done|]. split; [done|]. unfold version. by rewrite (traced_redos _ _ _ _ H1).
Qed.

Lemma increasing_take k : increasing floor (take k rs).
Proof using Hinc.
  clear Ht Hl. revert floor Hinc k. induction rs as [|[l r] rest IH]; intros f Hi k; [by rewrite take_nil|].
  destruct k as [|k]; [done|]. cbn [take increasing] in *. destruct Hi as [Hl Hi]. split; [done|]. by apply IH.
Qed.

Lemma version_history : history rs id version.
Proof using Ht Hinc Hp Hl.
  assert (forall k lsn r, rs !! k = Some (lsn, r) ->
    page_redo r lsn id (version k) = Some (version (S k)) /\
    (touches r id = true -> exists h, hpage (version (S k)) h /\ hd_lsn h = lsn)) as Hstep.
  { intros k lsn r Hk. destruct (version_at k) as (q & H1 & H2 & ->). rewrite (drop_S _ _ _ Hk) in H2.
    inversion H2 as [|? ? ? ? q0 ? E Htt Hr]; subst.
    assert (version (S k) = q0) as ->; [|by split].
    unfold version. rewrite (take_S_r _ _ _ Hk), page_redos_app, (traced_redos _ _ _ _ H1). cbn [mbind option_bind page_redos].
    by rewrite E. }
  constructor.
  - intros k lsn r Hk. by apply Hstep.
  - intros k lsn r Hk Htt. destruct (proj2 (Hstep k lsn r Hk) Htt) as (h' & Hq & E). exists h'. split; [apply Hq|done].
  - intros k _. destruct (version_at k) as (q & H1 & _ & ->).
    destruct (traced_page id floor (take k rs) p q h H1 (increasing_take k) Hp Hl) as (h' & Hq & _).
    exists (hd_lsn h'), h'. split; [apply Hq|done].
  - intros k lsn u Hk Htt Hn. pose proof (proj1 (Hstep k lsn _ Hk)) as E. unfold page_redo in E. rewrite Htt, Hn in E. done.
Qed.
End versions.

Lemma decodes_unique raw rs rs' : Forall2 decodes raw rs -> Forall2 decodes raw rs' -> rs = rs'.
Proof.
  intros H. revert rs'. induction H as [|[l r] [l1 x] raw rs (E & Hd & _) _ IH]; intros rs' H'; inversion H' as [|? [l2 y] ? ? (E2 & Hd2 & _) Hr]; subst; [done|].
  cbn in *. subst. rewrite Hd in Hd2. injection Hd2 as <-. f_equal. by apply IH.
Qed.

Section redo.
Context (floor ckpt : Lsn).
Hypothesis (Hfloor : 0 <= ckpt <= floor).
Abbreviation changes := (changes floor ckpt).

(** The whole log on a page caught in between. *)
Lemma changes_catch_up V0 L0 V1 L1 V2 L2 raw rs id :
  good floor V0 L0 -> changes V0 L0 V1 L1 -> changes V1 L1 V2 L2 -> L2 = L0 ++ raw -> Forall2 decodes raw rs ->
  page_redos rs id (V1 id) = Some (V2 id).
Proof using Hfloor.
  intros [Hok Hft] (raw1 & rs1 & -> & D1 & I1 & T1) (raw2 & rs2 & -> & D2 & I2 & T2) El Hd.
  rewrite <- app_assoc in El. apply app_inv_head in El. subst raw.
  assert (rs = rs1 ++ rs2) as -> by (eapply decodes_unique; [exact Hd|by apply Forall2_app]).
  assert (increasing (top floor L0) (rs1 ++ rs2)) as Hi.
  { apply increasing_app; [done|]. rewrite top_app in I2. unfold top at 1 in I2. by rewrite (decodes_fst _ _ D1) in I2. }
  destruct (Hok id) as (h & Hp & Hl). destruct (T1 id) as [Ta _], (T2 id) as [Tb _].
  pose proof (traced_app _ _ _ _ _ _ Ta Tb) as Tab.
  pose proof (version_history (top floor L0) id _ _ _ h Tab Hi Hp Hl) as HV.
  pose proof (catch_up (top floor L0) _ id _ Hi ltac:(lia) HV 0 (length rs1)) as Hc. rewrite drop_0 in Hc.
  unfold version in Hc. rewrite take_app_length, firstn_all, (traced_redos _ _ _ _ Ta), (traced_redos _ _ _ _ Tab) in Hc.
  apply Hc. rewrite length_app. lia.
Qed.

(** The whole log on lost content, when every page it names was to be imaged. *)
Lemma changes_torn V0 L0 V2 L2 raw rs id p :
  good floor V0 L0 -> changes V0 L0 V2 L2 -> L2 = L0 ++ raw -> Forall2 decodes raw rs ->
  ~ covered ckpt (V0 id) -> ~ untouched rs id -> page_redos rs id p = Some (V2 id).
Proof using Hfloor.
  intros [Hok Hft] (raw1 & rs1 & -> & D1 & I1 & T1) El Hd Hcov Hun. apply app_inv_head in El. subst raw.
  assert (rs = rs1) as -> by (by eapply decodes_unique). destruct (T1 id) as [Ta [?|[Him|?]]]; [done| |done].
  destruct (Hok id) as (h & Hp & Hl).
  pose proof (version_history (top floor L0) id _ _ _ h Ta I1 Hp Hl) as HV.
  rewrite (torn_catch_up (top floor L0) _ id _ I1 ltac:(lia) HV p Him). f_equal.
  unfold version. by rewrite firstn_all, (traced_redos _ _ _ _ Ta).
Qed.
End redo.

(** ** Runs of operations *)

Section recover.
Context {W : Type} (crc : Z -> list Z -> Z) (sink : WalSink W) (log : W -> Log -> Prop) (floor : Lsn).
Context `{!LogSink sink log floor} (ckpt : Lsn) (fuel : nat).
Hypothesis (Hfloor : 0 <= ckpt <= floor).

Abbreviation started := (started log floor ckpt).
Abbreviation changes := (changes floor ckpt).

(** The states after each operation. A failed operation is part of the run; one
    that poisons the pool ends it. *)
Inductive run : Heap W -> list (Heap W) -> Prop :=
| run_nil h : run h []
| run_cons o r h h' hs :
    op_ok sink (page_of h) o -> run_op crc fuel o h = Some (r, h') -> h_poisoned h' = false -> run h' hs -> run h (h' :: hs).

Definition final (h : Heap W) (hs : list (Heap W)) : Heap W := default h (last hs).

Lemma final_cons h h' hs : final h (h' :: hs) = final h' hs.
Proof using. unfold final. rewrite last_cons. by destruct (last hs). Qed.

Lemma run_changes h hs L :
  run h hs -> started h L -> exists L', started (final h hs) L' /\ changes (page_of h) L (page_of (final h hs)) L'.
Proof using LogSink0 Hfloor.
  intros Hr. revert L. induction Hr as [h|o r h h' hs Hok E Hpo _ IH]; intros L Hs.
  { exists L. split; [done|]. by apply changes_refl. }
  destruct (op_outcome crc sink log floor ckpt fuel Hfloor o h L r h' Hs Hok E Hpo) as (L1 & Hs1 & Hc1 & _).
  destruct (IH L1 Hs1) as (L2 & Hs2 & Hc2). rewrite final_cons. exists L2. split; [done|]. by eapply changes_trans.
Qed.

(** A state of the run splits it. *)
Lemma run_at h hs h1 L :
  run h hs -> started h L -> h1 ∈ h :: hs ->
  exists L1 L2, started h1 L1 /\ started (final h hs) L2 /\ changes (page_of h) L (page_of h1) L1 /\
    changes (page_of h1) L1 (page_of (final h hs)) L2.
Proof using LogSink0 Hfloor.
  intros Hr. revert L. induction Hr as [h|o r h h' hs Hok E Hpo Hr IH]; intros L Hs Hin.
  { apply list_elem_of_singleton in Hin as ->. exists L, L. split_and!; try done; by apply changes_refl. }
  destruct (op_outcome crc sink log floor ckpt fuel Hfloor o h L r h' Hs Hok E Hpo) as (L1 & Hs1 & Hc1 & _). rewrite final_cons.
  apply elem_of_cons in Hin as [->|Hin].
  - destruct (run_changes h' hs L1 Hr Hs1) as (L2 & Hs2 & Hc2). exists L, L2.
    split_and!; [done|done|by apply changes_refl|by eapply changes_trans].
  - destruct (IH L1 Hs1 Hin) as (L3 & L4 & Hs3 & Hs4 & Hc3 & Hc4). exists L3, L4. split_and!; try done. by eapply changes_trans.
Qed.

(** The log of a state is unique when the sink determines it. *)
Hypothesis (Hlog : forall w L L', log w L -> log w L' -> L = L').

Context (replay_vm : bool) (other : RecordType -> list Z -> Lsn -> HM W ApplyError unit).

Lemma started_log h L L' : started h L -> started h L' -> L = L'.
Proof using Hlog. intros [H _] [H' _]. by eapply Hlog. Qed.

(** C6. Redo repeats history: after any run of inserts, updates and deletes, a
    crash that leaves every page at some state of the run (each page its own)
    loses nothing: replaying the records written during the run, from the first
    on, succeeds and makes every page byte for byte the page the run left. *)
Theorem redo_repeats_history h hs L hc :
  started h L -> run h hs -> ready hc ->
  (forall id, exists h1, h1 ∈ h :: hs /\ page_of hc id = page_of h1 id) ->
  exists raw, log (h_sink (final h hs)) (L ++ raw) /\
    exists h', replay (heap_target replay_vm other) raw hc = Some (Ok tt, h') /\
      forall id, page_of h' id = page_of (final h hs) id.
Proof using LogSink0 Hfloor Hlog.
  intros Hs Hr Hc Hpages. destruct (run_changes h hs L Hr Hs) as (L2 & Hs2 & Hch). pose proof Hs as (_ & _ & _ & _ & Hg).
  pose proof Hch as (raw & rs & El & Hd & _). exists raw. split; [rewrite <- El; apply Hs2|].
  destruct (replay_run replay_vm other raw rs (page_of (final h hs)) hc Hc Hd) as (h' & E & _ & HV); [|by exists h'].
  intros id. destruct (Hpages id) as (h1 & Hin & ->).
  destruct (run_at h hs h1 L Hr Hs Hin) as (L1 & L2' & _ & Hs2' & Hc1 & Hc2).
  rewrite (started_log _ _ _ Hs2' Hs2) in Hc2. by eapply changes_catch_up.
Qed.

(** A record of the log names the page. *)
Definition named_in (raw : Log) (id : PageId) : Prop :=
  exists lsn r hr, (lsn, r) ∈ raw /\ decode_heap r = Some hr /\ touches hr id = true.



(** C25. Every operation comes to an end without a panic, whatever the payload,
    the free-space map, the failures of the pool and of the log: the search for
    room takes a new block each round and stops when the block numbers run out.
    Fuel for every block number is enough. *)
Theorem operations_return o h L :
  U32 <= Z.of_nat fuel -> started h L -> op_ok sink (page_of h) o -> exists r h', run_op crc fuel o h = Some (r, h').
Proof using LogSink0 Hfloor. by apply op_returns. Qed.
End recover.

(** ** The sink of the server *)

(** The sink over the WAL buffer, with the records it accepted. *)
Definition logging_sink : WalSink (Log * WalBufferSink) :=
  mk_WalSink _ (fun st xid => sink_last_lsn_for st.2 xid)
    (fun st r => match append_ref st.2 r with
                 | (Ok lsn, w) => (Ok lsn, (st.1 ++ [(lsn, r)], w))
                 | (Err e, w) => (Err e, (st.1, w))
                 end).

Definition logging_log (floor : Lsn) (st : Log * WalBufferSink) (L : Log) : Prop :=
  st.1 = L /\ top floor L < wb_next_lsn (ws_buffer st.2).

(** The heap's requirement on its sink holds of it. *)
#[global] Instance logging_LogSink floor : LogSink logging_sink (logging_log floor) floor.
Proof.
  split; intros [g w] L r res w' [Eg Ht].
  - intros Hz. cbn. destruct (append_ref w r) as [[lsn|e] w1] eqn:E; [|done]. intros [= <- <-].
    apply append_ref_result in E as (-> & Hn & Hlt & _). cbn in Eg. subst g. cbn in Ht. unfold logging_log. cbn. rewrite top_snoc.
    split; [split; [done|lia]|]. lia.
  - cbn. destruct (append_ref w r) as [[lsn|e0] w1] eqn:E; [done|]. intros [= <- <-].
    apply append_ref_result in E as [Hn _]. cbn in *. split; [done|]. cbn. by rewrite Hn.
Qed.

Lemma logging_log_unique floor w L L' : logging_log floor w L -> logging_log floor w L' -> L = L'.
Proof. intros [<- _] [<- _]. done. Qed.

(** ** An example *)

Section sample.
Abbreviation W := (Log * WalBufferSink)%type.
Definition no_crc (c : Z) (bytes : list Z) : Z := 0.

(** An empty heap whose last checkpoint is at [ckpt]. *)
Definition empty_heap (ckpt : Lsn) : Heap W :=
  mk_Heap ∅ [] false ∅ ∅ ckpt ∅ ∅ ∅ [] ∅ ∅ ([], WalBufferSink_new (WalBuffer_new 65536 64)).

Definition after (o : op W) (h : Heap W) : Heap W :=
  match run_op no_crc 1 o h with Some (_, h') => h' | None => h end.

Definition sample_tid (slot : Z) : TupleId := mk_TupleId (mk_PageId 7 0) slot.
Definition sample_insert : op W := OInsert 7 [1; 2; 3] (mk_InsertOptions 5 0 2 (Some logging_sink) true true).
Definition sample_update : op W := OUpdate (sample_tid 0) [9; 9] (mk_UpdateOptions 6 1 true (Some logging_sink) true).
Definition sample_delete : op W := ODelete (sample_tid 1) (mk_DeleteOptions 7 0 (Some logging_sink) true true).

Definition state1 (ckpt : Lsn) : Heap W := after sample_insert (empty_heap ckpt).
Definition state2 (ckpt : Lsn) : Heap W := after sample_update (state1 ckpt).
Definition state3 (ckpt : Lsn) : Heap W := after sample_delete (state2 ckpt).

Lemma empty_started ckpt : 0 <= ckpt <= 10 -> started (logging_log 10) 10 ckpt (empty_heap ckpt) [].
Proof.
  intros Hc. split; [done|]. split; [done|]. split; [done|]. split; [by split_and!|]. split; [|done]. intros id.
  destruct hpage_new as (hd & Hp & E). exists hd. split; [exact Hp|]. cbn. lia.
Qed.
Definition healthy (o : op W) (h : Heap W) : bool :=
  match run_op no_crc 1 o h with Some (_, h') => negb (h_poisoned h') | None => false end.

Lemma run_after o h hs :
  op_ok logging_sink (page_of h) o -> healthy o h = true -> run no_crc logging_sink 1 (after o h) hs ->
  run no_crc logging_sink 1 h (after o h :: hs).
Proof.
  intros Hok Hh Hr. unfold healthy in Hh. assert (exists r, run_op no_crc 1 o h = Some (r, after o h)) as (r & E).
  { unfold after. destruct (run_op no_crc 1 o h) as [[r h']|]; [by exists r|done]. }
  eapply run_cons; [done|exact E| |done]. rewrite E in Hh. by apply negb_true_iff in Hh.
Qed.

Lemma sample_insert_ok V : op_ok logging_sink V sample_insert.
Proof. split; [done|]. split; [|done]. split; [by repeat constructor|done]. Qed.

Lemma sample_update_ok V : is_Some (rows V (sample_tid 0)) -> op_ok logging_sink V sample_update.
Proof. intros H. split; [done|]. split; [by repeat constructor|]. by split_and!. Qed.

Lemma sample_delete_ok V : is_Some (rows V (sample_tid 1)) -> op_ok logging_sink V sample_delete.
Proof. intros H. split; [done|]. by split_and!. Qed.

Lemma sample_run ckpt :
  is_Some (rows (page_of (state1 ckpt)) (sample_tid 0)) -> is_Some (rows (page_of (state2 ckpt)) (sample_tid 1)) ->
  healthy sample_insert (empty_heap ckpt) = true -> healthy sample_update (state1 ckpt) = true ->
  healthy sample_delete (state2 ckpt) = true ->
  run no_crc logging_sink 1 (empty_heap ckpt) [state1 ckpt; state2 ckpt; state3 ckpt].
Proof.
  intros H1 H2 H3 H4 H5. apply run_after; [apply sample_insert_ok|done|].
  apply run_after; [by apply sample_update_ok|done|]. apply run_after; [by apply sample_delete_ok|done|constructor].
Qed.
End sample.

(** The crash comes after the update, with the page flushed before it. *)
Lemma redo_repeats_history_witness :
  exists h', replay (heap_target true (fun _ _ _ => mret tt)) (h_sink (state3 0)).1 (state1 0) = Some (Ok tt, h') /\
    forall id, page_of h' id = page_of (state3 0) id.
Proof.
  destruct (redo_repeats_history no_crc logging_sink (logging_log 10) 10 0 1 ltac:(lia) (logging_log_unique 10) true
    (fun _ _ _ => mret tt) (empty_heap 0) [state1 0; state2 0; state3 0] [] (state1 0)) as (raw & [Hl _] & H).
  - by apply empty_started.
  - apply sample_run; [eexists; vm_compute; reflexivity..|vm_compute; reflexivity|vm_compute; reflexivity|vm_compute; reflexivity].
  - vm_compute. done.
  - intros id. exists (state1 0). split; [|done]. right. left.
  - cbn [app] in Hl. rewrite <- Hl in H. exact H.
Defined.



Lemma operations_return_witness :
  exists r h', run_op no_crc (Z.to_nat U32) sample_insert (empty_heap 0) = Some (r, h').
Proof.
  apply (operations_return no_crc logging_sink (logging_log 10) 10 0 (Z.to_nat U32) ltac:(lia) sample_insert (empty_heap 0) []).
  - lia.
  - by apply empty_started.
  - apply sample_insert_ok.
Defined.
