(* ===== verification/HeapServer.v ===== *)
(** * Two limits of the heap and of its recovery

    A row that fits no page sends the insertion through every block number. The
    server's recovery target applies most heap records without their LSN: a
    page flushed with an LSN is then taken for newer than any record. A page
    that cannot be read is not repaired by its image. *)

From S2P Require Import Prelude CoreIds TupleHeader WalRecord WalBuffer WalPayload WalPayloadHeap WalSink Bytes Page PageSpec HeapMaps WalBufferSink Heap HeapRedo HeapPage HeapReplay HeapTrace HeapLogic HeapInsert HeapChange HeapUpdate HeapTable HeapRecover.

(** ** A row larger than a page *)

Section oversized.
Context {W : Type} (crc : Z -> list Z -> Z) (payload : list Z) (opts : InsertOptions W) (n : Z) (fpw_sink : option (WalSink W)).
Hypothesis (Hbig : PAGE_SIZE - PAGE_HEADER_SIZE < 40 + zlen payload + ITEMID_SIZE).

(** The pages may be fetched and are heap pages; no image is due. *)
Definition calm (h : Heap W) : Prop :=
  h_poisoned h = false /\ h_io h = [] /\ h_checkpoint_lsn h = 0 /\ forall id, exists hd, hpage (page_of h id) hd.

Lemma bind_err {E A B} (m : HM W E A) (k : A -> HM W E B) h e h' : m h = Some (Err e, h') -> (m ≫= k) h = Some (Err e, h').
Proof using. unfold mbind, HM_bind. by intros ->. Qed.

Lemma insert_into_none id h :
  calm h -> exists free, insert_into_pinned id payload opts n (40 + zlen payload) h =
    Some (Err (HPage (NoSpace (40 + zlen payload + ITEMID_SIZE) free)), h).
Proof using Hbig.
  intros (_ & _ & _ & Hpg). destruct (Hpg id) as (hd & Hh). exists (hd_upper hd - hd_lower hd).
  pose proof (page_header_ok _ _ (hp_ok _ _ Hh)) as Hok. pose proof (ho_lower _ Hok). pose proof (ho_special _ Hok).
  pose proof (ho_page _ Hok). unfold insert_into_pinned.
  rewrite (bind_run _ _ h (page_of h id) h), (bind_run _ _ h hd h), (bind_run _ _ h (hd_upper hd - hd_lower hd) h);
    [|unfold hor_panic; by rewrite (free_space_Some _ Hok)|unfold hor_panic; by rewrite (page_header_eq _ _ (hp_ok _ _ Hh))|done].
  by rewrite (proj2 (Z.ltb_lt _ _)) by lia.
Qed.

Lemma try_block_none rel block h :
  calm h -> try_block crc rel block payload opts n (40 + zlen payload) fpw_sink h = Some (Ok None, h).
Proof using Hbig.
  intros Hc. pose proof Hc as (Hp & Hio & Hck & _). destruct (insert_into_none (mk_PageId rel block) h Hc) as (free & Ei).
  unfold try_block. rewrite (bind_run _ _ h (Err (HPage (NoSpace (40 + zlen payload + ITEMID_SIZE) free))) h); [done|].
  unfold try_. assert (try_insert_into crc (mk_PageId rel block) payload opts n (40 + zlen payload) fpw_sink h =
    Some (Err (HPage (NoSpace (40 + zlen payload + ITEMID_SIZE) free)), h)) as ->; [|done].
  unfold try_insert_into. rewrite (bind_run _ _ h tt h).
  - rewrite (bind_run _ _ h tt h) by (unfold get_page; by rewrite Hp, Hio). by apply bind_err.
  - destruct (or_sink _ _); [|done]. unfold maybe_emit_fpw. rewrite (bind_run _ _ h 0 h); [done|]. unfold gets. by rewrite Hck.
Qed.

Lemma scan_blocks_none rel blocks h :
  calm h -> scan_blocks crc rel blocks payload opts n (40 + zlen payload) fpw_sink h = Some (Ok None, h).
Proof using Hbig.
  intros Hc. induction blocks as [|b blocks IH]; [done|]. cbn [scan_blocks].
  by rewrite (bind_run _ _ h None h) by by apply try_block_none.
Qed.

Definition set_blocks (rel c : Z) (h : Heap W) : Heap W := with_counters h (<[rel := c]> (h_counters h)).

Lemma set_blocks_calm rel c h : calm h -> calm (set_blocks rel c h).
Proof using. done. Qed.

Lemma counter_set rel c h : counter (set_blocks rel c h) rel = c.
Proof using. unfold counter, set_blocks. cbn. by rewrite lookup_insert_eq. Qed.

Lemma set_blocks_twice rel c d h : set_blocks rel d (set_blocks rel c h) = set_blocks rel d h.
Proof using. unfold set_blocks, with_counters. cbn. by rewrite insert_insert_eq. Qed.

Lemma grow_exhausts fuel rel h :
  calm h -> in_width U32 (counter h rel) -> U32 - counter h rel <= Z.of_nat fuel ->
  grow crc fuel rel payload opts n (40 + zlen payload) fpw_sink h = Some (Err HOutOfBlocks, set_blocks rel (U32 - 1) h).
Proof using Hbig.
  revert h. induction fuel as [|fuel IH]; intros h Hc Hw Hf; unfold in_width in Hw; [lia|].
  cbn [grow]. rewrite (bind_run _ _ h (counter h rel) h) by done.
  rewrite (bind_run _ _ h tt (set_blocks rel (wrap U32 (counter h rel + 1)) h)) by done.
  destruct (Z.eqb_spec (counter h rel) (U32 - 1)) as [E|Hne].
  - rewrite (bind_run _ _ _ tt (set_blocks rel (U32 - 1) h)); [done|].
    unfold set_counter, modify. by rewrite <- (set_blocks_twice rel (wrap U32 (counter h rel + 1)) (U32 - 1) h).
  - assert (wrap U32 (counter h rel + 1) = counter h rel + 1) as -> by (unfold wrap; apply Z.mod_small; lia).
    set (h1 := set_blocks rel _ h). rewrite (bind_run _ _ h1 None h1) by by apply try_block_none, set_blocks_calm.
    rewrite (IH h1); [by unfold h1; rewrite set_blocks_twice|by apply set_blocks_calm| |];
      unfold h1, in_width; rewrite counter_set; lia.
Qed.
End oversized.

(** An insertion of a row that fits no page is not refused: it takes every
    block number there is, fails with [OutOfBlocks] and leaves the relation with
    2^32 - 1 blocks. *)
Theorem oversized_insert_exhausts {W} crc fuel rel payload (opts : InsertOptions W) h :
  calm h -> in_width U32 (counter h rel) -> io_fsm opts = false -> U32 <= Z.of_nat fuel -> zlen payload < U32 ->
  PAGE_SIZE - PAGE_HEADER_SIZE < 40 + zlen payload + ITEMID_SIZE ->
  exists h', insert crc fuel rel payload opts h = Some (Err HOutOfBlocks, h') /\ block_count h' rel = U32 - 1 /\
    forall id, page_of h' id = page_of h id.
Proof.
  intros Hc Hw Hfsm Hf Hlen Hbig. exists (set_blocks rel (U32 - 1) h). split; [|split; [apply counter_set|done]].
  unfold insert, insert_inner_pinned. rewrite tuple_size_eq by done. apply bind_err.
  rewrite (bind_run _ _ h (counter h rel) h), (bind_run _ _ h (40 + zlen payload) h), (bind_run _ _ h None h);
    [|unfold try_hint; by rewrite Hfsm|done|done].
  rewrite (bind_run _ _ h (default 0 (h_cursors h !! rel)) h) by done.
  rewrite (bind_run _ _ h None h) by by apply scan_blocks_none. rewrite (bind_run _ _ h None h) by by apply scan_blocks_none.
  unfold in_width in Hw. apply grow_exhausts; [done|done|done|lia].
Qed.

Lemma oversized_insert_exhausts_witness :
  exists h', insert no_crc (Z.to_nat U32) 7 (replicate (Z.to_nat PAGE_SIZE) 0) (mk_InsertOptions 5 0 2 (Some logging_sink) false false)
    (empty_heap 0) = Some (Err HOutOfBlocks, h') /\ block_count h' 7 = U32 - 1 /\
    forall id, page_of h' id = page_of (empty_heap 0) id.
Proof.
  assert (zlen (replicate (Z.to_nat PAGE_SIZE) 0) = PAGE_SIZE) as Hz by (unfold zlen; rewrite length_replicate, Z2Nat.id; done).
  apply (oversized_insert_exhausts no_crc (Z.to_nat U32) 7 _ _ (empty_heap 0)).
  - split; [done|]. split; [done|]. split; [done|]. intros id. destruct hpage_new as (hd & Hp & _). by exists hd.
  - done.
  - done.
  - lia.
  - rewrite Hz. done.
  - rewrite Hz. done.
Defined.

(** ** The recovery target of the server *)

Section server.
Context {W : Type} (replay_vm : bool) (other : RecordType -> list Z -> Lsn -> HM W ApplyError unit).

(** A record the server replays is a record the heap replays at LSN zero. *)
Lemma server_is_zero r hr lsn (h : Heap W) :
  decode_heap r = Some hr ->
  dispatch_record_at_lsn (server_target replay_vm other) r lsn h = dispatch_record_at_lsn (heap_target replay_vm other) r Lsn_ZERO h.
Proof using. intros Hd. unfold dispatch_record_at_lsn, decode_heap in *. by destruct (record_type (rec_header r)). Qed.

Lemma zero_skipped hr id p hd :
  page_ok p hd -> 0 < hd_lsn hd -> is_full hr = false -> (forall u, hr = RUpdate u -> new_version u <> None) ->
  page_redo hr Lsn_ZERO id p = Some p.
Proof using.
  intros Hp Hl Hf Hu. assert (forall f, gate Lsn_ZERO f p = Some p) as Hg.
  { intros f. unfold gate, should_skip_redo. rewrite (page_header_eq _ _ Hp). cbn [mbind option_bind].
    unfold Lsn_ZERO. by rewrite (proj2 (Z.ltb_lt _ _)) by done. }
  unfold page_redo. destruct (touches hr id); [|done]. cbn [negb]. destruct hr as [|u| |]; [apply Hg| |apply Hg|done].
  destruct (new_version u) eqn:E; [apply Hg|by apply (Hu u eq_refl) in E].
Qed.

(** C28. The server's replay of an insert, update or delete record on pages that
    were flushed with an LSN succeeds and does nothing, whatever the LSN of the
    record: a committed change logged after the flush is lost. *)
Theorem server_redo_skips_flushed_pages r hr lsn (h : Heap W) :
  ready h -> decode_heap r = Some hr -> blocks_ok hr -> is_full hr = false ->
  (forall u, hr = RUpdate u -> new_version u <> None) ->
  (forall id, touches hr id = true -> exists hd, page_ok (page_of h id) hd /\ 0 < hd_lsn hd) ->
  exists h', dispatch_record_at_lsn (server_target replay_vm other) r lsn h = Some (Ok tt, h') /\
    forall id, page_of h' id = page_of h id.
Proof using.
  intros Hr Hd Hb Hf Hu Hp. rewrite (server_is_zero r hr) by done.
  destruct (dispatch_run replay_vm other r hr Lsn_ZERO (page_of h) h Hr Hd Hb) as (h' & E & _ & HV); [|by exists h'].
  intros id. destruct (touches hr id) eqn:Et; [|by apply page_redo_other].
  destruct (Hp id Et) as (hd & Hok & Hl). by eapply zero_skipped.
Qed.

(** A full-page image does not reach a page that cannot be read: the replay
    fetches the page it is about to overwrite, fails with the fetch and leaves
    the pages as they are. A torn page whose checksum is verified on reading
    is such a page. *)
Theorem image_needs_readable_page p lsn (h : Heap W) io :
  h_poisoned h = false -> h_io h = false :: io -> 0 <= pg_block (fpw_page p) -> pg_block (fpw_page p) + 1 < U32 ->
  exists h', apply_full_page_write_at_lsn replay_vm p lsn h = Some (Err (ARefused "fpw"), h') /\
    forall id, page_of h' id = page_of h id.
Proof using.
  intros Hp Hio H0 Hb. unfold apply_full_page_write_at_lsn.
  assert (exists h1, advance_counter (pg_relation (fpw_page p)) (pg_block (fpw_page p)) h = Some (Ok tt, h1) /\
    h_poisoned h1 = false /\ h_io h1 = false :: io /\ h_pages h1 = h_pages h) as (h1 & E1 & Hp1 & Hio1 & Hpg).
  { unfold advance_counter, checked_add. rewrite (proj2 (Z.ltb_lt _ _)) by lia. unfold mbind, HM_bind, gets.
    destruct (_ <? _); eexists; done. }
  exists (with_io h1 io). rewrite (bind_run _ _ h tt h1 E1). split; [|intros id; unfold page_of; cbn; by rewrite Hpg].
  apply bind_err. unfold fetch_for_redo, map_err, get_page. by rewrite Hp1, Hio1.
Qed.
End server.

(** ** A lost deletion *)

(** The deleter of the row at [tid], after the replay of the log of the run of
    [HeapRecover] into the pages its update left. *)
Definition recovered_xmax (target : HeapTarget (Log * WalBufferSink)) (tid : TupleId) : option Xid :=
  match replay target (h_sink (state3 0)).1 (state2 0) with
  | Some (Ok _, h') => (fun row => xmax (row_header row)) <$> rows (page_of h') tid
  | _ => None
  end.

(** A row is inserted, updated, its page flushed, and the new version is
    then deleted by transaction 7. The heap's own replay of the log restores the
    deletion; the server's replay ends without error and the row is undeleted. *)
Theorem server_recovery_loses_delete :
  (fun row => xmax (row_header row)) <$> rows (page_of (state3 0)) (sample_tid 1) = Some 7 /\
  recovered_xmax (heap_target true (fun _ _ _ => mret tt)) (sample_tid 1) = Some 7 /\
  recovered_xmax (server_target true (fun _ _ _ => mret tt)) (sample_tid 1) = Some Xid_INVALID.
Proof. split_and!; vm_compute; reflexivity. Qed.

(** The last record of the run, on the page its update left. *)
Definition delete_record : WalRecord :=
  match last (h_sink (state3 0)).1 with Some (_, r) => r | None => mk_WalRecord (mk_WalRecordHeader 0 0 0 0 Nop 0) [] end.

Lemma server_redo_skips_flushed_pages_witness :
  exists h', dispatch_record_at_lsn (server_target true (fun _ _ _ => mret tt)) delete_record 500 (state2 0) = Some (Ok tt, h') /\
    forall id, page_of h' id = page_of (state2 0) id.
Proof.
  assert (forall id, exists hd, hpage (page_of (state2 0) id) hd) as Hpg.
  { destruct (run_changes no_crc logging_sink (logging_log 10) 10 0 1 ltac:(lia) (empty_heap 0) [state1 0; state2 0] []) as (L & Hs & _).
    - apply run_after; [apply sample_insert_ok|vm_compute; reflexivity|].
      apply run_after; [apply sample_update_ok; eexists; vm_compute; reflexivity|vm_compute; reflexivity|constructor].
    - by apply empty_started.
    - intros id. destruct Hs as (_ & _ & _ & _ & Hg & _). destruct (Hg id) as (hd & Hp & _). by exists hd. }
  apply (server_redo_skips_flushed_pages true (fun _ _ _ => mret tt) delete_record
    (RDelete (mk_HeapDeletePayload (sample_tid 1) 7 0)) 500 (state2 0)).
  - vm_compute. done.
  - vm_compute. reflexivity.
  - intros id Ht. apply bool_decide_eq_true in Ht. subst id. vm_compute. split; [discriminate|reflexivity].
  - reflexivity.
  - discriminate.
  - intros id Ht. apply bool_decide_eq_true in Ht. subst id. destruct (Hpg (tid_page (sample_tid 1))) as (hd & Hp).
    exists hd. split; [apply Hp|]. pose proof (page_header_eq _ _ (hp_ok _ _ Hp)) as E.
    assert (hd_lsn <$> page_header (page_of (state2 0) (tid_page (sample_tid 1))) = Some 151) as El by (vm_compute; reflexivity).
    cbn [hd_tid]. rewrite E in El. cbn in El. injection El as ->. lia.
Defined.

Lemma image_needs_readable_page_witness :
  exists h', apply_full_page_write_at_lsn true (mk_FullPageWritePayload (mk_PageId 7 0) new_heap) 500 (with_io (state2 0) [false])
    = Some (Err (ARefused "fpw"), h') /\ forall id, page_of h' id = page_of (with_io (state2 0) [false]) id.
Proof.
  apply (image_needs_readable_page true (mk_FullPageWritePayload (mk_PageId 7 0) new_heap) 500 (with_io (state2 0) [false]) []).
  - vm_compute. reflexivity.
  - reflexivity.
  - cbn. lia.
  - cbn. unfold U32. lia.
Defined.
