(* ===== verification/HeapScan.v ===== *)
(** * Visible reads of the heap (ultrasql-storage, heap/scan.rs and heap/walker.rs)

    The two sequential scans that apply the visibility predicate: the walker,
    which copies a block and the undo records of the block under one latch and
    hands out a tuple per call, and the visitor, which calls a closure for
    every visible tuple of a page. Both keep a cache of one visibility
    decision; the walker trusts the visibility map for whole blocks. The
    closure of the visitor is a function on a state of its own. *)

From S2P Require Import Prelude CoreIds TupleHeader Snapshot Visibility Bytes Page HeapMaps UndoLog Heap.

(** ** A slot read from the bytes of a page *)

Inductive probe := PSkip | PShort | PTuple (offset length : Z).

(** The entry of the slot directory; [None] is the panic of an index outside
    the page. A [u32] entry yields a length and an offset of 15 bits, so the
    conversions to [usize] and the addition cannot fail. *)
Definition probe_slot (page : Page) (slot : Z) : option probe :=
  let item_id_off := PAGE_HEADER_SIZE + slot * ITEMID_SIZE in
  if zlen page <? item_id_off + 4 then None else
  let raw := zread 4 item_id_off page in
  if negb (ItemId_is_normal raw) then Some PSkip else
  let length := ItemId_length raw in
  let offset := ItemId_offset raw in
  if (length <? Z.of_nat TUPLE_HEADER_SIZE) || (zlen page <? offset + length) then Some PShort
  else Some (PTuple offset length).

(** ** Undo logs *)

Definition relation_undo {W} (h : Heap W) (rel : Z) : UndoRelationLog := default UndoRelationLog_default (h_undo h !! rel).

Definition undo_log_handle {W E} (rel : Z) : HM W E unit :=
  modify (fun h => match h_undo h !! rel with
                   | Some _ => h
                   | None => with_undo h (<[rel := UndoRelationLog_default]> (h_undo h))
                   end).

Definition VisibleTuple : Type := TupleId * TupleHeader * list Z.

Section reads.
Context {W X : Type} `{XidStatusOracle X} (snapshot : Snapshot) (oracle : X).

(** [fetch_visible_pre_image] *)
Definition fetch_visible_pre_image (tid : TupleId) : HM W HeapError (option (list Z)) :=
  undo_log_handle (pg_relation (tid_page tid));;
  get_page (tid_page tid);;
  p ← guard_page (tid_page tid);
  log ← gets (fun h => relation_undo h (pg_relation (tid_page tid)));
  bytes ← hor_panic (read_tuple p (tid_slot tid));
  bytes ← hlift (result_err HPage bytes);
  tuple ← hlift (decode_tuple tid bytes);
  mret (undo_pre_image_from_log log tid (ht_data tuple) snapshot oracle).

(** [undo_slot_state_current]: a relation without a log has no history. *)
Definition undo_slot_state_current (rel : Z) (tid : TupleId) (current_payload : list Z) : HM W HeapError bool :=
  gets (fun h =>
    match h_undo h !! rel with
    | None => true
    | Some log =>
        match undo_pre_image_from_log log tid current_payload snapshot oracle with None => true | Some _ => false end
    end).

(** ** The walker *)

Record Walker := mk_Walker {
  w_rel : Z;
  w_block_count : Z;
  w_current_block : Z;
  w_current_slot : Z;
  w_slot_count : Z;
  w_vm : bool;
  w_all_visible : bool;
  w_scratch : list Z;
  w_cache : option (Xid * Z * bool);
  w_page_undo : UndoRelationLog;
}.

Definition at_position (w : Walker) (block slot : Z) : Walker :=
  mk_Walker (w_rel w) (w_block_count w) block slot (w_slot_count w) (w_vm w) (w_all_visible w) (w_scratch w)
    (w_cache w) (w_page_undo w).
Definition with_block (w : Walker) (slot_count : Z) (all_visible : bool) (scratch : list Z) (undo : UndoRelationLog) : Walker :=
  mk_Walker (w_rel w) (w_block_count w) (w_current_block w) (w_current_slot w) slot_count (w_vm w) all_visible scratch
    (w_cache w) undo.
Definition with_cache (w : Walker) (cache : option (Xid * Z * bool)) : Walker :=
  mk_Walker (w_rel w) (w_block_count w) (w_current_block w) (w_current_slot w) (w_slot_count w) (w_vm w)
    (w_all_visible w) (w_scratch w) cache (w_page_undo w).

Definition resume_position (w : Walker) : Z * Z := (w_current_block w, w_current_slot w).

(** [scan_visible_walker_inner]; [vm] says whether a visibility map is given. *)
Definition scan_visible_walker_inner (rel : Z) (start : Z * Z) (end_block : Z) (vm : bool) : HM W HeapError Walker :=
  undo_log_handle rel;;
  mret (mk_Walker rel end_block (Z.min start.1 end_block) start.2 0 vm false [] None UndoRelationLog_default).

Definition scan_visible_walker (rel block_count : Z) : HM W HeapError Walker :=
  scan_visible_walker_inner rel (0, 0) block_count false.
Definition scan_visible_walker_with_vm (rel block_count : Z) : HM W HeapError Walker :=
  scan_visible_walker_inner rel (0, 0) block_count true.
Definition scan_visible_walker_range_from_position (rel : Z) (start : Z * Z) (end_block : Z) : HM W HeapError Walker :=
  scan_visible_walker_inner rel start end_block false.
Definition scan_visible_walker_range_with_vm (rel start_block end_block : Z) : HM W HeapError Walker :=
  scan_visible_walker_inner rel (start_block, 0) end_block true.
Definition scan_visible_walker_range_from_position_with_vm (rel : Z) (start : Z * Z) (end_block : Z) : HM W HeapError Walker :=
  scan_visible_walker_inner rel start end_block true.

(** The block transition: one copy of the page and of its undo records. *)
Definition load_block (page_id : PageId) (w : Walker) : HM W HeapError Walker :=
  if is_nil (w_scratch w) then
    get_page page_id;;
    page ← guard_page page_id;
    header ← hor_panic (page_header page);
    n ← hor_panic (slot_count header);
    all_visible ← gets (fun h => w_vm w && is_all_visible (w_rel w) (pg_block page_id) (h_vm h));
    undo ← gets (fun h => if all_visible then UndoRelationLog_default
                          else snapshot_page page_id (relation_undo h (w_rel w)));
    mret (with_block w n all_visible page undo)
  else mret w.

(** The cache of one decision for tuples without [xmax]. *)
Definition walker_visibility (cache : option (Xid * Z * bool)) (header : TupleHeader)
    : Visibility * option (Xid * Z * bool) :=
  let miss :=
    let o := is_visible header snapshot oracle in
    (o, Some (xmin header, infomask header, match o with Visible => true | _ => false end)) in
  if Xid_is_invalid (xmax header) then
    match cache with
    | Some (cxmin, cinfo, v) =>
        if (cxmin =? xmin header) && (cinfo =? infomask header)
        then (if v then Visible else Invisible, cache)
        else miss
    | None => miss
    end
  else (is_visible header snapshot oracle, cache).

(** One iteration of the loop of [try_next]: [Some] is its return. *)
Definition walk_step (w : Walker) : HM W HeapError (option (result (option VisibleTuple) HeapError) * Walker) :=
  if w_block_count w <=? w_current_block w then mret (Some (Ok None), w) else
  let page_id := mk_PageId (w_rel w) (w_current_block w) in
  loaded ← try_ (load_block page_id w);
  match loaded with
  | Err e => mret (Some (Err e), at_position w (saturating_add U32 (w_current_block w) 1) 0)
  | Ok w =>
      if w_slot_count w <=? w_current_slot w then
        mret (None, at_position (with_block w (w_slot_count w) (w_all_visible w) [] (w_page_undo w))
                      (saturating_add U32 (w_current_block w) 1) 0)
      else
      let slot := w_current_slot w in
      let w := at_position w (w_current_block w) (slot + 1) in
      found ← hor_panic (probe_slot (w_scratch w) slot);
      match found with
      | PSkip => mret (None, w)
      | PShort => mret (Some (Err (HMalformedHeader "slot shorter than header")), w)
      | PTuple offset length =>
          let payload := zslice (offset + Z.of_nat TUPLE_HEADER_SIZE) (offset + length) (w_scratch w) in
          match decode_header (zslice offset (offset + length) (w_scratch w)) "header decode failed" with
          | Err e => mret (Some (Err e), w)
          | Ok header =>
              let tid := mk_TupleId page_id slot in
              if w_all_visible w then mret (Some (Ok (Some (tid, header, payload))), w) else
              let '(outcome, cache) := walker_visibility (w_cache w) header in
              let w := with_cache w cache in
              let pre := undo_pre_image_from_log (w_page_undo w) tid payload snapshot oracle in
              match outcome with
              | Visible => mret (Some (Ok (Some (tid, header, payload))), w)
              | VisiblePreImage =>
                  match pre with
                  | Some p => mret (Some (Ok (Some (tid, header, p))), w)
                  | None => mret (None, w)
                  end
              | VisibleMaybePreImage => mret (Some (Ok (Some (tid, header, default payload pre))), w)
              | Invisible | DeletedByOwn => mret (None, w)
              end
          end
      end
  end.

(** [fuel] iterations of the loop; running out of them has no result. *)
Fixpoint try_next (fuel : nat) (w : Walker) : HM W HeapError (result (option VisibleTuple) HeapError * Walker) :=
  match fuel with
  | O => hpanic
  | S fuel' =>
      step ← walk_step w;
      match step with
      | (Some r, w') => mret (r, w')
      | (None, w') => try_next fuel' w'
      end
  end.

(** A client that reads the scan to its end, as [VisibleHeapScan] is
    consumed: [n] bounds the tuples. *)
Fixpoint read_all (n fuel : nat) (w : Walker) : HM W HeapError (list VisibleTuple) :=
  match n with
  | O => hpanic
  | S n' =>
      next ← try_next fuel w;
      match next with
      | (Ok None, _) => mret []
      | (Ok (Some t), w') => rest ← read_all n' fuel w'; mret (t :: rest)
      | (Err e, _) => hthrow e
      end
  end.

(** ** The visitor *)

Section visitor.
Context {St : Type} (f : TupleId -> TupleHeader -> list Z -> St -> result St HeapError).

(** One slot of [for_each_visible]. *)
Definition visit_slot (log : UndoRelationLog) (page_id : PageId) (page : Page) (slot : Z)
    (acc : option (Xid * Z * bool) * St) : HM W HeapError (option (Xid * Z * bool) * St) :=
  let '(cache, st) := acc in
  found ← hor_panic (probe_slot page slot);
  match found with
  | PSkip => mret acc
  | PShort => hthrow (HMalformedHeader "slot shorter than header")
  | PTuple offset length =>
      let slot_bytes := zslice offset (offset + length) page in
      let payload := drop TUPLE_HEADER_SIZE slot_bytes in
      let xmin_raw := zread 8 0 slot_bytes in
      let xmax_raw := zread 8 8 slot_bytes in
      let infomask_bits := zread 2 24 slot_bytes in
      let tid := mk_TupleId page_id slot in
      let hit :=
        match cache with
        | Some (cxmin, cinfo, true) => (xmax_raw =? 0) && (cxmin =? xmin_raw) && (cinfo =? infomask_bits)
        | _ => false
        end in
      if hit then
        st ← hlift (f tid (minimal_for_visible_cache_hit xmin_raw infomask_bits) payload st);
        mret (cache, st)
      else
      header ← hlift (decode_header slot_bytes "header decode failed");
      let outcome := is_visible header snapshot oracle in
      let maybe := match outcome with VisibleMaybePreImage => true | _ => false end in
      let cache :=
        if Xid_is_invalid (xmax header) && negb maybe
        then Some (xmin header, infomask header, match outcome with Visible => true | _ => false end) else cache in
      let pre := undo_pre_image_from_log log tid payload snapshot oracle in
      match outcome with
      | Visible => st ← hlift (f tid header payload st); mret (cache, st)
      | VisiblePreImage =>
          match pre with
          | Some p => st ← hlift (f tid header p st); mret (cache, st)
          | None => mret (cache, st)
          end
      | VisibleMaybePreImage => st ← hlift (f tid header (default payload pre) st); mret (cache, st)
      | Invisible | DeletedByOwn => mret (cache, st)
      end
  end.

Fixpoint visit_slots (log : UndoRelationLog) (page_id : PageId) (page : Page) (slots : list Z)
    (acc : option (Xid * Z * bool) * St) : HM W HeapError (option (Xid * Z * bool) * St) :=
  match slots with
  | [] => mret acc
  | slot :: slots' => acc ← visit_slot log page_id page slot acc; visit_slots log page_id page slots' acc
  end.

Fixpoint visit_blocks (rel : Z) (blocks : list Z) (acc : option (Xid * Z * bool) * St)
    : HM W HeapError (option (Xid * Z * bool) * St) :=
  match blocks with
  | [] => mret acc
  | block :: blocks' =>
      let page_id := mk_PageId rel block in
      get_page page_id;;
      page ← guard_page page_id;
      header ← hor_panic (page_header page);
      n ← hor_panic (slot_count header);
      log ← gets (fun h => relation_undo h rel);
      acc ← visit_slots log page_id page (slots_below n) acc;
      visit_blocks rel blocks' acc
  end.

Definition for_each_visible (rel block_count : Z) (st : St) : HM W HeapError St :=
  undo_log_handle rel;;
  acc ← visit_blocks rel (seqZ 0 block_count) (None, st);
  mret acc.2.
End visitor.
End reads.
