(* ===== verification/HeapScanRefine.v ===== *)
(** * What a scan returns

    The rows a snapshot is entitled to, block by block and slot by slot, and
    the proof that the walker and the visitor return exactly those rows, in
    that order, on the tables on which their one-entry cache of visibility
    decisions cannot mislead them. *)

From S2P Require Import Prelude CoreIds TupleHeader Snapshot Visibility Bytes Page PageSpec HeapMaps UndoLog UndoLogSpec UndoRead Heap HeapRedo HeapPage HeapTrace HeapLogic HeapInsert HeapScan.

Section spec.
Context {W X : Type} `{XidStatusOracle X} (s : Snapshot) (o : X).

(** ** The rows of a snapshot *)

(** The payload a reader gets for a row: nothing, the bytes of the slot, or
    the bytes the undo log gives. *)
Definition row_payload (log : UndoRelationLog) (tid : TupleId) (hdr : TupleHeader) (payload : list Z) : option (list Z) :=
  let pre := undo_pre_image_from_log log tid payload s o in
  match is_visible hdr s o with
  | Visible => Some payload
  | VisiblePreImage => pre
  | VisibleMaybePreImage => Some (default payload pre)
  | Invisible | DeletedByOwn => None
  end.

Definition slot_out (log : UndoRelationLog) (id : PageId) (i : Z) (v : slot_view) : list VisibleTuple :=
  match v with
  | SLive t =>
      match decode (take TUPLE_HEADER_SIZE t) with
      | Some (hdr, _) =>
          match row_payload log (mk_TupleId id i) hdr (drop TUPLE_HEADER_SIZE t) with
          | Some p => [(mk_TupleId id i, hdr, p)]
          | None => []
          end
      | None => []
      end
  | _ => []
  end.

Fixpoint slots_out (log : UndoRelationLog) (id : PageId) (i : Z) (vs : list slot_view) : list VisibleTuple :=
  match vs with [] => [] | v :: vs' => slot_out log id i v ++ slots_out log id (i + 1) vs' end.

Definition block_out (h : Heap W) (rel b from : Z) : list VisibleTuple :=
  slots_out (relation_undo h rel) (mk_PageId rel b) from (drop (Z.to_nat from) (slots_of (page_of h (mk_PageId rel b)))).

Definition blocks_out (h : Heap W) (rel b n : Z) : list VisibleTuple :=
  seqZ b (n - b) ≫= (fun b => block_out h rel b 0).

(** The rows of the first [n] blocks of a relation. *)
Definition visible_rows (h : Heap W) (rel n : Z) : list VisibleTuple := blocks_out h rel 0 n.

(** The header of a live row of the relation. *)
Definition row_header_of (h : Heap W) (rel n : Z) (hdr : TupleHeader) : Prop :=
  exists b i t, 0 <= b < n /\ slots_of (page_of h (mk_PageId rel b)) !! i = Some (SLive t) /\ tuple_header t hdr.

(** A heap whose pages can be read. *)
Record readable (h : Heap W) (rel n : Z) : Prop := {
  rd_poison : h_poisoned h = false;
  rd_io : h_io h = [];
  rd_pages b : 0 <= b < n -> exists hd, hpage (page_of h (mk_PageId rel b)) hd;
  rd_undo : log_wf (relation_undo h rel);
  rd_blocks : 0 <= n < U32;
}.

(** ** A slot of a healthy page *)

Lemma probe_page p hd i :
  hpage p hd -> 0 <= i < n_slots hd ->
  match view p i with
  | SLive t => exists hdr, tuple_header t hdr /\ Forall is_byte t /\
      probe_slot p i = Some (PTuple (start p i) (extent p i)) /\
      zslice (start p i) (start p i + extent p i) p = t /\
      zslice (start p i + Z.of_nat TUPLE_HEADER_SIZE) (start p i + extent p i) p = drop TUPLE_HEADER_SIZE t
  | _ => probe_slot p i = Some PSkip
  end.
Proof.
  intros Hp Hi. pose proof (hp_ok _ _ Hp) as Hok. pose proof (page_header_ok _ _ Hok) as Hh.
  pose proof (slot_fits_below _ _ Hh Hi) as [_ Hfit]. pose proof (po_len _ _ Hok) as Hlen.
  destruct (lower_slots _ Hh) as [_ Hn].
  assert (Hlook : page_slots p hd !! Z.to_nat i = Some (view p i)).
  { rewrite page_slots_lookup by done. rewrite decide_True by lia. by rewrite Z2Nat.id by lia. }
  unfold probe_slot. rewrite (proj2 (Z.ltb_ge _ _)) by (unfold ITEMID_SIZE in *; lia). fold (item p i).
  unfold ItemId_is_normal. fold (start p i) (extent p i).
  destruct (view p i) as [| | |t] eqn:Ev;
    try (rewrite bool_decide_false; [done|]; unfold view, view_item in *; by destruct (ItemId_flags _)).
  destruct (view_live _ _ _ Ev) as [Hlive Ht]. rewrite bool_decide_true by done. cbn [negb].
  destruct (hp_tuples _ _ Hp _ _ Hlook) as [hdr Hhdr].
  assert (Forall is_byte t) as Hb by (by eapply live_bytes_slots).
  destruct (tuple_header_facts _ _ Hb Hhdr) as (_ & _ & Hl40 & _).
  destruct (po_live _ _ Hok i Hi Hlive) as [Hup Hsp]. pose proof (ho_page _ Hh). pose proof (ho_lower _ Hh).
  pose proof (ho_upper _ Hh). unfold PAGE_HEADER_SIZE in *.
  assert (zlen t = extent p i) as Hext.
  { rewrite Ht, zlen_slice; [lia| |lia]. split; [lia|]. pose proof (ItemId_length_bound (item p i)). unfold extent. lia. }
  exists hdr. split; [done|]. split; [done|]. change (Z.of_nat TUPLE_HEADER_SIZE) with 40.
  rewrite (proj2 (Z.ltb_ge _ _)), (proj2 (Z.ltb_ge _ _)) by lia. cbn [orb].
  split; [done|]. split; [done|]. rewrite Ht. unfold zslice. rewrite skipn_firstn_comm, drop_drop. unfold TUPLE_HEADER_SIZE.
  f_equal; [lia|]. f_equal. lia.
Qed.

Lemma header_decodes t hdr what : tuple_header t hdr -> decode_header t what = Ok hdr.
Proof. unfold tuple_header, decode_header. by intros ->. Qed.

Lemma slots_out_cons h rel b i t hdr :
  slots_of (page_of h (mk_PageId rel b)) !! Z.to_nat i = Some (SLive t) -> 0 <= i -> tuple_header t hdr ->
  block_out h rel b i =
    match row_payload (relation_undo h rel) (mk_TupleId (mk_PageId rel b) i) hdr (drop TUPLE_HEADER_SIZE t) with
    | Some p => [(mk_TupleId (mk_PageId rel b) i, hdr, p)]
    | None => []
    end ++ block_out h rel b (i + 1).
Proof.
  intros Hl Hi Ht. unfold block_out. rewrite (drop_S _ _ _ Hl). cbn [slots_out slot_out].
  unfold tuple_header in Ht. rewrite Ht. replace (Z.to_nat (i + 1)) with (S (Z.to_nat i)) by lia. done.
Qed.

Lemma slots_out_skip h rel b i v :
  slots_of (page_of h (mk_PageId rel b)) !! Z.to_nat i = Some v -> 0 <= i -> (forall t, v <> SLive t) ->
  block_out h rel b i = block_out h rel b (i + 1).
Proof.
  intros Hl Hi Hv. unfold block_out. rewrite (drop_S _ _ _ Hl). cbn [slots_out].
  replace (Z.to_nat (i + 1)) with (S (Z.to_nat i)) by lia. destruct v; try done. by destruct (Hv tuple).
Qed.

Lemma blocks_out_cons h rel b n : b < n -> blocks_out h rel b n = block_out h rel b 0 ++ blocks_out h rel (b + 1) n.
Proof.
  intros Hb. unfold blocks_out. rewrite seqZ_cons by lia. cbn. f_equal.
  replace (Z.succ b) with (b + 1) by lia. f_equal. f_equal. lia.
Qed.

Lemma n_slots_bound p hd : hpage p hd -> 0 <= n_slots hd < 4096.
Proof.
  intros Hp. pose proof (page_header_ok _ _ (hp_ok _ _ Hp)) as Hh. destruct (lower_slots _ Hh) as [Hl Hn].
  pose proof (ho_page _ Hh). pose proof (ho_upper _ Hh). pose proof (ho_special _ Hh).
  unfold PAGE_HEADER_SIZE, ITEMID_SIZE, PAGE_SIZE in *. lia.
Qed.
End spec.

(** * The scans return the rows of the snapshot

    On a heap whose pages can be read, the walker and the visitor return the
    rows of [visible_rows], given that the visibility map is trustworthy for
    the blocks it marks and that a cached decision is right for every row it
    is used for. *)

Section walk.
Context {W X : Type} `{XidStatusOracle X} (s : Snapshot) (o : X) (h : Heap W) (rel n : Z) (vm : bool).
Hypothesis Hread : readable h rel n.

(** The visibility map marks only blocks whose rows are all current. *)
Definition vm_trusted : Prop := forall b i t hdr,
  vm = true -> 0 <= b < n -> is_all_visible rel b (h_vm h) = true ->
  slots_of (page_of h (mk_PageId rel b)) !! Z.to_nat i = Some (SLive t) -> 0 <= i -> tuple_header t hdr ->
  row_payload s o (relation_undo h rel) (mk_TupleId (mk_PageId rel b) i) hdr (drop TUPLE_HEADER_SIZE t) =
    Some (drop TUPLE_HEADER_SIZE t).

(** What the walker may have cached about the rows without [xmax]. *)
Definition decision_right (v : bool) (hdr : TupleHeader) : Prop :=
  if v then is_visible hdr s o = Visible else view_of (is_visible hdr s o) = Absent.

Definition cache_right (c : option (Xid * Z * bool)) : Prop :=
  match c with
  | None => True
  | Some (x, im, v) => forall hdr, row_header_of h rel n hdr -> xmax hdr = Xid_INVALID -> xmin hdr = x ->
      infomask hdr = im -> decision_right v hdr
  end.

(** A decision made for one row holds for the rows like it. *)
Definition cacheable : Prop := forall hdr,
  row_header_of h rel n hdr -> xmax hdr = Xid_INVALID ->
  cache_right (Some (xmin hdr, infomask hdr, match is_visible hdr s o with Visible => true | _ => false end)).

Hypothesis Hvm : vm_trusted.
Hypothesis Hcache : cacheable.

Definition loaded (w : Walker) : Prop :=
  exists hd, w_scratch w = page_of h (mk_PageId rel (w_current_block w)) /\ hpage (w_scratch w) hd /\
    w_slot_count w = n_slots hd /\ w_current_slot w <= n_slots hd /\
    w_all_visible w = vm && is_all_visible rel (w_current_block w) (h_vm h) /\
    w_page_undo w = (if w_all_visible w then UndoRelationLog_default
                     else snapshot_page (mk_PageId rel (w_current_block w)) (relation_undo h rel)).

Record walker_ok (w : Walker) : Prop := {
  wk_rel : w_rel w = rel;
  wk_count : w_block_count w = n;
  wk_vm : w_vm w = vm;
  wk_block : 0 <= w_current_block w;
  wk_slot : 0 <= w_current_slot w <= 4096;
  wk_cache : cache_right (w_cache w);
  wk_page : w_current_block w < n -> (w_scratch w = [] /\ w_current_slot w = 0) \/ loaded w;
}.

Definition pending (w : Walker) : list VisibleTuple :=
  if n <=? w_current_block w then []
  else block_out s o h rel (w_current_block w) (w_current_slot w) ++ blocks_out s o h rel (w_current_block w + 1) n.

Definition remaining (w : Walker) : Z := (n - w_current_block w) * 4097 - w_current_slot w.

Lemma get_page_ok id : get_page id h = Some (Ok tt, h).
Proof. unfold get_page. by rewrite (rd_poison _ _ _ Hread), (rd_io _ _ _ Hread). Qed.

Lemma page_not_nil p hd : hpage p hd -> p <> [].
Proof. intros Hp ->. pose proof (po_len _ _ (hp_ok _ _ Hp)) as Hl. by cbn in Hl. Qed.

Lemma load_block_ok w :
  walker_ok w -> w_current_block w < n ->
  exists w1, load_block (mk_PageId rel (w_current_block w)) w h = Some (Ok w1, h) /\ walker_ok w1 /\ loaded w1 /\
    w_current_block w1 = w_current_block w /\ w_current_slot w1 = w_current_slot w /\ w_cache w1 = w_cache w.
Proof.
  intros Hw Hb. destruct (wk_page w Hw Hb) as [[Hs H0]|Hl].
  - destruct (rd_pages _ _ _ Hread (w_current_block w)) as [hd Hp]; [pose proof (wk_block w Hw); lia|].
    pose proof (page_header_ok _ _ (hp_ok _ _ Hp)) as Hh. destruct (lower_slots _ Hh) as [_ Hn0].
    unfold load_block. rewrite Hs. cbn [is_nil]. unfold mbind, HM_bind. rewrite get_page_ok. cbn [guard_page gets].
    unfold guard_page, gets, hor_panic. rewrite (page_header_eq _ _ (hp_ok _ _ Hp)), (slot_count_eq _ Hh).
    rewrite (wk_rel w Hw), (wk_vm w Hw). cbn [pg_block].
    eexists. split; [reflexivity|].
    match goal with |- walker_ok ?w1 /\ _ => assert (loaded w1) as Hl end.
    { exists hd. cbn. rewrite H0. by split_and!. }
    split; [|done]. split; cbn; try apply Hw. intros _. by right.
  - exists w. unfold load_block. destruct Hl as (hd & Hs & Hp & Hrest).
    destruct (w_scratch w) as [|z l] eqn:E; [by apply page_not_nil in Hp|]. cbn [is_nil].
    split; [reflexivity|]. split; [done|]. split; [|done]. exists hd. rewrite E. done.
Qed.

Lemma loaded_slot w :
  loaded w -> 0 <= w_current_block w < n -> 0 <= w_current_slot w < w_slot_count w ->
  let v := view (w_scratch w) (w_current_slot w) in
  slots_of (page_of h (mk_PageId rel (w_current_block w))) !! Z.to_nat (w_current_slot w) = Some v /\
  match v with
  | SLive t => exists hdr offset len, tuple_header t hdr /\ row_header_of h rel n hdr /\
      probe_slot (w_scratch w) (w_current_slot w) = Some (PTuple offset len) /\
      zslice offset (offset + len) (w_scratch w) = t /\
      zslice (offset + Z.of_nat TUPLE_HEADER_SIZE) (offset + len) (w_scratch w) = drop TUPLE_HEADER_SIZE t
  | _ => probe_slot (w_scratch w) (w_current_slot w) = Some PSkip
  end.
Proof.
  intros (hd & Hs & Hp & Hc & _) Hb Hi v. rewrite Hc in Hi.
  assert (Hlook : slots_of (page_of h (mk_PageId rel (w_current_block w))) !! Z.to_nat (w_current_slot w) = Some v).
  { rewrite <- Hs, (slots_of_eq _ _ (hp_ok _ _ Hp)), page_slots_lookup by lia.
    rewrite decide_True by lia. by rewrite Z2Nat.id by lia. }
  split; [done|]. pose proof (probe_page _ hd _ Hp Hi) as Hpr. fold v in Hpr. destruct v as [| | |t]; try done.
  destruct Hpr as (hdr & Hhdr & _ & Hprobe & Hz & Hd). exists hdr, (start (w_scratch w) (w_current_slot w)), (extent (w_scratch w) (w_current_slot w)).
  split; [done|]. split; [|done]. by exists (w_current_block w), (Z.to_nat (w_current_slot w)), t.
Qed.

(** The decision of the walker is the predicate's, or means the same. *)
Lemma walker_visibility_ok c hdr :
  cache_right c -> row_header_of h rel n hdr ->
  cache_right (walker_visibility s o c hdr).2 /\
  ((walker_visibility s o c hdr).1 = is_visible hdr s o \/
   (walker_visibility s o c hdr).1 = Invisible /\ view_of (is_visible hdr s o) = Absent).
Proof.
  intros Hc Hr. unfold walker_visibility. destruct (invalid_reflect (xmax hdr)) as [Hx|Hx]; [|by split; [|left]].
  pose proof (Hcache hdr Hr Hx) as Hmiss.
  destruct c as [[[x im] v]|]; [|by split; [|left]].
  destruct (Z.eqb_spec x (xmin hdr)) as [Ex|Ex]; [|by split; [|left]].
  destruct (Z.eqb_spec im (infomask hdr)) as [Ei|Ei]; [|by split; [|left]]. cbn [andb fst snd].
  split; [done|]. specialize (Hc hdr Hr Hx (eq_sym Ex) (eq_sym Ei)). destruct v; cbn in Hc.
  - left. by rewrite Hc.
  - by right.
Qed.

Lemma walker_advance_ok w c :
  walker_ok w -> loaded w -> w_current_slot w < w_slot_count w -> w_current_block w < n -> cache_right c ->
  let w' := with_cache (at_position w (w_current_block w) (w_current_slot w + 1)) c in
  walker_ok w' /\ remaining w' < remaining w /\
  pending w' = block_out s o h rel (w_current_block w) (w_current_slot w + 1) ++ blocks_out s o h rel (w_current_block w + 1) n.
Proof.
  intros Hw (hd & Hs & Hp & Hc & Hle & Hav & Hu) Hlt Hb Hcr w'. pose proof (n_slots_bound _ _ Hp) as Hn.
  pose proof (wk_slot w Hw). unfold w'. split; [|split].
  - split; cbn; try apply Hw; [lia|done|]. intros _. right. exists hd. cbn. split_and!; try done. lia.
  - unfold remaining. cbn. lia.
  - unfold pending. cbn. by rewrite (proj2 (Z.leb_gt _ _)) by lia.
Qed.

Lemma next_block_ok w :
  walker_ok w -> w_current_block w < n ->
  let w' := at_position (with_block w (w_slot_count w) (w_all_visible w) [] (w_page_undo w))
              (saturating_add U32 (w_current_block w) 1) 0 in
  walker_ok w' /\ remaining w' < remaining w /\ pending w' = blocks_out s o h rel (w_current_block w + 1) n.
Proof.
  intros Hw Hb w'. pose proof (wk_block w Hw). pose proof (rd_blocks _ _ _ Hread). pose proof (wk_slot w Hw).
  assert (saturating_add U32 (w_current_block w) 1 = w_current_block w + 1) as Hsat by (unfold saturating_add; lia).
  unfold w'. rewrite Hsat. split; [|split].
  - split; cbn; try apply Hw; [lia|lia|]. intros _. by left.
  - unfold remaining. cbn. lia.
  - unfold pending. cbn. destruct (Z.leb_spec n (w_current_block w + 1)).
    + unfold blocks_out. by rewrite seqZ_nil by lia.
    + rewrite (blocks_out_cons s o h rel (w_current_block w + 1)) by lia. done.
Qed.

(** One iteration of the loop. *)
Lemma walk_step_ok w :
  walker_ok w ->
  exists r w', walk_step s o w h = Some (Ok (r, w'), h) /\ walker_ok w' /\
    match r with
    | Some (Ok None) => pending w = []
    | Some (Ok (Some t)) => pending w = t :: pending w' /\ remaining w' < remaining w
    | Some (Err _) => False
    | None => pending w = pending w' /\ remaining w' < remaining w
    end.
Proof.
  intros Hw. unfold walk_step. rewrite (wk_count w Hw). destruct (Z.leb_spec n (w_current_block w)) as [Hdone|Hb].
  { exists (Some (Ok None)), w. split; [done|]. split; [done|]. unfold pending. by rewrite (proj2 (Z.leb_le _ _)). }
  rewrite (wk_rel w Hw). destruct (load_block_ok w Hw Hb) as (w1 & El & Hw1 & Hl & Eb & Es & Ec).
  unfold try_, mbind, HM_bind. rewrite El. cbv beta iota.
  assert (Hpend : pending w = pending w1) by (unfold pending; by rewrite Eb, Es).
  assert (Hrem : remaining w = remaining w1) by (unfold remaining; by rewrite Eb, Es).
  rewrite <- Eb in Hb |- *. rewrite Hpend, Hrem. clear El Hpend Hrem Eb Es Ec.
  destruct (Z.leb_spec (w_slot_count w1) (w_current_slot w1)) as [Hend|Hlt].
  { destruct (next_block_ok w1 Hw1 Hb) as (Hok & Hr & Hp). eexists _, _. split; [reflexivity|]. split; [done|].
    split; [|done]. rewrite Hp. unfold pending. rewrite (proj2 (Z.leb_gt _ _)) by lia.
    destruct Hl as (hd & Hs & Hpg & Hc & Hle & _). unfold block_out.
    rewrite drop_ge; [done|]. rewrite <- Hs, (slots_of_eq _ _ (hp_ok _ _ Hpg)), length_page_slots. lia. }
  pose proof (wk_block w1 Hw1). pose proof (wk_slot w1 Hw1).
  destruct (loaded_slot w1 Hl) as [Hlook Hview]; [lia|lia|].
  cbn [at_position w_scratch w_all_visible w_cache w_page_undo w_current_slot w_current_block with_cache].
  assert (Hpend : pending w1 = block_out s o h rel (w_current_block w1) (w_current_slot w1)
    ++ blocks_out s o h rel (w_current_block w1 + 1) n) by (unfold pending; by rewrite (proj2 (Z.leb_gt _ _)) by lia).
  destruct (view (w_scratch w1) (w_current_slot w1)) as [| | |t] eqn:Ev.
  1-3: rewrite Hview; cbn [hor_panic]; destruct (walker_advance_ok w1 (w_cache w1) Hw1 Hl Hlt Hb (wk_cache w1 Hw1)) as (Hok & Hr & Hp);
    eexists _, _; split; [reflexivity|]; split; [exact Hok|]; split; [|exact Hr];
    rewrite Hpend; etrans; [|symmetry; exact Hp]; f_equal; (eapply slots_out_skip; [exact Hlook|lia|intros u Hu; discriminate Hu]).
  destruct Hview as (hdr & offset & len & Hhdr & Hrow & Hprobe & Hz & Hd). rewrite Hprobe. cbn [hor_panic].
  rewrite Hz, Hd, (header_decodes _ _ _ Hhdr).
  rewrite (slots_out_cons s o h rel _ _ t hdr Hlook ltac:(lia) Hhdr), <- app_assoc in Hpend.
  set (tid := mk_TupleId (mk_PageId rel (w_current_block w1)) (w_current_slot w1)) in *.
  destruct (w_all_visible w1) eqn:Eav.
  - destruct (walker_advance_ok w1 (w_cache w1) Hw1 Hl Hlt Hb (wk_cache w1 Hw1)) as (Hok & Hr & Hp).
    eexists _, _. split; [reflexivity|]. split; [exact Hok|]. split; [|exact Hr].
    assert (vm = true /\ is_all_visible rel (w_current_block w1) (h_vm h) = true) as [Hv1 Hv2].
    { destruct Hl as (hd & _ & _ & _ & _ & Hav & _). rewrite Eav in Hav. symmetry in Hav. by apply andb_prop in Hav. }
    pose proof (Hvm (w_current_block w1) (w_current_slot w1) t hdr Hv1 ltac:(lia) Hv2 Hlook ltac:(lia) Hhdr) as Hrp.
    fold tid in Hrp. rewrite Hpend, Hrp. cbn [app]. f_equal. symmetry. exact Hp.
  - destruct (walker_visibility_ok (w_cache w1) hdr (wk_cache w1 Hw1) Hrow) as [Hcr Hvis].
    destruct (walker_visibility s o (w_cache w1) hdr) as [outcome c]. cbn [fst snd] in *.
    destruct (walker_advance_ok w1 c Hw1 Hl Hlt Hb Hcr) as (Hok & Hr & Hp).
    assert (undo_pre_image_from_log (w_page_undo w1) tid (drop TUPLE_HEADER_SIZE t) s o =
      undo_pre_image_from_log (relation_undo h rel) tid (drop TUPLE_HEADER_SIZE t) s o) as Hpre.
    { destruct Hl as (hd & _ & _ & _ & _ & _ & Hu). rewrite Hu, Eav. apply (snapshot_pre_image _ tid). apply Hread. }
    rewrite Hpre. unfold row_payload in Hpend.
    destruct Hvis as [->|[-> Habs]].
    + destruct (is_visible hdr s o); [| | |destruct (undo_pre_image_from_log _ _ _ _ _)|];
        eexists _, _; (split; [reflexivity|]); (split; [exact Hok|]); (split; [|exact Hr]);
        rewrite Hpend; cbn [app]; first [exact (eq_sym Hp)|f_equal; exact (eq_sym Hp)].
    + eexists _, _. split; [reflexivity|]. split; [exact Hok|]. split; [|exact Hr]. rewrite Hpend.
      destruct (is_visible hdr s o); try discriminate Habs; exact (eq_sym Hp).
Qed.

Lemma remaining_pos w : walker_ok w -> w_current_block w < n -> 0 < remaining w.
Proof. intros Hw Hb. pose proof (wk_slot w Hw). unfold remaining. lia. Qed.

Lemma try_next_ok fuel w :
  walker_ok w -> remaining w < Z.of_nat fuel -> (0 < fuel)%nat ->
  exists r w', try_next s o fuel w h = Some (Ok (r, w'), h) /\ walker_ok w' /\
    match r with
    | Ok None => pending w = []
    | Ok (Some t) => pending w = t :: pending w' /\ remaining w' < remaining w
    | Err _ => False
    end.
Proof.
  revert w. induction fuel as [|fuel IH]; intros w Hw Hf H0; [lia|]. cbn [try_next].
  destruct (walk_step_ok w Hw) as (r & w' & E & Hw' & Hr). unfold mbind, HM_bind. rewrite E.
  destruct r as [[[t|]|e]|]; [by eexists (Ok (Some t)), _|by eexists (Ok None), _|done|].
  destruct Hr as [Hp Hlt]. destruct (decide (w_current_block w' < n)) as [Hb|Hb].
  - pose proof (remaining_pos w' Hw' Hb). destruct (IH w' Hw' ltac:(lia) ltac:(lia)) as (r' & w'' & E' & Hw'' & Hr').
    exists r', w''. split; [exact E'|]. split; [done|]. rewrite Hp. destruct r' as [[t|]|e]; [|done|done].
    destruct Hr' as [Hp' Hr']. split; [done|lia].
  - destruct fuel as [|fuel].
    + exfalso. pose proof (wk_slot w Hw). destruct (decide (w_current_block w < n)) as [Hbw|Hbw].
      * pose proof (remaining_pos w Hw Hbw). lia.
      * unfold walk_step in E. rewrite (wk_count w Hw), (proj2 (Z.leb_le _ _)) in E by lia. done.
    + assert (pending w' = []) as Hnil by (unfold pending; by rewrite (proj2 (Z.leb_le _ _)) by lia).
      exists (Ok None), w'. split; [|by rewrite Hp]. cbn [try_next]. unfold mbind, HM_bind, walk_step.
      rewrite (wk_count w' Hw'), (proj2 (Z.leb_le _ _)) by lia. done.
Qed.

Lemma read_all_ok k fuel w :
  walker_ok w -> remaining w < Z.of_nat fuel -> (0 < fuel)%nat -> (length (pending w) < k)%nat ->
  read_all s o k fuel w h = Some (Ok (pending w), h).
Proof.
  revert w. induction k as [|k IH]; intros w Hw Hf H0 Hk; [lia|]. cbn [read_all].
  destruct (try_next_ok fuel w Hw Hf H0) as (r & w' & E & Hw' & Hr). unfold mbind, HM_bind. rewrite E.
  destruct r as [[t|]|e]; [|by rewrite Hr|done]. destruct Hr as [Hp Hlt]. rewrite Hp in Hk. cbn [length] in Hk.
  rewrite (IH w' Hw') by lia. cbn. by rewrite Hp.
Qed.
End walk.

(** ** The visitor *)

Lemma header_fields t hdr :
  Forall is_byte t -> tuple_header t hdr ->
  zread 8 0 t = xmin hdr /\ zread 8 8 t = xmax hdr /\ zread 2 24 t = infomask hdr.
Proof.
  intros Hb Ht. destruct (tuple_header_facts _ _ Hb Ht) as (Hwf & _ & _ & E).
  destruct Hwf as (H1 & H2 & H3 & H4 & H5 & _). unfold in_width, U64, U32, U16 in *.
  rewrite <- (take_drop 40 t), <- E. unfold thbytes. rewrite <- !app_assoc.
  split; [apply zread_enc_hit; cbn; lia|].
  split; rewrite !zread_enc_skip by lia; apply zread_enc_hit; cbn; lia.
Qed.

Section visit.
Context {W X St : Type} `{XidStatusOracle X} (s : Snapshot) (o : X) (h : Heap W) (rel n : Z).
Context (f : TupleId -> TupleHeader -> list Z -> St -> result St HeapError).
Hypothesis Hread : readable h rel n.
(** The closure does not look at the header. *)
Hypothesis Hf : forall tid a b p st, f tid a p st = f tid b p st.

Definition positive_right (c : option (Xid * Z * bool)) : Prop :=
  match c with
  | Some (x, im, true) => forall hdr, row_header_of h rel n hdr -> xmax hdr = Xid_INVALID -> xmin hdr = x ->
      infomask hdr = im -> is_visible hdr s o = Visible
  | _ => True
  end.

Definition positively_cacheable : Prop := forall hdr,
  row_header_of h rel n hdr -> xmax hdr = Xid_INVALID -> is_visible hdr s o = Visible ->
  positive_right (Some (xmin hdr, infomask hdr, true)).
Hypothesis Hcache : positively_cacheable.

Fixpoint visit_rows (rows : list VisibleTuple) (st : St) : result St HeapError :=
  match rows with
  | [] => Ok st
  | (tid, hdr, p) :: rows' => let? st' := f tid hdr p st in visit_rows rows' st'
  end.

Lemma visit_rows_app r1 r2 st : visit_rows (r1 ++ r2) st = (let? st' := visit_rows r1 st in visit_rows r2 st').
Proof.
  revert st. induction r1 as [|[[tid hdr] p] r1 IH]; intros st; [done|]. cbn. destruct (f tid hdr p st); [apply IH|done].
Qed.

(** The state and a right cache, or the error the rows give. *)
Definition visited (rows : list VisibleTuple) (st : St) (r : result (option (Xid * Z * bool) * St) HeapError) : Prop :=
  match r with
  | Ok (c, st') => positive_right c /\ visit_rows rows st = Ok st'
  | Err e => visit_rows rows st = Err e
  end.

Lemma visit_slot_ok b i c st hd :
  0 <= b < n -> hpage (page_of h (mk_PageId rel b)) hd -> 0 <= i < n_slots hd -> positive_right c ->
  exists r, visit_slot s o f (relation_undo h rel) (mk_PageId rel b) (page_of h (mk_PageId rel b)) i (c, st) h = Some (r, h) /\
    visited (slot_out s o (relation_undo h rel) (mk_PageId rel b) i (view (page_of h (mk_PageId rel b)) i)) st r.
Proof.
  intros Hb Hp Hi Hc. set (page := page_of h (mk_PageId rel b)) in *. pose proof (probe_page page hd i Hp Hi) as Hpr.
  unfold visit_slot, mbind, HM_bind. destruct (view page i) as [| | |t] eqn:Ev;
    [by rewrite Hpr; eexists; split; [reflexivity|]..|].
  destruct Hpr as (hdr & Hhdr & Hbytes & Hprobe & Hz & _). rewrite Hprobe. unfold hor_panic. cbv beta iota zeta. rewrite !Hz.
  destruct (header_fields t hdr Hbytes Hhdr) as (-> & -> & ->).
  assert (Hrow : row_header_of h rel n hdr).
  { exists b, (Z.to_nat i), t. split; [done|]. split; [|done]. destruct (lower_slots _ (page_header_ok _ _ (hp_ok _ _ Hp))) as [_ Hn].
    fold page. rewrite (slots_of_eq _ _ (hp_ok _ _ Hp)), page_slots_lookup, decide_True by lia. by rewrite Z2Nat.id, Ev by lia. }
  cbn [slot_out]. pose proof Hhdr as Hdec. unfold tuple_header in Hdec. rewrite Hdec.
  set (tid := mk_TupleId (mk_PageId rel b) i). set (payload := drop TUPLE_HEADER_SIZE t). clearbody payload.
  set (hit := match c with Some (cxmin, cinfo, true) => _ | _ => false end).
  destruct hit eqn:Ehit.
  - assert (is_visible hdr s o = Visible) as Hvis.
    { unfold hit in Ehit. destruct c as [[[x im] [|]]|]; try done. apply andb_prop in Ehit as [[Hx Hy]%andb_prop Hw].
      apply Hc; [done|unfold Xid_INVALID; lia|lia|lia]. }
    unfold hlift. unfold row_payload. rewrite Hvis.
    rewrite (Hf tid _ hdr). cbn [visited]. destruct (f tid hdr payload st) as [st'|e] eqn:Ef.
    + eexists. split; [reflexivity|]. cbn. split; [done|]. by rewrite Ef.
    + eexists. split; [reflexivity|]. cbn. by rewrite Ef.
  - rewrite (header_decodes _ _ _ Hhdr). unfold hlift. unfold row_payload.
    match goal with |- context [if ?b then Some (xmin hdr, infomask hdr, ?v) else c] =>
      set (c' := if b then Some (xmin hdr, infomask hdr, v) else c) end.
    assert (positive_right c') as Hc'.
    { unfold c'. destruct (invalid_reflect (xmax hdr)) as [Hx|Hx]; [|done]. cbn [andb].
      destruct (is_visible hdr s o) eqn:Evis; try done. by apply Hcache. }
    clearbody c'. clear Ehit hit.
    destruct (is_visible hdr s o) eqn:Evis;
      repeat match goal with |- context [match undo_pre_image_from_log ?a ?b ?c ?d ?e with Some _ => _ | None => _ end] =>
        destruct (undo_pre_image_from_log a b c d e) eqn:? end;
      try match goal with |- context [f ?a ?b ?c ?d] => destruct (f a b c d) eqn:Ef end;
      (eexists; split; [reflexivity|]); cbn; rewrite ?Ef; done.
Qed.

Lemma visit_slots_ok b hd is0 c st :
  0 <= b < n -> hpage (page_of h (mk_PageId rel b)) hd -> Forall (fun i => 0 <= i < n_slots hd) is0 -> positive_right c ->
  exists r, visit_slots s o f (relation_undo h rel) (mk_PageId rel b) (page_of h (mk_PageId rel b)) is0 (c, st) h = Some (r, h) /\
    visited (is0 ≫= (fun i => slot_out s o (relation_undo h rel) (mk_PageId rel b) i (view (page_of h (mk_PageId rel b)) i))) st r.
Proof.
  intros Hb Hp Hi. revert c st. induction Hi as [|i is0 Hi Hrest IH]; intros c st Hc.
  { eexists. split; [reflexivity|]. done. }
  cbn [visit_slots]. destruct (visit_slot_ok b i c st hd Hb Hp Hi Hc) as (r & E & Hr).
  unfold mbind at 1, HM_bind. rewrite E. cbn [mbind list_bind]. destruct r as [[c' st']|e]; cbn [visited] in Hr.
  - destruct Hr as [Hc' Hv]. destruct (IH c' st' Hc') as (r & E' & Hr'). exists r. split; [exact E'|].
    destruct r as [[c'' st'']|e]; cbn [visited] in *; rewrite visit_rows_app, Hv; done.
  - eexists. split; [reflexivity|]. cbn [visited]. by rewrite visit_rows_app, Hr.
Qed.

Lemma page_rows b hd :
  hpage (page_of h (mk_PageId rel b)) hd ->
  slots_below (n_slots hd) ≫= (fun i => slot_out s o (relation_undo h rel) (mk_PageId rel b) i (view (page_of h (mk_PageId rel b)) i)) =
  block_out s o h rel b 0.
Proof.
  intros Hp. unfold block_out. rewrite drop_0, (slots_of_eq _ _ (hp_ok _ _ Hp)). unfold page_slots, slots_below.
  destruct (lower_slots _ (page_header_ok _ _ (hp_ok _ _ Hp))) as [_ Hn].
  rewrite <- (Z2Nat.id (n_slots hd)) by done. generalize (Z.to_nat (n_slots hd)) as m. intros m.
  enough (forall k, seqZ k (Z.of_nat m) ≫= (fun i => slot_out s o (relation_undo h rel) (mk_PageId rel b) i
      (view (page_of h (mk_PageId rel b)) i)) =
    slots_out s o (relation_undo h rel) (mk_PageId rel b) k
      (map (view (page_of h (mk_PageId rel b))) (seqZ k (Z.of_nat m)))) as Hg by apply Hg.
  induction m as [|m IH]; intros k; [done|]. rewrite seqZ_cons by lia.
  replace (Z.pred (Z.of_nat (S m))) with (Z.of_nat m) by lia. cbn [mbind list_bind map slots_out].
  f_equal. replace (Z.succ k) with (k + 1) by lia. apply IH.
Qed.

Lemma visit_blocks_ok bs c st :
  Forall (fun b => 0 <= b < n) bs -> positive_right c ->
  exists r, visit_blocks s o f rel bs (c, st) h = Some (r, h) /\ visited (bs ≫= (fun b => block_out s o h rel b 0)) st r.
Proof.
  intros Hbs. revert c st. induction Hbs as [|b bs Hb Hrest IH]; intros c st Hc.
  { eexists. split; [reflexivity|]. done. }
  destruct (rd_pages _ _ _ Hread b Hb) as [hd Hp]. pose proof (page_header_ok _ _ (hp_ok _ _ Hp)) as Hh.
  cbn [visit_blocks]. unfold mbind at 1 2 3 4 5 6, HM_bind. rewrite (get_page_ok h rel n Hread). unfold guard_page, gets, hor_panic.
  rewrite (page_header_eq _ _ (hp_ok _ _ Hp)), (slot_count_eq _ Hh).
  destruct (visit_slots_ok b hd (slots_below (n_slots hd)) c st Hb Hp) as (r & E & Hr); [|done|].
  { apply Forall_forall. intros i Hi%elem_of_seqZ. lia. }
  rewrite E. rewrite (page_rows b hd Hp) in Hr. cbn [mbind list_bind].
  destruct r as [[c' st']|e]; cbn [visited] in Hr.
  - destruct Hr as [Hc' Hv]. destruct (IH c' st' Hc') as (r & E' & Hr'). exists r. split; [exact E'|].
    destruct r as [[c'' st'']|e]; cbn [visited] in *; rewrite visit_rows_app, Hv; done.
  - eexists. split; [reflexivity|]. cbn [visited]. by rewrite visit_rows_app, Hr.
Qed.
End visit.

(** * When the cache of a scan can be trusted

    Both scans remember one decision keyed by [xmin] and the information
    mask. That key determines the decision for a row without [xmax] unless
    the row is the reader's own and its command matters; the walker in
    addition has no way to remember that a row's bytes may be in the undo
    log. On tables without such rows the scans return the rows of the
    snapshot; two computed examples show what they return otherwise. *)

Section cache.
Context {X : Type} `{XidStatusOracle X} (s : Snapshot) (o : X).
Hypothesis Hreader : reader_ok s.

(** The reader's own row was written by an earlier command. *)
Definition settled (hdr : TupleHeader) : Prop := own s (xmin hdr) -> cmin hdr < current_command s.

(** A row without [xmax] carries no history of in-place updates. *)
Definition no_history (hdr : TupleHeader) : Prop :=
  xmax hdr = Xid_INVALID -> mask_contains (infomask hdr) INPLACE_HISTORY = false.

(** The decision for a settled row without [xmax], from the cached key. *)
Definition key_visibility (x : Xid) (im : Z) : Visibility :=
  if mask_is_frozen im then Visible else
  if own_subxid_rolled_back s x then Invisible else
  if Xid_is_invalid x then Invisible else
  if is_current_xid s x then Visible else
  if negb (is_committed_before_snapshot x s o) then Invisible else
  if mask_contains im INPLACE_HISTORY then VisibleMaybePreImage else Visible.

Lemma settled_visibility hdr :
  xmax hdr = Xid_INVALID -> settled hdr -> is_visible hdr s o = key_visibility (xmin hdr) (infomask hdr).
Proof.
  intros Hx Hs. destruct Hreader as (Hwf & H0 & _ & _). unfold is_visible, key_visibility.
  destruct (mask_is_frozen (infomask hdr)); [done|]. destruct (own_subxid_rolled_back s (xmin hdr)); [done|].
  destruct (Xid_is_invalid (xmin hdr)); [done|].
  assert (is_current_xid s (xmax hdr) = false) as Hc.
  { destruct (own_reflect s (xmax hdr) Hwf) as [Ho|]; [|done]. by rewrite Hx in Ho. }
  destruct (own_reflect s (xmin hdr) Hwf) as [Ho|Ho].
  - specialize (Hs Ho). rewrite (proj2 (Z.leb_gt _ _)) by lia. rewrite Hc, Hx. cbn [Xid_is_invalid Z.eqb negb andb].
    change (Xid_is_invalid Xid_INVALID) with true. cbn [negb andb]. rewrite andb_false_r. done.
  - destruct (negb _); [done|]. rewrite Hx. done.
Qed.

Context {W : Type} (h : Heap W) (rel n : Z).
Hypothesis Hsettled : forall hdr, row_header_of h rel n hdr -> settled hdr.

Lemma settled_positively : positively_cacheable s o h rel n.
Proof.
  intros hdr Hr Hx Hv hdr' Hr' Hx' Ex Ei. rewrite settled_visibility in Hv |- * by auto. by rewrite Ex, Ei.
Qed.

Lemma settled_cacheable : (forall hdr, row_header_of h rel n hdr -> no_history hdr) -> cacheable s o h rel n.
Proof.
  intros Hh hdr Hr Hx hdr' Hr' Hx' Ex Ei. unfold decision_right.
  assert (is_visible hdr' s o = is_visible hdr s o) as ->.
  { rewrite !settled_visibility by auto. by rewrite Ex, Ei. }
  rewrite settled_visibility by auto. unfold key_visibility. rewrite (Hh hdr Hr Hx).
  repeat case_match; done.
Qed.
End cache.

(** ** The handle of the undo log *)

Definition with_handle {W} (h : Heap W) (rel : Z) : Heap W :=
  match h_undo h !! rel with
  | Some _ => h
  | None => with_undo h (<[rel := UndoRelationLog_default]> (h_undo h))
  end.

Lemma handle_run {W E} (h : Heap W) rel : undo_log_handle (E := E) rel h = Some (Ok tt, with_handle h rel).
Proof. done. Qed.

Section handle.
Context {W X : Type} `{XidStatusOracle X} (s : Snapshot) (o : X) (h : Heap W) (rel n : Z).

Lemma handle_pages id : page_of (with_handle h rel) id = page_of h id.
Proof. unfold with_handle. by destruct (h_undo h !! rel). Qed.
Lemma handle_vm : h_vm (with_handle h rel) = h_vm h.
Proof. unfold with_handle. by destruct (h_undo h !! rel). Qed.
Lemma handle_undo : relation_undo (with_handle h rel) rel = relation_undo h rel.
Proof.
  unfold with_handle, relation_undo. destruct (h_undo h !! rel) eqn:E; [by rewrite E|]. cbn. by rewrite lookup_insert_eq.
Qed.
Lemma handle_rows hdr : row_header_of (with_handle h rel) rel n hdr <-> row_header_of h rel n hdr.
Proof. unfold row_header_of. by setoid_rewrite handle_pages. Qed.
Lemma handle_readable : readable h rel n -> readable (with_handle h rel) rel n.
Proof.
  intros Hr. pose proof handle_undo as Hu.
  split; try (unfold with_handle; destruct (h_undo h !! rel); apply Hr). rewrite Hu. apply Hr.
Qed.
Lemma handle_visible_rows : visible_rows s o (with_handle h rel) rel n = visible_rows s o h rel n.
Proof.
  unfold visible_rows, blocks_out. generalize (seqZ 0 (n - 0)). intros l. induction l as [|b l IH]; [done|].
  cbn [mbind list_bind]. f_equal; [|done]. unfold block_out. by rewrite handle_pages, handle_undo.
Qed.
Lemma handle_trusted vm : vm_trusted s o h rel n vm -> vm_trusted s o (with_handle h rel) rel n vm.
Proof.
  intros Ht b i t hdr Hvm Hb Hav Hs Hi Hh. rewrite handle_vm in Hav. rewrite handle_pages in Hs. rewrite handle_undo.
  by eapply Ht.
Qed.
End handle.

(** ** The walker *)

Definition walk_relation {W X} `{XidStatusOracle X} (s : Snapshot) (o : X) (k fuel : nat) (rel n : Z) (vm : bool)
    : HM W HeapError (list VisibleTuple) :=
  w ← scan_visible_walker_inner rel (0, 0) n vm; read_all s o k fuel w.

Lemma walk_rows {W X} `{XidStatusOracle X} s (o : X) (h : Heap W) rel n vm k fuel :
  readable h rel n -> reader_ok s -> vm_trusted s o h rel n vm ->
  (forall hdr, row_header_of h rel n hdr -> settled s hdr /\ no_history hdr) ->
  n * 4097 < Z.of_nat fuel -> (length (visible_rows s o h rel n) < k)%nat ->
  walk_relation s o k fuel rel n vm h = Some (Ok (visible_rows s o h rel n), with_handle h rel).
Proof.
  intros Hr Hs Hvm Hrows Hf Hk. unfold walk_relation, scan_visible_walker_inner, mbind, HM_bind. rewrite handle_run.
  cbn [fst snd]. pose proof (rd_blocks _ _ _ Hr) as Hn. rewrite Z.min_l by lia.
  set (w := mk_Walker rel n 0 0 0 vm false [] None UndoRelationLog_default). set (h1 := with_handle h rel).
  assert (pending s o h1 rel n w = visible_rows s o h rel n) as Hp.
  { unfold pending. cbn [w w_current_block w_current_slot]. rewrite <- (handle_visible_rows s o h rel n). fold h1.
    unfold visible_rows. destruct (Z.leb_spec n 0).
    - unfold blocks_out. by rewrite seqZ_nil by lia.
    - by rewrite (blocks_out_cons s o h1 rel 0) by lia. }
  transitivity (read_all s o k fuel w h1); [done|]. rewrite <- Hp.
  apply (read_all_ok s o h1 rel n vm); [by apply handle_readable|by apply handle_trusted| | | | |].
  - apply settled_cacheable; [done| |]; intros hdr Hh; by destruct (Hrows hdr (proj1 (handle_rows h rel n hdr) Hh)).
  - split; cbn; try done; try lia. intros _. by left.
  - unfold remaining. cbn. lia.
  - lia.
  - by rewrite Hp.
Qed.


(** ** The visitor *)

