(* ===== verification/HeapInPlace.v ===== *)
(** * In-place updates and their rollback (ultrasql-storage, heap/update_inplace.rs and heap/delete.rs)

    The point update of a row of two [i32] columns rewrites the payload in its
    slot, stamps the header and pushes the old payload on the undo log; the
    rollback of a transaction puts the payloads back, newest first, clears
    the stamps and retires the records; the rollback of delete stamps clears
    them page by page. A helper that writes a range of a page is the slice
    assignment of the source; the ranges were checked before. *)

From S2P Require Import Prelude CoreIds TupleHeader Snapshot Visibility WalRecord WalPayload WalPayloadHeap WalSink Bytes Page HeapMaps UndoLog Heap HeapScan.

Definition contains_relation (rel : Z) (vm : VisibilityMap) : bool := match vm !! rel with Some _ => true | None => false end.

Definition INT32_PAIR_PAYLOAD_SIZE : Z := 9.

(** ** Columns *)

Definition i32_checked_add (x y : Z) : option Z :=
  if (I32_MIN <=? x + y) && (x + y <=? I32_MAX) then Some (x + y) else None.
Definition i32_wrapping_sub (x y : Z) : Z := to_i32 (wrap U32 (x - y)).

Definition decode_int32_pair (pair : Z) : Z * Z := (to_i32 (pair mod U32), to_i32 (pair / U32)).
Definition encode_int32_pair (id val : Z) : Z := Z.lor (wrap U64 (Z.shiftl (wrap U32 val) 32)) (wrap U32 id).

Definition checked_int32_pair_add (id val target_col delta : Z) : result (Z * Z) HeapError :=
  if target_col =? 0 then
    match i32_checked_add id delta with
    | Some new_id => Ok (new_id, val)
    | None => Err (HNumericOverflow "Int32 id update overflow")
    end
  else
    match i32_checked_add val delta with
    | Some new_val => Ok (id, new_val)
    | None => Err (HNumericOverflow "Int32 value update overflow")
    end.

Definition read_le_u64 (bytes : list Z) (start : Z) (error : string) : result Z HeapError :=
  if zlen bytes <? start + 8 then Err (HMalformedHeader error) else Ok (zread 8 start bytes).
Definition read_le_u32 (bytes : list Z) (start : Z) (error : string) : result Z HeapError :=
  if zlen bytes <? start + 4 then Err (HMalformedHeader error) else Ok (zread 4 start bytes).

(** Both fields have 15 bits. *)
Definition itemid_window (item_raw : Z) : result (Z * Z) HeapError := Ok (ItemId_length item_raw, ItemId_offset item_raw).

Definition checked_heap_count_add (current delta : Z) (error : string) : result Z HeapError :=
  ok_or (checked_add U64 current delta) (HMalformedHeader error).

(** ** State *)

Definition set_relation_undo {W E} (rel : Z) (log : UndoRelationLog) : HM W E unit :=
  modify (fun h => with_undo h (<[rel := log]> (h_undo h))).
Definition invalidate_int32_pair_payload_stats_relation {W E} (rel : Z) : HM W E unit :=
  modify (fun h => with_stats h (filter (fun id => pg_relation id <> rel) (h_stats h))).
(** A slice assignment through the write guard. *)
Definition write_bytes {W E} (id : PageId) (off : Z) (bytes : list Z) : HM W E unit :=
  p ← guard_page id; put_page id (zsplice off bytes p).

Section in_place.
Context {W X : Type} `{XidStatusOracle X} (crc : Z -> list Z -> Z).

Definition undo_pre_image_predicate_matches (log : UndoRelationLog) (tid : TupleId) (current_payload : list Z)
    (snapshot : Snapshot) (oracle : X) (predicate : Z -> Z -> bool) : result (option bool) HeapError :=
  match undo_pre_image_from_log log tid current_payload snapshot oracle with
  | None => Ok None
  | Some pre_image =>
      let? pair := read_le_u64 pre_image 1 "int32 pair undo pre-image out of bounds" in
      let '(id, val) := decode_int32_pair pair in
      Ok (Some (predicate id val))
  end.

Definition emit_update_in_place_wal (sink : WalSink W) (tid : TupleId) (writer_xid : Xid) (command_id : CommandId)
    (pre_image post_image : list Z) : HM W HeapError Lsn :=
  prev_lsn ← last_lsn sink writer_xid;
  payload_bytes ← hlift (result_err HWalPayload (HeapUpdateInPlacePayload_encode
    (mk_HeapUpdateInPlacePayload tid writer_xid command_id pre_image post_image)));
  record ← hlift (new_record crc HeapUpdateInPlace writer_xid prev_lsn payload_bytes);
  append sink record.

(** What the visibility of the row says of the update: go on, or return. *)
Definition may_update (log : UndoRelationLog) (tid : TupleId) (header : TupleHeader) (payload : list Z)
    (snapshot : Snapshot) (oracle : X) (predicate : Z -> Z -> bool) : result bool HeapError :=
  match is_visible header snapshot oracle with
  | Visible => Ok true
  | VisiblePreImage =>
      let? logical_match := undo_pre_image_predicate_matches log tid payload snapshot oracle predicate in
      if default true logical_match then Err (HWriteConflict "in-place tuple has an unresolved writer") else Ok false
  | VisibleMaybePreImage =>
      let? logical_match := undo_pre_image_predicate_matches log tid payload snapshot oracle predicate in
      match logical_match with
      | Some true => Err (HWriteConflict "in-place tuple has an unresolved writer")
      | Some false => Ok false
      | None => Ok true
      end
  | Invisible | DeletedByOwn => Ok false
  end.

(** The stores of a point update: stamp, mask and columns. *)
Definition stamp_in_place (id : PageId) (offset payload_off : Z) (xid : Xid) (command_id : CommandId) (mask pair : Z)
    : HM W HeapError unit :=
  write_bytes id (offset + 8) (le_encode 8 xid);;
  write_bytes id (offset + 20) (le_encode 4 command_id);;
  write_bytes id (offset + 24) (le_encode 2 (Z.lor (Z.lor mask UPDATED) UPDATED_IN_PLACE));;
  write_bytes id (payload_off + 1) (le_encode 8 pair).

Definition update_int32_pair_tid_inplace_undo (tid : TupleId) (snapshot : Snapshot) (oracle : X)
    (predicate : Z -> Z -> bool) (target_col delta : Z) (xid : Xid) (command_id : CommandId)
    (wal : option (WalSink W)) (vm : bool) : HM W HeapError Z :=
  let id := tid_page tid in
  let rel := pg_relation id in
  vm ← gets (fun h => vm && contains_relation rel (h_vm h));
  undo_log_handle rel;;
  match wal with Some sink => maybe_emit_fpw crc id sink xid | None => mret tt end;;
  get_page id;;
  bytes ← guard_page id;
  hdr ← hlift (result_err HPage (PageHeader_decode bytes));
  n ← hor_panic (slot_count hdr);
  if n <=? tid_slot tid then mret 0 else
  item_raw ← hlift (read_le_u32 bytes (PAGE_HEADER_SIZE + tid_slot tid * ITEMID_SIZE) "item id out of bounds");
  if negb (Z.land item_raw 3 =? 1) then mret 0 else
  window ← hlift (itemid_window item_raw);
  let '(length, offset) := window in
  if (length <? Z.of_nat TUPLE_HEADER_SIZE) || (zlen bytes <? offset + length)
  then hthrow (HMalformedHeader "slot shorter than header") else
  header ← hlift (decode_header (zslice offset (offset + Z.of_nat TUPLE_HEADER_SIZE) bytes) "header decode failed");
  let payload_off := offset + Z.of_nat TUPLE_HEADER_SIZE in
  if offset + length <? payload_off + 9 then hthrow (HMalformedHeader "payload shorter than (Int32, Int32)") else
  let col0 := to_i32 (zread 4 (payload_off + 1) bytes) in
  let col1 := to_i32 (zread 4 (payload_off + 5) bytes) in
  let pre_image := zslice payload_off (payload_off + 9) bytes in
  log ← gets (fun h => relation_undo h rel);
  go ← hlift (may_update log tid header pre_image snapshot oracle predicate);
  if negb go then mret 0 else
  if negb (predicate col0 col1) then mret 0 else
  new ← hlift (checked_int32_pair_add col0 col1 target_col delta);
  let pair := encode_int32_pair new.1 new.2 in
  let post_image := zsplice 1 (le_encode 8 pair) pre_image in
  appended ← match wal with
             | Some sink =>
                 lsn ← emit_update_in_place_wal sink tid xid command_id pre_image post_image; mret (Some lsn)
             | None => mret None
             end;
  set_relation_undo rel (push_entry (mk_UndoEntry tid xid command_id pre_image) log);;
  vm_clear_page vm id;;
  stamp_in_place id offset payload_off xid command_id (infomask header) pair;;
  match appended with
  | Some lsn => p ← guard_page id; p' ← hor_panic (set_lsn p lsn); put_page id p'
  | None => mret tt
  end;;
  invalidate_int32_pair_payload_stats_relation rel;;
  bump_version rel xid;;
  mret 1.

(** ** Rollback of delete stamps *)

Definition rollback_stamp_pages_snapshot (xid : Xid) (h : Heap W) : list PageId :=
  match h_stamps h !! xid with Some s => stamps_snapshot s | None => [] end.

(** [remove_if]: the set loses the page, and the map the set once empty. *)
Definition mark_rollback_stamp_page_restored (xid : Xid) (id : PageId) : HM W HeapError unit :=
  modify (fun h =>
    match h_stamps h !! xid with
    | Some s =>
        let s' := stamps_mark_restored s id in
        with_stamps h (if decide (rs_seen s' = ∅) then base.delete xid (h_stamps h) else <[xid := s']> (h_stamps h))
    | None => h
    end).

Definition discard_rollback_stamp_pages (xid : Xid) : HM W HeapError unit :=
  modify (fun h => with_stamps h (base.delete xid (h_stamps h))).

(** The header without its stamp. *)
Definition unstamped (header : TupleHeader) (tid : TupleId) : TupleHeader :=
  mk_TupleHeader (xmin header) Xid_INVALID (cmin header) CommandId_FIRST
    (mask_clear (infomask header) (Z.lor (Z.lor (Z.lor (Z.lor UPDATED HOT_UPDATED) UPDATED_IN_PLACE) XMAX_COMMITTED) XMAX_INVALID))
    (n_atts header) (data_offset header) tid.

(** The headers of a page to restore, with their offsets. *)
Fixpoint stamped_headers (bytes : Page) (id : PageId) (xid : Xid) (slots : list Z)
    : HM W HeapError (list (Z * list Z)) :=
  match slots with
  | [] => mret []
  | slot :: slots' =>
      found ← hor_panic (probe_slot bytes slot);
      match found with
      | PSkip => stamped_headers bytes id xid slots'
      | PShort => hthrow (HMalformedHeader "slot shorter than header")
      | PTuple offset length =>
          header ← hlift (decode_header (zslice offset (offset + Z.of_nat TUPLE_HEADER_SIZE) bytes) "header decode failed");
          if negb (xmax header =? xid) || mask_contains (infomask header) UPDATED_IN_PLACE
          then stamped_headers bytes id xid slots'
          else
          header_bytes ← hor_panic (collect_header_bytes (unstamped header (mk_TupleId id slot)));
          rest ← stamped_headers bytes id xid slots';
          mret ((offset, header_bytes) :: rest)
      end
  end.

Definition write_headers (id : PageId) (headers : list (Z * list Z)) : HM W HeapError unit :=
  foldr (fun oh k => write_bytes id oh.1 oh.2;; k) (mret tt) headers.

Definition rollback_page_stamps (xid : Xid) (id : PageId) (acc : Z * list Z) : HM W HeapError (Z * list Z) :=
  let '(total_restored, restored_relations) := acc in
  get_page id;;
  bytes ← guard_page id;
  hdr ← hlift (result_err HPage (PageHeader_decode bytes));
  n ← hor_panic (slot_count hdr);
  headers ← stamped_headers bytes id xid (slots_below n);
  next_total ← hlift (checked_heap_count_add total_restored (Z.of_nat (length headers)) "rollback tuple count overflow");
  write_headers id headers;;
  mark_rollback_stamp_page_restored xid id;;
  let rels :=
    if negb (is_nil headers) && negb (bool_decide (pg_relation id ∈ restored_relations))
    then restored_relations ++ [pg_relation id] else restored_relations in
  mret (next_total, rels).

Fixpoint rollback_stamp_loop (xid : Xid) (pages : list PageId) (acc : Z * list Z) : HM W HeapError (Z * list Z) :=
  match pages with
  | [] => mret acc
  | id :: pages' => acc ← rollback_page_stamps xid id acc; rollback_stamp_loop xid pages' acc
  end.

Definition bump_relations (xid : Xid) (rels : list Z) : HM W HeapError unit :=
  foldr (fun rel k => bump_version rel xid;; k) (mret tt) rels.

Definition rollback_delete_stamps (xid : Xid) : HM W HeapError Z :=
  pages ← gets (rollback_stamp_pages_snapshot xid);
  acc ← rollback_stamp_loop xid pages (0, []);
  bump_relations xid acc.2;;
  mret acc.1.

(** ** Rollback of in-place updates *)

Inductive RollbackPayload := RFullImage (pre_image : list Z) | RDelta (target_off delta : Z).

Record RollbackMutation := mk_RollbackMutation {
  rm_sequence : Z;
  rm_offset : Z;
  rm_payload_off : Z;
  rm_retain_history : bool;
  rm_payload : RollbackPayload;
}.

Definition rollback_int32_pair_window (bytes : list Z) (slot : Z) : result (Z * Z) HeapError :=
  let? item_raw := read_le_u32 bytes (PAGE_HEADER_SIZE + slot * ITEMID_SIZE) "item id out of bounds" in
  if negb (Z.land item_raw 3 =? 1) then Err (HMalformedHeader "rollback target slot is not normal") else
  let? '(length, offset) := itemid_window item_raw in
  if (length <? Z.of_nat TUPLE_HEADER_SIZE + INT32_PAIR_PAYLOAD_SIZE) || (zlen bytes <? offset + length)
  then Err (HMalformedHeader "rollback target shorter than int32 pair")
  else Ok (offset, offset + Z.of_nat TUPLE_HEADER_SIZE).

Definition batch_slots (batch : Int32PairUndoBatch) : list Z :=
  if negb (is_nil (ub_slots batch)) then ub_slots batch
  else map (fun offset => saturating_add U16 (ub_first_slot batch) offset) (seqZ 0 (ub_slot_count batch)).

Fixpoint full_mutations (bytes : list Z) (log : UndoRelationLog) (xid : Xid) (full : list (Z * UndoEntry))
    : result (list RollbackMutation) HeapError :=
  match full with
  | [] => Ok []
  | (sequence, entry) :: full' =>
      let? '(offset, payload_off) := rollback_int32_pair_window bytes (tid_slot (ue_tid entry)) in
      let? rest := full_mutations bytes log xid full' in
      Ok (mk_RollbackMutation sequence offset payload_off (has_active_history_for_tid_excluding (ue_tid entry) xid log)
            (RFullImage (ue_old_payload entry)) :: rest)
  end.

Fixpoint slot_mutations (bytes : list Z) (log : UndoRelationLog) (xid : Xid) (id : PageId) (sequence target_col delta : Z)
    (slots : list Z) : result (list RollbackMutation) HeapError :=
  match slots with
  | [] => Ok []
  | slot :: slots' =>
      let? '(offset, payload_off) := rollback_int32_pair_window bytes slot in
      let target_off := if target_col =? 0 then payload_off + 1 else payload_off + 5 in
      let? rest := slot_mutations bytes log xid id sequence target_col delta slots' in
      Ok (mk_RollbackMutation sequence offset payload_off (has_active_history_for_tid_excluding (mk_TupleId id slot) xid log)
            (RDelta target_off delta) :: rest)
  end.

Fixpoint compact_mutations (bytes : list Z) (log : UndoRelationLog) (xid : Xid) (id : PageId)
    (compact : list (Z * Int32PairUndoBatch)) : result (list RollbackMutation) HeapError :=
  match compact with
  | [] => Ok []
  | (sequence, batch) :: compact' =>
      let? first := slot_mutations bytes log xid id sequence (ub_target_col batch) (ub_delta batch) (batch_slots batch) in
      let? rest := compact_mutations bytes log xid id compact' in
      Ok (first ++ rest)
  end.

(** [sort_by_key(Reverse(sequence))], a stable sort. *)
Definition newer (a b : RollbackMutation) : Prop := rm_sequence b <= rm_sequence a.
#[global] Instance newer_dec : RelDecision newer.
Proof. unfold newer. intros a b. apply _. Defined.

Definition apply_mutation (m : RollbackMutation) (bytes : Page) : Page :=
  let bytes :=
    match rm_payload m with
    | RFullImage pre_image => zsplice (rm_payload_off m) pre_image bytes
    | RDelta target_off delta =>
        zsplice target_off (i32_bytes (i32_wrapping_sub (to_i32 (zread 4 target_off bytes)) delta)) bytes
    end in
  let bytes := zsplice (rm_offset m + 8) (replicate 8 0) bytes in
  let bytes := zsplice (rm_offset m + 20) (replicate 4 0) bytes in
  let cur_im := zread 2 (rm_offset m + 24) bytes in
  let new_im := mask_clear cur_im (Z.lor UPDATED UPDATED_IN_PLACE) in
  let new_im := if rm_retain_history m then Z.lor new_im INPLACE_HISTORY else new_im in
  zsplice (rm_offset m + 24) (le_encode 2 new_im) bytes.

Definition rollback_page (xid : Xid) (rel : Z) (id : PageId) (total_restored : Z) : HM W HeapError Z :=
  get_page id;;
  bytes ← guard_page id;
  log ← gets (fun h => relation_undo h rel);
  full ← hlift (full_mutations bytes log xid (entries_written_by_on_page xid id log));
  compact ← hlift (compact_mutations bytes log xid id (batches_written_by_on_page xid id log));
  let mutations := merge_sort newer (full ++ compact) in
  next_total ← hlift (checked_heap_count_add total_restored (Z.of_nat (length mutations)) "rollback tuple count overflow");
  put_page id (foldl (fun b m => apply_mutation m b) bytes mutations);;
  set_relation_undo rel (deactivate_written_by_on_page xid id log);;
  mret next_total.

Fixpoint rollback_pages (xid : Xid) (rel : Z) (pages : list PageId) (total_restored : Z) : HM W HeapError Z :=
  match pages with
  | [] => mret total_restored
  | id :: pages' => total ← rollback_page xid rel id total_restored; rollback_pages xid rel pages' total
  end.

Definition rollback_relation (xid : Xid) (rel : Z) (total_restored : Z) : HM W HeapError Z :=
  pages ← gets (fun h => pages_written_by xid (relation_undo h rel));
  if is_nil pages then mret total_restored else
  total ← rollback_pages xid rel pages total_restored;
  log ← gets (fun h => relation_undo h rel);
  set_relation_undo rel (compact_inactive_records log);;
  (if total_restored <? total then invalidate_int32_pair_payload_stats_relation rel;; bump_version rel xid else mret tt);;
  mret total.

Fixpoint rollback_relations (xid : Xid) (rels : list Z) (total_restored : Z) : HM W HeapError Z :=
  match rels with
  | [] => mret total_restored
  | rel :: rels' => total ← rollback_relation xid rel total_restored; rollback_relations xid rels' total
  end.

(** The relations in the order of a hash map's iteration. *)
Definition rollback_in_place_updates (xid : Xid) : HM W HeapError Z :=
  rels ← gets (fun h => (map_to_list (h_undo h)).*1);
  total ← rollback_relations xid rels 0;
  stamps ← rollback_delete_stamps xid;
  mret (total + stamps).
End in_place.
