(* ===== verification/HeapRollback.v ===== *)
(** * Rolling back in-place updates

    The rollback of a transaction puts back, newest first, what each of its
    undo records says, in the slots the records name, clears the stamps of
    those rows and drops the records; every other byte of every row and every
    other record stays. *)

From S2P Require Import Prelude CoreIds TupleHeader Snapshot Visibility Bytes Page PageSpec HeapMaps UndoLog UndoLogSpec UndoRead Heap HeapRedo HeapPage HeapReplay HeapTrace HeapLogic HeapInsert HeapScan HeapScanRefine HeapInPlace.

(** ** Writing inside a row *)

Lemma zsplice_mid a b c new off :
  zlen a = off -> zlen b = zlen new -> zsplice off new (a ++ b ++ c) = a ++ new ++ c.
Proof.
  unfold zsplice, zlen. intros Ha Hb.
  rewrite take_app_length' by lia. do 2 f_equal. rewrite app_assoc. rewrite drop_app_length'; [done|]. rewrite length_app. lia.
Qed.

Lemma zsplice_app_r a c new k : zlen a <= k -> k + zlen new <= zlen a + zlen c ->
  zsplice k new (a ++ c) = a ++ zsplice (k - zlen a) new c.
Proof.
  unfold zsplice, zlen. intros Ha Hc. rewrite take_app, drop_app. rewrite take_ge by lia. rewrite (drop_ge a) by lia.
  rewrite <- app_assoc. cbn [app]. do 2 f_equal; [f_equal; lia|]. f_equal. f_equal. lia.
Qed.

(** A write inside the bytes of a live row. *)
Lemma write_in_slot p h i t k b :
  page_ok p h -> page_slots p h !! Z.to_nat i = Some (SLive t) -> 0 <= i -> 0 <= k -> k + zlen b <= zlen t -> Forall is_byte b ->
  let p' := zsplice (start p i + k) b p in
  page_ok p' h /\ page_slots p' h = <[Z.to_nat i := SLive (zsplice k b t)]> (page_slots p h) /\
  (forall j, 0 <= j < n_slots h -> item p' j = item p j).
Proof.
  intros Hp Hv Hi Hk Hb Hby p'. pose proof (page_header_ok _ _ Hp) as Hh. destruct (lower_slots _ Hh) as [Hlo Hn].
  pose proof (ho_upper _ Hh). pose proof (ho_special _ Hh). pose proof (ho_page _ Hh). pose proof (po_len _ _ Hp) as Hl.
  pose proof Hv as Hv'. rewrite page_slots_lookup, Z2Nat.id in Hv' by done. case_decide as Hlt; [|done]. injection Hv' as Hv'.
  pose proof (view_live _ _ _ Hv') as [Hli Et]. destruct (po_live _ _ Hp i ltac:(lia) Hli) as [Hu Hs].
  pose proof (ItemId_length_bound (item p i)) as [Hx _]. fold (extent p i) in Hx. unfold PAGE_HEADER_SIZE, ITEMID_SIZE in *.
  assert (zlen t = extent p i) as Hzt by (rewrite Et; rewrite zlen_slice; lia). pose proof (zlen_nonneg b) as Hb0.
  assert (p' = zsplice (start p i) (zsplice k b t) p) as ->.
  { apply list_eq. intros j. unfold p'. assert (zlen (zsplice k b t) = zlen t) as Hz by (apply zlen_splice; lia).
    rewrite (zsplice_lookup (start p i + k)), (zsplice_lookup (start p i)) by lia. rewrite Hz. destruct (decide (start p i <= Z.of_nat j < start p i + zlen t)) as [Hj|Hj].
    - rewrite zsplice_lookup by lia. case_decide as Hd1; case_decide as Hd2; try lia; [f_equal; lia|].
      rewrite Et, zslice_lookup, decide_True by lia. f_equal. lia.
    - rewrite decide_False by lia. done. }
  assert (length (zsplice k b t) = length t) as Hlen.
  { assert (zlen (zsplice k b t) = zlen t) as Hz by (apply zlen_splice; lia). unfold zlen in Hz. lia. }
  destruct (patch_live p h i (zsplice k b t) t Hp Hv Hi) as (Hp' & Hs' & _); [lia| |].
  { apply zsplice_bytes; [done|]. by eapply live_bytes_slots. }
  split; [done|]. split.
  - rewrite Hs'. f_equal. f_equal. rewrite drop_ge by lia. by rewrite app_nil_r.
  - intros j Hj. unfold item, PAGE_HEADER_SIZE, ITEMID_SIZE.
    apply zread_splice_out; unfold zlen in *; rewrite ?Hlen; lia.
Qed.

(** ** The inverse of a record *)

Definition target_of (b : Int32PairUndoBatch) : Z := if ub_target_col b =? 0 then 1 else 5.

Definition inverse (r : Rec) (c : list Z) : list Z :=
  match r with
  | REntry e => zsplice 0 (ue_old_payload e) c
  | RBatch b => zsplice (target_of b) (i32_bytes (i32_wrapping_sub (to_i32 (zread 4 (target_of b) c)) (ub_delta b))) c
  end.

(** The header of a restored row. *)
Definition cleared (hdr : TupleHeader) (retain : bool) : TupleHeader :=
  let m := mask_clear (infomask hdr) (Z.lor UPDATED UPDATED_IN_PLACE) in
  mk_TupleHeader (xmin hdr) Xid_INVALID (cmin hdr) 0 (if retain then Z.lor m INPLACE_HISTORY else m)
    (n_atts hdr) (data_offset hdr) (ctid hdr).

(** The fixed size of a full image. *)
Definition rec_ok (r : Rec) : Prop :=
  match r with
  | REntry e => length (ue_old_payload e) = 9%nat /\ Forall is_byte (ue_old_payload e)
  | RBatch b => if is_nil (ub_slots b) then ub_first_slot b + ub_slot_count b < U16 /\ 0 <= ub_first_slot b
                else StronglySorted Z.lt (ub_slots b)
  end.

Lemma zlen_i32 v : zlen (i32_bytes v) = 4.
Proof. unfold i32_bytes. by rewrite zlen_enc. Qed.
Lemma i32_bytes_bytes v : Forall is_byte (i32_bytes v).
Proof. apply le_encode_bytes. Qed.
Lemma zlen_zeros n : zlen (replicate n 0) = Z.of_nat n.
Proof. unfold zlen. by rewrite length_replicate. Qed.
Lemma target_bound b : 1 <= target_of b <= 5.
Proof. unfold target_of. case_match; lia. Qed.

Lemma zlen_inverse r c : rec_ok r -> 9 <= zlen c -> zlen (inverse r c) = zlen c.
Proof.
  intros Hr Hc. destruct r as [e|b]; cbn [inverse] in *; apply zlen_splice.
  - lia.
  - destruct Hr as [Hl _]. unfold zlen in *. lia.
  - pose proof (target_bound b). lia.
  - rewrite zlen_i32. pose proof (target_bound b). lia.
Qed.

(** The stores of one mutation, on the bytes of the row. *)
Definition undo_bytes (retain : bool) (r : Rec) (t : list Z) : list Z :=
  let t1 := match r with
            | REntry e => zsplice 40 (ue_old_payload e) t
            | RBatch b => zsplice (40 + target_of b)
                (i32_bytes (i32_wrapping_sub (to_i32 (zread 4 (40 + target_of b) t)) (ub_delta b))) t
            end in
  let t2 := zsplice 20 (replicate 4 0) (zsplice 8 (replicate 8 0) t1) in
  let m := mask_clear (zread 2 24 t2) (Z.lor UPDATED UPDATED_IN_PLACE) in
  zsplice 24 (le_encode 2 (if retain then Z.lor m INPLACE_HISTORY else m)) t2.

Lemma undo_bytes_eq retain r hdr c :
  header_wf hdr -> rec_ok r -> 9 <= zlen c ->
  undo_bytes retain r (thbytes hdr ++ c) = thbytes (cleared hdr retain) ++ inverse r c.
Proof.
  intros Hwf Hr Hc. unfold undo_bytes.
  assert (E1 : match r with
               | REntry e => zsplice 40 (ue_old_payload e) (thbytes hdr ++ c)
               | RBatch b => zsplice (40 + target_of b)
                   (i32_bytes (i32_wrapping_sub (to_i32 (zread 4 (40 + target_of b) (thbytes hdr ++ c))) (ub_delta b))) (thbytes hdr ++ c)
               end = thbytes hdr ++ inverse r c).
  { destruct r as [e|b]; cbn [inverse].
    - destruct Hr as [Hl _]. rewrite zsplice_app_r by (rewrite zlen_thbytes; unfold zlen in *; lia). by rewrite zlen_thbytes.
    - pose proof (target_bound b). rewrite zread_app_r by (rewrite zlen_thbytes; lia).
      rewrite zsplice_app_r by (rewrite zlen_thbytes, ?zlen_i32; lia). rewrite zlen_thbytes.
      replace (40 + target_of b - 40) with (target_of b) by lia. done. }
  rewrite E1. clear E1. generalize (inverse r c). intros c'. destruct Hwf as (H1 & H2 & H3 & H4 & H5 & _).
  unfold thbytes, cleared. cbn [xmin xmax cmin cmax infomask n_atts data_offset ctid]. rewrite <- !app_assoc.
  change (replicate 8 0) with (le_encode 8 Xid_INVALID). change (replicate 4 0) with (le_encode 4 0).
  rewrite (zsplice_mid (le_encode 8 (xmin hdr))) by (by rewrite !zlen_enc).
  rewrite (app_assoc (le_encode 8 (xmin hdr)) (le_encode 8 Xid_INVALID)).
  rewrite (app_assoc _ (le_encode 4 (cmin hdr))).
  rewrite (zsplice_mid _ (le_encode 4 (cmax hdr))) by (by rewrite ?zlen_app, !zlen_enc).
  rewrite (app_assoc _ (le_encode 4 0)).
  assert (zread 2 24 (((((le_encode 8 (xmin hdr) ++ le_encode 8 Xid_INVALID) ++ le_encode 4 (cmin hdr)) ++ le_encode 4 0)
    ++ le_encode 2 (infomask hdr) ++ le_encode 2 (n_atts hdr) ++ le_encode 2 (data_offset hdr) ++ le_encode 2 0 ++
    le_encode 4 (pg_relation (tid_page (ctid hdr))) ++ le_encode 4 (ctid_word (ctid hdr)) ++ c')) = infomask hdr) as ->.
  { rewrite zread_app_r by (rewrite !zlen_app, !zlen_enc; done). rewrite !zlen_app, !zlen_enc.
    change (24 - _) with 0. apply zread_enc_hit. unfold in_width, U16 in H5. cbn. lia. }
  rewrite (zsplice_mid _ (le_encode 2 (infomask hdr))) by (by rewrite ?zlen_app, !zlen_enc).
  by rewrite <- !app_assoc.
Qed.

Lemma header_wf_cleared hdr retain : header_wf hdr -> header_wf (cleared hdr retain).
Proof.
  intros Hwf. pose proof (header_wf_mask _ Hwf) as Hm. destruct Hwf as (H1 & H2 & H3 & H4 & H5 & H6 & H7).
  pose proof (mask_clear_bound _ (Z.lor UPDATED UPDATED_IN_PLACE) Hm) as Hc.
  assert (0 <= (if retain then Z.lor (mask_clear (infomask hdr) (Z.lor UPDATED UPDATED_IN_PLACE)) INPLACE_HISTORY
                else mask_clear (infomask hdr) (Z.lor UPDATED UPDATED_IN_PLACE)) < 4096) as Hb.
  { destruct retain; [|done]. apply (lor_bound _ _ 12); [lia|done|]. split; [done|]. by vm_compute. }
  destruct (mask_wf _ Hb) as [Hw Hk]. unfold header_wf, cleared. cbn [xmin xmax cmin cmax infomask n_atts data_offset ctid].
  unfold in_width, Xid_INVALID, U64, U32 in *. split_and!; try done; try lia; apply H7.
Qed.

(** ** One mutation of a page *)

Definition mutation (p : Page) (retain : Z -> bool) (x : Z * (Z * Rec)) : RollbackMutation :=
  mk_RollbackMutation x.2.1 (start p x.1) (start p x.1 + 40) (retain x.1)
    (match x.2.2 with
     | REntry e => RFullImage (ue_old_payload e)
     | RBatch b => RDelta (start p x.1 + 40 + target_of b) (ub_delta b)
     end).

(** A row that holds a pair. *)
Definition pair_slot (p : Page) (h : PageHeader) (i : Z) : Prop :=
  0 <= i < n_slots h /\ exists t, page_slots p h !! Z.to_nat i = Some (SLive t) /\ 49 <= zlen t.

Lemma zread_in_slice n off a b l : 0 <= a -> 0 <= off -> a + off + Z.of_nat n <= b -> b <= zlen l ->
  zread n (a + off) l = zread n off (zslice a b l).
Proof.
  intros Ha Ho Hn Hb. unfold zread. f_equal. apply list_eq. intros i. rewrite !zslice_lookup.
  repeat case_decide; try lia; try done. f_equal. lia.
Qed.

Lemma live_row p h i t :
  page_ok p h -> page_slots p h !! Z.to_nat i = Some (SLive t) -> 0 <= i ->
  0 <= i < n_slots h /\ t = zslice (start p i) (start p i + zlen t) p /\ 0 <= start p i /\ start p i + zlen t <= zlen p /\
  extent p i = zlen t /\ live p i /\ Forall is_byte t.
Proof.
  intros Hp Hv Hi. pose proof (page_header_ok _ _ Hp) as Hh. destruct (lower_slots _ Hh) as [Hlo Hn].
  pose proof (ho_upper _ Hh). pose proof (ho_special _ Hh). pose proof (ho_page _ Hh). pose proof (po_len _ _ Hp) as Hl.
  assert (Forall is_byte t) by (by eapply live_bytes_slots).
  rewrite page_slots_lookup, Z2Nat.id in Hv by done. case_decide as Hlt; [|done]. injection Hv as Hv.
  pose proof (view_live _ _ _ Hv) as [Hli Et]. destruct (po_live _ _ Hp i ltac:(lia) Hli) as [Hu Hs].
  pose proof (ItemId_length_bound (item p i)) as [Hx _]. fold (extent p i) in Hx. unfold PAGE_HEADER_SIZE, ITEMID_SIZE in *.
  assert (zlen t = extent p i) as Hzt by (rewrite Et; rewrite zlen_slice; lia). rewrite Hzt.
  split_and!; try done; lia.
Qed.

(** A page on which one row was rewritten. *)
Record rewritten (p : Page) (h : PageHeader) (i : Z) (q : Page) (t : list Z) : Prop := {
  rw_ok : page_ok q h;
  rw_slots : page_slots q h = <[Z.to_nat i := SLive t]> (page_slots p h);
  rw_items : forall j, 0 <= j < n_slots h -> item q j = item p j;
}.

Lemma rewritten_refl p h i t : page_ok p h -> page_slots p h !! Z.to_nat i = Some (SLive t) -> rewritten p h i p t.
Proof. intros Hp Hs. split; [done| |done]. by rewrite list_insert_id. Qed.

Lemma rewritten_write p h i q t k b :
  0 <= i < n_slots h -> page_ok p h -> rewritten p h i q t -> 0 <= k -> k + zlen b <= zlen t -> Forall is_byte b ->
  rewritten p h i (zsplice (start p i + k) b q) (zsplice k b t).
Proof.
  intros Hi Hp [Hq Hs Hit] Hk Hb Hby.
  assert (start p i = start q i) as -> by (unfold start; by rewrite Hit).
  assert (page_slots q h !! Z.to_nat i = Some (SLive t)) as Hl.
  { rewrite Hs. apply list_lookup_insert_eq. rewrite length_page_slots. lia. }
  destruct (write_in_slot q h i t k b Hq Hl) as (Hq' & Hs' & Hi'); [lia|done|done|done|].
  split; [done| |].
  - rewrite Hs', Hs. apply list_insert_insert_eq.
  - intros j Hj. rewrite Hi' by done. by apply Hit.
Qed.

Lemma rewritten_slice p h i q t k n :
  0 <= i < n_slots h -> rewritten p h i q t -> 0 <= k -> k + Z.of_nat n <= zlen t ->
  zread n (start p i + k) q = zread n k t.
Proof.
  intros Hi [Hq Hs Hit] Hk Hn. assert (start p i = start q i) as -> by (unfold start; by rewrite Hit).
  assert (page_slots q h !! Z.to_nat i = Some (SLive t)) as Hl.
  { rewrite Hs. apply list_lookup_insert_eq. rewrite length_page_slots. lia. }
  destruct (live_row q h i t Hq Hl) as (_ & Et & H0 & He & _); [lia|]. rewrite Et.
  apply zread_in_slice; lia.
Qed.

Lemma apply_mutation_eq p h q retain i s r t :
  page_ok p h -> 0 <= i < n_slots h -> rewritten p h i q t -> 49 <= zlen t -> rec_ok r ->
  rewritten p h i (apply_mutation (mutation p retain (i, (s, r))) q) (undo_bytes (retain i) r t).
Proof.
  intros Hp Hi Hrw Ht Hr. unfold apply_mutation, undo_bytes, mutation. cbn [rm_payload rm_payload_off rm_offset rm_retain_history fst snd].
  match goal with |- rewritten _ _ _ ?q' ?t' =>
    match q' with context [zsplice (start p i + 8) (replicate 8 0) ?q1] =>
    match t' with context [zsplice 8 (replicate 8 0) ?t1] => assert (rewritten p h i q1 t1 /\ zlen t1 = zlen t) as [H1 Hl1] end end end.
  { destruct r as [e|b].
    - destruct Hr as [Hl Hb]. unfold zlen in *. split; [|apply zlen_splice; unfold zlen; lia].
      apply rewritten_write; try done; unfold zlen; lia.
    - pose proof (target_bound b). replace (start p i + 40 + target_of b) with (start p i + (40 + target_of b)) by lia.
      rewrite (rewritten_slice p h i q t) by (done || lia).
      split; [|apply zlen_splice; rewrite ?zlen_i32; lia].
      apply rewritten_write; try done; rewrite ?zlen_i32; try lia. apply i32_bytes_bytes. }
  match type of H1 with rewritten _ _ _ ?q1 ?t1 => revert H1 Hl1; generalize q1 t1 end. intros q1 t1 H1 Hl1.
  assert (zlen (zsplice 8 (replicate 8 0) t1) = zlen t) as Hl2 by (rewrite zlen_splice; [done|lia|rewrite zlen_zeros; lia]).
  assert (zlen (zsplice 20 (replicate 4 0) (zsplice 8 (replicate 8 0) t1)) = zlen t) as Hl3 by (rewrite zlen_splice; [done|lia|rewrite zlen_zeros; lia]).
  assert (Hz : forall n, Forall is_byte (replicate n 0)) by (intros n; apply Forall_replicate; unfold is_byte; lia).
  assert (H2 : rewritten p h i (zsplice (start p i + 20) (replicate 4 0) (zsplice (start p i + 8) (replicate 8 0) q1))
    (zsplice 20 (replicate 4 0) (zsplice 8 (replicate 8 0) t1))).
  { apply rewritten_write; try done; rewrite ?zlen_zeros; try lia. apply rewritten_write; try done; rewrite ?zlen_zeros; lia. }
  rewrite (rewritten_slice p h i _ _ 24 2 Hi H2) by lia. apply rewritten_write; try done; rewrite ?zlen_enc; try lia.
  apply le_encode_bytes.
Qed.

Lemma zlen_undo_bytes retain r t : rec_ok r -> 49 <= zlen t -> zlen (undo_bytes retain r t) = zlen t.
Proof.
  intros Hr Ht. unfold undo_bytes.
  assert (zlen (match r with
            | REntry e => zsplice 40 (ue_old_payload e) t
            | RBatch b => zsplice (40 + target_of b)
                (i32_bytes (i32_wrapping_sub (to_i32 (zread 4 (40 + target_of b) t)) (ub_delta b))) t
            end) = zlen t) as E.
  { destruct r as [e|b].
    - destruct Hr as [Hl _]. apply zlen_splice; unfold zlen in *; lia.
    - pose proof (target_bound b). apply zlen_splice; rewrite ?zlen_i32; lia. }
  revert E. match goal with |- zlen ?t1 = _ -> _ => generalize t1 end. intros t1 E.
  assert (zlen (zsplice 8 (replicate 8 0) t1) = zlen t) as E2 by (rewrite zlen_splice; rewrite ?zlen_zeros; lia).
  assert (zlen (zsplice 20 (replicate 4 0) (zsplice 8 (replicate 8 0) t1)) = zlen t) as E3 by (rewrite zlen_splice; rewrite ?zlen_zeros; lia).
  rewrite zlen_splice; rewrite ?zlen_enc; lia.
Qed.

(** ** All mutations of a page *)

Definition slot_undo (retain : Z -> bool) (i : Z) (l : list (Z * (Z * Rec))) (t : list Z) : list Z :=
  foldl (fun t x => undo_bytes (retain i) x.2.2 t) t (filter (fun x => x.1 = i) l).

Lemma apply_all p h retain l q :
  page_ok p h -> page_ok q h -> (forall j, 0 <= j < n_slots h -> item q j = item p j) ->
  Forall (fun x => pair_slot q h x.1 /\ rec_ok x.2.2) l ->
  let q' := foldl (fun b m => apply_mutation m b) q (map (mutation p retain) l) in
  page_ok q' h /\
  forall j, page_slots q' h !! j =
    match page_slots q h !! j with Some (SLive t) => Some (SLive (slot_undo retain (Z.of_nat j) l t)) | v => v end.
Proof.
  intros Hp. revert q. induction l as [|[i [s r]] l IH]; intros q Hq Hit Hl; cbn [map foldl].
  { split; [done|]. intros j. unfold slot_undo. destruct (page_slots q h !! j) as [[]|] eqn:E; try done. }
  apply Forall_cons in Hl as [[(Hi & t & Ht & Hlen) Hr] Hl]. cbn [fst snd] in *.
  assert (mutation p retain (i, (s, r)) = mutation q retain (i, (s, r))) as ->.
  { unfold mutation, start. cbn [fst snd]. by rewrite Hit. }
  destruct (apply_mutation_eq q h q retain i s r t Hq Hi) as [Hq1 Hs1 Hi1]; [by apply rewritten_refl|done|done|].
  set (q1 := apply_mutation _ q) in *. assert (Hlt : (Z.to_nat i < length (page_slots q h))%nat) by (by eapply lookup_lt_Some).
  destruct (IH q1) as [Hq' Hs']; [done| | |].
  { intros j Hj. rewrite Hi1 by done. by apply Hit. }
  { eapply Forall_impl; [done|]. intros [i' [s' r']] [(Hi' & t' & Ht' & Hlen') Hr']. cbn [fst snd] in *. split; [|done]. split; [done|].
    rewrite Hs1. destruct (decide (i' = i)) as [->|Hne].
    - exists (undo_bytes (retain i) r t). rewrite list_lookup_insert_eq by done. split; [done|]. by rewrite zlen_undo_bytes.
    - exists t'. by rewrite list_lookup_insert_ne by lia. }
  split; [done|]. intros j. rewrite Hs', Hs1. destruct (decide (Z.to_nat i = j)) as [<-|Hne].
  - rewrite list_lookup_insert_eq, Ht by done. rewrite Z2Nat.id by lia. unfold slot_undo. by rewrite filter_cons_True by done.
  - rewrite list_lookup_insert_ne by done. destruct (page_slots q h !! j) as [[]|]; try done.
    unfold slot_undo. by rewrite filter_cons_False by (cbn; lia).
Qed.

Lemma cleared_idemp hdr retain : cleared (cleared hdr retain) retain = cleared hdr retain.
Proof.
  unfold cleared. cbn [xmin xmax cmin cmax infomask n_atts data_offset ctid]. f_equal. unfold mask_clear.
  set (f := not_u16 (Z.lor UPDATED UPDATED_IN_PLACE)). assert (Z.land INPLACE_HISTORY f = INPLACE_HISTORY) as Hh by done.
  destruct retain.
  - rewrite Z.land_lor_distr_l, Hh, <- Z.land_assoc, Z.land_diag, <- Z.lor_assoc. by rewrite Z.lor_diag.
  - by rewrite <- Z.land_assoc, Z.land_diag.
Qed.

Lemma undo_row hdr c retain rs :
  header_wf hdr -> Forall rec_ok rs -> 9 <= zlen c -> rs <> [] ->
  foldl (fun t r => undo_bytes retain r t) (thbytes hdr ++ c) rs =
  thbytes (cleared hdr retain) ++ foldl (fun c r => inverse r c) c rs.
Proof.
  intros Hwf Hrs Hc Hne. destruct rs as [|r rs]; [done|]. clear Hne. cbn [foldl].
  apply Forall_cons in Hrs as [Hr Hrs]. rewrite undo_bytes_eq by done.
  assert (9 <= zlen (inverse r c)) as Hc' by (by rewrite zlen_inverse). revert Hc'. generalize (inverse r c). clear c Hc.
  induction rs as [|r' rs IH]; intros c Hc; [done|]. cbn [foldl]. apply Forall_cons in Hrs as [Hr' Hrs].
  rewrite undo_bytes_eq; [|by apply header_wf_cleared|done|done]. rewrite cleared_idemp. apply IH; [done|]. by rewrite zlen_inverse.
Qed.

(** ** The mutations of a page *)

Lemma normal_bits v : ItemId_flags v = Normal -> Z.land v 3 = 1.
Proof.
  unfold ItemId_flags, ItemIdFlags_from_bits. destruct (Z.land v 3) as [|[[]|[]|]|] eqn:E; try done.
Qed.

Lemma window_ok p h i :
  page_ok p h -> pair_slot p h i -> rollback_int32_pair_window p i = Ok (start p i, start p i + 40).
Proof.
  intros Hp (Hi & t & Ht & Hl). destruct (live_row p h i t Hp Ht) as (_ & _ & H0 & He & Hx & Hlv & _); [lia|].
  pose proof (page_header_ok _ _ Hp) as Hh. destruct (lower_slots _ Hh) as [Hlo Hn].
  pose proof (ho_upper _ Hh). pose proof (ho_special _ Hh). pose proof (ho_page _ Hh). pose proof (po_len _ _ Hp) as Hpl.
  unfold rollback_int32_pair_window, read_le_u32. change (zread 4 (PAGE_HEADER_SIZE + i * ITEMID_SIZE) p) with (item p i).
  unfold PAGE_HEADER_SIZE, ITEMID_SIZE in *. destruct (Z.ltb_spec (zlen p) (24 + i * 4 + 4)); [lia|].
  rewrite (normal_bits _ Hlv). cbn -[Z.add Z.ltb]. fold (start p i) (extent p i). rewrite Hx.
  change (Z.of_nat TUPLE_HEADER_SIZE) with 40. unfold INT32_PAIR_PAYLOAD_SIZE.
  destruct (Z.ltb_spec (zlen t) (40 + 9)); [lia|]. destruct (Z.ltb_spec (zlen p) (start p i + zlen t)); [lia|]. done.
Qed.

Section page.
Context (xid : Xid) (id : PageId) (log : UndoRelationLog).

(** Whether the slot keeps records of other transactions. *)
Definition keeps_history (i : Z) : bool := has_active_history_for_tid_excluding (mk_TupleId id i) xid log.

Definition full_items : list (Z * (Z * Rec)) :=
  map (fun se => (tid_slot (ue_tid se.2), (se.1, REntry se.2))) (entries_written_by_on_page xid id log).
Definition batch_items (sb : Z * Int32PairUndoBatch) : list (Z * (Z * Rec)) :=
  map (fun i => (i, (sb.1, RBatch sb.2))) (batch_slots sb.2).
Definition compact_items : list (Z * (Z * Rec)) := batches_written_by_on_page xid id log ≫= batch_items.

Lemma full_mutations_eq p h es :
  page_ok p h -> Forall (fun se => tid_page (ue_tid se.2) = id /\ pair_slot p h (tid_slot (ue_tid se.2))) es ->
  full_mutations p log xid es =
  Ok (map (mutation p keeps_history) (map (fun se => (tid_slot (ue_tid se.2), (se.1, REntry se.2))) es)).
Proof.
  intros Hp. induction 1 as [|[s e] es [He Hs] _ IH]; [done|]. cbn [full_mutations map fst snd] in *.
  rewrite (window_ok p h) by done. rewrite IH. cbn. do 2 f_equal. unfold mutation, keeps_history. cbn [fst snd].
  f_equal. f_equal. destruct e as [[pg sl] ? ? ?]. cbn in *. by subst.
Qed.

Lemma slot_mutations_eq p h s b sl :
  page_ok p h -> Forall (pair_slot p h) sl ->
  slot_mutations p log xid id s (ub_target_col b) (ub_delta b) sl =
  Ok (map (mutation p keeps_history) (map (fun i => (i, (s, RBatch b))) sl)).
Proof.
  intros Hp. induction 1 as [|i sl Hs _ IH]; [done|]. cbn [slot_mutations map].
  rewrite (window_ok p h) by done. rewrite IH. cbn. do 2 f_equal. unfold mutation, keeps_history, target_of. cbn [fst snd].
  f_equal. f_equal. case_match; lia.
Qed.

Lemma compact_mutations_eq p h bs :
  page_ok p h -> Forall (fun sb => Forall (pair_slot p h) (batch_slots sb.2)) bs ->
  compact_mutations p log xid id bs = Ok (map (mutation p keeps_history) (bs ≫= batch_items)).
Proof.
  intros Hp. induction 1 as [|[s b] bs Hs _ IH]; [done|]. cbn [compact_mutations]. cbn [snd] in Hs.
  rewrite (slot_mutations_eq p h) by done. rewrite IH. cbn. f_equal. by rewrite map_app.
Qed.

(** What [newer] sorts. *)
Lemma newest_first p items :
  exists l, merge_sort newer (map (mutation p keeps_history) items) = map (mutation p keeps_history) l /\
    l ≡ₚ items /\ StronglySorted (fun x y => y.2.1 <= x.2.1) l.
Proof.
  assert (Transitive newer) by (unfold newer; intros a b c; lia). assert (Total newer) by (unfold newer; intros a b; lia).
  pose proof (merge_sort_Permutation newer (map (mutation p keeps_history) items)) as Hp.
  pose proof (StronglySorted_merge_sort newer (map (mutation p keeps_history) items)) as Hs.
  apply Permutation_map_inv in Hp as (l & Hl & Hp). exists l. split; [done|]. split; [done|].
  rewrite Hl in Hs. clear Hl Hp. induction l as [|x l IH]; [constructor|]. cbn [map] in Hs.
  apply StronglySorted_inv in Hs as [Hs Hx]. constructor; [by apply IH|].
  rewrite Forall_map in Hx. eapply Forall_impl; [done|]. done.
Qed.

(** The rows a record names. *)
Definition expand (x : Z * Rec) : list (Z * (Z * Rec)) :=
  match x.2 with
  | REntry e => [(tid_slot (ue_tid e), x)]
  | RBatch b => map (fun i => (i, x)) (batch_slots b)
  end.

(** The transaction's records of the page. *)
Definition mine : list (Z * Rec) := filter (fun p => written_on xid id p.2 = true) (timeline log).

Lemma written_on_true r : written_on xid id r = true <-> rec_writer r = xid /\ rec_page r = id.
Proof. unfold written_on. by rewrite andb_true_iff, Z.eqb_eq, bool_decide_eq_true. Qed.

Lemma entries_mine : log_wf log ->
  map (fun se => (se.1, REntry se.2)) (entries_written_by_on_page xid id log) ≡ₚ
  filter (fun p => written_on xid id p.2 = true) (tagged REntry (actives (ul_entries log))).
Proof.
  intros Hw. unfold entries_written_by_on_page. rewrite map_map. cbn [fst snd].
  rewrite merge_sort_Permutation, (indexed_on_numbered ue_tid) by apply Hw.
  rewrite <- (tagged_filter REntry (fun p => ue_writer_xid p.1 = xid /\ on_page id (ue_tid p.1) = true)).
  - rewrite <- list_filter_filter, <- numbered_snd. rewrite <- (filter_snd (fun p => ue_writer_xid p.1 = xid)).
    unfold tagged. rewrite <- list_fmap_compose. done.
  - intros p _. cbn [snd]. rewrite written_on_true. unfold on_page. by rewrite bool_decide_eq_true.
Qed.

Lemma batches_mine : log_wf log ->
  map (fun sb => (sb.1, RBatch sb.2)) (batches_written_by_on_page xid id log) =
  filter (fun p => written_on xid id p.2 = true) (tagged RBatch (actives (ul_batches log))).
Proof.
  intros Hw. unfold batches_written_by_on_page. rewrite map_map. cbn [fst snd]. rewrite (ordered_for_eq ub_page) by apply Hw.
  rewrite list_filter_filter. apply (tagged_filter RBatch). intros p _. cbn [snd]. by rewrite written_on_true.
Qed.

Lemma items_mine : log_wf log -> full_items ++ compact_items ≡ₚ mine ≫= expand.
Proof.
  intros Hw. unfold mine. rewrite timeline_perm, filter_app, <- entries_mine, <- batches_mine by done. rewrite bind_app. f_equiv.
  - unfold full_items. induction (entries_written_by_on_page xid id log) as [|se es IH]; [done|]. cbn. by rewrite IH.
  - unfold compact_items. induction (batches_written_by_on_page xid id log) as [|sb bs IH]; [done|]. cbn. by rewrite IH.
Qed.

Lemma batch_slots_spec b : rec_ok (RBatch b) ->
  NoDup (batch_slots b) /\ (forall i, i ∈ batch_slots b <-> contains_slot b i = true).
Proof.
  cbn. unfold batch_slots, contains_slot. destruct (is_nil (ub_slots b)) eqn:E; cbn [negb].
  - intros [Hlt H0]. assert (Hmap : map (fun o => saturating_add U16 (ub_first_slot b) o) (seqZ 0 (ub_slot_count b)) =
      map (fun o => ub_first_slot b + o) (seqZ 0 (ub_slot_count b))).
    { apply list_fmap_ext. intros k o Ho. apply list_elem_of_lookup_2, elem_of_seqZ in Ho. unfold saturating_add. lia. }
    rewrite Hmap. split.
    + assert (Inj (=) (=) (fun o => ub_first_slot b + o)) by (intros x y; lia). apply (NoDup_fmap_2 _), NoDup_seqZ.
    + intros i. rewrite andb_true_iff, Z.leb_le, Z.ltb_lt. unfold saturating_add. rewrite Z.min_l by lia. split.
      * intros (o & -> & Ho%elem_of_seqZ)%list_elem_of_fmap. lia.
      * intros Hi. apply list_elem_of_fmap. exists (i - ub_first_slot b). split; [lia|]. apply elem_of_seqZ. lia.
  - intros Hs. split.
    + clear E. induction Hs as [|x l Hs IH Hx]; constructor; [|done]. intros Hin. rewrite Forall_forall in Hx. specialize (Hx x Hin). lia.
    + intros i. rewrite binary_search_elem; [done|]. clear E. induction Hs as [|x l Hs IH Hx]; constructor; [done|].
      eapply Forall_impl; [done|]. cbn. lia.
Qed.

Lemma filter_unique i (l : list Z) x : NoDup l ->
  filter (fun y : Z * (Z * Rec) => y.1 = i) (map (fun j => (j, x)) l) = if bool_decide (i ∈ l) then [(i, x)] else [].
Proof.
  induction 1 as [|j l Hj Hn IH]; [done|]. cbn [map]. rewrite filter_cons. cbn [fst]. rewrite IH. destruct (decide (j = i)) as [Hd|Hd].
  - subst i. rewrite (bool_decide_false (j ∈ l)) by done. by rewrite bool_decide_true by left.
  - rewrite (bool_decide_ext (i ∈ j :: l) (i ∈ l)) by set_solver. done.
Qed.

Lemma expand_slot i x : rec_ok x.2 -> rec_page x.2 = id ->
  filter (fun y : Z * (Z * Rec) => y.1 = i) (expand x) = if rec_touches (mk_TupleId id i) x.2 then [(i, x)] else [].
Proof.
  intros Hr Hp. unfold expand. destruct x as [s [e|b]]; cbn [snd rec_page rec_touches tid_page tid_slot] in *.
  - rewrite filter_cons, filter_nil. cbn [fst]. destruct e as [[pg sl] ? ? ?]. cbn in *. subst. case_decide; subst.
    + by rewrite bool_decide_true.
    + rewrite bool_decide_false; [done|]. congruence.
  - destruct (batch_slots_spec b Hr) as [Hn Hc]. rewrite filter_unique by done. rewrite (bool_decide_true (ub_page b = id)) by done.
    cbn [andb]. destruct (contains_slot b i) eqn:E.
    + by rewrite bool_decide_true by (by apply Hc).
    + rewrite bool_decide_false; [done|]. rewrite Hc, E. done.
Qed.

Lemma items_slot i l : Forall (fun x => rec_ok x.2 /\ rec_page x.2 = id) l ->
  filter (fun y => y.1 = i) (l ≫= expand) = map (pair i) (filter (fun x => rec_touches (mk_TupleId id i) x.2 = true) l).
Proof.
  induction 1 as [|x l [Hr Hp] _ IH]; [done|]. cbn [mbind list_bind]. rewrite filter_app, IH, expand_slot by done. rewrite filter_cons.
  destruct (rec_touches (mk_TupleId id i) x.2); [by rewrite decide_True|by rewrite decide_False].
Qed.

(** The transaction's records of a row, oldest first. *)
Definition undone (tid : TupleId) : list Rec := filter (fun r => rec_writer r = xid) (slot_records log tid).

Lemma mine_slot i :
  (filter (fun x => rec_touches (mk_TupleId id i) x.2 = true) mine).*2 = undone (mk_TupleId id i).
Proof.
  unfold mine, undone, slot_records, records. rewrite !list_filter_filter.
  rewrite <- (filter_snd (fun r => rec_writer r = xid /\ rec_touches (mk_TupleId id i) r = true)). f_equal.
  apply list_filter_iff. intros [s r]. cbn [snd]. rewrite written_on_true.
  assert (rec_touches (mk_TupleId id i) r = true -> rec_page r = id); [|tauto].
  destruct r as [e|b]; cbn; [rewrite bool_decide_eq_true; by intros ->|].
  rewrite andb_true_iff, bool_decide_eq_true. tauto.
Qed.

(** What the order of the mutations means for one row. *)
Lemma slot_order i l : log_wf log -> Forall (fun x => rec_ok x.2) mine ->
  l ≡ₚ mine ≫= expand -> StronglySorted (fun x y => y.2.1 <= x.2.1) l ->
  map (fun x => x.2.2) (filter (fun x : Z * (Z * Rec) => x.1 = i) l) = reverse (undone (mk_TupleId id i)).
Proof.
  intros Hw Hok Hl Hs. set (touch := filter (fun x => rec_touches (mk_TupleId id i) x.2 = true) mine).
  assert (Hb : StronglySorted before touch) by (by apply sorted_filter, sorted_filter, timeline_sorted).
  assert (Hp : map snd (filter (fun x : Z * (Z * Rec) => x.1 = i) l) ≡ₚ touch).
  { rewrite Hl, items_slot.
    - rewrite map_map. cbn [snd]. by rewrite map_id.
    - apply Forall_forall. intros x Hx. rewrite Forall_forall in Hok. split; [by apply Hok|].
      apply list_elem_of_filter in Hx as [Hx _]. by apply written_on_true in Hx as [_ Hx]. }
  assert (He : map snd (filter (fun x : Z * (Z * Rec) => x.1 = i) l) = reverse touch).
  { apply (StronglySorted_unique_strong (fun p q : Z * Rec => q.1 <= p.1)).
    - intros p q Hpi Hqi H1 H2. rewrite Hp in Hpi. rewrite elem_of_reverse in Hqi. apply (before_inj touch); try done. lia.
    - apply (sorted_filter _ (fun x : Z * (Z * Rec) => x.1 = i)) in Hs. revert Hs. generalize (filter (fun x : Z * (Z * Rec) => x.1 = i) l).
      intros k. induction 1 as [|x k _ IH Hx]; cbn [map]; constructor; [done|]. apply Forall_map. eapply Forall_impl; [done|]. done.
    - apply reverse_before in Hb. revert Hb. induction 1 as [|x k _ IH Hx]; constructor; [done|].
      eapply Forall_impl; [done|]. unfold after. cbn. lia.
    - by rewrite reverse_Permutation. }
  rewrite <- mine_slot. fold touch. rewrite <- fmap_reverse, <- He. by rewrite <- list_fmap_compose.
Qed.

(** The row's bytes after the rollback. *)
Definition undone_row (i : Z) (t : list Z) : list Z :=
  foldl (fun t r => undo_bytes (keeps_history i) r t) t (reverse (undone (mk_TupleId id i))).

(** The rows the transaction's records name hold pairs. *)
Definition fits (p : Page) (h : PageHeader) (r : Rec) : Prop :=
  rec_ok r /\ forall i, rec_touches (mk_TupleId id i) r = true -> pair_slot p h i.

Definition weight : Z := Z.of_nat (length (mine ≫= expand)).

Lemma expand_fits p h x y : fits p h x.2 -> rec_page x.2 = id -> y ∈ expand x -> pair_slot p h y.1 /\ rec_ok y.2.2.
Proof.
  intros [Hr Hs] Hp Hy. pose proof (expand_slot y.1 x Hr Hp) as He.
  assert (Hin : y ∈ filter (fun z : Z * (Z * Rec) => z.1 = y.1) (expand x)) by (by apply list_elem_of_filter).
  rewrite He in Hin. destruct (rec_touches (mk_TupleId id y.1) x.2) eqn:E; [|by apply not_elem_of_nil in Hin].
  apply list_elem_of_singleton in Hin. split; [by apply Hs|]. rewrite Hin. done.
Qed.

Lemma page_undone p h :
  log_wf log -> page_ok p h -> (forall r, r ∈ records log -> written_on xid id r = true -> fits p h r) ->
  exists full compact, full_mutations p log xid (entries_written_by_on_page xid id log) = Ok full /\
    compact_mutations p log xid id (batches_written_by_on_page xid id log) = Ok compact /\
    Z.of_nat (length (merge_sort newer (full ++ compact))) = weight /\
    let q := foldl (fun b m => apply_mutation m b) p (merge_sort newer (full ++ compact)) in
    page_ok q h /\
    forall j, page_slots q h !! j =
      match page_slots p h !! j with Some (SLive t) => Some (SLive (undone_row (Z.of_nat j) t)) | v => v end.
Proof.
  intros Hw Hp Hf.
  assert (Hm : forall x, x ∈ mine -> fits p h x.2 /\ rec_page x.2 = id).
  { intros x [Hx Hin]%list_elem_of_filter. pose proof Hx as Hx'. apply written_on_true in Hx' as [_ Hpg]. split; [|done].
    apply Hf; [|done]. apply list_elem_of_fmap. by exists x. }
  assert (Hi : Forall (fun y => pair_slot p h y.1 /\ rec_ok y.2.2) (full_items ++ compact_items)).
  { rewrite (items_mine Hw). apply Forall_forall. intros y (x & Hy & Hx)%list_elem_of_bind.
    destruct (Hm x Hx) as [Hfx Hpx]. by apply (expand_fits p h x y). }
  exists (map (mutation p keeps_history) full_items), (map (mutation p keeps_history) compact_items).
  pose proof (entries_mine Hw) as He. pose proof Hi as [Hi1 Hi2]%Forall_app. split_and!.
  - apply (full_mutations_eq p h); [done|]. apply Forall_forall. intros se Hse.
    unfold full_items in Hi1. rewrite Forall_map, Forall_forall in Hi1. split; [|by apply (Hi1 se)].
    assert ((se.1, REntry se.2) ∈ map (fun se => (se.1, REntry se.2)) (entries_written_by_on_page xid id log)) as Hin
      by (apply list_elem_of_fmap; by exists se).
    rewrite He in Hin. apply list_elem_of_filter in Hin as [Hin _]. by apply written_on_true in Hin as [_ Hin].
  - apply (compact_mutations_eq p h); [done|]. apply Forall_forall. intros sb Hsb. apply Forall_forall. intros i Hin.
    rewrite Forall_forall in Hi2. apply (Hi2 (i, (sb.1, RBatch sb.2))). apply list_elem_of_bind. exists sb. split; [|done].
    apply list_elem_of_fmap. by exists i.
  - rewrite (Permutation_length (merge_sort_Permutation newer _)), <- map_app, length_map. unfold weight. by rewrite (items_mine Hw).
  - rewrite <- map_app. destruct (newest_first p (full_items ++ compact_items)) as (l & -> & Hl & Hs).
    destruct (apply_all p h keeps_history l p Hp Hp) as [Hq Hsl]; [done|by rewrite Hl|].
    split; [done|]. intros j. rewrite Hsl. destruct (page_slots p h !! j) as [[| | |t]|]; try done. do 2 f_equal.
    unfold slot_undo, undone_row. rewrite <- (slot_order (Z.of_nat j) l); [|done| |by rewrite Hl, items_mine|done].
    + by rewrite foldl_fmap.
    + apply Forall_forall. intros x Hx. apply (Hm x Hx).
Qed.
End page.

(** ** The log of the page *)

(** The rows a record names. *)
Definition rec_width (r : Rec) : Z := match r with REntry _ => 1 | RBatch b => Z.of_nat (length (batch_slots b)) end.
Definition rows_named (rs : list Rec) : Z := foldr (fun r n => rec_width r + n) 0 rs.

Lemma rows_named_nonneg rs : 0 <= rows_named rs.
Proof.
  induction rs as [|r rs IH]; [done|]. cbn [rows_named foldr]. fold (rows_named rs).
  assert (0 <= rec_width r) by (unfold rec_width; destruct r; lia). lia.
Qed.

Lemma weight_eq xid id log : weight xid id log = rows_named (filter (fun r => written_on xid id r = true) (records log)).
Proof.
  unfold weight, mine, records. rewrite <- (filter_snd (fun r => written_on xid id r = true)).
  induction (filter _ (timeline log)) as [|[s r] l IH]; [done|]. cbn [mbind list_bind]. rewrite length_app, Nat2Z.inj_add.
  rewrite fmap_cons. cbn [rows_named foldr snd]. rewrite IH. f_equal. destruct r; cbn; [done|]. by rewrite length_map.
Qed.

Lemma records_elem log r : r ∈ records log <->
  (exists p, p ∈ actives (ul_entries log) /\ r = REntry p.1) \/ (exists p, p ∈ actives (ul_batches log) /\ r = RBatch p.1).
Proof.
  unfold records. rewrite timeline_perm, fmap_app, elem_of_app. unfold tagged. rewrite <- !list_fmap_compose.
  rewrite !list_elem_of_fmap. cbn. split; intros [(p & H1 & H2)|(p & H1 & H2)]; [left|right|left|right]; by exists p.
Qed.

(** Records of other transactions keep the history bit. *)
Lemma history_records log xid tid : log_wf log ->
  has_active_history_for_tid_excluding tid xid log = existsb (fun r => negb (rec_writer r =? xid)) (slot_records log tid).
Proof.
  intros Hw. apply eq_true_iff_eq. unfold has_active_history_for_tid_excluding, entries_for_tid, batches_for_page.
  rewrite orb_true_iff, !existsb_exists. rewrite (ordered_for_eq ue_tid), (ordered_for_eq ub_page) by apply Hw.
  assert (Hel : forall r, In r (slot_records log tid) <-> r ∈ records log /\ rec_touches tid r = true).
  { intros r. rewrite <- list_elem_of_In. unfold slot_records. rewrite list_elem_of_filter. tauto. }
  setoid_rewrite <- list_elem_of_In. split.
  - intros [(e & (p & -> & [Hk Hp]%list_elem_of_filter)%list_elem_of_fmap & He)
           |(b & (p & -> & [Hk Hp]%list_elem_of_filter)%list_elem_of_fmap & Hb)].
    + exists (REntry p.1). split; [|done]. apply list_elem_of_In, Hel. split; [apply records_elem; left; by exists p|].
      cbn. by rewrite bool_decide_eq_true.
    + apply andb_true_iff in Hb as [Hb1 Hb2]. exists (RBatch p.1). split; [|done]. apply list_elem_of_In, Hel.
      split; [apply records_elem; right; by exists p|]. cbn. by rewrite Hb2, bool_decide_true.
  - intros (r & Hr%list_elem_of_In & Hx). apply Hel in Hr as [Hr Ht]. apply records_elem in Hr as [(p & Hp & ->)|(p & Hp & ->)]; cbn in Ht, Hx.
    + left. exists p.1. split; [|done]. apply list_elem_of_fmap. exists p. split; [done|]. apply list_elem_of_filter.
      by apply bool_decide_eq_true in Ht.
    + right. apply andb_true_iff in Ht as [Ht1 Ht2]. apply bool_decide_eq_true in Ht1. exists p.1.
      split; [|by rewrite Hx, Ht2]. apply list_elem_of_fmap. exists p. split; [done|]. by apply list_elem_of_filter.
Qed.

Lemma keys_written_elem {K A} `{Countable K} (key : A -> K) (writer : A -> Xid) xid (r : Recs K A) k :
  recs_wf key r -> k ∈ keys_written_by writer xid r <-> exists p, p ∈ actives r /\ writer p.1 = xid /\ key p.1 = k.
Proof.
  intros Hw. unfold keys_written_by. rewrite list_elem_of_fmap. split.
  - intros ([k' js] & -> & [He Hin]%list_elem_of_filter). cbn [fst snd] in *. apply elem_of_map_to_list in Hin.
    apply existsb_exists in He as (i & Hi & Ha). destruct (active_at r i) as [[a m]|] eqn:E; [|done].
    apply Z.eqb_eq in Ha. exists (a, m). split; [by eapply active_at_elem|]. split; [done|].
    apply active_at_Some in E as [Hl _]. apply pairs_lookup in Hl as [Hl _]. cbn in Hl |- *.
    destruct (rw_sound _ _ Hw k' i) as (a' & Ha' & Hk); [unfold index_for; rewrite Hin; by apply list_elem_of_In|]. congruence.
  - intros (p & Hp & Hx & Hk). apply actives_elem in Hp as [i Hi]. pose proof Hi as Hi'.
    apply active_at_Some in Hi' as [Hl Ha]. apply pairs_lookup in Hl as [Hl Hm].
    pose proof (rw_complete _ _ Hw i p.1 p.2 Hl Hm Ha) as Hin. rewrite Hk in Hin. unfold index_for in Hin.
    destruct (rc_index r !! k) as [js|] eqn:E; [|by apply not_elem_of_nil in Hin]. exists (k, js). split; [done|].
    apply list_elem_of_filter. split; [|by apply elem_of_map_to_list]. cbn. apply existsb_exists. exists i.
    split; [by apply list_elem_of_In|]. rewrite Hi. destruct p. by apply Z.eqb_eq.
Qed.

Lemma pages_written_spec xid log : log_wf log ->
  NoDup (pages_written_by xid log) /\
  forall id, id ∈ pages_written_by xid log <-> exists r, r ∈ records log /\ written_on xid id r = true.
Proof.
  intros Hw. unfold pages_written_by. split; [rewrite merge_sort_Permutation; apply NoDup_elements|].
  intros id. rewrite merge_sort_Permutation, elem_of_elements, elem_of_list_to_set, elem_of_app, list_elem_of_fmap.
  setoid_rewrite (keys_written_elem ue_tid); [|apply Hw]. rewrite (keys_written_elem ub_page) by apply Hw.
  setoid_rewrite records_elem. setoid_rewrite written_on_true. split.
  - intros [(tid & -> & p & Hp & Hx & <-)|(p & Hp & Hx & Hk)].
    + exists (REntry p.1). split; [left; by exists p|done].
    + exists (RBatch p.1). split; [right; by exists p|done].
  - intros (r & [(p & Hp & ->)|(p & Hp & ->)] & Hx & Hk); cbn in Hx, Hk.
    + left. exists (ue_tid p.1). split; [done|]. by exists p.
    + right. by exists p.
Qed.

(** The rows of a relation's records, page by page. *)
Lemma rows_partition rs pages : NoDup pages -> (forall r, r ∈ rs -> rec_page r ∈ pages) ->
  foldr (fun id n => rows_named (filter (fun r => rec_page r = id) rs) + n) 0 pages = rows_named rs.
Proof.
  intros Hn. induction rs as [|r rs IH]; intros Hc; cbn [rows_named foldr].
  { clear. induction pages as [|id pages IH]; [done|]. cbn [foldr]. rewrite IH. done. }
  fold (rows_named rs). rewrite <- IH by (intros q Hq; apply Hc; by right). clear IH.
  assert (Hin : rec_page r ∈ pages) by (apply Hc; left). clear Hc. revert Hin. induction Hn as [|id pages Hid Hn IH]; intros Hin.
  { by apply not_elem_of_nil in Hin. }
  cbn [foldr]. rewrite filter_cons. destruct (decide (rec_page r = id)) as [He|He].
  - cbn [rows_named foldr]. fold (rows_named (filter (fun r => rec_page r = id) rs)).
    assert (Hno : forall ps, rec_page r ∉ ps ->
      foldr (fun id n => rows_named (filter (fun r => rec_page r = id) (r :: rs)) + n) 0 ps =
      foldr (fun id n => rows_named (filter (fun r => rec_page r = id) rs) + n) 0 ps).
    { clear. induction ps as [|j ps IH]; [done|]. intros Hni. apply not_elem_of_cons in Hni as [Hj Hni].
      cbn [foldr]. rewrite IH by done. by rewrite filter_cons_False. }
    rewrite Hno by (by rewrite He). lia.
  - apply elem_of_cons in Hin as [Hin|Hin]; [done|]. rewrite IH by done. lia.
Qed.

Lemma filter_iff_in {A} (P Q : A -> Prop) `{forall x, Decision (P x), forall x, Decision (Q x)} (l : list A) :
  (forall x, x ∈ l -> P x <-> Q x) -> filter P l = filter Q l.
Proof.
  induction l as [|x l IH]; intros Hpq; [done|]. rewrite !filter_cons, IH by (intros y Hy; apply Hpq; by right).
  pose proof (Hpq x ltac:(left)). repeat case_decide; tauto.
Qed.

(** ** The heap *)

Section heap.
Context {W : Type} (xid : Xid) (h0 : Heap W).

(** What the records of the transaction need of the pages they name. *)
Record undoable : Prop := {
  ud_ready : ready h0;
  ud_stamps : h_stamps h0 !! xid = None;
  ud_logs rel : log_wf (relation_undo h0 rel);
  ud_pages rel r : r ∈ records (relation_undo h0 rel) -> rec_writer r = xid ->
    pg_relation (rec_page r) = rel /\
    exists hd, page_ok (page_of h0 (rec_page r)) hd /\ fits (rec_page r) (page_of h0 (rec_page r)) hd r;
}.

Definition log0 (id : PageId) : UndoRelationLog := relation_undo h0 (pg_relation id).
Definition owed (rel : Z) : Z := rows_named (filter (fun r => rec_writer r = xid) (records (relation_undo h0 rel))).

(** The rows of a page as the rollback leaves them. *)
Definition page_rolled_back (id : PageId) (q : Page) : Prop :=
  forall hd, page_ok (page_of h0 id) hd -> page_ok q hd /\
    forall j, page_slots q hd !! j =
      match page_slots (page_of h0 id) hd !! j with
      | Some (SLive t) => Some (SLive (undone_row xid id (log0 id) (Z.of_nat j) t))
      | v => v
      end.

Definition left_over (D : gset PageId) (r : Rec) : bool := negb ((rec_writer r =? xid) && bool_decide (rec_page r ∈ D)).

(** The rollback after the pages [D]. *)
Record pages_undone (D : gset PageId) (h : Heap W) : Prop := {
  sw_ready : ready h;
  sw_stamps : h_stamps h !! xid = None;
  sw_logs rel : log_wf (relation_undo h rel) /\
    records (relation_undo h rel) = filter (fun r => left_over D r = true) (records (relation_undo h0 rel));
  sw_in id : id ∈ D -> page_rolled_back id (page_of h id);
  sw_out id : id ∉ D -> page_of h id = page_of h0 id;
}.

Lemma left_over_other D r : rec_writer r <> xid -> left_over D r = true.
Proof. unfold left_over. intros Hx%Z.eqb_neq. by rewrite Hx. Qed.
Lemma left_over_out D r : rec_page r ∉ D -> left_over D r = true.
Proof. unfold left_over. intros Hx. rewrite (bool_decide_false _ Hx), andb_false_r. done. Qed.

(** The parts of the log the rollback of a page reads are still there. *)
Lemma undone_page D h id : undoable -> pages_undone D h -> id ∉ D ->
  let log := relation_undo h (pg_relation id) in
  filter (fun r => written_on xid id r = true) (records log) = filter (fun r => written_on xid id r = true) (records (log0 id)) /\
  forall i t, undone_row xid id log i t = undone_row xid id (log0 id) i t.
Proof.
  intros Hu Hs Hid log. destruct (sw_logs D h Hs (pg_relation id)) as [Hw Hr]. fold log in Hw, Hr. change (relation_undo h0 (pg_relation id)) with (log0 id) in Hr.
  pose proof (ud_logs Hu (pg_relation id)) as Hw0. change (relation_undo h0 (pg_relation id)) with (log0 id) in Hw0. split.
  { rewrite Hr, list_filter_filter. apply list_filter_iff. intros r. rewrite written_on_true. split; [tauto|].
    intros [Hx Hp]. split; [done|]. apply left_over_out. congruence. }
  intros i t. unfold undone_row, keeps_history. rewrite !history_records by done.
  assert (slot_records log (mk_TupleId id i) = slot_records (log0 id) (mk_TupleId id i)) as Hsr.
  { unfold slot_records. rewrite Hr, list_filter_filter. apply list_filter_iff. intros r. split; [tauto|]. intros Ht. split; [done|].
    apply left_over_out. assert (rec_page r = id); [|congruence]. destruct r as [e|b]; cbn in Ht |- *.
    - apply bool_decide_eq_true in Ht. by rewrite Ht.
    - by apply andb_true_iff in Ht as [?%bool_decide_eq_true _]. }
  unfold undone. by rewrite Hsr.
Qed.

Lemma rollback_page_run D h id total :
  undoable -> pages_undone D h -> id ∉ D -> (exists r, r ∈ records (log0 id) /\ written_on xid id r = true) ->
  let n := rows_named (filter (fun r => written_on xid id r = true) (records (log0 id))) in
  0 <= total -> total + n < U64 ->
  exists h', rollback_page xid (pg_relation id) id total h = Some (Ok (total + n), h') /\ pages_undone ({[id]} ∪ D) h'.
Proof.
  intros Hu Hs Hid (r0 & Hr0 & Hx0) n Ht Hn. destruct (undone_page D h id Hu Hs Hid) as [Hmine Hroll].
  pose proof (sw_logs _ _ Hs (pg_relation id)) as [Hw Hr]. set (log := relation_undo h (pg_relation id)) in *.
  assert (exists hd, page_ok (page_of h0 id) hd) as [hd Hpg].
  { apply written_on_true in Hx0 as [Hx0 Hp0]. destruct (ud_pages Hu _ r0 Hr0 Hx0) as (_ & hd & Hpg & _). rewrite Hp0 in Hpg. by exists hd. }
  pose proof (sw_out _ _ Hs id Hid) as Hout.
  destruct (page_undone xid id log (page_of h id) hd) as (full & compact & Hf & Hc & Hlen & Hq & Hslots); [done|by rewrite Hout| |].
  { intros r Hin Hx. assert (Hin0 : r ∈ records (log0 id)) by (rewrite Hr in Hin; by apply list_elem_of_filter in Hin as [_ Hin]).
    apply written_on_true in Hx as [Hx Hp]. destruct (ud_pages Hu _ r Hin0 Hx) as (_ & hd' & Hpg' & Hfit).
    rewrite Hp in Hpg', Hfit. assert (hd' = hd) as ->.
    { pose proof (po_header _ _ Hpg) as E. rewrite (po_header _ _ Hpg') in E. by apply Ok_inj in E. }
    by rewrite Hout. }
  rewrite weight_eq, Hmine in Hlen. fold n in Hlen. destruct (sw_ready _ _ Hs) as [Hpo Hio].
  unfold rollback_page. rewrite (bind_run _ _ h tt h) by (unfold get_page; by rewrite Hpo, Hio).
  rewrite (bind_run _ _ h (page_of h id) h) by done. rewrite (bind_run _ _ h log h) by done.
  rewrite (bind_run _ _ h full h) by (unfold hlift; by rewrite Hf). rewrite (bind_run _ _ h compact h) by (unfold hlift; by rewrite Hc).
  rewrite Hlen. rewrite (bind_run _ _ h (total + n) h).
  2:{ unfold hlift, checked_heap_count_add, checked_add. destruct (Z.ltb_spec (total + n) U64); [done|lia]. }
  eexists. split; [reflexivity|]. split.
  - by split.
  - apply Hs.
  - intros rel. destruct (sw_logs _ _ Hs rel) as [Hwr Hrr]. unfold relation_undo. cbn [h_undo with_undo with_pages].
    destruct (decide (rel = pg_relation id)) as [->|Hne].
    + rewrite lookup_insert_eq. cbn [default]. split; [by apply deactivate_wf|].
      etrans; [apply (records_filter log _ (fun r => written_on xid id r = false)), (timeline_deactivate xid id log Hw)|].
      rewrite Hr, list_filter_filter. apply list_filter_iff. intros r. unfold left_over, written_on. fold (relation_undo h0 (pg_relation id)).
      destruct (rec_writer r =? xid); cbn [andb negb]; [|tauto]. rewrite !negb_true_iff, !bool_decide_eq_false. set_solver.
    + rewrite lookup_insert_ne by done. fold (relation_undo h rel). split; [done|]. rewrite Hrr. apply filter_iff_in.
      intros r Hin. unfold left_over. destruct (Z.eqb_spec (rec_writer r) xid) as [Hx|]; cbn [andb]; [|done].
      destruct (ud_pages Hu _ r Hin Hx) as [Hrel _].
      rewrite !negb_true_iff, !bool_decide_eq_false. split; [|set_solver]. intros Hni [Hp%elem_of_singleton|Hp]%elem_of_union; [|done]. congruence.
  - intros id' Hin. unfold page_of. cbn. destruct (decide (id' = id)) as [->|Hne].
    + rewrite lookup_insert_eq. cbn. intros hd' Hpg'. assert (hd' = hd) as ->.
      { pose proof (po_header _ _ Hpg) as E. rewrite (po_header _ _ Hpg') in E. by apply Ok_inj in E. }
      split; [done|]. intros j. rewrite Hslots, Hout. destruct (page_slots (page_of h0 id) hd !! j) as [[| | |t]|]; try done. by rewrite Hroll.
    + rewrite lookup_insert_ne by done. apply (sw_in _ _ Hs). set_solver.
  - intros id' Hni. unfold page_of. cbn. rewrite lookup_insert_ne by set_solver. apply (sw_out _ _ Hs). set_solver.
Qed.

Lemma undone_ext D h h' :
  pages_undone D h -> ready h' -> h_stamps h' = h_stamps h -> h_pages h' = h_pages h ->
  (forall rel, log_wf (relation_undo h' rel) /\ records (relation_undo h' rel) = records (relation_undo h rel)) -> pages_undone D h'.
Proof.
  intros Hs Hrd Hst Hpg Hlg. split; [done|rewrite Hst; apply Hs| | |].
  - intros rel. destruct (Hlg rel) as [Hw ->]. split; [done|]. apply Hs.
  - intros id Hin. unfold page_of. rewrite Hpg. by apply (sw_in _ _ Hs).
  - intros id Hni. unfold page_of. rewrite Hpg. by apply (sw_out _ _ Hs).
Qed.

Definition page_owed (rel : Z) (id : PageId) : Z :=
  rows_named (filter (fun r => written_on xid id r = true) (records (relation_undo h0 rel))).

Lemma rollback_pages_run rel pages D h total :
  undoable -> pages_undone D h -> NoDup pages ->
  (forall id, id ∈ pages -> (id ∉ D) /\ pg_relation id = rel /\ exists r, r ∈ records (relation_undo h0 rel) /\ written_on xid id r = true) ->
  let n := foldr (fun id n => page_owed rel id + n) 0 pages in
  0 <= total -> total + n < U64 ->
  exists h', rollback_pages xid rel pages total h = Some (Ok (total + n), h') /\ pages_undone (list_to_set pages ∪ D) h'.
Proof.
  intros Hu Hs Hn. revert D h total Hs. induction Hn as [|id pages Hid Hn IH]; intros D h total Hs Hin n Ht Hlt; cbn [rollback_pages].
  { exists h. split; [unfold n; cbn; by rewrite Z.add_0_r|]. cbn. by rewrite union_empty_l_L. }
  destruct (Hin id ltac:(left)) as (Hni & <- & Hr).
  assert (Hnn' : 0 <= foldr (fun j n => page_owed (pg_relation id) j + n) 0 pages).
  { clear. induction pages as [|j pages IH]; cbn; [done|]. pose proof (rows_named_nonneg (filter (fun r => written_on xid j r = true) (records (relation_undo h0 (pg_relation id))))).
    unfold page_owed in *. lia. }
  unfold n in *. cbn [foldr] in *. pose proof (rows_named_nonneg (filter (fun r => written_on xid id r = true) (records (log0 id)))) as H0.
  change (page_owed (pg_relation id) id) with (rows_named (filter (fun r => written_on xid id r = true) (records (log0 id)))) in *.
  destruct (rollback_page_run D h id total Hu Hs Hni Hr Ht) as (h1 & Hrun & Hs1); [lia|].
  rewrite (bind_run _ _ _ _ _ Hrun). edestruct (IH ({[id]} ∪ D) h1) as (h2 & Hrun2 & Hs2); [done| | | |].
  - intros j Hj. destruct (Hin j ltac:(by right)) as (Hj1 & Hj2 & Hj3). split; [set_solver|done].
  - instantiate (1 := total + rows_named (filter (fun r => written_on xid id r = true) (records (log0 id)))). lia.
  - lia.
  - exists h2. split; [rewrite Hrun2; do 3 f_equal; lia|]. cbn [list_to_set].
    by replace (({[id]} ∪ list_to_set pages) ∪ D) with (list_to_set pages ∪ ({[id]} ∪ D)) by set_solver.
Qed.

(** The pages of a relation the transaction wrote. *)
Definition wrote (rel : Z) (id : PageId) : Prop :=
  pg_relation id = rel /\ exists r, r ∈ records (relation_undo h0 rel) /\ written_on xid id r = true.

Lemma owed_pages rel pages : undoable -> NoDup pages -> (forall id, id ∈ pages <-> wrote rel id) ->
  foldr (fun id n => page_owed rel id + n) 0 pages = owed rel.
Proof.
  intros Hu Hn Hp. unfold owed. rewrite <- (rows_partition _ pages Hn).
  - clear. induction pages as [|id pages IH]; [done|]. cbn [foldr]. rewrite IH. f_equal. unfold page_owed. f_equal.
    rewrite list_filter_filter. apply list_filter_iff. intros r. rewrite written_on_true. tauto.
  - intros r [Hx Hin]%list_elem_of_filter. apply Hp. destruct (ud_pages Hu rel r Hin Hx) as [Hrel _].
    split; [done|]. exists r. by rewrite written_on_true.
Qed.

Lemma rollback_relation_run rel D h total :
  undoable -> pages_undone D h -> (forall id, id ∈ D -> pg_relation id <> rel) -> 0 <= total -> total + owed rel < U64 ->
  exists D' h', rollback_relation xid rel total h = Some (Ok (total + owed rel), h') /\ pages_undone D' h' /\
    forall id, id ∈ D' <-> id ∈ D \/ wrote rel id.
Proof.
  intros Hu Hs HD Ht Hlt. destruct (sw_logs _ _ Hs rel) as [Hw Hr].
  assert (records (relation_undo h rel) = records (relation_undo h0 rel)) as Hr0.
  { rewrite Hr. rewrite (filter_iff_in _ (fun _ => True)); [by apply log_filter_all|]. intros r Hin. split; [done|]. intros _.
    destruct (decide (rec_writer r = xid)) as [Hx|Hx]; [|by apply left_over_other]. destruct (ud_pages Hu rel r Hin Hx) as [Hrel _].
    apply left_over_out. intros Hd%HD. done. }
  destruct (pages_written_spec xid (relation_undo h rel) Hw) as [Hnd Hpw].
  assert (Hwr : forall id, id ∈ pages_written_by xid (relation_undo h rel) <-> wrote rel id).
  { intros id. rewrite Hpw, Hr0. unfold wrote. split; [|tauto]. intros (r & Hin & Hx). split; [|by exists r].
    apply written_on_true in Hx as [Hx <-]. by destruct (ud_pages Hu rel r Hin Hx) as [Hrel _]. }
  unfold rollback_relation. rewrite (bind_run _ _ h (pages_written_by xid (relation_undo h rel)) h) by done.
  set (pages := pages_written_by xid (relation_undo h rel)) in *. rewrite <- (owed_pages rel pages) in * by done.
  destruct pages as [|id0 pages0] eqn:Ep.
  { exists D, h. cbn. rewrite Z.add_0_r. split; [done|]. split; [done|]. intros id. rewrite <- Hwr. set_solver. }
  cbn [is_nil]. rewrite <- Ep in *. clear Ep id0 pages0.
  destruct (rollback_pages_run rel pages D h total Hu Hs Hnd) as (h1 & Hrun & Hs1); [|done|done|].
  { intros id Hin. destruct (proj1 (Hwr id) Hin) as [Hrel Hex]. split; [|done]. intros Hd%HD. done. }
  rewrite (bind_run _ _ _ _ _ Hrun). set (log1 := relation_undo h1 rel). rewrite (bind_run _ _ h1 log1 h1) by done.
  set (h2 := with_undo h1 (<[rel := compact_inactive_records log1]> (h_undo h1))). rewrite (bind_run _ _ h1 tt h2) by done.
  assert (Hs2 : pages_undone (list_to_set pages ∪ D) h2).
  { apply (undone_ext _ h1); [done|apply Hs1|done|done|]. intros rel'. destruct (sw_logs _ _ Hs1 rel') as [Hw1 _].
    unfold relation_undo, h2. cbn [h_undo with_undo]. destruct (decide (rel' = rel)) as [->|Hne].
    - rewrite lookup_insert_eq. cbn [default]. destruct (log_compact_spec log1 Hw1) as [Hwc Htc].
      split; [done|]. exact (f_equal (fmap snd) Htc).
    - by rewrite lookup_insert_ne by done. }
  assert (HD' : forall id, id ∈ list_to_set (C := gset PageId) pages ∪ D <-> id ∈ D \/ wrote rel id).
  { intros id. rewrite <- Hwr. set_solver. }
  case_match.
  - eexists _, _. split; [reflexivity|]. split; [|exact HD']. apply (undone_ext _ h2); try done; try apply Hs2. intros rel'. split; [apply Hs2|done].
  - exists (list_to_set pages ∪ D), h2. done.
Qed.

Definition owed_all (rels : list Z) : Z := foldr (fun rel n => owed rel + n) 0 rels.

Lemma owed_all_nonneg rels : 0 <= owed_all rels.
Proof.
  induction rels as [|rel rels IH]; [done|]. cbn [owed_all foldr]. fold (owed_all rels).
  pose proof (rows_named_nonneg (filter (fun r => rec_writer r = xid) (records (relation_undo h0 rel)))). unfold owed. lia.
Qed.

Lemma rollback_relations_run rels D h total :
  undoable -> pages_undone D h -> NoDup rels -> (forall id, id ∈ D -> pg_relation id ∉ rels) -> 0 <= total -> total + owed_all rels < U64 ->
  exists D' h', rollback_relations xid rels total h = Some (Ok (total + owed_all rels), h') /\ pages_undone D' h' /\
    forall id, id ∈ D' <-> id ∈ D \/ pg_relation id ∈ rels /\ wrote (pg_relation id) id.
Proof.
  intros Hu Hs Hn. revert D h total Hs. induction Hn as [|rel rels Hrel Hn IH]; intros D h total Hs HD Ht Hlt; cbn [rollback_relations].
  { exists D, h. cbn. rewrite Z.add_0_r. split; [done|]. split; [done|]. set_solver. }
  cbn [owed_all foldr] in *. fold (owed_all rels) in *. pose proof (owed_all_nonneg rels) as H0.
  assert (0 <= owed rel) as H1 by apply rows_named_nonneg.
  destruct (rollback_relation_run rel D h total Hu Hs) as (D1 & h1 & Hrun & Hs1 & HD1); [|done|lia|].
  { intros id Hin He. apply (HD id Hin). rewrite He. left. }
  rewrite (bind_run _ _ _ _ _ Hrun). destruct (IH D1 h1 (total + owed rel) Hs1) as (D2 & h2 & Hrun2 & Hs2 & HD2); [|lia|lia|].
  { intros id [Hin|[Hr _]]%HD1; [pose proof (HD id Hin); set_solver|by rewrite Hr]. }
  exists D2, h2. split; [rewrite Hrun2; do 3 f_equal; lia|]. split; [done|]. intros id. rewrite HD2, HD1.
  rewrite elem_of_cons. split.
  - intros [[Hin|Hw]|[Hin Hw]]; [by left| |right; tauto]. right. pose proof Hw as [<- _]. tauto.
  - intros [Hin|[[He|Hin] Hw]]; [tauto| |tauto]. left. right. by rewrite <- He.
Qed.
End heap.

(** ** The payloads *)

Lemma inverse_compact b c q : 9 <= zlen c ->
  reverse_one_compact_delta (take 9 c) (ub_target_col b) (ub_delta b) = Some q -> inverse (RBatch b) c = q ++ drop 9 c.
Proof.
  intros Hc. unfold reverse_one_compact_delta. fold (target_of b). pose proof (target_bound b) as Hb.
  assert (zlen (take 9 c) = 9) as H9 by (unfold zlen in *; rewrite length_take; lia).
  destruct (Z.ltb_spec (zlen (take 9 c)) (target_of b + 4)); [lia|].
  assert (zread 4 (target_of b) c = zread 4 (target_of b) (take 9 c)) as Hrd.
  { rewrite <- (take_drop 9 c) at 1. rewrite zread_app_l by lia. done. }
  cbn [inverse]. rewrite Hrd. set (v := to_i32 (zread 4 (target_of b) (take 9 c)) - ub_delta b). case_match eqn:E; [|done]. intros [= <-].
  apply andb_true_iff in E as [E1%Z.leb_le E2%Z.leb_le].
  assert (i32_wrapping_sub (to_i32 (zread 4 (target_of b) (take 9 c))) (ub_delta b) = v) as ->.
  { unfold i32_wrapping_sub. fold v. by apply to_i32_wrap. }
  unfold zsplice. pose proof (zlen_i32 v) as H4. unfold zlen in *. rewrite take_take, skipn_firstn_comm, <- !app_assoc.
  replace (Z.to_nat (target_of b) `min` 9)%nat with (Z.to_nat (target_of b)) by lia. f_equal. f_equal.
  set (k := (Z.to_nat (target_of b) + length (i32_bytes v))%nat). replace (9 - k)%nat with (9 - k)%nat by done.
  rewrite <- (take_drop (9 - k) (drop k c)) at 1. rewrite drop_drop. do 2 f_equal. unfold k. lia.
Qed.

Lemma inverse_write tid r p p' c :
  payload_ok p -> slot_write tid r p p' -> 9 <= zlen c -> take 9 c = take 9 p' -> inverse r c = take 9 p ++ drop 9 c.
Proof.
  intros Hok Hwr Hc Ht. destruct Hwr as [e p p' He Ho Hl Hb|b p v Hto Hv Hv2].
  - cbn [inverse]. rewrite Ho. destruct Hok as [Hp _]. unfold zsplice, zlen in *. change (Z.to_nat 0) with 0%nat.
    rewrite take_0, length_take. cbn [app]. do 2 f_equal. lia.
  - apply inverse_compact; [done|]. rewrite Ht. by apply reverse_compact.
Qed.

Lemma inverse_all tid p us c :
  payload_ok p -> slot_history tid p us -> 9 <= zlen c -> take 9 c = take 9 (payload_after p us) ->
  foldl (fun c r => inverse r c) c (reverse us.*1) = take 9 p ++ drop 9 c.
Proof.
  intros Hok. revert c. induction us as [|[r q] us IH] using rev_ind; intros c Hh Hc Ht.
  { cbn in *. by rewrite <- Ht, take_drop. }
  apply history_app in Hh as [Hh Hl]. inversion Hl as [|p1 r1 p2 ws1 Hwr Hrest]; subst.
  rewrite payload_after_app in Ht. cbn in Ht. rewrite fmap_app, reverse_app. cbn [fmap list_fmap fst reverse rev_append app foldl].
  pose proof (history_ok _ _ _ Hok Hh) as Hok'. rewrite (inverse_write tid r _ q c Hok' Hwr Hc Ht).
  assert (length (take 9 (payload_after p us)) = 9%nat) as H9.
  { destruct Hok' as [Hl9 _]. unfold zlen in Hl9. rewrite length_take. lia. }
  rewrite IH; [|done| |].
  - rewrite drop_app_length'; [done|lia].
  - unfold zlen in *. rewrite length_app, length_drop, H9. lia.
  - rewrite take_app_length'; [done|lia].
Qed.

(** ** The rollback *)

Section rollback.
Context {W : Type} (xid : Xid) (h0 : Heap W).

Definition in_log : list Z := (map_to_list (h_undo h0)).*1.

Lemma undo_relation rel r : r ∈ records (relation_undo h0 rel) -> rel ∈ in_log.
Proof.
  unfold relation_undo, in_log. destruct (h_undo h0 !! rel) as [l|] eqn:E; [|by intros ?%not_elem_of_nil].
  intros _. apply list_elem_of_fmap. exists (rel, l). split; [done|]. by apply elem_of_map_to_list.
Qed.

Lemma rollback_rows : undoable xid h0 -> owed_all xid h0 in_log < U64 ->
  exists h', rollback_in_place_updates xid h0 = Some (Ok (owed_all xid h0 in_log), h') /\
    (forall rel, records (relation_undo h' rel) = filter (fun r => rec_writer r <> xid) (records (relation_undo h0 rel))) /\
    forall id, page_rolled_back xid h0 id (page_of h' id).
Proof.
  intros Hu Hlt.
  assert (Hs : pages_undone xid h0 ∅ h0).
  { split; [apply Hu|apply Hu| |set_solver|done]. intros rel. split; [apply Hu|]. symmetry. apply log_filter_all.
    intros r. apply left_over_out. set_solver. }
  destruct (rollback_relations_run xid h0 in_log ∅ h0 0 Hu Hs) as (D & h' & Hrun & Hs' & HD); [apply NoDup_fst_map_to_list|set_solver|lia|lia|].
  rewrite Z.add_0_l in Hrun. exists h'. split_and!.
  - unfold rollback_in_place_updates. rewrite (bind_run _ _ h0 in_log h0) by done. rewrite (bind_run _ _ _ _ _ Hrun).
    rewrite (bind_run _ _ h' 0 h'); [by rewrite Z.add_0_r|].
    unfold rollback_delete_stamps. rewrite (bind_run _ _ h' [] h'); [done|].
    unfold gets, rollback_stamp_pages_snapshot. by rewrite (sw_stamps _ _ _ _ Hs').
  - intros rel. destruct (sw_logs _ _ _ _ Hs' rel) as [_ ->]. apply filter_iff_in. intros r Hin.
    split; [|apply left_over_other]. unfold left_over. rewrite negb_true_iff, andb_false_iff, Z.eqb_neq, bool_decide_eq_false.
    intros [Hx|Hp]; [done|]. intros Hx. apply Hp, HD. right. destruct (ud_pages _ _ Hu rel r Hin Hx) as [Hrel _]. rewrite Hrel.
    split; [by eapply undo_relation|]. split; [done|]. exists r. by rewrite written_on_true.
  - intros id. destruct (decide (id ∈ D)) as [Hin|Hni]; [by apply (sw_in _ _ _ _ Hs')|].
    rewrite (sw_out _ _ _ _ Hs' id Hni). intros hd Hpg. split; [done|]. intros j.
    assert (Hnone : forall i, undone xid (log0 h0 id) (mk_TupleId id i) = []).
    { intros i. destruct (undone xid (log0 h0 id) (mk_TupleId id i)) as [|r rs] eqn:E; [done|]. exfalso. apply Hni, HD. right.
      assert (r ∈ undone xid (log0 h0 id) (mk_TupleId id i)) as Hr by (rewrite E; left).
      apply list_elem_of_filter in Hr as [Hx [Ht Hin]%list_elem_of_filter]. destruct (ud_pages _ _ Hu _ r Hin Hx) as [Hrel _].
      split; [by eapply undo_relation|]. split; [done|]. exists r. split; [done|]. rewrite written_on_true. split; [done|].
      destruct r as [e|b]; cbn in Ht |- *; [by apply bool_decide_eq_true in Ht as ->|]. by apply andb_true_iff in Ht as [?%bool_decide_eq_true _]. }
    unfold undone_row. destruct (page_slots (page_of h0 id) hd !! j) as [[| | |t]|]; try done. by rewrite Hnone.
Qed.

(** What the rollback does to the row at [tid]. *)
Definition row_restored (tid : TupleId) (before after : option slot_view) : Prop :=
  let recs := slot_records (relation_undo h0 (pg_relation (tid_page tid))) tid in
  (Forall (fun r => rec_writer r <> xid) recs -> after = before) /\
  forall hdr p ws us,
    header_wf hdr -> payload_ok p -> slot_history tid p (ws ++ us) -> recs = (ws ++ us).*1 ->
    Forall (fun w => rec_writer w.1 <> xid) ws -> Forall (fun w => rec_writer w.1 = xid) us -> us <> [] ->
    before = Some (SLive (thbytes hdr ++ payload_after p (ws ++ us))) ->
    after = Some (SLive (thbytes (cleared hdr (negb (is_nil ws))) ++
                         take 9 (payload_after p ws) ++ drop 9 (payload_after p (ws ++ us)))).

Lemma undone_split tid log (ws us : list (Rec * list Z)) :
  slot_records log tid = (ws ++ us).*1 ->
  Forall (fun w => rec_writer w.1 <> xid) ws -> Forall (fun w => rec_writer w.1 = xid) us -> undone xid log tid = us.*1.
Proof.
  intros Hr Hws Hus. unfold undone. rewrite Hr, fmap_app, filter_app.
  assert (filter (fun r => rec_writer r = xid) ws.*1 = []) as ->.
  { clear -Hws. induction Hws as [|w ws Hw _ IH]; [done|]. cbn [fmap list_fmap]. by rewrite filter_cons_False. }
  cbn [app]. clear -Hus. induction Hus as [|w us Hw _ IH]; [done|]. cbn [fmap list_fmap]. rewrite filter_cons_True by done. by f_equal.
Qed.

Lemma row_rolled_back tid : log_wf (relation_undo h0 (pg_relation (tid_page tid))) ->
  forall before after, (match before with Some (SLive t) => after = Some (SLive (undone_row xid (tid_page tid) (log0 h0 (tid_page tid)) (tid_slot tid) t)) | v => after = v end) ->
  (forall r, r ∈ records (relation_undo h0 (pg_relation (tid_page tid))) -> rec_writer r = xid -> rec_ok r) ->
  row_restored tid before after.
Proof.
  intros Hw before after Hba Hok. split.
  - intros Hf. destruct before as [[| | |t]|]; try done. rewrite Hba. unfold undone_row, undone.
    assert (Htid : mk_TupleId (tid_page tid) (tid_slot tid) = tid) by (by destruct tid). rewrite Htid.
    assert (filter (fun r => rec_writer r = xid) (slot_records (log0 h0 (tid_page tid)) tid) = []) as ->; [|done].
    unfold log0. induction Hf as [|r rs Hr _ IH]; [done|]. by rewrite filter_cons_False.
  - intros hdr p ws us Hwf Hp Hh Hr Hws Hus Hne ->. rewrite Hba. do 2 f_equal. unfold undone_row, keeps_history.
    assert (Htid : mk_TupleId (tid_page tid) (tid_slot tid) = tid) by (by destruct tid). rewrite Htid.
    rewrite history_records by done. pose proof (undone_split tid (log0 h0 (tid_page tid)) ws us Hr Hws Hus) as Hun. rewrite Hun.
    pose proof (history_ok _ _ _ Hp Hh) as [Hl9 _]. apply history_app in Hh as [Hhw Hhu]. pose proof (history_ok _ _ _ Hp Hhw) as Hpw.
    unfold log0. rewrite Hr. rewrite undo_row; [|done| |done|].
    + rewrite (inverse_all tid (payload_after p ws) us); [|done|done|done|by rewrite payload_after_app].
      do 3 f_equal. rewrite fmap_app, existsb_app. clear -Hws Hus.
      assert (existsb (fun r => negb (rec_writer r =? xid)) us.*1 = false) as ->.
      { induction Hus as [|w us Hw _ IH]; [done|]. cbn [fmap list_fmap existsb]. apply Z.eqb_eq in Hw. by rewrite Hw. }
      rewrite orb_false_r. destruct Hws as [|w ws Hw _]; [done|]. cbn [fmap list_fmap existsb is_nil negb]. apply Z.eqb_neq in Hw. by rewrite Hw.
    + apply Forall_reverse, Forall_forall. intros r Hin. apply Hok.
      * rewrite <- Hun in Hin. apply list_elem_of_filter in Hin as [_ [_ Hin]%list_elem_of_filter]. done.
      * rewrite <- Hun in Hin. by apply list_elem_of_filter in Hin as [Hx _].
    + rewrite <- (reverse_involutive []). intros Hnil%(inj reverse). destruct us; done.
Qed.

End rollback.
