(* ===== verification/HeapVacuum.v ===== *)
(** * Vacuum of the heap (ultrasql-storage, heap/vacuum.rs)

    Reclaiming the slots of dead rows, certifying pages for the visibility
    map, and trimming the undo log. *)

From S2P Require Import Prelude CoreIds TupleHeader Snapshot Visibility Bytes Page HeapMaps UndoLog Heap HeapScan HeapInPlace.

Record VacuumStats := mk_VacuumStats { pages_compacted : Z; tuples_reclaimed : Z }.
Definition VacuumStats_default : VacuumStats := mk_VacuumStats 0 0.

Definition checked_heap_u32_count_add (current delta : Z) (error : string) : result Z HeapError :=
  ok_or (checked_add U32 current delta) (HMalformedHeader error).

Definition is_committed {X} `{XidStatusOracle X} (oracle : X) (x : Xid) : bool := is_resolved_committed (status oracle x).
Definition is_aborted {X} `{XidStatusOracle X} (oracle : X) (x : Xid) : bool :=
  match status oracle x with Aborted => true | _ => false end.

Section vacuum.
Context {W X : Type} `{XidStatusOracle X} (oldest_active_xid : Xid) (oracle : X).

(** ** Reclaiming dead rows *)

(** The tests on a row that fits its page; [xmax] is read before the header
    is decoded. *)
Definition dead_row (slot_bytes : list Z) : bool :=
  let xmax_raw := zread 8 8 slot_bytes in
  if xmax_raw =? 0 then false else
  if oldest_active_xid <=? xmax_raw then false else
  if negb (is_committed oracle xmax_raw) then false else
  match decode (take TUPLE_HEADER_SIZE slot_bytes) with
  | None => false
  | Some (hdr, _) =>
      if mask_contains (infomask hdr) UPDATED_IN_PLACE then false else
      if negb (Z.land (infomask hdr) (Z.lor UPDATED HOT_UPDATED) =? 0) then false else
      negb (is_alive hdr)
  end.

Fixpoint dead_slots (page : Page) (slots : list Z) : option (list Z) :=
  match slots with
  | [] => Some []
  | slot :: slots' =>
      found ← probe_slot page slot;
      rest ← dead_slots page slots';
      Some (match found with
            | PTuple offset length => if dead_row (zslice offset (offset + length) page) then slot :: rest else rest
            | PSkip | PShort => rest
            end)
  end.

Fixpoint delete_tuples (id : PageId) (slots : list Z) : HM W HeapError unit :=
  match slots with
  | [] => mret tt
  | slot :: slots' =>
      page ← guard_page id;
      put_result id (delete_tuple page slot);;
      delete_tuples id slots'
  end.

Definition vacuum_page (id : PageId) (stats : VacuumStats) : HM W HeapError VacuumStats :=
  get_page id;;
  page ← guard_page id;
  header ← hor_panic (page_header page);
  n ← hor_panic (slot_count header);
  dead ← hor_panic (dead_slots page (slots_below n));
  if is_nil dead then mret stats else
  let reclaimed := Z.of_nat (length dead) in
  if U32 <=? reclaimed then hthrow (HMalformedHeader "vacuum stat overflow") else
  next_tuples ← hlift (checked_heap_u32_count_add (tuples_reclaimed stats) reclaimed "vacuum stat overflow");
  next_pages ← hlift (checked_heap_u32_count_add (pages_compacted stats) 1 "vacuum stat overflow");
  delete_tuples id dead;;
  page ← guard_page id;
  put_result id (compact page);;
  mret (mk_VacuumStats next_pages next_tuples).

Fixpoint vacuum_blocks (rel : Z) (blocks : list Z) (stats : VacuumStats) : HM W HeapError VacuumStats :=
  match blocks with
  | [] => mret stats
  | block :: blocks' => stats ← vacuum_page (mk_PageId rel block) stats; vacuum_blocks rel blocks' stats
  end.

(** [wal] tells whether the pool has a log. *)
Definition vacuum_heap (wal : bool) (rel : Z) : HM W HeapError VacuumStats :=
  if wal then mret VacuumStats_default else
  n ← gets (fun h => block_count h rel);
  vacuum_blocks rel (seqZ 0 n) VacuumStats_default.

(** ** Certifying pages *)

Definition xmin_all_visible (xmin : Xid) : bool :=
  (xmin =? Xid_FROZEN) || ((xmin <? oldest_active_xid) && is_committed oracle xmin).

Definition xmax_all_visible (xmax : Xid) (mask : Z) : bool :=
  Xid_is_invalid xmax ||
  ((xmax <? oldest_active_xid) &&
   (is_aborted oracle xmax || (mask_contains mask UPDATED_IN_PLACE && is_committed oracle xmax))).

Definition row_all_visible (slot_bytes : list Z) : bool :=
  match decode (take TUPLE_HEADER_SIZE slot_bytes) with
  | None => false
  | Some (hdr, _) => xmin_all_visible (xmin hdr) && xmax_all_visible (xmax hdr) (infomask hdr)
  end.

(** The loop over the slots, which stops at the first that fails. *)
Fixpoint page_all_visible (page : Page) (slots : list Z) : option bool :=
  match slots with
  | [] => Some true
  | slot :: slots' =>
      found ← probe_slot page slot;
      match found with
      | PSkip => page_all_visible page slots'
      | PShort => Some false
      | PTuple offset length =>
          if row_all_visible (zslice offset (offset + length) page) then page_all_visible page slots' else Some false
      end
  end.

Definition certify_page (rel block : Z) (marked : Z) : HM W HeapError Z :=
  get_page (mk_PageId rel block);;
  page ← guard_page (mk_PageId rel block);
  header ← hor_panic (page_header page);
  n ← hor_panic (slot_count header);
  all_visible ← hor_panic (page_all_visible page (slots_below n));
  if all_visible : bool then
    next_marked ← hlift (checked_heap_u32_count_add marked 1 "visibility mark count overflow");
    modify (fun h => with_vm h (mark_all_visible rel block (h_vm h)));;
    mret next_marked
  else
    modify (fun h => with_vm h (vm_clear rel block (h_vm h)));;
    mret marked.

Fixpoint certify_blocks (rel : Z) (blocks : list Z) (marked : Z) : HM W HeapError Z :=
  match blocks with
  | [] => mret marked
  | block :: blocks' => marked ← certify_page rel block marked; certify_blocks rel blocks' marked
  end.

Definition vacuum_mark_all_visible (rel block_count : Z) : HM W HeapError Z :=
  certify_blocks rel (seqZ 0 block_count) 0.

(** ** Trimming the undo log *)

Fixpoint retained_slots (total : Z) (batches : list Int32PairUndoBatch) : result Z HeapError :=
  match batches with
  | [] => Ok total
  | b :: batches' =>
      let? total := checked_heap_count_add total (slot_len b) "undo slot count overflow" in
      retained_slots total batches'
  end.

Definition trim_relation (rel : Z) (total_trimmed : Z) : HM W HeapError Z :=
  log ← gets (fun h => relation_undo h rel);
  if undo_is_empty log then mret total_trimmed else
  before_slots ← hlift (retained_slots 0 (rc_items (ul_batches log)));
  let '((trimmed_entries, _), log') := trim_below oldest_active_xid log in
  set_relation_undo rel log';;
  total_trimmed ← hlift (checked_heap_count_add total_trimmed trimmed_entries "undo trim count overflow");
  after_slots ← hlift (retained_slots 0 (rc_items (ul_batches log')));
  if before_slots <? after_slots then hthrow (HMalformedHeader "undo trim count underflow") else
  hlift (checked_heap_count_add total_trimmed (before_slots - after_slots) "undo trim count overflow").

Fixpoint trim_relations (rels : list Z) (total_trimmed : Z) : HM W HeapError Z :=
  match rels with
  | [] => mret total_trimmed
  | rel :: rels' => total ← trim_relation rel total_trimmed; trim_relations rels' total
  end.

(** The relations in the order of a hash map's iteration. *)
Definition vacuum_undo_log : HM W HeapError Z :=
  rels ← gets (fun h => (map_to_list (h_undo h)).*1);
  trim_relations rels 0.
End vacuum.

(** ** Accessors *)

Definition undo_log_len {W} (h : Heap W) (rel : Z) : nat :=
  match h_undo h !! rel with Some log => entries_len log | None => 0%nat end.
Definition int32_pair_undo_batch_len {W} (h : Heap W) (rel : Z) : nat :=
  match h_undo h !! rel with Some log => int32_pair_batches_len log | None => 0%nat end.
Definition int32_pair_undo_slot_len {W} (h : Heap W) (rel : Z) : Z :=
  match h_undo h !! rel with
  | Some log =>
      foldr (fun bm total => slot_len bm.1 + total) 0
        (filter (fun bm => md_active bm.2 = true) (zip (rc_items (ul_batches log)) (rc_meta (ul_batches log))))
  | None => 0
  end.
