(* ===== verification/HeapVacuumSpec.v ===== *)
(** * Vacuum below the horizon

    What a vacuum below a horizon knows of a live reader, and its three
    passes one by one: the undo log, the dead rows, the visibility map. *)

From S2P Require Import Prelude CoreIds TupleHeader Snapshot Visibility Bytes Page PageSpec HeapMaps UndoLog UndoLogSpec UndoRead Heap HeapRedo HeapPage HeapTrace HeapLogic HeapInsert HeapScan HeapScanRefine HeapInPlace HeapVacuum.

(** A reader that still runs, and a horizon below its snapshot. *)
Record live_reader {X} `{XidStatusOracle X} (s : Snapshot) (o : X) (oldest : Xid) : Prop := {
  lr_ok : reader_ok s;
  lr_own : forall x, own s x -> status o x = InProgress;
  lr_rolled : forall x, rolled_back s x -> status o x = Aborted;
  lr_horizon : oldest <= snap_xmin s;
  lr_frozen : status o Xid_FROZEN = Frozen;
  lr_base : Xid_FROZEN < oldest;
  lr_invalid : status o Xid_INVALID = InProgress;
}.

Section horizon.
Context {W X : Type} `{XidStatusOracle X} (s : Snapshot) (o : X) (oldest : Xid).
Hypothesis Hlive : live_reader s o oldest.

(** What committed below the horizon is in every reader's past. *)
Lemma old_committed x :
  x < oldest -> is_committed o x = true ->
  is_current_xid s x = false /\ own_subxid_rolled_back s x = false /\ is_committed_before_snapshot x s o = true /\
  Xid_is_invalid x = false.
Proof.
  intros Hx Hc. destruct (lr_ok _ _ _ Hlive) as [Hwf _]. pose proof (lr_horizon _ _ _ Hlive) as Hh. unfold is_committed in Hc.
  split; [|split; [|split]].
  - destruct (own_reflect s x Hwf) as [Ho|]; [|done]. by rewrite (lr_own _ _ _ Hlive x Ho) in Hc.
  - destruct (rolled_back_reflect s x Hwf) as [Ho|]; [|done]. by rewrite (lr_rolled _ _ _ Hlive x Ho) in Hc.
  - apply is_committed_before_spec; [done|]. split; [lia|]. destruct (status o x); try done; [by left|by right].
  - destruct (invalid_reflect x) as [->|]; [|done]. by rewrite (lr_invalid _ _ _ Hlive) in Hc.
Qed.

Lemma old_seen r : rec_writer r < oldest -> is_committed o (rec_writer r) = true -> seen s o r = true.
Proof.
  intros Hx Hc. destruct (old_committed _ Hx Hc) as (Ho & Hr & Hb & _). unfold seen, undo_writer_visible_to_snapshot.
  rewrite Hr, Ho. unfold is_committed_before_snapshot in Hb. destruct (xid_in_progress s _); [done|].
  by destruct (status o (rec_writer r)).
Qed.

(** ** The undo log *)

(** The writers below the horizon have committed: an abort drains its
    records. *)
Definition drained (h : Heap W) : Prop := forall rel,
  log_wf (relation_undo h rel) /\
  (forall r, r ∈ records (relation_undo h rel) -> rec_writer r < oldest -> is_committed o (rec_writer r) = true).

(** The same pages, and an undo log that reads the same. *)
Definition reads_as (h h' : Heap W) : Prop :=
  (forall id, page_of h' id = page_of h id) /\ h_vm h' = h_vm h /\ h_poisoned h' = h_poisoned h /\ h_io h' = h_io h /\
  (forall rel, block_count h' rel = block_count h rel) /\
  forall rel tid cur, undo_pre_image_from_log (relation_undo h' rel) tid cur s o =
                      undo_pre_image_from_log (relation_undo h rel) tid cur s o.

#[global] Instance reads_as_preorder : PreOrder reads_as.
Proof.
  split; [by intros h|]. intros h1 h2 h3 (P1 & V1 & B1 & I1 & C1 & U1) (P2 & V2 & B2 & I2 & C2 & U2).
  split_and!; congruence.
Qed.

Definition trimmed_log (h : Heap W) (rel : Z) : Heap W :=
  with_undo h (<[rel := (trim_below oldest (relation_undo h rel)).2]> (h_undo h)).

Lemma records_trim log : log_wf log ->
  records (trim_below oldest log).2 = filter (fun r => oldest <= rec_writer r) (records log).
Proof.
  intros Hw. destruct (trim_spec oldest log Hw) as [_ Ht]. unfold records. rewrite Ht.
  refine (filter_snd (fun r => oldest <= rec_writer r) (timeline log)).
Qed.

Lemma trimmed_undo h rel rel' :
  relation_undo (trimmed_log h rel) rel' =
    if decide (rel' = rel) then (trim_below oldest (relation_undo h rel)).2 else relation_undo h rel'.
Proof.
  unfold trimmed_log. generalize (trim_below oldest (relation_undo h rel)).2. intros log.
  unfold relation_undo, with_undo. cbn [h_undo].
  case_decide as Hd; [subst; by rewrite lookup_insert_eq|by rewrite lookup_insert_ne].
Qed.

Lemma trimmed_log_ok h rel : drained h ->
  drained (trimmed_log h rel) /\ reads_as h (trimmed_log h rel) /\
  (forall rel' r, r ∈ records (relation_undo (trimmed_log h rel) rel') ->
     r ∈ records (relation_undo h rel') /\ (rel' = rel -> oldest <= rec_writer r)).
Proof.
  intros Hd. destruct (Hd rel) as [Hw Hr]. split; [|split].
  - intros rel'. rewrite trimmed_undo. case_decide as E; [|apply Hd]. subst rel'.
    split; [by apply trim_spec|]. rewrite records_trim by done. intros r [? ?]%list_elem_of_filter. by apply Hr.
  - do 5 (split; [done|]). intros rel' tid cur. rewrite trimmed_undo. case_decide as E; [|done]. subst rel'.
    apply (pre_image_filter s o _ _ tid cur (fun r => oldest <= rec_writer r)); [done|by apply trim_spec|by apply records_trim|].
    intros r [_ Hin]%list_elem_of_filter Hn. apply old_seen; [lia|]. apply Hr; [done|lia].
  - intros rel' r. rewrite trimmed_undo. case_decide as E; [|naive_solver]. subst rel'.
    rewrite records_trim by done. intros [? ?]%list_elem_of_filter. done.
Qed.

Lemma undo_is_empty_records log : undo_is_empty log = true -> records log = [].
Proof.
  unfold undo_is_empty, records, timeline, actives, pairs. intros [He Hb]%andb_prop.
  destruct (rc_items (ul_entries log)); [|done]. destruct (rc_items (ul_batches log)); [|done]. done.
Qed.

Lemma trim_relation_run h rel total :
  exists r h', trim_relation oldest rel total h = Some (r, h') /\
    ((h' = h /\ (undo_is_empty (relation_undo h rel) = true \/ exists e, r = Err e)) \/ h' = trimmed_log h rel).
Proof.
  unfold trim_relation, mbind, HM_bind, gets. destruct (undo_is_empty (relation_undo h rel)) eqn:Ee.
  { eexists _, h. split; [reflexivity|]. left. split; [done|by left]. }
  unfold hlift. destruct (retained_slots 0 (rc_items (ul_batches (relation_undo h rel)))) as [before|e].
  2: { eexists _, h. split; [reflexivity|]. left. split; [done|right; by eexists]. }
  unfold trimmed_log. destruct (trim_below oldest (relation_undo h rel)) as [[te tb] log']. cbn [fst snd].
  destruct (checked_heap_count_add total te _) as [t1|e]; [|eexists _, _; split; [reflexivity|by right]].
  destruct (retained_slots 0 (rc_items (ul_batches log'))) as [after|e]; [|eexists _, _; split; [reflexivity|by right]].
  destruct (before <? after); eexists _, _; (split; [reflexivity|by right]).
Qed.

Definition old_free (h : Heap W) (rel : Z) : Prop := forall r, r ∈ records (relation_undo h rel) -> oldest <= rec_writer r.

Lemma trim_relations_run rels h total : drained h ->
  exists r h', trim_relations oldest rels total h = Some (r, h') /\ reads_as h h' /\ drained h' /\
    (forall rel, old_free h rel -> old_free h' rel) /\
    (forall k, r = Ok k -> forall rel, rel ∈ rels -> old_free h' rel).
Proof.
  revert h total. induction rels as [|rel rels IH]; intros h total Hd.
  { exists (Ok total), h. split_and!; try done. intros k _ rel Hin. by apply not_elem_of_nil in Hin. }
  destruct (trim_relation_run h rel total) as (r & h1 & E & Hh1).
  assert (Hstep : drained h1 /\ reads_as h h1 /\ (forall rel', old_free h rel' -> old_free h1 rel') /\
                  ((exists e, r = Err e) \/ old_free h1 rel)).
  { destruct Hh1 as [[-> Hc]| ->].
    - split_and!; try done. destruct Hc as [Hc|]; [|by left]. right. intros q. rewrite undo_is_empty_records by done.
      intros Hq. by apply not_elem_of_nil in Hq.
    - destruct (trimmed_log_ok h rel Hd) as (H1 & H2 & H3). split; [done|]. split; [done|]. split.
      + intros rel' Ho q [Hq _]%H3. by apply Ho.
      + right. intros q [_ Hq]%H3. by apply Hq. }
  destruct Hstep as (Hd1 & Hr1 & Hk1 & Ho1). cbn [trim_relations]. unfold mbind, HM_bind. rewrite E.
  destruct r as [t1|e].
  - destruct (IH h1 t1 Hd1) as (r & h2 & E2 & Hr2 & Hd2 & Hk2 & Ho2). exists r, h2. split; [done|].
    split; [by etrans|]. split; [done|]. split; [by eauto|]. intros k Hk rel' [->|Hin]%elem_of_cons; [|by eapply Ho2].
    apply Hk2. destruct Ho1 as [[e He]|]; [discriminate He|done].
  - exists (Err e), h1. split_and!; try done.
Qed.

Lemma undo_vacuum_run h : drained h ->
  exists r h', vacuum_undo_log oldest h = Some (r, h') /\ reads_as h h' /\ drained h' /\
    (forall k, r = Ok k -> forall rel, old_free h' rel).
Proof.
  intros Hd. unfold vacuum_undo_log, gets, mbind, HM_bind.
  destruct (trim_relations_run (map_to_list (h_undo h)).*1 h 0 Hd) as (r & h' & E & Hr & Hd' & Hk & Ho).
  exists r, h'. split_and!; try done. intros k Ek rel.
  destruct (h_undo h !! rel) as [log|] eqn:El.
  - apply (Ho k Ek). apply list_elem_of_fmap. exists (rel, log). by rewrite elem_of_map_to_list.
  - apply Hk. unfold old_free, relation_undo. rewrite El. intros q Hq. cbn in Hq. by apply not_elem_of_nil in Hq.
Qed.

Lemma reads_as_rows h h' rel n : reads_as h h' -> visible_rows s o h' rel n = visible_rows s o h rel n.
Proof.
  intros (Hp & _ & _ & _ & _ & Hu). unfold visible_rows, blocks_out. generalize (seqZ 0 (n - 0)). intros l.
  induction l as [|b l IH]; [done|]. cbn [mbind list_bind]. f_equal; [|done]. unfold block_out. rewrite Hp.
  generalize (drop (Z.to_nat 0) (slots_of (page_of h (mk_PageId rel b)))). intros vs. generalize 0.
  induction vs as [|v vs IHv]; intros i; [done|]. cbn [slots_out]. f_equal; [|done].
  unfold slot_out, row_payload. destruct v as [| | |t]; try done. destruct (decode _) as [[hdr k]|]; [|done]. by rewrite Hu.
Qed.
End horizon.

(** * Reclaiming the rows no reader can see

    The heap pass of a vacuum: on each page it turns the slots of the rows
    that are dead below the horizon into free slots, moves the others, and
    changes nothing a live reader reads. *)

(** What a vacuum relies on of a row: a frozen row is not deleted, and a row
    of the reader was deleted by nobody else. *)
Definition row_ok (s : Snapshot) (hdr : TupleHeader) : Prop :=
  Visibility.header_ok s hdr /\ (mask_is_frozen (infomask hdr) = true -> xmax hdr = Xid_INVALID).

Section reclaim.
Context {W X : Type} `{XidStatusOracle X} (oldest : Xid) (o : X).

(** ** A page *)

Definition dead_view (v : slot_view) : bool := match v with SLive t => dead_row oldest o t | _ => false end.

(** A slot before and after a vacuum. *)
Definition swept (v v' : slot_view) : Prop :=
  v' = v \/ ((forall t, v' <> SLive t) /\ forall t, v = SLive t -> dead_row oldest o t = true).

#[local] Instance swept_preorder : PreOrder swept.
Proof.
  split; [by left|]. intros v1 v2 v3 [->|[H1 H2]]; [done|]. intros [->|[H3 _]]; [by right|]. by right.
Qed.

Lemma swept_live v t : swept v (SLive t) -> v = SLive t.
Proof. intros [->|[Hn _]]; [done|]. by destruct (Hn t). Qed.

Lemma swept_bury v v' : swept v v' -> swept v (bury v').
Proof. intros Hs. destruct v'; try done. destruct Hs as [<-|[? ?]]; by right. Qed.

Lemma dead_slots_eq p hd slots :
  hpage p hd -> (forall i, i ∈ slots -> 0 <= i < n_slots hd) ->
  dead_slots oldest o p slots = Some (filter (fun i => dead_view (view p i) = true) slots).
Proof.
  intros Hp. induction slots as [|i slots IH]; intros Hi; [done|]. cbn [dead_slots].
  pose proof (probe_page p hd i Hp (Hi i (list_elem_of_here _ _))) as Hpr.
  rewrite IH by (intros j Hj; apply Hi; by right). rewrite filter_cons.
  assert (dead_view (view p i) = match view p i with SLive t => dead_row oldest o t | _ => false end) as -> by done.
  destruct (view p i) as [| | |t]; try (by rewrite Hpr).
  destruct Hpr as (hdr & _ & _ & -> & Hz & _). cbn [mbind option_bind]. rewrite Hz. by destruct (dead_row oldest o t).
Qed.

(** The heap with other bytes in the pages. *)
Definition repaged (h h' : Heap W) : Prop := h' = with_pages h (h_pages h').

Lemma put_page_of (h : Heap W) id p id' :
  page_of (with_pages h (<[id := p]> (h_pages h))) id' = if decide (id' = id) then p else page_of h id'.
Proof.
  unfold page_of. cbn. case_decide; [subst; by rewrite lookup_insert_eq|by rewrite lookup_insert_ne].
Qed.

Lemma delete_tuples_run ds h id hd :
  page_ok (page_of h id) hd -> NoDup ds ->
  (forall i, i ∈ ds -> 0 <= i /\ exists t, page_slots (page_of h id) hd !! Z.to_nat i = Some (SLive t)) ->
  exists h', delete_tuples id ds h = Some (Ok tt, h') /\ repaged h h' /\ page_ok (page_of h' id) hd /\
    (forall id', id' <> id -> page_of h' id' = page_of h id') /\
    forall j, page_slots (page_of h' id) hd !! j =
      if bool_decide (Z.of_nat j ∈ ds) then Some SDead else page_slots (page_of h id) hd !! j.
Proof.
  revert h. induction ds as [|i ds IH]; intros h Hp Hnd Hl.
  { exists h. split; [done|]. split; [by destruct h|]. split; [done|]. split; [done|]. intros j.
    by rewrite bool_decide_false by apply not_elem_of_nil. }
  apply NoDup_cons in Hnd as [Hni Hnd]. destruct (Hl i (list_elem_of_here _ _)) as (Hi & t & Ht).
  pose proof (delete_tuple_spec _ hd i Hp Hi) as Hdel. rewrite Ht in Hdel. destruct Hdel as (p' & E & Hp' & Hs').
  cbn [delete_tuples]. unfold mbind, HM_bind, guard_page, gets, put_result, hor_panic, hlift. rewrite E.
  cbn [put_page modify fst snd result_err]. unfold put_page, modify.
  set (h1 := with_pages h (<[id := p']> (h_pages h))).
  assert (Hid : page_of h1 id = p') by (unfold h1; rewrite put_page_of; by rewrite decide_True by done).
  destruct (IH h1) as (h' & E' & Hr & Hok & Ho & Hs); [by rewrite Hid|done| |].
  { intros j Hj. destruct (Hl j) as [Hj0 [u Hu]]; [by right|]. split; [done|]. exists u. rewrite Hid, Hs'.
    rewrite list_lookup_insert_ne; [done|]. intros Heq. apply Hni. by replace i with j by lia. }
  exists h'. split; [exact E'|]. split; [unfold repaged in *; by rewrite Hr|]. split; [done|]. split.
  - intros id' Hne. rewrite Ho by done. unfold h1. rewrite put_page_of. by rewrite decide_False by done.
  - intros j. rewrite Hs, Hid, Hs'. destruct (decide (Z.of_nat j = i)) as [Hj|Hj].
    + subst i. rewrite (bool_decide_true (Z.of_nat j ∈ _ :: ds)) by set_solver. case_bool_decide; [done|].
      rewrite Nat2Z.id. apply list_lookup_insert_eq. rewrite Nat2Z.id in Ht. by eapply lookup_lt_Some.
    + rewrite list_lookup_insert_ne by lia. by rewrite (bool_decide_ext (Z.of_nat j ∈ i :: ds) (Z.of_nat j ∈ ds)) by set_solver.
Qed.

(** ** A table *)

Definition clean (h : Heap W) (id : PageId) : Prop :=
  forall t, SLive t ∈ slots_of (page_of h id) -> dead_row oldest o t = false.

Record swept_heap (h h' : Heap W) : Prop := {
  sh_pages : repaged h h';
  sh_slots : forall id, Forall2 swept (slots_of (page_of h id)) (slots_of (page_of h' id));
  sh_hpage : forall id, (exists hd, hpage (page_of h id) hd) -> exists hd, hpage (page_of h' id) hd;
}.

#[local] Instance swept_heap_preorder : PreOrder swept_heap.
Proof.
  split.
  - intros h. split; [by destruct h|reflexivity|done].
  - intros h1 h2 h3 [P1 S1 H1] [P2 S2 H2]. split; [unfold repaged in *; by rewrite P2, P1| |by auto].
    intros id. etrans; [apply S1|apply S2].
Qed.

Lemma swept_clean h h' id : swept_heap h h' -> clean h id -> clean h' id.
Proof.
  intros Hs Hc t [i Ht]%list_elem_of_lookup. apply Hc.
  destruct (Forall2_lookup_r _ _ _ _ _ (sh_slots _ _ Hs id) Ht) as (v & Hv & Hsw). apply swept_live in Hsw as ->.
  by eapply list_elem_of_lookup_2.
Qed.

(** A page whose dead rows were deleted, after compaction. *)
Lemma buried_swept p p1 p2 hd hd2 ds :
  page_ok p hd -> ds = filter (fun i => dead_view (view p i) = true) (slots_below (n_slots hd)) ->
  (forall j, page_slots p1 hd !! j = if bool_decide (Z.of_nat j ∈ ds) then Some SDead else page_slots p hd !! j) ->
  page_slots p2 hd2 = map bury (page_slots p1 hd) ->
  Forall2 swept (page_slots p hd) (page_slots p2 hd2) /\
  forall t, SLive t ∈ page_slots p2 hd2 -> SLive t ∈ page_slots p hd /\ dead_row oldest o t = false.
Proof.
  intros Hp Hds H1 H2. destruct (lower_slots _ (page_header_ok _ _ Hp)) as [_ Hn].
  assert (Hat : forall j v, page_slots p hd !! j = Some v -> Z.of_nat j ∈ ds <-> dead_view v = true).
  { intros j v Hv. rewrite page_slots_lookup in Hv by done. case_decide as Hj; [|done]. injection Hv as <-.
    rewrite Hds, list_elem_of_filter. unfold slots_below. rewrite elem_of_seqZ. split; [tauto|]. intros ?. split; [done|lia]. }
  assert (Hlen : forall j, page_slots p hd !! j = None -> Z.of_nat j ∉ ds).
  { intros j Hv. rewrite page_slots_lookup in Hv by done. case_decide as Hj; [done|].
    rewrite Hds, list_elem_of_filter. unfold slots_below. rewrite elem_of_seqZ. intros [_ ?]. lia. }
  assert (page_slots p2 hd2 = (fun v => bury (if dead_view v then SDead else v)) <$> page_slots p hd) as ->.
  { apply list_eq. intros j. rewrite H2. change (map bury) with (fmap (M := list) bury). rewrite !list_lookup_fmap, H1.
    destruct (page_slots p hd !! j) as [v|] eqn:Ev; cbn.
    - rewrite (bool_decide_ext _ _ (Hat j v Ev)). by destruct (dead_view v).
    - by rewrite bool_decide_false by (by apply Hlen). }
  split.
  - rewrite Forall2_fmap_r. apply Forall_Forall2_diag, Forall_forall. intros v _. apply swept_bury.
    destruct (dead_view v) eqn:Ed; [|by left]. right. split; [done|]. intros t ->. done.
  - intros t [v [Hv Hin]]%list_elem_of_fmap. destruct (dead_view v) eqn:Ed; [done|]. destruct v; try done.
    injection Hv as ->. done.
Qed.

Lemma vacuum_page_run h id hd st :
  h_poisoned h = false -> h_io h = [] -> hpage (page_of h id) hd ->
  exists r h', vacuum_page oldest o id st h = Some (r, h') /\ swept_heap h h' /\
    (forall st', r = Ok st' -> clean h' id) /\
    (0 <= tuples_reclaimed st -> 0 <= pages_compacted st -> tuples_reclaimed st + 4096 < U32 -> pages_compacted st + 1 < U32 ->
     exists st', r = Ok st' /\ tuples_reclaimed st <= tuples_reclaimed st' <= tuples_reclaimed st + 4096 /\
       pages_compacted st <= pages_compacted st' <= pages_compacted st + 1).
Proof.
  intros Hpo Hio Hp. pose proof (hp_ok _ _ Hp) as Hok. pose proof (page_header_ok _ _ Hok) as Hh.
  pose proof (n_slots_bound _ _ Hp) as Hn. unfold vacuum_page, mbind, HM_bind, get_page. rewrite Hpo, Hio.
  unfold guard_page, gets, hor_panic. rewrite (page_header_eq _ _ Hok), (slot_count_eq _ Hh).
  rewrite (dead_slots_eq _ hd _ Hp) by (intros i Hi%elem_of_seqZ; lia).
  set (ds := filter (fun i => dead_view (view (page_of h id) i) = true) (slots_below (n_slots hd))).
  assert (Hds : Z.of_nat (length ds) <= 4096).
  { assert (length ds <= length (slots_below (n_slots hd)))%nat as Hl by apply length_filter.
    unfold slots_below in Hl. rewrite length_seqZ in Hl. lia. }
  destruct (is_nil ds) eqn:En.
  { exists (Ok st), h. split; [done|]. split; [reflexivity|]. split; [|intros; exists st; split; [done|lia]].
    intros st' _ t [i Ht]%list_elem_of_lookup. destruct (dead_row oldest o t) eqn:Ed; [|done]. exfalso.
    rewrite (slots_of_eq _ _ Hok), page_slots_lookup in Ht by lia. case_decide as Hi; [|done]. injection Ht as Ht.
    assert (Z.of_nat i ∈ ds) as Hin.
    { apply list_elem_of_filter. rewrite Ht. split; [done|]. apply elem_of_seqZ. lia. }
    destruct ds; [by apply not_elem_of_nil in Hin|done]. }
  rewrite (proj2 (Z.leb_gt _ _)) by (unfold U32; lia). unfold hlift, checked_heap_u32_count_add, checked_add.
  destruct (Z.ltb_spec (tuples_reclaimed st + Z.of_nat (length ds)) U32) as [Ht|Ht]; cbn [ok_or].
  2: { eexists _, h. split; [done|]. split; [reflexivity|]. split; [done|lia]. }
  destruct (Z.ltb_spec (pages_compacted st + 1) U32) as [Hc|Hc]; cbn [ok_or].
  2: { eexists _, h. split; [done|]. split; [reflexivity|]. split; [done|lia]. }
  destruct (delete_tuples_run ds h id hd Hok) as (h1 & E1 & Hr1 & Hok1 & Ho1 & Hs1).
  { apply NoDup_filter, NoDup_seqZ. }
  { intros i [Hd Hi]%list_elem_of_filter. apply elem_of_seqZ in Hi. split; [lia|].
    rewrite page_slots_lookup, decide_True, Z2Nat.id by lia. destruct (view (page_of h id) i) as [| | |t]; try done. by exists t. }
  rewrite E1. destruct (compact_spec _ _ Hok1) as (p2 & hd2 & E2 & Hok2 & _ & _ & _ & _ & Hs2 & _).
  unfold put_result, mbind, HM_bind, hor_panic, hlift. rewrite E2. cbn [fst snd result_err]. unfold put_page, modify.
  set (h2 := with_pages h1 (<[id := p2]> (h_pages h1))).
  assert (Hat : forall id', page_of h2 id' = if decide (id' = id) then p2 else page_of h id').
  { intros id'. unfold h2. rewrite put_page_of. case_decide; [done|by apply Ho1]. }
  destruct (buried_swept _ _ _ _ _ _ Hok eq_refl Hs1 Hs2) as [Hsw Hlv].
  eexists _, h2. split; [reflexivity|]. split; [split|split].
  - unfold h2, repaged in *. by rewrite Hr1.
  - intros id'. rewrite Hat. case_decide; [subst id'|reflexivity].
    by rewrite (slots_of_eq _ _ Hok), (slots_of_eq _ _ Hok2).
  - intros id' Hex. rewrite Hat. case_decide; [subst id'|done]. exists hd2. split; [done|].
    intros i t Hi%list_elem_of_lookup_2. apply Hlv in Hi as [[j Hj]%list_elem_of_lookup _]. by eapply (hp_tuples _ _ Hp).
  - intros st' _ t. rewrite Hat, decide_True by done. rewrite (slots_of_eq _ _ Hok2). intros Hi. by apply Hlv.
  - intros. eexists. split; [reflexivity|]. cbn. lia.
Qed.

Lemma vacuum_blocks_run rel bs h st :
  h_poisoned h = false -> h_io h = [] -> (forall b, b ∈ bs -> exists hd, hpage (page_of h (mk_PageId rel b)) hd) ->
  exists r h', vacuum_blocks oldest o rel bs st h = Some (r, h') /\ swept_heap h h' /\
    (forall st', r = Ok st' -> forall b, b ∈ bs -> clean h' (mk_PageId rel b)) /\
    (0 <= tuples_reclaimed st -> 0 <= pages_compacted st ->
     tuples_reclaimed st + 4096 * Z.of_nat (length bs) < U32 -> pages_compacted st + Z.of_nat (length bs) < U32 ->
     exists st', r = Ok st').
Proof.
  revert h st. induction bs as [|b bs IH]; intros h st Hpo Hio Hb.
  { exists (Ok st), h. split; [done|]. split; [reflexivity|]. split; [|by eauto]. intros ? _ b Hin. by apply not_elem_of_nil in Hin. }
  destruct (Hb b (list_elem_of_here _ _)) as [hd Hp].
  destruct (vacuum_page_run h _ hd st Hpo Hio Hp) as (r & h1 & E & Hs1 & Hc1 & Ho1).
  cbn [vacuum_blocks]. unfold mbind, HM_bind. rewrite E. destruct r as [st1|e].
  2: { exists (Err e), h1. split; [done|]. split; [done|]. split; [done|]. cbn [length]. intros H1 H2 H3 H4.
       destruct Ho1 as (? & ? & _); [lia..|done]. }
  assert (h_poisoned h1 = false /\ h_io h1 = []) as [Hpo1 Hio1] by (by rewrite (sh_pages _ _ Hs1)).
  destruct (IH h1 st1 Hpo1 Hio1) as (r & h2 & E2 & Hs2 & Hc2 & Ho2).
  { intros b' Hb'. apply (sh_hpage _ _ Hs1), Hb. by right. }
  exists r, h2. split; [done|]. split; [by etrans|]. split.
  - intros st' Hr b' [->|Hin]%elem_of_cons; [|by eapply Hc2]. eapply swept_clean; [done|by eapply Hc1].
  - cbn [length]. intros H1 H2 H3 H4. destruct Ho1 as (st2 & [= <-] & ? & ?); [lia..|]. apply Ho2; lia.
Qed.

Lemma swept_readable h h' rel n : swept_heap h h' -> readable h rel n -> readable h' rel n.
Proof.
  intros Hs Hr. pose proof (sh_pages _ _ Hs) as Hp. split.
  - rewrite Hp. apply Hr.
  - rewrite Hp. apply Hr.
  - intros b Hb. by apply (sh_hpage _ _ Hs), Hr.
  - unfold relation_undo. rewrite Hp. apply Hr.
  - apply Hr.
Qed.

Lemma vacuum_heap_run h rel n wal :
  readable h rel n -> 0 <= block_count h rel <= n ->
  exists r h', vacuum_heap oldest o wal rel h = Some (r, h') /\ swept_heap h h' /\
    (wal = true -> h' = h) /\
    (forall st, r = Ok st -> wal = false -> forall b, 0 <= b < block_count h rel -> clean h' (mk_PageId rel b)) /\
    (4096 * block_count h rel < U32 -> exists st, r = Ok st).
Proof.
  intros Hr Hn. pose proof (rd_blocks _ _ _ Hr) as Hb. unfold vacuum_heap. destruct wal.
  { eexists _, h. split; [done|]. split; [reflexivity|]. split; [done|]. split; [done|]. intros _. by eexists. }
  unfold mbind, HM_bind, gets.
  destruct (vacuum_blocks_run rel (seqZ 0 (block_count h rel)) h VacuumStats_default) as (r & h' & E & Hs & Hc & Ho);
    [apply Hr..|intros b Hin%elem_of_seqZ; apply Hr; lia|].
  exists r, h'. split; [done|]. split; [done|]. split; [done|]. split.
  - intros st Hst _ b Hlt. eapply Hc; [done|]. apply elem_of_seqZ. lia.
  - intros Hlt. apply Ho; cbn; rewrite ?length_seqZ; lia.
Qed.

(** ** The reader *)

Context (s : Snapshot) (Hlive : live_reader s o oldest).

Lemma dead_row_invisible t hdr :
  Forall is_byte t -> tuple_header t hdr -> row_ok s hdr -> dead_row oldest o t = true -> is_visible hdr s o = Invisible.
Proof using Hlive.
  intros Hb Ht [Hown Hfz] Hd. destruct (header_fields _ _ Hb Ht) as (_ & Hx & _). unfold dead_row in Hd.
  rewrite Hx in Hd. unfold tuple_header in Ht. rewrite Ht in Hd.
  destruct (Z.eqb_spec (xmax hdr) 0) as [|Hn]; [done|]. destruct (Z.leb_spec oldest (xmax hdr)) as [|Hlt]; [done|].
  destruct (is_committed o (xmax hdr)) eqn:Hc; [|done]. cbn [negb] in Hd.
  destruct (mask_contains (infomask hdr) UPDATED_IN_PLACE) eqn:Hip; [done|].
  destruct (old_committed s o oldest Hlive _ Hlt Hc) as (Hcur & Hrb & Hbef & Hinv). destruct (lr_ok _ _ _ Hlive) as [Hwf _].
  unfold is_visible. destruct (mask_is_frozen _); [by rewrite Hfz in Hn|].
  destruct (own_subxid_rolled_back s (xmin hdr)); [done|]. destruct (Xid_is_invalid (xmin hdr)); [done|].
  destruct (own_reflect s (xmin hdr) Hwf) as [Ho|_].
  { destruct (Hown Ho) as [He|[He|He]].
    - done.
    - pose proof (own_reflect s (xmax hdr) Hwf) as Hr. rewrite Hcur in Hr. by inversion Hr.
    - pose proof (rolled_back_reflect s (xmax hdr) Hwf) as Hr. rewrite Hrb in Hr. by inversion Hr. }
  destruct (is_committed_before_snapshot (xmin hdr) s o); [|done]. cbn [negb]. by rewrite Hinv, Hrb, Hip, Hcur, Hbef.
Qed.

Lemma swept_slots log id i vs vs' :
  Forall2 swept vs vs' ->
  (forall t hdr, SLive t ∈ vs -> Forall is_byte t -> tuple_header t hdr -> row_ok s hdr) ->
  (forall t, SLive t ∈ vs -> Forall is_byte t /\ tuple_ok t) ->
  slots_out s o log id i vs' = slots_out s o log id i vs.
Proof using Hlive.
  intros Hs. revert i. induction Hs as [|v v' vs vs' Hv Hs IH]; intros i Hrow Hok; [done|]. cbn [slots_out]. f_equal.
  - destruct Hv as [->|[Hn Hd]]; [done|]. destruct v' as [| | |t']; [| | |by destruct (Hn t')];
      (destruct v as [| | |t]; try done; cbn [slot_out];
       destruct (Hok t (list_elem_of_here _ _)) as [Hb [hdr Hh]]; pose proof Hh as Hh'; unfold tuple_header in Hh'; rewrite Hh';
       unfold row_payload; by rewrite (dead_row_invisible t hdr) by (eauto using list_elem_of_here)).
  - apply IH; intros; [eapply Hrow|apply Hok]; try done; by right.
Qed.

Lemma swept_rows h h' rel n :
  swept_heap h h' -> readable h rel n -> (forall hdr, row_header_of h rel n hdr -> row_ok s hdr) ->
  visible_rows s o h' rel n = visible_rows s o h rel n.
Proof using Hlive.
  intros Hs Hr Hrow. unfold visible_rows, blocks_out. apply Forall_bind_ext, Forall_forall. intros b Hb%elem_of_seqZ.
  assert (relation_undo h' rel = relation_undo h rel) as Hu by (unfold relation_undo; by rewrite (sh_pages _ _ Hs)).
  unfold block_out. rewrite Hu. cbn [drop Z.to_nat]. destruct (rd_pages _ _ _ Hr b) as [hd Hp]; [lia|].
  pose proof (hp_ok _ _ Hp) as Hok. apply swept_slots; [apply (sh_slots _ _ Hs)| |].
  - intros t hdr [i Hi]%list_elem_of_lookup _ Ht. apply Hrow. exists b, i, t. split; [lia|done].
  - intros t [i Hi]%list_elem_of_lookup. rewrite (slots_of_eq _ _ Hok) in Hi. split; [by eapply live_bytes_slots|].
    by eapply (hp_tuples _ _ Hp).
Qed.

End reclaim.

(** * Certifying pages for the visibility map

    After the certification pass of a vacuum the map marks exactly the pages
    on which every row passed the tests, and the rows of a marked page are
    visible, with the bytes of their slots, to every live reader. *)

(** ** The map *)

Lemma marked_visible vm rel block rel' block' :
  0 <= block -> 0 <= block' ->
  is_all_visible rel' block' (mark_all_visible rel block vm) =
    bool_decide (rel' = rel /\ block' = block) || is_all_visible rel' block' vm.
Proof.
  intros Hb Hb'. unfold is_all_visible, mark_all_visible.
  change (get_bits rel' block' (set_bits rel block BIT_VISIBLE vm)) with (vm_bits (set_bits rel block BIT_VISIBLE vm) rel' block').
  rewrite vm_bits_set by (unfold BIT_VISIBLE; lia). unfold vm_bits. case_bool_decide.
  - rewrite decide_True by done. cbn [orb]. rewrite Z.land_lor_distr_l. apply negb_true_iff, Z.eqb_neq.
    intros He%Z.lor_eq_0_iff. destruct He as [_ He]. discriminate He.
  - rewrite decide_False by done. by rewrite Z.lor_0_r.
Qed.

Lemma cleared_visible vm rel block rel' block' :
  0 <= block -> 0 <= block' ->
  is_all_visible rel' block' (vm_clear rel block vm) =
    negb (bool_decide (rel' = rel /\ block' = block)) && is_all_visible rel' block' vm.
Proof.
  intros Hb Hb'. unfold is_all_visible.
  change (get_bits rel' block' (vm_clear rel block vm)) with (vm_bits (vm_clear rel block vm) rel' block').
  rewrite vm_bits_clear by done. unfold vm_bits. case_bool_decide; [by rewrite decide_True by done|by rewrite decide_False by done].
Qed.

Section certify.
Context {W X : Type} `{XidStatusOracle X} (oldest : Xid) (o : X).

(** ** The pass *)

Definition certified (h : Heap W) (rel b : Z) : Prop :=
  forall t, SLive t ∈ slots_of (page_of h (mk_PageId rel b)) -> row_all_visible oldest o t = true.

Lemma page_all_visible_eq p hd slots :
  hpage p hd -> (forall i, i ∈ slots -> 0 <= i < n_slots hd) ->
  exists v, page_all_visible oldest o p slots = Some v /\
    (v = true <-> forall i t, i ∈ slots -> view p i = SLive t -> row_all_visible oldest o t = true).
Proof.
  intros Hp. induction slots as [|i slots IH]; intros Hi.
  { exists true. split; [done|]. split; [|done]. intros _ i t Hin. by apply not_elem_of_nil in Hin. }
  cbn [page_all_visible]. pose proof (probe_page p hd i Hp (Hi i (list_elem_of_here _ _))) as Hpr.
  destruct IH as (v & E & Hv); [intros j Hj; apply Hi; by right|].
  destruct (view p i) as [| | |t] eqn:Ev.
  1-3: rewrite Hpr; cbn [mbind option_bind]; exists v; split; [done|]; rewrite Hv; split;
    [intros Ha j t [->|Hj]%elem_of_cons; [by rewrite Ev|by apply Ha]|intros Ha j t Hj; apply Ha; by right].
  destruct Hpr as (hdr & _ & _ & -> & Hz & _). cbn [mbind option_bind]. rewrite Hz.
  destruct (row_all_visible oldest o t) eqn:Er.
  - exists v. split; [done|]. rewrite Hv. split; [|intros Ha j u Hj; apply Ha; by right].
    intros Ha j u [->|Hj]%elem_of_cons; [|by apply Ha]. rewrite Ev. by intros [= <-].
  - exists false. split; [done|]. split; [done|]. intros Ha. specialize (Ha i t (list_elem_of_here _ _) Ev). congruence.
Qed.

Definition revised (h h' : Heap W) : Prop := h' = with_vm h (h_vm h').

Lemma certify_page_run h rel b marked :
  h_poisoned h = false -> h_io h = [] -> 0 <= b -> (exists hd, hpage (page_of h (mk_PageId rel b)) hd) ->
  0 <= marked -> marked + 1 < U32 ->
  exists m h', certify_page oldest o rel b marked h = Some (Ok m, h') /\ revised h h' /\ marked <= m <= marked + 1 /\
    forall rel' b', 0 <= b' -> is_all_visible rel' b' (h_vm h') = true <->
      if decide (rel' = rel /\ b' = b) then certified h rel b else is_all_visible rel' b' (h_vm h) = true.
Proof.
  intros Hpo Hio Hb [hd Hp] Hm Hlt. pose proof (hp_ok _ _ Hp) as Hok. pose proof (page_header_ok _ _ Hok) as Hh.
  pose proof (n_slots_bound _ _ Hp) as Hn. unfold certify_page, mbind, HM_bind, get_page. rewrite Hpo, Hio.
  unfold guard_page, gets, hor_panic. rewrite (page_header_eq _ _ Hok), (slot_count_eq _ Hh).
  destruct (page_all_visible_eq (page_of h (mk_PageId rel b)) hd (slots_below (n_slots hd)) Hp) as (v & E & Hv);
    [intros i Hi%elem_of_seqZ; lia|]. rewrite E.
  assert (Hc : v = true <-> certified h rel b).
  { rewrite Hv. unfold certified. rewrite (slots_of_eq _ _ Hok). split.
    - intros Ha t [i Hi]%list_elem_of_lookup. rewrite page_slots_lookup in Hi by lia. case_decide; [|done].
      injection Hi as Hi. eapply (Ha (Z.of_nat i)); [apply elem_of_seqZ; lia|done].
    - intros Ha i t Hi%elem_of_seqZ Ht. apply Ha. apply (list_elem_of_lookup_2 _ (Z.to_nat i)).
      rewrite page_slots_lookup, decide_True, Z2Nat.id by lia. by rewrite Ht. }
  destruct v.
  - unfold hlift, checked_heap_u32_count_add, checked_add. rewrite (proj2 (Z.ltb_lt _ _)) by lia. cbn [ok_or].
    eexists _, _. split; [reflexivity|]. split; [done|]. split; [lia|]. intros rel' b' Hb'. cbn [h_vm with_vm].
    rewrite marked_visible by done. case_decide; [rewrite bool_decide_true by done|by rewrite bool_decide_false by done].
    cbn [orb]. tauto.
  - eexists _, _. split; [reflexivity|]. split; [done|]. split; [lia|]. intros rel' b' Hb'. cbn [h_vm with_vm].
    rewrite cleared_visible by done. case_decide; [rewrite bool_decide_true by done|by rewrite bool_decide_false by done].
    cbn [negb andb]. rewrite <- Hc. done.
Qed.

Lemma certify_blocks_run rel bs h marked :
  h_poisoned h = false -> h_io h = [] ->
  (forall b, b ∈ bs -> 0 <= b /\ exists hd, hpage (page_of h (mk_PageId rel b)) hd) ->
  0 <= marked -> marked + Z.of_nat (length bs) < U32 ->
  exists m h', certify_blocks oldest o rel bs marked h = Some (Ok m, h') /\ revised h h' /\
    forall rel' b', 0 <= b' -> is_all_visible rel' b' (h_vm h') = true <->
      if decide (rel' = rel /\ b' ∈ bs) then certified h rel b' else is_all_visible rel' b' (h_vm h) = true.
Proof.
  revert h marked. induction bs as [|b bs IH]; intros h marked Hpo Hio Hb Hm Hlt.
  { exists marked, h. split; [done|]. split; [by destruct h|]. intros rel' b' _. by rewrite decide_False by (intros [_ Hn]; by apply not_elem_of_nil in Hn). }
  cbn [length] in Hlt. destruct (Hb b (list_elem_of_here _ _)) as [Hb0 Hp].
  destruct (certify_page_run h rel b marked) as (m1 & h1 & E1 & Hr1 & Hm1 & Hv1); [done..|lia|].
  assert (Hpg : forall id, page_of h1 id = page_of h id) by (intros id; by rewrite Hr1).
  destruct (IH h1 m1) as (m & h' & E & Hr & Hv).
  { by rewrite Hr1. } { by rewrite Hr1. } { intros b' Hin. rewrite Hpg. apply Hb. by right. } { lia. } { lia. }
  exists m, h'. cbn [certify_blocks]. unfold mbind, HM_bind. rewrite E1. split; [done|].
  split; [unfold revised in *; by rewrite Hr, Hr1|]. intros rel' b' Hb'. rewrite Hv by done.
  assert (certified h1 rel b' <-> certified h rel b') as Hce by (unfold certified; by rewrite Hpg).
  case_decide as H1; [rewrite decide_True by (destruct H1; split; [done|by right]); done|]. rewrite Hv1 by done.
  case_decide as H2; [destruct H2 as [-> ->]; rewrite decide_True by (split; [done|left]); done|].
  by rewrite decide_False by (intros [-> [->|?]%elem_of_cons]; naive_solver).
Qed.

(** ** The reader *)

Context (s : Snapshot) (Hlive : live_reader s o oldest).

(** The rows the tests are right about: no history of in-place updates under
    a cleared stamp, and no stamp of an aborted in-place update. *)
Definition certifiable (hdr : TupleHeader) : Prop :=
  mask_contains (infomask hdr) INPLACE_HISTORY = false /\
  (mask_contains (infomask hdr) UPDATED_IN_PLACE = true -> is_aborted o (xmax hdr) = false).

Lemma certified_xmin x : xmin_all_visible oldest o x = true ->
  is_current_xid s x = false /\ own_subxid_rolled_back s x = false /\ is_committed_before_snapshot x s o = true /\
  Xid_is_invalid x = false.
Proof using Hlive.
  unfold xmin_all_visible. intros [He%Z.eqb_eq|[Hx%Z.ltb_lt Hc]%andb_prop]%orb_prop; apply (old_committed s o oldest Hlive); try done.
  - subst x. apply (lr_base _ _ _ Hlive).
  - subst x. unfold is_committed. by rewrite (lr_frozen _ _ _ Hlive).
Qed.

Lemma certified_visible hdr :
  xmin_all_visible oldest o (xmin hdr) = true -> xmax_all_visible oldest o (xmax hdr) (infomask hdr) = true ->
  certifiable hdr -> is_visible hdr s o = Visible.
Proof using Hlive.
  intros Hmin Hmax [Hh Ha]. destruct (certified_xmin _ Hmin) as (Hc & Hr & Hb & Hi). unfold is_visible.
  destruct (mask_is_frozen _); [done|]. rewrite Hr, Hi, Hc, Hb, Hh. cbn [negb].
  destruct (Xid_is_invalid (xmax hdr)) eqn:Hxi; [done|]. unfold xmax_all_visible in Hmax. rewrite Hxi in Hmax. cbn [orb] in Hmax.
  apply andb_prop in Hmax as [Hx%Z.ltb_lt Hmax]. destruct (lr_ok _ _ _ Hlive) as [Hwf _].
  destruct (mask_contains (infomask hdr) UPDATED_IN_PLACE) eqn:Hip; cbn [andb] in Hmax.
  - rewrite Ha in Hmax by done. cbn [orb] in Hmax.
    destruct (old_committed s o oldest Hlive _ Hx Hmax) as (Hcur & Hrb & Hbef & _). by rewrite Hrb, Hcur, Hbef.
  - rewrite orb_false_r in Hmax. unfold is_aborted in Hmax. destruct (status o (xmax hdr)) eqn:Hst; try done.
    destruct (own_subxid_rolled_back s (xmax hdr)); [done|].
    destruct (own_reflect s (xmax hdr) Hwf) as [Ho|_]; [by rewrite (lr_own _ _ _ Hlive _ Ho) in Hst|].
    unfold is_committed_before_snapshot. rewrite Hst. by destruct (xid_in_progress s (xmax hdr)).
Qed.

Lemma certify_run h rel n :
  readable h rel n -> (forall hdr, row_header_of h rel n hdr -> certifiable hdr) ->
  exists m h', vacuum_mark_all_visible oldest o rel n h = Some (Ok m, h') /\ revised h h' /\
    (forall b, 0 <= b < n -> is_all_visible rel b (h_vm h') = true <-> certified h rel b) /\
    (forall rel' b, rel' <> rel -> 0 <= b -> is_all_visible rel' b (h_vm h') = true <-> is_all_visible rel' b (h_vm h) = true) /\
    vm_trusted s o h' rel n true.
Proof using Hlive.
  intros Hr Hrow. pose proof (rd_blocks _ _ _ Hr) as Hn.
  destruct (certify_blocks_run rel (seqZ 0 n) h 0) as (m & h' & E & Hrev & Hv); [apply Hr..| | | |].
  { intros b Hb%elem_of_seqZ. split; [lia|]. apply Hr. lia. }
  { lia. } { rewrite length_seqZ. lia. }
  assert (Hiff : forall b, 0 <= b < n -> is_all_visible rel b (h_vm h') = true <-> certified h rel b).
  { intros b Hb. rewrite Hv by lia. by rewrite decide_True by (rewrite elem_of_seqZ; split; [done|lia]). }
  exists m, h'. split; [done|]. split; [done|]. split; [done|]. split.
  { intros rel' b Hne Hb. rewrite Hv by done. by rewrite decide_False by tauto. }
  intros b i t hdr _ Hb Hav Hs Hi Ht. apply Hiff in Hav; [|done]. assert (page_of h' (mk_PageId rel b) = page_of h (mk_PageId rel b)) as Hpg
    by (by rewrite Hrev). rewrite Hpg in Hs. specialize (Hav t (list_elem_of_lookup_2 _ _ _ Hs)).
  unfold row_all_visible in Hav. pose proof Ht as Ht'. unfold tuple_header in Ht'. rewrite Ht' in Hav.
  apply andb_prop in Hav as [H1 H2]. unfold row_payload. rewrite certified_visible; try done.
  apply Hrow. exists b, (Z.to_nat i), t. done.
Qed.
End certify.
