(* ===== verification/AutoVacuum.v ===== *)
(** * The vacuum passes of the server (ultrasql-server, server_wal_recovery.rs and config.rs)

    The maintenance a server runs after every 64th commit and in its
    autovacuum cycle, as far as the heap and the transaction manager are
    concerned, and that no open transaction notices it. *)

From S2P Require Import Prelude CoreIds TupleHeader Snapshot Visibility Savepoint Lock Ssi TxnManager TxnSystem TxnIsolation Bytes Page PageSpec HeapMaps UndoLog UndoLogSpec UndoRead Heap HeapRedo HeapPage HeapTrace HeapLogic HeapInsert HeapScan HeapScanRefine HeapInPlace HeapVacuum HeapVacuumSpec.

(** ** Thresholds *)

Definition UNDO_GC_INTERVAL_COMMITS : Z := 64.
Definition AUTOVACUUM_SCALE_DENOMINATOR : Z := 1000000.

Record AutovacuumConfig := mk_AutovacuumConfig {
  vacuum_threshold : Z;
  vacuum_scale_factor_ppm : Z;
  analyze_threshold : Z;
  analyze_scale_factor_ppm : Z;
}.

Definition AutovacuumConfig_default : AutovacuumConfig := mk_AutovacuumConfig 50 200000 50 100000.

Definition scaled_threshold (base scale_factor_ppm estimated_rows : Z) : Z :=
  let scaled := estimated_rows * scale_factor_ppm / AUTOVACUUM_SCALE_DENOMINATOR in
  saturating_add U64 base (if scaled <? U64 then scaled else U64 - 1).

Definition vacuum_threshold_for_rows (c : AutovacuumConfig) (estimated_rows : Z) : Z :=
  scaled_threshold (vacuum_threshold c) (vacuum_scale_factor_ppm c) estimated_rows.

(** ** State *)

(** A table of the catalog snapshot: its lookup key and the configuration its
    options give. *)
Record TableEntry := mk_TableEntry { te_oid : Z; te_n_blocks : Z; te_key : string; te_config : AutovacuumConfig }.

Record Maintenance := mk_Maintenance {
  vacuum_commit_counter : Z;
  table_modifications : gmap string Z;
  pending_analyze_tables : gset string;
}.

Section passes.
Context {W : Type}.

Definition entry_blocks (h : Heap W) (e : TableEntry) : Z := Z.max (block_count h (te_oid e)) (te_n_blocks e).

Fixpoint vacuum_mark_visible_pages (oldest : Xid) (m : TransactionManager) (tables : list TableEntry) : HM W HeapError unit :=
  match tables with
  | [] => mret tt
  | e :: tables' =>
      block_count ← gets (fun h => entry_blocks h e);
      (if block_count =? 0 then mret tt else
       r ← try_ (vacuum_mark_all_visible oldest m (te_oid e) block_count); mret tt);;
      vacuum_mark_visible_pages oldest m tables'
  end.

Fixpoint autovacuum_tables (oldest : Xid) (m : TransactionManager) (wal : bool) (tables : list TableEntry) (a : Maintenance)
    : HM W HeapError Maintenance :=
  match tables with
  | [] => mret a
  | e :: tables' =>
      let modified := default 0 (table_modifications a !! te_key e) in
      blocks ← gets (fun h => entry_blocks h e);
      let estimated_rows := Z.min (blocks * 64) (U64 - 1) in
      if modified <? vacuum_threshold_for_rows (te_config e) estimated_rows
      then autovacuum_tables oldest m wal tables' a
      else
      r ← try_ (vacuum_heap oldest m wal (te_oid e));
      autovacuum_tables oldest m wal tables'
        (mk_Maintenance (vacuum_commit_counter a) (<[te_key e := 0]> (table_modifications a))
           ({[te_key e]} ∪ pending_analyze_tables a))
  end.

Definition run_autovacuum_cycle (m : TransactionManager) (wal : bool) (tables : list TableEntry) (a : Maintenance)
    : HM W HeapError Maintenance :=
  let oldest := vacuum_horizon m in
  r ← try_ (vacuum_undo_log oldest);
  a ← autovacuum_tables oldest m wal tables a;
  vacuum_mark_visible_pages oldest m tables;;
  mret a.

Definition note_commit_for_gc (m : TransactionManager) (tables : list TableEntry) (a : Maintenance)
    : HM W HeapError (Maintenance * TransactionManager) :=
  let n := wrap U64 (vacuum_commit_counter a + 1) in
  let a := mk_Maintenance n (table_modifications a) (pending_analyze_tables a) in
  if negb (n mod UNDO_GC_INTERVAL_COMMITS =? 0) then mret (a, m) else
  let oldest := vacuum_horizon m in
  r ← try_ (vacuum_undo_log oldest);
  vacuum_mark_visible_pages oldest m tables;;
  mret (a, (collect_ssi_garbage m (oldest_in_progress m)).1).
End passes.

(** ** An open transaction *)

Lemma open_reader ssi σ x t :
  reachable ssi σ -> handles σ !! x = Some t -> Xid_FROZEN < vacuum_horizon (mgr σ) ->
  live_reader (txn_snapshot t) (mgr σ) (vacuum_horizon (mgr σ)).
Proof.
  intros Hr Hx Hbase. pose proof (reachable_inv _ _ Hr) as Hσ. pose proof (si_core _ Hσ) as Hc.
  destruct (si_handle _ Hσ x t Hx) as [Hxid Hpar Hwf Hro Hsn Hfl]. destruct Hsn as [Hswf Hcur _ _ _ Hlive Hrb].
  assert (Hown : forall y, own (txn_snapshot t) y -> tm_clog (mgr σ) !! y = Some InProgress).
  { intros y [Heq|Hin%Hlive].
    - rewrite Hcur in Heq. subst y. apply (ci_top _ _ Hc _ _ (handle_fam _ _ _ Hx)).
    - apply (ci_sub _ _ Hc _ _ _ (handle_fam _ _ _ Hx) Hin). }
  assert (Hrolled : forall y, rolled_back (txn_snapshot t) y -> tm_clog (mgr σ) !! y = Some Aborted) by (intros y Hy; by apply Hro, Hrb).
  assert (Hnone : tm_clog (mgr σ) !! Xid_INVALID = None).
  { destruct (tm_clog (mgr σ) !! Xid_INVALID) eqn:E; [|done]. apply (clog_key_normal _ _ Hc) in E. unfold Xid_INVALID in E. lia. }
  split; [split| | | | | |].
  - done.
  - split; [intros Ho%Hown|split; [intros Ho%Hrolled|intros y Ho%Hown Hr2%Hrolled]]; congruence.
  - intros y Hy. by apply (status_running _ _ Hc), Hown.
  - intros y Hy. apply (status_terminal _ _ Hc); [done|by apply Hrolled].
  - by eapply vacuum_horizon_floor.
  - done.
  - done.
  - by rewrite (status_unknown _ _ Hc).
Qed.

(** ** Passes and readers *)

Section kept.
Context {W X : Type} `{XidStatusOracle X} (s : Snapshot) (o : X) (oldest : Xid) (tables : list TableEntry) (h0 : Heap W).
Hypothesis Hlive : live_reader s o oldest.

Definition table_ok (h : Heap W) (e : TableEntry) : Prop :=
  readable h (te_oid e) (entry_blocks h e) /\ 0 <= block_count h (te_oid e) /\
  forall hdr, row_header_of h (te_oid e) (entry_blocks h e) hdr -> row_ok s hdr /\ certifiable o hdr.
Hypothesis Htables : forall e, e ∈ tables -> table_ok h0 e.

(** A later heap with the same rows for the reader. *)
Record kept (h : Heap W) : Prop := {
  k_count : forall rel, block_count h rel = block_count h0 rel;
  k_read : forall e, e ∈ tables -> readable h (te_oid e) (entry_blocks h0 e);
  k_rows : forall rel n hdr, row_header_of h rel n hdr -> row_header_of h0 rel n hdr;
  k_visible : forall e, e ∈ tables ->
    visible_rows s o h (te_oid e) (entry_blocks h0 e) = visible_rows s o h0 (te_oid e) (entry_blocks h0 e);
}.

Lemma kept_blocks h e : kept h -> entry_blocks h e = entry_blocks h0 e.
Proof. intros Hk. unfold entry_blocks. by rewrite (k_count _ Hk). Qed.

Lemma kept_undo h : reads_as s o h0 h -> drained o oldest h -> kept h.
Proof.
  intros Hr Hd. pose proof Hr as (Hp & Hv & Hpo & Hio & Hc & _). split.
  - done.
  - intros e He. destruct (Htables e He) as (Hre & _ & _). split.
    + rewrite Hpo. apply Hre.
    + rewrite Hio. apply Hre.
    + intros b Hb. rewrite Hp. by apply Hre.
    + apply Hd.
    + apply Hre.
  - intros rel n hdr. unfold row_header_of. by setoid_rewrite Hp.
  - intros e _. by apply reads_as_rows.
Qed.

Lemma kept_sweep h h' : kept h -> swept_heap oldest o h h' -> kept h'.
Proof.
  intros Hk Hs. split.
  - intros rel. rewrite <- (k_count _ Hk). unfold block_count, counter. by rewrite (sh_pages _ _ _ _ Hs).
  - intros e He. eapply swept_readable; [done|by apply Hk].
  - intros rel n hdr (b & i & t & Hb & Hi & Ht). apply (k_rows _ Hk). exists b, i, t. split; [done|]. split; [|done].
    destruct (Forall2_lookup_r _ _ _ _ _ (sh_slots _ _ _ _ Hs _) Hi) as (v & Hv & Hsw). by apply swept_live in Hsw as ->.
  - intros e He. rewrite <- (k_visible _ Hk e He). eapply swept_rows; [done|done|by apply Hk|].
    intros hdr Hh%(k_rows _ Hk). by apply (Htables e He).
Qed.

Lemma kept_certify h h' : kept h -> revised h h' -> kept h'.
Proof.
  intros Hk Hr. split.
  - intros rel. rewrite <- (k_count _ Hk). unfold block_count, counter. by rewrite Hr.
  - intros e He. pose proof (k_read _ Hk e He) as Hre. rewrite Hr. split; apply Hre.
  - intros rel n hdr. rewrite Hr. apply (k_rows _ Hk).
  - intros e He. rewrite <- (k_visible _ Hk e He). by rewrite Hr.
Qed.
End kept.

Section cycle.
Context {W : Type} (s : Snapshot) (m : TransactionManager) (tables : list TableEntry) (h0 : Heap W).
Let oldest := vacuum_horizon m.
Hypothesis Hlive : live_reader s m oldest.
Hypothesis Htables : forall e, e ∈ tables -> table_ok s m h0 e.

Lemma autovacuum_tables_run wal es a h :
  (forall e, e ∈ es -> e ∈ tables) -> kept s m tables h0 h ->
  exists a' h', autovacuum_tables oldest m wal es a h = Some (Ok a', h') /\ kept s m tables h0 h'.
Proof using Hlive Htables.
  revert a h. induction es as [|e es IH]; intros a h Hin Hk; [by exists a, h|].
  assert (Hrest : forall e', e' ∈ es -> e' ∈ tables) by (intros e' He'; apply Hin; by right).
  assert (He : e ∈ tables) by (apply Hin; left). cbn [autovacuum_tables]. unfold mbind, HM_bind, gets.
  destruct (_ <? _); [by apply IH|]. unfold try_.
  destruct (vacuum_heap_run oldest m h (te_oid e) (entry_blocks h0 e) wal) as (r & h1 & E & Hs & _); [by apply Hk| |].
  { rewrite (k_count _ _ _ _ _ Hk). pose proof (Htables e He) as (_ & ? & _). unfold entry_blocks. lia. }
  rewrite E. apply IH; [done|]. by eapply kept_sweep.
Qed.

Lemma entry_trusted (h h' : Heap W) rel n :
  revised h h' -> (forall b, 0 <= b -> is_all_visible rel b (h_vm h') = true <-> is_all_visible rel b (h_vm h) = true) ->
  vm_trusted s m h rel n true -> vm_trusted s m h' rel n true.
Proof using.
  intros Hr Hv Ht b i t hdr _ Hb Hav Hs. rewrite Hr in Hs |- *. apply Hv in Hav; [|lia].
  exact (Ht b i t hdr eq_refl Hb Hav Hs).
Qed.

Lemma mark_pages_run es h :
  (forall e, e ∈ es -> e ∈ tables) -> NoDup (te_oid <$> es) -> kept s m tables h0 h ->
  exists h', vacuum_mark_visible_pages oldest m es h = Some (Ok tt, h') /\ kept s m tables h0 h' /\
    (forall rel n, rel ∉ te_oid <$> es -> vm_trusted s m h rel n true -> vm_trusted s m h' rel n true) /\
    (forall e, e ∈ es -> vm_trusted s m h' (te_oid e) (entry_blocks h0 e) true).
Proof using Hlive Htables.
  revert h. induction es as [|e es IH]; intros h Hin Hnd Hk.
  { exists h. split_and!; try done. intros e He. by apply not_elem_of_nil in He. }
  rewrite fmap_cons in Hnd. apply NoDup_cons in Hnd as [Hne Hnd].
  assert (He : e ∈ tables) by (apply Hin; left). pose proof (kept_blocks _ _ _ _ _ e Hk) as Hblk.
  assert (Hstep : exists r h1, (if entry_blocks h e =? 0 then mret tt else
       r ← try_ (vacuum_mark_all_visible oldest m (te_oid e) (entry_blocks h e)); mret tt) h = Some (Ok r, h1) /\
     kept s m tables h0 h1 /\ vm_trusted s m h1 (te_oid e) (entry_blocks h0 e) true /\
     (forall rel n, rel <> te_oid e -> vm_trusted s m h rel n true -> vm_trusted s m h1 rel n true)).
  { rewrite Hblk. destruct (Z.eqb_spec (entry_blocks h0 e) 0) as [Hz|Hz].
    { exists tt, h. split_and!; try done. intros b i t hdr _ Hb. lia. }
    destruct (certify_run oldest m s Hlive h (te_oid e) (entry_blocks h0 e)) as (k & h1 & E & Hrev & _ & Hoth & Htr).
    { by apply Hk. } { intros hdr Hh%(k_rows _ _ _ _ _ Hk). by apply (Htables e He). }
    exists tt, h1. unfold mbind, HM_bind, try_. rewrite E. split; [done|]. split; [by eapply kept_certify|]. split; [done|].
    intros rel n Hr. apply entry_trusted; [done|]. intros b Hb. by apply Hoth. }
  destruct Hstep as ([] & h1 & E & Hk1 & Ht1 & Ho1).
  destruct (IH h1) as (h' & E' & Hk' & Hother & Hes); [intros e' He'; apply Hin; by right|done|done|].
  exists h'. cbn [vacuum_mark_visible_pages]. unfold mbind at 1, HM_bind at 1, gets. cbn [mbind].
  unfold mbind, HM_bind in E |- *. rewrite E. split; [done|]. split; [done|]. split.
  - intros rel n Hnin Ht. rewrite fmap_cons, not_elem_of_cons in Hnin. destruct Hnin. apply Hother; [done|]. by apply Ho1.
  - intros e' [->|Hin']%elem_of_cons; [|by apply Hes]. by apply Hother.
Qed.
End cycle.


(** Vacuum of the undo log drops what nobody reads. At the vacuum
    horizon of a reachable state it leaves every row of every relation as it
    was for every open transaction, whether it ends in success or in a
    counter overflow; when it succeeds no record of a writer below the
    horizon is left. *)
Theorem undo_vacuum_keeps_reads {W} ssi σ x t (h : Heap W) :
  reachable ssi σ -> handles σ !! x = Some t -> Xid_FROZEN < vacuum_horizon (mgr σ) ->
  drained (mgr σ) (vacuum_horizon (mgr σ)) h ->
  exists r h', vacuum_undo_log (vacuum_horizon (mgr σ)) h = Some (r, h') /\
    (forall rel n, visible_rows (txn_snapshot t) (mgr σ) h' rel n = visible_rows (txn_snapshot t) (mgr σ) h rel n) /\
    (forall k, r = Ok k -> forall rel rec, rec ∈ records (relation_undo h' rel) -> vacuum_horizon (mgr σ) <= rec_writer rec).
Proof.
  intros Hr Hx Hb Hd. destruct (undo_vacuum_run _ _ _ (open_reader _ _ _ _ Hr Hx Hb) h Hd) as (r & h' & E & Hra & _ & Ho).
  exists r, h'. split; [done|]. split; [|done]. intros rel n. by apply reads_as_rows.
Qed.

