(* ===== verification/HeapExamples.v ===== *)
(** * Small tables: scans, vacuum and in-place updates

    Instances of the theorems on scans and vacuum, and runs on which the code
    departs from what its readers may expect: the cached decision of a scan,
    history of in-place updates under a cleared stamp, and an in-place update
    of a row deleted after the snapshot. *)

From S2P Require Import Prelude CoreIds TupleHeader Snapshot Visibility Savepoint Lock Ssi TxnManager TxnSystem TxnIsolation WalSink Bytes Page PageSpec HeapMaps UndoLog UndoLogSpec UndoRead WalBufferSink Heap HeapRedo HeapPage HeapReplay HeapTrace HeapLogic HeapInsert HeapTable HeapRecover HeapScan HeapScanRefine HeapInPlace HeapRollback HeapVacuum HeapVacuumSpec AutoVacuum.

(** The headers of the rows of a relation. *)
Definition row_headers {W} (h : Heap W) (rel n : Z) : list TupleHeader :=
  seqZ 0 n ≫= (fun b => omap (fun v => match v with SLive t => fst <$> decode (take TUPLE_HEADER_SIZE t) | _ => None end)
    (slots_of (page_of h (mk_PageId rel b)))).

Lemma row_headers_complete {W} (h : Heap W) rel n hdr : row_header_of h rel n hdr -> hdr ∈ row_headers h rel n.
Proof.
  intros (b & i & t & Hb & Hs & Ht). unfold row_headers. apply list_elem_of_bind. exists b.
  split; [|apply elem_of_seqZ; lia]. apply list_elem_of_omap. exists (SLive t).
  split; [by eapply list_elem_of_lookup_2|]. unfold tuple_header in Ht. by rewrite Ht.
Qed.

Definition settled_b (s : Snapshot) (hdr : TupleHeader) : bool :=
  negb (is_current_xid s (xmin hdr)) || (cmin hdr <? current_command s).
Definition no_history_b (hdr : TupleHeader) : bool :=
  negb (Xid_is_invalid (xmax hdr)) || negb (mask_contains (infomask hdr) INPLACE_HISTORY).

Lemma rows_checked {W} (h : Heap W) rel n s :
  snapshot_wf s -> forallb (fun hdr => settled_b s hdr && no_history_b hdr) (row_headers h rel n) = true ->
  forall hdr, row_header_of h rel n hdr -> settled s hdr /\ no_history hdr.
Proof.
  intros Hs Hf hdr Hr%row_headers_complete. rewrite forallb_forall in Hf.
  specialize (Hf hdr (proj1 (list_elem_of_In _ _) Hr)). apply andb_prop in Hf as [H1 H2].
  unfold settled_b, no_history_b in *. split.
  - intros Ho%is_current_xid_spec; [|done]. rewrite Ho in H1. cbn in H1. lia.
  - intros Hx. rewrite Hx in H2. cbn in H2. by apply negb_true_iff in H2.
Qed.

Definition committed_below (limit : Xid) : Xid -> XidStatus := fun x => if x <? limit then Committed else InProgress.

(** A reader that started after transactions 5 and 6 and before 7. *)
Definition reader_at_7 : Snapshot := Snapshot_new 7 9 8 0 [7].

Lemma reader_at_7_ok : reader_ok reader_at_7.
Proof.
  split; [apply Snapshot_new_wf|]. unfold own, rolled_back. cbn. split_and!; try set_solver.
Qed.

Lemma state3_readable : readable (state3 0) 7 1.
Proof.
  destruct (run_changes no_crc logging_sink (logging_log 10) 10 0 1 ltac:(lia) (empty_heap 0) [state1 0; state2 0; state3 0] [])
    as (L & Hs & _).
  - apply sample_run; [eexists; vm_compute; reflexivity..|vm_compute; reflexivity|vm_compute; reflexivity|vm_compute; reflexivity].
  - by apply empty_started.
  - destruct Hs as (_ & _ & _ & _ & Hp & _). split.
    + vm_compute. reflexivity.
    + vm_compute. reflexivity.
    + intros b _. destruct (Hp (mk_PageId 7 b)) as (hd & Hpg & _). by exists hd.
    + change (relation_undo (state3 0) 7) with UndoRelationLog_default. apply default_wf.
    + unfold U32. lia.
Qed.



(** ** Rows of the current command *)

Definition quiet_heap : Heap unit := mk_Heap ∅ [] false ∅ ∅ 0 ∅ ∅ ∅ [] ∅ ∅ tt.
Definition pair_row (id val : Z) : list Z := 0 :: i32_bytes id ++ i32_bytes val.
Definition run_quiet {A} (m : HM unit HeapError A) (h : Heap unit) : Heap unit :=
  match m h with Some (_, h') => h' | None => h end.
Definition insert_quiet (x : Xid) (c : CommandId) (id val : Z) (h : Heap unit) : Heap unit :=
  run_quiet (insert no_crc 1 7 (pair_row id val) (mk_InsertOptions x c 2 None false false)) h.

(** Transaction 10 inserts a row in its first command and another in its
    second, and scans in its second. *)
Definition own_rows : Heap unit := insert_quiet 10 1 2 20 (insert_quiet 10 0 1 10 quiet_heap).
Definition own_reader : Snapshot := Snapshot_new 10 11 10 1 [].

(** The cached decision ignores the command of the reader's own rows.
    A transaction that inserted one row in its first command and one in its
    second, scanning with the snapshot of its second command, must see the
    first row only; the walker and the visitor both return the second row
    too, because the decision made for the first row is reused for it (the
    key of the cache is [xmin] and the information mask, and the predicate
    also reads [cmin]). *)
Theorem scan_cache_ignores_command :
  map (fun t => t.2) (visible_rows own_reader nobody own_rows 7 1) = [pair_row 1 10] /\
  (exists rows h', walk_relation own_reader nobody 5 5000 7 1 false own_rows = Some (Ok rows, h') /\
     map (fun t => t.2) rows = [pair_row 1 10; pair_row 2 20]) /\
  (exists h', for_each_visible own_reader nobody (fun _ _ p acc => Ok (acc ++ [p])) 7 1 [] own_rows =
     Some (Ok [pair_row 1 10; pair_row 2 20], h')).
Proof.
  split; [vm_compute; reflexivity|]. split.
  - eexists _, _. split; [vm_compute; reflexivity|]. vm_compute. reflexivity.
  - eexists. vm_compute. reflexivity.
Qed.

(** * Vacuum of a small table

    A page checker, and a table with a row deleted and a row updated in place
    by a committed transaction, vacuumed while another transaction is open. *)

(** ** Checking a page *)

Definition live_b (p : Page) (i : Z) : bool := bool_decide (ItemId_flags (item p i) = Normal).

Definition hpage_b (p : Page) : bool :=
  match PageHeader_decode p with
  | Err _ => false
  | Ok h =>
      let slots := seqZ 0 (n_slots h) in
      (zlen p =? PAGE_SIZE) && forallb (fun b => (0 <=? b) && (b <? 256)) p &&
      forallb (fun i => negb (live_b p i) || ((hd_upper h <=? start p i) && (start p i + extent p i <=? hd_special h))) slots &&
      forallb (fun i => forallb (fun j => (i =? j) || negb (live_b p i) || negb (live_b p j) ||
        (start p i + extent p i <=? start p j) || (start p j + extent p j <=? start p i)) slots) slots &&
      forallb (fun v => match v with SLive t => bool_decide (snd <$> decode (take TUPLE_HEADER_SIZE t) = Some TUPLE_HEADER_SIZE) | _ => true end)
        (page_slots p h)
  end.

Lemma hpage_checked p : hpage_b p = true -> exists h, hpage p h.
Proof.
  unfold hpage_b. destruct (PageHeader_decode p) as [h|] eqn:E; [|done].
  intros [[[[Hl Hb]%andb_prop Hlive]%andb_prop Hd]%andb_prop Ht]%andb_prop. rewrite forallb_forall in Hb, Hlive, Hd, Ht.
  assert (Hs : forall i, 0 <= i < n_slots h -> In i (seqZ 0 (n_slots h))) by (intros i Hi; apply list_elem_of_In, elem_of_seqZ; lia).
  assert (Hn : forall i, live p i -> negb (live_b p i) = false).
  { intros i Hi. unfold live_b. by rewrite bool_decide_true. }
  exists h. split; [split|].
  - lia.
  - apply Forall_forall. intros b Hin%list_elem_of_In%Hb. unfold is_byte. lia.
  - done.
  - intros i Hi Hv. specialize (Hlive i (Hs i Hi)). cbn in Hlive. rewrite (Hn i Hv) in Hlive. cbn [orb] in Hlive. lia.
  - intros i j Hi Hj Hne Hvi Hvj. specialize (Hd i (Hs i Hi)). rewrite forallb_forall in Hd. specialize (Hd j (Hs j Hj)).
    cbn in Hd. rewrite (Hn i Hvi), (Hn j Hvj) in Hd. lia.
  - intros i t Hi%list_elem_of_lookup_2%list_elem_of_In%Ht. apply bool_decide_eq_true in Hi. unfold tuple_ok, tuple_header.
    destruct (decode _) as [[hdr k]|]; [|done]. exists hdr. cbn in Hi. congruence.
Qed.

(** ** A table *)

(** Three rows of the bootstrap transaction; transaction 3 deletes the first,
    adds 100 to the second and commits; transaction 4 is open. *)
Definition vacuum_table : Heap unit :=
  let tid slot := mk_TupleId (mk_PageId 7 0) slot in
  let h := insert_quiet 1 0 3 30 (insert_quiet 1 0 2 20 (insert_quiet 1 0 1 10 quiet_heap)) in
  let h := run_quiet (delete no_crc (tid 0) (mk_DeleteOptions 3 0 None false false)) h in
  run_quiet (update_int32_pair_tid_inplace_undo no_crc (tid 1) (Snapshot_new 3 4 3 0 []) (committed_below 3)
    (fun _ _ => true) 1 100 3 0 None false) h.

Definition vacuum_log_entry : UndoEntry := mk_UndoEntry (mk_TupleId (mk_PageId 7 0) 1) 3 0 (pair_row 2 20).

Lemma vacuum_table_log : relation_undo vacuum_table 7 = run_uops [UPush (REntry vacuum_log_entry)].
Proof. vm_compute. reflexivity. Qed.

Lemma vacuum_log_ok : log_wf (relation_undo vacuum_table 7) /\ records (relation_undo vacuum_table 7) = [REntry vacuum_log_entry].
Proof.
  rewrite vacuum_table_log. apply (run_uops_spec UndoRelationLog_default []); [apply default_wf|done|]. cbn. unfold U64. lia.
Qed.

Lemma vacuum_table_undo rel : rel <> 7 -> relation_undo vacuum_table rel = UndoRelationLog_default.
Proof.
  intros Hne. assert (h_undo vacuum_table = {[7 := relation_undo vacuum_table 7]}) as E by (vm_compute; reflexivity).
  unfold relation_undo. rewrite E. by rewrite lookup_singleton_ne.
Qed.

Lemma vacuum_table_readable : readable vacuum_table 7 1.
Proof.
  split.
  - vm_compute. reflexivity.
  - vm_compute. reflexivity.
  - intros b Hb. replace b with 0 by lia. apply hpage_checked. vm_compute. reflexivity.
  - apply vacuum_log_ok.
  - unfold U32. lia.
Qed.

Lemma vacuum_table_drained : drained (mgr example_vacuum) 4 vacuum_table.
Proof.
  intros rel. destruct (decide (rel = 7)) as [->|Hne].
  - destruct vacuum_log_ok as [Hw ->]. split; [done|]. intros r ->%list_elem_of_singleton _. vm_compute. reflexivity.
  - rewrite vacuum_table_undo by done. split; [apply default_wf|]. intros r Hr. by apply not_elem_of_nil in Hr.
Qed.

Definition open_snapshot : Snapshot := Snapshot_new 5 5 4 0 [].

Lemma example_vacuum_open : exists t, handles example_vacuum !! 4 = Some t /\ txn_snapshot t = open_snapshot.
Proof. eexists. split; vm_compute; reflexivity. Qed.

Lemma example_vacuum_reachable : reachable None example_vacuum.
Proof. apply (run_ops_reach _ [OBegin ReadCommitted; OCommit 3; OBegin RepeatableRead]). vm_compute. reflexivity. Qed.

(** The conditions on a row, as a test. *)
Definition row_b {X} `{XidStatusOracle X} (s : Snapshot) (o : X) (hdr : TupleHeader) : bool :=
  negb (is_current_xid s (xmin hdr)) && (negb (mask_is_frozen (infomask hdr)) || Xid_is_invalid (xmax hdr)) &&
  negb (mask_contains (infomask hdr) INPLACE_HISTORY) &&
  (negb (mask_contains (infomask hdr) UPDATED_IN_PLACE) || negb (is_aborted o (xmax hdr))).

Lemma row_checked {X} `{XidStatusOracle X} s (o : X) hdr :
  snapshot_wf s -> row_b s o hdr = true -> (row_ok s hdr /\ certifiable o hdr) /\ settled s hdr.
Proof.
  intros Hs [[[H1 H2]%andb_prop H3]%andb_prop H4]%andb_prop.
  assert (~ own s (xmin hdr)) as Hno by (intros Ho%is_current_xid_spec; [by rewrite Ho in H1|done]).
  split; [split; [split|split]|].
  - by intros Ho.
  - intros Hf. rewrite Hf in H2. by apply Z.eqb_eq in H2.
  - by apply negb_true_iff.
  - intros Hi. rewrite Hi in H4. by apply negb_true_iff.
  - by intros Ho.
Qed.

Lemma vacuum_table_rows hdr : row_header_of vacuum_table 7 1 hdr ->
  (row_ok open_snapshot hdr /\ certifiable (mgr example_vacuum) hdr) /\ settled open_snapshot hdr.
Proof.
  intros Hr%row_headers_complete. apply row_checked; [apply Snapshot_new_wf|].
  assert (forallb (row_b open_snapshot (mgr example_vacuum)) (row_headers vacuum_table 7 1) = true) as Hf by (vm_compute; reflexivity).
  generalize (row_headers vacuum_table 7 1) Hr Hf. clear. intros l Hr Hf. rewrite forallb_forall in Hf.
  by apply Hf, list_elem_of_In.
Qed.


Lemma undo_vacuum_keeps_reads_witness :
  exists r h', vacuum_undo_log (vacuum_horizon (mgr example_vacuum)) vacuum_table = Some (r, h') /\
    visible_rows open_snapshot (mgr example_vacuum) h' 7 1 = visible_rows open_snapshot (mgr example_vacuum) vacuum_table 7 1.
Proof.
  destruct example_vacuum_open as (t & Ht & Hs).
  destruct (undo_vacuum_keeps_reads None example_vacuum 4 t vacuum_table) as (r & h' & E & Hv & _).
  - exact example_vacuum_reachable.
  - exact Ht.
  - vm_compute. reflexivity.
  - change (vacuum_horizon (mgr example_vacuum)) with 4. exact vacuum_table_drained.
  - exists r, h'. split; [exact E|]. rewrite Hs in Hv. apply Hv.
Defined.


(** * In-place history under a cleared stamp

    When a transaction that updated a row in place rolls back and an earlier
    in-place update of the row is still in the undo log, the rollback clears
    the stamp and leaves a flag that tells readers to look in the log. Two
    readers of such rows that do not. *)

(** Transaction [x], started after all below it finished, adds 100 to the
    value of a row of relation 7. *)
Definition add_100 (x : Xid) (slot : Z) (h : Heap unit) : Heap unit :=
  run_quiet (update_int32_pair_tid_inplace_undo no_crc (mk_TupleId (mk_PageId 7 0) slot) (Snapshot_new x (x + 1) x 0 [])
    (committed_below x) (fun _ _ => true) 1 100 x 0 None false) h.

Definition two_pairs : Heap unit := insert_quiet 1 0 2 20 (insert_quiet 1 0 1 10 quiet_heap).

(** Transaction 3 updates both rows and commits; transaction 5 updates both
    and rolls back. *)
Definition updated_twice : Heap unit := add_100 5 1 (add_100 5 0 (add_100 3 1 (add_100 3 0 two_pairs))).
Definition after_rollback : Heap unit := run_quiet (rollback_in_place_updates 5) updated_twice.

Definition pair_entry (x : Xid) (slot id v : Z) : Rec :=
  REntry (mk_UndoEntry (mk_TupleId (mk_PageId 7 0) slot) x 0 (pair_row id v)).
Definition updated_records : list Rec := [pair_entry 3 0 1 10; pair_entry 3 1 2 20; pair_entry 5 0 1 110; pair_entry 5 1 2 120].

Lemma updated_log_ok : log_wf (relation_undo updated_twice 7) /\ records (relation_undo updated_twice 7) = updated_records.
Proof.
  assert (relation_undo updated_twice 7 = run_uops (map UPush updated_records)) as -> by (vm_compute; reflexivity).
  apply (run_uops_spec UndoRelationLog_default []); [apply default_wf|done|]. cbn. unfold U64. lia.
Qed.

Lemma updated_undo rel : rel <> 7 -> relation_undo updated_twice rel = UndoRelationLog_default.
Proof.
  intros Hne. assert (h_undo updated_twice = {[7 := relation_undo updated_twice 7]}) as E by (vm_compute; reflexivity).
  unfold relation_undo. rewrite E. by rewrite lookup_singleton_ne.
Qed.

Definition updated_page_header : PageHeader := mk_PageHeader 0 0 0 KHeap 32 8094 8192 1.
Definition updated_header (slot : Z) : TupleHeader := mk_TupleHeader 1 5 0 0 1088 2 0 (mk_TupleId (mk_PageId 7 0) slot).

Lemma updated_page_ok : page_ok (page_of updated_twice (mk_PageId 7 0)) updated_page_header.
Proof.
  destruct (hpage_checked (page_of updated_twice (mk_PageId 7 0))) as [h [Hp _]]; [vm_compute; reflexivity|].
  assert (PageHeader_decode (page_of updated_twice (mk_PageId 7 0)) = Ok updated_page_header) as E by (vm_compute; reflexivity).
  pose proof (po_header _ _ Hp) as E'. rewrite E in E'. apply Ok_inj in E'. by subst.
Qed.

Lemma updated_slot slot id v : (slot, id, v) ∈ [(0, 1, 210); (1, 2, 220)] ->
  page_slots (page_of updated_twice (mk_PageId 7 0)) updated_page_header !! Z.to_nat slot =
    Some (SLive (thbytes (updated_header slot) ++ pair_row id v)).
Proof. intros Hin. repeat (apply elem_of_cons in Hin as [[= -> -> ->]|Hin]; [vm_compute; reflexivity|]). by apply not_elem_of_nil in Hin. Qed.

Lemma updated_undoable : undoable 5 updated_twice.
Proof.
  split.
  - split; vm_compute; reflexivity.
  - vm_compute. reflexivity.
  - intros rel. destruct (decide (rel = 7)) as [->|Hne]; [apply updated_log_ok|]. rewrite updated_undo by done. apply default_wf.
  - intros rel r Hin Hx. destruct (decide (rel = 7)) as [->|Hne]; [|rewrite updated_undo in Hin by done; by apply not_elem_of_nil in Hin].
    rewrite (proj2 updated_log_ok) in Hin.
    assert (exists slot id v, (slot, id, v) ∈ [(0, 1, 210); (1, 2, 220)] /\ exists w, r = pair_entry 5 slot id w /\ Forall is_byte (pair_row id w))
      as (slot & id & v & Hs & w & -> & Hb).
    { repeat (apply elem_of_cons in Hin as [->|Hin]; [first [done
        |exists 0, 1, 210; split; [left|]; eexists; split; [reflexivity|]; repeat constructor; discriminate || reflexivity
        |exists 1, 2, 220; split; [right; left|]; eexists; split; [reflexivity|]; repeat constructor; discriminate || reflexivity]|]).
      by apply not_elem_of_nil in Hin. }
    split; [done|]. exists updated_page_header. split; [apply updated_page_ok|]. split; [by split|].
    intros i Ht. cbn in Ht. apply bool_decide_eq_true in Ht. injection Ht as <-.
    assert (0 <= slot < 2) as Hr by (repeat (apply elem_of_cons in Hs as [[= -> -> ->]|Hs]; [lia|]); by apply not_elem_of_nil in Hs).
    split; [done|]. eexists. split; [by apply updated_slot|]. vm_compute. done.
Qed.


(** Transaction 4 begins between the start and the commit of transaction 3. *)
Definition history_ops : list sys_op :=
  [OBegin ReadCommitted; OBegin RepeatableRead; OCommit 3; OBegin ReadCommitted; OAbort 5].
Definition history_sys : sys := foldl sys_step (sys_init None) history_ops.

Definition later_reader : Snapshot := Snapshot_new 6 7 6 0 [].

(** The walker loses rows with in-place history. After a rolled-back
    in-place update over a committed one, both rows of a table carry the
    history flag with a cleared stamp; a later reader is entitled to both,
    the visitor returns both, and the walker returns the first only: for the
    first row it caches that rows like it are not [Visible], and takes the
    second for invisible. *)
Theorem walker_loses_history_rows :
  map snd (visible_rows later_reader (mgr history_sys) after_rollback 7 1) = [pair_row 1 110; pair_row 2 120] /\
  (exists h', for_each_visible later_reader (mgr history_sys) (fun _ _ p acc => Ok (acc ++ [p])) 7 1 [] after_rollback =
     Some (Ok [pair_row 1 110; pair_row 2 120], h')) /\
  (exists rows h', walk_relation later_reader (mgr history_sys) 5 5000 7 1 false after_rollback = Some (Ok rows, h') /\
     map snd rows = [pair_row 1 110]).
Proof.
  split; [vm_compute; reflexivity|]. split.
  - eexists. vm_compute. reflexivity.
  - eexists _, _. split; [vm_compute; reflexivity|]. vm_compute. reflexivity.
Qed.

(** Certification ignores in-place history. In a reachable state of the
    transaction manager, transaction 4 holds a snapshot taken before
    transaction 3 committed an in-place update of both rows, and transaction
    5's update of both rows was rolled back. The certification pass at the
    vacuum horizon marks the page all-visible, since the stamps are cleared;
    the scan of transaction 4 through the map then returns the bytes
    transaction 3 wrote instead of the rows its snapshot is entitled to. *)
Theorem certification_ignores_history :
  reachable None history_sys /\
  exists t, handles history_sys !! 4 = Some t /\
    let s := txn_snapshot t in
    let m := mgr history_sys in
    map snd (visible_rows s m after_rollback 7 1) = [pair_row 1 10; pair_row 2 20] /\
    exists h', vacuum_mark_all_visible (vacuum_horizon m) m 7 1 after_rollback = Some (Ok 1, h') /\
      exists rows h2, walk_relation s m 5 5000 7 1 true h' = Some (Ok rows, h2) /\
        map snd rows = [pair_row 1 110; pair_row 2 120].
Proof.
  split; [apply (run_ops_reach _ history_ops); vm_compute; reflexivity|].
  eexists. split; [vm_compute; reflexivity|]. split; [vm_compute; reflexivity|].
  eexists. split; [vm_compute; reflexivity|]. eexists _, _. split; [vm_compute; reflexivity|]. vm_compute. reflexivity.
Qed.

(** ** A row deleted after the snapshot *)

(** Transaction 4 begins before transaction 3 commits its deletion of the
    first row. *)
Definition deleted_sys : sys := foldl sys_step (sys_init None) [OBegin ReadCommitted; OBegin RepeatableRead; OCommit 3].
Definition deleted_by_3 : Heap unit :=
  run_quiet (delete no_crc (mk_TupleId (mk_PageId 7 0) 0) (mk_DeleteOptions 3 0 None false false)) two_pairs.

